(* ===== verification/_CoqProject ===== *)
-Q . S2P
Prelude.v
Bstream.v
Chunkenc.v
Wal.v
WalProofs.v
WalTruncate.v
WalSafety.v
Gofloat.v
Gofloat64.v
Gostring.v
Names.v
Tsdb.v
Glob.v
Index.v
IndexProofs.v
IndexSelect.v
HeadRecord.v
Head.v
HeadSeries.v
HeadStore.v
HeadCommit.v
HeadOps.v
HeadDurable.v
Compact.v
CompactProofs.v
BlockFile.v
BlockIndex.v
BlockLaws.v
BlockOpen.v
Block.v
BlockServe.v
BlockWrite.v
BlockCompact.v
BlockSafe.v
BlockPanic.v
BlockDir.v
BlockDirCrash.v
Db.v
DbMerge.v
DbState.v
DbQuery.v
DbReport.v
DbMeta.v
DbRestart.v
Utf8.v
Logql.v
LogqlProofs.v
LogqlParse.v
LogqlPrint.v
LogBloom.v
LogChunk.v
LogChunkProofs.v
LogChunkLife.v
LogSearch.v
LogSearchOrder.v
LogSearchExact.v
LogStore.v
LogStoreInv.v
LogStoreSeal.v
LogStoreRecover.v
LogStoreLife.v
LogStoreWal.v
LogStoreChunks.v
LogStoreSample.v
Sketch.v
SketchBins.v
SketchMerge.v
SketchCodec.v
SketchCodecProofs.v
SketchStore.v
SketchStoreSpec.v
SketchStoreLife.v
SketchSample.v
Aggregator.v
AggregatorFlush.v
AggregatorLife.v
AggregatorRuns.v
Monitor.v
MonitorProofs.v
MonitorDurable.v
