(* ===== verification/Prelude.v ===== *)
(** * Ozymandias: a verification library for the observability platform

    Ozymandias collects metrics, logs and traces on hosts (the agent) and stores,
    queries and alerts on them (the server, ozyd).  This library models the
    server's metric database, its log store and log queries, its quantile sketches
    and their store, and its monitors, and the agent's aggregator, from the Go
    source under src/, and proves what makes them correct.

    ** The program's parts and where they are modelled

    A sample is a timestamp (int64 milliseconds) and a float64.  Samples of one
    series go into compressed chunks ([internal/tsdb/chunkenc]).  The head
    ([internal/tsdb/head]) holds the recent chunks of every series in memory; each
    batch is first written to the write-ahead log ([internal/tsdb/wal]) and, after
    a crash, replayed from it.  Series are found through an index of tags
    ([internal/tsdb/index]).  Old head data is cut into immutable blocks, which
    compaction merges ([internal/tsdb/compact], [internal/tsdb/db]).  Logs go
    through a log of their own into the heads of their streams, which are sealed
    day by day into compressed blocks of chunk files ([internal/logstore]) with a
    bloom filter each; a query ([internal/query/logql]) is split into label
    matchers and filters, and a search merges heads and blocks.  A distribution is
    a sketch of geometric buckets ([internal/sketch]), stored per series and second
    in a key-value store ([internal/sketchstore]).  On the hosts the aggregator
    ([internal/agent/aggregator]) collects samples of each context (kind, name and
    tags) in buckets of one flush interval and sends a point per closed bucket.
    Monitors
    ([internal/monitor]) evaluate queries on a schedule, step the alert state of
    each group and commit the outcome to the metadata database
    ([internal/meta/monitors.go]).

    - [Bstream]: bstream.go, the bit writer and reader.
    - [Chunkenc]: chunk.go, the delta-of-delta and XOR chunk encoding.
    - [Wal], [WalProofs]: wal.go and reader.go, the log's writer over a directory
      of segments and its reader; [WalTruncate]: truncate.go, repair and
      checkpoints; [WalSafety]: their theorems.
    - [Gofloat]: float64 comparison on bit patterns; [Gofloat64]: float64
      arithmetic on them, over the Standard Library's SpecFloat, with the lemmas
      that whole numbers below 2^53 are exact; [Gostring]: Go strings as lists of
      bytes and their order; [Utf8]: runes and case folding.
    - [Names]: pkg/wire/names.go, metric names and tags.
    - [Tsdb], [Glob]: tsdb.go, series identity, selectors and glob matching.
    - [Index], [IndexProofs], [IndexSelect]: index.go, select.go, metadata.go,
      postings, their algebra and selection against the interface [Lookup].
    - [HeadRecord]: record.go, the log records; [Head]: head.go and replay.go, the
      head itself; [HeadSeries] (one series), [HeadStore] (the abstract store),
      [HeadCommit] and [HeadOps] (Append, Truncate, Select against it),
      [HeadDurable] (the log's meaning, replay, and what a checkpoint keeps).
    - [Compact], [CompactProofs]: compact.go, the planner and the merge, with the
      block list operations of db/maintain.go and db/db.go, over the interface
      [BlockReader] of an open block.
    - [BlockFile] (chunks.go, indexfile.go: the two binary files and their
      decoders), [BlockIndex], [BlockLaws], [BlockOpen] (what the reader makes of
      them), [Block] (write.go, block.go: the writer and the open block),
      [BlockServe], [BlockWrite] (round trip, queries, atomic
      publication), [BlockCompact] (an open block is a [BlockReader], and
      compaction end to end), [BlockSafe] and [BlockPanic] (damaged and arbitrary
      files), [BlockDir], [BlockDirCrash] (the directories of
      blocks over a file system that loses power: publication, tombstones,
      deletion, cleaning at startup).
    - [Db]: db.go, query.go, maintain.go, the database over head and blocks;
      [DbMerge] (the merge of a query), [DbState] (the steps of a running database
      and their invariant), [DbQuery] (queries and block cuts in it), [DbReport]
      (what an append reports), [DbMeta] (cardinality, the size cap),
      [DbRestart] (startup over the blocks and the log, and whole lives of a
      database with restarts).
    - [Logql] (ast.go, match.go, plan.go, needs.go: the tree of a log query, its
      meaning, its split and the text it needs), [LogqlProofs]; [LogqlParse]
      (parse.go and the printer), [LogqlPrint] (round trip and
      termination).
    - [LogBloom] (bloom.go), [LogChunk] (chunk.go: blocks, footers, the writer),
      [LogChunkProofs], [LogChunkLife] (a chunk file through failures and crashes).
    - [LogSearch] (search.go), [LogSearchOrder], [LogSearchExact] (the merge, its order and its exactness).
    - [LogStore] (store.go, catalog.go: streams, appends, sealing, truncation of
      the log, retention, recovery) over the interfaces [StoreWal] of its log and
      [ChunkFiles] of its chunk files; [LogStoreInv] (its records, the
      invariant and the interfaces' laws), [LogStoreSeal] (chunk operations and
      sealing), [LogStoreRecover] (appends and recovery), [LogStoreLife] (runs);
      [LogStoreWal] and [LogStoreChunks] discharge the interfaces with the
      byte-level models; [LogStoreSample] runs one store.
    - [Sketch] (internal/sketch and the validation of pkg/wire/sketches.go),
      [SketchBins] (a run of buckets holds the histogram of its observations),
      [SketchMerge] (sketches and their observations, the bounds of any sketch, and
      quantiles), [SketchCodec] and [SketchCodecProofs] (encode.go, restoring a
      sketch, and merging what was stored).
    - [SketchStore] (sketchstore.go over the parameter [Pebble]),
      [SketchStoreSpec] (the order of keys, the abstract store and the relation),
      [SketchStoreLife] (each operation, and runs); [SketchSample]: instances.
    - [Aggregator] (aggregator.go, agenttags.go, the first bucket of
      selfmetrics/report.go: adding a sample, flushing shard by shard, the flush
      loop as a run of events), [AggregatorFlush] (what a flush of one context
      sends, the walk over a counter's gaps), [AggregatorLife] (the ledger of
      accepted samples and the invariant of a run), [AggregatorRuns] (the
      promises, tags under the cap, two small agents that run).
    - [Monitor]: spec levels, state.go, advance.go, one evaluation and its commit;
      [MonitorProofs]: the state machine over traces of observations;
      [MonitorDurable]: commits, restarts and query changes.

    ** How code becomes definitions

    A w-bit integer is a [Z] with its wrap-around written out ([uint64], [int64]
    and so on, below); a float64 is its 64-bit pattern; bytes and strings are
    lists of [Z]; a Go map is a [gmap]; a time.Time is a number of nanoseconds
    since the zero time.  A pure function is a function; a method that changes its
    receiver and may fail is a computation of the monad [SE], whose state survives
    the error, as Go's does.  System calls are answered by an explicit list of
    outcomes, so that a theorem about a log holds for every way the disk can fail.
    Locks are not modelled: each operation of the head, the log and the block list
    that changes state holds its lock throughout and is one step.  Where the code
    gives up its locks in the middle, a block cut and a query, the parts are steps
    of the relation [db_step] and run between one another; a flush of the
    aggregator is one event per shard, and samples arrive between them.

    Code that is not in the repository, or that a theorem does not need, is a
    parameter: strings.ToLower in [Names], the case table of runes, ParseFloat and
    FormatFloat in [Logql], zstd ([Zstd] with its round trip), the JSON encoding of
    a log and the order of a Go map in [LogStore], the tie order of sort.Slice in
    [LogSearch], math.Log and math.Pow in [Sketch], the key-value store ([Pebble]
    with [PebbleLaws]), the seeded hash of a context's key, the draws of a reservoir
    and the order of a map in [Aggregator], the rendering of notifications in [Monitor].  meta.json is
    its value, a ULID a number that the caller of a write chooses.

    ** What the theorems show

    - Chunks: encoding round trips on every sample sequence, resuming an encoder
      from its bytes is invisible, damaged bytes never decode silently short.
    - Log: whatever the system calls answer, the log replays to a prefix of each
      batch, the whole batch when it was acknowledged; crashes and interrupted
      truncations lose only what was not durable; damage is reported.
    - Series and index: identity, canonical tags, globs, exact selection and
      metadata over any lawful index, and that the head's postings are lawful.  An
      index holds the metric name as a tag, and takes a selector without a metric
      for one of every metric; [Selector.Matches] does neither, and the two agree on
      selectors that name a metric and do not mention the key of the name.
    - Head: Append, Truncate and Select refine an abstract store of samples per
      series; replaying the log rebuilds it; checkpoints keep what is live.
    - Compaction: under one width limit the planner's runs are contiguous and the
      merge is lossless, over the interface and over the block files.
    - Blocks: a written block reads back what was written and answers every
      selection exactly; it is visible whole or not at all; one damaged byte is an
      error or harmless; no file makes the reader index out of range, in its table
      of postings, its list of series, its sections or the bits of a chunk.
    - Database: a query between the steps of appends, cuts, compactions and log
      truncations returns what was stored when it began and nothing that is not
      stored when it ends; a cut moves samples and loses none; an append's report
      is that of its entries one by one; cardinality is exact, the size cap minimal.
    - Monitors: NO_DATA is characterised by the observations alone, and ALERT by
      those since the last NO_DATA; notifications are complete and spaced;
      evaluations are durable before they are adopted, but for the rows the first
      one after an edit of the query drops; a restart is invisible.
    - Restarts: from a first start, through appends, cuts, compactions and
      restarts, a database loses no stored sample; block directories survive power
      cuts at any point.  A power cut there leaves the contents of a file that was
      not synced arbitrary and keeps or loses each unsynced directory entry; a sync
      of a file makes its contents durable, one of a directory only its entries.
    - Log queries: the parser ends, its printed form parses back, the split into
      matchers and filters is exact, and a block's filter never hides a log from a
      query whose attribute patterns are valid UTF-8.
    - Log store: an acknowledged log is stored exactly once through failures,
      crashes and restarts until it expires; a chunk file keeps every acknowledged
      block; a search returns exactly the matching logs in order, page by page,
      when logs carry their stream's labels (MaxStreams folded none), the query's
      patterns are valid UTF-8, and the scan budget stops no page before its first
      entry.
    - Sketches: the same observations give the same buckets and the same answer to
      every quantile whatever the order, the merges and the stores and reads in
      between; a quantile is the estimate of the bucket its rank falls in; a run of
      buckets stays within its bound; any bytes decode to an error or a well-formed
      sketch.
    - Sketch store: it implements a map from series and second to value under any
      failures of the key-value store; no point escapes retention; what is
      appended is read back.
    - Aggregator: whatever samples arrive between the parts of a flush, no bucket of
      a context is sent twice and every accepted sample is counted in exactly one
      bucket, of which the summary is sent; an agent started after another stamps
      only later buckets; a counter's gaps are filled with zeros for the expiry and
      no longer, as by a walk over every bucket; a flush always returns; tags that
      say whose series it is survive the cap.
    - Some theorems exhibit defects, and are not among the properties: a refused
      commit that stays in the log, a raised width limit that makes a merge drop
      samples, a scan budget that stops a search for good, a head too large to be
      sealed, a sketch whose sum overflowed and cannot be read, a counter whose sum
      overflowed and cannot be sent, a client timestamp so old that its distance
      wraps around, an edited query whose first evaluation leaves no row, a
      pattern that is not text and hides a log.

    ** Bounds and fuel

    Loops that are structural recursions have no fuel.  The varint loops have the
    fuel of the longest 64-bit varint; galloping and k-way merges have the total
    length of their inputs, which each round reduces; the log reader has one more
    than the bytes left; the log query parser has four times the length of the text
    and a little; the walk of a chunk file has its length, and a search one round
    more than its entries; the walk of a counter has rounds for each of its buckets
    and for one expiry each, however long the gaps.  In each case a lemma shows that the fuel is not exhausted
    and the theorems state results, not results provided the loop ends.

    A chunk has at most 120 samples and no chunk reaches 2^31 bits.  Theorems about
    block files assume that each file is shorter than 2^63 bytes, which is what a
    Go slice can hold; those about the running database assume timestamps within
    2^62 milliseconds of the epoch and a block range below 2^62, so that a cut
    point is an int64; the intake admits only timestamps near the present.

    Theorems about restarts assume that the log refused no batch and that ids stay
    below 2^64; those about power cuts that directories can be synced and that Stat
    tells the truth; those about chunk files that no log entry forges a block header
    or a footer, that a file stays below 2^62 bytes and that a failed write is cut
    back; those about the log store that a batch fits one record or is taken whole,
    that MaxStreams does not change between restarts, that removals succeed and that
    the directory entries of chunk files survive.  Those about the buckets of a
    sketch assume whole weights with a total below 2^53; those about the sketch
    store that a failed commit has changed nothing, as those about the monitors do
    of a transaction that failed.  Traces of a group are shorter than 2^63
    observations, which is what its counter can hold.  Those about the aggregator
    assume a clock between the first interval and 2^60 seconds, an agent that was
    given its start time, and that no sample arrives once the final flush began.

    ** Not modelled

    Of the database: the reader counts that keep a file open, the goroutines, and the
    contexts of the metadata and cardinality queries (the context of an append or of
    a query is its error when it is called, the only time the code looks).  Of
    the log store: aggregation, the text of a cursor and cancellation.  Of the
    sketches: the JSON decoding of a request and the accessors.  The trace store, metric
    queries, the agent beyond its aggregator and tags (checks, the statsd and log
    sources, the forwarder), intake, HTTP and configuration.  Concurrency below the
    granularity of a locked operation.  Of the tables behind the monitors only the
    operations an evaluation uses. *)

From Stdlib Require Import ZArith Lia.
From stdpp Require Import base gmap numbers list.

Declare Scope ozy_scope.
Delimit Scope ozy_scope with ozy.
#[global] Open Scope Z_scope.

(** The library's hint databases: [ozy] closes range and well-formedness side
    conditions, [ozy_simpl] holds rewriting lemmas that always simplify. *)
Create HintDb ozy.
Create Rewrite HintDb ozy_simpl.

(** ** Results and the state-and-error monad

    Go functions that fail return [(value, error)].  A pure one becomes a
    [result].  A method that mutates its receiver and may fail becomes a
    computation in [SE S E]: the receiver's new state is returned in the error
    case too, because Go does not roll it back. *)
Inductive result (E A : Type) : Type :=
| Ok (a : A)
| Err (e : E).
Arguments Ok {E A} a.
Arguments Err {E A} e.

Lemma ok_inj {E A} (a b : A) : @Ok E A a = Ok b -> a = b.
Proof. congruence. Qed.

#[global] Instance result_ret {E} : MRet (result E) := fun A a => Ok a.
#[global] Instance result_bind {E} : MBind (result E) := fun A B f m =>
  match m with Ok a => f a | Err e => Err e end.

Definition SE (S E A : Type) : Type := S -> S * result E A.

#[global] Instance SE_ret {S E} : MRet (SE S E) := fun A a s => (s, Ok a).
#[global] Instance SE_bind {S E} : MBind (SE S E) := fun A B f m s =>
  match m s with
  | (s', Ok a) => f a s'
  | (s', Err e) => (s', Err e)
  end.

Definition get {S E} : SE S E S := fun s => (s, Ok s).
Definition put {S E} (s : S) : SE S E unit := fun _ => (s, Ok tt).
Definition throw {S E A} (e : E) : SE S E A := fun s => (s, Err e).

Lemma bind_ok {S E A B} (m : SE S E A) (f : A -> SE S E B) s s' a :
  m s = (s', Ok a) -> (m ≫= f) s = f a s'.
Proof. intros H. unfold mbind, SE_bind. by rewrite H. Qed.

Lemma bind_err {S E A B} (m : SE S E A) (f : A -> SE S E B) s s' e :
  m s = (s', Err e) -> (m ≫= f) s = (s', Err e).
Proof. intros H. unfold mbind, SE_bind. by rewrite H. Qed.

(** ** Machine integers

    A Go integer of [w] bits is a [Z]; each arithmetic operation of the source
    that can wrap is followed by the conversion to its type. *)
Definition uint8 (z : Z) : Z := z mod 2 ^ 8.
Definition uint16 (z : Z) : Z := z mod 2 ^ 16.
Definition uint32 (z : Z) : Z := z mod 2 ^ 32.
Definition uint64 (z : Z) : Z := z mod 2 ^ 64.
Definition int64 (z : Z) : Z := (z + 2 ^ 63) mod 2 ^ 64 - 2 ^ 63.

Definition is_byte (z : Z) : Prop := 0 <= z < 2 ^ 8.
Definition is_u32 (z : Z) : Prop := 0 <= z < 2 ^ 32.
Definition is_u64 (z : Z) : Prop := 0 <= z < 2 ^ 64.
Definition is_i64 (z : Z) : Prop := - 2 ^ 63 <= z < 2 ^ 63.

#[global] Hint Unfold is_byte is_u32 is_u64 is_i64 : ozy.

(** [lia] with Euclidean division unfolded. *)
Ltac dlia := Z.div_mod_to_equations; lia.

(** Boolean comparisons of integers as propositions. *)
Ltac b2p := repeat match goal with
  | H : (_ <? _)%Z = true |- _ => apply Z.ltb_lt in H
  | H : (_ <? _)%Z = false |- _ => apply Z.ltb_ge in H
  | H : (_ <=? _)%Z = true |- _ => apply Z.leb_le in H
  | H : (_ <=? _)%Z = false |- _ => apply Z.leb_gt in H
  | H : (_ =? _)%Z = true |- _ => apply Z.eqb_eq in H
  | H : (_ =? _)%Z = false |- _ => apply Z.eqb_neq in H
  | H : andb _ _ = true |- _ => apply andb_prop in H as [? ?]
  | H : orb _ _ = false |- _ => apply orb_false_iff in H as [? ?]
  end.
Ltac blia := b2p; lia.

Lemma uint8_range z : is_byte (uint8 z).
Proof. unfold is_byte, uint8. apply Z.mod_pos_bound; lia. Qed.
Lemma uint32_range z : is_u32 (uint32 z).
Proof. unfold is_u32, uint32. apply Z.mod_pos_bound; lia. Qed.
Lemma uint64_range z : is_u64 (uint64 z).
Proof. unfold is_u64, uint64. apply Z.mod_pos_bound; lia. Qed.
Lemma int64_range z : is_i64 (int64 z).
Proof.
  unfold is_i64, int64. pose proof (Z.mod_pos_bound (z + 2 ^ 63) (2 ^ 64)). lia.
Qed.
#[global] Hint Resolve uint8_range uint32_range uint64_range int64_range : ozy.

Lemma uint8_id z : is_byte z -> uint8 z = z.
Proof. unfold is_byte, uint8. intros. by apply Z.mod_small. Qed.
Lemma uint64_id z : is_u64 z -> uint64 z = z.
Proof. unfold is_u64, uint64. intros. by apply Z.mod_small. Qed.
Lemma int64_id z : is_i64 z -> int64 z = z.
Proof. unfold is_i64, int64. intros. rewrite Z.mod_small; lia. Qed.

(** Two's complement: the signed and unsigned views determine each other. *)
Lemma int64_uint64 z : int64 (uint64 z) = int64 z.
Proof. unfold int64, uint64. rewrite Zplus_mod_idemp_l. done. Qed.
Lemma uint64_int64 z : uint64 (int64 z) = uint64 z.
Proof.
  unfold int64, uint64. rewrite Zminus_mod_idemp_l. f_equal. lia.
Qed.

Lemma int64_add_int64 a b : int64 (a + int64 b) = int64 (a + b).
Proof.
  unfold int64. f_equal.
  replace (a + ((b + 2 ^ 63) mod 2 ^ 64 - 2 ^ 63) + 2 ^ 63)
    with (a + (b + 2 ^ 63) mod 2 ^ 64) by lia.
  rewrite Zplus_mod_idemp_r. f_equal. lia.
Qed.

(** Addition of wrapped differences recovers the minuend: what makes a delta
    encoding exact even when the subtraction overflowed. *)
Lemma int64_add_sub a b : is_i64 a -> int64 (b + int64 (a - b)) = a.
Proof. intros Ha. rewrite int64_add_int64, Zplus_minus. by apply int64_id. Qed.

(** ** Bits, most significant first

    [bits_of n u] are the low [n] bits of [u]; [val_of] reads them back.  The
    bit stream of a chunk, and every big-endian field, is described by them. *)
Fixpoint bits_of (n : nat) (u : Z) : list bool :=
  match n with
  | O => []
  | S n' => Z.testbit u (Z.of_nat n') :: bits_of n' u
  end.

Definition val_of (l : list bool) : Z :=
  foldl (fun acc (b : bool) => 2 * acc + Z.b2z b) 0 l.

Lemma length_bits_of n u : length (bits_of n u) = n.
Proof. induction n; simpl; congruence. Qed.
#[global] Hint Rewrite length_bits_of : ozy_simpl.

Lemma val_of_acc l a :
  foldl (fun acc (b : bool) => 2 * acc + Z.b2z b) a l
  = a * 2 ^ Z.of_nat (length l) + val_of l.
Proof.
  unfold val_of. revert a. induction l as [|b l IH]; intros a.
  - simpl. lia.
  - cbn [foldl length]. rewrite IH, (IH (2 * 0 + _)).
    rewrite Nat2Z.inj_succ, Z.pow_succ_r by lia. lia.
Qed.

Lemma val_of_cons b l :
  val_of (b :: l) = Z.b2z b * 2 ^ Z.of_nat (length l) + val_of l.
Proof. unfold val_of at 1. cbn [foldl]. by rewrite val_of_acc. Qed.

Lemma val_of_app l1 l2 :
  val_of (l1 ++ l2) = val_of l1 * 2 ^ Z.of_nat (length l2) + val_of l2.
Proof. unfold val_of at 1. by rewrite foldl_app, val_of_acc. Qed.

Lemma val_of_bound l : 0 <= val_of l < 2 ^ Z.of_nat (length l).
Proof.
  induction l as [|b l IH]; [cbn; lia|].
  rewrite val_of_cons. cbn [length]. rewrite Nat2Z.inj_succ, Z.pow_succ_r by lia.
  destruct b; simpl Z.b2z; lia.
Qed.

Lemma mod_pow2_succ u n :
  u mod 2 ^ Z.of_nat (S n)
  = Z.b2z (Z.testbit u (Z.of_nat n)) * 2 ^ Z.of_nat n + u mod 2 ^ Z.of_nat n.
Proof.
  rewrite Nat2Z.inj_succ, Z.pow_succ_r, Z.mul_comm by lia.
  rewrite Z.rem_mul_r, Z.testbit_spec' by lia.
  rewrite Z.add_comm, (Z.mul_comm (2 ^ Z.of_nat n)). done.
Qed.

Lemma val_of_bits_of n u : val_of (bits_of n u) = u mod 2 ^ Z.of_nat n.
Proof.
  induction n as [|n IH]; [by rewrite Z.mod_1_r|].
  cbn [bits_of]. by rewrite val_of_cons, length_bits_of, IH, mod_pow2_succ.
Qed.

Lemma bits_of_val_of l : bits_of (length l) (val_of l) = l.
Proof.
  assert (Hg : forall l hi, bits_of (length l) (hi * 2 ^ Z.of_nat (length l) + val_of l) = l).
  { clear l. induction l as [|b l IH]; intros hi; [done|].
    cbn [length bits_of].
    set (k := Z.of_nat (length l)) in *.
    assert (E : hi * 2 ^ Z.of_nat (S (length l)) + val_of (b :: l)
                = (hi * 2 + Z.b2z b) * 2 ^ k + val_of l).
    { rewrite val_of_cons, Nat2Z.inj_succ, Z.pow_succ_r by lia. fold k. lia. }
    rewrite E. f_equal; [|apply IH].
    pose proof (val_of_bound l). fold k in H.
    apply Z.b2z_inj. rewrite Z.testbit_spec' by lia.
    rewrite Z.div_add_l, Z.div_small, Z.add_0_r by lia.
    rewrite Z.add_comm, Z.mod_add by lia. by destruct b. }
  specialize (Hg l 0). by rewrite Z.mul_0_l, Z.add_0_l in Hg.
Qed.

(** Only the low bits matter. *)
Lemma bits_of_ext n u v :
  u mod 2 ^ Z.of_nat n = v mod 2 ^ Z.of_nat n -> bits_of n u = bits_of n v.
Proof.
  intros H. rewrite <- (bits_of_val_of (bits_of n u)), <- (bits_of_val_of (bits_of n v)).
  by rewrite !val_of_bits_of, H, !length_bits_of.
Qed.

Lemma bits_of_testbit n u v :
  (forall i, 0 <= i < Z.of_nat n -> Z.testbit u i = Z.testbit v i) ->
  bits_of n u = bits_of n v.
Proof.
  induction n as [|n IH]; intros H; [done|]. cbn [bits_of]. f_equal; [apply H; lia|].
  apply IH. intros. apply H. lia.
Qed.

Lemma uint64_testbit u i : 0 <= i < 64 -> Z.testbit (uint64 u) i = Z.testbit u i.
Proof. intros. apply Z.mod_pow2_bits_low. lia. Qed.

(** Testing one bit with a mask, the way the code writes it. *)
Lemma mask_bit u c : 0 <= c -> negb (Z.land u (Z.shiftl 1 c) =? 0) = Z.testbit u c.
Proof.
  intros Hc. rewrite Z.shiftl_mul_pow2, Z.mul_1_l by done.
  destruct (Z.testbit u c) eqn:E.
  - apply negb_true_iff, Z.eqb_neq. intros H. apply (f_equal (fun x => Z.testbit x c)) in H.
    by rewrite Z.land_spec, Z.pow2_bits_true, E, Z.bits_0 in H by lia.
  - apply negb_false_iff, Z.eqb_eq. apply Z.bits_inj'. intros i Hi.
    rewrite Z.land_spec, Z.bits_0, Z.pow2_bits_eqb by lia.
    destruct (c =? i) eqn:Ei; [|by rewrite andb_false_r].
    apply Z.eqb_eq in Ei. by rewrite <- Ei, E.
Qed.

Lemma bits_of_app m n u :
  bits_of (m + n) u = bits_of m (Z.shiftr u (Z.of_nat n)) ++ bits_of n u.
Proof.
  induction m as [|m IH]; [done|].
  cbn [bits_of Nat.add app]. rewrite IH, Z.shiftr_spec by lia.
  by rewrite Nat2Z.inj_add.
Qed.

Lemma lxor_range k a b : 0 <= k -> 0 <= a < 2 ^ k -> 0 <= b < 2 ^ k -> 0 <= Z.lxor a b < 2 ^ k.
Proof.
  intros Hk Ha Hb. split; [apply Z.lxor_nonneg; lia|].
  destruct (decide (Z.lxor a b = 0)) as [->|Hne]; [lia|].
  assert (Hl : forall z, 0 <= z < 2 ^ k -> z = 0 \/ Z.log2 z < k).
  { intros z Hz. destruct (decide (z = 0)); [by left|right]. apply Z.log2_lt_pow2; lia. }
  apply Z.log2_lt_pow2; [pose proof (proj2 (Z.lxor_nonneg a b)); lia|].
  destruct (Hl a Ha) as [->|Ha']; [rewrite Z.lxor_0_l in *|].
  { destruct (Hl b Hb) as [->|]; [done|lia]. }
  destruct (Hl b Hb) as [->|Hb']; [by rewrite Z.lxor_0_r|].
  eapply Z.le_lt_trans; [apply Z.log2_lxor; lia|]. lia.
Qed.

(** ** Bytes *)
Definition bits_of_bytes (bs : list Z) : list bool := bs ≫= bits_of 8.

Lemma bits_of_bytes_cons b bs :
  bits_of_bytes (b :: bs) = bits_of 8 b ++ bits_of_bytes bs.
Proof. done. Qed.
Lemma bits_of_bytes_app b1 b2 :
  bits_of_bytes (b1 ++ b2) = bits_of_bytes b1 ++ bits_of_bytes b2.
Proof. apply bind_app. Qed.
Lemma length_bits_of_bytes bs : length (bits_of_bytes bs) = (8 * length bs)%nat.
Proof.
  induction bs; [done|]. rewrite bits_of_bytes_cons, length_app, IHbs, length_bits_of.
  simpl. lia.
Qed.

(** The bytes holding [l], the last one padded with zero bits. *)
Fixpoint bytes_of_bits (l : list bool) : list Z :=
  match l with
  | [] => []
  | b7 :: b6 :: b5 :: b4 :: b3 :: b2 :: b1 :: b0 :: rest =>
      val_of [b7; b6; b5; b4; b3; b2; b1; b0] :: bytes_of_bits rest
  | part => [val_of (part ++ replicate (8 - length part) false)]
  end.

Lemma list_8 {A} (l : list A) : (8 <= length l)%nat ->
  exists a b c d e f g h r, l = a :: b :: c :: d :: e :: f :: g :: h :: r.
Proof.
  intros. do 8 (destruct l as [|? l]; [simpl in *; lia|]). by repeat eexists.
Qed.

Lemma bytes_of_bits_app n l r : length l = (8 * n)%nat ->
  bytes_of_bits (l ++ r) = bytes_of_bits l ++ bytes_of_bits r.
Proof.
  revert l. induction n as [|n IH]; intros l Hl.
  - destruct l; [done|simpl in *; lia].
  - destruct (list_8 l) as (?&?&?&?&?&?&?&?&k&->); [lia|].
    cbn [app bytes_of_bits]. f_equal. apply IH. simpl in Hl. lia.
Qed.

Lemma bytes_of_bits_bytes bs :
  Forall is_byte bs -> bytes_of_bits (bits_of_bytes bs) = bs.
Proof.
  induction 1 as [|b bs Hb _ IH]; [done|].
  rewrite bits_of_bytes_cons, (bytes_of_bits_app 1) by apply length_bits_of.
  rewrite IH. cbn [bits_of bytes_of_bits app]. f_equal.
  change (val_of (bits_of 8 b) = b). rewrite val_of_bits_of. by apply Z.mod_small.
Qed.

Lemma bits_of_bytes_of_bits l : exists pad,
  bits_of_bytes (bytes_of_bits l) = l ++ pad /\ (length pad < 8)%nat.
Proof.
  assert (Hs : forall n l, (length l <= n)%nat -> exists pad,
    bits_of_bytes (bytes_of_bits l) = l ++ pad /\ (length pad < 8)%nat).
  { clear l. induction n as [|n IH]; intros l Hl.
    { destruct l; [exists []; simpl; auto with lia|simpl in Hl; lia]. }
    destruct (decide (8 <= length l)%nat) as [H8|H8].
    - destruct (list_8 l H8) as (a&b&c&d&e&f&g&h&r&->).
      destruct (IH r) as (pad & Hp & Hl'); [simpl in *; lia|].
      exists pad. split; [|done].
      change (bytes_of_bits _) with (val_of [a;b;c;d;e;f;g;h] :: bytes_of_bits r).
      rewrite bits_of_bytes_cons, Hp.
      change (bits_of 8 ?x) with (bits_of (length [a;b;c;d;e;f;g;h]) x).
      by rewrite bits_of_val_of.
    - destruct (decide (l = [])) as [->|Hne]; [exists []; simpl; auto with lia|].
      exists (replicate (8 - length l) false).
      assert (length l <> 0%nat) by by destruct l.
      rewrite length_replicate. split; [|lia].
      assert (bytes_of_bits l = [val_of (l ++ replicate (8 - length l) false)]) as ->.
      { do 8 (destruct l as [|? l]; [done|]). simpl in H8. lia. }
      rewrite bits_of_bytes_cons. cbn [bits_of_bytes mbind list_bind].
      assert (length (l ++ replicate (8 - length l) false) = 8%nat) as E8
        by (rewrite length_app, length_replicate; lia).
      rewrite <- E8 at 1. rewrite bits_of_val_of. by rewrite app_nil_r. }
  by apply (Hs (length l)).
Qed.

(** ** Variable-length integers

    [AppendUvarint] is Go's [encoding/binary] loop; the chunk's own varints run
    the same one over a bit stream.  Ten 7-bit groups hold 64 bits. *)
Fixpoint uvarint_loop (fuel : nat) (u : Z) : list Z :=
  match fuel with
  | O => []
  | S fuel' =>
      if 128 <=? u
      then Z.lor (uint8 u) 128 :: uvarint_loop fuel' (Z.shiftr u 7)
      else [uint8 u]
  end.

Definition AppendUvarint (buf : list Z) (u : Z) : list Z := buf ++ uvarint_loop 10 u.

(** Zig-zag: the unsigned value a signed varint stores. *)
Definition zigzag (v : Z) : Z :=
  let u := uint64 (Z.shiftl (uint64 v) 1) in
  if v <? 0 then uint64 (Z.lnot u) else u.

Definition unzigzag (u : Z) : Z :=
  let i := int64 (Z.shiftr u 1) in
  if negb (Z.land u 1 =? 0) then Z.lnot i else i.

Lemma zigzag_eq v : is_i64 v -> zigzag v = if v <? 0 then - 2 * v - 1 else 2 * v.
Proof.
  intros Hv. unfold is_i64 in Hv. unfold zigzag, uint64, Z.lnot. rewrite Z.shiftl_mul_pow2 by lia.
  destruct (v <? 0) eqn:E; [|rewrite (Z.mod_small v) by lia; rewrite Z.mod_small; lia].
  assert (v mod 2 ^ 64 = v + 2 ^ 64) as -> by dlia.
  assert ((v + 2 ^ 64) * 2 ^ 1 mod 2 ^ 64 = 2 * v + 2 ^ 64) as -> by dlia.
  dlia.
Qed.

Lemma zigzag_range v : is_u64 (zigzag v).
Proof. unfold zigzag. destruct (v <? 0); apply uint64_range. Qed.
#[global] Hint Resolve zigzag_range : ozy.

Lemma unzigzag_zigzag v : is_i64 v -> unzigzag (zigzag v) = v.
Proof.
  intros Hv. unfold unzigzag. rewrite zigzag_eq by done. unfold is_i64 in Hv.
  rewrite Z.shiftr_div_pow2, (Z.land_ones _ 1) by lia. unfold Z.lnot, int64.
  destruct (v <? 0) eqn:E.
  - assert ((-2 * v - 1) mod 2 ^ 1 = 1) as -> by dlia. cbn [negb Z.eqb]. dlia.
  - assert ((2 * v) mod 2 ^ 1 = 0) as -> by dlia. cbn [negb Z.eqb]. dlia.
Qed.

Lemma lor_disjoint a b k : 0 <= k -> 0 <= a < 2 ^ k -> Z.lor a (b * 2 ^ k) = a + b * 2 ^ k.
Proof.
  intros Hk Ha. assert (Hz : Z.land a (b * 2 ^ k) = 0).
  { apply Z.bits_inj'. intros i Hi. rewrite Z.land_spec, Z.bits_0, <- Z.shiftl_mul_pow2 by done.
    destruct (decide (i < k)); [rewrite Z.shiftl_spec_low by lia; by rewrite andb_false_r|].
    rewrite <- (Z.mod_small a (2 ^ k)), Z.mod_pow2_bits_high by lia. done. }
  rewrite Z.add_nocarry_lxor by done. symmetry. by apply Z.lxor_lor.
Qed.

Lemma uvarint_cont u : 128 <= u ->
  let v := Z.lor (uint8 u) 128 in is_byte v /\ 128 <= v /\ Z.land v 127 = u mod 128.
Proof.
  intros Hu v. unfold v, is_byte. rewrite (Z.land_ones _ 7) by lia.
  assert (E : Z.lor (uint8 u) 128 = u mod 128 + 128); [|rewrite E; dlia].
  pose proof (lor_disjoint (u mod 128) 1 7) as L. rewrite Z.mul_1_l in L.
  change (2 ^ 7) with 128 in L. rewrite <- L by dlia.
  unfold uint8. pose proof (mod_pow2_succ u 7) as M. change (2 ^ Z.of_nat 8) with (2 ^ 8) in M.
  rewrite M. change (2 ^ Z.of_nat 7) with 128.
  destruct (Z.testbit u (Z.of_nat 7)); cbn [Z.b2z]; [|by rewrite Z.mul_0_l].
  rewrite Z.mul_1_l, (Z.add_comm 128), <- L, <- Z.lor_assoc by dlia. done.
Qed.

Lemma uvarint_last u : 0 <= u < 128 -> uint8 u = u /\ Z.land u 127 = u.
Proof.
  intros. rewrite (Z.land_ones _ 7) by lia. split; [apply uint8_id; unfold is_byte; lia|].
  by apply Z.mod_small.
Qed.

(** One more 7-bit group folded into the accumulator. *)
Lemma uvarint_acc acc g s :
  0 <= s -> 0 <= acc < 2 ^ s -> 0 <= g -> g * 2 ^ s < 2 ^ 64 ->
  Z.lor acc (uint64 (Z.shiftl g s)) = acc + g * 2 ^ s.
Proof.
  intros Hs Ha Hg Hb. rewrite Z.shiftl_mul_pow2, uint64_id by (done || unfold is_u64; nia).
  by apply lor_disjoint.
Qed.

Lemma uvarint_loop_bytes fuel u : 0 <= u -> Forall is_byte (uvarint_loop fuel u).
Proof.
  revert u. induction fuel as [|fuel IH]; intros u Hu; cbn [uvarint_loop]; [constructor|].
  destruct (128 <=? u) eqn:E.
  - constructor; [apply uvarint_cont; lia|]. apply IH. by apply Z.shiftr_nonneg.
  - constructor; [apply uint8_range|constructor].
Qed.

(** ** Lists *)

Lemma bind_ext_in {A B} (f g : A -> list B) l :
  (forall x, x ∈ l -> f x = g x) -> l ≫= f = l ≫= g.
Proof.
  induction l as [|x l IH]; intros H; [done|]. rewrite !bind_cons, H by by left.
  f_equal. apply IH. intros. apply H. by right.
Qed.

Lemma filter_none {A} (P : A -> Prop) `{!forall x, Decision (P x)} (l : list A) :
  (forall x, x ∈ l -> ~ P x) -> filter P l = [].
Proof.
  induction l as [|x l IH]; intros HP; [done|]. rewrite filter_cons_False by (apply HP; by left).
  apply IH. intros. apply HP. by right.
Qed.

Lemma filter_all {A} (P : A -> Prop) `{!forall x, Decision (P x)} (l : list A) :
  (forall x, x ∈ l -> P x) -> filter P l = l.
Proof.
  induction l as [|x l IH]; intros HP; [done|]. rewrite filter_cons_True by (apply HP; by left).
  f_equal. apply IH. intros. apply HP. by right.
Qed.

Lemma forallb_Forall {A} (f : A -> bool) l : forallb f l = true <-> Forall (fun x => f x = true) l.
Proof.
  induction l as [|x l IH]; cbn [forallb]; [by split|].
  by rewrite andb_true_iff, IH, Forall_cons.
Qed.

Lemma existsb_Exists {A} (f : A -> bool) l : existsb f l = true <-> exists x, x ∈ l /\ f x = true.
Proof.
  induction l as [|x l IH]; cbn [existsb]; [split; [done|intros (? & H & _); by apply not_elem_of_nil in H]|].
  rewrite orb_true_iff, IH. split.
  - intros [H|(y & Hy & H)]; [exists x|exists y]; (split; [|done]); [by left|by right].
  - intros (y & Hy & H). apply elem_of_cons in Hy as [->|Hy]; eauto.
Qed.

Lemma existsb_none {A} (f : A -> bool) l : existsb f l = false <-> Forall (fun x => f x = false) l.
Proof.
  induction l as [|x l IH]; cbn [existsb]; [by split|].
  by rewrite orb_false_iff, IH, Forall_cons.
Qed.
