(* ===== verification/Bstream.v ===== *)
(** * The bit stream of a chunk (internal/tsdb/chunkenc/bstream.go)

    The append-only bit writer [bstream] and the cursor [bstreamReader] that
    replays it, with their aligned fast paths and the zig-zag varints.  The
    writer's state is determined by the bits written so far ([pack]), and every
    read consumes exactly the bits the matching write produced. *)

From Stdlib Require Import ZArith Lia.
From stdpp Require Import base list numbers.
From S2P Require Import Prelude.

(** ** Data and operations *)

Inductive bs_error :=
| ErrEndOfStream
| ErrVarintOverflow
| ErrStreamPanic.    (* stream[pos] out of range *)

Record bstream := Bstream {
  stream : list Z;   (* []byte *)
  count : Z;         (* uint8: free bits in the last byte *)
}.

Definition writeBit (bit : bool) (b : bstream) : bstream :=
  let b := if count b =? 0 then Bstream (stream b ++ [0]) 8 else b in
  let s := if bit
           then alter (fun x => Z.lor x (uint8 (Z.shiftl 1 (count b - 1))))
                      (length (stream b) - 1)%nat (stream b)
           else stream b in
  Bstream s (uint8 (count b - 1)).

(** The aligned loop of [writeBits]: whole bytes while the last byte is full. *)
Fixpoint writeBytes_loop (fuel : nat) (u nbits : Z) (b : bstream) : Z * Z * bstream :=
  match fuel with
  | O => (u, nbits, b)
  | S fuel' =>
      if (8 <=? nbits) && (count b =? 0)
      then writeBytes_loop fuel' (uint64 (Z.shiftl u 8)) (nbits - 8)
             (Bstream (stream b ++ [uint8 (Z.shiftr u 56)]) (count b))
      else (u, nbits, b)
  end.

(** The per-bit loop of [writeBits], run [n] times. *)
Fixpoint writeBits_loop (n : nat) (u : Z) (b : bstream) : bstream :=
  match n with
  | O => b
  | S n' =>
      writeBits_loop n' (uint64 (Z.shiftl u 1))
        (writeBit (negb (Z.land u (Z.shiftl 1 63) =? 0)) b)
  end.

Definition writeBits (u nbits : Z) (b : bstream) : bstream :=
  if nbits <=? 0 then b else
  let u := if nbits <? 64 then uint64 (Z.shiftl u (64 - nbits)) else u in
  let '(u, nbits, b) := writeBytes_loop (Z.to_nat nbits) u nbits b in
  writeBits_loop (Z.to_nat nbits) u b.

Definition writeByte (v : Z) (b : bstream) : bstream := writeBits v 8 b.

(** Ten 7-bit groups hold any 64-bit value, so ten iterations are enough. *)
Fixpoint writeVarint_loop (fuel : nat) (u : Z) (b : bstream) : bstream :=
  match fuel with
  | O => b
  | S fuel' =>
      if 128 <=? u
      then writeVarint_loop fuel' (Z.shiftr u 7) (writeByte (Z.lor (uint8 u) 128) b)
      else writeByte (uint8 u) b
  end.

Definition writeVarint (v : Z) (b : bstream) : bstream :=
  let u := uint64 (Z.shiftl (uint64 v) 1) in
  let u := if v <? 0 then uint64 (Z.lnot u) else u in
  writeVarint_loop 10 u b.

Record bstreamReader := BReader {
  r_stream : list Z;
  r_pos : nat;
  r_count : Z;       (* unread bits in stream[pos] *)
}.

Definition newBReader (b : list Z) : bstreamReader := BReader b 0 8.

Abbreviation RD := (SE bstreamReader bs_error).

(** [b.stream[b.pos]] *)
Definition stream_at (b : bstreamReader) : RD Z :=
  match r_stream b !! r_pos b with Some x => mret x | None => throw ErrStreamPanic end.

Definition readBit : RD bool :=
  b ← get;
  if (length (r_stream b) <=? r_pos b)%nat then throw ErrEndOfStream else
  b ← (if r_count b =? 0
       then let pos := S (r_pos b) in
            _ ← put (BReader (r_stream b) pos (r_count b));
            if (length (r_stream b) <=? pos)%nat then throw ErrEndOfStream
            else mret (BReader (r_stream b) pos 8)
       else mret b);
  let c := uint8 (r_count b - 1) in
  _ ← put (BReader (r_stream b) (r_pos b) c);
  x ← stream_at b;
  mret (negb (Z.land x (Z.shiftl 1 c) =? 0)).

(** The aligned loop of [readBits]: whole bytes while none is partly read. *)
Fixpoint readBytes_loop (fuel : nat) (nbits u : Z) : RD (Z * Z) :=
  match fuel with
  | O => mret (nbits, u)
  | S fuel' =>
      b ← get;
      if (8 <=? nbits) && (r_count b =? 8) then
        if (length (r_stream b) <=? r_pos b)%nat then throw ErrEndOfStream else
        x ← stream_at b;
        let u := Z.lor (uint64 (Z.shiftl u 8)) x in
        _ ← put (BReader (r_stream b) (S (r_pos b)) (r_count b));
        readBytes_loop fuel' (nbits - 8) u
      else mret (nbits, u)
  end.

Fixpoint readBits_loop (n : nat) (u : Z) : RD Z :=
  match n with
  | O => mret u
  | S n' =>
      bit ← readBit;
      let u := uint64 (Z.shiftl u 1) in
      readBits_loop n' (if bit : bool then Z.lor u 1 else u)
  end.

Definition readBits (nbits : Z) : RD Z :=
  '(nbits, u) ← readBytes_loop (Z.to_nat nbits) nbits 0;
  readBits_loop (Z.to_nat nbits) u.

Definition readByte : RD Z :=
  u ← readBits 8;
  mret (uint8 u).

(** [shift] is 0, 7, ..., 63; the eleventh iteration is the overflow error, so
    eleven iterations are enough. *)
Fixpoint readVarint_loop (fuel : nat) (shift u : Z) : RD Z :=
  match fuel with
  | O => throw ErrVarintOverflow
  | S fuel' =>
      if 64 <=? shift then throw ErrVarintOverflow else
      v ← readByte;
      let u := Z.lor u (uint64 (Z.shiftl (Z.land v 127) shift)) in
      if v <? 128 then mret u else readVarint_loop fuel' (shift + 7) u
  end.

Definition readVarint : RD Z :=
  u ← readVarint_loop 11 0 0;
  let i := int64 (Z.shiftr u 1) in
  mret (if negb (Z.land u 1 =? 0) then Z.lnot i else i).

(** ** The writer holds exactly the bits written *)

(** The writer's state after writing the bits [l] behind the bytes [hdr]. *)
Definition pack (hdr : list Z) (l : list bool) : bstream :=
  Bstream (hdr ++ bytes_of_bits l) ((- Z.of_nat (length l)) mod 8).

Lemma split_8 (l : list bool) : exists full part n,
  l = full ++ part /\ length full = (8 * n)%nat /\ (length part < 8)%nat.
Proof.
  exists (take (8 * (length l / 8)) l), (drop (8 * (length l / 8)) l), (length l / 8)%nat.
  pose proof (Nat.div_mod_eq (length l) 8).
  pose proof (Nat.mod_upper_bound (length l) 8).
  rewrite take_drop, length_take, length_drop. split_and!; [done|lia|lia].
Qed.

Lemma pack_count (full part : list bool) n :
  length full = (8 * n)%nat -> (length part < 8)%nat ->
  (- Z.of_nat (length (full ++ part))) mod 8
  = if decide (part = []) then 0 else 8 - Z.of_nat (length part).
Proof.
  intros Hf Hp. rewrite length_app, Hf.
  case_decide as Hd; [subst; simpl; dlia|].
  destruct part; [done|]. simpl in *. dlia.
Qed.

(** Setting one more bit of a partly filled byte, for every such byte. *)
Lemma pad_snoc (part : list bool) (b : bool) :
  part <> [] -> (length part < 8)%nat ->
  bytes_of_bits (part ++ [b])
  = (if b then alter (fun x => Z.lor x (uint8 (Z.shiftl 1 (8 - Z.of_nat (length part) - 1)))) 0%nat
     else id) (bytes_of_bits part).
Proof.
  intros Hne Hp.
  do 8 (destruct part as [|[] part]; [destruct b; done || reflexivity| |]; cbn [length] in Hp);
    lia.
Qed.

Lemma alter_last_app (f : Z -> Z) (l k : list Z) :
  length k = 1%nat ->
  alter f (length (l ++ k) - 1)%nat (l ++ k) = l ++ alter f 0%nat k.
Proof.
  intros Hk. rewrite length_app, Hk.
  replace (length l + 1 - 1)%nat with (length l + 0)%nat by lia.
  apply alter_app_r.
Qed.

Lemma length_bytes_part (part : list bool) :
  part <> [] -> (length part < 8)%nat -> length (bytes_of_bits part) = 1%nat.
Proof.
  intros. do 8 (destruct part as [|? part]; [done|]; simpl in *); lia.
Qed.

Lemma writeBit_pack hdr l b : writeBit b (pack hdr l) = pack hdr (l ++ [b]).
Proof.
  destruct (split_8 l) as (full & part & n & -> & Hf & Hp).
  unfold pack, writeBit; cbn [stream count].
  rewrite (pack_count full part n) by done.
  rewrite <- (app_assoc full part [b]), !(bytes_of_bits_app n) by done.
  destruct (decide (part = [])) as [->|Hne].
  - cbn [bytes_of_bits app Z.eqb stream count]. rewrite app_nil_r, app_assoc.
    rewrite (pack_count full [b] n) by (simpl; lia).
    rewrite decide_False by done.
    destruct b; [|done]. f_equal.
    rewrite alter_last_app by done. done.
  - destruct (8 - Z.of_nat (length part) =? 0) eqn:E; [lia|]. cbn [stream count].
    f_equal.
    + rewrite pad_snoc by done. destruct b; [|done].
      rewrite !app_assoc. rewrite alter_last_app by by apply length_bytes_part. done.
    + assert (length part <> 0%nat) by (destruct part; done).
      unfold uint8. rewrite !length_app, Hf. cbn [length]. dlia.
Qed.

(** Bits of shifted words, wherever the index is in range. *)
Ltac solve_bits :=
  repeat first [rewrite Z.shiftr_spec by lia | rewrite uint64_testbit by lia
               | rewrite Z.shiftl_spec by lia];
  f_equal; lia.

Lemma writeBytes_loop_pack fuel : forall u nbits hdr l,
  is_u64 u -> 0 <= nbits <= 64 -> (Z.to_nat nbits <= fuel)%nat ->
  exists k : nat, let '(u', nbits', b') := writeBytes_loop fuel u nbits (pack hdr l) in
    (8 * k <= Z.to_nat nbits)%nat /\ nbits' = nbits - 8 * Z.of_nat k
    /\ u' = uint64 (Z.shiftl u (8 * Z.of_nat k))
    /\ b' = pack hdr (l ++ bits_of (8 * k) (Z.shiftr u (64 - 8 * Z.of_nat k))).
Proof.
  induction fuel as [|fuel IH]; intros u nbits hdr l Hu Hn Hf; cbn [writeBytes_loop].
  - exists 0%nat. rewrite app_nil_r, Z.shiftl_0_r, uint64_id by done. split_and!; done || lia.
  - destruct ((8 <=? nbits) && (count (pack hdr l) =? 0)) eqn:E; cycle 1.
    { exists 0%nat. rewrite app_nil_r, Z.shiftl_0_r, uint64_id by done. split_and!; done || lia. }
    apply andb_prop in E as [E1 E2]. unfold pack in E2; cbn [count] in E2.
    assert (exists n, length l = (8 * n)%nat) as [n Hl].
    { exists (Z.to_nat (Z.of_nat (length l) / 8)). rewrite Z.eqb_eq in E2. clear -E2. dlia. }
    assert (Hb : Bstream (stream (pack hdr l) ++ [uint8 (Z.shiftr u 56)]) (count (pack hdr l))
                 = pack hdr (l ++ bits_of 8 (Z.shiftr u 56))).
    { unfold pack; cbn [stream count]. f_equal.
      - rewrite (bytes_of_bits_app n), app_assoc by done. f_equal.
        cbn [bits_of bytes_of_bits]. f_equal.
        change (uint8 (Z.shiftr u 56) = val_of (bits_of 8 (Z.shiftr u 56))).
        by rewrite val_of_bits_of.
      - rewrite length_app, length_bits_of. dlia. }
    rewrite Hb.
    destruct (IH (uint64 (Z.shiftl u 8)) (nbits - 8) hdr (l ++ bits_of 8 (Z.shiftr u 56)))
      as [k Hk]; [apply uint64_range|lia|lia|].
    exists (S k). destruct (writeBytes_loop _ _ _ _) as [[u' nb'] b'].
    destruct Hk as (Hk1 & -> & -> & ->).
    split_and!; [lia|lia| |].
    + unfold uint64. rewrite !Z.shiftl_mul_pow2 by lia. rewrite Zmult_mod_idemp_l.
      rewrite <- Z.mul_assoc, <- Z.pow_add_r by lia. do 3 f_equal. lia.
    + rewrite <- app_assoc. do 2 f_equal.
      replace (8 * S k)%nat with (8 + 8 * k)%nat by lia.
      rewrite bits_of_app. f_equal.
      * rewrite Z.shiftr_shiftr by lia. do 2 f_equal. lia.
      * apply bits_of_testbit. intros i Hi. solve_bits.
Qed.

Lemma writeBits_loop_pack n : forall u hdr l, (n <= 64)%nat ->
  writeBits_loop n u (pack hdr l) = pack hdr (l ++ bits_of n (Z.shiftr u (64 - Z.of_nat n))).
Proof.
  induction n as [|n IH]; intros u hdr l Hn; cbn [writeBits_loop].
  - cbn. by rewrite app_nil_r.
  - rewrite mask_bit, writeBit_pack, IH by lia. rewrite <- app_assoc. do 2 f_equal.
    cbn [bits_of app]. f_equal.
    + rewrite Z.shiftr_spec by lia. f_equal. lia.
    + apply bits_of_testbit. intros i Hi. solve_bits.
Qed.

Lemma writeBits_pack u nbits hdr l :
  is_u64 u -> 0 <= nbits <= 64 ->
  writeBits u nbits (pack hdr l) = pack hdr (l ++ bits_of (Z.to_nat nbits) u).
Proof.
  intros Hu Hn. unfold writeBits.
  destruct (nbits <=? 0) eqn:E0.
  { replace nbits with 0 by lia. simpl. by rewrite app_nil_r. }
  set (u1 := if nbits <? 64 then _ else _).
  assert (Hu1 : u1 = uint64 (Z.shiftl u (64 - nbits))).
  { unfold u1. destruct (nbits <? 64) eqn:E; [done|].
    replace (64 - nbits) with 0 by lia. by rewrite Z.shiftl_0_r, uint64_id. }
  destruct (writeBytes_loop_pack (Z.to_nat nbits) u1 nbits hdr l) as [k Hk];
    [rewrite Hu1; apply uint64_range|lia|lia|].
  destruct (writeBytes_loop _ _ _ _) as [[u2 nb2] b2].
  destruct Hk as (Hk & -> & -> & ->).
  rewrite writeBits_loop_pack by lia. rewrite <- app_assoc. do 2 f_equal.
  replace (Z.to_nat nbits) with (8 * k + Z.to_nat (nbits - 8 * Z.of_nat k))%nat by lia.
  rewrite bits_of_app, Hu1. f_equal; apply bits_of_testbit; intros i Hi; solve_bits.
Qed.

Lemma writeByte_pack v hdr l :
  is_byte v -> writeByte v (pack hdr l) = pack hdr (l ++ bits_of 8 v).
Proof. intros Hv. apply writeBits_pack; unfold is_byte, is_u64 in *; lia. Qed.

Lemma writeVarint_loop_pack fuel : forall u hdr l, 0 <= u ->
  writeVarint_loop fuel u (pack hdr l) = pack hdr (l ++ bits_of_bytes (uvarint_loop fuel u)).
Proof.
  induction fuel as [|fuel IH]; intros u hdr l Hu; cbn [writeVarint_loop uvarint_loop].
  - cbn. by rewrite app_nil_r.
  - destruct (128 <=? u) eqn:E.
    + rewrite writeByte_pack by (apply uvarint_cont; lia).
      rewrite IH by by apply Z.shiftr_nonneg. by rewrite bits_of_bytes_cons, app_assoc.
    + rewrite writeByte_pack by apply uint8_range.
      rewrite bits_of_bytes_cons. cbn [bits_of_bytes mbind list_bind]. by rewrite app_nil_r.
Qed.

Lemma writeVarint_pack v hdr l :
  writeVarint v (pack hdr l) = pack hdr (l ++ bits_of_bytes (uvarint_loop 10 (zigzag v))).
Proof. apply writeVarint_loop_pack. apply zigzag_range. Qed.

(** ** Reading back

    [reads m l a]: on any well-formed cursor whose unread bits start with [l],
    [m] succeeds with [a] and leaves the cursor right after [l]. *)
Record rd_ok (r : bstreamReader) : Prop := {
  rd_bytes : Forall is_byte (r_stream r);
  rd_pos : (r_pos r <= length (r_stream r))%nat;
  rd_count : 0 <= r_count r <= 8;
  rd_end : r_pos r = length (r_stream r) -> r_count r = 8;
}.

Definition consumed (r : bstreamReader) : nat := (8 * r_pos r + Z.to_nat (8 - r_count r))%nat.
Definition unread (r : bstreamReader) : list bool := drop (consumed r) (bits_of_bytes (r_stream r)).

Definition reads {A} (m : RD A) (l : list bool) (a : A) : Prop :=
  forall r rest, rd_ok r -> unread r = l ++ rest ->
    exists r', m r = (r', Ok a) /\ rd_ok r' /\ r_stream r' = r_stream r
      /\ consumed r' = (consumed r + length l)%nat /\ unread r' = rest.

Lemma reads_ret {A} (a : A) : reads (mret a) [] a.
Proof. intros r rest Hr Hu. exists r. simpl. by rewrite Nat.add_0_r. Qed.

Lemma reads_bind {A B} (m : RD A) (f : A -> RD B) l1 l2 a b :
  reads m l1 a -> reads (f a) l2 b -> reads (m ≫= f) (l1 ++ l2) b.
Proof.
  intros Hm Hf r rest Hr Hu. rewrite <- app_assoc in Hu.
  destruct (Hm r _ Hr Hu) as (r1 & E1 & Hr1 & Hs1 & Hc1 & Hu1).
  destruct (Hf r1 _ Hr1 Hu1) as (r2 & E2 & Hr2 & Hs2 & Hc2 & Hu2).
  exists r2. rewrite (bind_ok _ _ _ _ _ E1), E2, length_app. split_and!; done || (congruence || lia).
Qed.

Lemma reads_bind_nil {A B} (m : RD A) (f : A -> RD B) l a b :
  reads m l a -> reads (f a) [] b -> reads (m ≫= f) l b.
Proof. intros Hm Hf. rewrite <- (app_nil_r l). by eapply reads_bind. Qed.

Lemma reads_unread r r' l rest :
  unread r = l ++ rest -> r_stream r' = r_stream r ->
  consumed r' = (consumed r + length l)%nat -> unread r' = rest.
Proof.
  unfold unread. intros H -> ->. rewrite <- drop_drop, H. apply drop_app_length.
Qed.

Lemma unread_length r : (length (unread r) = 8 * length (r_stream r) - consumed r)%nat.
Proof. unfold unread. by rewrite length_drop, length_bits_of_bytes. Qed.

(** The bit at offset [8 * p + j] of a byte string. *)
Lemma lookup_bits_of_bytes bs p j :
  (p < length bs)%nat -> (j < 8)%nat ->
  bits_of_bytes bs !! (8 * p + j)%nat = Some (Z.testbit (nth p bs 0) (7 - Z.of_nat j)).
Proof.
  revert p. induction bs as [|b bs IH]; intros p Hp Hj; [simpl in Hp; lia|].
  rewrite bits_of_bytes_cons. destruct p as [|p].
  - rewrite lookup_app_l by (rewrite length_bits_of; lia).
    do 8 (destruct j as [|j]; [done|]). lia.
  - rewrite lookup_app_r by (rewrite length_bits_of; lia). rewrite length_bits_of.
    replace (8 * S p + j - 8)%nat with (8 * p + j)%nat by lia. apply IH; simpl in Hp; lia.
Qed.

Lemma readBit_reads b : reads readBit [b] b.
Proof.
  intros r rest [Hb Hp Hc He] Hu.
  pose proof (unread_length r) as Hlen. rewrite Hu in Hlen. cbn [length app] in Hlen.
  unfold consumed in Hlen.
  assert (Hlt : (r_pos r < length (r_stream r))%nat).
  { destruct (decide (r_pos r = length (r_stream r))) as [E|]; [|lia].
    rewrite (He E) in Hlen. lia. }
  set (r1 := if r_count r =? 0 then BReader (r_stream r) (S (r_pos r)) 8 else r).
  set (r2 := BReader (r_stream r) (r_pos r1) (r_count r1 - 1)).
  assert (Hr1 : (r_pos r1 < length (r_stream r))%nat /\ 1 <= r_count r1 <= 8
                /\ consumed r1 = consumed r /\ r_stream r1 = r_stream r).
  { unfold r1. destruct (r_count r =? 0) eqn:E; [|split_and!; done || lia].
    cbn [r_pos r_count r_stream]. unfold consumed; cbn [r_pos r_count]. split_and!; done || lia. }
  destruct Hr1 as (Hp1 & Hc1 & Hs1 & Hstr1).
  assert (Hbit : b = Z.testbit (nth (r_pos r1) (r_stream r) 0) (r_count r1 - 1)).
  { assert (L : unread r !! 0%nat = Some b) by by rewrite Hu.
    unfold unread in L. rewrite lookup_drop, Nat.add_0_r, <- Hs1 in L. unfold consumed in L.
    rewrite lookup_bits_of_bytes in L by lia. injection L as <-. f_equal. lia. }
  assert (E2 : readBit r = (r2, Ok b)).
  { assert (Hat : r_stream r !! r_pos r1 = Some (nth (r_pos r1) (r_stream r) 0)).
    { destruct (lookup_lt_is_Some_2 _ _ Hp1) as [x Hx]. by rewrite nth_lookup, Hx. }
    unfold readBit, stream_at, get, put, throw, mbind, SE_bind, mret, SE_ret.
    destruct (length (r_stream r) <=? r_pos r)%nat eqn:E; [apply Nat.leb_le in E; lia|].
    unfold r2, r1 in *. destruct (r_count r =? 0) eqn:E0; cbn [r_pos r_count r_stream] in *.
    - destruct (length (r_stream r) <=? S (r_pos r))%nat eqn:E3; [apply Nat.leb_le in E3; lia|].
      cbn [r_pos r_count r_stream]. rewrite Hat. change (uint8 (8 - 1)) with (8 - 1).
      by rewrite mask_bit, <- Hbit by done.
    - rewrite Hat. rewrite (uint8_id (r_count r - 1)) by (unfold is_byte; lia).
      by rewrite mask_bit, <- Hbit by lia. }
  exists r2. assert (Hcons : consumed r2 = (consumed r + 1)%nat).
  { rewrite <- Hs1. unfold consumed, r2; cbn [r_pos r_count]. lia. }
  split_and!; [done| |done|done|by eapply reads_unread].
  constructor; unfold r2; cbn [r_pos r_count r_stream]; done || lia.
Qed.

Lemma val_of_u64 l : (length l <= 64)%nat -> is_u64 (val_of l).
Proof.
  intros H. pose proof (val_of_bound l).
  assert (2 ^ Z.of_nat (length l) <= 2 ^ 64) by (apply Z.pow_le_mono_r; lia).
  unfold is_u64. lia.
Qed.

(** Shifting the accumulator left to make room for the next bits. *)
Lemma val_of_shift pre l :
  (length (pre ++ l) <= 64)%nat ->
  Z.lor (uint64 (Z.shiftl (val_of pre) (Z.of_nat (length l)))) (val_of l) = val_of (pre ++ l).
Proof.
  intros H. pose proof (val_of_u64 (pre ++ l) H) as Hu. pose proof (val_of_bound l).
  pose proof (val_of_bound pre).
  rewrite val_of_app in *. unfold is_u64 in Hu.
  rewrite Z.shiftl_mul_pow2 by lia. rewrite uint64_id by (unfold is_u64; nia).
  rewrite Z.lor_comm, lor_disjoint by lia. lia.
Qed.

Lemma readBits_loop_reads l : forall pre, (length (pre ++ l) <= 64)%nat ->
  reads (readBits_loop (length l) (val_of pre)) l (val_of (pre ++ l)).
Proof.
  induction l as [|b l IH]; intros pre H; cbn [readBits_loop length].
  - rewrite app_nil_r. apply reads_ret.
  - change (b :: l) with ([b] ++ l). eapply reads_bind; [apply readBit_reads|].
    rewrite app_assoc.
    assert ((if b then Z.lor (uint64 (val_of pre ≪ 1)) 1 else uint64 (val_of pre ≪ 1))
            = val_of (pre ++ [b])) as ->.
    { rewrite <- val_of_shift by (rewrite length_app in *; simpl in *; lia).
      destruct b; [done|]. cbn. by rewrite Z.lor_0_r. }
    apply IH. by rewrite <- app_assoc.
Qed.

Lemma readBytes_loop_reads fuel : forall l pre r rest,
  (length (pre ++ l) <= 64)%nat -> rd_ok r -> unread r = l ++ rest ->
  exists l1 l2 r', l = l1 ++ l2
    /\ readBytes_loop fuel (Z.of_nat (length l)) (val_of pre) r
       = (r', Ok (Z.of_nat (length l2), val_of (pre ++ l1)))
    /\ rd_ok r' /\ r_stream r' = r_stream r
    /\ consumed r' = (consumed r + length l1)%nat /\ unread r' = l2 ++ rest.
Proof.
  induction fuel as [|fuel IH]; intros l pre r rest Hl Hr Hu; cbn [readBytes_loop].
  { exists [], l, r. rewrite app_nil_r, Nat.add_0_r. by split_and!. }
  rewrite (bind_ok _ _ r r r) by done. cbv beta.
  destruct ((8 <=? Z.of_nat (length l)) && (r_count r =? 8)) eqn:E; cycle 1.
  { exists [], l, r. rewrite app_nil_r, Nat.add_0_r. by split_and!. }
  apply andb_prop in E as [E8 Ec]. apply Z.leb_le in E8. apply Z.eqb_eq in Ec.
  pose proof (unread_length r) as Hlen. rewrite Hu, length_app in Hlen.
  unfold consumed in Hlen. rewrite Ec in Hlen. destruct Hr as [Hb Hp Hc He].
  destruct (length (r_stream r) <=? r_pos r)%nat eqn:Elt; [apply Nat.leb_le in Elt; lia|].
  apply Nat.leb_gt in Elt.
  set (byte := nth (r_pos r) (r_stream r) 0).
  set (r1 := BReader (r_stream r) (S (r_pos r)) (r_count r)).
  assert (Hlk : r_stream r !! r_pos r = Some byte).
  { destruct (lookup_lt_is_Some_2 (r_stream r) (r_pos r) Elt) as [x Hx].
    unfold byte. by rewrite nth_lookup, Hx. }
  rewrite (bind_ok _ _ r r byte) by (unfold stream_at; by rewrite Hlk). cbv beta.
  rewrite (bind_ok _ _ r r1 tt) by done. cbv beta.
  assert (Hby : is_byte byte) by (eapply Forall_lookup_1 in Hb; eauto).
  assert (Hl8 : take 8 l = bits_of 8 byte).
  { transitivity (take 8 (unread r)); [by rewrite Hu, take_app_le by lia|].
    unfold unread, consumed. rewrite Ec.
    rewrite <- (take_drop_middle _ _ _ Hlk), bits_of_bytes_app, bits_of_bytes_cons.
    assert (length (bits_of_bytes (take (r_pos r) (r_stream r))) = (8 * r_pos r)%nat) as E
      by (rewrite length_bits_of_bytes, length_take; lia).
    replace (8 * r_pos r + Z.to_nat (8 - 8))%nat
      with (length (bits_of_bytes (take (r_pos r) (r_stream r)))) by lia.
    rewrite drop_app_length. by rewrite take_app_length'. }
  assert (Hv : Z.lor (uint64 (val_of pre ≪ 8)) byte = val_of (pre ++ take 8 l)).
  { rewrite <- val_of_shift by (rewrite length_app, length_take in *; lia).
    rewrite Hl8, length_bits_of, val_of_bits_of, Z.mod_small by done. done. }
  rewrite Hv.
  destruct (IH (drop 8 l) (pre ++ take 8 l) r1 rest) as (l1 & l2 & r' & Hd & Hrun & Hr' & Hs & Hcs & Hu').
  - by rewrite <- app_assoc, take_drop.
  - constructor; unfold r1; cbn [r_stream r_pos r_count]; done || lia.
  - eapply reads_unread with (r := r) (l := take 8 l); [|done|].
    + by rewrite Hu, app_assoc, take_drop.
    + unfold consumed, r1; cbn [r_pos r_count]. rewrite length_take. lia.
  - exists (take 8 l ++ l1), l2, r'.
    rewrite <- app_assoc, <- Hd, take_drop, length_app, length_take.
    replace (Z.of_nat (length l) - 8) with (Z.of_nat (length (drop 8 l)))
      by (rewrite length_drop; lia).
    rewrite Hrun, <- app_assoc. split_and!; try done.
    rewrite Hcs. unfold consumed, r1; cbn [r_pos r_count]. lia.
Qed.

Lemma readBits_reads l : (length l <= 64)%nat ->
  reads (readBits (Z.of_nat (length l))) l (val_of l).
Proof.
  intros Hl r rest Hr Hu. unfold readBits.
  destruct (readBytes_loop_reads (Z.to_nat (Z.of_nat (length l))) l [] r rest)
    as (l1 & l2 & r1 & -> & Hrun & Hr1 & Hs1 & Hc1 & Hu1); [done..|].
  rewrite (bind_ok _ _ _ _ _ Hrun). rewrite Nat2Z.id.
  destruct (readBits_loop_reads l2 l1 Hl r1 rest Hr1 Hu1) as (r2 & E2 & Hr2 & Hs2 & Hc2 & Hu2).
  exists r2. split_and!; try done; [congruence|]. rewrite Hc2, Hc1, length_app. lia.
Qed.

Lemma readBits_bits_of n u nbits : (n <= 64)%nat -> nbits = Z.of_nat n ->
  reads (readBits nbits) (bits_of n u) (u mod 2 ^ nbits).
Proof.
  intros Hn ->. pose proof (readBits_reads (bits_of n u)) as H.
  rewrite length_bits_of, val_of_bits_of in H. by apply H.
Qed.

Lemma readByte_reads v : is_byte v -> reads readByte (bits_of 8 v) v.
Proof.
  intros Hv. eapply reads_bind_nil; [apply (readBits_bits_of 8); lia|].
  cbv beta. rewrite Z.mod_small by done. rewrite uint8_id by done. apply reads_ret.
Qed.

Lemma readVarint_loop_reads fuel : forall k acc u,
  0 <= u < 2 ^ (64 - 7 * Z.of_nat k) -> 0 <= acc < 2 ^ (7 * Z.of_nat k) ->
  (k + fuel = 10)%nat ->
  reads (readVarint_loop (S fuel) (7 * Z.of_nat k) acc)
    (bits_of_bytes (uvarint_loop fuel u)) (acc + u * 2 ^ (7 * Z.of_nat k)).
Proof.
  induction fuel as [|fuel IH]; intros k acc u Hu Ha Hk.
  { replace k with 10%nat in * by lia. change (2 ^ (64 - 7 * Z.of_nat 10)) with 0 in Hu. lia. }
  remember (S fuel) as f1. cbn [readVarint_loop]. subst f1.
  destruct (64 <=? 7 * Z.of_nat k) eqn:E; [apply Z.leb_le in E; lia|]. clear E.
  cbn [uvarint_loop]. destruct (128 <=? u) eqn:E.
  - apply Z.leb_le in E. pose proof (uvarint_cont u E) as (Hb & Hge & Hland). cbv zeta in *.
    rewrite bits_of_bytes_cons. eapply reads_bind; [by apply readByte_reads|]. cbv beta.
    rewrite Hland. set (v := Z.lor (uint8 u) 128) in *.
    assert (k <> 9%nat) by (intros ->; change (2 ^ (64 - 7 * Z.of_nat 9)) with 2 in Hu; lia).
    destruct (v <? 128) eqn:E2; [lia|].
    assert (Hk64 : 2 ^ (64 - 7 * Z.of_nat k) * 2 ^ (7 * Z.of_nat k) = 2 ^ 64).
    { rewrite <- Z.pow_add_r by lia. f_equal. lia. }
    assert (Hg : 0 <= u mod 128 < 128) by (apply Z.mod_pos_bound; lia).
    assert (u mod 128 <= u) by (apply Z.mod_le; lia).
    rewrite uvarint_acc by (lia || nia).
    replace (acc + u * 2 ^ (7 * Z.of_nat k))
      with ((acc + u mod 128 * 2 ^ (7 * Z.of_nat k))
            + Z.shiftr u 7 * 2 ^ (7 * Z.of_nat (S k))).
    2:{ rewrite Z.shiftr_div_pow2 by lia. change (2 ^ 7) with 128.
        replace (7 * Z.of_nat (S k)) with (7 * Z.of_nat k + 7) by lia.
        rewrite Z.pow_add_r by lia. change (2 ^ 7) with 128.
        rewrite (Z_div_mod_eq_full u 128) at 3. ring. }
    replace (7 * Z.of_nat k + 7) with (7 * Z.of_nat (S k)) by lia.
    apply IH; [| |lia].
    + rewrite Z.shiftr_div_pow2 by lia. split; [apply Z.div_pos; lia|].
      apply Z.div_lt_upper_bound; [lia|]. rewrite <- Z.pow_add_r by lia.
      replace (7 + (64 - 7 * Z.of_nat (S k))) with (64 - 7 * Z.of_nat k) by lia. lia.
    + replace (7 * Z.of_nat (S k)) with (7 * Z.of_nat k + 7) by lia.
      rewrite Z.pow_add_r by lia. change (2 ^ 7) with 128. nia.
  - apply Z.leb_gt in E. destruct (uvarint_last u) as [E1 E2]; [lia|]. rewrite E1.
    rewrite bits_of_bytes_cons. cbn [bits_of_bytes mbind list_bind].
    eapply reads_bind; [apply readByte_reads; unfold is_byte; lia|]. cbv beta. rewrite E2.
    destruct (u <? 128) eqn:E3; [|lia].
    assert (Hk64 : 2 ^ (64 - 7 * Z.of_nat k) * 2 ^ (7 * Z.of_nat k) = 2 ^ 64).
    { rewrite <- Z.pow_add_r by lia. f_equal. lia. }
    rewrite uvarint_acc by (lia || nia). apply reads_ret.
Qed.

Lemma readVarint_reads v : is_i64 v ->
  reads readVarint (bits_of_bytes (uvarint_loop 10 (zigzag v))) v.
Proof.
  intros Hv. unfold readVarint. eapply reads_bind_nil.
  - apply (readVarint_loop_reads 10 0 0); [apply zigzag_range|lia|lia].
  - cbv beta. change (2 ^ (7 * Z.of_nat 0)) with 1. rewrite Z.mul_1_r, Z.add_0_l.
    fold (unzigzag (zigzag v)). rewrite unzigzag_zigzag by done. apply reads_ret.
Qed.

(** ** Fields

    A stream built by any sequence of [writeBits] calls. *)
Definition field_ok (f : Z * Z) : Prop := is_u64 f.1 /\ 0 <= f.2 <= 64.

Definition writeFields (fs : list (Z * Z)) (b : bstream) : bstream :=
  foldl (fun b f => writeBits f.1 f.2 b) b fs.

Definition empty_stream : bstream := Bstream [] 0.

Definition field_bits (f : Z * Z) : list bool := bits_of (Z.to_nat f.2) f.1.

Lemma writeFields_pack fs : forall l, Forall field_ok fs ->
  writeFields fs (pack [] l) = pack [] (l ++ (fs ≫= field_bits)).
Proof.
  unfold writeFields. induction fs as [|[u n] fs IH]; intros l Hok; cbn [foldl fst snd].
  - cbn. by rewrite app_nil_r.
  - apply Forall_cons_1 in Hok as [[Hu Hn] Hok]. cbn [fst snd] in *.
    rewrite writeBits_pack by done. rewrite IH by done. by rewrite bind_cons, app_assoc.
Qed.

Lemma mapM_reads fs : Forall field_ok fs ->
  reads (mapM (fun f => readBits f.2) fs) (fs ≫= field_bits) ((fun f => f.1 mod 2 ^ f.2) <$> fs).
Proof.
  induction 1 as [|[u n] fs [Hu Hn] _ IH]; [apply reads_ret|].
  cbn [mapM fst snd] in *. rewrite bind_cons, fmap_cons.
  unfold field_bits at 1. cbn [fst snd].
  eapply reads_bind; [apply readBits_bits_of; lia|]. cbv beta.
  eapply reads_bind_nil; [exact IH|]. apply reads_ret.
Qed.

(** Writing bit by bit, with no aligned fast path. *)
Definition writeBits_ref (u nbits : Z) (b : bstream) : bstream :=
  foldl (fun b bit => writeBit bit b) b (bits_of (Z.to_nat nbits) u).

Lemma writeBit_foldl l : forall hdr k,
  foldl (fun b bit => writeBit bit b) (pack hdr k) l = pack hdr (k ++ l).
Proof.
  induction l as [|b l IH]; intros hdr k; cbn [foldl]; [by rewrite app_nil_r|].
  by rewrite writeBit_pack, IH, <- app_assoc.
Qed.

Lemma bytes_of_bits_is_byte l : Forall is_byte (bytes_of_bits l).
Proof.
  assert (Hv : forall k, length k = 8%nat -> is_byte (val_of k)).
  { intros k Hk. pose proof (val_of_bound k) as H. by rewrite Hk in H. }
  destruct (split_8 l) as (full & part & n & -> & Hf & Hp).
  rewrite (bytes_of_bits_app n) by done. apply Forall_app. split.
  - clear Hp part. revert full Hf. induction n as [|n IH]; intros full Hf.
    + destruct full; [constructor|simpl in Hf; lia].
    + destruct (list_8 full) as (?&?&?&?&?&?&?&?&k&->); [lia|].
      cbn [bytes_of_bits]. constructor; [by apply Hv|]. apply IH. simpl in Hf. lia.
  - destruct (decide (part = [])) as [->|Hne]; [constructor|].
    assert (bytes_of_bits part = [val_of (part ++ replicate (8 - length part) false)]) as ->.
    { do 8 (destruct part as [|? part]; [done|]; simpl in Hp). lia. }
    constructor; [|constructor]. apply Hv. rewrite length_app, length_replicate. lia.
Qed.

(** ** Claims *)

(** Reading back the fields of a stream, with the widths they were written
    with, gives the low bits of each field: any sequence of [writeBits] calls is
    undone by the matching [readBits] calls, whatever the alignment. *)
Theorem bstream_fields_roundtrip fs : Forall field_ok fs ->
  snd (mapM (fun f => readBits f.2) fs (newBReader (stream (writeFields fs empty_stream))))
  = Ok ((fun f => f.1 mod 2 ^ f.2) <$> fs).
Proof.
  intros Hok. change empty_stream with (pack [] []). rewrite writeFields_pack by done.
  cbn [app pack stream]. destruct (bits_of_bytes_of_bits (fs ≫= field_bits)) as (pad & Hpad & _).
  destruct (mapM_reads fs Hok (newBReader (bytes_of_bits (fs ≫= field_bits))) pad)
    as (r' & -> & _); [|done|done].
  constructor; cbn [newBReader r_stream r_pos r_count]; try lia. apply bytes_of_bits_is_byte.
Qed.

Lemma bstream_fields_roundtrip_witness :
  snd (mapM (fun f => readBits f.2) [(5, 3); (1000, 64); (77, 7)]
        (newBReader (stream (writeFields [(5, 3); (1000, 64); (77, 7)] empty_stream))))
  = Ok [5; 1000; 77].
Proof.
  apply (bstream_fields_roundtrip [(5, 3); (1000, 64); (77, 7)]).
  repeat constructor; cbn; lia.
Defined.

(** The aligned fast path of [writeBits] changes nothing: on every stream
    the writer can produce, it leaves the state that writing bit by bit leaves. *)
Theorem writeBits_fast_path fs u nbits : Forall field_ok fs -> field_ok (u, nbits) ->
  let b := writeFields fs empty_stream in writeBits u nbits b = writeBits_ref u nbits b.
Proof.
  intros Hok [Hu Hn] b. cbn [fst snd] in *. unfold b, writeBits_ref.
  change empty_stream with (pack [] []). rewrite writeFields_pack by done.
  by rewrite writeBits_pack, writeBit_foldl.
Qed.

Lemma writeBits_fast_path_witness :
  let b := writeFields [(1, 3); (9, 5)] empty_stream in
  writeBits 4607182418800017408 64 b = writeBits_ref 4607182418800017408 64 b.
Proof.
  apply (writeBits_fast_path [(1, 3); (9, 5)] 4607182418800017408 64);
    repeat constructor; cbn; lia.
Defined.
