(* ===== verification/Chunkenc.v ===== *)
(** * Gorilla chunks (internal/tsdb/chunkenc/chunk.go)

    A chunk of up to 120 samples of one series: delta-of-delta timestamps and
    XOR-encoded values over the bit stream of [Bstream].  A float64 is its
    64-bit pattern, since the encoder only uses [math.Float64bits]. *)

From Stdlib Require Import ZArith Lia.
From stdpp Require Import base list numbers.
From S2P Require Import Prelude Bstream.

(** ** Data *)

Definition MaxSamplesPerChunk : Z := 120.
Definition headerLen : nat := 2.

Inductive chunk_error :=
| ErrStream (e : bs_error)
| ErrShortHeader (n : nat)
| ErrCannotResume (e : chunk_error)
| ErrChunkFull
| ErrNotAfter (t last : Z)
| ErrWindowReused
| ErrImpossibleWindow (sigbits : Z).

Record Chunk := MkChunk { c_b : bstream; c_borrowed : bool }.

(** The encoder state that [Appender] and [Iterator] both carry: the previous
    timestamp, value and delta, and the XOR window (255 is "no window yet"). *)
Record encState := Enc {
  e_t : Z; e_v : Z; e_delta : Z; e_leading : Z; e_trailing : Z;
}.

Definition enc0 : encState := Enc 0 0 0 255 0.

Record Appender := MkAppender { a_c : Chunk; a_st : encState }.

Record Iterator := MkIterator {
  it_br : bstreamReader;
  it_total : Z;
  it_read : Z;
  it_st : encState;
  it_err : option chunk_error;
}.

(** ** Standard library: [math/bits] and [encoding/binary] *)

Definition LeadingZeros64 (x : Z) : Z := if x =? 0 then 64 else 63 - Z.log2 x.

Fixpoint ctz_pos (p : positive) : Z :=
  match p with
  | xO p' => 1 + ctz_pos p'
  | _ => 0
  end.
Definition TrailingZeros64 (x : Z) : Z :=
  match x with
  | Zpos p => ctz_pos p
  | _ => 64
  end.

Definition BigEndian_Uint16 (b : list Z) : Z :=
  Z.lor (nth 1 b 0) (Z.shiftl (nth 0 b 0) 8).
Definition BigEndian_PutUint16 (b : list Z) (v : Z) : list Z :=
  <[1%nat := uint8 v]> (<[0%nat := uint8 (Z.shiftr v 8)]> b).

(** ** The chunk *)

Definition NewChunk : Chunk := MkChunk (Bstream (replicate headerLen 0) 0) false.

Definition FromBytes (b : list Z) : result chunk_error Chunk :=
  if (length b <? headerLen)%nat then Err (ErrShortHeader (length b))
  else Ok (MkChunk (Bstream b 0) true).

Definition Bytes (c : Chunk) : list Z := stream (c_b c).

Definition NumSamples (c : Chunk) : Z :=
  if (length (stream (c_b c)) <? headerLen)%nat then 0
  else BigEndian_Uint16 (stream (c_b c)).

Definition Full (c : Chunk) : bool := MaxSamplesPerChunk <=? NumSamples c.

(** [own] replaces a borrowed buffer by a copy: the bytes stay, only the loan
    ends.  Its argument sizes the new buffer's capacity. *)
Definition own (n : nat) (c : Chunk) : Chunk :=
  if c_borrowed c then MkChunk (c_b c) false else c.

(** ** Appending *)

Definition on_bstream (f : bstream -> bstream) (a : Appender) : Appender :=
  MkAppender (MkChunk (f (c_b (a_c a))) (c_borrowed (a_c a))) (a_st a).

Definition set_st (st : encState) (a : Appender) : Appender := MkAppender (a_c a) st.

(** (prefix, prefixBits, bits) *)
Definition dodBuckets : list (Z * Z * Z) :=
  [(0, 1, 0); (2, 2, 14); (6, 3, 17); (14, 4, 20); (15, 4, 64)].

Fixpoint writeDOD_loop (buckets : list (Z * Z * Z)) (dod : Z) (a : Appender) : Appender :=
  match buckets with
  | [] => a
  | (prefix, prefixBits, bits) :: rest =>
      if bits =? 0 then
        if dod =? 0 then on_bstream (writeBits prefix prefixBits) a
        else writeDOD_loop rest dod a
      else if (bits <? 64) && ((dod <? - Z.shiftl 1 (bits - 1)) || (Z.shiftl 1 (bits - 1) - 1 <? dod))
      then writeDOD_loop rest dod a
      else on_bstream (writeBits (uint64 dod) bits) (on_bstream (writeBits prefix prefixBits) a)
  end.

Definition writeDOD (dod : Z) (a : Appender) : Appender := writeDOD_loop dodBuckets dod a.

Definition writeValue (v : Z) (a : Appender) : Appender :=
  let st := a_st a in
  let x := Z.lxor v (e_v st) in
  if x =? 0 then on_bstream (writeBit false) a else
  let a := on_bstream (writeBit true) a in
  let leading := LeadingZeros64 x in
  let trailing := TrailingZeros64 x in
  let leading := if 32 <=? leading then 31 else leading in
  if negb (e_leading st =? 255) && (e_leading st <=? leading) && (e_trailing st <=? trailing) then
    let a := on_bstream (writeBit false) a in
    on_bstream (writeBits (Z.shiftr x (e_trailing st)) (64 - e_leading st - e_trailing st)) a
  else
    let a := on_bstream (writeBit true) a in
    let a := on_bstream (writeBits leading 5) a in
    let sigbits := 64 - leading - trailing in
    let a := on_bstream (writeBits (Z.land sigbits 63) 6) a in
    let a := on_bstream (writeBits (Z.shiftr x trailing) sigbits) a in
    set_st (Enc (e_t st) (e_v st) (e_delta st) leading trailing) a.

Definition set_delta (d : Z) (a : Appender) : Appender :=
  let st := a_st a in
  set_st (Enc (e_t st) (e_v st) d (e_leading st) (e_trailing st)) a.

Definition set_tv (t v : Z) (a : Appender) : Appender :=
  let st := a_st a in
  set_st (Enc t v (e_delta st) (e_leading st) (e_trailing st)) a.

Definition on_stream (f : list Z -> list Z) (b : bstream) : bstream :=
  Bstream (f (stream b)) (count b).

Definition Append (t v : Z) (a : Appender) : Appender * result chunk_error unit :=
  let n := NumSamples (a_c a) in
  let st := a_st a in
  let finish a :=
    (on_bstream (on_stream (fun s => BigEndian_PutUint16 s (uint16 (n + 1)))) (set_tv t v a),
     Ok tt) in
  if MaxSamplesPerChunk <=? n then (a, Err ErrChunkFull) else
  if n =? 0 then
    finish (on_bstream (writeBits v 64) (on_bstream (writeVarint t) a))
  else if n =? 1 then
    if t <=? e_t st then (a, Err (ErrNotAfter t (e_t st))) else
    let delta := int64 (t - e_t st) in
    let a := set_delta delta a in
    finish (writeValue v (on_bstream (writeVarint delta) a))
  else
    if t <=? e_t st then (a, Err (ErrNotAfter t (e_t st))) else
    let delta := int64 (t - e_t st) in
    let a := writeDOD (int64 (delta - e_delta st)) a in
    finish (writeValue v (set_delta delta a)).

(** ** Iterating *)

Abbreviation IT := (SE Iterator chunk_error).

Definition with_br (r : bstreamReader) (it : Iterator) : Iterator :=
  MkIterator r (it_total it) (it_read it) (it_st it) (it_err it).
Definition with_st (st : encState) (it : Iterator) : Iterator :=
  MkIterator (it_br it) (it_total it) (it_read it) st (it_err it).

(** A read of the iterator's own bit reader. *)
Definition br {A} (m : RD A) : IT A := fun it =>
  match m (it_br it) with
  | (r, Ok a) => (with_br r it, Ok a)
  | (r, Err e) => (with_br r it, Err (ErrStream e))
  end.

Definition modify_st (f : encState -> encState) : IT unit := fun it =>
  (with_st (f (it_st it)) it, Ok tt).

Definition ChunkIterator (c : Chunk) : Iterator :=
  if (length (stream (c_b c)) <? headerLen)%nat
  then MkIterator (newBReader []) 0 0 (Enc 0 0 0 0 0) (Some (ErrStream ErrEndOfStream))
  else MkIterator (newBReader (drop headerLen (stream (c_b c)))) (NumSamples c) 0 enc0 None.

(** The leading ones of a delta-of-delta, at most four. *)
Fixpoint dod_prefix (n : nat) (prefix : Z) : IT Z :=
  match n with
  | O => mret prefix
  | S n' =>
      bit ← br readBit;
      if bit : bool then dod_prefix n' (prefix + 1) else mret prefix
  end.

Definition readDOD : IT Z :=
  prefix ← dod_prefix 4 0;
  if prefix =? 0 then mret 0 else
  let nbits := if prefix =? 1 then 14 else if prefix =? 2 then 17
               else if prefix =? 3 then 20 else 64 in
  u ← br (readBits nbits);
  let u := if (nbits <? 64) && negb (Z.land u (Z.shiftl 1 (nbits - 1)) =? 0)
           then Z.lor u (uint64 (Z.shiftl (2 ^ 64 - 1) nbits)) else u in
  mret (int64 u).

Definition readValue : IT unit :=
  changed ← br readBit;
  if negb changed then mret tt else
  newWindow ← br readBit;
  _ ← (if newWindow : bool then
         leading ← br (readBits 5);
         sigbits ← br (readBits 6);
         let sigbits := if sigbits =? 0 then 64 else sigbits in
         modify_st (fun st => Enc (e_t st) (e_v st) (e_delta st) (uint8 leading)
                                (uint8 (uint64 (64 - leading - sigbits))))
       else mret tt);
  it ← get;
  let st := it_st it in
  if e_leading st =? 255 then throw ErrWindowReused else
  let sigbits := 64 - e_leading st - e_trailing st in
  if (sigbits <=? 0) || (64 <? sigbits) then throw (ErrImpossibleWindow sigbits) else
  u ← br (readBits sigbits);
  modify_st (fun st => Enc (e_t st) (Z.lxor (e_v st) (uint64 (Z.shiftl u (e_trailing st))))
                         (e_delta st) (e_leading st) (e_trailing st)).

(** The body of [Next] once it knows a sample is due. *)
Definition next_sample (read : Z) : IT unit :=
  if read =? 0 then
    t ← br readVarint;
    v ← br (readBits 64);
    modify_st (fun st => Enc t v (e_delta st) (e_leading st) (e_trailing st))
  else if read =? 1 then
    d ← br readVarint;
    _ ← modify_st (fun st => Enc (int64 (e_t st + d)) (e_v st) d (e_leading st) (e_trailing st));
    readValue
  else
    dod ← readDOD;
    _ ← modify_st (fun st => let delta := int64 (e_delta st + dod) in
                             Enc (int64 (e_t st + delta)) (e_v st) delta
                                 (e_leading st) (e_trailing st));
    readValue.

Definition Next (it : Iterator) : Iterator * bool :=
  match it_err it with
  | Some _ => (it, false)
  | None =>
      if it_total it <=? it_read it then (it, false) else
      match next_sample (it_read it) it with
      | (it', Ok _) =>
          (MkIterator (it_br it') (it_total it') (it_read it' + 1) (it_st it') (it_err it'), true)
      | (it', Err e) =>
          (MkIterator (it_br it') (it_total it') (it_read it') (it_st it') (Some e), false)
      end
  end.

Definition At (it : Iterator) : Z * Z := (e_t (it_st it), e_v (it_st it)).

(** [for it.Next() { ... it.At() ... }]: the samples seen and the iterator the
    loop ends with.  [Next] succeeds at most [total] times, so [total + 1]
    iterations are enough. *)
Fixpoint iterate (fuel : nat) (it : Iterator) : list (Z * Z) * Iterator :=
  match fuel with
  | O => ([], it)
  | S fuel' =>
      match Next it with
      | (it', true) => let '(l, it'') := iterate fuel' it' in (At it' :: l, it'')
      | (it', false) => ([], it')
      end
  end.

Definition drain (it : Iterator) : list (Z * Z) * Iterator :=
  iterate (Z.to_nat (it_total it - it_read it) + 1) it.

(** ** Resuming *)

Definition ChunkAppender (c : Chunk) : result chunk_error Appender :=
  let n := NumSamples c in
  if n =? 0 then Ok (MkAppender (own headerLen c) enc0) else
  let it := snd (drain (ChunkIterator c)) in
  match it_err it with
  | Some e => Err (ErrCannotResume e)
  | None =>
      let pos := (headerLen + r_pos (it_br it))%nat in
      let '(end_, cnt) :=
        if negb (r_count (it_br it) =? 8) then (S pos, r_count (it_br it)) else (pos, 0) in
      let c := own end_ c in
      Ok (MkAppender (MkChunk (Bstream (take end_ (stream (c_b c))) cnt) (c_borrowed c)) (it_st it))
  end.

(** Appending a run of samples, stopping at the first error. *)
Fixpoint appendAll (ss : list (Z * Z)) (a : Appender) : Appender * result chunk_error unit :=
  match ss with
  | [] => (a, Ok tt)
  | (t, v) :: ss' =>
      match Append t v a with
      | (a', Ok _) => appendAll ss' a'
      | (a', Err e) => (a', Err e)
      end
  end.

(** ** What each write puts in the stream

    The bits a sample costs, as a function of the encoder state: the reference
    both the appender and the iterator are compared with. *)

Definition clamp (x : Z) : Z := if 32 <=? LeadingZeros64 x then 31 else LeadingZeros64 x.

Definition reuses (st : encState) (x : Z) : bool :=
  negb (e_leading st =? 255) && (e_leading st <=? clamp x) && (e_trailing st <=? TrailingZeros64 x).

Definition value_bits (st : encState) (v : Z) : list bool * encState :=
  let x := Z.lxor v (e_v st) in
  if x =? 0 then ([false], st) else
  if reuses st x then
    ([true; false] ++ bits_of (Z.to_nat (64 - e_leading st - e_trailing st)) (Z.shiftr x (e_trailing st)), st)
  else
    let sig := 64 - clamp x - TrailingZeros64 x in
    ([true; true] ++ bits_of 5 (clamp x) ++ bits_of 6 (Z.land sig 63)
       ++ bits_of (Z.to_nat sig) (Z.shiftr x (TrailingZeros64 x)),
     Enc (e_t st) (e_v st) (e_delta st) (clamp x) (TrailingZeros64 x)).

Definition fits (n d : Z) : bool := (- 2 ^ (n - 1) <=? d) && (d <? 2 ^ (n - 1)).

Definition dod_bits (d : Z) : list bool :=
  if d =? 0 then [false]
  else if fits 14 d then [true; false] ++ bits_of 14 (uint64 d)
  else if fits 17 d then [true; true; false] ++ bits_of 17 (uint64 d)
  else if fits 20 d then [true; true; true; false] ++ bits_of 20 (uint64 d)
  else [true; true; true; true] ++ bits_of 64 (uint64 d).

Definition varint_bits (v : Z) : list bool := bits_of_bytes (uvarint_loop 10 (zigzag v)).

(** Timestamp part of sample number [n], and the state it leaves. *)
Definition time_bits (n : Z) (st : encState) (t : Z) : list bool * encState :=
  if n =? 0 then (varint_bits t, st) else
  let delta := int64 (t - e_t st) in
  (if n =? 1 then varint_bits delta else dod_bits (int64 (delta - e_delta st)),
   Enc (e_t st) (e_v st) delta (e_leading st) (e_trailing st)).

Definition sample_bits (n : Z) (st : encState) (s : Z * Z) : list bool * encState :=
  let '(t, v) := s in
  let '(tb, st1) := time_bits n st t in
  let '(vb, st2) := if n =? 0 then (bits_of 64 v, st1) else value_bits st1 v in
  (tb ++ vb, Enc t v (e_delta st2) (e_leading st2) (e_trailing st2)).

Fixpoint run_bits (n : Z) (st : encState) (ss : list (Z * Z)) : list bool * encState :=
  match ss with
  | [] => ([], st)
  | s :: ss' =>
      let '(b1, st1) := sample_bits n st s in
      let '(b2, st2) := run_bits (n + 1) st1 ss' in
      (b1 ++ b2, st2)
  end.

(** The state's well-formedness: machine-width fields and a window of 1 to 64
    bits. *)
Record enc_ok (st : encState) : Prop := {
  ok_t : is_i64 (e_t st);
  ok_v : is_u64 (e_v st);
  ok_delta : is_i64 (e_delta st);
  ok_window : e_leading st = 255 \/
    (0 <= e_leading st <= 31 /\ 0 <= e_trailing st /\ e_leading st + e_trailing st <= 63);
}.

Definition sample_ok (s : Z * Z) : Prop := is_i64 s.1 /\ is_u64 s.2.

Lemma enc0_ok : enc_ok enc0.
Proof. constructor; unfold is_i64, is_u64; simpl; (lia || auto). Qed.

(** ** Bit-level facts *)

Lemma ctz_pos_spec p :
  0 <= ctz_pos p <= Z.log2 (Zpos p) /\ Zpos p mod 2 ^ ctz_pos p = 0.
Proof.
  induction p as [p IH|p IH|]; cbn [ctz_pos].
  - split; [split; [done|apply Z.log2_nonneg]|apply Z.mod_1_r].
  - destruct IH as [IH1 IH2]. rewrite Pos2Z.inj_xO, Z.log2_double by done.
    split; [lia|]. rewrite Z.pow_add_r by lia. change (2 ^ 1) with 2.
    rewrite Z.mul_mod_distr_l by lia. by rewrite IH2.
  - split; [cbn; lia|apply Z.mod_1_r].
Qed.

(** The significant window of a non-zero XOR. *)
Lemma window_spec x : is_u64 x -> x <> 0 ->
  0 <= clamp x <= 31 /\ 0 <= TrailingZeros64 x /\ clamp x + TrailingZeros64 x <= 63
  /\ x < 2 ^ (64 - clamp x) /\ x mod 2 ^ TrailingZeros64 x = 0.
Proof.
  intros Hu Hx. unfold is_u64 in Hu. destruct x as [|p|p]; [done| |lia].
  destruct (ctz_pos_spec p) as [H1 H2]. cbn [TrailingZeros64].
  assert (Hl : Z.log2 (Zpos p) < 64) by (apply Z.log2_lt_pow2; lia).
  assert (Hx2 : Zpos p < 2 ^ (Z.log2 (Zpos p) + 1)).
  { destruct (Z.log2_spec (Zpos p)); [lia|]. by rewrite <- Z.add_1_r in *. }
  unfold clamp, LeadingZeros64. destruct (Zpos p =? 0) eqn:E; [lia|].
  destruct (32 <=? 63 - Z.log2 (Zpos p)) eqn:E2; split_and!; try lia.
  eapply Z.lt_le_trans; [exact Hx2|]. apply Z.pow_le_mono_r; lia.
  eapply Z.lt_le_trans; [exact Hx2|]. apply Z.pow_le_mono_r; lia.
Qed.

Lemma mod_pow2_mono x a b : 0 <= a <= b -> x mod 2 ^ b = 0 -> x mod 2 ^ a = 0.
Proof.
  intros H Hx. replace b with (a + (b - a)) in Hx by lia. rewrite Z.pow_add_r in Hx by lia.
  rewrite Z.rem_mul_r in Hx by lia.
  pose proof (Z.mod_pos_bound x (2 ^ a)). pose proof (Z.mod_pos_bound (x / 2 ^ a) (2 ^ (b - a))).
  nia.
Qed.

(** Storing only a window that covers the set bits loses nothing. *)
Lemma window_recover x l t : is_u64 x -> 0 <= l -> 0 <= t -> l + t <= 63 ->
  x < 2 ^ (64 - l) -> x mod 2 ^ t = 0 ->
  uint64 (Z.shiftl (Z.shiftr x t mod 2 ^ (64 - l - t)) t) = x.
Proof.
  intros Hu Hl Ht Hlt Hx Hm. unfold is_u64 in Hu.
  assert (Hd : x = 2 ^ t * (x / 2 ^ t)) by (rewrite (Z_div_mod_eq_full x (2 ^ t)) at 1; lia).
  rewrite Z.shiftr_div_pow2, Z.shiftl_mul_pow2 by lia.
  rewrite Z.mod_small.
  - rewrite Z.mul_comm, <- Hd. by apply uint64_id.
  - split; [apply Z.div_pos; lia|]. apply Z.div_lt_upper_bound; [lia|].
    rewrite <- Z.pow_add_r by lia. by replace (t + (64 - l - t)) with (64 - l) by lia.
Qed.

Lemma lxor_u64 a b : is_u64 a -> is_u64 b -> is_u64 (Z.lxor a b).
Proof. intros. by apply (lxor_range 64). Qed.

Lemma lxor_recover v w : Z.lxor v (Z.lxor w v) = w.
Proof. rewrite Z.lxor_comm, Z.lxor_assoc, Z.lxor_nilpotent. apply Z.lxor_0_r. Qed.

(** Two's complement of [n] bits, sign-extended the way [readDOD] does it. *)
Lemma sign_extend n d : 0 < n < 64 -> - 2 ^ (n - 1) <= d < 2 ^ (n - 1) ->
  let u := d mod 2 ^ n in
  int64 (if negb (Z.land u (Z.shiftl 1 (n - 1)) =? 0)
         then Z.lor u (uint64 (Z.shiftl (2 ^ 64 - 1) n)) else u) = d.
Proof.
  intros Hn Hd u. rewrite mask_bit by lia.
  assert (Hp : 2 ^ n = 2 * 2 ^ (n - 1)) by (rewrite <- Z.pow_succ_r by lia; f_equal; lia).
  assert (H63 : 2 ^ (n - 1) <= 2 ^ 62) by (apply Z.pow_le_mono_r; lia).
  assert (Hs : uint64 (Z.shiftl (2 ^ 64 - 1) n) = (2 ^ (64 - n) - 1) * 2 ^ n).
  { unfold uint64. rewrite Z.shiftl_mul_pow2 by lia.
    assert (E : 2 ^ (64 - n) * 2 ^ n = 2 ^ 64) by (rewrite <- Z.pow_add_r by lia; f_equal; lia).
    replace ((2 ^ 64 - 1) * 2 ^ n) with ((2 ^ (64 - n) - 1) * 2 ^ n + (2 ^ n - 1) * 2 ^ 64)
      by (rewrite <- E; ring).
    rewrite Z.mod_add, Z.mod_small by nia. done. }
  assert (Hu : 0 <= u < 2 ^ n) by (apply Z.mod_pos_bound; lia).
  assert (Hb : Z.testbit u (n - 1) = (2 ^ (n - 1) <=? u)).
  { apply Z.b2z_inj. rewrite Z.testbit_spec' by lia.
    destruct (2 ^ (n - 1) <=? u) eqn:E.
    - rewrite <- (Z.div_unique u (2 ^ (n - 1)) 1 (u - 2 ^ (n - 1))) by lia. done.
    - rewrite Z.div_small by lia. done. }
  rewrite Hb. unfold u in *. destruct (decide (d < 0)) as [Hneg|Hpos].
  - assert (Hm : d mod 2 ^ n = d + 2 ^ n).
    { symmetry. apply (Z.mod_unique d (2 ^ n) (-1)); lia. }
    rewrite Hm in *. destruct (2 ^ (n - 1) <=? d + 2 ^ n) eqn:E; [|lia].
    rewrite Hs, lor_disjoint by lia.
    assert (E2 : 2 ^ (64 - n) * 2 ^ n = 2 ^ 64) by (rewrite <- Z.pow_add_r by lia; f_equal; lia).
    replace (d + 2 ^ n + (2 ^ (64 - n) - 1) * 2 ^ n) with (d + 2 ^ 64) by nia.
    unfold int64. dlia.
  - assert (Hm : d mod 2 ^ n = d) by (apply Z.mod_small; lia). rewrite Hm in *.
    destruct (2 ^ (n - 1) <=? d) eqn:E; [lia|]. apply int64_id. unfold is_i64. lia.
Qed.

(** ** The appender writes the reference bits *)

Definition app_at (hdr : list Z) (l : list bool) (bor : bool) (st : encState) : Appender :=
  MkAppender (MkChunk (pack hdr l) bor) st.

Lemma on_bstream_at f hdr l l' bor st :
  f (pack hdr l) = pack hdr l' -> on_bstream f (app_at hdr l bor st) = app_at hdr l' bor st.
Proof. intros H. unfold on_bstream, app_at. cbn [a_c c_b c_borrowed a_st]. by rewrite H. Qed.

Lemma shiftr_u64 x t : is_u64 x -> 0 <= t -> is_u64 (Z.shiftr x t).
Proof.
  unfold is_u64. intros Hx Ht. rewrite Z.shiftr_div_pow2 by done.
  split; [apply Z.div_pos; lia|]. eapply Z.le_lt_trans; [|apply Hx].
  apply Z.div_le_upper_bound; nia.
Qed.

Lemma writeValue_at hdr l bor st v : enc_ok st -> is_u64 v ->
  writeValue v (app_at hdr l bor st)
  = app_at hdr (l ++ (value_bits st v).1) bor (value_bits st v).2.
Proof.
  intros [Ht Hv Hd Hw] Hu. unfold writeValue, value_bits, reuses.
  change (a_st (app_at hdr l bor st)) with st. fold (clamp (Z.lxor v (e_v st))).
  pose proof (lxor_u64 _ _ Hu Hv) as Hx. set (x := Z.lxor v (e_v st)) in *.
  destruct (x =? 0) eqn:E0; [by apply on_bstream_at, writeBit_pack|].
  destruct (window_spec x Hx) as (H1 & H2 & H3 & _ & _); [lia|].
  cbv zeta. rewrite (on_bstream_at (writeBit true) _ _ (l ++ [true])) by apply writeBit_pack.
  destruct (negb _ && _ && _) eqn:E; cbn [fst snd].
  - rewrite (on_bstream_at (writeBit false) _ _ ((l ++ [true]) ++ [false])) by apply writeBit_pack.
    assert (e_leading st <> 255) by lia. destruct Hw as [|Hw]; [done|].
    apply on_bstream_at. rewrite writeBits_pack by (lia || (apply shiftr_u64; [done|lia])).
    by rewrite <- !app_assoc.
  - rewrite (on_bstream_at (writeBit true) _ _ ((l ++ [true]) ++ [true])) by apply writeBit_pack.
    erewrite on_bstream_at by (apply writeBits_pack; unfold is_u64; lia).
    assert (0 <= Z.land (64 - clamp x - TrailingZeros64 x) 63 < 64).
    { rewrite (Z.land_ones _ 6) by lia. by apply Z.mod_pos_bound. }
    erewrite on_bstream_at by (apply writeBits_pack; unfold is_u64; lia).
    erewrite on_bstream_at by (apply writeBits_pack; [apply shiftr_u64; [done|lia]|lia]).
    unfold set_st, app_at. cbn [a_c a_st]. by rewrite <- !app_assoc.
Qed.

Lemma fits_bucket n d : 0 < n < 64 ->
  (n <? 64) && ((d <? - Z.shiftl 1 (n - 1)) || (Z.shiftl 1 (n - 1) - 1 <? d)) = negb (fits n d).
Proof.
  intros Hn. unfold fits. rewrite Z.shiftl_mul_pow2 by lia. rewrite Z.mul_1_l.
  destruct (n <? 64) eqn:E; [|lia]. cbn [andb].
  destruct (- 2 ^ (n - 1) <=? d) eqn:E1, (d <? 2 ^ (n - 1)) eqn:E2; cbn [andb negb]; lia.
Qed.

Lemma write_bucket hdr l bor st prefix pn bits u :
  is_u64 prefix -> 0 <= pn <= 64 -> is_u64 u -> 0 <= bits <= 64 ->
  on_bstream (writeBits u bits) (on_bstream (writeBits prefix pn) (app_at hdr l bor st))
  = app_at hdr (l ++ bits_of (Z.to_nat pn) prefix ++ bits_of (Z.to_nat bits) u) bor st.
Proof.
  intros. erewrite on_bstream_at by by apply writeBits_pack.
  erewrite on_bstream_at by by apply writeBits_pack. by rewrite <- app_assoc.
Qed.

Lemma writeDOD_at hdr l bor st d :
  writeDOD d (app_at hdr l bor st) = app_at hdr (l ++ dod_bits d) bor st.
Proof.
  pose proof (uint64_range d) as Hu.
  unfold writeDOD, dodBuckets, dod_bits. cbn [writeDOD_loop Z.eqb].
  destruct (d =? 0); [erewrite on_bstream_at by (apply writeBits_pack; unfold is_u64; lia); done|].
  rewrite !fits_bucket by lia.
  do 3 (destruct (fits _ d); cbn [negb]; [by rewrite write_bucket by (unfold is_u64 in *; lia)|]).
  by rewrite write_bucket by (unfold is_u64 in *; lia).
Qed.

(** The two header bytes holding a sample count. *)
Definition hdr_of (n : Z) : list Z := [uint8 (Z.shiftr n 8); uint8 n].

Lemma NumSamples_at n l bor : 0 <= n < 2 ^ 16 -> NumSamples (MkChunk (pack (hdr_of n) l) bor) = n.
Proof.
  intros Hn. unfold NumSamples, BigEndian_Uint16. cbn [c_b pack stream hdr_of app length nth Nat.ltb Nat.leb headerLen].
  unfold uint8. rewrite Z.shiftl_mul_pow2, Z.shiftr_div_pow2 by lia.
  rewrite lor_disjoint by dlia. dlia.
Qed.

Lemma put_header n m l : BigEndian_PutUint16 (stream (pack (hdr_of n) l)) m = stream (pack (hdr_of m) l).
Proof. done. Qed.

Lemma Append_at n l bor st t v : 0 <= n < MaxSamplesPerChunk -> enc_ok st -> is_i64 t -> is_u64 v ->
  (n <> 0 -> e_t st < t) ->
  Append t v (app_at (hdr_of n) l bor st)
  = (app_at (hdr_of (n + 1)) (l ++ (sample_bits n st (t, v)).1) bor (sample_bits n st (t, v)).2, Ok tt).
Proof.
  unfold MaxSamplesPerChunk. intros Hn Hok Ht Hv Hlt. unfold Append.
  change (a_c (app_at (hdr_of n) l bor st)) with (MkChunk (pack (hdr_of n) l) bor).
  change (a_st (app_at (hdr_of n) l bor st)) with st.
  rewrite NumSamples_at by lia. unfold MaxSamplesPerChunk.
  destruct (120 <=? n) eqn:E120; [lia|]. unfold sample_bits, time_bits.
  assert (Hfin : forall l' st', on_bstream
      (on_stream (fun s => BigEndian_PutUint16 s (uint16 (n + 1))))
      (set_tv t v (app_at (hdr_of n) l' bor st'))
    = app_at (hdr_of (n + 1)) l' bor (Enc t v (e_delta st') (e_leading st') (e_trailing st'))).
  { intros. unfold uint16. rewrite Z.mod_small by lia. done. }
  destruct (n =? 0) eqn:E0.
  { rewrite (on_bstream_at (writeVarint t) _ _ (l ++ varint_bits t)) by apply writeVarint_pack.
    rewrite (on_bstream_at (writeBits v 64) _ _ ((l ++ varint_bits t) ++ bits_of 64 v))
      by (apply writeBits_pack; done || lia).
    rewrite Hfin, <- app_assoc. done. }
  specialize (Hlt ltac:(lia)). destruct (t <=? e_t st) eqn:Et; [lia|].
  set (delta := int64 (t - e_t st)).
  assert (Hok' : enc_ok (Enc (e_t st) (e_v st) delta (e_leading st) (e_trailing st))).
  { destruct Hok. constructor; try done. apply int64_range. }
  destruct (n =? 1) eqn:E1.
  - unfold set_delta, set_st; cbn [a_st a_c app_at].
    fold (app_at (hdr_of n) l bor (Enc (e_t st) (e_v st) delta (e_leading st) (e_trailing st))).
    rewrite (on_bstream_at (writeVarint delta) _ _ (l ++ varint_bits delta)) by apply writeVarint_pack.
    rewrite writeValue_at by done. destruct (value_bits _ v) as [vb st2]. cbn [fst snd].
    rewrite Hfin, <- app_assoc. done.
  - rewrite writeDOD_at. unfold set_delta, set_st; cbn [a_st a_c app_at].
    fold (app_at (hdr_of n) (l ++ dod_bits (int64 (delta - e_delta st))) bor
            (Enc (e_t st) (e_v st) delta (e_leading st) (e_trailing st))).
    rewrite writeValue_at by done. destruct (value_bits _ v) as [vb st2]. cbn [fst snd].
    rewrite Hfin, <- app_assoc. done.
Qed.

(** ** The iterator reads the reference bits back

    [steps m st l st' a]: from decoder state [st], with [l] next in the stream,
    [m] succeeds with [a], leaves state [st'] and consumes exactly [l]. *)
Definition steps {A} (m : IT A) (st : encState) (l : list bool) (st' : encState) (a : A) : Prop :=
  forall r total read err rest, rd_ok r -> unread r = l ++ rest ->
    exists r', m (MkIterator r total read st err) = (MkIterator r' total read st' err, Ok a)
      /\ rd_ok r' /\ r_stream r' = r_stream r
      /\ consumed r' = (consumed r + length l)%nat /\ unread r' = rest.

Lemma steps_br {A} (m : RD A) st l a : reads m l a -> steps (br m) st l st a.
Proof.
  intros H r total read err rest Hr Hu. destruct (H r rest Hr Hu) as (r' & E & ?).
  exists r'. split; [|done]. unfold br. cbn [it_br]. by rewrite E.
Qed.

Lemma steps_ret {A} st (a : A) : steps (mret a) st [] st a.
Proof. intros r ???? Hr Hu. exists r. rewrite Nat.add_0_r. by split_and!. Qed.

Lemma steps_modify f st : steps (modify_st f) st [] (f st) tt.
Proof. intros r ???? Hr Hu. exists r. rewrite Nat.add_0_r. by split_and!. Qed.

(** Run a state update, leaving the equation between the states. *)
Ltac step_modify :=
  match goal with |- steps (modify_st ?F) ?st _ ?st' _ =>
    replace st' with (F st); [apply steps_modify|]; cbv beta zeta end.

Lemma steps_bind {A B} (m : IT A) (f : A -> IT B) st l1 st1 a l2 st2 b :
  steps m st l1 st1 a -> steps (f a) st1 l2 st2 b -> steps (m ≫= f) st (l1 ++ l2) st2 b.
Proof.
  intros Hm Hf r total read err rest Hr Hu. rewrite <- app_assoc in Hu.
  destruct (Hm r total read err _ Hr Hu) as (r1 & E1 & Hr1 & Hs1 & Hc1 & Hu1).
  destruct (Hf r1 total read err _ Hr1 Hu1) as (r2 & E2 & Hr2 & Hs2 & Hc2 & Hu2).
  exists r2. rewrite (bind_ok _ _ _ _ _ E1), E2, length_app.
  split_and!; done || (congruence || lia).
Qed.

Lemma steps_bind_nil {A B} (m : IT A) (f : A -> IT B) st l st1 a st2 b :
  steps m st l st1 a -> steps (f a) st1 [] st2 b -> steps (m ≫= f) st l st2 b.
Proof. intros Hm Hf. rewrite <- (app_nil_r l). by eapply steps_bind. Qed.

(** Reading the state does not consume bits. *)
Lemma steps_get {B} (f : Iterator -> IT B) st l st2 b :
  (forall r total read err, steps (f (MkIterator r total read st err)) st l st2 b) ->
  steps (get ≫= f) st l st2 b.
Proof.
  intros Hf r total read err rest Hr Hu.
  rewrite (bind_ok _ _ _ (MkIterator r total read st err) (MkIterator r total read st err)) by done.
  by eapply Hf.
Qed.

Lemma steps_bit {B} (f : bool -> IT B) st b l st2 x :
  steps (f b) st l st2 x -> steps (br readBit ≫= f) st (b :: l) st2 x.
Proof.
  intros. change (b :: l) with ([b] ++ l). eapply steps_bind; [|done].
  apply steps_br, readBit_reads.
Qed.

Lemma steps_bits {B} (f : Z -> IT B) st n u nbits l st2 x :
  (n <= 64)%nat -> nbits = Z.of_nat n ->
  steps (f (u mod 2 ^ nbits)) st l st2 x ->
  steps (br (readBits nbits) ≫= f) st (bits_of n u ++ l) st2 x.
Proof. intros. eapply steps_bind; [|done]. by apply steps_br, readBits_bits_of. Qed.

Lemma steps_bits_nil {B} (f : Z -> IT B) st n u nbits st2 x :
  (n <= 64)%nat -> nbits = Z.of_nat n ->
  steps (f (u mod 2 ^ nbits)) st [] st2 x ->
  steps (br (readBits nbits) ≫= f) st (bits_of n u) st2 x.
Proof. intros. rewrite <- (app_nil_r (bits_of n u)). by apply steps_bits. Qed.

Lemma uint64_mod d n : 0 <= n <= 64 -> uint64 d mod 2 ^ n = d mod 2 ^ n.
Proof.
  intros Hn. unfold uint64. replace (2 ^ 64) with (2 ^ n * 2 ^ (64 - n))
    by (rewrite <- Z.pow_add_r by lia; f_equal; lia).
  rewrite Z.rem_mul_r by lia. rewrite Z.mul_comm, Z.mod_add, Z.mod_mod by lia. done.
Qed.

Lemma readDOD_steps st d : is_i64 d -> steps readDOD st (dod_bits d) st d.
Proof.
  intros Hd. unfold readDOD, dod_bits, fits.
  assert (Hbucket : forall n : nat, (0 < n < 64)%nat ->
    (- 2 ^ (Z.of_nat n - 1) <=? d) && (d <? 2 ^ (Z.of_nat n - 1)) = true ->
    steps (br (readBits (Z.of_nat n)) ≫= fun u => mret (int64
       (if (Z.of_nat n <? 64) && negb (Z.land u (Z.shiftl 1 (Z.of_nat n - 1)) =? 0)
        then Z.lor u (uint64 (Z.shiftl (2 ^ 64 - 1) (Z.of_nat n))) else u)))
      st (bits_of n (uint64 d)) st d).
  { intros n Hn Hf. apply steps_bits_nil; [lia|done|].
    rewrite uint64_mod by lia. destruct (Z.of_nat n <? 64) eqn:E; [|lia]. cbn [andb].
    rewrite sign_extend by lia. apply steps_ret. }
  destruct (d =? 0) eqn:E0.
  { replace d with 0 by lia. eapply steps_bind_nil; [apply steps_bit, steps_ret|]. apply steps_ret. }
  destruct (_ && _) eqn:E14.
  { eapply steps_bind; [apply steps_bit, steps_bit, steps_ret|]. by apply (Hbucket 14%nat); [lia|]. }
  destruct ((- 2 ^ (17 - 1) <=? d) && _) eqn:E17.
  { eapply steps_bind; [do 3 apply steps_bit; apply steps_ret|]. by apply (Hbucket 17%nat); [lia|]. }
  destruct ((- 2 ^ (20 - 1) <=? d) && _) eqn:E20.
  { eapply steps_bind; [do 4 apply steps_bit; apply steps_ret|]. by apply (Hbucket 20%nat); [lia|]. }
  eapply steps_bind; [do 4 apply steps_bit; apply steps_ret|].
  apply (steps_bits_nil _ _ 64); [lia|done|].
  change (steps (mret (int64 (uint64 d mod 2 ^ 64)) : IT Z) st [] st d).
  rewrite uint64_mod by lia. fold (uint64 d).
  rewrite int64_uint64, int64_id by done. apply steps_ret.
Qed.

(** Reading the window's bits, whichever branch set the window. *)
Lemma read_window_steps st v :
  enc_ok st -> e_leading st <> 255 -> is_u64 v ->
  let x := Z.lxor v (e_v st) in
  x < 2 ^ (64 - e_leading st) -> x mod 2 ^ e_trailing st = 0 ->
  steps (get ≫= fun it => let st := it_st it in
    if e_leading st =? 255 then throw ErrWindowReused else
    let sigbits := 64 - e_leading st - e_trailing st in
    if (sigbits <=? 0) || (64 <? sigbits) then throw (ErrImpossibleWindow sigbits) else
    br (readBits sigbits) ≫= fun u =>
    modify_st (fun st => Enc (e_t st) (Z.lxor (e_v st) (uint64 (Z.shiftl u (e_trailing st))))
                         (e_delta st) (e_leading st) (e_trailing st)))
    st (bits_of (Z.to_nat (64 - e_leading st - e_trailing st)) (Z.shiftr x (e_trailing st)))
    (Enc (e_t st) v (e_delta st) (e_leading st) (e_trailing st)) tt.
Proof.
  intros [Ht Hv Hd [|Hw]] Hne Hu x Hx Hm; [done|].
  pose proof (lxor_u64 _ _ Hu Hv) as Hxu. fold x in Hxu.
  apply steps_get. intros. cbn [it_st].
  destruct (e_leading st =? 255) eqn:E; [lia|].
  destruct (_ || _) eqn:E2; [lia|].
  apply steps_bits_nil; [lia|lia|].
  step_modify. rewrite window_recover by (done || lia). f_equal. apply lxor_recover.
Qed.

Lemma readValue_steps st v : enc_ok st -> is_u64 v ->
  steps readValue st (value_bits st v).1
    (let st' := (value_bits st v).2 in
     Enc (e_t st') v (e_delta st') (e_leading st') (e_trailing st')) tt.
Proof.
  intros Hok Hu. pose proof Hok as [Ht Hv Hd Hw]. unfold readValue, value_bits, reuses.
  pose proof (lxor_u64 _ _ Hu Hv) as Hx. pose proof (lxor_recover (e_v st) v) as Hrec.
  set (x := Z.lxor v (e_v st)) in *.
  destruct (x =? 0) eqn:E0.
  { cbn [fst snd]. apply steps_bit. cbn [negb].
    assert (v = e_v st) as -> by (replace x with 0 in Hrec by lia; by rewrite Z.lxor_0_r in Hrec).
    destruct st. apply steps_ret. }
  destruct (window_spec x Hx) as (H1 & H2 & H3 & H4 & H5); [lia|].
  destruct (negb _ && _ && _) eqn:E; cbn [fst snd].
  - assert (e_leading st <> 255) by lia. destruct Hw as [|Hw]; [done|].
    apply steps_bit, steps_bit. cbn [negb].
    eapply (steps_bind _ _ _ [] _ tt); [apply steps_ret|].
    apply read_window_steps; try done.
    + eapply Z.lt_le_trans; [exact H4|]. apply Z.pow_le_mono_r; lia.
    + eapply mod_pow2_mono; [|exact H5]. lia.
  - apply steps_bit, steps_bit. cbn [negb].
    set (sig := 64 - clamp x - TrailingZeros64 x).
    set (st1 := Enc (e_t st) (e_v st) (e_delta st) (clamp x) (TrailingZeros64 x)).
    assert (Hsig : (if Z.land sig 63 =? 0 then 64 else Z.land sig 63) = sig).
    { rewrite (Z.land_ones _ 6) by lia. destruct (sig mod 2 ^ 6 =? 0) eqn:Es;
        unfold sig in *; dlia. }
    rewrite app_assoc. eapply (steps_bind _ _ _ _ st1 tt).
    + apply steps_bits; [lia|done|]. apply steps_bits_nil; [lia|done|].
      rewrite (Z.mod_small (clamp x)) by lia.
      rewrite (Z.mod_small (Z.land sig 63)) by (rewrite (Z.land_ones _ 6) by lia; dlia).
      rewrite Hsig. step_modify.
      unfold st1, sig, uint64, uint8. f_equal; [apply Z.mod_small; lia|].
      rewrite (Z.mod_small _ (2 ^ 64)) by lia. rewrite Z.mod_small; lia.
    + apply (read_window_steps st1); try done; [|cbn; lia].
      constructor; try done. right. cbn. lia.
Qed.

Lemma value_bits_ok st v : enc_ok st -> is_u64 v -> enc_ok (value_bits st v).2.
Proof.
  intros Hok Hu. unfold value_bits. destruct (_ =? 0) eqn:E0; [done|].
  destruct (reuses _ _); [done|]. destruct Hok as [Ht Hv Hd Hw].
  destruct (window_spec (Z.lxor v (e_v st))) as (H1 & H2 & H3 & _); [by apply lxor_u64|lia|].
  constructor; try done. right. cbn [snd e_leading e_trailing]. lia.
Qed.

Lemma sample_bits_ok n st s : enc_ok st -> sample_ok s -> enc_ok (sample_bits n st s).2.
Proof.
  destruct s as [t v]. intros Hok [Ht Hv]; cbn in Ht, Hv. unfold sample_bits, time_bits.
  destruct (n =? 0).
  - destruct Hok. by constructor.
  - set (st1 := Enc _ _ _ _ _).
    assert (enc_ok st1) as Hok1 by (destruct Hok; constructor; try done; apply int64_range).
    pose proof (value_bits_ok st1 v Hok1 Hv) as Hok2.
    destruct (value_bits st1 v) as [vb st2]. destruct Hok2. by constructor.
Qed.

Lemma sample_bits_last n st s : e_t (sample_bits n st s).2 = s.1 /\ e_v (sample_bits n st s).2 = s.2.
Proof.
  destruct s as [t v]. unfold sample_bits. destruct (time_bits n st t) as [tb st1].
  by destruct (if n =? 0 then _ else _) as [vb st2].
Qed.

Lemma next_sample_steps n st s : enc_ok st -> sample_ok s -> 0 <= n ->
  steps (next_sample n) st (sample_bits n st s).1 (sample_bits n st s).2 tt.
Proof.
  destruct s as [t v]. intros Hok [Ht Hv] Hn; cbn in Ht, Hv.
  unfold next_sample, sample_bits, time_bits. destruct (n =? 0) eqn:E0.
  { cbn [fst snd]. eapply steps_bind; [apply steps_br, readVarint_reads; done|].
    apply (steps_bits_nil _ _ 64); [lia|done|]. rewrite Z.mod_small by done.
    step_modify. reflexivity. }
  set (delta := int64 (t - e_t st)).
  set (st1 := Enc (e_t st) (e_v st) delta (e_leading st) (e_trailing st)).
  set (st1' := Enc t (e_v st) delta (e_leading st) (e_trailing st)).
  assert (Hok1 : enc_ok st1') by (destruct Hok; constructor; try done; apply int64_range).
  assert (Hvb : value_bits st1 v = ((value_bits st1' v).1,
             let st' := (value_bits st1' v).2 in
             Enc (e_t st) (e_v st') (e_delta st') (e_leading st') (e_trailing st'))).
  { unfold value_bits, reuses, st1, st1'; cbn [e_t e_v e_delta e_leading e_trailing].
    destruct (Z.lxor v (e_v st) =? 0); [done|]. by destruct (_ && _). }
  rewrite Hvb. cbn [fst snd e_delta e_leading e_trailing].
  assert (Het : e_t (value_bits st1' v).2 = t).
  { unfold value_bits, reuses, st1'; cbn [e_t e_v e_delta e_leading e_trailing].
    destruct (Z.lxor v (e_v st) =? 0); [done|]. by destruct (_ && _). }
  pose proof (readValue_steps st1' v Hok1 Hv) as HV. cbv zeta in HV. rewrite Het in HV.
  destruct (n =? 1) eqn:E1.
  - eapply steps_bind; [apply steps_br, readVarint_reads, int64_range|].
    eapply (steps_bind _ _ _ []); [apply steps_modify|]. cbv beta.
    unfold delta. rewrite int64_add_sub by done. exact HV.
  - eapply steps_bind; [apply readDOD_steps, int64_range|].
    eapply (steps_bind _ _ _ []); [apply steps_modify|]. cbv beta zeta.
    rewrite (int64_add_int64 (e_delta st)), Zplus_minus, (int64_id delta) by apply int64_range.
    unfold delta. rewrite int64_add_sub by done. exact HV.
Qed.

(** Timestamps strictly increase, starting after [last] unless the chunk is
    empty. *)
Fixpoint ascending (first : bool) (last : Z) (ss : list (Z * Z)) : Prop :=
  match ss with
  | [] => True
  | s :: ss' => (first = true \/ last < s.1) /\ ascending false s.1 ss'
  end.

Lemma appendAll_at ss : forall n l bor st,
  0 <= n -> n + Z.of_nat (length ss) <= MaxSamplesPerChunk -> enc_ok st ->
  Forall sample_ok ss -> ascending (n =? 0) (e_t st) ss ->
  appendAll ss (app_at (hdr_of n) l bor st)
  = (app_at (hdr_of (n + Z.of_nat (length ss))) (l ++ (run_bits n st ss).1) bor (run_bits n st ss).2,
     Ok tt).
Proof.
  induction ss as [|[t v] ss IH]; intros n l bor st Hn Hle Hok Hss Hasc; cbn [appendAll run_bits].
  { cbn. by rewrite app_nil_r, Z.add_0_r. }
  apply Forall_cons_1 in Hss as [[Ht Hv] Hss]. destruct Hasc as [Ha Hasc]. cbn [fst snd] in *.
  cbn [length] in Hle.
  rewrite Append_at; try done; [|lia|intros; destruct Ha as [Ha|Ha]; [lia|done]].
  pose proof (sample_bits_last n st (t, v)) as [Hl _].
  pose proof (sample_bits_ok n st (t, v) Hok (conj Ht Hv)) as Hok1.
  destruct (sample_bits n st (t, v)) as [b1 st1]. cbn [fst snd] in *.
  rewrite IH; [|lia|lia|done|done|].
  - destruct (run_bits (n + 1) st1 ss) as [b2 st2]. cbn [fst snd]. rewrite <- app_assoc.
    do 2 f_equal. f_equal. cbn [length]. lia.
  - rewrite Hl. destruct (n + 1 =? 0) eqn:E; [lia|]. done.
Qed.

Lemma iterate_steps ss : forall n st r total rest fuel,
  enc_ok st -> Forall sample_ok ss -> 0 <= n -> total = n + Z.of_nat (length ss) ->
  (length ss < fuel)%nat -> rd_ok r -> unread r = (run_bits n st ss).1 ++ rest ->
  exists r', iterate fuel (MkIterator r total n st None)
    = (ss, MkIterator r' total total (run_bits n st ss).2 None)
    /\ rd_ok r' /\ r_stream r' = r_stream r
    /\ consumed r' = (consumed r + length (run_bits n st ss).1)%nat.
Proof.
  induction ss as [|s ss IH]; intros n st r total rest fuel Hok Hss Hn Ht Hf Hr Hu;
    (destruct fuel as [|fuel]; [simpl in Hf; lia|]); cbn [iterate run_bits] in *; unfold Next;
    cbn [it_err it_total it_read].
  - destruct (total <=? n) eqn:E; [|simpl in Ht; lia].
    exists r. rewrite Nat.add_0_r. simpl in Ht. replace total with n by lia. by split_and!.
  - apply Forall_cons_1 in Hss as [Hs Hss]. cbn [length] in *.
    destruct (total <=? n) eqn:E; [lia|].
    pose proof (next_sample_steps n st s Hok Hs Hn) as Hstep.
    pose proof (sample_bits_ok n st s Hok Hs) as Hok1.
    pose proof (sample_bits_last n st s) as [Hl1 Hl2].
    destruct (sample_bits n st s) as [b1 st1]. cbn [fst snd] in *.
    destruct (run_bits (n + 1) st1 ss) as [b2 st2] eqn:Erun. cbn [fst snd] in *.
    rewrite <- app_assoc in Hu.
    destruct (Hstep r total n None _ Hr Hu) as (r1 & E1 & Hr1 & Hs1 & Hc1 & Hu1).
    rewrite E1. cbn [it_br it_total it_read it_st it_err].
    destruct (IH (n + 1) st1 r1 total rest fuel) as (r2 & E2 & Hr2 & Hs2 & Hc2);
      try done; try lia; [by rewrite Erun|].
    rewrite E2, Erun in *. cbn [fst snd] in *. exists r2. split_and!; [|done|congruence|].
    + unfold At. cbn [it_st]. rewrite Hl1, Hl2. by destruct s.
    + rewrite Hc2, Hc1, length_app. lia.
Qed.

(** ** A chunk built by appending *)

(** The appender of a new chunk, and the chunk holding a run of samples. *)
Definition fresh : Appender := MkAppender NewChunk enc0.

Definition built (ss : list (Z * Z)) : Appender := fst (appendAll ss fresh).

Definition chunkable (ss : list (Z * Z)) : Prop :=
  Forall sample_ok ss /\ ascending true 0 ss /\ Z.of_nat (length ss) <= MaxSamplesPerChunk.

Lemma fresh_at : fresh = app_at (hdr_of 0) [] false enc0.
Proof. done. Qed.

Lemma appendAll_built ss : chunkable ss ->
  appendAll ss fresh
  = (app_at (hdr_of (Z.of_nat (length ss))) (run_bits 0 enc0 ss).1 false (run_bits 0 enc0 ss).2, Ok tt).
Proof.
  intros (Hok & Hasc & Hlen). rewrite fresh_at.
  rewrite appendAll_at; try done; apply enc0_ok.
Qed.

Lemma built_at ss : chunkable ss ->
  built ss = app_at (hdr_of (Z.of_nat (length ss))) (run_bits 0 enc0 ss).1 false (run_bits 0 enc0 ss).2.
Proof. intros H. unfold built. by rewrite appendAll_built. Qed.

Lemma built_num ss : chunkable ss -> NumSamples (a_c (built ss)) = Z.of_nat (length ss).
Proof.
  intros H. rewrite built_at by done. apply NumSamples_at.
  destruct H as (_ & _ & Hlen). unfold MaxSamplesPerChunk in Hlen. lia.
Qed.

(** Decoding the bytes of a built chunk, owned or borrowed. *)
Lemma drain_built ss (bor : bool) : chunkable ss ->
  let c := MkChunk (Bstream (Bytes (a_c (built ss))) (if bor then 0 else count (c_b (a_c (built ss))))) bor in
  exists r, drain (ChunkIterator c)
    = (ss, MkIterator r (Z.of_nat (length ss)) (Z.of_nat (length ss)) (run_bits 0 enc0 ss).2 None)
    /\ rd_ok r /\ r_stream r = bytes_of_bits (run_bits 0 enc0 ss).1
    /\ consumed r = length (run_bits 0 enc0 ss).1.
Proof.
  intros H c. pose proof (built_num ss H) as Hn. pose proof H as (Hok & Hasc & Hlen).
  set (bits := (run_bits 0 enc0 ss).1).
  assert (Hc : ChunkIterator c
    = MkIterator (newBReader (bytes_of_bits bits)) (Z.of_nat (length ss)) 0 enc0 None).
  { unfold c. rewrite <- Hn. rewrite built_at by done. unfold ChunkIterator, Bytes, app_at.
    cbn [c_b a_c stream pack hdr_of app length Nat.ltb Nat.leb headerLen drop skipn]. done. }
  rewrite Hc. unfold drain. cbn [it_total it_read].
  destruct (bits_of_bytes_of_bits bits) as (pad & Hpad & _).
  destruct (iterate_steps ss 0 enc0 (newBReader (bytes_of_bits bits)) (Z.of_nat (length ss)) pad
    (Z.to_nat (Z.of_nat (length ss) - 0) + 1)) as (r & E & Hr & Hs & Hcons);
    try done; try lia; [apply enc0_ok| |].
  - constructor; cbn [newBReader r_stream r_pos r_count]; try lia. apply bytes_of_bits_is_byte.
  - exists r. split_and!; done.
Qed.

Lemma FromBytes_built ss : chunkable ss ->
  FromBytes (Bytes (a_c (built ss))) = Ok (MkChunk (Bstream (Bytes (a_c (built ss))) 0) true).
Proof. intros H. unfold FromBytes. rewrite built_at by done. done. Qed.

(** The bit cursor recovered from the reader is the writer's. *)
Lemma cursor_recover r l : rd_ok r -> r_stream r = bytes_of_bits l -> consumed r = length l ->
  let '(n, cnt) := if negb (r_count r =? 8) then (S (r_pos r), r_count r) else (r_pos r, 0) in
  take n (bytes_of_bits l) = bytes_of_bits l /\ cnt = (- Z.of_nat (length l)) mod 8.
Proof.
  intros [Hb Hp Hc He] Hs Hcons. unfold consumed in Hcons.
  assert (Hlen : (8 * length (bytes_of_bits l) < length l + 8)%nat).
  { destruct (bits_of_bytes_of_bits l) as (pad & E & Hpad).
    apply (f_equal length) in E. rewrite length_bits_of_bytes, length_app in E. lia. }
  rewrite Hs in Hp. destruct (r_count r =? 8) eqn:E; cbn [negb].
  - split; [apply take_ge; lia|]. dlia.
  - split; [apply take_ge; lia|]. dlia.
Qed.

Lemma resume_built ss c : chunkable ss ->
  FromBytes (Bytes (a_c (built ss))) = Ok c -> ChunkAppender c = Ok (built ss).
Proof.
  intros H Hc. rewrite FromBytes_built in Hc by done. injection Hc as <-.
  pose proof (built_num ss H) as Hn. unfold ChunkAppender.
  change (NumSamples (MkChunk (Bstream (Bytes (a_c (built ss))) 0) true))
    with (NumSamples (a_c (built ss))). rewrite Hn.
  destruct (Z.of_nat (length ss) =? 0) eqn:E0.
  { assert (ss = []) as -> by (destruct ss; [done|simpl in E0; lia]). done. }
  destruct (drain_built ss true H) as (r & -> & Hr & Hs & Hcons).
  cbn [snd it_err it_br it_st]. pose proof (cursor_recover r _ Hr Hs Hcons) as Hcur.
  rewrite built_at by done. unfold app_at, Bytes, own, pack.
  destruct (negb (r_count r =? 8)); destruct Hcur as [Htake Hcnt];
    cbn [a_c c_b stream pack hdr_of c_borrowed app headerLen Nat.add take firstn];
    rewrite Htake, <- Hcnt; done.
Qed.

Lemma appendAll_app ss1 : forall ss2 a,
  appendAll (ss1 ++ ss2) a
  = match appendAll ss1 a with
    | (a', Ok _) => appendAll ss2 a'
    | r => r
    end.
Proof.
  induction ss1 as [|[t v] ss1 IH]; intros ss2 a; cbn [app appendAll]; [done|].
  destruct (Append t v a) as [a' [[]|e]]; [apply IH|done].
Qed.

Lemma ascending_app ss1 : forall first last ss2,
  ascending first last (ss1 ++ ss2) -> ascending first last ss1.
Proof.
  induction ss1 as [|s ss1 IH]; intros first last ss2; cbn [app ascending]; [done|].
  intros [H1 H2]. split; [done|]. by eapply IH.
Qed.

Lemma chunkable_prefix ss1 ss2 : chunkable (ss1 ++ ss2) -> chunkable ss1.
Proof.
  intros (Hok & Hasc & Hlen). apply Forall_app in Hok as [Hok _]. split_and!; [done| |].
  - by eapply ascending_app.
  - rewrite length_app in Hlen. lia.
Qed.

Lemma run_bits_last n st ss t v : (run_bits n st (ss ++ [(t, v)])).2
  = (sample_bits (n + Z.of_nat (length ss)) (run_bits n st ss).2 (t, v)).2
  /\ (run_bits n st (ss ++ [(t, v)])).1
  = (run_bits n st ss).1 ++ (sample_bits (n + Z.of_nat (length ss)) (run_bits n st ss).2 (t, v)).1.
Proof.
  revert n st. induction ss as [|s ss IH]; intros n st; cbn [app run_bits length].
  - cbn [fst snd]. replace (n + Z.of_nat 0) with n by lia.
    destruct (sample_bits n st (t, v)) as [b1 st1].
    cbn [fst snd app]. rewrite app_nil_r. split; reflexivity.
  - destruct (sample_bits n st s) as [b1 st1].
    specialize (IH (n + 1) st1). destruct (run_bits (n + 1) st1 ss) as [b2 st2].
    destruct (run_bits (n + 1) st1 (ss ++ [(t, v)])) as [b3 st3]. cbn [fst snd] in *.
    replace (n + Z.of_nat (S (length ss))) with (n + 1 + Z.of_nat (length ss)) by lia.
    destruct IH as [-> ->]. by rewrite app_assoc.
Qed.

Lemma built_last ss t v : chunkable (ss ++ [(t, v)]) ->
  e_t (a_st (built (ss ++ [(t, v)]))) = t /\ e_v (a_st (built (ss ++ [(t, v)]))) = v.
Proof.
  intros H. rewrite built_at by done. cbn [app_at a_st].
  destruct (run_bits_last 0 enc0 ss t v) as [-> _].
  apply (sample_bits_last _ _ (t, v)).
Qed.

(** Bits of payload and header written so far. *)
Definition bitLen (a : Appender) : Z :=
  8 * Z.of_nat (length (Bytes (a_c a))) - count (c_b (a_c a)).

Lemma length_bytes_of_bits l :
  8 * Z.of_nat (length (bytes_of_bits l)) - (- Z.of_nat (length l)) mod 8 = Z.of_nat (length l).
Proof.
  destruct (bits_of_bytes_of_bits l) as (pad & E & Hpad).
  apply (f_equal length) in E. rewrite length_bits_of_bytes, length_app in E. dlia.
Qed.

Lemma bitLen_built ss : chunkable ss ->
  bitLen (built ss) = 16 + Z.of_nat (length (run_bits 0 enc0 ss).1).
Proof.
  intros H. rewrite built_at by done. unfold bitLen, Bytes, app_at, pack.
  cbn [a_c c_b stream count hdr_of app length].
  pose proof (length_bytes_of_bits (run_bits 0 enc0 ss).1). lia.
Qed.

(** ** Decoding arbitrary bytes *)

(** Computations that touch only the bit reader and the decoder state. *)
Definition frames {A} (m : IT A) : Prop := forall it,
  let it' := fst (m it) in
  it_total it' = it_total it /\ it_read it' = it_read it /\ it_err it' = it_err it.

Lemma frames_bind {A B} (m : IT A) (f : A -> IT B) :
  frames m -> (forall a, frames (f a)) -> frames (m ≫= f).
Proof.
  intros Hm Hf it. specialize (Hm it). unfold mbind, SE_bind.
  destruct (m it) as [it1 [a|e]]; cbn [fst] in *; [|done].
  specialize (Hf a it1). cbv zeta in *. intuition congruence.
Qed.
Lemma frames_br {A} (m : RD A) : frames (br m).
Proof. intros it. unfold br. by destruct (m (it_br it)) as [r [a|e]]. Qed.
Lemma frames_ret {A} (a : A) : frames (mret a).
Proof. by intros it. Qed.
Lemma frames_throw {A} e : frames (throw e : IT A).
Proof. by intros it. Qed.
Lemma frames_get : frames (get : IT Iterator).
Proof. by intros it. Qed.
Lemma frames_modify f : frames (modify_st f).
Proof. by intros it. Qed.
#[export] Hint Resolve frames_bind frames_br frames_ret frames_throw frames_get frames_modify : ozy.

Ltac frames_auto :=
  repeat first [apply frames_bind; [|intros ?] | apply frames_br | apply frames_ret
               | apply frames_throw | apply frames_get | apply frames_modify
               | match goal with |- frames (if ?b then _ else _) => destruct b end
               | progress cbv zeta].

Lemma frames_readDOD : frames readDOD.
Proof. unfold readDOD, dod_prefix. frames_auto. Qed.
Lemma frames_readValue : frames readValue.
Proof. unfold readValue. frames_auto. Qed.
Lemma frames_next_sample n : frames (next_sample n).
Proof.
  unfold next_sample. frames_auto; auto using frames_readValue, frames_readDOD.
Qed.

Lemma iterate_bounds fuel : forall it l it',
  it_err it = None -> it_read it <= it_total it ->
  (Z.to_nat (it_total it - it_read it) < fuel)%nat ->
  iterate fuel it = (l, it') ->
  (it_err it' = None /\ it_read it + Z.of_nat (length l) = it_total it) \/
  (it_err it' <> None /\ it_read it + Z.of_nat (length l) < it_total it).
Proof.
  induction fuel as [|fuel IH]; intros it l it' He Hle Hf Hit; [lia|].
  cbn [iterate] in Hit. unfold Next in Hit. rewrite He in Hit.
  destruct (it_total it <=? it_read it) eqn:E.
  { injection Hit as <- <-. left. cbn. split; [done|lia]. }
  pose proof (frames_next_sample (it_read it) it) as Hfr.
  destruct (next_sample (it_read it) it) as [it1 [[]|e]]; cbn [fst] in Hfr;
    destruct Hfr as (F1 & F2 & F3).
  - destruct (iterate fuel _) as [l1 it2] eqn:E2. injection Hit as <- <-.
    apply IH in E2; cbn [it_err it_total it_read] in *; [|congruence|lia|lia].
    cbn [length]. destruct E2 as [[? ?]|[? ?]]; [left|right]; (split; [done|lia]).
  - injection Hit as <- <-. right. cbn. split; [done|lia].
Qed.

(** ** Claims *)

(** The two dumps of docs/formats/chunk.md, byte for byte. *)
Example chunk_format_counter :
  Bytes (a_c (built [(1000, 4607182418800017408); (11000, 4607182418800017408);
                     (21000, 4607182418800017408)]))
  = [0; 3; 208; 15; 63; 240; 0; 0; 0; 0; 0; 0; 160; 156; 1; 0].
Proof. vm_compute. reflexivity. Qed.

(** C24: a chunk loses nothing.  Any run of up to 120 samples with strictly
    increasing timestamps, over the whole int64 and float64 ranges, is accepted
    by the appender of a new chunk, and decoding the resulting bytes returns
    exactly those samples with no error. *)
Theorem chunk_roundtrip ss : chunkable ss ->
  ChunkAppender NewChunk = Ok fresh
  /\ appendAll ss fresh = (built ss, Ok tt)
  /\ exists c it, FromBytes (Bytes (a_c (built ss))) = Ok c
       /\ NumSamples c = Z.of_nat (length ss)
       /\ drain (ChunkIterator c) = (ss, it) /\ it_err it = None.
Proof.
  intros H. split; [done|]. split; [by rewrite appendAll_built, built_at|].
  destruct (drain_built ss true H) as (r & Hd & _).
  do 2 eexists. split_and!; [by apply FromBytes_built|by apply built_num|exact Hd|done].
Qed.

Definition sample_run : list (Z * Z) :=
  [(1000, 4607182418800017408); (11000, 4607182418800017408); (21000, 4611686018427387904);
   (31001, 4611686018427387905); (4611686018427387899, 7)].

Lemma sample_run_chunkable : chunkable sample_run.
Proof.
  split_and!; [|repeat split; cbn; auto; right; done|done].
  repeat constructor; unfold is_i64, is_u64; cbn; lia.
Qed.

Lemma chunk_roundtrip_witness :
  exists c it, FromBytes (Bytes (a_c (built sample_run))) = Ok c
    /\ NumSamples c = 5 /\ drain (ChunkIterator c) = (sample_run, it) /\ it_err it = None.
Proof. exact (proj2 (proj2 (chunk_roundtrip sample_run sample_run_chunkable))). Defined.

(** Resuming a chunk is indistinguishable from never having stopped.
    Reading a chunk's bytes back and taking an appender recovers the encoder's
    exact state, bit cursor included, so the samples appended next produce the
    state one uninterrupted run produces. *)
Theorem chunk_resume ss1 ss2 : chunkable (ss1 ++ ss2) ->
  exists c, FromBytes (Bytes (a_c (built ss1))) = Ok c
    /\ ChunkAppender c = Ok (built ss1)
    /\ appendAll ss2 (built ss1) = (built (ss1 ++ ss2), Ok tt).
Proof.
  intros H. pose proof (chunkable_prefix _ _ H) as H1.
  eexists. split; [by apply FromBytes_built|].
  split; [apply resume_built; [done|by apply FromBytes_built]|].
  pose proof (appendAll_app ss1 ss2 fresh) as Happ.
  rewrite appendAll_built in Happ by done. rewrite (appendAll_built ss1) in Happ by done.
  rewrite built_at, (built_at (ss1 ++ ss2)) by done. by rewrite Happ.
Qed.

Lemma chunk_resume_witness :
  exists c, FromBytes (Bytes (a_c (built (take 3 sample_run)))) = Ok c
    /\ ChunkAppender c = Ok (built (take 3 sample_run))
    /\ appendAll (drop 3 sample_run) (built (take 3 sample_run)) = (built sample_run, Ok tt).
Proof. exact (chunk_resume (take 3 sample_run) (drop 3 sample_run) sample_run_chunkable). Defined.

(** [Append] refuses what the encoding cannot hold and changes nothing when
    it does: a sample past the 120th, and a timestamp that is not after the
    last one. *)
Theorem append_rejects ss t0 v0 t v : chunkable (ss ++ [(t0, v0)]) ->
  let a := built (ss ++ [(t0, v0)]) in
  (Z.of_nat (length ss) + 1 = MaxSamplesPerChunk -> Append t v a = (a, Err ErrChunkFull))
  /\ (Z.of_nat (length ss) + 1 < MaxSamplesPerChunk -> t <= t0 ->
      Append t v a = (a, Err (ErrNotAfter t t0))).
Proof.
  intros H a. pose proof (built_num _ H) as Hn. destruct (built_last ss t0 v0 H) as [Ht _].
  rewrite length_app, Nat2Z.inj_add in Hn. cbn [length] in Hn. change (Z.of_nat 1) with 1 in Hn.
  unfold Append. fold a in Hn, Ht. rewrite Hn, Ht. unfold MaxSamplesPerChunk. split.
  - intros Hfull. destruct (120 <=? _) eqn:E; [done|exfalso; lia].
  - intros Hlt Hle. destruct (120 <=? _) eqn:E; [exfalso; lia|].
    destruct (_ =? 0) eqn:E0; [exfalso; lia|]. destruct (t <=? t0) eqn:Et; [|exfalso; lia].
    by destruct (_ =? 1).
Qed.

Lemma append_rejects_witness :
  let a := built ([(1000, 1)] ++ [(2000, 5)]) in
  Append 2000 9 a = (a, Err (ErrNotAfter 2000 2000)).
Proof.
  apply (append_rejects [(1000, 1)] 2000 5 2000 9); [|vm_compute; reflexivity|lia].
  split_and!; [|repeat split; cbn; auto; right; done|done].
  repeat constructor; unfold is_i64, is_u64; cbn; lia.
Defined.

(** Decoding arbitrary bytes is never silently short.  Whatever the bytes,
    the iteration ends; either it yields exactly the samples the header
    announces and no error, or fewer and an error. *)
Theorem drain_complete_or_error bs c l it : Forall is_byte bs ->
  FromBytes bs = Ok c -> drain (ChunkIterator c) = (l, it) ->
  (it_err it = None /\ Z.of_nat (length l) = NumSamples c) \/
  (it_err it <> None /\ Z.of_nat (length l) < NumSamples c).
Proof.
  intros Hb Hc Hd. unfold FromBytes in Hc.
  destruct (length bs <? headerLen)%nat eqn:E; [done|]. injection Hc as <-.
  assert (Hpos : 0 <= NumSamples (MkChunk (Bstream bs 0) true)).
  { unfold NumSamples. cbn [c_b stream]. rewrite E. unfold BigEndian_Uint16.
    destruct bs as [|b0 [|b1 bs]]; [done|done|]. inversion Hb as [|?? Hb0 Hb']; subst.
    inversion Hb' as [|?? Hb1 _]; subst. unfold is_byte in *. cbn [nth].
    apply Z.lor_nonneg. split; [lia|]. apply Z.shiftl_nonneg. lia. }
  unfold ChunkIterator in Hd. cbn [c_b stream] in Hd. rewrite E in Hd. unfold drain in Hd.
  apply iterate_bounds in Hd; cbn [it_err it_read it_total] in *; [|done|lia|lia].
  by rewrite !Z.add_0_l in Hd.
Qed.

Lemma drain_complete_or_error_witness :
  let c := MkChunk (Bstream [0; 3; 208; 15] 0) true in
  let '(l, it) := drain (ChunkIterator c) in
  (it_err it = None /\ Z.of_nat (length l) = NumSamples c) \/
  (it_err it <> None /\ Z.of_nat (length l) < NumSamples c).
Proof.
  apply (drain_complete_or_error [0; 3; 208; 15]); [|reflexivity|reflexivity].
  repeat constructor; cbn; lia.
Defined.

(** Boring is nearly free.  From the third sample on, a sample that comes
    at the previous interval with the previous value costs exactly two bits. *)
Theorem regular_sample_costs_two_bits ss t1 t2 v1 v :
  let run := ss ++ [(t1, v1); (t2, v)] in
  chunkable (run ++ [(t2 + (t2 - t1), v)]) ->
  bitLen (built (run ++ [(t2 + (t2 - t1), v)])) = bitLen (built run) + 2.
Proof.
  intros run H. pose proof (chunkable_prefix _ _ H) as Hrun.
  rewrite !bitLen_built by done.
  destruct (run_bits_last 0 enc0 run (t2 + (t2 - t1)) v) as [_ ->].
  assert (run = (ss ++ [(t1, v1)]) ++ [(t2, v)]) as Er by (unfold run; by rewrite <- app_assoc).
  destruct (run_bits_last 0 enc0 (ss ++ [(t1, v1)]) t2 v) as [Hst _]. rewrite <- Er in Hst.
  destruct (run_bits_last 0 enc0 ss t1 v1) as [Hst1 _].
  destruct (sample_bits_last (0 + Z.of_nat (length ss)) (run_bits 0 enc0 ss).2 (t1, v1)) as [Ht1 _].
  rewrite <- Hst1 in Ht1. cbn [fst] in Ht1.
  set (st1 := (run_bits 0 enc0 (ss ++ [(t1, v1)])).2) in *.
  set (n1 := 0 + Z.of_nat (length (ss ++ [(t1, v1)]))) in *.
  assert (Hn1 : n1 <> 0) by (unfold n1; rewrite length_app; simpl; lia).
  assert (Hdelta : e_delta (run_bits 0 enc0 run).2 = int64 (t2 - t1)
                   /\ e_t (run_bits 0 enc0 run).2 = t2 /\ e_v (run_bits 0 enc0 run).2 = v).
  { rewrite Hst. destruct (sample_bits_last n1 st1 (t2, v)) as [-> ->]. split; [|done].
    unfold sample_bits, time_bits. destruct (n1 =? 0) eqn:E; [lia|]. rewrite Ht1.
    set (st0 := Enc _ _ _ _ _). assert (Hvd : e_delta (value_bits st0 v).2 = e_delta st0).
    { unfold value_bits. destruct (Z.lxor v (e_v st0) =? 0); [done|].
      by destruct (reuses st0 _). }
    destruct (value_bits st0 v) as [vb st2]. exact Hvd. }
  destruct Hdelta as (Hd & Ht & Hv). set (st := (run_bits 0 enc0 run).2) in *.
  unfold sample_bits, time_bits, value_bits, dod_bits. cbn [e_v e_t e_delta].
  assert (Hlen : 2 <= Z.of_nat (length run)) by (unfold run; rewrite length_app; simpl; lia).
  destruct (_ =? 0) eqn:E0; [lia|]. destruct (_ =? 1) eqn:E1; [lia|].
  rewrite Hd, Ht, Hv, Z.lxor_nilpotent, Z.add_simpl_l, Z.sub_diag.
  change (int64 0 =? 0) with true. cbn [Z.eqb fst app]. rewrite length_app, Nat2Z.inj_add.
  cbn [length]. lia.
Qed.

Lemma regular_sample_costs_two_bits_witness :
  bitLen (built [(1000, 4); (2000, 4); (3000, 4)]) = bitLen (built [(1000, 4); (2000, 4)]) + 2.
Proof.
  apply (regular_sample_costs_two_bits [] 1000 2000 4 4).
  split_and!; [|repeat split; cbn; auto; right; done|done].
  repeat constructor; unfold is_i64, is_u64; cbn; lia.
Defined.
