(* ===== verification/Wal.v ===== *)
(** * The write-ahead log (internal/tsdb/wal/wal.go, reader.go)

    A segmented, append-only record log and the reader that replays it.  A log
    directory is two finite maps from file numbers to file contents; the file
    names (["%08d.wal"], ["checkpoint.%08d"]) are the numbers.  The outcome of
    every operating-system call a writer makes is taken from a script, so that
    each error path runs and every theorem about writing holds for all ways the
    disk can fail.  Reading an existing file does not fail. *)

From Stdlib Require Import ZArith Lia.
From stdpp Require Import base sorting gmap numbers list.
From S2P Require Import Prelude.

(** ** Framing *)

Definition headerSize : Z := 4 + 1 + 4.
Definition MaxRecordSize : Z := Z.shiftl 16 20.
Definition DefaultSegmentSize : Z := Z.shiftl 32 20.

Record Record_ := MkRecord { rec_Type : Z; rec_Data : list Z }.

(** [encoding/binary]: big-endian 32-bit fields. *)
Definition PutUint32 (v : Z) : list Z :=
  [uint8 (Z.shiftr v 24); uint8 (Z.shiftr v 16); uint8 (Z.shiftr v 8); uint8 v].
Definition Uint32 (b : list Z) : Z :=
  Z.lor (nth 3 b 0) (Z.lor (Z.shiftl (nth 2 b 0) 8)
    (Z.lor (Z.shiftl (nth 1 b 0) 16) (Z.shiftl (nth 0 b 0) 24))).

(** [hash/crc32] with the Castagnoli polynomial, bit by bit. *)
Fixpoint crc_bits (n : nat) (crc : Z) : Z :=
  match n with
  | O => crc
  | S n' =>
      crc_bits n' (if Z.odd crc then Z.lxor (Z.shiftr crc 1) 2197175160 else Z.shiftr crc 1)
  end.
Definition crc32c (data : list Z) : Z :=
  Z.lxor (foldl (fun crc b => crc_bits 8 (Z.lxor crc b)) (2 ^ 32 - 1) data) (2 ^ 32 - 1).

Definition header_of (r : Record_) : list Z :=
  PutUint32 (uint32 (Z.of_nat (length (rec_Data r)))) ++ [rec_Type r]
    ++ PutUint32 (crc32c (rec_Data r)).

Definition frame (r : Record_) : list Z := header_of r ++ rec_Data r.
Definition frames (rs : list Record_) : list Z := rs ≫= frame.

(** ** Directories *)

Record Dir := MkDir {
  d_segs : gmap nat (list Z);   (* %08d.wal *)
  d_cps : gmap nat (list Z);    (* checkpoint.%08d *)
}.

Inductive fname := Seg (n : nat) | Cp (n : nat).

Definition file_of (d : Dir) (f : fname) : option (list Z) :=
  match f with Seg n => d_segs d !! n | Cp n => d_cps d !! n end.

Definition set_file (d : Dir) (f : fname) (c : list Z) : Dir :=
  match f with
  | Seg n => MkDir (<[n := c]> (d_segs d)) (d_cps d)
  | Cp n => MkDir (d_segs d) (<[n := c]> (d_cps d))
  end.

(** Numbers in ascending order. *)
Definition listNumbered {A} (m : gmap nat A) : list nat :=
  merge_sort (≤)%nat (elements (dom m)).

(** ** Errors and the operating system *)

Inductive wal_error :=
| ErrClosed
| ErrBroken
| ErrReservedType
| ErrTooLarge (n : Z)
| ErrIO
| ErrCorrupt (f : fname) (off : Z).

(** What the next system call does: succeed, or fail after [k] bytes. *)
Inductive io := IoOk | IoFail (k : nat).

(** ** The writer *)

Record WAL := MkWAL {
  w_dir : Dir;
  w_segmentSize : Z;
  w_fopen : bool;        (* w.f is open *)
  w_segment : nat;
  w_size : Z;
  w_closed : bool;
  w_broken : bool;
  w_script : list io;    (* outcomes of the system calls still to come *)
}.

Abbreviation WL := (SE WAL wal_error).

Definition syscall : WL io := fun w =>
  match w_script w with
  | [] => (w, Ok IoOk)
  | o :: rest => (MkWAL (w_dir w) (w_segmentSize w) (w_fopen w) (w_segment w) (w_size w)
                    (w_closed w) (w_broken w) rest, Ok o)
  end.

Definition w_file (w : WAL) : list Z := default [] (d_segs (w_dir w) !! w_segment w).

Definition with_file (c : list Z) (w : WAL) : WAL :=
  MkWAL (set_file (w_dir w) (Seg (w_segment w)) c) (w_segmentSize w) (w_fopen w) (w_segment w)
    (w_size w) (w_closed w) (w_broken w) (w_script w).
Definition with_size (n : Z) (w : WAL) : WAL :=
  MkWAL (w_dir w) (w_segmentSize w) (w_fopen w) (w_segment w) n (w_closed w) (w_broken w) (w_script w).
Definition with_broken (w : WAL) : WAL :=
  MkWAL (w_dir w) (w_segmentSize w) (w_fopen w) (w_segment w) (w_size w) (w_closed w) true (w_script w).
Definition with_open (b : bool) (w : WAL) : WAL :=
  MkWAL (w_dir w) (w_segmentSize w) b (w_segment w) (w_size w) (w_closed w) (w_broken w) (w_script w).
Definition with_closed (w : WAL) : WAL :=
  MkWAL (w_dir w) (w_segmentSize w) (w_fopen w) (w_segment w) (w_size w) true (w_broken w) (w_script w).
Definition with_dir (d : Dir) (w : WAL) : WAL :=
  MkWAL d (w_segmentSize w) (w_fopen w) (w_segment w) (w_size w) (w_closed w) (w_broken w) (w_script w).
Definition with_segment (n : nat) (size : Z) (w : WAL) : WAL :=
  MkWAL (w_dir w) (w_segmentSize w) true n size (w_closed w) (w_broken w) (w_script w).

Definition modify (f : WAL -> WAL) : WL unit := fun w => (f w, Ok tt).

(** [w.f.Write]: all of it, or a proper prefix and an error, as [os.File] reports an error exactly
    when bytes are missing; nothing on a closed file. *)
Definition f_write (bs : list Z) : WL bool :=
  o ← syscall;
  w ← get;
  if negb (w_fopen w) then mret false else
  match o with
  | IoOk => _ ← modify (with_file (w_file w ++ bs)); mret true
  | IoFail k => _ ← modify (with_file (w_file w ++ take (k `min` pred (length bs)) bs)); mret false
  end.

(** A call that changes no bytes: Sync, Close, Seek, Stat. *)
Definition f_other : WL bool :=
  o ← syscall;
  w ← get;
  mret (w_fopen w && match o with IoOk => true | IoFail _ => false end).

Definition f_truncate (n : Z) : WL bool :=
  ok ← f_other;
  if ok : bool then
    w ← get;
    _ ← modify (with_file (take (Z.to_nat n) (w_file w)));
    mret true
  else mret false.

(** Creating the file is the first effect; the log's fields change last. *)
Definition openSegment (n : nat) : WL unit :=
  o ← syscall;   (* OpenFile *)
  match o with
  | IoFail _ => throw ErrIO
  | IoOk =>
      w ← get;
      let content := default [] (d_segs (w_dir w) !! n) in
      let size := Z.of_nat (length content) in
      _ ← modify (with_dir (set_file (w_dir w) (Seg n) content));
      o ← syscall;   (* Stat *)
      match o with
      | IoFail _ => throw ErrIO
      | IoOk =>
          o ← (if size =? 0 then syscall else mret IoOk);   (* syncDir *)
          match o with
          | IoFail _ => throw ErrIO
          | IoOk => modify (with_segment n size)
          end
      end
  end.

Definition Open (d : Dir) (segmentSize : Z) (script : list io) : WAL * result wal_error unit :=
  let segmentSize := if segmentSize <=? 0 then DefaultSegmentSize else segmentSize in
  let seg := default 0%nat (last (listNumbered (d_segs d))) in
  openSegment seg (MkWAL d segmentSize false 0 0 false false script).

Definition undoPartial (cause : wal_error) : WL unit :=
  w ← get;
  ok ← f_truncate (w_size w);
  if negb ok then _ ← modify with_broken; throw ErrBroken else
  ok ← f_other;   (* Seek *)
  if negb ok then _ ← modify with_broken; throw ErrBroken else
  throw cause.

Definition roll : WL unit :=
  ok ← f_other;   (* Sync *)
  if negb ok then throw ErrIO else
  ok ← f_other;   (* Close; the descriptor is gone even when it fails *)
  _ ← modify (with_open false);
  if negb ok then throw ErrIO else
  w ← get;
  openSegment (S (w_segment w)).

(** The validation loop of [Log]: the batch's size, or the first bad record. *)
Fixpoint batch_size (recs : list Record_) (total : Z) : result wal_error Z :=
  match recs with
  | [] => Ok total
  | r :: rest =>
      if rec_Type r =? 0 then Err ErrReservedType else
      if MaxRecordSize <? Z.of_nat (length (rec_Data r))
      then Err (ErrTooLarge (Z.of_nat (length (rec_Data r))))
      else batch_size rest (total + (headerSize + Z.of_nat (length (rec_Data r))))
  end.

Fixpoint write_records (recs : list Record_) : WL unit :=
  match recs with
  | [] => mret tt
  | r :: rest =>
      ok ← f_write (header_of r);
      if negb ok then undoPartial ErrIO else
      ok ← f_write (rec_Data r);
      if negb ok then undoPartial ErrIO else
      w ← get;
      _ ← modify (with_size (w_size w + (headerSize + Z.of_nat (length (rec_Data r)))));
      write_records rest
  end.

Definition Log (recs : list Record_) : WL unit :=
  match recs with
  | [] => mret tt
  | _ =>
      w ← get;
      if w_closed w then throw ErrClosed else
      if w_broken w then throw ErrBroken else
      match batch_size recs 0 with
      | Err e => throw e
      | Ok total =>
          _ ← (if (0 <? w_size w) && (w_segmentSize w <? w_size w + total)
               then roll else mret tt);
          write_records recs
      end
  end.

Definition Sync : WL unit :=
  w ← get;
  if w_closed w then throw ErrClosed else
  if w_broken w then throw ErrBroken else
  ok ← f_other;
  if negb ok then throw ErrIO else mret tt.

Definition Close : WL unit :=
  w ← get;
  if w_closed w then mret tt else
  _ ← modify with_closed;
  ok ← f_other;   (* Sync *)
  cok ← f_other;  (* Close *)
  _ ← modify (with_open false);
  if negb ok then throw ErrIO else if negb cok then throw ErrIO else mret tt.

(** ** The reader *)

Record Position := MkPos {
  p_File : option fname;   (* None is the empty name: nothing was read *)
  p_Offset : Z;
  p_Segment : Z;
}.

Record WReader := MkReader {
  rd_dir : Dir;
  rd_files : list fname;
  rd_idx : nat;
  rd_f : option (list Z);   (* the open file's unread bytes *)
  rd_size : Z;              (* its size, as Stat reports it *)
  rd_off : Z;
  rd_last : bool;
  rd_strict : bool;
  rd_rec : Record_;
  rd_err : option wal_error;
  rd_end_ : Position;
}.

Definition segmentNumber (f : fname) : Z :=
  match f with Seg n => Z.of_nat n | Cp _ => -1 end.

Definition NewReader (d : Dir) : WReader :=
  MkReader d ((Cp <$> listNumbered (d_cps d)) ++ (Seg <$> listNumbered (d_segs d)))
    0 None 0 0 false false (MkRecord 0 []) None (MkPos None 0 (-1)).

Definition set_unread (u : option (list Z)) (r : WReader) : WReader :=
  MkReader (rd_dir r) (rd_files r) (rd_idx r) u (rd_size r) (rd_off r) (rd_last r) (rd_strict r)
    (rd_rec r) (rd_err r) (rd_end_ r).

(** [torn]: stop quietly at a torn tail, report anything else. *)
Definition torn (damageEnds : Z) (r : WReader) : WReader :=
  if rd_last r && negb (rd_strict r) && (rd_size r <=? damageEnds) then r
  else MkReader (rd_dir r) (rd_files r) (rd_idx r) (rd_f r) (rd_size r) (rd_off r) (rd_last r)
         (rd_strict r) (rd_rec r)
         (Some (ErrCorrupt (default (Seg 0) (p_File (rd_end_ r))) (rd_off r))) (rd_end_ r).

Definition hdr_size : nat := 9.

(** (reader, got a record, replay is over) *)
Definition readRecord (unread : list Z) (r : WReader) : WReader * bool * bool :=
  let hdr := take hdr_size unread in
  let rest := drop hdr_size unread in
  let r := set_unread (Some rest) r in
  let n := length hdr in
  if (n =? 0)%nat then (r, false, false) else
  if (n <? hdr_size)%nat then (torn (rd_off r + Z.of_nat n) r, false, true) else
  let length_ := Uint32 (take 4 hdr) in
  let typ := nth 4 hdr 0 in
  let want := Uint32 (take 4 (drop 5 hdr)) in
  if (typ =? 0) || (MaxRecordSize <? length_)
  then (torn (rd_off r + headerSize + MaxRecordSize) r, false, true) else
  let payload := take (Z.to_nat length_) rest in
  let r := set_unread (Some (drop (Z.to_nat length_) rest)) r in
  if (length payload <? Z.to_nat length_)%nat
  then (torn (rd_off r + headerSize + Z.of_nat (length payload)) r, false, true) else
  if negb (crc32c payload =? want)
  then (torn (rd_off r + headerSize + length_) r, false, true) else
  let off := rd_off r + (headerSize + length_) in
  (MkReader (rd_dir r) (rd_files r) (rd_idx r) (rd_f r) (rd_size r) off (rd_last r) (rd_strict r)
     (MkRecord typ payload) (rd_err r)
     (MkPos (p_File (rd_end_ r)) off (p_Segment (rd_end_ r))), true, false).

Definition openNext (name : fname) (r : WReader) : WReader :=
  let content := default [] (file_of (rd_dir r) name) in
  MkReader (rd_dir r) (rd_files r) (S (rd_idx r)) (Some content) (Z.of_nat (length content)) 0
    (rd_idx r =? length (rd_files r) - 1)%nat (rd_strict r) (rd_rec r) (rd_err r)
    (MkPos (Some name) 0 (segmentNumber name)).

(** One pass of [Next]'s loop per file left, and one more to find the end. *)
Fixpoint ReaderNext_loop (fuel : nat) (r : WReader) : WReader * bool :=
  match fuel with
  | O => (r, false)
  | S fuel' =>
      let step r unread :=
        match readRecord unread r with
        | (r', true, _) => (r', true)
        | (r', false, true) => (r', false)
        | (r', false, false) => ReaderNext_loop fuel' (set_unread None r')
        end in
      match rd_f r with
      | Some unread => step r unread
      | None =>
          match rd_files r !! rd_idx r with
          | None => (r, false)
          | Some name => let r' := openNext name r in step r' (default [] (rd_f r'))
          end
      end
  end.

Definition ReaderNext (r : WReader) : WReader * bool :=
  ReaderNext_loop (length (rd_files r) - rd_idx r + 2) r.

(** [for r.Next() { ... }]: the records, and the reader the loop ends with.
    Every record costs a byte, so the bytes of the log bound the iterations. *)
Fixpoint replay_loop (fuel : nat) (r : WReader) : list Record_ * WReader :=
  match fuel with
  | O => ([], r)
  | S fuel' =>
      match ReaderNext r with
      | (r', true) => let '(rs, r'') := replay_loop fuel' r' in (rd_rec r' :: rs, r'')
      | (r', false) => ([], r')
      end
  end.

Definition log_bytes (r : WReader) : nat :=
  length (default [] (rd_f r))
  + sum_list ((fun f => length (default [] (file_of (rd_dir r) f))) <$> drop (rd_idx r) (rd_files r)).

Definition replayReader (r : WReader) : list Record_ * WReader := replay_loop (log_bytes r + 1) r.
Definition replay (d : Dir) : list Record_ * WReader := replayReader (NewReader d).
