(* ===== verification/WalProofs.v ===== *)
(** * Theorems about the write-ahead log

    Framing round trips, the reader's behaviour on whole and torn files, and the
    writer under every outcome of its system calls. *)

From Stdlib Require Import ZArith Lia.
From stdpp Require Import base sorting gmap numbers list.
From S2P Require Import Prelude Wal.

(** ** Framing *)

Record record_ok (r : Record_) : Prop := {
  ro_type : is_byte (rec_Type r);
  ro_nonzero : rec_Type r <> 0;
  ro_bytes : Forall is_byte (rec_Data r);
  ro_size : Z.of_nat (length (rec_Data r)) <= MaxRecordSize;
}.

Lemma MaxRecordSize_val : MaxRecordSize = 2 ^ 24.
Proof. done. Qed.

Lemma Uint32_PutUint32 v : is_u32 v -> Uint32 (PutUint32 v) = v.
Proof.
  unfold is_u32. intros Hv. unfold Uint32, PutUint32. cbn [nth]. unfold uint8.
  rewrite !Z.shiftl_mul_pow2, !Z.shiftr_div_pow2 by lia.
  set (a := v mod 2 ^ 8). set (b := (v / 2 ^ 8) mod 2 ^ 8).
  set (c := (v / 2 ^ 16) mod 2 ^ 8). set (e := (v / 2 ^ 24) mod 2 ^ 8).
  assert (0 <= a < 2 ^ 8 /\ 0 <= b < 2 ^ 8 /\ 0 <= c < 2 ^ 8) as (Ha & Hb & Hc)
    by (unfold a, b, c; split_and!; apply Z.mod_pos_bound; lia).
  rewrite !Z.lor_assoc. rewrite (lor_disjoint a b 8) by lia.
  rewrite (lor_disjoint _ c 16) by lia. rewrite (lor_disjoint _ e 24) by lia.
  unfold a, b, c, e. dlia.
Qed.

Lemma crc_bits_range n crc : is_u32 crc -> is_u32 (crc_bits n crc).
Proof.
  revert crc. induction n as [|n IH]; intros crc H; cbn [crc_bits]; [done|]. apply IH.
  assert (is_u32 (Z.shiftr crc 1)).
  { unfold is_u32 in *. rewrite Z.shiftr_div_pow2 by lia. dlia. }
  destruct (Z.odd crc); [|done]. by apply (lxor_range 32).
Qed.

Lemma crc32c_range data : Forall is_byte data -> is_u32 (crc32c data).
Proof.
  intros Hd. unfold crc32c. apply (lxor_range 32); [lia| |lia].
  assert (Hg : forall crc, is_u32 crc ->
    is_u32 (foldl (fun crc b => crc_bits 8 (Z.lxor crc b)) crc data)).
  { induction Hd as [|b data Hb _ IH]; intros crc Hc; cbn [foldl]; [done|].
    apply IH, crc_bits_range. apply (lxor_range 32); [lia|done|unfold is_byte in Hb; lia]. }
  apply Hg. unfold is_u32. lia.
Qed.

Lemma length_header r : length (header_of r) = hdr_size.
Proof. done. Qed.

Lemma length_frame r : length (frame r) = (hdr_size + length (rec_Data r))%nat.
Proof. unfold frame. by rewrite length_app, length_header. Qed.

Lemma frames_app rs1 rs2 : frames (rs1 ++ rs2) = frames rs1 ++ frames rs2.
Proof. apply bind_app. Qed.
Lemma frames_one r : frames [r] = frame r.
Proof. unfold frames. cbn. by rewrite app_nil_r. Qed.
Lemma frames_cons r rs : frames (r :: rs) = frame r ++ frames rs.
Proof. done. Qed.

(** Where a reader stands after [rs]. *)
Definition advance (rs : list Record_) (rest : list Z) (r : WReader) : WReader :=
  let off := rd_off r + Z.of_nat (length (frames rs)) in
  MkReader (rd_dir r) (rd_files r) (rd_idx r) (Some rest) (rd_size r) off (rd_last r) (rd_strict r)
    (default (rd_rec r) (last rs)) (rd_err r)
    (MkPos (p_File (rd_end_ r)) off (p_Segment (rd_end_ r))).

Lemma readRecord_frame x rest r : record_ok x ->
  readRecord (frame x ++ rest) r = (advance [x] rest r, true, false).
Proof.
  intros [Ht Hn Hb Hs]. rewrite MaxRecordSize_val in Hs. unfold readRecord.
  assert (Hh : take hdr_size (frame x ++ rest) = header_of x).
  { unfold frame. rewrite <- app_assoc. by apply take_app_length'. }
  assert (Hr : drop hdr_size (frame x ++ rest) = rec_Data x ++ rest).
  { unfold frame. rewrite <- app_assoc. by apply drop_app_length'. }
  rewrite Hh, Hr, length_header.
  change (hdr_size =? 0)%nat with false. change (hdr_size <? hdr_size)%nat with false.
  assert (Hl : Uint32 (take 4 (header_of x)) = Z.of_nat (length (rec_Data x))).
  { change (take 4 (header_of x)) with (PutUint32 (uint32 (Z.of_nat (length (rec_Data x))))).
    rewrite Uint32_PutUint32 by apply uint32_range. unfold uint32. apply Z.mod_small. lia. }
  assert (Hw : Uint32 (take 4 (drop 5 (header_of x))) = crc32c (rec_Data x)).
  { change (take 4 (drop 5 (header_of x))) with (PutUint32 (crc32c (rec_Data x))).
    by apply Uint32_PutUint32, crc32c_range. }
  rewrite Hl, Hw. change (nth 4 (header_of x) 0) with (rec_Type x).
  rewrite MaxRecordSize_val.
  destruct ((rec_Type x =? 0) || _) eqn:E; [lia|]. rewrite Nat2Z.id.
  rewrite take_app_length, drop_app_length. rewrite Nat.ltb_irrefl.
  rewrite Z.eqb_refl. cbn [negb]. unfold advance. rewrite frames_one, length_frame.
  cbn [set_unread rd_dir rd_files rd_idx rd_f rd_size rd_off rd_last rd_strict rd_rec rd_err rd_end_ last default].
  destruct x as [ty data]. cbn [rec_Type rec_Data].
  replace (rd_off r + Z.of_nat (hdr_size + length data)) with (rd_off r + (headerSize + Z.of_nat (length data)))
    by (unfold headerSize, hdr_size; lia). done.
Qed.

(** A record cut short is recognised wherever the cut falls, and the damage ends
    where the bytes do. *)
Lemma readRecord_torn x k r : record_ok x -> (0 < k < length (frame x))%nat ->
  exists u, readRecord (take k (frame x)) r
    = (torn (rd_off r + Z.of_nat k) (set_unread u r), false, true).
Proof.
  intros [Ht Hn Hb Hs] Hk. rewrite MaxRecordSize_val in Hs. rewrite length_frame in Hk.
  unfold readRecord.
  assert (Hlen : length (take k (frame x)) = k) by (rewrite length_take, length_frame; lia).
  destruct (decide (k < hdr_size)%nat) as [Hlt|Hge].
  - rewrite (take_ge (take k (frame x)) hdr_size) by lia. rewrite Hlen.
    destruct (k =? 0)%nat eqn:E0; [apply Nat.eqb_eq in E0; lia|].
    destruct (k <? hdr_size)%nat eqn:E1; [|apply Nat.ltb_ge in E1; lia]. by eexists.
  - assert (Hh : take hdr_size (take k (frame x)) = header_of x).
    { rewrite take_take, Nat.min_l by lia. unfold frame. by apply take_app_length'. }
    assert (Hr : drop hdr_size (take k (frame x)) = take (k - hdr_size) (rec_Data x)).
    { rewrite skipn_firstn_comm. unfold frame. by rewrite drop_app_length'. }
    rewrite Hh, Hr, length_header.
  change (hdr_size =? 0)%nat with false. change (hdr_size <? hdr_size)%nat with false.
    assert (Hl : Uint32 (take 4 (header_of x)) = Z.of_nat (length (rec_Data x))).
    { change (take 4 (header_of x)) with (PutUint32 (uint32 (Z.of_nat (length (rec_Data x))))).
      rewrite Uint32_PutUint32 by apply uint32_range. unfold uint32. apply Z.mod_small. lia. }
    rewrite Hl. change (nth 4 (header_of x) 0) with (rec_Type x). rewrite MaxRecordSize_val.
    destruct ((rec_Type x =? 0) || _) eqn:E; [lia|]. rewrite Nat2Z.id.
    rewrite take_take, Nat.min_r by lia. rewrite length_take, Nat.min_l by lia.
    destruct (_ <? _)%nat eqn:E1; [|apply Nat.ltb_ge in E1; unfold hdr_size in *; lia].
    eexists. f_equal. f_equal.
    replace (rd_off _ + headerSize + Z.of_nat (k - 9)) with (rd_off r + Z.of_nat k)
      by (cbn [rd_off set_unread]; unfold headerSize, hdr_size in *; lia).
    done.
Qed.

(** ** Walking the files *)

Definition need (r : WReader) : nat :=
  length (rd_files r) - rd_idx r + match rd_f r with Some _ => 1 | None => 0 end + 1.

Lemma readRecord_fields u r r' ok fin : readRecord u r = (r', ok, fin) ->
  rd_dir r' = rd_dir r /\ rd_files r' = rd_files r /\ rd_idx r' = rd_idx r
  /\ exists u', rd_f r' = Some u' /\ (length u' <= length u)%nat
     /\ (ok = true -> (length u' < length u)%nat).
Proof.
  unfold readRecord. intros H.
  assert (Ht : forall e x, rd_dir (torn e x) = rd_dir x /\ rd_files (torn e x) = rd_files x
    /\ rd_idx (torn e x) = rd_idx x /\ rd_f (torn e x) = rd_f x)
    by (intros e x; unfold torn; by destruct (_ && _)).
  repeat case_match; simplify_eq;
    repeat match goal with |- context [torn ?e ?x] => destruct (Ht e x) as (-> & -> & -> & ->) end;
    cbn [rd_dir rd_files rd_idx rd_f set_unread]; (split_and!; [done..|]);
    eexists; (split; [done|]); rewrite ?length_drop;
    (split; [lia|]); try done; intros _;
    match goal with E : (length (take hdr_size ?u) =? 0)%nat = false |- _ =>
      apply Nat.eqb_neq in E; rewrite length_take in E; unfold hdr_size in *; lia end.
Qed.

Lemma loop_fuel fuel : forall fuel' r, (need r <= fuel)%nat -> (need r <= fuel')%nat ->
  ReaderNext_loop fuel r = ReaderNext_loop fuel' r.
Proof.
  induction fuel as [|fuel IH]; intros fuel' r H1 H2; [unfold need in H1; lia|].
  destruct fuel' as [|fuel']; [unfold need in H2; lia|]. cbn [ReaderNext_loop].
  assert (Hstep : forall u r0, rd_files r0 = rd_files r -> rd_f r0 <> None ->
    (length (rd_files r) - rd_idx r0 < fuel)%nat -> (length (rd_files r) - rd_idx r0 < fuel')%nat ->
    match readRecord u r0 with
    | (r', true, _) => (r', true)
    | (r', false, true) => (r', false)
    | (r', false, false) => ReaderNext_loop fuel (set_unread None r')
    end = match readRecord u r0 with
    | (r', true, _) => (r', true)
    | (r', false, true) => (r', false)
    | (r', false, false) => ReaderNext_loop fuel' (set_unread None r')
    end).
  { intros u r0 Hf Hs Ha Hb. destruct (readRecord u r0) as [[r' []] []] eqn:E; try done.
    apply readRecord_fields in E as (_ & E1 & E2 & _).
    apply IH; unfold need; cbn [rd_files rd_idx rd_f set_unread]; rewrite E1, E2, Hf; lia. }
  unfold need in H1, H2. destruct (rd_f r) as [u|] eqn:Ef.
  - apply Hstep; [done|congruence|lia|lia].
  - destruct (rd_files r !! rd_idx r) as [name|] eqn:En; [|done].
    apply lookup_lt_Some in En.
    apply Hstep; [done|done|cbn [openNext rd_idx]; lia|cbn [openNext rd_idx]; lia].
Qed.

Lemma next_eof r : rd_f r = Some [] -> ReaderNext r = ReaderNext (set_unread None r).
Proof.
  intros Hf. unfold ReaderNext.
  replace (length (rd_files r) - rd_idx r + 2)%nat
    with (S (length (rd_files r) - rd_idx r + 1))%nat by lia.
  cbn [ReaderNext_loop]. rewrite Hf. cbn [readRecord take hdr_size firstn length Nat.eqb].
  transitivity (ReaderNext_loop (length (rd_files r) - rd_idx r + 1) (set_unread None r)); [done|].
  apply loop_fuel; unfold need; cbn [rd_files rd_idx rd_f set_unread]; lia.
Qed.

Lemma next_open r name : rd_f r = None -> rd_files r !! rd_idx r = Some name ->
  ReaderNext r = ReaderNext (openNext name r).
Proof.
  intros Hf Hn. unfold ReaderNext.
  pose proof (lookup_lt_Some _ _ _ Hn).
  transitivity (ReaderNext_loop (length (rd_files r) - rd_idx r + 2) (openNext name r)).
  - replace (length (rd_files r) - rd_idx r + 2)%nat
      with (S (length (rd_files r) - rd_idx r + 1))%nat by lia.
    cbn [ReaderNext_loop]. by rewrite Hf, Hn.
  - apply loop_fuel; unfold need; cbn [rd_files rd_idx rd_f openNext]; lia.
Qed.

Lemma next_end r : rd_f r = None -> rd_files r !! rd_idx r = None -> ReaderNext r = (r, false).
Proof.
  intros Hf Hn. unfold ReaderNext. rewrite Nat.add_comm. cbn [Nat.add ReaderNext_loop].
  by rewrite Hf, Hn.
Qed.

Lemma next_step r u r' ok : rd_f r = Some u -> readRecord u r = (r', ok, negb ok) ->
  ReaderNext r = (r', ok).
Proof.
  intros Hf Hr. unfold ReaderNext. rewrite Nat.add_comm. cbn [Nat.add ReaderNext_loop].
  rewrite Hf, Hr. by destruct ok.
Qed.

(** ** Replays

    [replays r rs r']: calling [Next] until it answers false yields [rs] and
    ends in [r']. *)
Inductive replays : WReader -> list Record_ -> WReader -> Prop :=
| rp_done r r' : ReaderNext r = (r', false) -> replays r [] r'
| rp_step r r1 rs r' :
    ReaderNext r = (r1, true) -> replays r1 rs r' -> replays r (rd_rec r1 :: rs) r'.

Lemma replays_same r1 r2 rs r' : ReaderNext r1 = ReaderNext r2 -> replays r2 rs r' -> replays r1 rs r'.
Proof. intros H Hr. inversion Hr; subst; econstructor; eauto; congruence. Qed.

Lemma replays_loop r rs r' : replays r rs r' ->
  forall fuel, (length rs < fuel)%nat -> replay_loop fuel r = (rs, r').
Proof.
  induction 1 as [r r' H|r r1 rs r' H _ IH]; intros fuel Hf;
    (destruct fuel as [|fuel]; [lia|]); cbn [replay_loop]; rewrite H; [done|].
  rewrite IH; [done|simpl in Hf; lia].
Qed.

Lemma loop_progress fuel : forall r r1, ReaderNext_loop fuel r = (r1, true) ->
  (log_bytes r1 < log_bytes r)%nat.
Proof.
  induction fuel as [|fuel IH]; intros r r1 H; [done|]. cbn [ReaderNext_loop] in H.
  assert (Hstep : forall u r0, rd_f r0 = Some u ->
    match readRecord u r0 with
    | (r', true, _) => (r', true)
    | (r', false, true) => (r', false)
    | (r', false, false) => ReaderNext_loop fuel (set_unread None r')
    end = (r1, true) -> (log_bytes r1 < log_bytes r0)%nat).
  { intros u r0 Hu H0. unfold log_bytes at 2. rewrite Hu.
    destruct (readRecord u r0) as [[r' []] []] eqn:E; simplify_eq;
      apply readRecord_fields in E as (E1 & E2 & E3 & u' & E4 & E5 & E6).
    1,2: unfold log_bytes; rewrite E1, E2, E3, E4; cbn [default from_option id];
      specialize (E6 eq_refl); cbn in *; lia.
    apply IH in H0. unfold log_bytes at 2 in H0.
    cbn [rd_dir rd_files rd_idx rd_f set_unread default from_option length] in H0.
    rewrite E1, E2, E3 in H0. lia. }
  destruct (rd_f r) as [u|] eqn:Ef; [by eapply Hstep|].
  destruct (rd_files r !! rd_idx r) as [name|] eqn:En; [|done].
  eapply Hstep in H; [|done]. unfold log_bytes at 2. rewrite Ef.
  rewrite (drop_S _ _ _ En). unfold log_bytes at 2 in H.
  cbn [rd_dir rd_files rd_idx rd_f openNext default from_option id fmap list_fmap sum_list] in *.
  simpl in *. lia.
Qed.

Lemma replays_length r rs r' : replays r rs r' -> (length rs <= log_bytes r)%nat.
Proof.
  induction 1 as [r r' H|r r1 rs r' H _ IH]; [simpl; lia|].
  apply loop_progress in H. simpl. lia.
Qed.

Lemma replays_replay r rs r' : replays r rs r' -> replayReader r = (rs, r').
Proof.
  intros H. apply (replays_loop _ _ _ H). pose proof (replays_length _ _ _ H). lia.
Qed.

(** The loop always ends: every replay has a result. *)
Lemma replays_total r : exists rs r', replays r rs r'.
Proof.
  remember (log_bytes r) as n eqn:Hn. revert r Hn.
  induction (lt_wf n) as [n _ IH]; intros r ->.
  destruct (ReaderNext r) as [r1 []] eqn:E.
  - pose proof (loop_progress _ _ _ E) as Hlt.
    destruct (IH _ Hlt r1 eq_refl) as (rs & r' & H). by do 2 eexists; econstructor.
  - by do 2 eexists; constructor.
Qed.

Lemma replays_frames rs : forall r rest rs' r', Forall record_ok rs ->
  rd_f r = Some (frames rs ++ rest) -> p_Offset (rd_end_ r) = rd_off r ->
  replays (advance rs rest r) rs' r' -> replays r (rs ++ rs') r'.
Proof.
  induction rs as [|x rs IH]; intros r rest rs' r' Hok Hf Hoff H; cbn [app].
  - eapply replays_same; [|exact H]. unfold advance. cbn [frames mbind list_bind length last default from_option].
    rewrite Z.add_0_r. f_equal. destruct r as [?????????? []]. cbn in *. by simplify_eq.
  - inversion Hok as [|?? Hx Hok']; subst. rewrite frames_cons, <- app_assoc in Hf.
    pose proof (readRecord_frame x (frames rs ++ rest) r Hx) as Hr.
    assert (rd_rec (advance [x] (frames rs ++ rest) r) = x) as Hx' by done.
    rewrite <- Hx' at 1.
    eapply rp_step; [by apply (next_step r _ _ true Hf)|].
    eapply IH; [done|done|done|].
    replace (advance rs rest (advance [x] (frames rs ++ rest) r)) with (advance (x :: rs) rest r);
      [done|].
    unfold advance. cbn [rd_dir rd_files rd_idx rd_f rd_size rd_off rd_last rd_strict rd_rec rd_err rd_end_ p_File p_Segment].
    rewrite frames_one, frames_cons, length_app.
    replace (rd_off r + Z.of_nat (length (frame x)) + Z.of_nat (length (frames rs)))
      with (rd_off r + Z.of_nat (length (frame x) + length (frames rs))) by lia.
    f_equal. rewrite last_cons. by destruct (last rs).
Qed.

(** A file's end that stops a replay quietly: nothing, or a record cut short. *)
Definition quiet (tail : list Z) : Prop :=
  tail = [] \/ exists x k, record_ok x /\ (0 < k < length (frame x))%nat /\ tail = take k (frame x).

Lemma replays_file r name rs rs' r' : rd_f r = None -> rd_files r !! rd_idx r = Some name ->
  file_of (rd_dir r) name = Some (frames rs) -> Forall record_ok rs ->
  replays (set_unread None (advance rs [] (openNext name r))) rs' r' -> replays r (rs ++ rs') r'.
Proof.
  intros Hf Hn Hc Hok H. eapply replays_same; [by apply next_open|].
  eapply (replays_frames rs _ []); [done| |done|].
  - cbn [openNext rd_f]. by rewrite Hc, app_nil_r.
  - eapply replays_same; [|exact H]. by apply next_eof.
Qed.

Lemma replays_last_file r name rs tail : rd_f r = None -> rd_files r !! rd_idx r = Some name ->
  S (rd_idx r) = length (rd_files r) -> rd_strict r = false -> rd_err r = None ->
  file_of (rd_dir r) name = Some (frames rs ++ tail) -> Forall record_ok rs -> quiet tail ->
  exists r', replays r rs r' /\ rd_err r' = None
    /\ rd_end_ r' = MkPos (Some name) (Z.of_nat (length (frames rs))) (segmentNumber name).
Proof.
  intros Hf Hn Hlast Hs He Hc Hok Hq. set (r1 := advance rs tail (openNext name r)).
  assert (Hr1 : exists r', ReaderNext r1 = (r', false) /\ rd_err r' = None
    /\ rd_end_ r' = MkPos (Some name) (Z.of_nat (length (frames rs))) (segmentNumber name)).
  { destruct Hq as [->|(x & k & Hx & Hk & ->)].
    - exists (set_unread None r1). split; [|split; [done|]].
      + rewrite next_eof by done. apply next_end; [done|].
        cbn [set_unread r1 advance openNext rd_files rd_idx]. apply lookup_ge_None. lia.
      + cbn [set_unread r1 advance openNext rd_end_ rd_off p_File p_Segment]. by rewrite Z.add_0_l.
    - destruct (readRecord_torn x k r1 Hx Hk) as [u Hu].
      eexists. split; [by eapply (next_step r1 _ _ false)|].
      assert (Hquiet : torn (rd_off r1 + Z.of_nat k) (set_unread u r1) = set_unread u r1).
      { unfold torn. cbn [set_unread rd_last rd_strict rd_size r1 advance openNext rd_off].
        rewrite Hs, Hc. cbn [default from_option id].
        replace (rd_idx r =? length (rd_files r) - 1)%nat with true
          by (symmetry; apply Nat.eqb_eq; lia).
        rewrite length_app, length_take. cbn [negb andb].
        destruct (_ <=? _) eqn:E; [done|]. apply Z.leb_gt in E. lia. }
      rewrite Hquiet. split; [done|].
      cbn [set_unread r1 advance openNext rd_end_ rd_off p_File p_Segment]. by rewrite Z.add_0_l. }
  destruct Hr1 as (r' & E & He' & Hend). exists r'. split; [|done].
  rewrite <- (app_nil_r rs). eapply replays_same; [by apply next_open|].
  eapply (replays_frames rs _ tail); [done| |done|by constructor].
  cbn [openNext rd_f]. by rewrite Hc.
Qed.

Lemma replays_files init : forall r (g : fname -> list Record_) name rs tail,
  drop (rd_idx r) (rd_files r) = init ++ [name] ->
  rd_f r = None -> rd_strict r = false -> rd_err r = None ->
  (forall f, f ∈ init -> file_of (rd_dir r) f = Some (frames (g f)) /\ Forall record_ok (g f)) ->
  file_of (rd_dir r) name = Some (frames rs ++ tail) -> Forall record_ok rs -> quiet tail ->
  exists r', replays r ((init ≫= g) ++ rs) r' /\ rd_err r' = None
    /\ rd_end_ r' = MkPos (Some name) (Z.of_nat (length (frames rs))) (segmentNumber name).
Proof.
  induction init as [|f init IH]; intros r g name rs tail Hd Hf Hs He Hg Hc Hok Hq.
  - cbn [app mbind list_bind]. eapply replays_last_file; eauto.
    + rewrite <- (Nat.add_0_r (rd_idx r)), <- lookup_drop, Hd. done.
    + apply (f_equal length) in Hd. rewrite length_drop in Hd. simpl in Hd. lia.
  - destruct (Hg f) as [Hgf Hgok]; [by left|].
    set (r1 := set_unread None (advance (g f) [] (openNext f r))).
    destruct (IH r1 g name rs tail) as (r' & Hr' & He' & Hend); try done.
    + cbn [r1 set_unread advance openNext rd_idx rd_files].
      rewrite <- Nat.add_1_r, <- drop_drop, Hd. done.
    + intros f' Hf'. apply Hg. by right.
    + exists r'. split; [|done]. rewrite bind_cons, <- app_assoc.
      eapply replays_file; eauto.
      rewrite <- (Nat.add_0_r (rd_idx r)), <- lookup_drop, Hd. done.
Qed.

(** ** Sorted listings *)

Lemma elem_of_listNumbered {A} (m : gmap nat A) n : n ∈ listNumbered m <-> is_Some (m !! n).
Proof.
  unfold listNumbered. rewrite (merge_sort_Permutation _ _), elem_of_elements. apply elem_of_dom.
Qed.

Lemma listNumbered_sorted {A} (m : gmap nat A) : StronglySorted (≤)%nat (listNumbered m).
Proof. apply (StronglySorted_merge_sort _). Qed.

Lemma listNumbered_NoDup {A} (m : gmap nat A) : NoDup (listNumbered m).
Proof. unfold listNumbered. rewrite (merge_sort_Permutation _ _). apply NoDup_elements. Qed.

Lemma listNumbered_unique {A} (m : gmap nat A) l :
  StronglySorted (≤)%nat l -> l ≡ₚ elements (dom m) -> listNumbered m = l.
Proof.
  intros Hs Hp. apply (StronglySorted_unique (≤)%nat); [apply listNumbered_sorted|done|].
  unfold listNumbered. rewrite (merge_sort_Permutation _ _). by symmetry.
Qed.

Lemma listNumbered_fmap {A B} (f : A -> B) (m : gmap nat A) : listNumbered (f <$> m) = listNumbered m.
Proof. unfold listNumbered. by rewrite dom_fmap_L. Qed.

Lemma listNumbered_insert {A} (m : gmap nat A) n x :
  is_Some (m !! n) -> listNumbered (<[n := x]> m) = listNumbered m.
Proof.
  intros H. unfold listNumbered. rewrite dom_insert_L. do 2 f_equal.
  apply elem_of_dom in H. set_solver.
Qed.

Lemma StronglySorted_snoc l (n : nat) :
  StronglySorted (≤)%nat l -> (forall k, k ∈ l -> (k <= n)%nat) -> StronglySorted (≤)%nat (l ++ [n]).
Proof.
  induction 1 as [|a l Hs IH Ha]; intros Hn; cbn [app]; [repeat constructor|].
  constructor; [apply IH; intros; apply Hn; by right|].
  apply Forall_app. split; [done|]. constructor; [apply Hn; by left|constructor].
Qed.

Lemma listNumbered_insert_max {A} (m : gmap nat A) n x :
  (forall k, is_Some (m !! k) -> (k < n)%nat) -> listNumbered (<[n := x]> m) = listNumbered m ++ [n].
Proof.
  intros Hn. apply listNumbered_unique.
  - apply StronglySorted_snoc; [apply listNumbered_sorted|].
    intros k Hk. apply elem_of_listNumbered, Hn in Hk. lia.
  - rewrite dom_insert_L, elements_union_singleton.
    + rewrite Permutation_app_comm. unfold listNumbered. by rewrite (merge_sort_Permutation _ _).
    + intros H. apply elem_of_dom, Hn in H. lia.
Qed.

(** The newest file is listed last. *)
Lemma listNumbered_max {A} (m : gmap nat A) n x :
  m !! n = Some x -> (forall k, is_Some (m !! k) -> (k <= n)%nat) ->
  listNumbered m = listNumbered (delete n m) ++ [n].
Proof.
  intros Hx Hn. rewrite <- (insert_delete_id m n x) at 1 by done. apply listNumbered_insert_max.
  intros k [y Hy]. apply lookup_delete_Some in Hy as [Hne Hy].
  assert (k <= n)%nat by (apply Hn; eauto). lia.
Qed.

(** ** What a log directory holds

    [log_files d c m n rs tail]: the checkpoints of [d] hold the records [c] and
    its segments the records [m]; [n] is the newest segment, holding [rs] and
    then the bytes [tail]. *)
Abbreviation recmap := (gmap nat (list Record_)).

Definition contents (m : recmap) : list Record_ :=
  listNumbered m ≫= fun n => default [] (m !! n).

Definition recmap_ok (m : recmap) : Prop := forall k rs, m !! k = Some rs -> Forall record_ok rs.

Record log_files (d : Dir) (c m : recmap) (n : nat) (rs : list Record_) (tail : list Z) : Prop := {
  lf_cps : d_cps d = frames <$> c;
  lf_segs : d_segs d = <[n := frames rs ++ tail]> (frames <$> m);
  lf_newest : m !! n = Some rs;
  lf_max : forall k, is_Some (m !! k) -> (k <= n)%nat;
  lf_cok : recmap_ok c;
  lf_mok : recmap_ok m;
  lf_quiet : quiet tail;
}.

Lemma contents_newest m n rs : m !! n = Some rs -> (forall k, is_Some (m !! k) -> (k <= n)%nat) ->
  contents m = contents (delete n m) ++ rs.
Proof.
  intros Hn Hmax. unfold contents. rewrite (listNumbered_max m n rs) by done.
  rewrite bind_app. cbn [mbind list_bind]. rewrite Hn, app_nil_r. cbn [default from_option id]. f_equal.
  apply bind_ext_in. intros k Hk.
  apply elem_of_listNumbered in Hk as [y Hy]. rewrite Hy.
  by apply lookup_delete_Some in Hy as [_ ->].
Qed.

Lemma log_files_replays d c m n rs tail : log_files d c m n rs tail ->
  exists r', replays (NewReader d) (contents c ++ contents m) r' /\ rd_err r' = None
    /\ rd_end_ r' = MkPos (Some (Seg n)) (Z.of_nat (length (frames rs))) (Z.of_nat n).
Proof.
  intros [Hc Hs Hn Hmax Hcok Hmok Hq].
  set (g := fun f => match f with Cp k => default [] (c !! k) | Seg k => default [] (m !! k) end).
  set (init := (Cp <$> listNumbered c) ++ (Seg <$> listNumbered (delete n m))).
  assert (Hfiles : rd_files (NewReader d) = init ++ [Seg n]).
  { cbn [NewReader rd_files]. rewrite Hc, Hs, listNumbered_fmap.
    rewrite listNumbered_insert by (rewrite lookup_fmap, Hn; eauto).
    rewrite listNumbered_fmap, (listNumbered_max m n rs) by done.
    unfold init. rewrite fmap_app, <- app_assoc. done. }
  destruct (replays_files init (NewReader d) g (Seg n) rs tail) as (r' & Hr & He & Hend); try done.
  - intros f Hf. unfold init in Hf. apply elem_of_app in Hf as [Hf|Hf];
      apply list_elem_of_fmap in Hf as (k & -> & Hk); apply elem_of_listNumbered in Hk as [y Hy];
      cbn [file_of rd_dir NewReader g].
    + rewrite Hc, lookup_fmap, Hy. cbn. eauto.
    + apply lookup_delete_Some in Hy as [Hne Hy].
      rewrite Hs, lookup_insert_ne, lookup_fmap, Hy by done. cbn. eauto.
  - cbn [file_of rd_dir NewReader]. rewrite Hs. apply lookup_insert_eq.
  - eauto.
  - exists r'. split; [|done].
    assert (contents c ++ contents m = (init ≫= g) ++ rs) as ->; [|done].
    rewrite (contents_newest m n rs) by done. unfold init, contents.
    rewrite bind_app, !list_fmap_bind. unfold g, compose. rewrite <- !app_assoc. do 2 f_equal.
    apply bind_ext_in. intros k Hk.
    apply elem_of_listNumbered in Hk as [y Hy]. rewrite Hy.
    by apply lookup_delete_Some in Hy as [_ ->].
Qed.

(** ** The writer's invariant *)

Record wal_inv (w : WAL) (c m : recmap) (tail : list Z) : Prop := {
  wi_files : exists n rs, log_files (w_dir w) c m n rs tail
    /\ (w_fopen w = true -> n = w_segment w)
    /\ (w_fopen w = true -> w_broken w = false -> w_size w = Z.of_nat (length (frames rs)));
  wi_clean : w_broken w = false -> tail = [];
}.

Definition with_script (s : list io) (w : WAL) : WAL :=
  MkWAL (w_dir w) (w_segmentSize w) (w_fopen w) (w_segment w) (w_size w) (w_closed w) (w_broken w) s.

Lemma syscall_spec w : exists s o, syscall w = (with_script s w, Ok o).
Proof. unfold syscall. destruct (w_script w) eqn:E; do 2 eexists; [by destruct w; simpl in *; subst|done]. Qed.

Lemma f_other_spec w : exists s b,
  f_other w = (with_script s w, Ok b) /\ (w_fopen w = false -> b = false).
Proof.
  destruct (syscall_spec w) as (s & o & E). exists s, (w_fopen w && match o with IoOk => true | _ => false end).
  unfold f_other. rewrite (bind_ok _ _ _ _ _ E). split; [done|]. by intros ->.
Qed.

Lemma f_write_spec bs w : exists s b k, (b = true -> k = length bs) /\ (b = false -> bs <> [] -> (k < length bs)%nat) /\
  f_write bs w = (if w_fopen w then with_file (w_file w ++ take k bs) (with_script s w)
                  else with_script s w, Ok (w_fopen w && b)).
Proof.
  destruct (syscall_spec w) as (s & o & E). exists s.
  unfold f_write. rewrite (bind_ok _ _ _ _ _ E). unfold get, mbind, SE_bind.
  cbn [with_script w_fopen]. destruct (w_fopen w); cbn [negb].
  - destruct o as [|k].
    + exists true, (length bs). split_and!; [done..|]. by rewrite take_ge.
    + exists false, (k `min` pred (length bs))%nat. split_and!; [done| |done]. intros _. destruct bs; [done|]. cbn [length]. lia.
  - exists false, 0%nat. split_and!; [done| |done]. intros _. destruct bs; [done|]. cbn [length]. lia.
Qed.

Lemma f_truncate_spec n w : exists s b, f_truncate n w
    = (if b : bool then with_file (take (Z.to_nat n) (w_file w)) (with_script s w) else with_script s w, Ok b)
  /\ (w_fopen w = false -> b = false).
Proof.
  destruct (f_other_spec w) as (s & b & E & Hb). exists s, b.
  unfold f_truncate. rewrite (bind_ok _ _ _ _ _ E). split; [|done]. by destruct b.
Qed.

(** Changing the newest segment's bytes. *)
Lemma log_files_update d c m n rs tail rs' tail' :
  log_files d c m n rs tail -> Forall record_ok rs' -> quiet tail' ->
  log_files (set_file d (Seg n) (frames rs' ++ tail')) c (<[n := rs']> m) n rs' tail'.
Proof.
  intros [Hc Hs Hn Hmax Hcok Hmok Hq] Hok Hq'. constructor; try done.
  - cbn [set_file d_segs]. rewrite Hs, insert_insert_eq, fmap_insert, insert_insert_eq. done.
  - apply lookup_insert_eq.
  - intros k Hk. rewrite lookup_insert_is_Some in Hk. destruct Hk as [->|[_ Hk]]; [done|eauto].
  - intros k rs0. rewrite lookup_insert_Some. intros [[-> <-]|[_ Hk]]; eauto.
Qed.

Lemma log_files_newest d c m n rs tail : log_files d c m n rs tail -> Forall record_ok rs.
Proof. intros [Hc Hs Hn Hmax Hcok Hmok Hq]. eauto. Qed.

Lemma log_files_file d c m n rs tail :
  log_files d c m n rs tail -> d_segs d !! n = Some (frames rs ++ tail).
Proof. intros [_ -> _ _ _ _ _]. apply lookup_insert_eq. Qed.

Lemma contents_append m n rs pre : m !! n = Some rs -> (forall k, is_Some (m !! k) -> (k <= n)%nat) ->
  contents (<[n := rs ++ pre]> m) = contents m ++ pre.
Proof.
  intros Hn Hmax. rewrite (contents_newest m n rs) by done.
  rewrite (contents_newest (<[n := rs ++ pre]> m) n (rs ++ pre)).
  - by rewrite delete_insert_eq, app_assoc.
  - apply lookup_insert_eq.
  - intros k Hk. rewrite lookup_insert_is_Some in Hk. destruct Hk as [->|[_ Hk]]; [done|eauto].
Qed.

Lemma quiet_take_frame x k : record_ok x ->
  exists pre tail, take k (frame x) = frames pre ++ tail /\ (pre = [] \/ pre = [x]) /\ quiet tail
    /\ (pre = [x] -> tail = []) /\ ((k < length (frame x))%nat -> pre = []).
Proof.
  intros Hx. destruct (decide (k = 0%nat)) as [->|H0].
  { exists [], []. cbn. split_and!; auto. by left. }
  destruct (decide (k < length (frame x))%nat) as [Hlt|Hge].
  - exists [], (take k (frame x)). split_and!; auto; [|done].
    right. exists x, k. split_and!; done || lia.
  - exists [x], []. rewrite take_ge, frames_one, app_nil_r by lia. split_and!; auto; [by left|lia].
Qed.

(** A writer state with an open segment: its directory and cursor. *)
Record writing (w : WAL) (c m : recmap) (rs : list Record_) : Prop := {
  wr_files : log_files (w_dir w) c m (w_segment w) rs [];
  wr_open : w_fopen w = true;
  wr_size : w_size w = Z.of_nat (length (frames rs));
}.

Lemma w_file_writing w c m rs : writing w c m rs -> w_file w = frames rs.
Proof.
  intros [Hf _ _]. unfold w_file. rewrite (log_files_file _ _ _ _ _ _ Hf). by rewrite app_nil_r.
Qed.

Lemma wal_inv_intro w c m rs tail : log_files (w_dir w) c m (w_segment w) rs tail ->
  (w_broken w = false -> tail = [] /\ w_size w = Z.of_nat (length (frames rs))) -> wal_inv w c m tail.
Proof.
  intros Hf Hb. constructor; [|by intros; apply Hb].
  exists (w_segment w), rs. split_and!; [done|done|]. intros _ H. by apply Hb.
Qed.

Lemma set_file_twice d f a b : set_file (set_file d f a) f b = set_file d f b.
Proof. destruct f; cbn [set_file d_segs d_cps]; by rewrite insert_insert_eq. Qed.

(** After a failed write of part of [x], the segment is cut back or the log is
    stopped; either way it holds whole records and at most one cut short. *)
Lemma undoPartial_inv w c m rs x k s0 cause : writing w c m rs -> w_broken w = false -> record_ok x ->
  exists pre tail e w', undoPartial cause (with_file (frames rs ++ take k (frame x)) (with_script s0 w))
      = (w', Err e)
    /\ (pre = [] \/ pre = [x]) /\ wal_inv w' c (<[w_segment w := rs ++ pre]> m) tail
    /\ ((k < length (frame x))%nat -> pre = []) /\ w_segment w' = w_segment w.
Proof.
  intros Hw Hnb Hx. pose proof Hw as [Hf Ho Hsz]. set (w1 := with_file _ _).
  pose proof (log_files_newest _ _ _ _ _ _ Hf) as Hok.
  assert (Hfile1 : w_file w1 = frames rs ++ take k (frame x)).
  { unfold w_file, w1. cbn. by rewrite lookup_insert_eq. }
  unfold undoPartial. rewrite (bind_ok get _ w1 w1 w1) by done.
  destruct (f_truncate_spec (w_size w1) w1) as (s & b & E & _).
  rewrite (bind_ok _ _ _ _ _ E). destruct b; cbn [negb].
  - assert (Hcut : take (Z.to_nat (w_size w1)) (w_file w1) = frames rs).
    { rewrite Hfile1. cbn [w1 w_size with_file with_script]. rewrite Hsz, Nat2Z.id.
      apply take_app_length. }
    rewrite Hcut. set (w2 := with_file _ _).
    assert (Hf2 : log_files (w_dir w2) c (<[w_segment w2 := rs]> m) (w_segment w2) rs []).
    { cbn [w2 w1 w_dir w_segment with_file with_script]. rewrite set_file_twice.
      rewrite <- (app_nil_r (frames rs)). eapply log_files_update; [done|done|by left]. }
    destruct (f_other_spec w2) as (s2 & b2 & E2 & _). rewrite (bind_ok _ _ _ _ _ E2).
    exists [], []. rewrite app_nil_r. destruct b2; cbn [negb].
    + do 2 eexists. split; [done|]. split; [by left|]. split; [by eapply wal_inv_intro|done].
    + do 2 eexists. split; [done|]. split; [by left|]. split; [by eapply wal_inv_intro|done].
  - destruct (quiet_take_frame x k Hx) as (pre & tail & Etake & Hpre & Hq & Hpt & Hshort).
    exists pre, tail. do 2 eexists. split; [done|]. split; [done|]. split; [|done].
    eapply (wal_inv_intro _ _ _ (rs ++ pre)); [|done].
    cbn [with_broken w1 w_dir w_segment with_file with_script].
    rewrite Etake, app_assoc, <- frames_app. eapply log_files_update; [done| |done].
    apply Forall_app. split; [done|]. destruct Hpre as [->| ->]; auto.
Qed.

(** [pre] is what a call left in the log of the batch [recs]. *)
Definition batch_prefix (pre recs : list Record_) : Prop := exists rest, recs = pre ++ rest.

Lemma write_records_inv recs : forall w c m rs,
  writing w c m rs -> w_broken w = false -> Forall record_ok recs ->
  exists pre tail w' res, write_records recs w = (w', res)
    /\ batch_prefix pre recs /\ (res = Ok tt -> pre = recs)
    /\ wal_inv w' c (<[w_segment w := rs ++ pre]> m) tail
    /\ (res <> Ok tt -> Forall (fun r => rec_Data r <> []) recs -> pre <> recs) /\ w_segment w' = w_segment w.
Proof.
  induction recs as [|x recs IH]; intros w c m rs Hw Hnb Hok; cbn [write_records].
  { exists [], [], w, (Ok tt). pose proof Hw as [Hf Ho Hsz]. split_and!; try done.
    rewrite app_nil_r, insert_id by apply (lf_newest _ _ _ _ _ _ Hf).
    by eapply wal_inv_intro. }
  pose proof Hw as [Hf Ho Hsz]. inversion Hok as [|?? Hx Hok']; subst.
  pose proof (w_file_writing _ _ _ _ Hw) as Hfile.
  assert (Hfail : forall k s0, (rec_Data x <> [] -> (k < length (frame x))%nat) ->
    exists pre tail w' res, undoPartial ErrIO (with_file (frames rs ++ take k (frame x)) (with_script s0 w))
      = (w', res) /\ batch_prefix pre (x :: recs) /\ (res = Ok tt -> pre = x :: recs)
      /\ wal_inv w' c (<[w_segment w := rs ++ pre]> m) tail
      /\ (res <> Ok tt -> Forall (fun r => rec_Data r <> []) (x :: recs) -> pre <> x :: recs) /\ w_segment w' = w_segment w).
  { intros k s0 Hk. destruct (undoPartial_inv w c m rs x k s0 ErrIO Hw Hnb Hx)
      as (pre & tail & e & w' & E & Hpre & Hinv & Hshort & Hseg).
    exists pre, tail, w', (Err e). split_and!; try done.
    - destruct Hpre as [->| ->]; [by exists (x :: recs)|by exists recs].
    - intros _ Hne. apply Forall_cons_1 in Hne as [Hne _]. by rewrite Hshort by auto. }
  destruct (f_write_spec (header_of x) w) as (s1 & b1 & k1 & Hk1 & Hs1 & E1).
  rewrite (bind_ok _ _ _ _ _ E1), Ho, Hfile. cbn [andb].
  destruct b1; cbn [negb]; cycle 1.
  { specialize (Hs1 eq_refl ltac:(done)). rewrite length_header in Hs1. destruct (Hfail (min k1 hdr_size) s1) as (pre & tail & w' & res & E & H); [intros _; rewrite length_frame; unfold hdr_size in *; lia|].
    exists pre, tail, w', res. split; [|done]. rewrite <- E. do 2 f_equal.
    unfold frame. rewrite take_app_le by (rewrite length_header; lia).
    by rewrite <- take_take, (take_ge (header_of x) hdr_size) by (rewrite length_header; lia). }
  rewrite (Hk1 eq_refl), (take_ge (header_of x)) by lia.
  set (w1 := with_file _ _).
  destruct (f_write_spec (rec_Data x) w1) as (s2 & b2 & k2 & Hk2 & Hs2 & E2).
  assert (Hfile1 : w_file w1 = frames rs ++ header_of x)
    by (unfold w_file, w1; cbn; by rewrite lookup_insert_eq).
  rewrite (bind_ok _ _ _ _ _ E2). cbn [w1 with_file with_script w_fopen]. rewrite Ho.
  fold w1. cbn [andb]. rewrite Hfile1.
  assert (Hw2 : forall bs, with_file bs (with_script s2 w1) = with_file bs (with_script s2 w)).
  { intros bs. unfold w1, with_file, with_script; cbn. by rewrite insert_insert_eq. }
  rewrite Hw2, <- app_assoc.
  destruct b2; cbn [negb]; cycle 1.
  { destruct (Hfail (hdr_size + k2)%nat s2) as (pre & tail & w' & res & E & H); [intros Hne; specialize (Hs2 eq_refl Hne); rewrite length_frame; lia|].
    exists pre, tail, w', res. split; [|done]. rewrite <- E. do 2 f_equal. }
  rewrite (Hk2 eq_refl), (take_ge (rec_Data x)) by lia. fold (frame x).
  set (w2 := with_file _ _). rewrite (bind_ok get _ w2 w2 w2) by done.
  set (w3 := with_size (w_size w2 + (headerSize + Z.of_nat (length (rec_Data x)))) w2).
  rewrite (bind_ok _ _ w2 w3 tt) by done.
  destruct (IH w3 c (<[w_segment w := rs ++ [x]]> m) (rs ++ [x])) as (pre & tail & w' & res & E & (rest & Hpre) & Hres & Hinv & Hbad & Hseg);
    [|done|done|].
  - constructor; [|done|].
    + cbn [w3 w2 with_size with_file with_script w_dir w_segment].
      rewrite <- (app_nil_r (frames rs ++ frame x)), <- frames_one, <- frames_app.
      eapply log_files_update; [done| |by left]. apply Forall_app. split; [|by apply Forall_singleton].
      by eapply log_files_newest.
    + cbn [w3 w2 with_size with_file with_script w_size]. rewrite Hsz, frames_app, frames_one, length_app, length_frame.
      unfold headerSize, hdr_size. lia.
  - exists (x :: pre), tail, w', res. split; [done|].
    cbn [w3 w2 with_size with_file with_script w_segment] in Hinv.
    rewrite insert_insert_eq, <- app_assoc in Hinv. split_and!; [|by intros H; rewrite (Hres H)|done| |done].
    + exists rest. by rewrite Hpre.
    + intros Hr Hne. apply Forall_cons_1 in Hne as [_ Hne]. intros [=]. by eapply Hbad.
Qed.

(** ** One call of [Log] *)

Lemma batch_size_ok recs : forall total t, batch_size recs total = Ok t ->
  Forall (fun r => is_byte (rec_Type r) /\ Forall is_byte (rec_Data r)) recs -> Forall record_ok recs.
Proof.
  induction recs as [|x recs IH]; intros total t H Hb; [done|]. cbn [batch_size] in H.
  inversion Hb as [|?? [Hx1 Hx2] Hb']; subst.
  destruct (rec_Type x =? 0) eqn:E1; [done|]. destruct (MaxRecordSize <? _) eqn:E2; [done|].
  constructor; [|by eapply IH]. constructor; try done; lia.
Qed.

(** Creating the next segment's empty file adds no record. *)
Lemma log_files_next d c m n rs : log_files d c m n rs [] ->
  let m' := <[S n := []]> m in
  log_files (set_file d (Seg (S n)) []) c m' (S n) [] [] /\ contents m' = contents m
  /\ d_segs d !! S n = None.
Proof.
  intros [Hc Hs Hn Hmax Hcok Hmok Hq] m'.
  assert (Hlt : forall k, is_Some (m !! k) -> (k < S n)%nat).
  { intros k Hk. apply Hmax in Hk. lia. }
  assert (Hnone : m !! S n = None).
  { destruct (m !! S n) eqn:Em; [|done]. assert (S n < S n)%nat by (apply Hlt; eauto). lia. }
  split_and!.
  - constructor; cbn [set_file d_segs d_cps]; try done.
    + unfold m'. rewrite Hs, app_nil_r, fmap_insert. cbn [frames mbind list_bind].
      rewrite app_nil_l, insert_insert_eq. f_equal. apply insert_id. by rewrite lookup_fmap, Hn.
    + apply lookup_insert_eq.
    + intros k Hk. unfold m' in Hk. rewrite lookup_insert_is_Some in Hk.
      destruct Hk as [->|[_ Hk]]; [done|]. apply Hlt in Hk. lia.
    + intros k rs0. unfold m'. rewrite lookup_insert_Some. intros [[_ <-]|[_ Hk]]; eauto.
  - unfold m', contents. rewrite listNumbered_insert_max by done.
    rewrite bind_app. cbn [mbind list_bind]. rewrite lookup_insert_eq. cbn [default from_option id].
    rewrite app_nil_r. apply bind_ext_in. intros k Hk. rewrite lookup_insert_ne; [done|].
    intros <-. apply elem_of_listNumbered in Hk as [y Hy]. congruence.
  - rewrite Hs, lookup_insert_ne by lia. by rewrite lookup_fmap, Hnone.
Qed.

Lemma openSegment_new w c m n rs : log_files (w_dir w) c m n rs [] -> w_broken w = false ->
  w_fopen w = false ->
  exists w' res m' tail', openSegment (S n) w = (w', res)
    /\ contents m' = contents m /\ w_broken w' = false /\ wal_inv w' c m' tail'
    /\ (res = Ok tt -> writing w' c m' []).
Proof.
  intros Hf Hb Ho. unfold openSegment.
  destruct (syscall_spec w) as (s & o & E). rewrite (bind_ok _ _ _ _ _ E).
  assert (Hstay : forall w' m' n' rs', log_files (w_dir w') c m' n' rs' [] -> w_fopen w' = false ->
    wal_inv w' c m' []).
  { intros w' m' n' rs' Hf' Ho'. constructor; [|done]. exists n', rs'. rewrite Ho'. by split_and!. }
  destruct o as [|k]; [|exists (with_script s w), (Err ErrIO), m, []; split_and!; try done; by eapply Hstay].
  set (w1 := with_script s w). rewrite (bind_ok get _ w1 w1 w1) by done.
  destruct (log_files_next _ _ _ _ _ Hf) as (Hf2 & Hcontents & Hcont).
  change (w_dir w1) with (w_dir w). rewrite Hcont. cbn [default from_option length Z.of_nat].
  set (w2 := with_dir (set_file (w_dir w) (Seg (S n)) []) w1).
  rewrite (bind_ok _ _ w1 w2 tt) by done.
  set (m' := <[S n := []]> m) in *.
  destruct (syscall_spec w2) as (s2 & o2 & E2). rewrite (bind_ok _ _ _ _ _ E2).
  destruct o2 as [|k2];
    [|exists (with_script s2 w2), (Err ErrIO), m', []; split_and!; try done; by eapply Hstay].
  rewrite Z.eqb_refl.
  destruct (syscall_spec (with_script s2 w2)) as (s3 & o3 & E3). rewrite (bind_ok _ _ _ _ _ E3).
  destruct o3 as [|k3];
    [|exists (with_script s3 w2), (Err ErrIO), m', []; split_and!; try done; by eapply Hstay].
  eexists _, (Ok tt), m', []. split; [reflexivity|]. split; [done|]. split; [done|].
  split; [by eapply wal_inv_intro|]. intros _. by constructor.
Qed.

Lemma writing_script s w c m rs : writing w c m rs -> writing (with_script s w) c m rs.
Proof. intros [? ? ?]. by constructor. Qed.

Lemma writing_inv w c m rs : writing w c m rs -> wal_inv w c m [].
Proof. intros [Hf Ho Hs]. by eapply wal_inv_intro. Qed.

Lemma roll_inv w c m rs : writing w c m rs -> w_broken w = false ->
  exists w' res m' tail', roll w = (w', res) /\ contents m' = contents m
    /\ w_broken w' = false /\ wal_inv w' c m' tail' /\ (res = Ok tt -> writing w' c m' []).
Proof.
  intros Hw Hb. pose proof Hw as [Hf Ho Hs]. unfold roll.
  destruct (f_other_spec w) as (s1 & b1 & E1 & _). rewrite (bind_ok _ _ _ _ _ E1).
  destruct b1; cbn [negb]; cycle 1.
  { exists (with_script s1 w), (Err ErrIO), m, []. split_and!; try done.
    by eapply writing_inv, writing_script. }
  destruct (f_other_spec (with_script s1 w)) as (s2 & b2 & E2 & _). rewrite (bind_ok _ _ _ _ _ E2).
  set (w2 := with_open false (with_script s2 (with_script s1 w))).
  rewrite (bind_ok _ _ _ w2 tt) by done.
  destruct b2; cbn [negb]; cycle 1.
  { exists w2, (Err ErrIO), m, []. split_and!; try done. constructor; [|done].
    exists (w_segment w), rs. by split_and!. }
  rewrite (bind_ok get _ w2 w2 w2) by done.
  destruct (openSegment_new w2 c m (w_segment w) rs) as (w' & res & m' & tail' & E & Hc & Hb' & Hinv & Hok);
    [done..|].
  exists w', res, m', tail'. by split_and!.
Qed.

(** [Log] on a log in any state the invariant allows: whatever the system calls
    do, the log afterwards holds what it held and a prefix of the batch, the
    whole batch when [Log] reports success. *)
Lemma Log_inv recs w c m tail : wal_inv w c m tail ->
  Forall (fun r => is_byte (rec_Type r) /\ Forall is_byte (rec_Data r)) recs ->
  exists pre m' tail' w' res, Log recs w = (w', res) /\ wal_inv w' c m' tail'
    /\ contents m' = contents m ++ pre /\ batch_prefix pre recs /\ (res = Ok tt -> pre = recs).
Proof.
  intros Hinv Hb.
  assert (Hsame : forall e, exists pre m' tail' w' res,
    (w, Err e : result wal_error unit) = (w', res) /\ wal_inv w' c m' tail'
    /\ contents m' = contents m ++ pre /\ batch_prefix pre recs /\ (res = Ok tt -> pre = recs)).
  { intros e. exists [], m, tail, w, (Err e). rewrite app_nil_r. split_and!; try done. by exists recs. }
  destruct recs as [|x recs']; [|cbn [Log]].
  { exists [], m, tail, w, (Ok tt). rewrite app_nil_r. by split_and!. }
  set (recs := x :: recs') in *.
  rewrite (bind_ok get _ w w w) by done. destruct (w_closed w); [apply Hsame|].
  destruct (w_broken w) eqn:Ebr; [apply Hsame|].
  destruct (batch_size recs 0) as [total|e] eqn:Ebs; [|apply Hsame].
  pose proof (batch_size_ok _ _ _ Ebs Hb) as Hok.
  pose proof Hinv as [(n & rs & Hf & Hseg & Hsz) Hcl]. specialize (Hcl Ebr) as ->.
  assert (Hwrite : forall w1 c1 m1 rs1, writing w1 c1 m1 rs1 -> w_broken w1 = false ->
    contents m1 = contents m -> exists pre m' tail' w' res,
    write_records recs w1 = (w', res) /\ wal_inv w' c1 m' tail'
    /\ contents m' = contents m ++ pre /\ batch_prefix pre recs /\ (res = Ok tt -> pre = recs)).
  { intros w1 c1 m1 rs1 Hw1 Hb1 Hc1.
    destruct (write_records_inv recs w1 c1 m1 rs1 Hw1 Hb1 Hok) as (pre & tail & w' & res & E & Hp & Hr & Hi & _).
    exists pre, (<[w_segment w1 := rs1 ++ pre]> m1), tail, w', res. split_and!; try done.
    rewrite <- Hc1. destruct (wr_files _ _ _ _ Hw1). by apply contents_append. }
  destruct (w_fopen w) eqn:Eo.
  - specialize (Hseg eq_refl) as ->. specialize (Hsz eq_refl Ebr).
    assert (Hw : writing w c m rs) by by constructor.
    destruct ((0 <? w_size w) && _) eqn:Eroll.
    + destruct (roll_inv w c m rs Hw Ebr) as (w1 & res & m1 & tail1 & E & Hc1 & Hb1 & Hi1 & Hr1).
      destruct res as [[]|e].
      * rewrite (bind_ok _ _ _ _ _ E). by eapply Hwrite; [apply Hr1| |].
      * rewrite (bind_err _ _ _ _ _ E). exists [], m1, tail1, w1, (Err e).
        rewrite app_nil_r. split_and!; try done. by exists recs.
    + rewrite (bind_ok (mret tt) _ w w tt) by done. by eapply Hwrite.
  - (* the file is gone: every call fails, and the log stops itself *)
    assert (Hstay : forall s b, w_broken w = false -> wal_inv (if b : bool then with_broken (with_script s w) else with_script s w) c m []).
    { intros s b _. constructor; [|by destruct b]. exists n, rs.
      destruct b; cbn [with_broken with_script w_dir w_fopen]; rewrite Eo; by split_and!. }
    destruct ((0 <? w_size w) && _) eqn:Eroll.
    + unfold roll. destruct (f_other_spec w) as (s1 & b1 & E1 & Hb1). rewrite (Hb1 Eo) in E1.
      rewrite (bind_err _ _ w (with_script s1 w) ErrIO).
      * exists [], m, [], (with_script s1 w), (Err ErrIO). rewrite app_nil_r.
        split_and!; try done; [by apply (Hstay s1 false)|by exists recs].
      * by rewrite (bind_ok _ _ _ _ _ E1).
    + rewrite (bind_ok (mret tt) _ w w tt) by done. cbn [write_records recs].
      destruct (f_write_spec (header_of x) w) as (s1 & b1 & k1 & _ & _ & E1). rewrite Eo in E1.
      rewrite (bind_ok _ _ _ _ _ E1). cbn [andb negb]. unfold undoPartial.
      set (w1 := with_script s1 w). rewrite (bind_ok get _ w1 w1 w1) by done.
      destruct (f_truncate_spec (w_size w1) w1) as (s2 & b2 & E2 & Hb2).
      assert (b2 = false) as -> by by apply Hb2. rewrite (bind_ok _ _ _ _ _ E2). cbn [negb].
      exists [], m, [], (with_broken (with_script s2 w)), (Err ErrBroken). rewrite app_nil_r.
      split_and!; try done; [by apply (Hstay s2 true)|by exists recs].
Qed.
