(* ===== verification/WalTruncate.v ===== *)
(** * Repairing and truncating the log (internal/tsdb/wal/truncate.go)

    [TruncateTail] and [Repair] make a log appendable after a crash; [Truncate]
    deletes old segments behind a checkpoint.  [Truncate]'s effects on the
    directory are a sequence of renames and removals, so that a crash is any
    prefix of it.  The calls themselves succeed. *)

From Stdlib Require Import ZArith Lia.
From stdpp Require Import base sorting gmap numbers list.
From S2P Require Import Prelude Wal WalProofs.

(** ** Repair *)

(** [os.Truncate]: cut, or extend with zeros. *)
Definition os_truncate (content : list Z) (n : Z) : list Z :=
  take (Z.to_nat n) content ++ replicate (Z.to_nat n - length content) 0.

Definition remove_segments (ns : list nat) (d : Dir) : Dir :=
  foldl (fun d n => MkDir (delete n (d_segs d)) (d_cps d)) d ns.

Definition TruncateTail (d : Dir) (pos : Position) : result wal_error Dir :=
  match p_File pos with
  | None => Ok d
  | Some f =>
      match file_of d f with
      | None => Err ErrIO
      | Some content =>
          let d := if Z.of_nat (length content) =? p_Offset pos then d
                   else set_file d f (os_truncate content (p_Offset pos)) in
          Ok (remove_segments
                (filter (fun n : nat => 0 <= p_Segment pos /\ p_Segment pos < Z.of_nat n)
                        (listNumbered (d_segs d))) d)
      end
  end.

Definition Repair (d : Dir) : result wal_error (Dir * bool) :=
  let r := snd (replay d) in
  match rd_err r with
  | Some e => Err e
  | None =>
      match p_File (rd_end_ r) with
      | None => Ok (d, false)
      | Some f =>
          match file_of d f with
          | None => Err ErrIO
          | Some content =>
              if Z.of_nat (length content) =? p_Offset (rd_end_ r) then Ok (d, false)
              else match TruncateTail d (rd_end_ r) with
                   | Ok d' => Ok (d', true)
                   | Err e => Err e
                   end
          end
      end
  end.

(** ** Truncate *)

Inductive fsop :=
| RenameCheckpoint (n : nat) (content : list Z)
| RemoveSegment (n : nat)
| RemoveCheckpoint (n : nat).

Definition apply_op (d : Dir) (op : fsop) : Dir :=
  match op with
  | RenameCheckpoint n c => set_file d (Cp n) c
  | RemoveSegment n => MkDir (delete n (d_segs d)) (d_cps d)
  | RemoveCheckpoint n => MkDir (d_segs d) (delete n (d_cps d))
  end.

(** One file, read strictly: the kept records' frames, or the damage. *)
Definition copyKept (d : Dir) (name : fname) (keep : Record_ -> bool) : result wal_error (list Z) :=
  let '(rs, r) := replayReader
    (MkReader d [name] 0 None 0 0 false true (MkRecord 0 []) None (MkPos None 0 (-1))) in
  match rd_err r with
  | Some e => Err e
  | None => Ok (frames (filter (fun x => keep x = true) rs))
  end.

Fixpoint copy_sources (d : Dir) (names : list fname) (keep : Record_ -> bool) :
  result wal_error (list Z) :=
  match names with
  | [] => Ok []
  | f :: rest =>
      match copyKept d f keep with
      | Err e => Err e
      | Ok bs => match copy_sources d rest keep with Ok bs' => Ok (bs ++ bs') | Err e => Err e end
      end
  end.

Definition writeCheckpoint (d : Dir) (doomed : list nat) (before : nat) (keep : Record_ -> bool) :
  result wal_error (list fsop) :=
  let sources := (Cp <$> filter (fun n => n <= before)%nat (listNumbered (d_cps d)))
                 ++ (Seg <$> doomed) in
  match copy_sources d sources keep with
  | Err e => Err e
  | Ok content => Ok [RenameCheckpoint before content]
  end.

Definition Truncate (d : Dir) (before : nat) (keep : option (Record_ -> bool)) :
  result wal_error (list fsop) :=
  let doomed := filter (fun n => n < before)%nat (listNumbered (d_segs d)) in
  match doomed with
  | [] => Ok []
  | _ =>
      match (match keep with Some k => writeCheckpoint d doomed before k | None => Ok [] end) with
      | Err e => Err e
      | Ok publish =>
          let d1 := foldl apply_op d publish in
          let cps := filter (fun n => n < before)%nat (listNumbered (d_cps d1)) in
          Ok (publish ++ (RemoveSegment <$> doomed) ++ (RemoveCheckpoint <$> cps))
      end
  end.

(** ** Repair cuts exactly the torn record *)

Lemma remove_no_segments d : remove_segments [] d = d.
Proof. done. Qed.

Lemma log_files_no_later d c m n rs tail : log_files d c m n rs tail ->
  filter (fun k : nat => 0 <= Z.of_nat n /\ Z.of_nat n < Z.of_nat k) (listNumbered (d_segs d)) = [].
Proof.
  intros Hf. apply filter_none. intros k Hk [_ Hlt].
  apply elem_of_listNumbered in Hk. destruct Hf as [Hc Hs Hn Hmax _ _ _].
  rewrite Hs in Hk. rewrite lookup_insert_is_Some, lookup_fmap, fmap_is_Some in Hk.
  destruct Hk as [->|[_ Hk]]; [lia|]. apply Hmax in Hk. lia.
Qed.

Lemma Repair_log_files d c m n rs tail : log_files d c m n rs tail ->
  exists d' cut, Repair d = Ok (d', cut) /\ log_files d' c m n rs [] /\ (cut = false <-> tail = []).
Proof.
  intros Hf. destruct (log_files_replays _ _ _ _ _ _ Hf) as (r' & Hr & He & Hend).
  pose proof (log_files_file _ _ _ _ _ _ Hf) as Hfile.
  unfold Repair, replay. rewrite (replays_replay _ _ _ Hr). cbn [snd].
  rewrite He, Hend. cbn [p_File p_Offset file_of]. rewrite Hfile, length_app.
  destruct (_ =? _) eqn:E.
  - assert (tail = []) as -> by (destruct tail; [done|apply Z.eqb_eq in E; simpl in E; lia]).
    by exists d, false.
  - assert (tail <> []) by (intros ->; apply Z.eqb_neq in E; simpl in E; lia).
    unfold TruncateTail. cbn [p_File p_Offset p_Segment file_of]. rewrite Hfile, length_app, E.
    set (d1 := set_file d (Seg n) _).
    assert (Hf1 : log_files d1 c m n rs []).
    { pose proof (log_files_update d c m n rs tail rs [] Hf) as Hu.
      rewrite insert_id in Hu by apply (lf_newest _ _ _ _ _ _ Hf).
      unfold d1, os_truncate. rewrite Nat2Z.id, take_app_length, length_app.
      replace (length (frames rs) - (length (frames rs) + length tail))%nat with 0%nat by lia.
      apply Hu; [by eapply log_files_newest|by left]. }
    rewrite (log_files_no_later _ _ _ _ _ _ Hf1), remove_no_segments.
    exists d1, true. split_and!; done.
Qed.

(** Cutting a run of frames anywhere leaves whole records and a quiet tail. *)
Lemma take_frames rs : forall k, Forall record_ok rs -> exists kept lost tail,
  rs = kept ++ lost /\ take k (frames rs) = frames kept ++ tail /\ quiet tail
  /\ (length (frames kept) <= k \/ length (frames rs) <= k)%nat
  /\ (forall x l, lost = x :: l -> (k < length (frames kept) + length (frame x))%nat).
Proof.
  induction rs as [|x rs IH]; intros k Hok.
  { exists [], [], []. cbn [frames mbind list_bind]. rewrite take_nil. split_and!; try done; [by left|simpl; lia]. }
  inversion Hok as [|?? Hx Hok']; subst. rewrite frames_cons.
  destruct (decide (k < length (frame x))%nat) as [Hlt|Hge].
  - exists [], (x :: rs), (take k (frame x)). rewrite take_app_le by lia. split_and!; try done.
    + destruct (decide (k = 0)%nat) as [->|]; [by left|]. right. exists x, k. split_and!; done || lia.
    + simpl. lia.
    + intros ? ? [= <- <-]. change (length (frames [])) with 0%nat. lia.
  - destruct (IH (k - length (frame x))%nat Hok') as (kept & lost & tail & -> & Ht & Hq & Hle & Hl).
    exists (x :: kept), lost, tail. rewrite frames_cons, !length_app.
    rewrite take_app_ge by lia. rewrite Ht, <- app_assoc. split_and!; try done; [lia|].
    intros y l Hy. specialize (Hl y l Hy). lia.
Qed.

(** Any crash of the newest segment's last append: cut at any byte. *)
Lemma log_files_cut d c m n rs k : log_files d c m n rs [] ->
  exists kept lost tail, rs = kept ++ lost
    /\ log_files (set_file d (Seg n) (take k (frames rs))) c (<[n := kept]> m) n kept tail
    /\ (forall x l, lost = x :: l -> (k < length (frames kept) + length (frame x))%nat).
Proof.
  intros Hf. destruct (take_frames rs k) as (kept & lost & tail & -> & Ht & Hq & _ & Hl);
    [by eapply log_files_newest|].
  exists kept, lost, tail. split; [done|]. split; [|done]. rewrite Ht.
  eapply log_files_update; [done| |done].
  pose proof (log_files_newest _ _ _ _ _ _ Hf) as Hok. by apply Forall_app in Hok as [? _].
Qed.

(** ** Checkpoints *)

Lemma copyKept_clean d name rs keep : file_of d name = Some (frames rs) -> Forall record_ok rs ->
  copyKept d name keep = Ok (frames (filter (fun x => keep x = true) rs)).
Proof.
  intros Hc Hok. unfold copyKept.
  set (r := MkReader d [name] 0 None 0 0 false true (MkRecord 0 []) None (MkPos None 0 (-1))).
  set (r1 := set_unread None (advance rs [] (openNext name r))).
  assert (Hr : replays r rs r1); [|by rewrite (replays_replay _ _ _ Hr)].
  rewrite <- (app_nil_r rs). eapply replays_file; [done|done|done|done|].
  constructor. by apply next_end.
Qed.

(** The records of a list of clean files. *)
Lemma copy_sources_clean d keep (g : fname -> list Record_) names :
  (forall f, f ∈ names -> file_of d f = Some (frames (g f)) /\ Forall record_ok (g f)) ->
  copy_sources d names keep = Ok (frames (filter (fun x => keep x = true) (names ≫= g))).
Proof.
  induction names as [|f names IH]; intros H; [done|]. cbn [copy_sources].
  destruct (H f) as [Hf Hok]; [by left|]. rewrite (copyKept_clean _ _ (g f)) by done.
  rewrite IH by (intros; apply H; by right).
  by rewrite bind_cons, filter_app, frames_app.
Qed.

Definition below (b : nat) (m : recmap) : recmap := filter (fun kv => kv.1 < b)%nat m.
Definition from (b : nat) (m : recmap) : recmap := filter (fun kv => b <= kv.1)%nat m.

Lemma lookup_below b m k : below b m !! k = if decide (k < b)%nat then m !! k else None.
Proof.
  unfold below. apply option_eq. intros y. rewrite map_lookup_filter_Some. cbn [fst].
  case_decide; naive_solver lia.
Qed.
Lemma lookup_from b m k : from b m !! k = if decide (b <= k)%nat then m !! k else None.
Proof.
  unfold from. apply option_eq. intros y. rewrite map_lookup_filter_Some. cbn [fst].
  case_decide; naive_solver lia.
Qed.

Lemma StronglySorted_app_le l1 l2 :
  StronglySorted (≤)%nat l1 -> StronglySorted (≤)%nat l2 ->
  (forall a b, a ∈ l1 -> b ∈ l2 -> (a <= b)%nat) -> StronglySorted (≤)%nat (l1 ++ l2).
Proof.
  induction 1 as [|a l1 Hs IH Ha]; intros H2 Hle; cbn [app]; [done|]. constructor.
  - apply IH; [done|]. intros. apply Hle; [by right|done].
  - apply Forall_app. split; [done|]. apply Forall_forall. intros b Hb.
    apply Hle; [by left|done].
Qed.

Lemma listNumbered_split b (m : recmap) :
  listNumbered m = listNumbered (below b m) ++ listNumbered (from b m).
Proof.
  apply listNumbered_unique.
  - apply StronglySorted_app_le; [apply listNumbered_sorted..|].
    intros x y Hx Hy. apply elem_of_listNumbered in Hx, Hy.
    rewrite lookup_below in Hx. rewrite lookup_from in Hy.
    case_decide; [|by destruct Hx]. case_decide; [|by destruct Hy]. lia.
  - apply NoDup_Permutation.
    + apply NoDup_app. split_and!; [apply listNumbered_NoDup| |apply listNumbered_NoDup].
      intros x Hx Hy. apply elem_of_listNumbered in Hx, Hy.
      rewrite lookup_below in Hx. rewrite lookup_from in Hy.
      case_decide; [|by destruct Hx]. case_decide; [|by destruct Hy]. lia.
    + apply NoDup_elements.
    + intros k. rewrite elem_of_app, !elem_of_listNumbered, elem_of_elements, elem_of_dom.
      rewrite lookup_below, lookup_from. split.
      * intros [H|H]; case_decide; done || by destruct H.
      * intros H. destruct (decide (k < b)%nat); [by left|right]. rewrite decide_True by lia. done.
Qed.

Lemma contents_split b m : contents m = contents (below b m) ++ contents (from b m).
Proof.
  unfold contents. rewrite (listNumbered_split b m), bind_app.
  f_equal; apply bind_ext_in; intros k Hk; apply elem_of_listNumbered in Hk;
    [rewrite lookup_below in *|rewrite lookup_from in *]; case_decide; done || by destruct Hk.
Qed.

(** What a truncation at [before] must preserve. *)
Definition survivors (keep : Record_ -> bool) (before : nat) (c m : recmap) : list Record_ :=
  filter (fun x => keep x = true) (contents c ++ contents (below before m)) ++ contents (from before m).

(** Every directory between the start and the end of a truncation. *)
Record truncating (d : Dir) (before n : nat) (rs : list Record_) (tail : list Z)
    (kept : list Record_) (c m : recmap) : Prop := {
  tr_state : exists c' m', log_files d c' m' n rs tail /\ c' !! before = Some kept
    /\ (forall k, is_Some (c' !! k) -> (k <= before)%nat) /\ from before m' = from before m
    /\ c' ⊆ <[before := kept]> c /\ m' ⊆ m;
}.

Lemma elem_of_contents x m : x ∈ contents m <-> exists k rs, m !! k = Some rs /\ x ∈ rs.
Proof.
  unfold contents. rewrite list_elem_of_bind. split.
  - intros (k & Hx & Hk). apply elem_of_listNumbered in Hk as [rs Hrs]. rewrite Hrs in Hx. eauto.
  - intros (k & rs & Hk & Hx). exists k. rewrite Hk. split; [done|]. apply elem_of_listNumbered. eauto.
Qed.

Lemma contents_sub m m' x : m' ⊆ m -> x ∈ contents m' -> x ∈ contents m.
Proof.
  rewrite !elem_of_contents. intros Hs (k & rs & Hk & Hx). exists k, rs. split; [|done].
  by eapply lookup_weaken.
Qed.

Lemma truncating_replay d before n rs tail kept c m : truncating d before n rs tail kept c m ->
  kept ⊆ contents c ++ contents m ->
  exists all r', replay d = (all, r') /\ rd_err r' = None
    /\ sublist (kept ++ contents (from before m)) all /\ all ⊆ contents c ++ contents m.
Proof.
  intros [(c' & m' & Hf & Hc & Hmax & Hfrom & Hcs & Hms)] Hkept.
  destruct (log_files_replays _ _ _ _ _ _ Hf) as (r' & Hr & He & _).
  exists (contents c' ++ contents m'), r'. split_and!; [by apply replays_replay|done| |].
  2:{ intros x. rewrite !elem_of_app. intros [Hx|Hx]; [|right; by eapply contents_sub].
      eapply contents_sub in Hx; [|exact Hcs]. apply elem_of_contents in Hx as (k & ys & Hk & Hx).
      apply lookup_insert_Some in Hk as [[_ <-]|[_ Hk]]; [by apply elem_of_app, Hkept|].
      left. apply elem_of_contents. eauto. }
  rewrite (contents_newest c' before kept) by done. rewrite (contents_split before m'), Hfrom.
  rewrite <- app_assoc. apply sublist_inserts_l. apply sublist_app; [done|].
  by apply sublist_inserts_l.
Qed.

Lemma log_files_remove_seg d c m n rs tail k : log_files d c m n rs tail -> (k < n)%nat ->
  log_files (apply_op d (RemoveSegment k)) c (delete k m) n rs tail.
Proof.
  intros [Hc Hs Hn Hmax Hcok Hmok Hq] Hk. constructor; cbn [apply_op d_segs d_cps]; try done.
  - rewrite Hs, delete_insert_ne, fmap_delete by lia. done.
  - by rewrite lookup_delete_ne by lia.
  - intros j [y Hy]. apply lookup_delete_Some in Hy as [_ Hy]. eauto.
  - intros j y Hy. apply lookup_delete_Some in Hy as [_ Hy]. eauto.
Qed.

Lemma log_files_remove_cp d c m n rs tail k : log_files d c m n rs tail ->
  log_files (apply_op d (RemoveCheckpoint k)) (delete k c) m n rs tail.
Proof.
  intros [Hc Hs Hn Hmax Hcok Hmok Hq]. constructor; cbn [apply_op d_segs d_cps]; try done.
  - by rewrite Hc, fmap_delete.
  - intros j y Hy. apply lookup_delete_Some in Hy as [_ Hy]. eauto.
Qed.

Lemma truncating_step d before n rs tail kept c m op : truncating d before n rs tail kept c m ->
  (before <= n)%nat ->
  match op with
  | RenameCheckpoint _ _ => False | RemoveSegment k => (k < before)%nat
  | RemoveCheckpoint k => (k < before)%nat end ->
  truncating (apply_op d op) before n rs tail kept c m.
Proof.
  intros [(c' & m' & Hf & Hc & Hmax & Hfrom & Hcs & Hms)] Hle Hop. constructor.
  destruct op as [j bs|j|j]; [done| |].
  - exists c', (delete j m'). split_and!; [apply log_files_remove_seg; [done|lia]|done|done| |done|].
    2: etrans; [apply delete_subseteq|done].
    rewrite <- Hfrom. apply map_eq. intros i. rewrite !lookup_from. case_decide; [|done].
    by rewrite lookup_delete_ne by lia.
  - exists (delete j c'), m'. split_and!; [by apply log_files_remove_cp| | |done| |done].
    3: etrans; [apply delete_subseteq|done].
    + by rewrite lookup_delete_ne by lia.
    + intros i [y Hy]. apply lookup_delete_Some in Hy as [_ Hy]. eauto.
Qed.

Definition delete_all (l : list nat) (m : recmap) : recmap := foldl (fun m k => delete k m) m l.

Lemma lookup_delete_all l : forall m k, delete_all l m !! k = if decide (k ∈ l) then None else m !! k.
Proof.
  induction l as [|x l IH]; intros m k; cbn [delete_all foldl]; [by rewrite decide_False by set_solver|].
  fold (delete_all l (delete x m)). rewrite IH.
  destruct (decide (k ∈ l)); [by rewrite decide_True by set_solver|].
  destruct (decide (k = x)) as [->|Hne].
  - rewrite lookup_delete_eq, decide_True by set_solver. done.
  - rewrite lookup_delete_ne, decide_False by set_solver. done.
Qed.

Lemma log_files_remove_segs l : forall d c m n rs tail, log_files d c m n rs tail ->
  (forall k, k ∈ l -> (k < n)%nat) ->
  log_files (foldl apply_op d (RemoveSegment <$> l)) c (delete_all l m) n rs tail.
Proof.
  induction l as [|x l IH]; intros d c m n rs tail Hf Hl; [done|].
  rewrite fmap_cons. cbn [foldl delete_all]. apply IH; [|intros; apply Hl; by right].
  apply log_files_remove_seg; [done|]. apply Hl. by left.
Qed.

Lemma log_files_remove_cps l : forall d c m n rs tail, log_files d c m n rs tail ->
  log_files (foldl apply_op d (RemoveCheckpoint <$> l)) (delete_all l c) m n rs tail.
Proof.
  induction l as [|x l IH]; intros d c m n rs tail Hf; [done|].
  rewrite fmap_cons. cbn [foldl delete_all]. apply IH. by apply log_files_remove_cp.
Qed.

Section Truncation.
Context (d : Dir) (c m : recmap) (n : nat) (rs : list Record_) (tail : list Z).
Context (before : nat) (keep : Record_ -> bool).
Hypothesis Hlog : log_files d c m n rs tail.
Hypothesis Hbefore : (before <= n)%nat.
Hypothesis Hcps : forall k, is_Some (c !! k) -> (k <= before)%nat.

Let doomed := filter (fun k => k < before)%nat (listNumbered (d_segs d)).
Let kept := filter (fun x => keep x = true) (contents c ++ contents (below before m)).
Let d1 := set_file d (Cp before) (frames kept).
Let old := filter (fun k => k < before)%nat (listNumbered (d_cps d1)).

Lemma elem_of_doomed k : k ∈ doomed <-> (k < before)%nat /\ is_Some (m !! k).
Proof.
  unfold doomed. rewrite list_elem_of_filter, elem_of_listNumbered, (lf_segs _ _ _ _ _ _ Hlog).
  rewrite lookup_insert_is_Some, lookup_fmap, fmap_is_Some. split; [|intros []; split; [done|right; split; [lia|done]]].
  intros [Hk [->|[_ H]]]; [lia|done].
Qed.

Lemma doomed_listed : doomed = listNumbered (below before m).
Proof.
  symmetry. apply listNumbered_unique.
  - unfold doomed. clear. induction (listNumbered_sorted (d_segs d)) as [|a l Hs IH Ha]; [constructor|].
    rewrite filter_cons. case_decide; [|done]. constructor; [done|].
    apply Forall_forall. intros x Hx. apply list_elem_of_filter in Hx as [_ Hx].
    by eapply Forall_forall in Ha.
  - apply NoDup_Permutation; [apply NoDup_filter, listNumbered_NoDup|apply NoDup_elements|].
    intros k. rewrite elem_of_doomed, elem_of_elements, elem_of_dom, lookup_below.
    case_decide; [naive_solver|]. split; [naive_solver lia|]. by intros [].
Qed.

Lemma sources_content :
  copy_sources d ((Cp <$> filter (fun k => k <= before)%nat (listNumbered (d_cps d))) ++ (Seg <$> doomed)) keep
  = Ok (frames kept).
Proof.
  rewrite (copy_sources_clean _ _
    (fun f => match f with Cp k => default [] (c !! k) | Seg k => default [] (m !! k) end)).
  - do 2 f_equal. unfold kept. f_equal. rewrite bind_app, !list_fmap_bind. f_equal.
    + unfold compose, contents. rewrite (lf_cps _ _ _ _ _ _ Hlog), listNumbered_fmap.
      rewrite filter_all; [done|]. intros k Hk. apply elem_of_listNumbered in Hk. eauto.
    + unfold compose, contents. rewrite doomed_listed. apply bind_ext_in. intros k Hk.
      apply elem_of_listNumbered in Hk. rewrite lookup_below in *. case_decide; [done|by destruct Hk].
  - intros f Hf. apply elem_of_app in Hf as [Hf|Hf]; apply list_elem_of_fmap in Hf as (k & -> & Hk).
    + apply list_elem_of_filter in Hk as [_ Hk]. rewrite (lf_cps _ _ _ _ _ _ Hlog), listNumbered_fmap in Hk.
      apply elem_of_listNumbered in Hk as [y Hy]. cbn [file_of].
      rewrite (lf_cps _ _ _ _ _ _ Hlog), lookup_fmap, Hy. cbn. split; [done|]. by eapply (lf_cok _ _ _ _ _ _ Hlog).
    + apply elem_of_doomed in Hk as [Hk [y Hy]]. cbn [file_of].
      rewrite (lf_segs _ _ _ _ _ _ Hlog), lookup_insert_ne, lookup_fmap, Hy by lia.
      cbn. split; [done|]. by eapply (lf_mok _ _ _ _ _ _ Hlog).
Qed.

Lemma kept_ok : Forall record_ok kept.
Proof.
  assert (Hall : forall m0 : recmap, recmap_ok m0 -> Forall record_ok (contents m0)).
  { intros m0 Hm. apply Forall_forall. intros x Hx. unfold contents in Hx.
    apply list_elem_of_bind in Hx as (k & Hx & Hk). apply elem_of_listNumbered in Hk as [y Hy].
    rewrite Hy in Hx. specialize (Hm k y Hy). by eapply Forall_forall in Hm. }
  apply Forall_forall. intros x Hx. unfold kept in Hx. apply list_elem_of_filter in Hx as [_ Hx].
  revert x Hx. apply Forall_forall, Forall_app. split; apply Hall; [apply (lf_cok _ _ _ _ _ _ Hlog)|].
  intros k y Hy. rewrite lookup_below in Hy. case_decide; [|done]. by eapply (lf_mok _ _ _ _ _ _ Hlog).
Qed.

Lemma kept_sub : kept ⊆ contents c ++ contents m.
Proof.
  intros x Hx. unfold kept in Hx. apply list_elem_of_filter in Hx as [_ Hx].
  rewrite (contents_split before m). rewrite !elem_of_app in *. tauto.
Qed.

Lemma published : log_files d1 (<[before := kept]> c) m n rs tail.
Proof.
  destruct Hlog as [Hc Hs Hn Hmax Hcok Hmok Hq]. constructor; unfold d1; cbn [set_file d_segs d_cps]; try done.
  - by rewrite Hc, fmap_insert.
  - intros k y. rewrite lookup_insert_Some. intros [[_ <-]|[_ Hk]]; [apply kept_ok|eauto].
Qed.

Lemma Truncate_plan : Truncate d before (Some keep)
  = Ok (match doomed with [] => [] | _ =>
          RenameCheckpoint before (frames kept) :: (RemoveSegment <$> doomed) ++ (RemoveCheckpoint <$> old) end).
Proof.
  unfold Truncate. fold doomed. destruct doomed eqn:E; [done|].
  unfold writeCheckpoint. rewrite <- E, sources_content. done.
Qed.

Lemma published_truncating : truncating d1 before n rs tail kept c m.
Proof.
  constructor. exists (<[before := kept]> c), m. split_and!; [apply published|apply lookup_insert_eq| |done|done|done].
  intros k Hk. rewrite lookup_insert_is_Some in Hk. destruct Hk as [->|[_ Hk]]; eauto.
Qed.

Lemma truncating_steps ops d0 : truncating d0 before n rs tail kept c m ->
  Forall (fun op => match op with RenameCheckpoint _ _ => False
    | RemoveSegment k => (k < before)%nat | RemoveCheckpoint k => (k < before)%nat end) ops ->
  truncating (foldl apply_op d0 ops) before n rs tail kept c m.
Proof.
  intros H Hops. revert d0 H. induction Hops as [|op ops Hop _ IH]; intros d0 H; cbn [foldl]; [done|].
  apply IH. by apply truncating_step.
Qed.

(** At any point of the truncation the log replays, and still holds every record
    that must survive, in order. *)
Lemma Truncate_any_crash ops done_ :
  Truncate d before (Some keep) = Ok ops -> done_ `prefix_of` ops ->
  exists all r', replay (foldl apply_op d done_) = (all, r') /\ rd_err r' = None
    /\ sublist (survivors keep before c m) all /\ all ⊆ contents c ++ contents m.
Proof.
  rewrite Truncate_plan. intros [= <-] [rest Hrest].
  assert (Hzero : exists all r', replay d = (all, r') /\ rd_err r' = None
    /\ sublist (survivors keep before c m) all /\ all ⊆ contents c ++ contents m).
  { destruct (log_files_replays _ _ _ _ _ _ Hlog) as (r' & Hr & He & _).
    exists (contents c ++ contents m), r'. split_and!; [by apply replays_replay|done| |done].
    unfold survivors. rewrite (contents_split before m), app_assoc.
    apply sublist_app; [apply sublist_filter|done]. }
  destruct done_ as [|op ops1]; [done|].
  destruct doomed as [|k0 ks] eqn:Ed; [done|]. rewrite <- Ed in Hrest.
  injection Hrest as <- Hrest.
  change (foldl apply_op d (RenameCheckpoint before (frames kept) :: ops1)) with (foldl apply_op d1 ops1).
  apply (truncating_replay _ before n rs tail kept c m); [|apply kept_sub].
  apply truncating_steps; [apply published_truncating|].
  assert (Hall : Forall (fun op => match op with RenameCheckpoint _ _ => False
    | RemoveSegment k => (k < before)%nat | RemoveCheckpoint k => (k < before)%nat end) (ops1 ++ rest)).
  { rewrite <- Hrest. apply Forall_app. split; apply Forall_fmap, Forall_forall; intros k Hk; cbn.
    - by apply elem_of_doomed in Hk as [? _].
    - by apply list_elem_of_filter in Hk as [? _]. }
  by apply Forall_app in Hall as [? _].
Qed.

Lemma elem_of_old k : k ∈ old <-> (k < before)%nat /\ is_Some (c !! k).
Proof.
  unfold old, d1. rewrite list_elem_of_filter, elem_of_listNumbered. cbn [set_file d_cps].
  rewrite lookup_insert_is_Some, (lf_cps _ _ _ _ _ _ Hlog), lookup_fmap, fmap_is_Some.
  split; [intros [? [->|[_ ?]]]; [lia|done]|intros [? ?]; split; [done|right; split; [lia|done]]].
Qed.

Lemma checkpoints_left : delete_all old (<[before := kept]> c) = {[ before := kept ]}.
Proof.
  apply map_eq. intros k. rewrite lookup_delete_all. case_decide as Hk.
  - apply elem_of_old in Hk as [Hk _]. by rewrite lookup_singleton_ne by lia.
  - destruct (decide (k = before)) as [->|Hne]; [by rewrite lookup_insert_eq, lookup_singleton_eq|].
    rewrite lookup_insert_ne, lookup_singleton_ne by done. destruct (c !! k) as [y|] eqn:E; [|done].
    exfalso. apply Hk, elem_of_old. split; [|by eexists].
    assert (k <= before)%nat by (apply Hcps; by eexists). lia.
Qed.

Lemma segments_left : delete_all doomed m = from before m.
Proof.
  apply map_eq. intros k. rewrite lookup_delete_all, lookup_from. case_decide as Hk.
  - apply elem_of_doomed in Hk as [Hk _]. by rewrite decide_False by lia.
  - case_decide; [done|]. destruct (m !! k) as [y|] eqn:E; [|done].
    exfalso. apply Hk, elem_of_doomed. split; [lia|by eexists].
Qed.

(** A truncation that runs to its end leaves exactly the survivors. *)
Lemma Truncate_complete ops : doomed <> [] ->
  Truncate d before (Some keep) = Ok ops ->
  log_files (foldl apply_op d ops) {[ before := kept ]} (from before m) n rs tail.
Proof.
  intros Hne. rewrite Truncate_plan. intros [= <-]. destruct doomed as [|k0 ks] eqn:Ed; [done|].
  rewrite <- Ed. cbn [foldl apply_op]. fold d1. rewrite foldl_app.
  rewrite <- checkpoints_left, <- segments_left.
  apply log_files_remove_cps, log_files_remove_segs; [apply published|].
  intros k Hk. apply elem_of_doomed in Hk. lia.
Qed.
End Truncation.

Lemma contents_singleton k rs : contents {[ k := rs ]} = rs.
Proof.
  unfold contents. rewrite (listNumbered_unique _ [k]).
  - cbn. by rewrite lookup_singleton_eq, app_nil_r.
  - repeat constructor.
  - by rewrite dom_singleton_L, elements_singleton.
Qed.
