(* ===== verification/WalSafety.v ===== *)
(** * What the write-ahead log promises

    The statements a client of the log relies on: what [Log] reported written is
    what a replay returns, a crash costs only the record it tore, damage
    anywhere else is reported, and truncation is safe at every step. *)

From Stdlib Require Import ZArith Lia.
From stdpp Require Import base sorting gmap numbers list.
From S2P Require Import Prelude Wal WalProofs WalTruncate.

(** ** The checksum sees every one-byte change *)

Definition crc_step (crc : Z) : Z :=
  if Z.odd crc then Z.lxor (Z.shiftr crc 1) 0x82F63B78 else Z.shiftr crc 1.

Lemma crc_bits_step n crc : crc_bits (S n) crc = crc_bits n (crc_step crc).
Proof. done. Qed.

Lemma testbit_high x n : is_u32 x -> 32 <= n -> Z.testbit x n = false.
Proof.
  unfold is_u32. intros Hx Hn. destruct (decide (x = 0)) as [->|]; [apply Z.bits_0|].
  apply Z.bits_above_log2; [lia|]. assert (Z.log2 x < 32) by (apply Z.log2_lt_pow2; lia). lia.
Qed.

Lemma crc_step_top crc : is_u32 crc -> Z.testbit (crc_step crc) 31 = Z.odd crc.
Proof.
  intros H. assert (Ht : Z.testbit (Z.shiftr crc 1) 31 = false)
    by (rewrite Z.shiftr_spec by lia; by apply testbit_high).
  unfold crc_step. destruct (Z.odd crc); [|done]. rewrite Z.lxor_spec, Ht. done.
Qed.

Lemma crc_step_inj a b : is_u32 a -> is_u32 b -> crc_step a = crc_step b -> a = b.
Proof.
  intros Ha Hb H. assert (Hodd : Z.odd a = Z.odd b)
    by (rewrite <- (crc_step_top a), <- (crc_step_top b), H by done; done).
  assert (Hs : Z.shiftr a 1 = Z.shiftr b 1).
  { unfold crc_step in H. rewrite Hodd in H. destruct (Z.odd b); [|done].
    apply (f_equal (fun z => Z.lxor z 0x82F63B78)) in H.
    by rewrite !Z.lxor_assoc, Z.lxor_nilpotent, !Z.lxor_0_r in H. }
  rewrite !Z.shiftr_div_pow2 in Hs by lia.
  rewrite (Z.div_mod a 2), (Z.div_mod b 2) by lia. rewrite !Zmod_odd, Hodd. dlia.
Qed.

Lemma crc_step_range crc : is_u32 crc -> is_u32 (crc_step crc).
Proof. apply (crc_bits_range 1). Qed.

Lemma crc_bits_inj n : forall a b, is_u32 a -> is_u32 b -> crc_bits n a = crc_bits n b -> a = b.
Proof.
  induction n as [|n IH]; intros a b Ha Hb H; [done|]. rewrite !crc_bits_step in H.
  apply IH in H; [|by apply crc_step_range..]. by apply crc_step_inj.
Qed.

Lemma lxor_u32 a b : is_u32 a -> is_byte b -> is_u32 (Z.lxor a b).
Proof. intros. apply (lxor_range 32); [lia|done|unfold is_byte in *; lia]. Qed.

Definition crc_byte (crc b : Z) : Z := crc_bits 8 (Z.lxor crc b).

Lemma crc_byte_range crc b : is_u32 crc -> is_byte b -> is_u32 (crc_byte crc b).
Proof. intros. by apply crc_bits_range, lxor_u32. Qed.

Lemma crc_byte_inj a b x y : is_u32 a -> is_u32 b -> is_byte x -> is_byte y ->
  crc_byte a x = crc_byte b y -> Z.lxor a x = Z.lxor b y.
Proof. intros. eapply crc_bits_inj; eauto using lxor_u32. Qed.

Lemma crc_fold_range data : forall crc, is_u32 crc -> Forall is_byte data ->
  is_u32 (foldl crc_byte crc data).
Proof.
  induction data as [|b data IH]; intros crc Hc Hd; [done|].
  apply Forall_cons_1 in Hd as [Hb Hd]. apply IH; [by apply crc_byte_range|done].
Qed.

Lemma crc_fold_inj data : forall a b, is_u32 a -> is_u32 b -> Forall is_byte data ->
  foldl crc_byte a data = foldl crc_byte b data -> a = b.
Proof.
  induction data as [|x data IH]; intros a b Ha Hb Hd H; [done|].
  apply Forall_cons_1 in Hd as [Hx Hd]. apply IH in H; [|by apply crc_byte_range..|done].
  apply crc_byte_inj in H; [|done..]. apply (f_equal (fun z => Z.lxor z x)) in H.
  by rewrite !Z.lxor_assoc, Z.lxor_nilpotent, !Z.lxor_0_r in H.
Qed.

Lemma crc32c_fold data : crc32c data = Z.lxor (foldl crc_byte 0xFFFFFFFF data) 0xFFFFFFFF.
Proof. done. Qed.

Lemma crc32c_one_byte pre b b' post : Forall is_byte (pre ++ b :: post) -> is_byte b' -> b <> b' ->
  crc32c (pre ++ b :: post) <> crc32c (pre ++ b' :: post).
Proof.
  intros Hd Hb' Hne H. apply Forall_app in Hd as [Hp Hd]. apply Forall_cons_1 in Hd as [Hb Hq].
  rewrite !crc32c_fold in H. apply (f_equal (fun z => Z.lxor z 0xFFFFFFFF)) in H.
  rewrite !Z.lxor_assoc, Z.lxor_nilpotent, !Z.lxor_0_r, !foldl_app in H. cbn [foldl] in H.
  assert (Hr : is_u32 (foldl crc_byte 0xFFFFFFFF pre)) by (apply crc_fold_range; [unfold is_u32; lia|done]).
  apply crc_fold_inj in H; [|by apply crc_byte_range..|done].
  apply crc_byte_inj in H; [|done..]. apply Hne.
  apply (f_equal (Z.lxor (foldl crc_byte 0xFFFFFFFF pre))) in H.
  by rewrite <- !Z.lxor_assoc, Z.lxor_nilpotent, !Z.lxor_0_l in H.
Qed.

Lemma Uint32_bytes a b c d : is_byte a -> is_byte b -> is_byte c -> is_byte d ->
  Uint32 [a; b; c; d] = a * 2 ^ 24 + b * 2 ^ 16 + c * 2 ^ 8 + d.
Proof.
  unfold is_byte, Uint32. intros Ha Hb Hc Hd. cbn [nth]. rewrite !Z.shiftl_mul_pow2 by lia. rewrite !Z.lor_assoc.
  rewrite (lor_disjoint d c 8) by lia. rewrite (lor_disjoint _ b 16) by lia. rewrite (lor_disjoint _ a 24) by lia. lia.
Qed.

Lemma Uint32_inj l l' : Forall is_byte l -> Forall is_byte l' -> length l = 4%nat -> length l' = 4%nat -> Uint32 l = Uint32 l' -> l = l'.
Proof.
  intros Hl Hl' E E'. destruct l as [|a [|b [|c [|d []]]]]; try done. destruct l' as [|a' [|b' [|c' [|d' []]]]]; try done.
  rewrite !Forall_cons in Hl, Hl'. destruct Hl as (H1 & H2 & H3 & H4 & _), Hl' as (H5 & H6 & H7 & H8 & _).
  rewrite !Uint32_bytes by done. unfold is_byte in *. intros Heq. assert (a = a' /\ b = b' /\ c = c' /\ d = d') as (-> & -> & -> & ->) by lia. done.
Qed.

(** A changed byte shows, in the data or in its checksum. *)
Lemma crc_changed body i x : Forall is_byte body -> is_byte x -> let b := body ++ PutUint32 (crc32c body) in b !! i <> Some x -> (i < length b)%nat ->
  exists body' tail', <[i := x]> b = body' ++ tail' /\ length tail' = 4%nat /\ crc32c body' <> Uint32 tail'.
Proof.
  intros Hb Hx b Hne Hi. set (tail := PutUint32 (crc32c body)) in *. set (b' := <[i := x]> b).
  assert (Htb : Forall is_byte tail) by (repeat (apply Forall_cons_2; [apply uint8_range|]); apply Forall_nil, I).
  assert (Hct : Uint32 tail = crc32c body) by (by apply Uint32_PutUint32, crc32c_range).
  unfold b', b in *. destruct (decide (i < length body)%nat) as [Hib|Hib].
  - exists (<[i := x]> body), tail. rewrite insert_app_l by done. split_and!; [done|done|].
    rewrite lookup_app_l in Hne by done. destruct (lookup_lt_is_Some_2 body i Hib) as [y Hy]. rewrite Hct. apply not_eq_sym.
    rewrite insert_take_drop by done. rewrite <- (take_drop_middle body _ _ Hy) at 1. apply crc32c_one_byte; [by rewrite take_drop_middle|done|congruence].
  - exists body, (<[i - length body := x]> tail)%nat. rewrite insert_app_r_alt by lia. rewrite lookup_app_r in Hne by lia. rewrite length_app in Hi.
    split_and!; [done|by rewrite length_insert|]. rewrite <- Hct. intros E. apply Uint32_inj in E; [|done|by apply Forall_insert|done|by rewrite length_insert].
    apply Hne. rewrite E. apply list_lookup_insert_eq. lia.
Qed.

(** ** Opening a log *)

Lemma last_listNumbered d c m n rs tail : log_files d c m n rs tail ->
  last (listNumbered (d_segs d)) = Some n.
Proof.
  intros [Hc Hs Hn Hmax _ _ _].
  rewrite Hs, (listNumbered_max _ n (frames rs ++ tail)), last_snoc; [done|apply lookup_insert_eq|].
  intros k Hk. rewrite lookup_insert_is_Some, lookup_fmap, fmap_is_Some in Hk.
  destruct Hk as [->|[_ Hk]]; [done|eauto].
Qed.

Lemma openSegment_ok n w w' : w_broken w = false ->
  openSegment n w = (w', Ok tt) ->
  w_dir w' = set_file (w_dir w) (Seg n) (default [] (d_segs (w_dir w) !! n))
  /\ w_fopen w' = true /\ w_segment w' = n /\ w_broken w' = false
  /\ w_size w' = Z.of_nat (length (default [] (d_segs (w_dir w) !! n))).
Proof.
  intros Hb. unfold openSegment.
  destruct (syscall_spec w) as (s & o & E). rewrite (bind_ok _ _ _ _ _ E).
  destruct o as [|k]; [|done]. set (w1 := with_script s w).
  rewrite (bind_ok get _ w1 w1 w1) by done.
  set (w2 := with_dir (set_file (w_dir w1) (Seg n) (default [] (d_segs (w_dir w1) !! n))) w1).
  rewrite (bind_ok _ _ w1 w2 tt) by done.
  destruct (syscall_spec w2) as (s2 & o2 & E2). rewrite (bind_ok _ _ _ _ _ E2).
  destruct o2; [|done]. set (w3 := with_script s2 w2).
  assert (H3 : exists s3 o3, (if Z.of_nat (length (default [] (d_segs (w_dir w1) !! n))) =? 0
    then syscall else mret IoOk) w3 = (with_script s3 w3, Ok o3)).
  { destruct (_ =? 0); [apply syscall_spec|]. exists (w_script w3), IoOk. by destruct w3. }
  destruct H3 as (s3 & o3 & E3). rewrite (bind_ok _ _ _ _ _ E3). destruct o3; [|done].
  intros [= <-]. by split_and!.
Qed.

Lemma Open_log d c m n rs sz script w : log_files d c m n rs [] -> Open d sz script = (w, Ok tt) ->
  wal_inv w c m [].
Proof.
  intros Hf. unfold Open. rewrite (last_listNumbered _ _ _ _ _ _ Hf). cbn [default from_option id].
  intros E. apply openSegment_ok in E as (Hd & Ho & Hseg & Hb & Hsz); [|done]. cbn [w_dir] in *.
  pose proof (log_files_file _ _ _ _ _ _ Hf) as Hfile. rewrite app_nil_r in Hfile.
  rewrite Hfile in Hd, Hsz. cbn [default from_option id] in Hd, Hsz.
  constructor; [|done]. exists n, rs. split_and!; [|done|done].
  rewrite Hd. replace (frames rs) with (frames rs ++ []) by apply app_nil_r.
  pose proof (log_files_update d c m n rs [] rs [] Hf) as Hu.
  rewrite insert_id in Hu by apply (lf_newest _ _ _ _ _ _ Hf).
  apply Hu; [by eapply log_files_newest|by left].
Qed.

Lemma Open_empty sz script w : Open (MkDir ∅ ∅) sz script = (w, Ok tt) -> wal_inv w ∅ {[ 0%nat := [] ]} [].
Proof.
  intros E. unfold Open in E. apply openSegment_ok in E as (Hd & Ho & Hseg & Hb & Hsz); [|done].
  constructor; [|done]. exists 0%nat, []. split_and!; [|done|done].
  rewrite Hd. constructor; cbn [set_file d_segs d_cps w_dir]; try done.
  - intros k Hk. apply lookup_singleton_is_Some in Hk. lia.
  - intros k y Hk. apply lookup_singleton_Some in Hk as [_ <-]. done.
  - by left.
Qed.

(** ** Writing and replaying *)

Definition bytes_ok (r : Record_) : Prop := is_byte (rec_Type r) /\ Forall is_byte (rec_Data r).

(** A run of [Log] calls: their results, and the log afterwards. *)
Fixpoint logAll (batches : list (list Record_)) (w : WAL) : WAL * list (result wal_error unit) :=
  match batches with
  | [] => (w, [])
  | b :: rest =>
      let '(w1, res) := Log b w in
      let '(w2, ress) := logAll rest w1 in (w2, res :: ress)
  end.

(** What a batch left in the log, given what [Log] reported. *)
Definition landed (pre : list Record_) (b : list Record_ * result wal_error unit) : Prop :=
  pre `prefix_of` b.1 /\ (b.2 = Ok tt -> pre = b.1).

Lemma logAll_inv batches : forall w c m tail, wal_inv w c m tail -> Forall (Forall bytes_ok) batches ->
  exists w' ress m' tail' pres, logAll batches w = (w', ress) /\ wal_inv w' c m' tail'
    /\ contents m' = contents m ++ concat pres /\ length ress = length batches
    /\ Forall2 landed pres (zip batches ress).
Proof.
  induction batches as [|b batches IH]; intros w c m tail Hinv Hb.
  { exists w, [], m, tail, []. rewrite app_nil_r. split_and!; done || constructor. }
  apply Forall_cons_1 in Hb as [Hb Hbs].
  destruct (Log_inv b w c m tail Hinv Hb) as (pre & m1 & tail1 & w1 & res & E & Hi1 & Hc1 & Hp & Hr).
  destruct (IH w1 c m1 tail1 Hi1 Hbs) as (w' & ress & m' & tail' & pres & E' & Hi & Hc & Hlen & Hf).
  exists w', (res :: ress), m', tail', (pre :: pres). cbn [logAll concat zip zip_with length].
  rewrite E, E'. split_and!; [done|done| |by rewrite Hlen|by constructor].
  by rewrite Hc, Hc1, app_assoc.
Qed.

Lemma wal_inv_replay w c m tail : wal_inv w c m tail ->
  exists r', replay (w_dir w) = (contents c ++ contents m, r') /\ rd_err r' = None.
Proof.
  intros [(n & rs & Hf & _ & _) _]. destruct (log_files_replays _ _ _ _ _ _ Hf) as (r' & Hr & He & _).
  exists r'. split; [by apply replays_replay|done].
Qed.

(** C7: whatever the system calls do (fail, or write part of the bytes), the log
    can be replayed without error at any point, and the replay returns, batch by
    batch and in order, a prefix of each batch logged: the whole batch whenever
    [Log] reported success. *)
Theorem wal_log_replay batches sz script w0 :
  Forall (Forall bytes_ok) batches -> Open (MkDir ∅ ∅) sz script = (w0, Ok tt) ->
  exists w ress pres r', logAll batches w0 = (w, ress) /\ length ress = length batches
    /\ replay (w_dir w) = (concat pres, r') /\ rd_err r' = None
    /\ Forall2 landed pres (zip batches ress).
Proof.
  intros Hb Ho. apply Open_empty in Ho.
  destruct (logAll_inv batches w0 _ _ _ Ho Hb) as (w & ress & m & tail & pres & E & Hi & Hc & Hl & Hf).
  destruct (wal_inv_replay _ _ _ _ Hi) as (r' & Hr & He). exists w, ress, pres, r'.
  split_and!; try done. rewrite Hr, Hc. by rewrite contents_singleton.
Qed.

Definition wal_example : list (list Record_) :=
  [[MkRecord 1 [10; 11]; MkRecord 2 []]; [MkRecord 3 [7]]; [MkRecord 4 [1; 2; 3]]].

(** The third write call tears a record in half; everything later still works. *)
Lemma wal_log_replay_witness :
  exists w ress pres r', logAll wal_example
      (fst (Open (MkDir ∅ ∅) 30 [IoOk; IoOk; IoOk; IoOk; IoOk; IoFail 4])) = (w, ress)
    /\ length ress = 3%nat
    /\ replay (w_dir w) = (concat pres, r') /\ rd_err r' = None
    /\ Forall2 landed pres (zip wal_example ress).
Proof.
  apply (wal_log_replay wal_example 30 [IoOk; IoOk; IoOk; IoOk; IoOk; IoFail 4]).
  - repeat constructor; cbn; lia.
  - vm_compute. reflexivity.
Defined.

(** ** Crash recovery *)

Lemma quiet_take t k : quiet t -> quiet (take k t).
Proof.
  intros [->|(x & j & Hx & Hj & ->)]; [left; apply take_nil|]. rewrite take_take.
  destruct (decide (k = 0)%nat) as [->|]; [by left|]. right. exists x, (k `min` j)%nat.
  split_and!; done || lia.
Qed.

Lemma log_files_cut_any d c m n rs tail k : log_files d c m n rs tail ->
  exists kept lost tail', rs = kept ++ lost /\ take k (frames rs ++ tail) = frames kept ++ tail'
    /\ log_files (set_file d (Seg n) (frames kept ++ tail')) c (<[n := kept]> m) n kept tail'
    /\ (forall x l, lost = x :: l -> (k < length (frames kept) + length (frame x))%nat).
Proof.
  intros Hf. pose proof (log_files_newest _ _ _ _ _ _ Hf) as Hok.
  destruct (decide (k <= length (frames rs))%nat) as [Hle|Hgt].
  - destruct (take_frames rs k Hok) as (kept & lost & tail' & -> & Ht & Hq & _ & Hl).
    exists kept, lost, tail'. rewrite take_app_le, Ht by done. split_and!; try done.
    eapply log_files_update; [done| |done]. by apply Forall_app in Hok as [? _].
  - exists rs, [], (take (k - length (frames rs)) tail). rewrite app_nil_r, take_app_ge by lia.
    split_and!; try done. eapply log_files_update; [done|done|].
    by apply quiet_take, (lf_quiet _ _ _ _ _ _ Hf).
Qed.

(** C8: a crash that leaves any prefix of the newest segment's bytes loses
    exactly the records not wholly inside it.  The replay is clean and returns
    the others; [Repair] succeeds, reports a cut exactly when a torn record was
    there, and keeps all of them; and logging continues after reopening: what is
    logged from then on is replayed behind what survived. *)
Theorem wal_crash_recovery d c m n rs tail k : log_files d c m n rs tail ->
  exists kept lost d2 cut r1 r2,
    let d1 := set_file d (Seg n) (take k (frames rs ++ tail)) in
    let recovered := contents c ++ contents (<[n := kept]> m) in
    rs = kept ++ lost /\ (forall x l, lost = x :: l -> (k < length (frames kept) + length (frame x))%nat)
    /\ replay d1 = (recovered, r1) /\ rd_err r1 = None
    /\ Repair d1 = Ok (d2, cut) /\ (cut = false <-> take k (frames rs ++ tail) = frames kept)
    /\ replay d2 = (recovered, r2) /\ rd_err r2 = None
    /\ forall sz script w batches, Open d2 sz script = (w, Ok tt) -> Forall (Forall bytes_ok) batches ->
         exists w' ress pres r', logAll batches w = (w', ress)
           /\ replay (w_dir w') = (recovered ++ concat pres, r') /\ rd_err r' = None
           /\ Forall2 landed pres (zip batches ress).
Proof.
  intros Hf. destruct (log_files_cut_any d c m n rs tail k Hf) as (kept & lost & tail' & Hrs & Ht & Hf1 & Hl).
  destruct (log_files_replays _ _ _ _ _ _ Hf1) as (r1 & Hr1 & He1 & _).
  destruct (Repair_log_files _ _ _ _ _ _ Hf1) as (d2 & cut & Hrep & Hf2 & Hcut).
  destruct (log_files_replays _ _ _ _ _ _ Hf2) as (r2 & Hr2 & He2 & _).
  exists kept, lost, d2, cut, r1, r2. cbn zeta. rewrite Ht.
  split_and!; try done; [by apply replays_replay| |by apply replays_replay|].
  - rewrite Hcut. split; [intros ->; apply app_nil_r|].
    intros H. rewrite <- (app_nil_r (frames kept)) in H at 2. by apply app_inv_head in H.
  - intros sz script w batches Ho Hb. pose proof (Open_log _ _ _ _ _ _ _ _ Hf2 Ho) as Hi.
    destruct (logAll_inv batches w _ _ _ Hi Hb) as (w' & ress & m' & tail2 & pres & E & Hi' & Hc & _ & Hlan).
    destruct (wal_inv_replay _ _ _ _ Hi') as (r' & Hr & He). exists w', ress, pres, r'.
    split_and!; try done. by rewrite Hr, Hc, app_assoc.
Qed.

Definition wal_one : Record_ := MkRecord 1 [10; 11].
Definition wal_two : Record_ := MkRecord 2 [12].

Lemma log_files_example : log_files (MkDir {[ 0%nat := frames [wal_one; wal_two] ]} ∅)
  ∅ {[ 0%nat := [wal_one; wal_two] ]} 0 [wal_one; wal_two] [].
Proof.
  constructor; try done.
  - intros k Hk. apply lookup_singleton_is_Some in Hk. lia.
  - intros k y Hk. apply lookup_singleton_Some in Hk as [_ <-].
    repeat constructor; cbn; lia || done.
  - by left.
Qed.

(** Cut in the second record's header: only that record is lost. *)
Lemma wal_crash_recovery_witness :
  exists kept lost d2 cut r1 r2,
    let rs := [wal_one; wal_two] in
    let d1 := set_file (MkDir {[ 0%nat := frames rs ]} ∅) (Seg 0) (take 15 (frames rs ++ [])) in
    let recovered := contents ∅ ++ contents (<[0%nat := kept]> {[ 0%nat := rs ]}) in
    rs = kept ++ lost /\ (forall x l, lost = x :: l -> (15 < length (frames kept) + length (frame x))%nat)
    /\ replay d1 = (recovered, r1) /\ rd_err r1 = None
    /\ Repair d1 = Ok (d2, cut) /\ (cut = false <-> take 15 (frames rs ++ []) = frames kept)
    /\ replay d2 = (recovered, r2) /\ rd_err r2 = None
    /\ forall sz script w batches, Open d2 sz script = (w, Ok tt) -> Forall (Forall bytes_ok) batches ->
         exists w' ress pres r', logAll batches w = (w', ress)
           /\ replay (w_dir w') = (recovered ++ concat pres, r') /\ rd_err r' = None
           /\ Forall2 landed pres (zip batches ress).
Proof. apply (wal_crash_recovery _ _ _ _ _ _ 15 log_files_example). Defined.

(** ** Truncation *)

Lemma Truncate_spec d c m n rs tail before keep :
  log_files d c m n rs tail -> (before <= n)%nat -> (forall k, is_Some (c !! k) -> (k <= before)%nat) ->
  exists ops, Truncate d before (Some keep) = Ok ops
    /\ (forall done_, done_ `prefix_of` ops ->
          exists all r', replay (foldl apply_op d done_) = (all, r') /\ rd_err r' = None
            /\ sublist (survivors keep before c m) all /\ all ⊆ contents c ++ contents m)
    /\ (below before m = ∅ -> ops = [])
    /\ (below before m <> ∅ -> exists c' m' r',
          log_files (foldl apply_op d ops) c' m' n rs tail
          /\ (forall k, is_Some (c' !! k) -> (k <= before)%nat)
          /\ replay (foldl apply_op d ops) = (survivors keep before c m, r') /\ rd_err r' = None).
Proof.
  intros Hf Hn Hc. pose proof (Truncate_plan d c m n rs tail before keep Hf Hn Hc) as Hplan.
  eexists. split; [exact Hplan|]. split; [|split].
  - intros done_ Hd. by eapply (Truncate_any_crash d c m n rs tail before keep Hf Hn Hc).
  - intros Hnone. rewrite (doomed_listed d c m n rs tail before Hf Hn), Hnone. done.
  - intros Hsome.
    assert (Hdoomed : filter (fun k => k < before)%nat (listNumbered (d_segs d)) <> []).
    { rewrite (doomed_listed d c m n rs tail before Hf Hn). intros Hnil. apply Hsome, map_empty.
      intros k. apply eq_None_not_Some. intros Hk. apply elem_of_listNumbered in Hk.
      rewrite Hnil in Hk. by apply not_elem_of_nil in Hk. }
    pose proof (Truncate_complete d c m n rs tail before keep Hf Hn Hc _ Hdoomed Hplan) as Hend.
    destruct (log_files_replays _ _ _ _ _ _ Hend) as (r' & Hr & He & _).
    do 3 eexists. split_and!; [exact Hend| |unfold replay; by rewrite (replays_replay _ _ _ Hr), contents_singleton|done].
    intros k Hk. apply lookup_singleton_is_Some in Hk. lia.
Qed.

(** C4: truncating behind segment [before], with a checkpoint of the records
    [keep] picks, always has a plan of renames and removals, and a crash after
    any number of its steps leaves a log that replays without error, holds every
    record that must survive in order, and holds nothing the log did not hold.
    Run to its end it leaves exactly the survivors, in a directory that can be
    logged to and truncated again. *)
Theorem wal_truncate_crash_safe d c m n rs tail before keep :
  log_files d c m n rs tail -> (before <= n)%nat -> (forall k, is_Some (c !! k) -> (k <= before)%nat) ->
  exists ops, Truncate d before (Some keep) = Ok ops
    /\ (forall done_, done_ `prefix_of` ops ->
          exists all r', replay (foldl apply_op d done_) = (all, r') /\ rd_err r' = None
            /\ sublist (survivors keep before c m) all /\ all ⊆ contents c ++ contents m)
    /\ (below before m = ∅ -> ops = [])
    /\ (below before m <> ∅ -> exists c' m' r',
          log_files (foldl apply_op d ops) c' m' n rs tail
          /\ (forall k, is_Some (c' !! k) -> (k <= before)%nat)
          /\ replay (foldl apply_op d ops) = (survivors keep before c m, r') /\ rd_err r' = None).
Proof. apply Truncate_spec. Qed.

Definition keep_even (r : Record_) : bool := Z.even (rec_Type r).

Lemma log_files_two : log_files (MkDir {[ 0%nat := frames [wal_one; wal_two]; 1%nat := frames [wal_one] ]} ∅)
  ∅ {[ 0%nat := [wal_one; wal_two]; 1%nat := [wal_one] ]} 1 [wal_one] [].
Proof.
  constructor; try done.
  - intros k [y Hk]. apply lookup_insert_Some in Hk as [[<- _]|[_ Hk]]; [lia|].
    apply lookup_singleton_Some in Hk as [<- _]. lia.
  - intros k y Hk. apply lookup_insert_Some in Hk as [[_ <-]|[_ Hk]];
      [|apply lookup_singleton_Some in Hk as [_ <-]]; repeat constructor; cbn; lia || done.
  - by left.
Qed.

Lemma wal_truncate_crash_safe_witness :
  exists ops, let d := MkDir {[ 0%nat := frames [wal_one; wal_two]; 1%nat := frames [wal_one] ]} ∅ in
    let m : recmap := {[ 0%nat := [wal_one; wal_two]; 1%nat := [wal_one] ]} in
    Truncate d 1 (Some keep_even) = Ok ops
    /\ (forall done_, done_ `prefix_of` ops ->
          exists all r', replay (foldl apply_op d done_) = (all, r') /\ rd_err r' = None
            /\ sublist (survivors keep_even 1 ∅ m) all /\ all ⊆ contents ∅ ++ contents m)
    /\ (below 1 m = ∅ -> ops = [])
    /\ (below 1 m <> ∅ -> exists c' m' r',
          log_files (foldl apply_op d ops) c' m' 1 [wal_one] []
          /\ (forall k, is_Some (c' !! k) -> (k <= 1)%nat)
          /\ replay (foldl apply_op d ops) = (survivors keep_even 1 ∅ m, r') /\ rd_err r' = None).
Proof.
  apply (wal_truncate_crash_safe _ ∅ _ _ _ _ 1 keep_even log_files_two); [lia|].
  intros k [y Hy]. by apply lookup_empty_Some in Hy.
Defined.

(** The record of even type is the one the checkpoint carries over. *)
Example truncate_keeps_even :
  survivors keep_even 1 ∅ {[ 0%nat := [wal_one; wal_two]; 1%nat := [wal_one] ]} = [wal_two; wal_one].
Proof. vm_compute. reflexivity. Qed.

(** ** Damage *)

(** Past clean files: the reader between files, with everything before read. *)
Lemma replays_init init : forall r (g : fname -> list Record_) later,
  drop (rd_idx r) (rd_files r) = init ++ later -> rd_f r = None ->
  (forall f, f ∈ init -> file_of (rd_dir r) f = Some (frames (g f)) /\ Forall record_ok (g f)) ->
  exists r1, rd_f r1 = None /\ rd_dir r1 = rd_dir r /\ drop (rd_idx r1) (rd_files r1) = later
    /\ rd_strict r1 = rd_strict r /\ rd_err r1 = rd_err r
    /\ forall rs' r', replays r1 rs' r' -> replays r ((init ≫= g) ++ rs') r'.
Proof.
  induction init as [|f init IH]; intros r g later Hd Hf Hg; [by exists r|].
  destruct (Hg f) as [Hgf Hgok]; [by left|].
  destruct (IH (set_unread None (advance (g f) [] (openNext f r))) g later) as (r1 & E1 & E2 & E3 & E4 & E5 & H).
  - cbn [set_unread advance openNext rd_idx rd_files]. by rewrite <- Nat.add_1_r, <- drop_drop, Hd.
  - done.
  - intros f' Hf'. apply Hg. by right.
  - exists r1. split_and!; try done. intros rs' r' Hr. rewrite bind_cons, <- app_assoc.
    eapply replays_file; eauto. rewrite <- (Nat.add_0_r (rd_idx r)), <- lookup_drop, Hd. done.
Qed.

Lemma readRecord_damaged x data rest r : record_ok x -> length data = length (rec_Data x) ->
  crc32c data <> crc32c (rec_Data x) ->
  exists u, readRecord (header_of x ++ data ++ rest) r
    = (torn (rd_off r + headerSize + Z.of_nat (length data)) (set_unread u r), false, true).
Proof.
  intros [Ht Hn Hb Hs] Hlen Hcrc. rewrite MaxRecordSize_val in Hs. unfold readRecord.
  rewrite (take_app_length' (header_of x)), (drop_app_length' (header_of x)), length_header by done.
  change (hdr_size =? 0)%nat with false. change (hdr_size <? hdr_size)%nat with false.
  assert (Hl : Uint32 (take 4 (header_of x)) = Z.of_nat (length (rec_Data x))).
  { change (take 4 (header_of x)) with (PutUint32 (uint32 (Z.of_nat (length (rec_Data x))))).
    rewrite Uint32_PutUint32 by apply uint32_range. unfold uint32. apply Z.mod_small. lia. }
  assert (Hw : Uint32 (take 4 (drop 5 (header_of x))) = crc32c (rec_Data x)).
  { change (take 4 (drop 5 (header_of x))) with (PutUint32 (crc32c (rec_Data x))).
    by apply Uint32_PutUint32, crc32c_range. }
  rewrite Hl, Hw. change (nth 4 (header_of x) 0) with (rec_Type x). rewrite MaxRecordSize_val.
  destruct ((rec_Type x =? 0) || _) eqn:E; [lia|]. rewrite Nat2Z.id, <- Hlen.
  rewrite take_app_length, drop_app_length, Nat.ltb_irrefl.
  rewrite (proj2 (Z.eqb_neq _ _) Hcrc). by exists (Some rest).
Qed.

(** C27: a record whose stored payload no longer has its checksum stops the
    replay at that record: everything before it is returned, and the replay
    reports the file and the offset, unless the record is the very last thing
    in the log, where it is a torn append and is dropped quietly. *)
Theorem wal_damage_reported d init name later g rs x data rest :
  rd_files (NewReader d) = init ++ name :: later ->
  (forall f, f ∈ init -> file_of d f = Some (frames (g f)) /\ Forall record_ok (g f)) ->
  Forall record_ok rs -> record_ok x ->
  length data = length (rec_Data x) -> crc32c data <> crc32c (rec_Data x) ->
  file_of d name = Some (frames rs ++ header_of x ++ data ++ rest) ->
  exists r', replay d = ((init ≫= g) ++ rs, r')
    /\ rd_err r' = (if decide (later = [] /\ rest = []) then None
                    else Some (ErrCorrupt name (Z.of_nat (length (frames rs))))).
Proof.
  intros Hfiles Hg Hok Hx Hlen Hcrc Hfile.
  destruct (replays_init init (NewReader d) g (name :: later)) as (r1 & Ef & Ed & El & Es & Ee & Hrep); try done.
  assert (Hn : rd_files r1 !! rd_idx r1 = Some name)
    by (rewrite <- (Nat.add_0_r (rd_idx r1)), <- lookup_drop, El; done).
  set (r2 := advance rs (header_of x ++ data ++ rest) (openNext name r1)).
  destruct (readRecord_damaged x data rest r2 Hx Hlen Hcrc) as [u Hu].
  eexists. split.
  - apply replays_replay, Hrep. rewrite <- (app_nil_r rs). eapply replays_same; [by apply next_open|].
    eapply (replays_frames rs _ (header_of x ++ data ++ rest)); [done| |done|].
    + cbn [openNext rd_f]. rewrite Ed. cbn [rd_dir NewReader]. by rewrite Hfile.
    + constructor. by eapply (next_step r2 _ _ false).
  - unfold torn. cbn [set_unread rd_last rd_strict rd_size r2 advance openNext rd_off rd_end_ p_File default from_option id].
    rewrite Es, Ed. cbn [NewReader rd_strict rd_dir negb]. rewrite Hfile. cbn [default from_option id].
    assert (Hlater : (rd_idx r1 =? length (rd_files r1) - 1)%nat = bool_decide (later = [])).
    { apply (f_equal length) in El. rewrite length_drop in El. cbn [length] in El.
      destruct later as [|f later]; [rewrite bool_decide_true by done; apply Nat.eqb_eq|
        rewrite bool_decide_false by done; apply Nat.eqb_neq]; simpl in El; lia. }
    rewrite Hlater, andb_true_r, !length_app, length_header.
    assert (Hrest : (Z.of_nat (length (frames rs) + (hdr_size + (length data + length rest)))
      <=? 0 + Z.of_nat (length (frames rs)) + headerSize + Z.of_nat (length data)) = bool_decide (rest = [])).
    { unfold hdr_size, headerSize. destruct rest as [|b rest];
        [rewrite bool_decide_true by done; apply Z.leb_le|rewrite bool_decide_false by done; apply Z.leb_gt];
        cbn [length]; lia. }
    rewrite Hrest. do 2 case_bool_decide; case_decide; cbn [andb rd_err]; try done; try tauto.
Qed.

(** A payload byte flipped in the first of two segments. *)
Lemma wal_damage_reported_witness :
  let d := MkDir {[ 0%nat := frames [wal_two] ++ header_of wal_one ++ [10; 12]; 1%nat := frames [wal_one] ]} ∅ in
  exists r', replay d = ([] ++ [wal_two], r')
    /\ rd_err r' = (if decide ([Seg 1] = [] /\ [] = ([] : list Z)) then None
                    else Some (ErrCorrupt (Seg 0) (Z.of_nat (length (frames [wal_two]))))).
Proof.
  apply (wal_damage_reported _ [] (Seg 0) [Seg 1] (fun _ => []) [wal_two] wal_one [10; 12] []).
  - vm_compute. reflexivity.
  - intros f Hf. by apply not_elem_of_nil in Hf.
  - repeat constructor; cbn; lia || done.
  - repeat constructor; cbn; lia || done.
  - reflexivity.
  - vm_compute. discriminate.
  - reflexivity.
Defined.

(** The checksum of a payload changes when any one of its bytes does, so
    damage to a single byte of a payload is always seen. *)
Theorem crc_detects_one_byte data i b b' :
  Forall is_byte data -> is_byte b' -> data !! i = Some b -> b <> b' ->
  crc32c (<[i := b']> data) <> crc32c data.
Proof.
  intros Hd Hb' Hi Hne. apply not_eq_sym.
  rewrite insert_take_drop by (by eapply lookup_lt_Some).
  rewrite <- (take_drop_middle data i b Hi) in Hd |- * at 1.
  by apply crc32c_one_byte.
Qed.

Lemma crc_detects_one_byte_witness :
  crc32c (<[2%nat := 9]> [1; 2; 3; 4]) <> crc32c [1; 2; 3; 4].
Proof.
  apply (crc_detects_one_byte [1; 2; 3; 4] 2%nat 3 9).
  - repeat constructor; cbn; lia || done.
  - done.
  - reflexivity.
  - lia.
Defined.
