(* ===== verification/Gofloat.v ===== *)
(** * float64 as bit patterns

    A float64 is its 64 bits.  Comparison is Go's: NaN compares to nothing, the
    two zeros are equal, and otherwise sign and magnitude decide. *)

From Stdlib Require Import ZArith Lia.
From stdpp Require Import base numbers.
From S2P Require Import Prelude.

Definition fmag (a : Z) : Z := Z.land a (2 ^ 63 - 1).
Definition isNaN (a : Z) : bool := 9218868437227405312 <? fmag a.
Definition feq (a b : Z) : bool :=
  negb (isNaN a) && negb (isNaN b) && ((a =? b) || ((fmag a =? 0) && (fmag b =? 0))).

(** The value's place in the order: sign and magnitude. *)
Definition fval (a : Z) : Z := if 2 ^ 63 <=? a then - fmag a else fmag a.
Definition flt (a b : Z) : bool := negb (isNaN a) && negb (isNaN b) && (fval a <? fval b).
Definition fle (a b : Z) : bool := negb (isNaN a) && negb (isNaN b) && (fval a <=? fval b).
(** [math.IsInf(f, 0)]. *)
Definition isInf (a : Z) : bool := fmag a =? 9218868437227405312.

Lemma fmag_mod a : fmag a = a mod 2 ^ 63.
Proof. unfold fmag. change (2 ^ 63 - 1) with (Z.ones 63). by apply Z.land_ones. Qed.

Lemma feq_fval a b : is_u64 a -> is_u64 b -> isNaN a = false -> isNaN b = false -> feq a b = (fval a =? fval b).
Proof.
  unfold is_u64. intros Ha Hb Hna Hnb. unfold feq. rewrite Hna, Hnb. cbn [negb andb]. unfold fval. rewrite !fmag_mod.
  assert (Hm : forall x, 0 <= x < 2 ^ 64 -> x mod 2 ^ 63 = if 2 ^ 63 <=? x then x - 2 ^ 63 else x).
  { intros x Hx. destruct (Z.leb_spec (2 ^ 63) x); [|apply Z.mod_small; lia].
    symmetry. apply (Zdiv.Zmod_unique _ _ 1); lia. }
  rewrite !Hm by lia. apply eq_true_iff_eq. rewrite orb_true_iff, andb_true_iff, !Z.eqb_eq.
  destruct (Z.leb_spec (2 ^ 63) a), (Z.leb_spec (2 ^ 63) b); lia.
Qed.

Lemma flt_fle a b : flt a b = true -> fle a b = true.
Proof. unfold flt, fle. destruct (isNaN a), (isNaN b); cbn; try done. rewrite Z.ltb_lt, Z.leb_le. lia. Qed.
Lemma fle_trans a b c : fle a b = true -> fle b c = true -> fle a c = true.
Proof. unfold fle. destruct (isNaN a), (isNaN b), (isNaN c); cbn; try done. rewrite !Z.leb_le. lia. Qed.
Lemma flt_le_trans a b c : flt a b = true -> fle b c = true -> flt a c = true.
Proof. unfold flt, fle. destruct (isNaN a), (isNaN b), (isNaN c); cbn; try done. rewrite !Z.ltb_lt, Z.leb_le. lia. Qed.
Lemma fle_lt_trans a b c : fle a b = true -> flt b c = true -> flt a c = true.
Proof. unfold flt, fle. destruct (isNaN a), (isNaN b), (isNaN c); cbn; try done. rewrite !Z.ltb_lt, Z.leb_le. lia. Qed.
