(* ===== verification/Gofloat64.v ===== *)
(** * float64 arithmetic on bit patterns

    Go's addition, subtraction, multiplication and division of float64 and its conversion from
    integers are the binary64 operations of IEEE 754, rounding to nearest even; they are the ones of the Standard
    Library's [SpecFloat]. Between whole numbers below [2^53] sums are exact, which is proved here
    because the counts of a sketch are such numbers. *)

From Stdlib Require Import ZArith Lia SpecFloat.
From stdpp Require Import base numbers list.
From S2P Require Import Prelude Gofloat.

Definition F64 (a : Z) : spec_float :=
  let s := 2 ^ 63 <=? a in
  let e := fmag a / 2 ^ 52 in
  let f := fmag a mod 2 ^ 52 in
  if e =? 2047 then (if f =? 0 then S754_infinity s else S754_nan)
  else match (if e =? 0 then f else 2 ^ 52 + f) with
       | Zpos m => S754_finite s m (if e =? 0 then -1074 else e - 1075)
       | _ => S754_zero s
       end.

Definition NaN : Z := 0x7FF8000000000001.
Definition sign_bit (s : bool) : Z := if s then 2 ^ 63 else 0.
Definition Inf (s : bool) : Z := sign_bit s + 2047 * 2 ^ 52.
(** The 64 bits; [uint64] changes nothing on a binary64 number. *)
Definition bits_of (x : spec_float) : Z :=
  uint64 match x with
  | S754_zero s => sign_bit s
  | S754_infinity s => Inf s
  | S754_nan => NaN
  | S754_finite s m e => sign_bit s + (if Zpos m <? 2 ^ 52 then Zpos m else (e + 1075) * 2 ^ 52 + (Zpos m - 2 ^ 52))
  end.

Lemma bits_u64 x : is_u64 (bits_of x).
Proof. apply uint64_range. Qed.

Definition fadd (a b : Z) : Z := bits_of (SFadd 53 1024 (F64 a) (F64 b)).
Definition fsub (a b : Z) : Z := bits_of (SFsub 53 1024 (F64 a) (F64 b)).
Definition fmul (a b : Z) : Z := bits_of (SFmul 53 1024 (F64 a) (F64 b)).
Definition fdiv (a b : Z) : Z := bits_of (SFdiv 53 1024 (F64 a) (F64 b)).
Definition fneg (a : Z) : Z := Z.lxor a (2 ^ 63).
(** [float64(n)]. *)
Definition of_int (n : Z) : Z := bits_of (binary_normalize 53 1024 n 0 false).
Definition finite (a : Z) : bool := negb (isNaN a) && negb (isInf a).

(** ** Normalising an exact value *)

Definition digits (n : Z) : Z := Z.log2 n + 1.
Lemma digits_pos p : Zpos (digits2_pos p) = digits (Zpos p).
Proof.
  unfold digits. induction p as [p IH|p IH|]; cbn [digits2_pos]; [| |done]; rewrite Pos2Z.inj_succ, IH; [rewrite Pos2Z.inj_xI, Z.log2_succ_double|rewrite Pos2Z.inj_xO, Z.log2_double]; lia.
Qed.
Lemma digits_mul n k : 0 < n -> 0 <= k -> digits (n * 2 ^ k) = digits n + k.
Proof. intros Hn Hk. unfold digits. rewrite Z.log2_mul_pow2 by lia. lia. Qed.
Lemma digits_le n k : 0 < n -> 0 <= k -> digits n <= k <-> n < 2 ^ k.
Proof. intros Hn Hk. unfold digits. rewrite Z.log2_lt_pow2 by lia. lia. Qed.
Lemma digits_bounds n : 0 < n -> 1 <= digits n /\ 2 ^ (digits n - 1) <= n < 2 ^ digits n.
Proof. intros Hn. unfold digits. pose proof (Z.log2_spec n Hn). pose proof (Z.log2_nonneg n). rewrite <- Z.add_1_r in *. replace (Z.log2 n + 1 - 1) with (Z.log2 n) by lia. lia. Qed.

Lemma iter_pos_nat {A} (f : A -> A) n : forall x, SpecFloat.iter_pos f n x = Nat.iter (Pos.to_nat n) f x.
Proof.
  induction n as [n IH|n IH|]; intros x; cbn [SpecFloat.iter_pos]; [| |done]; rewrite !IH.
  - rewrite Pos2Nat.inj_xI, <- Nat.iter_succ_r, <- Nat.iter_add. f_equal. lia.
  - rewrite Pos2Nat.inj_xO, <- Nat.iter_add. f_equal. lia.
Qed.
Lemma shr_exact j : forall n, 0 < n -> Nat.iter j shr_1 (Build_shr_record (n * 2 ^ Z.of_nat j) false false) = Build_shr_record n false false.
Proof.
  induction j as [|j IH]; intros n Hn; [cbn [Nat.iter]; by rewrite Z.mul_1_r|]. rewrite Nat.iter_succ_r. rewrite <- (IH n Hn). f_equal. rewrite Nat2Z.inj_succ, Z.pow_succ_r by lia. replace (n * (2 * 2 ^ Z.of_nat j)) with (2 * (n * 2 ^ Z.of_nat j)) by ring.
  assert (0 < n * 2 ^ Z.of_nat j) by (pose proof (Z.pow_pos_nonneg 2 (Z.of_nat j)); nia). by destruct (n * 2 ^ Z.of_nat j).
Qed.
Lemma shl_exact m d : Zpos (Pos.iter xO m d) = Zpos m * 2 ^ Zpos d.
Proof. induction d as [|d IH] using Pos.peano_ind; [cbn; lia|]. rewrite Pos.iter_succ, Pos2Z.inj_xO, IH, Pos2Z.inj_succ, Z.pow_succ_r by lia. ring. Qed.

Lemma shr_fexp_exact n k e : 0 < n -> 0 <= k -> fexp 53 1024 (digits n + k + e) = e + k -> shr_fexp 53 1024 (n * 2 ^ k) e loc_Exact = (Build_shr_record n false false, e + k).
Proof.
  intros Hn Hk He. unfold shr_fexp. assert (Hp : 0 < n * 2 ^ k) by (pose proof (Z.pow_pos_nonneg 2 k); nia). assert (Hd : Zdigits2 (n * 2 ^ k) = digits n + k) by (destruct (n * 2 ^ k) as [|p|p] eqn:E; [lia| |lia]; cbn [Zdigits2]; rewrite digits_pos, <- E; by apply digits_mul). rewrite Hd, He. cbn [shr_record_of_loc]. replace (e + k - e) with k by lia.
  unfold shr. destruct k as [|p|p]; [rewrite Z.mul_1_r, Z.add_0_r; done| |lia]. rewrite iter_pos_nat. f_equal. rewrite <- (shr_exact (Pos.to_nat p) n Hn). do 3 f_equal. lia.
Qed.

(** The value [n * 2^q], given as [n * 2^k] times [2^(q-k)], becomes the float with a full mantissa. *)
Lemma normalize_exact n k q s : 0 < n < 2 ^ 53 -> 0 <= k -> -1021 <= digits n + q <= 1024 ->
  binary_normalize 53 1024 (n * 2 ^ k) (q - k) s = S754_finite false (Z.to_pos (n * 2 ^ (53 - digits n))) (q + digits n - 53).
Proof.
  intros [Hn Hlt] Hk Hq. destruct (digits_bounds n Hn) as [Hd1 Hdb]. assert (Hd : digits n <= 53) by (by apply digits_le). set (d := digits n) in *. assert (Hpk : 0 < n * 2 ^ k) by (pose proof (Z.pow_pos_nonneg 2 k); nia). assert (Hfull : 0 < n * 2 ^ (53 - d)) by (pose proof (Z.pow_pos_nonneg 2 (53 - d)); nia).
  assert (Hfexp : forall x, x = d + q -> fexp 53 1024 x = d + q - 53) by (intros x ->; unfold fexp, emin; lia).
  assert (Haux : forall M e, 0 < M -> (exists j, 0 <= j /\ M = (n * 2 ^ (53 - d)) * 2 ^ j /\ e = d + q - 53 - j) -> binary_round_aux 53 1024 false M e loc_Exact = S754_finite false (Z.to_pos (n * 2 ^ (53 - d))) (q + d - 53)).
  { intros M e HM (j & Hj & -> & ->). assert (Hdm : digits (n * 2 ^ (53 - d)) = 53) by (rewrite digits_mul by lia; fold d; lia). unfold binary_round_aux. rewrite (shr_fexp_exact _ j) by (try done; rewrite Hdm, (Hfexp (53 + j + (d + q - 53 - j))) by lia; lia). cbn [shr_m loc_of_shr_record round_nearest_even].
    replace (n * 2 ^ (53 - d)) with (n * 2 ^ (53 - d) * 2 ^ 0) at 1 by (rewrite Z.mul_1_r; done). rewrite (shr_fexp_exact _ 0) by (try done; rewrite Hdm, (Hfexp (53 + 0 + _)) by lia; lia). cbn [shr_m]. destruct (n * 2 ^ (53 - d)) as [|p|p] eqn:E; [lia| |lia]. rewrite (proj2 (Z.leb_le _ _)) by lia. cbn [Z.to_pos]. f_equal. lia. }
  destruct (n * 2 ^ k) as [|p|p] eqn:Ep; [lia| |lia]. cbn [binary_normalize]. unfold binary_round. assert (Hdp : Zpos (digits2_pos p) = d + k) by (rewrite digits_pos, <- Ep; by apply digits_mul). rewrite Hdp, (Hfexp (d + k + (q - k))) by lia. unfold shl_align. destruct (d + q - 53 - (q - k)) as [|r|r] eqn:Er.
  - apply Haux; [lia|]. exists 0. split_and!; [lia| |lia]. rewrite <- Ep, Z.mul_1_r. do 2 f_equal. lia.
  - apply Haux; [lia|]. exists (Zpos r). split_and!; [lia| |lia]. rewrite <- Ep, <- Z.mul_assoc, <- Z.pow_add_r by lia. do 2 f_equal. lia.
  - apply Haux; [lia|]. exists 0. split_and!; [lia| |lia]. rewrite shl_exact, <- Ep, Z.mul_1_r, <- Z.mul_assoc, <- Z.pow_add_r by lia. do 2 f_equal. lia.
Qed.

(** ** Whole numbers *)

Definition int_bits (n : Z) : Z := (digits n + 1022) * 2 ^ 52 + (n * 2 ^ (53 - digits n) - 2 ^ 52).

Lemma full_mantissa n : 0 < n < 2 ^ 53 -> 2 ^ 52 <= n * 2 ^ (53 - digits n) < 2 ^ 53.
Proof.
  intros [Hn Hlt]. destruct (digits_bounds n Hn) as [Hd1 [Hlo Hhi]]. assert (digits n <= 53) by (by apply digits_le). assert (0 < 2 ^ (53 - digits n)) by (apply Z.pow_pos_nonneg; lia).
  replace (2 ^ 52) with (2 ^ (digits n - 1) * 2 ^ (53 - digits n)) by (rewrite <- Z.pow_add_r by lia; f_equal; lia). replace (2 ^ 53) with (2 ^ digits n * 2 ^ (53 - digits n)) by (rewrite <- Z.pow_add_r by lia; f_equal; lia). nia.
Qed.

Lemma int_normalize n s : 0 < n < 2 ^ 53 -> binary_normalize 53 1024 n 0 s = S754_finite false (Z.to_pos (n * 2 ^ (53 - digits n))) (digits n - 53).
Proof.
  intros Hn. pose proof (digits_bounds n (proj1 Hn)) as [Hd _]. assert (digits n <= 53) by (apply digits_le; lia). pose proof (normalize_exact n 0 0 s Hn ltac:(lia) ltac:(lia)) as E. rewrite Z.mul_1_r in E. exact E.
Qed.
Lemma of_int_pos n : 0 < n < 2 ^ 53 -> of_int n = int_bits n.
Proof.
  intros Hn. unfold of_int. rewrite int_normalize by done. unfold bits_of. cbn [sign_bit]. pose proof (full_mantissa n Hn) as Hm. rewrite Z2Pos.id by lia. rewrite (proj2 (Z.ltb_ge _ _)) by lia. rewrite uint64_id; unfold int_bits; [lia|]. pose proof (digits_bounds n (proj1 Hn)) as [Hd _]. assert (digits n <= 53) by (apply digits_le; lia). unfold is_u64. lia.
Qed.
Lemma of_int_0 : of_int 0 = 0.
Proof. done. Qed.
Lemma int_bits_range n : 0 < n < 2 ^ 53 -> 1023 * 2 ^ 52 <= int_bits n < 1076 * 2 ^ 52.
Proof.
  intros Hn. pose proof (full_mantissa n Hn). pose proof (digits_bounds n (proj1 Hn)) as [Hd _]. assert (digits n <= 53) by (apply digits_le; lia). unfold int_bits. lia.
Qed.
Lemma fmag_small a : 0 <= a < 2 ^ 63 -> fmag a = a.
Proof. intros Ha. rewrite fmag_mod. by apply Z.mod_small. Qed.

Lemma F64_int n : 0 < n < 2 ^ 53 -> F64 (of_int n) = S754_finite false (Z.to_pos (n * 2 ^ (53 - digits n))) (digits n - 53).
Proof.
  intros Hn. rewrite of_int_pos by done. pose proof (int_bits_range n Hn) as Hr. pose proof (full_mantissa n Hn) as Hm. unfold F64. rewrite fmag_small by lia. rewrite (proj2 (Z.leb_gt _ _)) by lia.
  assert (He : int_bits n / 2 ^ 52 = digits n + 1022) by (unfold int_bits; symmetry; apply (Zdiv_unique _ _ _ (n * 2 ^ (53 - digits n) - 2 ^ 52)); lia). assert (Hf : int_bits n mod 2 ^ 52 = n * 2 ^ (53 - digits n) - 2 ^ 52) by (unfold int_bits; symmetry; apply (Zmod_unique _ _ (digits n + 1022)); lia).
  pose proof (digits_bounds n (proj1 Hn)) as [Hd _]. assert (digits n <= 53) by (apply digits_le; lia). rewrite He, Hf. rewrite (proj2 (Z.eqb_neq _ 2047)) by lia. rewrite (proj2 (Z.eqb_neq _ 0)) by lia. replace (2 ^ 52 + (n * 2 ^ (53 - digits n) - 2 ^ 52)) with (n * 2 ^ (53 - digits n)) by lia.
  destruct (n * 2 ^ (53 - digits n)) as [|p|p] eqn:E; [lia| |lia]. cbn [Z.to_pos]. f_equal. lia.
Qed.

Lemma align_int n ez : 0 < n < 2 ^ 53 -> ez <= digits n - 53 -> Zpos (fst (shl_align (Z.to_pos (n * 2 ^ (53 - digits n))) (digits n - 53) ez)) = n * 2 ^ (- ez).
Proof.
  intros Hn Hez. pose proof (full_mantissa n Hn). pose proof (digits_bounds n (proj1 Hn)) as [Hd _]. assert (digits n <= 53) by (apply digits_le; lia). unfold shl_align. destruct (ez - (digits n - 53)) as [|r|r] eqn:Er; cbn [fst]; [|lia|]; [|rewrite shl_exact]; rewrite Z2Pos.id by lia; [f_equal; f_equal; lia|]. rewrite <- Z.mul_assoc, <- Z.pow_add_r by lia. do 2 f_equal. lia.
Qed.

(** Adding whole numbers is exact. *)
Lemma fadd_int a b : 0 <= a -> 0 <= b -> a + b < 2 ^ 53 -> fadd (of_int a) (of_int b) = of_int (a + b).
Proof.
  intros Ha Hb Hlt. unfold fadd. destruct (decide (a = 0)) as [->|Ha0].
  { change (F64 (of_int 0)) with (S754_zero false). rewrite Z.add_0_l. destruct (decide (b = 0)) as [->|Hb0]; [done|]. unfold of_int at 2. rewrite int_normalize by lia. rewrite F64_int by lia. done. }
  destruct (decide (b = 0)) as [->|Hb0]; [change (F64 (of_int 0)) with (S754_zero false); rewrite Z.add_0_r; unfold of_int at 2; rewrite int_normalize by lia; rewrite F64_int by lia; done|].
  rewrite !F64_int by lia. cbn [SFadd cond_Zopp]. set (da := digits a). set (db := digits b). set (ez := Z.min (da - 53) (db - 53)).
  destruct (digits_bounds a ltac:(lia)) as [Hda _], (digits_bounds b ltac:(lia)) as [Hdb _]. assert (da <= 53) by (apply digits_le; lia). assert (db <= 53) by (apply digits_le; lia).
  rewrite !align_int by (unfold ez, da, db; lia). rewrite <- Z.mul_add_distr_r. pose proof (normalize_exact (a + b) (- ez) 0 false ltac:(lia) ltac:(unfold ez; lia)) as Hn. pose proof (digits_bounds (a + b) ltac:(lia)) as [Hds _]. assert (digits (a + b) <= 53) by (apply digits_le; lia).
  replace (0 - - ez) with ez in Hn by lia. rewrite Hn by lia. unfold of_int. by rewrite int_normalize by lia.
Qed.

(** Whole numbers are ordered as their floats. *)
Lemma int_bits_mono a b : 0 < a -> a < b -> b < 2 ^ 53 -> int_bits a < int_bits b.
Proof.
  intros Ha Hab Hb. pose proof (full_mantissa a ltac:(lia)). pose proof (full_mantissa b ltac:(lia)). assert (digits a <= digits b) by (unfold digits; pose proof (Z.log2_le_mono a b); lia). unfold int_bits in *. destruct (decide (digits a = digits b)) as [E|]; [|lia]. rewrite E in *. assert (0 < 2 ^ (53 - digits b)) by (apply Z.pow_pos_nonneg; [lia|]; assert (digits b <= 53) by (apply digits_le; lia); lia). nia.
Qed.
Lemma of_int_range n : 0 <= n < 2 ^ 53 -> 0 <= of_int n < 1076 * 2 ^ 52.
Proof. intros Hn. destruct (decide (n = 0)) as [->|]; [rewrite of_int_0; lia|]. rewrite of_int_pos by lia. pose proof (int_bits_range n). lia. Qed.
Lemma of_int_mono a b : 0 <= a -> a < b -> b < 2 ^ 53 -> of_int a < of_int b.
Proof. intros Ha Hab Hb. destruct (decide (a = 0)) as [->|]; [rewrite of_int_0, of_int_pos by lia; pose proof (int_bits_range b); lia|]. rewrite !of_int_pos by lia. apply int_bits_mono; lia. Qed.
Lemma of_int_inj a b : 0 <= a < 2 ^ 53 -> 0 <= b < 2 ^ 53 -> of_int a = of_int b -> a = b.
Proof. intros Ha Hb E. destruct (Z.lt_trichotomy a b) as [H|[H|H]]; [|done|]; apply of_int_mono in H; lia. Qed.
Lemma fval_int n : 0 <= n < 2 ^ 53 -> fval (of_int n) = of_int n.
Proof. intros Hn. pose proof (of_int_range n Hn). unfold fval. rewrite (proj2 (Z.leb_gt _ _)) by lia. apply fmag_small. lia. Qed.
Lemma int_finite n : 0 <= n < 2 ^ 53 -> isNaN (of_int n) = false /\ isInf (of_int n) = false.
Proof. intros Hn. pose proof (of_int_range n Hn). unfold isNaN, isInf. rewrite fmag_small by lia. rewrite Z.ltb_ge, Z.eqb_neq. lia. Qed.
Lemma flt_int a b : 0 <= a < 2 ^ 53 -> 0 <= b < 2 ^ 53 -> flt (of_int a) (of_int b) = (a <? b).
Proof.
  intros Ha Hb. unfold flt. rewrite (proj1 (int_finite a Ha)), (proj1 (int_finite b Hb)), !fval_int by done. cbn [negb andb]. destruct (Z.ltb_spec a b); [rewrite Z.ltb_lt; apply of_int_mono; lia|]. rewrite Z.ltb_ge. destruct (decide (a = b)) as [->|]; [done|]. apply Z.lt_le_incl, of_int_mono; lia.
Qed.
Lemma feq_int_0 n : 0 <= n < 2 ^ 53 -> feq (of_int n) 0 = (n =? 0).
Proof.
  intros Hn. pose proof (of_int_range n Hn). rewrite feq_fval; [|unfold is_u64; lia|unfold is_u64; lia|exact (proj1 (int_finite n Hn))|reflexivity]. rewrite (fval_int n Hn). change (fval 0) with 0. destruct (Z.eqb_spec n 0) as [->|Hne]; [done|]. apply Z.eqb_neq. pose proof (of_int_mono 0 n). rewrite of_int_0 in *. lia.
Qed.

(** ** Numbers that are not negative *)

Lemma shr_1_div mrs : 0 <= shr_m mrs -> shr_m (shr_1 mrs) = shr_m mrs / 2.
Proof. destruct mrs as [m r s]. cbn [shr_m]. intros Hm. destruct m as [|[p|p|]|p]; [done| | |done|lia]; cbn [shr_1 shr_m]; [apply (Zdiv_unique _ _ _ 1)|apply (Zdiv_unique _ _ _ 0)]; lia. Qed.
Lemma shr_iter_div n : forall mrs, 0 <= shr_m mrs -> shr_m (Nat.iter n shr_1 mrs) = shr_m mrs / 2 ^ Z.of_nat n.
Proof.
  induction n as [|n IH]; intros mrs Hm; [by rewrite Z.div_1_r|]. rewrite Nat.iter_succ_r, IH; rewrite shr_1_div by done; [|apply Z.div_pos; lia]. rewrite Z.div_div by (try lia; apply Z.pow_pos_nonneg; lia). f_equal. rewrite Nat2Z.inj_succ, Z.pow_succ_r by lia. done.
Qed.
Lemma shr_fexp_div m e l : 0 <= m -> let '(mrs, e') := shr_fexp 53 1024 m e l in e' = Z.max e (fexp 53 1024 (Zdigits2 m + e)) /\ shr_m mrs = m / 2 ^ (e' - e).
Proof.
  intros Hm. unfold shr_fexp. assert (Hrec : shr_m (shr_record_of_loc m l) = m) by (by destruct l as [|[]]). unfold shr. destruct (fexp 53 1024 (Zdigits2 m + e) - e) as [|p|p] eqn:E.
  - rewrite Hrec, Z.sub_diag, Z.div_1_r. split; [lia|done].
  - rewrite iter_pos_nat, shr_iter_div, Hrec by (by rewrite Hrec). split; [lia|]. f_equal. f_equal. lia.
  - rewrite Hrec, Z.sub_diag, Z.div_1_r. split; [lia|done].
Qed.
Lemma Zdigits2_digits m : 0 < m -> Zdigits2 m = digits m.
Proof. destruct m; intros Hm; [lia|apply digits_pos|lia]. Qed.

(** A number with a clear sign, in the format's range. *)
Definition plus (x : spec_float) : Prop :=
  match x with
  | S754_zero s | S754_infinity s => s = false
  | S754_finite s m e => s = false /\ Zpos m < 2 ^ 53 /\ -1074 <= e <= 971
  | S754_nan => True
  end.
Lemma round_plus M e l : 0 < M -> plus (binary_round_aux 53 1024 false M e l).
Proof.
  intros HM. unfold binary_round_aux. pose proof (shr_fexp_div M e l ltac:(lia)) as H1. destruct (shr_fexp 53 1024 M e l) as [mrs e']. destruct H1 as [He1 H1]. assert (Hm1 : 0 <= shr_m mrs) by (rewrite H1; apply Z.div_pos; [lia|]; apply Z.pow_pos_nonneg; lia). set (R := round_nearest_even _ _).
  assert (HR : 0 <= R) by (unfold R, round_nearest_even; destruct (loc_of_shr_record mrs) as [|[]]; [lia|destruct (Z.even _); lia|lia|lia]). pose proof (shr_fexp_div R e' loc_Exact HR) as H2. destruct (shr_fexp 53 1024 R e' loc_Exact) as [mrs2 e2]. destruct H2 as [He2 H2]. destruct (shr_m mrs2) as [|m|m] eqn:Em; [done| |done]. destruct (Z.leb_spec e2 (1024 - 53)); [|done]. assert (HR0 : 0 < R) by (destruct (decide (R = 0)) as [E|]; [rewrite E, Zdiv_0_l in H2; lia|lia]). rewrite (Zdigits2_digits R HR0) in He2. unfold fexp, emin in He2. destruct (digits_bounds R HR0) as [Hd Hb]. split; [done|]. split; [|lia]. rewrite H2.
  assert (Hsh : digits R - 53 <= e2 - e') by lia. destruct (Z.le_gt_cases (digits R) 53).
  - assert (R < 2 ^ 53) by (by apply digits_le). apply Z.le_lt_trans with R; [|done]. apply Z.div_le_upper_bound; [apply Z.pow_pos_nonneg; lia|]. assert (1 <= 2 ^ (e2 - e')) by (apply (Z.pow_le_mono_r 2 0); lia). nia.
  - apply Z.div_lt_upper_bound; [apply Z.pow_pos_nonneg; lia|]. rewrite <- Z.pow_add_r by lia. apply Z.lt_le_trans with (2 ^ digits R); [lia|]. apply Z.pow_le_mono_r; lia.
Qed.
Lemma normalize_plus n e : 0 < n -> plus (binary_normalize 53 1024 n e false).
Proof. intros Hn. destruct n as [|p|p]; [lia| |lia]. cbn [binary_normalize]. unfold binary_round. destruct (shl_align _ _ _) as [mz ez]. by apply round_plus. Qed.
Lemma mul_plus x y : plus x -> plus y -> plus (SFmul 53 1024 x y).
Proof. destruct x as [s|s| |s m e], y as [t|t| |t n f]; cbn [plus SFmul]; try done; try (by intros -> ->); try (by intros (-> & _) ->); try (by intros -> (-> & _)). intros (-> & _) (-> & _). by apply round_plus. Qed.
Lemma add_plus x y : plus x -> plus y -> plus (SFadd 53 1024 x y).
Proof.
  destruct x as [s|s| |s m e], y as [t|t| |t n f]; cbn [plus SFadd]; try done; try (by intros -> ->). intros (-> & _) (-> & _). cbn [cond_Zopp]. apply normalize_plus. lia.
Qed.
Lemma F64_plus a : 0 <= a < 2 ^ 63 -> plus (F64 a).
Proof.
  intros Ha. unfold F64. rewrite fmag_small by done. rewrite (proj2 (Z.leb_gt _ _)) by lia. pose proof (Z.mod_pos_bound a (2 ^ 52) ltac:(lia)) as Hm. assert (He : 0 <= a / 2 ^ 52 < 2048) by (split; [apply Z.div_pos; lia|apply Z.div_lt_upper_bound; lia]). destruct (Z.eqb_spec (a / 2 ^ 52) 2047); [by destruct (_ =? 0)|]. destruct (Z.eqb_spec (a / 2 ^ 52) 0).
  - destruct (a mod 2 ^ 52) as [|m|m]; try done. cbn [plus]. lia.
  - destruct (2 ^ 52 + a mod 2 ^ 52) as [|m|m] eqn:E; try done. cbn [plus]. lia.
Qed.
Lemma plus_bits x : plus x -> isNaN (bits_of x) = true \/ 0 <= bits_of x < 2 ^ 63.
Proof.
  destruct x as [s|s| |s m e]; cbn [plus]; [intros ->; right; by cbn|intros ->; right; by cbn|by left|]. intros (-> & Hm & He). right. unfold bits_of. cbn [sign_bit]. destruct (Z.ltb_spec (Zpos m) (2 ^ 52)); rewrite uint64_id; unfold is_u64; lia.
Qed.
Lemma plus_nonneg x : plus x -> flt (bits_of x) 0 = false.
Proof.
  intros [Hn|Hr]%plus_bits; unfold flt; [by rewrite Hn|]. destruct (isNaN (bits_of x)); [done|]. change (isNaN 0) with false. change (fval 0) with 0. cbn [negb andb]. apply Z.ltb_ge. unfold fval. rewrite (proj2 (Z.leb_gt _ _)) by lia. rewrite fmag_small by lia. lia.
Qed.
(** Subtracting a number from itself. *)
Lemma fsub_same n : 0 <= n < 2 ^ 53 -> fsub (of_int n) (of_int n) = 0.
Proof.
  intros Hn. unfold fsub. destruct (decide (n = 0)) as [->|]; [done|]. rewrite F64_int by lia. cbn [SFsub]. by rewrite Z.sub_diag.
Qed.
Lemma fsub_int a b : 0 <= b <= a -> a < 2 ^ 53 -> fsub (of_int a) (of_int b) = of_int (a - b).
Proof.
  intros Hb Ha. destruct (decide (a = b)) as [->|Hne]; [rewrite fsub_same, Z.sub_diag by lia; done|]. unfold fsub. destruct (decide (b = 0)) as [->|Hb0]; [change (F64 (of_int 0)) with (S754_zero false); rewrite Z.sub_0_r; unfold of_int at 2; rewrite int_normalize by lia; rewrite F64_int by lia; done|].
  rewrite !F64_int by lia. cbn [SFsub cond_Zopp]. set (da := digits a). set (db := digits b). set (ez := Z.min (da - 53) (db - 53)).
  destruct (digits_bounds a ltac:(lia)) as [Hda _], (digits_bounds b ltac:(lia)) as [Hdb _]. assert (da <= 53) by (apply digits_le; lia). assert (db <= 53) by (apply digits_le; lia). rewrite !align_int by (unfold ez, da, db; lia). rewrite <- Z.mul_sub_distr_r. pose proof (normalize_exact (a - b) (- ez) 0 false ltac:(lia) ltac:(unfold ez; lia)) as Hn. pose proof (digits_bounds (a - b) ltac:(lia)) as [Hds _]. assert (digits (a - b) <= 53) by (apply digits_le; lia).
  replace (0 - - ez) with ez in Hn by lia. rewrite Hn by lia. unfold of_int. by rewrite int_normalize by lia.
Qed.

(** ** A part of a whole number *)

(** The mantissa and exponent of a positive number. *)
Lemma F64_pos c : 0 < c < 2047 * 2 ^ 52 -> exists m e, F64 c = S754_finite false m e /\
  ((2 ^ 52 <= Zpos m < 2 ^ 53 /\ c = (e + 1075) * 2 ^ 52 + (Zpos m - 2 ^ 52) /\ -1074 <= e <= 971) \/ (Zpos m < 2 ^ 52 /\ e = -1074)).
Proof.
  intros Hc. unfold F64. rewrite fmag_small by lia. rewrite (proj2 (Z.leb_gt _ _)) by lia. pose proof (Z.div_mod c (2 ^ 52) ltac:(lia)) as Hdm. pose proof (Z.mod_pos_bound c (2 ^ 52) ltac:(lia)) as Hmod. assert (He : 0 <= c / 2 ^ 52 < 2047) by (split; [apply Z.div_pos; lia|apply Z.div_lt_upper_bound; lia]). set (e := c / 2 ^ 52) in *. set (f := c mod 2 ^ 52) in *. rewrite (proj2 (Z.eqb_neq e 2047)) by lia. destruct (Z.eqb_spec e 0) as [E0|E0].
  - destruct f as [|m|m] eqn:Ef; [lia| |lia]. exists m, (-1074). split; [done|]. right. lia.
  - destruct (2 ^ 52 + f) as [|m|m] eqn:Ef; [lia| |lia]. exists m, (e - 1075). split; [done|]. left. lia.
Qed.
Lemma digits_full n : 2 ^ 52 <= n < 2 ^ 53 -> digits n = 53.
Proof. intros Hn. unfold digits. assert (Z.log2 n = 52) as ->; [|done]. apply Z.log2_unique; lia. Qed.

(** Rounding an exact value below a whole number does not exceed it. *)
Lemma round_below P E n : 0 < P -> E <= 0 -> 0 < n < 2 ^ 53 -> P < n * 2 ^ (- E) ->
  match binary_round_aux 53 1024 false P E loc_Exact with S754_finite _ m e => Zpos m * 2 ^ (e + 1074) <= n * 2 ^ 1074 | S754_zero _ => True | _ => False end.
Proof.
  intros HP HE Hn Hlt. pose proof (round_plus P E loc_Exact HP) as Hplus. unfold binary_round_aux in *. pose proof (shr_fexp_div P E loc_Exact ltac:(lia)) as H1. destruct (shr_fexp 53 1024 P E loc_Exact) as [mrs e']. destruct H1 as [He1 H1]. assert (HpE : 0 < 2 ^ (- E)) by (apply Z.pow_pos_nonneg; lia).
  assert (HdP : digits P + E <= 53) by (assert (P < 2 ^ (53 - E)) by (replace (53 - E) with (53 + - E) by lia; rewrite Z.pow_add_r by lia; nia); assert (digits P <= 53 - E) by (apply digits_le; lia); lia).
  rewrite (Zdigits2_digits P) in He1 by lia. unfold fexp, emin in He1. assert (He' : e' <= 0) by lia. assert (Hpe : 0 < 2 ^ (e' - E)) by (apply Z.pow_pos_nonneg; lia). set (K := n * 2 ^ (- e')). assert (HmK : shr_m mrs < K).
  { rewrite H1. apply Z.div_lt_upper_bound; [done|]. unfold K. replace (2 ^ (e' - E) * (n * 2 ^ (- e'))) with (n * (2 ^ (e' - E) * 2 ^ (- e'))) by ring. rewrite <- Z.pow_add_r by lia. replace (e' - E + - e') with (- E) by lia. done. }
  assert (Hm0 : 0 <= shr_m mrs) by (rewrite H1; apply Z.div_pos; lia). set (R := round_nearest_even _ _) in *. assert (HR : 0 <= R <= K) by (unfold R, round_nearest_even; destruct (loc_of_shr_record mrs) as [|[]]; [lia|destruct (Z.even _); lia|lia|lia]).
  pose proof (shr_fexp_div R e' loc_Exact ltac:(lia)) as H2. destruct (shr_fexp 53 1024 R e' loc_Exact) as [mrs2 e2]. destruct H2 as [He2 H2]. assert (Hp2 : 0 < 2 ^ (e2 - e')) by (apply Z.pow_pos_nonneg; lia). destruct (shr_m mrs2) as [|m2|m2] eqn:Em; [done| |assert (0 <= R / 2 ^ (e2 - e')) by (apply Z.div_pos; lia); lia].
  assert (HR0 : 0 < R) by (destruct (decide (R = 0)) as [E0|]; [rewrite E0, Zdiv_0_l in H2; lia|lia]). rewrite (Zdigits2_digits R HR0) in He2. unfold fexp, emin in He2. pose proof (Z.mul_div_le R (2 ^ (e2 - e')) Hp2) as Hval. rewrite <- H2 in Hval.
  assert (HdK : digits R <= 53 - e') by (apply digits_le; [done|lia|]; apply Z.le_lt_trans with K; [lia|]; unfold K; replace (53 - e') with (53 + - e') by lia; rewrite Z.pow_add_r by lia; assert (0 < 2 ^ (- e')) by (apply Z.pow_pos_nonneg; lia); nia).
  rewrite (proj2 (Z.leb_le e2 _)) in * by lia. destruct Hplus as (_ & _ & He2r). replace (e2 + 1074) with (e2 - e' + (e' + 1074)) by lia. assert (He1074 : -1074 <= e') by lia. rewrite Z.pow_add_r by lia. apply Z.le_trans with (K * 2 ^ (e' + 1074)); [assert (0 < 2 ^ (e' + 1074)) by (apply Z.pow_pos_nonneg; lia); nia|]. unfold K. rewrite <- Z.mul_assoc, <- Z.pow_add_r by lia. replace (- e' + (e' + 1074)) with 1074 by lia. done.
Qed.
Lemma bits_below m e n : plus (S754_finite false m e) -> 0 < n < 2 ^ 53 -> Zpos m * 2 ^ (e + 1074) <= n * 2 ^ 1074 -> 0 <= bits_of (S754_finite false m e) <= of_int n.
Proof.
  intros (_ & Hm & He) Hn Hval. rewrite of_int_pos by done. pose proof (int_bits_range n Hn) as Hib. pose proof (full_mantissa n Hn) as HM. destruct (digits_bounds n ltac:(lia)) as [Hd _]. assert (Hd53 : digits n <= 53) by (apply digits_le; lia). unfold bits_of. cbn [sign_bit]. destruct (Z.ltb_spec (Zpos m) (2 ^ 52)) as [Hs|Hs]; rewrite uint64_id by (unfold is_u64; lia); [lia|]. split; [lia|]. unfold int_bits in *. set (M := n * 2 ^ (53 - digits n)) in *.
  assert (Hn2 : n * 2 ^ 1074 = M * 2 ^ (digits n - 53 + 1074)) by (unfold M; rewrite <- Z.mul_assoc, <- Z.pow_add_r by lia; do 2 f_equal; lia). rewrite Hn2 in Hval. destruct (Z.lt_trichotomy e (digits n - 53)) as [Hlt|[->|Hgt]].
  - nia.
  - assert (0 < 2 ^ (digits n - 53 + 1074)) by (apply Z.pow_pos_nonneg; lia). assert (Zpos m <= M) by nia. lia.
  - exfalso. assert (Hp : 0 < 2 ^ (digits n - 53 + 1074)) by (apply Z.pow_pos_nonneg; lia). assert (H2 : 2 * 2 ^ (digits n - 53 + 1074) <= 2 ^ (e + 1074)) by (rewrite <- Z.pow_succ_r by lia; apply Z.pow_le_mono_r; lia). nia.
Qed.
(** The product of a proper fraction and a whole number does not round above that number. *)
Lemma fmul_fraction q n : 0 < q < of_int 1 -> 0 <= n < 2 ^ 53 -> 0 <= fmul q (of_int n) <= of_int n.
Proof.
  change (of_int 1) with (1023 * 2 ^ 52). intros Hq Hn. destruct (F64_pos q ltac:(lia)) as (m & e & EF & Hcase). assert (He : e < 0 /\ Zpos m < 2 ^ (- e)).
  { destruct Hcase as [(Hm & Hqe & Hr)|[Hm ->]]; [|split; [lia|]; apply Z.lt_le_trans with (2 ^ 52); [done|apply Z.pow_le_mono_r; lia]]. assert (e <= -53) by lia. split; [lia|]. apply Z.lt_le_trans with (2 ^ 53); [lia|]. apply Z.pow_le_mono_r; lia. }
  destruct He as [He Hfrac]. unfold fmul. rewrite EF. destruct (decide (n = 0)) as [->|Hn0]; [change (F64 (of_int 0)) with (S754_zero false); rewrite of_int_0; done|]. assert (Hn' : 0 < n < 2 ^ 53) by lia. rewrite F64_int by done. pose proof (full_mantissa n Hn') as HM. destruct (digits_bounds n ltac:(lia)) as [Hd _]. assert (Hd53 : digits n <= 53) by (apply digits_le; lia). cbn [SFmul xorb]. rewrite Pos2Z.inj_mul, Z2Pos.id by lia.
  assert (HP : Zpos m * (n * 2 ^ (53 - digits n)) < n * 2 ^ (- (e + (digits n - 53)))) by (replace (- (e + (digits n - 53))) with (- e + (53 - digits n)) by lia; rewrite Z.pow_add_r by lia; assert (0 < 2 ^ (53 - digits n)) by (apply Z.pow_pos_nonneg; lia); nia).
  assert (HP0 : 0 < Zpos m * (n * 2 ^ (53 - digits n))) by (apply Z.mul_pos_pos; lia). assert (HE : e + (digits n - 53) <= 0) by lia. pose proof (round_below _ _ n HP0 HE Hn' HP) as Hb. pose proof (round_plus _ (e + (digits n - 53)) loc_Exact HP0) as Hplus. pose proof (of_int_range n Hn). destruct (binary_round_aux _ _ _ _ _ _) as [s|s| |s m2 e2]; [|done|done|].
  - cbn [plus] in Hplus. subst s. change (bits_of (S754_zero false)) with 0. lia.
  - pose proof Hplus as [-> _]. by apply bits_below.
Qed.
Lemma F64_NaN a : isNaN a = true -> F64 a = S754_nan.
Proof.
  unfold isNaN. change 9218868437227405312 with (2047 * 2 ^ 52). intros Ha%Z.ltb_lt. assert (Hm : fmag a < 2 ^ 63) by (rewrite fmag_mod; apply Z.mod_pos_bound; lia). unfold F64. assert (He : fmag a / 2 ^ 52 = 2047) by (symmetry; apply (Zdiv_unique _ _ _ (fmag a - 2047 * 2 ^ 52)); lia). rewrite He, Z.eqb_refl. assert (Hf : fmag a mod 2 ^ 52 = fmag a - 2047 * 2 ^ 52) by (symmetry; apply (Zmod_unique _ _ 2047); lia). rewrite Hf, (proj2 (Z.eqb_neq _ 0)) by lia. done.
Qed.
(** A tolerance, the product of two numbers and a third, is not negative. *)
Lemma tolerance_nonneg a b c : 0 <= a < 2 ^ 63 -> 0 <= b < 2 ^ 63 -> 0 <= c < 2 ^ 63 -> flt (fadd (fmul a b) c) 0 = false.
Proof.
  intros Ha Hb Hc. apply plus_nonneg, add_plus; [|by apply F64_plus]. destruct (plus_bits _ (mul_plus _ _ (F64_plus a Ha) (F64_plus b Hb))) as [Hn|Hr]; [by rewrite F64_NaN|by apply F64_plus].
Qed.
