(* ===== verification/Gostring.v ===== *)
(** * Go strings

    A Go string is its bytes, a [list Z].  The standard library's operations the
    sources use on them: comparison, search, sorting and compaction. *)

From Stdlib Require Import ZArith Lia String Ascii.
From stdpp Require Import base sorting numbers list.
From S2P Require Import Prelude.

Abbreviation gostring := (list Z).

(** String literals. *)
Definition str (s : string) : gostring :=
  (fun a => Z.of_N (N_of_ascii a)) <$> list_ascii_of_string s.
Arguments str s%_string_scope.

Abbreviation c_colon := 58.
Abbreviation c_comma := 44.
Abbreviation c_newline := 10.
Abbreviation c_pipe := 124.
Abbreviation c_slash := 47.
Abbreviation c_star := 42.
Abbreviation c_backslash := 92.
Abbreviation c_question := 63.
Abbreviation c_lbracket := 91.
Abbreviation c_underscore := 95.

(** ** Comparison: [strings.Compare], [cmp.Compare] and [<] on strings *)

Fixpoint strcmp (a b : gostring) : comparison :=
  match a, b with
  | [], [] => Eq
  | [], _ :: _ => Lt
  | _ :: _, [] => Gt
  | x :: a', y :: b' => match x ?= y with Eq => strcmp a' b' | c => c end
  end.

Definition str_le (a b : gostring) : Prop := strcmp a b <> Gt.
Definition str_lt (a b : gostring) : Prop := strcmp a b = Lt.
#[export] Instance str_le_dec : RelDecision str_le.
Proof. intros a b. unfold str_le. destruct (strcmp a b); [left|left|right]; congruence. Defined.
#[export] Instance str_lt_dec : RelDecision str_lt.
Proof. intros a b. unfold str_lt. destruct (strcmp a b); [right|left|right]; congruence. Defined.

Lemma strcmp_eq a b : strcmp a b = Eq <-> a = b.
Proof.
  revert b. induction a as [|x a IH]; intros [|y b]; cbn [strcmp]; try done.
  destruct (Z.compare_spec x y) as [->|H|H]; [|split; [done|intros [= -> _]; lia]..].
  rewrite IH. split; [by intros ->|by intros [=]].
Qed.

Lemma strcmp_refl a : strcmp a a = Eq.
Proof. by apply strcmp_eq. Qed.

Lemma strcmp_antisym a b : strcmp b a = CompOpp (strcmp a b).
Proof.
  revert b. induction a as [|x a IH]; intros [|y b]; cbn [strcmp]; try done.
  rewrite (Z.compare_antisym x y). destruct (x ?= y); cbn; auto.
Qed.

Lemma strcmp_trans c a b d : strcmp a b = c -> strcmp b d = c -> strcmp a d = c.
Proof.
  revert b d. induction a as [|x a IH]; intros [|y b] [|z d]; cbn [strcmp]; try congruence.
  destruct (Z.compare_spec x y), (Z.compare_spec y z), (Z.compare_spec x z); subst; try congruence; try lia.
  apply IH.
Qed.

#[export] Instance str_le_total : Total str_le.
Proof. intros a b. unfold str_le. rewrite (strcmp_antisym a b). destruct (strcmp a b); cbn; auto. Qed.
#[export] Instance str_le_antisymm : AntiSymm (=) str_le.
Proof.
  intros a b. unfold str_le. rewrite (strcmp_antisym a b).
  destruct (strcmp a b) eqn:E; cbn; [by apply strcmp_eq in E|congruence..].
Qed.
#[export] Instance str_le_trans : Transitive str_le.
Proof.
  intros a b d. unfold str_le. intros H1 H2.
  destruct (strcmp a b) eqn:E1; [apply strcmp_eq in E1 as ->; done| |done].
  destruct (strcmp b d) eqn:E2; [apply strcmp_eq in E2 as <-; congruence| |done].
  by rewrite (strcmp_trans Lt a b d).
Qed.
#[export] Instance str_lt_trans : Transitive str_lt.
Proof. intros a b d. apply strcmp_trans. Qed.
#[export] Instance str_lt_irrefl : Irreflexive str_lt.
Proof. intros a. unfold complement, str_lt. by rewrite strcmp_refl. Qed.

Lemma str_lt_le a b : str_lt a b -> str_le a b.
Proof. unfold str_lt, str_le. by intros ->. Qed.
Lemma str_le_lt a b : str_le a b -> a <> b -> str_lt a b.
Proof.
  unfold str_lt, str_le. intros H Hne. destruct (strcmp a b) eqn:E; [|done|done].
  by apply strcmp_eq in E.
Qed.
Lemma str_not_le a b : ~ str_le a b -> str_lt b a.
Proof.
  intros H. apply str_le_lt; [destruct (str_le_total a b); done|].
  intros ->. apply H. unfold str_le. by rewrite strcmp_refl.
Qed.

(** ** [slices.Compact] on a sorted slice *)

Fixpoint Compact {A} `{EqDecision A} (l : list A) : list A :=
  match l with
  | [] => []
  | a :: rest =>
      match Compact rest with
      | (b :: _) as r => if decide (a = b) then r else a :: r
      | [] => [a]
      end
  end.

Section Sorted_sets.
Context {A : Type} `{EqDecision A} (R : relation A) `{!RelDecision R}.
Context `{!Total R, !AntiSymm (=) R, !Transitive R}.

Definition strict (a b : A) : Prop := R a b /\ a <> b.

Lemma elem_of_Compact (l : list A) x : x ∈ Compact l <-> x ∈ l.
Proof.
  induction l as [|a l IH]; cbn [Compact]; [done|].
  destruct (Compact l) as [|b r] eqn:E.
  - by rewrite !elem_of_cons, <- IH.
  - case_decide as Hd; [subst b|]; rewrite (elem_of_cons l), <- IH, !elem_of_cons; tauto.
Qed.

Lemma Compact_strict (l : list A) : StronglySorted R l -> StronglySorted strict (Compact l).
Proof.
  induction 1 as [|a l Hs IH Ha]; cbn [Compact]; [constructor|].
  assert (Hc : Forall (R a) (Compact l)).
  { apply Forall_forall. intros x Hx. rewrite elem_of_Compact in Hx. by eapply Forall_forall in Ha. }
  destruct (Compact l) as [|b r] eqn:E; [repeat constructor|].
  case_decide as Hd; [done|]. constructor; [done|].
  apply StronglySorted_inv in IH as [_ Hb]. apply Forall_cons_1 in Hc as [Hab Har].
  constructor; [by split|]. rewrite Forall_forall in *. intros x Hx. split; [by apply Har|].
  intros ->. destruct (Hb x Hx) as [Hbx Hne]. apply Hne. by apply (anti_symm R).
Qed.

Lemma strict_sorted_unique l1 l2 : StronglySorted strict l1 -> StronglySorted strict l2 ->
  (forall x, x ∈ l1 <-> x ∈ l2) -> l1 = l2.
Proof.
  intros H1. revert l2. induction H1 as [|a l1 Hs1 IH Ha]; intros l2 H2 Heq.
  - destruct l2 as [|b l2]; [done|]. exfalso.
    assert (b ∈ []) as Hb by (apply Heq; by left). by apply not_elem_of_nil in Hb.
  - destruct H2 as [|b l2 Hs2 Hb].
    { exfalso. assert (a ∈ []) as Ha' by (apply Heq; by left). by apply not_elem_of_nil in Ha'. }
    rewrite Forall_forall in Ha, Hb.
    assert (a = b) as ->.
    { assert (Hab : a ∈ b :: l2) by (apply Heq; by left). apply elem_of_cons in Hab as [|Hab]; [done|].
      assert (Hba : b ∈ a :: l1) by (apply Heq; by left). apply elem_of_cons in Hba as [|Hba]; [done|].
      apply (anti_symm R); [by apply Ha|by apply Hb]. }
    f_equal. apply IH; [done|]. intros x. specialize (Heq x). rewrite !elem_of_cons in Heq.
    split; intros Hx.
    + destruct (proj1 Heq (or_intror Hx)) as [->|]; [|done]. by destruct (Ha b Hx).
    + destruct (proj2 Heq (or_intror Hx)) as [->|]; [|done]. by destruct (Hb b Hx).
Qed.

(** Sorting and compacting: one list per set of elements. *)
Definition canonical (l : list A) : list A := Compact (merge_sort R l).

Lemma elem_of_canonical l x : x ∈ canonical l <-> x ∈ l.
Proof. unfold canonical. by rewrite elem_of_Compact, (merge_sort_Permutation _ _). Qed.

Lemma canonical_strict l : StronglySorted strict (canonical l).
Proof. apply Compact_strict, (StronglySorted_merge_sort _). Qed.

Lemma canonical_ext l1 l2 : (forall x, x ∈ l1 <-> x ∈ l2) -> canonical l1 = canonical l2.
Proof.
  intros H. apply strict_sorted_unique; [apply canonical_strict..|].
  intros x. by rewrite !elem_of_canonical.
Qed.

Lemma canonical_sorted l : StronglySorted strict l -> canonical l = l.
Proof.
  intros Hs. apply strict_sorted_unique; [apply canonical_strict|done|]. apply elem_of_canonical.
Qed.
End Sorted_sets.

(** ** Search *)

(** [strings.IndexByte], as the split it is used for. *)
Fixpoint split_at (c : Z) (s : gostring) : option (gostring * gostring) :=
  match s with
  | [] => None
  | x :: s' => if x =? c then Some ([], s')
               else match split_at c s' with Some (a, b) => Some (x :: a, b) | None => None end
  end.

Lemma split_at_app c a b : c ∉ a -> split_at c (a ++ c :: b) = Some (a, b).
Proof.
  induction a as [|x a IH]; intros Hc; cbn [app split_at]; [by rewrite Z.eqb_refl|].
  apply not_elem_of_cons in Hc as [Hx Hc]. rewrite (proj2 (Z.eqb_neq x c)) by congruence.
  by rewrite IH.
Qed.

Lemma split_at_none c s : split_at c s = None <-> c ∉ s.
Proof.
  induction s as [|x s IH]; cbn [split_at]; [split; [intros _; apply not_elem_of_nil|done]|].
  rewrite not_elem_of_cons, <- IH. destruct (Z.eqb_spec x c) as [->|Hne]; [naive_solver|].
  destruct (split_at c s) as [[]|]; naive_solver.
Qed.

Lemma split_at_some c s a b : split_at c s = Some (a, b) -> s = a ++ c :: b /\ c ∉ a.
Proof.
  revert a b. induction s as [|x s IH]; intros a b; cbn [split_at]; [done|].
  destruct (Z.eqb_spec x c) as [->|Hne]; [intros [= <- <-]; split; [done|apply not_elem_of_nil]|].
  destruct (split_at c s) as [[a' b']|]; [|done]. intros [= <- <-].
  destruct (IH a' b' eq_refl) as [-> Hc]. split; [done|]. apply not_elem_of_cons. split; congruence.
Qed.
