(* ===== verification/Names.v ===== *)
(** * Metric names and tags on the wire (pkg/wire/names.go)

    What a metric name and a tag may look like, and how a sloppy one is
    repaired.  These rules are what makes a series' key string an identity. *)

From Stdlib Require Import ZArith Lia.
From stdpp Require Import base sorting numbers list.
From S2P Require Import Prelude Gostring.

(** ** Characters *)

Definition MaxMetricNameLen : Z := 200.
Definition MaxTagKeyLen : Z := 100.
Definition MaxTagLen : Z := 200.

Definition len (s : gostring) : Z := Z.of_nat (length s).

Definition isLower (c : Z) : bool := (97 <=? c) && (c <=? 122).
Definition isLetter (c : Z) : bool := isLower c || ((65 <=? c) && (c <=? 90)).
Definition isDigit (c : Z) : bool := (48 <=? c) && (c <=? 57).
Definition isNameChar (c : Z) : bool := isLetter c || isDigit c || (c =? c_underscore) || (c =? 46).
Definition isTagKeyChar (c : Z) : bool :=
  isLower c || isDigit c || (c =? c_underscore) || (c =? 46) || (c =? 45) || (c =? c_slash).

(** ** Metric names *)

(** [name == "" || len(name) > MaxMetricNameLen || !isLetter(name[0])] *)
Definition bad_start (maxlen : Z) (first : Z -> bool) (name : gostring) : bool :=
  match name with [] => true | c :: _ => (maxlen <? len name) || negb (first c) end.

Definition ValidMetricName (name : gostring) : bool :=
  if bad_start MaxMetricNameLen isLetter name then false
  else forallb isNameChar (tail name).

(** The characters after the first, repaired. *)
Definition repair (ok : Z -> bool) (s : gostring) : gostring :=
  match s with
  | [] => []
  | c :: rest => c :: ((fun c => if ok c then c else c_underscore) <$> rest)
  end.

Definition NormalizeMetricName (name : gostring) : option gostring :=
  if ValidMetricName name then Some name
  else if bad_start MaxMetricNameLen isLetter name then None
  else Some (repair isNameChar name).

(** ** Tags *)

(** [unicode/utf8.ValidString] *)
Definition cont (c : Z) : bool := (128 <=? c) && (c <=? 191).
Definition within (lo hi c : Z) : bool := (lo <=? c) && (c <=? hi).

Fixpoint ValidString (s : gostring) : bool :=
  match s with
  | [] => true
  | c :: s1 =>
      if c <? 128 then ValidString s1 else
      match s1 with
      | [] => false
      | c1 :: s2 =>
          if within 194 223 c then cont c1 && ValidString s2 else
          match s2 with
          | [] => false
          | c2 :: s3 =>
              if within 224 239 c then
                within (if c =? 224 then 160 else 128) (if c =? 237 then 159 else 191) c1
                && cont c2 && ValidString s3
              else
              match s3 with
              | [] => false
              | c3 :: s4 =>
                  within 240 244 c
                  && within (if c =? 240 then 144 else 128) (if c =? 244 then 143 else 191) c1
                  && cont c2 && cont c3 && ValidString s4
              end
          end
      end
  end.

Definition SplitTag (tag : gostring) : gostring * gostring :=
  match split_at c_colon tag with Some (k, v) => (k, v) | None => (tag, []) end.

Definition JoinTag (key value : gostring) : gostring :=
  match value with [] => key | _ => key ++ c_colon :: value end.

Definition validTagKey (key : gostring) : bool :=
  if bad_start MaxTagKeyLen isLower key then false else forallb isTagKeyChar (tail key).

(** [strings.ContainsAny(tag, ",\n")] *)
Definition contains_sep (tag : gostring) : bool :=
  existsb (fun c => (c =? c_comma) || (c =? c_newline)) tag.

Definition ValidTag (tag : gostring) : bool :=
  match tag with
  | [] => false
  | _ =>
      if (MaxTagLen <? len tag) || negb (ValidString tag) || contains_sep tag then false
      else validTagKey (fst (SplitTag tag))
  end.

Definition needsLower (s : gostring) : bool :=
  existsb (fun c => ((65 <=? c) && (c <=? 90)) || (128 <=? c)) s.

(** [strings.TrimSuffix(tag, ":")] *)
Definition TrimColon (tag : gostring) : gostring :=
  match last tag with
  | Some c => if c =? c_colon then take (length tag - 1) tag else tag
  | None => tag
  end.

Definition CanonicalTags (tags : list gostring) : list gostring := canonical str_le tags.

Definition HasTagKey (tags : list gostring) (key : gostring) : bool :=
  existsb (fun t => bool_decide (fst (SplitTag t) = key)) tags.

Section Normalize.
(** [strings.ToLower]: the Unicode case tables are not modelled. *)
Variable ToLower : gostring -> gostring.

Definition NormalizeTag (tag : gostring) : option gostring :=
  let tag := TrimColon tag in
  if negb (ValidString tag) then None else
  let tag := if needsLower tag then ToLower tag else tag in
  let '(key, value) := SplitTag tag in
  if bad_start MaxTagKeyLen isLower key then None else
  let tag := if validTagKey key then tag else JoinTag (repair isTagKeyChar key) value in
  if ValidTag tag then Some tag else None.
End Normalize.

(** ** Metric names *)

Lemma ValidMetricName_spec name : ValidMetricName name = true <->
  exists c rest, name = c :: rest /\ isLetter c = true /\ Forall (fun c => isNameChar c = true) rest
    /\ (length rest <= 199)%nat.
Proof.
  unfold ValidMetricName, bad_start, MaxMetricNameLen, len. destruct name as [|c rest].
  { split; [done|]. by intros (? & ? & ? & _). }
  cbn [tail length]. rewrite Nat2Z.inj_succ.
  destruct (200 <? Z.succ (Z.of_nat (length rest))) eqn:El; cbn [orb].
  { split; [done|]. intros (? & ? & [= -> ->] & _ & _ & H). exfalso. blia. }
  destruct (isLetter c) eqn:Ec; cbn [negb].
  - rewrite forallb_Forall. split.
    + intros H. exists c, rest. split_and!; try done. blia.
    + by intros (? & ? & [= <- <-] & _ & H & _).
  - split; [done|]. intros (? & ? & [= <- <-] & ? & _). congruence.
Qed.

Lemma isLetter_isNameChar c : isLetter c = true -> isNameChar c = true.
Proof. unfold isNameChar. by intros ->. Qed.

Lemma length_repair ok s : length (repair ok s) = length s.
Proof. destruct s; cbn [repair length]; [done|]. by rewrite length_fmap. Qed.

Lemma repair_Forall ok s : ok c_underscore = true -> Forall (fun c => ok c = true) (tail (repair ok s)).
Proof.
  intros Hu. destruct s as [|c s]; cbn [repair tail]; [constructor|].
  apply Forall_fmap, Forall_forall. intros x _. cbn. by destruct (ok x) eqn:E.
Qed.

Lemma isNameChar_underscore : isNameChar c_underscore = true.
Proof. done. Qed.
Lemma isTagKeyChar_underscore : isTagKeyChar c_underscore = true.
Proof. done. Qed.

Lemma bad_start_repair maxlen first ok s :
  bad_start maxlen first (repair ok s) = bad_start maxlen first s.
Proof.
  pose proof (length_repair ok s) as Hl. destruct s as [|c s]; [done|].
  unfold bad_start, len. cbn [repair] in *. by rewrite Hl.
Qed.

Lemma repair_good ok s : Forall (fun c => ok c = true) (tail s) -> repair ok s = s.
Proof.
  destruct s as [|c s]; cbn [repair tail]; [done|]. intros H. f_equal.
  rewrite <- (list_fmap_id s) at 2. apply list_fmap_ext. intros i x Hx.
  apply list_elem_of_lookup_2 in Hx. rewrite Forall_forall in H. cbn. by rewrite (H x Hx).
Qed.

Lemma NormalizeMetricName_eq name : NormalizeMetricName name =
  if bad_start MaxMetricNameLen isLetter name then None else Some (repair isNameChar name).
Proof.
  unfold NormalizeMetricName, ValidMetricName.
  destruct (bad_start _ _ _); [done|]. destruct (forallb _ _) eqn:E; [|done].
  by rewrite repair_good by by apply forallb_Forall.
Qed.

(** A metric name is repaired or refused: it is refused exactly when it is
    empty, longer than 200 bytes or does not start with a letter; otherwise the
    result matches [^[a-zA-Z][a-zA-Z0-9_.]{0,199}$], differs from the input only
    in that characters outside the set became '_', and a valid name is left
    alone. *)
Theorem normalize_metric_name name :
  match NormalizeMetricName name with
  | None => match name with [] => True | c :: _ => 200 < len name \/ isLetter c = false end
  | Some out =>
      ValidMetricName out = true /\ NormalizeMetricName out = Some out
      /\ (ValidMetricName name = true <-> out = name)
      /\ Forall2 (fun c c' => c' = c \/ (c' = c_underscore /\ isNameChar c = false)) name out
  end.
Proof.
  rewrite NormalizeMetricName_eq. destruct (bad_start MaxMetricNameLen isLetter name) eqn:Eb.
  { destruct name as [|c rest]; [done|]. unfold bad_start, MaxMetricNameLen in Eb.
    destruct (200 <? _) eqn:El; [left; blia|right]. by destruct (isLetter c). }
  assert (Hv : ValidMetricName (repair isNameChar name) = true).
  { unfold ValidMetricName. rewrite bad_start_repair, Eb. apply forallb_Forall.
    by apply repair_Forall. }
  split_and!; [done| | |].
  - by unfold NormalizeMetricName; rewrite Hv.
  - split; [|by intros <-]. unfold ValidMetricName. rewrite Eb. intros H.
    by apply repair_good, forallb_Forall.
  - destruct name as [|c rest]; [constructor|]. cbn [repair]. constructor; [by left|].
    apply Forall2_fmap_r, Forall_Forall2_diag, Forall_forall. intros x _.
    cbn. destruct (isNameChar x) eqn:E; auto.
Qed.

(** ** Tags *)

Lemma SplitTag_JoinTag key value : c_colon ∉ key -> SplitTag (JoinTag key value) = (key, value).
Proof.
  intros Hk. unfold SplitTag, JoinTag. destruct value as [|v value].
  - by rewrite (proj2 (split_at_none _ _)).
  - by rewrite split_at_app.
Qed.

Lemma key_no_colon tag : c_colon ∉ fst (SplitTag tag).
Proof.
  unfold SplitTag. destruct (split_at c_colon tag) as [[k v]|] eqn:E; cbn [fst].
  - by apply split_at_some in E as [_ ?].
  - by apply split_at_none.
Qed.

Lemma ValidTag_parts tag : ValidTag tag = true ->
  (tag <> []) /\ (fst (SplitTag tag) <> []) /\ (c_comma ∉ tag) /\ validTagKey (fst (SplitTag tag)) = true.
Proof.
  unfold ValidTag. destruct tag as [|c tag]; [done|].
  destruct ((_ <? _) || _ || _) eqn:E; [done|]. b2p. intros Hk. split_and!; try done.
  - unfold validTagKey, bad_start in Hk. by destruct (fst (SplitTag (c :: tag))).
  - rename H0 into Hs. unfold contains_sep in Hs. apply existsb_none in Hs.
    intros Hc. rewrite Forall_forall in Hs. apply Hs in Hc. done.
Qed.

Lemma TrimColon_id tag : last tag <> Some c_colon -> TrimColon tag = tag.
Proof.
  unfold TrimColon. destruct (last tag) as [c|]; [|done]. intros H.
  destruct (Z.eqb_spec c c_colon); [congruence|done].
Qed.

(** Whatever the case mapping does, a normalized tag is a valid tag, and a
    valid lower-case ASCII tag without a trailing ':' is its own normal form. *)
Lemma normalize_tag ToLower tag :
  (forall out, NormalizeTag ToLower tag = Some out -> ValidTag out = true)
  /\ (ValidTag tag = true -> needsLower tag = false -> last tag <> Some c_colon ->
      NormalizeTag ToLower tag = Some tag).
Proof.
  split.
  - intros out. unfold NormalizeTag. repeat case_match; congruence.
  - intros Hv Hl Hc. unfold NormalizeTag. rewrite TrimColon_id by done. rewrite Hl.
    assert (Hu : ValidString tag = true).
    { unfold ValidTag in Hv. destruct tag; [done|]. destruct (ValidString _); [done|].
      by rewrite orb_true_r in Hv. }
    rewrite Hu. cbn [negb]. destruct (ValidTag_parts _ Hv) as (_ & _ & _ & Hk).
    destruct (SplitTag tag) as [key value]. cbn [fst] in Hk. rewrite Hk.
    unfold validTagKey in Hk. destruct (bad_start _ _ key); [done|]. by rewrite Hv.
Qed.
