(* ===== verification/Tsdb.v ===== *)
(** * The metric store's vocabulary (internal/tsdb/tsdb.go)

    Tags, samples, series references and their keys, matchers and selectors, and
    the block arithmetic the head and the database share. *)

From Stdlib Require Import ZArith Lia.
From Stdlib Require Import (notations) String.
From stdpp Require Import base sorting sets numbers list.
From S2P Require Import Prelude Gostring Names.

(** ** Series identity *)

Record Tag := MkTag { t_Key : gostring; t_Value : gostring }.
#[export] Instance Tag_eq_dec : EqDecision Tag.
Proof. solve_decision. Defined.

Definition Tag_String (t : Tag) : gostring :=
  match t_Value t with [] => t_Key t | v => t_Key t ++ c_colon :: v end.

Definition ParseTag (s : gostring) : Tag :=
  match split_at c_colon s with Some (k, v) => MkTag k v | None => MkTag s [] end.

Record SeriesRef := MkSeriesRef { sr_Metric : gostring; sr_Tags : list Tag }.
#[export] Instance SeriesRef_eq_dec : EqDecision SeriesRef.
Proof. solve_decision. Defined.

(** The comparison of [SortTags]: by key, then by value. *)
Definition tag_cmp (a b : Tag) : comparison :=
  match strcmp (t_Key a) (t_Key b) with Eq => strcmp (t_Value a) (t_Value b) | c => c end.
Definition tag_le (a b : Tag) : Prop := tag_cmp a b <> Gt.
#[export] Instance tag_le_dec : RelDecision tag_le.
Proof. intros a b. unfold tag_le. destruct (tag_cmp a b); [left|left|right]; congruence. Defined.

(** Tags equal under the comparison are equal, so every sort gives this list. *)
Definition SortTags (tags : list Tag) : list Tag := merge_sort tag_le tags.

Definition NewSeriesRef (metric : gostring) (tags : list gostring) : SeriesRef :=
  MkSeriesRef metric (Compact (SortTags (ParseTag <$> tags))).

Fixpoint join_tags (tags : list Tag) : gostring :=
  match tags with
  | [] => []
  | [t] => Tag_String t
  | t :: rest => Tag_String t ++ c_comma :: join_tags rest
  end.

Definition Key (s : SeriesRef) : gostring := sr_Metric s ++ c_pipe :: join_tags (sr_Tags s).

Fixpoint Get (tags : list Tag) (key : gostring) : option gostring :=
  match tags with
  | [] => None
  | t :: rest => if decide (t_Key t = key) then Some (t_Value t) else Get rest key
  end.

Inductive ref_error := ErrEmptyMetric | ErrTagsNotSorted.

(** [a.Key > b.Key || (a.Key == b.Key && a.Value >= b.Value)] of each pair. *)
Fixpoint tags_out_of_order (tags : list Tag) : bool :=
  match tags with
  | a :: ((b :: _) as rest) =>
      bool_decide (str_lt (t_Key b) (t_Key a))
      || (bool_decide (t_Key a = t_Key b) && bool_decide (str_le (t_Value b) (t_Value a)))
      || tags_out_of_order rest
  | _ => false
  end.

Definition Validate (s : SeriesRef) : result ref_error unit :=
  match sr_Metric s with
  | [] => Err ErrEmptyMetric
  | _ => if tags_out_of_order (sr_Tags s) then Err ErrTagsNotSorted else Ok tt
  end.

(** ** Matchers *)

Inductive MatchType := Equal | NotEqual | Wildcard | NotWildcard.

Record Matcher := MkMatcher { m_Key : gostring; m_Value : gostring; m_Type : MatchType }.

(** *** [path.Match], on patterns whose only metacharacters are '*' and '\' *)

(** [scanChunk]: the leading stars, the run up to the next star, the rest. *)
Fixpoint scan_stars (pattern : gostring) : bool * gostring :=
  match pattern with
  | c :: rest => if c =? c_star then (true, snd (scan_stars rest)) else (false, pattern)
  | [] => (false, [])
  end.

Fixpoint scan_chunk (pattern : gostring) : gostring * gostring :=
  match pattern with
  | [] => ([], [])
  | c :: rest =>
      if c =? c_star then ([], pattern)
      else if c =? c_backslash then
        match rest with
        | [] => ([c], [])
        | d :: rest' => let '(chunk, r) := scan_chunk rest' in (c :: d :: chunk, r)
        end
      else let '(chunk, r) := scan_chunk rest in (c :: chunk, r)
  end.

(** [matchChunk]: a literal run against the front of [s]; the rest of [s]. *)
Fixpoint match_chunk (chunk s : gostring) : option gostring :=
  match chunk with
  | [] => Some s
  | c :: chunk' =>
      if c =? c_backslash then
        match chunk', s with
        | d :: chunk'', x :: s' => if d =? x then match_chunk chunk'' s' else None
        | _, _ => None
        end
      else
        match s with
        | [] => None
        | x :: s' => if c =? x then match_chunk chunk' s' else None
        end
  end.

(** A chunk at the first position that suits; the last chunk must end [s]. *)
Definition suits (lastChunk : bool) (t : option gostring) : option gostring :=
  match t with
  | Some t' => if lastChunk && negb (bool_decide (t' = [])) then None else Some t'
  | None => None
  end.

(** [for i := 0; i < len(name) && name[i] != '/'; i++] *)
Fixpoint seek_chunk (lastChunk : bool) (chunk s : gostring) : option gostring :=
  match s with
  | [] => None
  | x :: s' =>
      if x =? c_slash then None else
      match suits lastChunk (match_chunk chunk s') with
      | Some t => Some t
      | None => seek_chunk lastChunk chunk s'
      end
  end.

(** Every round consumes at least one byte of the pattern. *)
Fixpoint path_Match (fuel : nat) (pattern name : gostring) : bool :=
  match fuel with
  | O => false
  | S fuel' =>
      match pattern with
      | [] => bool_decide (name = [])
      | _ =>
          let '(star, p1) := scan_stars pattern in
          let '(chunk, rest) := scan_chunk p1 in
          if star && bool_decide (chunk = []) then bool_decide (c_slash ∉ name) else
          let lastChunk := bool_decide (rest = []) in
          match suits lastChunk (match_chunk chunk name) with
          | Some t => path_Match fuel' rest t
          | None =>
              if star then
                match seek_chunk lastChunk chunk name with
                | Some t => path_Match fuel' rest t
                | None => false
                end
              else false
          end
      end
  end.

(** The replacer of [GlobMatch]: '\', '?' and '[' escaped, '/' made a NUL. *)
Definition glob_escape (pattern : gostring) : gostring :=
  pattern ≫= fun c =>
    if (c =? c_backslash) || (c =? c_question) || (c =? c_lbracket) then [c_backslash; c]
    else if c =? c_slash then [0] else [c].

Definition no_slash (s : gostring) : gostring := (fun c => if c =? c_slash then 0 else c) <$> s.

Definition GlobMatch (pattern s : gostring) : bool :=
  let esc := glob_escape pattern in
  path_Match (S (length esc)) esc (no_slash s).

Definition Matcher_has (m : Matcher) (t : Tag) : bool :=
  bool_decide (t_Key t = m_Key m) &&
  match m_Type m with
  | Equal | NotEqual => bool_decide (t_Value t = m_Value m)
  | Wildcard | NotWildcard => GlobMatch (m_Value m) (t_Value t)
  end.

Definition Matcher_Matches (m : Matcher) (tags : list Tag) : bool :=
  let has := existsb (Matcher_has m) tags in
  match m_Type m with NotEqual | NotWildcard => negb has | Equal | Wildcard => has end.

Record Selector := MkSelector { sel_Metric : gostring; sel_Matchers : list Matcher }.

Definition Selector_Matches (sel : Selector) (ref : SeriesRef) : bool :=
  bool_decide (sr_Metric ref = sel_Metric sel)
  && forallb (fun m => Matcher_Matches m (sr_Tags ref)) (sel_Matchers sel).

(** ** Blocks of time *)

(** Go's [/] and [%] truncate toward zero. *)
Definition BlockOf (t rangeMs : Z) : Z :=
  let q := Z.quot t rangeMs in
  if negb (Z.rem t rangeMs =? 0) && negb (Bool.eqb (t <? 0) (rangeMs <? 0)) then q - 1 else q.

(** ** Ordering of tags *)

Lemma tag_cmp_eq a b : tag_cmp a b = Eq <-> a = b.
Proof.
  unfold tag_cmp. destruct a as [k v], b as [k' v']; cbn [t_Key t_Value].
  destruct (strcmp k k') eqn:E; [|split; [done|intros [= <- <-]; by rewrite strcmp_refl in E]..].
  apply strcmp_eq in E as ->. rewrite strcmp_eq. split; [by intros ->|by intros [=]].
Qed.
Lemma tag_cmp_antisym a b : tag_cmp b a = CompOpp (tag_cmp a b).
Proof.
  unfold tag_cmp. rewrite (strcmp_antisym (t_Key a)). destruct (strcmp (t_Key a) _); cbn; try done.
  apply strcmp_antisym.
Qed.
Lemma tag_cmp_trans a b d : tag_cmp a b = Lt -> tag_cmp b d = Lt -> tag_cmp a d = Lt.
Proof.
  unfold tag_cmp. destruct (strcmp (t_Key a) (t_Key b)) eqn:E1, (strcmp (t_Key b) (t_Key d)) eqn:E2; try done.
  - apply strcmp_eq in E1 as ->. rewrite E2. apply strcmp_trans.
  - apply strcmp_eq in E1 as ->. by rewrite E2.
  - apply strcmp_eq in E2 as <-. by rewrite E1.
  - by rewrite (strcmp_trans Lt _ _ _ E1 E2).
Qed.

#[export] Instance tag_le_total : Total tag_le.
Proof. intros a b. unfold tag_le. rewrite (tag_cmp_antisym a b). destruct (tag_cmp a b); cbn; auto. Qed.
#[export] Instance tag_le_antisymm : AntiSymm (=) tag_le.
Proof.
  intros a b. unfold tag_le. rewrite (tag_cmp_antisym a b).
  destruct (tag_cmp a b) eqn:E; cbn; [by apply tag_cmp_eq in E|congruence..].
Qed.
#[export] Instance tag_le_trans : Transitive tag_le.
Proof.
  intros a b d. unfold tag_le. intros H1 H2.
  destruct (tag_cmp a b) eqn:E1; [apply tag_cmp_eq in E1 as ->; done| |done].
  destruct (tag_cmp b d) eqn:E2; [apply tag_cmp_eq in E2 as <-; congruence| |done].
  by rewrite (tag_cmp_trans a b d).
Qed.

Abbreviation tag_lt := (strict tag_le).

Lemma tag_lt_cmp a b : tag_lt a b <-> tag_cmp a b = Lt.
Proof.
  unfold strict, tag_le. destruct (tag_cmp a b) eqn:E.
  - apply tag_cmp_eq in E as ->. split; [by intros [_ ?]|done].
  - split; [done|]. intros _. split; [done|]. intros ->. by rewrite (proj2 (tag_cmp_eq b b)) in E.
  - split; [by intros [? _]|done].
Qed.

(** [Validate]'s test of neighbours is the strict order. *)
Lemma pair_out_of_order a b :
  bool_decide (str_lt (t_Key b) (t_Key a))
  || (bool_decide (t_Key a = t_Key b) && bool_decide (str_le (t_Value b) (t_Value a))) = false
  <-> tag_lt a b.
Proof.
  rewrite tag_lt_cmp, orb_false_iff, andb_false_iff, !bool_decide_eq_false. unfold tag_cmp, str_lt, str_le.
  rewrite (strcmp_antisym (t_Key a)), (strcmp_antisym (t_Value a)), <- (strcmp_eq (t_Key a)).
  destruct (strcmp (t_Key a) (t_Key b)); cbn [CompOpp]; [|naive_solver..].
  destruct (strcmp (t_Value a) (t_Value b)); cbn [CompOpp]; intuition congruence.
Qed.

Lemma tags_in_order tags : tags_out_of_order tags = false <-> StronglySorted tag_lt tags.
Proof.
  assert (Htr : Transitive tag_lt).
  { intros a b d. rewrite !tag_lt_cmp. apply tag_cmp_trans. }
  induction tags as [|a tags IH]; cbn [tags_out_of_order]; [split; [constructor|done]|].
  destruct tags as [|b tags]; [split; [repeat constructor|done]|].
  rewrite orb_false_iff, IH, pair_out_of_order. split.
  - intros [Hab Hs]. constructor; [done|]. constructor; [done|].
    apply StronglySorted_inv in Hs as [_ Hb]. eapply Forall_impl; [exact Hb|]. intros x. by apply Htr.
  - intros Hs. apply StronglySorted_inv in Hs as [Hs Ha]. by apply Forall_cons_1 in Ha as [? _].
Qed.

Lemma NewSeriesRef_tags metric tags :
  sr_Tags (NewSeriesRef metric tags) = canonical tag_le (ParseTag <$> tags).
Proof. done. Qed.

(** [NewSeriesRef] is canonical: it passes [Validate] for any tags, and the
    reference depends only on the set of parsed tags, not on their order or
    repetition. *)
Theorem new_series_ref_canonical metric tags1 tags2 :
  metric <> [] -> (forall t, t ∈ ParseTag <$> tags1 <-> t ∈ ParseTag <$> tags2) ->
  Validate (NewSeriesRef metric tags1) = Ok tt /\ NewSeriesRef metric tags1 = NewSeriesRef metric tags2.
Proof.
  intros Hm Hset. split.
  - unfold Validate. destruct (sr_Metric _) eqn:E; [done|].
    rewrite (proj2 (tags_in_order _)); [done|]. rewrite NewSeriesRef_tags. apply canonical_strict; apply _.
  - unfold NewSeriesRef. f_equal. by apply (canonical_ext tag_le).
Qed.

Lemma new_series_ref_canonical_witness :
  let a := [str "env:prod"; str "host:a"; str "env:prod"] in let b := [str "host:a"; str "env:prod"] in
  Validate (NewSeriesRef (str "cpu") a) = Ok tt /\ NewSeriesRef (str "cpu") a = NewSeriesRef (str "cpu") b.
Proof. apply new_series_ref_canonical; [done|]. intros t. cbn. rewrite !elem_of_cons. tauto. Defined.

(** ** Keys *)

Lemma ParseTag_String t : c_colon ∉ t_Key t -> ParseTag (Tag_String t) = t.
Proof.
  destruct t as [k v]. unfold ParseTag, Tag_String. cbn [t_Key t_Value]. intros Hk.
  destruct v as [|c v]; [by rewrite (proj2 (split_at_none _ _))|by rewrite split_at_app].
Qed.

(** The tags a valid wire tag parses to. *)
Record tag_clean (t : Tag) : Prop := {
  tc_key : t_Key t <> [];
  tc_colon : c_colon ∉ t_Key t;
  tc_comma_key : c_comma ∉ t_Key t;
  tc_comma_value : c_comma ∉ t_Value t;
}.

Lemma ValidTag_clean tag : ValidTag tag = true -> tag_clean (ParseTag tag).
Proof.
  intros Hv. destruct (ValidTag_parts _ Hv) as (_ & Hk & Hc & _). pose proof (key_no_colon tag) as Hn.
  unfold SplitTag, ParseTag in *. destruct (split_at c_colon tag) as [[k v]|] eqn:E; cbn [fst] in *.
  - apply split_at_some in E as [-> _]. rewrite elem_of_app, elem_of_cons in Hc.
    constructor; cbn; tauto.
  - constructor; cbn; [done..|apply not_elem_of_nil].
Qed.

Lemma Tag_String_clean t : tag_clean t -> Tag_String t <> [] /\ (c_comma ∉ Tag_String t).
Proof.
  destruct t as [k v]. intros [Hk _ Hck Hcv]. cbn in *. unfold Tag_String. cbn [t_Key t_Value].
  destruct v as [|c v]; [done|]. split; [by destruct k|].
  rewrite elem_of_app, (elem_of_cons (_ :: _)). intros [?|[?|?]]; done.
Qed.

Lemma join_tags_cons t rest : rest <> [] -> join_tags (t :: rest) = Tag_String t ++ c_comma :: join_tags rest.
Proof. by destruct rest. Qed.

Lemma join_tags_split t rest : tag_clean t ->
  split_at c_comma (join_tags (t :: rest)) = match rest with [] => None | _ => Some (Tag_String t, join_tags rest) end.
Proof.
  intros Ht. destruct (Tag_String_clean t Ht) as [_ Hc]. destruct rest as [|u rest].
  - by apply split_at_none.
  - rewrite join_tags_cons by done. by apply split_at_app.
Qed.

Lemma join_tags_nonempty t rest : tag_clean t -> join_tags (t :: rest) <> [].
Proof.
  intros Ht. destruct (Tag_String_clean t Ht) as [Hne _]. destruct rest; [done|].
  rewrite join_tags_cons by done. by destruct (Tag_String t).
Qed.

Lemma join_tags_inj l1 : forall l2, Forall tag_clean l1 -> Forall tag_clean l2 ->
  join_tags l1 = join_tags l2 -> l1 = l2.
Proof.
  induction l1 as [|t l1 IH]; intros [|u l2] H1 H2 H; [done| | |].
  - apply Forall_cons_1 in H2 as [Hu _]. symmetry in H. by apply join_tags_nonempty in H.
  - apply Forall_cons_1 in H1 as [Ht _]. by apply join_tags_nonempty in H.
  - apply Forall_cons_1 in H1 as [Ht H1], H2 as [Hu H2].
    pose proof (f_equal (split_at c_comma) H) as Hs. rewrite !join_tags_split in Hs by done.
    destruct l1 as [|t' l1], l2 as [|u' l2]; try done.
    + cbn [join_tags] in H. apply (f_equal ParseTag) in H. rewrite !ParseTag_String in H; [by subst|apply Hu|apply Ht].
    + injection Hs as Hs Hr. apply (f_equal ParseTag) in Hs.
      rewrite !ParseTag_String in Hs; [|apply Hu|apply Ht]. subst u. f_equal. by apply IH.
Qed.

Lemma ValidMetricName_no_pipe name : ValidMetricName name = true -> c_pipe ∉ name.
Proof.
  rewrite ValidMetricName_spec. intros (c & rest & -> & Hc & Hr & _).
  rewrite elem_of_cons. intros [<-|Hp]; [done|]. rewrite Forall_forall in Hr. by apply Hr in Hp.
Qed.

Definition ref_clean (s : SeriesRef) : Prop := (c_pipe ∉ sr_Metric s) /\ Forall tag_clean (sr_Tags s).

Lemma Key_inj s1 s2 : ref_clean s1 -> ref_clean s2 -> Key s1 = Key s2 -> s1 = s2.
Proof.
  destruct s1 as [m1 t1], s2 as [m2 t2]. intros [Hm1 Ht1] [Hm2 Ht2]. unfold Key. cbn in *. intros H.
  apply (f_equal (split_at c_pipe)) in H. rewrite !split_at_app in H by done. injection H as -> H.
  f_equal. by apply join_tags_inj.
Qed.

Lemma NewSeriesRef_clean metric tags : ValidMetricName metric = true ->
  Forall (fun t => ValidTag t = true) tags -> ref_clean (NewSeriesRef metric tags).
Proof.
  intros Hm Ht. split; [by apply ValidMetricName_no_pipe|]. rewrite NewSeriesRef_tags.
  apply Forall_forall. intros t Hin. rewrite (elem_of_canonical tag_le) in Hin.
  apply list_elem_of_fmap in Hin as (s & -> & Hs). rewrite Forall_forall in Ht.
  by apply ValidTag_clean, Ht.
Qed.

(** For series the wire accepts, the key string is the identity: two series
    have the same key exactly when they have the same metric and the same set of
    tags, whatever the order the tags were sent in. *)
Theorem series_identity m1 tags1 m2 tags2 :
  ValidMetricName m1 = true -> ValidMetricName m2 = true ->
  Forall (fun t => ValidTag t = true) tags1 -> Forall (fun t => ValidTag t = true) tags2 ->
  Key (NewSeriesRef m1 tags1) = Key (NewSeriesRef m2 tags2)
  <-> m1 = m2 /\ (forall t, t ∈ ParseTag <$> tags1 <-> t ∈ ParseTag <$> tags2).
Proof.
  intros Hm1 Hm2 Ht1 Ht2. split.
  - intros H. apply Key_inj in H; [|by apply NewSeriesRef_clean..].
    split; [by injection H|]. intros t. apply (f_equal sr_Tags) in H. rewrite !NewSeriesRef_tags in H.
    rewrite <- (elem_of_canonical tag_le (ParseTag <$> tags1)), H. apply elem_of_canonical.
  - intros [-> Hset]. unfold NewSeriesRef. do 2 f_equal. by apply (canonical_ext tag_le).
Qed.

Lemma series_identity_witness :
  Key (NewSeriesRef (str "cpu.user") [str "url:http://x"; str "canary"])
    = Key (NewSeriesRef (str "cpu.user") [str "canary:"; str "url:http://x"])
  <-> str "cpu.user" = str "cpu.user"
      /\ (forall t, t ∈ ParseTag <$> [str "url:http://x"; str "canary"]
          <-> t ∈ ParseTag <$> [str "canary:"; str "url:http://x"]).
Proof. apply series_identity; vm_compute; repeat constructor. Defined.

(** Without the wire's rules the key is ambiguous: a comma in a tag value is a
    second tag. *)
Example key_needs_clean_tags :
  Key (NewSeriesRef (str "m") [str "a:b,c"]) = Key (NewSeriesRef (str "m") [str "a:b"; str "c"]).
Proof. vm_compute. reflexivity. Qed.

(** ** Blocks *)

Lemma BlockOf_div t r : r <> 0 -> BlockOf t r = t / r.
Proof.
  intros Hr. unfold BlockOf. pose proof (Z.quot_rem t r Hr) as Hq.
  pose proof (Z.rem_bound_abs t r Hr) as Hb. pose proof (Z.rem_nonneg t r Hr) as Hp. pose proof (Z.rem_nonpos t r Hr) as Hn.
  destruct (Z.eqb_spec (Z.rem t r) 0) as [H0|H0]; cbn [negb andb].
  - apply Z.div_unique_exact; lia.
  - destruct (Z.ltb_spec t 0), (Z.ltb_spec r 0); cbn [Bool.eqb negb].
    all: first [apply (Z.div_unique t r _ (Z.rem t r)); lia
               |apply (Z.div_unique t r _ (Z.rem t r + r)); lia].
Qed.

(** The block of a timestamp is the floor of the quotient on both sides of
    the epoch: the ranges tile the line, each timestamp is in exactly its own,
    and the quotient stays an int64. *)
Theorem block_of_floor t r : is_i64 t -> is_i64 r -> 0 < r ->
  r * BlockOf t r <= t < r * (BlockOf t r + 1) /\ is_i64 (BlockOf t r)
  /\ (forall b, r * b <= t < r * (b + 1) -> b = BlockOf t r).
Proof.
  intros Ht Hr Hpos. rewrite BlockOf_div by lia. unfold is_i64 in *.
  pose proof (Z.mul_div_le t r Hpos). pose proof (Z.mul_succ_div_gt t r Hpos).
  split_and!; try nia.
Qed.

Lemma block_of_floor_witness :
  7200000 * BlockOf (-1) 7200000 <= -1 < 7200000 * (BlockOf (-1) 7200000 + 1)
  /\ is_i64 (BlockOf (-1) 7200000)
  /\ (forall b, 7200000 * b <= -1 < 7200000 * (b + 1) -> b = BlockOf (-1) 7200000).
Proof. apply (block_of_floor (-1) 7200000); unfold is_i64; lia. Defined.
