(* ===== verification/Glob.v ===== *)
(** * Glob matching (internal/tsdb/tsdb.go, [GlobMatch])

    [path.Match]'s leftmost search, on the pattern [GlobMatch] escapes, decides
    the obvious meaning of a glob. *)

From Stdlib Require Import ZArith Lia.
From Stdlib Require Import (notations) String.
From stdpp Require Import base sorting sets numbers list.
From S2P Require Import Prelude Gostring Tsdb.

(** '*' matches any run, everything else itself. *)
Inductive globs : gostring -> gostring -> Prop :=
| gl_nil : globs [] []
| gl_star p s1 s2 : globs p s2 -> globs (c_star :: p) (s1 ++ s2)
| gl_lit c p s : c <> c_star -> globs p s -> globs (c :: p) (c :: s).

Lemma globs_nil s : globs [] s <-> s = [].
Proof. split; [by inversion 1|intros ->; constructor]. Qed.

Lemma globs_star p s : globs (c_star :: p) s <-> exists s1 s2, s = s1 ++ s2 /\ globs p s2.
Proof. split; [inversion 1; subst; eauto; done|]. intros (s1 & s2 & -> & H). by constructor. Qed.

Lemma globs_stars p s : globs (c_star :: c_star :: p) s <-> globs (c_star :: p) s.
Proof.
  rewrite !globs_star. split.
  - intros (s1 & s2 & -> & (s3 & s4 & -> & H)%globs_star). exists (s1 ++ s3), s4. by rewrite app_assoc.
  - intros (s1 & s2 & -> & H). exists s1, s2. split; [done|]. apply globs_star. by exists [], s2.
Qed.

Lemma globs_literal lit rest s : c_star ∉ lit ->
  globs (lit ++ rest) s <-> exists t, s = lit ++ t /\ globs rest t.
Proof.
  revert s. induction lit as [|c lit IH]; intros s Hl; cbn [app].
  - split; [eauto|by intros (? & -> & ?)].
  - apply not_elem_of_cons in Hl as [Hc Hl]. split.
    + inversion 1 as [|?|? ? s' ? Hg]; subst; [done|]. apply IH in Hg as (t & -> & Ht); [|done]. eauto.
    + intros (t & -> & Ht). constructor; [congruence|]. apply IH; eauto.
Qed.

(** A leading star absorbs whatever precedes a match. *)
Lemma globs_absorb p mid t : globs (c_star :: p) t -> globs (c_star :: p) (mid ++ t).
Proof.
  rewrite !globs_star. intros (s1 & s2 & -> & H). exists (mid ++ s1), s2. by rewrite app_assoc.
Qed.

(** ** Escaping *)

Definition special (c : Z) : bool := (c =? c_backslash) || (c =? c_question) || (c =? c_lbracket).
Definition escape1 (c : Z) : gostring := if special c then [c_backslash; c] else [c].
Definition escape (q : gostring) : gostring := q ≫= escape1.

Lemma glob_escape_eq p : glob_escape p = escape (no_slash p).
Proof.
  unfold escape, no_slash, glob_escape. rewrite list_fmap_bind. apply bind_ext_in. intros c _.
  unfold compose, escape1, special. destruct (Z.eqb_spec c c_slash) as [->|]; [done|]. done.
Qed.

Lemma escape_cons c q : escape (c :: q) = escape1 c ++ escape q.
Proof. done. Qed.

Lemma escape_nil q : escape q = [] <-> q = [].
Proof.
  split; [|by intros ->]. destruct q as [|c q]; [done|]. rewrite escape_cons. unfold escape1.
  by destruct (special c).
Qed.

Lemma length_escape q : (length q <= length (escape q))%nat.
Proof.
  induction q as [|c q IH]; [done|]. rewrite escape_cons, length_app. cbn [length].
  unfold escape1. destruct (special c); cbn [length]; lia.
Qed.

(** The pattern a run of stars leaves. *)
Fixpoint unstar (q : gostring) : gostring :=
  match q with c :: q' => if c =? c_star then unstar q' else q | [] => [] end.
Definition starred (q : gostring) : bool :=
  match q with c :: _ => c =? c_star | [] => false end.

Lemma scan_stars_escape q : scan_stars (escape q) = (starred q, escape (unstar q)).
Proof.
  induction q as [|c q IH]; [done|]. rewrite escape_cons. unfold escape1.
  destruct (Z.eqb_spec c c_star) as [->|Hne].
  - cbn [special app scan_stars starred unstar]. cbn. by rewrite IH.
  - cbn [starred unstar]. rewrite (proj2 (Z.eqb_neq c c_star)) by done. rewrite escape_cons. unfold escape1.
    destruct (special c); cbn [app scan_stars]; [done|]. by rewrite (proj2 (Z.eqb_neq c c_star)).
Qed.

Lemma globs_unstar q s : globs q s <->
  globs (if starred q then c_star :: unstar q else unstar q) s.
Proof.
  induction q as [|c q IH]; [done|]. cbn [starred unstar].
  destruct (Z.eqb_spec c c_star) as [->|]; [|done].
  destruct q as [|d q]; [done|]. cbn [starred unstar] in *.
  destruct (Z.eqb_spec d c_star) as [->|Hd]; [|done]. by rewrite globs_stars.
Qed.

Lemma unstar_start q : starred (unstar q) = false.
Proof.
  induction q as [|c q IH]; [done|]. cbn [unstar]. destruct (c =? c_star) eqn:E; [done|].
  by cbn [starred].
Qed.

(** The literal run at the front. *)
Fixpoint literal (q : gostring) : gostring * gostring :=
  match q with
  | [] => ([], [])
  | c :: q' => if c =? c_star then ([], q) else let '(l, r) := literal q' in (c :: l, r)
  end.

Lemma literal_spec q : let '(l, r) := literal q in
  q = l ++ r /\ (c_star ∉ l) /\ (r = [] \/ exists r', r = c_star :: r') /\ (starred q = false -> q <> [] -> l <> []).
Proof.
  induction q as [|c q IH]; cbn [literal]; [split_and!; try done; [apply not_elem_of_nil|by left]|].
  cbn [starred]. destruct (Z.eqb_spec c c_star) as [->|Hne].
  - split_and!; try done; [apply not_elem_of_nil|right; eauto].
  - destruct (literal q) as [l r]. destruct IH as (-> & Hl & Hr & _). split_and!; try done.
    apply not_elem_of_cons. split; congruence.
Qed.

Lemma special_star : special c_star = false.
Proof. done. Qed.

Lemma scan_chunk_escape q : scan_chunk (escape q) = (escape (fst (literal q)), escape (snd (literal q))).
Proof.
  induction q as [|c q IH]; [done|]. rewrite escape_cons. unfold escape1. cbn [literal].
  destruct (Z.eqb_spec c c_star) as [->|Hne].
  - by cbn [special_star app scan_chunk].
  - destruct (literal q) as [l r]. cbn [fst snd] in *. rewrite escape_cons. unfold escape1.
    destruct (special c) eqn:Es; cbn [app scan_chunk].
    + change (c_backslash =? c_star) with false. rewrite Z.eqb_refl, IH. done.
    + rewrite (proj2 (Z.eqb_neq c c_star)) by done. unfold special in Es.
      destruct (c =? c_backslash); [done|]. by rewrite IH.
Qed.

Lemma match_chunk_escape lit s t : match_chunk (escape lit) s = Some t <-> s = lit ++ t.
Proof.
  revert s. induction lit as [|c lit IH]; intros s; [cbn; naive_solver|].
  rewrite escape_cons. unfold escape1. destruct (special c) eqn:Es; cbn [app match_chunk].
  - rewrite Z.eqb_refl. destruct s as [|x s]; [done|].
    destruct (Z.eqb_spec c x) as [->|Hne]; [rewrite IH; naive_solver|].
    split; [done|]. by intros [= ->].
  - unfold special in Es. destruct (c =? c_backslash); [done|].
    destruct s as [|x s]; [done|].
    destruct (Z.eqb_spec c x) as [->|Hne]; [rewrite IH; naive_solver|].
    split; [done|]. by intros [= ->].
Qed.

(** ** The leftmost search *)

Definition fits (lastChunk : bool) (t : gostring) : Prop := lastChunk = true -> t = [].

Lemma suits_Some lastChunk lit s t :
  suits lastChunk (match_chunk (escape lit) s) = Some t <-> s = lit ++ t /\ fits lastChunk t.
Proof.
  unfold suits, fits. rewrite <- match_chunk_escape. destruct (match_chunk (escape lit) s) as [u|]; [|naive_solver].
  destruct lastChunk; cbn [andb]; [|naive_solver]. case_bool_decide; cbn [negb]; naive_solver.
Qed.

Definition locate (lastChunk : bool) (lit s : gostring) : option gostring :=
  match suits lastChunk (match_chunk (escape lit) s) with
  | Some t => Some t
  | None => seek_chunk lastChunk (escape lit) s
  end.

Lemma locate_cons lastChunk lit x s : x <> c_slash ->
  seek_chunk lastChunk (escape lit) (x :: s) = locate lastChunk lit s.
Proof. intros Hx. cbn [seek_chunk]. by rewrite (proj2 (Z.eqb_neq x c_slash)). Qed.

Lemma later_match (lit t pre' t' : gostring) : lit ++ t = pre' ++ lit ++ t' -> exists mid, t = mid ++ t'.
Proof.
  intros H. exists (drop (length lit) (pre' ++ lit)).
  apply (f_equal (drop (length lit))) in H. rewrite drop_app_length, app_assoc in H.
  rewrite H, drop_app_le; [done|]. rewrite length_app. lia.
Qed.

Lemma locate_spec lastChunk lit s : c_slash ∉ s ->
  match locate lastChunk lit s with
  | Some t => fits lastChunk t /\ (exists pre, s = pre ++ lit ++ t)
      /\ forall pre' t', s = pre' ++ lit ++ t' -> fits lastChunk t' -> exists mid, t = mid ++ t'
  | None => forall pre' t', s = pre' ++ lit ++ t' -> ~ fits lastChunk t'
  end.
Proof.
  induction s as [|x s IH]; intros Hs; unfold locate;
    destruct (suits lastChunk (match_chunk (escape lit) _)) as [t|] eqn:E.
  1,3: apply suits_Some in E as [E Hf]; (split_and!; [done|exists []; done|]);
    intros pre' t' H _; rewrite E in H; by eapply later_match.
  - cbn [seek_chunk]. intros pre' t' H Hf. destruct pre'; [|done].
    assert (Some t' = None) as [=]. rewrite <- E. symmetry. by apply suits_Some.
  - apply not_elem_of_cons in Hs as [Hx Hs]. rewrite locate_cons by congruence. specialize (IH Hs).
    assert (Hno : forall t', x :: s = lit ++ t' -> ~ fits lastChunk t').
    { intros t' H Hf. assert (Some t' = None) as [=]. rewrite <- E. symmetry. by apply suits_Some. }
    destruct (locate lastChunk lit s) as [t|].
    + destruct IH as (Hf & (pre & ->) & Hmax). split_and!; [done|by exists (x :: pre)|].
      intros [|y pre'] t' H Hf'; [by apply Hno in Hf'|]. injection H as _ H. eauto.
    + intros [|y pre'] t' H Hf'; [by apply Hno in Hf'|]. injection H as _ H. by eapply IH in Hf'.
Qed.

(** ** The whole match *)

Lemma fits_rest rest t : globs rest t -> fits (bool_decide (rest = [])) t.
Proof. unfold fits. rewrite bool_decide_eq_true. intros H ->. by apply globs_nil. Qed.

(** The leftmost occurrence is as good as any: what follows is empty or starts
    with a star. *)
Lemma globs_search lit rest s : c_star ∉ lit -> (rest = [] \/ exists r, rest = c_star :: r) ->
  c_slash ∉ s ->
  globs (c_star :: lit ++ rest) s
  <-> exists t, locate (bool_decide (rest = [])) lit s = Some t /\ globs rest t.
Proof.
  intros Hl Hr Hs. pose proof (locate_spec (bool_decide (rest = [])) lit s Hs) as Hloc. split.
  - intros (pre & u & -> & Hu)%globs_star. apply globs_literal in Hu as (t' & -> & Ht'); [|done].
    pose proof (fits_rest _ _ Ht') as Hfit.
    destruct (locate _ lit _) as [t|]; [|by eapply Hloc in Hfit].
    exists t. split; [done|]. destruct Hloc as (Hf & _ & Hmax).
    destruct (Hmax pre t' eq_refl Hfit) as [mid ->]. destruct Hr as [->|[r ->]].
    + apply globs_nil. by apply Hf, bool_decide_eq_true.
    + by apply globs_absorb.
  - intros (t & E & Ht). rewrite E in Hloc. destruct Hloc as (_ & (pre & ->) & _).
    constructor. apply globs_literal; eauto.
Qed.

Lemma globs_front lit rest s : c_star ∉ lit ->
  globs (lit ++ rest) s
  <-> exists t, suits (bool_decide (rest = [])) (match_chunk (escape lit) s) = Some t /\ globs rest t.
Proof.
  intros Hl. rewrite globs_literal by done. split; intros (t & H & Ht); exists t.
  - split; [|done]. apply suits_Some. split; [done|]. by apply fits_rest.
  - apply suits_Some in H as [-> _]. done.
Qed.

Lemma length_unstar q : (length (unstar q) + (if starred q then 1 else 0) <= length q)%nat.
Proof.
  induction q as [|c q IH]; [done|]. cbn [unstar starred length]. destruct (c =? c_star); [|cbn; lia].
  destruct (starred q); lia.
Qed.

Lemma escape_eq_nil q (D : Decision (escape q = [])) : @bool_decide _ D = bool_decide (q = []).
Proof. apply bool_decide_ext, escape_nil. Qed.

Lemma unfold_match fuel q s : q <> [] -> path_Match (S fuel) (escape q) s =
  let '(lit, rest) := literal (unstar q) in
  if starred q && bool_decide (lit = []) then bool_decide (c_slash ∉ s) else
  match (if starred q then locate (bool_decide (rest = [])) lit s
         else suits (bool_decide (rest = [])) (match_chunk (escape lit) s)) with
  | Some t => path_Match fuel (escape rest) t
  | None => false
  end.
Proof.
  intros Hq. cbn [path_Match]. destruct (escape q) as [|c0 e0] eqn:Eq; [by apply (proj1 (escape_nil q)) in Eq|].
  rewrite <- Eq, scan_stars_escape, scan_chunk_escape. destruct (literal (unstar q)) as [lit rest].
  cbn [fst snd]. rewrite !escape_eq_nil. destruct (_ && _); [done|]. unfold locate.
  destruct (starred q), (suits _ _); done.
Qed.

Lemma path_Match_globs fuel : forall q s, (length q < fuel)%nat -> c_slash ∉ s ->
  path_Match fuel (escape q) s = true <-> globs q s.
Proof.
  induction fuel as [|fuel IH]; intros q s Hf Hs; [lia|].
  destruct (decide (q = [])) as [->|Hq]; [cbn; by rewrite globs_nil, bool_decide_eq_true|].
  rewrite unfold_match, globs_unstar by done.
  pose proof (unstar_start q) as Hstart. pose proof (length_unstar q) as Hlen.
  pose proof (literal_spec (unstar q)) as Hlit. destruct (literal (unstar q)) as [lit rest].
  destruct Hlit as (Hun & Hnostar & Hrest & Hne). specialize (Hne Hstart).
  assert (Hfuel : lit <> [] \/ starred q = true -> (length rest < fuel)%nat).
  { rewrite Hun, length_app in Hlen. intros [H|H]; [destruct lit; [done|cbn [length] in *; lia]|].
    rewrite H in Hlen. lia. }
  destruct (starred q) eqn:Est; cbn [andb].
  - case_bool_decide as El; [subst lit|].
    { rewrite bool_decide_true by done. cbn [app] in Hun. rewrite Hun in Hstart |- *.
      destruct Hrest as [->|[r ->]]; [|done]. split; [|done]. intros _. apply globs_star.
      exists s, []. rewrite app_nil_r. split; [done|constructor]. }
    rewrite Hun, globs_search by done.
    destruct (locate _ lit s) as [t|] eqn:E; [|split; [done|by intros (? & ? & _)]].
    rewrite IH; [split; [eauto|by intros (? & [= ->] & ?)]|auto|].
    pose proof (locate_spec (bool_decide (rest = [])) lit s Hs) as Hloc. rewrite E in Hloc.
    destruct Hloc as (_ & (pre & ->) & _). rewrite !elem_of_app in Hs. tauto.
  - rewrite Hun, globs_front by done. assert (lit <> []).
    { apply Hne. rewrite Hun. intros Hnil. destruct q as [|c q]; [done|]. cbn [starred unstar] in *.
      rewrite Est in Hun. rewrite Hnil in Hun. done. }
    destruct (suits _ _) as [t|] eqn:E; [|split; [done|by intros (? & ? & _)]].
    rewrite IH; [split; [eauto|by intros (? & [= ->] & ?)]|auto|].
    apply suits_Some in E as [-> _]. rewrite !elem_of_app in Hs. tauto.
Qed.

Lemma no_slash_clean s : c_slash ∉ no_slash s.
Proof.
  unfold no_slash. intros (x & Hx & _)%list_elem_of_fmap. by destruct (Z.eqb_spec x c_slash).
Qed.

(** C28: [GlobMatch] decides the declarative meaning of a glob: '*' stands for
    any run of bytes, every other byte for itself, up to the identification of
    '/' with NUL that the function makes to get '*' across slashes. *)
Theorem glob_match_correct pattern s :
  GlobMatch pattern s = true <-> globs (no_slash pattern) (no_slash s).
Proof.
  unfold GlobMatch. rewrite glob_escape_eq. apply path_Match_globs; [|apply no_slash_clean].
  pose proof (length_escape (no_slash pattern)). lia.
Qed.

Lemma no_slash_id s : 0 ∉ s -> forall s', 0 ∉ s' -> no_slash s = no_slash s' -> s = s'.
Proof.
  unfold no_slash. induction s as [|x s IH]; intros H0 [|y s'] H0' H; try done.
  apply not_elem_of_cons in H0 as [Hx H0], H0' as [Hy H0']. rewrite !fmap_cons in H.
  injection H as Hxy H. f_equal; [|by apply IH].
  destruct (Z.eqb_spec x c_slash), (Z.eqb_spec y c_slash); congruence.
Qed.

Example glob_crosses_slashes : GlobMatch (str "web-*/v?[1]*x") (str "web-a/b/v?[1]/x") = true.
Proof. vm_compute. reflexivity. Qed.
Example glob_is_literal_otherwise : GlobMatch (str "a?c") (str "abc") = false.
Proof. vm_compute. reflexivity. Qed.
(** The identification is visible: a slash in the pattern matches a NUL. *)
Example glob_slash_matches_nul : GlobMatch (str "a/b") [97; 0; 98] = true.
Proof. vm_compute. reflexivity. Qed.
