(* ===== verification/Index.v ===== *)
(** * The inverted index (internal/tsdb/index)

    Postings lists and the set operations over them, the selection shared by the
    head's index and a block's, and the metadata queries. *)

From Stdlib Require Import ZArith Lia.
From Stdlib Require Import (notations) String.
From stdpp Require Import base sorting gmap numbers list.
From S2P Require Import Prelude Gostring Tsdb.

(** ** [sort.Search]: the least [i < n] with [f i], or [n] *)

Fixpoint Search_loop (fuel : nat) (f : nat -> bool) (i j : nat) : nat :=
  match fuel with
  | O => i
  | S fuel' =>
      if (i <? j)%nat then
        let h := ((i + j) / 2)%nat in
        if f h then Search_loop fuel' f i h else Search_loop fuel' f (S h) j
      else i
  end.
Definition Search (n : nat) (f : nat -> bool) : nat := Search_loop n f 0 n.

(** The same over a test that indexes a slice; [None] is the panic of an index out of
    range. *)
Fixpoint SearchTry_loop (fuel : nat) (f : nat -> option bool) (i j : nat) : option nat :=
  match fuel with
  | O => Some i
  | S fuel' =>
      if (i <? j)%nat then
        let h := ((i + j) / 2)%nat in
        b ← f h;
        if b : bool then SearchTry_loop fuel' f i h else SearchTry_loop fuel' f (S h) j
      else Some i
  end.
Definition SearchTry (n : nat) (f : nat -> option bool) : option nat := SearchTry_loop n f 0 n.

(** ** Set operations on sorted lists *)

Definition at_least (l : list Z) (target : Z) (k : nat) : bool := target <=? nth k l 0.

Definition appendSorted (l : list Z) (id : Z) : list Z :=
  if match last l with None => true | Some y => y <? id end then l ++ [id] else
  let i := Search (length l) (at_least l id) in
  if (i <? length l)%nat && (nth i l 0 =? id) then l
  else take i l ++ id :: drop i l.

Definition removeID (l : list Z) (id : Z) : list Z :=
  let i := Search (length l) (at_least l id) in
  if negb (i <? length l)%nat || negb (nth i l 0 =? id) then l
  else take i l ++ drop (S i) l.

(** The doubling loop of [gallop]; [step] doubles, so the list's length is fuel. *)
Fixpoint gallop_loop (fuel : nat) (l : list Z) (target : Z) (i step : nat) : option (nat * nat) :=
  match fuel with
  | O => Some (i, step)
  | S fuel' =>
      more ← (if (i + step <? length l)%nat then x ← l !! (i + step)%nat; Some (x <? target) else Some false);
      if more : bool then gallop_loop fuel' l target (i + step) (2 * step) else Some (i, step)
  end.

(** [gallop], every index of the list checked. *)
Definition gallop_try (l : list Z) (target : Z) : option nat :=
  '(i, step) ← gallop_loop (length l) l target 0 1;
  let hi := ((i + step + 1) `min` length l)%nat in
  k ← SearchTry (hi - i) (fun k => x ← l !! (i + k)%nat; Some (target <=? x));
  Some (i + k)%nat.
Definition gallop (l : list Z) (target : Z) : nat := default 0%nat (gallop_try l target).

(** [a] and [b] are [a[i:]] and [b[j:]]. *)
Fixpoint intersect_loop (fuel : nat) (a b : list Z) : list Z :=
  match fuel, a, b with
  | S fuel', x :: a', y :: b' =>
      if x =? y then x :: intersect_loop fuel' a' b'
      else if x <? y then intersect_loop fuel' (drop (gallop a y) a) b
      else intersect_loop fuel' a (drop (gallop b x) b)
  | _, _, _ => []
  end.
Definition intersect (a b : list Z) : list Z := intersect_loop (length a + length b) a b.

(** [for j < len(b) && b[j] < id { j++ }] *)
Fixpoint skip_below (b : list Z) (id : Z) : list Z :=
  match b with y :: b' => if y <? id then skip_below b' id else b | [] => [] end.

Fixpoint subtract_loop (a b : list Z) : list Z :=
  match a with
  | [] => []
  | id :: a' =>
      let b := skip_below b id in
      match b with
      | y :: _ => if y =? id then subtract_loop a' b else id :: subtract_loop a' b
      | [] => id :: subtract_loop a' b
      end
  end.
Definition subtract (a b : list Z) : list Z := match b with [] => a | _ => subtract_loop a b end.

(** The least head, scanning left to right. *)
Fixpoint best_head (lists : list (list Z)) (best : option Z) : option Z :=
  match lists with
  | [] => best
  | (x :: _) :: rest =>
      best_head rest (match best with
                      | None => Some x
                      | Some b => if x <? b then Some x else Some b
                      end)
  | [] :: rest => best_head rest best
  end.

Definition advance_past (best : Z) (l : list Z) : list Z :=
  match l with x :: l' => if x =? best then l' else l | [] => [] end.

Fixpoint merge_loop (fuel : nat) (lists : list (list Z)) : list Z :=
  match fuel with
  | O => []
  | S fuel' =>
      match best_head lists None with
      | None => []
      | Some best => best :: merge_loop fuel' (advance_past best <$> lists)
      end
  end.

Definition merge_postings (lists : list (list Z)) : list Z :=
  match lists with
  | [] => []
  | [l] => l
  | _ => merge_loop (S (sum_list (length <$> lists))) lists
  end.

Fixpoint intersects_loop (fuel : nat) (a b : list Z) : bool :=
  match fuel, a, b with
  | S fuel', x :: a', y :: b' =>
      if x =? y then true
      else if x <? y then intersects_loop fuel' a' b else intersects_loop fuel' a b'
  | _, _, _ => false
  end.
Definition intersects (a b : list Z) : bool := intersects_loop (length a + length b) a b.

(** ** The read interface *)

Definition MetricName : gostring := str "__name__".

Class Lookup (X : Type) := {
  Postings : X -> gostring -> gostring -> list Z;
  TagValues : X -> gostring -> list gostring;
  TagKeys : X -> list gostring;
  AllSeries : X -> list Z;
}.

(** [union] *)
Definition union_matching `{Lookup X} (l : X) (key pattern : gostring) : list Z :=
  merge_postings ((fun v => Postings l key v) <$> filter (fun v => GlobMatch pattern v = true) (TagValues l key)).

Definition positives `{Lookup X} (l : X) (sel : Selector) : list (list Z) :=
  (match sel_Metric sel with [] => [] | _ => [Postings l MetricName (sel_Metric sel)] end)
  ++ (sel_Matchers sel ≫= fun m =>
        match m_Type m with
        | Equal => [Postings l (m_Key m) (m_Value m)]
        | Wildcard => [union_matching l (m_Key m) (m_Value m)]
        | NotEqual | NotWildcard => []
        end).

Definition negatives (sel : Selector) : list Matcher :=
  filter (fun m => match m_Type m with NotEqual | NotWildcard => true | _ => false end = true)
    (sel_Matchers sel).

Definition shorter (a b : list Z) : Prop := (length a <= length b)%nat.
#[export] Instance shorter_dec : RelDecision shorter.
Proof. intros a b. unfold shorter. apply _. Defined.

(** The intersection loop, with its early return. *)
Fixpoint intersect_all (ids : list Z) (rest : list (list Z)) : option (list Z) :=
  match rest with
  | [] => Some ids
  | next :: rest' =>
      match intersect ids next with
      | [] => None
      | ids' => intersect_all ids' rest'
      end
  end.

Definition subtract_matcher `{Lookup X} (l : X) (ids : list Z) (m : Matcher) : list Z :=
  match m_Type m with
  | NotEqual => subtract ids (Postings l (m_Key m) (m_Value m))
  | NotWildcard => subtract ids (union_matching l (m_Key m) (m_Value m))
  | Equal | Wildcard => ids
  end.

Definition IndexSelect `{Lookup X} (l : X) (sel : Selector) : list Z :=
  match (match merge_sort shorter (positives l sel) with
         | [] => Some (AllSeries l)
         | ids :: rest => intersect_all ids rest
         end) with
  | None => []
  | Some ids => foldl (subtract_matcher l) ids (negatives sel)
  end.

(** ** Metadata *)

Fixpoint hasPrefix (s prefix : gostring) : bool :=
  match prefix, s with
  | [], _ => true
  | c :: p, x :: s' => (x =? c) && hasPrefix s' p
  | _ :: _, [] => false
  end.

Definition Metrics `{Lookup X} (l : X) (prefix : gostring) : list gostring :=
  merge_sort str_le (filter (fun name => hasPrefix name prefix = true) (TagValues l MetricName)).

(** The ids a metadata query is restricted to; [None] is "no such metric". *)
Definition restriction `{Lookup X} (l : X) (metric : gostring) : option (option (list Z)) :=
  match metric with
  | [] => Some None
  | _ => match Postings l MetricName metric with [] => None | ids => Some (Some ids) end
  end.

Definition Keys `{Lookup X} (l : X) (metric : gostring) : list gostring :=
  match restriction l metric with
  | None => []
  | Some ids =>
      merge_sort str_le (filter (fun key =>
        bool_decide (key <> MetricName)
        && match ids with
           | None => true
           | Some ids => existsb (fun v => intersects (Postings l key v) ids) (TagValues l key)
           end = true) (TagKeys l))
  end.

Definition Values `{Lookup X} (l : X) (metric key : gostring) : list gostring :=
  match restriction l metric with
  | None => []
  | Some ids =>
      merge_sort str_le (filter (fun v =>
        match ids with None => true | Some ids => intersects (Postings l key v) ids end = true)
        (TagValues l key))
  end.

(** ** The in-memory index *)

Record MemPostings := MkMemPostings {
  mp_m : gmap gostring (gmap gostring (list Z));
  mp_all : list Z;
}.

Definition NewMemPostings : MemPostings := MkMemPostings ∅ [].

Definition postings_of (m : gmap gostring (gmap gostring (list Z))) (key value : gostring) : list Z :=
  default [] (m !! key ≫= fun vals => vals !! value).

Definition mp_add (m : gmap gostring (gmap gostring (list Z))) (key value : gostring) (id : Z) :=
  let vals := default ∅ (m !! key) in
  <[key := <[value := appendSorted (default [] (vals !! value)) id]> vals]> m.

Definition MemAdd (p : MemPostings) (id : Z) (s : SeriesRef) : MemPostings :=
  let m := mp_add (mp_m p) MetricName (sr_Metric s) id in
  let m := foldl (fun m t => mp_add m (t_Key t) (t_Value t) id) m (sr_Tags s) in
  MkMemPostings m (appendSorted (mp_all p) id).

Definition mp_remove (m : gmap gostring (gmap gostring (list Z))) (key value : gostring) (id : Z) :=
  match m !! key with
  | None => m
  | Some vals =>
      match removeID (default [] (vals !! value)) id with
      | [] =>
          let vals := delete value vals in
          if decide (vals = ∅) then delete key m else <[key := vals]> m
      | l => <[key := <[value := l]> vals]> m
      end
  end.

Definition MemDelete (p : MemPostings) (id : Z) (s : SeriesRef) : MemPostings :=
  let m := mp_remove (mp_m p) MetricName (sr_Metric s) id in
  let m := foldl (fun m t => mp_remove m (t_Key t) (t_Value t) id) m (sr_Tags s) in
  MkMemPostings m (removeID (mp_all p) id).

#[export] Instance MemPostings_Lookup : Lookup MemPostings := {|
  Postings := fun p key value => postings_of (mp_m p) key value;
  TagValues := fun p key => match mp_m p !! key with None => [] | Some vals => fst <$> map_to_list vals end;
  TagKeys := fun p => fst <$> map_to_list (mp_m p);
  AllSeries := fun p => mp_all p;
|}.

Definition MemSize (p : MemPostings) : nat * nat :=
  (length (mp_all p), sum_list ((fun kv => size kv.2) <$> map_to_list (mp_m p))).
