(* ===== verification/IndexProofs.v ===== *)
(** * Correctness of the inverted index

    The set operations against their meaning, the in-memory index against the
    series it holds, and selection against the matchers' reference semantics. *)

From Stdlib Require Import ZArith Lia.
From Stdlib Require Import (notations) String.
From stdpp Require Import base sorting gmap numbers list.
From S2P Require Import Prelude Gostring Tsdb Index.

Abbreviation ssorted := (StronglySorted Z.lt).

(** ** Strictly sorted lists *)

Lemma ssorted_strict l : ssorted l <-> StronglySorted (strict Z.le) l.
Proof.
  split; induction 1 as [|x l Hs IH Hx]; constructor; try done;
    (eapply Forall_impl; [exact Hx|]); intros y; cbn; unfold strict; lia.
Qed.

Lemma ssorted_ext l1 l2 : ssorted l1 -> ssorted l2 -> (forall x, x ∈ l1 <-> x ∈ l2) -> l1 = l2.
Proof. rewrite !ssorted_strict. apply (strict_sorted_unique Z.le). Qed.

Lemma ssorted_cons x l : ssorted (x :: l) <-> ssorted l /\ (forall y, y ∈ l -> x < y).
Proof.
  split.
  - intros H. apply StronglySorted_inv in H as [Hs Hx]. rewrite Forall_forall in Hx. done.
  - intros [Hs Hx]. constructor; [done|]. by apply Forall_forall.
Qed.

Lemma ssorted_app l1 l2 : ssorted (l1 ++ l2) <->
  ssorted l1 /\ ssorted l2 /\ (forall x y, x ∈ l1 -> y ∈ l2 -> x < y).
Proof.
  induction l1 as [|a l1 IH]; cbn [app].
  - split; [intros H; split_and!; [constructor|done|intros x y Hx; by apply not_elem_of_nil in Hx]|by intros (_ & ? & _)].
  - rewrite !ssorted_cons, IH. setoid_rewrite elem_of_app. setoid_rewrite elem_of_cons. naive_solver.
Qed.

Lemma ssorted_NoDup l : ssorted l -> NoDup l.
Proof.
  induction l as [|x l IH]; [constructor|]. rewrite ssorted_cons. intros [Hs Hx].
  apply NoDup_cons. split; [|by apply IH]. intros Hin. specialize (Hx x Hin). lia.
Qed.

Lemma ssorted_filter (P : Z -> Prop) `{!forall x, Decision (P x)} l : ssorted l -> ssorted (filter P l).
Proof.
  induction l as [|x l IH]; [done|]. rewrite ssorted_cons. intros [Hs Hx].
  rewrite filter_cons. case_decide; [|by apply IH]. apply ssorted_cons. split; [by apply IH|].
  intros y Hy. apply list_elem_of_filter in Hy as [_ Hy]. by apply Hx.
Qed.

Lemma ssorted_nth l i j : ssorted l -> (i < j < length l)%nat -> nth i l 0 < nth j l 0.
Proof.
  revert i j. induction l as [|x l IH]; intros i j Hs Hij; [cbn in Hij; lia|].
  apply ssorted_cons in Hs as [Hs Hx]. destruct j as [|j]; [lia|]. cbn [nth length] in *.
  destruct i as [|i]; [apply Hx, list_elem_of_In, nth_In; lia|]. apply IH; [done|lia].
Qed.

Lemma nth_take_drop (l : list Z) i : (i < length l)%nat -> l = take i l ++ nth i l 0 :: drop (S i) l.
Proof.
  intros Hi. symmetry. apply take_drop_middle. rewrite nth_lookup.
  destruct (lookup_lt_is_Some_2 l i Hi) as [x Hx]. by rewrite Hx.
Qed.

Lemma drop_nth (l : list Z) i : (i < length l)%nat -> drop i l = nth i l 0 :: drop (S i) l.
Proof.
  intros Hi. apply drop_S. rewrite nth_lookup. by destruct (lookup_lt_is_Some_2 l i Hi) as [x ->].
Qed.

(** ** Searching *)

Lemma Search_loop_spec fuel f n : forall i j, (forall a b, (a <= b < n)%nat -> f a = true -> f b = true) ->
  (i <= j <= n)%nat -> (j - i <= fuel)%nat ->
  (forall a, (a < i)%nat -> f a = false) -> (forall a, (j <= a < n)%nat -> f a = true) ->
  let k := Search_loop fuel f i j in
  (k <= n)%nat /\ (forall a, (a < k)%nat -> f a = false) /\ (forall a, (k <= a < n)%nat -> f a = true).
Proof.
  induction fuel as [|fuel IH]; intros i j Hmono Hij Hfuel Hlo Hhi; cbn [Search_loop].
  - assert (i = j) as -> by lia. split_and!; [lia|done|done].
  - destruct (Nat.ltb_spec i j) as [Hlt|Hge].
    + assert (Hh : (i <= (i + j) / 2 < j)%nat).
      { split; [apply Nat.div_le_lower_bound; lia|apply Nat.div_lt_upper_bound; lia]. }
      destruct (f ((i + j) / 2)%nat) eqn:E.
      * apply IH; try done; [lia|lia|]. intros a Ha. eapply Hmono; [|exact E]. lia.
      * apply IH; try done; [lia|lia|]. intros a Ha. destruct (f a) eqn:Ea; [|done].
        rewrite <- E. symmetry. eapply Hmono; [|exact Ea]. lia.
    + assert (i = j) as -> by lia. split_and!; [lia|done|done].
Qed.

Lemma Search_spec n f : (forall a b, (a <= b < n)%nat -> f a = true -> f b = true) ->
  let k := Search n f in
  (k <= n)%nat /\ (forall a, (a < k)%nat -> f a = false) /\ (forall a, (k <= a < n)%nat -> f a = true).
Proof. intros H. apply Search_loop_spec; try done; intros; lia. Qed.

(** A test that indexes in range is a search like any other. *)
Lemma SearchTry_pure n f g : (forall i, (i < n)%nat -> f i = Some (g i)) -> SearchTry n f = Some (Search n g).
Proof.
  intros Hf. assert (Hl : forall fuel i j, (j <= n)%nat -> SearchTry_loop fuel f i j = Some (Search_loop fuel g i j)); [|by apply Hl].
  induction fuel as [|fuel IH]; intros i j Hj; cbn [SearchTry_loop Search_loop]; [done|]. destruct (Nat.ltb_spec i j) as [Hlt|]; [|done].
  assert (Hh : ((i + j) / 2 < j)%nat) by (apply Nat.div_lt_upper_bound; lia). rewrite Hf by lia. cbn [mbind option_bind]. destruct (g _); apply IH; lia.
Qed.

(** A position that splits a list at a value. *)
Definition splits (l : list Z) (id : Z) (k : nat) : Prop :=
  (k <= length l)%nat /\ (forall x, x ∈ take k l -> x < id) /\ (forall x, x ∈ drop k l -> id <= x).

Lemma splits_nth l id k : (k <= length l)%nat ->
  (forall a, (a < k)%nat -> nth a l 0 < id) -> (forall a, (k <= a < length l)%nat -> id <= nth a l 0) ->
  splits l id k.
Proof.
  intros Hk Hlo Hhi. split_and!; [done| |]; intros x Hx; apply list_elem_of_lookup in Hx as [i Hi].
  - apply lookup_take_Some in Hi as [Hi Hlt]. specialize (Hlo i Hlt). by rewrite nth_lookup, Hi in Hlo.
  - rewrite lookup_drop in Hi. pose proof (lookup_lt_Some _ _ _ Hi).
    specialize (Hhi (k + i)%nat). rewrite nth_lookup, Hi in Hhi. apply Hhi. lia.
Qed.

Lemma Search_splits l id : ssorted l -> splits l id (Search (length l) (at_least l id)).
Proof.
  intros Hs. destruct (Search_spec (length l) (at_least l id)) as (Hk & Hlo & Hhi).
  { unfold at_least. intros a b Hab Ha. apply Z.leb_le. b2p.
    destruct (decide (a = b)) as [->|]; [done|]. pose proof (ssorted_nth l a b Hs). lia. }
  apply splits_nth; [done| |]; unfold at_least in *; intros a Ha.
  - specialize (Hlo a Ha). blia.
  - specialize (Hhi a Ha). blia.
Qed.

Lemma splits_at l id k : ssorted l -> splits l id k ->
  ((k < length l)%nat /\ nth k l 0 = id) <-> id ∈ l.
Proof.
  intros Hs (Hk & Hlo & Hhi). split.
  - intros [Hlt <-]. apply list_elem_of_In, nth_In. done.
  - intros Hin. rewrite <- (take_drop k l) in Hin. apply elem_of_app in Hin as [Hin|Hin]; [apply Hlo in Hin; lia|].
    assert (Hlt : (k < length l)%nat).
    { destruct (decide (k < length l)%nat); [done|]. rewrite drop_ge in Hin by lia. by apply not_elem_of_nil in Hin. }
    split; [done|]. rewrite (nth_take_drop l k Hlt) in Hs. apply ssorted_app in Hs as (_ & Hs & _).
    apply ssorted_cons in Hs as [_ Hx].
    assert (id <= nth k l 0). { apply Hhi. rewrite (drop_nth l k Hlt). by left. }
    rewrite (drop_nth l k Hlt) in Hin. apply elem_of_cons in Hin as [->|Hin]; [done|]. apply Hx in Hin. lia.
Qed.

(** ** Insertion and removal *)

Lemma appendSorted_spec l id : ssorted l ->
  ssorted (appendSorted l id) /\ (forall x, x ∈ appendSorted l id <-> x = id \/ x ∈ l).
Proof.
  intros Hs. unfold appendSorted.
  destruct (match last l with None => true | Some y => y <? id end) eqn:Elast.
  - split; [|intros x; rewrite elem_of_app, list_elem_of_singleton; tauto].
    apply ssorted_app. split_and!; [done|repeat constructor|]. intros x y Hx Hy.
    apply list_elem_of_singleton in Hy as ->.
    destruct (last l) as [z|] eqn:El; [|apply last_None in El as ->; by apply not_elem_of_nil in Hx].
    apply last_Some in El as [l' ->]. b2p. apply ssorted_app in Hs as (_ & _ & Hlt).
    apply elem_of_app in Hx as [Hx|Hx]; [|apply list_elem_of_singleton in Hx; lia].
    specialize (Hlt x z Hx). rewrite list_elem_of_singleton in Hlt. lia.
  - pose proof (Search_splits l id Hs) as Hsp. set (i := Search _ _) in *.
    pose proof (splits_at l id i Hs Hsp) as Hat.
    destruct ((i <? length l)%nat && (nth i l 0 =? id)) eqn:E.
    + split; [done|]. intros x. split; [by right|]. intros [->|]; [|done]. apply Hat.
      apply andb_prop in E as [E1%Nat.ltb_lt E2%Z.eqb_eq]. done.
    + assert (Hnot : id ∉ l).
      { rewrite <- Hat. intros [H1 H2]. apply andb_false_iff in E as [E%Nat.ltb_ge|E%Z.eqb_neq]; [lia|done]. }
      destruct Hsp as (Hi & Hlo & Hhi). rewrite <- (take_drop i l) in Hs at 1.
      apply ssorted_app in Hs as (Ht & Hd & Hlt). split.
      * apply ssorted_app. split_and!; [done| |].
        -- apply ssorted_cons. split; [done|]. intros y Hy. specialize (Hhi y Hy).
           assert (y <> id); [|lia]. intros ->. apply Hnot. rewrite <- (take_drop i l).
           apply elem_of_app. by right.
        -- intros x y Hx Hy. apply elem_of_cons in Hy as [->|Hy]; [by apply Hlo|by apply Hlt].
      * intros x. rewrite <- (take_drop i l) at 3. rewrite !elem_of_app, elem_of_cons. tauto.
Qed.

Lemma removeID_spec l id : ssorted l ->
  ssorted (removeID l id) /\ (forall x, x ∈ removeID l id <-> x <> id /\ x ∈ l).
Proof.
  intros Hs. unfold removeID. pose proof (Search_splits l id Hs) as Hsp. set (i := Search _ _) in *.
  pose proof (splits_at l id i Hs Hsp) as Hat.
  destruct (negb (i <? length l)%nat || negb (nth i l 0 =? id)) eqn:E.
  - assert (Hnot : id ∉ l).
    { rewrite <- Hat. intros [H1 H2]. apply Nat.ltb_lt in H1. rewrite H1, H2, Z.eqb_refl in E. done. }
    split; [done|]. intros x. split; [|by intros []]. intros Hx. split; [|done]. by intros ->.
  - apply orb_false_iff in E as [E1 E2]. apply negb_false_iff in E1, E2.
    apply Nat.ltb_lt in E1. apply Z.eqb_eq in E2. pose proof (nth_take_drop l i E1) as Hl. rewrite E2 in Hl.
    rewrite Hl in Hs. apply ssorted_app in Hs as (Ht & Hd & Hlt). apply ssorted_cons in Hd as [Hd Hgt].
    split.
    + apply ssorted_app. split_and!; [done|done|]. intros x y Hx Hy. apply Hlt; [done|]. by right.
    + intros x. rewrite Hl at 3. rewrite !elem_of_app, elem_of_cons. split.
      * intros [Hx|Hx]; (split; [|tauto]); intros ->.
        -- assert (id < id); [|lia]. apply Hlt; [done|by left].
        -- apply Hgt in Hx. lia.
      * tauto.
Qed.

(** ** Galloping *)

Lemma lookup_nth (l : list Z) i : (i < length l)%nat -> l !! i = Some (nth i l 0).
Proof. intros Hi. destruct (lookup_lt_is_Some_2 l i Hi) as [x Hx]. by rewrite nth_lookup, Hx. Qed.

Lemma gallop_loop_spec fuel l target : forall i step,
  (0 < step)%nat -> (length l - i <= fuel)%nat -> ((0 < i)%nat -> (i < length l)%nat /\ nth i l 0 < target) ->
  exists i' step', gallop_loop fuel l target i step = Some (i', step')
  /\ (0 < step')%nat /\ ((0 < i')%nat -> (i' < length l)%nat /\ nth i' l 0 < target)
  /\ ((length l <= i' + step')%nat \/ target <= nth (i' + step') l 0).
Proof.
  induction fuel as [|fuel IH]; intros i step Hst Hf Hi; cbn [gallop_loop].
  - exists i, step. split_and!; [done|done|done|]. left. lia.
  - destruct (Nat.ltb_spec (i + step) (length l)) as [Hlt|Hge]; cbn [mbind option_bind].
    + rewrite lookup_nth by done. cbn [mbind option_bind]. destruct (Z.ltb_spec (nth (i + step) l 0) target) as [Ht|Ht]; [apply IH; [lia|lia|done]|].
      exists i, step. auto.
    + exists i, step. auto.
Qed.

(** No index of [gallop] is out of range, whatever the list. *)
Lemma gallop_try_spec l target : exists i step, gallop_try l target = Some (i + Search (((i + step + 1) `min` length l) - i) (fun k => (target <=? nth (i + k) l 0)%Z))%nat
  /\ (0 < step)%nat /\ ((0 < i)%nat -> (i < length l)%nat /\ nth i l 0 < target)
  /\ ((length l <= i + step)%nat \/ target <= nth (i + step) l 0).
Proof.
  destruct (gallop_loop_spec (length l) l target 0 1) as (i & step & E & H); [lia|lia|lia|]. exists i, step. split; [|done]. unfold gallop_try. rewrite E. cbn [mbind option_bind].
  rewrite (SearchTry_pure _ _ (fun k => target <=? nth (i + k) l 0)); [done|]. intros k Hk. rewrite lookup_nth by lia. done.
Qed.

Lemma gallop_splits l target : ssorted l -> splits l target (gallop l target).
Proof.
  intros Hs. unfold gallop. destruct (gallop_try_spec l target) as (i & step & -> & Hst & Hi & Hend). cbn [default from_option id].
  set (hi := ((i + step + 1) `min` length l)%nat).
  assert (Hmono : forall a b, (a <= b < length l)%nat -> target <= nth a l 0 -> target <= nth b l 0).
  { intros a b Hab Ha. destruct (decide (a = b)) as [->|]; [done|].
    pose proof (ssorted_nth l a b Hs). lia. }
  assert (Hil : (i <= hi)%nat). { unfold hi. destruct (decide (i = 0)%nat); [lia|]. destruct Hi; lia. }
  destruct (Search_spec (hi - i) (fun k => target <=? nth (i + k) l 0)) as (Hk & Hlo & Hhi).
  { intros a b Hab Ha. b2p. apply Z.leb_le. apply (Hmono (i + a)%nat); [unfold hi in *; lia|done]. }
  set (k := Search _ _) in *. apply splits_nth; [unfold hi in *; lia| |].
  - intros a Ha. destruct (decide (a < i)%nat) as [Hai|Hai].
    + destruct Hi as [Hi1 Hi2]; [lia|]. pose proof (ssorted_nth l a i Hs). lia.
    + specialize (Hlo (a - i)%nat). replace (i + (a - i))%nat with a in Hlo by lia.
      assert ((target <=? nth a l 0) = false) by (apply Hlo; lia). blia.
  - intros a Ha. destruct (decide (a < hi)%nat) as [Hah|Hah].
    + specialize (Hhi (a - i)%nat). replace (i + (a - i))%nat with a in Hhi by lia.
      assert ((target <=? nth a l 0) = true) by (apply Hhi; lia). blia.
    + destruct Hend as [Hend|Hend]; [unfold hi in *; lia|]. apply (Hmono (i + step)%nat); [unfold hi in *; lia|done].
Qed.

Lemma splits_progress x l target k : splits (x :: l) target k -> x < target -> (0 < k)%nat.
Proof.
  intros (_ & _ & Hhi) Hx. destruct k; [|lia]. specialize (Hhi x). cbn [drop] in Hhi.
  assert (target <= x) by (apply Hhi; by left). lia.
Qed.

Lemma ssorted_drop l k : ssorted l -> ssorted (drop k l).
Proof. intros Hs. rewrite <- (take_drop k l) in Hs. by apply ssorted_app in Hs as (_ & ? & _). Qed.

Lemma filter_ext_in {A} (P Q : A -> Prop) `{!forall x, Decision (P x), !forall x, Decision (Q x)} (l : list A) :
  (forall x, x ∈ l -> P x <-> Q x) -> filter P l = filter Q l.
Proof.
  induction l as [|x l IH]; intros HPQ; [done|]. rewrite !filter_cons.
  rewrite IH by (intros; apply HPQ; by right). specialize (HPQ x ltac:(by left)).
  destruct (decide (P x)), (decide (Q x)); tauto.
Qed.

Lemma intersect_loop_spec fuel : forall a b, ssorted a -> ssorted b -> (length a + length b <= fuel)%nat ->
  intersect_loop fuel a b = filter (fun x => x ∈ b) a.
Proof.
  induction fuel as [|fuel IH]; intros a b Ha Hb Hf; cbn [intersect_loop].
  { destruct a; [done|cbn in Hf; lia]. }
  destruct a as [|x a]; [done|]. destruct b as [|y b].
  { symmetry. apply filter_none. intros z _ Hz. by apply not_elem_of_nil in Hz. }
  pose proof Ha as Ha0. pose proof Hb as Hb0. apply ssorted_cons in Ha as [Ha Hxa], Hb as [Hb Hyb].
  destruct (Z.eqb_spec x y) as [->|Hne].
  - rewrite IH by (done || cbn in Hf; lia). rewrite filter_cons_True by by left. f_equal.
    apply filter_ext_in. intros z Hz. rewrite elem_of_cons. apply Hxa in Hz. intuition lia.
  - destruct (Z.ltb_spec x y).
    + pose proof (gallop_splits (x :: a) y Ha0) as Hsp. set (k := gallop _ _) in *.
      pose proof (splits_progress _ _ _ _ Hsp ltac:(done)) as Hpos.
      rewrite IH; [|by apply ssorted_drop|done|rewrite length_drop; cbn [length] in *; lia].
      rewrite <- (take_drop k (x :: a)) at 2. rewrite filter_app.
      rewrite (filter_none _ (take k (x :: a))); [done|].
      intros z Hz Hzb. destruct Hsp as (_ & Hlo & _). apply Hlo in Hz.
      apply elem_of_cons in Hzb as [->|Hzb]; [lia|]. apply Hyb in Hzb. lia.
    + pose proof (gallop_splits (y :: b) x Hb0) as Hsp. set (k := gallop _ _) in *.
      pose proof (splits_progress _ _ _ _ Hsp ltac:(lia)) as Hpos.
      rewrite IH; [|done|by apply ssorted_drop|rewrite length_drop; cbn [length] in *; lia].
      apply filter_ext_in. intros z Hz. rewrite <- (take_drop k (y :: b)) at 2. rewrite elem_of_app.
      split; [by right|]. intros [Hz'|?]; [|done]. destruct Hsp as (_ & Hlo & _). apply Hlo in Hz'.
      apply elem_of_cons in Hz as [->|Hz]; [lia|]. apply Hxa in Hz. lia.
Qed.

Lemma intersect_spec a b : ssorted a -> ssorted b -> intersect a b = filter (fun x => x ∈ b) a.
Proof. intros. by apply intersect_loop_spec. Qed.

Lemma intersects_spec a b : ssorted a -> ssorted b ->
  intersects a b = true <-> exists x, x ∈ a /\ x ∈ b.
Proof.
  intros Ha Hb. unfold intersects.
  assert (Hf : (length a + length b <= length a + length b)%nat) by lia. revert Ha Hb Hf.
  generalize (length a + length b)%nat at 2 3 as fuel. intros fuel. revert a b.
  induction fuel as [|fuel IH]; intros a b Ha Hb Hf; cbn [intersects_loop].
  { destruct a; [|cbn in Hf; lia]. split; [done|]. intros (x & Hx & _). by apply not_elem_of_nil in Hx. }
  destruct a as [|x a]; [split; [done|intros (x & Hx & _); by apply not_elem_of_nil in Hx]|].
  destruct b as [|y b]; [split; [done|intros (z & _ & Hx); by apply not_elem_of_nil in Hx]|].
  pose proof Ha as Ha0. pose proof Hb as Hb0. apply ssorted_cons in Ha as [Ha Hxa], Hb as [Hb Hyb].
  destruct (Z.eqb_spec x y) as [->|Hne]; [split; [intros _; exists y; split; by left|done]|].
  cbn [length] in Hf. destruct (Z.ltb_spec x y).
  - rewrite IH by (done || cbn [length]; lia). split; intros (z & Hz & Hzb); exists z; (split; [|done]); [by right|].
    apply elem_of_cons in Hz as [->|]; [|done]. exfalso.
    apply elem_of_cons in Hzb as [->|Hzb]; [lia|]. apply Hyb in Hzb. lia.
  - rewrite IH by (done || cbn [length]; lia). split; intros (z & Hz & Hzb); exists z; (split; [done|]); [by right|].
    apply elem_of_cons in Hzb as [->|]; [|done]. exfalso.
    apply elem_of_cons in Hz as [->|Hz]; [lia|]. apply Hxa in Hz. lia.
Qed.

Lemma skip_below_spec b id : ssorted b ->
  ssorted (skip_below b id) /\ (forall x, x ∈ skip_below b id <-> x ∈ b /\ id <= x).
Proof.
  induction b as [|y b IH]; intros Hb; cbn [skip_below].
  { split; [done|]. intros x. split; [intros H; by apply not_elem_of_nil in H|by intros [? _]]. }
  pose proof Hb as Hb0. apply ssorted_cons in Hb as [Hb Hy]. destruct (Z.ltb_spec y id).
  - destruct (IH Hb) as [Hs He]. split; [done|]. intros x. rewrite He, elem_of_cons. split; [tauto|].
    intros [[->|?] ?]; [lia|done].
  - split; [done|]. intros x. split; [|by intros [? _]]. intros Hx. split; [done|].
    apply elem_of_cons in Hx as [->|Hx]; [done|]. apply Hy in Hx. lia.
Qed.

Lemma subtract_spec a b : ssorted a -> ssorted b -> subtract a b = filter (fun x => x ∉ b) a.
Proof.
  intros Ha Hb. unfold subtract. destruct b as [|y0 b0].
  { symmetry. apply filter_all. intros x _. apply not_elem_of_nil. }
  revert Hb. generalize (y0 :: b0). intros b. revert b.
  induction a as [|id a IH]; intros b Hb; [done|]. cbn [subtract_loop].
  apply ssorted_cons in Ha as [Ha Hid]. destruct (skip_below_spec b id Hb) as [Hs He].
  assert (Hrest : filter (fun x => x ∉ skip_below b id) a = filter (fun x => x ∉ b) a).
  { apply filter_ext_in. intros x Hx. rewrite He. apply Hid in Hx. split; [|tauto].
    intros Hn Hb'. apply Hn. split; [done|lia]. }
  assert (Hin : id ∈ b <-> exists r, skip_below b id = id :: r).
  { split.
    - intros Hin. assert (Hin' : id ∈ skip_below b id) by (apply He; split; [done|lia]).
      destruct (skip_below b id) as [|y r]; [by apply not_elem_of_nil in Hin'|].
      assert (y = id) as ->; [|eauto]. apply ssorted_cons in Hs as [_ Hy].
      assert (id <= y) by (apply He; by left). apply elem_of_cons in Hin' as [->|Hin']; [done|].
      apply Hy in Hin'. lia.
    - intros [r Hr]. assert (id ∈ skip_below b id) by (rewrite Hr; by left). by apply He. }
  rewrite filter_cons, <- Hrest. destruct (skip_below b id) as [|y r] eqn:E.
  - rewrite decide_True by (rewrite Hin; by intros [? ?]). f_equal. by apply IH.
  - destruct (Z.eqb_spec y id) as [->|Hne].
    + rewrite decide_False by (intros Hn; apply Hn, Hin; eauto). by apply IH.
    + rewrite decide_True by (rewrite Hin; intros [? ?]; congruence). f_equal. by apply IH.
Qed.

(** ** Merging *)

Lemma best_head_spec lists : forall best,
  match best_head lists best with
  | None => best = None /\ forall l, l ∈ lists -> l = []
  | Some b => (best = Some b \/ exists l, b :: l ∈ lists)
      /\ (forall b0, best = Some b0 -> b <= b0) /\ (forall x l, x :: l ∈ lists -> b <= x)
  end.
Proof.
  induction lists as [|l lists IH]; intros best; cbn [best_head].
  { destruct best as [b|]; [split_and!; [by left|intros ? [= ->]; lia|]|split; [done|]];
      intros *; intros H; by apply not_elem_of_nil in H. }
  destruct l as [|x l].
  - specialize (IH best). destruct (best_head lists best) as [b|].
    + destruct IH as (H1 & H2 & H3). split_and!; [|done|].
      * destruct H1 as [|[l Hl]]; [by left|right; exists l; by right].
      * intros y l Hy. apply elem_of_cons in Hy as [?|Hy]; [done|by eapply H3].
    + destruct IH as [-> H]. split; [done|]. intros l Hl. apply elem_of_cons in Hl as [->|Hl]; [done|by apply H].
  - set (best' := match best with None => Some x | Some b => if x <? b then Some x else Some b end).
    specialize (IH best').
    assert (Hb' : exists b', best' = Some b' /\ b' <= x /\ (forall b0, best = Some b0 -> b' <= b0)
      /\ (b' = x \/ best = Some b')).
    { unfold best'. destruct best as [b|]; [destruct (Z.ltb_spec x b)|]; eexists; (split; [done|]);
        (split; [lia|]); (split; [intros ? [= <-]; lia|]); auto. }
    destruct Hb' as (b' & Eb & Hx & Hb0 & Hor). rewrite Eb in IH.
    rewrite Eb.
    destruct (best_head lists (Some b')) as [b|]; [|by destruct IH].
    destruct IH as (H1 & H2 & H3). assert (b <= b') by by apply H2. split_and!.
    + destruct H1 as [[= ->]|[l' Hl']]; [|right; exists l'; by right].
      destruct Hor as [->|?]; [right; exists l; by left|by left].
    + intros b0 E. apply Hb0 in E. lia.
    + intros y l' Hy. apply elem_of_cons in Hy as [[= -> ->]|Hy]; [lia|by eapply H3].
Qed.

Lemma advance_past_spec best l : ssorted l -> (forall x l', l = x :: l' -> best <= x) ->
  ssorted (advance_past best l) /\ (length (advance_past best l) <= length l)%nat
  /\ (forall x, x ∈ advance_past best l <-> x ∈ l /\ best < x).
Proof.
  intros Hs Hb. destruct l as [|y l]; cbn [advance_past].
  { split_and!; [done|done|]. intros x. split; [intros H; by apply not_elem_of_nil in H|by intros []]. }
  specialize (Hb y l eq_refl). pose proof Hs as Hs0. apply ssorted_cons in Hs as [Hs Hy].
  destruct (Z.eqb_spec y best) as [->|Hne].
  - split_and!; [done|cbn [length]; lia|]. intros x. rewrite elem_of_cons. split.
    + intros Hx. split; [by right|by apply Hy].
    + intros [[->|?] ?]; [lia|done].
  - split_and!; [done|done|]. intros x. split; [|by intros []]. intros Hx. split; [done|].
    apply elem_of_cons in Hx as [->|Hx]; [lia|]. apply Hy in Hx. lia.
Qed.

Lemma sum_advance best lists : Forall ssorted lists -> (forall x l, x :: l ∈ lists -> best <= x) ->
  (exists l, best :: l ∈ lists) ->
  (sum_list (length <$> (advance_past best <$> lists)) < sum_list (length <$> lists))%nat.
Proof.
  induction lists as [|l lists IH]; intros Hs Hb [l0 Hl0]; [by apply not_elem_of_nil in Hl0|].
  apply Forall_cons_1 in Hs as [Hl Hs]. rewrite !fmap_cons. cbn [sum_list sum_list_with].
  assert (Hle : forall ls, Forall ssorted ls -> (forall x l, x :: l ∈ ls -> best <= x) ->
    (sum_list (length <$> (advance_past best <$> ls)) <= sum_list (length <$> ls))%nat).
  { clear. induction ls as [|l ls IH]; intros Hs Hb; [done|]. apply Forall_cons_1 in Hs as [Hl Hs].
    rewrite !fmap_cons. cbn [sum_list sum_list_with].
    destruct (advance_past_spec best l Hl) as (_ & H & _); [intros x l' ->; eapply Hb; by left|].
    specialize (IH Hs ltac:(intros; eapply Hb; by right)). unfold sum_list in *. cbn in *. lia. }
  apply elem_of_cons in Hl0 as [<-|Hl0].
  - cbn [advance_past]. rewrite Z.eqb_refl. specialize (Hle lists Hs ltac:(intros; eapply Hb; by right)).
    unfold sum_list in *. cbn in *. lia.
  - destruct (advance_past_spec best l Hl) as (_ & H & _); [intros x l' ->; eapply Hb; by left|].
    specialize (IH Hs ltac:(intros; eapply Hb; by right) ltac:(eauto)). unfold sum_list in *. cbn in *. lia.
Qed.

Lemma merge_loop_spec fuel : forall lists, Forall ssorted lists ->
  (sum_list (length <$> lists) < fuel)%nat ->
  ssorted (merge_loop fuel lists) /\ (forall x, x ∈ merge_loop fuel lists <-> exists l, l ∈ lists /\ x ∈ l).
Proof.
  induction fuel as [|fuel IH]; intros lists Hs Hf; [lia|]. cbn [merge_loop].
  pose proof (best_head_spec lists None) as Hb. destruct (best_head lists None) as [best|].
  - destruct Hb as ([?|Hex] & _ & Hmin); [done|].
    assert (Hadv : forall l, l ∈ lists -> ssorted (advance_past best l)
      /\ forall x, x ∈ advance_past best l <-> x ∈ l /\ best < x).
    { intros l Hl. rewrite Forall_forall in Hs. destruct (advance_past_spec best l (Hs l Hl)) as (? & _ & ?); [|done].
      intros x l' ->. by eapply Hmin. }
    pose proof (sum_advance best lists Hs Hmin Hex) as Hsum.
    destruct (IH (advance_past best <$> lists)) as [Hss Hel].
    { apply Forall_fmap, Forall_forall. intros l Hl. by apply Hadv. }
    { lia. }
    assert (Hel' : forall x, x ∈ merge_loop fuel (advance_past best <$> lists)
      <-> best < x /\ exists l, l ∈ lists /\ x ∈ l).
    { intros x. rewrite Hel. split.
      - intros (l & Hl & Hx). apply list_elem_of_fmap in Hl as (l' & -> & Hl'). apply Hadv in Hx as [Hx ?]; [|done].
        eauto.
      - intros (Hx & l & Hl & Hxl). exists (advance_past best l). split; [by apply list_elem_of_fmap_2|].
        by apply Hadv. }
    split.
    + apply ssorted_cons. split; [done|]. intros y Hy. by apply Hel' in Hy as [? _].
    + intros x. rewrite elem_of_cons, Hel'. split.
      * intros [->|[_ ?]]; [|done]. destruct Hex as [l Hl]. exists (best :: l). split; [done|by left].
      * intros (l & Hl & Hx). destruct (decide (x = best)) as [->|Hne]; [by left|right]. split; [|eauto].
        rewrite Forall_forall in Hs. specialize (Hs l Hl). destruct l as [|y l]; [by apply not_elem_of_nil in Hx|].
        pose proof (Hmin y l Hl). apply ssorted_cons in Hs as [_ Hy].
        apply elem_of_cons in Hx as [->|Hx]; [lia|]. apply Hy in Hx. lia.
  - destruct Hb as [_ Hb]. split; [constructor|]. intros x. split; [intros H; by apply not_elem_of_nil in H|].
    intros (l & Hl & Hx). apply Hb in Hl as ->. done.
Qed.

Lemma merge_postings_spec lists : Forall ssorted lists ->
  ssorted (merge_postings lists)
  /\ (forall x, x ∈ merge_postings lists <-> exists l, l ∈ lists /\ x ∈ l).
Proof.
  intros Hs. unfold merge_postings. destruct lists as [|l1 [|l2 rest]].
  - split; [constructor|]. intros x. split; [intros H; by apply not_elem_of_nil in H|].
    intros (l & Hl & _). by apply not_elem_of_nil in Hl.
  - apply Forall_cons_1 in Hs as [Hs _]. split; [done|]. intros x. split; [intros Hx; exists l1; split; [by left|done]|].
    intros (l & Hl & Hx). by apply list_elem_of_singleton in Hl as ->.
  - apply merge_loop_spec; [done|lia].
Qed.
