(* ===== verification/IndexSelect.v ===== *)
(** * Selection over any index

    What an index promises ([IndexLaws]: it describes a set of series exactly),
    that the in-memory index keeps the promise through every addition and
    removal, and that selection and the metadata queries, proved against the
    promise alone, have the reference semantics of tsdb.go. *)

From Stdlib Require Import ZArith Lia.
From Stdlib Require Import (notations) String.
From stdpp Require Import base sorting gmap numbers list.
From S2P Require Import Prelude Gostring Names Tsdb Index IndexProofs.

(** A series carries its metric name under the pseudo key, and its tags. *)
Definition carries (ref : SeriesRef) (key value : gostring) : Prop :=
  (key = MetricName /\ value = sr_Metric ref) \/ MkTag key value ∈ sr_Tags ref.

Abbreviation series_set := (gmap Z SeriesRef).

(** Series with the tag. *)
Definition with_tag (S : series_set) (key value : gostring) (id : Z) : Prop :=
  exists ref, S !! id = Some ref /\ carries ref key value.

Class IndexLaws {X} `{Lookup X} (l : X) (S : series_set) : Prop := {
  il_sorted key value : ssorted (Postings l key value);
  il_postings key value id : id ∈ Postings l key value <-> with_tag S key value id;
  il_values_nodup key : NoDup (TagValues l key);
  il_values key v : v ∈ TagValues l key <-> exists id, with_tag S key v id;
  il_keys_nodup : NoDup (TagKeys l);
  il_keys key : key ∈ TagKeys l <-> exists v id, with_tag S key v id;
  il_all_sorted : ssorted (AllSeries l);
  il_all id : id ∈ AllSeries l <-> is_Some (S !! id);
}.

(** ** The in-memory index keeps the laws *)

Abbreviation postmap := (gmap gostring (gmap gostring (list Z))).

(** Every list is sorted, and no container is empty. *)
Record mp_ok (m : postmap) : Prop := {
  mk_sorted key vals v l : m !! key = Some vals -> vals !! v = Some l -> ssorted l /\ l <> [];
  mk_nonempty key vals : m !! key = Some vals -> vals <> ∅;
}.

Definition in_map (m : postmap) (key v : gostring) (id : Z) : Prop := id ∈ postings_of m key v.

Lemma in_map_spec m key v id : in_map m key v id <->
  exists vals l, m !! key = Some vals /\ vals !! v = Some l /\ id ∈ l.
Proof.
  unfold in_map, postings_of. destruct (m !! key) as [vals|] eqn:E; cbn.
  - destruct (vals !! v) as [l|] eqn:El; cbn.
    + split; [eauto|]. intros (? & ? & [= <-] & H & Hid). congruence.
    + split; [intros H; by apply not_elem_of_nil in H|]. intros (? & ? & [= <-] & H & Hid). congruence.
  - split; [intros H; by apply not_elem_of_nil in H|]. by intros (? & ? & ? & _).
Qed.

Lemma postings_sorted m key v : mp_ok m -> ssorted (postings_of m key v).
Proof.
  intros [Hs _]. unfold postings_of. destruct (m !! key) as [vals|] eqn:E; cbn; [|constructor].
  destruct (vals !! v) as [l|] eqn:El; cbn; [|constructor]. by eapply Hs.
Qed.

Lemma mp_add_spec m key v id : mp_ok m -> mp_ok (mp_add m key v id)
  /\ forall k w x, in_map (mp_add m key v id) k w x <-> in_map m k w x \/ (k = key /\ w = v /\ x = id).
Proof.
  intros Hok. pose proof (postings_sorted m key v Hok) as Hsort.
  assert (Hp : default [] (default ∅ (m !! key) !! v) = postings_of m key v).
  { unfold postings_of. destruct (m !! key); [done|]. cbn. by rewrite lookup_empty. }
  unfold mp_add. cbn zeta. rewrite Hp. destruct (appendSorted_spec _ id Hsort) as [Hs He]. split.
  - constructor.
    + intros k vals w l Hk Hw. apply lookup_insert_Some in Hk as [[<- <-]|[Hne Hk]].
      * apply lookup_insert_Some in Hw as [[<- <-]|[Hne Hw]].
        -- split; [done|]. intros Hnil. assert (Hin : id ∈ appendSorted (postings_of m key v) id) by (apply He; by left).
           rewrite Hnil in Hin. by apply not_elem_of_nil in Hin.
        -- destruct (m !! key) as [vals|] eqn:E; cbn in Hw; [by eapply (mk_sorted _ Hok)|]. by rewrite lookup_empty in Hw.
      * by eapply (mk_sorted _ Hok).
    + intros k vals Hk. apply lookup_insert_Some in Hk as [[<- <-]|[Hne Hk]]; [apply insert_non_empty|].
      by eapply (mk_nonempty _ Hok).
  - intros k w x. unfold in_map, postings_of. destruct (decide (k = key)) as [->|Hk].
    + rewrite lookup_insert_eq. cbn. destruct (decide (w = v)) as [->|Hw].
      * rewrite lookup_insert_eq. cbn. rewrite He. unfold postings_of. tauto.
      * rewrite lookup_insert_ne by done. destruct (m !! key) as [vals|]; cbn; [|rewrite lookup_empty; cbn]; tauto.
    + rewrite lookup_insert_ne by done. tauto.
Qed.

(** One key's values replaced, an empty container dropped. *)
Definition mp_set (m : postmap) (key : gostring) (vals : gmap gostring (list Z)) : postmap :=
  if decide (vals = ∅) then delete key m else <[key := vals]> m.

Lemma in_map_set m key vals k w x : in_map (mp_set m key vals) k w x <->
  if decide (k = key) then x ∈ default [] (vals !! w) else in_map m k w x.
Proof.
  unfold in_map, postings_of, mp_set. case_decide as Hd; case_decide as Hk; subst.
  - by rewrite lookup_delete_eq, lookup_empty.
  - by rewrite lookup_delete_ne.
  - by rewrite lookup_insert_eq.
  - by rewrite lookup_insert_ne.
Qed.

Lemma mp_ok_set m key vals : mp_ok m -> (forall v l, vals !! v = Some l -> ssorted l /\ l <> []) ->
  mp_ok (mp_set m key vals).
Proof.
  intros [Hs Hn] Hv. unfold mp_set. case_decide as Hd.
  - constructor; [intros k vals' w l Hk|intros k vals' Hk]; apply lookup_delete_Some in Hk as [_ Hk]; eauto.
  - constructor; [intros k vals' w l Hk|intros k vals' Hk]; apply lookup_insert_Some in Hk as [[_ <-]|[_ Hk]]; eauto.
Qed.

Lemma mp_remove_set m key v id vals : m !! key = Some vals ->
  mp_remove m key v id = mp_set m key
    (match removeID (default [] (vals !! v)) id with [] => delete v vals | l => <[v := l]> vals end).
Proof.
  intros E. unfold mp_remove, mp_set. rewrite E. destruct (removeID _ id) as [|y r]; [done|].
  by rewrite decide_False by apply insert_non_empty.
Qed.

Lemma mp_remove_spec m key v id : mp_ok m -> mp_ok (mp_remove m key v id)
  /\ forall k w x, in_map (mp_remove m key v id) k w x <-> in_map m k w x /\ ~ (k = key /\ w = v /\ x = id).
Proof.
  intros Hok. destruct (m !! key) as [vals|] eqn:E.
  2:{ unfold mp_remove. rewrite E. split; [done|]. intros k w x. split; [|by intros []].
      intros H. split; [done|]. intros (-> & -> & ->). apply in_map_spec in H as (? & ? & H & _). congruence. }
  rewrite (mp_remove_set _ _ _ _ _ E).
  assert (Hall : forall w l, vals !! w = Some l -> ssorted l /\ l <> []) by (intros; by eapply (mk_sorted _ Hok)).
  assert (Hsort : ssorted (default [] (vals !! v))).
  { destruct (vals !! v) as [l|] eqn:El; cbn; [by eapply Hall|constructor]. }
  destruct (removeID_spec _ id Hsort) as [Hs He]. set (l := removeID _ id) in *.
  set (vals' := match l with [] => delete v vals | _ => <[v := l]> vals end).
  assert (Hlook : forall w, default [] (vals' !! w) = if decide (w = v) then l else default [] (vals !! w)).
  { intros w. unfold vals'. destruct l as [|y r], (decide (w = v)) as [->|];
      rewrite ?lookup_delete_eq, ?lookup_insert_eq, ?lookup_delete_ne, ?lookup_insert_ne by done; done. }
  assert (Hvals : match l with [] => delete v vals | y :: r => <[v := y :: r]> vals end = vals')
    by (unfold vals'; by destruct l).
  rewrite Hvals. split.
  - apply mp_ok_set; [done|]. intros w l' Hw. unfold vals' in Hw. destruct l as [|y r].
    + apply lookup_delete_Some in Hw as [_ Hw]. by eapply Hall.
    + apply lookup_insert_Some in Hw as [[_ <-]|[_ Hw]]; [done|]. by eapply Hall.
  - intros k w x. rewrite in_map_set. case_decide as Hk; [subst k|naive_solver].
    rewrite Hlook. unfold in_map, postings_of. rewrite E. cbn. case_decide as Hw; [subst w; rewrite He|]; naive_solver.
Qed.

(** An index that describes exactly the series [S]. *)
Record mem_index (p : MemPostings) (S : series_set) : Prop := {
  mi_ok : mp_ok (mp_m p);
  mi_in key v id : in_map (mp_m p) key v id <-> with_tag S key v id;
  mi_all_sorted : ssorted (mp_all p);
  mi_all id : id ∈ mp_all p <-> is_Some (S !! id);
}.

Lemma mem_index_laws p S : mem_index p S -> IndexLaws p S.
Proof.
  intros [Hok Hin Has Ha]. constructor; cbn [Postings TagValues TagKeys AllSeries MemPostings_Lookup].
  - intros. by apply postings_sorted.
  - intros. apply Hin.
  - intros key. destruct (mp_m p !! key) as [vals|]; [apply NoDup_fst_map_to_list|constructor].
  - intros key v. setoid_rewrite <- Hin. destruct (mp_m p !! key) as [vals|] eqn:E.
    + rewrite list_elem_of_fmap. split.
      * intros ([v' l] & -> & Hl). apply elem_of_map_to_list in Hl. cbn in *.
        destruct (mk_sorted _ Hok _ _ _ _ E Hl) as [_ Hne]. destruct l as [|id l]; [done|].
        exists id. apply in_map_spec. exists vals, (id :: l). split_and!; [done|done|by left].
      * intros [id Hid]. apply in_map_spec in Hid as (? & l & E' & Hl & _). rewrite E in E'. injection E' as <-.
        exists (v, l). split; [done|]. by apply elem_of_map_to_list.
    + split; [intros H; by apply not_elem_of_nil in H|]. intros [id Hid].
      apply in_map_spec in Hid as (? & l & E' & _). congruence.
  - apply NoDup_fst_map_to_list.
  - intros key. setoid_rewrite <- Hin. rewrite list_elem_of_fmap. split.
    + intros ([k vals] & -> & Hk). apply elem_of_map_to_list in Hk. cbn in *.
      pose proof (mk_nonempty _ Hok _ _ Hk) as Hne. apply map_choose in Hne as (v & l & Hl).
      destruct (mk_sorted _ Hok _ _ _ _ Hk Hl) as [_ Hln]. destruct l as [|id l]; [done|].
      exists v, id. apply in_map_spec. exists vals, (id :: l). split_and!; [done|done|by left].
    + intros (v & id & Hid). apply in_map_spec in Hid as (vals & l & Hk & _).
      exists (key, vals). split; [done|]. by apply elem_of_map_to_list.
  - done.
  - done.
Qed.

Lemma add_tags_spec tags id : forall m, mp_ok m ->
  let m' := foldl (fun m t => mp_add m (t_Key t) (t_Value t) id) m tags in
  mp_ok m' /\ forall k w x, in_map m' k w x <-> in_map m k w x \/ (MkTag k w ∈ tags /\ x = id).
Proof.
  induction tags as [|t tags IH]; intros m Hok; cbn [foldl].
  { split; [done|]. intros. split; [by left|]. intros [|[H _]]; [done|by apply not_elem_of_nil in H]. }
  destruct (mp_add_spec m (t_Key t) (t_Value t) id Hok) as [Hok1 H1].
  destruct (IH _ Hok1) as [Hok2 H2]. split; [done|]. intros k w x. rewrite H2, H1, elem_of_cons.
  destruct t as [tk tv]. cbn. split; [naive_solver|]. intros [|[[[= <- <-]|?] ->]]; auto.
Qed.

Lemma remove_tags_spec tags id : forall m, mp_ok m ->
  let m' := foldl (fun m t => mp_remove m (t_Key t) (t_Value t) id) m tags in
  mp_ok m' /\ forall k w x, in_map m' k w x <-> in_map m k w x /\ ~ (MkTag k w ∈ tags /\ x = id).
Proof.
  induction tags as [|t tags IH]; intros m Hok; cbn [foldl].
  { split; [done|]. intros. split; [|by intros []]. intros H. split; [done|]. intros [H' _]. by apply not_elem_of_nil in H'. }
  destruct (mp_remove_spec m (t_Key t) (t_Value t) id Hok) as [Hok1 H1].
  destruct (IH _ Hok1) as [Hok2 H2]. split; [done|]. intros k w x. rewrite H2, H1, elem_of_cons.
  destruct t as [tk tv]. cbn. split; [|naive_solver].
  intros [[Hin Hn1] Hn2]. split; [done|]. intros [[[= <- <-]|?] ->]; tauto.
Qed.

Lemma MemAdd_spec p S id ref : mem_index p S -> S !! id = None -> mem_index (MemAdd p id ref) (<[id := ref]> S).
Proof.
  intros [Hok Hin Has Ha] Hid. unfold MemAdd.
  destruct (mp_add_spec (mp_m p) MetricName (sr_Metric ref) id Hok) as [Hok1 H1].
  destruct (add_tags_spec (sr_Tags ref) id _ Hok1) as [Hok2 H2].
  destruct (appendSorted_spec (mp_all p) id Has) as [Hs He]. constructor; cbn [mp_m mp_all]; [done| |done|].
  - intros k w x. rewrite H2, H1, Hin. unfold with_tag, carries. destruct (decide (x = id)) as [->|Hne].
    + rewrite lookup_insert_eq, Hid. naive_solver.
    + rewrite lookup_insert_ne by done. naive_solver.
  - intros x. rewrite He, Ha, lookup_insert_is_Some. destruct (decide (x = id)) as [->|]; naive_solver.
Qed.

Lemma MemDelete_spec p S id ref : mem_index p S -> S !! id = Some ref -> mem_index (MemDelete p id ref) (delete id S).
Proof.
  intros [Hok Hin Has Ha] Hid. unfold MemDelete.
  destruct (mp_remove_spec (mp_m p) MetricName (sr_Metric ref) id Hok) as [Hok1 H1].
  destruct (remove_tags_spec (sr_Tags ref) id _ Hok1) as [Hok2 H2].
  destruct (removeID_spec (mp_all p) id Has) as [Hs He]. constructor; cbn [mp_m mp_all]; [done| |done|].
  - intros k w x. rewrite H2, H1, Hin. unfold with_tag, carries. destruct (decide (x = id)) as [->|Hne].
    + rewrite lookup_delete_eq, Hid. naive_solver.
    + rewrite lookup_delete_ne by done. naive_solver.
  - intros x. rewrite He, Ha. destruct (decide (x = id)) as [->|].
    + rewrite lookup_delete_eq. split; [by intros []|by intros []].
    + rewrite lookup_delete_ne by done. tauto.
Qed.

Lemma NewMemPostings_spec : mem_index NewMemPostings ∅.
Proof.
  constructor; cbn [NewMemPostings mp_m mp_all].
  - constructor; intros * H; by rewrite lookup_empty in H.
  - intros key v id. rewrite in_map_spec. unfold with_tag. split; intros H; exfalso.
    + destruct H as (? & ? & H & _). by rewrite lookup_empty in H.
    + destruct H as (? & H & _). by rewrite lookup_empty in H.
  - constructor.
  - intros id. rewrite lookup_empty. split; [intros H; by apply not_elem_of_nil in H|by intros []].
Qed.

(** ** Selection, against the laws alone *)

(** A series' tags as an index holds them: the metric name is one of them. *)
Definition indexed_tags (ref : SeriesRef) : list Tag := MkTag MetricName (sr_Metric ref) :: sr_Tags ref.

Lemma carries_indexed ref key value : carries ref key value <-> MkTag key value ∈ indexed_tags ref.
Proof. unfold carries, indexed_tags. rewrite elem_of_cons. naive_solver. Qed.

Section Selecting.
Context {X : Type} `{Lookup X} (l : X) (S : series_set) `{!IndexLaws l S}.

(** The postings a matcher refers to. *)
Definition matcher_postings (m : Matcher) : list Z :=
  match m_Type m with
  | Equal | NotEqual => Postings l (m_Key m) (m_Value m)
  | Wildcard | NotWildcard => union_matching l (m_Key m) (m_Value m)
  end.

Lemma union_matching_spec key pattern :
  ssorted (union_matching l key pattern)
  /\ forall id, id ∈ union_matching l key pattern
       <-> exists v, GlobMatch pattern v = true /\ with_tag S key v id.
Proof.
  unfold union_matching. destruct (merge_postings_spec
    ((fun v => Postings l key v) <$> filter (fun v => GlobMatch pattern v = true) (TagValues l key))) as [Hs He].
  { apply Forall_fmap, Forall_forall. intros v _. apply il_sorted. }
  split; [done|]. intros id. rewrite He. split.
  - intros (ids & Hids & Hid). apply list_elem_of_fmap in Hids as (v & -> & Hv).
    apply list_elem_of_filter in Hv as [Hg _]. exists v. split; [done|]. by apply il_postings.
  - intros (v & Hg & Hid). exists (Postings l key v). split; [|by apply il_postings].
    apply list_elem_of_fmap_2, list_elem_of_filter. split; [done|]. apply il_values. eauto.
Qed.

Lemma matcher_postings_spec m :
  ssorted (matcher_postings m)
  /\ forall id, id ∈ matcher_postings m
       <-> exists ref, S !! id = Some ref /\ existsb (Matcher_has m) (indexed_tags ref) = true.
Proof.
  unfold matcher_postings.
  assert (Hin : forall id (P : gostring -> Prop), (exists v, P v /\ with_tag S (m_Key m) v id)
    <-> exists ref, S !! id = Some ref /\ exists t, t ∈ indexed_tags ref /\ t_Key t = m_Key m /\ P (t_Value t)).
  { intros id P. split.
    - intros (v & HP & ref & Hid & Ht%carries_indexed). eauto 10.
    - intros (ref & Hid & [tk tv] & Ht & Hkey & HP). cbn in *. exists tv. split; [done|].
      exists ref. split; [done|]. apply carries_indexed. by subst tk. }
  setoid_rewrite existsb_Exists. unfold Matcher_has. setoid_rewrite andb_true_iff.
  setoid_rewrite bool_decide_eq_true. destruct (m_Type m).
  1,2: split; [apply il_sorted|]; intros id; rewrite il_postings;
    specialize (Hin id (fun v => v = m_Value m)); cbn in Hin; setoid_rewrite bool_decide_eq_true;
    rewrite <- Hin; naive_solver.
  all: destruct (union_matching_spec (m_Key m) (m_Value m)) as [Hs He]; (split; [done|]); intros id; rewrite He;
    by apply (Hin id (fun v => GlobMatch (m_Value m) v = true)).
Qed.

Lemma intersect_all_spec rest : forall ids, ssorted ids -> Forall ssorted rest ->
  let r := default [] (intersect_all ids rest) in
  ssorted r /\ forall x, x ∈ r <-> x ∈ ids /\ forall b, b ∈ rest -> x ∈ b.
Proof.
  induction rest as [|b rest IH]; intros ids Hs Hr; cbn [intersect_all default from_option].
  { split; [done|]. intros x. split; [|by intros []]. intros Hx. split; [done|]. intros b Hb. by apply not_elem_of_nil in Hb. }
  apply Forall_cons_1 in Hr as [Hb Hr]. rewrite intersect_spec by done.
  assert (Hf : forall x, x ∈ filter (fun x => x ∈ b) ids <-> x ∈ ids /\ x ∈ b)
    by (intros x; rewrite list_elem_of_filter; tauto).
  assert (Hsf : ssorted (filter (fun x => x ∈ b) ids)) by by apply ssorted_filter.
  destruct (filter (fun x => x ∈ b) ids) as [|y ids'] eqn:E.
  - split; [constructor|]. intros x. split; [intros Hx; by apply not_elem_of_nil in Hx|].
    intros [Hx Hall]. apply Hf. split; [done|]. apply Hall. by left.
  - destruct (IH (y :: ids') Hsf Hr) as [Hs' He]. split; [done|]. intros x. rewrite He, Hf. split.
    + intros [[Hx Hxb] Hall]. split; [done|]. intros b' Hb'. apply elem_of_cons in Hb' as [->|]; auto.
    + intros [Hx Hall]. split; [split; [done|apply Hall; by left]|]. intros. apply Hall. by right.
Qed.

Lemma subtract_all_spec ms : forall ids, ssorted ids ->
  Forall (fun m => m_Type m = NotEqual \/ m_Type m = NotWildcard) ms ->
  ssorted (foldl (subtract_matcher l) ids ms)
  /\ forall x, x ∈ foldl (subtract_matcher l) ids ms <-> x ∈ ids /\ forall m, m ∈ ms -> x ∉ matcher_postings m.
Proof.
  induction ms as [|m ms IH]; intros ids Hs Hms; cbn [foldl].
  { split; [done|]. intros x. split; [|by intros []]. intros Hx. split; [done|]. intros m Hm. by apply not_elem_of_nil in Hm. }
  apply Forall_cons_1 in Hms as [Hty Hms]. destruct (matcher_postings_spec m) as [Hps _].
  assert (Hsub : subtract_matcher l ids m = filter (fun x => x ∉ matcher_postings m) ids).
  { unfold subtract_matcher. rewrite <- subtract_spec by done. unfold matcher_postings.
    by destruct Hty as [-> | ->]. }
  rewrite Hsub. destruct (IH (filter (fun x => x ∉ matcher_postings m) ids)) as [Hs' He]; [by apply ssorted_filter|done|].
  split; [done|]. intros x. rewrite He, list_elem_of_filter. split.
  - intros [[Hx Hxi] Hall]. split; [done|]. intros m' Hm'. apply elem_of_cons in Hm' as [->|]; auto.
  - intros [Hx Hall]. split; [split; [apply Hall; by left|done]|]. intros. apply Hall. by right.
Qed.

Definition positive_type (t : MatchType) : bool := match t with Equal | Wildcard => true | _ => false end.

Lemma positives_spec sel :
  positives l sel = (match sel_Metric sel with [] => [] | _ => [Postings l MetricName (sel_Metric sel)] end)
    ++ (matcher_postings <$> filter (fun m => positive_type (m_Type m) = true) (sel_Matchers sel)).
Proof.
  unfold positives. f_equal. induction (sel_Matchers sel) as [|m ms IH]; [done|].
  rewrite bind_cons, filter_cons, IH. unfold matcher_postings.
  destruct (m_Type m) eqn:E; cbn [positive_type];
    first [rewrite decide_True by done; rewrite fmap_cons, E|rewrite decide_False by done]; done.
Qed.

(** The metric restriction and the positive matchers. *)
Lemma IndexSelect_positives sel :
  let ids := match merge_sort shorter (positives l sel) with
             | [] => Some (AllSeries l) | ids :: rest => intersect_all ids rest end in
  ssorted (default [] ids) /\ forall id, id ∈ default [] ids <->
    exists ref, S !! id = Some ref /\ (sel_Metric sel <> [] -> carries ref MetricName (sel_Metric sel))
      /\ forall m, m ∈ sel_Matchers sel -> positive_type (m_Type m) = true ->
           existsb (Matcher_has m) (indexed_tags ref) = true.
Proof.
  cbn zeta.
  assert (Hsorted : Forall ssorted (positives l sel)).
  { rewrite positives_spec. apply Forall_app. split.
    - destruct (sel_Metric sel); repeat constructor. apply il_sorted.
    - apply Forall_fmap, Forall_forall. intros m _. by apply matcher_postings_spec. }
  assert (Hmem : forall id, (is_Some (S !! id) /\ forall b, b ∈ positives l sel -> id ∈ b) <->
    exists ref, S !! id = Some ref /\ (sel_Metric sel <> [] -> carries ref MetricName (sel_Metric sel))
      /\ forall m, m ∈ sel_Matchers sel -> positive_type (m_Type m) = true ->
           existsb (Matcher_has m) (indexed_tags ref) = true).
  { intros id. rewrite positives_spec. split.
    - intros [[ref Href] Hall]. exists ref. split_and!; [done| |].
      + intros Hne. assert (Hin : id ∈ Postings l MetricName (sel_Metric sel)).
        { apply Hall, elem_of_app. left. destruct (sel_Metric sel); [done|by left]. }
        apply il_postings in Hin as (ref' & Href' & ?). congruence.
      + intros m Hm Hpos. assert (Hin : id ∈ matcher_postings m).
        { apply Hall, elem_of_app. right. apply list_elem_of_fmap_2, list_elem_of_filter. done. }
        apply matcher_postings_spec in Hin as (ref' & Href' & ?). congruence.
    - intros (ref & Href & Hm & Hpos). split; [eauto|]. intros b Hb. apply elem_of_app in Hb as [Hb|Hb].
      + destruct (sel_Metric sel) eqn:E; [by apply not_elem_of_nil in Hb|].
        apply list_elem_of_singleton in Hb as ->. apply il_postings. exists ref. split; [done|].
        by apply Hm.
      + apply list_elem_of_fmap in Hb as (m & -> & Hm'). apply list_elem_of_filter in Hm' as [Hty Hm'].
        apply matcher_postings_spec. eauto. }
  assert (Hperm : merge_sort shorter (positives l sel) ≡ₚ positives l sel) by apply (merge_sort_Permutation _).
  destruct (merge_sort shorter (positives l sel)) as [|ids rest].
  - cbn. split; [apply il_all_sorted|]. intros id. rewrite il_all, <- Hmem.
    apply Permutation_nil in Hperm as ->. split; [|by intros []]. intros Hs. split; [done|].
    intros b Hb. by apply not_elem_of_nil in Hb.
  - rewrite <- Hperm in Hsorted. apply Forall_cons_1 in Hsorted as [Hs Hrs].
    destruct (intersect_all_spec rest ids Hs Hrs) as [Hss He]. split; [done|].
    intros id. rewrite He, <- Hmem. setoid_rewrite <- Hperm. setoid_rewrite elem_of_cons. split.
    + intros [Hid Hall]. assert (Hb : forall b, b = ids \/ b ∈ rest -> id ∈ b) by (intros b [->|]; auto).
      split; [|done]. assert (Hin : ids ∈ positives l sel) by (rewrite <- Hperm; by left).
      rewrite positives_spec in Hin. apply elem_of_app in Hin as [Hin|Hin].
      * destruct (sel_Metric sel); [by apply not_elem_of_nil in Hin|].
        apply list_elem_of_singleton in Hin as ->. apply il_postings in Hid as (ref & Href & _). eauto.
      * apply list_elem_of_fmap in Hin as (m & -> & Hm).
        apply matcher_postings_spec in Hid as (ref & Href & _). eauto.
    + intros [_ Hall]. split; [apply Hall; by left|]. intros b Hb. apply Hall. by right.
Qed.

(** What a selector means to an index: every matcher, positive or negative, is
    about the indexed tags, and an empty metric restricts nothing. *)
Lemma IndexSelect_indexed sel :
  ssorted (IndexSelect l sel) /\ forall id, id ∈ IndexSelect l sel <->
    exists ref, S !! id = Some ref /\ (sel_Metric sel <> [] -> carries ref MetricName (sel_Metric sel))
      /\ forallb (fun m => Matcher_Matches m (indexed_tags ref)) (sel_Matchers sel) = true.
Proof.
  unfold IndexSelect. destruct (IndexSelect_positives sel) as [Hs He].
  set (ids := match merge_sort shorter (positives l sel) with [] => _ | _ => _ end) in *.
  assert (Hneg : Forall (fun m => m_Type m = NotEqual \/ m_Type m = NotWildcard) (negatives sel)).
  { apply Forall_forall. intros m Hm. unfold negatives in Hm. apply list_elem_of_filter in Hm as [Hty Hm].
    destruct (m_Type m); done || auto. }
  destruct (subtract_all_spec (negatives sel) (default [] ids) Hs Hneg) as [Hss Hsub].
  assert (Hres : match ids with None => [] | Some i => foldl (subtract_matcher l) i (negatives sel) end
    = foldl (subtract_matcher l) (default [] ids) (negatives sel)).
  { destruct ids; [done|]. cbn [default from_option] in *.
    destruct (foldl (subtract_matcher l) [] (negatives sel)) as [|y r]; [done|]. exfalso.
    assert (Hin : y ∈ ([] : list Z)) by (apply Hsub; by left). by apply not_elem_of_nil in Hin. }
  rewrite Hres. split; [done|]. intros id. rewrite Hsub, He. split.
  - intros [(ref & Href & Hm & Hpos) Hn]. exists ref. split_and!; [done|done|].
    apply forallb_Forall, Forall_forall. intros m Hin. unfold Matcher_Matches.
    destruct (m_Type m) eqn:Ety; try (apply Hpos; [done|by rewrite Ety]).
    all: apply negb_true_iff, not_true_iff_false; intros Hhas; apply (Hn m);
      [apply list_elem_of_filter; by rewrite Ety|apply matcher_postings_spec; eauto].
  - intros (ref & Href & Hm & Hall). apply forallb_Forall in Hall. rewrite Forall_forall in Hall.
    split; [exists ref; split_and!; [done|done|]|].
    + intros m Hin Hty. specialize (Hall m Hin). unfold Matcher_Matches in Hall. by destruct (m_Type m).
    + intros m Hin Hp. apply list_elem_of_filter in Hin as [Hty Hin]. specialize (Hall m Hin).
      apply matcher_postings_spec in Hp as (ref' & Href' & Hhas). rewrite Href in Href'. injection Href' as <-.
      unfold Matcher_Matches in Hall. rewrite Hhas in Hall. by destruct (m_Type m).
Qed.
End Selecting.

(** A matcher of another key does not see the metric name. *)
Lemma Matcher_Matches_indexed m ref : m_Key m <> MetricName ->
  Matcher_Matches m (indexed_tags ref) = Matcher_Matches m (sr_Tags ref).
Proof.
  intros Hk. unfold Matcher_Matches. cbn [indexed_tags existsb].
  assert (Hh : Matcher_has m (MkTag MetricName (sr_Metric ref)) = false).
  { unfold Matcher_has. cbn. rewrite (bool_decide_eq_false_2 (MetricName = m_Key m)) by congruence. done. }
  by rewrite Hh.
Qed.

Section Plain.
Context {X : Type} `{Lookup X} (l : X) (S : series_set) `{!IndexLaws l S}.
(** No series has a tag under the pseudo key; the wire's tag keys start with a
    letter. *)
Hypothesis plain : forall id ref t, S !! id = Some ref -> t ∈ sr_Tags ref -> t_Key t <> MetricName.

Lemma carries_metric metric id ref : S !! id = Some ref -> carries ref MetricName metric <-> sr_Metric ref = metric.
Proof.
  intros Hid. unfold carries. split; [|auto]. intros [[_ ->]|Hin]; [done|]. by apply (plain id ref) in Hin.
Qed.

Lemma with_tag_metric metric id :
  with_tag S MetricName metric id <-> exists ref, S !! id = Some ref /\ sr_Metric ref = metric.
Proof.
  unfold with_tag. split; intros (ref & Hid & Hc); exists ref; (split; [done|]); by eapply carries_metric.
Qed.

Lemma IndexSelect_spec sel :
  Forall (fun m => m_Key m <> MetricName) (sel_Matchers sel) ->
  ssorted (IndexSelect l sel) /\ forall id, id ∈ IndexSelect l sel <->
    exists ref, S !! id = Some ref /\ (sel_Metric sel <> [] -> sr_Metric ref = sel_Metric sel)
      /\ forallb (fun m => Matcher_Matches m (sr_Tags ref)) (sel_Matchers sel) = true.
Proof.
  intros Hk. destruct (IndexSelect_indexed l S sel) as [Hs He]. split; [done|]. intros id. rewrite He.
  assert (Hf : forall ref, forallb (fun m => Matcher_Matches m (indexed_tags ref)) (sel_Matchers sel)
    = forallb (fun m => Matcher_Matches m (sr_Tags ref)) (sel_Matchers sel)).
  { intros ref. clear He. induction Hk as [|m ms Hm _ IH]; [done|]. cbn [forallb].
    rewrite IH, Matcher_Matches_indexed by exact Hm. done. }
  setoid_rewrite Hf. split; intros (ref & Href & Hm & Hall); exists ref; (split_and!; [done| |done]);
    intros Hne; by apply (carries_metric _ id), Hm.
Qed.
End Plain.

(** What an index takes a selector to mean: its matchers are about the indexed
    tags, and no metric is every metric. *)
Definition index_matches (sel : Selector) (ref : SeriesRef) : bool :=
  (bool_decide (sel_Metric sel = []) || bool_decide (MkTag MetricName (sel_Metric sel) ∈ indexed_tags ref))
  && forallb (fun m => Matcher_Matches m (indexed_tags ref)) (sel_Matchers sel).

(** The series of the set that satisfy a predicate. *)
Definition selected (S : series_set) (accepts : SeriesRef -> bool) (id : Z) : bool :=
  match S !! id with Some ref => accepts ref | None => false end.

(** C29: over any lawful index, any selector returns exactly the series whose
    indexed tags, the metric name among them under "__name__", satisfy every
    matcher and carry the selector's metric, of any metric when it names none, in
    increasing order, each once: galloping intersections, unions of wildcard values
    and subtractions included.  When the selector names a metric and neither its
    matchers nor any series use the key "__name__", these are exactly the series
    the reference semantics of [Selector.Matches] accepts, which is not so
    otherwise: with no metric named, [Matches] accepts only series with an empty
    name. *)
Theorem index_select_correct {X} `{Lookup X} (l : X) (S : series_set) sel :
  IndexLaws l S ->
  IndexSelect l sel = filter (fun id => selected S (index_matches sel) id = true) (AllSeries l)
  /\ ((forall id ref t, S !! id = Some ref -> t ∈ sr_Tags ref -> t_Key t <> MetricName) ->
      Forall (fun m => m_Key m <> MetricName) (sel_Matchers sel) -> sel_Metric sel <> [] ->
      IndexSelect l sel = filter (fun id => selected S (Selector_Matches sel) id = true) (AllSeries l)).
Proof.
  intros HL. split; [|intros Hplain Hk Hm].
  - destruct (IndexSelect_indexed l S sel) as [Hs He].
    apply ssorted_ext; [done|by apply ssorted_filter, il_all_sorted|].
    intros id. rewrite He, list_elem_of_filter, il_all. unfold selected, index_matches. setoid_rewrite carries_indexed.
    split.
    + intros (ref & Href & Hmet & Hall). rewrite Href, Hall, andb_true_r, orb_true_iff, !bool_decide_eq_true.
      split; [|by eauto]. destruct (decide (sel_Metric sel = [])); auto.
    + intros [Hsel [ref Href]]. rewrite Href in *. apply andb_prop in Hsel as [Hmet Hall].
      rewrite orb_true_iff, !bool_decide_eq_true in Hmet. exists ref. split_and!; [done| |done].
      intros Hne. by destruct Hmet.
  - destruct (IndexSelect_spec l S Hplain sel Hk) as [Hs He].
    apply ssorted_ext; [done|by apply ssorted_filter, il_all_sorted|].
    intros id. rewrite He, list_elem_of_filter, il_all. unfold selected, Selector_Matches. split.
    + intros (ref & Href & Hmet & Hall). rewrite Href, Hall, bool_decide_true by auto. eauto.
    + intros [Hsel [ref Href]]. rewrite Href in *. apply andb_prop in Hsel as [Hmet Hall].
      apply bool_decide_eq_true in Hmet. eauto.
Qed.

(** ** Indexes built by the head *)

Inductive built : MemPostings -> series_set -> Prop :=
| built_new : built NewMemPostings ∅
| built_add p S id ref : built p S -> S !! id = None -> built (MemAdd p id ref) (<[id := ref]> S)
| built_delete p S id ref : built p S -> S !! id = Some ref -> built (MemDelete p id ref) (delete id S).

Lemma built_index p S : built p S -> mem_index p S.
Proof.
  induction 1; [apply NewMemPostings_spec|by apply MemAdd_spec|by apply MemDelete_spec].
Qed.

(** The in-memory index keeps its promise: after any additions of new ids
    and removals of present ones, in any order, its postings, values, keys and
    universe describe exactly the series present, with no list out of order and
    no trace of a series removed. *)
Theorem mem_postings_lawful p S : built p S -> IndexLaws p S.
Proof. intros Hb. by apply mem_index_laws, built_index. Qed.

Definition web_a : SeriesRef := NewSeriesRef (str "http.count") [str "env:prod"; str "host:a"].
Definition web_b : SeriesRef := NewSeriesRef (str "http.count") [str "env:dev"; str "host:b"].
Definition db_a : SeriesRef := NewSeriesRef (str "db.count") [str "env:prod"].

Definition example_index : MemPostings :=
  MemDelete (MemAdd (MemAdd (MemAdd NewMemPostings 1 web_a) 2 db_a) 5 web_b) 2 db_a.
Definition example_series : series_set := delete 2 (<[5 := web_b]> (<[2 := db_a]> {[ 1 := web_a ]})).

Lemma example_built : built example_index example_series.
Proof.
  unfold example_index, example_series. apply built_delete; [|done].
  apply built_add; [|done]. apply built_add; [|done]. apply built_add; [constructor|done].
Qed.

Lemma example_plain : forall id ref t, example_series !! id = Some ref -> t ∈ sr_Tags ref -> t_Key t <> MetricName.
Proof.
  intros id ref t Hid Ht. assert (Href : ref = web_a \/ ref = web_b).
  { unfold example_series in Hid. apply lookup_delete_Some in Hid as [Hne Hid].
    apply lookup_insert_Some in Hid as [[_ <-]|[_ Hid]]; [by right|].
    apply lookup_insert_Some in Hid as [[<- _]|[_ Hid]]; [done|].
    apply lookup_singleton_Some in Hid as [_ <-]. by left. }
  destruct Href as [-> | ->]; vm_compute in Ht;
    repeat (apply elem_of_cons in Ht as [->|Ht]; [vm_compute; discriminate|]); by apply not_elem_of_nil in Ht.
Qed.

Lemma mem_postings_lawful_witness : IndexLaws example_index example_series.
Proof. apply mem_postings_lawful, example_built. Defined.

(** The second selector names no metric and reads the name by its key. *)
Lemma index_select_correct_witness :
  let sel := MkSelector (str "http.count") [MkMatcher (str "host") (str "*") Wildcard;
                                            MkMatcher (str "env") (str "dev") NotEqual] in
  let any := MkSelector [] [MkMatcher MetricName (str "http.*") Wildcard; MkMatcher (str "host") (str "b") Equal] in
  IndexSelect example_index sel
  = filter (fun id => selected example_series (Selector_Matches sel) id = true) (AllSeries example_index)
  /\ IndexSelect example_index sel = [1]
  /\ IndexSelect example_index any
     = filter (fun id => selected example_series (index_matches any) id = true) (AllSeries example_index)
  /\ IndexSelect example_index any = [5]
  /\ filter (fun id => selected example_series (Selector_Matches any) id = true) (AllSeries example_index) = [].
Proof.
  split_and!; [|vm_compute; reflexivity| |vm_compute; reflexivity..].
  - apply (index_select_correct example_index example_series).
    + apply mem_index_laws, built_index, example_built.
    + apply example_plain.
    + repeat constructor; vm_compute; discriminate.
    + vm_compute. discriminate.
  - apply (index_select_correct example_index example_series), mem_index_laws, built_index, example_built.
Defined.

(** ** Metadata *)

Lemma sorted_names (ns : list gostring) : NoDup ns ->
  StronglySorted (strict str_le) (merge_sort str_le ns) /\ (forall x, x ∈ merge_sort str_le ns <-> x ∈ ns).
Proof.
  intros Hnd. split; [|intros x; by rewrite (merge_sort_Permutation _ _)].
  assert (Hs : StronglySorted str_le (merge_sort str_le ns)) by apply (StronglySorted_merge_sort _).
  assert (Hn : NoDup (merge_sort str_le ns)) by by rewrite (merge_sort_Permutation _ _).
  induction Hs as [|a r Hr IH Ha]; constructor; apply NoDup_cons in Hn as [Hna Hn]; [by apply IH|].
  apply Forall_forall. intros x Hx. rewrite Forall_forall in Ha. split; [by apply Ha|]. by intros ->.
Qed.

(** A series the query is restricted to. *)
Definition of_metric (metric : gostring) (ref : SeriesRef) : Prop := metric = [] \/ sr_Metric ref = metric.

Section Metadata.
Context {X : Type} `{Lookup X} (l : X) (S : series_set) `{!IndexLaws l S}.
Hypothesis plain : forall id ref t, S !! id = Some ref -> t ∈ sr_Tags ref -> t_Key t <> MetricName.

Lemma restriction_spec metric :
  match restriction l metric with
  | None => forall id ref, S !! id = Some ref -> ~ of_metric metric ref
  | Some None => metric = []
  | Some (Some ids) => ssorted ids /\ metric <> [] /\ ids <> []
      /\ forall id, id ∈ ids <-> exists ref, S !! id = Some ref /\ sr_Metric ref = metric
  end.
Proof.
  unfold restriction. destruct metric as [|c metric]; [done|].
  pose proof (il_sorted (l:=l) MetricName (c :: metric)) as Hs.
  assert (Hin : forall id, id ∈ Postings l MetricName (c :: metric)
    <-> exists ref, S !! id = Some ref /\ sr_Metric ref = c :: metric)
    by (intros id; by rewrite (il_postings (l:=l)), (with_tag_metric S plain)).
  destruct (Postings l MetricName (c :: metric)) as [|id0 ids].
  - intros id ref Href [?|Hm]; [done|]. assert (Hn : id ∈ ([] : list Z)) by (apply Hin; eauto).
    by apply not_elem_of_nil in Hn.
  - by split_and!.
Qed.

(** A value is kept by the restriction exactly when a restricted series has it. *)
Lemma restricted_value metric ids key v : restriction l metric = Some ids -> v ∈ TagValues l key ->
  (match ids with None => true | Some ids => intersects (Postings l key v) ids end = true
   <-> exists id ref, S !! id = Some ref /\ carries ref key v /\ of_metric metric ref).
Proof.
  intros Hr Hv. pose proof (restriction_spec metric) as Hspec. rewrite Hr in Hspec. destruct ids as [ids|].
  - destruct Hspec as (Hs & Hne & _ & Hin). rewrite intersects_spec by (done || apply il_sorted).
    setoid_rewrite (il_postings (l:=l)). setoid_rewrite Hin. unfold with_tag, of_metric. split.
    + intros (id & (ref & Href & Hc) & (ref' & Href' & Hm)). rewrite Href in Href'. injection Href' as <-. eauto 10.
    + intros (id & ref & Href & Hc & [?|Hm]); [done|]. eauto 10.
  - subst metric. split; [intros _|done]. apply (il_values (l:=l)) in Hv as (id & ref & Href & Hc).
    exists id, ref. split_and!; [done|done|by left].
Qed.

Lemma Values_spec metric key :
  StronglySorted (strict str_le) (Values l metric key) /\ forall v, v ∈ Values l metric key <->
    exists id ref, S !! id = Some ref /\ carries ref key v /\ of_metric metric ref.
Proof.
  unfold Values. pose proof (restriction_spec metric) as Hspec. destruct (restriction l metric) as [ids|] eqn:Er.
  - destruct (sorted_names (filter (fun v => match ids with None => true
      | Some ids => intersects (Postings l key v) ids end = true) (TagValues l key))) as [Hs He].
    { apply NoDup_filter, (il_values_nodup (l:=l)). }
    split; [done|]. intros v. rewrite He, list_elem_of_filter. split.
    + intros [Hf Hv]. by apply (restricted_value metric ids).
    + intros Hex. assert (Hv : v ∈ TagValues l key).
      { apply (il_values (l:=l)). destruct Hex as (id & ref & Href & Hc & _). exists id, ref. done. }
      split; [|done]. by apply (restricted_value metric ids).
  - split; [constructor|]. intros v. split; [intros Hv; by apply not_elem_of_nil in Hv|].
    intros (id & ref & Href & _ & Hm). by eapply Hspec in Hm.
Qed.

Lemma Keys_spec metric :
  StronglySorted (strict str_le) (Keys l metric) /\ forall k, k ∈ Keys l metric <->
    (k <> MetricName) /\ exists id ref v, S !! id = Some ref /\ carries ref k v /\ of_metric metric ref.
Proof.
  unfold Keys. pose proof (restriction_spec metric) as Hspec. destruct (restriction l metric) as [ids|] eqn:Er.
  - destruct (sorted_names (filter (fun key => bool_decide (key <> MetricName)
      && match ids with None => true
         | Some ids => existsb (fun v => intersects (Postings l key v) ids) (TagValues l key) end = true)
      (TagKeys l))) as [Hs He].
    { apply NoDup_filter, (il_keys_nodup (l:=l)). }
    split; [done|]. intros k. rewrite He, list_elem_of_filter, andb_true_iff, bool_decide_eq_true, (il_keys (l:=l)).
    assert (Hval : forall v, v ∈ TagValues l k -> _) by exact (fun v => restricted_value metric ids k v Er).
    destruct ids as [ids|].
    + rewrite existsb_Exists. split.
      * intros [[Hk (v & Hv & Hi)] _]. split; [done|]. apply Hval in Hi as (id & ref & ?); [|done]. eauto.
      * intros (Hk & id & ref & v & Href & Hc & Hm). split; [split; [done|]|exists v, id, ref; done].
        exists v. assert (Hv : v ∈ TagValues l k) by (apply (il_values (l:=l)); exists id, ref; done).
        split; [done|]. apply Hval; [done|]. eauto.
    + subst metric. split.
      * intros [[Hk _] (v & id & ref & Href & Hc)]. split; [done|]. exists id, ref, v. split_and!; [done..|by left].
      * intros (Hk & id & ref & v & Href & Hc & _). split; [done|]. exists v, id, ref. done.
  - split; [constructor|]. intros k. split; [intros Hk; by apply not_elem_of_nil in Hk|].
    intros (_ & id & ref & v & Href & _ & Hm). by eapply Hspec in Hm.
Qed.
End Metadata.

Lemma hasPrefix_spec s prefix : hasPrefix s prefix = true <-> exists t, s = prefix ++ t.
Proof.
  revert s. induction prefix as [|c prefix IH]; intros s; [split; [by exists s|by destruct s]|].
  destruct s as [|x s]; cbn [hasPrefix]; [split; [done|by intros [? ?]]|]. rewrite andb_true_iff, Z.eqb_eq, IH. naive_solver.
Qed.

(** Over any lawful index the metadata queries are exact and sorted: the
    values of a key and the keys are those of series of the metric asked for (of
    any series, when none is), and the metric names are those with the prefix. *)
Theorem index_metadata_correct {X} `{Lookup X} (l : X) (S : series_set) :
  IndexLaws l S ->
  (forall id ref t, S !! id = Some ref -> t ∈ sr_Tags ref -> t_Key t <> MetricName) ->
  (forall metric key, StronglySorted (strict str_le) (Values l metric key) /\ forall v, v ∈ Values l metric key <->
    exists id ref, S !! id = Some ref /\ carries ref key v /\ of_metric metric ref)
  /\ (forall metric, StronglySorted (strict str_le) (Keys l metric) /\ forall k, k ∈ Keys l metric <->
    (k <> MetricName) /\ exists id ref v, S !! id = Some ref /\ carries ref k v /\ of_metric metric ref)
  /\ (forall prefix, StronglySorted (strict str_le) (Metrics l prefix) /\ forall n, n ∈ Metrics l prefix <->
    exists id ref rest, S !! id = Some ref /\ sr_Metric ref = n /\ n = prefix ++ rest).
Proof.
  intros HL Hplain. split_and!; [by apply Values_spec|by apply Keys_spec|]. intros prefix. unfold Metrics.
  destruct (sorted_names (filter (fun name => hasPrefix name prefix = true) (TagValues l MetricName))) as [Hs He].
  { apply NoDup_filter, (il_values_nodup (l:=l)). }
  split; [done|]. intros n. rewrite He, list_elem_of_filter, hasPrefix_spec, (il_values (l:=l)).
  setoid_rewrite (with_tag_metric S Hplain). naive_solver.
Qed.

Lemma index_metadata_correct_witness :
  (forall metric, StronglySorted (strict str_le) (Keys example_index metric)
    /\ forall k, k ∈ Keys example_index metric <-> (k <> MetricName)
       /\ exists id ref v, example_series !! id = Some ref /\ carries ref k v /\ of_metric metric ref)
  /\ Metrics example_index (str "h") = [str "http.count"] /\ Keys example_index (str "http.count") = [str "env"; str "host"].
Proof.
  split; [|vm_compute; split; reflexivity].
  apply (index_metadata_correct example_index example_series);
    [apply mem_index_laws, built_index, example_built|apply example_plain].
Defined.
