(* ===== verification/HeadRecord.v ===== *)
(** * The head's log records (internal/tsdb/head/record.go)

    The encodings of series definitions and sample batches in the write-ahead
    log, their decoders, and the checkpoint policy.  A float64 is its bits. *)

From Stdlib Require Import ZArith Lia.
From Stdlib Require Import (notations) String.
From stdpp Require Import base sorting gmap numbers list.
From S2P Require Import Prelude Wal Gostring Tsdb.

(** ** Standard library: [encoding/binary] *)

(** [binary.Uvarint]: the value and the rest, [None] when it returns [n <= 0]. *)
Fixpoint Uvarint_loop (i : nat) (x s : Z) (buf : list Z) : option (Z * list Z) :=
  match buf with
  | [] => None
  | b :: buf' =>
      if (i =? 10)%nat then None
      else if b <? 128 then
        if (i =? 9)%nat && (1 <? b) then None else Some (Z.lor x (uint64 (Z.shiftl b s)), buf')
      else Uvarint_loop (S i) (Z.lor x (uint64 (Z.shiftl (Z.land b 127) s))) (s + 7) buf'
  end.
Definition Uvarint (buf : list Z) : option (Z * list Z) := Uvarint_loop 0 0 0 buf.

Definition Varint (buf : list Z) : option (Z * list Z) :=
  match Uvarint buf with Some (u, rest) => Some (unzigzag u, rest) | None => None end.

Definition AppendVarint (buf : list Z) (v : Z) : list Z := AppendUvarint buf (zigzag v).

(** [binary.LittleEndian]: [n] bytes of [v], and back. *)
Fixpoint le_bytes (n : nat) (v : Z) : list Z :=
  match n with O => [] | S n' => uint8 v :: le_bytes n' (Z.shiftr v 8) end.
Fixpoint le_value (b : list Z) : Z :=
  match b with [] => 0 | x :: b' => Z.lor x (Z.shiftl (le_value b') 8) end.
Definition AppendUint64 (buf : list Z) (v : Z) : list Z := buf ++ le_bytes 8 v.

(** ** Encoders *)

Definition RecordSeries : Z := 1.
Definition RecordSamples : Z := 2.

Record HSample := MkHSample { hs_ID : Z; hs_T : Z; hs_V : Z }.

Definition ulen {A} (l : list A) : Z := Z.of_nat (length l).

Definition appendString (buf : list Z) (s : gostring) : list Z := AppendUvarint buf (ulen s) ++ s.

Definition encodeSeries (buf : list Z) (id : Z) (ref : SeriesRef) : list Z :=
  let buf := AppendUvarint buf id in
  let buf := appendString buf (sr_Metric ref) in
  let buf := AppendUvarint buf (ulen (sr_Tags ref)) in
  foldl (fun buf t => appendString (appendString buf (t_Key t)) (t_Value t)) buf (sr_Tags ref).

Definition encodeSamples (buf : list Z) (samples : list HSample) : list Z :=
  let buf := AppendUvarint buf (ulen samples) in
  foldl (fun buf s => AppendUint64 (AppendVarint (AppendUvarint buf (hs_ID s)) (hs_T s)) (hs_V s)) buf samples.

(** ** The decoder *)

Inductive rec_error :=
| ErrTruncatedUvarint | ErrTruncatedVarint | ErrTruncatedFloat
| ErrStringTooLong (n left : Z)
| ErrTagCount (n len : Z) | ErrSampleCount (n len : Z).

(** It remembers the first error; every later read answers zero. *)
Record decoder := MkDecoder { d_b : list Z; d_err : option rec_error }.

Definition fail (e : rec_error) (d : decoder) : decoder := MkDecoder (d_b d) (Some e).

Definition d_uvarint (d : decoder) : Z * decoder :=
  match d_err d with
  | Some _ => (0, d)
  | None => match Uvarint (d_b d) with
            | None => (0, fail ErrTruncatedUvarint d)
            | Some (v, rest) => (v, MkDecoder rest None)
            end
  end.

Definition d_varint (d : decoder) : Z * decoder :=
  match d_err d with
  | Some _ => (0, d)
  | None => match Varint (d_b d) with
            | None => (0, fail ErrTruncatedVarint d)
            | Some (v, rest) => (v, MkDecoder rest None)
            end
  end.

Definition d_uint64 (d : decoder) : Z * decoder :=
  match d_err d with
  | Some _ => (0, d)
  | None => if (length (d_b d) <? 8)%nat then (0, fail ErrTruncatedFloat d)
            else (le_value (take 8 (d_b d)), MkDecoder (drop 8 (d_b d)) None)
  end.

Definition d_str (d : decoder) : gostring * decoder :=
  let '(n, d) := d_uvarint d in
  match d_err d with
  | Some _ => ([], d)
  | None =>
      if ulen (d_b d) <? n then ([], fail (ErrStringTooLong n (ulen (d_b d))) d)
      else (take (Z.to_nat n) (d_b d), MkDecoder (drop (Z.to_nat n) (d_b d)) None)
  end.

Fixpoint decode_tags (n : nat) (d : decoder) : list Tag * decoder :=
  match n with
  | O => ([], d)
  | S n' =>
      let '(k, d) := d_str d in
      let '(v, d) := d_str d in
      let '(ts, d) := decode_tags n' d in (MkTag k v :: ts, d)
  end.

Definition decodeSeries (b : list Z) : result rec_error (Z * SeriesRef) :=
  let d := MkDecoder b None in
  let '(id, d) := d_uvarint d in
  let '(metric, d) := d_str d in
  let '(n, d) := d_uvarint d in
  match d_err d with
  | Some e => Err e
  | None =>
      if ulen b / 2 <? n then Err (ErrTagCount n (ulen b)) else
      let '(tags, d) := decode_tags (Z.to_nat n) d in
      match d_err d with Some e => Err e | None => Ok (id, MkSeriesRef metric tags) end
  end.

(** The samples before the failure, and the failure. *)
Fixpoint decode_samples (n : nat) (d : decoder) (out : list HSample) : list HSample * option rec_error :=
  match n with
  | O => (out, d_err d)
  | S n' =>
      let '(id, d) := d_uvarint d in
      let '(t, d) := d_varint d in
      let '(v, d) := d_uint64 d in
      match d_err d with
      | Some e => (out, Some e)
      | None => decode_samples n' d (out ++ [MkHSample id t v])
      end
  end.

Definition decodeSamples (b : list Z) (out : list HSample) : list HSample * option rec_error :=
  let d := MkDecoder b None in
  let '(n, d) := d_uvarint d in
  match d_err d with
  | Some e => (out, Some e)
  | None =>
      if ulen b / 3 + 1 <? n then (out, Some (ErrSampleCount n (ulen b)))
      else decode_samples (Z.to_nat n) d out
  end.

(** ** The checkpoint policy *)

Definition keepForCheckpoint (minValid : Z) (r : Record_) : bool :=
  if rec_Type r =? RecordSeries then true
  else if rec_Type r =? RecordSamples then
    match decodeSamples (rec_Data r) [] with
    | (_, Some _) => true
    | (decoded, None) => existsb (fun s => minValid <=? hs_T s) decoded
    end
  else false.

(** ** Splitting a batch into records *)

Definition maxSampleBytes : Z := 10 + 10 + 8.
Definition maxSamplesPerRecord : Z := (MaxRecordSize - 10) / maxSampleBytes.

(** The loop of [logLocked]: at least one record, each of at most [cap]. *)
Fixpoint split_samples (fuel : nat) (cap : nat) (rest : list HSample) : list (list HSample) :=
  match fuel with
  | O => []
  | S fuel' =>
      let chunk := take cap rest in
      match drop cap rest with
      | [] => [chunk]
      | rest' => chunk :: split_samples fuel' cap rest'
      end
  end.

Definition samples_records (samples : list HSample) : list Record_ :=
  (fun chunk => MkRecord RecordSamples (encodeSamples [] chunk))
    <$> split_samples (S (length samples)) (Z.to_nat maxSamplesPerRecord) samples.

Definition series_record (id : Z) (ref : SeriesRef) : Record_ :=
  MkRecord RecordSeries (encodeSeries [] id ref).

(** ** Round trips of the primitives *)

Lemma Uvarint_loop_spec f : forall i acc u rest,
  (i + f = 10)%nat -> 0 <= u < 2 ^ (64 - 7 * Z.of_nat i) -> 0 <= acc < 2 ^ (7 * Z.of_nat i) -> (0 < f)%nat ->
  Uvarint_loop i acc (7 * Z.of_nat i) (uvarint_loop f u ++ rest)
  = Some (acc + u * 2 ^ (7 * Z.of_nat i), rest).
Proof.
  induction f as [|f IH]; intros i acc u rest Hif Hu Hacc Hpos; [lia|]. cbn [uvarint_loop].
  assert (Hi : (i <= 9)%nat) by lia.
  assert (Hp64 : 2 ^ (64 - 7 * Z.of_nat i) * 2 ^ (7 * Z.of_nat i) = 2 ^ 64)
    by (rewrite <- Z.pow_add_r by lia; f_equal; lia).
  assert (Hpow : 0 < 2 ^ (7 * Z.of_nat i)) by (apply Z.pow_pos_nonneg; lia).
  destruct (Z.leb_spec 128 u) as [Hge|Hlt].
  - destruct (uvarint_cont u Hge) as (Hb & H128 & Hland). set (b := Z.lor (uint8 u) 128) in *.
    cbn [app Uvarint_loop]. destruct (Nat.eqb_spec i 10); [lia|].
    destruct (Z.ltb_spec b 128); [lia|]. rewrite Hland.
    assert (Hi8 : (i <= 8)%nat).
    { destruct (decide (i = 9)%nat) as [->|]; [|lia]. change (64 - 7 * Z.of_nat 9) with 1 in Hu. lia. }
    assert (Hm : 0 <= u mod 128 < 128) by (apply Z.mod_pos_bound; lia).
    assert (Hdm : u = 128 * (u / 128) + u mod 128) by (apply Z.div_mod; lia).
    rewrite uvarint_acc; [|lia|done|lia|nia].
    replace (7 * Z.of_nat i + 7) with (7 * Z.of_nat (S i)) by lia.
    assert (Hp7 : 2 ^ (7 * Z.of_nat (S i)) = 128 * 2 ^ (7 * Z.of_nat i)).
    { replace (7 * Z.of_nat (S i)) with (7 + 7 * Z.of_nat i) by lia. by rewrite Z.pow_add_r by lia. }
    assert (Hsh : Z.shiftr u 7 = u / 128) by by rewrite Z.shiftr_div_pow2.
    rewrite Hsh, IH; [|lia| |rewrite Hp7; nia|lia].
    + f_equal. f_equal. rewrite Hp7. nia.
    + split; [apply Z.div_pos; lia|]. apply Z.div_lt_upper_bound; [lia|].
      replace (128 * 2 ^ (64 - 7 * Z.of_nat (S i))) with (2 ^ (64 - 7 * Z.of_nat i)); [lia|].
      replace (64 - 7 * Z.of_nat i) with (7 + (64 - 7 * Z.of_nat (S i))) by lia.
      by rewrite Z.pow_add_r by lia.
  - cbn [app Uvarint_loop]. destruct (Nat.eqb_spec i 10); [lia|].
    destruct (uvarint_last u) as [-> _]; [lia|]. destruct (Z.ltb_spec u 128); [|lia].
    destruct (Nat.eqb_spec i 9) as [->|]; cbn [andb].
    + change (64 - 7 * Z.of_nat 9) with 1 in Hu. destruct (Z.ltb_spec 1 u); [lia|].
      rewrite uvarint_acc; [done|lia|done|lia|nia].
    + rewrite uvarint_acc; [done|lia|done|lia|nia].
Qed.

Lemma Uvarint_Append u rest : is_u64 u -> Uvarint (uvarint_loop 10 u ++ rest) = Some (u, rest).
Proof.
  intros Hu. unfold Uvarint. change 0 with (7 * Z.of_nat 0) at 2. unfold is_u64 in Hu.
  rewrite (Uvarint_loop_spec 10 0 0 u rest); [|done|cbn; lia|cbn; lia|lia]. f_equal. f_equal. cbn. lia.
Qed.

Lemma length_uvarint f u : (length (uvarint_loop f u) <= f)%nat.
Proof.
  revert u. induction f as [|f IH]; intros u; cbn [uvarint_loop]; [done|].
  destruct (128 <=? u); cbn [length]; [specialize (IH (Z.shiftr u 7))|]; lia.
Qed.

Lemma uvarint_nonempty u : (1 <= length (uvarint_loop 10 u))%nat.
Proof. cbn [uvarint_loop]. destruct (128 <=? u); cbn [length]; lia. Qed.

Lemma le_value_bytes n : forall v, 0 <= v < 2 ^ (8 * Z.of_nat n) -> le_value (le_bytes n v) = v.
Proof.
  induction n as [|n IH]; intros v Hv; cbn [le_bytes le_value]; [cbn in Hv; lia|].
  rewrite IH.
  - rewrite Z.shiftr_div_pow2, Z.shiftl_mul_pow2, lor_disjoint by (lia || apply uint8_range).
    unfold uint8. dlia.
  - rewrite Z.shiftr_div_pow2 by lia. split; [apply Z.div_pos; lia|]. apply Z.div_lt_upper_bound; [lia|].
    rewrite <- Z.pow_add_r by lia. replace (8 + 8 * Z.of_nat n) with (8 * Z.of_nat (S n)) by lia. lia.
Qed.

Lemma length_le_bytes n v : length (le_bytes n v) = n.
Proof. revert v. induction n as [|n IH]; intros v; cbn [le_bytes length]; [done|by rewrite IH]. Qed.

(** ** Reading back what was written *)

Abbreviation at_ b := (MkDecoder b None).

Lemma d_uvarint_enc u rest : is_u64 u -> d_uvarint (at_ (uvarint_loop 10 u ++ rest)) = (u, at_ rest).
Proof. intros Hu. unfold d_uvarint. cbn [d_err d_b]. by rewrite Uvarint_Append. Qed.

Lemma d_varint_enc v rest : is_i64 v -> d_varint (at_ (uvarint_loop 10 (zigzag v) ++ rest)) = (v, at_ rest).
Proof.
  intros Hv. unfold d_varint, Varint. cbn [d_err d_b].
  rewrite Uvarint_Append by apply zigzag_range. by rewrite unzigzag_zigzag.
Qed.

Lemma d_uint64_enc v rest : is_u64 v -> d_uint64 (at_ (le_bytes 8 v ++ rest)) = (v, at_ rest).
Proof.
  intros Hv. unfold d_uint64. cbn [d_err d_b]. rewrite length_app, length_le_bytes.
  destruct (Nat.ltb_spec (8 + length rest) 8); [lia|].
  rewrite take_app_length', drop_app_length' by by rewrite length_le_bytes. by rewrite le_value_bytes.
Qed.

(** Lengths are Go [int]s. *)
Definition int_len {A} (l : list A) : Prop := ulen l < 2 ^ 63.

Lemma ulen_u64 {A} (l : list A) : int_len l -> is_u64 (ulen l).
Proof. unfold int_len, ulen, is_u64. lia. Qed.

Definition str_bytes (s : gostring) : list Z := uvarint_loop 10 (ulen s) ++ s.

Lemma d_str_enc s rest : int_len s -> d_str (at_ (str_bytes s ++ rest)) = (s, at_ rest).
Proof.
  intros Hs. unfold d_str, str_bytes. rewrite <- app_assoc, d_uvarint_enc by by apply ulen_u64.
  cbn [d_err d_b]. unfold ulen. destruct (Z.ltb_spec (Z.of_nat (length (s ++ rest))) (Z.of_nat (length s))).
  { rewrite length_app in *. lia. }
  rewrite Nat2Z.id. by rewrite take_app_length, drop_app_length.
Qed.

Lemma foldl_bytes {A} (g : list Z -> A -> list Z) (f : A -> list Z) l buf :
  (forall buf x, g buf x = buf ++ f x) -> foldl g buf l = buf ++ (l ≫= f).
Proof.
  intros Hg. revert buf. induction l as [|x l IH]; intros buf; cbn [foldl]; [by rewrite app_nil_r|].
  by rewrite IH, Hg, bind_cons, app_assoc.
Qed.

Definition tag_bytes (t : Tag) : list Z := str_bytes (t_Key t) ++ str_bytes (t_Value t).

Lemma encodeSeries_bytes buf id ref : encodeSeries buf id ref
  = buf ++ uvarint_loop 10 id ++ str_bytes (sr_Metric ref) ++ uvarint_loop 10 (ulen (sr_Tags ref))
      ++ (sr_Tags ref ≫= tag_bytes).
Proof.
  unfold encodeSeries. rewrite (foldl_bytes _ tag_bytes).
  - unfold appendString, AppendUvarint, str_bytes. by rewrite <- !app_assoc.
  - intros. unfold appendString, AppendUvarint, tag_bytes, str_bytes. by rewrite <- !app_assoc.
Qed.

Definition sample_bytes (s : HSample) : list Z :=
  uvarint_loop 10 (hs_ID s) ++ uvarint_loop 10 (zigzag (hs_T s)) ++ le_bytes 8 (hs_V s).

Lemma encodeSamples_bytes buf samples : encodeSamples buf samples
  = buf ++ uvarint_loop 10 (ulen samples) ++ (samples ≫= sample_bytes).
Proof.
  unfold encodeSamples. rewrite (foldl_bytes _ sample_bytes).
  - unfold AppendUvarint. by rewrite <- !app_assoc.
  - intros. unfold AppendUint64, AppendVarint, AppendUvarint, sample_bytes. by rewrite <- !app_assoc.
Qed.

(** What the machine types and the size of a Go slice guarantee. *)
Record ref_sized (ref : SeriesRef) : Prop := {
  rs_metric : int_len (sr_Metric ref);
  rs_tags : int_len (sr_Tags ref);
  rs_each : Forall (fun t => int_len (t_Key t) /\ int_len (t_Value t)) (sr_Tags ref);
}.
Definition hsample_ok (s : HSample) : Prop := is_u64 (hs_ID s) /\ is_i64 (hs_T s) /\ is_u64 (hs_V s).

Lemma decode_tags_enc tags rest : Forall (fun t => int_len (t_Key t) /\ int_len (t_Value t)) tags ->
  decode_tags (length tags) (at_ ((tags ≫= tag_bytes) ++ rest)) = (tags, at_ rest).
Proof.
  induction tags as [|[k v] tags IH]; intros Ht; [done|]. apply Forall_cons_1 in Ht as [[Hk Hv] Ht].
  cbn [length decode_tags t_Key t_Value] in *. rewrite bind_cons. unfold tag_bytes at 1. cbn [t_Key t_Value].
  rewrite <- !app_assoc, d_str_enc, d_str_enc by done. by rewrite IH.
Qed.

Lemma length_tag_bytes tags : (2 * length tags <= length (tags ≫= tag_bytes))%nat.
Proof.
  induction tags as [|t tags IH]; [done|]. rewrite bind_cons, length_app. unfold tag_bytes at 1, str_bytes.
  rewrite !length_app. pose proof (uvarint_nonempty (ulen (t_Key t))). pose proof (uvarint_nonempty (ulen (t_Value t))).
  cbn [length]. lia.
Qed.

Lemma decode_samples_enc samples : forall out rest, Forall hsample_ok samples ->
  decode_samples (length samples) (at_ ((samples ≫= sample_bytes) ++ rest)) out = (out ++ samples, None).
Proof.
  induction samples as [|[id t v] samples IH]; intros out rest Hs; cbn [length decode_samples].
  { by rewrite app_nil_r. }
  apply Forall_cons_1 in Hs as [(Hid & Ht & Hv) Hs]. rewrite bind_cons. unfold sample_bytes at 1. cbn in Hid, Ht, Hv.
  cbn [hs_ID hs_T hs_V]. rewrite <- !app_assoc, d_uvarint_enc, d_varint_enc, d_uint64_enc by done.
  cbn [d_err]. rewrite IH by done. by rewrite <- app_assoc.
Qed.

Lemma length_samples_bytes samples :
  (10 * length samples <= length (samples ≫= sample_bytes) <= 28 * length samples)%nat.
Proof.
  induction samples as [|s samples IH]; [done|]. rewrite bind_cons, length_app. unfold sample_bytes at 1 3.
  rewrite !length_app, length_le_bytes.
  pose proof (uvarint_nonempty (hs_ID s)). pose proof (uvarint_nonempty (zigzag (hs_T s))).
  pose proof (length_uvarint 10 (hs_ID s)). pose proof (length_uvarint 10 (zigzag (hs_T s))).
  cbn [length]. lia.
Qed.

Lemma decodeSeries_enc id ref : is_u64 id -> ref_sized ref -> decodeSeries (encodeSeries [] id ref) = Ok (id, ref).
Proof.
  intros Hid [Hm Ht He]. unfold decodeSeries. rewrite encodeSeries_bytes. cbn [app].
  rewrite d_uvarint_enc by done. rewrite d_str_enc by done. rewrite d_uvarint_enc by by apply ulen_u64.
  cbn [d_err].
  set (b := uvarint_loop 10 id ++ _). destruct (Z.ltb_spec (ulen b / 2) (ulen (sr_Tags ref))) as [Hlt|_].
  { exfalso. pose proof (length_tag_bytes (sr_Tags ref)).
    assert (ulen (sr_Tags ref) <= ulen b / 2); [|lia]. apply Z.div_le_lower_bound; [lia|].
    unfold b, ulen. rewrite !length_app. lia. }
  unfold ulen. rewrite Nat2Z.id. rewrite <- (app_nil_r (sr_Tags ref ≫= tag_bytes)), decode_tags_enc by done.
  cbn [d_err]. by destruct ref.
Qed.

Lemma decodeSamples_enc samples out : int_len samples -> Forall hsample_ok samples ->
  decodeSamples (encodeSamples [] samples) out = (out ++ samples, None).
Proof.
  intros Hn Hs. unfold decodeSamples. rewrite encodeSamples_bytes. cbn [app].
  rewrite d_uvarint_enc by by apply ulen_u64. cbn [d_err].
  set (b := uvarint_loop 10 _ ++ _). destruct (Z.ltb_spec (ulen b / 3 + 1) (ulen samples)) as [Hlt|_].
  { exfalso. pose proof (length_samples_bytes samples).
    assert (ulen samples <= ulen b / 3); [|lia]. apply Z.div_le_lower_bound; [lia|].
    unfold b, ulen. rewrite !length_app. lia. }
  unfold ulen. rewrite Nat2Z.id. rewrite <- (app_nil_r (samples ≫= sample_bytes)). by apply decode_samples_enc.
Qed.

(** ** Splitting *)

Lemma maxSamplesPerRecord_val : maxSamplesPerRecord = 599185.
Proof. reflexivity. Qed.

Lemma split_samples_spec fuel cap : forall rest, (0 < cap)%nat -> (length rest < fuel)%nat ->
  concat (split_samples fuel cap rest) = rest
  /\ Forall (fun c => length c <= cap)%nat (split_samples fuel cap rest).
Proof.
  induction fuel as [|fuel IH]; intros rest Hc Hf; [lia|]. cbn [split_samples].
  destruct (drop cap rest) as [|x r] eqn:E.
  - cbn [concat]. rewrite app_nil_r. split.
    + rewrite <- (take_drop cap rest) at 2. by rewrite E, app_nil_r.
    + constructor; [rewrite length_take; lia|constructor].
  - assert (Hlen : length (x :: r) = (length rest - cap)%nat) by (rewrite <- E; apply length_drop).
    destruct (IH (x :: r)) as [Hcat Hall]; [done|cbn [length] in *; lia|]. split.
    + cbn [concat]. rewrite Hcat, <- E. apply take_drop.
    + constructor; [rewrite length_take; lia|done].
Qed.

(** The samples a run of records decodes to. *)
Definition decode_all (recs : list Record_) : list HSample :=
  recs ≫= fun r => fst (decodeSamples (rec_Data r) []).

Lemma decode_chunks (chunks : list (list HSample)) :
  Forall (fun c => Forall hsample_ok c /\ Z.of_nat (length c) <= 599185) chunks ->
  decode_all ((fun chunk => MkRecord RecordSamples (encodeSamples [] chunk)) <$> chunks) = concat chunks.
Proof.
  induction chunks as [|c chunks IH]; intros Hc; [done|]. apply Forall_cons_1 in Hc as [[Hok Hlen] Hc].
  unfold decode_all in *. rewrite fmap_cons, bind_cons. cbn [rec_Data concat]. rewrite IH by done.
  rewrite decodeSamples_enc; [done|unfold int_len, ulen; lia|done].
Qed.

Lemma chunk_record_size (chunk : list HSample) : (Z.of_nat (length chunk) <= 599185) ->
  Z.of_nat (length (encodeSamples [] chunk)) <= MaxRecordSize.
Proof.
  intros Hc. rewrite encodeSamples_bytes. cbn [app]. rewrite length_app.
  pose proof (length_samples_bytes chunk). pose proof (length_uvarint 10 (ulen chunk)).
  change MaxRecordSize with 16777216. lia.
Qed.

Lemma bytes_app (a b : list Z) : Forall is_byte a -> Forall is_byte b -> Forall is_byte (a ++ b).
Proof. intros. by apply Forall_app. Qed.

Lemma le_bytes_bytes n : forall v, Forall is_byte (le_bytes n v).
Proof. induction n as [|n IH]; intros v; cbn [le_bytes]; constructor; [apply uint8_range|apply IH]. Qed.

Lemma encodeSamples_is_bytes samples : Forall hsample_ok samples -> Forall is_byte (encodeSamples [] samples).
Proof.
  intros Hs. rewrite encodeSamples_bytes. cbn [app]. apply bytes_app; [apply uvarint_loop_bytes; unfold ulen; lia|].
  induction Hs as [|s samples (Hid & Ht & Hv) _ IH]; [constructor|]. rewrite bind_cons. apply bytes_app; [|done].
  unfold sample_bytes, is_u64 in *. apply bytes_app; [apply uvarint_loop_bytes; lia|].
  apply bytes_app; [|apply le_bytes_bytes]. apply uvarint_loop_bytes. pose proof (zigzag_range (hs_T s)).
  unfold is_u64 in *. lia.
Qed.

(** A series definition survives the log: decoding what [encodeSeries] wrote
    returns the same id and the same reference, any number of tags included. *)
Theorem series_record_roundtrip id ref : is_u64 id -> ref_sized ref ->
  decodeSeries (rec_Data (series_record id ref)) = Ok (id, ref).
Proof. intros. by apply decodeSeries_enc. Qed.

Lemma series_record_roundtrip_witness :
  decodeSeries (rec_Data (series_record 300 (NewSeriesRef (str "cpu.user") [str "host:a"; str "canary"])))
  = Ok (300, NewSeriesRef (str "cpu.user") [str "host:a"; str "canary"]).
Proof.
  apply (series_record_roundtrip 300); [unfold is_u64; lia|].
  constructor; [done|done|]. repeat constructor.
Defined.

(** A batch of any size is logged as records the log accepts (each within
    [MaxRecordSize], of the samples' type, bytes), and decoding the records in
    order returns the batch. *)
Theorem samples_records_roundtrip samples : Forall hsample_ok samples ->
  decode_all (samples_records samples) = samples
  /\ Forall (fun r => rec_Type r = RecordSamples /\ Z.of_nat (length (rec_Data r)) <= MaxRecordSize
       /\ Forall is_byte (rec_Data r)) (samples_records samples).
Proof.
  intros Hs. unfold samples_records. rewrite maxSamplesPerRecord_val.
  destruct (split_samples_spec (S (length samples)) (Z.to_nat 599185) samples) as [Hcat Hall]; [lia|lia|].
  assert (Hchunks : Forall (fun c => Forall hsample_ok c /\ Z.of_nat (length c) <= 599185)
    (split_samples (S (length samples)) (Z.to_nat 599185) samples)).
  { apply Forall_forall. intros c Hc. rewrite Forall_forall in Hall. specialize (Hall c Hc). split; [|lia].
    rewrite <- Hcat in Hs. apply Forall_concat in Hs. by eapply Forall_forall in Hs. }
  split; [by rewrite decode_chunks|]. apply Forall_fmap. eapply Forall_impl; [exact Hchunks|].
  intros c [Hok Hlen]. cbn. split_and!; [done|by apply chunk_record_size|by apply encodeSamples_is_bytes].
Qed.

Lemma samples_records_roundtrip_witness :
  let batch := [MkHSample 1 1700000000000 4607182418800017408; MkHSample 2 (-5) 0] in
  decode_all (samples_records batch) = batch
  /\ Forall (fun r => rec_Type r = RecordSamples /\ Z.of_nat (length (rec_Data r)) <= MaxRecordSize
       /\ Forall is_byte (rec_Data r)) (samples_records batch).
Proof. apply samples_records_roundtrip. repeat constructor; cbn; lia. Defined.
