(* ===== verification/Head.v ===== *)
(** * The head (internal/tsdb/head/head.go, replay.go)

    The in-memory window of recent samples: series identity, the chunks of each
    series, the commit of a batch through the write-ahead log, block cuts and
    garbage collection, reads, and replay.

    A [*memSeries] is its id: ids are unique among the series of a head, and
    [byID] is the store they live in.  The 256 shards are one map from keys to
    ids.  Every operation that changes the head holds the commit lock from start
    to end, so an operation is one step. *)

From Stdlib Require Import ZArith Lia.
From Stdlib Require Import (notations) String.
From stdpp Require Import base sorting gmap numbers list.
From S2P Require Import Prelude Bstream Chunkenc Wal Gofloat Gostring Tsdb Index HeadRecord.

(** ** Errors, options, state *)

Inductive head_error :=
| ErrOutOfOrder
| ErrOutOfBounds
| ErrSeriesLimit
| ErrChunk (e : chunk_error)
| ErrLog (e : wal_error)
| ErrRefs (refs samples : nat)
| ErrNilAppender.   (* a nil dereference: ms.app used before it is set *)

Definition DefaultMaxSeriesPerMetric : Z := 10000.
Definition DefaultBlockRange : Z := 2 * 60 * 60 * 1000.

(** The log a head writes to. *)
Class Logger (W : Type) := {
  lg_Log : list Record_ -> W -> W * result wal_error unit;
  lg_Sync : W -> W * result wal_error unit;
}.
#[export] Instance WAL_Logger : Logger WAL := {| lg_Log := Log; lg_Sync := Sync |}.

Record memChunk := MkMemChunk { mc_minT : Z; mc_maxT : Z; mc_chunk : Chunk }.

Record memSeries := MkMemSeries {
  ms_id : Z;
  ms_ref : SeriesRef;
  ms_chunks : list memChunk;
  ms_app : option Appender;
  ms_lastT : Z;
  ms_lastV : Z;
  ms_logged : bool;
}.

Record Head (W : Type) := MkHead {
  h_wal : option W;
  h_BlockRange : Z;
  h_MaxSeries : Z;
  h_SyncOnAppend : bool;
  h_shards : gmap gostring Z;
  h_postings : MemPostings;
  h_byID : gmap Z memSeries;
  h_perMetric : gmap gostring Z;
  h_nextID : Z;
  h_minValid : Z;
  h_oooDropped : Z;
  h_limitHits : Z;
}.
Arguments MkHead {W}. Arguments h_wal {W}. Arguments h_BlockRange {W}. Arguments h_MaxSeries {W}.
Arguments h_SyncOnAppend {W}. Arguments h_shards {W}. Arguments h_postings {W}. Arguments h_byID {W}.
Arguments h_perMetric {W}. Arguments h_nextID {W}. Arguments h_minValid {W}. Arguments h_oooDropped {W}.
Arguments h_limitHits {W}.

Definition NewHead {W} (wal : option W) (blockRange maxSeries : Z) (sync : bool) : Head W :=
  MkHead wal (if blockRange <=? 0 then DefaultBlockRange else blockRange)
    (if maxSeries =? 0 then DefaultMaxSeriesPerMetric else maxSeries) sync
    ∅ NewMemPostings ∅ ∅ 0 (- 2 ^ 63) 0 0.

(** ** One series *)

Definition head_chunk (ms : memSeries) : option memChunk := last (ms_chunks ms).

(** The scan of one chunk. *)
Fixpoint scan_for (l : list (Z * Z)) (t v : Z) : bool :=
  match l with
  | [] => false
  | (ct, cv) :: l' => if t <? ct then false else if ct =? t then feq cv v else scan_for l' t v
  end.

Fixpoint holds_in (chunks : list memChunk) (t v : Z) : bool :=
  match chunks with
  | [] => false
  | c :: rest =>
      if (t <? mc_minT c) || (mc_maxT c <? t) then holds_in rest t v
      else scan_for (fst (drain (ChunkIterator (mc_chunk c)))) t v
  end.
Definition holds (ms : memSeries) (t v : Z) : bool := holds_in (ms_chunks ms) t v.

Definition set_chunks (chunks : list memChunk) (app : option Appender) (ms : memSeries) : memSeries :=
  MkMemSeries (ms_id ms) (ms_ref ms) chunks app (ms_lastT ms) (ms_lastV ms) (ms_logged ms).
Definition set_last (t v : Z) (ms : memSeries) : memSeries :=
  MkMemSeries (ms_id ms) (ms_ref ms) (ms_chunks ms) (ms_app ms) t v (ms_logged ms).
Definition set_logged (b : bool) (ms : memSeries) : memSeries :=
  MkMemSeries (ms_id ms) (ms_ref ms) (ms_chunks ms) (ms_app ms) (ms_lastT ms) (ms_lastV ms) b.

(** The appender writes through to the newest chunk. *)
Definition write_through (f : memChunk -> memChunk) (chunks : list memChunk) : list memChunk :=
  match reverse chunks with [] => [] | c :: rest => reverse (f c :: rest) end.

Definition needs_chunk (blockRange t : Z) (ms : memSeries) : bool :=
  match head_chunk ms with
  | None => true
  | Some cur => Full (mc_chunk cur) || negb (BlockOf t blockRange =? BlockOf (mc_minT cur) blockRange)
  end.

(** The part of [appendTo] that stores: cut a chunk if needed, append to it. *)
Definition append_sample (blockRange t v : Z) (ms : memSeries) : memSeries * result head_error bool :=
  match (if needs_chunk blockRange t ms then
           match ChunkAppender NewChunk with
           | Err e => Err (ErrChunk e)
           | Ok app => Ok (set_chunks (ms_chunks ms ++ [MkMemChunk t t NewChunk]) (Some app) ms)
           end
         else Ok ms) with
  | Err e => (ms, Err e)
  | Ok ms =>
      match ms_app ms with
      | None => (ms, Err ErrNilAppender)
      | Some app =>
          let '(app', res) := Append t v app in
          let through maxT c := MkMemChunk (mc_minT c) (maxT c) (a_c app') in
          match res with
          | Err e => (set_chunks (write_through (through mc_maxT) (ms_chunks ms)) (Some app') ms, Err (ErrChunk e))
          | Ok _ =>
              (set_last t v (set_chunks (write_through (through (fun _ => t)) (ms_chunks ms)) (Some app') ms), Ok true)
          end
      end
  end.

Definition appendTo (blockRange minValid t v : Z) (ms : memSeries) : memSeries * result head_error bool :=
  if t <? minValid then (ms, Err ErrOutOfBounds) else
  if (0 <? length (ms_chunks ms))%nat && (t <=? ms_lastT ms) then
    if holds ms t v then (ms, Ok false) else (ms, Err ErrOutOfOrder)
  else append_sample blockRange t v ms.

(** The samples of one chunk in a window, or the decoding error. *)
Definition in_window (from to : Z) (s : Z * Z) : bool := negb ((s.1 <? from) || (to <? s.1)).

Fixpoint samplesIn_chunks (chunks : list memChunk) (from to : Z) (out : list (Z * Z)) :
  result chunk_error (list (Z * Z)) :=
  match chunks with
  | [] => Ok out
  | c :: rest =>
      if (mc_maxT c <? from) || (to <? mc_minT c) then samplesIn_chunks rest from to out
      else
        let '(ss, it) := drain (ChunkIterator (mc_chunk c)) in
        match it_err it with
        | Some e => Err e
        | None => samplesIn_chunks rest from to (out ++ filter (fun s => in_window from to s = true) ss)
        end
  end.
Definition samplesIn (ms : memSeries) (from to : Z) : result chunk_error (list (Z * Z)) :=
  samplesIn_chunks (ms_chunks ms) from to [].

(** ** Identity and the index *)

Section Head_ops.
Context {W : Type} `{Logger W}.
Abbreviation head := (Head W).

Definition with_ids (shards : gmap gostring Z) (postings : MemPostings) (byID : gmap Z memSeries)
    (perMetric : gmap gostring Z) (nextID : Z) (h : head) : head :=
  MkHead (h_wal h) (h_BlockRange h) (h_MaxSeries h) (h_SyncOnAppend h) shards postings byID perMetric nextID
    (h_minValid h) (h_oooDropped h) (h_limitHits h).
Definition with_byID (byID : gmap Z memSeries) (h : head) : head :=
  with_ids (h_shards h) (h_postings h) byID (h_perMetric h) (h_nextID h) h.
Definition with_minValid (mint : Z) (h : head) : head :=
  MkHead (h_wal h) (h_BlockRange h) (h_MaxSeries h) (h_SyncOnAppend h) (h_shards h) (h_postings h) (h_byID h)
    (h_perMetric h) (h_nextID h) mint (h_oooDropped h) (h_limitHits h).
Definition with_wal (w : option W) (h : head) : head :=
  MkHead w (h_BlockRange h) (h_MaxSeries h) (h_SyncOnAppend h) (h_shards h) (h_postings h) (h_byID h)
    (h_perMetric h) (h_nextID h) (h_minValid h) (h_oooDropped h) (h_limitHits h).
Definition add_dropped (n : Z) (h : head) : head :=
  MkHead (h_wal h) (h_BlockRange h) (h_MaxSeries h) (h_SyncOnAppend h) (h_shards h) (h_postings h) (h_byID h)
    (h_perMetric h) (h_nextID h) (h_minValid h) (h_oooDropped h + n) (h_limitHits h).
Definition add_limitHit (h : head) : head :=
  MkHead (h_wal h) (h_BlockRange h) (h_MaxSeries h) (h_SyncOnAppend h) (h_shards h) (h_postings h) (h_byID h)
    (h_perMetric h) (h_nextID h) (h_minValid h) (h_oooDropped h) (h_limitHits h + 1).

(** Insert a series under an id in every index. *)
Definition index_series (id : Z) (ref : SeriesRef) (logged : bool) (nextID : Z) (h : head) : head :=
  with_ids (<[Key ref := id]> (h_shards h)) (MemAdd (h_postings h) id ref)
    (<[id := MkMemSeries id ref [] None 0 0 logged]> (h_byID h))
    (<[sr_Metric ref := default 0 (h_perMetric h !! sr_Metric ref) + 1]> (h_perMetric h)) nextID h.

Definition getOrCreate (ref : SeriesRef) (h : head) : head * result head_error (Z * bool) :=
  match h_shards h !! Key ref with
  | Some id => (h, Ok (id, false))
  | None =>
      if (0 <? h_MaxSeries h) && (h_MaxSeries h <=? default 0 (h_perMetric h !! sr_Metric ref))
      then (add_limitHit h, Err ErrSeriesLimit)
      else
        let id := h_nextID h + 1 in
        (index_series id ref false id h, Ok (id, true))
  end.

Definition forget (id : Z) (ref : SeriesRef) (h : head) : head :=
  match h_byID h !! id with
  | None => h
  | Some _ =>
      let n := default 0 (h_perMetric h !! sr_Metric ref) - 1 in
      with_ids (delete (Key ref) (h_shards h)) (MemDelete (h_postings h) id ref) (delete id (h_byID h))
        (if n <=? 0 then delete (sr_Metric ref) (h_perMetric h) else <[sr_Metric ref := n]> (h_perMetric h))
        (h_nextID h) h
  end.

(** [forgetEmpty], over the series created by a commit. *)
Definition forget_if_empty (h : head) (id : Z) : head :=
  match h_byID h !! id with
  | Some ms => match ms_chunks ms with [] => forget id (ms_ref ms) h | _ => h end
  | None => h
  end.
Definition forgetEmpty (created : list Z) (h : head) : head := foldl forget_if_empty h created.

(** ** The commit *)

Definition on_series (id : Z) (f : memSeries -> memSeries) (h : head) : head :=
  with_byID (alter f id (h_byID h)) h.

Definition is_logged (h : head) (id : Z) : bool :=
  match h_byID h !! id with Some ms => ms_logged ms | None => true end.

Definition series_recs (ids : list Z) (h : head) : list Record_ :=
  omap (fun id => match h_byID h !! id with
                  | Some ms => Some (series_record (ms_id ms) (ms_ref ms)) | None => None end) ids.

Definition logLocked (pending : list Z) (valid : list HSample) (w : W) (h : head) : head * result wal_error unit :=
  let recs := series_recs pending h ++ samples_records valid in
  match lg_Log recs w with
  | (w1, Err e) => (with_wal (Some w1) h, Err e)
  | (w1, Ok _) =>
      if h_SyncOnAppend h then let '(w2, res) := lg_Sync w1 in (with_wal (Some w2) h, res)
      else (with_wal (Some w1) h, Ok tt)
  end.

Record Rejection := MkRejection { rj_Index : Z; rj_Err : head_error }.

(** What the resolve loop has so far. *)
Record resolving := MkResolving {
  rv_head : head;
  rv_rejected : list Rejection;
  rv_dropped : Z;
  rv_created : list Z;
  rv_out : list (option HSample);   (* resolved samples, with their ids *)
}.

Definition resolve_one (minValid : Z) (i : Z) (ref : SeriesRef) (s : HSample) (r : resolving) : resolving :=
  if hs_T s <? minValid then
    MkResolving (rv_head r) (rv_rejected r ++ [MkRejection i ErrOutOfBounds]) (rv_dropped r + 1)
      (rv_created r) (rv_out r ++ [None])
  else
    match getOrCreate ref (rv_head r) with
    | (h, Err e) =>
        MkResolving h (rv_rejected r ++ [MkRejection i e]) (rv_dropped r) (rv_created r) (rv_out r ++ [None])
    | (h, Ok (id, isNew)) =>
        MkResolving h (rv_rejected r) (rv_dropped r) (if isNew : bool then rv_created r ++ [id] else rv_created r)
          (rv_out r ++ [Some (MkHSample id (hs_T s) (hs_V s))])
    end.

Fixpoint resolve (minValid : Z) (i : Z) (batch : list (SeriesRef * HSample)) (r : resolving) : resolving :=
  match batch with
  | [] => r
  | (ref, s) :: rest => resolve minValid (i + 1) rest (resolve_one minValid i ref s r)
  end.

(** The series of a batch whose definition is not in the log yet, marked. *)
Fixpoint mark_pending (out : list (option HSample)) (h : head) (pending : list Z) : head * list Z :=
  match out with
  | [] => (h, pending)
  | None :: rest => mark_pending rest h pending
  | Some s :: rest =>
      if is_logged h (hs_ID s) then mark_pending rest h pending
      else mark_pending rest (on_series (hs_ID s) (set_logged true) h) (pending ++ [hs_ID s])
  end.

(** What the apply loop has so far. *)
Record applying := MkApplying {
  ap_head : head;
  ap_rejected : list Rejection;
  ap_dropped : Z;
  ap_stored : list bool;
}.

Definition apply_one (minValid : Z) (i : Z) (out : option HSample) (a : applying) : applying :=
  match out with
  | None => MkApplying (ap_head a) (ap_rejected a) (ap_dropped a) (ap_stored a ++ [false])
  | Some s =>
      match h_byID (ap_head a) !! hs_ID s with
      | None => a   (* unreachable: the series was resolved in this commit *)
      | Some ms =>
          let '(ms', res) := appendTo (h_BlockRange (ap_head a)) minValid (hs_T s) (hs_V s) ms in
          let h' := on_series (hs_ID s) (fun _ => ms') (ap_head a) in
          match res with
          | Ok wrote => MkApplying h' (ap_rejected a) (ap_dropped a) (ap_stored a ++ [wrote])
          | Err e =>
              MkApplying h' (ap_rejected a ++ [MkRejection i e])
                (ap_dropped a + match e with ErrOutOfOrder => 1 | _ => 0 end) (ap_stored a ++ [false])
          end
      end
  end.

Fixpoint apply_all (minValid : Z) (i : Z) (out : list (option HSample)) (a : applying) : applying :=
  match out with
  | [] => a
  | o :: rest => apply_all minValid (i + 1) rest (apply_one minValid i o a)
  end.

(** [byRejectionIndex]: batch-wide failures last. *)
Definition rejection_le (a b : Rejection) : Prop :=
  rj_Index b < 0 \/ (0 <= rj_Index a /\ rj_Index a <= rj_Index b).
#[export] Instance rejection_le_dec : RelDecision rejection_le.
Proof. intros a b. unfold rejection_le. apply _. Defined.

(** The deferred calls: counters, then the series nothing was stored in. *)
Definition finish (created : list Z) (dropped : Z) (rejected : list Rejection) (h : head) : head * list Rejection :=
  (forgetEmpty created (if 0 <? dropped then add_dropped dropped h else h), merge_sort rejection_le rejected).

Definition HeadAppend (refs : list SeriesRef) (samples : list HSample) (h : head) :
  head * option (list bool) * list Rejection :=
  if negb (length refs =? length samples)%nat
  then (h, None, [MkRejection (-1) (ErrRefs (length refs) (length samples))]) else
  let minValid := h_minValid h in
  let r := resolve minValid 0 (zip refs samples) (MkResolving h [] 0 [] []) in
  let fin h dropped rejected stored :=
    let '(h, rejected) := finish (rv_created r) dropped rejected h in (h, stored, rejected) in
  let apply h :=
    let a := apply_all minValid 0 (rv_out r) (MkApplying h (rv_rejected r) (rv_dropped r) []) in
    fin (ap_head a) (ap_dropped a) (ap_rejected a) (Some (ap_stored a)) in
  match omap id (rv_out r) with
  | [] => fin (rv_head r) (rv_dropped r) (rv_rejected r) (Some (replicate (length samples) false))
  | valid =>
      match h_wal h with
      | None => apply (rv_head r)
      | Some w =>
          let '(h1, pending) := mark_pending (rv_out r) (rv_head r) [] in
          match logLocked pending valid w h1 with
          | (h2, Err e) =>
              fin (foldl (fun h id => on_series id (set_logged false) h) h2 pending) (rv_dropped r)
                (rv_rejected r ++ [MkRejection (-1) (ErrLog e)]) None
          | (h2, Ok _) => apply h2
          end
      end
  end.

(** ** Block cuts *)

Definition Freeze (mint : Z) (h : head) : head := if h_minValid h <? mint then with_minValid mint h else h.

Definition truncate_series (mint : Z) (ms : memSeries) : memSeries :=
  let kept := filter (fun c => mint <= mc_maxT c) (ms_chunks ms) in
  let app := if negb (length kept =? length (ms_chunks ms))%nat && (length kept =? 0)%nat
             then None else ms_app ms in
  set_chunks kept app ms.

(** One series of the pass, with the counts of dropped series and chunks. *)
Definition truncate_one (mint : Z) (st : head * Z * Z) (id : Z) : head * Z * Z :=
  let '(h, droppedSeries, droppedChunks) := st in
  match h_byID h !! id with
  | None => st
  | Some ms =>
      let kept := ms_chunks (truncate_series mint ms) in
      let droppedChunks := droppedChunks + Z.of_nat (length (ms_chunks ms)) - Z.of_nat (length kept) in
      let h := on_series id (truncate_series mint) h in
      match kept with
      | [] => (forget id (ms_ref ms) h, droppedSeries + 1, droppedChunks)
      | _ => (h, droppedSeries, droppedChunks)
      end
  end.

Definition HeadTruncate (mint : Z) (h : head) : head * Z * Z :=
  foldl (truncate_one mint) (with_minValid mint h, 0, 0) ((map_to_list (h_byID h)).*1).

(** ** Reads *)

Definition key_le (a b : SeriesRef * list (Z * Z)) : Prop := str_le (Key a.1) (Key b.1).
#[export] Instance key_le_dec : RelDecision key_le.
Proof. intros a b. unfold key_le. apply _. Defined.

Fixpoint select_ids (ids : list Z) (from to : Z) (h : head) : result chunk_error (list (SeriesRef * list (Z * Z))) :=
  match ids with
  | [] => Ok []
  | id :: rest =>
      match h_byID h !! id with
      | None => select_ids rest from to h
      | Some ms =>
          match samplesIn ms from to with
          | Err e => Err e
          | Ok [] => select_ids rest from to h
          | Ok ss => match select_ids rest from to h with Ok out => Ok ((ms_ref ms, ss) :: out) | Err e => Err e end
          end
      end
  end.

Definition HeadSelect (sel : Selector) (from to : Z) (h : head) : result chunk_error (list (SeriesRef * list (Z * Z))) :=
  match select_ids (IndexSelect (h_postings h) sel) from to h with
  | Ok out => Ok (merge_sort key_le out)
  | Err e => Err e
  end.

Definition SeriesOf (metric : gostring) (h : head) : list SeriesRef :=
  omap (fun id => match h_byID h !! id with
                  | Some ms => match ms_chunks ms with [] => None | _ => Some (ms_ref ms) end
                  | None => None end) (Postings (h_postings h) MetricName metric).

(** ** Statistics *)

Record HStats := MkHStats {
  st_Series : Z; st_Chunks : Z; st_Samples : Z; st_TagPairs : Z;
  st_OOORejected : Z; st_LimitRejects : Z; st_MinT : Z; st_MaxT : Z;
}.

(** One chunk of the walk; the flag is [first]. *)
Definition stats_chunk (acc : HStats * bool) (c : memChunk) : HStats * bool :=
  let '(st, first) := acc in
  (MkHStats (st_Series st) (st_Chunks st) (st_Samples st + NumSamples (mc_chunk c)) (st_TagPairs st)
     (st_OOORejected st) (st_LimitRejects st)
     (if first || (mc_minT c <? st_MinT st) then mc_minT c else st_MinT st)
     (if first || (st_MaxT st <? mc_maxT c) then mc_maxT c else st_MaxT st), false).

Definition stats_series (h : head) (acc : HStats * bool) (id : Z) : HStats * bool :=
  match h_byID h !! id with
  | None => acc
  | Some ms =>
      let '(st, first) := acc in
      foldl stats_chunk
        (MkHStats (st_Series st) (st_Chunks st + Z.of_nat (length (ms_chunks ms))) (st_Samples st) (st_TagPairs st)
           (st_OOORejected st) (st_LimitRejects st) (st_MinT st) (st_MaxT st), first) (ms_chunks ms)
  end.

Definition Stats (h : head) : HStats :=
  let '(series, pairs) := MemSize (h_postings h) in
  fst (foldl (stats_series h)
         (MkHStats (Z.of_nat series) 0 0 (Z.of_nat pairs) (h_oooDropped h) (h_limitHits h) (- 2 ^ 63) (- 2 ^ 63), true)
         ((map_to_list (h_byID h)).*1)).

(** ** Replay *)

Definition restoreSeries (id : Z) (ref : SeriesRef) (h : head) : head * Z :=
  let nextID := if h_nextID h <? id then id else h_nextID h in
  let h := with_ids (h_shards h) (h_postings h) (h_byID h) (h_perMetric h) nextID h in
  match h_shards h !! Key ref with
  | Some existing => (h, existing)
  | None =>
      match h_byID h !! id with
      | Some _ => (index_series (h_nextID h + 1) ref true (h_nextID h + 1) h, h_nextID h + 1)
      | None => (index_series id ref true (h_nextID h) h, id)
      end
  end.

Inductive replay_error := ReplayRecord (e : rec_error) | ReplayLog (e : wal_error).

Record replaying := MkReplaying {
  rp_head : head;
  rp_byLogID : gmap Z Z;
  rp_applied : Z;
  rp_skipped : Z;
}.

Definition replay_sample (minValid : Z) (st : replaying) (s : HSample) : replaying :=
  match rp_byLogID st !! hs_ID s with
  | None => MkReplaying (rp_head st) (rp_byLogID st) (rp_applied st) (rp_skipped st + 1)
  | Some id =>
      match h_byID (rp_head st) !! id with
      | None => st   (* unreachable: replay forgets nothing *)
      | Some ms =>
          let '(ms', res) := appendTo (h_BlockRange (rp_head st)) minValid (hs_T s) (hs_V s) ms in
          let h' := on_series id (fun _ => ms') (rp_head st) in
          match res with
          | Err _ => MkReplaying h' (rp_byLogID st) (rp_applied st) (rp_skipped st + 1)
          | Ok true => MkReplaying h' (rp_byLogID st) (rp_applied st + 1) (rp_skipped st)
          | Ok false => MkReplaying h' (rp_byLogID st) (rp_applied st) (rp_skipped st)
          end
      end
  end.

Definition replay_record (minValid : Z) (st : replaying) (r : Record_) : result rec_error replaying :=
  if rec_Type r =? RecordSeries then
    match decodeSeries (rec_Data r) with
    | Err e => Err e
    | Ok (id, ref) =>
        let '(h, sid) := restoreSeries id ref (rp_head st) in
        Ok (MkReplaying h (<[id := sid]> (rp_byLogID st)) (rp_applied st) (rp_skipped st))
    end
  else if rec_Type r =? RecordSamples then
    match decodeSamples (rec_Data r) [] with
    | (_, Some e) => Err e
    | (samples, None) => Ok (foldl (replay_sample minValid) st samples)
    end
  else Ok st.

Fixpoint replay_records (minValid : Z) (st : replaying) (rs : list Record_) : result rec_error replaying :=
  match rs with
  | [] => Ok st
  | r :: rest => match replay_record minValid st r with
                 | Ok st' => replay_records minValid st' rest
                 | Err e => Err e
                 end
  end.

(** [Replay]: the head rebuilt with its statistics, counting what was applied and
    skipped, or why it could not be. *)
Definition Replay (d : Dir) (h : head) : result replay_error (head * HStats) :=
  let '(rs, rd) := replay d in
  match replay_records (h_minValid h) (MkReplaying h ∅ 0 0) rs with
  | Err e => Err (ReplayRecord e)
  | Ok st => match rd_err rd with
             | Some e => Err (ReplayLog e)
             | None =>
                 let s := Stats (rp_head st) in
                 Ok (rp_head st, MkHStats (st_Series s) (st_Chunks s) (rp_applied st) (st_TagPairs s) (rp_skipped st)
                       (st_LimitRejects s) (st_MinT s) (st_MaxT s))
             end
  end.
End Head_ops.
