(* ===== verification/HeadSeries.v ===== *)
(** * One series of the head

    A series holds a run of samples, split into chunks; [appendTo] and the reads
    are characterised on that run. *)

From Stdlib Require Import ZArith Lia.
From stdpp Require Import base sorting gmap numbers list.
From S2P Require Import Prelude Bstream Chunkenc Wal Gofloat Gostring Tsdb Index HeadRecord Head.

(** ** Runs of samples *)

Definition before (a b : Z * Z) : Prop := a.1 < b.1.
Abbreviation run := (StronglySorted before).

Lemma run_app l1 l2 : run (l1 ++ l2) <-> run l1 /\ run l2 /\ (forall a b, a ∈ l1 -> b ∈ l2 -> before a b).
Proof.
  induction l1 as [|a l1 IH]; cbn [app].
  - split; [intros H; split_and!; [constructor|done|intros ? ? Hx; by apply not_elem_of_nil in Hx]|by intros (_ & ? & _)].
  - split.
    + intros H. apply StronglySorted_inv in H as [H Ha]. apply IH in H as (H1 & H2 & H3).
      apply Forall_app in Ha as [Ha1 Ha2]. rewrite Forall_forall in Ha2. split_and!; [by constructor|done|].
      intros x y Hx Hy. apply elem_of_cons in Hx as [->|Hx]; auto.
    + intros (H1 & H2 & H3). apply StronglySorted_inv in H1 as [H1 Ha]. constructor.
      * apply IH. split_and!; try done. intros x y Hx. apply H3. by right.
      * apply Forall_app. split; [done|]. apply Forall_forall. intros y Hy. apply H3; [by left|done].
Qed.

Lemma run_ascending ss : forall first lst, (forall s, s ∈ ss -> first = true \/ lst < s.1) ->
  run ss -> ascending first lst ss.
Proof.
  induction ss as [|s ss IH]; intros first lst Hl Hr; cbn [ascending]; [done|].
  apply StronglySorted_inv in Hr as [Hr Hs]. rewrite Forall_forall in Hs. split; [apply Hl; by left|].
  apply IH; [|done]. intros x Hx. right. by apply Hs.
Qed.

Lemma run_chunkable g : run g -> Forall sample_ok g -> Z.of_nat (length g) <= MaxSamplesPerChunk -> chunkable g.
Proof. intros Hr Hok Hl. split_and!; [done|apply run_ascending; [by left|done]|done]. Qed.

Lemma last_elem {A} (l : list A) x : last l = Some x -> x ∈ l.
Proof. intros H. apply last_Some in H as [l' ->]. apply elem_of_app. right. by left. Qed.

(** The newest sample bounds the run. *)
Lemma run_last_max ss t v : run ss -> last ss = Some (t, v) -> forall s, s ∈ ss -> s.1 <= t.
Proof.
  intros Hr Hl s Hs. apply last_Some in Hl as [l' ->]. apply run_app in Hr as (_ & _ & Hlt).
  apply elem_of_app in Hs as [Hs|Hs].
  - specialize (Hlt s (t, v) Hs ltac:(by left)). unfold before in Hlt. cbn in Hlt. lia.
  - apply list_elem_of_singleton in Hs as ->. cbn. lia.
Qed.

Lemma run_snoc ss t v : run ss -> (forall s, s ∈ ss -> s.1 < t) -> run (ss ++ [(t, v)]).
Proof.
  intros Hr Hlt. apply run_app. split_and!; [done|repeat constructor|].
  intros a b Ha Hb. apply list_elem_of_singleton in Hb as ->. by apply Hlt.
Qed.

(** ** Chunks *)

Record seg_ok (r : Z) (g : list (Z * Z)) (c : memChunk) : Prop := {
  so_chunkable : chunkable g;
  so_chunk : mc_chunk c = a_c (built g);
  so_min : exists v g', g = (mc_minT c, v) :: g';
  so_max : exists v, last g = Some (mc_maxT c, v);
  so_block : Forall (fun s => BlockOf s.1 r = BlockOf (mc_minT c) r) g;
}.

Record series_inv (r : Z) (ms : memSeries) (ss : list (Z * Z)) : Prop := {
  si_run : run ss;
  si_ok : Forall sample_ok ss;
  si_chunks : exists gs, concat gs = ss /\ Forall2 (seg_ok r) gs (ms_chunks ms)
    /\ (forall g, last gs = Some g -> ms_app ms = Some (built g));
  si_last : forall t v, last ss = Some (t, v) -> ms_lastT ms = t /\ ms_lastV ms = v;
}.

Lemma built_borrowed g : chunkable g -> c_borrowed (a_c (built g)) = false.
Proof. intros H. by rewrite built_at. Qed.

Lemma drain_chunk g : chunkable g -> exists it,
  drain (ChunkIterator (a_c (built g))) = (g, it) /\ it_err it = None.
Proof.
  intros H. destruct (drain_built g false H) as (r & Hd & _). cbn zeta in Hd.
  assert (Hc : MkChunk (Bstream (Bytes (a_c (built g))) (count (c_b (a_c (built g))))) false = a_c (built g)).
  { rewrite <- (built_borrowed g H). destruct (a_c (built g)) as [[] ?]. done. }
  rewrite Hc in Hd. eexists. split; [exact Hd|done].
Qed.

Lemma Full_built g : chunkable g -> Full (a_c (built g)) = (MaxSamplesPerChunk <=? Z.of_nat (length g)).
Proof. intros H. unfold Full. by rewrite built_num. Qed.

Lemma Append_built g t v : chunkable (g ++ [(t, v)]) -> Append t v (built g) = (built (g ++ [(t, v)]), Ok tt).
Proof.
  intros H. pose proof (appendAll_built _ H) as Ha. rewrite appendAll_app in Ha.
  rewrite (appendAll_built g) in Ha by (by eapply chunkable_prefix). cbn [appendAll] in Ha.
  rewrite <- (built_at g) in Ha by (by eapply chunkable_prefix).
  destruct (Append t v (built g)) as [a' [[]|e]]; [|done]. injection Ha as ->. by rewrite built_at.
Qed.

Lemma ChunkAppender_new : ChunkAppender NewChunk = Ok (built []).
Proof. reflexivity. Qed.

Lemma write_through_snoc f l c : write_through f (l ++ [c]) = l ++ [f c].
Proof. unfold write_through. rewrite reverse_snoc, reverse_cons, reverse_involutive. done. Qed.

Lemma series_inv_empty r ms : ms_chunks ms = [] -> series_inv r ms [].
Proof. intros Hc. constructor; [constructor..|exists []; rewrite Hc; split_and!; [done|constructor|done]|done]. Qed.

Lemma Forall2_snoc_inv {A B} (P : A -> B -> Prop) l k y : Forall2 P l (k ++ [y]) ->
  exists l' x, l = l' ++ [x] /\ Forall2 P l' k /\ P x y.
Proof.
  intros H. apply Forall2_app_inv_r in H as (l' & lx & Hl & Hx & ->).
  inversion Hx as [|x ? ? ? Hp Hn]; subst. inversion Hn; subst. eauto.
Qed.

(** A series' chunks are empty exactly when its run is. *)
Lemma series_inv_nonempty r ms ss : series_inv r ms ss -> ms_chunks ms = [] <-> ss = [].
Proof.
  intros [_ _ (gs & <- & Hg & _) _]. split.
  - intros Hc. rewrite Hc in Hg. by inversion Hg.
  - intros Hn. destruct Hg as [|g c gs cs Hgc _]; [done|]. destruct (so_min _ _ _ Hgc) as (v & g' & ->). done.
Qed.

(** ** Membership *)

Lemma scan_for_spec g t v : run g ->
  scan_for g t v = true <-> exists w, (t, w) ∈ g /\ feq w v = true.
Proof.
  induction g as [|[ct cv] g IH]; intros Hr; cbn [scan_for].
  { split; [done|]. intros (w & Hw & _). by apply not_elem_of_nil in Hw. }
  apply StronglySorted_inv in Hr as [Hr Ha]. rewrite Forall_forall in Ha.
  destruct (Z.ltb_spec t ct) as [Hlt|Hge].
  - split; [done|]. intros (w & Hw & _). apply elem_of_cons in Hw as [[= -> ->]|Hw]; [lia|].
    apply Ha in Hw. unfold before in Hw. cbn in Hw. lia.
  - destruct (Z.eqb_spec ct t) as [->|Hne].
    + split; [intros Hf; exists cv; split; [by left|done]|]. intros (w & Hw & Hf).
      apply elem_of_cons in Hw as [[= ->]|Hw]; [done|]. apply Ha in Hw. unfold before in Hw. cbn in Hw. lia.
    + rewrite IH by done. split; intros (w & Hw & Hf); exists w; (split; [|done]); [by right|].
      apply elem_of_cons in Hw as [[= -> _]|]; done.
Qed.

Lemma seg_bounds r g c : seg_ok r g c -> run g -> forall s, s ∈ g -> mc_minT c <= s.1 <= mc_maxT c.
Proof.
  intros [_ _ (v & g' & ->) (w & Hl) _] Hr s Hs. split.
  - apply StronglySorted_inv in Hr as [_ Ha]. rewrite Forall_forall in Ha.
    apply elem_of_cons in Hs as [->|Hs]; [done|]. apply Ha in Hs. unfold before in Hs. cbn in Hs. lia.
  - by eapply run_last_max.
Qed.

Lemma holds_spec r ms ss t v : series_inv r ms ss ->
  holds ms t v = true <-> exists w, (t, w) ∈ ss /\ feq w v = true.
Proof.
  intros [Hr _ (gs & <- & Hg & _) _]. unfold holds. revert Hr.
  induction Hg as [|g c gs cs Hgc Hg IH]; intros Hr; cbn [holds_in concat].
  { split; [done|]. intros (w & Hw & _). by apply not_elem_of_nil in Hw. }
  cbn [concat] in Hr. apply run_app in Hr as (Hr1 & Hr2 & Hlt). pose proof (seg_bounds _ _ _ Hgc Hr1) as Hb.
  destruct ((t <? mc_minT c) || (mc_maxT c <? t)) eqn:E.
  - rewrite IH by done. setoid_rewrite elem_of_app. split; intros (w & Hw & Hf); exists w; (split; [|done]); [by right|].
    destruct Hw as [Hw|]; [|done]. apply Hb in Hw. cbn in Hw. apply orb_true_iff in E. destruct E; blia.
  - apply orb_false_iff in E as [E1 E2]. b2p. destruct Hgc as [Hch Hcc Hmin [w' Hmax] _].
    rewrite Hcc. destruct (drain_chunk g Hch) as (it & -> & _). cbn [fst]. rewrite scan_for_spec by done.
    setoid_rewrite elem_of_app. split; intros (w & Hw & Hf); exists w; (split; [|done]); [by left|].
    destruct Hw as [|Hw]; [done|]. apply last_elem in Hmax. specialize (Hlt _ _ Hmax Hw). unfold before in Hlt.
    cbn in Hlt. lia.
Qed.

(** ** Appending *)

(** The contract of one append: refused below the bound; a sample at or before
    the newest is accepted as a repeat, or refused; a newer one is added. *)
Definition append_spec (minValid t v : Z) (ss : list (Z * Z)) : list (Z * Z) * result head_error bool :=
  if t <? minValid then (ss, Err ErrOutOfBounds) else
  match last ss with
  | Some (lt, _) =>
      if t <=? lt then
        (ss, if existsb (fun s => (s.1 =? t) && feq s.2 v) ss then Ok false else Err ErrOutOfOrder)
      else (ss ++ [(t, v)], Ok true)
  | None => (ss ++ [(t, v)], Ok true)
  end.

Lemma repeat_spec ss t v : existsb (fun s => (s.1 =? t) && feq s.2 v) ss = true
  <-> exists w, (t, w) ∈ ss /\ feq w v = true.
Proof.
  rewrite existsb_Exists. split.
  - intros ([t' w] & Hs & E). apply andb_prop in E as [E1 E2]. cbn in *. b2p. subst. eauto.
  - intros (w & Hs & E). exists (t, w). split; [done|]. cbn. by rewrite Z.eqb_refl, E.
Qed.

Lemma bool_iff (a b : bool) : (a = true <-> b = true) -> a = b.
Proof. destruct a, b; intuition congruence. Qed.

Lemma seg_ok_one r t v : sample_ok (t, v) -> seg_ok r [(t, v)] (MkMemChunk t t (a_c (built [(t, v)]))).
Proof.
  intros Hok. constructor; cbn [mc_chunk mc_minT mc_maxT]; [|done|by eexists _, _|by eexists|repeat constructor].
  split_and!; [by apply Forall_singleton|by cbn; auto|done].
Qed.

Lemma seg_ok_snoc r g c t v : seg_ok r g c -> chunkable (g ++ [(t, v)]) -> BlockOf t r = BlockOf (mc_minT c) r ->
  seg_ok r (g ++ [(t, v)]) (MkMemChunk (mc_minT c) t (a_c (built (g ++ [(t, v)])))).
Proof.
  intros [Hch Hcc (v0 & g' & Hmin) Hmax Hbl] Hn Hb. constructor; cbn [mc_chunk mc_minT mc_maxT]; [done|done| | |].
  - rewrite Hmin. cbn [app]. eauto.
  - exists v. by rewrite last_snoc.
  - apply Forall_app. split; [done|]. by apply Forall_singleton.
Qed.

Lemma series_inv_grow r ms ss gs chunks app t v :
  series_inv r ms ss -> run (ss ++ [(t, v)]) -> sample_ok (t, v) ->
  concat gs = ss ++ [(t, v)] -> Forall2 (seg_ok r) gs chunks ->
  (forall g, last gs = Some g -> app = built g) ->
  series_inv r (set_last t v (set_chunks chunks (Some app) ms)) (ss ++ [(t, v)]).
Proof.
  intros [_ Hok _ _] Hr Hs Hgs Hg Happ. constructor; [done|apply Forall_app; split; [done|by apply Forall_singleton]| |].
  - exists gs. split_and!; [done|done|]. intros g Hl. cbn. f_equal. by apply Happ.
  - intros t' v' Hl. rewrite last_snoc in Hl. by injection Hl as <- <-.
Qed.

(** A sample that goes into a new chunk. *)
Lemma append_new_chunk r ms ss t v : series_inv r ms ss -> run (ss ++ [(t, v)]) -> sample_ok (t, v) ->
  series_inv r (set_last t v (set_chunks (ms_chunks ms ++ [MkMemChunk t t (a_c (built [(t, v)]))])
    (Some (built [(t, v)])) ms)) (ss ++ [(t, v)]).
Proof.
  intros Hinv Hr Hs. pose proof Hinv as [_ _ (gs & <- & Hg & _) _].
  apply (series_inv_grow _ _ _ (gs ++ [[(t, v)]])); try done.
  - by rewrite concat_app.
  - apply Forall2_app; [done|]. constructor; [|constructor]. by apply seg_ok_one.
  - intros g Hl. rewrite last_snoc in Hl. by injection Hl as <-.
Qed.

(** A sample that goes into the newest chunk. *)
Lemma append_same_chunk r ms ss t v chunks c : series_inv r ms ss -> run (ss ++ [(t, v)]) -> sample_ok (t, v) ->
  ms_chunks ms = chunks ++ [c] -> Full (mc_chunk c) = false -> BlockOf t r = BlockOf (mc_minT c) r ->
  exists g, ms_app ms = Some (built g) /\ Append t v (built g) = (built (g ++ [(t, v)]), Ok tt)
    /\ series_inv r (set_last t v (set_chunks (chunks ++ [MkMemChunk (mc_minT c) t (a_c (built (g ++ [(t, v)])))])
         (Some (built (g ++ [(t, v)]))) ms)) (ss ++ [(t, v)]).
Proof.
  intros Hinv Hr Hs Hc Hfull Hb. pose proof Hinv as [_ Hok (gs & <- & Hg & Happ) _]. rewrite Hc in Hg.
  apply Forall2_snoc_inv in Hg as (gs' & g & -> & Hg & Hgc). exists g.
  assert (Hch : chunkable (g ++ [(t, v)])).
  { rewrite concat_app in Hr, Hok. cbn [concat] in *. rewrite app_nil_r in *. rewrite <- app_assoc in Hr.
    apply run_app in Hr as (_ & Hr & _). apply Forall_app in Hok as [_ Hok].
    apply run_chunkable; [done|apply Forall_app; split; [done|by apply Forall_singleton]|].
    rewrite (so_chunk _ _ _ Hgc), Full_built in Hfull by apply (so_chunkable _ _ _ Hgc).
    rewrite length_app. unfold MaxSamplesPerChunk in *. cbn [length]. blia. }
  split_and!; [apply Happ; by rewrite last_snoc|by apply Append_built|].
  apply (series_inv_grow _ _ _ (gs' ++ [g ++ [(t, v)]])); try done.
  - rewrite !concat_app. cbn [concat]. rewrite !app_nil_r. by rewrite app_assoc.
  - apply Forall2_app; [done|]. constructor; [|constructor]. by apply seg_ok_snoc.
  - intros g' Hl. rewrite last_snoc in Hl. by injection Hl as <-.
Qed.

Definition same_series (ms' ms : memSeries) : Prop :=
  ms_id ms' = ms_id ms /\ ms_ref ms' = ms_ref ms /\ ms_logged ms' = ms_logged ms.

Lemma append_grows r ms ss t v : series_inv r ms ss -> run (ss ++ [(t, v)]) -> sample_ok (t, v) ->
  exists ms', append_sample r t v ms = (ms', Ok true) /\ series_inv r ms' (ss ++ [(t, v)]) /\ same_series ms' ms.
Proof.
  intros Hinv Hr Hs. unfold append_sample. rewrite ChunkAppender_new. unfold needs_chunk, head_chunk.
  destruct (last (ms_chunks ms)) as [c|] eqn:El.
  - apply last_Some in El as [chunks Hc].
    destruct (Full (mc_chunk c) || negb (BlockOf t r =? BlockOf (mc_minT c) r)) eqn:En.
    + cbn [ms_app set_chunks ms_chunks].
      rewrite (Append_built [] t v) by (split_and!; [by apply Forall_singleton|by cbn; auto|done]).
      cbn zeta. rewrite write_through_snoc. cbn [app mc_minT]. eexists. split; [done|].
      split; [exact (append_new_chunk r ms ss t v Hinv Hr Hs)|done].
    + apply orb_false_iff in En as [Ef Eb]. apply negb_false_iff, Z.eqb_eq in Eb.
      destruct (append_same_chunk r ms ss t v chunks c) as (g & Happ & HA & Hi); try done.
      rewrite Happ, HA. cbn zeta. rewrite Hc, write_through_snoc. eexists. split; [done|]. by split.
  - cbn [ms_app set_chunks ms_chunks].
    rewrite (Append_built [] t v) by (split_and!; [by apply Forall_singleton|by cbn; auto|done]).
    cbn zeta. rewrite write_through_snoc. cbn [app mc_minT]. eexists. split; [done|].
    split; [exact (append_new_chunk r ms ss t v Hinv Hr Hs)|done].
Qed.

Lemma appendTo_spec r mv t v ms ss : series_inv r ms ss -> is_i64 t -> is_u64 v ->
  exists ms', appendTo r mv t v ms = (ms', (append_spec mv t v ss).2)
    /\ series_inv r ms' (append_spec mv t v ss).1 /\ same_series ms' ms.
Proof.
  intros Hinv Ht Hv. unfold appendTo, append_spec. destruct (t <? mv); [by exists ms|].
  pose proof (series_inv_nonempty _ _ _ Hinv) as Hne. destruct (last ss) as [[lt lv]|] eqn:El.
  - assert (Hc : (0 <? length (ms_chunks ms))%nat = true).
    { destruct (ms_chunks ms); [|done]. by rewrite (proj1 Hne eq_refl) in El. }
    destruct (si_last _ _ _ Hinv _ _ El) as [HlT _]. rewrite Hc, HlT. cbn [andb].
    destruct (Z.leb_spec t lt) as [Hle|Hgt].
    + assert (Hh : holds ms t v = existsb (fun s => (s.1 =? t) && feq s.2 v) ss).
      { apply bool_iff. by rewrite (holds_spec _ _ _ _ _ Hinv), repeat_spec. }
      rewrite Hh. cbn [fst snd]. destruct (existsb _ ss); by exists ms.
    + apply append_grows; [done| |done]. apply run_snoc; [apply (si_run _ _ _ Hinv)|].
      intros s Hs. pose proof (run_last_max _ _ _ (si_run _ _ _ Hinv) El s Hs). lia.
  - apply last_None in El as ->. assert (Hc : (0 <? length (ms_chunks ms))%nat = false) by by rewrite (proj2 Hne eq_refl).
    rewrite Hc. cbn [andb]. apply append_grows; [done|repeat constructor|done].
Qed.

(** ** Reading *)

Lemma samplesIn_spec r ms ss from to : series_inv r ms ss ->
  samplesIn ms from to = Ok (filter (fun s => in_window from to s = true) ss).
Proof.
  intros [Hr _ (gs & <- & Hg & _) _]. unfold samplesIn.
  assert (Hgen : forall out, samplesIn_chunks (ms_chunks ms) from to out
    = Ok (out ++ filter (fun s => in_window from to s = true) (concat gs))); [|by rewrite Hgen].
  induction Hg as [|g c gs cs Hgc Hg IH]; intros out; cbn [samplesIn_chunks concat]; [by rewrite app_nil_r|].
  cbn [concat] in Hr. apply run_app in Hr as (Hr1 & Hr2 & _). pose proof (seg_bounds _ _ _ Hgc Hr1) as Hb.
  rewrite filter_app. destruct ((mc_maxT c <? from) || (to <? mc_minT c)) eqn:E.
  - rewrite IH by done. rewrite (filter_none _ g); [done|]. intros s Hs Hw. apply Hb in Hs.
    unfold in_window in Hw. apply negb_true_iff, orb_false_iff in Hw as [H1 H2].
    apply orb_true_iff in E. destruct E; blia.
  - destruct Hgc as [Hch Hcc _ _ _]. rewrite Hcc. destruct (drain_chunk g Hch) as (it & -> & ->).
    rewrite IH by done. by rewrite <- app_assoc.
Qed.

(** ** Truncation at a block boundary *)

Lemma filter_all_or_none {A} (P : A -> Prop) `{!forall x, Decision (P x)} (l : list A) x0 :
  x0 ∈ l -> (forall x, x ∈ l -> P x <-> P x0) -> filter P l = if decide (P x0) then l else [].
Proof.
  intros Hx Hall. case_decide.
  - apply filter_all. intros x Hin. by apply Hall.
  - apply filter_none. intros x Hin HP. apply (Hall x Hin) in HP. done.
Qed.

Lemma block_cut r t s k : 0 < r -> BlockOf t r = BlockOf s r -> (r * k <= t <-> r * k <= s).
Proof.
  intros Hr Hb. rewrite !BlockOf_div in Hb by lia.
  assert (Hle : forall x, r * k <= x <-> k <= x / r).
  { intros x. split; intros Hx; [apply Z.div_le_lower_bound; lia|].
    pose proof (Z.mul_div_le x r Hr). nia. }
  by rewrite !Hle, Hb.
Qed.

(** Whole chunks are kept or dropped: a chunk never straddles the cut. *)
Lemma truncate_chunks r k gs cs : 0 < r -> Forall2 (seg_ok r) gs cs ->
  exists gs', Forall2 (seg_ok r) gs' (filter (fun c => r * k <= mc_maxT c) cs)
    /\ concat gs' = filter (fun s => r * k <= s.1) (concat gs).
Proof.
  intros Hr Hg. induction Hg as [|g c gs cs Hgc Hg (gs' & Hgs' & Hcat)]; [by exists []|].
  cbn [concat]. rewrite filter_cons, filter_app. pose proof Hgc as [Hch Hcc (v0 & g0 & Hmin) [v1 Hmax] Hbl].
  rewrite Forall_forall in Hbl.
  assert (Hcut : forall s, s ∈ g -> r * k <= s.1 <-> r * k <= mc_maxT c).
  { intros s Hs. apply block_cut; [done|]. rewrite (Hbl s Hs). symmetry. apply (Hbl _ (last_elem _ _ Hmax)). }
  assert (Hfg : filter (fun s => r * k <= s.1) g = if decide (r * k <= mc_maxT c) then g else []).
  { rewrite (filter_all_or_none _ g (mc_maxT c, v1)); [done|by apply last_elem|]. intros s Hs. by apply Hcut. }
  rewrite Hfg. destruct (decide (r * k <= mc_maxT c)).
  - exists (g :: gs'). split; [by constructor|]. cbn [concat]. by rewrite Hcat.
  - exists gs'. split; [done|]. by rewrite Hcat.
Qed.

Lemma filter_suffix (P : Z * Z -> Prop) `{!forall x, Decision (P x)} ss t v : last ss = Some (t, v) -> P (t, v) ->
  last (filter P ss) = Some (t, v).
Proof.
  intros Hl HP. apply last_Some in Hl as [l' ->]. rewrite filter_app, filter_cons_True by done.
  cbn. by rewrite last_snoc.
Qed.

Lemma run_filter (P : Z * Z -> Prop) `{!forall x, Decision (P x)} ss : run ss -> run (filter P ss).
Proof.
  induction 1 as [|a l Hs IH Ha]; [constructor|]. rewrite filter_cons. case_decide; [|done].
  constructor; [done|]. apply Forall_forall. intros x Hx. apply list_elem_of_filter in Hx as [_ Hx].
  by eapply Forall_forall in Ha.
Qed.

Lemma Forall2_last_inv {A B} (P : A -> B -> Prop) l k : Forall2 P l k ->
  (l = [] /\ k = []) \/ exists l' x k' y, l = l' ++ [x] /\ k = k' ++ [y] /\ Forall2 P l' k' /\ P x y.
Proof.
  intros H. destruct (last k) as [y|] eqn:E.
  - right. apply last_Some in E as [k' ->]. apply Forall2_snoc_inv in H as (l' & x & -> & H1 & H2). eauto 10.
  - left. apply last_None in E as ->. by inversion H.
Qed.

Lemma truncate_series_spec r k ms ss : 0 < r -> series_inv r ms ss ->
  series_inv r (truncate_series (r * k) ms) (filter (fun s => r * k <= s.1) ss)
  /\ same_series (truncate_series (r * k) ms) ms.
Proof.
  intros Hr [Hrun Hok (gs & <- & Hg & Happ) Hlast]. split; [|done].
  destruct (Forall2_last_inv _ _ _ Hg) as [[-> Hc]|(gs0 & g & cs0 & c & -> & Hc & Hg0 & Hgc)].
  { apply series_inv_empty. unfold truncate_series. by rewrite Hc. }
  pose proof Hgc as [_ _ _ [v1 Hmax] _]. rewrite concat_app in *. cbn [concat] in *. rewrite app_nil_r in *.
  assert (HlastT : last (concat gs0 ++ g) = Some (mc_maxT c, v1)) by (rewrite last_app, Hmax; done).
  destruct (decide (r * k <= mc_maxT c)) as [Hk|Hk].
  - destruct (truncate_chunks r k gs0 cs0 Hr Hg0) as (gs' & Hgs' & Hcat).
    destruct (truncate_chunks r k [g] [c] Hr) as (g1 & Hg1 & Hcat1); [by constructor|].
    rewrite filter_cons_True in Hg1 by done. cbn [concat] in Hcat1. rewrite app_nil_r in Hcat1.
    constructor; [by apply run_filter| | |].
    + apply Forall_forall. intros s Hs. apply list_elem_of_filter in Hs as [_ Hs]. by eapply Forall_forall in Hok.
    + exists (gs' ++ [g]). unfold truncate_series. cbn [set_chunks ms_chunks ms_app].
      rewrite Hc, !filter_app, filter_cons_True by done. change (filter _ ([] : list memChunk)) with ([] : list memChunk).
      split_and!.
      * rewrite concat_app, Hcat. cbn [concat]. rewrite app_nil_r. f_equal.
        symmetry. apply filter_all. intros s Hs. destruct Hgc as [_ _ _ _ Hbl]. rewrite Forall_forall in Hbl.
        apply (block_cut r s.1 (mc_maxT c)); [done| |done]. rewrite (Hbl s Hs). symmetry. apply (Hbl _ (last_elem _ _ Hmax)).
      * apply Forall2_app; [done|by constructor].
      * intros g' Hl. rewrite last_snoc in Hl. injection Hl as <-. rewrite length_app. cbn [length].
        destruct (Nat.eqb_spec (length (filter (fun c => r * k <= mc_maxT c) cs0) + 1) 0); [lia|].
        rewrite andb_false_r. apply Happ. by rewrite last_snoc.
    + intros t v Hl. erewrite filter_suffix in Hl by (done || apply Hk). injection Hl as <- <-. by apply Hlast.
  - assert (Hnone : filter (fun s => r * k <= s.1) (concat gs0 ++ g) = []).
    { apply filter_none. intros s Hs Hle. pose proof (run_last_max _ _ _ Hrun HlastT s Hs). lia. }
    rewrite Hnone. apply series_inv_empty. unfold truncate_series. cbn [set_chunks ms_chunks].
    destruct (truncate_chunks r k _ _ Hr Hg) as (gs' & Hgs' & Hcat). rewrite concat_app in Hcat. cbn [concat] in Hcat.
    rewrite app_nil_r, Hnone in Hcat. destruct Hgs' as [|g1 c1 gs1 cs1 Hg1 _]; [done|].
    destruct (so_min _ _ _ Hg1) as (v & g' & ->). done.
Qed.

(** ** What one series promises *)

(** Appending to a series follows the store's contract on the run it holds:
    below the bound refused; at or before the newest accepted without effect if
    the series holds that timestamp with an equal value and refused otherwise;
    newer stored.  The series' chunks decode to the run throughout: at 120
    samples and at block boundaries a new chunk is cut, and no append fails for
    any other reason. *)
Theorem append_to_contract r minValid t v ms ss : series_inv r ms ss -> is_i64 t -> is_u64 v ->
  exists ms', appendTo r minValid t v ms = (ms', (append_spec minValid t v ss).2)
    /\ series_inv r ms' (append_spec minValid t v ss).1
    /\ (forall from to, samplesIn ms' from to
          = Ok (filter (fun s => in_window from to s = true) (append_spec minValid t v ss).1)).
Proof.
  intros Hinv Ht Hv. destruct (appendTo_spec r minValid t v ms ss Hinv Ht Hv) as (ms' & E & Hi & _).
  exists ms'. split_and!; [done|done|]. intros. by eapply samplesIn_spec.
Qed.

Definition empty_series : memSeries := MkMemSeries 1 (MkSeriesRef [109] []) [] None 0 0 false.

Lemma append_to_contract_witness :
  exists ms', appendTo 7200000 0 1000 4607182418800017408 empty_series
      = (ms', (append_spec 0 1000 4607182418800017408 []).2)
    /\ series_inv 7200000 ms' (append_spec 0 1000 4607182418800017408 []).1
    /\ (forall from to, samplesIn ms' from to
          = Ok (filter (fun s => in_window from to s = true) (append_spec 0 1000 4607182418800017408 []).1)).
Proof.
  apply append_to_contract; [by apply series_inv_empty|unfold is_i64; lia|unfold is_u64; lia].
Defined.

(** A retry, a conflicting value, a late sample and a stale one. *)
Example append_branches :
  let s := [(1000, 5); (2000, 6)] in
  (append_spec 500 2000 6 s).2 = Ok false /\ (append_spec 500 1000 5 s).2 = Ok false
  /\ (append_spec 500 2000 7 s).2 = Err ErrOutOfOrder /\ (append_spec 500 1500 7 s).2 = Err ErrOutOfOrder
  /\ (append_spec 500 499 7 s).2 = Err ErrOutOfBounds /\ (append_spec 500 2001 7 s) = (s ++ [(2001, 7)], Ok true).
Proof. vm_compute. done. Qed.

(** Cutting the head at a block boundary drops from a series exactly the
    samples before it, whole chunks at a time, and leaves a series that can be
    appended to and read as before. *)
Theorem truncate_at_boundary r k ms ss : 0 < r -> series_inv r ms ss ->
  series_inv r (truncate_series (r * k) ms) (filter (fun s => r * k <= s.1) ss)
  /\ (forall from to, samplesIn (truncate_series (r * k) ms) from to
        = Ok (filter (fun s => in_window from to s = true) (filter (fun s => r * k <= s.1) ss)))
  /\ (ms_chunks (truncate_series (r * k) ms) = [] <-> filter (fun s => r * k <= s.1) ss = []).
Proof.
  intros Hr Hinv. destruct (truncate_series_spec r k ms ss Hr Hinv) as [Hi _]. split_and!; [done| |].
  - intros. by eapply samplesIn_spec.
  - by eapply series_inv_nonempty.
Qed.

(** A series of three samples over two blocks of 100. *)
Definition three_samples : memSeries :=
  fst (appendTo 100 0 150 7 (fst (appendTo 100 0 90 6 (fst (appendTo 100 0 10 5 empty_series))))).

Lemma three_samples_inv : series_inv 100 three_samples [(10, 5); (90, 6); (150, 7)].
Proof.
  pose proof (series_inv_empty 100 empty_series eq_refl) as H0.
  destruct (appendTo_spec 100 0 10 5 _ _ H0) as (m1 & E1 & H1 & _); [unfold is_i64; lia|unfold is_u64; lia|].
  destruct (appendTo_spec 100 0 90 6 _ _ H1) as (m2 & E2 & H2 & _); [unfold is_i64; lia|unfold is_u64; lia|].
  destruct (appendTo_spec 100 0 150 7 _ _ H2) as (m3 & E3 & H3 & _); [unfold is_i64; lia|unfold is_u64; lia|].
  unfold three_samples. rewrite E1. cbn [fst]. rewrite E2. cbn [fst]. rewrite E3. exact H3.
Qed.

Lemma truncate_at_boundary_witness :
  series_inv 100 (truncate_series (100 * 1) three_samples)
    (filter (fun s => 100 * 1 <= s.1) [(10, 5); (90, 6); (150, 7)])
  /\ (forall from to, samplesIn (truncate_series (100 * 1) three_samples) from to
        = Ok (filter (fun s => in_window from to s = true)
               (filter (fun s => 100 * 1 <= s.1) [(10, 5); (90, 6); (150, 7)])))
  /\ (ms_chunks (truncate_series (100 * 1) three_samples) = []
      <-> filter (fun s => 100 * 1 <= s.1) [(10, 5); (90, 6); (150, 7)] = []).
Proof. apply truncate_at_boundary; [lia|apply three_samples_inv]. Defined.
