(* ===== verification/HeadStore.v ===== *)
(** * The head as a metric store

    The abstract store a head represents, the contract of an append on it, and
    the invariant that ties a head's maps, index, counters and chunks to it. *)

From Stdlib Require Import ZArith Lia.
From stdpp Require Import base sorting gmap numbers list.
From S2P Require Import Prelude Bstream Chunkenc Wal Gofloat Gostring Tsdb Index IndexProofs IndexSelect HeadRecord Head HeadSeries.

(** ** The abstract store: a reference and a run of samples per key *)

Abbreviation store :=
  (@gmap gostring (@list_eq_dec Z Z.eq_dec) (@list_countable Z Z.eq_dec Z_countable)
     (prod SeriesRef (list (prod Z Z)))).

Definition of_metric_entry (m : gostring) (kv : gostring * (SeriesRef * list (Z * Z))) : Prop :=
  sr_Metric kv.2.1 = m.
#[export] Instance of_metric_entry_dec m kv : Decision (of_metric_entry m kv).
Proof. unfold of_metric_entry. apply _. Defined.

Definition count_metric (m : gostring) (A : store) : Z := Z.of_nat (size (filter (of_metric_entry m) A)).

(** Find the series, or create it empty within the metric's limit. *)
Definition spec_resolve (max minValid : Z) (ref : SeriesRef) (t : Z) (A : store) : store * result head_error unit :=
  if t <? minValid then (A, Err ErrOutOfBounds) else
  match A !! Key ref with
  | Some _ => (A, Ok tt)
  | None =>
      if (0 <? max) && (max <=? count_metric (sr_Metric ref) A) then (A, Err ErrSeriesLimit)
      else (<[Key ref := (ref, [])]> A, Ok tt)
  end.

Definition spec_apply (minValid : Z) (key : gostring) (t v : Z) (A : store) : store * result head_error bool :=
  match A !! key with
  | Some (ref, ss) =>
      let '(ss', res) := append_spec minValid t v ss in (<[key := (ref, ss')]> A, res)
  | None => (A, Ok false)
  end.

(** The store's contract: samples one at a time, in order. *)
Definition spec_append_one (max minValid : Z) (ref : SeriesRef) (t v : Z) (A : store) :
  store * result head_error bool :=
  match spec_resolve max minValid ref t A with
  | (A', Err e) => (A', Err e)
  | (A', Ok _) => spec_apply minValid (Key ref) t v A'
  end.

Fixpoint spec_append (max minValid : Z) (batch : list (SeriesRef * HSample)) (A : store) :
  store * list (result head_error bool) :=
  match batch with
  | [] => (A, [])
  | (ref, s) :: rest =>
      let '(A1, res) := spec_append_one max minValid ref (hs_T s) (hs_V s) A in
      let '(A2, ress) := spec_append max minValid rest A1 in (A2, res :: ress)
  end.

(** ** Counting *)

Lemma count_insert_new (m key : gostring) (ref : SeriesRef) (ss : list (Z * Z)) (A : store) : A !! key = None ->
  count_metric m (<[key := (ref, ss)]> A) = count_metric m A + (if decide (sr_Metric ref = m) then 1 else 0).
Proof.
  intros Hk. unfold count_metric. case_decide as Hm.
  - rewrite map_filter_insert_True by done. rewrite map_size_insert_None; [lia|].
    apply map_lookup_filter_None. by left.
  - rewrite map_filter_insert_False by done. rewrite delete_id by done. lia.
Qed.

Lemma count_insert_same (m key : gostring) (ref : SeriesRef) (ss ss' : list (Z * Z)) (A : store) : A !! key = Some (ref, ss) ->
  count_metric m (<[key := (ref, ss')]> A) = count_metric m A.
Proof.
  intros Hk. rewrite <- (insert_delete_eq A key). rewrite <- (insert_delete_id A key (ref, ss) Hk) at 2.
  by rewrite !count_insert_new by apply lookup_delete_eq.
Qed.

Lemma count_delete (m key : gostring) (ref : SeriesRef) (ss : list (Z * Z)) (A : store) : A !! key = Some (ref, ss) ->
  count_metric m (delete key A) = count_metric m A - (if decide (sr_Metric ref = m) then 1 else 0).
Proof.
  intros Hk. rewrite <- (insert_delete_id A key (ref, ss) Hk) at 2.
  rewrite count_insert_new by apply lookup_delete_eq. lia.
Qed.

(** ** The invariant *)

Record head_inv {W} (h : Head W) (A : store) : Prop := {
  hi_range : 0 < h_BlockRange h;
  hi_shard (key : gostring) (id : Z) : h_shards h !! key = Some id ->
    exists ms ss, h_byID h !! id = Some ms /\ ms_id ms = id /\ Key (ms_ref ms) = key
      /\ A !! key = Some (ms_ref ms, ss) /\ series_inv (h_BlockRange h) ms ss;
  hi_keys (key : gostring) : is_Some (A !! key) <-> is_Some (h_shards h !! key);
  hi_byID id ms : h_byID h !! id = Some ms -> h_shards h !! Key (ms_ref ms) = Some id;
  hi_index : mem_index (h_postings h) (ms_ref <$> h_byID h);
  hi_metric (m : gostring) : default 0 (h_perMetric h !! m) = count_metric m A;
  hi_next : 0 <= h_nextID h;
  hi_ids id : is_Some (h_byID h !! id) -> 0 <= id <= h_nextID h;
}.

Section Invariant.
Context {W : Type} `{Logger W}.
Implicit Types h : Head W.

(** An id and its key. *)
Lemma hi_series h A id ms : head_inv h A -> h_byID h !! id = Some ms ->
  exists ss, ms_id ms = id /\ A !! Key (ms_ref ms) = Some (ms_ref ms, ss) /\ series_inv (h_BlockRange h) ms ss.
Proof.
  intros Hi Hid. pose proof (hi_byID _ _ Hi _ _ Hid) as Hs.
  destruct (hi_shard _ _ Hi _ _ Hs) as (ms' & ss & Hid' & Hmid & _ & HA & Hsi).
  rewrite Hid in Hid'. injection Hid' as <-. eauto.
Qed.

Lemma head_inv_same h h' A : head_inv h A ->
  h_BlockRange h' = h_BlockRange h -> h_shards h' = h_shards h -> h_postings h' = h_postings h ->
  h_byID h' = h_byID h -> h_perMetric h' = h_perMetric h -> h_nextID h' = h_nextID h -> head_inv h' A.
Proof.
  intros [] E1 E2 E3 E4 E5 E6. constructor; rewrite ?E1, ?E2, ?E3, ?E4, ?E5, ?E6; done.
Qed.

Lemma new_series_inv h A id ref logged nextID : head_inv h A ->
  h_shards h !! Key ref = None -> h_byID h !! id = None -> h_nextID h <= nextID -> 0 <= id <= nextID ->
  head_inv (index_series id ref logged nextID h) (<[Key ref := (ref, [])]> A).
Proof.
  intros Hi Hkey Hid Hn Hidn. pose proof Hi as [Hr Hsh Hk Hb Hix Hm Hnx Hids].
  assert (HA : A !! Key ref = None).
  { apply eq_None_not_Some. rewrite Hk, Hkey. by intros []. }
  constructor; unfold index_series; cbn [with_ids h_BlockRange h_shards h_postings h_byID h_perMetric h_nextID].
  - done.
  - intros key id' Hs. apply lookup_insert_Some in Hs as [[<- <-]|[Hne Hs]].
    + eexists _, []. rewrite !lookup_insert_eq. split_and!; try done. by apply series_inv_empty.
    + destruct (Hsh _ _ Hs) as (ms & ss & Hms & Hmid & HKey & HAk & Hsi).
      assert (id' <> id) by (intros ->; congruence).
      exists ms, ss. rewrite !lookup_insert_ne by done. done.
  - intros key. rewrite !lookup_insert_is_Some, Hk. done.
  - intros id' ms Hms. apply lookup_insert_Some in Hms as [[<- <-]|[Hne Hms]]; [apply lookup_insert_eq|].
    specialize (Hb _ _ Hms). rewrite lookup_insert_ne; [done|]. intros HK. rewrite <- HK, Hkey in Hb. done.
  - rewrite fmap_insert. apply MemAdd_spec; [done|]. by rewrite lookup_fmap, Hid.
  - intros m. rewrite count_insert_new by done. destruct (decide (sr_Metric ref = m)) as [->|Hne].
    + rewrite lookup_insert_eq. cbn. rewrite <- Hm. done.
    + rewrite lookup_insert_ne by done. rewrite Hm. lia.
  - lia.
  - intros id'. rewrite lookup_insert_is_Some. intros [<-|[_ Hs]]; [done|]. specialize (Hids _ Hs). lia.
Qed.

(** A series changed in place, keeping its identity. *)
Lemma on_series_inv h A id f ms ss' : head_inv h A -> h_byID h !! id = Some ms ->
  ms_id (f ms) = ms_id ms -> ms_ref (f ms) = ms_ref ms -> series_inv (h_BlockRange h) (f ms) ss' ->
  head_inv (on_series id f h) (<[Key (ms_ref ms) := (ms_ref ms, ss')]> A).
Proof.
  intros Hi Hid Hfid Hfref Hfinv. destruct (hi_series _ _ _ _ Hi Hid) as (ss & Hmid & HA & _).
  pose proof Hi as [Hr Hsh Hk Hb Hix Hm Hnx Hids].
  assert (Hids' : forall id', is_Some (alter f id (h_byID h) !! id') <-> is_Some (h_byID h !! id')).
  { intros id'. by rewrite lookup_alter_is_Some. }
  constructor; unfold on_series; cbn [with_byID with_ids h_BlockRange h_shards h_postings h_byID h_perMetric h_nextID].
  - done.
  - intros key id' Hs. destruct (Hsh _ _ Hs) as (ms' & ss1 & Hms' & Hmid' & HKey & HAk & Hsi).
    destruct (decide (id' = id)) as [->|Hne].
    + rewrite Hid in Hms'. injection Hms' as <-. rewrite <- HKey. exists (f ms), ss'.
      rewrite lookup_alter_eq, Hid, lookup_insert_eq, Hfref, Hfid. done.
    + rewrite lookup_alter_ne by done. exists ms', ss1. rewrite lookup_insert_ne; [done|].
      intros HK. rewrite <- HK in Hs. rewrite (Hb _ _ Hid) in Hs. congruence.
  - intros key. rewrite lookup_insert_is_Some, <- Hk. split; [|destruct (decide (Key (ms_ref ms) = key)); auto].
    intros [<-|[_ ?]]; [eauto|done].
  - intros id' ms' Hms'. destruct (decide (id' = id)) as [->|Hne].
    + rewrite lookup_alter_eq, Hid in Hms'. injection Hms' as <-. rewrite Hfref. by apply Hb.
    + rewrite lookup_alter_ne in Hms' by done. by apply Hb.
  - replace (ms_ref <$> alter f id (h_byID h)) with (ms_ref <$> h_byID h); [done|].
    apply map_eq. intros id'. rewrite !lookup_fmap. destruct (decide (id' = id)) as [->|Hne].
    + rewrite lookup_alter_eq, Hid. cbn. by rewrite Hfref.
    + by rewrite lookup_alter_ne.
  - intros m. rewrite (count_insert_same _ _ _ ss) by done. apply Hm.
  - done.
  - intros id'. rewrite Hids'. apply Hids.
Qed.

Lemma forget_inv h A id ms : head_inv h A -> h_byID h !! id = Some ms ->
  head_inv (forget id (ms_ref ms) h) (delete (Key (ms_ref ms)) A).
Proof.
  intros Hi Hid. destruct (hi_series _ _ _ _ Hi Hid) as (ss & Hmid & HA & _).
  pose proof Hi as [Hr Hsh Hk Hb Hix Hm Hnx Hids]. unfold forget. rewrite Hid.
  constructor; cbn [with_ids h_BlockRange h_shards h_postings h_byID h_perMetric h_nextID].
  - done.
  - intros key id' Hs. apply lookup_delete_Some in Hs as [Hne Hs].
    destruct (Hsh _ _ Hs) as (ms' & ss1 & Hms' & Hmid' & HKey & HAk & Hsi).
    assert (id' <> id) by (intros ->; congruence).
    exists ms', ss1. rewrite !lookup_delete_ne by done. done.
  - intros key. rewrite !lookup_delete_is_Some, Hk. done.
  - intros id' ms' Hms'. apply lookup_delete_Some in Hms' as [Hne Hms'].
    pose proof (Hb _ _ Hms') as Hs. rewrite lookup_delete_ne; [done|].
    intros HK. rewrite <- HK, (Hb _ _ Hid) in Hs. congruence.
  - rewrite fmap_delete. apply MemDelete_spec; [done|]. by rewrite lookup_fmap, Hid.
  - intros m. rewrite (count_delete _ _ (ms_ref ms) ss) by done.
    assert (Hpos : sr_Metric (ms_ref ms) = m -> 1 <= count_metric m A).
    { intros <-. rewrite <- (insert_delete_id A _ _ HA), count_insert_new by apply lookup_delete_eq.
      rewrite decide_True by done. unfold count_metric. lia. }
    rewrite Hm. destruct (decide (sr_Metric (ms_ref ms) = m)) as [Heq|Hne].
    + specialize (Hpos Heq). rewrite Heq. destruct (Z.leb_spec (count_metric m A - 1) 0).
      * rewrite lookup_delete_eq. cbn. lia.
      * by rewrite lookup_insert_eq.
    + rewrite Z.sub_0_r, <- Hm. destruct (_ <=? 0); [by rewrite lookup_delete_ne|by rewrite lookup_insert_ne].
  - done.
  - intros id' Hs. rewrite lookup_delete_is_Some in Hs. destruct Hs as [_ Hs]. by apply Hids.
Qed.
End Invariant.
