(* ===== verification/HeadCommit.v ===== *)
(** * The commit of a batch

    [Append] resolves every series of a batch, logs, and then applies every
    sample.  On the abstract store this is the same as appending the samples one
    at a time, and a failed log write leaves the store as it was. *)

From Stdlib Require Import ZArith Lia.
From stdpp Require Import base sorting gmap numbers list.
From S2P Require Import Prelude Bstream Chunkenc Wal Gofloat Gostring Tsdb Index IndexProofs IndexSelect HeadRecord Head HeadSeries HeadStore.

Abbreviation batch := (list (SeriesRef * HSample)).

(** ** Two phases on the abstract store *)

Fixpoint spec_resolve_all (max mv : Z) (b : batch) (A : store) : store * list (result head_error unit) :=
  match b with
  | [] => (A, [])
  | (ref, s) :: rest =>
      let '(A1, res) := spec_resolve max mv ref (hs_T s) A in
      let '(A2, ress) := spec_resolve_all max mv rest A1 in (A2, res :: ress)
  end.

Fixpoint spec_apply_all (mv : Z) (b : batch) (ress : list (result head_error unit)) (A : store) :
  store * list (result head_error bool) :=
  match b, ress with
  | (ref, s) :: rest, Ok _ :: ress' =>
      let '(A1, res) := spec_apply mv (Key ref) (hs_T s) (hs_V s) A in
      let '(A2, rs) := spec_apply_all mv rest ress' A1 in (A2, res :: rs)
  | _ :: rest, Err e :: ress' =>
      let '(A2, rs) := spec_apply_all mv rest ress' A in (A2, Err e :: rs)
  | _, _ => (A, [])
  end.

(** Resolving looks only at which series exist, so it commutes with changing the
    run of one that does. *)
Lemma spec_resolve_update max mv ref t (A : store) (key : gostring) ref0 ss ss' : A !! key = Some (ref0, ss) ->
  spec_resolve max mv ref t (<[key := (ref0, ss')]> A)
  = (<[key := (ref0, ss')]> (spec_resolve max mv ref t A).1, (spec_resolve max mv ref t A).2)
  /\ (spec_resolve max mv ref t A).1 !! key = Some (ref0, ss).
Proof.
  intros Hk. unfold spec_resolve. destruct (t <? mv); [done|].
  destruct (decide (key = Key ref)) as [->|Hne].
  - rewrite lookup_insert_eq, Hk. done.
  - rewrite lookup_insert_ne by done. destruct (A !! Key ref) as [?|]; [done|].
    rewrite (count_insert_same _ _ _ ss) by done. destruct (_ && _); [done|]. cbn [fst snd].
    rewrite lookup_insert_ne by done. split; [|done]. f_equal. by apply insert_insert_ne.
Qed.

Lemma spec_resolve_all_update max mv b : forall (A : store) (key : gostring) ref0 ss ss', A !! key = Some (ref0, ss) ->
  spec_resolve_all max mv b (<[key := (ref0, ss')]> A)
  = (<[key := (ref0, ss')]> (spec_resolve_all max mv b A).1, (spec_resolve_all max mv b A).2)
  /\ (spec_resolve_all max mv b A).1 !! key = Some (ref0, ss).
Proof.
  induction b as [|[ref s] b IH]; intros A key ref0 ss ss' Hk; cbn [spec_resolve_all]; [done|].
  destruct (spec_resolve_update max mv ref (hs_T s) A key ref0 ss ss' Hk) as [-> Hk1].
  destruct (spec_resolve max mv ref (hs_T s) A) as [A1 res]. cbn [fst snd] in *.
  destruct (IH A1 key ref0 ss ss' Hk1) as [-> Hk2].
  destruct (spec_resolve_all max mv b A1) as [A2 ress]. done.
Qed.

Lemma spec_resolve_found max mv ref t A : (spec_resolve max mv ref t A).2 = Ok tt ->
  exists ref0 ss, (spec_resolve max mv ref t A).1 !! Key ref = Some (ref0, ss).
Proof.
  unfold spec_resolve. destruct (t <? mv); [done|]. destruct (A !! Key ref) as [[ref0 ss]|] eqn:E; [eauto|].
  destruct (_ && _); [done|]. cbn. rewrite lookup_insert_eq. eauto.
Qed.

Lemma two_phases max mv b : forall A,
  spec_append max mv b A
  = spec_apply_all mv b (spec_resolve_all max mv b A).2 (spec_resolve_all max mv b A).1.
Proof.
  induction b as [|[ref s] b IH]; intros A; cbn [spec_append spec_resolve_all]; [done|].
  unfold spec_append_one. pose proof (spec_resolve_found max mv ref (hs_T s) A) as Hf.
  destruct (spec_resolve max mv ref (hs_T s) A) as [A1 [[]|e]]; cbn [fst snd] in Hf.
  - destruct (Hf eq_refl) as (ref0 & ss & Hk). unfold spec_apply. rewrite Hk.
    destruct (append_spec mv (hs_T s) (hs_V s) ss) as [ss' res] eqn:Ea.
    destruct (spec_resolve_all_update max mv b A1 (Key ref) ref0 ss ss' Hk) as [Hup Hk2].
    rewrite IH, Hup. destruct (spec_resolve_all max mv b A1) as [A2 ress]. cbn [fst snd spec_apply_all] in *.
    unfold spec_apply. by rewrite Hk2, Ea.
  - rewrite IH. destruct (spec_resolve_all max mv b A1) as [A2 ress]. cbn [fst snd spec_apply_all].
    by destruct (spec_apply_all mv b ress A2).
Qed.

(** ** Rejections *)

Fixpoint rejections {A} (i : Z) (ress : list (result head_error A)) : list Rejection :=
  match ress with
  | [] => []
  | Ok _ :: rest => rejections (i + 1) rest
  | Err e :: rest => MkRejection i e :: rejections (i + 1) rest
  end.

Lemma rejections_bound {A} (ress : list (result head_error A)) : forall i x,
  x ∈ rejections i ress -> i <= rj_Index x.
Proof.
  induction ress as [|[a|e] ress IH]; intros i x Hx; cbn [rejections] in Hx; [by apply not_elem_of_nil in Hx| |].
  - apply IH in Hx. lia.
  - apply elem_of_cons in Hx as [->|Hx]; [cbn; lia|]. apply IH in Hx. lia.
Qed.

Lemma rejections_sorted {A} (ress : list (result head_error A)) : forall i, 0 <= i ->
  StronglySorted rejection_le (rejections i ress).
Proof.
  induction ress as [|[a|e] ress IH]; intros i Hi; cbn [rejections]; [constructor|apply IH; lia|].
  constructor; [apply IH; lia|]. apply Forall_forall. intros x Hx. apply rejections_bound in Hx.
  right. cbn. lia.
Qed.

Lemma rejections_unique {A} (ress : list (result head_error A)) : forall i x y,
  x ∈ rejections i ress -> y ∈ rejections i ress -> rj_Index x = rj_Index y -> x = y.
Proof.
  induction ress as [|[a|e] ress IH]; intros i x y Hx Hy E; cbn [rejections] in *; [by apply not_elem_of_nil in Hx|eauto|].
  apply elem_of_cons in Hx as [->|Hx], Hy as [->|Hy]; [done| | |by eapply IH].
  - apply rejections_bound in Hy. cbn in E. lia.
  - apply rejections_bound in Hx. cbn in E. lia.
Qed.

#[export] Instance rejection_le_total : Total rejection_le.
Proof. intros a b. unfold rejection_le. lia. Qed.
#[export] Instance rejection_le_trans : Transitive rejection_le.
Proof. intros a b c. unfold rejection_le. lia. Qed.

(** The deferred sort puts the rejections of both loops in index order. *)
Lemma sort_rejections {A} (ress : list (result head_error A)) l :
  l ≡ₚ rejections 0 ress -> merge_sort rejection_le l = rejections 0 ress.
Proof.
  intros Hp. apply (StronglySorted_unique_strong rejection_le).
  - intros x y Hx Hy Hxy Hyx. rewrite (merge_sort_Permutation _ _), Hp in Hx.
    eapply rejections_unique; [exact Hx|exact Hy|]. apply rejections_bound in Hx, Hy.
    unfold rejection_le in *. lia.
  - apply (StronglySorted_merge_sort _).
  - by apply rejections_sorted.
  - by rewrite (merge_sort_Permutation _ _).
Qed.

(** ** The head follows the abstract phases *)

Section Commit.
Context {W : Type} `{Logger W}.
Implicit Types h : Head W.

(** What an operation on a head never changes. *)
Record same_opts (h' h : Head W) : Prop := {
  so_range : h_BlockRange h' = h_BlockRange h;
  so_max_ : h_MaxSeries h' = h_MaxSeries h;
  so_sync : h_SyncOnAppend h' = h_SyncOnAppend h;
  so_valid : h_minValid h' = h_minValid h;
}.
Lemma same_opts_trans h1 h2 h3 : same_opts h1 h2 -> same_opts h2 h3 -> same_opts h1 h3.
Proof. intros [] []. constructor; congruence. Qed.
Lemma same_opts_refl h : same_opts h h.
Proof. done. Qed.

Definition batch_ok (b : batch) : Prop := Forall (fun x => is_i64 (hs_T x.2) /\ is_u64 (hs_V x.2)) b.

(** The ids a resolved batch carries. *)
Definition resolved (h : Head W) (x : SeriesRef * HSample) (ro : result head_error unit * option HSample) : Prop :=
  match ro.1 with
  | Ok _ => exists id, ro.2 = Some (MkHSample id (hs_T x.2) (hs_V x.2)) /\ h_shards h !! Key x.1 = Some id
  | Err _ => ro.2 = None
  end.

Lemma resolved_mono h h' x ro : h_shards h ⊆ h_shards h' -> resolved h x ro -> resolved h' x ro.
Proof.
  intros Hs. unfold resolved. destruct ro as [[[]|e] o]; cbn; [|done].
  intros (id & -> & Hid). exists id. split; [done|]. by eapply lookup_weaken.
Qed.

Lemma getOrCreate_sim h A ref t mv : head_inv h A -> mv <= t ->
  exists h', (match spec_resolve (h_MaxSeries h) mv ref t A with
   | (A', Ok _) => exists id isNew, getOrCreate ref h = (h', Ok (id, isNew)) /\ head_inv h' A'
        /\ h_shards h' !! Key ref = Some id
        /\ (isNew = true <-> A !! Key ref = None)
   | (A', Err e) => getOrCreate ref h = (h', Err e) /\ head_inv h' A'
   end) /\ h_shards h ⊆ h_shards h' /\ same_opts h' h /\ h_wal h' = h_wal h.
Proof.
  intros Hi Ht. unfold spec_resolve, getOrCreate. destruct (Z.ltb_spec t mv); [lia|].
  destruct (h_shards h !! Key ref) as [id|] eqn:Es.
  - destruct (hi_shard _ _ Hi _ _ Es) as (ms & ss & Hms & Hmid & HK & HA & Hsi). rewrite HA.
    exists h. split_and!; try done. exists id, false. split_and!; done.
  - assert (HA : A !! Key ref = None).
    { apply eq_None_not_Some. rewrite (hi_keys _ _ Hi), Es. by intros []. }
    rewrite HA, <- (hi_metric _ _ Hi). destruct ((0 <? h_MaxSeries h) && _).
    + exists (add_limitHit h). split_and!; try done. by eapply head_inv_same.
    + assert (Hfresh : h_byID h !! (h_nextID h + 1) = None).
      { apply eq_None_not_Some. intros Hs. apply (hi_ids _ _ Hi) in Hs. lia. }
      exists (index_series (h_nextID h + 1) ref false (h_nextID h + 1) h). split_and!; try done.
      * exists (h_nextID h + 1), true. split_and!; [done| |apply lookup_insert_eq|done].
        apply new_series_inv; [done|done|done|lia|]. pose proof (hi_next _ _ Hi). lia.
      * by apply insert_subseteq.
Qed.

(** [A] is [A0] and the series created so far, empty. *)
Record creating (A0 A : store) (h : Head W) (created : list Z) : Prop := {
  cr_new id : id ∈ created -> exists key, h_shards h !! key = Some id /\ A0 !! key = None;
  cr_rest key : A !! key = A0 !! key \/ (A0 !! key = None /\ exists ref id, A !! key = Some (ref, [])
     /\ h_shards h !! key = Some id /\ id ∈ created);
}.

Lemma creating_mono A0 A h h' created : h_shards h ⊆ h_shards h' -> creating A0 A h created -> creating A0 A h' created.
Proof.
  intros Hs [Hn Hr]. constructor.
  - intros id Hid. destruct (Hn id Hid) as (key & Hk & H0). exists key. split; [by eapply lookup_weaken|done].
  - intros key. destruct (Hr key) as [?|(E & ref & id & E2 & E3 & E4)]; [by left|right]. split; [done|].
    exists ref, id. split_and!; [done|by eapply lookup_weaken|done].
Qed.

Lemma creating_add A0 A h h' created ref id : creating A0 A h created -> h_shards h ⊆ h_shards h' ->
  A !! Key ref = None -> h_shards h' !! Key ref = Some id ->
  creating A0 (<[Key ref := (ref, [])]> A) h' (created ++ [id]).
Proof.
  intros Hc Hs HA Hid. apply (creating_mono _ _ _ _ _ Hs) in Hc as [Hn Hr].
  assert (HA0 : A0 !! Key ref = None) by (destruct (Hr (Key ref)) as [E|[? _]]; congruence).
  constructor.
  - intros id' Hid'. apply elem_of_app in Hid' as [Hid'|Hid']; [by apply Hn|].
    apply list_elem_of_singleton in Hid' as ->. eauto.
  - intros key. destruct (decide (key = Key ref)) as [->|Hne].
    + right. split; [done|]. exists ref, id. rewrite lookup_insert_eq. split_and!; try done.
      apply elem_of_app. right. by left.
    + rewrite lookup_insert_ne by done. destruct (Hr key) as [?|(E & ref' & id' & E2 & E3 & E4)]; [by left|right].
      split; [done|]. exists ref', id'. split_and!; [done|done|]. apply elem_of_app. by left.
Qed.

(** One step, or the whole loop, of resolving. *)
Record resolve_step (A0 A A' : store) (r r' : resolving) (i : Z) (b : batch) (ress : list (result head_error unit)) : Prop := {
  rs_inv : head_inv (rv_head r') A';
  rs_sub : h_shards (rv_head r) ⊆ h_shards (rv_head r');
  rs_opts : same_opts (rv_head r') (rv_head r);
  rs_wal : h_wal (rv_head r') = h_wal (rv_head r);
  rs_rejected : rv_rejected r' = rv_rejected r ++ rejections i ress;
  rs_out : exists outs, rv_out r' = rv_out r ++ outs /\ length ress = length outs
    /\ Forall2 (resolved (rv_head r')) b (zip ress outs);
  rs_created : creating A0 A' (rv_head r') (rv_created r');
}.

Lemma resolve_one_sim mv i ref s r (A0 A : store) : head_inv (rv_head r) A ->
  creating A0 A (rv_head r) (rv_created r) ->
  let '(A1, res) := spec_resolve (h_MaxSeries (rv_head r)) mv ref (hs_T s) A in
  resolve_step A0 A A1 r (resolve_one mv i ref s r) i [(ref, s)] [res].
Proof.
  intros Hi Hcr. unfold resolve_one. destruct (Z.ltb_spec (hs_T s) mv) as [Hlt|Hge].
  - unfold spec_resolve. rewrite (proj2 (Z.ltb_lt _ _) Hlt).
    constructor; cbn [rv_head rv_rejected rv_out rv_created]; try done.
    exists [None]. split_and!; [done|done|by repeat constructor].
  - destruct (getOrCreate_sim (rv_head r) A ref (hs_T s) mv Hi Hge) as (h' & Hsim & Hsub & Hopts & Hwal).
    destruct (spec_resolve _ mv ref (hs_T s) A) as [A1 [[]|e]] eqn:Esr.
    + destruct Hsim as (id & isNew & Eg & Hi1 & Hid & Hnew). rewrite Eg.
      constructor; cbn [rv_head rv_rejected rv_out rv_created rejections]; try done; [by rewrite app_nil_r| |].
      * exists [Some (MkHSample id (hs_T s) (hs_V s))]. split_and!; [done|done|].
        constructor; [|constructor]. by exists id.
      * unfold spec_resolve in Esr. destruct (hs_T s <? mv); [done|]. destruct isNew.
        -- assert (HAn : A !! Key ref = None) by by apply Hnew. rewrite HAn in Esr.
           destruct (_ && _); [done|]. injection Esr as <-. by eapply creating_add.
        -- destruct (A !! Key ref) as [?|] eqn:EA; [|by assert (false = true) by by apply Hnew].
           injection Esr as <-. by eapply creating_mono.
    + destruct Hsim as [Eg Hi1]. rewrite Eg.
      assert (A1 = A) as -> by (unfold spec_resolve in Esr; repeat case_match; simplify_eq; done).
      constructor; cbn [rv_head rv_rejected rv_out rv_created]; try done; [|by eapply creating_mono].
      exists [None]. split_and!; [done|done|by repeat constructor].
Qed.

Lemma resolve_step_trans A0 A A1 A2 r r1 r2 i x b res ress :
  resolve_step A0 A A1 r r1 i [x] [res] -> resolve_step A0 A1 A2 r1 r2 (i + 1) b ress ->
  resolve_step A0 A A2 r r2 i (x :: b) (res :: ress).
Proof.
  intros [Hi1 Hs1 Ho1 Hw1 Hr1 (outs1 & Hout1 & Hl1 & Hf1) Hc1] [Hi2 Hs2 Ho2 Hw2 Hr2 (outs2 & Hout2 & Hl2 & Hf2) Hc2].
  constructor; [done|by etrans|by eapply same_opts_trans|congruence| | |done].
  - rewrite Hr2, Hr1, <- app_assoc. f_equal. destruct res; done.
  - destruct outs1 as [|o [|? ?]]; try done. exists (o :: outs2).
    split_and!; [by rewrite Hout2, Hout1, <- app_assoc|cbn; by rewrite Hl2|]. cbn [zip zip_with] in *.
    apply Forall2_cons_1 in Hf1 as [Hx _]. constructor; [by eapply resolved_mono|done].
Qed.

Lemma resolve_sim mv b : forall i r (A0 A : store), head_inv (rv_head r) A ->
  creating A0 A (rv_head r) (rv_created r) ->
  let '(A', ress) := spec_resolve_all (h_MaxSeries (rv_head r)) mv b A in
  resolve_step A0 A A' r (resolve mv i b r) i b ress.
Proof.
  induction b as [|[ref s] b IH]; intros i r A0 A Hi Hcr; cbn [spec_resolve_all resolve].
  { constructor; try done; [by rewrite app_nil_r|]. exists []. rewrite app_nil_r. split_and!; [done|done|constructor]. }
  pose proof (resolve_one_sim mv i ref s r A0 A Hi Hcr) as H1.
  destruct (spec_resolve (h_MaxSeries (rv_head r)) mv ref (hs_T s) A) as [A1 res].
  specialize (IH (i + 1) (resolve_one mv i ref s r) A0 A1 (rs_inv _ _ _ _ _ _ _ _ H1) (rs_created _ _ _ _ _ _ _ _ H1)).
  rewrite (so_max_ _ _ (rs_opts _ _ _ _ _ _ _ _ H1)) in IH.
  destruct (spec_resolve_all (h_MaxSeries (rv_head r)) mv b A1) as [A2 ress].
  by eapply resolve_step_trans.
Qed.

(** *** Marking series as logged *)

Lemma series_inv_logged r ms ss b : series_inv r ms ss -> series_inv r (set_logged b ms) ss.
Proof. intros [Hr Ho Hc Hl]. by constructor. Qed.

Lemma mark_inv h A id b : head_inv h A -> head_inv (on_series id (set_logged b) h) A.
Proof.
  intros Hi. destruct (h_byID h !! id) as [ms|] eqn:E.
  - destruct (hi_series _ _ _ _ Hi E) as (ss & _ & HA & Hs).
    pose proof (on_series_inv h A id (set_logged b) ms ss Hi E eq_refl eq_refl (series_inv_logged _ _ _ b Hs)) as Hn.
    by rewrite insert_id in Hn.
  - eapply head_inv_same; try done. cbn. apply map_eq. intros j. destruct (decide (j = id)) as [->|Hne].
    + by rewrite lookup_alter_eq, E.
    + by rewrite lookup_alter_ne.
Qed.

Record quiet_step (h' h : Head W) : Prop := {
  qs_opts : same_opts h' h;
  qs_shards : h_shards h' = h_shards h;
  qs_next : h_nextID h' = h_nextID h;
}.
Lemma quiet_trans h1 h2 h3 : quiet_step h1 h2 -> quiet_step h2 h3 -> quiet_step h1 h3.
Proof. intros [O1 S1 N1] [O2 S2 N2]. constructor; [by eapply same_opts_trans|congruence..]. Qed.

Lemma on_series_quiet h id f : quiet_step (on_series id f h) h.
Proof. done. Qed.

Lemma mark_pending_sim outs : forall h pending A, head_inv h A ->
  head_inv (mark_pending outs h pending).1 A /\ quiet_step (mark_pending outs h pending).1 h
  /\ h_wal (mark_pending outs h pending).1 = h_wal h.
Proof.
  induction outs as [|[s|] outs IH]; intros h pending A Hi; cbn [mark_pending]; [done| |by apply IH].
  destruct (is_logged h (hs_ID s)); [by apply IH|].
  destruct (IH (on_series (hs_ID s) (set_logged true) h) (pending ++ [hs_ID s]) A) as (H1 & H2 & H3); [by apply mark_inv|].
  split_and!; [done|by eapply quiet_trans|done].
Qed.

Lemma unmark_sim pending : forall h A, head_inv h A ->
  head_inv (foldl (fun h id => on_series id (set_logged false) h) h pending) A
  /\ quiet_step (foldl (fun h id => on_series id (set_logged false) h) h pending) h.
Proof.
  induction pending as [|id pending IH]; intros h A Hi; cbn [foldl]; [done|].
  destruct (IH (on_series id (set_logged false) h) A) as [H1 H2]; [by apply mark_inv|].
  split; [done|]. by eapply quiet_trans.
Qed.

(** *** Applying *)

Fixpoint late_rejections (i : Z) (ress : list (result head_error unit)) (rs : list (result head_error bool)) :
  list Rejection :=
  match ress, rs with
  | Ok _ :: ress', Err e :: rs' => MkRejection i e :: late_rejections (i + 1) ress' rs'
  | _ :: ress', _ :: rs' => late_rejections (i + 1) ress' rs'
  | _, _ => []
  end.

Definition was_stored (r : result head_error bool) : bool := match r with Ok b => b | Err _ => false end.

Lemma late_perm mv b : forall ress A i, length ress = length b ->
  rejections i (spec_apply_all mv b ress A).2
  ≡ₚ rejections i ress ++ late_rejections i ress (spec_apply_all mv b ress A).2.
Proof.
  induction b as [|[ref s] b IH]; intros [|[[]|e] ress] A i Hlen; try done; cbn [spec_apply_all].
  - destruct (spec_apply mv (Key ref) (hs_T s) (hs_V s) A) as [A1 res].
    specialize (IH ress A1 (i + 1) ltac:(cbn in Hlen; lia)).
    destruct (spec_apply_all mv b ress A1) as [A2 rs]. cbn [snd] in *.
    destruct res as [w|e]; cbn [rejections late_rejections]; [done|].
    rewrite IH. by rewrite Permutation_middle.
  - specialize (IH ress A (i + 1) ltac:(cbn in Hlen; lia)).
    destruct (spec_apply_all mv b ress A) as [A2 rs]. cbn [snd rejections late_rejections app] in *.
    by rewrite IH.
Qed.

Record apply_step (A' : store) (a a' : applying) (i : Z) (ress : list (result head_error unit))
    (rs : list (result head_error bool)) : Prop := {
  as_inv : head_inv (ap_head a') A';
  as_quiet : quiet_step (ap_head a') (ap_head a);
  as_wal : h_wal (ap_head a') = h_wal (ap_head a);
  as_rejected : ap_rejected a' = ap_rejected a ++ late_rejections i ress rs;
  as_stored : ap_stored a' = ap_stored a ++ (was_stored <$> rs);
}.

Lemma apply_one_sim mv i ref s res o a A : head_inv (ap_head a) A -> is_i64 (hs_T s) -> is_u64 (hs_V s) ->
  resolved (ap_head a) (ref, s) (res, o) ->
  let '(A1, r) := match res with Ok _ => spec_apply mv (Key ref) (hs_T s) (hs_V s) A | Err e => (A, Err e) end in
  apply_step A1 a (apply_one mv i o a) i [res] [r].
Proof.
  intros Hi Ht Hv Hres. unfold resolved in Hres. cbn [fst snd] in Hres. destruct res as [[]|e].
  - destruct Hres as (id & -> & Hid). destruct (hi_shard _ _ Hi _ _ Hid) as (ms & ss & Hms & Hmid & HK & HA & Hsi).
    unfold spec_apply. rewrite HA. cbn [apply_one hs_ID hs_T hs_V]. rewrite Hms.
    destruct (appendTo_spec _ mv (hs_T s) (hs_V s) ms ss Hsi Ht Hv) as (ms' & -> & Hsi' & Hid' & Href' & _).
    destruct (append_spec mv (hs_T s) (hs_V s) ss) as [ss' r]. cbn [fst snd] in *.
    assert (Hinv : head_inv (on_series id (fun _ => ms') (ap_head a)) (<[Key ref := (ms_ref ms, ss')]> A)).
    { rewrite <- HK. by apply on_series_inv. }
    destruct r as [w|e]; constructor; cbn [ap_head ap_rejected ap_stored late_rejections]; try done; by rewrite app_nil_r.
  - subst o. constructor; cbn [apply_one ap_head ap_rejected ap_stored late_rejections]; try done. by rewrite app_nil_r.
Qed.

Lemma apply_step_trans A1 A2 a a1 a2 i res r ress rs :
  apply_step A1 a a1 i [res] [r] -> apply_step A2 a1 a2 (i + 1) ress rs ->
  apply_step A2 a a2 i (res :: ress) (r :: rs).
Proof.
  intros [Hi1 Hq1 Hw1 Hr1 Hs1] [Hi2 Hq2 Hw2 Hr2 Hs2].
  constructor; [done|by eapply quiet_trans|congruence| |].
  - rewrite Hr2, Hr1, <- app_assoc. f_equal. destruct res as [[]|], r; cbn; done.
  - rewrite Hs2, Hs1, <- app_assoc. done.
Qed.

Lemma apply_all_sim mv b : forall i ress outs a A, head_inv (ap_head a) A -> batch_ok b ->
  length ress = length outs -> Forall2 (resolved (ap_head a)) b (zip ress outs) ->
  let '(A', rs) := spec_apply_all mv b ress A in
  apply_step A' a (apply_all mv i outs a) i ress rs.
Proof.
  induction b as [|[ref s] b IH]; intros i [|res ress] [|o outs] a A Hi Hb Hlen Hf; try done;
    cbn [zip zip_with] in Hf; try by inversion Hf.
  { constructor; cbn; try done; by rewrite app_nil_r. }
  apply Forall_cons_1 in Hb as [[Ht Hv] Hb]. apply Forall2_cons_1 in Hf as [Hres Hf]. cbn [fst snd] in Ht, Hv.
  pose proof (apply_one_sim mv i ref s res o a A Hi Ht Hv Hres) as H1. cbn [apply_all spec_apply_all].
  assert (Hstep : forall A1 r, apply_step A1 a (apply_one mv i o a) i [res] [r] ->
    let '(A2, rs) := spec_apply_all mv b ress A1 in
    apply_step A2 a (apply_all mv (i + 1) outs (apply_one mv i o a)) i (res :: ress) (r :: rs)).
  { intros A1 r Hs1. pose proof Hs1 as [Hi1 [_ Hsh _] _ _ _].
    assert (Hf1 : Forall2 (resolved (ap_head (apply_one mv i o a))) b (zip ress outs)).
    { eapply Forall2_impl; [exact Hf|]. intros x ro. apply resolved_mono. by rewrite Hsh. }
    specialize (IH (i + 1) ress outs (apply_one mv i o a) A1 Hi1 Hb ltac:(cbn in Hlen; lia) Hf1).
    destruct (spec_apply_all mv b ress A1) as [A2 rs]. by eapply apply_step_trans. }
  destruct res as [[]|e].
  - destruct (spec_apply mv (Key ref) (hs_T s) (hs_V s) A) as [A1 r]. specialize (Hstep A1 r H1).
    by destruct (spec_apply_all mv b ress A1).
  - specialize (Hstep A (Err e) H1). by destruct (spec_apply_all mv b ress A).
Qed.

(** *** Forgetting *)

Lemma forget_if_empty_inv h B id : head_inv h B ->
  exists B', head_inv (forget_if_empty h id) B' /\ same_opts (forget_if_empty h id) h
    /\ h_wal (forget_if_empty h id) = h_wal h
    /\ (forall key, (B' !! key = B !! key /\ h_shards (forget_if_empty h id) !! key = h_shards h !! key)
          \/ (B' !! key = None /\ h_shards h !! key = Some id /\ exists ref, B !! key = Some (ref, [])))
    /\ (forall key ref, h_shards h !! key = Some id -> B !! key = Some (ref, []) -> B' !! key = None).
Proof.
  intros Hi. unfold forget_if_empty. destruct (h_byID h !! id) as [ms|] eqn:E.
  - destruct (hi_series _ _ _ _ Hi E) as (ss & Hmid & HB & Hs). pose proof (hi_byID _ _ Hi _ _ E) as Hsh.
    pose proof (series_inv_nonempty _ _ _ Hs) as Hne.
    destruct (ms_chunks ms) as [|c cs].
    + assert (ss = []) as -> by by apply Hne. exists (delete (Key (ms_ref ms)) B).
      assert (Hsh' : h_shards (forget id (ms_ref ms) h) = delete (Key (ms_ref ms)) (h_shards h))
        by (unfold forget; by rewrite E).
      split_and!; [by apply forget_inv|unfold forget; by rewrite E|unfold forget; by rewrite E| |].
      * intros key. destruct (decide (key = Key (ms_ref ms))) as [->|Hk].
        -- right. rewrite lookup_delete_eq. eauto.
        -- left. by rewrite Hsh', !lookup_delete_ne.
      * intros key ref Hid _. destruct (hi_shard _ _ Hi _ _ Hid) as (ms' & ss' & Hms' & _ & HK & _).
        rewrite E in Hms'. injection Hms' as <-. rewrite <- HK. apply lookup_delete_eq.
    + exists B. split_and!; [done|done|done|by left|]. intros key ref Hid HBk.
      destruct (hi_shard _ _ Hi _ _ Hid) as (ms' & ss' & Hms' & _ & HK & HB' & Hs').
      rewrite E in Hms'. injection Hms' as <-. rewrite HBk in HB'. injection HB' as _ <-.
      rewrite <- HK, HB in HBk. injection HBk as _ Hss. by apply Hne in Hss.
  - exists B. split_and!; [done|done|done|by left|]. intros key ref Hid _.
    destruct (hi_shard _ _ Hi _ _ Hid) as (ms & ? & Hms & _). congruence.
Qed.

Lemma forgetEmpty_inv created : forall h B, head_inv h B ->
  exists B', head_inv (forgetEmpty created h) B' /\ same_opts (forgetEmpty created h) h
    /\ h_wal (forgetEmpty created h) = h_wal h
    /\ (forall key, B' !! key = B !! key
          \/ (B' !! key = None /\ (exists id, h_shards h !! key = Some id /\ id ∈ created) /\ exists ref, B !! key = Some (ref, [])))
    /\ (forall key id ref, h_shards h !! key = Some id -> id ∈ created -> B !! key = Some (ref, []) -> B' !! key = None).
Proof.
  induction created as [|id created IH]; intros h B Hi; cbn [forgetEmpty foldl].
  { exists B. split_and!; [done..|by left|]. intros key id ref _ Hid. by apply not_elem_of_nil in Hid. }
  destruct (forget_if_empty_inv h B id Hi) as (B1 & Hi1 & Ho1 & Hw1 & Hk1 & Hd1).
  destruct (IH _ _ Hi1) as (B' & Hi' & Ho' & Hw' & Hk' & Hd'). exists B'.
  split_and!; [done|by eapply same_opts_trans|by etrans| |].
  - intros key. destruct (Hk1 key) as [[E Es]|(E & Es & Hr)]; destruct (Hk' key) as [E'|(E' & (id' & Hs & Hin) & Hr')].
    + left. congruence.
    + right. split; [done|]. rewrite E in Hr'. split; [|done]. exists id'. rewrite <- Es. split; [done|by right].
    + right. rewrite E', E. split; [done|]. split; [|done]. exists id. split; [done|by left].
    + right. split; [done|]. split; [|done]. exists id. split; [done|by left].
  - intros key id' ref Hs Hin HB. destruct (Hk1 key) as [[E Es]|(E & Es & Hr)].
    + apply elem_of_cons in Hin as [->|Hin].
      * specialize (Hd1 key ref Hs HB). destruct (Hk' key) as [E'|[E' _]]; congruence.
      * eapply Hd'; [by rewrite Es|done|by rewrite E].
    + destruct (Hk' key) as [E'|[E' _]]; congruence.
Qed.

(** Two keys of one id are one key. *)
Lemma shards_inj h A key key' id : head_inv h A ->
  h_shards h !! key = Some id -> h_shards h !! key' = Some id -> key = key'.
Proof.
  intros Hi H1 H2. destruct (hi_shard _ _ Hi _ _ H1) as (ms & ? & Hms & _ & <- & _).
  destruct (hi_shard _ _ Hi _ _ H2) as (ms' & ? & Hms' & _ & <- & _). congruence.
Qed.

(** Appending leaves no new series empty. *)
Lemma spec_append_one_empty max mv ref t v A key ref' :
  (spec_append_one max mv ref t v A).1 !! key = Some (ref', []) -> A !! key = Some (ref', []).
Proof.
  unfold spec_append_one, spec_resolve. destruct (t <? mv) eqn:Et; [done|].
  assert (Hgrow : forall ss, (append_spec mv t v ss).1 = ss \/ (append_spec mv t v ss).1 = ss ++ [(t, v)]).
  { intros ss. unfold append_spec. rewrite Et. destruct (last ss) as [[lt lv]|]; [destruct (t <=? lt)|]; auto. }
  assert (Hset : forall B ref0 ss0, B !! Key ref = Some (ref0, ss0) ->
    (spec_apply mv (Key ref) t v B).1 !! key = Some (ref', []) -> key <> Key ref -> B !! key = Some (ref', [])).
  { intros B ref0 ss0 HB Hk Hne. unfold spec_apply in Hk. rewrite HB in Hk.
    destruct (append_spec mv t v ss0). cbn in Hk. by rewrite lookup_insert_ne in Hk. }
  assert (Hnew : (append_spec mv t v []).1 = [(t, v)]) by (unfold append_spec; by rewrite Et).
  assert (Hsame : forall B ref0 ss0, B !! Key ref = Some (ref0, ss0) ->
    (spec_apply mv (Key ref) t v B).1 !! Key ref = Some (ref0, (append_spec mv t v ss0).1)).
  { intros B ref0 ss0 HB. unfold spec_apply. rewrite HB. destruct (append_spec mv t v ss0). cbn. apply lookup_insert_eq. }
  destruct (A !! Key ref) as [[ref0 ss0]|] eqn:EA.
  - intros Hk. destruct (decide (key = Key ref)) as [->|Hne]; [|by apply (Hset A ref0 ss0)].
    rewrite (Hsame _ _ _ EA) in Hk. injection Hk as -> Hss. rewrite EA. do 2 f_equal.
    destruct (Hgrow ss0) as [E|E]; [congruence|]. rewrite E in Hss. by destruct ss0.
  - destruct (_ && _); [done|]. intros Hk. destruct (decide (key = Key ref)) as [->|Hne].
    + rewrite (Hsame _ ref []) in Hk by apply lookup_insert_eq. by rewrite Hnew in Hk.
    + eapply Hset in Hk; [|apply lookup_insert_eq|done]. by rewrite lookup_insert_ne in Hk.
Qed.

Lemma spec_append_empty max mv b : forall A key ref,
  (spec_append max mv b A).1 !! key = Some (ref, []) -> A !! key = Some (ref, []).
Proof.
  induction b as [|[ref0 s] b IH]; intros A key ref; cbn [spec_append]; [done|].
  pose proof (spec_append_one_empty max mv ref0 (hs_T s) (hs_V s) A key ref) as H1.
  destruct (spec_append_one max mv ref0 (hs_T s) (hs_V s) A) as [A1 res]. specialize (IH A1 key ref).
  destruct (spec_append max mv b A1) as [A2 ress]. cbn [fst] in *. auto.
Qed.

(** The end of a commit that applied. *)
Lemma finish_applied h1 h2 (A0 A1 A2 : store) created dropped rejected :
  head_inv h1 A1 -> creating A0 A1 h1 created -> head_inv h2 A2 -> quiet_step h2 h1 ->
  (forall key ref, A2 !! key = Some (ref, []) -> A0 !! key = Some (ref, [])) ->
  head_inv (finish created dropped rejected h2).1 A2 /\ same_opts (finish created dropped rejected h2).1 h2
  /\ h_wal (finish created dropped rejected h2).1 = h_wal h2.
Proof.
  intros Hi1 [Hn Hr] Hi2 [Ho Hs _] Hempty. unfold finish. cbn [fst].
  set (h3 := if 0 <? dropped then add_dropped dropped h2 else h2).
  assert (Hi3 : head_inv h3 A2) by (unfold h3; destruct (0 <? dropped); [by eapply head_inv_same|done]).
  assert (Hq : same_opts h3 h2 /\ h_wal h3 = h_wal h2 /\ h_shards h3 = h_shards h2)
    by (unfold h3; by destruct (0 <? dropped)).
  destruct Hq as (Hq1 & Hq2 & Hq3).
  destruct (forgetEmpty_inv created h3 A2 Hi3) as (B' & HiB & HoB & HwB & Hk & _).
  assert (B' = A2) as <-; [|split_and!; [done|by eapply same_opts_trans|congruence]].
  apply map_eq. intros key. destruct (Hk key) as [?|(E & (id & Hid & Hin) & ref & HA2)]; [done|].
  exfalso. apply Hempty in HA2. rewrite Hq3, Hs in Hid. destruct (Hn id Hin) as (key' & Hk' & H0).
  assert (key = key') as <- by (exact (shards_inj h1 A1 key key' id Hi1 Hid Hk')). congruence.
Qed.

(** The end of a commit that failed. *)
Lemma finish_failed h1 h2 (A0 A1 : store) created dropped rejected :
  head_inv h1 A1 -> creating A0 A1 h1 created -> head_inv h2 A1 -> quiet_step h2 h1 ->
  head_inv (finish created dropped rejected h2).1 A0 /\ same_opts (finish created dropped rejected h2).1 h2.
Proof.
  intros Hi1 [Hn Hr] Hi2 [Ho Hs _]. unfold finish. cbn [fst].
  set (h3 := if 0 <? dropped then add_dropped dropped h2 else h2).
  assert (Hi3 : head_inv h3 A1) by (unfold h3; destruct (0 <? dropped); [by eapply head_inv_same|done]).
  assert (Hq : same_opts h3 h2 /\ h_shards h3 = h_shards h1) by (unfold h3; by destruct (0 <? dropped)).
  destruct Hq as (Hq1 & Hq3).
  destruct (forgetEmpty_inv created h3 A1 Hi3) as (B' & HiB & HoB & _ & Hk & Hd).
  assert (B' = A0) as <-; [|split; [done|by eapply same_opts_trans]].
  apply map_eq. intros key. destruct (Hr key) as [E|(E & ref & id & E2 & E3 & E4)].
  - destruct (Hk key) as [?|(E' & (id & Hid & Hin) & _)]; [congruence|]. rewrite E'.
    destruct (Hn id Hin) as (key' & Hk' & H0). rewrite Hq3 in Hid.
    assert (key = key') as <- by (exact (shards_inj h1 A1 key key' id Hi1 Hid Hk')). done.
  - rewrite E. eapply Hd; [by rewrite Hq3|done|done].
Qed.

Lemma no_valid_all_rejected h b ress outs : length ress = length outs -> Forall2 (resolved h) b (zip ress outs) ->
  omap id outs = [] -> forall mv A,
  spec_apply_all mv b ress A = (A, (fun r => match r with Ok _ => Ok false | Err e => Err e end) <$> ress)
  /\ Forall (fun r => exists e, r = Err e) ress.
Proof.
  revert ress outs. induction b as [|[ref s] b IH]; intros [|res ress] [|o outs] Hlen Hf Ho mv A; try done;
    cbn [zip zip_with] in Hf; try by inversion Hf.
  apply Forall2_cons_1 in Hf as [Hx Hf]. destruct o as [o|]; [done|]. cbn in Ho.
  destruct res as [[]|e]; [by destruct Hx as (? & ? & _)|]. cbn [spec_apply_all].
  destruct (IH ress outs ltac:(cbn in Hlen; lia) Hf Ho mv A) as [-> Hall]. split; [done|]. constructor; eauto.
Qed.

Lemma creating_refl A h : creating A A h [].
Proof. constructor; [intros id Hid; by apply not_elem_of_nil in Hid|by left]. Qed.

Lemma logLocked_quiet pending valid w h h' res : logLocked pending valid w h = (h', res) ->
  quiet_step h' h /\ forall A, head_inv h A -> head_inv h' A.
Proof.
  unfold logLocked. destruct (lg_Log _ w) as [w1 [u|e]].
  - destruct (h_SyncOnAppend h); [destruct (lg_Sync w1) as [w2 r]|]; intros [= <- <-];
      (split; [done|]); intros A Hi; by eapply head_inv_same.
  - intros [= <- <-]. split; [done|]. intros A Hi. by eapply head_inv_same.
Qed.

Lemma was_stored_rejected (ress : list (result head_error unit)) : Forall (fun r => exists e, r = Err e) ress ->
  was_stored <$> ((fun r => match r with Ok _ => Ok false | Err e => Err e end) <$> ress) = replicate (length ress) false
  /\ forall i, rejections i ((fun r => match r with Ok _ => Ok false | Err e => Err e end) <$> ress : list (result head_error bool))
              = rejections i ress.
Proof.
  induction 1 as [|r ress [e ->] _ [IH1 IH2]]; [done|]. rewrite !fmap_cons. cbn [length replicate was_stored rejections].
  rewrite IH1. split; [done|]. intros i. by rewrite IH2.
Qed.

(** One commit, after its resolve loop. *)
Section One_commit.
Context (h : Head W) (A A1 : store) (b : batch) (mv : Z) (r : @resolving W)
        (ress : list (result head_error unit)) (outs : list (option HSample)).
Hypothesis Hb : batch_ok b.
Hypothesis Hi1 : head_inv (rv_head r) A1.
Hypothesis Hopts : same_opts (rv_head r) h.
Hypothesis Hrej : rv_rejected r = rejections 0 ress.
Hypothesis Hl : length ress = length outs.
Hypothesis Hf : Forall2 (resolved (rv_head r)) b (zip ress outs).
Hypothesis Hcr : creating A A1 (rv_head r) (rv_created r).
Hypothesis Hempty : forall key ref, (spec_apply_all mv b ress A1).1 !! key = Some (ref, []) -> A !! key = Some (ref, []).

Lemma commit_length : length ress = length b.
Proof. pose proof (Forall2_length _ _ _ Hf) as H0. rewrite length_zip_with in H0. lia. Qed.

(** The apply path, from a head that differs only in the log's marks. *)
Lemma commit_applied h2 : head_inv h2 A1 -> quiet_step h2 (rv_head r) ->
  let a := apply_all mv 0 outs (MkApplying h2 (rv_rejected r) (rv_dropped r) []) in
  let '(A', rs) := spec_apply_all mv b ress A1 in
  let '(h', rejected) := finish (rv_created r) (ap_dropped a) (ap_rejected a) (ap_head a) in
  same_opts h' h /\ head_inv h' A' /\ ap_stored a = was_stored <$> rs /\ rejected = rejections 0 rs.
Proof.
  intros Hi2 Hq2. assert (Hf2 : Forall2 (resolved h2) b (zip ress outs)).
  { eapply Forall2_impl; [exact Hf|]. intros x ro. apply resolved_mono. by rewrite (qs_shards _ _ Hq2). }
  pose proof (apply_all_sim mv b 0 ress outs (MkApplying h2 (rv_rejected r) (rv_dropped r) []) A1 Hi2 Hb Hl Hf2) as Ha.
  pose proof (late_perm mv b ress A1 0 commit_length) as Hp.
  destruct (spec_apply_all mv b ress A1) as [A2 rs]. destruct Ha as [Ha1 Ha2 _ Ha4 Ha5].
  set (a := apply_all mv 0 outs _) in *. cbn [ap_head ap_rejected ap_stored app fst snd] in *.
  destruct (finish_applied (rv_head r) (ap_head a) A A1 A2 (rv_created r) (ap_dropped a) (ap_rejected a))
    as (Hfi & Hfo & _); try done; [by eapply quiet_trans|].
  assert (Hfr : (finish (rv_created r) (ap_dropped a) (ap_rejected a) (ap_head a)).2 = rejections 0 rs).
  { apply sort_rejections. by rewrite Ha4, Hrej, Hp. }
  destruct (finish _ _ _ _) as [h' rejected]. cbn [fst snd] in *. split_and!; try done.
  eapply same_opts_trans; [exact Hfo|]. eapply same_opts_trans; [apply Ha2|].
  eapply same_opts_trans; [apply Hq2|done].
Qed.

(** Nothing resolved: nothing logged, nothing applied. *)
Lemma commit_none : omap id outs = [] ->
  let '(A', rs) := spec_apply_all mv b ress A1 in
  let '(h', rejected) := finish (rv_created r) (rv_dropped r) (rv_rejected r) (rv_head r) in
  same_opts h' h /\ head_inv h' A' /\ replicate (length b) false = was_stored <$> rs /\ rejected = rejections 0 rs.
Proof.
  intros Ev. destruct (no_valid_all_rejected _ _ _ _ Hl Hf Ev mv A1) as [E Hall]. rewrite E in Hempty |- *.
  destruct (was_stored_rejected ress Hall) as [Hst Hrj].
  destruct (finish_applied (rv_head r) (rv_head r) A A1 A1 (rv_created r) (rv_dropped r) (rv_rejected r))
    as (Hfi & Hfo & _); try done.
  assert (Hfr : (finish (rv_created r) (rv_dropped r) (rv_rejected r) (rv_head r)).2 = rejections 0 ress).
  { apply sort_rejections. by rewrite Hrej. }
  destruct (finish _ _ _ _) as [h' rejected]. cbn [fst snd] in *.
  split_and!; [by eapply same_opts_trans|done|by rewrite Hst, commit_length|by rewrite Hrj].
Qed.

(** The log refused: the marks come off and the new series are forgotten. *)
Lemma commit_refused h2 pending e : head_inv h2 A1 -> quiet_step h2 (rv_head r) ->
  let h3 := foldl (fun h id => on_series id (set_logged false) h) h2 pending in
  let '(h', rejected) := finish (rv_created r) (rv_dropped r) (rv_rejected r ++ [MkRejection (-1) (ErrLog e)]) h3 in
  same_opts h' h /\ head_inv h' A /\ MkRejection (-1) (ErrLog e) ∈ rejected.
Proof.
  intros Hi2 Hq2. destruct (unmark_sim pending h2 A1 Hi2) as [Hu1 Hu2]. cbn zeta.
  set (h3 := foldl _ h2 pending) in *. set (rj := rv_rejected r ++ [MkRejection (-1) (ErrLog e)]).
  assert (Hq3 : quiet_step h3 (rv_head r)) by (by eapply quiet_trans).
  destruct (finish_failed (rv_head r) h3 A A1 (rv_created r) (rv_dropped r) rj) as [Hfi Hfo]; try done.
  assert (Hin : MkRejection (-1) (ErrLog e) ∈ (finish (rv_created r) (rv_dropped r) rj h3).2).
  { cbn. rewrite (merge_sort_Permutation _ _). apply elem_of_app. right. by left. }
  destruct (finish _ _ _ _) as [h' rejected]. cbn [fst snd] in *. split_and!; try done.
  eapply same_opts_trans; [exact Hfo|]. eapply same_opts_trans; [apply Hq3|done].
Qed.
End One_commit.

Lemma HeadAppend_spec h A refs samples : head_inv h A -> length refs = length samples ->
  batch_ok (zip refs samples) ->
  let '(h', stored, rejected) := HeadAppend refs samples h in
  let '(A', ress) := spec_append (h_MaxSeries h) (h_minValid h) (zip refs samples) A in
  same_opts h' h /\
  match stored with
  | Some l => head_inv h' A' /\ l = was_stored <$> ress /\ rejected = rejections 0 ress
  | None => head_inv h' A /\ h_wal h <> None /\ exists e, MkRejection (-1) (ErrLog e) ∈ rejected
  end.
Proof.
  intros Hi Hlen Hb. unfold HeadAppend. rewrite (proj2 (Nat.eqb_eq _ _) Hlen). cbn [negb].
  assert (Hls : length (zip refs samples) = length samples) by (rewrite length_zip_with; lia).
  set (b := zip refs samples) in *. set (mv := h_minValid h).
  pose proof (resolve_sim mv b 0 (MkResolving h [] 0 [] []) A A Hi (creating_refl A h)) as Hrs. cbn [rv_head] in Hrs.
  pose proof (spec_append_empty (h_MaxSeries h) mv b A) as Hempty. rewrite (two_phases (h_MaxSeries h) mv b A) in *.
  destruct (spec_resolve_all (h_MaxSeries h) mv b A) as [A1 ress]. cbn [fst snd] in *.
  destruct Hrs as [Hi1 _ Ho1 Hw1 Hrej (outs & Hout & Hl & Hf) Hcr]. cbn [rv_head rv_rejected rv_out app] in *.
  set (r := resolve mv 0 b _) in *. rewrite Hout. cbn [app].
  pose proof (commit_applied h A A1 b mv r ress outs Hb Hi1 Ho1 Hrej Hl Hf Hcr Hempty) as Happly.
  destruct (omap id outs) as [|s0 valid] eqn:Ev.
  - pose proof (commit_none h A A1 b mv r ress outs Hi1 Ho1 Hrej Hl Hf Hcr Hempty Ev) as Hn. rewrite <- Hls.
    destruct (spec_apply_all mv b ress A1), (finish _ _ _ _). tauto.
  - destruct (h_wal h) as [w|].
    + pose proof (mark_pending_sim outs (rv_head r) [] A1 Hi1) as (Hm1 & Hm2 & _).
      destruct (mark_pending outs (rv_head r) []) as [h1 pending]. cbn [fst] in *.
      destruct (logLocked pending (s0 :: valid) w h1) as [h2 [[]|e]] eqn:El;
        apply logLocked_quiet in El as [Hq2 Hk2];
        assert (Hq : quiet_step h2 (rv_head r)) by (by eapply quiet_trans).
      * specialize (Happly h2 (Hk2 _ Hm1) Hq). cbn zeta in Happly. destruct (spec_apply_all mv b ress A1), (finish _ _ _ _). tauto.
      * pose proof (commit_refused h A A1 r Hi1 Ho1 Hcr h2 pending e (Hk2 _ Hm1) Hq) as Href. cbn zeta in Href.
        destruct (spec_apply_all mv b ress A1), (finish _ _ _ _). destruct Href as (? & ? & ?). eauto 10.
    + specialize (Happly (rv_head r) Hi1 ltac:(done)). cbn zeta in Happly. destruct (spec_apply_all mv b ress A1), (finish _ _ _ _). exact Happly.
Qed.
End Commit.
