(* ===== verification/HeadOps.v ===== *)
(** * What the head promises

    The whole-head theorems: a commit, a block cut and a read, each against the
    abstract store. *)

From Stdlib Require Import ZArith Lia.
From Stdlib Require Import (notations) String.
From stdpp Require Import base sorting gmap numbers list.
From S2P Require Import Prelude Bstream Chunkenc Wal Gofloat Gostring Tsdb Index IndexProofs IndexSelect HeadRecord Head HeadSeries HeadStore HeadCommit.

(** ** Block cuts *)

Definition cut_entry (mint : Z) (e : SeriesRef * list (Z * Z)) : option (SeriesRef * list (Z * Z)) :=
  match filter (fun s => mint <= s.1) e.2 with [] => None | ss => Some (e.1, ss) end.
Definition cut_store (mint : Z) (A : store) : store := omap (cut_entry mint) A.

Lemma cut_entry_idem mint o : (o ≫= cut_entry mint) ≫= cut_entry mint = o ≫= cut_entry mint.
Proof.
  destruct o as [[ref ss]|]; [|done]. cbn. unfold cut_entry at 2 3. cbn [fst snd].
  destruct (filter _ ss) as [|s ss'] eqn:E; [done|]. cbn. unfold cut_entry. cbn [fst snd].
  assert (Ha : filter (fun s => mint <= s.1) (s :: ss') = s :: ss').
  { apply filter_all. intros x Hx. rewrite <- E in Hx. by apply list_elem_of_filter in Hx as [? _]. }
  by rewrite Ha.
Qed.

Section Ops.
Context {W : Type} `{Logger W}.
Implicit Types h : Head W.

Lemma NewHead_inv (w : option W) range max sync : head_inv (NewHead w range max sync) ∅.
Proof.
  constructor; cbn [NewHead h_BlockRange h_shards h_postings h_byID h_perMetric h_nextID].
  - unfold DefaultBlockRange. destruct (Z.leb_spec range 0); lia.
  - done.
  - intros key. by rewrite !lookup_empty.
  - done.
  - rewrite fmap_empty. apply NewMemPostings_spec.
  - intros m. by rewrite lookup_empty.
  - done.
  - intros id. rewrite lookup_empty. by intros [].
Qed.

(** The options and the log, which a cut leaves alone; only the bound moves. *)
Definition cut_opts (h' h : Head W) : Prop :=
  h_BlockRange h' = h_BlockRange h /\ h_MaxSeries h' = h_MaxSeries h
  /\ h_SyncOnAppend h' = h_SyncOnAppend h /\ h_wal h' = h_wal h.

Lemma truncate_one_sim k h ds dc A id : head_inv h A ->
  let '(h', ds', _) := truncate_one (h_BlockRange h * k) (h, ds, dc) id in
  exists A', head_inv h' A' /\ cut_opts h' h /\ h_minValid h' = h_minValid h
    /\ ds' + Z.of_nat (size A') = ds + Z.of_nat (size A)
    /\ (forall key, (h_shards h !! key = Some id /\ A' !! key = A !! key ≫= cut_entry (h_BlockRange h * k))
          \/ (h_shards h !! key <> Some id /\ A' !! key = A !! key /\ h_shards h' !! key = h_shards h !! key)).
Proof.
  intros Hi. unfold truncate_one. destruct (h_byID h !! id) as [ms|] eqn:E.
  2: { exists A. split_and!; try done. intros key. right. split; [|done]. intros Hs.
       destruct (hi_shard _ _ Hi _ _ Hs) as (ms & ? & Hms & _). congruence. }
  destruct (hi_series _ _ _ _ Hi E) as (ss & Hid & HA & Hs). pose proof (hi_byID _ _ Hi _ _ E) as Hsh.
  destruct (truncate_series_spec (h_BlockRange h) k ms ss (hi_range _ _ Hi) Hs) as [Hs' (Hsid & Hsref & _)].
  pose proof (series_inv_nonempty _ _ _ Hs') as Hne. cbn zeta.
  set (mint := h_BlockRange h * k) in *. set (ss' := filter (fun s => mint <= s.1) ss) in *.
  pose proof (on_series_inv h A id (truncate_series mint) ms ss' Hi E Hsid Hsref Hs') as Hi1.
  set (h1 := on_series id (truncate_series mint) h) in *.
  assert (HA1 : Some (ms_ref ms, ss) ≫= cut_entry mint = match ss' with [] => None | _ => Some (ms_ref ms, ss') end).
  { cbn. unfold cut_entry. cbn [fst snd]. fold ss'. by destruct ss'. }
  assert (Hother : forall key, key <> Key (ms_ref ms) -> h_shards h !! key <> Some id).
  { intros key Hk Hs1. by apply Hk, (shards_inj _ _ _ _ _ Hi Hs1 Hsh). }
  assert (Hsz : size (<[Key (ms_ref ms) := (ms_ref ms, ss')]> A) = size A).
  { apply map_size_insert_Some. eauto. }
  destruct (ms_chunks (truncate_series mint ms)) as [|c cs].
  - assert (Hss : ss' = []) by by apply Hne. rewrite Hss in *.
    assert (E1 : h_byID h1 !! id = Some (truncate_series mint ms)) by (cbn; by rewrite lookup_alter_eq, E).
    pose proof (forget_inv h1 _ id _ Hi1 E1) as Hi2. rewrite Hsref in Hi2.
    rewrite delete_insert_eq in Hi2.
    exists (delete (Key (ms_ref ms)) A). split_and!; [done|unfold forget; by rewrite E1|unfold forget; by rewrite E1| |].
    + assert (size A <> 0)%nat by (eapply map_size_ne_0_lookup_2; eauto).
      rewrite map_size_delete_Some by eauto. lia.
    + intros key. destruct (decide (key = Key (ms_ref ms))) as [->|Hk].
      * left. by rewrite HA, HA1, lookup_delete_eq.
      * right. unfold forget. rewrite E1. cbn. rewrite !lookup_delete_ne by done. auto.
  - exists (<[Key (ms_ref ms) := (ms_ref ms, ss')]> A). split_and!; [done|done|done|by rewrite Hsz|].
    intros key. destruct (decide (key = Key (ms_ref ms))) as [->|Hk].
    + left. rewrite HA, HA1, lookup_insert_eq. split; [done|]. destruct ss'; [|done]. by specialize (proj2 Hne eq_refl).
    + right. rewrite lookup_insert_ne by done. auto.
Qed.

Lemma truncate_all_sim k ids : forall h ds dc A, head_inv h A ->
  let '(h', ds', _) := foldl (truncate_one (h_BlockRange h * k)) (h, ds, dc) ids in
  exists A', head_inv h' A' /\ cut_opts h' h /\ h_minValid h' = h_minValid h
    /\ ds' + Z.of_nat (size A') = ds + Z.of_nat (size A)
    /\ (forall key, A' !! key = A !! key \/ A' !! key = A !! key ≫= cut_entry (h_BlockRange h * k))
    /\ (forall key id, h_shards h !! key = Some id -> id ∈ ids ->
          A' !! key = A !! key ≫= cut_entry (h_BlockRange h * k)).
Proof.
  induction ids as [|id ids IH]; intros h ds dc A Hi; cbn [foldl].
  { exists A. split_and!; try done; [by left|]. intros key id _ Hin. by apply not_elem_of_nil in Hin. }
  pose proof (truncate_one_sim k h ds dc A id Hi) as H1.
  destruct (truncate_one (h_BlockRange h * k) (h, ds, dc) id) as [[h1 ds1] dc1].
  destruct H1 as (A1 & Hi1 & (Hr1 & Hm1 & Hy1 & Hw1) & Hv1 & Hd1 & Hk1).
  specialize (IH h1 ds1 dc1 A1 Hi1). rewrite Hr1 in IH.
  destruct (foldl _ _ ids) as [[h' ds'] dc'].
  destruct IH as (A' & Hi' & (Hr2 & Hm2 & Hy2 & Hw2) & Hv2 & Hd2 & Hk2 & Hin2).
  exists A'. split_and!; try done; try congruence; try lia; [split_and!; congruence| |].
  - intros key. destruct (Hk1 key) as [[_ E]|(_ & E & _)]; destruct (Hk2 key) as [E2|E2]; rewrite E2, E;
      rewrite ?cut_entry_idem; auto.
  - intros key id' Hs Hin. destruct (Hk1 key) as [[Hs1 E]|(Hs1 & E & Hs2)].
    + destruct (Hk2 key) as [E2|E2]; rewrite E2, E; by rewrite ?cut_entry_idem.
    + apply elem_of_cons in Hin as [->|Hin]; [done|]. rewrite <- E. eapply Hin2; [|done]. by rewrite Hs2.
Qed.

Lemma HeadTruncate_spec h A k : head_inv h A ->
  let '(h', droppedSeries, _) := HeadTruncate (h_BlockRange h * k) h in
  head_inv h' (cut_store (h_BlockRange h * k) A)
  /\ droppedSeries = Z.of_nat (size A) - Z.of_nat (size (cut_store (h_BlockRange h * k) A))
  /\ h_minValid h' = h_BlockRange h * k
  /\ h_BlockRange h' = h_BlockRange h /\ h_MaxSeries h' = h_MaxSeries h /\ h_wal h' = h_wal h.
Proof.
  intros Hi. unfold HeadTruncate. set (mint := h_BlockRange h * k). set (ids := (map_to_list (h_byID h)).*1).
  assert (Hi0 : head_inv (with_minValid mint h) A) by (by eapply head_inv_same).
  pose proof (truncate_all_sim k ids (with_minValid mint h) 0 0 A Hi0) as Hall.
  change (h_BlockRange (with_minValid mint h) * k) with mint in Hall.
  destruct (foldl _ _ ids) as [[h' ds] dc]. destruct Hall as (A' & Hi' & (Hr & Hm & _ & Hw) & Hv & Hd & Hor & Hin).
  assert (A' = cut_store mint A) as <-; [|split_and!; try done; lia].
  apply map_eq. intros key. unfold cut_store. rewrite lookup_omap. destruct (A !! key) as [e|] eqn:E.
  - assert (is_Some (h_shards h !! key)) as [id Hs] by (apply (hi_keys _ _ Hi); eauto).
    destruct (hi_shard _ _ Hi _ _ Hs) as (ms & ss & Hms & _). rewrite <- E. eapply Hin; [done|].
    unfold ids. apply list_elem_of_fmap. exists (id, ms). split; [done|]. by apply elem_of_map_to_list.
  - destruct (Hor key) as [-> | ->]; by rewrite E.
Qed.

(** A block cut of the head at a boundary keeps, of every series, exactly
    the samples at or after the boundary, forgets exactly the series that have
    none left (index, counters and identity included), reports how many it
    forgot, and refuses everything older from then on. *)
Theorem head_truncate_contract h A k : head_inv h A ->
  let '(h', droppedSeries, _) := HeadTruncate (h_BlockRange h * k) h in
  head_inv h' (cut_store (h_BlockRange h * k) A)
  /\ droppedSeries = Z.of_nat (size A) - Z.of_nat (size (cut_store (h_BlockRange h * k) A))
  /\ h_minValid h' = h_BlockRange h * k
  /\ h_BlockRange h' = h_BlockRange h /\ h_MaxSeries h' = h_MaxSeries h /\ h_wal h' = h_wal h.
Proof. apply HeadTruncate_spec. Qed.

(** ** Reads *)

(** What one id contributes to a read. *)
Definition read_one (h : Head W) (from to : Z) (id : Z) : option (SeriesRef * list (Z * Z)) :=
  ms ← h_byID h !! id;
  match samplesIn ms from to with
  | Ok (s :: ss) => Some (ms_ref ms, s :: ss)
  | _ => None
  end.

Lemma select_ids_spec h A from to ids : head_inv h A -> select_ids ids from to h = Ok (omap (read_one h from to) ids).
Proof.
  intros Hi. induction ids as [|id ids IH]; [done|]. cbn [select_ids omap list_omap]. unfold read_one at 1.
  destruct (h_byID h !! id) as [ms|] eqn:E; cbn [mbind option_bind]; [|done].
  destruct (hi_series _ _ _ _ Hi E) as (ss & _ & _ & Hs). rewrite (samplesIn_spec _ _ _ from to Hs).
  destruct (filter _ ss) as [|s ss']; [done|]. by rewrite IH.
Qed.

Lemma read_one_spec h A from to id ref ss : head_inv h A ->
  read_one h from to id = Some (ref, ss) <->
  exists all, (ms_ref <$> h_byID h !! id) = Some ref /\ A !! Key ref = Some (ref, all)
    /\ ss = filter (fun s => in_window from to s = true) all /\ ss <> [].
Proof.
  intros Hi. unfold read_one. destruct (h_byID h !! id) as [ms|] eqn:E; cbn.
  2: { split; [done|]. by intros (? & ? & _). }
  destruct (hi_series _ _ _ _ Hi E) as (all & _ & HA & Hs). rewrite (samplesIn_spec _ _ _ from to Hs).
  destruct (filter _ all) as [|s ss'] eqn:Ef.
  - split; [done|]. intros (all' & [= <-] & HA' & Hss & Hne). rewrite HA in HA'. injection HA' as <-. congruence.
  - split.
    + intros [= <- <-]. exists all. by rewrite Ef.
    + intros (all' & [= <-] & HA' & Hss & _). rewrite HA in HA'. injection HA' as <-. by rewrite Hss, Ef.
Qed.

Lemma sorted_by {A} (f : A -> gostring) (R : relation A) `{!RelDecision R} l : (forall a b, R a b <-> str_le (f a) (f b)) ->
  NoDup (f <$> l) -> StronglySorted (fun a b => str_lt (f a) (f b)) (merge_sort R l).
Proof.
  intros HR Hn. assert (Htot : Total R) by (intros a b; rewrite !HR; apply str_le_total).
  assert (Htr : Transitive R) by (intros a b c; rewrite !HR; apply str_le_trans).
  assert (Hs : StronglySorted R (merge_sort R l)) by apply (StronglySorted_merge_sort _).
  rewrite <- (merge_sort_Permutation R l) in Hn.
  induction Hs as [|a r Hr IH Ha]; [constructor|]. rewrite fmap_cons in Hn. apply NoDup_cons in Hn as [Hna Hn].
  constructor; [by apply IH|]. apply Forall_forall. intros x Hx. rewrite Forall_forall in Ha.
  apply str_le_lt; [by apply HR, Ha|]. intros HK. apply Hna. rewrite HK. apply list_elem_of_fmap. eauto.
Qed.

Lemma sorted_by_key (l : list (SeriesRef * list (Z * Z))) : NoDup ((fun x => Key x.1) <$> l) ->
  StronglySorted (fun a b => str_lt (Key a.1) (Key b.1)) (merge_sort key_le l).
Proof. by apply (sorted_by (fun x => Key x.1)). Qed.

(** The index and the store name the same series. *)
Lemma series_of_store h A key ref ss : head_inv h A -> A !! key = Some (ref, ss) ->
  Key ref = key /\ exists id, (ms_ref <$> h_byID h !! id) = Some ref.
Proof.
  intros Hi HA. assert (is_Some (h_shards h !! key)) as [id Hs] by (apply (hi_keys _ _ Hi); eauto).
  destruct (hi_shard _ _ Hi _ _ Hs) as (ms & ss' & Hms & _ & HK & HA' & _). rewrite HA in HA'. injection HA' as -> ->.
  split; [done|]. exists id. by rewrite Hms.
Qed.

Lemma read_keys_nodup h A from to ids : head_inv h A -> NoDup ids ->
  NoDup ((fun x => Key x.1) <$> omap (read_one h from to) ids).
Proof.
  intros Hi. induction 1 as [|id ids Hid Hn IH]; [constructor|]. cbn [omap list_omap].
  destruct (read_one h from to id) as [[ref ss]|] eqn:E; [|done]. rewrite fmap_cons. apply NoDup_cons. split; [|done].
  intros Hin. apply list_elem_of_fmap in Hin as ([ref' ss'] & HK & Hin). apply list_elem_of_omap in Hin as (id' & Hid' & E').
  apply (read_one_spec _ _ _ _ _ _ _ Hi) in E as (all & Hr & _), E' as (all' & Hr' & _). cbn [fst] in HK.
  destruct (h_byID h !! id) as [ms|] eqn:Em; [|done]. destruct (h_byID h !! id') as [ms'|] eqn:Em'; [|done].
  injection Hr as <-. injection Hr' as <-. pose proof (hi_byID _ _ Hi _ _ Em). pose proof (hi_byID _ _ Hi _ _ Em').
  congruence.
Qed.

Lemma HeadSelect_spec h A sel from to : head_inv h A ->
  (forall key ref ss t, A !! key = Some (ref, ss) -> t ∈ sr_Tags ref -> t_Key t <> MetricName) ->
  Forall (fun m => m_Key m <> MetricName) (sel_Matchers sel) ->
  exists out, HeadSelect sel from to h = Ok out
    /\ StronglySorted (fun a b => str_lt (Key a.1) (Key b.1)) out
    /\ forall ref ss, (ref, ss) ∈ out <->
         exists all, A !! Key ref = Some (ref, all) /\ ss = filter (fun s => in_window from to s = true) all /\ ss <> []
           /\ (sel_Metric sel <> [] -> sr_Metric ref = sel_Metric sel)
           /\ forallb (fun m => Matcher_Matches m (sr_Tags ref)) (sel_Matchers sel) = true.
Proof.
  intros Hi Hplain Hk. pose proof (mem_index_laws _ _ (hi_index _ _ Hi)) as HL.
  assert (Hplain' : forall id ref t, (ms_ref <$> h_byID h) !! id = Some ref -> t ∈ sr_Tags ref -> t_Key t <> MetricName).
  { intros id ref t Hid. rewrite lookup_fmap in Hid. destruct (h_byID h !! id) as [ms|] eqn:E; [|done].
    injection Hid as <-. destruct (hi_series _ _ _ _ Hi E) as (ss & _ & HA & _). by apply (Hplain _ _ _ _ HA). }
  destruct (IndexSelect_spec (h_postings h) _ Hplain' sel Hk) as [Hs He].
  unfold HeadSelect. rewrite (select_ids_spec _ A) by done. eexists. split; [done|]. split.
  - apply sorted_by_key. apply (read_keys_nodup h A); [done|]. by apply ssorted_NoDup.
  - intros ref ss. rewrite (merge_sort_Permutation _ _), list_elem_of_omap. setoid_rewrite (read_one_spec _ A); [|done].
    setoid_rewrite He. setoid_rewrite lookup_fmap. split.
    + intros (id & (ref' & E & Hm & Hf) & all & E' & HA & Hss & Hne). rewrite E in E'. injection E' as ->. eauto 10.
    + intros (all & HA & Hss & Hne & Hm & Hf). destruct (series_of_store _ _ _ _ _ Hi HA) as [_ [id Hid]]. eauto 10.
Qed.

(** C30: a read returns, in strictly increasing key order, exactly the series
    that match the selector and have samples in the window, each with exactly
    its samples in the window, in time order; it never fails. *)
Theorem head_select_exact h A sel from to : head_inv h A ->
  (forall key ref ss t, A !! key = Some (ref, ss) -> t ∈ sr_Tags ref -> t_Key t <> MetricName) ->
  Forall (fun m => m_Key m <> MetricName) (sel_Matchers sel) ->
  exists out, HeadSelect sel from to h = Ok out
    /\ StronglySorted (fun a b => str_lt (Key a.1) (Key b.1)) out
    /\ forall ref ss, (ref, ss) ∈ out <->
         exists all, A !! Key ref = Some (ref, all) /\ ss = filter (fun s => in_window from to s = true) all /\ ss <> []
           /\ (sel_Metric sel <> [] -> sr_Metric ref = sel_Metric sel)
           /\ forallb (fun m => Matcher_Matches m (sr_Tags ref)) (sel_Matchers sel) = true.
Proof. apply HeadSelect_spec. Qed.
End Ops.

(** ** The commit *)

(** C10: committing a batch, with or without a log, is appending its samples one
    at a time to the abstract store: the same samples are stored, accepted
    without effect or rejected, for the same reasons and reported in index order,
    and the head represents the resulting store.  When the log refuses the batch
    the store is left as it was, new series included, and the rejection says so. *)
Theorem head_append_contract {W} `{Logger W} (h : Head W) A refs samples : head_inv h A ->
  length refs = length samples -> batch_ok (zip refs samples) ->
  let '(h', stored, rejected) := HeadAppend refs samples h in
  let '(A', ress) := spec_append (h_MaxSeries h) (h_minValid h) (zip refs samples) A in
  same_opts h' h /\
  match stored with
  | Some l => head_inv h' A' /\ l = was_stored <$> ress /\ rejected = rejections 0 ress
  | None => head_inv h' A /\ h_wal h <> None /\ exists e, MkRejection (-1) (ErrLog e) ∈ rejected
  end.
Proof. apply HeadAppend_spec. Qed.

Definition example_wal : WAL := fst (Open (MkDir ∅ ∅) 0 []).
Definition fresh_head : Head WAL := NewHead (Some example_wal) 100 2 true.
Definition example_refs : list SeriesRef := [web_a; web_b; web_a; web_a; NewSeriesRef (str "http.count") []].
Definition example_samples : list HSample :=
  [MkHSample 0 10 5; MkHSample 0 120 6; MkHSample 0 90 7; MkHSample 0 90 8; MkHSample 0 95 9].

Lemma example_batch : batch_ok (zip example_refs example_samples).
Proof. repeat (apply Forall_cons; split; [cbn [snd hs_T hs_V]; unfold is_i64, is_u64; lia|]). apply Forall_nil, I. Qed.

(** Two series are created and the third is over the limit; of [web_a]'s three
    samples the last conflicts with the second. *)
Lemma head_append_contract_witness :
  (let '(h', stored, rejected) := HeadAppend example_refs example_samples fresh_head in
   let '(A', ress) := spec_append 2 (- 2 ^ 63) (zip example_refs example_samples) ∅ in
   same_opts h' fresh_head /\
   match stored with
   | Some l => head_inv h' A' /\ l = was_stored <$> ress /\ rejected = rejections 0 ress
   | None => head_inv h' ∅ /\ h_wal fresh_head <> None /\ exists e, MkRejection (-1) (ErrLog e) ∈ rejected
   end)
  /\ (HeadAppend example_refs example_samples fresh_head).1.2 = Some [true; true; true; false; false]
  /\ (HeadAppend example_refs example_samples fresh_head).2
     = [MkRejection 3 ErrOutOfOrder; MkRejection 4 ErrSeriesLimit].
Proof.
  split; [|split; vm_compute; reflexivity].
  apply (head_append_contract fresh_head ∅ example_refs example_samples);
    [apply NewHead_inv|reflexivity|apply example_batch].
Defined.

Definition example_head : Head WAL := (HeadAppend example_refs example_samples fresh_head).1.1.
Definition example_store : store := (spec_append 2 (- 2 ^ 63) (zip example_refs example_samples) ∅).1.

Lemma example_head_inv : head_inv example_head example_store.
Proof.
  pose proof (HeadAppend_spec fresh_head ∅ example_refs example_samples (NewHead_inv _ _ _ _) eq_refl example_batch) as Hs.
  assert (E : (HeadAppend example_refs example_samples fresh_head).1.2 = Some [true; true; true; false; false])
    by (vm_compute; reflexivity).
  unfold example_head, example_store. change 2 with (h_MaxSeries fresh_head). change (- 2 ^ 63) with (h_minValid fresh_head).
  destruct (HeadAppend _ _ _) as [[h' stored] rejected]. cbn [fst snd] in *. subst stored.
  destruct (spec_append _ _ _ _) as [A' ress]. apply Hs.
Qed.

Lemma head_truncate_contract_witness :
  (let '(h', droppedSeries, _) := HeadTruncate (100 * 1) example_head in
   head_inv h' (cut_store (100 * 1) example_store)
   /\ droppedSeries = Z.of_nat (size example_store) - Z.of_nat (size (cut_store (100 * 1) example_store))
   /\ h_minValid h' = 100 * 1
   /\ h_BlockRange h' = 100 /\ h_MaxSeries h' = 2 /\ h_wal h' = h_wal example_head)
  /\ (HeadTruncate (100 * 1) example_head).1.2 = 1.
Proof.
  split; [|vm_compute; reflexivity].
  exact (head_truncate_contract example_head example_store 1 example_head_inv).
Defined.

Lemma example_store_refs key ref ss : example_store !! key = Some (ref, ss) -> ref = web_a \/ ref = web_b.
Proof.
  intros Hk. apply elem_of_map_to_list in Hk.
  assert (E : (fun x => x.2.1) <$> map_to_list example_store = [web_b; web_a]) by (vm_compute; reflexivity).
  apply (list_elem_of_fmap_2 (fun x => x.2.1)) in Hk. cbn [fst snd] in Hk.
  rewrite E, elem_of_cons, list_elem_of_singleton in Hk. apply or_comm. exact Hk.
Qed.

Definition example_selector : Selector := MkSelector (str "http.count") [MkMatcher (str "env") (str "p*") Wildcard].

Lemma head_select_exact_witness :
  (exists out, HeadSelect example_selector 50 200 example_head = Ok out
    /\ StronglySorted (fun a b => str_lt (Key a.1) (Key b.1)) out
    /\ forall ref ss, (ref, ss) ∈ out <->
         exists all, example_store !! Key ref = Some (ref, all)
           /\ ss = filter (fun s => in_window 50 200 s = true) all /\ ss <> []
           /\ (sel_Metric example_selector <> [] -> sr_Metric ref = sel_Metric example_selector)
           /\ forallb (fun m => Matcher_Matches m (sr_Tags ref)) (sel_Matchers example_selector) = true)
  /\ HeadSelect example_selector 50 200 example_head = Ok [(web_a, [(90, 7)])].
Proof.
  split; [|vm_compute; reflexivity].
  apply (head_select_exact example_head example_store); [apply example_head_inv| |].
  - intros key ref ss t Hk Ht. apply example_store_refs in Hk. destruct Hk as [-> | ->]; vm_compute in Ht;
      repeat (apply elem_of_cons in Ht as [->|Ht]; [vm_compute; discriminate|]); by apply not_elem_of_nil in Ht.
  - repeat constructor. vm_compute. discriminate.
Defined.
