(* ===== verification/HeadDurable.v ===== *)
(** * Durability: what was acknowledged is what a restart finds

    Every commit the log accepted extends the log by entries that mean the same
    store the head now holds, so replaying the log rebuilds it. *)

From Stdlib Require Import ZArith Lia.
From Stdlib Require Import (notations) String.
From stdpp Require Import base sorting gmap numbers list.
From S2P Require Import Prelude Bstream Chunkenc Wal WalProofs WalTruncate WalSafety Gofloat Gostring Tsdb Index IndexProofs IndexSelect HeadRecord Head HeadSeries HeadStore HeadCommit HeadOps.

(** * The meaning of a log, and replay

    A log of series definitions and samples has a meaning on the abstract store:
    ids name keys, and samples are applied in order under the store's contract.
    [Replay] computes that meaning. *)

(** ** Entries *)

Inductive entry :=
| ESeries (id : Z) (ref : SeriesRef)
| ESamples (ss : list HSample).

Definition record_of (e : entry) : Record_ :=
  match e with
  | ESeries id ref => series_record id ref
  | ESamples ss => MkRecord RecordSamples (encodeSamples [] ss)
  end.

Definition entry_ok (e : entry) : Prop :=
  match e with
  | ESeries id ref => is_u64 id /\ ref_sized ref
  | ESamples ss => Forall hsample_ok ss /\ int_len ss
  end.

(** ** Meaning: the keys the ids name, and the store *)

Abbreviation names := (gmap Z gostring).

Definition name_series (id : Z) (ref : SeriesRef) (m : names * store) : names * store :=
  (<[id := Key ref]> m.1, match m.2 !! Key ref with Some _ => m.2 | None => <[Key ref := (ref, [])]> m.2 end).

Definition mean_sample (mv : Z) (ns : names) (A : store) (s : HSample) : store :=
  match ns !! hs_ID s with
  | Some key => (spec_apply mv key (hs_T s) (hs_V s) A).1
  | None => A
  end.

Definition mean_entry (mv : Z) (m : names * store) (e : entry) : names * store :=
  match e with
  | ESeries id ref => name_series id ref m
  | ESamples ss => (m.1, foldl (mean_sample mv m.1) m.2 ss)
  end.

Definition log_meaning (mv : Z) (log : list entry) : names * store := foldl (mean_entry mv) (∅, ∅) log.

(** ** Replay computes it *)

Section Replaying.
Context {W : Type} `{Logger W}.

(** The log's ids lead to the series of the keys they name. *)
Record replayed (st : @replaying W) (m : names * store) : Prop := {
  rd_inv : head_inv (rp_head st) m.2;
  rd_names id : match m.1 !! id with
                | Some key => exists sid, rp_byLogID st !! id = Some sid /\ h_shards (rp_head st) !! key = Some sid
                | None => rp_byLogID st !! id = None
                end;
}.

Lemma restoreSeries_spec (h : Head W) A id ref : head_inv h A -> is_u64 id ->
  let '(h', sid) := restoreSeries id ref h in
  head_inv h' (match A !! Key ref with Some _ => A | None => <[Key ref := (ref, [])]> A end)
  /\ h_shards h ⊆ h_shards h' /\ h_shards h' !! Key ref = Some sid /\ h_minValid h' = h_minValid h.
Proof.
  intros Hi Hid. unfold restoreSeries. unfold is_u64 in Hid.
  set (nextID := if h_nextID h <? id then id else h_nextID h).
  assert (Hn : h_nextID h <= nextID /\ id <= nextID) by (unfold nextID; destruct (Z.ltb_spec (h_nextID h) id); lia).
  assert (Hi1 : head_inv (with_ids (h_shards h) (h_postings h) (h_byID h) (h_perMetric h) nextID h) A).
  { pose proof Hi as [? ? ? ? ? ? Hnx Hids]. constructor; try done; cbn [with_ids h_nextID h_byID]; [lia|].
    intros id' Hs. specialize (Hids id' Hs). lia. }
  set (h1 := with_ids _ _ _ _ nextID h) in *. pose proof (hi_next _ _ Hi) as Hnx.
  assert (Hsh : h_shards h1 = h_shards h) by done. destruct (h_shards h1 !! Key ref) as [sid|] eqn:Es.
  { assert (is_Some (A !! Key ref)) as [e He] by (apply (hi_keys _ _ Hi1); eauto). by rewrite He. }
  assert (HA : A !! Key ref = None) by (apply eq_None_not_Some; rewrite (hi_keys _ _ Hi1), Es; by intros []).
  rewrite HA. change (h_nextID h1) with nextID. destruct (h_byID h1 !! id) as [ms|] eqn:Eid;
    (split_and!; [|rewrite <- Hsh; by apply insert_subseteq|apply lookup_insert_eq|done]);
    apply new_series_inv; try done; try (change (h_nextID h1) with nextID; lia).
  apply eq_None_not_Some. intros Hs. apply (hi_ids _ _ Hi1) in Hs. change (h_nextID h1) with nextID in Hs. lia.
Qed.

Lemma replay_series mv st m id ref : replayed st m -> is_u64 id -> ref_sized ref ->
  exists st', replay_record mv st (series_record id ref) = Ok st' /\ replayed st' (name_series id ref m)
    /\ h_minValid (rp_head st') = h_minValid (rp_head st).
Proof.
  intros [Hi Hn] Hid Href. unfold replay_record. cbn [series_record rec_Type rec_Data].
  rewrite Z.eqb_refl, decodeSeries_enc by done.
  pose proof (restoreSeries_spec (rp_head st) m.2 id ref Hi Hid) as Hr.
  destruct (restoreSeries id ref (rp_head st)) as [h' sid]. destruct Hr as (Hi' & Hsub & Hsid & Hmv).
  eexists. split; [done|]. split; [|done]. constructor; cbn [rp_head rp_byLogID name_series fst snd]; [done|].
  intros id'. destruct (decide (id' = id)) as [->|Hne].
  - rewrite !lookup_insert_eq. eauto.
  - rewrite !lookup_insert_ne by done. specialize (Hn id'). destruct (m.1 !! id') as [key|]; [|done].
    destruct Hn as (sid' & E & Es). exists sid'. split; [done|]. by eapply lookup_weaken.
Qed.

Lemma replay_sample_spec mv st ns A s : replayed st (ns, A) -> hsample_ok s ->
  replayed (replay_sample mv st s) (ns, mean_sample mv ns A s)
  /\ h_minValid (rp_head (replay_sample mv st s)) = h_minValid (rp_head st).
Proof.
  intros [Hi Hn] (_ & Ht & Hv). cbn [fst snd] in *. unfold replay_sample, mean_sample.
  pose proof (Hn (hs_ID s)) as Hs. destruct (ns !! hs_ID s) as [key|].
  2: { rewrite Hs. by split. }
  destruct Hs as (sid & -> & Hsh). destruct (hi_shard _ _ Hi _ _ Hsh) as (ms & ss & Hms & Hmid & HK & HA & Hsi).
  unfold spec_apply. rewrite Hms, HA.
  destruct (appendTo_spec _ mv (hs_T s) (hs_V s) ms ss Hsi Ht Hv) as (ms' & -> & Hsi' & Hid' & Href' & _).
  destruct (append_spec mv (hs_T s) (hs_V s) ss) as [ss' r]. cbn [fst snd] in *.
  assert (Hinv : head_inv (on_series sid (fun _ => ms') (rp_head st)) (<[key := (ms_ref ms, ss')]> A)).
  { rewrite <- HK. by apply on_series_inv. }
  destruct r as [[]|e]; done.
Qed.

Lemma replay_samples_spec mv ns ss : forall st A, replayed st (ns, A) -> Forall hsample_ok ss ->
  replayed (foldl (replay_sample mv) st ss) (ns, foldl (mean_sample mv ns) A ss)
  /\ h_minValid (rp_head (foldl (replay_sample mv) st ss)) = h_minValid (rp_head st).
Proof.
  induction ss as [|s ss IH]; intros st A Hr Hs; cbn [foldl]; [done|]. apply Forall_cons_1 in Hs as [Hs Hss].
  destruct (replay_sample_spec mv st ns A s Hr Hs) as [H1 E1]. destruct (IH _ _ H1 Hss) as [H2 E2].
  split; [done|congruence].
Qed.

Lemma replay_records_spec mv log : forall st m, replayed st m -> Forall entry_ok log ->
  exists st', replay_records mv st (record_of <$> log) = Ok st' /\ replayed st' (foldl (mean_entry mv) m log)
    /\ h_minValid (rp_head st') = h_minValid (rp_head st).
Proof.
  induction log as [|e log IH]; intros st [ns A] Hr Hok; cbn [fmap list_fmap replay_records foldl]; [eauto|].
  apply Forall_cons_1 in Hok as [He Hok]. destruct e as [id ref|ss]; cbn [record_of].
  - destruct He as [Hid Href]. destruct (replay_series mv st (ns, A) id ref Hr Hid Href) as (st1 & -> & Hr1 & E1).
    destruct (IH _ _ Hr1 Hok) as (st' & -> & Hr' & E'). exists st'. split_and!; [done|done|congruence].
  - destruct He as [Hss Hlen]. unfold replay_record. cbn [rec_Type rec_Data].
    change (RecordSamples =? RecordSeries) with false. rewrite Z.eqb_refl, decodeSamples_enc by done. cbn [app].
    destruct (replay_samples_spec mv ns ss st A Hr Hss) as [Hr1 E1].
    destruct (IH _ _ Hr1 Hok) as (st' & -> & Hr' & E'). exists st'. split_and!; [done|done|congruence].
Qed.

Lemma replayed_start (h : Head W) : head_inv h ∅ -> replayed (MkReplaying h ∅ 0 0) (∅, ∅).
Proof. intros Hi. constructor; cbn; [done|]. intros id. by rewrite !lookup_empty. Qed.

Lemma Replay_spec d (h : Head W) log r : head_inv h ∅ -> Forall entry_ok log ->
  replay d = (record_of <$> log, r) -> rd_err r = None ->
  exists h' stats, Replay d h = Ok (h', stats) /\ head_inv h' (log_meaning (h_minValid h) log).2.
Proof.
  intros Hi Hok Hd Hr. unfold Replay. rewrite Hd.
  destruct (replay_records_spec (h_minValid h) log _ _ (replayed_start h Hi) Hok) as (st & -> & Hst & _).
  rewrite Hr. do 2 eexists. split; [done|]. apply Hst.
Qed.
End Replaying.

(** ** What a log promises the head *)

Class LoggerLaws (W : Type) `{Logger W} := {
  lg_holds : W -> list Record_ -> Prop;
  lg_Log_ok w l recs w' : lg_holds w l -> Forall bytes_ok recs -> lg_Log recs w = (w', Ok tt) -> lg_holds w' (l ++ recs);
  lg_Sync_ok w l w' : lg_holds w l -> lg_Sync w = (w', Ok tt) -> lg_holds w' l;
}.

Definition wal_holds (w : WAL) (l : list Record_) : Prop :=
  exists c m tail, wal_inv w c m tail /\ contents c ++ contents m = l.

Lemma wal_Log_holds w l recs w' : wal_holds w l -> Forall bytes_ok recs -> Log recs w = (w', Ok tt) ->
  wal_holds w' (l ++ recs).
Proof.
  intros (c & m & tail & Hi & <-) Hb E.
  destruct (Log_inv recs w c m tail Hi Hb) as (pre & m' & tail' & w1 & res & E1 & Hi1 & Hc & _ & Hr).
  rewrite E in E1. injection E1 as <- <-. exists c, m', tail'. split; [done|].
  by rewrite Hc, (Hr eq_refl), app_assoc.
Qed.

Lemma wal_Sync_holds w l w' : wal_holds w l -> Sync w = (w', Ok tt) -> wal_holds w' l.
Proof.
  intros (c & m & tail & Hi & <-) E. unfold Sync in E. rewrite (bind_ok get _ w w w) in E by done.
  destruct (w_closed w); [done|]. destruct (w_broken w); [done|].
  destruct (f_other_spec w) as (s & b & E1 & _). rewrite (bind_ok _ _ _ _ _ E1) in E.
  destruct b; [|done]. injection E as <-. exists c, m, tail. split; [|done].
  destruct Hi as [(n & rs & Hf) Hc]. constructor; [by exists n, rs|done].
Qed.

#[export] Instance WAL_laws : LoggerLaws WAL :=
  {| lg_holds := wal_holds; lg_Log_ok := wal_Log_holds; lg_Sync_ok := wal_Sync_holds |}.

(** ** Naming the pending series *)

(** References the log can carry. *)
Record ref_ok (ref : SeriesRef) : Prop := {
  ro_sized : ref_sized ref;
  ro_metric : Forall is_byte (sr_Metric ref);
  ro_tags : Forall (fun t => Forall is_byte (t_Key t) /\ Forall is_byte (t_Value t)) (sr_Tags ref);
}.

(** Defining series that are in the later store, one after another, adds exactly
    those missing. *)
Lemma name_all_store (l : list (Z * SeriesRef)) : forall (ns : names) (A A1 : store),
  (forall id ref, (id, ref) ∈ l -> A !! Key ref = None -> A1 !! Key ref = Some (ref, [])) ->
  (forall key, A1 !! key = A !! key
     \/ (A !! key = None /\ exists id ref, (id, ref) ∈ l /\ Key ref = key /\ A1 !! key = Some (ref, []))) ->
  (foldl (fun m x => name_series x.1 x.2 m) (ns, A) l).2 = A1.
Proof.
  induction l as [|[id ref] l IH]; intros ns A A1 Hnew Hkeys; cbn [foldl].
  { apply map_eq. intros key. destruct (Hkeys key) as [->|(_ & ? & ? & Hin & _)]; [done|]. by apply not_elem_of_nil in Hin. }
  unfold name_series at 2. cbn [fst snd].
  assert (Hother : forall key, A1 !! key = A !! key -> A !! key = None -> key <> Key ref).
  { intros key E EN ->. rewrite (Hnew id ref) in E by (done || by left). congruence. }
  apply IH.
  - intros id' ref' Hin HA. apply (Hnew id'); [by right|]. destruct (A !! Key ref) eqn:E; [done|].
    apply lookup_insert_None in HA. tauto.
  - intros key. destruct (Hkeys key) as [E|(EN & id' & ref' & Hin & HK & E)].
    + left. destruct (A !! Key ref) eqn:ER; [done|]. destruct (decide (key = Key ref)) as [->|Hne].
      * by destruct (Hother _ E ER).
      * by rewrite lookup_insert_ne.
    + destruct (decide (key = Key ref)) as [->|Hne].
      * left. rewrite EN, lookup_insert_eq. apply (Hnew id); [by left|done].
      * right. apply elem_of_cons in Hin as [[= -> ->]|Hin]; [by rewrite HK in Hne|].
        split; [|eauto 10]. destruct (A !! Key ref); [done|]. by rewrite lookup_insert_ne.
Qed.

Lemma name_all_names (l : list (Z * SeriesRef)) : forall (m : names * store),
  (foldl (fun m x => name_series x.1 x.2 m) m l).1 = foldl (fun ns x => <[x.1 := Key x.2]> ns) m.1 l.
Proof. induction l as [|[id ref] l IH]; intros m; cbn [foldl]; [done|]. by rewrite IH. Qed.

(** ** Applying logged samples *)

Lemma mean_samples_apply mv (ns : names) b : forall ress outs A, length ress = length outs ->
  Forall2 (fun x ro => match ro.1 with
     | Ok _ => exists id, ro.2 = Some (MkHSample id (hs_T x.2) (hs_V x.2)) /\ ns !! id = Some (Key x.1)
     | Err _ => ro.2 = None end) b (zip ress outs) ->
  foldl (mean_sample mv ns) A (omap id outs) = (spec_apply_all mv b ress A).1.
Proof.
  induction b as [|[ref s] b IH]; intros [|res ress] [|o outs] A Hl Hf; try done;
    cbn [zip zip_with] in Hf; try by inversion Hf.
  apply Forall2_cons_1 in Hf as [Hx Hf]. cbn [fst snd] in Hx. cbn [spec_apply_all]. destruct res as [u|e].
  - destruct Hx as (id' & -> & Hn). cbn [omap list_omap id foldl].
    unfold mean_sample at 2. cbn [hs_ID hs_T hs_V]. rewrite Hn.
    destruct (spec_apply mv (Key ref) (hs_T s) (hs_V s) A) as [A1 r]. cbn [fst].
    rewrite (IH ress outs A1) by (done || cbn in Hl; lia). by destruct (spec_apply_all mv b ress A1).
  - subst o. cbn [omap list_omap id]. rewrite (IH ress outs A) by (done || cbn in Hl; lia).
    by destruct (spec_apply_all mv b ress A).
Qed.

Lemma mean_chunks mv (chunks : list (list HSample)) : forall m : names * store,
  foldl (mean_entry mv) m (ESamples <$> chunks) = (m.1, foldl (mean_sample mv m.1) m.2 (concat chunks)).
Proof.
  induction chunks as [|c chunks IH]; intros m; cbn [fmap list_fmap foldl concat]; [by destruct m|].
  fold (@fmap list list_fmap _ _ ESamples chunks). rewrite IH. cbn [mean_entry fst snd]. by rewrite foldl_app.
Qed.

(** ** Live entries

    What a commit logs concerns series that are in the store, under the reference
    they have there, and samples the bound admits. *)

Definition known (m : names * store) (s : HSample) : Prop := exists key, m.1 !! hs_ID s = Some key /\ is_Some (m.2 !! key).

Definition entry_live (mv : Z) (m : names * store) (e : entry) : Prop :=
  match e with
  | ESeries id ref => exists ss, (name_series id ref m).2 !! Key ref = Some (ref, ss)
  | ESamples ss => Forall (fun s => mv <= hs_T s /\ known m s) ss
  end.

Fixpoint live (mv : Z) (m : names * store) (log : list entry) : Prop :=
  match log with
  | [] => True
  | e :: rest => entry_live mv m e /\ live mv (mean_entry mv m e) rest
  end.

Lemma live_app mv log1 : forall m log2, live mv m (log1 ++ log2) <-> live mv m log1 /\ live mv (foldl (mean_entry mv) m log1) log2.
Proof. induction log1 as [|e log1 IH]; intros m log2; cbn [app live foldl]; [tauto|]. rewrite IH. tauto. Qed.

Lemma mean_sample_keys mv ns A s key : is_Some (mean_sample mv ns A s !! key) <-> is_Some (A !! key).
Proof.
  unfold mean_sample, spec_apply. destruct (ns !! hs_ID s) as [k|]; [|done]. destruct (A !! k) as [[ref ss]|] eqn:E; [|done].
  destruct (append_spec _ _ _ _). cbn [fst]. destruct (decide (key = k)) as [->|]; [|by rewrite lookup_insert_ne]. rewrite lookup_insert_eq, E. split; eauto.
Qed.
Lemma mean_samples_keys mv ns ss key : forall A, is_Some (foldl (mean_sample mv ns) A ss !! key) <-> is_Some (A !! key).
Proof. induction ss as [|s ss IH]; intros A; cbn [foldl]; [done|]. by rewrite IH, mean_sample_keys. Qed.

Lemma live_chunks mv chunks : forall m, Forall (fun s => mv <= hs_T s /\ known m s) (concat chunks) -> live mv m (ESamples <$> chunks).
Proof.
  induction chunks as [|c chunks IH]; intros m Hall; [done|]. cbn [concat] in Hall. apply Forall_app in Hall as [Hc Hr]. rewrite fmap_cons. cbn [live]. split; [done|].
  apply IH. eapply Forall_impl; [exact Hr|]. intros s (Ht & key & Hk & HA). split; [done|]. exists key. split; [done|]. by apply mean_samples_keys.
Qed.

Lemma live_names mv (l : list (Z * SeriesRef)) : forall ns (A A1 : store),
  (forall id ref, (id, ref) ∈ l -> exists ss, A1 !! Key ref = Some (ref, ss)) ->
  (forall id ref, (id, ref) ∈ l -> A !! Key ref = None -> A1 !! Key ref = Some (ref, [])) ->
  (forall key, A !! key = None \/ A !! key = A1 !! key) -> live mv (ns, A) (uncurry ESeries <$> l).
Proof.
  induction l as [|[id ref] l IH]; intros ns A A1 Hin Hnew Hsub; [done|]. rewrite fmap_cons. cbn [live uncurry entry_live mean_entry].
  assert (Hown : exists ss, (name_series id ref (ns, A)).2 !! Key ref = Some (ref, ss)).
  { unfold name_series. cbn [snd]. destruct (A !! Key ref) as [e|] eqn:E; [|rewrite lookup_insert_eq; eauto].
    destruct (Hin id ref) as [ss Hs]; [by left|]. destruct (Hsub (Key ref)) as [E'|E']; [congruence|]. exists ss. congruence. }
  split; [done|]. unfold name_series. cbn [fst snd]. apply (IH _ _ A1).
  - intros id' ref' H. apply (Hin id'). by right.
  - intros id' ref' H HA. apply (Hnew id'); [by right|]. destruct (A !! Key ref); [done|]. apply lookup_insert_None in HA. tauto.
  - intros key. destruct (A !! Key ref) eqn:E; [apply Hsub|]. destruct (decide (key = Key ref)) as [->|]; [|rewrite lookup_insert_ne by done; apply Hsub].
    right. rewrite lookup_insert_eq. symmetry. apply (Hnew id); [by left|done].
Qed.

Section Durable.
Context {W : Type} `{Logger W}.
Implicit Types h : Head W.

(** ** Every series marked as logged is named by the log *)

Definition named (h : Head W) (ns : names) : Prop :=
  forall id ms, h_byID h !! id = Some ms -> ms_logged ms = true -> ns !! id = Some (Key (ms_ref ms)).

Lemma named_sub h h' ns : h_byID h' ⊆ h_byID h -> named h ns -> named h' ns.
Proof. intros Hs Hn id ms Hid. apply Hn. by eapply lookup_weaken. Qed.

Lemma named_new h id ref nextID ns : named h ns -> named (index_series id ref false nextID h) ns.
Proof.
  intros Hn id' ms Hid Hl. cbn in Hid. apply lookup_insert_Some in Hid as [[<- <-]|[_ Hid]]; [done|]. by apply Hn.
Qed.

Lemma forget_sub id ref h : h_byID (forget id ref h) ⊆ h_byID h.
Proof. unfold forget. destruct (h_byID h !! id); [apply delete_subseteq|done]. Qed.

Lemma finish_sub created dropped rejected h : h_byID (finish created dropped rejected h).1 ⊆ h_byID h.
Proof.
  unfold finish. cbn [fst]. transitivity (h_byID (if 0 <? dropped then add_dropped dropped h else h)).
  2: by destruct (0 <? dropped).
  generalize (if 0 <? dropped then add_dropped dropped h else h). clear h. unfold forgetEmpty.
  induction created as [|id created IH]; intros h; cbn [foldl]; [done|]. etrans; [apply IH|].
  unfold forget_if_empty. destruct (h_byID h !! id) as [ms|]; [|done]. destruct (ms_chunks ms); [apply forget_sub|done].
Qed.

(** *** Resolving *)

Lemma getOrCreate_byID ref h h' res : getOrCreate ref h = (h', res) ->
  h_nextID h <= h_nextID h' <= h_nextID h + 1 /\
  ((h_byID h' = h_byID h /\ forall id, res <> Ok (id, true))
   \/ exists id, h_nextID h < id /\ res = Ok (id, true) /\ h' = index_series id ref false id h).
Proof.
  unfold getOrCreate. destruct (h_shards h !! Key ref) as [id|].
  - intros [= <- <-]. split; [lia|]. left. split; [done|]. by intros id' [=].
  - destruct (_ && _); intros [= <- <-]; cbn [h_nextID add_limitHit index_series with_ids]; (split; [lia|]).
    + by left.
    + right. eexists. split; [|done]. lia.
Qed.

(** The series created so far are unlogged, and each has a sample. *)
Definition unlogged (r : @resolving W) : Prop :=
  forall id, id ∈ rv_created r -> is_logged (rv_head r) id = false /\ exists s, Some s ∈ rv_out r /\ hs_ID s = id.

Lemma resolve_one_log mv i ref s r ns : named (rv_head r) ns -> unlogged r ->
  let r' := resolve_one mv i ref s r in
  named (rv_head r') ns /\ unlogged r' /\ h_nextID (rv_head r) <= h_nextID (rv_head r') <= h_nextID (rv_head r) + 1.
Proof.
  intros Hn Hu. unfold resolve_one. destruct (hs_T s <? mv).
  { split_and!; [done| |cbn; lia..]. intros id Hid. destruct (Hu id Hid) as (? & s' & Hs' & ?). split; [done|].
    exists s'. split; [|done]. cbn [rv_out]. apply elem_of_app. by left. }
  destruct (getOrCreate ref (rv_head r)) as [h' res] eqn:Eg.
  apply getOrCreate_byID in Eg as [Hnx [[Eb Hnew]|(id & _ & -> & ->)]].
  - assert (Hn' : named h' ns) by (apply (named_sub (rv_head r)); [by rewrite Eb|done]).
    destruct res as [[id [|]]|e]; [by destruct (Hnew id)| |];
      (split_and!; [done| |cbn [rv_head]; lia..]); intros id' Hid'; cbn [rv_head rv_out rv_created] in *;
      destruct (Hu id' Hid') as (Hl & s' & Hs' & ?); unfold is_logged; rewrite Eb; (split; [done|]);
      exists s'; (split; [|done]); apply elem_of_app; by left.
  - split_and!; cbn [rv_head]; [by apply named_new| |lia|lia]. intros id' Hid'. cbn [rv_head rv_out rv_created] in *.
    destruct (decide (id' = id)) as [->|Hne].
    + split; [unfold is_logged; cbn; by rewrite lookup_insert_eq|]. eexists. split; [apply elem_of_app; right; by left|done].
    + apply elem_of_app in Hid' as [Hid'|Hid']; [|by apply list_elem_of_singleton in Hid'].
      destruct (Hu id' Hid') as (Hl & s' & Hs' & ?). split.
      * unfold is_logged in *. cbn. by rewrite lookup_insert_ne.
      * exists s'. split; [|done]. apply elem_of_app. by left.
Qed.

Lemma resolve_log mv b ns : forall i r, named (rv_head r) ns -> unlogged r ->
  let r' := resolve mv i b r in
  named (rv_head r') ns /\ unlogged r'
  /\ h_nextID (rv_head r) <= h_nextID (rv_head r') <= h_nextID (rv_head r) + Z.of_nat (length b).
Proof.
  induction b as [|[ref s] b IH]; intros i r Hn Hu; cbn [resolve length]; [split_and!; [done|done|lia..]|].
  destruct (resolve_one_log mv i ref s r ns Hn Hu) as (Hn1 & Hu1 & Hx1).
  destruct (IH (i + 1) _ Hn1 Hu1) as (Hn2 & Hu2 & Hx2). split_and!; [done|done|lia..].
Qed.

(** *** Series that are all in the log *)

Definition all_logged (h : Head W) : Prop := forall id ms, h_byID h !! id = Some ms -> ms_logged ms = true.

(** What the resolve loop creates has a new id. *)
Definition created_in (h0 : Head W) (r : @resolving W) : Prop :=
  h_nextID h0 <= h_nextID (rv_head r)
  /\ forall id ms, h_byID (rv_head r) !! id = Some ms -> h_byID h0 !! id = Some ms \/ (h_nextID h0 < id /\ id ∈ rv_created r).

Lemma resolve_created mv b h0 : forall i r, created_in h0 r -> created_in h0 (resolve mv i b r).
Proof.
  induction b as [|[ref s] b IH]; intros i r Hc; cbn [resolve]; [done|]. apply IH. destruct Hc as [Hn Hc]. unfold resolve_one.
  destruct (hs_T s <? mv); [by split|]. destruct (getOrCreate ref (rv_head r)) as [h' res] eqn:Eg.
  apply getOrCreate_byID in Eg as [Hnx [[Eb Hnew]|(id & Hid0 & -> & ->)]].
  - assert (Hc' : h_nextID h0 <= h_nextID h' /\ forall id ms, h_byID h' !! id = Some ms -> h_byID h0 !! id = Some ms \/ (h_nextID h0 < id /\ id ∈ rv_created r)) by (rewrite Eb; split; [lia|done]).
    destruct res as [[id [|]]|e]; [by destruct (Hnew id)|exact Hc'|exact Hc'].
  - split; cbn [rv_head rv_created]; [lia|]. intros id' ms Hid. cbn in Hid. apply lookup_insert_Some in Hid as [[<- _]|[_ Hid]].
    + right. split; [|apply elem_of_app; right; by left]. lia.
    + destruct (Hc _ _ Hid) as [?|[? ?]]; [by left|right]. split; [done|]. apply elem_of_app. by left.
Qed.

(** *** Marking *)

Record marking (outs : list (option HSample)) (h h' : Head W) (p p' : list Z) : Prop := {
  mk_byID id ms' : h_byID h' !! id = Some ms' -> exists ms, h_byID h !! id = Some ms /\ ms_ref ms' = ms_ref ms
    /\ ms_id ms' = ms_id ms /\ (ms_logged ms' = true -> ms_logged ms = true \/ id ∈ p');
  mk_some id : is_Some (h_byID h !! id) -> is_Some (h_byID h' !! id);
  mk_out s : Some s ∈ outs -> is_logged h' (hs_ID s) = true;
  mk_logged id : is_logged h id = true -> is_logged h' id = true;
  mk_pending id : id ∈ p' -> id ∈ p \/ is_logged h id = false;
  mk_prefix id : id ∈ p -> id ∈ p';
}.

Lemma mark_pending_log outs : forall h p, let '(h', p') := mark_pending outs h p in marking outs h h' p p'.
Proof.
  induction outs as [|[s|] outs IH]; intros h p; cbn [mark_pending].
  - constructor; [|done|intros s Hs; by apply not_elem_of_nil in Hs|done|by left|done].
    intros id ms' E. exists ms'. auto.
  - destruct (is_logged h (hs_ID s)) eqn:El.
    + specialize (IH h p). destruct (mark_pending outs h p) as [h' p']. destruct IH as [H1 H1' H2 H3 H4 H5].
      constructor; [done|done| |done|done|done].
      intros s' Hs. apply elem_of_cons in Hs as [[= ->]|Hs]; auto.
    + set (h1 := on_series (hs_ID s) (set_logged true) h). specialize (IH h1 (p ++ [hs_ID s])).
      destruct (mark_pending outs h1 (p ++ [hs_ID s])) as [h' p']. destruct IH as [H1 H1' H2 H3 H4 H5].
      assert (Hmono : forall id, is_logged h id = true -> is_logged h1 id = true).
      { intros id Hid. unfold is_logged in *. cbn. destruct (decide (id = hs_ID s)) as [->|Hne].
        - rewrite lookup_alter_eq. by destruct (h_byID h !! hs_ID s).
        - by rewrite lookup_alter_ne. }
      assert (Hlast : hs_ID s ∈ p ++ [hs_ID s]) by (apply elem_of_app; right; by left).
      constructor; [| | |by auto| |intros id Hid; apply H5, elem_of_app; by left].
      * intros id ms' Hms'. destruct (H1 id ms' Hms') as (ms1 & E1 & Er & Ei & Hl). cbn in E1.
        destruct (decide (id = hs_ID s)) as [->|Hne].
        -- rewrite lookup_alter_eq in E1. destruct (h_byID h !! hs_ID s) as [ms|]; [|done]. injection E1 as <-.
           exists ms. split_and!; auto.
        -- rewrite lookup_alter_ne in E1 by done. eauto.
      * intros id Hid. apply H1'. cbn. by apply lookup_alter_is_Some.
      * intros s' Hs. apply elem_of_cons in Hs as [[= ->]|Hs]; [|by auto]. apply H3. unfold is_logged. cbn.
        rewrite lookup_alter_eq. by destruct (h_byID h !! hs_ID s).
      * intros id Hid. destruct (H4 id Hid) as [Hin|Hl].
        -- apply elem_of_app in Hin as [?|Hin]; [by left|]. apply list_elem_of_singleton in Hin as ->. by right.
        -- right. destruct (is_logged h id) eqn:E; [|done]. apply Hmono in E. congruence.
  - specialize (IH h p). destruct (mark_pending outs h p) as [h' p']. destruct IH as [H1 H1' H2 H3 H4 H5].
    constructor; [done|done| |done|done|done].
    intros s' Hs. apply elem_of_cons in Hs as [[=]|Hs]; auto.
Qed.

(** The definitions a commit logs. *)
Definition definitions (p : list Z) (h : Head W) : list (Z * SeriesRef) :=
  omap (fun id => (fun ms => (ms_id ms, ms_ref ms)) <$> h_byID h !! id) p.

Lemma elem_of_definitions p h A id ref : head_inv h A ->
  (id, ref) ∈ definitions p h <-> id ∈ p /\ exists ms, h_byID h !! id = Some ms /\ ms_ref ms = ref.
Proof.
  intros Hi. unfold definitions. rewrite list_elem_of_omap. split.
  - intros (id' & Hin & E). destruct (h_byID h !! id') as [ms|] eqn:Em; [|done]. injection E as E1 E2.
    destruct (hi_series _ _ _ _ Hi Em) as (_ & Hid & _). assert (id' = id) as -> by congruence. eauto.
  - intros (Hin & ms & Em & <-). exists id. split; [done|]. rewrite Em. cbn.
    destruct (hi_series _ _ _ _ Hi Em) as (_ & -> & _). done.
Qed.

Lemma names_lookup (l : list (Z * SeriesRef)) id key : forall ns : names,
  (forall ref, (id, ref) ∈ l -> Key ref = key) -> (ns !! id = Some key \/ exists ref, (id, ref) ∈ l) ->
  foldl (fun ns x => <[x.1 := Key x.2]> ns) ns l !! id = Some key.
Proof.
  induction l as [|[id' ref'] l IH]; intros ns Hk Hor; cbn [foldl fst snd].
  { destruct Hor as [?|[ref Hin]]; [done|]. by apply not_elem_of_nil in Hin. }
  apply IH; [intros ref Hin; apply Hk; by right|]. destruct (decide (id' = id)) as [->|Hne].
  - left. rewrite lookup_insert_eq, (Hk ref'); [done|by left].
  - rewrite lookup_insert_ne by done. destruct Hor as [?|[ref Hin]]; [by left|].
    apply elem_of_cons in Hin as [[= ? ?]|Hin]; [congruence|]. eauto.
Qed.

Lemma marked_named outs h h1 p ns A : marking outs h h1 [] p -> head_inv h1 A -> named h ns ->
  named h1 (foldl (fun ns x => <[x.1 := Key x.2]> ns) ns (definitions p h1)).
Proof.
  intros Hm Hi Hn id ms Hms Hl. apply names_lookup.
  - intros ref Hin. apply (elem_of_definitions _ _ A) in Hin as (_ & ms' & Hms' & <-); [|done]. congruence.
  - destruct (mk_byID _ _ _ _ _ Hm _ _ Hms) as (ms0 & Hms0 & Er & _ & Hor).
    destruct (Hor Hl) as [Hl0|Hin]; [left; rewrite Er; by apply Hn|right].
    exists (ms_ref ms). apply (elem_of_definitions _ _ A); eauto.
Qed.

(** ** What a commit writes means what it does *)

Section Meaning.
Context (A A1 : store) (b : batch) (mv : Z) (r : @resolving W) (ress : list (result head_error unit))
        (outs : list (option HSample)) (ns : names) (h1 : Head W) (pending : list Z).
Hypothesis Hi : head_inv (rv_head r) A1.
Hypothesis Hi1 : head_inv h1 A1.
Hypothesis Hcr : creating A A1 (rv_head r) (rv_created r).
Hypothesis Hun : unlogged r.
Hypothesis Hout : rv_out r = outs.
Hypothesis Hl : length ress = length outs.
Hypothesis Hf : Forall2 (resolved (rv_head r)) b (zip ress outs).
Hypothesis Hn : named (rv_head r) ns.
Hypothesis Hm : marking outs (rv_head r) h1 [] pending.

Lemma defined_new id ref : (id, ref) ∈ definitions pending h1 -> A !! Key ref = None -> A1 !! Key ref = Some (ref, []).
Proof.
  intros Hin HA. apply (elem_of_definitions _ _ A1) in Hin as (_ & ms & Hms & <-); [|done].
  destruct (hi_series _ _ _ _ Hi1 Hms) as (ss & _ & HA1 & _).
  destruct (cr_rest _ _ _ _ Hcr (Key (ms_ref ms))) as [E|(_ & ref' & id' & E & _)]; congruence.
Qed.

Lemma created_defined key : A1 !! key = A !! key \/ (A !! key = None
  /\ exists id ref, (id, ref) ∈ definitions pending h1 /\ Key ref = key /\ A1 !! key = Some (ref, [])).
Proof.
  destruct (cr_rest _ _ _ _ Hcr key) as [E|(E & ref & id & EA & Es & Hid)]; [by left|right]. split; [done|].
  destruct (hi_shard _ _ Hi _ _ Es) as (ms & ss & Hms & _ & HK & HA1 & _).
  assert (is_Some (h_byID h1 !! id)) as [ms1 Hms1] by (apply (mk_some _ _ _ _ _ Hm); eauto).
  destruct (mk_byID _ _ _ _ _ Hm _ _ Hms1) as (ms0 & Hms0 & Er & _ & Hor). rewrite Hms in Hms0. injection Hms0 as <-.
  assert (ms_ref ms = ref) as Href by congruence. exists id, ref. split_and!; [|congruence|done].
  apply (elem_of_definitions _ _ A1); [done|]. split; [|exists ms1; split; [done|congruence]].
  destruct (Hun id Hid) as (Hnl & s & Hs & <-). rewrite Hout in Hs. apply (mk_out _ _ _ _ _ Hm) in Hs.
  unfold is_logged in Hs, Hnl. rewrite Hms1 in Hs. rewrite Hms in Hnl. destruct (Hor Hs) as [?|?]; [congruence|done].
Qed.

Lemma commit_names : let l := definitions pending h1 in
  foldl (mean_entry mv) (ns, A) (uncurry ESeries <$> l) = (foldl (fun ns x => <[x.1 := Key x.2]> ns) ns l, A1).
Proof.
  intros l. assert (Hfold : forall m0, foldl (mean_entry mv) m0 (uncurry ESeries <$> l)
    = foldl (fun m x => name_series x.1 x.2 m) m0 l).
  { generalize l. intros l0. induction l0 as [|[id ref] l0 IH]; intros m0; [done|]. cbn. apply IH. }
  rewrite Hfold. rewrite (surjective_pairing (foldl _ (ns, A) l)). f_equal; [apply name_all_names|].
  apply name_all_store; [apply defined_new|apply created_defined].
Qed.

(** The samples of the commit name series of the store. *)
Lemma commit_known : let ns1 := foldl (fun ns x => <[x.1 := Key x.2]> ns) ns (definitions pending h1) in
  Forall2 (fun x ro => match ro.1 with
     | Ok _ => exists id, ro.2 = Some (MkHSample id (hs_T x.2) (hs_V x.2)) /\ ns1 !! id = Some (Key x.1)
     | Err _ => ro.2 = None end) b (zip ress outs)
  /\ forall s, s ∈ omap id outs -> known (ns1, A1) s.
Proof.
  intros ns1. pose proof (marked_named _ _ _ _ _ _ Hm Hi1 Hn) as Hn1.
  apply Forall2_same_length_lookup in Hf as [Hlen Hf'].
  assert (Hk : forall i x res o, b !! i = Some x -> zip ress outs !! i = Some (res, o) -> match res with
     | Ok _ => exists id, o = Some (MkHSample id (hs_T x.2) (hs_V x.2)) /\ ns1 !! id = Some (Key x.1) /\ is_Some (A1 !! Key x.1)
     | Err _ => o = None end).
  { intros i x res o Hx Hro. specialize (Hf' i x _ Hx Hro). unfold resolved in Hf'. cbn [fst snd] in *.
    destruct res; [|done]. destruct Hf' as (id & -> & Hs). exists id. split; [done|].
    apply list_elem_of_lookup_2, elem_of_zip_r, (mk_out _ _ _ _ _ Hm) in Hro. cbn [hs_ID] in Hro.
    destruct (hi_shard _ _ Hi _ _ Hs) as (ms & ss & Hms & _ & HK & HA & _).
    assert (is_Some (h_byID h1 !! id)) as [ms1 Hms1] by (apply (mk_some _ _ _ _ _ Hm); eauto).
    destruct (mk_byID _ _ _ _ _ Hm _ _ Hms1) as (ms0 & Hms0 & Er & _). rewrite Hms in Hms0. injection Hms0 as <-.
    unfold is_logged in Hro. rewrite Hms1 in Hro. split; [|by rewrite HA]. etrans; [exact (Hn1 id ms1 Hms1 Hro)|]. by rewrite Er, HK. }
  split.
  - apply Forall2_same_length_lookup. split; [done|]. intros i x [res o] Hx Hro. specialize (Hk i x res o Hx Hro). cbn [fst snd].
    destruct res; [|done]. destruct Hk as (id & H1 & H2 & _). eauto.
  - intros s Hs. apply list_elem_of_omap in Hs as (o & Ho & E). cbn in E. subst o. apply list_elem_of_lookup in Ho as [i Ho].
    assert (is_Some (ress !! i)) as [res Hres] by (apply lookup_lt_is_Some; rewrite Hl; by eapply lookup_lt_Some).
    assert (Hz : zip ress outs !! i = Some (res, Some s)) by (apply lookup_zip_with_Some; eauto 10).
    assert (is_Some (b !! i)) as [x Hx] by (apply lookup_lt_is_Some; rewrite Hlen; by eapply lookup_lt_Some).
    specialize (Hk i x res _ Hx Hz). destruct res; [|done]. destruct Hk as (id' & [= ->] & H2 & H3). exists (Key x.1). done.
Qed.

Lemma commit_meaning chunks : concat chunks = omap id outs ->
  let l := definitions pending h1 in
  let m := foldl (mean_entry mv) (ns, A) ((uncurry ESeries <$> l) ++ (ESamples <$> chunks)) in
  m.2 = (spec_apply_all mv b ress A1).1 /\ named h1 m.1.
Proof.
  intros Hch l m. unfold m, l. rewrite foldl_app, commit_names, mean_chunks. cbn [fst snd]. split; [|exact (marked_named _ _ _ _ _ _ Hm Hi1 Hn)].
  rewrite Hch. apply mean_samples_apply; [done|apply commit_known].
Qed.

Lemma commit_live chunks : concat chunks = omap id outs -> Forall (fun s => mv <= hs_T s) (omap id outs) ->
  live mv (ns, A) ((uncurry ESeries <$> definitions pending h1) ++ (ESamples <$> chunks)).
Proof.
  intros Hch Hmv. apply live_app. rewrite commit_names. split.
  - apply (live_names _ _ _ _ A1).
    + intros id ref Hin. apply (elem_of_definitions _ _ A1) in Hin as (_ & ms & Hms & <-); [|done].
      destruct (hi_series _ _ _ _ Hi1 Hms) as (ss & _ & HA1 & _). eauto.
    + apply defined_new.
    + intros key. destruct (created_defined key) as [->|[-> _]]; [by right|by left].
  - apply live_chunks. rewrite Hch. rewrite Forall_forall in Hmv. apply Forall_forall. intros s Hs. split; [by apply Hmv|by apply commit_known].
Qed.
End Meaning.

(** ** The records of a commit *)

Lemma series_recs_entries p h : series_recs p h = record_of <$> (uncurry ESeries <$> definitions p h).
Proof.
  unfold series_recs, definitions. induction p as [|id p IH]; [done|]. cbn [omap list_omap].
  destruct (h_byID h !! id) as [ms|]; cbn; [by f_equal|done].
Qed.

Lemma samples_entries valid : Forall hsample_ok valid ->
  exists chunks, samples_records valid = record_of <$> (ESamples <$> chunks) /\ concat chunks = valid
    /\ Forall entry_ok (ESamples <$> chunks) /\ Forall bytes_ok (samples_records valid).
Proof.
  intros Hv. unfold samples_records. rewrite maxSamplesPerRecord_val.
  destruct (split_samples_spec (S (length valid)) (Z.to_nat 599185) valid) as [Hcat Hall]; [lia|lia|].
  set (chunks := split_samples _ _ _) in *. exists chunks.
  assert (Hc : Forall (Forall hsample_ok) chunks) by (rewrite <- Hcat in Hv; by apply Forall_concat in Hv).
  split_and!; [by rewrite <- list_fmap_compose|done| |].
  - apply Forall_fmap, Forall_forall. intros c Hin. rewrite Forall_forall in Hc, Hall. split; [by apply Hc|].
    specialize (Hall c Hin). cbn beta in Hall. unfold int_len, ulen. lia.
  - apply Forall_fmap, Forall_forall. intros c Hin. rewrite Forall_forall in Hc. split; [unfold is_byte; cbn; unfold RecordSamples; lia|].
    apply encodeSamples_is_bytes, Hc, Hin.
Qed.

Lemma str_bytes_ok s : Forall is_byte s -> Forall is_byte (str_bytes s).
Proof. intros Hs. apply bytes_app; [apply uvarint_loop_bytes; unfold ulen; lia|done]. Qed.

Lemma encodeSeries_is_bytes id ref : is_u64 id -> ref_ok ref -> Forall is_byte (encodeSeries [] id ref).
Proof.
  intros Hid [_ Hm Ht]. unfold is_u64 in Hid. rewrite encodeSeries_bytes. cbn [app].
  apply bytes_app; [apply uvarint_loop_bytes; lia|]. apply bytes_app; [by apply str_bytes_ok|].
  apply bytes_app; [apply uvarint_loop_bytes; unfold ulen; lia|].
  induction Ht as [|t tags [Hk Hv] _ IH]; [constructor|]. rewrite bind_cons. apply bytes_app; [|done].
  apply bytes_app; by apply str_bytes_ok.
Qed.

Lemma definitions_ok p h A : head_inv h A -> h_nextID h < 2 ^ 64 ->
  (forall key ref ss, A !! key = Some (ref, ss) -> ref_ok ref) ->
  Forall entry_ok (uncurry ESeries <$> definitions p h) /\ Forall bytes_ok (series_recs p h).
Proof.
  intros Hi Hnx Hrefs.
  assert (Hd : forall id ref, (id, ref) ∈ definitions p h -> is_u64 id /\ ref_ok ref).
  { intros id ref Hin. apply (elem_of_definitions _ _ A) in Hin as (_ & ms & Hms & <-); [|done].
    destruct (hi_series _ _ _ _ Hi Hms) as (ss & _ & HA & _). split; [|by eapply Hrefs].
    assert (0 <= id <= h_nextID h) by (apply (hi_ids _ _ Hi); eauto). unfold is_u64. lia. }
  split.
  - apply Forall_fmap, Forall_forall. intros [id ref] Hin. destruct (Hd id ref Hin) as [Hid [Hsz _ _]]. by split.
  - rewrite series_recs_entries, <- list_fmap_compose. apply Forall_fmap, Forall_forall. intros [id ref] Hin.
    destruct (Hd id ref Hin) as [Hid Href]. split; [unfold is_byte; cbn; unfold RecordSeries; lia|].
    by apply encodeSeries_is_bytes.
Qed.

(** ** Applying keeps the names *)

Lemma appendTo_same r mv t v ms : same_series (appendTo r mv t v ms).1 ms.
Proof. unfold appendTo, append_sample. repeat case_match; simplify_eq; done. Qed.

Lemma apply_all_every mv (Q : Z -> SeriesRef -> bool -> Prop) outs : forall i (a : @applying W),
  (forall id ms, h_byID (ap_head a) !! id = Some ms -> Q id (ms_ref ms) (ms_logged ms)) ->
  forall id ms, h_byID (ap_head (apply_all mv i outs a)) !! id = Some ms -> Q id (ms_ref ms) (ms_logged ms).
Proof.
  induction outs as [|o outs IH]; intros i a Hn; cbn [apply_all]; [done|]. apply IH.
  unfold apply_one. destruct o as [s|]; [|done]. destruct (h_byID (ap_head a) !! hs_ID s) as [ms|] eqn:E; [|done].
  pose proof (appendTo_same (h_BlockRange (ap_head a)) mv (hs_T s) (hs_V s) ms) as Hsame.
  destruct (appendTo _ _ _ _ ms) as [ms' res]. cbn [fst] in Hsame.
  assert (Hn' : forall id ms1, h_byID (on_series (hs_ID s) (fun _ => ms') (ap_head a)) !! id = Some ms1 -> Q id (ms_ref ms1) (ms_logged ms1)).
  { destruct Hsame as (_ & Er & El). intros id ms1 Hid. cbn in Hid. destruct (decide (id = hs_ID s)) as [->|Hne].
    - rewrite lookup_alter_eq, E in Hid. injection Hid as <-. rewrite Er, El. by apply Hn.
    - rewrite lookup_alter_ne in Hid by done. by apply Hn. }
  destruct res; done.
Qed.

Lemma apply_all_named mv ns outs : forall i a, named (ap_head a) ns -> named (ap_head (apply_all mv i outs a)) ns.
Proof. intros i a Hn id ms Hid Hl. exact (apply_all_every mv (fun id ref l => l = true -> ns !! id = Some (Key ref)) outs i a Hn id ms Hid Hl). Qed.

Lemma finish_frame created dropped rejected h :
  h_nextID (finish created dropped rejected h).1 = h_nextID h /\ h_wal (finish created dropped rejected h).1 = h_wal h.
Proof.
  unfold finish. cbn [fst]. set (h0 := if 0 <? dropped then add_dropped dropped h else h).
  assert (h_nextID h0 = h_nextID h /\ h_wal h0 = h_wal h) as [<- <-] by (unfold h0; by destruct (0 <? dropped)).
  generalize h0. clear h h0. unfold forgetEmpty. induction created as [|id created IH]; intros h; cbn [foldl]; [done|].
  destruct (IH (forget_if_empty h id)) as [-> ->].
  unfold forget_if_empty, forget. destruct (h_byID h !! id) as [ms|]; [|done]. by destruct (ms_chunks ms).
Qed.

(** ** The references of a store *)

Definition refs_ok (A : store) : Prop := forall key ref ss, A !! key = Some (ref, ss) -> ref_ok ref.

Lemma refs_ok_insert A key ref ss : refs_ok A -> ref_ok ref -> refs_ok (<[key := (ref, ss)]> A).
Proof. intros HA Hr k ref' ss' E. apply lookup_insert_Some in E as [[_ [= <- <-]]|[_ E]]; [done|by eapply HA]. Qed.

Lemma resolve_refs max mv b : forall A, refs_ok A -> Forall (fun x => ref_ok x.1) b ->
  refs_ok (spec_resolve_all max mv b A).1.
Proof.
  induction b as [|[ref s] b IH]; intros A HA Hb; cbn [spec_resolve_all]; [done|]. apply Forall_cons_1 in Hb as [Hr Hb].
  assert (HA1 : refs_ok (spec_resolve max mv ref (hs_T s) A).1).
  { unfold spec_resolve. destruct (_ <? mv); [done|]. destruct (A !! Key ref); [done|]. destruct (_ && _); [done|].
    by apply refs_ok_insert. }
  destruct (spec_resolve max mv ref (hs_T s) A) as [A1 res]. specialize (IH A1 HA1 Hb).
  by destruct (spec_resolve_all max mv b A1).
Qed.

Lemma apply_refs mv b : forall ress A, refs_ok A -> refs_ok (spec_apply_all mv b ress A).1.
Proof.
  induction b as [|[ref s] b IH]; intros [|[u|e] ress] A HA; try done; cbn [spec_apply_all].
  - assert (HA1 : refs_ok (spec_apply mv (Key ref) (hs_T s) (hs_V s) A).1).
    { unfold spec_apply. destruct (A !! Key ref) as [[ref' ss]|] eqn:E; [|done].
      destruct (append_spec mv (hs_T s) (hs_V s) ss). apply refs_ok_insert; [done|by eapply HA]. }
    destruct (spec_apply mv (Key ref) (hs_T s) (hs_V s) A) as [A1 r]. specialize (IH ress A1 HA1).
    by destruct (spec_apply_all mv b ress A1).
  - specialize (IH ress A HA). by destruct (spec_apply_all mv b ress A).
Qed.

Lemma valid_ok h A b ress outs : head_inv h A -> h_nextID h < 2 ^ 64 -> batch_ok b ->
  Forall2 (resolved h) b (zip ress outs) -> length ress = length outs -> Forall hsample_ok (omap id outs).
Proof.
  intros Hi Hnx Hb. revert ress outs. induction Hb as [|[ref s] b [Ht Hv] _ IH]; intros [|res ress] [|o outs] Hf Hl;
    try done; cbn [zip zip_with] in Hf; try by inversion Hf.
  apply Forall2_cons_1 in Hf as [Hx Hf]. specialize (IH ress outs Hf ltac:(cbn in Hl; lia)).
  unfold resolved in Hx. cbn [fst snd] in *. destruct res; [|by subst o]. destruct Hx as (i & -> & Hs).
  cbn [omap list_omap id]. constructor; [|done]. split; [|done]. cbn [hs_ID].
  destruct (hi_shard _ _ Hi _ _ Hs) as (ms & ? & Hms & _).
  assert (0 <= i <= h_nextID h) by (apply (hi_ids _ _ Hi); eauto). unfold is_u64. lia.
Qed.

(** ** A commit the log accepted *)

Context `{!LoggerLaws W}.

Record durable (h : Head W) (log : list entry) (A : store) : Prop := {
  du_inv : head_inv h A;
  du_mean : (log_meaning (h_minValid h) log).2 = A;
  du_named : named h (log_meaning (h_minValid h) log).1;
  du_ok : Forall entry_ok log;
  du_refs : refs_ok A;
  du_wal : exists w, h_wal h = Some w /\ lg_holds w (record_of <$> log);
}.

Lemma logLocked_holds pending valid w h h' l : lg_holds w l ->
  Forall bytes_ok (series_recs pending h) -> Forall bytes_ok (samples_records valid) ->
  logLocked pending valid w h = (h', Ok tt) ->
  h_byID h' = h_byID h /\ h_nextID h' = h_nextID h
  /\ exists w', h_wal h' = Some w' /\ lg_holds w' (l ++ series_recs pending h ++ samples_records valid).
Proof.
  intros Hl Hb1 Hb2. unfold logLocked.
  assert (Hb : Forall bytes_ok (series_recs pending h ++ samples_records valid)) by (by apply Forall_app).
  destruct (lg_Log _ w) as [w1 [[]|e]] eqn:E; [|done]. pose proof (lg_Log_ok _ _ _ _ Hl Hb E) as H1.
  destruct (h_SyncOnAppend h).
  - destruct (lg_Sync w1) as [w2 res] eqn:E2. intros [= <- ->]. split_and!; [done|done|]. exists w2.
    split; [done|]. by eapply lg_Sync_ok.
  - intros [= <-]. eauto.
Qed.

(** What a commit adds to the log, and what that means. *)
Record commit_logged (h h' : Head W) (l : list Record_) (ns : names) (A A' : store) (n : nat) (log' : list entry) : Prop := {
  cl_ok : Forall entry_ok log';
  cl_wal : exists w, h_wal h' = Some w /\ lg_holds w (l ++ (record_of <$> log'));
  cl_mean : (foldl (mean_entry (h_minValid h)) (ns, A) log').2 = A';
  cl_named : named h' (foldl (mean_entry (h_minValid h)) (ns, A) log').1;
  cl_live : live (h_minValid h) (ns, A) log';
  cl_fresh : all_logged h -> forall id ref, ESeries id ref ∈ log' -> h_nextID h < id <= h_nextID h';
  cl_fun : forall id ref ref', ESeries id ref ∈ log' -> ESeries id ref' ∈ log' -> ref = ref';
  cl_logged : all_logged h -> all_logged h';
  cl_next : h_nextID h <= h_nextID h' <= h_nextID h + Z.of_nat n;
  cl_refs : refs_ok A';
}.

Lemma nothing_created r A A1 : creating A A1 (rv_head r) (rv_created r) -> unlogged r -> omap id (rv_out r) = [] -> A1 = A.
Proof.
  intros Hcr Hun Hv. apply map_eq. intros key.
  destruct (cr_rest _ _ _ _ Hcr key) as [E|(_ & _ & id' & _ & _ & Hin)]; [done|].
  destruct (Hun id' Hin) as (_ & s & Hs & _). exfalso. apply (not_elem_of_nil s). rewrite <- Hv.
  apply list_elem_of_omap. eauto.
Qed.

Lemma apply_all_frame mv outs : forall i (a : @applying W),
  h_nextID (ap_head (apply_all mv i outs a)) = h_nextID (ap_head a)
  /\ h_wal (ap_head (apply_all mv i outs a)) = h_wal (ap_head a).
Proof.
  induction outs as [|o outs IH]; intros i a; cbn [apply_all]; [done|]. destruct (IH (i + 1) (apply_one mv i o a)) as [-> ->].
  unfold apply_one. destruct o as [s|]; [|done]. destruct (h_byID (ap_head a) !! hs_ID s) as [ms|]; [|done].
  destruct (appendTo _ _ _ _ ms) as [ms' [?|?]]; done.
Qed.

(** The branch of a commit that logs. *)
Section Logged_branch.
Context (h : Head W) (l : list Record_) (ns : names) (A A1 : store) (b : batch) (r : @resolving W)
        (ress : list (result head_error unit)) (w : W).
Abbreviation mv := (h_minValid h).
Hypothesis Hholds : lg_holds w l.
Hypothesis Hmv : Forall (fun s => mv <= hs_T s) (omap id (rv_out r)).
Hypothesis Hb : batch_ok b.
Hypothesis Hi1 : head_inv (rv_head r) A1.
Hypothesis Hcr : creating A A1 (rv_head r) (rv_created r).
Hypothesis Hun : unlogged r.
Hypothesis Hnew : created_in h r.
Hypothesis Hl : length ress = length (rv_out r).
Hypothesis Hf : Forall2 (resolved (rv_head r)) b (zip ress (rv_out r)).
Hypothesis Hn : named (rv_head r) ns.
Hypothesis Hrefs : refs_ok A1.
Hypothesis Hnx : h_nextID (rv_head r) <= h_nextID h + Z.of_nat (length b).
Hypothesis Hnx' : h_nextID (rv_head r) < 2 ^ 64.

(** Marking leaves no series unlogged. *)
Lemma marked_all h1 pending : marking (rv_out r) (rv_head r) h1 [] pending -> all_logged h -> all_logged h1.
Proof.
  intros Hm Hall id ms' Hid. destruct (mk_byID _ _ _ _ _ Hm _ _ Hid) as (ms & Hms & _).
  assert (Hlog : is_logged h1 id = true); [|unfold is_logged in Hlog; by rewrite Hid in Hlog].
  destruct (proj2 Hnew _ _ Hms) as [H0|[_ Hcreated]].
  - apply (mk_logged _ _ _ _ _ Hm). unfold is_logged. rewrite Hms. by apply (Hall id).
  - destruct (Hun id Hcreated) as (_ & s & Hs & <-). by apply (mk_out _ _ _ _ _ Hm).
Qed.

Lemma defined_fresh h1 pending id ref : marking (rv_out r) (rv_head r) h1 [] pending -> head_inv h1 A1 -> all_logged h ->
  (id, ref) ∈ definitions pending h1 -> h_nextID h < id.
Proof.
  intros Hm Him Hall Hin. apply (elem_of_definitions _ _ A1) in Hin as (Hp & ms' & Hid & _); [|done].
  destruct (mk_byID _ _ _ _ _ Hm _ _ Hid) as (ms & Hms & _). destruct (mk_pending _ _ _ _ _ Hm _ Hp) as [Hp0|Hnl]; [by apply not_elem_of_nil in Hp0|].
  destruct (proj2 Hnew _ _ Hms) as [H0|[? _]]; [|done]. unfold is_logged in Hnl. rewrite Hms in Hnl. by rewrite (Hall _ _ H0) in Hnl.
Qed.

Lemma elem_of_series_entries (l0 : list (Z * SeriesRef)) chunks id ref : ESeries id ref ∈ (uncurry ESeries <$> l0) ++ (ESamples <$> chunks) <-> (id, ref) ∈ l0.
Proof.
  rewrite elem_of_app, !list_elem_of_fmap. split.
  - intros [([i r0] & [= -> ->] & H0)|(c & [=] & _)]. done.
  - intros Hin. left. by exists (id, ref).
Qed.

Lemma logged_branch h1 pending h2 :
  mark_pending (rv_out r) (rv_head r) [] = (h1, pending) ->
  logLocked pending (omap id (rv_out r)) w h1 = (h2, Ok tt) ->
  let a := apply_all mv 0 (rv_out r) (MkApplying h2 (rv_rejected r) (rv_dropped r) []) in
  exists log', commit_logged h (finish (rv_created r) (ap_dropped a) (ap_rejected a) (ap_head a)).1 l ns A
    (spec_apply_all mv b ress A1).1 (length b) log'.
Proof.
  intros Em El a. pose proof (mark_pending_log (rv_out r) (rv_head r) []) as Hmk.
  pose proof (mark_pending_sim (rv_out r) (rv_head r) [] A1 Hi1) as (Him & Hqm & _).
  rewrite Em in Hmk, Him, Hqm. cbn [fst] in *. pose proof (qs_next _ _ Hqm) as Hnm.
  destruct (definitions_ok pending h1 A1 Him ltac:(lia) Hrefs) as [Hd1 Hd2].
  pose proof (valid_ok _ _ _ _ _ Hi1 Hnx' Hb Hf Hl) as Hv.
  destruct (samples_entries _ Hv) as (chunks & Hrec & Hcat & Hc1 & Hc2).
  destruct (logLocked_holds _ _ _ _ _ _ Hholds Hd2 Hc2 El) as (Eb & En & w' & Ew & Hh).
  destruct (commit_meaning A A1 b mv r ress (rv_out r) _ h1 pending Hi1 Him Hcr Hun eq_refl Hl Hf Hn Hmk chunks Hcat)
    as [Hm Hnm1].
  pose proof (commit_live A A1 b mv r ress (rv_out r) _ h1 pending Hi1 Him Hcr Hun eq_refl Hl Hf Hn Hmk chunks Hcat Hmv) as Hlive.
  exists ((uncurry ESeries <$> definitions pending h1) ++ (ESamples <$> chunks)).
  pose proof (apply_all_named mv _ (rv_out r) 0 (MkApplying h2 (rv_rejected r) (rv_dropped r) [])
    (named_sub h1 h2 _ ltac:(by rewrite Eb) Hnm1)) as Hna. fold a in Hna.
  pose proof (apply_all_frame mv (rv_out r) 0 (MkApplying h2 (rv_rejected r) (rv_dropped r) [])) as [Ea1 Ea2].
  fold a in Ea1, Ea2. cbn [ap_head] in Ea1, Ea2.
  destruct (finish_frame (rv_created r) (ap_dropped a) (ap_rejected a) (ap_head a)) as [Ef1 Ef2].
  constructor; try done.
  - by apply Forall_app.
  - exists w'. split; [congruence|]. by rewrite fmap_app, <- Hrec, <- series_recs_entries.
  - by eapply named_sub; [apply finish_sub|].
  - intros Hall id ref Hin%elem_of_series_entries. split; [by eapply defined_fresh|].
    apply (elem_of_definitions _ _ A1) in Hin as (_ & ms & Hms & _); [|done].
    assert (0 <= id <= h_nextID h1) by (apply (hi_ids _ _ Him); eauto). rewrite Ef1, Ea1, En. lia.
  - intros id ref ref' Hin%elem_of_series_entries Hin'%elem_of_series_entries. apply (elem_of_definitions _ _ A1) in Hin as (_ & ms & Hms & <-); [|done].
    apply (elem_of_definitions _ _ A1) in Hin' as (_ & ms' & Hms' & <-); [|done]. congruence.
  - intros Hall id ms Hid. pose proof (lookup_weaken _ _ _ _ Hid (finish_sub _ _ _ _)) as Hid1.
    apply (apply_all_every mv (fun _ _ l => l = true) (rv_out r) 0 (MkApplying h2 (rv_rejected r) (rv_dropped r) [])) with (id := id); [|exact Hid1].
    cbn [ap_head]. rewrite Eb. by eapply marked_all.
  - pose proof (proj1 Hnew). lia.
  - by apply apply_refs.
Qed.
End Logged_branch.

Lemma resolve_bounded mv b : forall i (r : @resolving W), Forall (fun s => mv <= hs_T s) (omap id (rv_out r)) ->
  Forall (fun s => mv <= hs_T s) (omap id (rv_out (resolve mv i b r))).
Proof.
  induction b as [|[ref s] b IH]; intros i r Hr; cbn [resolve]; [done|]. apply IH. unfold resolve_one.
  destruct (Z.ltb_spec (hs_T s) mv) as [|Hle]; [|destruct (getOrCreate ref (rv_head r)) as [h [[id' isNew]|e]]]; cbn [rv_out]; rewrite omap_app; apply Forall_app; (split; [done|]);
    repeat constructor; done.
Qed.

Lemma append_logged h l ns A w refs samples h' stored rejected : head_inv h A -> named h ns -> refs_ok A ->
  h_wal h = Some w -> lg_holds w l ->
  length refs = length samples -> batch_ok (zip refs samples) -> Forall (fun x => ref_ok x.1) (zip refs samples) ->
  h_nextID h + Z.of_nat (length samples) < 2 ^ 64 ->
  HeadAppend refs samples h = (h', Some stored, rejected) ->
  exists log', commit_logged h h' l ns A (spec_append (h_MaxSeries h) (h_minValid h) (zip refs samples) A).1 (length samples) log'.
Proof.
  intros Hi Hnamed Hrefs Hw Hholds Hlen Hb Hbr Hnx. unfold HeadAppend.
  rewrite (proj2 (Nat.eqb_eq _ _) Hlen). cbn [negb].
  assert (Hls : length (zip refs samples) = length samples) by (rewrite length_zip_with; lia).
  set (b := zip refs samples) in *. set (mv := h_minValid h) in *.
  destruct (resolve_log mv b _ 0 (MkResolving h [] 0 [] []) Hnamed) as (Hn1 & Hun & _ & Hnx1).
  { intros id Hid. by apply not_elem_of_nil in Hid. }
  pose proof (resolve_created mv b h 0 (MkResolving h [] 0 [] []) ltac:(split; [cbn; lia|by left])) as Hnew.
  pose proof (resolve_bounded mv b 0 (MkResolving h [] 0 [] []) ltac:(constructor)) as Hbound.
  pose proof (resolve_sim mv b 0 (MkResolving h [] 0 [] []) A A Hi (creating_refl A h)) as Hrs. cbn [rv_head] in *.
  rewrite (two_phases (h_MaxSeries h) mv b A). pose proof (resolve_refs (h_MaxSeries h) mv b A Hrefs Hbr) as Hrefs1.
  destruct (spec_resolve_all (h_MaxSeries h) mv b A) as [A1 ress]. cbn [fst snd] in *.
  destruct Hrs as [Hi1 _ _ Hw1 _ (outs & Hout & Hl & Hf) Hcr]. cbn [rv_head rv_rejected rv_out app] in *.
  set (r := resolve mv 0 b _) in *. rewrite Hw. rewrite <- Hls in Hnx |- *.
  destruct (omap id (rv_out r)) as [|s0 valid] eqn:Ev.
  - intros [= <- _ _]. exists []. rewrite Hout in Ev.
    destruct (no_valid_all_rejected _ _ _ _ Hl Hf Ev mv A1) as [-> _]. cbn [fst].
    assert (A1 = A) as -> by (eapply nothing_created; [done|done|by rewrite Hout]).
    pose proof (finish_frame (rv_created r) (rv_dropped r) (rv_rejected r) (rv_head r)) as [Ex Ew].
    unfold finish in Ex, Ew. cbn [fst] in Ex, Ew. constructor; cbn [foldl]; try done.
    + exists w. rewrite app_nil_r. split; [congruence|done].
    + apply (named_sub (rv_head r)); [|done]. apply (finish_sub (rv_created r) (rv_dropped r) []).
    + intros _ id' ref' Hin. by apply not_elem_of_nil in Hin.
    + intros id' r1 r2 Hin. by apply not_elem_of_nil in Hin.
    + intros Hall id' ms Hid. pose proof (lookup_weaken _ _ _ _ Hid (finish_sub (rv_created r) (rv_dropped r) [] (rv_head r))) as Hid1.
      destruct (proj2 Hnew _ _ Hid1) as [H0|[_ Hc]]; [by apply (Hall id')|]. destruct (Hun id' Hc) as (_ & s & Hs & _). exfalso. apply (not_elem_of_nil s).
      rewrite <- Ev, <- Hout. apply list_elem_of_omap. eauto.
    + pose proof (proj1 Hnew). lia.
  - destruct (mark_pending (rv_out r) (rv_head r) []) as [h1 pending] eqn:Em. rewrite <- Ev.
    destruct (logLocked pending (omap id (rv_out r)) w h1) as [h2 [[]|e]] eqn:El; [|done].
    intros [= <- _ _]. rewrite <- Hout in Hl, Hf.
    eapply (logged_branch h l ns A A1 b r ress w); try done; [by rewrite Ev|lia].
Qed.

Lemma append_durable h log A refs samples h' stored rejected : durable h log A ->
  length refs = length samples -> batch_ok (zip refs samples) -> Forall (fun x => ref_ok x.1) (zip refs samples) ->
  h_nextID h + Z.of_nat (length samples) < 2 ^ 64 ->
  HeadAppend refs samples h = (h', Some stored, rejected) ->
  h_nextID h' <= h_nextID h + Z.of_nat (length samples) /\ h_minValid h' = h_minValid h
  /\ exists log', durable h' (log ++ log') (spec_append (h_MaxSeries h) (h_minValid h) (zip refs samples) A).1.
Proof.
  intros Hd Hlen Hb Hbr Hnx E.
  pose proof Hd as [_ Hmean Hnamed _ Hrefs (w & Hw0 & Hholds)].
  destruct (append_logged h _ _ A w refs samples h' stored rejected (du_inv _ _ _ Hd) Hnamed Hrefs Hw0 Hholds Hlen Hb Hbr Hnx E)
    as (log' & [Hok Hw Hm Hn _ _ _ _ Hx Hr]). rewrite <- fmap_app in Hw.
  pose proof (surjective_pairing (log_meaning (h_minValid h) log)) as Esp. rewrite Hmean in Esp. rewrite <- Esp in Hm, Hn.
  pose proof (HeadAppend_spec h A refs samples (du_inv _ _ _ Hd) Hlen Hb) as Hs. rewrite E in Hs.
  destruct (spec_append _ _ _ A) as [A' ress]. cbn [fst] in *. destruct Hs as ([_ _ _ Hmv] & Hi & _).
  split; [lia|]. split; [done|]. exists log'. constructor; rewrite ?Hmv; unfold log_meaning in *; rewrite ?foldl_app; try done.
  apply Forall_app. split; [apply Hd|done].
Qed.

(** ** Many commits *)

Fixpoint append_all (bs : list (list SeriesRef * list HSample)) (h : Head W) : Head W * list (option (list bool)) :=
  match bs with
  | [] => (h, [])
  | (refs, samples) :: rest =>
      let '(h1, stored, _) := HeadAppend refs samples h in
      let '(h2, more) := append_all rest h1 in (h2, stored :: more)
  end.

Definition commit_ok (x : list SeriesRef * list HSample) : Prop :=
  length x.1 = length x.2 /\ batch_ok (zip x.1 x.2) /\ Forall ref_ok x.1.

Lemma append_all_durable bs : forall h log A h' stored, durable h log A -> Forall commit_ok bs ->
  h_nextID h + Z.of_nat (length (bs ≫= snd)) < 2 ^ 64 ->
  append_all bs h = (h', stored) -> Forall (fun s => s <> None) stored ->
  h_minValid h' = h_minValid h /\ exists log' A', durable h' (log ++ log') A'.
Proof.
  induction bs as [|[refs samples] bs IH]; intros h log A h' stored Hd Hok Hnx E Hs; cbn [append_all] in E.
  { injection E as <- <-. split; [done|]. exists [], A. by rewrite app_nil_r. }
  apply Forall_cons_1 in Hok as [(Hlen & Hb & Hr) Hok]. cbn [fst snd] in *. rewrite bind_cons, length_app in Hnx. cbn [snd] in Hnx.
  destruct (HeadAppend refs samples h) as [[h1 st] rejected] eqn:E1. destruct (append_all bs h1) as [h2 more] eqn:E2.
  injection E as <- <-. apply Forall_cons_1 in Hs as [Hst Hs]. destruct st as [st|]; [|done].
  assert (Hbr : Forall (fun x => ref_ok x.1) (zip refs samples)).
  { apply Forall_forall. intros [ref s] Hin. apply elem_of_zip_l in Hin. by eapply Forall_forall in Hr. }
  destruct (append_durable _ _ _ _ _ _ _ _ Hd Hlen Hb Hbr ltac:(lia) E1) as (Hx & Hv1 & log1 & Hd1).
  destruct (IH _ _ _ _ _ Hd1 Hok ltac:(lia) E2 Hs) as (Hv2 & log2 & A2 & Hd2). split; [congruence|]. exists (log1 ++ log2), A2. by rewrite app_assoc.
Qed.
End Durable.

Lemma wal_Open_holds sz script w : Open (MkDir ∅ ∅) sz script = (w, Ok tt) -> wal_holds w [].
Proof. intros E. apply Open_empty in E. eexists _, _, _. split; [exact E|]. by rewrite contents_singleton. Qed.

Lemma NewHead_durable (w : WAL) range max sync : wal_holds w [] -> durable (NewHead (Some w) range max sync) [] ∅.
Proof.
  intros Hw. constructor; try done; [apply NewHead_inv|]. exists w. done.
Qed.

(** C3: whatever the disk did, as long as no commit was refused by the log, a
    restart loses nothing and invents nothing: replaying the log's files into a
    new head rebuilds the store the running head holds, series and samples
    alike, across segments, split batches, retries and rejected samples. *)
Theorem head_replay_durable bs range max sync sz script w0 h stored :
  Open (MkDir ∅ ∅) sz script = (w0, Ok tt) -> Forall commit_ok bs ->
  Z.of_nat (length (bs ≫= snd)) < 2 ^ 64 ->
  append_all bs (NewHead (Some w0) range max sync) = (h, stored) -> Forall (fun s => s <> None) stored ->
  exists A w h' stats, h_wal h = Some w /\ head_inv h A
    /\ Replay (w_dir w) (NewHead (None : option WAL) range max sync) = Ok (h', stats) /\ head_inv h' A.
Proof.
  intros Ho Hok Hn E Hs. pose proof (NewHead_durable w0 range max sync (wal_Open_holds _ _ _ Ho)) as Hd0.
  destruct (append_all_durable bs _ _ _ _ _ Hd0 Hok Hn E Hs) as (Hv & log & A & Hd). destruct Hd as [Hi Hm _ Hlok _ (w & Hw & c & m & tail & Hwi & Hc)].
  destruct (wal_inv_replay _ _ _ _ Hwi) as (r & Hr & He). cbn [app] in *. rewrite Hc in Hr.
  destruct (Replay_spec (w_dir w) (NewHead (None : option WAL) range max sync) log r) as (h' & stats & E' & Hi');
    [apply NewHead_inv|done|done|done|].
  exists A, w, h', stats. split_and!; try done. rewrite <- Hm, Hv. exact Hi'.
Qed.

Lemma example_refs_ok : Forall ref_ok example_refs.
Proof.
  assert (Hbool : forall ref, forallb (fun c => (0 <=? c) && (c <? 256)) (sr_Metric ref) = true ->
    forallb (fun t => forallb (fun c => (0 <=? c) && (c <? 256)) (t_Key t ++ t_Value t)) (sr_Tags ref) = true ->
    ref_sized ref -> ref_ok ref).
  { intros ref Hm Ht Hs. assert (Hb : forall s, forallb (fun c => (0 <=? c) && (c <? 256)) s = true -> Forall is_byte s).
    { intros s E. rewrite forallb_Forall in E. eapply Forall_impl; [exact E|]. intros c Hc. cbn beta in Hc. unfold is_byte. blia. }
    constructor; [done|by apply Hb|]. rewrite forallb_Forall in Ht. eapply Forall_impl; [exact Ht|].
    intros t E. apply Hb in E. by apply Forall_app in E. }
  repeat (apply Forall_cons; split; [apply Hbool; [vm_compute; reflexivity..|
    constructor; [vm_compute; done|vm_compute; done|]; cbn; repeat constructor]|]). apply Forall_nil, I.
Qed.

Definition example_commits : list (list SeriesRef * list HSample) :=
  [(example_refs, example_samples); ([web_b; web_a], [MkHSample 0 250 1; MkHSample 0 90 7])].

Lemma example_commits_ok : Forall commit_ok example_commits.
Proof.
  apply Forall_cons. split; [split_and!; [reflexivity|apply example_batch|apply example_refs_ok]|].
  apply Forall_cons. split; [|apply Forall_nil, I]. split_and!; [reflexivity| |].
  - repeat (apply Forall_cons; split; [cbn [snd hs_T hs_V]; unfold is_i64, is_u64; lia|]). apply Forall_nil, I.
  - pose proof example_refs_ok as Hr. rewrite Forall_forall in Hr.
    apply Forall_cons. split; [apply Hr; right; left|]. apply Forall_cons. split; [apply Hr; left|]. apply Forall_nil, I.
Qed.

Lemma head_replay_durable_witness :
  exists A w h' stats, h_wal (append_all example_commits (NewHead (Some example_wal) 100 2 true)).1 = Some w
    /\ head_inv (append_all example_commits (NewHead (Some example_wal) 100 2 true)).1 A
    /\ Replay (w_dir w) (NewHead (None : option WAL) 100 2 true) = Ok (h', stats) /\ head_inv h' A.
Proof.
  apply (head_replay_durable example_commits 100 2 true 0 [] example_wal _
    (append_all example_commits (NewHead (Some example_wal) 100 2 true)).2).
  - vm_compute. reflexivity.
  - apply example_commits_ok.
  - vm_compute. reflexivity.
  - apply surjective_pairing.
  - vm_compute. repeat constructor; discriminate.
Defined.

(** ** A commit the log refused *)

(** The first commit's fsync fails: the eighth system call of the log. *)
Definition failing_wal : WAL := (Open (MkDir ∅ ∅) 0 (replicate 7 IoOk ++ [IoFail 0])).1.
Definition refused : Head WAL * option (list bool) * list Rejection :=
  HeadAppend [web_a] [MkHSample 0 90 1] (NewHead (Some failing_wal) 100 0 true).
Definition acknowledged : Head WAL * option (list bool) * list Rejection :=
  HeadAppend [web_a] [MkHSample 0 50 2] refused.1.1.
Definition restarted : option (result chunk_error (list (SeriesRef * list (Z * Z)))) :=
  match h_wal acknowledged.1.1 with
  | Some w => match Replay (w_dir w) (NewHead (None : option WAL) 100 0 true) with
              | Ok (h, _) => Some (HeadSelect (MkSelector (sr_Metric web_a) []) 0 1000 h)
              | Err _ => None
              end
  | None => None
  end.

(** The hypothesis is needed.  A batch refused because the fsync failed stays
    in the log.  Here it is refused, an older sample is then stored and
    acknowledged, and after a restart the refused sample is there and the
    acknowledged one is not: it comes after the refused one in the log and is
    out of order on replay. *)
Theorem refused_commit_shadows_acknowledged :
  refused.1.2 = None /\ refused.2 = [MkRejection (-1) (ErrLog ErrIO)]
  /\ acknowledged.1.2 = Some [true] /\ acknowledged.2 = []
  /\ HeadSelect (MkSelector (sr_Metric web_a) []) 0 1000 acknowledged.1.1 = Ok [(web_a, [(50, 2)])]
  /\ restarted = Some (Ok [(web_a, [(90, 1)])]).
Proof. vm_compute. repeat split. Qed.

(** * Checkpoints lose nothing that is live

    A log truncation drops the sample records [keepForCheckpoint] does not want.
    On the meaning of the log this is exactly the cut of the store at the bound. *)

Definition cut_run (mv : Z) (e : SeriesRef * list (Z * Z)) : SeriesRef * list (Z * Z) :=
  (e.1, filter (fun s => mv <= s.1) e.2).

(** Every run of a store ascends. *)
Definition runs (A : store) : Prop := forall key ref ss, A !! key = Some (ref, ss) -> run ss.

Lemma append_spec_run mv t v ss : run ss -> run (append_spec mv t v ss).1.
Proof.
  intros Hr. unfold append_spec. destruct (t <? mv); [done|]. destruct (last ss) as [[lt lv]|] eqn:El.
  - destruct (Z.leb_spec t lt); [done|]. apply run_snoc; [done|]. intros s Hs.
    pose proof (run_last_max _ _ _ Hr El s Hs). lia.
  - apply last_None in El as ->. apply run_snoc; [done|]. intros s Hs. by apply not_elem_of_nil in Hs.
Qed.

Lemma mean_sample_runs mv ns A s : runs A -> runs (mean_sample mv ns A s).
Proof.
  intros HA. unfold mean_sample, spec_apply. destruct (ns !! hs_ID s) as [key|]; [|done].
  destruct (A !! key) as [[ref ss]|] eqn:E; [|done].
  pose proof (append_spec_run mv (hs_T s) (hs_V s) ss (HA _ _ _ E)) as Hr.
  destruct (append_spec mv (hs_T s) (hs_V s) ss) as [ss' r]. cbn [fst] in *.
  intros key' ref' ss1 E1. apply lookup_insert_Some in E1 as [[_ [= _ <-]]|[_ E1]]; [done|by eapply HA].
Qed.

(** A sample below the bound changes nothing above it; one above it is accepted
    in the cut run exactly when it is in the whole run. *)
Lemma append_below mv mv' t v ss : t < mv' ->
  filter (fun s => mv' <= s.1) (append_spec mv t v ss).1 = filter (fun s => mv' <= s.1) ss.
Proof.
  intros Ht. assert (Hs : filter (fun s => mv' <= s.1) (ss ++ [(t, v)]) = filter (fun s => mv' <= s.1) ss).
  { rewrite filter_app, (filter_none _ [(t, v)]), app_nil_r; [done|].
    intros x Hx. apply list_elem_of_singleton in Hx as ->. cbn. lia. }
  unfold append_spec. destruct (t <? mv); [done|]. destruct (last ss) as [[lt lv]|]; [|done].
  destruct (t <=? lt); [done|]. exact Hs.
Qed.

Lemma append_above mv mv' t v ss : run ss -> mv <= mv' -> mv' <= t ->
  (append_spec mv' t v (filter (fun s => mv' <= s.1) ss)).1 = filter (fun s => mv' <= s.1) (append_spec mv t v ss).1.
Proof.
  intros Hr Hmv Ht. assert (Hs : filter (fun s => mv' <= s.1) (ss ++ [(t, v)]) = filter (fun s => mv' <= s.1) ss ++ [(t, v)]).
  { rewrite filter_app. f_equal. apply filter_all. intros x Hx. by apply list_elem_of_singleton in Hx as ->. }
  unfold append_spec. destruct (Z.ltb_spec t mv'); [lia|]. destruct (Z.ltb_spec t mv); [lia|].
  destruct (last ss) as [[lt lv]|] eqn:El; [|by apply last_None in El as ->].
  destruct (decide (mv' <= lt)) as [Hlt|Hlt].
  - erewrite filter_suffix by (exact El || exact Hlt). destruct (t <=? lt); done.
  - rewrite (filter_none _ ss).
    2: { intros s Hin. pose proof (run_last_max _ _ _ Hr El s Hin). lia. }
    destruct (Z.leb_spec t lt); [lia|]. cbn [last fst]. rewrite filter_app, (filter_none _ ss), filter_all; [done| |].
    + intros x Hx. by apply list_elem_of_singleton in Hx as ->.
    + intros s Hin. pose proof (run_last_max _ _ _ Hr El s Hin). lia.
Qed.

Lemma mean_sample_cut mv mv' ns A s : runs A -> mv <= mv' ->
  mean_sample mv' ns (cut_run mv' <$> A) s = cut_run mv' <$> mean_sample mv ns A s.
Proof.
  intros HA Hmv. unfold mean_sample. destruct (ns !! hs_ID s) as [key|]; [|done]. unfold spec_apply.
  rewrite lookup_fmap. destruct (A !! key) as [[ref ss]|] eqn:E; cbn [fmap option_fmap option_map cut_run fst snd]; [|done].
  pose proof (append_above mv mv' (hs_T s) (hs_V s) ss (HA _ _ _ E) Hmv) as Hab.
  pose proof (append_below mv mv' (hs_T s) (hs_V s) ss) as Hbe.
  pose proof (append_below mv' mv' (hs_T s) (hs_V s) (filter (fun s => mv' <= s.1) ss)) as Hbe'.
  destruct (append_spec mv (hs_T s) (hs_V s) ss) as [ss1 r1], (append_spec mv' (hs_T s) (hs_V s) (filter _ ss)) as [ss2 r2] eqn:E2.
  cbn [fst] in *. rewrite fmap_insert. enough (ss2 = filter (fun s => mv' <= s.1) ss1) as -> by done.
  destruct (decide (mv' <= hs_T s)) as [Ht|Ht]; [by apply Hab|]. rewrite Hbe by lia.
  unfold append_spec in E2. destruct (Z.ltb_spec (hs_T s) mv'); [|lia]. congruence.
Qed.

Lemma mean_samples_cut mv mv' ns ss : forall A, runs A -> mv <= mv' ->
  foldl (mean_sample mv' ns) (cut_run mv' <$> A) ss = cut_run mv' <$> foldl (mean_sample mv ns) A ss
  /\ runs (foldl (mean_sample mv ns) A ss).
Proof.
  induction ss as [|s ss IH]; intros A HA Hmv; cbn [foldl]; [done|].
  rewrite (mean_sample_cut mv) by done. apply IH; [by apply mean_sample_runs|done].
Qed.

(** Samples the bound refuses mean nothing. *)
Lemma mean_samples_dead mv ns ss : forall A, Forall (fun s => hs_T s < mv) ss -> foldl (mean_sample mv ns) A ss = A.
Proof.
  induction ss as [|s ss IH]; intros A Hs; cbn [foldl]; [done|]. apply Forall_cons_1 in Hs as [Ht Hs].
  rewrite IH by done. unfold mean_sample, spec_apply. destruct (ns !! hs_ID s) as [key|]; [|done].
  destruct (A !! key) as [[ref run_]|] eqn:E; [|done]. unfold append_spec.
  rewrite (proj2 (Z.ltb_lt _ _) Ht). by apply insert_id.
Qed.

Lemma name_series_cut mv id ref (m : names * store) :
  name_series id ref (m.1, cut_run mv <$> m.2)
  = ((name_series id ref m).1, cut_run mv <$> (name_series id ref m).2).
Proof.
  unfold name_series. cbn [fst snd]. rewrite lookup_fmap. destruct (m.2 !! Key ref) as [e|] eqn:E; cbn; [done|].
  by rewrite fmap_insert.
Qed.

Lemma name_series_runs id ref m : runs m.2 -> runs (name_series id ref m).2.
Proof.
  intros Hm. unfold name_series. cbn [snd]. destruct (m.2 !! Key ref) as [e|]; [done|]. intros key ref' ss' E.
  apply lookup_insert_Some in E as [[_ [= _ <-]]|[_ E]]; [constructor|by eapply Hm].
Qed.

Definition entry_samples (e : entry) : list HSample := match e with ESeries _ _ => [] | ESamples ss => ss end.

Lemma keep_entry k e : entry_ok e -> keepForCheckpoint k (record_of e)
  = match e with ESeries _ _ => true | ESamples ss => existsb (fun s => k <=? hs_T s) ss end.
Proof.
  destruct e as [id ref|ss]; [done|]. intros [Hs Hl]. unfold keepForCheckpoint. cbn [record_of rec_Type rec_Data].
  change (RecordSamples =? RecordSeries) with false. rewrite Z.eqb_refl, decodeSamples_enc by done. done.
Qed.

(** The checkpoint policy loses nothing that is live.  For a log whose
    samples below the checkpoint's bound are refused by the replay's bound (they
    are in a block), the records the policy keeps mean, under the replay's
    bound, the whole log's series with exactly their samples at or after it. *)
Theorem checkpoint_keeps_live mv mv' k log : mv <= mv' -> Forall entry_ok log ->
  (forall e s, e ∈ log -> s ∈ entry_samples e -> hs_T s < k -> hs_T s < mv') ->
  let kept := filter (fun e => keepForCheckpoint k (record_of e) = true) log in
  log_meaning mv' kept = ((log_meaning mv log).1, cut_run mv' <$> (log_meaning mv log).2).
Proof.
  intros Hmv Hok Hdead kept. unfold kept, log_meaning.
  assert (Hgen : forall m, runs m.2 ->
    foldl (mean_entry mv') (m.1, cut_run mv' <$> m.2) (filter (fun e => keepForCheckpoint k (record_of e) = true) log)
    = ((foldl (mean_entry mv) m log).1, cut_run mv' <$> (foldl (mean_entry mv) m log).2)).
  2: { specialize (Hgen (∅, ∅)). cbn [fst snd] in Hgen. rewrite fmap_empty in Hgen. apply Hgen.
       intros key ref ss E. by rewrite lookup_empty in E. }
  induction Hok as [|e log He Hok IH]; intros [ns A] HA; [done|]. cbn [fst snd] in HA.
  specialize (IH (fun e' s Hin => Hdead e' s (list_elem_of_further _ _ _ Hin))).
  rewrite filter_cons. pose proof (keep_entry k e He) as Hk. cbn [foldl]. destruct e as [id ref|ss].
  - rewrite decide_True by done. cbn [foldl mean_entry].
    rewrite (name_series_cut mv' id ref (ns, A)). by apply IH, name_series_runs.
  - destruct (mean_samples_cut mv mv' ns ss A HA Hmv) as [Hcut Hr]. specialize (IH (ns, foldl (mean_sample mv ns) A ss) Hr).
    cbn [fst snd mean_entry foldl] in *. case_decide as Hd.
    + cbn [foldl mean_entry fst snd]. by rewrite Hcut.
    + rewrite <- Hcut in IH. rewrite mean_samples_dead in IH; [done|].
      rewrite Hk in Hd. apply Forall_forall. intros s Hs. apply (Hdead (ESamples ss)); [by left|done|].
      destruct (Z.ltb_spec (hs_T s) k); [done|]. destruct Hd. apply existsb_Exists. exists s. split; [done|]. by apply Z.leb_le.
Qed.

(** Two series; the first record is dead below 100, the second straddles it. *)
Definition example_log : list entry :=
  [ESeries 1 web_a; ESeries 2 web_b; ESamples [MkHSample 1 10 5; MkHSample 2 20 6];
   ESamples [MkHSample 1 90 7; MkHSample 1 120 8]; ESamples [MkHSample 2 130 9]].

Lemma example_log_ok : Forall entry_ok example_log.
Proof.
  repeat (apply Forall_cons; split); try apply Forall_nil, I.
  1, 2: split; [unfold is_u64; lia|constructor; [vm_compute; done|vm_compute; done|cbn; repeat constructor]].
  all: split; [|vm_compute; done]; repeat (apply Forall_cons; split); try apply Forall_nil, I;
    unfold hsample_ok, is_u64, is_i64; cbn [hs_ID hs_T hs_V]; lia.
Qed.

Lemma checkpoint_keeps_live_witness :
  log_meaning 100 (filter (fun e => keepForCheckpoint 100 (record_of e) = true) example_log)
    = ((log_meaning (- 2 ^ 63) example_log).1, cut_run 100 <$> (log_meaning (- 2 ^ 63) example_log).2)
  /\ length (filter (fun e => keepForCheckpoint 100 (record_of e) = true) example_log) = 4%nat
  /\ (log_meaning (- 2 ^ 63) example_log).2 !! Key web_a = Some (web_a, [(10, 5); (90, 7); (120, 8)]).
Proof.
  split; [|split; vm_compute; reflexivity].
  apply checkpoint_keeps_live; [lia|apply example_log_ok|auto].
Defined.
