(* ===== verification/Compact.v ===== *)
(** * Compaction (internal/tsdb/compact/compact.go, and its use in internal/tsdb/db)

    The planner that picks a run of same-level blocks, the merge of their series
    and samples, and the swap of the sources for the merged block.  A block is
    known by its meta and its reader, which are an interface here: [Meta],
    [Series] and [SamplesFor] of block.Block. *)

From Stdlib Require Import ZArith Lia.
From Stdlib Require Import (notations) String.
From stdpp Require Import base sorting gmap numbers list.
From S2P Require Import Prelude Gostring Tsdb HeadSeries.

(** ** Blocks *)

Record BStats := MkBStats { bs_Series : Z; bs_Samples : Z; bs_Chunks : Z }.

Record Meta := MkMeta {
  bm_ULID : Z;             (* a ULID compares as a number *)
  bm_Version : Z;
  bm_MinTime : Z;
  bm_MaxTime : Z;
  bm_Stats : BStats;
  bm_Level : Z;
  bm_Sources : list Z;
  bm_ResolutionS : Z;
}.

(** A block open for reading; [E] is what reading can fail with. *)
Class BlockReader (B E : Type) := {
  b_Meta : B -> Meta;
  b_Series : B -> list SeriesRef;
  b_SamplesFor : B -> gostring -> result E (list (Z * Z));
}.

(** ** The planner *)

Definition DefaultMinBlocks : Z := 3.
Definition DefaultMaxBlockRange : Z := 54 * 60 * 60 * 1000000000.

Record COptions := MkCOptions { co_MinBlocks : Z; co_MaxBlockRange : Z }.

Definition setDefaults (o : COptions) : COptions :=
  MkCOptions (if co_MinBlocks o <=? 0 then DefaultMinBlocks else co_MinBlocks o)
    (if co_MaxBlockRange o <=? 0 then DefaultMaxBlockRange else co_MaxBlockRange o).

(** [Duration.Milliseconds]. *)
Definition Milliseconds (d : Z) : Z := Z.quot d 1000000.

Record Plan (B : Type) := MkPlan { p_Sources : list B; p_Level : Z }.
Arguments MkPlan {B}. Arguments p_Sources {B}. Arguments p_Level {B}.

Section Planner.
Context {B E : Type} `{BlockReader B E}.

Abbreviation minTime b := (bm_MinTime (b_Meta b)).
Abbreviation maxTime b := (bm_MaxTime (b_Meta b)).
Abbreviation level b := (bm_Level (b_Meta b)).
Abbreviation resolution b := (bm_ResolutionS (b_Meta b)).
Abbreviation ulid b := (bm_ULID (b_Meta b)).

Definition block_le (a b : B) : Prop :=
  minTime a < minTime b \/ (minTime a = minTime b /\ ulid a <= ulid b).
#[export] Instance block_le_dec : RelDecision block_le.
Proof. intros a b. unfold block_le. apply _. Defined.

Definition sortBlocks (bs : list B) : list B := merge_sort block_le bs.

Definition Span (p : Plan B) : option (Z * Z) :=
  match p_Sources p with
  | [] => None   (* an index out of range: a plan has sources *)
  | b :: rest =>
      Some (foldl (fun acc b => (Z.min acc.1 (minTime b), Z.max acc.2 (maxTime b))) (minTime b, maxTime b) rest)
  end.

(** The inner loop: the run so far, and the blocks after it. *)
Fixpoint grow (minBlocks maxRange lv res minT maxT : Z) (run_ rest : list B) : option (list B) :=
  match rest with
  | [] => None
  | next :: rest' =>
      if negb (level next =? lv) || negb (resolution next =? res)
      then grow minBlocks maxRange lv res minT maxT run_ rest'
      else if maxRange <? int64 (Z.max maxT (maxTime next) - minT) then None
      else
        let run_ := run_ ++ [next] in
        if minBlocks <=? Z.of_nat (length run_) then Some run_
        else grow minBlocks maxRange lv res minT (Z.max maxT (maxTime next)) run_ rest'
  end.

Fixpoint plan_from (minBlocks maxRange : Z) (sorted : list B) : option (Plan B) :=
  match sorted with
  | [] => None
  | b :: rest =>
      match grow minBlocks maxRange (level b) (resolution b) (minTime b) (maxTime b) [b] rest with
      | Some run_ => Some (MkPlan run_ (level b + 1))
      | None => plan_from minBlocks maxRange rest
      end
  end.

Definition Next_ (blocks : list B) (opts : COptions) : option (Plan B) :=
  let opts := setDefaults opts in
  plan_from (co_MinBlocks opts) (Milliseconds (co_MaxBlockRange opts)) (sortBlocks blocks).

(** ** The merge *)

(** The first list head with the smallest key. *)
Fixpoint smallest (lists : list (list SeriesRef)) : option SeriesRef :=
  match lists with
  | [] => None
  | [] :: rest => smallest rest
  | (r :: _) :: rest =>
      match smallest rest with
      | Some r' => if decide (str_lt (Key r') (Key r)) then Some r' else Some r
      | None => Some r
      end
  end.

Definition step_past (key : gostring) (l : list SeriesRef) : list SeriesRef :=
  match l with r :: l' => if decide (Key r = key) then l' else l | [] => [] end.

Fixpoint merged_loop (fuel : nat) (lists : list (list SeriesRef)) : list SeriesRef :=
  match fuel with
  | O => []
  | S fuel' =>
      match smallest lists with
      | None => []
      | Some r => r :: merged_loop fuel' (step_past (Key r) <$> lists)
      end
  end.

Definition mergedSeries (sources : list B) : list SeriesRef :=
  let lists := b_Series <$> sources in
  merged_loop (S (sum_list (length <$> lists))) lists.

(** Samples of one source behind those gathered so far. *)
Fixpoint take_newer (out samples : list (Z * Z)) : list (Z * Z) :=
  match samples with
  | [] => out
  | s :: rest =>
      match last out with
      | Some l => if s.1 <=? l.1 then take_newer out rest else take_newer (out ++ [s]) rest
      | None => take_newer (out ++ [s]) rest
      end
  end.

Fixpoint gather_loop (sources : list B) (key : gostring) (out : list (Z * Z)) : result E (list (Z * Z)) :=
  match sources with
  | [] => Ok out
  | b :: rest => match b_SamplesFor b key with
                 | Err e => Err e
                 | Ok samples => gather_loop rest key (take_newer out samples)
                 end
  end.
Definition gather (sources : list B) (key : gostring) : result E (list (Z * Z)) := gather_loop sources key [].

(** What [merge] hands to the block writer. *)
Fixpoint merge_loop (sources : list B) (refs : list SeriesRef) : result E (list (SeriesRef * list (Z * Z))) :=
  match refs with
  | [] => Ok []
  | ref :: rest =>
      match gather sources (Key ref) with
      | Err e => Err e
      | Ok samples =>
          match merge_loop sources rest with
          | Err e => Err e
          | Ok out => Ok (match samples with [] => out | _ => (ref, samples) :: out end)
          end
      end
  end.
Definition merge_content (p : Plan B) : result E (list (SeriesRef * list (Z * Z))) :=
  merge_loop (p_Sources p) (mergedSeries (p_Sources p)).

(** ** In the database *)

Definition is_source (p : Plan B) (b : B) : bool := existsb (fun s => ulid s =? ulid b) (p_Sources p).

(** [DB.Compact]'s swap. *)
Definition swap (p : Plan B) (merged : B) (blocks : list B) : list B :=
  sortBlocks (filter (fun b => is_source p b = false) blocks ++ [merged]).

(** [dropSuperseded]: the blocks no other block was merged from. *)
Definition dropSuperseded (blocks : list B) : list B :=
  let superseded := blocks ≫= fun b => bm_Sources (b_Meta b) in
  filter (fun b => ulid b ∉ superseded) blocks.

(** [ApplyRetention]'s first rule. *)
Definition retain (cutoff : Z) (blocks : list B) : list B := filter (fun b => ~ maxTime b < cutoff) blocks.
End Planner.
