(* ===== verification/CompactProofs.v ===== *)
(** * Compaction keeps the timeline tidy and loses nothing

    With the width limit fixed, every history of block cuts, compactions and
    deletions keeps the blocks disjoint in time, so that a merge is a
    concatenation.  When the limit is raised between runs that is no longer so. *)

From Stdlib Require Import ZArith Lia.
From Stdlib Require Import (notations) String.
From stdpp Require Import base sorting gmap numbers list.
From S2P Require Import Prelude Gostring Tsdb HeadSeries Compact.

Section Planning.
Context {B E : Type} `{BlockReader B E}.

Abbreviation minTime b := (bm_MinTime (b_Meta b)).
Abbreviation maxTime b := (bm_MaxTime (b_Meta b)).
Abbreviation level b := (bm_Level (b_Meta b)).
Abbreviation resolution b := (bm_ResolutionS (b_Meta b)).
Abbreviation ulid b := (bm_ULID (b_Meta b)).

(** ** Tidy block lists *)

(** A raw block, at times whose differences fit an int64. *)
Record block_ok (b : B) : Prop := {
  bo_span : minTime b <= maxTime b;
  bo_lo : - 2 ^ 62 <= minTime b;
  bo_hi : maxTime b < 2 ^ 62;
  bo_raw : resolution b = 0;
  bo_level : 0 <= level b;
}.

(** [a] is wholly before [b]; and if [b] is of a higher level, the two are too far
    apart to share a block. *)
Definition apart (R : Z) (a b : B) : Prop :=
  maxTime a < minTime b /\ (level a < level b -> R < maxTime b - minTime a).

Record tidy (R : Z) (bs : list B) : Prop := {
  ti_apart : StronglySorted (apart R) bs;
  ti_ok : Forall block_ok bs;
  ti_ids : NoDup ((fun b => ulid b) <$> bs);
}.

Lemma sorted_pairs {A} (P : A -> A -> Prop) l x y : StronglySorted P l -> x ∈ l -> y ∈ l -> x = y \/ P x y \/ P y x.
Proof.
  induction 1 as [|z l Hl IH Hz]; intros Hx Hy; [by apply not_elem_of_nil in Hx|]. rewrite Forall_forall in Hz.
  apply elem_of_cons in Hx as [->|Hx], Hy as [->|Hy]; auto.
Qed.

Lemma sorted_sub {A} (P : A -> A -> Prop) l l' : sublist l l' -> StronglySorted P l' -> StronglySorted P l.
Proof.
  induction 1 as [|x l l' Hs IH|x l l' Hs IH]; intros Hl; [done| |]; apply StronglySorted_inv in Hl as [Hl Hx].
  - constructor; [by apply IH|]. rewrite Forall_forall in *. intros y Hy. apply Hx. by eapply sublist_subseteq.
  - by apply IH.
Qed.

Lemma tidy_sub R bs bs' : sublist bs bs' -> tidy R bs' -> tidy R bs.
Proof.
  intros Hs [Ha Ho Hi]. constructor; [by eapply sorted_sub| |].
  - rewrite Forall_forall in *. intros b Hb. apply Ho. by eapply sublist_subseteq.
  - apply (sublist_NoDup _ _ Hi). clear Ha Ho Hi. induction Hs; cbn; by constructor.
Qed.

Lemma apart_le R a b : apart R a b -> block_ok a -> block_le a b.
Proof. intros [Hlt _] [Hs _ _ _ _]. left. lia. Qed.

(** A tidy list is the only order of its blocks. *)
Lemma sorted_tidy R bs l : tidy R bs -> l ≡ₚ bs -> StronglySorted block_le l -> l = bs.
Proof.
  intros [Ha Ho _] Hp Hl. rewrite Forall_forall in Ho. eapply (StronglySorted_unique_strong block_le); [|exact Hl| |done].
  - intros x y Hx Hy Hxy Hyx. rewrite Hp in Hx.
    pose proof (bo_span _ (Ho x Hx)). pose proof (bo_span _ (Ho y Hy)). unfold block_le in Hxy, Hyx.
    destruct (sorted_pairs _ _ x y Ha Hx Hy) as [?|[[? _]|[? _]]]; [done|lia|lia].
  - clear Hp Hl. induction Ha as [|b bs Hs IH Hb]; constructor.
    + apply IH. intros x Hx. apply Ho. by right.
    + eapply Forall_impl; [exact Hb|]. intros x Hx. eapply apart_le; [exact Hx|]. apply Ho. by left.
Qed.

Lemma sortBlocks_sorted l : StronglySorted block_le (sortBlocks l).
Proof.
  assert (Htot : Total block_le) by (intros a b; unfold block_le; lia).
  assert (Htr : Transitive block_le) by (intros a b c; unfold block_le; lia). apply (StronglySorted_merge_sort _).
Qed.

(** Sorting a permutation of a tidy list gives the list. *)
Lemma sortBlocks_tidy R bs l : tidy R bs -> l ≡ₚ bs -> sortBlocks l = bs.
Proof. intros Ht Hp. eapply sorted_tidy; [exact Ht| |apply sortBlocks_sorted]. unfold sortBlocks. by rewrite (merge_sort_Permutation block_le l). Qed.

(** ** What the planner returns *)

Definition same (lv res : Z) (b : B) : Prop := level b = lv /\ resolution b = res.
#[local] Instance same_dec lv res b : Decision (same lv res b).
Proof. unfold same. apply _. Defined.

Lemma same_spec lv res b : negb (level b =? lv) || negb (resolution b =? res) = false <-> same lv res b.
Proof. unfold same. rewrite orb_false_iff, !negb_false_iff, !Z.eqb_eq. done. Qed.

(** The blocks after the run's start, in time order and in range. *)
Definition following (minT maxT : Z) (rest : list B) : Prop :=
  StronglySorted (fun a b => maxTime a < maxTime b) rest
  /\ Forall (fun b => maxT < maxTime b /\ - 2 ^ 62 <= minT /\ minT <= maxT /\ maxTime b < 2 ^ 62) rest.

Lemma following_cons minT maxT b rest : following minT maxT (b :: rest) ->
  following minT maxT rest /\ following minT (Z.max maxT (maxTime b)) rest
  /\ int64 (Z.max maxT (maxTime b) - minT) = maxTime b - minT /\ Z.max maxT (maxTime b) = maxTime b
  /\ (forall q, q ∈ rest -> maxTime b < maxTime q).
Proof.
  intros [Hs Hf]. apply StronglySorted_inv in Hs as [Hs Hb]. apply Forall_cons_1 in Hf as [Hb1 Hf].
  rewrite Forall_forall in Hb, Hf. assert (Em : Z.max maxT (maxTime b) = maxTime b) by lia. rewrite Em.
  split_and!; try done.
  - split; [done|]. by apply Forall_forall.
  - split; [done|]. apply Forall_forall. intros q Hq. specialize (Hf q Hq). specialize (Hb q Hq). lia.
  - apply int64_id. unfold is_i64. lia.
Qed.

Lemma grow_some mb R lv res minT rest : forall maxT run_ r, following minT maxT rest ->
  grow mb R lv res minT maxT run_ rest = Some r ->
  exists mid q post, rest = mid ++ q :: post /\ same lv res q /\ maxTime q - minT <= R
    /\ r = run_ ++ filter (same lv res) mid ++ [q] /\ mb <= Z.of_nat (length r)
    /\ (Z.of_nat (length run_) < mb -> Z.of_nat (length r) = mb).
Proof.
  induction rest as [|b rest IH]; intros maxT run_ r Hf; cbn [grow]; [done|].
  destruct (following_cons _ _ _ _ Hf) as (Hf1 & Hf2 & Ei & Em & _). rewrite Ei.
  destruct (negb (level b =? lv) || negb (resolution b =? res)) eqn:Es.
  - intros Hg. destruct (IH _ _ _ Hf1 Hg) as (mid & q & post & -> & Hq & HR & Er & Hlen & Hex).
    exists (b :: mid), q, post. split_and!; try done. rewrite filter_cons_False; [done|].
    rewrite <- same_spec, Es. done.
  - apply same_spec in Es. destruct (Z.ltb_spec R (maxTime b - minT)); [done|].
    destruct (Z.leb_spec mb (Z.of_nat (length (run_ ++ [b])))).
    + intros [= <-]. exists [], b, rest. split_and!; try done. intros. rewrite length_app in *. cbn [length] in *. lia.
    + intros Hg. destruct (IH _ _ _ Hf2 Hg) as (mid & q & post & -> & Hq & HR & Er & Hlen & Hex).
      exists (b :: mid), q, post. split_and!; try done.
      * by rewrite Er, filter_cons_True, <- app_assoc.
      * intros _. apply Hex. lia.
Qed.

Lemma grow_none mb R lv res minT rest : forall maxT run_ l q l', following minT maxT rest ->
  grow mb R lv res minT maxT run_ rest = None -> rest = l ++ q :: l' -> same lv res q ->
  mb <= Z.of_nat (length run_) + Z.of_nat (length (filter (same lv res) l)) + 1 -> R < maxTime q - minT.
Proof.
  induction rest as [|b rest IH]; intros maxT run_ l q l' Hf Hg Hr Hq Hn; [by destruct l|]. cbn [grow] in Hg.
  destruct (following_cons _ _ _ _ Hf) as (Hf1 & Hf2 & Ei & Em & Hlt). rewrite Ei in Hg.
  destruct (negb (level b =? lv) || negb (resolution b =? res)) eqn:Es.
  - destruct l as [|b' l]; injection Hr as -> Hr; [apply same_spec in Hq; congruence|].
    eapply (IH maxT run_ l q l'); try done. rewrite filter_cons_False in Hn; [done|]. rewrite <- same_spec, Es. done.
  - apply same_spec in Es. destruct (Z.ltb_spec R (maxTime b - minT)).
    + destruct l as [|b' l]; injection Hr as -> Hr; [done|].
      assert (maxTime b' < maxTime q); [|lia]. apply Hlt. rewrite Hr. apply elem_of_app. right. by left.
    + destruct (Z.leb_spec mb (Z.of_nat (length (run_ ++ [b])))); [done|]. rewrite length_app in *. cbn [length] in *.
      destruct l as [|b' l]; injection Hr as -> Hr; [cbn in Hn; lia|].
      eapply (IH _ (run_ ++ [b']) l q l'); try done. rewrite filter_cons_True in Hn by done.
      rewrite length_app. cbn [length] in *. lia.
Qed.

Lemma plan_from_some mb R bs p : plan_from mb R bs = Some p ->
  exists pre b rest, bs = pre ++ b :: rest
    /\ grow mb R (level b) (resolution b) (minTime b) (maxTime b) [b] rest = Some (p_Sources p)
    /\ p_Level p = level b + 1
    /\ forall p1 x p2, pre = p1 ++ x :: p2 ->
         grow mb R (level x) (resolution x) (minTime x) (maxTime x) [x] (p2 ++ b :: rest) = None.
Proof.
  induction bs as [|b bs IH]; cbn [plan_from]; [done|].
  destruct (grow mb R (level b) (resolution b) (minTime b) (maxTime b) [b] bs) as [r|] eqn:Eg.
  - intros [= <-]. exists [], b, bs. split_and!; try done. intros p1 x p2 Hp. by destruct p1.
  - intros Hp. destruct (IH Hp) as (pre & b0 & rest & -> & Hg & Hl & Hnone). exists (b :: pre), b0, rest.
    split_and!; try done. intros [|y p1] x p2 Hpre; injection Hpre as -> ->; [done|]. by eapply Hnone.
Qed.

Lemma tidy_following R b rest : tidy R (b :: rest) -> following (minTime b) (maxTime b) rest.
Proof.
  intros [Ha Ho _]. apply StronglySorted_inv in Ha as [Ha Hb]. apply Forall_cons_1 in Ho as [Hob Ho].
  rewrite Forall_forall in Hb, Ho. split.
  - clear Hb. induction Ha as [|x l Hl IH Hx]; constructor.
    + apply IH. intros y Hy. apply Ho. by right.
    + rewrite Forall_forall in *. intros y Hy. destruct (Hx y Hy) as [Hlt _].
      pose proof (bo_span _ (Ho y ltac:(by right))). lia.
  - apply Forall_forall. intros y Hy. destruct (Hb y Hy) as [Hlt _]. destruct (Ho y Hy), Hob. lia.
Qed.

(** A plan on a tidy list is a contiguous run. *)
Record planned (mb R : Z) (bs : list B) (p : Plan B) (pre mid post : list B) (b q : B) : Prop := {
  pl_blocks : bs = pre ++ (b :: mid ++ [q]) ++ post;
  pl_sources : p_Sources p = b :: mid ++ [q];
  pl_level : Forall (fun x => level x + 1 = p_Level p) (b :: mid ++ [q]);
  pl_length : mb <= Z.of_nat (length (p_Sources p));
  pl_width : maxTime q - minTime b <= R;
  pl_before : forall x, x ∈ pre -> level x < p_Level p -> R < maxTime q - minTime x;
}.

Lemma run_contiguous R b mid q post : tidy R (b :: mid ++ q :: post) -> same (level b) (resolution b) q ->
  maxTime q - minTime b <= R -> filter (same (level b) (resolution b)) mid = mid.
Proof.
  intros [Ha Ho _] [Hq _] HR. apply filter_all. intros x Hx. rewrite Forall_forall in Ho.
  assert (Hbx : apart R b x). { apply StronglySorted_cons in Ha as [Hb _]. rewrite Forall_forall in Hb. apply Hb, elem_of_app. by left. }
  assert (Hxq : apart R x q).
  { apply StronglySorted_cons in Ha as [_ Ha]. apply StronglySorted_app in Ha as [Ha _]. apply Ha; [done|by left]. }
  assert (Hox : block_ok x) by (apply Ho; right; apply elem_of_app; by left).
  assert (Hoq : block_ok q) by (apply Ho; right; apply elem_of_app; right; by left).
  assert (Hob : block_ok b) by (apply Ho; by left).
  destruct Hbx as [Hb1 Hb2], Hxq as [Hq1 Hq2]. destruct Hox, Hoq, Hob. split; [|congruence].
  destruct (Z.lt_trichotomy (level x) (level b)) as [Hl|[Hl|Hl]]; [|done|].
  - assert (R < maxTime q - minTime x) by (apply Hq2; lia). lia.
  - specialize (Hb2 Hl). lia.
Qed.

Lemma plan_from_tidy mb R bs p : 2 <= mb -> tidy R bs -> plan_from mb R bs = Some p ->
  exists pre mid post b q, planned mb R bs p pre mid post b q.
Proof.
  intros Hmb Ht Hp. destruct (plan_from_some _ _ _ _ Hp) as (pre & b & rest & -> & Hg & Hl & Hnone).
  assert (Htb : tidy R (b :: rest)) by (eapply tidy_sub; [|exact Ht]; by apply sublist_inserts_l).
  destruct (grow_some _ _ _ _ _ _ _ _ _ (tidy_following _ _ _ Htb) Hg) as (mid & q & post & -> & Hq & HR & Er & Hlen & Hex).
  rewrite (run_contiguous R b mid q post Htb Hq HR) in Er.
  assert (Hall : Forall (fun x => level x = level b) mid).
  { rewrite <- (run_contiguous R b mid q post Htb Hq HR). apply Forall_forall. intros x Hx.
    by apply list_elem_of_filter in Hx as [[? _] _]. }
  exists pre, mid, post, b, q. constructor; try done; [by cbn; rewrite <- app_assoc| |].
  - destruct Hq as [Hq _]. apply Forall_cons. split; [lia|]. apply Forall_app. split; [|apply Forall_singleton; lia].
    eapply Forall_impl; [exact Hall|]. cbn. lia.
  - intros x Hx Hlx. pose proof Ht as [Ha Ho _]. rewrite Forall_forall in Ho.
    assert (Hqx : apart R x q).
    { apply StronglySorted_app in Ha as [Ha _]. apply Ha; [done|]. right. apply elem_of_app. right. by left. }
    destruct (decide (level x < level q)) as [Hlt|Hge]; [by apply Hqx|]. destruct Hq as [Hq Hqr].
    apply list_elem_of_split in Hx as (p1 & p2 & ->). specialize (Hnone p1 x p2 eq_refl).
    assert (Htx : tidy R (x :: p2 ++ b :: mid ++ q :: post)).
    { eapply tidy_sub; [|exact Ht]. rewrite <- app_assoc. by apply sublist_inserts_l. }
    assert (Hres : forall y, y ∈ x :: p2 ++ b :: mid ++ q :: post -> resolution y = 0).
    { pose proof (ti_ok _ _ Htx) as Hy. rewrite Forall_forall in Hy. intros y Hin. apply (Hy y Hin). }
    assert (Hx0 : resolution x = 0) by (apply Hres; by left).
    assert (Hfl : filter (same (level x) (resolution x)) (b :: mid) = b :: mid).
    { apply filter_all. intros y Hy. rewrite Forall_forall in Hall. split.
      - apply elem_of_cons in Hy as [->|Hy]; [lia|]. rewrite (Hall y Hy). lia.
      - rewrite Hx0. apply Hres. right. apply elem_of_app. right. rewrite app_comm_cons. apply elem_of_app. by left. }
    eapply (grow_none mb R (level x) (resolution x) (minTime x) _ (maxTime x) [x] (p2 ++ b :: mid) q post);
      [by eapply tidy_following|exact Hnone|by rewrite <- app_assoc| |].
    + split; [lia|]. rewrite Hqr, Hx0. apply Hres. right. apply elem_of_app. right. by left.
    + rewrite filter_app, Hfl, length_app. specialize (Hex ltac:(cbn; lia)). rewrite Er in Hex.
      rewrite !length_app in Hex. cbn [length] in *. lia.
Qed.

(** ** The swap *)

Lemma planned_span mb R bs p pre mid post b q : tidy R bs -> planned mb R bs p pre mid post b q ->
  Span p = Some (minTime b, maxTime q).
Proof.
  intros Ht [-> Hs _ _ _ _]. unfold Span. rewrite Hs. f_equal.
  assert (Htb : tidy R (b :: mid ++ [q])).
  { eapply tidy_sub; [|exact Ht]. apply sublist_inserts_l. by apply sublist_inserts_r. }
  destruct Htb as [Ha Ho _]. apply StronglySorted_cons in Ha as [Hb Ha]. apply Forall_cons_1 in Ho as [Hob Ho].
  assert (Hgen : forall l lo hi, StronglySorted (apart R) (l ++ [q]) -> Forall block_ok (l ++ [q]) ->
    Forall (fun x => lo <= minTime x /\ hi <= maxTime x) (l ++ [q]) ->
    foldl (fun acc b => (Z.min acc.1 (minTime b), Z.max acc.2 (maxTime b))) (lo, hi) (l ++ [q]) = (lo, maxTime q)).
  { clear. induction l as [|x l IH]; intros lo hi Ha Ho Hf; cbn [app foldl fst snd].
    - apply Forall_cons_1 in Hf as [[? ?] _]. f_equal; lia.
    - apply Forall_cons_1 in Hf as [[? ?] Hf]. apply StronglySorted_cons in Ha as [Hx Ha].
      apply Forall_cons_1 in Ho as [Hox Ho]. rewrite (Z.min_l lo) by lia. apply IH; [done|done|].
      rewrite Forall_forall in *. intros y Hy. destruct (Hf y Hy). destruct (Hx y Hy) as [? _].
      destruct (Ho y Hy), Hox. lia. }
  apply Hgen; [done|done|]. rewrite Forall_forall in *. intros y Hy. destruct (Hb y Hy) as [? _].
  destruct (Ho y Hy), Hob. lia.
Qed.

Lemma is_source_spec p b : is_source p b = true <-> ulid b ∈ (fun s => ulid s) <$> p_Sources p.
Proof.
  unfold is_source. rewrite existsb_Exists, list_elem_of_fmap. split.
  - intros (s & Hs & E0). apply Z.eqb_eq in E0. eauto.
  - intros (s & -> & Hs). exists s. split; [done|]. apply Z.eqb_refl.
Qed.

Lemma planned_rest mb R bs p pre mid post b q : tidy R bs -> planned mb R bs p pre mid post b q ->
  filter (fun x => is_source p x = false) bs = pre ++ post.
Proof.
  intros [_ _ Hi] [-> Hs _ _ _ _]. rewrite !fmap_app in Hi.
  apply NoDup_app in Hi as (_ & Hd1 & Hi). apply NoDup_app in Hi as (_ & Hd2 & _).
  assert (Hin : forall x, is_source p x = true <-> ulid x ∈ (fun s => ulid s) <$> (b :: mid ++ [q])).
  { intros x. by rewrite is_source_spec, Hs. }
  rewrite !filter_app, (filter_all _ pre), (filter_none _ (b :: mid ++ [q])), (filter_all _ post); [done| | |].
  - intros x Hx. destruct (is_source p x) eqn:E0; [|done]. apply Hin in E0. exfalso. eapply Hd2; [exact E0|].
    by apply (list_elem_of_fmap_2 (fun s => ulid s)).
  - intros x Hx. assert (is_source p x = true); [|congruence]. apply Hin. by apply (list_elem_of_fmap_2 (fun s => ulid s)).
  - intros x Hx. destruct (is_source p x) eqn:E0; [|done]. apply Hin in E0. exfalso.
    eapply (Hd1 (ulid x)); [by apply (list_elem_of_fmap_2 (fun s => ulid s))|]. apply elem_of_app. by left.
Qed.

Lemma swap_tidy mb R bs p pre mid post b q merged : tidy R bs -> planned mb R bs p pre mid post b q ->
  block_ok merged -> minTime merged = minTime b -> maxTime merged = maxTime q -> level merged = p_Level p ->
  ulid merged ∉ (fun x => ulid x) <$> bs ->
  swap p merged bs = pre ++ merged :: post /\ tidy R (pre ++ merged :: post).
Proof.
  intros Ht Hp Hok Hmin Hmax Hlv Hid. pose proof (planned_rest _ _ _ _ _ _ _ _ _ Ht Hp) as Hrest.
  assert (Htidy : tidy R (pre ++ merged :: post)).
  { destruct Hp as [-> _ Hlevel _ Hwidth Hbefore]. destruct Ht as [Ha Ho Hi]. rewrite Forall_forall in Hlevel.
    assert (Hlb : level b + 1 = p_Level p) by (apply Hlevel; by left).
    assert (Hlq : level q + 1 = p_Level p) by (apply Hlevel; right; apply elem_of_app; right; by left).
    apply StronglySorted_app in Ha as (Hx & Hpre & Ha). apply StronglySorted_app in Ha as (Hy & _ & Hpost).
    assert (Hinq : q ∈ b :: mid ++ [q]) by (right; apply elem_of_app; right; by left).
    assert (Hinb : b ∈ b :: mid ++ [q]) by by left. constructor.
    - apply StronglySorted_app_2; [|done|].
      + intros x y Hxp Hyp. apply elem_of_cons in Hyp as [->|Hyp]; [|by apply Hx, elem_of_app; auto].
        split; [|rewrite Hlv, Hmax; by apply Hbefore].
        destruct (Hx x b Hxp) as [? _]; [apply elem_of_app; by left|lia].
      + constructor; [done|]. apply Forall_forall. intros y Hyp. split.
        * destruct (Hy q y Hinq Hyp) as [? _]. lia.
        * intros Hl. destruct (Hy b y Hinb Hyp) as [_ Hw]. rewrite Hmin. apply Hw. lia.
    - rewrite !Forall_app in Ho. destruct Ho as (Ho1 & _ & Ho2). apply Forall_app. split; [done|by constructor].
    - rewrite !fmap_app in Hi. rewrite fmap_app, fmap_cons. apply NoDup_app in Hi as (Hn1 & Hd1 & Hi).
      apply NoDup_app in Hi as (_ & Hd2 & Hn2). rewrite !fmap_app, !elem_of_app in Hid. apply NoDup_app. split_and!.
      + done.
      + intros u Hu. rewrite elem_of_cons. intros [->|Hu']; [tauto|]. eapply Hd1; [exact Hu|]. apply elem_of_app. by right.
      + apply NoDup_cons. tauto. }
  split; [|done]. unfold swap. apply (sortBlocks_tidy R); [done|]. rewrite Hrest.
  rewrite <- app_assoc. by rewrite (Permutation_app_comm post).
Qed.

(** ** Histories *)

(** What the database does to its blocks, with one width limit throughout. *)
Inductive history (opts : COptions) : list B -> Prop :=
| h_empty : history opts []
| h_cut bs b : history opts bs -> block_ok b -> level b = 0 ->
    Forall (fun x => maxTime x < minTime b) bs -> ulid b ∉ (fun x => ulid x) <$> bs ->
    history opts (sortBlocks (bs ++ [b]))
| h_compact bs p merged : history opts bs -> Next_ bs opts = Some p -> block_ok merged ->
    Span p = Some (minTime merged, maxTime merged) -> level merged = p_Level p ->
    ulid merged ∉ (fun x => ulid x) <$> bs -> history opts (swap p merged bs)
| h_retain bs cutoff : history opts bs -> history opts (retain cutoff bs)
| h_evict b bs : history opts (b :: bs) -> history opts bs.

Abbreviation width opts := (Milliseconds (co_MaxBlockRange (setDefaults opts))).

Lemma cut_tidy R bs b : tidy R bs -> block_ok b -> level b = 0 ->
  Forall (fun x => maxTime x < minTime b) bs -> ulid b ∉ (fun x => ulid x) <$> bs ->
  sortBlocks (bs ++ [b]) = bs ++ [b] /\ tidy R (bs ++ [b]).
Proof.
  intros [Ha Ho Hi] Hb Hl Hlt Hid. rewrite Forall_forall in Hlt.
  assert (Ht : tidy R (bs ++ [b])); [|split; [by apply (sortBlocks_tidy R)|done]]. constructor.
  - apply StronglySorted_app_2; [|done|by repeat constructor]. intros x y Hx Hy.
    apply list_elem_of_singleton in Hy as ->. split; [by apply Hlt|].
    rewrite Forall_forall in Ho. destruct (Ho x Hx). lia.
  - apply Forall_app. split; [done|]. by constructor.
  - rewrite fmap_app. apply NoDup_app. split_and!; [done| |apply NoDup_singleton].
    intros u Hu Hu'. apply list_elem_of_singleton in Hu' as ->. done.
Qed.

Lemma Next_tidy bs opts p : 2 <= co_MinBlocks (setDefaults opts) -> tidy (width opts) bs -> Next_ bs opts = Some p ->
  exists pre mid post b q, planned (co_MinBlocks (setDefaults opts)) (width opts) bs p pre mid post b q.
Proof. intros Hm Ht Hp. unfold Next_ in Hp. rewrite (sortBlocks_tidy _ _ _ Ht) in Hp by done. by apply plan_from_tidy. Qed.

Lemma history_tidy opts bs : 2 <= co_MinBlocks (setDefaults opts) -> history opts bs -> tidy (width opts) bs.
Proof.
  intros Hm. induction 1 as [|bs b _ IH Hok Hl Hlt Hid|bs p merged _ IH Hp Hok Hs Hl Hid|bs cutoff _ IH|b bs _ IH].
  - constructor; constructor.
  - destruct (cut_tidy _ _ _ IH Hok Hl Hlt Hid) as [-> ?]. done.
  - destruct (Next_tidy _ _ _ Hm IH Hp) as (pre & mid & post & b & q & Hpl).
    rewrite (planned_span _ _ _ _ _ _ _ _ _ IH Hpl) in Hs. injection Hs as Hmin Hmax.
    destruct (swap_tidy _ _ _ _ _ _ _ _ _ merged IH Hpl) as [-> ?]; done.
  - eapply tidy_sub; [|exact IH]. apply sublist_filter.
  - eapply tidy_sub; [|exact IH]. by apply sublist_cons.
Qed.

(** ** The merge *)

Definition samples_of (b : B) (key : gostring) : list (Z * Z) :=
  match b_SamplesFor b key with Ok ss => ss | Err _ => [] end.

(** What a block's files promise: series in key order, and for each key the
    samples the meta covers, in time order. *)
Record reader_ok (b : B) : Prop := {
  rk_sorted : StronglySorted (fun x y => str_lt (Key x) (Key y)) (b_Series b);
  rk_reads key : b_SamplesFor b key = Ok (samples_of b key);
  rk_run key : run (samples_of b key);
  rk_span key : Forall (fun s => minTime b <= s.1 <= maxTime b) (samples_of b key);
  rk_listed key : samples_of b key <> [] -> exists ref, ref ∈ b_Series b /\ Key ref = key;
}.

Lemma take_newer_after ss : forall out, run ss -> (forall x s, x ∈ out -> s ∈ ss -> x.1 < s.1) ->
  take_newer out ss = out ++ ss.
Proof.
  induction ss as [|s ss IH]; intros out Hr Hlt; cbn [take_newer]; [by rewrite app_nil_r|].
  apply StronglySorted_cons in Hr as [Hs Hr]. rewrite Forall_forall in Hs.
  assert (Hnext : take_newer (out ++ [s]) ss = out ++ s :: ss).
  { rewrite IH; [by rewrite <- app_assoc|done|]. intros x y Hx Hy. apply elem_of_app in Hx as [Hx|Hx].
    - apply Hlt; [done|by right].
    - apply list_elem_of_singleton in Hx as ->. by apply Hs. }
  destruct (last out) as [l|] eqn:El; [|done]. apply last_elem in El.
  assert (l.1 < s.1) by (apply Hlt; [done|by left]). destruct (Z.leb_spec s.1 l.1); [lia|done].
Qed.

Lemma gather_exact sources key : StronglySorted (fun a b => maxTime a < minTime b) sources ->
  Forall reader_ok sources -> gather sources key = Ok (sources ≫= fun b => samples_of b key).
Proof.
  intros Hs Hok. unfold gather.
  assert (Hgen : forall out, (forall x b, x ∈ out -> b ∈ sources -> x.1 < minTime b) ->
    gather_loop sources key out = Ok (out ++ (sources ≫= fun b => samples_of b key))); [|apply (Hgen [])].
  { revert Hok. induction Hs as [|b sources Hs IH Hb]; intros Hok out Hout; cbn [gather_loop]; [by rewrite app_nil_r|].
    apply Forall_cons_1 in Hok as [Hbk Hok]. rewrite (rk_reads _ Hbk), bind_cons.
    pose proof (rk_span _ Hbk key) as Hsp. rewrite Forall_forall in Hsp. rewrite Forall_forall in Hb.
    rewrite take_newer_after; [|apply Hbk|].
    - rewrite IH; [by rewrite app_assoc|done|]. intros x b' Hx Hb'. apply elem_of_app in Hx as [Hx|Hx].
      + apply Hout; [done|by right].
      + specialize (Hsp x Hx). specialize (Hb b' Hb'). lia.
    - intros x s Hx Hin. specialize (Hsp s Hin). assert (x.1 < minTime b) by (apply Hout; [done|by left]). lia. }
  intros x b Hx. by apply not_elem_of_nil in Hx.
Qed.
End Planning.

(** ** Merging sorted series lists *)

Abbreviation by_key := (StronglySorted (fun x y => str_lt (Key x) (Key y))).

Lemma smallest_spec lists : match smallest lists with
  | Some r => (exists l, r :: l ∈ lists) /\ forall r' l, r' :: l ∈ lists -> ~ str_lt (Key r') (Key r)
  | None => forall l, l ∈ lists -> l = []
  end.
Proof.
  induction lists as [|[|r l] lists IH]; cbn [smallest].
  - intros l Hl. by apply not_elem_of_nil in Hl.
  - destruct (smallest lists) as [r|].
    + destruct IH as [[l Hl] Hmin]. split; [exists l; by right|]. intros r' l' Hin.
      apply elem_of_cons in Hin as [?|Hin]; [done|by eapply Hmin].
    + intros l Hl. apply elem_of_cons in Hl as [->|Hl]; auto.
  - destruct (smallest lists) as [r'|].
    + destruct IH as [[l' Hl'] Hmin]. case_decide as Hlt.
      * split; [exists l'; by right|]. intros x lx Hin. apply elem_of_cons in Hin as [[= -> ->]|Hin]; [|by eapply Hmin].
        intros Hx. apply (str_lt_irrefl (Key r)). by etrans.
      * split; [exists l; by left|]. intros x lx Hin Hx. apply elem_of_cons in Hin as [[= -> ->]|Hin].
        -- by apply (str_lt_irrefl (Key r)).
        -- apply (Hmin x lx Hin). destruct (decide (Key r = Key r')) as [Heq|Hne]; [by rewrite <- Heq|].
           etrans; [exact Hx|]. apply str_le_lt; [|done]. destruct (str_le_total (Key r) (Key r')) as [?|Hle]; [done|].
           exfalso. apply Hlt. apply str_le_lt; [done|]. by intros Heq.
    + split; [exists l; by left|]. intros x lx Hin Hx. apply elem_of_cons in Hin as [[= -> ->]|Hin].
      * by apply (str_lt_irrefl (Key r)).
      * by specialize (IH _ Hin).
Qed.

Lemma str_not_lt a b : ~ str_lt a b -> a <> b -> str_lt b a.
Proof.
  intros Hn Hne. destruct (str_le_total a b) as [Hle|Hle]; [by destruct Hn; apply str_le_lt|].
  apply str_le_lt; [done|]. by intros ->.
Qed.

Lemma step_past_spec key l : by_key l -> (forall r l', l = r :: l' -> ~ str_lt (Key r) key) ->
  by_key (step_past key l) /\ (forall y, y ∈ step_past key l <-> y ∈ l /\ str_lt key (Key y)).
Proof.
  intros Hs Hmin. destruct l as [|r l]; cbn [step_past].
  { split; [done|]. intros y. split; [intros Hy|intros [Hy _]]; by apply not_elem_of_nil in Hy. }
  apply StronglySorted_cons in Hs as [Hr Hs]. rewrite Forall_forall in Hr. case_decide as Hk.
  - split; [done|]. intros y. rewrite elem_of_cons. subst key. split.
    + intros Hy. split; [by right|by apply Hr].
    + intros [[->|Hy] Hlt]; [by apply str_lt_irrefl in Hlt|done].
  - assert (Hlt : str_lt key (Key r)) by (apply str_not_lt; [by eapply Hmin|done]).
    split; [by constructor; [|apply Forall_forall]|]. intros y. split; [|by intros [? _]].
    intros Hy. split; [done|]. apply elem_of_cons in Hy as [->|Hy]; [done|]. etrans; [exact Hlt|by apply Hr].
Qed.

Lemma sum_step key lists : (exists r l, r :: l ∈ lists /\ Key r = key) ->
  (sum_list (length <$> (step_past key <$> lists)) < sum_list (length <$> lists))%nat.
Proof.
  assert (Hlen : forall l, (length (step_past key l) <= length l)%nat).
  { intros [|r l]; cbn [step_past]; [done|]. case_decide; cbn; lia. }
  assert (Hle : forall ls, (sum_list (length <$> (step_past key <$> ls)) <= sum_list (length <$> ls))%nat).
  { induction ls as [|l ls IH]; [done|]. rewrite !fmap_cons. specialize (Hlen l). unfold sum_list in *. cbn in *. lia. }
  intros (r & l & Hin & Hk). induction lists as [|l' lists IH]; [by apply not_elem_of_nil in Hin|].
  rewrite !fmap_cons. apply elem_of_cons in Hin as [<-|Hin].
  - specialize (Hle lists). cbn [step_past]. rewrite decide_True by done. unfold sum_list in *. cbn in *. lia.
  - specialize (IH Hin). specialize (Hlen l'). unfold sum_list in *. cbn in *. lia.
Qed.

Lemma merged_loop_spec fuel : forall lists, Forall (fun l => by_key l) lists -> (sum_list (length <$> lists) < fuel)%nat ->
  by_key (merged_loop fuel lists)
  /\ (forall key, (exists r, r ∈ merged_loop fuel lists /\ Key r = key) <-> exists l r, l ∈ lists /\ r ∈ l /\ Key r = key)
  /\ (forall r, r ∈ merged_loop fuel lists -> exists l, l ∈ lists /\ r ∈ l).
Proof.
  induction fuel as [|fuel IH]; intros lists Hs Hf; [lia|]. cbn [merged_loop]. pose proof (smallest_spec lists) as Hsm.
  destruct (smallest lists) as [r|].
  2: { split_and!; [constructor| |intros r Hr; by apply not_elem_of_nil in Hr].
       intros key. split; [intros (r & Hr & _); by apply not_elem_of_nil in Hr|].
       intros (l & r & Hl & Hr & _). rewrite (Hsm l Hl) in Hr. by apply not_elem_of_nil in Hr. }
  destruct Hsm as [[l0 Hl0] Hmin]. rewrite Forall_forall in Hs.
  assert (Hstep : forall l, l ∈ lists -> by_key (step_past (Key r) l)
    /\ (forall y, y ∈ step_past (Key r) l <-> y ∈ l /\ str_lt (Key r) (Key y))).
  { intros l Hl. apply step_past_spec; [by apply Hs|]. intros r' l' ->. by eapply Hmin. }
  destruct (IH (step_past (Key r) <$> lists)) as (H1 & H2 & H3).
  { apply Forall_fmap, Forall_forall. intros l Hl. by apply Hstep. }
  { assert (sum_list (length <$> (step_past (Key r) <$> lists)) < sum_list (length <$> lists))%nat; [|lia].
    apply sum_step. eauto. }
  assert (Hback : forall y l', l' ∈ step_past (Key r) <$> lists -> y ∈ l' -> exists l, l ∈ lists /\ y ∈ l /\ str_lt (Key r) (Key y)).
  { intros y l' Hl' Hy. apply list_elem_of_fmap in Hl' as (l & -> & Hl). apply (Hstep l Hl) in Hy as [? ?]. eauto. }
  split_and!.
  - constructor; [done|]. apply Forall_forall. intros y Hy. destruct (H3 y Hy) as (l' & Hl' & Hy').
    by destruct (Hback y l' Hl' Hy') as (_ & _ & _ & ?).
  - intros key. split.
    + intros (y & Hy & <-). apply elem_of_cons in Hy as [->|Hy]; [exists (r :: l0), r; split_and!; [done|by left|done]|].
      destruct (H3 y Hy) as (l' & Hl' & Hy'). destruct (Hback y l' Hl' Hy') as (l & ? & ? & _). eauto.
    + intros (l & y & Hl & Hy & <-). destruct (decide (Key y = Key r)) as [->|Hne]; [exists r; split; [by left|done]|].
      destruct (proj2 (H2 (Key y))) as (z & Hz & HK); [|exists z; split; [by right|done]].
      exists (step_past (Key r) l), y. split_and!; [by apply list_elem_of_fmap_2| |done]. apply (Hstep l Hl). split; [done|].
      apply str_not_lt; [|done]. intros Hlt. destruct l as [|h l]; [by apply not_elem_of_nil in Hy|].
      apply (Hmin h l Hl). pose proof (Hs _ Hl) as Hb. apply StronglySorted_cons in Hb as [Hb _]. rewrite Forall_forall in Hb.
      apply elem_of_cons in Hy as [->|Hy]; [done|]. etrans; [by apply Hb|done].
  - intros y Hy. apply elem_of_cons in Hy as [->|Hy]; [exists (r :: l0); split; [done|by left]|].
    destruct (H3 y Hy) as (l' & Hl' & Hy'). destruct (Hback y l' Hl' Hy') as (l & ? & ? & _). eauto.
Qed.

Section Merging.
Context {B E : Type} `{BlockReader B E}.
Abbreviation minTime b := (bm_MinTime (b_Meta b)).
Abbreviation maxTime b := (bm_MaxTime (b_Meta b)).

Lemma merged_content_spec sources refs : StronglySorted (fun a b => maxTime a < minTime b) sources ->
  Forall reader_ok sources -> exists out, merge_loop sources refs = Ok out
    /\ (forall ref ss, (ref, ss) ∈ out <-> ref ∈ refs /\ ss = (sources ≫= fun b => samples_of b (Key ref)) /\ ss <> [])
    /\ sublist (out.*1) refs.
Proof.
  intros Hs Hok. induction refs as [|ref refs IH]; cbn [merge_loop].
  { exists []. split_and!; [done| |done]. intros ref ss. split; [intros Hin|intros [Hin _]]; by apply not_elem_of_nil in Hin. }
  destruct IH as (out & -> & Hin & Hsub). rewrite gather_exact by done.
  destruct (sources ≫= fun b => samples_of b (Key ref)) as [|s ss] eqn:Es.
  - exists out. split_and!; [done| |by constructor]. intros r l. rewrite Hin, elem_of_cons. split; [naive_solver|].
    intros ([->|Hr] & El & Hne); [congruence|done].
  - exists ((ref, s :: ss) :: out). split_and!; [done| |by cbn; constructor]. intros r l. rewrite !elem_of_cons, Hin. split.
    + intros [[= -> ->]|(Hr & El & Hne)]; [by rewrite Es; auto|auto].
    + intros ([->|Hr] & El & Hne); [left; by rewrite El, Es|auto].
Qed.

Lemma apart_order R sources : StronglySorted (apart R) sources -> StronglySorted (fun a b => maxTime a < minTime b) sources.
Proof. induction 1 as [|b l Hl IH Hb]; constructor; [done|]. eapply Forall_impl; [exact Hb|]. by intros x [? _]. Qed.

Lemma planned_order mb R bs p pre mid post b q : tidy R bs -> planned mb R bs p pre mid post b q ->
  StronglySorted (fun a b => maxTime a < minTime b) (p_Sources p).
Proof.
  intros Ht [Eb Es _ _ _ _]. apply (apart_order R). destruct Ht as [Ha _ _]. rewrite Eb, <- Es in Ha.
  apply StronglySorted_app in Ha as (_ & _ & Ha). by apply StronglySorted_app in Ha as (_ & ? & _).
Qed.

Lemma bind_run sources key : StronglySorted (fun a b => maxTime a < minTime b) sources -> Forall reader_ok sources ->
  run (sources ≫= fun b => samples_of b key).
Proof.
  induction 1 as [|b l Hl IH Hb]; intros Hok; [constructor|]. apply Forall_cons_1 in Hok as [Hbk Hok].
  rewrite bind_cons. apply run_app. split_and!; [apply Hbk|by apply IH|]. intros x y Hx Hy.
  apply list_elem_of_bind in Hy as (c & Hy & Hc). rewrite Forall_forall in Hb, Hok.
  pose proof (rk_span _ Hbk key) as H1. pose proof (rk_span _ (Hok c Hc) key) as H2. rewrite Forall_forall in H1, H2.
  specialize (H1 x Hx). specialize (H2 y Hy). specialize (Hb c Hc). unfold before. lia.
Qed.

(** C12: with one width limit, whatever sequence of block cuts, compactions,
    retention and evictions led here, the blocks are disjoint in time, and the
    next compaction the planner proposes is a contiguous run of at least the
    minimum number of blocks of one level that together span at most the limit:
    skipping blocks of other levels never makes it merge around one. *)
Theorem compaction_contiguous opts bs p : 2 <= co_MinBlocks (setDefaults opts) -> history opts bs ->
  Next_ bs opts = Some p ->
  StronglySorted (fun a b => maxTime a < minTime b) bs
  /\ exists pre post minT maxT, bs = pre ++ p_Sources p ++ post
    /\ Forall (fun x => bm_Level (b_Meta x) + 1 = p_Level p) (p_Sources p)
    /\ co_MinBlocks (setDefaults opts) <= Z.of_nat (length (p_Sources p))
    /\ Span p = Some (minT, maxT) /\ maxT - minT <= Milliseconds (co_MaxBlockRange (setDefaults opts)).
Proof.
  intros Hm Hh Hp. pose proof (history_tidy _ _ Hm Hh) as Ht. split; [by eapply apart_order, ti_apart|].
  destruct (Next_tidy _ _ _ Hm Ht Hp) as (pre & mid & post & b & q & Hpl).
  pose proof (planned_span _ _ _ _ _ _ _ _ _ Ht Hpl) as Hs. destruct Hpl as [Eb Es Hl Hn Hw _].
  exists pre, post, (minTime b), (maxTime q). rewrite Es in *. split_and!; done.
Qed.

(** The merge of ordered sources: each key's samples concatenated, under one of the
    sources' series. *)
Lemma merge_exact p : StronglySorted (fun a b => maxTime a < minTime b) (p_Sources p) -> Forall reader_ok (p_Sources p) ->
  exists out, merge_content p = Ok out
    /\ StronglySorted (fun x y => str_lt (Key x.1) (Key y.1)) out
    /\ (forall ref ss, (ref, ss) ∈ out ->
          ss = (p_Sources p ≫= fun b => samples_of b (Key ref)) /\ ss <> [] /\ run ss)
    /\ (forall key, (p_Sources p ≫= fun b => samples_of b key) <> [] -> exists ref,
          Key ref = key /\ (ref, p_Sources p ≫= fun b => samples_of b key) ∈ out)
    /\ (forall ref ss, (ref, ss) ∈ out -> exists b, b ∈ p_Sources p /\ ref ∈ b_Series b).
Proof.
  intros Hord Hsok.
  unfold merge_content. destruct (merged_content_spec (p_Sources p) (mergedSeries (p_Sources p)) Hord Hsok) as (out & -> & Hin & Hsub).
  destruct (merged_loop_spec (S (sum_list (length <$> (b_Series <$> p_Sources p)))) (b_Series <$> p_Sources p))
    as (Hk1 & Hk2 & Hk3); [|lia|]; fold (mergedSeries (p_Sources p)) in *.
  { apply Forall_fmap. eapply Forall_impl; [exact Hsok|]. intros x Hx. apply Hx. }
  exists out. split_and!; [done| | | |].
  - pose proof (sorted_sub _ _ _ Hsub Hk1) as Hs. clear -Hs.
    induction out as [|[r ss] out IH]; [constructor|]. cbn in Hs. apply StronglySorted_cons in Hs as [Hr Hs].
    constructor; [by apply IH|]. rewrite Forall_forall in Hr. apply Forall_forall. intros y Hy. apply Hr. by apply (list_elem_of_fmap_2 fst).
  - intros ref ss Hr. apply Hin in Hr as (_ & -> & Hne). split_and!; [done|done|by apply bind_run].
  - intros key Hne. assert (Hex : exists c, c ∈ p_Sources p /\ samples_of c key <> []).
    { destruct (p_Sources p ≫= _) as [|s ss] eqn:Es; [done|].
      assert (Hs : s ∈ p_Sources p ≫= fun b => samples_of b key) by (rewrite Es; by left).
      apply list_elem_of_bind in Hs as (c & Hs & Hc). exists c. split; [done|]. intros E0. rewrite E0 in Hs.
      by apply not_elem_of_nil in Hs. }
    destruct Hex as (c & Hc & Hcn). rewrite Forall_forall in Hsok. destruct (rk_listed _ (Hsok c Hc) key Hcn) as (r0 & Hr0 & HK0).
    destruct (proj2 (Hk2 key)) as (ref & Href & HK); [exists (b_Series c), r0; split_and!; [by apply list_elem_of_fmap_2|done|done]|].
    exists ref. split; [done|]. apply Hin. rewrite HK. done.
  - intros ref ss Hr. apply Hin in Hr as (Hr & _). destruct (Hk3 ref Hr) as (l & Hl & Hrl).
    apply list_elem_of_fmap in Hl as (c & -> & Hc). eauto.
Qed.

Lemma planned_sub mb R bs p pre mid post b q : planned mb R bs p pre mid post b q -> sublist (p_Sources p) bs.
Proof. intros [-> -> _ _ _ _]. apply sublist_inserts_l. by apply sublist_inserts_r. Qed.

(** Such a compaction loses nothing and invents nothing: for every key the
    merged block gets exactly the sources' samples of it, concatenated in time
    order, under one series, and the series come in key order. *)
Theorem compaction_lossless opts bs p : 2 <= co_MinBlocks (setDefaults opts) -> history opts bs ->
  Next_ bs opts = Some p -> Forall reader_ok bs ->
  exists out, merge_content p = Ok out
    /\ StronglySorted (fun x y => str_lt (Key x.1) (Key y.1)) out
    /\ (forall ref ss, (ref, ss) ∈ out ->
          ss = (p_Sources p ≫= fun b => samples_of b (Key ref)) /\ ss <> [] /\ run ss)
    /\ (forall key, (p_Sources p ≫= fun b => samples_of b key) <> [] -> exists ref,
          Key ref = key /\ (ref, p_Sources p ≫= fun b => samples_of b key) ∈ out).
Proof.
  intros Hm Hh Hp Hok. pose proof (history_tidy _ _ Hm Hh) as Ht.
  destruct (Next_tidy _ _ _ Hm Ht Hp) as (pre & mid & post & b & q & Hpl).
  destruct (merge_exact p) as (out & H1 & H2 & H3 & H4 & _); [by eapply planned_order| |by exists out].
  apply planned_sub in Hpl. rewrite Forall_forall in Hok. apply Forall_forall. intros x Hx. apply Hok. by eapply sublist_subseteq.
Qed.
End Merging.

(** ** Blocks in memory, for examples *)

Record mem_block := MkMemBlock { mb_meta : Meta; mb_series : list (SeriesRef * list (Z * Z)) }.
#[local] Instance mem_block_reader : BlockReader mem_block unit := {|
  b_Meta := mb_meta;
  b_Series b := (mb_series b).*1;
  b_SamplesFor b key := Ok (match list_find (fun x => Key x.1 = key) (mb_series b) with Some (_, x) => x.2 | None => [] end);
|}.

Definition cpu : SeriesRef := NewSeriesRef (str "cpu") [].
(** A block of one series with a sample at each end. *)
Definition small (id lo hi : Z) : mem_block :=
  MkMemBlock (MkMeta id 1 lo hi (MkBStats 1 2 1) 0 [] 0) [(cpu, [(lo, id); (hi, id)])].

(** One pass of [DB.Compact]: plan, merge, swap in a block with a new id. *)
Definition compact_pass (opts : COptions) (id : Z) (bs : list mem_block) : list mem_block :=
  match Next_ bs opts with
  | None => bs
  | Some p =>
      match merge_content p, Span p with
      | Ok content, Some (minT, maxT) =>
          swap p (MkMemBlock (MkMeta id 1 minT maxT (MkBStats 0 0 0) (p_Level p) ((fun b => bm_ULID (b_Meta b)) <$> p_Sources p) 0) content) bs
      | _, _ => bs
      end
  end.

Definition all_times (bs : list mem_block) : list Z := merge_sort Z.le (bs ≫= fun b => (mb_series b ≫= snd).*1).

Definition narrow : COptions := MkCOptions 3 6000000.
Definition wide : COptions := MkCOptions 3 100000000.

(** Cut under a limit of 6 ms; [0..2] is too far from the others to join them. *)
Definition before_raise : list mem_block :=
  compact_pass narrow 10 [small 1 0 2; small 2 4 5; small 3 6 7; small 4 8 10].
(** Then the limit is raised to 100 ms, and cutting goes on. *)
Definition after_raise : list mem_block :=
  before_raise ++ [small 5 12 13; small 6 14 15; small 7 16 17; small 8 18 19; small 9 20 21].

(** The fixed limit is needed.  After the limit is raised the planner merges
    the blocks around an older block of a higher level, so that two passes later
    the sources of a compaction overlap in time; the merge then drops, without
    an error, every sample of the enclosed block. *)
Theorem raised_limit_loses_samples :
  all_times after_raise = [0; 2; 4; 5; 6; 7; 8; 10; 12; 13; 14; 15; 16; 17; 18; 19; 20; 21]
  /\ let merged := compact_pass wide 13 (compact_pass wide 12 (compact_pass wide 11 after_raise)) in
     length merged = 1%nat /\ all_times merged = [0; 2; 12; 13; 14; 15; 16; 17; 18; 19; 20; 21].
Proof. vm_compute. auto. Qed.

Definition example_blocks : list mem_block :=
  sortBlocks (sortBlocks (sortBlocks (sortBlocks ([] ++ [small 1 0 2]) ++ [small 2 4 5]) ++ [small 3 6 7]) ++ [small 4 8 10]).
Definition example_plan : Plan mem_block := MkPlan [small 2 4 5; small 3 6 7; small 4 8 10] 1.

Lemma small_ok id lo hi : -1000 <= lo -> lo <= hi -> hi <= 1000 -> block_ok (small id lo hi).
Proof. constructor; cbn; lia. Qed.

Lemma example_history : history narrow example_blocks.
Proof.
  unfold example_blocks.
  repeat (apply h_cut; [|by apply small_ok|done|
    vm_compute; repeat (apply Forall_cons; split; [reflexivity|]); apply Forall_nil, I|
    vm_compute; intros Hin; repeat (apply elem_of_cons in Hin as [Hin|Hin]; [discriminate|]); by apply not_elem_of_nil in Hin]).
  apply h_empty.
Qed.

Lemma example_planned : Next_ example_blocks narrow = Some example_plan.
Proof. vm_compute. reflexivity. Qed.

Lemma compaction_contiguous_witness :
  StronglySorted (fun a b => bm_MaxTime (b_Meta a) < bm_MinTime (b_Meta b)) example_blocks
  /\ exists pre post minT maxT, example_blocks = pre ++ p_Sources example_plan ++ post
    /\ Forall (fun x => bm_Level (b_Meta x) + 1 = p_Level example_plan) (p_Sources example_plan)
    /\ co_MinBlocks (setDefaults narrow) <= Z.of_nat (length (p_Sources example_plan))
    /\ Span example_plan = Some (minT, maxT) /\ maxT - minT <= Milliseconds (co_MaxBlockRange (setDefaults narrow)).
Proof.
  apply (compaction_contiguous narrow); [vm_compute; discriminate|apply example_history|apply example_planned].
Defined.

Lemma small_reader id lo hi : lo < hi -> reader_ok (small id lo hi).
Proof.
  intros Hlt. assert (Hs : forall key, samples_of (small id lo hi) key = if decide (Key cpu = key) then [(lo, id); (hi, id)] else []).
  { intros key. unfold samples_of. cbn [b_SamplesFor mem_block_reader small mb_series list_find fst].
    destruct (decide (Key cpu = key)); done. }
  constructor.
  - cbn. repeat constructor.
  - done.
  - intros key. rewrite Hs. case_decide; repeat constructor. unfold before. cbn. lia.
  - intros key. rewrite Hs. case_decide; [|constructor]. repeat (apply Forall_cons; split; [cbn; lia|]). constructor.
  - intros key. rewrite Hs. case_decide as Hk; [|done]. intros _. exists cpu. split; [by left|done].
Qed.

Lemma compaction_lossless_witness :
  (exists out, merge_content example_plan = Ok out
    /\ StronglySorted (fun x y => str_lt (Key x.1) (Key y.1)) out
    /\ (forall ref ss, (ref, ss) ∈ out ->
          ss = (p_Sources example_plan ≫= fun b => samples_of b (Key ref)) /\ ss <> [] /\ run ss)
    /\ (forall key, (p_Sources example_plan ≫= fun b => samples_of b key) <> [] -> exists ref,
          Key ref = key /\ (ref, p_Sources example_plan ≫= fun b => samples_of b key) ∈ out))
  /\ merge_content example_plan = Ok [(cpu, [(4, 2); (5, 2); (6, 3); (7, 3); (8, 4); (10, 4)])].
Proof.
  split; [|vm_compute; reflexivity].
  apply (compaction_lossless narrow example_blocks);
    [vm_compute; discriminate|apply example_history|apply example_planned|].
  assert (E : example_blocks = [small 1 0 2; small 2 4 5; small 3 6 7; small 4 8 10]) by (vm_compute; reflexivity).
  rewrite E. repeat (apply Forall_cons; split; [by apply small_reader|]). apply Forall_nil, I.
Defined.
