(* ===== verification/BlockFile.v ===== *)
(** * Block files (internal/tsdb/block: chunks.go, indexfile.go)

    The two binary files of an immutable block: chunks.dat, a sequence of
    checksummed chunk records found by offset, and index.dat, the symbols,
    series, postings and offset table behind a block's [index.Lookup].

    A slice expression or a fixed-width read that would be out of range is the
    error [ErrPanic], so that "the reader never panics" is a statement about
    these definitions. *)

From Stdlib Require Import ZArith Lia.
From Stdlib Require Import (notations) String.
From stdpp Require Import base sorting gmap numbers list.
From S2P Require Import Prelude Wal Gostring Tsdb Index HeadRecord.

Inductive block_error :=
| ErrPanic
| ErrShortHeader | ErrNotAChunksFile (magic : Z) | ErrChunksVersion (v : Z)
| ErrRecordLength (off recLen : Z) | ErrPastEnd (off recLen size : Z) | ErrLengthPrefix (off : Z) | ErrChunkCorrupt (off : Z)
| ErrIndexTooShort | ErrNotAnIndex (magic : Z) | ErrIndexVersion (v : Z) | ErrIndexCorrupt | ErrTOC
| ErrSymbolCount (n : Z) | ErrSymbol (i : Z) | ErrSymbolRef (i : Z)
| ErrSeriesCount (n : Z) | ErrSeriesTags (n : Z) | ErrSeriesChunks (n : Z) | ErrSeriesRead
| ErrTableCount (n : Z) | ErrTableEntry (i : Z) | ErrTableRead
| ErrDecode.

Abbreviation R := (result block_error).

(** [b[lo:hi]] and [b[lo:]]. *)
Definition slice (b : list Z) (lo hi : Z) : R (list Z) :=
  if (0 <=? lo) && (lo <=? hi) && (hi <=? ulen b) then Ok (take (Z.to_nat (hi - lo)) (drop (Z.to_nat lo) b)) else Err ErrPanic.
Definition slice_from (b : list Z) (lo : Z) : R (list Z) := slice b lo (ulen b).

(** [binary.BigEndian.Uint32] and [Uint64] of a slice. *)
Definition BigEndian_Uint32 (b : list Z) : R Z := if ulen b <? 4 then Err ErrPanic else Ok (Uint32 b).
Definition BigEndian_Uint64 (b : list Z) : R Z :=
  if ulen b <? 8 then Err ErrPanic
  else Ok (Z.lor (Uint32 (drop 4 b)) (Z.shiftl (Uint32 b) 32)).
Definition PutUint64 (v : Z) : list Z := PutUint32 (Z.shiftr v 32) ++ PutUint32 v.

(** ** chunks.dat *)

Definition chunksMagic : Z := 0x4f5a4348.
Definition chunksVersion : Z := 1.
Definition chunksHeaderLen : Z := 5.
Definition EncodingGorilla : Z := 1.
Definition maxChunkLen : Z := Z.shiftl 1 20.

(** The header [newChunkWriter] writes. *)
Definition chunks_header : list Z := PutUint32 chunksMagic ++ [chunksVersion].

Record chunkWriter := MkChunkWriter { cw_file : list Z; cw_off : Z }.
Definition newChunkWriter : chunkWriter := MkChunkWriter chunks_header chunksHeaderLen.

(** The record [chunkWriter.write] builds in its buffer. *)
Definition chunk_record (encoding : Z) (data : list Z) : list Z :=
  let buf := AppendUvarint [] (uint64 (ulen data + 1)) in
  let buf := buf ++ [encoding] in
  let buf := buf ++ data in
  let crc := crc32c (drop (length buf - length data - 1) buf) in
  buf ++ PutUint32 crc.

(** [chunkWriter.write] when the file accepts the write. *)
Definition cw_write (encoding : Z) (data : list Z) (w : chunkWriter) : chunkWriter * (Z * Z) :=
  let buf := chunk_record encoding data in
  (MkChunkWriter (cw_file w ++ buf) (uint64 (cw_off w + ulen buf)), (cw_off w, ulen buf)).

(** An open chunks.dat: [r.size] is its length. *)
Definition openChunkReader (file : list Z) : R (list Z) :=
  if ulen file <? chunksHeaderLen then Err ErrShortHeader else
  got ← BigEndian_Uint32 (take 5 file);
  if negb (got =? chunksMagic) then Err (ErrNotAChunksFile got) else
  match drop 4 (take 5 file) with
  | v :: _ => if negb (v =? chunksVersion) then Err (ErrChunksVersion v) else Ok file
  | [] => Err ErrPanic
  end.

Definition chunk_at (file : list Z) (off recLen : Z) : R (Z * list Z) :=
  let size := ulen file in
  if (recLen <? 6) || (maxChunkLen <? recLen) then Err (ErrRecordLength off recLen) else
  if (size <? off) || (uint64 (size - off) <? recLen) then Err (ErrPastEnd off recLen size) else
  rec ← slice file (int64 off) (int64 off + recLen);
  match Uvarint rec with
  | None => Err (ErrLengthPrefix off)
  | Some (length, rest) =>
      let used := ulen rec - ulen rest in
      if (recLen <=? uint64 (used + 4)) || negb (length =? uint64 (recLen - 4 - used)) then Err (ErrLengthPrefix off) else
      body ← slice rec used (uint64 (used + length));
      tail ← slice_from rec (uint64 (used + length));
      want ← BigEndian_Uint32 tail;
      if negb (crc32c body =? want) then Err (ErrChunkCorrupt off) else
      match body with encoding :: data => Ok (encoding, data) | [] => Err ErrPanic end
  end.

(** ** index.dat: writing *)

Definition indexMagic : Z := 0x4f5a4958.
Definition indexVersion : Z := 1.
Definition indexHeadLen : Z := 5.
Definition tocLen : Z := 8 * 4.

Record chunkRef := MkChunkRef { cr_minT : Z; cr_maxT : Z; cr_off : Z; cr_recLen : Z }.
Record blockSeries := MkBlockSeries { bs_ref : SeriesRef; bs_chunks : list chunkRef }.

(** [sort.Slice] by key. *)
Definition series_le (a b : blockSeries) : Prop := str_le (Key (bs_ref a)) (Key (bs_ref b)).
#[export] Instance series_le_dec : RelDecision series_le.
Proof. intros a b. unfold series_le. apply _. Defined.

Definition symbol_set (series : list blockSeries) : gset gostring :=
  {[ MetricName ]} ∪ list_to_set (series ≫= fun s =>
    sr_Metric (bs_ref s) :: (sr_Tags (bs_ref s) ≫= fun t => [t_Key t; t_Value t])).

Definition buildSymbols (series : list blockSeries) : list gostring * gmap gostring Z :=
  let syms := merge_sort str_le (elements (symbol_set series)) in
  (syms, list_to_map (imap (fun i s => (s, Z.of_nat i)) syms)).

Record postingList := MkPostingList { pl_key : gostring; pl_value : gostring; pl_ids : list Z }.

Definition inv_add (m : gmap gostring (gmap gostring (list Z))) (k v : gostring) (id : Z) :=
  let vals := default ∅ (m !! k) in <[k := <[v := default [] (vals !! v) ++ [id]]> vals]> m.

Definition inv_series (m : gmap gostring (gmap gostring (list Z))) (id : Z) (s : blockSeries) :=
  foldl (fun m t => inv_add m (t_Key t) (t_Value t) id) (inv_add m MetricName (sr_Metric (bs_ref s)) id) (sr_Tags (bs_ref s)).

Fixpoint inv_from (id : Z) (m : gmap gostring (gmap gostring (list Z))) (series : list blockSeries) :=
  match series with [] => m | s :: rest => inv_from (id + 1) (inv_series m id s) rest end.

Definition posting_le (a b : postingList) : Prop :=
  str_lt (pl_key a) (pl_key b) \/ (pl_key a = pl_key b /\ str_le (pl_value a) (pl_value b)).
#[export] Instance posting_le_dec : RelDecision posting_le.
Proof. intros a b. unfold posting_le. apply _. Defined.

Definition invert (series : list blockSeries) : list postingList :=
  merge_sort posting_le (map_to_list (inv_from 0 ∅ series) ≫= fun kv =>
    (fun vi => MkPostingList kv.1 vi.1 vi.2) <$> map_to_list kv.2).

Definition put_symbol (buf : list Z) (s : gostring) : list Z := AppendUvarint buf (ulen s) ++ s.

Definition put_chunk (buf : list Z) (c : chunkRef) : list Z :=
  let buf := AppendVarint buf (cr_minT c) in
  let buf := AppendUvarint buf (uint64 (int64 (cr_maxT c - cr_minT c))) in
  let buf := AppendUvarint buf (cr_off c) in
  AppendUvarint buf (cr_recLen c).

Definition sym_of (symID : gmap gostring Z) (s : gostring) : Z := default 0 (symID !! s).

Definition put_series (symID : gmap gostring Z) (buf : list Z) (s : blockSeries) : list Z :=
  let buf := AppendUvarint buf (sym_of symID (sr_Metric (bs_ref s))) in
  let buf := AppendUvarint buf (ulen (sr_Tags (bs_ref s))) in
  let buf := foldl (fun buf t => AppendUvarint (AppendUvarint buf (sym_of symID (t_Key t))) (sym_of symID (t_Value t)))
    buf (sr_Tags (bs_ref s)) in
  let buf := AppendUvarint buf (ulen (bs_chunks s)) in
  foldl put_chunk buf (bs_chunks s).

(** The ids as a first value and deltas. *)
Fixpoint put_deltas (buf : list Z) (prev : Z) (ids : list Z) : list Z :=
  match ids with [] => buf | id :: rest => put_deltas (AppendUvarint buf (uint64 (id - prev))) id rest end.
Definition put_ids (buf : list Z) (ids : list Z) : list Z :=
  match ids with [] => buf | id :: rest => put_deltas (AppendUvarint buf id) id rest end.

Record tableEntry := MkTableEntry { te_keySym : Z; te_valSym : Z; te_off : Z }.

Definition put_list (symID : gmap gostring Z) (acc : list Z * list tableEntry) (l : postingList) : list Z * list tableEntry :=
  let '(buf, table) := acc in
  let table := table ++ [MkTableEntry (sym_of symID (pl_key l)) (sym_of symID (pl_value l)) (ulen buf)] in
  (put_ids (AppendUvarint buf (ulen (pl_ids l))) (pl_ids l), table).

Definition put_entry (buf : list Z) (e : tableEntry) : list Z :=
  AppendUvarint (AppendUvarint (AppendUvarint buf (te_keySym e)) (te_valSym e)) (te_off e).

(** The bytes [indexWriter.writeTo] hands to writeFileSync. *)
Definition index_bytes (series : list blockSeries) : list Z :=
  let series := merge_sort series_le series in
  let '(syms, symID) := buildSymbols series in
  let buf := PutUint32 indexMagic ++ [indexVersion] in
  let symbolsOff := ulen buf in
  let buf := AppendUvarint buf (ulen syms) in
  let buf := foldl put_symbol buf syms in
  let seriesOff := ulen buf in
  let buf := AppendUvarint buf (ulen series) in
  let buf := foldl (put_series symID) buf series in
  let postingsOff := ulen buf in
  let '(buf, table) := foldl (put_list symID) (buf, []) (invert series) in
  let tableOff := ulen buf in
  let buf := AppendUvarint buf (ulen table) in
  let buf := foldl put_entry buf table in
  let buf := foldl (fun buf off => buf ++ PutUint64 off) buf [symbolsOff; seriesOff; postingsOff; tableOff] in
  buf ++ PutUint32 (crc32c buf).

(** ** index.dat: reading *)

Record indexReader := MkIndexReader {
  ir_symbols : list gostring;
  ir_symID : gmap gostring Z;
  ir_series : list blockSeries;
  ir_postings : list Z;
  ir_table : list tableEntry;
  ir_all : list Z;
}.

Definition failed (d : decoder) : bool := match d_err d with Some _ => true | None => false end.

Fixpoint readSymbols_loop (n : nat) (i : Z) (d : decoder) (syms : list gostring) (ids : gmap gostring Z) :
  R (list gostring * gmap gostring Z) :=
  match n with
  | O => Ok (syms, ids)
  | S n' =>
      let '(s, d) := d_str d in
      if failed d then Err (ErrSymbol i) else readSymbols_loop n' (i + 1) d (syms ++ [s]) (<[s := ulen syms]> ids)
  end.
Definition readSymbols (d : decoder) : R (list gostring * gmap gostring Z) :=
  let '(n, d) := d_uvarint d in
  if failed d || (ulen (d_b d) <? n) then Err (ErrSymbolCount n) else readSymbols_loop (Z.to_nat n) 0 d [] ∅.

Definition sym (symbols : list gostring) (i : Z) : R gostring :=
  if ulen symbols <=? i then Err (ErrSymbolRef i)
  else match symbols !! Z.to_nat i with Some s => Ok s | None => Err ErrPanic end.

Fixpoint readTags (symbols : list gostring) (n : nat) (d : decoder) : R (list Tag * decoder) :=
  match n with
  | O => Ok ([], d)
  | S n' =>
      let '(i, d) := d_uvarint d in
      k ← sym symbols i;
      let '(j, d) := d_uvarint d in
      v ← sym symbols j;
      '(ts, d) ← readTags symbols n' d;
      Ok (MkTag k v :: ts, d)
  end.

Fixpoint readChunkRefs (n : nat) (d : decoder) : list chunkRef * decoder :=
  match n with
  | O => ([], d)
  | S n' =>
      let '(minT, d) := d_varint d in
      let '(span, d) := d_uvarint d in
      let '(off, d) := d_uvarint d in
      let '(recLen, d) := d_uvarint d in
      let '(cs, d) := readChunkRefs n' d in
      (MkChunkRef minT (int64 (minT + int64 span)) off recLen :: cs, d)
  end.

Definition readOneSeries (symbols : list gostring) (d : decoder) : R (blockSeries * decoder) :=
  let '(i, d) := d_uvarint d in
  metric ← sym symbols i;
  let '(ntags, d) := d_uvarint d in
  if failed d || (ulen (d_b d) <? ntags) then Err (ErrSeriesTags ntags) else
  '(tags, d) ← readTags symbols (Z.to_nat ntags) d;
  let '(nchunks, d) := d_uvarint d in
  if failed d || (ulen (d_b d) <? nchunks) then Err (ErrSeriesChunks nchunks) else
  let '(chunks, d) := readChunkRefs (Z.to_nat nchunks) d in
  if failed d then Err ErrSeriesRead else Ok (MkBlockSeries (MkSeriesRef metric tags) chunks, d).

Fixpoint readSeries_loop (symbols : list gostring) (n : nat) (d : decoder) (out : list blockSeries) : R (list blockSeries) :=
  match n with
  | O => Ok out
  | S n' => '(s, d) ← readOneSeries symbols d; readSeries_loop symbols n' d (out ++ [s])
  end.
Definition readSeries (symbols : list gostring) (d : decoder) : R (list blockSeries) :=
  let '(n, d) := d_uvarint d in
  if failed d || (ulen (d_b d) <? n) then Err (ErrSeriesCount n) else readSeries_loop symbols (Z.to_nat n) d [].

Fixpoint readTable_loop (size : Z) (n : nat) (i : Z) (d : decoder) (out : list tableEntry) : R (list tableEntry) :=
  match n with
  | O => if failed d then Err ErrTableRead else Ok out
  | S n' =>
      let '(k, d) := d_uvarint d in
      let '(v, d) := d_uvarint d in
      let '(off, d) := d_uvarint d in
      if size <=? off then Err (ErrTableEntry i) else readTable_loop size n' (i + 1) d (out ++ [MkTableEntry k v off])
  end.
Definition readTable (size : Z) (d : decoder) : R (list tableEntry) :=
  let '(n, d) := d_uvarint d in
  if failed d || (ulen (d_b d) <? n) then Err (ErrTableCount n) else readTable_loop size (Z.to_nat n) 0 d [].

(** The four offsets of the table of contents, each inside the file. *)
Fixpoint read_toc (body toc : list Z) (n : nat) : R (list Z) :=
  match n with
  | O => Ok []
  | S n' =>
      off ← BigEndian_Uint64 toc;
      if ulen body <? off then Err ErrTOC else
      toc' ← slice_from toc 8;
      rest ← read_toc body toc' n';
      Ok (off :: rest)
  end.

Definition openIndexReader (b : list Z) : R indexReader :=
  if ulen b <? indexHeadLen + tocLen + 4 then Err ErrIndexTooShort else
  got ← BigEndian_Uint32 b;
  if negb (got =? indexMagic) then Err (ErrNotAnIndex got) else
  match b !! 4%nat with
  | None => Err ErrPanic
  | Some v =>
      if negb (v =? indexVersion) then Err (ErrIndexVersion v) else
      body ← slice b 0 (ulen b - 4);
      tail ← slice_from b (ulen b - 4);
      sum ← BigEndian_Uint32 tail;
      if negb (crc32c body =? sum) then Err ErrIndexCorrupt else
      toc ← slice_from body (ulen body - tocLen);
      offs ← read_toc body toc 4;
      match offs with
      | [symbolsOff; seriesOff; _; tableOff] =>
          bs ← slice_from body symbolsOff;
          '(symbols, symID) ← readSymbols (MkDecoder bs None);
          bs ← slice_from body seriesOff;
          series ← readSeries symbols (MkDecoder bs None);
          bs ← slice_from body tableOff;
          table ← readTable (ulen body) (MkDecoder bs None);
          Ok (MkIndexReader symbols symID series body table (Z.of_nat <$> seq 0 (length series)))
      | _ => Err ErrPanic
      end
  end.

(** ** The block's [index.Lookup] *)

Fixpoint readPostings_loop (n : nat) (first : bool) (prev : Z) (d : decoder) (out : list Z) : list Z :=
  match n with
  | O => out
  | S n' =>
      let '(delta, d) := d_uvarint d in
      if failed d then out else
      let prev := if first then delta else uint64 (prev + delta) in
      readPostings_loop n' false prev d (out ++ [prev])
  end.

Definition readPostings (r : indexReader) (off : Z) : R (list Z) :=
  bs ← slice_from (ir_postings r) off;
  let '(n, d) := d_uvarint (MkDecoder bs None) in
  if failed d || (ulen (d_b d) + 1 <? n) then Ok [] else Ok (readPostings_loop (Z.to_nat n) true 0 d []).

(** A lookup that panics out of range. *)
Definition or_panic {A} (o : option A) : R A := match o with Some a => Ok a | None => Err ErrPanic end.
(** [r.table[i]] *)
Definition table_at (r : indexReader) (i : nat) : option tableEntry := ir_table r !! i.

Definition BPostings (r : indexReader) (key value : gostring) : R (list Z) :=
  match ir_symID r !! key, ir_symID r !! value with
  | Some k, Some v =>
      let n := length (ir_table r) in
      i ← or_panic (SearchTry n (fun i => e ← table_at r i;
        Some ((k <? te_keySym e) || ((te_keySym e =? k) && (v <=? te_valSym e)))));
      if (i =? n)%nat then Ok [] else
      e ← or_panic (table_at r i);
      if negb (te_keySym e =? k) || negb (te_valSym e =? v) then Ok [] else readPostings r (te_off e)
  | _, _ => Ok []
  end.

(** The run of entries with one key, from [i] on; each round passes one entry, so the
    entries left are fuel. *)
Fixpoint values_at (fuel : nat) (r : indexReader) (k : Z) (i : nat) (out : list gostring) : R (list gostring) :=
  match fuel with
  | O => Ok out
  | S fuel' =>
      if negb (i <? length (ir_table r))%nat then Ok out else
      e ← or_panic (table_at r i);
      if te_keySym e =? k then
        match sym (ir_symbols r) (te_valSym e) with
        | Err _ => Ok out
        | Ok v => values_at fuel' r k (S i) (out ++ [v])
        end
      else Ok out
  end.

Definition BTagValues (r : indexReader) (key : gostring) : R (list gostring) :=
  match ir_symID r !! key with
  | None => Ok []
  | Some k =>
      let n := length (ir_table r) in
      i ← or_panic (SearchTry n (fun i => e ← table_at r i; Some (k <=? te_keySym e)));
      values_at (n - i) r k i []
  end.

Fixpoint keys_from (symbols : list gostring) (last : option Z) (es : list tableEntry) : list gostring :=
  match es with
  | [] => []
  | e :: rest =>
      if bool_decide (last = Some (te_keySym e)) then keys_from symbols last rest
      else match sym symbols (te_keySym e) with
           | Err _ => []
           | Ok k => k :: keys_from symbols (Some (te_keySym e)) rest
           end
  end.
Definition BTagKeys (r : indexReader) : list gostring := keys_from (ir_symbols r) None (ir_table r).

#[export] Instance indexReader_Lookup : Lookup indexReader := {|
  Postings := fun r key value => match BPostings r key value with Ok ids => ids | Err _ => [] end;
  TagValues := fun r key => match BTagValues r key with Ok vs => vs | Err _ => [] end;
  TagKeys := BTagKeys;
  AllSeries := ir_all;
|}.
