(* ===== verification/BlockIndex.v ===== *)
(** * A block's index reads back as written

    What [openIndexReader] makes of the bytes [indexWriter.writeTo] produced, and
    that the reader it returns keeps the laws of an index. *)

From Stdlib Require Import ZArith Lia.
From Stdlib Require Import (notations) String.
From stdpp Require Import base sorting gmap numbers list.
From S2P Require Import Prelude Wal WalProofs Gostring Tsdb Index IndexProofs IndexSelect HeadRecord BlockFile.

Abbreviation uv u := (uvarint_loop 10 u).

(** ** Fixed-width fields *)

Lemma ulen_app {A} (a b : list A) : ulen (a ++ b) = ulen a + ulen b.
Proof. unfold ulen. rewrite length_app. lia. Qed.
Lemma ulen_nonneg {A} (a : list A) : 0 <= ulen a.
Proof. unfold ulen. lia. Qed.

Lemma ulen_nat {A} (a : list A) : Z.to_nat (ulen a) = length a.
Proof. unfold ulen. lia. Qed.

Lemma slice_mid (a b c : list Z) : slice (a ++ b ++ c) (ulen a) (ulen a + ulen b) = Ok b.
Proof.
  unfold slice. rewrite !ulen_app. pose proof (ulen_nonneg a). pose proof (ulen_nonneg b). pose proof (ulen_nonneg c).
  rewrite !(proj2 (Z.leb_le _ _)) by lia. cbn [andb]. unfold ulen.
  replace (Z.to_nat (Z.of_nat (length a) + Z.of_nat (length b) - Z.of_nat (length a))) with (length b) by lia.
  by rewrite Nat2Z.id, drop_app_length, take_app_length.
Qed.

Lemma slice_from_app (a b : list Z) : slice_from (a ++ b) (ulen a) = Ok b.
Proof. unfold slice_from. rewrite ulen_app. pose proof (slice_mid a b []) as H. by rewrite app_nil_r in H. Qed.

Lemma BigEndian_Uint32_put v rest : is_u32 v -> BigEndian_Uint32 (PutUint32 v ++ rest) = Ok v.
Proof.
  intros Hv. unfold BigEndian_Uint32. rewrite ulen_app. pose proof (ulen_nonneg rest).
  rewrite (proj2 (Z.ltb_ge _ _)) by (change (ulen (PutUint32 v)) with 4; lia).
  f_equal. pose proof (Uint32_PutUint32 v Hv) as Hp. exact Hp.
Qed.

Lemma uint8_shift_mod v k : 0 <= k <= 24 -> uint8 (Z.shiftr (v mod 2 ^ 32) k) = uint8 (Z.shiftr v k).
Proof.
  intros Hk. unfold uint8. apply Z.bits_inj'. intros i Hi. destruct (decide (i < 8)).
  - rewrite !Z.mod_pow2_bits_low, !Z.shiftr_spec, Z.mod_pow2_bits_low by lia. done.
  - by rewrite !Z.mod_pow2_bits_high by lia.
Qed.

Lemma PutUint32_mod v : PutUint32 (v mod 2 ^ 32) = PutUint32 v.
Proof.
  unfold PutUint32. rewrite !uint8_shift_mod by lia. do 4 f_equal.
  pose proof (uint8_shift_mod v 0) as H. rewrite !Z.shiftr_0_r in H. apply H. lia.
Qed.

Lemma Uint32_put_any v rest : Uint32 (PutUint32 v ++ rest) = v mod 2 ^ 32.
Proof. rewrite <- PutUint32_mod. apply (Uint32_PutUint32 (v mod 2 ^ 32)). apply uint32_range. Qed.

Lemma PutUint64_at v rest : is_u64 v -> BigEndian_Uint64 (PutUint64 v ++ rest) = Ok v.
Proof.
  intros Hv. unfold BigEndian_Uint64. rewrite ulen_app. pose proof (ulen_nonneg rest).
  rewrite (proj2 (Z.ltb_ge _ _)) by (change (ulen (PutUint64 v)) with 8; lia). f_equal.
  unfold PutUint64. rewrite <- app_assoc, Uint32_put_any.
  change (drop 4 (PutUint32 (Z.shiftr v 32) ++ PutUint32 v ++ rest)) with (PutUint32 v ++ rest). rewrite Uint32_put_any.
  rewrite Z.shiftr_div_pow2, Z.shiftl_mul_pow2 by lia. unfold is_u64 in Hv.
  rewrite lor_disjoint by (lia || dlia). rewrite (Z.mod_small (v / 2 ^ 32)) by dlia. dlia.
Qed.

(** ** Symbols *)

Lemma sorted_lookup {A} (T : relation A) l i j x y : StronglySorted T l -> l !! i = Some x -> l !! j = Some y ->
  (i < j)%nat -> T x y.
Proof.
  intros Hs Hi Hj Hlt. rewrite <- (take_drop (S i) l) in Hs. eapply (StronglySorted_app_1_elem_of T); [exact Hs| |].
  - eapply (list_elem_of_lookup_2 _ i). by rewrite lookup_take_lt by lia.
  - eapply (list_elem_of_lookup_2 _ (j - S i)). rewrite lookup_drop. by replace (S i + (j - S i))%nat with j by lia.
Qed.

Lemma str_lt_irrefl a : ~ str_lt a a.
Proof. unfold str_lt. by rewrite strcmp_refl. Qed.
Lemma str_lt_le_false a b : str_lt a b -> str_le b a -> False.
Proof. unfold str_lt, str_le. rewrite (strcmp_antisym a b). intros ->. by intros H. Qed.

Lemma str_lt_asym a b : str_lt a b -> ~ str_lt b a.
Proof. unfold str_lt. rewrite (strcmp_antisym a b). by intros ->. Qed.

Section Symbols.
Variable series : list blockSeries.
Notation syms := (buildSymbols series).1.
Notation symID := (buildSymbols series).2.

Lemma syms_sorted : StronglySorted str_lt syms.
Proof.
  assert (Hs : StronglySorted str_le syms) by (apply (StronglySorted_merge_sort str_le)).
  assert (Hnd : NoDup syms).
  { unfold buildSymbols. cbn [fst]. rewrite merge_sort_Permutation. apply NoDup_elements. }
  revert Hs Hnd. generalize syms. intros l Hs. induction Hs as [|x l Hs IH Hx]; intros Hnd; [constructor|].
  apply NoDup_cons in Hnd as [Hni Hnd]. apply StronglySorted_cons. split; [|by apply IH].
  rewrite Forall_forall in *. intros y Hy. apply str_le_lt; [by apply Hx|]. by intros ->.
Qed.

Lemma elem_of_syms s : s ∈ syms <-> s ∈ symbol_set series.
Proof. unfold buildSymbols. cbn [fst]. rewrite merge_sort_Permutation. apply elem_of_elements. Qed.

Lemma syms_NoDup : NoDup syms.
Proof. unfold buildSymbols. cbn [fst]. rewrite merge_sort_Permutation. apply NoDup_elements. Qed.

Lemma imap_keys {A} (l : list A) (f : nat -> Z) : (imap (fun i s => (s, f i)) l).*1 = l.
Proof. revert f. induction l as [|a l IH]; intros f; [done|]. cbn. f_equal. apply (IH (f ∘ S)). Qed.

Lemma symID_spec s i : symID !! s = Some i <-> exists n, syms !! n = Some s /\ i = Z.of_nat n.
Proof.
  pose proof syms_NoDup as Hnd. unfold buildSymbols in *. cbn [fst snd] in *.
  set (l := merge_sort str_le (elements (symbol_set series))) in *. fold l.
  rewrite <- elem_of_list_to_map by (by rewrite imap_keys). rewrite elem_of_lookup_imap. split.
  - intros (n & s' & [= -> ->] & Hl). eauto.
  - intros (n & Hl & ->). exists n, s. done.
Qed.

Lemma syms_mono i j a b : syms !! i = Some a -> syms !! j = Some b -> str_lt a b <-> (i < j)%nat.
Proof.
  intros Ha Hb. pose proof syms_sorted as Hs. split; intros H.
  - destruct (lt_eq_lt_dec i j) as [[?|<-]|Hji]; [done| |].
    + assert (a = b) as <- by congruence. by apply str_lt_irrefl in H.
    + apply str_lt_asym in H. destruct H. eapply sorted_lookup; eassumption.
  - eapply sorted_lookup; eassumption.
Qed.

Lemma sym_syms n s : syms !! n = Some s -> sym syms (Z.of_nat n) = Ok s.
Proof.
  intros H. unfold sym. pose proof (lookup_lt_Some _ _ _ H). rewrite (proj2 (Z.leb_gt _ _)) by (unfold ulen; lia).
  by rewrite Nat2Z.id, H.
Qed.

(** Every string of the block has a symbol, read back by its ordinal. *)
Lemma sym_of_spec s : s ∈ symbol_set series -> exists n, syms !! n = Some s /\ symID !! s = Some (Z.of_nat n)
  /\ sym_of symID s = Z.of_nat n /\ sym syms (sym_of symID s) = Ok s.
Proof.
  intros Hs%elem_of_syms. apply list_elem_of_lookup in Hs as [n Hn]. exists n.
  assert (Hid : symID !! s = Some (Z.of_nat n)) by (apply symID_spec; eauto).
  assert (Ho : sym_of symID s = Z.of_nat n) by (unfold sym_of; by rewrite Hid).
  split_and!; [done..|]. rewrite Ho. by apply sym_syms.
Qed.

Lemma sym_of_lt a b : a ∈ symbol_set series -> b ∈ symbol_set series -> str_lt a b <-> sym_of symID a < sym_of symID b.
Proof.
  intros (i & Hi & _ & -> & _)%sym_of_spec (j & Hj & _ & -> & _)%sym_of_spec. rewrite (syms_mono _ _ _ _ Hi Hj). lia.
Qed.

Lemma sym_of_inj a b : a ∈ symbol_set series -> b ∈ symbol_set series -> sym_of symID a = sym_of symID b -> a = b.
Proof.
  intros (i & Hi & _ & -> & _)%sym_of_spec (j & Hj & _ & -> & _)%sym_of_spec H. apply Nat2Z.inj in H as ->. congruence.
Qed.
End Symbols.

(** ** The sections, as bytes *)

Definition chunk_bytes (c : chunkRef) : list Z :=
  uv (zigzag (cr_minT c)) ++ uv (uint64 (int64 (cr_maxT c - cr_minT c))) ++ uv (cr_off c) ++ uv (cr_recLen c).
Definition stag_bytes (symID : gmap gostring Z) (t : Tag) : list Z := uv (sym_of symID (t_Key t)) ++ uv (sym_of symID (t_Value t)).
Definition series_bytes (symID : gmap gostring Z) (s : blockSeries) : list Z :=
  uv (sym_of symID (sr_Metric (bs_ref s))) ++ uv (ulen (sr_Tags (bs_ref s))) ++ (sr_Tags (bs_ref s) ≫= stag_bytes symID)
  ++ uv (ulen (bs_chunks s)) ++ (bs_chunks s ≫= chunk_bytes).
Fixpoint deltas (prev : Z) (ids : list Z) : list Z :=
  match ids with [] => [] | id :: rest => uint64 (id - prev) :: deltas id rest end.
Definition id_deltas (ids : list Z) : list Z := match ids with [] => [] | id :: rest => id :: deltas id rest end.
Definition ids_bytes (ids : list Z) : list Z := uv (ulen ids) ++ (id_deltas ids ≫= fun d => uv d).
Definition entry_bytes (e : tableEntry) : list Z := uv (te_keySym e) ++ uv (te_valSym e) ++ uv (te_off e).

(** The offset table of lists written from [off] on. *)
Fixpoint table_from (symID : gmap gostring Z) (off : Z) (ls : list postingList) : list tableEntry :=
  match ls with
  | [] => []
  | l :: rest => MkTableEntry (sym_of symID (pl_key l)) (sym_of symID (pl_value l)) off
                 :: table_from symID (off + ulen (ids_bytes (pl_ids l))) rest
  end.

Lemma AppendUvarint_uv buf u : AppendUvarint buf u = buf ++ uv u.
Proof. done. Qed.

Lemma put_series_bytes symID buf s : put_series symID buf s = buf ++ series_bytes symID s.
Proof.
  unfold put_series, series_bytes. rewrite !AppendUvarint_uv.
  rewrite (foldl_bytes _ (stag_bytes symID)) by (intros; unfold stag_bytes; by rewrite !AppendUvarint_uv, <- app_assoc).
  rewrite (foldl_bytes _ chunk_bytes) by (intros; unfold put_chunk, chunk_bytes, AppendVarint;
    by rewrite !AppendUvarint_uv, <- !app_assoc).
  by rewrite <- !app_assoc.
Qed.

Lemma put_ids_bytes buf ids : put_ids (AppendUvarint buf (ulen ids)) ids = buf ++ ids_bytes ids.
Proof.
  unfold ids_bytes. rewrite AppendUvarint_uv. destruct ids as [|id ids]; cbn [put_ids id_deltas]; [by rewrite app_nil_r|].
  assert (Hd : forall l prev buf, put_deltas buf prev l = buf ++ (deltas prev l ≫= fun d => uv d)).
  { induction l as [|x l IH]; intros prev b; cbn [put_deltas deltas]; [by rewrite app_nil_r|].
    by rewrite IH, bind_cons, AppendUvarint_uv, <- app_assoc. }
  by rewrite Hd, AppendUvarint_uv, bind_cons, <- !app_assoc.
Qed.

Lemma put_lists_bytes symID ls : forall buf table, foldl (put_list symID) (buf, table) ls
  = (buf ++ (ls ≫= fun l => ids_bytes (pl_ids l)), table ++ table_from symID (ulen buf) ls).
Proof.
  induction ls as [|l ls IH]; intros buf table; cbn [foldl table_from]; [by rewrite !app_nil_r|].
  unfold put_list at 2. rewrite put_ids_bytes, IH, ulen_app, bind_cons, <- !app_assoc. done.
Qed.

(** ** Reading the sections back *)

Lemma bind_length_ge {A} (f : A -> list Z) l : (forall x, (1 <= length (f x))%nat) -> ulen l <= ulen (l ≫= f).
Proof.
  intros Hf. induction l as [|x l IH]; [done|]. rewrite bind_cons, ulen_app. specialize (Hf x). unfold ulen in *. cbn [length]. lia.
Qed.

Lemma length_bind_part {A} (f : A -> list Z) l x : x ∈ l -> ulen (f x) <= ulen (l ≫= f).
Proof.
  intros Hx. apply list_elem_of_split in Hx as (l1 & l2 & ->). rewrite bind_app, bind_cons, !ulen_app.
  pose proof (ulen_nonneg (l1 ≫= f)). pose proof (ulen_nonneg (l2 ≫= f)). lia.
Qed.

Fixpoint ids_from (base : Z) (l : list gostring) (m : gmap gostring Z) : gmap gostring Z :=
  match l with [] => m | s :: l => ids_from (base + 1) l (<[s := base]> m) end.

Lemma readSymbols_loop_enc l : forall i rest acc m, Forall int_len l ->
  readSymbols_loop (length l) i (at_ ((l ≫= str_bytes) ++ rest)) acc m = Ok (acc ++ l, ids_from (ulen acc) l m).
Proof.
  induction l as [|s l IH]; intros i rest acc m Hl; cbn [length readSymbols_loop ids_from]; [by rewrite app_nil_r|].
  apply Forall_cons_1 in Hl as [Hs Hl]. rewrite bind_cons, <- app_assoc, d_str_enc by done. cbn [failed d_err].
  rewrite IH, <- app_assoc, ulen_app by done. done.
Qed.

Lemma ids_from_spec l : forall base m, NoDup l -> forall s,
  ids_from base l m !! s = match list_find (eq s) l with Some (n, _) => Some (base + Z.of_nat n) | None => m !! s end.
Proof.
  induction l as [|x l IH]; intros base m Hnd s; [done|]. apply NoDup_cons in Hnd as [Hni Hnd].
  cbn [ids_from list_find]. rewrite IH by done. destruct (decide (s = x)) as [->|Hne].
  - rewrite Z.add_0_r. destruct (list_find (eq x) l) as [[n y]|] eqn:E; [|apply lookup_insert_eq].
    apply list_find_Some in E as (Hy & <- & _). by apply list_elem_of_lookup_2 in Hy.
  - cbn. destruct (list_find (eq s) l) as [[n y]|]; cbn; [f_equal; lia|]. by rewrite lookup_insert_ne.
Qed.

Lemma ids_from_symID series : ids_from 0 (buildSymbols series).1 ∅ = (buildSymbols series).2.
Proof.
  apply map_eq. intros s. rewrite ids_from_spec by apply syms_NoDup.
  destruct (list_find (eq s) (buildSymbols series).1) as [[n y]|] eqn:E.
  - apply list_find_Some in E as (Hy & <- & _). symmetry. apply symID_spec. eauto.
  - apply list_find_None in E. rewrite lookup_empty. symmetry. apply eq_None_not_Some. intros [i Hi].
    apply symID_spec in Hi as (n & Hn & _). apply list_elem_of_lookup_2 in Hn. rewrite Forall_forall in E. by apply (E s).
Qed.

Lemma readSymbols_enc series rest : let syms := (buildSymbols series).1 in Forall int_len syms -> int_len syms ->
  readSymbols (at_ (uv (ulen syms) ++ (syms ≫= str_bytes) ++ rest)) = Ok (buildSymbols series).
Proof.
  intros syms Hl Hn. unfold readSymbols. rewrite d_uvarint_enc by (by apply ulen_u64). cbn [failed d_err d_b orb].
  rewrite (proj2 (Z.ltb_ge _ _)).
  - rewrite ulen_nat, readSymbols_loop_enc by done. cbn [app]. change (ulen []) with 0.
    unfold syms. rewrite ids_from_symID. by destruct (buildSymbols series).
  - rewrite ulen_app. pose proof (ulen_nonneg rest). pose proof (bind_length_ge str_bytes syms). unfold str_bytes in *.
    assert (forall x : gostring, (1 <= length (uv (ulen x) ++ x))%nat)
      by (intros x; rewrite length_app; pose proof (uvarint_nonempty (ulen x)); lia).
    intuition lia.
Qed.

Section Reading.
Variable series : list blockSeries.
Notation syms := (buildSymbols series).1.
Notation symID := (buildSymbols series).2.
Hypothesis Hsyms : int_len syms.

Definition ref_syms (ref : SeriesRef) : Prop := sr_Metric ref ∈ symbol_set series
  /\ Forall (fun t => t_Key t ∈ symbol_set series /\ t_Value t ∈ symbol_set series) (sr_Tags ref).
Definition chunk_ok (c : chunkRef) : Prop :=
  is_i64 (cr_minT c) /\ is_i64 (cr_maxT c) /\ is_u64 (cr_off c) /\ is_u64 (cr_recLen c).
Definition series_ok (s : blockSeries) : Prop :=
  ref_syms (bs_ref s) /\ Forall chunk_ok (bs_chunks s) /\ int_len (sr_Tags (bs_ref s)) /\ int_len (bs_chunks s).

Lemma sym_of_u64 s : s ∈ symbol_set series -> is_u64 (sym_of symID s).
Proof.
  intros (n & Hn & _ & -> & _)%sym_of_spec. apply lookup_lt_Some in Hn. unfold int_len, ulen, is_u64 in *. lia.
Qed.

Lemma sym_read s : s ∈ symbol_set series -> sym syms (sym_of symID s) = Ok s.
Proof. by intros (n & _ & _ & _ & H)%sym_of_spec. Qed.

Lemma readTags_enc tags rest : Forall (fun t => t_Key t ∈ symbol_set series /\ t_Value t ∈ symbol_set series) tags ->
  readTags syms (length tags) (at_ ((tags ≫= stag_bytes symID) ++ rest)) = Ok (tags, at_ rest).
Proof.
  induction tags as [|t tags IH]; intros Ht; cbn [length readTags]; [done|]. apply Forall_cons_1 in Ht as [[Hk Hv] Ht].
  rewrite bind_cons. unfold stag_bytes at 1. rewrite <- !app_assoc, d_uvarint_enc by (by apply sym_of_u64).
  cbn [mbind result_bind]. rewrite sym_read by done. cbn [mbind result_bind].
  rewrite d_uvarint_enc by (by apply sym_of_u64). rewrite sym_read by done. cbn [mbind result_bind].
  rewrite IH by done. by destruct t.
Qed.

Lemma readChunkRefs_enc cs rest : Forall chunk_ok cs ->
  readChunkRefs (length cs) (at_ ((cs ≫= chunk_bytes) ++ rest)) = (cs, at_ rest).
Proof.
  induction cs as [|c cs IH]; intros Hc; cbn [length readChunkRefs]; [done|].
  apply Forall_cons_1 in Hc as [(H1 & H2 & H3 & H4) Hc]. rewrite bind_cons. unfold chunk_bytes at 1. rewrite <- !app_assoc.
  rewrite d_varint_enc by done. rewrite !d_uvarint_enc by (done || apply uint64_range). rewrite IH by done.
  rewrite int64_uint64, int64_add_int64. destruct c as [mn mx off rl]. cbn in *. do 3 f_equal.
  rewrite int64_add_int64. replace (mn + (mx - mn)) with mx by lia. by apply int64_id.
Qed.

Lemma uv_ge u : (1 <= length (uv u))%nat.
Proof. apply uvarint_nonempty. Qed.

Lemma readOneSeries_enc s rest : series_ok s -> readOneSeries syms (at_ (series_bytes symID s ++ rest)) = Ok (s, at_ rest).
Proof.
  intros ((Hm & Ht) & Hc & Hlt & Hlc). unfold readOneSeries, series_bytes. rewrite <- !app_assoc.
  rewrite d_uvarint_enc by (by apply sym_of_u64). rewrite sym_read by done. cbn [mbind result_bind].
  rewrite d_uvarint_enc by (by apply ulen_u64). cbn [failed d_err d_b orb].
  assert (Hg1 : ulen (sr_Tags (bs_ref s)) <= ulen (sr_Tags (bs_ref s) ≫= stag_bytes symID)).
  { apply bind_length_ge. intros t. unfold stag_bytes. rewrite length_app. pose proof (uv_ge (sym_of symID (t_Key t))). lia. }
  assert (Hg2 : ulen (bs_chunks s) <= ulen (bs_chunks s ≫= chunk_bytes)).
  { apply bind_length_ge. intros c. unfold chunk_bytes. rewrite length_app. pose proof (uv_ge (zigzag (cr_minT c))). lia. }
  rewrite (proj2 (Z.ltb_ge _ _)) by (rewrite ulen_app; pose proof (ulen_nonneg (uv (ulen (bs_chunks s)) ++ (bs_chunks s ≫= chunk_bytes) ++ rest)); lia).
  rewrite ulen_nat, readTags_enc by done. cbn [mbind result_bind].
  rewrite d_uvarint_enc by (by apply ulen_u64). cbn [failed d_err d_b orb].
  rewrite (proj2 (Z.ltb_ge _ _)) by (rewrite ulen_app; pose proof (ulen_nonneg rest); lia).
  rewrite ulen_nat, readChunkRefs_enc by done. cbn [failed d_err]. destruct s as [[? ?] ?]. done.
Qed.

Lemma readSeries_loop_enc ss rest : forall out, Forall series_ok ss ->
  readSeries_loop syms (length ss) (at_ ((ss ≫= series_bytes symID) ++ rest)) out = Ok (out ++ ss).
Proof.
  induction ss as [|s ss IH]; intros out Hs; cbn [length readSeries_loop]; [by rewrite app_nil_r|].
  apply Forall_cons_1 in Hs as [Hs Hss]. rewrite bind_cons, <- app_assoc, readOneSeries_enc by done. cbn [mbind result_bind].
  by rewrite IH, <- app_assoc by done.
Qed.

Lemma readSeries_enc ss rest : int_len ss -> Forall series_ok ss ->
  readSeries syms (at_ (uv (ulen ss) ++ (ss ≫= series_bytes symID) ++ rest)) = Ok ss.
Proof.
  intros Hn Hs. unfold readSeries. rewrite d_uvarint_enc by (by apply ulen_u64). cbn [failed d_err d_b orb].
  assert (Hg : ulen ss <= ulen (ss ≫= series_bytes symID)).
  { apply bind_length_ge. intros s. unfold series_bytes. rewrite length_app. pose proof (uv_ge (sym_of symID (sr_Metric (bs_ref s)))). lia. }
  rewrite (proj2 (Z.ltb_ge _ _)) by (rewrite ulen_app; pose proof (ulen_nonneg rest); lia).
  by rewrite ulen_nat, readSeries_loop_enc by done.
Qed.

Definition entry_ok (size : Z) (e : tableEntry) : Prop :=
  is_u64 (te_keySym e) /\ is_u64 (te_valSym e) /\ is_u64 (te_off e) /\ te_off e < size.

Lemma readTable_loop_enc size es rest : forall i out, Forall (entry_ok size) es ->
  readTable_loop size (length es) i (at_ ((es ≫= entry_bytes) ++ rest)) out = Ok (out ++ es).
Proof.
  induction es as [|e es IH]; intros i out He; cbn [length readTable_loop]; [by rewrite app_nil_r|].
  apply Forall_cons_1 in He as [(H1 & H2 & H3 & H4) He]. rewrite bind_cons. unfold entry_bytes at 1. rewrite <- !app_assoc.
  rewrite !d_uvarint_enc by done. rewrite (proj2 (Z.leb_gt _ _)) by done. rewrite IH, <- app_assoc by done. by destruct e.
Qed.

Lemma readTable_enc size es rest : int_len es -> Forall (entry_ok size) es ->
  readTable size (at_ (uv (ulen es) ++ (es ≫= entry_bytes) ++ rest)) = Ok es.
Proof.
  intros Hn He. unfold readTable. rewrite d_uvarint_enc by (by apply ulen_u64). cbn [failed d_err d_b orb].
  assert (Hg : ulen es <= ulen (es ≫= entry_bytes)).
  { apply bind_length_ge. intros e. unfold entry_bytes. rewrite length_app. pose proof (uv_ge (te_keySym e)). lia. }
  rewrite (proj2 (Z.ltb_ge _ _)) by (rewrite ulen_app; pose proof (ulen_nonneg rest); lia).
  by rewrite ulen_nat, readTable_loop_enc by done.
Qed.
End Reading.
