(* ===== verification/BlockLaws.v ===== *)
(** * The block index keeps the laws of an index

    The postings a block writer inverts are the ones the in-memory index would
    hold, and the reader's binary searches find them. *)

From Stdlib Require Import ZArith Lia.
From Stdlib Require Import (notations) String.
From stdpp Require Import base sorting gmap numbers list.
From S2P Require Import Prelude Wal WalProofs Gostring Tsdb Index IndexProofs IndexSelect HeadRecord BlockFile BlockIndex.

(** ** Inverting is indexing *)

(** The pairs a series is posted under. *)
Definition pairs (ref : SeriesRef) : list (gostring * gostring) :=
  (MetricName, sr_Metric ref) :: ((fun t => (t_Key t, t_Value t)) <$> sr_Tags ref).

(** No pair twice: the writer's appends rely on it. *)
Definition postable (ref : SeriesRef) : Prop := NoDup (pairs ref).

Lemma inv_add_mp m k v id : (forall x, in_map m k v x -> x < id) -> inv_add m k v id = mp_add m k v id.
Proof.
  intros Hlt. unfold inv_add, mp_add. do 3 f_equal. unfold appendSorted.
  assert (Hp : default [] (default ∅ (m !! k) !! v) = postings_of m k v).
  { unfold postings_of. destruct (m !! k); [done|]. cbn. by rewrite lookup_empty. }
  rewrite Hp. destruct (last (postings_of m k v)) as [y|] eqn:El; [|done].
  rewrite (proj2 (Z.ltb_lt _ _)); [done|]. apply Hlt. by apply last_Some_elem_of in El.
Qed.

Lemma inv_pairs id ps : forall m, mp_ok m -> NoDup ps -> (forall kv x, kv ∈ ps -> in_map m kv.1 kv.2 x -> x < id) ->
  foldl (fun m kv => inv_add m kv.1 kv.2 id) m ps = foldl (fun m kv => mp_add m kv.1 kv.2 id) m ps.
Proof.
  induction ps as [|[k v] ps IH]; intros m Hok Hnd Hlt; [done|]. apply NoDup_cons in Hnd as [Hni Hnd]. cbn [foldl fst snd].
  rewrite inv_add_mp by (intros x; apply (Hlt (k, v)); by left).
  destruct (mp_add_spec m k v id Hok) as [Hok' Hin']. apply IH; [done|done|].
  intros [k' v'] x Hps Hx. cbn [fst snd] in Hx. apply Hin' in Hx as [Hx|(-> & -> & ->)]; [|done]. apply (Hlt (k', v')); [by right|done].
Qed.

Lemma foldl_pairs {M} (f : M -> gostring -> gostring -> M) ref m :
  foldl (fun m t => f m (t_Key t) (t_Value t)) (f m MetricName (sr_Metric ref)) (sr_Tags ref)
  = foldl (fun m kv => f m kv.1 kv.2) m (pairs ref).
Proof. unfold pairs. cbn [foldl fst snd]. by rewrite foldl_fmap. Qed.

(** Series by ordinal. *)
Definition ordinals (series : list blockSeries) : series_set :=
  list_to_map (imap (fun i s => (Z.of_nat i, bs_ref s)) series).

Lemma imap_fst_NoDup series : NoDup (imap (fun i (s : blockSeries) => (Z.of_nat i, bs_ref s)) series).*1.
Proof.
  rewrite fmap_imap. apply NoDup_alt. intros i j x Hi Hj. rewrite list_lookup_imap in Hi, Hj. unfold compose in *. cbn in *.
  destruct (series !! i), (series !! j); simplify_eq/=. lia.
Qed.

Lemma ordinals_spec series id ref : ordinals series !! id = Some ref <->
  exists n s, id = Z.of_nat n /\ series !! n = Some s /\ ref = bs_ref s.
Proof.
  unfold ordinals. rewrite <- elem_of_list_to_map by apply imap_fst_NoDup. rewrite elem_of_lookup_imap. split.
  - intros (n & s & [= -> ->] & Hs). eauto.
  - intros (n & s & -> & Hs & ->). exists n, s. done.
Qed.

Lemma ordinals_snoc series s : ordinals (series ++ [s]) = <[Z.of_nat (length series) := bs_ref s]> (ordinals series).
Proof.
  apply map_eq. intros id. apply option_eq. intros ref. rewrite ordinals_spec, lookup_insert_Some, ordinals_spec. split.
  - intros (n & s' & -> & Hs & ->). apply lookup_app_Some in Hs as [Hs|[Hle Hs]].
    + right. split; [apply lookup_lt_Some in Hs; lia|eauto].
    + left. destruct (n - length series)%nat as [|k] eqn:E; [|done]. injection Hs as <-. split; [f_equal; lia|done].
  - intros [[<- <-]|[Hne (n & s' & -> & Hs & ->)]].
    + exists (length series), s. split_and!; [done|by rewrite lookup_app_r, Nat.sub_diag|done].
    + exists n, s'. split_and!; [done|by apply lookup_app_l_Some|done].
Qed.

Lemma inv_from_snoc series s : forall id m, inv_from id m (series ++ [s]) = inv_series (inv_from id m series) (id + ulen series) s.
Proof.
  induction series as [|x series IH]; intros id m; cbn [app inv_from]; [by rewrite Z.add_0_r|].
  rewrite IH. f_equal. unfold ulen. cbn [length]. lia.
Qed.

(** The postings a block inverts are those of an in-memory index of its ordinals. *)
Lemma inv_mem_index series : Forall (fun s => postable (bs_ref s)) series ->
  mem_index (MkMemPostings (inv_from 0 ∅ series) (Z.of_nat <$> seq 0 (length series))) (ordinals series).
Proof.
  induction series as [|s series IH] using rev_ind; intros Hp; [apply NewMemPostings_spec|].
  apply Forall_app in Hp as [Hps Hp]. rewrite Forall_singleton in Hp. specialize (IH Hps).
  set (p := MkMemPostings (inv_from 0 ∅ series) _) in IH.
  assert (Hfresh : ordinals series !! Z.of_nat (length series) = None).
  { apply eq_None_not_Some. intros [ref Href]. apply ordinals_spec in Href as (n & s' & Hn & Hs & _).
    apply lookup_lt_Some in Hs. lia. }
  pose proof (MemAdd_spec p _ (Z.of_nat (length series)) (bs_ref s) IH Hfresh) as Hadd. rewrite <- ordinals_snoc in Hadd.
  enough (Heq : MkMemPostings (inv_from 0 ∅ (series ++ [s])) (Z.of_nat <$> seq 0 (length (series ++ [s])))
    = MemAdd p (Z.of_nat (length series)) (bs_ref s)) by by rewrite Heq.
  unfold MemAdd, p. cbn [mp_m mp_all]. f_equal.
  - rewrite inv_from_snoc, Z.add_0_l. unfold inv_series, ulen.
    rewrite (foldl_pairs (fun m k v => inv_add m k v _)), (foldl_pairs (fun m k v => mp_add m k v _)).
    apply inv_pairs; [apply (mi_ok _ _ IH)|done|]. intros [k v] x _ Hx. apply (mi_in _ _ IH) in Hx as (ref & Href & _).
    apply ordinals_spec in Href as (n & s' & -> & Hs & _). apply lookup_lt_Some in Hs. lia.
  - rewrite length_app, Nat.add_1_r, seq_S, fmap_app. cbn [fmap list_fmap Nat.add]. unfold appendSorted.
    destruct (last (Z.of_nat <$> seq 0 (length series))) as [y|] eqn:El; [|done].
    rewrite (proj2 (Z.ltb_lt _ _)); [done|]. apply last_Some_elem_of, list_elem_of_fmap in El as (n & -> & Hn%elem_of_seq). lia.
Qed.

(** ** The posting lists, in order *)

#[export] Instance posting_le_trans : Transitive posting_le.
Proof.
  intros a b c [H1|[H1 H1']] [H2|[H2 H2']]; unfold posting_le.
  - left. by etrans.
  - left. by rewrite <- H2.
  - left. by rewrite H1.
  - right. split; [congruence|by etrans].
Qed.

#[export] Instance posting_le_total : Total posting_le.
Proof.
  intros a b. unfold posting_le. destruct (total str_le (pl_key a) (pl_key b)) as [H|H];
    (destruct (decide (pl_key a = pl_key b)) as [E|E]; [|first [left; left; by apply str_le_lt|right; left; apply str_le_lt; [done|congruence]]]).
  all: destruct (total str_le (pl_value a) (pl_value b)); [left|right]; right; split; congruence || done.
Qed.

Definition posting_lt (a b : postingList) : Prop :=
  str_lt (pl_key a) (pl_key b) \/ (pl_key a = pl_key b /\ str_lt (pl_value a) (pl_value b)).

Section Postings.
Variable series : list blockSeries.
Hypothesis Hpost : Forall (fun s => postable (bs_ref s)) series.
Notation m := (inv_from 0 ∅ series).

Lemma elem_of_invert l : l ∈ invert series <->
  exists vals, m !! pl_key l = Some vals /\ vals !! pl_value l = Some (pl_ids l).
Proof.
  unfold invert. rewrite merge_sort_Permutation, list_elem_of_bind. split.
  - intros ([k vals] & Hl & Hk). apply list_elem_of_fmap in Hl as ([v ids] & -> & Hv). cbn in *.
    apply elem_of_map_to_list in Hk, Hv. eauto.
  - intros (vals & Hk & Hv). exists (pl_key l, vals). split; [|by apply elem_of_map_to_list].
    apply list_elem_of_fmap. exists (pl_value l, pl_ids l). split; [by destruct l|by apply elem_of_map_to_list].
Qed.

Lemma invert_unique a b : a ∈ invert series -> b ∈ invert series -> pl_key a = pl_key b -> pl_value a = pl_value b -> a = b.
Proof.
  intros (va & Ka & Va)%elem_of_invert (vb & Kb & Vb)%elem_of_invert Hk Hv. rewrite Hk in Ka. simplify_eq.
  rewrite Hv in Va. simplify_eq. destruct a, b; cbn in *; congruence.
Qed.

Lemma invert_NoDup : NoDup (invert series).
Proof.
  unfold invert. rewrite merge_sort_Permutation. apply NoDup_bind.
  - intros [k1 v1] [k2 v2] l H1 H2 (? & -> & _)%list_elem_of_fmap (? & E & _)%list_elem_of_fmap. cbn in *. simplify_eq.
    apply elem_of_map_to_list in H1, H2. congruence.
  - intros [k vals] _. apply NoDup_fmap_2; [|apply NoDup_map_to_list]. intros [] [] [= -> ->]. done.
  - apply NoDup_map_to_list.
Qed.

Lemma invert_sorted : StronglySorted posting_lt (invert series).
Proof.
  assert (Hs : StronglySorted posting_le (invert series)) by apply (StronglySorted_merge_sort posting_le).
  pose proof invert_NoDup as Hnd. pose proof invert_unique as Hu. revert Hs Hnd Hu. generalize (invert series). intros l Hs.
  induction Hs as [|x l Hs IH Hx]; intros Hnd Hu; [constructor|]. apply NoDup_cons in Hnd as [Hni Hnd].
  apply StronglySorted_cons. split; [|apply IH; [done|]; intros a b Ha Hb; apply Hu; by right].
  rewrite Forall_forall in *. intros y Hy. destruct (Hx y Hy) as [?|[Hk Hv]]; [by left|]. right. split; [done|].
  apply str_le_lt; [done|]. intros Hv'. apply Hni. rewrite (Hu x y); [done|by left|by right|done|done].
Qed.

(** The list of a pair is what the index posts under it. *)
Lemma invert_ids k v ids : MkPostingList k v ids ∈ invert series <-> ids = postings_of m k v /\ ids <> [].
Proof.
  rewrite elem_of_invert. cbn. unfold postings_of. pose proof (mi_ok _ _ (inv_mem_index series Hpost)) as Hok. cbn in Hok. split.
  - intros (vals & Hk & Hv). rewrite Hk. cbn. rewrite Hv. split; [done|]. by apply (mk_sorted _ Hok _ _ _ _ Hk Hv).
  - intros [-> Hne]. destruct (m !! k) as [vals|] eqn:E; [|done]. cbn in *. exists vals. split; [done|].
    by destruct (vals !! v).
Qed.

Lemma invert_elem l : l ∈ invert series -> ssorted (pl_ids l) /\ (forall id, id ∈ pl_ids l <-> with_tag (ordinals series) (pl_key l) (pl_value l) id).
Proof.
  intros Hl. destruct l as [k v ids]. cbn. apply invert_ids in Hl as [-> _]. pose proof (inv_mem_index series Hpost) as Hm. split.
  - apply postings_sorted, (mi_ok _ _ Hm).
  - intros id. apply (mi_in _ _ Hm).
Qed.

Lemma invert_complete k v id : with_tag (ordinals series) k v id -> exists ids, MkPostingList k v ids ∈ invert series.
Proof.
  intros H. apply (mi_in _ _ (inv_mem_index series Hpost)) in H. cbn in H. exists (postings_of m k v). apply invert_ids. split; [done|].
  intros E. unfold in_map in H. rewrite E in H. by apply not_elem_of_nil in H.
Qed.

Lemma invert_nonempty l : l ∈ invert series -> exists id, with_tag (ordinals series) (pl_key l) (pl_value l) id.
Proof.
  intros Hl. pose proof (invert_elem l Hl) as [_ He]. destruct l as [k v ids]. apply invert_ids in Hl as [_ Hne]. cbn in *.
  destruct ids as [|id ids]; [done|]. exists id. apply He. by left.
Qed.
End Postings.

(** ** The reader's searches *)

Lemma symbol_set_carries series id ref k v : ordinals series !! id = Some ref -> carries ref k v ->
  k ∈ symbol_set series /\ v ∈ symbol_set series.
Proof.
  intros (n & s & -> & Hs & ->)%ordinals_spec Hc. apply list_elem_of_lookup_2 in Hs. unfold symbol_set.
  assert (Hin : forall x, x ∈ sr_Metric (bs_ref s) :: (sr_Tags (bs_ref s) ≫= fun t => [t_Key t; t_Value t]) ->
    x ∈ ({[ MetricName ]} ∪ list_to_set (series ≫= fun s =>
      sr_Metric (bs_ref s) :: (sr_Tags (bs_ref s) ≫= fun t => [t_Key t; t_Value t])) : gset gostring)).
  { intros x Hx. apply elem_of_union. right. apply elem_of_list_to_set, list_elem_of_bind. eauto. }
  destruct Hc as [[-> ->]|Ht].
  - split; [set_solver|]. apply Hin. by left.
  - split; apply Hin; right; apply list_elem_of_bind; exists (MkTag k v); (split; [|done]); cbn; [left|right; left].
Qed.

Lemma readPostings_loop_enc ids : forall prev rest out, ssorted ids -> (forall x, x ∈ ids -> prev < x) -> 0 <= prev ->
  Forall is_u64 ids ->
  readPostings_loop (length ids) false prev (at_ ((deltas prev ids ≫= fun d => uv d) ++ rest)) out = out ++ ids.
Proof.
  induction ids as [|id ids IH]; intros prev rest out Hs Hlt Hp Hu; cbn [length readPostings_loop deltas]; [by rewrite app_nil_r|].
  apply ssorted_cons in Hs as [Hs Hid]. apply Forall_cons_1 in Hu as [Hu Hus].
  assert (Hlt' : prev < id) by (apply Hlt; by left). unfold is_u64 in Hu.
  rewrite bind_cons, <- app_assoc, d_uvarint_enc by apply uint64_range. cbn [failed d_err].
  rewrite (uint64_id (id - prev)) by (unfold is_u64; lia). replace (prev + (id - prev)) with id by lia.
  rewrite (uint64_id id) by done. rewrite IH; [by rewrite <- app_assoc|done|done|lia|done].
Qed.

Lemma readPostings_enc r pre ids rest : ir_postings r = pre ++ ids_bytes ids ++ rest -> ssorted ids -> Forall is_u64 ids -> int_len ids ->
  readPostings r (ulen pre) = Ok ids.
Proof.
  intros Hb Hs Hu Hn. unfold readPostings. rewrite Hb, slice_from_app. cbn [mbind result_bind]. unfold ids_bytes.
  rewrite <- app_assoc, d_uvarint_enc by (by apply ulen_u64). cbn [failed d_err d_b orb].
  assert (Hg : ulen ids <= ulen (id_deltas ids ≫= fun d => uv d)).
  { assert (Hl : ulen ids = ulen (id_deltas ids)).
    { destruct ids as [|id ids]; [done|]. cbn [id_deltas]. unfold ulen. cbn [length]. do 2 f_equal. clear.
      revert id. induction ids as [|x ids IH]; intros id; [done|]. cbn [deltas length]. by rewrite <- IH. }
    rewrite Hl. apply bind_length_ge. intros d. apply uv_ge. }
  rewrite (proj2 (Z.ltb_ge _ _)) by (rewrite ulen_app; pose proof (ulen_nonneg rest); lia).
  rewrite ulen_nat. f_equal. destruct ids as [|id ids]; [done|]. cbn [length readPostings_loop id_deltas].
  apply ssorted_cons in Hs as [Hs Hid]. apply Forall_cons_1 in Hu as [Hu Hus].
  rewrite bind_cons, <- app_assoc, d_uvarint_enc by done. cbn [failed d_err].
  rewrite readPostings_loop_enc; [done|done|done|unfold is_u64 in Hu; lia|done].
Qed.

Lemma table_lookup symID ls : forall off i, table_from symID off ls !! i
  = (fun l => MkTableEntry (sym_of symID (pl_key l)) (sym_of symID (pl_value l))
       (off + ulen (take i ls ≫= fun l => ids_bytes (pl_ids l)))) <$> ls !! i.
Proof.
  induction ls as [|l ls IH]; intros off [|i]; cbn [table_from]; [done|done| |].
  - cbn. by rewrite Z.add_0_r.
  - cbn [lookup list_lookup take firstn]. rewrite IH. destruct (ls !! i); [|done]. cbn [fmap option_fmap option_map]. do 2 f_equal.
    rewrite bind_cons, ulen_app. lia.
Qed.

Lemma length_table symID ls off : length (table_from symID off ls) = length ls.
Proof. revert off. induction ls as [|l ls IH]; intros off; [done|]. cbn. by rewrite IH. Qed.

Lemma drop_table symID ls : forall off i, exists off', drop i (table_from symID off ls) = table_from symID off' (drop i ls).
Proof. induction ls as [|l ls IH]; intros off [|i]; cbn; [by exists 0..|by eexists|apply IH]. Qed.

Section Laws.
Variable series : list blockSeries.
Hypothesis Hpost : Forall (fun s => postable (bs_ref s)) series.
Hypothesis Hlen : int_len series.
Variables pre post : list Z.
Notation syms := (buildSymbols series).1.
Notation symID := (buildSymbols series).2.
Notation lists := (invert series).
Notation so s := (sym_of symID s).

Definition reader : indexReader :=
  MkIndexReader syms symID series (pre ++ (lists ≫= fun l => ids_bytes (pl_ids l)) ++ post)
    (table_from symID (ulen pre) lists) (Z.of_nat <$> seq 0 (length series)).

Lemma list_syms l : l ∈ lists -> pl_key l ∈ symbol_set series /\ pl_value l ∈ symbol_set series.
Proof. intros (id & ref & Href & Hc)%invert_nonempty; [|done]. by eapply symbol_set_carries. Qed.

Lemma table_at_spec i l : lists !! i = Some l ->
  table_at reader i = Some (MkTableEntry (so (pl_key l)) (so (pl_value l)) (ulen (pre ++ (take i lists ≫= fun l => ids_bytes (pl_ids l))))).
Proof. intros Hl. unfold table_at. cbn [reader ir_table]. rewrite table_lookup, Hl. cbn. by rewrite ulen_app. Qed.
(** The entry at a position that is in range. *)
Definition entry_at (i : nat) : tableEntry := default (MkTableEntry 0 0 0) (table_at reader i).
Lemma entry_at_spec i l : lists !! i = Some l ->
  entry_at i = MkTableEntry (so (pl_key l)) (so (pl_value l)) (ulen (pre ++ (take i lists ≫= fun l => ids_bytes (pl_ids l)))).
Proof. intros Hl. unfold entry_at. by rewrite (table_at_spec _ _ Hl). Qed.

Lemma in_lists i : (i < length lists)%nat -> exists l, lists !! i = Some l /\ l ∈ lists.
Proof. intros Hi. destruct (lookup_lt_is_Some_2 _ _ Hi) as [l Hl]. exists l. split; [done|by eapply list_elem_of_lookup_2]. Qed.

(** The order of the table is the order of the lists. *)
Lemma lists_lt i j a b : lists !! i = Some a -> lists !! j = Some b -> (i < j)%nat ->
  so (pl_key a) < so (pl_key b) \/ (so (pl_key a) = so (pl_key b) /\ so (pl_value a) < so (pl_value b)).
Proof.
  intros Ha Hb Hij. pose proof (sorted_lookup _ _ _ _ _ _ (invert_sorted series) Ha Hb Hij) as Hlt.
  apply list_elem_of_lookup_2 in Ha, Hb. apply list_syms in Ha as [Ka Va], Hb as [Kb Vb].
  destruct Hlt as [Hk|[Hk Hv]]; [left; by apply sym_of_lt|right]. split; [by rewrite Hk|by apply sym_of_lt].
Qed.

Definition pair_ge (k v : Z) (i : nat) : bool :=
  let e := entry_at i in (k <? te_keySym e) || ((te_keySym e =? k) && (v <=? te_valSym e)).
(** A search over the table is in range. *)
Lemma table_search (test : tableEntry -> bool) :
  SearchTry (length lists) (fun i => e ← table_at reader i; Some (test e)) = Some (Search (length lists) (fun i => test (entry_at i))).
Proof.
  apply SearchTry_pure. intros i Hi. destruct (in_lists i Hi) as (l & Hl & _). by rewrite (entry_at_spec _ _ Hl), (table_at_spec _ _ Hl).
Qed.

Lemma pair_ge_mono k v a b : (a <= b < length lists)%nat -> pair_ge k v a = true -> pair_ge k v b = true.
Proof.
  intros Hab. destruct (decide (a = b)) as [->|Hne]; [done|].
  destruct (in_lists a) as (la & Ha & _); [lia|]. destruct (in_lists b) as (lb & Hb & _); [lia|].
  pose proof (lists_lt _ _ _ _ Ha Hb ltac:(lia)) as Hlt. unfold pair_ge.
  rewrite (entry_at_spec _ _ Ha), (entry_at_spec _ _ Hb). cbn [te_keySym te_valSym].
  rewrite !orb_true_iff, !andb_true_iff, !Z.ltb_lt, !Z.eqb_eq, !Z.leb_le. lia.
Qed.

Lemma list_ids_ok l : l ∈ lists -> ssorted (pl_ids l) /\ Forall is_u64 (pl_ids l) /\ int_len (pl_ids l).
Proof.
  intros Hl. destruct (invert_elem series Hpost l Hl) as [Hs He].
  assert (Hb : forall id, id ∈ pl_ids l -> 0 <= id < ulen series).
  { intros id (ref & (n & s & -> & Hs' & _)%ordinals_spec & _)%He. apply lookup_lt_Some in Hs'. unfold ulen. lia. }
  split_and!; [done| |].
  - apply Forall_forall. intros id Hid. specialize (Hb id Hid). unfold is_u64, int_len in *. lia.
  - unfold int_len in *. enough (length (pl_ids l) <= length series)%nat by (unfold ulen in *; lia).
    rewrite <- (length_seq (length series) 0), <- (length_fmap Z.of_nat (seq 0 (length series))).
    apply submseteq_length, NoDup_submseteq; [by apply ssorted_NoDup|]. intros id Hid. specialize (Hb id Hid).
    apply list_elem_of_fmap. exists (Z.to_nat id). split; [lia|]. apply elem_of_seq. unfold ulen in Hb. lia.
Qed.

Lemma BPostings_list l : l ∈ lists -> BPostings reader (pl_key l) (pl_value l) = Ok (pl_ids l).
Proof.
  intros Hl. pose proof (list_syms l Hl) as [Hk Hv]. pose proof (list_ids_ok l Hl) as (Hs & Hu & Hn).
  pose proof Hl as Hl'. apply list_elem_of_lookup in Hl' as [j Hj]. unfold BPostings. cbn [ir_symID ir_table reader].
  destruct (sym_of_spec series _ Hk) as (nk & _ & -> & Ek & _). destruct (sym_of_spec series _ Hv) as (nv & _ & -> & Ev & _).
  rewrite <- Ek, <- Ev, length_table, (table_search (fun e => (so (pl_key l) <? te_keySym e) || ((te_keySym e =? so (pl_key l)) && (so (pl_value l) <=? te_valSym e)))). cbn [or_panic mbind result_bind].
  destruct (Search_spec (length lists) (pair_ge (so (pl_key l)) (so (pl_value l)))) as (Hle & Hlo & Hhi); [apply pair_ge_mono|].
  unfold pair_ge in *. set (i := Search _ _) in *.
  assert (Hjn : (j < length lists)%nat) by (by eapply lookup_lt_Some).
  assert (i = j) as ->.
  { destruct (lt_eq_lt_dec i j) as [[Hij|?]|Hij]; [|done|].
    - specialize (Hhi i ltac:(lia)). destruct (in_lists i) as (li & Hi & _); [lia|].
      pose proof (lists_lt _ _ _ _ Hi Hj Hij). rewrite (entry_at_spec _ _ Hi) in Hhi. cbn [te_keySym te_valSym] in Hhi.
      rewrite orb_true_iff, andb_true_iff, Z.ltb_lt, Z.eqb_eq, Z.leb_le in Hhi. lia.
    - specialize (Hlo j Hij). rewrite (entry_at_spec _ _ Hj) in Hlo. cbn [te_keySym te_valSym] in Hlo.
      by rewrite Z.eqb_refl, Z.leb_refl, orb_true_r in Hlo. }
  rewrite (proj2 (Nat.eqb_neq _ _)) by lia. rewrite (table_at_spec _ _ Hj). cbn [or_panic mbind result_bind te_keySym te_valSym te_off].
  rewrite !Z.eqb_refl. cbn [negb orb].
  apply (readPostings_enc _ _ _ ((drop (S j) lists ≫= fun l => ids_bytes (pl_ids l)) ++ post)); [|done..].
  cbn [ir_postings reader]. rewrite <- (take_drop_middle _ _ _ Hj) at 1. rewrite bind_app, bind_cons, <- !app_assoc. done.
Qed.

Lemma BPostings_none k v : (forall ids, MkPostingList k v ids ∉ lists) -> BPostings reader k v = Ok [].
Proof.
  intros Hno. unfold BPostings. cbn [ir_symID ir_table reader]. destruct (symID !! k) as [kid|] eqn:Ek; [|done].
  destruct (symID !! v) as [vid|] eqn:Ev; [|done]. rewrite length_table, (table_search (fun e => (kid <? te_keySym e) || ((te_keySym e =? kid) && (vid <=? te_valSym e)))). cbn [or_panic mbind result_bind]. set (i := Search _ _).
  destruct (i =? length lists)%nat eqn:Ei; [done|]. destruct (decide (i < length lists)%nat) as [Hi|Hi].
  - destruct (in_lists i Hi) as (l & Hl & Hin). rewrite (table_at_spec _ _ Hl). cbn [or_panic mbind result_bind te_keySym te_valSym].
    destruct (Z.eqb_spec (so (pl_key l)) kid) as [Hk|]; [|done]. destruct (Z.eqb_spec (so (pl_value l)) vid) as [Hv|]; [|done].
    exfalso. apply (Hno (pl_ids l)). pose proof (list_syms l Hin) as [Sk Sv].
    assert (k ∈ symbol_set series /\ v ∈ symbol_set series) as [Sk' Sv'].
    { split; apply elem_of_syms; [apply symID_spec in Ek as (n & Hn & _)|apply symID_spec in Ev as (n & Hn & _)];
        by eapply list_elem_of_lookup_2. }
    assert (pl_key l = k) as <- by (apply (sym_of_inj series); [done..|]; unfold sym_of at 2; by rewrite Ek).
    assert (pl_value l = v) as <- by (apply (sym_of_inj series); [done..|]; unfold sym_of at 2; by rewrite Ev).
    by destruct l.
  - pose proof (Search_spec (length lists) (pair_ge kid vid) (pair_ge_mono kid vid)) as (Hle & _). unfold pair_ge in Hle. fold i in Hle.
    apply Nat.eqb_neq in Ei. lia.
Qed.

Lemma BPostings_spec k v : exists ids, BPostings reader k v = Ok ids /\ ssorted ids
  /\ forall id, id ∈ ids <-> with_tag (ordinals series) k v id.
Proof.
  destruct (decide (postings_of (inv_from 0 ∅ series) k v = [])) as [E|E].
  - exists []. split_and!; [|constructor|].
    + apply BPostings_none. intros ids Hin. apply invert_ids in Hin as [-> Hne]; done.
    + intros id. rewrite <- (mi_in _ _ (inv_mem_index series Hpost)). unfold in_map. cbn. by rewrite E.
  - assert (Hin : MkPostingList k v (postings_of (inv_from 0 ∅ series) k v) ∈ lists) by (by apply invert_ids).
    eexists. split; [apply (BPostings_list _ Hin)|]. apply (invert_elem series Hpost _ Hin).
Qed.

(** The run of entries with one key. *)
Fixpoint values_from (symbols : list gostring) (k : Z) (es : list tableEntry) : list gostring :=
  match es with
  | [] => []
  | e :: rest =>
      if te_keySym e =? k then
        match sym symbols (te_valSym e) with Err _ => [] | Ok v => v :: values_from symbols k rest end
      else []
  end.
Lemma values_at_run r k : forall fuel i out, fuel = (length (ir_table r) - i)%nat -> values_at fuel r k i out = Ok (out ++ values_from (ir_symbols r) k (drop i (ir_table r))).
Proof.
  induction fuel as [|fuel IH]; intros i out Hf; cbn [values_at]; [rewrite drop_ge by lia; cbn; by rewrite app_nil_r|].
  rewrite (proj2 (Nat.ltb_lt _ _)) by lia. cbn [negb]. unfold table_at. destruct (lookup_lt_is_Some_2 (ir_table r) i ltac:(lia)) as [e He]. rewrite He, (drop_S _ _ _ He). cbn [or_panic mbind result_bind values_from].
  destruct (te_keySym e =? k); [|by rewrite app_nil_r]. destruct (sym _ _) as [v|]; [|by rewrite app_nil_r]. rewrite IH by lia. by rewrite <- app_assoc.
Qed.

(** A run of lists from a key on yields the values of that key. *)
Lemma values_from_spec key ls off : key ∈ symbol_set series -> (forall l, l ∈ ls -> l ∈ lists) -> StronglySorted posting_lt ls ->
  (forall l, l ∈ ls -> so key <= so (pl_key l)) ->
  values_from syms (so key) (table_from symID off ls) = pl_value <$> filter (fun l => pl_key l = key) ls.
Proof.
  intros Hkey Hin Hs Hge. revert off. induction Hs as [|l ls Hs IH Hl]; intros off; [done|]. cbn [table_from values_from te_keySym te_valSym].
  pose proof (list_syms l (Hin l ltac:(by left))) as [Sk Sv]. destruct (Z.eqb_spec (so (pl_key l)) (so key)) as [E|E].
  - apply sym_of_inj in E as Ek; [|done..]. rewrite sym_read by done. rewrite filter_cons_True by done. cbn. f_equal.
    apply IH; [intros; apply Hin; by right|intros; apply Hge; by right].
  - rewrite filter_cons_False by congruence. rewrite filter_none; [done|]. intros y Hy Ek.
    rewrite Forall_forall in Hl. specialize (Hge l ltac:(by left)). specialize (Hl y Hy). rewrite <- Ek in Hge, E.
    pose proof (list_syms y (Hin y ltac:(by right))) as [Syk _].
    destruct Hl as [Hlt|[Heq _]]; [|congruence]. apply (sym_of_lt series) in Hlt; [lia|done..].
Qed.

Lemma BTagValues_spec key : BTagValues reader key = Ok (pl_value <$> filter (fun l => pl_key l = key) lists).
Proof.
  unfold BTagValues. cbn [ir_symID ir_table ir_symbols reader]. destruct (symID !! key) as [kid|] eqn:Ek.
  - assert (Hkey : key ∈ symbol_set series).
    { apply elem_of_syms. apply symID_spec in Ek as (n & Hn & _). by eapply list_elem_of_lookup_2. }
    assert (kid = so key) as -> by (unfold sym_of; by rewrite Ek). rewrite length_table, (table_search (fun e => so key <=? te_keySym e)). cbn [or_panic mbind result_bind].
    set (ge := fun i => so key <=? te_keySym (entry_at i)).
    assert (Hmono : forall a b, (a <= b < length lists)%nat -> ge a = true -> ge b = true).
    { intros a b Hab. destruct (decide (a = b)) as [->|Hne]; [done|].
      destruct (in_lists a) as (la & Ha & _); [lia|]. destruct (in_lists b) as (lb & Hb & _); [lia|].
      pose proof (lists_lt _ _ _ _ Ha Hb ltac:(lia)) as Hlt. unfold ge.
      rewrite (entry_at_spec _ _ Ha), (entry_at_spec _ _ Hb). cbn [te_keySym]. rewrite !Z.leb_le. lia. }
    destruct (Search_spec (length lists) ge Hmono) as (Hle & Hlo & Hhi). set (i := Search _ _) in *.
    rewrite values_at_run by (cbn [reader ir_table]; by rewrite length_table). cbn [app reader ir_table ir_symbols]. f_equal. destruct (drop_table symID lists (ulen pre) i) as [off' ->].
    rewrite values_from_spec; [|done| | |].
    + rewrite <- (take_drop i lists) at 2. rewrite filter_app, (filter_none _ (take i lists)); [done|].
      intros l Hl Hk. apply list_elem_of_lookup in Hl as [j Hj]. pose proof (lookup_lt_Some _ _ _ Hj) as Hji. rewrite length_take in Hji.
      rewrite lookup_take_lt in Hj by lia. specialize (Hlo j ltac:(lia)). unfold ge in Hlo. rewrite (entry_at_spec _ _ Hj) in Hlo.
      cbn [te_keySym] in Hlo. rewrite Hk, Z.leb_refl in Hlo. done.
    + intros l Hl. apply list_elem_of_lookup in Hl as [j Hj]. rewrite lookup_drop in Hj. by eapply list_elem_of_lookup_2.
    + pose proof (invert_sorted series) as Hs. rewrite <- (take_drop i lists) in Hs. by apply StronglySorted_app_1_r in Hs.
    + intros l Hl. apply list_elem_of_lookup in Hl as [j Hj]. rewrite lookup_drop in Hj. pose proof (lookup_lt_Some _ _ _ Hj).
      specialize (Hhi (i + j)%nat ltac:(lia)). unfold ge in Hhi. rewrite (entry_at_spec _ _ Hj) in Hhi. cbn [te_keySym] in Hhi. blia.
  - rewrite filter_none; [done|]. intros l Hl Hk. apply list_syms in Hl as [Sk _]. rewrite Hk in Sk.
    destruct (sym_of_spec series _ Sk) as (n & _ & E & _). congruence.
Qed.

(** The distinct keys of the table, from the first on. *)
Lemma keys_from_spec ls : (forall l, l ∈ ls -> l ∈ lists) -> StronglySorted posting_lt ls -> forall off last,
  (forall s l, last = Some s -> l ∈ ls -> s <= so (pl_key l)) ->
  let ks := keys_from syms last (table_from symID off ls) in
  NoDup ks /\ forall k, k ∈ ks <-> exists l, l ∈ ls /\ pl_key l = k /\ last <> Some (so k).
Proof.
  intros Hin Hs. induction Hs as [|l ls Hs IH Hl]; intros off last Hlast; cbn [table_from keys_from te_keySym].
  { split; [constructor|]. intros k. split; [intros H; by apply not_elem_of_nil in H|]. intros (? & H & _). by apply not_elem_of_nil in H. }
  pose proof (list_syms l (Hin l ltac:(by left))) as [Sk _]. rewrite Forall_forall in Hl.
  assert (Hin' : forall y, y ∈ ls -> y ∈ lists) by (intros; apply Hin; by right).
  assert (Hge : forall y, y ∈ ls -> so (pl_key l) <= so (pl_key y)).
  { intros y Hy. destruct (Hl y Hy) as [Hlt|[-> _]]; [|lia]. pose proof (list_syms y (Hin' y Hy)) as [Sy _].
    apply (sym_of_lt series) in Hlt; [lia|done..]. }
  case_bool_decide as E.
  - destruct (IH Hin' (off + ulen (ids_bytes (pl_ids l))) last) as [Hnd Hk]; [intros s y Hls Hy; apply (Hlast s y Hls); by right|].
    split; [done|]. intros k. rewrite Hk. split; [intros (y & Hy & H); exists y; split; [by right|done]|].
    intros (y & [->|Hy]%elem_of_cons & <- & Hne); [done|eauto].
  - rewrite sym_read by done.
    destruct (IH Hin' (off + ulen (ids_bytes (pl_ids l))) (Some (so (pl_key l)))) as [Hnd Hk]; [intros s y [= <-] Hy; auto|].
    split.
    + apply NoDup_cons. split; [|done]. intros (y & _ & <- & Hne)%Hk. done.
    + intros k. rewrite elem_of_cons, Hk. split.
      * intros [->|(y & Hy & <- & Hne)]; [exists l; split_and!; [by left|done|done]|].
        exists y. split_and!; [by right|done|]. intros ->. specialize (Hlast _ l eq_refl ltac:(by left)).
        specialize (Hge y Hy). apply Hne. f_equal. lia.
      * intros (y & [->|Hy]%elem_of_cons & <- & Hne); [by left|].
        destruct (decide (pl_key y = pl_key l)) as [Ey|Ey]; [by left|right]. exists y. split_and!; [done|done|].
        intros [= E']. apply Ey. pose proof (list_syms y (Hin' y Hy)) as [Sy _]. symmetry. by apply (sym_of_inj series).
Qed.

Lemma reader_laws : IndexLaws reader (ordinals series).
Proof.
  constructor; cbn [Postings TagValues TagKeys AllSeries indexReader_Lookup].
  - intros k v. by destruct (BPostings_spec k v) as (ids & -> & Hs & _).
  - intros k v id. destruct (BPostings_spec k v) as (ids & -> & _ & He). apply He.
  - intros key. rewrite BTagValues_spec. apply NoDup_fmap_2_strong; [|by apply NoDup_filter, invert_NoDup].
    intros a b [Ka Ha]%list_elem_of_filter [Kb Hb]%list_elem_of_filter Hv. eapply invert_unique; [done..|congruence|done].
  - intros key v. rewrite BTagValues_spec, list_elem_of_fmap. split.
    + intros (l & -> & [<- Hl]%list_elem_of_filter). by apply invert_nonempty.
    + intros (id & [ids Hids]%invert_complete); [|done]. exists (MkPostingList key v ids). split; [done|]. by apply list_elem_of_filter.
  - apply (keys_from_spec lists); [done|apply invert_sorted|done].
  - intros key. destruct (keys_from_spec lists ltac:(done) (invert_sorted series) (ulen pre) None) as [_ Hk]; [done|].
    unfold BTagKeys. cbn [ir_table ir_symbols reader]. rewrite Hk. split.
    + intros (l & Hl & <- & _). exists (pl_value l). by apply invert_nonempty.
    + intros (v & id & [ids Hids]%invert_complete); [|done]. exists (MkPostingList key v ids). done.
  - cbn [ir_all reader]. clear. generalize 0%nat. induction (length series) as [|n IH]; intros i; [constructor|]. cbn.
    apply ssorted_cons. split; [apply IH|]. intros y (k & -> & Hk%elem_of_seq)%list_elem_of_fmap. lia.
  - intros id. cbn [ir_all reader]. rewrite list_elem_of_fmap. split.
    + intros (n & -> & Hn%elem_of_seq). destruct (lookup_lt_is_Some_2 series n) as [s Hs]; [lia|]. exists (bs_ref s).
      apply ordinals_spec. eauto.
    + intros [ref (n & s & -> & Hs & _)%ordinals_spec]. exists n. split; [done|]. apply elem_of_seq. apply lookup_lt_Some in Hs. lia.
Qed.
End Laws.
