(* ===== verification/BlockOpen.v ===== *)
(** * Opening a written index *)

From Stdlib Require Import ZArith Lia.
From Stdlib Require Import (notations) String.
From stdpp Require Import base sorting gmap numbers list.
From S2P Require Import Prelude Wal WalProofs Gostring Tsdb Index IndexProofs IndexSelect HeadRecord BlockFile BlockIndex BlockLaws.

(** ** The layout *)

Section Layout.
Variable ss : list blockSeries.
Notation syms := (buildSymbols ss).1.
Notation symID := (buildSymbols ss).2.

Definition sec_head : list Z := PutUint32 indexMagic ++ [indexVersion].
Definition sec_symbols : list Z := uv (ulen syms) ++ (syms ≫= str_bytes).
Definition sec_series : list Z := uv (ulen ss) ++ (ss ≫= series_bytes symID).
Definition sec_postings : list Z := invert ss ≫= fun l => ids_bytes (pl_ids l).
Definition table : list tableEntry := table_from symID (ulen (sec_head ++ sec_symbols ++ sec_series)) (invert ss).
Definition sec_table : list Z := uv (ulen table) ++ (table ≫= entry_bytes).
Definition sec_toc : list Z :=
  PutUint64 (ulen sec_head) ++ PutUint64 (ulen (sec_head ++ sec_symbols))
  ++ PutUint64 (ulen (sec_head ++ sec_symbols ++ sec_series))
  ++ PutUint64 (ulen (sec_head ++ sec_symbols ++ sec_series ++ sec_postings)).
Definition body : list Z := sec_head ++ sec_symbols ++ sec_series ++ sec_postings ++ sec_table ++ sec_toc.
End Layout.

Lemma put_symbol_bytes buf s : put_symbol buf s = buf ++ str_bytes s.
Proof. unfold put_symbol, str_bytes. by rewrite AppendUvarint_uv, <- app_assoc. Qed.

Lemma put_entry_bytes buf e : put_entry buf e = buf ++ entry_bytes e.
Proof. unfold put_entry, entry_bytes. by rewrite !AppendUvarint_uv, <- !app_assoc. Qed.

Lemma index_layout series : let ss := merge_sort series_le series in
  index_bytes series = body ss ++ PutUint32 (crc32c (body ss)).
Proof.
  intros ss. unfold index_bytes. fold ss. destruct (buildSymbols ss) as [syms symID] eqn:E.
  rewrite !AppendUvarint_uv.
  rewrite (foldl_bytes put_symbol str_bytes _ _ put_symbol_bytes).
  rewrite (foldl_bytes (put_series symID) (series_bytes symID) _ _ (put_series_bytes symID)).
  fold sec_head.
  assert (H1 : (sec_head ++ uv (ulen syms)) ++ (syms ≫= str_bytes) = sec_head ++ sec_symbols ss)
    by (unfold sec_symbols; rewrite E; by rewrite <- app_assoc).
  rewrite H1.
  assert (H2 : ((sec_head ++ sec_symbols ss) ++ uv (ulen ss)) ++ (ss ≫= series_bytes symID) = sec_head ++ sec_symbols ss ++ sec_series ss)
    by (unfold sec_series; rewrite E; by rewrite <- !app_assoc).
  rewrite H2, put_lists_bytes. cbn [app].
  assert (Ht : table_from symID (ulen (sec_head ++ sec_symbols ss ++ sec_series ss)) (invert ss) = table ss) by (unfold table; by rewrite E).
  rewrite Ht, !AppendUvarint_uv, (foldl_bytes put_entry entry_bytes _ _ put_entry_bytes). fold (sec_postings ss).
  assert (Hb : forall (x y : list Z), x = y -> x ++ PutUint32 (crc32c x) = y ++ PutUint32 (crc32c y)) by (by intros x y ->).
  apply Hb. unfold body, sec_toc, sec_table. cbn [foldl]. by rewrite <- !app_assoc.
Qed.

(** ** Sizes and bytes *)

Lemma int_len_le {A B} (a : list A) (b : list B) : ulen a <= ulen b -> int_len b -> int_len a.
Proof. unfold int_len. lia. Qed.

Definition bytes (s : gostring) : Prop := Forall is_byte s.
(** The strings of a series are bytes. *)
Definition ref_bytes (ref : SeriesRef) : Prop :=
  bytes (sr_Metric ref) /\ Forall (fun t => bytes (t_Key t) /\ bytes (t_Value t)) (sr_Tags ref).

Lemma uv_bytes u : 0 <= u -> bytes (uv u).
Proof. apply uvarint_loop_bytes. Qed.
Lemma bind_bytes {A} (f : A -> list Z) l : Forall (fun x => bytes (f x)) l -> bytes (l ≫= f).
Proof. induction 1; [constructor|]. rewrite bind_cons. by apply Forall_app. Qed.
Lemma PutUint32_bytes v : bytes (PutUint32 v).
Proof. unfold PutUint32. repeat (apply Forall_cons_2; [apply uint8_range|]). apply Forall_nil, I. Qed.
Lemma PutUint64_bytes v : bytes (PutUint64 v).
Proof. apply Forall_app. split; apply PutUint32_bytes. Qed.

Section Opening.
Variable ss : list blockSeries.
Notation syms := (buildSymbols ss).1.
Notation symID := (buildSymbols ss).2.
Hypothesis Hpost : Forall (fun s => postable (bs_ref s)) ss.
Hypothesis Hchunks : Forall (fun s => Forall chunk_ok (bs_chunks s)) ss.
Hypothesis Hbytes : Forall (fun s => ref_bytes (bs_ref s)) ss.
Hypothesis Hsize : int_len (body ss).

Lemma series_ref_syms s : s ∈ ss -> ref_syms ss (bs_ref s).
Proof.
  intros Hs. apply list_elem_of_lookup in Hs as [n Hn].
  assert (Ho : ordinals ss !! Z.of_nat n = Some (bs_ref s)) by (apply ordinals_spec; eauto). split.
  - apply (symbol_set_carries ss _ _ MetricName (sr_Metric (bs_ref s)) Ho). by left.
  - apply Forall_forall. intros [k v] Ht. apply (symbol_set_carries ss _ _ k v Ho). by right.
Qed.

Lemma syms_bytes : Forall bytes syms.
Proof.
  apply Forall_forall. intros x Hx%elem_of_syms. unfold symbol_set in Hx. apply elem_of_union in Hx as [Hx|Hx].
  - apply elem_of_singleton in Hx as ->. by apply (Forall_impl (fun b => 0 <= b < 128)); [|unfold is_byte; lia];
      repeat (apply Forall_cons_2; [done|]); apply Forall_nil, I.
  - apply elem_of_list_to_set, list_elem_of_bind in Hx as (s & Hx & Hs). rewrite Forall_forall in Hbytes.
    destruct (Hbytes s Hs) as [Hm Ht]. apply elem_of_cons in Hx as [->|Hx]; [done|].
    apply list_elem_of_bind in Hx as (t & Hx & Hin). rewrite Forall_forall in Ht. destruct (Ht t Hin) as [Hk Hv].
    apply elem_of_cons in Hx as [->|Hx]; [done|]. apply list_elem_of_singleton in Hx as ->. done.
Qed.

Ltac sizes := unfold body, sec_symbols, sec_series, sec_table; rewrite ?ulen_app;
  repeat match goal with |- context [ulen (?x : list Z)] => lazymatch goal with H : 0 <= ulen x |- _ => fail | _ => pose proof (ulen_nonneg x) end end; lia.

Lemma sec_symbols_size : ulen (syms ≫= str_bytes) <= ulen (body ss).
Proof. sizes. Qed.
Lemma sec_series_size : ulen (ss ≫= series_bytes symID) <= ulen (body ss).
Proof. sizes. Qed.
Lemma sec_table_size : ulen (table ss ≫= entry_bytes) <= ulen (body ss).
Proof. sizes. Qed.

Lemma syms_int_len : int_len syms.
Proof.
  eapply int_len_le; [|exact Hsize]. etrans; [|apply sec_symbols_size]. apply bind_length_ge. intros x. unfold str_bytes.
  rewrite length_app. pose proof (uv_ge (ulen x)). lia.
Qed.

Lemma syms_each_int_len : Forall int_len syms.
Proof.
  apply Forall_forall. intros x Hx. eapply int_len_le; [|exact Hsize]. etrans; [|apply sec_symbols_size].
  etrans; [|apply (length_bind_part str_bytes _ _ Hx)]. unfold str_bytes. rewrite ulen_app.
  pose proof (ulen_nonneg (uv (ulen x))). lia.
Qed.

Lemma ss_int_len : int_len ss.
Proof.
  eapply int_len_le; [|exact Hsize]. etrans; [|apply sec_series_size]. apply bind_length_ge. intros s. unfold series_bytes.
  rewrite length_app. pose proof (uv_ge (sym_of symID (sr_Metric (bs_ref s)))). lia.
Qed.

Lemma ss_ok : Forall (series_ok ss) ss.
Proof.
  apply Forall_forall. intros s Hs. rewrite Forall_forall in Hchunks.
  pose proof (length_bind_part (series_bytes symID) _ _ Hs) as Hp. pose proof sec_series_size as Hsz.
  unfold series_bytes in Hp at 1. rewrite !ulen_app in Hp.
  pose proof (ulen_nonneg (uv (sym_of symID (sr_Metric (bs_ref s))))). pose proof (ulen_nonneg (uv (ulen (sr_Tags (bs_ref s))))).
  pose proof (ulen_nonneg (uv (ulen (bs_chunks s)))). pose proof (ulen_nonneg (sr_Tags (bs_ref s) ≫= stag_bytes symID)).
  pose proof (ulen_nonneg (bs_chunks s ≫= chunk_bytes)).
  split_and!; [by apply series_ref_syms|by apply Hchunks| |]; (eapply int_len_le; [|exact Hsize]).
  - etrans; [apply (bind_length_ge (stag_bytes symID))|lia]. intros t. unfold stag_bytes. rewrite length_app.
    pose proof (uv_ge (sym_of symID (t_Key t))). lia.
  - etrans; [apply (bind_length_ge chunk_bytes)|lia]. intros c. unfold chunk_bytes. rewrite length_app.
    pose proof (uv_ge (zigzag (cr_minT c))). lia.
Qed.

Lemma table_int_len : int_len (table ss).
Proof.
  eapply int_len_le; [|exact Hsize]. etrans; [|apply sec_table_size]. apply bind_length_ge. intros e. unfold entry_bytes.
  rewrite length_app. pose proof (uv_ge (te_keySym e)). lia.
Qed.

Lemma table_ok : Forall (entry_ok (ulen (body ss))) (table ss).
Proof.
  apply Forall_forall. intros e He. apply list_elem_of_lookup in He as [i Hi]. unfold table in Hi. rewrite table_lookup in Hi.
  destruct (invert ss !! i) as [l|] eqn:El; [|done]. cbn [fmap option_fmap option_map] in Hi. apply (inj Some) in Hi as <-.
  unfold entry_ok. cbn [te_keySym te_valSym te_off].
  pose proof (list_elem_of_lookup_2 _ _ _ El) as Hl. destruct (list_syms ss Hpost l Hl) as [Hk Hv].
  assert (Hoff : ulen (sec_head ++ sec_symbols ss ++ sec_series ss) + ulen (take i (invert ss) ≫= fun l => ids_bytes (pl_ids l))
    < ulen (body ss)).
  { unfold body, sec_postings. rewrite <- (take_drop_middle _ _ _ El) at 2. rewrite bind_app, bind_cons, !ulen_app.
    pose proof (ulen_nonneg (drop (S i) (invert ss) ≫= fun l => ids_bytes (pl_ids l))).
    pose proof (ulen_nonneg (sec_table ss)). pose proof (ulen_nonneg (sec_toc ss)).
    assert (1 <= ulen (ids_bytes (pl_ids l))).
    { unfold ids_bytes. rewrite ulen_app. pose proof (ulen_nonneg (id_deltas (pl_ids l) ≫= fun d => uv d)).
      unfold ulen at 1. pose proof (uv_ge (ulen (pl_ids l))). lia. }
    lia. }
  split_and!; [by apply sym_of_u64; [apply syms_int_len|]..| |done].
  pose proof (ulen_nonneg (sec_head ++ sec_symbols ss ++ sec_series ss)).
  pose proof (ulen_nonneg (take i (invert ss) ≫= fun l => ids_bytes (pl_ids l))). pose proof Hsize as Hz. unfold int_len in Hz. unfold is_u64. lia.
Qed.

Lemma sym_of_nonneg x : 0 <= sym_of symID x.
Proof.
  unfold sym_of. destruct (symID !! x) as [i|] eqn:E; [|done]. apply symID_spec in E as (n & _ & ->). cbn. lia.
Qed.

Lemma body_bytes : bytes (body ss).
Proof.
  unfold body, sec_head, sec_symbols, sec_series, sec_postings, sec_table, sec_toc.
  repeat (apply Forall_app; split); try (apply PutUint32_bytes || apply PutUint64_bytes || (apply uv_bytes, ulen_nonneg)).
  - apply Forall_singleton. done.
  - apply bind_bytes. eapply Forall_impl; [apply syms_bytes|]. intros x Hx. apply Forall_app. split; [apply uv_bytes, ulen_nonneg|done].
  - apply bind_bytes, Forall_forall. intros s Hs. unfold series_bytes. repeat (apply Forall_app; split);
      try (apply uv_bytes; apply ulen_nonneg || apply sym_of_nonneg); apply bind_bytes, Forall_forall.
    + intros t _. apply Forall_app. split; apply uv_bytes, sym_of_nonneg.
    + intros c Hc. rewrite Forall_forall in Hchunks. specialize (Hchunks s Hs). rewrite Forall_forall in Hchunks.
      destruct (Hchunks c Hc) as (_ & _ & H3 & H4). unfold chunk_bytes.
      repeat (apply Forall_app; split); apply uv_bytes; [apply zigzag_range|apply uint64_range|apply H3|apply H4].
  - apply bind_bytes, Forall_forall. intros l Hl. apply Forall_app. split; [apply uv_bytes, ulen_nonneg|].
    apply bind_bytes, Forall_forall. intros d Hd. apply uv_bytes.
    destruct (list_ids_ok ss Hpost ss_int_len l Hl) as (_ & Hu & _). destruct (pl_ids l) as [|id ids]; [by apply not_elem_of_nil in Hd|].
    apply Forall_cons_1 in Hu as [Hu _]. cbn [id_deltas] in Hd. apply elem_of_cons in Hd as [->|Hd]; [apply Hu|].
    clear - Hd. revert id Hd. induction ids as [|x ids IH]; intros id Hd; [by apply not_elem_of_nil in Hd|].
    cbn [deltas] in Hd. apply elem_of_cons in Hd as [->|Hd]; [apply uint64_range|by eapply IH].
  - apply bind_bytes. eapply Forall_impl; [apply table_ok|]. intros e (H1 & H2 & H3 & _). unfold entry_bytes.
    repeat (apply Forall_app; split); apply uv_bytes; [apply H1|apply H2|apply H3].
Qed.

Lemma read_toc_enc (b : list Z) offs rest : Forall (fun off => is_u64 off /\ off <= ulen b) offs ->
  read_toc b ((offs ≫= PutUint64) ++ rest) (length offs) = Ok offs.
Proof.
  induction offs as [|off offs IH]; intros Ho; [done|]. apply Forall_cons_1 in Ho as [[Hu Hle] Ho].
  cbn [length read_toc]. rewrite bind_cons, <- app_assoc, PutUint64_at by done. cbn [mbind result_bind].
  rewrite (proj2 (Z.ltb_ge _ _)) by done. change 8 with (ulen (PutUint64 off)). rewrite slice_from_app. cbn [mbind result_bind].
  by rewrite IH.
Qed.

Definition index_pre : list Z := sec_head ++ sec_symbols ss ++ sec_series ss.
Definition index_post : list Z := sec_table ss ++ sec_toc ss.

Lemma open_body : openIndexReader (body ss ++ PutUint32 (crc32c (body ss))) = Ok (reader ss index_pre index_post).
Proof.
  set (b := body ss) in *. set (t := PutUint32 (crc32c b)).
  assert (Ht : ulen t = 4) by done. assert (Hbig : 37 <= ulen b).
  { unfold b, body. rewrite !ulen_app. change (ulen sec_head) with 5. change (ulen (sec_toc ss)) with 32.
    pose proof (ulen_nonneg (sec_symbols ss)). pose proof (ulen_nonneg (sec_series ss)). pose proof (ulen_nonneg (sec_postings ss)).
    pose proof (ulen_nonneg (sec_table ss)). lia. }
  unfold openIndexReader. rewrite (proj2 (Z.ltb_ge _ _)) by (rewrite ulen_app; change (indexHeadLen + tocLen + 4) with 41; lia).
  assert (Hhead : exists rest, b ++ t = PutUint32 indexMagic ++ indexVersion :: rest).
  { unfold b, body, sec_head. rewrite <- !app_assoc. cbn [app]. eauto. }
  destruct Hhead as [rest Hhead]. rewrite Hhead at 1. rewrite BigEndian_Uint32_put by done. cbn [mbind result_bind]. rewrite Z.eqb_refl. cbn [negb].
  rewrite Hhead at 1. cbn [PutUint32 app lookup list_lookup]. rewrite Z.eqb_refl. cbn [negb].
  replace (ulen (b ++ t) - 4) with (ulen b) by (rewrite ulen_app; lia).
  pose proof (slice_mid [] b t) as Hb0. cbn [app] in Hb0. change (ulen []) with 0 in Hb0. rewrite Z.add_0_l in Hb0. rewrite Hb0. cbn [mbind result_bind].
  rewrite slice_from_app. cbn [mbind result_bind].
  assert (Hcrc : BigEndian_Uint32 t = Ok (crc32c b)).
  { pose proof (BigEndian_Uint32_put (crc32c b) []) as H. rewrite app_nil_r in H. apply H, crc32c_range, body_bytes. }
  rewrite Hcrc. cbn [mbind result_bind]. rewrite Z.eqb_refl. cbn [negb].
  set (p := sec_head ++ sec_symbols ss ++ sec_series ss ++ sec_postings ss ++ sec_table ss).
  assert (Hp : b = p ++ sec_toc ss) by (unfold b, body, p; by rewrite <- !app_assoc).
  replace (ulen b - tocLen) with (ulen p) by (rewrite Hp, ulen_app; change (ulen (sec_toc ss)) with 32; change tocLen with 32; lia).
  rewrite Hp at 1. rewrite slice_from_app. cbn [mbind result_bind].
  set (offs := [ulen sec_head; ulen (sec_head ++ sec_symbols ss); ulen (sec_head ++ sec_symbols ss ++ sec_series ss);
    ulen (sec_head ++ sec_symbols ss ++ sec_series ss ++ sec_postings ss)]).
  assert (Htoc : sec_toc ss = (offs ≫= PutUint64) ++ []) by done.
  rewrite Htoc. change 4%nat with (length offs). rewrite read_toc_enc.
  2:{ assert (Hz : ulen b < 2 ^ 63) by exact Hsize.
      assert (Hle : forall a c : list Z, b = a ++ c -> is_u64 (ulen a) /\ ulen a <= ulen b).
      { intros a c Ha. rewrite Ha in *. rewrite ulen_app in *. pose proof (ulen_nonneg a). pose proof (ulen_nonneg c). unfold is_u64. lia. }
      unfold b, body in Hle. repeat (apply Forall_cons_2; [eapply Hle; rewrite <- ?app_assoc; reflexivity|]). apply Forall_nil, I. }
  unfold offs. cbn [mbind result_bind].
  assert (Hs1 : b = sec_head ++ sec_symbols ss ++ sec_series ss ++ sec_postings ss ++ sec_table ss ++ sec_toc ss) by done.
  rewrite Hs1 at 1. rewrite slice_from_app. cbn [mbind result_bind].
  assert (Hsym : readSymbols (at_ (sec_symbols ss ++ sec_series ss ++ sec_postings ss ++ sec_table ss ++ sec_toc ss)) = Ok (buildSymbols ss)).
  { unfold sec_symbols. rewrite <- app_assoc. apply readSymbols_enc; [apply syms_each_int_len|apply syms_int_len]. }
  rewrite Hsym. cbn [mbind result_bind].
  destruct (buildSymbols ss) as [sy si] eqn:E.
  assert (Hs2 : b = (sec_head ++ sec_symbols ss) ++ sec_series ss ++ sec_postings ss ++ sec_table ss ++ sec_toc ss)
    by (rewrite Hs1; by rewrite <- app_assoc).
  rewrite Hs2 at 1. rewrite slice_from_app. cbn [mbind result_bind].
  assert (Hser : readSeries sy (at_ (sec_series ss ++ sec_postings ss ++ sec_table ss ++ sec_toc ss)) = Ok ss).
  { pose proof (readSeries_enc ss syms_int_len ss (sec_postings ss ++ sec_table ss ++ sec_toc ss) ss_int_len ss_ok) as H.
    unfold sec_series. rewrite <- app_assoc. rewrite E in H |- *. exact H. }
  rewrite Hser. cbn [mbind result_bind].
  assert (Hs3 : b = (sec_head ++ sec_symbols ss ++ sec_series ss ++ sec_postings ss) ++ sec_table ss ++ sec_toc ss)
    by (rewrite Hs1; by rewrite <- !app_assoc).
  rewrite Hs3 at 1. rewrite slice_from_app. cbn [mbind result_bind].
  assert (Htab : readTable (ulen b) (at_ (sec_table ss ++ sec_toc ss)) = Ok (table ss)).
  { unfold sec_table. rewrite <- app_assoc. apply readTable_enc; [apply table_int_len|apply table_ok]. }
  rewrite Htab. cbn [mbind result_bind]. unfold reader, table, index_pre, index_post. rewrite E. cbn [fst snd]. do 2 f_equal.
  rewrite Hs1. unfold sec_postings. by rewrite <- !app_assoc.
Qed.
End Opening.
