(* ===== verification/Block.v ===== *)
(** * Blocks (internal/tsdb/block: write.go, block.go)

    The writer that packs series into chunks and an index, and the reader that
    answers from the two files.  meta.json is its value: its JSON text is not
    modelled.  A ULID is a number and compares as one. *)

From Stdlib Require Import ZArith Lia.
From Stdlib Require Import (notations) String.
From stdpp Require Import base sorting gmap numbers list.
From S2P Require Import Prelude Chunkenc Wal Gostring Tsdb Index HeadRecord Head HeadSeries Compact BlockFile.

(** ** The writer *)

Inductive write_error :=
| ErrWriterClosed | ErrBadRef (e : ref_error) | ErrEncode (e : chunk_error) | ErrIO | ErrEmpty | ErrWriterPanic.

Record WriterOptions := MkWriterOptions { wo_Level : Z; wo_Sources : list Z; wo_ResolutionS : Z }.

Record block_files := MkBlockFiles { bf_meta : Meta; bf_index : list Z; bf_chunks : list Z }.

Record BWriter := MkBWriter {
  bw_id : Z;
  bw_opts : WriterOptions;
  bw_chunks : chunkWriter;
  bw_ix : list blockSeries;
  bw_stats : BStats;
  bw_minT : Z;
  bw_maxT : Z;
  bw_closed : bool;
  bw_published : option block_files;   (* the directory after the rename *)
  bw_io : list bool;                   (* outcomes of the system calls still to come *)
}.

Abbreviation BW := (SE BWriter write_error).

Definition with_io (io : list bool) (w : BWriter) : BWriter :=
  MkBWriter (bw_id w) (bw_opts w) (bw_chunks w) (bw_ix w) (bw_stats w) (bw_minT w) (bw_maxT w) (bw_closed w) (bw_published w) io.
Definition with_chunks (c : chunkWriter) (w : BWriter) : BWriter :=
  MkBWriter (bw_id w) (bw_opts w) c (bw_ix w) (bw_stats w) (bw_minT w) (bw_maxT w) (bw_closed w) (bw_published w) (bw_io w).
Definition with_series (s : blockSeries) (samples chunks : nat) (minT maxT : Z) (w : BWriter) : BWriter :=
  let st := bw_stats w in
  MkBWriter (bw_id w) (bw_opts w) (bw_chunks w) (bw_ix w ++ [s])
    (MkBStats (bs_Series st + 1) (bs_Samples st + Z.of_nat samples) (bs_Chunks st + Z.of_nat chunks))
    minT maxT (bw_closed w) (bw_published w) (bw_io w).
Definition with_bclosed (w : BWriter) : BWriter :=
  MkBWriter (bw_id w) (bw_opts w) (bw_chunks w) (bw_ix w) (bw_stats w) (bw_minT w) (bw_maxT w) true (bw_published w) (bw_io w).
Definition with_published (f : block_files) (w : BWriter) : BWriter :=
  MkBWriter (bw_id w) (bw_opts w) (bw_chunks w) (bw_ix w) (bw_stats w) (bw_minT w) (bw_maxT w) (bw_closed w) (Some f) (bw_io w).

(** A system call: it succeeds unless the script says otherwise. *)
Definition sys : BW unit := fun w =>
  match bw_io w with
  | [] => (w, Ok tt)
  | ok :: rest => (with_io rest w, if ok : bool then Ok tt else Err ErrIO)
  end.
Fixpoint sys_n (n : nat) : BW unit := match n with O => mret tt | S n' => _ ← sys; sys_n n' end.

(** NewWriter: the directory, then the chunk file and its header. *)
Definition NewWriter (id : Z) (opts : WriterOptions) (io : list bool) : BWriter :=
  MkBWriter id opts newChunkWriter [] (MkBStats 0 0 0) (2 ^ 63 - 1) (- 2 ^ 63) false None io.

Definition writeChunk (samples : list (Z * Z)) : BW chunkRef := fun w =>
  match ChunkAppender NewChunk with
  | Err e => (w, Err (ErrEncode e))
  | Ok app =>
      match appendAll samples app with
      | (_, Err e) => (w, Err (ErrEncode e))
      | (app, Ok _) =>
          match sys w with
          | (w, Err e) => (w, Err e)
          | (w, Ok _) =>
              let '(cw, (off, recLen)) := cw_write EncodingGorilla (Bytes (a_c app)) (bw_chunks w) in
              match samples, last samples with
              | s0 :: _, Some s1 => (with_chunks cw w, Ok (MkChunkRef s0.1 s1.1 off recLen))
              | _, _ => (w, Err ErrWriterPanic)
              end
          end
      end
  end.

(** The chunks of a series, 120 samples each. *)
Fixpoint write_chunks (fuel : nat) (samples : list (Z * Z)) (out : list chunkRef) : BW (list chunkRef) :=
  match fuel, samples with
  | S fuel', _ :: _ =>
      let n := Z.to_nat MaxSamplesPerChunk in
      ref ← writeChunk (take n samples);
      write_chunks fuel' (drop n samples) (out ++ [ref])
  | _, _ => mret out
  end.

Definition AddSeries (ref : SeriesRef) (samples : list (Z * Z)) : BW unit :=
  w ← get;
  if bw_closed w then throw ErrWriterClosed else
  match samples, last samples with
  | s0 :: _, Some s1 =>
      match Validate ref with
      | Err e => throw (ErrBadRef e)
      | Ok _ =>
          chunks ← write_chunks (length samples) samples [];
          w ← get;
          put (with_series (MkBlockSeries ref chunks) (length samples) (length chunks)
            (Z.min (bw_minT w) s0.1) (Z.max (bw_maxT w) s1.1) w)
      end
  | _, _ => mret tt
  end.

Definition meta_of (w : BWriter) : Meta :=
  MkMeta (bw_id w) 1 (bw_minT w) (bw_maxT w) (bw_stats w) (wo_Level (bw_opts w)) (wo_Sources (bw_opts w)) (wo_ResolutionS (bw_opts w)).

(** [Close]: Sync and Close of chunks.dat; index.dat; meta.json; the directory; the
    rename that publishes; the parent directory. *)
Definition BClose : BW Meta :=
  w ← get;
  if bw_closed w then throw ErrWriterClosed else
  _ ← put (with_bclosed w);
  _ ← sys_n 2;
  w ← get;
  if bs_Series (bw_stats w) =? 0 then throw ErrEmpty else
  _ ← sys_n 4;
  _ ← sys_n 4;
  _ ← sys;
  _ ← sys;
  w ← get;
  _ ← put (with_published (MkBlockFiles (meta_of w) (index_bytes (bw_ix w)) (cw_file (bw_chunks w))) w);
  _ ← sys;
  mret (meta_of w).

Fixpoint add_all (series : list (SeriesRef * list (Z * Z))) : BW unit :=
  match series with
  | [] => mret tt
  | (ref, samples) :: rest => _ ← AddSeries ref samples; add_all rest
  end.

(** [Abort] on a writer that is still open: nothing is published, nothing more is accepted. *)
Definition BAbort : BW unit :=
  w ← get;
  if bw_closed w then mret tt else
  _ ← put (with_bclosed w);
  w ← get;
  let '(w, _) := sys_n 2 w in
  _ ← put w;
  sys.

(** [Write], once its directory and the chunk file's header are there: a series that
    cannot be added aborts the block, with the first error. *)
Definition Write (id : Z) (series : list (SeriesRef * list (Z * Z))) (opts : WriterOptions) (io : list bool) :
  BWriter * result write_error Meta :=
  match add_all series (NewWriter id opts io) with
  | (w, Err e) => ((BAbort w).1, Err e)
  | (w, Ok _) => BClose w
  end.

(** ** The reader *)

Record Block := MkBlock { blk_meta : Meta; blk_ix : indexReader; blk_chunks : list Z }.

Inductive read_error :=
| ErrMetaVersion (v : Z) | ErrFile (e : block_error) | ErrPostings (id : Z) | ErrEncoding (e : Z) | ErrDecoding (e : chunk_error).

Definition MetaVersion : Z := 1.
Definition ReadMeta (m : Meta) : result read_error Meta :=
  if negb (bm_Version m =? MetaVersion) then Err (ErrMetaVersion (bm_Version m)) else Ok m.

Definition file_result {A} (r : result block_error A) : result read_error A :=
  match r with Ok a => Ok a | Err e => Err (ErrFile e) end.

Definition BlockOpen (f : block_files) : result read_error Block :=
  m ← ReadMeta (bf_meta f);
  ix ← file_result (openIndexReader (bf_index f));
  cr ← file_result (openChunkReader (bf_chunks f));
  Ok (MkBlock m ix cr).

Definition Overlaps (b : Block) (from to : Z) : bool := (bm_MinTime (blk_meta b) <=? to) && (from <=? bm_MaxTime (blk_meta b)).

(** The loop over one chunk's samples: those in the window, up to the first past it. *)
Fixpoint scan (fuel : nat) (from to : Z) (it : Iterator) (out : list (Z * Z)) : list (Z * Z) * Iterator :=
  match fuel with
  | O => (out, it)
  | S fuel' =>
      match Next it with
      | (it', false) => (out, it')
      | (it', true) =>
          let '(t, v) := At it' in
          if t <? from then scan fuel' from to it' out
          else if to <? t then (out, it')
          else scan fuel' from to it' (out ++ [(t, v)])
      end
  end.

Fixpoint samples_loop (file : list Z) (crs : list chunkRef) (from to : Z) (out : list (Z * Z)) : result read_error (list (Z * Z)) :=
  match crs with
  | [] => Ok out
  | cr :: rest =>
      if (cr_maxT cr <? from) || (to <? cr_minT cr) then samples_loop file rest from to out else
      '(enc, data) ← file_result (chunk_at file (cr_off cr) (cr_recLen cr));
      if negb (enc =? EncodingGorilla) then Err (ErrEncoding enc) else
      match FromBytes data with
      | Err e => Err (ErrDecoding e)
      | Ok c =>
          let it := ChunkIterator c in
          let '(out, it) := scan (Z.to_nat (it_total it - it_read it) + 1) from to it out in
          match it_err it with Some e => Err (ErrDecoding e) | None => samples_loop file rest from to out end
      end
  end.
Definition samples (b : Block) (s : blockSeries) (from to : Z) : result read_error (list (Z * Z)) :=
  samples_loop (blk_chunks b) (bs_chunks s) from to [].

Fixpoint select_loop (b : Block) (ids : list Z) (from to : Z) : result read_error (list (SeriesRef * list (Z * Z))) :=
  match ids with
  | [] => Ok []
  | id :: rest =>
      if ulen (ir_series (blk_ix b)) <=? id then Err (ErrPostings id) else
      match ir_series (blk_ix b) !! Z.to_nat id with
      | None => Err (ErrFile ErrPanic)
      | Some s =>
          ss ← samples b s from to;
          out ← select_loop b rest from to;
          Ok (match ss with [] => out | _ => (bs_ref s, ss) :: out end)
      end
  end.

Definition BlockSelect (b : Block) (sel : Selector) (from to : Z) : result read_error (list (SeriesRef * list (Z * Z))) :=
  if negb (Overlaps b from to) then Ok [] else
  out ← select_loop b (IndexSelect (blk_ix b) sel) from to;
  Ok (merge_sort key_le out).

Fixpoint all_loop (b : Block) (ss : list blockSeries) : result read_error (list (SeriesRef * list (Z * Z))) :=
  match ss with
  | [] => Ok []
  | s :: rest =>
      vs ← samples b s (bm_MinTime (blk_meta b)) (bm_MaxTime (blk_meta b));
      out ← all_loop b rest;
      Ok ((bs_ref s, vs) :: out)
  end.
Definition All (b : Block) : result read_error (list (SeriesRef * list (Z * Z))) := all_loop b (ir_series (blk_ix b)).

Definition BSeries (b : Block) : list SeriesRef := bs_ref <$> ir_series (blk_ix b).

Fixpoint refs_of (series : list blockSeries) (ids : list Z) : result read_error (list SeriesRef) :=
  match ids with
  | [] => Ok []
  | id :: rest =>
      if ulen series <=? id then Err (ErrPostings id) else
      match series !! Z.to_nat id with
      | None => Err (ErrFile ErrPanic)
      | Some s => out ← refs_of series rest; Ok (bs_ref s :: out)
      end
  end.
Definition BSeriesOf (b : Block) (metric : gostring) : result read_error (list SeriesRef) :=
  refs_of (ir_series (blk_ix b)) (Postings (blk_ix b) MetricName metric).

Definition SamplesFor (b : Block) (key : gostring) : result read_error (list (Z * Z)) :=
  let series := ir_series (blk_ix b) in
  let n := length series in
  i ← file_result (or_panic (SearchTry n (fun i => s ← series !! i; Some (bool_decide (str_le key (Key (bs_ref s)))))));
  if (i =? n)%nat then Ok [] else
  s ← file_result (or_panic (series !! i));
  if decide (Key (bs_ref s) = key)
  then samples b s (bm_MinTime (blk_meta b)) (bm_MaxTime (blk_meta b)) else Ok [].

(** What compaction reads of a block. *)
#[export] Instance Block_Reader : BlockReader Block read_error := {|
  b_Meta := blk_meta; b_Series := BSeries; b_SamplesFor := SamplesFor;
|}.

(** ** Compaction's [merge]: the sources' series, one at a time, into a new block *)

Inductive merge_error := ErrMergeRead (e : read_error) | ErrMergeWrite (e : write_error).

Definition lift_write {A} (m : BW A) : SE BWriter merge_error A := fun w =>
  match m w with (w, Ok a) => (w, Ok a) | (w, Err e) => (w, Err (ErrMergeWrite e)) end.

Fixpoint merge_add (sources : list Block) (refs : list SeriesRef) : SE BWriter merge_error unit :=
  match refs with
  | [] => mret tt
  | ref :: rest =>
      match gather sources (Key ref) with
      | Err e => throw (ErrMergeRead e)
      | Ok [] => merge_add sources rest
      | Ok ss => _ ← lift_write (AddSeries ref ss); merge_add sources rest
      end
  end.

Definition merge_opts (p : Plan Block) (res : Z) : WriterOptions :=
  MkWriterOptions (p_Level p) ((fun b => bm_ULID (b_Meta b)) <$> p_Sources p) res.

(** [None]: p.Sources[0] of a plan with no sources panics. *)
Definition merge (id : Z) (p : Plan Block) (io : list bool) : option (BWriter * result merge_error Meta) :=
  match p_Sources p with
  | [] => None
  | b :: _ =>
      Some (match merge_add (p_Sources p) (mergedSeries (p_Sources p)) (NewWriter id (merge_opts p (bm_ResolutionS (b_Meta b))) io) with
            | (w, Err e) => ((BAbort w).1, Err e)
            | (w, Ok _) => lift_write BClose w
            end)
  end.
