(* ===== verification/BlockServe.v ===== *)
(** * What an open block serves

    A written block reads back as it was written, and the open block answers
    queries from it. *)

From Stdlib Require Import ZArith Lia.
From Stdlib Require Import (notations) String.
From stdpp Require Import base sorting gmap numbers list.
From S2P Require Import Prelude Bstream Chunkenc Wal WalProofs Gostring Tsdb Index IndexProofs IndexSelect HeadRecord Head HeadSeries HeadStore HeadOps Compact CompactProofs BlockFile BlockIndex BlockLaws BlockOpen Block.

(** * A block reads back what was written *)

(** ** Chunk records *)

Lemma chunk_record_parts enc data : chunk_record enc data
  = uv (uint64 (ulen data + 1)) ++ (enc :: data) ++ PutUint32 (crc32c (enc :: data)).
Proof.
  unfold chunk_record. rewrite AppendUvarint_uv. cbn [app]. set (u := uv _).
  assert (Hb : (u ++ [enc]) ++ data = u ++ enc :: data) by (by rewrite <- app_assoc). rewrite Hb.
  rewrite drop_app_length'; [by rewrite <- app_assoc|]. rewrite length_app. cbn [length]. lia.
Qed.

Lemma chunk_record_read pre enc data post : is_byte enc -> bytes data -> ulen data <= maxChunkLen - 20 ->
  int_len (pre ++ chunk_record enc data ++ post) ->
  chunk_at (pre ++ chunk_record enc data ++ post) (uint64 (ulen pre)) (ulen (chunk_record enc data)) = Ok (enc, data).
Proof.
  intros He Hd Hlen Hfile. set (rec := chunk_record enc data) in *. unfold int_len in Hfile. rewrite !ulen_app in Hfile.
  pose proof (ulen_nonneg pre). pose proof (ulen_nonneg rec). pose proof (ulen_nonneg post). pose proof (ulen_nonneg data).
  change maxChunkLen with 1048576 in *. rewrite uint64_id by (unfold is_u64; lia).
  pose proof (chunk_record_parts enc data) as Hrec. fold rec in Hrec.
  rewrite (uint64_id (ulen data + 1)) in Hrec by (unfold is_u64; lia). set (u := uv (ulen data + 1)) in *.
  assert (Hu : 1 <= ulen u <= 10).
  { unfold ulen, u. pose proof (uv_ge (ulen data + 1)). pose proof (length_uvarint 10 (ulen data + 1)). lia. }
  assert (Hrl : ulen rec = ulen u + (ulen data + 1) + 4).
  { rewrite Hrec, !ulen_app. change (ulen (PutUint32 (crc32c (enc :: data)))) with 4. unfold ulen at 2. cbn [length]. unfold ulen. lia. }
  unfold chunk_at. change maxChunkLen with 1048576.
  rewrite !(proj2 (Z.ltb_ge _ _)) by (rewrite ?ulen_app, ?uint64_id; unfold is_u64; lia). cbn [orb].
  rewrite int64_id by (unfold is_i64; lia). rewrite slice_mid. cbn [mbind result_bind].
  assert (Huv : Uvarint rec = Some (ulen data + 1, (enc :: data) ++ PutUint32 (crc32c (enc :: data)))).
  { rewrite Hrec. apply Uvarint_Append. unfold is_u64. lia. }
  rewrite Huv. replace (ulen rec - ulen ((enc :: data) ++ PutUint32 (crc32c (enc :: data)))) with (ulen u)
    by (rewrite Hrec at 1; rewrite ulen_app; lia).
  rewrite !uint64_id by (unfold is_u64; lia).
  rewrite (proj2 (Z.leb_gt _ _)) by lia. replace (ulen rec - 4 - ulen u) with (ulen data + 1) by lia. rewrite Z.eqb_refl. cbn [orb negb].
  assert (Hb1 : slice rec (ulen u) (ulen u + (ulen data + 1)) = Ok (enc :: data)).
  { rewrite Hrec. replace (ulen data + 1) with (ulen (enc :: data)) by (unfold ulen; cbn [length]; lia). apply slice_mid. }
  rewrite Hb1. cbn [mbind result_bind].
  assert (Hb2 : slice_from rec (ulen u + (ulen data + 1)) = Ok (PutUint32 (crc32c (enc :: data)))).
  { rewrite Hrec, app_assoc. replace (ulen u + (ulen data + 1)) with (ulen (u ++ enc :: data))
      by (rewrite ulen_app; unfold ulen; cbn [length]; lia). apply slice_from_app. }
  rewrite Hb2. cbn [mbind result_bind].
  pose proof (BigEndian_Uint32_put (crc32c (enc :: data)) []) as Hc. rewrite app_nil_r in Hc.
  rewrite Hc by (apply crc32c_range; by apply Forall_cons_2). cbn [mbind result_bind]. by rewrite Z.eqb_refl.
Qed.

(** ** How large a chunk can be *)

Lemma length_bits_bound n st s : enc_ok st -> sample_ok s -> (length (sample_bits n st s).1 <= 160)%nat.
Proof.
  intros [Ht Hv Hd Hw] [_ Hsv]. destruct s as [t v]. unfold sample_bits.
  assert (Htb : forall st', time_bits n st t = st' -> (length st'.1 <= 80)%nat).
  { intros st' <-. unfold time_bits.
    assert (Hvb : forall x, (length (varint_bits x) <= 80)%nat).
    { intros x. unfold varint_bits. rewrite length_bits_of_bytes. pose proof (length_uvarint 10 (zigzag x)). lia. }
    destruct (n =? 0); [apply Hvb|]. destruct (n =? 1); [apply Hvb|]. cbn [fst]. unfold dod_bits.
    repeat case_match; cbn [app length]; rewrite ?length_bits_of; lia. }
  destruct (time_bits n st t) as [tb st1] eqn:E. specialize (Htb _ eq_refl). cbn [fst] in Htb.
  assert (Hst1 : e_v st1 = e_v st /\ e_leading st1 = e_leading st /\ e_trailing st1 = e_trailing st).
  { unfold time_bits in E. destruct (n =? 0); injection E as _ <-; done. }
  destruct Hst1 as (E1 & E2 & E3).
  destruct (n =? 0); cbn [fst]; [rewrite length_app, length_bits_of; lia|].
  assert (Hvb : (length (value_bits st1 v).1 <= 77)%nat).
  { unfold value_bits, reuses. rewrite E1, E2, E3. case_match; cbn [fst]; [cbn; lia|]. case_match eqn:Er; cbn [fst].
    - rewrite length_app, length_bits_of. cbn [length]. b2p. destruct Hw as [Hw|Hw]; [|lia]. rewrite Hw in *. done.
    - rewrite !length_app, !length_bits_of. cbn [length]. destruct (Z.eqb_spec (Z.lxor v (e_v st)) 0); [done|].
      destruct (window_spec (Z.lxor v (e_v st))) as (? & ? & ? & _); [by apply (lxor_range 64)|done|]. lia. }
  destruct (value_bits st1 v) as [vb st2]. cbn [fst] in *. rewrite length_app. lia.
Qed.

Lemma run_bits_bound ss : forall n st, enc_ok st -> Forall sample_ok ss -> (length (run_bits n st ss).1 <= 160 * length ss)%nat.
Proof.
  induction ss as [|s ss IH]; intros n st Hst Hss; [done|]. apply Forall_cons_1 in Hss as [Hs Hss]. cbn [run_bits].
  pose proof (length_bits_bound n st s Hst Hs). pose proof (sample_bits_ok n st s Hst Hs) as Hst'.
  destruct (sample_bits n st s) as [b1 st1]. cbn [fst snd] in *. specialize (IH (n + 1) st1 Hst' Hss).
  destruct (run_bits (n + 1) st1 ss) as [b2 st2]. cbn [fst length] in *. rewrite length_app. lia.
Qed.

Lemma built_bytes_eq g : chunkable g ->
  Bytes (a_c (Chunkenc.built g)) = hdr_of (Z.of_nat (length g)) ++ bytes_of_bits (run_bits 0 enc0 g).1.
Proof. intros Hg. by rewrite built_at. Qed.

Lemma built_bytes g : chunkable g -> bytes (Bytes (a_c (Chunkenc.built g))) /\ ulen (Bytes (a_c (Chunkenc.built g))) <= maxChunkLen - 20.
Proof.
  intros Hg. rewrite built_bytes_eq by done. destruct Hg as (Hok & _ & Hlen). change MaxSamplesPerChunk with 120 in Hlen. split.
  - apply Forall_app. split; [repeat (apply Forall_cons_2; [apply uint8_range|]); apply Forall_nil, I|apply bytes_of_bits_is_byte].
  - pose proof (run_bits_bound g 0 enc0 enc0_ok Hok). pose proof (length_bytes_of_bits (run_bits 0 enc0 g).1).
    rewrite ulen_app. change (ulen (hdr_of (Z.of_nat (length g)))) with 2. change (maxChunkLen - 20) with 1048556. unfold ulen. dlia.
Qed.

(** ** Reading a chunk's window *)

Lemma Next_err it it' : Next it = (it', true) -> it_err it = None -> it_err it' = None.
Proof.
  unfold Next. intros H E. rewrite E in H. destruct (it_total it <=? it_read it); [done|].
  pose proof (frames_next_sample (it_read it) it) as (_ & _ & Hf). destruct (next_sample (it_read it) it) as [i [a|e]]; [|done].
  injection H as <-. cbn in *. congruence.
Qed.

(** The window scan stops early and misses nothing. *)
Lemma scan_spec from to fuel : forall it ss it' out, iterate fuel it = (ss, it') -> it_err it = None -> it_err it' = None -> run ss ->
  exists it'', scan fuel from to it out = (out ++ filter (fun s => in_window from to s = true) ss, it'') /\ it_err it'' = None.
Proof.
  induction fuel as [|fuel IH]; intros it ss it' out Hit He He' Hr; cbn [iterate scan] in *.
  - injection Hit as <- <-. exists it. by rewrite app_nil_r.
  - destruct (Next it) as [it1 [|]] eqn:En; [|injection Hit as <- <-; exists it1; by rewrite app_nil_r].
    destruct (iterate fuel it1) as [l it2] eqn:Ei. injection Hit as <- <-. pose proof (Next_err _ _ En He) as He1.
    apply StronglySorted_inv in Hr as [Hr Hs]. rewrite Forall_forall in Hs. destruct (At it1) as [t v] eqn:Ea.
    assert (Hw : in_window from to (t, v) = negb ((t <? from) || (to <? t))) by done.
    destruct (t <? from) eqn:Hf; cbn [orb negb] in Hw.
    + rewrite filter_cons_False by congruence. by apply (IH it1 l it2).
    + destruct (to <? t) eqn:Ht; cbn [negb] in Hw.
      * exists it1. rewrite filter_cons_False by congruence. rewrite filter_none; [by rewrite app_nil_r|]. intros s Hin Hw'.
        specialize (Hs s Hin). unfold before in Hs. cbn in Hs. unfold in_window in Hw'. apply negb_true_iff, orb_false_iff in Hw' as [_ Hw']. blia.
      * rewrite filter_cons_True by done. destruct (IH it1 l it2 (out ++ [(t, v)]) Ei He1 He' Hr) as (it'' & -> & E'').
        exists it''. by rewrite <- app_assoc.
Qed.

(** ** What the files hold *)

Abbreviation rec_of g := (chunk_record EncodingGorilla (Bytes (a_c (Chunkenc.built g)))).

(** The chunk file holds the samples [g] where [cr] says. *)
Record chunk_in (file : list Z) (g : list (Z * Z)) (cr : chunkRef) : Prop := {
  ci_chunkable : chunkable g;
  ci_run : run g;
  ci_min : exists v g', g = (cr_minT cr, v) :: g';
  ci_max : exists v, last g = Some (cr_maxT cr, v);
  ci_at : exists pre post, file = pre ++ rec_of g ++ post /\ cr_off cr = uint64 (ulen pre) /\ cr_recLen cr = ulen (rec_of g);
}.

Definition series_in (file : list Z) (c : SeriesRef * list (Z * Z)) (s : blockSeries) : Prop :=
  bs_ref s = c.1 /\ exists gs, concat gs = c.2 /\ Forall2 (chunk_in file) gs (bs_chunks s).

Lemma chunk_in_app file x g cr : chunk_in file g cr -> chunk_in (file ++ x) g cr.
Proof.
  intros [H1 H2 H3 H4 (pre & post & -> & H5 & H6)]. split; [done..|]. exists pre, (post ++ x). by rewrite <- !app_assoc.
Qed.

Lemma series_in_app file x c s : series_in file c s -> series_in (file ++ x) c s.
Proof.
  intros [H (gs & Hc & Hf)]. split; [done|]. exists gs. split; [done|]. eapply Forall2_impl; [done|]. intros. by apply chunk_in_app.
Qed.

Lemma chunk_in_bounds file g cr : chunk_in file g cr -> forall s, s ∈ g -> cr_minT cr <= s.1 <= cr_maxT cr.
Proof.
  intros [_ Hr (v & g' & ->) [v' Hl] _] s Hs. split.
  - apply StronglySorted_inv in Hr as [_ Hf]. rewrite Forall_forall in Hf. apply elem_of_cons in Hs as [->|Hs]; [done|].
    specialize (Hf s Hs). unfold before in Hf. cbn in Hf. lia.
  - by eapply run_last_max.
Qed.

Lemma chunk_in_ok file g cr : int_len file -> chunk_in file g cr -> chunk_ok cr.
Proof.
  intros Hfile [(Hok & _ & _) _ (v & g' & Hg) [v' Hl] (pre & post & -> & Ho & Hr)]. rewrite Forall_forall in Hok. split_and!.
  - apply (Hok (cr_minT cr, v)). rewrite Hg. by left.
  - apply (Hok (cr_maxT cr, v')). by apply last_elem.
  - rewrite Ho. apply uint64_range.
  - rewrite Hr. unfold int_len in Hfile. rewrite !ulen_app in Hfile. pose proof (ulen_nonneg pre). pose proof (ulen_nonneg post).
    pose proof (ulen_nonneg (rec_of g)). unfold is_u64. lia.
Qed.

Lemma samples_loop_spec file gs crs from to : int_len file -> Forall2 (chunk_in file) gs crs -> forall out,
  samples_loop file crs from to out = Ok (out ++ filter (fun s => in_window from to s = true) (concat gs)).
Proof.
  intros Hfile. induction 1 as [|g cr gs crs Hg Hgs IH]; intros out; cbn [samples_loop concat]; [by rewrite app_nil_r|].
  rewrite filter_app. destruct ((cr_maxT cr <? from) || (to <? cr_minT cr)) eqn:E.
  - rewrite IH, (filter_none _ g); [done|]. intros s Hs Hw. pose proof (chunk_in_bounds _ _ _ Hg s Hs).
    unfold in_window in Hw. apply negb_true_iff, orb_false_iff in Hw as [H1 H2]. apply orb_true_iff in E. destruct E; blia.
  - destruct Hg as [Hch Hr _ _ (pre & post & -> & Ho & Hl)]. destruct (built_bytes g Hch) as [Hb Hn]. rewrite Ho, Hl.
    rewrite chunk_record_read by done. cbn [file_result mbind result_bind]. rewrite Z.eqb_refl. cbn [negb].
    rewrite FromBytes_built by done.
    destruct (drain_built g true Hch) as (r & Hd & _). set (c := MkChunk _ _) in *. unfold drain in Hd.
    set (it := ChunkIterator c) in *.
    assert (He : it_err it = None) by (unfold it, ChunkIterator, c; cbn [c_b stream]; by rewrite built_bytes_eq).
    destruct (scan_spec from to _ it g _ out Hd He eq_refl Hr) as (it'' & -> & ->). rewrite IH. by rewrite <- app_assoc.
Qed.

(** ** The writer *)

Lemma sys_spec w : exists io, sys w = (with_io io w, Ok tt) \/ sys w = (with_io io w, Err ErrIO).
Proof.
  unfold sys. destruct (bw_io w) as [|[|] rest] eqn:E; [exists []; left|exists rest; by left|exists rest; by right].
  unfold with_io. rewrite <- E. by destruct w.
Qed.

Lemma sys_n_spec n : forall w, exists io, sys_n n w = (with_io io w, Ok tt) \/ sys_n n w = (with_io io w, Err ErrIO).
Proof.
  induction n as [|n IH]; intros w; cbn [sys_n].
  - exists (bw_io w). left. unfold with_io. by destruct w.
  - destruct (sys_spec w) as [io [H|H]].
    + rewrite (bind_ok _ _ _ _ _ H). destruct (IH (with_io io w)) as [io' [-> | ->] ]; exists io'; [left|right]; done.
    + exists io. right. by rewrite (bind_err _ _ _ _ _ H).
Qed.

Definition cw_ok (c : chunkWriter) : Prop := cw_off c = uint64 (ulen (cw_file c)).

(** One chunk: written behind what is there, or the write failed. *)
Lemma writeChunk_spec g w : chunkable g -> run g -> g <> [] -> cw_ok (bw_chunks w) ->
  exists io, writeChunk g w = (with_io io w, Err ErrIO)
  \/ exists cr, writeChunk g w = (with_chunks (MkChunkWriter (cw_file (bw_chunks w) ++ rec_of g)
         (uint64 (ulen (cw_file (bw_chunks w) ++ rec_of g)))) (with_io io w), Ok cr)
     /\ chunk_in (cw_file (bw_chunks w) ++ rec_of g) g cr.
Proof.
  intros Hg Hr Hne Hoff. unfold writeChunk.
  assert (Hap : appendAll g fresh = (Chunkenc.built g, Ok tt)) by (rewrite appendAll_built by done; by rewrite built_at).
  assert (Hnew : ChunkAppender NewChunk = Ok fresh) by reflexivity. rewrite Hnew, Hap.
  destruct (sys_spec w) as [io [-> | ->] ]; exists io; [right|by left].
  destruct g as [|[t v] g]; [done|]. destruct (last ((t, v) :: g)) as [[t' v']|] eqn:El; [|by apply last_None in El].
  unfold cw_write. unfold cw_ok in Hoff. cbn [with_io bw_chunks]. rewrite Hoff. cbn [fst].
  exists (MkChunkRef t t' (uint64 (ulen (cw_file (bw_chunks w)))) (ulen (rec_of ((t, v) :: g)))). split.
  - rewrite ulen_app. assert (Hsum : forall a b, uint64 (uint64 a + b) = uint64 (a + b)) by (intros a b; apply Zplus_mod_idemp_l).
    by rewrite Hsum.
  - split; cbn; [done|done|eauto|eauto|]. exists (cw_file (bw_chunks w)), []. by rewrite app_nil_r.
Qed.

Lemma write_chunks_spec fuel : forall ss w out, run ss -> Forall sample_ok ss -> (length ss <= fuel)%nat -> cw_ok (bw_chunks w) ->
  exists io, (exists c, write_chunks fuel ss out w = (with_chunks c (with_io io w), Err ErrIO))
  \/ exists x gs crs, write_chunks fuel ss out w = (with_chunks (MkChunkWriter (cw_file (bw_chunks w) ++ x)
         (uint64 (ulen (cw_file (bw_chunks w) ++ x)))) (with_io io w), Ok (out ++ crs))
     /\ concat gs = ss /\ Forall2 (chunk_in (cw_file (bw_chunks w) ++ x)) gs crs.
Proof.
  induction fuel as [|fuel IH]; intros ss w out Hr Hok Hf Hoff.
  { destruct ss; [|cbn in Hf; lia]. exists (bw_io w). right. exists [], [], []. cbn [write_chunks]. rewrite !app_nil_r. split_and!; [|done..].
    unfold cw_ok in Hoff. rewrite <- Hoff. by destruct w as [? ? []]. }
  destruct ss as [|s ss0]; cbn [write_chunks].
  { exists (bw_io w). right. exists [], [], []. rewrite !app_nil_r. split_and!; [|done..].
    unfold cw_ok in Hoff. rewrite <- Hoff. by destruct w as [? ? []]. }
  set (n := Z.to_nat MaxSamplesPerChunk). set (ss := s :: ss0) in *. rewrite <- (take_drop n ss) in Hr, Hok.
  apply run_app in Hr as (Hr1 & Hr2 & _). apply Forall_app in Hok as [Hok1 Hok2].
  assert (Hch : chunkable (take n ss)) by (apply run_chunkable; [done|done|]; rewrite length_take; unfold n; change MaxSamplesPerChunk with 120; lia).
  assert (Hne : take n ss <> []) by done.
  destruct (writeChunk_spec _ w Hch Hr1 Hne Hoff) as [io [H|(cr & H & Hcr)]].
  { exists io. left. exists (bw_chunks w). rewrite (bind_err _ _ _ _ _ H). by destruct w. }
  rewrite (bind_ok _ _ _ _ _ H). set (w1 := with_chunks _ _) in *.
  destruct (IH (drop n ss) w1 (out ++ [cr]) Hr2 Hok2) as [io' [(c & Hw)|(x & gs & crs & Hw & Hc & Hfa)]].
  - rewrite length_drop. unfold n, ss in *. cbn [length] in *. change (Z.to_nat MaxSamplesPerChunk) with 120%nat. lia.
  - done.
  - exists io'. left. exists c. by rewrite Hw.
  - exists io'. right. exists (rec_of (take n ss) ++ x), (take n ss :: gs), (cr :: crs). rewrite Hw. cbn [w1 with_chunks bw_chunks cw_file] in *.
    rewrite <- !app_assoc in *. split_and!; [done|cbn; by rewrite Hc, take_drop|].
    constructor; [|done]. rewrite app_assoc. by apply chunk_in_app.
Qed.

(** ** Content *)

Abbreviation content := (list (SeriesRef * list (Z * Z))).

(** What a writer is given: valid, distinct series of byte strings, each with its
    samples in time order. *)
Record content_ok (cs : content) : Prop := {
  co_valid c : c ∈ cs -> Validate c.1 = Ok tt;
  co_postable c : c ∈ cs -> postable c.1;
  co_bytes c : c ∈ cs -> ref_bytes c.1;
  co_keys : NoDup ((fun c => Key c.1) <$> cs);
  co_samples c : c ∈ cs -> run c.2 /\ Forall sample_ok c.2 /\ c.2 <> [];
}.

(** The writer holds exactly the content added so far. *)
Record holds_content (cs : content) (w : BWriter) : Prop := {
  hc_off : cw_ok (bw_chunks w);
  hc_head : exists rest, cw_file (bw_chunks w) = chunks_header ++ rest;
  hc_series : Forall2 (series_in (cw_file (bw_chunks w))) cs (bw_ix w);
  hc_open : bw_closed w = false;
  hc_hidden : bw_published w = None;
  hc_count : bs_Series (bw_stats w) = ulen cs;
  hc_times c s : c ∈ cs -> s ∈ c.2 -> bw_minT w <= s.1 <= bw_maxT w;
  hc_init : cs = [] -> bw_minT w = 2 ^ 63 - 1 /\ bw_maxT w = - 2 ^ 63;
  hc_tight : cs <> [] -> (exists c s, c ∈ cs /\ s ∈ c.2 /\ s.1 = bw_minT w) /\ (exists c s, c ∈ cs /\ s ∈ c.2 /\ s.1 = bw_maxT w);
}.

Lemma NewWriter_holds id opts io : holds_content [] (NewWriter id opts io).
Proof.
  split; cbn; [done|by exists []|constructor|done|done|done| |done|done]. intros c s H. by apply not_elem_of_nil in H.
Qed.

Lemma AddSeries_spec cs w ref ss : holds_content cs w -> Validate ref = Ok tt -> run ss -> Forall sample_ok ss -> ss <> [] ->
  exists w', (AddSeries ref ss w = (w', Err ErrIO) /\ bw_published w' = None)
    \/ (AddSeries ref ss w = (w', Ok tt) /\ holds_content (cs ++ [(ref, ss)]) w' /\ bw_id w' = bw_id w /\ bw_opts w' = bw_opts w).
Proof.
  intros [H1 [rest H2] H3 H4 H5 H6 H7 H9 H8] Hv Hr Hok Hne. unfold AddSeries. rewrite (bind_ok _ _ _ w w) by done. rewrite H4.
  destruct ss as [|s0 ss0]; [done|]. set (ss := s0 :: ss0) in *. destruct (last ss) as [s1|] eqn:El; [|by apply last_None in El].
  rewrite Hv. destruct (write_chunks_spec (length ss) ss w [] Hr Hok ltac:(lia) H1) as [io [(c & Hw)|(x & gs & crs & Hw & Hc & Hfa)]].
  { eexists. left. rewrite (bind_err _ _ _ _ _ Hw). done. }
  eexists. right. rewrite (bind_ok _ _ _ _ _ Hw). split; [done|]. split; [|done].
  assert (Hmin : forall s, s ∈ ss -> s0.1 <= s.1 <= s1.1).
  { intros s Hs. split.
    - apply StronglySorted_inv in Hr as [_ Hf]. rewrite Forall_forall in Hf. apply elem_of_cons in Hs as [->|Hs]; [done|].
      specialize (Hf s Hs). unfold before in Hf. lia.
    - destruct s1 as [t1 v1]. by eapply run_last_max. }
  split; cbn [with_series with_chunks with_io bw_chunks bw_ix bw_closed bw_published bw_stats bs_Series bw_minT bw_maxT cw_file].
  - done.
  - exists (rest ++ x). by rewrite H2, <- app_assoc.
  - apply Forall2_app; [eapply Forall2_impl; [done|]; intros; by apply series_in_app|]. constructor; [|constructor].
    split; [done|]. exists gs. done.
  - done.
  - done.
  - rewrite H6, ulen_app. done.
  - intros c s Hc' Hs. apply elem_of_app in Hc' as [Hc'|Hc'].
    + specialize (H7 c s Hc' Hs). lia.
    + apply list_elem_of_singleton in Hc' as ->. specialize (Hmin s Hs). lia.
  - by destruct cs.
  - intros _. assert (Hs0 : s0 ∈ ss) by left. assert (Hs1 : s1 ∈ ss) by (by apply last_elem).
    assert (Hnew : (ref, ss) ∈ cs ++ [(ref, ss)]) by (apply elem_of_app; right; left).
    assert (Hold : forall c, c ∈ cs -> c ∈ cs ++ [(ref, ss)]) by (intros; apply elem_of_app; by left).
    rewrite Forall_forall in Hok. pose proof (Hok s0 Hs0) as [[_ B0] _]. pose proof (Hok s1 Hs1) as [[B1 _] _].
    destruct (decide (cs = [])) as [E|E].
    { destruct (H9 E) as [-> ->]. split; [exists (ref, ss), s0|exists (ref, ss), s1]; (split_and!; [done|done|lia]). }
    destruct (H8 E) as [(ca & sa & Ha1 & Ha2 & Ha3) (cb & sb & Hb1 & Hb2 & Hb3)]. split.
    + destruct (Z.le_gt_cases s0.1 (bw_minT w)); [exists (ref, ss), s0|exists ca, sa]; (split_and!; [auto|done|lia]).
    + destruct (Z.le_gt_cases (bw_maxT w) s1.1); [exists (ref, ss), s1|exists cb, sb]; (split_and!; [auto|done|lia]).
Qed.

(** Strictly sorted keys are distinct. *)
Lemma keys_NoDup (out : content) : StronglySorted (fun a b => str_lt (Key a.1) (Key b.1)) out -> NoDup ((fun c => Key c.1) <$> out).
Proof.
  induction 1 as [|c out Hso IH Hlt]; [constructor|]. cbn. apply NoDup_cons. split; [|done].
  intros (c' & HK & Hc')%list_elem_of_fmap. rewrite Forall_forall in Hlt. specialize (Hlt c' Hc'). rewrite <- HK in Hlt. by apply str_lt_irrefl in Hlt.
Qed.

Section Serving.
Variable cs : content.
Variable w : BWriter.
Hypothesis Hcs : content_ok cs.
Hypothesis Hw : holds_content cs w.
Notation file := (cw_file (bw_chunks w)).
Notation ss := (merge_sort series_le (bw_ix w)).
Hypothesis Hfile : int_len file.
Hypothesis Hindex : int_len (index_bytes (bw_ix w)).

Lemma series_content s : s ∈ ss -> exists c, c ∈ cs /\ series_in file c s.
Proof.
  rewrite merge_sort_Permutation. intros Hs. apply list_elem_of_lookup in Hs as [i Hi].
  destruct (Forall2_lookup_r _ _ _ _ _ (hc_series _ _ Hw) Hi) as (c & Hc & Hin). exists c. split; [by eapply list_elem_of_lookup_2|done].
Qed.

Lemma content_series c : c ∈ cs -> exists s, s ∈ ss /\ series_in file c s.
Proof.
  intros Hc. apply list_elem_of_lookup in Hc as [i Hi]. destruct (Forall2_lookup_l _ _ _ _ _ (hc_series _ _ Hw) Hi) as (s & Hs & Hin).
  exists s. split; [rewrite merge_sort_Permutation; by eapply list_elem_of_lookup_2|done].
Qed.

(** A key names one series of the content. *)
Lemma content_key c c' : c ∈ cs -> c' ∈ cs -> Key c.1 = Key c'.1 -> c = c'.
Proof.
  intros Hc Hc' HK. apply list_elem_of_lookup in Hc as [i Hi], Hc' as [j Hj].
  assert (i = j) as ->; [|congruence].
  eapply NoDup_lookup; [apply (co_keys _ Hcs)|rewrite list_lookup_fmap, Hi; reflexivity|rewrite list_lookup_fmap, Hj; cbn; congruence].
Qed.

Lemma ss_keys : ((fun s => Key (bs_ref s)) <$> bw_ix w) = ((fun c => Key c.1) <$> cs).
Proof.
  pose proof (hc_series _ _ Hw) as Hf. revert Hf. generalize file cs (bw_ix w). clear. intros f cs ix Hf.
  induction Hf as [|c s cs ix [Hr _] Hf IH]; [done|]. cbn. by rewrite Hr, IH.
Qed.

Lemma ss_sorted : StronglySorted (fun a b => str_lt (Key (bs_ref a)) (Key (bs_ref b))) ss.
Proof.
  assert (Htot : Total series_le) by (intros a b; apply (total str_le)).
  assert (Htr : Transitive series_le) by (intros a b c Hab Hbc; unfold series_le in *; by etrans).
  assert (Hs : StronglySorted series_le ss) by apply (StronglySorted_merge_sort series_le).
  assert (Hnd : NoDup ((fun s => Key (bs_ref s)) <$> ss)) by (rewrite merge_sort_Permutation, ss_keys; apply (co_keys _ Hcs)).
  revert Hs Hnd. generalize ss. intros l Hs. induction Hs as [|x l Hs IH Hx]; intros Hnd; [constructor|].
  apply NoDup_cons in Hnd as [Hni Hnd]. apply StronglySorted_cons. split; [|by apply IH].
  rewrite Forall_forall in *. intros y Hy. apply str_le_lt; [by apply Hx|]. intros E. apply Hni. rewrite E.
  apply (list_elem_of_fmap_2 (fun s => Key (bs_ref s)) _ _ Hy).
Qed.

Definition opened : Block := MkBlock (meta_of w) (reader ss (index_pre ss) (index_post ss)) file.

(** The series can be written to an index and the index read back. *)
Lemma content_indexable : Forall (fun s => postable (bs_ref s)) ss /\ Forall (fun s => Forall chunk_ok (bs_chunks s)) ss
  /\ Forall (fun s => ref_bytes (bs_ref s)) ss /\ int_len (body ss).
Proof.
  assert (Hbody : int_len (body ss)).
  { rewrite index_layout in Hindex. eapply int_len_le; [|exact Hindex]. rewrite ulen_app. pose proof (ulen_nonneg (PutUint32 (crc32c (body ss)))). lia. }
  split_and!; [apply Forall_forall; intros s Hs; destruct (series_content s Hs) as (c & Hc & [Hr (gs & _ & Hf)])..|done].
  - rewrite Hr. by apply (co_postable _ Hcs).
  - apply Forall_forall. intros cr Hcr. apply list_elem_of_lookup in Hcr as [i Hi].
    destruct (Forall2_lookup_r _ _ _ _ _ Hf Hi) as (g & _ & Hg). exact (chunk_in_ok _ _ _ Hfile Hg).
  - rewrite Hr. by apply (co_bytes _ Hcs).
Qed.

Lemma content_open : BlockOpen (MkBlockFiles (meta_of w) (index_bytes (bw_ix w)) file) = Ok opened.
Proof.
  unfold BlockOpen. cbn [bf_meta bf_index bf_chunks ReadMeta]. assert (Hv : ReadMeta (meta_of w) = Ok (meta_of w)) by done.
  rewrite Hv. cbn [mbind result_bind]. rewrite index_layout. destruct content_indexable as (H1 & H2 & H3 & H4).
  rewrite open_body by done. cbn [file_result mbind result_bind]. destruct (hc_head _ _ Hw) as [rest Hrest].
  assert (Ho : openChunkReader file = Ok file).
  { unfold openChunkReader. rewrite Hrest, ulen_app. change (ulen chunks_header) with 5. pose proof (ulen_nonneg rest).
    rewrite (proj2 (Z.ltb_ge _ _)) by (unfold chunksHeaderLen; lia). unfold chunks_header, PutUint32. cbn [app]. done. }
  by rewrite Ho.
Qed.

(** Every sample of the content, by series and window. *)
Lemma opened_samples s c from to : series_in file c s ->
  samples opened s from to = Ok (filter (fun x => in_window from to x = true) c.2).
Proof. intros [_ (gs & <- & Hf)]. unfold samples. cbn [blk_chunks opened]. by rewrite (samples_loop_spec _ _ _ from to Hfile Hf). Qed.

Lemma opened_samples_all s c : c ∈ cs -> series_in file c s ->
  samples opened s (bm_MinTime (blk_meta opened)) (bm_MaxTime (blk_meta opened)) = Ok c.2.
Proof.
  intros Hc Hs. rewrite (opened_samples s c) by done. f_equal. apply filter_all. intros x Hx.
  pose proof (hc_times _ _ Hw c x Hc Hx). cbn [blk_meta opened meta_of bm_MinTime bm_MaxTime].
  unfold in_window. apply negb_true_iff, orb_false_iff. split; apply Z.ltb_ge; lia.
Qed.

Lemma opened_series : ir_series (blk_ix opened) = ss.
Proof. done. Qed.

Lemma opened_SamplesFor key : SamplesFor opened key = Ok (match list_find (fun c => Key c.1 = key) cs with Some (_, c) => c.2 | None => [] end).
Proof.
  unfold SamplesFor. rewrite opened_series. set (f := fun i => match ss !! i with Some s => bool_decide (str_le key (Key (bs_ref s))) | None => false end).
  rewrite (SearchTry_pure _ _ f) by (intros i Hi; unfold f; by destruct (lookup_lt_is_Some_2 ss i Hi) as [s ->]). cbn [or_panic file_result mbind result_bind].
  destruct (Search_spec (length ss) f) as (Hle & Hlo & Hhi).
  { intros a b Hab. unfold f. destruct (lookup_lt_is_Some_2 ss a ltac:(lia)) as [sa Ha]. destruct (lookup_lt_is_Some_2 ss b ltac:(lia)) as [sb Hb].
    rewrite Ha, Hb, !bool_decide_eq_true. intros Hka. destruct (decide (a = b)) as [->|]; [congruence|].
    etrans; [exact Hka|]. apply str_lt_le. eapply (sorted_lookup (fun a b => str_lt (Key (bs_ref a)) (Key (bs_ref b)))); [apply ss_sorted|exact Ha|exact Hb|lia]. }
  set (i := Search _ _) in *. destruct (list_find (fun c => Key c.1 = key) cs) as [[j c]|] eqn:El.
  - apply list_find_Some in El as (Hj & HK & _). apply list_elem_of_lookup_2 in Hj as Hc.
    destruct (content_series c Hc) as (s & Hs & Hin). apply list_elem_of_lookup in Hs as [k Hk].
    pose proof Hin as [Href _]. assert (Hfk : f k = true) by (unfold f; rewrite Hk, Href, HK; apply bool_decide_eq_true_2; unfold str_le; by rewrite strcmp_refl).
    assert (i = k) as ->.
    { destruct (lt_eq_lt_dec i k) as [[Hik|?]|Hik]; [|done|].
      - pose proof (lookup_lt_Some _ _ _ Hk). specialize (Hhi i ltac:(lia)). destruct (lookup_lt_is_Some_2 ss i ltac:(lia)) as [si Hi].
        unfold f in Hhi. rewrite Hi, bool_decide_eq_true in Hhi.
        pose proof (sorted_lookup _ _ _ _ _ _ ss_sorted Hi Hk Hik) as Hlt. cbn in Hlt. rewrite Href, HK in Hlt.
        exfalso. by apply (str_lt_le_false _ _ Hlt).
      - specialize (Hlo k Hik). congruence. }
    rewrite (proj2 (Nat.eqb_neq _ _)) by (apply lookup_lt_Some in Hk; lia). rewrite Hk. cbn [or_panic file_result mbind result_bind]. rewrite decide_True by (by rewrite Href). by apply opened_samples_all.
  - apply list_find_None in El. rewrite Forall_forall in El. destruct (Nat.eqb_spec i (length ss)) as [|Hne]; [done|]. destruct (lookup_lt_is_Some_2 ss i ltac:(lia)) as [s Es]. rewrite Es. cbn [or_panic file_result mbind result_bind].
    rewrite decide_False; [done|]. intros HK. apply list_elem_of_lookup_2 in Es. destruct (series_content s Es) as (c & Hc & [Hr _]).
    apply (El c Hc). by rewrite <- Hr.
Qed.

Lemma opened_ref ref : ref ∈ BSeries opened <-> ref ∈ cs.*1.
Proof.
  unfold BSeries. rewrite opened_series, !list_elem_of_fmap. split.
  - intros (s & -> & Hs). destruct (series_content s Hs) as (c & Hc & [-> _]). eauto.
  - intros (c & -> & Hc). destruct (content_series c Hc) as (s & Hs & [<- _]). eauto.
Qed.

Lemma opened_All : exists out, All opened = Ok out /\ out ≡ₚ cs /\ StronglySorted (fun a b => str_lt (Key a.1) (Key b.1)) out.
Proof.
  unfold All. rewrite opened_series. pose proof ss_sorted as Hs.
  assert (Hgen : forall l, (forall s, s ∈ l -> s ∈ ss) -> StronglySorted (fun a b => str_lt (Key (bs_ref a)) (Key (bs_ref b))) l ->
    exists out, all_loop opened l = Ok out /\ Forall2 (series_in file) out l /\ (forall c, c ∈ out -> c ∈ cs)
      /\ StronglySorted (fun a b => str_lt (Key a.1) (Key b.1)) out).
  { clear Hs. intros l Hl Hs. induction Hs as [|s l Hs IH Hlt]; cbn [all_loop].
    { exists []. split_and!; [done|constructor| |constructor]. intros c Hc. by apply not_elem_of_nil in Hc. }
    destruct (series_content s (Hl s ltac:(by left))) as (c & Hc & Hin). rewrite (opened_samples_all s c Hc Hin). cbn [mbind result_bind].
    destruct IH as (out & -> & Hf & Hsub & Hso); [intros; apply Hl; by right|]. cbn [mbind result_bind].
    pose proof Hin as [Hr _]. rewrite Hr. exists (c :: out). split_and!; [by destruct c|by constructor| |].
    - intros x [->|Hx]%elem_of_cons; auto.
    - apply StronglySorted_cons. split; [|done]. rewrite Forall_forall in Hlt. apply Forall_forall. intros x Hx. apply list_elem_of_lookup in Hx as [i Hi].
      destruct (Forall2_lookup_l _ _ _ _ _ Hf Hi) as (s' & Hs' & [Hr' _]). apply list_elem_of_lookup_2 in Hs'.
      specialize (Hlt s' Hs'). by rewrite Hr, Hr' in Hlt. }
  destruct (Hgen ss ltac:(done) Hs) as (out & Ho & Hf & Hsub & Hso). exists out. split_and!; [done| |done].
  apply NoDup_Permutation.
  - apply keys_NoDup in Hso as Hnd. by apply NoDup_fmap_1 in Hnd.
  - pose proof (co_keys _ Hcs) as Hnd. by apply NoDup_fmap_1 in Hnd.
  - intros c. split; [apply Hsub|]. intros Hc. destruct (content_series c Hc) as (s & Hs' & [Hr _]).
    apply list_elem_of_lookup in Hs' as [i Hi]. destruct (Forall2_lookup_r _ _ _ _ _ Hf Hi) as (c' & Hc' & [Hr' _]).
    apply list_elem_of_lookup_2 in Hc'. assert (c = c') as ->; [|done]. apply content_key; [done|by apply Hsub|congruence].
Qed.

Lemma opened_laws : IndexLaws (blk_ix opened) (ordinals ss).
Proof.
  apply reader_laws.
  - apply Forall_forall. intros s Hs. destruct (series_content s Hs) as (c & Hc & [Hr _]). rewrite Hr. by apply (co_postable _ Hcs).
  - apply ss_int_len. rewrite index_layout in Hindex. eapply int_len_le; [|exact Hindex]. rewrite ulen_app.
    pose proof (ulen_nonneg (PutUint32 (crc32c (body ss)))). lia.
Qed.

Lemma select_loop_spec ids from to : (forall id, id ∈ ids -> is_Some (ordinals ss !! id)) -> NoDup ids -> exists out,
  select_loop opened ids from to = Ok out
  /\ (forall ref vs, (ref, vs) ∈ out <-> vs <> [] /\ exists id all, id ∈ ids /\ ordinals ss !! id = Some ref /\ (ref, all) ∈ cs
        /\ vs = filter (fun x => in_window from to x = true) all)
  /\ NoDup ((fun x => Key x.1) <$> out).
Proof.
  intros Hids Hnd. induction ids as [|id ids IH]; cbn [select_loop].
  { exists []. split_and!; [done| |constructor]. intros ref vs. split; [intros H; by apply not_elem_of_nil in H|].
    intros (_ & ? & ? & H & _). by apply not_elem_of_nil in H. }
  apply NoDup_cons in Hnd as [Hni Hnd]. destruct IH as (out & Ho & Hin & Hk); [intros; apply Hids; by right|done|].
  destruct (Hids id ltac:(by left)) as [ref Href]. pose proof Href as Href'. apply ordinals_spec in Href' as (n & s & -> & Hs & ->).
  rewrite opened_series, (proj2 (Z.leb_gt _ _)) by (apply lookup_lt_Some in Hs; unfold ulen; lia). rewrite Nat2Z.id, Hs.
  pose proof (list_elem_of_lookup_2 _ _ _ Hs) as Hs'. destruct (series_content s Hs') as (c & Hc & Hcin).
  rewrite (opened_samples s c from to Hcin). cbn [mbind result_bind]. rewrite Ho. cbn [mbind result_bind].
  pose proof Hcin as [Hr _]. set (vs0 := filter _ c.2).
  assert (Hone : forall all, (bs_ref s, all) ∈ cs <-> all = c.2).
  { intros all. split.
    - intros Hall. assert ((bs_ref s, all) = c) as <-; [|done]. apply content_key; [done|done|]. cbn. by rewrite Hr.
    - intros ->. rewrite Hr. by destruct c. }
  assert (Hmem : forall ref vs, (vs <> [] /\ exists id' all, id' ∈ Z.of_nat n :: ids /\ ordinals ss !! id' = Some ref /\ (ref, all) ∈ cs
        /\ vs = filter (fun x => in_window from to x = true) all) <->
      (vs <> [] /\ ref = bs_ref s /\ vs = vs0) \/ (ref, vs) ∈ out).
  { intros ref vs. rewrite Hin. setoid_rewrite elem_of_cons. split.
    - intros (Hne & id' & all & [->|Hid'] & Ho' & Hall & ->); [|right; eauto 10]. left. rewrite Ho' in Href. injection Href as ->.
      apply Hone in Hall as ->. done.
    - intros [(Hne & -> & ->)|(Hne & id' & all & Hid' & Ho' & Hall & ->)]; (split; [done|]); [|eauto 10].
      exists (Z.of_nat n), c.2. split_and!; [by left|done|by apply Hone|done]. }
  destruct vs0 as [|v0 vs] eqn:Evs.
  - exists out. split_and!; [done| |done]. intros ref vs. rewrite Hmem. split; [by right|]. by intros [(? & _ & ->)|?].
  - exists ((bs_ref s, v0 :: vs) :: out). split_and!; [done| |].
    + intros ref vs'. rewrite Hmem, elem_of_cons. split; [intros [[= -> ->]|H]; [left; done|by right]|].
      intros [(_ & -> & ->)|H]; [by left|by right].
    + cbn. apply NoDup_cons. split; [|done]. intros ([ref' vs'] & HK & Hx)%list_elem_of_fmap. cbn in HK.
      apply Hin in Hx as (_ & id' & all & Hid' & Ho' & _). apply ordinals_spec in Ho' as (n' & s' & -> & Hs'' & ->).
      assert (n' = n) as ->; [|done].
      destruct (lt_eq_lt_dec n' n) as [[Hlt|?]|Hlt]; [|done|]; exfalso.
      * pose proof (sorted_lookup _ _ _ _ _ _ ss_sorted Hs'' Hs Hlt) as H. cbn in H. rewrite HK in H. by apply str_lt_irrefl in H.
      * pose proof (sorted_lookup _ _ _ _ _ _ ss_sorted Hs Hs'' Hlt) as H. cbn in H. rewrite HK in H. by apply str_lt_irrefl in H.
Qed.

Lemma opened_select sel from to : (forall c t, c ∈ cs -> t ∈ sr_Tags c.1 -> t_Key t <> MetricName) ->
  Forall (fun m => m_Key m <> MetricName) (sel_Matchers sel) ->
  exists out, BlockSelect opened sel from to = Ok out
    /\ StronglySorted (fun a b => str_lt (Key a.1) (Key b.1)) out
    /\ forall ref vs, (ref, vs) ∈ out <-> exists all, (ref, all) ∈ cs
         /\ vs = filter (fun s => in_window from to s = true) all /\ vs <> []
         /\ (sel_Metric sel <> [] -> sr_Metric ref = sel_Metric sel)
         /\ forallb (fun m => Matcher_Matches m (sr_Tags ref)) (sel_Matchers sel) = true.
Proof.
  intros Hplain Hk. unfold BlockSelect. pose proof opened_laws as HL.
  assert (Hplain' : forall id ref t, ordinals ss !! id = Some ref -> t ∈ sr_Tags ref -> t_Key t <> MetricName).
  { intros id ref t (n & s & -> & Hs & ->)%ordinals_spec Ht. apply list_elem_of_lookup_2 in Hs.
    destruct (series_content s Hs) as (c & Hc & [Hr _]). rewrite Hr in Ht. by apply (Hplain c t). }
  destruct (Overlaps opened from to) eqn:Eo; cbn [negb].
  - destruct (IndexSelect_spec (blk_ix opened) _ Hplain' sel Hk) as [Hso Hel].
    destruct (select_loop_spec (IndexSelect (blk_ix opened) sel) from to) as (out & -> & Hin & Hnd);
      [intros id (ref & Href & _)%Hel; eauto|by apply ssorted_NoDup|].
    cbn [mbind result_bind]. eexists. split; [done|]. split; [by apply sorted_by_key|].
    intros ref vs. rewrite merge_sort_Permutation, Hin. setoid_rewrite Hel. split.
    + intros (Hne & id & all & (ref' & Ho & Hm & Hf) & Ho' & Hall & ->). rewrite Ho in Ho'. injection Ho' as ->. eauto 10.
    + intros (all & Hall & -> & Hne & Hm & Hf). split; [done|].
      destruct (content_series _ Hall) as (s & Hs & [Hr _]). apply list_elem_of_lookup in Hs as [n Hn].
      assert (Ho : ordinals ss !! Z.of_nat n = Some ref) by (apply ordinals_spec; exists n, s; split_and!; [done|done|by rewrite Hr]).
      exists (Z.of_nat n), all. eauto 10.
  - exists []. split_and!; [done|constructor|]. intros ref vs. split; [intros H; by apply not_elem_of_nil in H|].
    intros (all & Hall & -> & Hne & _). exfalso. apply Hne. apply filter_none. intros x Hx Hw'.
    pose proof (hc_times _ _ Hw _ x Hall Hx) as Ht. unfold Overlaps in Eo. cbn [blk_meta opened meta_of bm_MinTime bm_MaxTime] in Eo.
    unfold in_window in Hw'. apply negb_true_iff, orb_false_iff in Hw' as [H1 H2]. apply andb_false_iff in Eo. destruct Eo; blia.
Qed.

Lemma opened_reader_ok : reader_ok opened.
Proof.
  assert (Hso : forall key, samples_of opened key = match list_find (fun c => Key c.1 = key) cs with Some (_, c) => c.2 | None => [] end).
  { intros key. unfold samples_of. cbn [b_SamplesFor Block_Reader]. by rewrite opened_SamplesFor. }
  assert (Hcase : forall key, samples_of opened key = [] \/ exists c, c ∈ cs /\ Key c.1 = key /\ samples_of opened key = c.2).
  { intros key. rewrite Hso. destruct (list_find _ cs) as [[i c]|] eqn:E; [|by left]. right.
    apply list_find_Some in E as (Hi & HK & _). exists c. split; [by eapply list_elem_of_lookup_2|done]. }
  split; cbn [b_Series b_Meta b_SamplesFor Block_Reader].
  - unfold BSeries. rewrite opened_series. eapply (StronglySorted_fmap bs_ref); [|apply ss_sorted]. done.
  - intros key. rewrite opened_SamplesFor. by rewrite Hso.
  - intros key. destruct (Hcase key) as [->|(c & Hc & _ & ->)]; [constructor|by apply (co_samples _ Hcs)].
  - intros key. destruct (Hcase key) as [->|(c & Hc & _ & ->)]; [constructor|]. apply Forall_forall. intros x Hx.
    by apply (hc_times _ _ Hw c).
  - intros key Hne. destruct (Hcase key) as [E|(c & Hc & HK & _)]; [done|]. exists c.1. split; [|done].
    apply opened_ref. by apply list_elem_of_fmap_2.
Qed.
End Serving.
