(* ===== verification/BlockWrite.v ===== *)
(** * From series to a published block and back *)

From Stdlib Require Import ZArith Lia.
From Stdlib Require Import (notations) String.
From stdpp Require Import base sorting gmap numbers list.
From S2P Require Import Prelude Bstream Chunkenc Wal WalProofs Gostring Tsdb Index IndexProofs IndexSelect HeadRecord Head HeadSeries HeadStore HeadOps Compact CompactProofs BlockFile BlockIndex BlockLaws BlockOpen Block BlockServe.

Definition with_meta_of (w0 w : BWriter) : Prop := bw_id w = bw_id w0 /\ bw_opts w = bw_opts w0.

Lemma add_all_spec cs : forall cs0 w, holds_content cs0 w ->
  (forall c, c ∈ cs -> Validate c.1 = Ok tt /\ run c.2 /\ Forall sample_ok c.2 /\ c.2 <> []) ->
  exists w', (add_all cs w = (w', Err ErrIO) /\ bw_published w' = None)
    \/ (add_all cs w = (w', Ok tt) /\ holds_content (cs0 ++ cs) w' /\ with_meta_of w w').
Proof.
  induction cs as [|[ref ss] cs IH]; intros cs0 w Hw Hok; cbn [add_all].
  { exists w. right. rewrite app_nil_r. done. }
  destruct (Hok (ref, ss) ltac:(by left)) as (Hv & Hr & Hs & Hne).
  destruct (AddSeries_spec cs0 w ref ss Hw Hv Hr Hs Hne) as [w1 [[H Hp]|(H & Hw1 & Hm)]].
  { exists w1. left. by rewrite (bind_err _ _ _ _ _ H). }
  rewrite (bind_ok _ _ _ _ _ H). destruct (IH _ w1 Hw1 ltac:(intros; apply Hok; by right)) as [w2 [(H2 & Hp2)|(H2 & Hw2 & Hm2)]].
  - exists w2. by left.
  - exists w2. right. rewrite <- app_assoc in Hw2. split_and!; [done|done|]. unfold with_meta_of in *. intuition congruence.
Qed.

Lemma BAbort_published w : bw_published (BAbort w).1 = bw_published w.
Proof.
  unfold BAbort. rewrite (bind_ok _ _ _ w w) by done. destruct (bw_closed w); [done|].
  rewrite (bind_ok _ _ _ (with_bclosed w) tt) by done. rewrite (bind_ok _ _ _ (with_bclosed w) (with_bclosed w)) by done.
  destruct (sys_n_spec 2 (with_bclosed w)) as [io [-> | ->] ]; cbn [fst];
    rewrite (bind_ok _ _ _ (with_io io (with_bclosed w)) tt) by done;
    destruct (sys_spec (with_io io (with_bclosed w))) as [io' [-> | ->] ]; done.
Qed.

Definition files_of (w : BWriter) : block_files := MkBlockFiles (meta_of w) (index_bytes (bw_ix w)) (cw_file (bw_chunks w)).

(** Next step of a run of system calls: it failed and left everything else alone, or it is done. *)
Ltac io_step H :=
  let io := fresh "io" in
  destruct H as [io [H|H]];
  [rewrite (bind_ok _ _ _ _ _ H); clear H|rewrite (bind_err _ _ _ _ _ H); do 2 eexists; split; [done|]; cbn; auto; fail].

(** [Close]: nothing is published by a failure before the rename; after it, everything is. *)
Lemma BClose_spec w : bw_closed w = false -> bw_published w = None ->
  exists w' r, BClose w = (w', r) /\
   match r with
   | Ok m => bw_published w' = Some (files_of w) /\ m = meta_of w /\ bs_Series (bw_stats w) <> 0
   | Err e => (e = ErrIO \/ e = ErrEmpty /\ bs_Series (bw_stats w) = 0) /\
      (bw_published w' = None \/ bw_published w' = Some (files_of w) /\ bs_Series (bw_stats w) <> 0)
   end.
Proof.
  intros Hc Hp. unfold BClose. rewrite (bind_ok _ _ _ w w) by done. rewrite Hc.
  rewrite (bind_ok _ _ _ (with_bclosed w) tt) by done. set (w0 := with_bclosed w).
  pose proof (sys_n_spec 2 w0) as H. io_step H. set (w1 := with_io _ w0). rewrite (bind_ok _ _ _ w1 w1) by done.
  change (bw_stats w1) with (bw_stats w).
  destruct (Z.eqb_spec (bs_Series (bw_stats w)) 0) as [E|E]; [do 2 eexists; split; [done|]; cbn; auto|].
  pose proof (sys_n_spec 4 w1) as H. io_step H. set (w2 := with_io _ w1).
  pose proof (sys_n_spec 4 w2) as H. io_step H. set (w3 := with_io _ w2).
  pose proof (sys_spec w3) as H. io_step H. set (w4 := with_io _ w3).
  pose proof (sys_spec w4) as H. io_step H. set (w5 := with_io _ w4). rewrite (bind_ok _ _ _ w5 w5) by done.
  set (w6 := with_published _ w5). rewrite (bind_ok _ _ _ w6 tt) by done.
  pose proof (sys_spec w6) as H. io_step H. do 2 eexists. split; [done|]. cbn. auto.
Qed.

(** A writer that holds a content, as [Close] finds it. *)
Definition closing (id : Z) (opts : WriterOptions) (cs : content) (w : BWriter) : Prop :=
  holds_content cs w /\ bw_id w = id /\ bw_opts w = opts.

Lemma Write_spec id cs opts io : content_ok cs -> exists w r, Write id cs opts io = (w, r) /\
  match r with
  | Ok m => exists w0, closing id opts cs w0 /\ bw_published w = Some (files_of w0) /\ m = meta_of w0 /\ cs <> []
  | Err e => (e = ErrIO \/ e = ErrEmpty /\ cs = []) /\
      (bw_published w = None \/ exists w0, closing id opts cs w0 /\ bw_published w = Some (files_of w0) /\ cs <> [])
  end.
Proof.
  intros Hcs. unfold Write. destruct (add_all_spec cs [] _ (NewWriter_holds id opts io)) as [w1 [(H & Hp)|(H & Hw & Hm)]].
  { intros c Hc. split; [by apply (co_valid _ Hcs)|by apply (co_samples _ Hcs)]. }
  { rewrite H. do 2 eexists. split; [done|]. split; [by left|]. left. by rewrite BAbort_published. }
  rewrite H. cbn [app] in Hw. assert (Hcl : closing id opts cs w1) by (split; [done|]; by destruct Hm).
  assert (Hz : bs_Series (bw_stats w1) = 0 <-> cs = []).
  { rewrite (hc_count _ _ Hw). unfold ulen. destruct cs; cbn [length]; split; intros; try done; lia. }
  destruct (BClose_spec w1 (hc_open _ _ Hw) (hc_hidden _ _ Hw)) as (w' & r & E & Hr). exists w', r. split; [done|]. destruct r as [m|e].
  - destruct Hr as (Hpub & -> & Hne). rewrite Hz in Hne. eauto.
  - rewrite Hz in Hr. destruct Hr as [He [Hpub|[Hpub Hne]]]; (split; [done|]); [by left|]. right. eauto.
Qed.

(** ** No failing system call, no failure *)

Definition calm (w : BWriter) : Prop := Forall (eq true) (bw_io w).
Definition quiet {A} (m : BW A) : Prop := forall w, calm w -> calm (m w).1 /\ (m w).2 <> Err ErrIO.

Lemma quiet_bind {A B} (m : BW A) (f : A -> BW B) : quiet m -> (forall a, quiet (f a)) -> quiet (m ≫= f).
Proof.
  intros Hm Hf w Hw. destruct (Hm w Hw) as [Hc Hne]. destruct (m w) as [w' [a|e]] eqn:E; cbn in Hc, Hne.
  - rewrite (bind_ok _ _ _ _ _ E). by apply Hf.
  - rewrite (bind_err _ _ _ _ _ E). cbn. split; [done|]. intros [= ->]. done.
Qed.
Lemma quiet_ret {A} (a : A) : quiet (mret a).
Proof. intros w Hw. done. Qed.
Lemma quiet_get : quiet (get (E := write_error)).
Proof. intros w Hw. done. Qed.
Lemma quiet_throw {A} e : e <> ErrIO -> quiet (throw (A := A) e).
Proof. intros He w Hw. split; [done|]. cbn. congruence. Qed.
Lemma quiet_sys : quiet sys.
Proof.
  intros w Hw. unfold sys, calm in *. destruct (bw_io w) as [|ok rest] eqn:E; cbn.
  - rewrite E. split; [constructor|done].
  - apply Forall_cons_1 in Hw as [<- Hw]. done.
Qed.
Lemma quiet_sys_n n : quiet (sys_n n).
Proof. induction n; cbn [sys_n]; [apply quiet_ret|]. apply quiet_bind; [apply quiet_sys|done]. Qed.
#[local] Hint Resolve quiet_bind quiet_ret quiet_get quiet_sys quiet_sys_n : quiet.

Lemma quiet_put w' : calm w' -> quiet (put (E := write_error) w').
Proof. intros H w Hw. done. Qed.

Lemma quiet_writeChunk g : quiet (writeChunk g).
Proof.
  intros w Hw. unfold writeChunk. destruct (ChunkAppender NewChunk) as [app|e]; [|done].
  destruct (appendAll g app) as [app' [_|e]]; [|done]. destruct (quiet_sys w Hw) as [Hc Hne].
  destruct (sys w) as [w' [[]|e]] eqn:E; cbn in Hc, Hne; [|by split; [|intros [= ->] ] ].
  destruct (cw_write _ _ _) as [cw [off n]]. repeat case_match; done.
Qed.

Lemma quiet_write_chunks fuel : forall ss out, quiet (write_chunks fuel ss out).
Proof.
  induction fuel as [|fuel IH]; intros [|s ss] out; cbn [write_chunks]; [apply quiet_ret..|].
  apply quiet_bind; [apply quiet_writeChunk|]. intros cr. apply IH.
Qed.

Lemma quiet_AddSeries ref ss : quiet (AddSeries ref ss).
Proof.
  intros w Hw. unfold AddSeries. rewrite (bind_ok _ _ _ w w) by done. destruct (bw_closed w); [done|].
  destruct ss as [|s0 ss]; [done|]. destruct (last (s0 :: ss)); [|done]. destruct (Validate ref); [|done].
  revert w Hw. apply quiet_bind; [apply quiet_write_chunks|]. intros crs w Hw. rewrite (bind_ok _ _ _ w w) by done. done.
Qed.

Lemma quiet_add_all cs : quiet (add_all cs).
Proof.
  induction cs as [|[ref ss] cs IH]; cbn [add_all]; [apply quiet_ret|]. apply quiet_bind; [apply quiet_AddSeries|done].
Qed.

Lemma quiet_BClose : quiet BClose.
Proof.
  intros w Hw. unfold BClose. rewrite (bind_ok _ _ _ w w) by done. destruct (bw_closed w); [done|].
  rewrite (bind_ok _ _ _ (with_bclosed w) tt) by done. assert (Hw' : calm (with_bclosed w)) by done. revert Hw'. generalize (with_bclosed w). clear w Hw.
  apply quiet_bind; [apply quiet_sys_n|]. intros _ w Hw. rewrite (bind_ok _ _ _ w w) by done. destruct (_ =? 0); [done|].
  revert w Hw. do 4 (apply quiet_bind; [auto with quiet|]; intros _). intros w Hw. rewrite (bind_ok _ _ _ w w) by done.
  set (w' := with_published _ w). rewrite (bind_ok _ _ _ w' tt) by done. assert (Hw' : calm w') by done. clearbody w'. revert w' Hw'.
  apply (quiet_bind sys); [apply quiet_sys|]. intros. apply quiet_ret.
Qed.

Lemma Write_quiet id cs opts io : Forall (eq true) io -> (Write id cs opts io).2 <> Err ErrIO.
Proof.
  intros Hio. unfold Write. pose proof (quiet_add_all cs (NewWriter id opts io) Hio) as [Hc Hne].
  destruct (add_all cs _) as [w [[]|e]]; cbn in *; [by apply quiet_BClose|intros [= ->]; done].
Qed.

(** ** What a block keeps of what it was given *)

(** An open block that answers: its files agree, and its series can be written again. *)
Record block_sound (b : Block) : Prop := {
  bk_reader : reader_ok b;
  bk_refs ref : ref ∈ BSeries b -> Validate ref = Ok tt /\ postable ref /\ ref_bytes ref;
  bk_samples key : Forall sample_ok (samples_of b key);
  bk_min : exists key s, s ∈ samples_of b key /\ s.1 = bm_MinTime (blk_meta b);
  bk_max : exists key s, s ∈ samples_of b key /\ s.1 = bm_MaxTime (blk_meta b);
}.

Lemma opened_samples_of cs w c : content_ok cs -> holds_content cs w -> int_len (cw_file (bw_chunks w)) -> c ∈ cs ->
  SamplesFor (opened w) (Key c.1) = Ok c.2.
Proof.
  intros Hcs Hw Hf Hc. rewrite (opened_SamplesFor cs) by done. destruct (list_find _ cs) as [[i c']|] eqn:El.
  - apply list_find_Some in El as (Hi' & HK & _). apply list_elem_of_lookup_2 in Hi'. by rewrite (content_key cs Hcs c' c Hi' Hc HK).
  - apply list_find_None in El. rewrite Forall_forall in El. by destruct (El _ Hc).
Qed.

Lemma opened_sound cs w : content_ok cs -> cs <> [] -> holds_content cs w -> int_len (cw_file (bw_chunks w)) -> block_sound (opened w).
Proof.
  intros Hcs Hne Hw Hf.
  assert (Hin : forall c s, c ∈ cs -> s ∈ c.2 -> s ∈ samples_of (opened w) (Key c.1)).
  { intros c s Hc Hs. unfold samples_of. cbn [b_SamplesFor Block_Reader]. by rewrite (opened_samples_of cs w c). }
  destruct (hc_tight _ _ Hw Hne) as [(c1 & s1 & Hc1 & Hs1 & E1) (c2 & s2 & Hc2 & Hs2 & E2)]. split; [| | |by eauto..].
  - by eapply opened_reader_ok.
  - intros ref Href. apply (opened_ref cs w Hw) in Href. apply list_elem_of_fmap in Href as (c & -> & Hc).
    split_and!; [by apply (co_valid _ Hcs)|by apply (co_postable _ Hcs)|by apply (co_bytes _ Hcs)].
  - intros key. unfold samples_of. cbn [b_SamplesFor Block_Reader]. rewrite (opened_SamplesFor cs w) by done.
    destruct (list_find _ cs) as [[i c]|] eqn:E; [|constructor]. apply list_find_Some in E as (Hi & _). apply list_elem_of_lookup_2 in Hi.
    by apply (co_samples _ Hcs).
Qed.

(** The meta of a written block. *)
Record meta_ok (id : Z) (opts : WriterOptions) (cs : content) (m : Meta) : Prop := {
  mo_id : bm_ULID m = id;
  mo_version : bm_Version m = MetaVersion;
  mo_level : bm_Level m = wo_Level opts;
  mo_sources : bm_Sources m = wo_Sources opts;
  mo_resolution : bm_ResolutionS m = wo_ResolutionS opts;
  mo_series : bs_Series (bm_Stats m) = ulen cs;
  mo_span c s : c ∈ cs -> s ∈ c.2 -> bm_MinTime m <= s.1 <= bm_MaxTime m;
  mo_tight : cs <> [] -> (exists c s, c ∈ cs /\ s ∈ c.2 /\ s.1 = bm_MinTime m) /\ (exists c s, c ∈ cs /\ s ∈ c.2 /\ s.1 = bm_MaxTime m);
}.

Lemma closing_meta id opts cs w : closing id opts cs w -> meta_ok id opts cs (meta_of w).
Proof. intros (Hw & <- & <-). split; try done; apply Hw. Qed.

(** The files of a block, all of them below 2^63 bytes. *)
Definition files_fit (f : block_files) : Prop := int_len (bf_chunks f) /\ int_len (bf_index f).

(** The published block is the open one of the writer's content. *)
Lemma Write_opened id cs opts io w m : content_ok cs -> Write id cs opts io = (w, Ok m) -> (forall f, bw_published w = Some f -> files_fit f) ->
  exists w0, closing id opts cs w0 /\ cs <> [] /\ bw_published w = Some (files_of w0) /\ m = meta_of w0
    /\ int_len (cw_file (bw_chunks w0)) /\ int_len (index_bytes (bw_ix w0)) /\ BlockOpen (files_of w0) = Ok (opened w0).
Proof.
  intros Hcs Hrun Hfit. destruct (Write_spec id cs opts io Hcs) as (w' & r & E & Hr). rewrite E in Hrun. injection Hrun as -> ->.
  destruct Hr as (w0 & Hcl & Hpub & -> & Hne). destruct (Hfit _ Hpub) as [Hf Hi]. cbn in Hf, Hi. exists w0.
  split_and!; try done. eapply content_open; try done. by destruct Hcl.
Qed.

(** C22: a block reads back exactly what was written.  Whenever [Write] returns its meta, the published files open; the open block lists every series, returns every sample of every series in key order, and answers for a single key with that series' samples and for any other key with nothing; the meta names the id, provenance and resolution given and spans exactly the samples. *)
Theorem block_roundtrip id cs opts io w m : content_ok cs -> Write id cs opts io = (w, Ok m) ->
  (forall f, bw_published w = Some f -> files_fit f) ->
  exists f b, bw_published w = Some f /\ BlockOpen f = Ok b /\ blk_meta b = m /\ meta_ok id opts cs m /\ block_sound b
    /\ (exists out, All b = Ok out /\ out ≡ₚ cs /\ StronglySorted (fun x y => str_lt (Key x.1) (Key y.1)) out)
    /\ (forall ref, ref ∈ BSeries b <-> ref ∈ cs.*1)
    /\ (forall ref ss, (ref, ss) ∈ cs -> SamplesFor b (Key ref) = Ok ss)
    /\ (forall key, key ∉ (fun c => Key c.1) <$> cs -> SamplesFor b key = Ok []).
Proof.
  intros Hcs Hrun Hfit. destruct (Write_opened _ _ _ _ _ _ Hcs Hrun Hfit) as (w0 & Hcl & Hne & Hpub & -> & Hf & Hi & Ho). pose proof Hcl as [Hw _].
  exists (files_of w0), (opened w0). split_and!; [done|done|done|by apply closing_meta|by eapply opened_sound|by eapply opened_All| | |].
  - intros ref. by apply opened_ref.
  - intros ref ss Hin. exact (opened_samples_of cs w0 (ref, ss) Hcs Hw Hf Hin).
  - intros key Hk. rewrite (opened_SamplesFor cs) by done. destruct (list_find _ cs) as [[i c]|] eqn:El; [|done].
    apply list_find_Some in El as (Hi' & <- & _). apply list_elem_of_lookup_2 in Hi'. destruct Hk. by apply (list_elem_of_fmap_2 (fun c => Key c.1)).
Qed.

(** A block answers every query exactly.  For any selector and window, the block just written returns, in key order, precisely the series the selector matches that have samples in the window, each with precisely those samples. *)
Theorem block_select id cs opts io w m : content_ok cs -> Write id cs opts io = (w, Ok m) ->
  (forall f, bw_published w = Some f -> files_fit f) ->
  (forall c t, c ∈ cs -> t ∈ sr_Tags c.1 -> t_Key t <> MetricName) ->
  exists f b, bw_published w = Some f /\ BlockOpen f = Ok b
    /\ forall sel from to, Forall (fun m => m_Key m <> MetricName) (sel_Matchers sel) ->
       exists out, BlockSelect b sel from to = Ok out
         /\ StronglySorted (fun x y => str_lt (Key x.1) (Key y.1)) out
         /\ forall ref vs, (ref, vs) ∈ out <-> exists all, (ref, all) ∈ cs
              /\ vs = filter (fun s => in_window from to s = true) all /\ vs <> []
              /\ (sel_Metric sel <> [] -> sr_Metric ref = sel_Metric sel)
              /\ forallb (fun m => Matcher_Matches m (sr_Tags ref)) (sel_Matchers sel) = true.
Proof.
  intros Hcs Hrun Hfit Hplain. destruct (Write_opened _ _ _ _ _ _ Hcs Hrun Hfit) as (w0 & Hcl & Hne & Hpub & -> & Hf & Hi & Ho). pose proof Hcl as [Hw _].
  exists (files_of w0), (opened w0). split_and!; [done|done|]. intros sel from to Hsel. by eapply opened_select.
Qed.

(** A block is published whole or not at all.  Whatever system calls fail, [Write] returns the meta only once the complete block is in place; when it fails, either nothing is visible, or (the very last sync failed) the complete block is; it reports an empty block exactly when there was nothing to write, and fails otherwise only because a system call did. *)
Theorem block_publish_atomic id cs opts io : content_ok cs -> exists w r, Write id cs opts io = (w, r)
  /\ (forall f, bw_published w = Some f -> files_fit f -> exists b, BlockOpen f = Ok b /\ block_sound b /\ meta_ok id opts cs (bf_meta f) /\ cs <> [])
  /\ match r with
     | Ok m => exists f, bw_published w = Some f /\ bf_meta f = m
     | Err e => (e = ErrEmpty /\ cs = []) \/ (e = ErrIO /\ false ∈ io)
     end.
Proof.
  intros Hcs. destruct (Write_spec id cs opts io Hcs) as (w & r & E & Hr). exists w, r. split; [done|].
  assert (Hopen : forall w0 f, closing id opts cs w0 -> cs <> [] -> Some (files_of w0) = Some f -> files_fit f ->
    exists b, BlockOpen f = Ok b /\ block_sound b /\ meta_ok id opts cs (bf_meta f) /\ cs <> []).
  { intros w0 f Hcl Hne [= <-] [Hf Hi]. pose proof Hcl as [Hw _]. exists (opened w0).
    split_and!; [by eapply content_open|by eapply opened_sound|by apply closing_meta|done]. }
  destruct r as [m|e].
  - destruct Hr as (w0 & Hcl & Hpub & -> & Hne). split; [rewrite Hpub; intros f; by apply Hopen|]. by eexists.
  - destruct Hr as [He Hpub]. split.
    + destruct Hpub as [->|(w0 & Hcl & -> & Hne)]; [done|]. intros f. by apply Hopen.
    + destruct He as [->|[-> ->]]; [|by left]. right. split; [done|]. destruct (decide (false ∈ io)) as [|Hni]; [done|].
      destruct (Write_quiet id cs opts io); [|by rewrite E]. apply Forall_forall. intros [|] Hb; done.
Qed.

(** ** Examples *)

Definition ex_cs : content := [(web_a, [(10, 1); (20, 2)]); (db_a, [(15, 7)])].
Definition ex_opts : WriterOptions := MkWriterOptions 0 [] 0.

Lemma ref_ok_dec ref : Validate ref = Ok tt -> bool_decide (NoDup (pairs ref)) = true ->
  forallb (fun x => (0 <=? x) && (x <? 256)) (sr_Metric ref ++ (sr_Tags ref ≫= fun t => t_Key t ++ t_Value t)) = true ->
  Validate ref = Ok tt /\ postable ref /\ ref_bytes ref.
Proof.
  intros Hv Hp Hb. apply bool_decide_eq_true in Hp. split_and!; [done|done|]. rewrite List.forallb_forall in Hb.
  assert (Hby : Forall is_byte (sr_Metric ref ++ (sr_Tags ref ≫= fun t => t_Key t ++ t_Value t))).
  { apply Forall_forall. intros x Hx%list_elem_of_In%Hb. unfold is_byte. blia. }
  apply Forall_app in Hby as [H1 H2]. split; [done|]. apply Forall_forall. intros t Ht.
  split; apply Forall_forall; intros x Hx; rewrite Forall_forall in H2; apply H2, list_elem_of_bind; exists t; (split; [|done]);
    apply elem_of_app; auto.
Qed.

Lemma ex_ref_ok ref : ref ∈ [web_a; db_a] -> Validate ref = Ok tt /\ postable ref /\ ref_bytes ref.
Proof.
  intros H. apply elem_of_cons in H as [->|H]; [apply ref_ok_dec; vm_compute; reflexivity|].
  apply list_elem_of_singleton in H as ->. apply ref_ok_dec; vm_compute; reflexivity.
Qed.

Lemma ex_cs_ok : content_ok ex_cs.
Proof.
  assert (Hr : forall c, c ∈ ex_cs -> c.1 ∈ [web_a; db_a]) by (intros c Hc; apply (list_elem_of_fmap_2 fst) in Hc; exact Hc).
  split; [intros c Hc; by apply ex_ref_ok, Hr..| |].
  - refine (bool_decide_eq_true_1 _ _). vm_compute. reflexivity.
  - intros c Hc. apply elem_of_cons in Hc as [->|Hc]; [|apply list_elem_of_singleton in Hc as ->]; cbn [snd];
      (split_and!; [repeat constructor|repeat (apply Forall_cons_2; [done|]); apply Forall_nil, I|done]).
Qed.

Definition ex_run := Eval vm_compute in Write 7 ex_cs ex_opts [].

Lemma block_roundtrip_witness :
  let '(w, r) := Write 7 ex_cs ex_opts [] in
  exists m f b, r = Ok m /\ bw_published w = Some f /\ BlockOpen f = Ok b /\ bm_MinTime m = 10 /\ bm_MaxTime m = 20
    /\ (forall ref ss, (ref, ss) ∈ ex_cs -> SamplesFor b (Key ref) = Ok ss).
Proof.
  assert (E : Write 7 ex_cs ex_opts [] = ex_run) by (vm_compute; reflexivity). rewrite E.
  destruct (block_roundtrip 7 ex_cs ex_opts [] ex_run.1 (MkMeta 7 1 10 20 (MkBStats 2 3 2) 0 [] 0) ex_cs_ok)
    as (f & b & H1 & H2 & H3 & _ & _ & _ & _ & H4 & _).
  - rewrite E. reflexivity.
  - intros f Hf. apply (inj Some) in Hf as <-. split; apply Z.ltb_lt; vm_compute; reflexivity.
  - exists (MkMeta 7 1 10 20 (MkBStats 2 3 2) 0 [] 0), f, b. split_and!; [reflexivity|exact H1|exact H2|reflexivity|reflexivity|exact H4].
Defined.

Lemma block_select_witness :
  exists f b, bw_published (Write 7 ex_cs ex_opts []).1 = Some f /\ BlockOpen f = Ok b
    /\ forall out, BlockSelect b (MkSelector (str "http.count") []) 0 15 = Ok out -> (web_a, [(10, 1)]) ∈ out.
Proof.
  assert (E : Write 7 ex_cs ex_opts [] = ex_run) by (vm_compute; reflexivity). rewrite E.
  destruct (block_select 7 ex_cs ex_opts [] ex_run.1 (MkMeta 7 1 10 20 (MkBStats 2 3 2) 0 [] 0) ex_cs_ok) as (f & b & H1 & H2 & H3).
  - rewrite E. reflexivity.
  - intros f Hf. apply (inj Some) in Hf as <-. split; apply Z.ltb_lt; vm_compute; reflexivity.
  - assert (Hall : forall t, t ∈ (ex_cs ≫= fun c => sr_Tags c.1) -> t_Key t <> MetricName).
    { apply Forall_forall. apply (bool_decide_eq_true_1 (Forall (fun t => t_Key t <> MetricName) _)). vm_compute. reflexivity. }
    intros c t Hc Ht. apply Hall, list_elem_of_bind. eauto.
  - exists f, b. split; [exact H1|]. split; [exact H2|]. intros out Ho.
    destruct (H3 (MkSelector (str "http.count") []) 0 15 ltac:(constructor)) as (out' & Ho' & _ & Hin).
    rewrite Ho in Ho'. injection Ho' as <-. apply Hin. exists [(10, 1); (20, 2)].
    split_and!; [left|vm_compute; reflexivity|done|intros _; vm_compute; reflexivity|reflexivity].
Defined.

Lemma block_publish_atomic_witness : exists w r, Write 7 ex_cs ex_opts [true; true; false] = (w, r)
  /\ match r with Ok m => exists f, bw_published w = Some f /\ bf_meta f = m | Err e => e = ErrIO end.
Proof.
  destruct (block_publish_atomic 7 ex_cs ex_opts [true; true; false] ex_cs_ok) as (w & r & E & _ & H). exists w, r.
  split; [exact E|]. destruct r as [m|e]; [exact H|]. destruct H as [[_ H]|[H _]]; [discriminate H|exact H].
Defined.
