(* ===== verification/BlockCompact.v ===== *)
(** * Compaction, from files to files

    The planner's choice, the merge that reads the source blocks and the writer
    that publishes the merged one, composed. *)

From Stdlib Require Import ZArith Lia.
From Stdlib Require Import (notations) String.
From stdpp Require Import base sorting gmap numbers list.
From S2P Require Import Prelude Bstream Chunkenc Wal WalProofs Gostring Tsdb Index IndexProofs IndexSelect HeadRecord Head HeadSeries HeadStore HeadOps Compact CompactProofs BlockFile BlockIndex BlockLaws BlockOpen Block BlockServe BlockWrite.

(** Series by series is the same as all at once. *)
Lemma merge_add_content sources refs : forall out w, merge_loop sources refs = Ok out ->
  merge_add sources refs w = lift_write (add_all out) w.
Proof.
  induction refs as [|ref refs IH]; intros out w H; cbn [merge_loop merge_add] in *; [by injection H as <-|].
  destruct (gather sources (Key ref)) as [ss|e]; [|done]. destruct (merge_loop sources refs) as [out'|e]; [|done].
  injection H as <-. destruct ss as [|s ss]; [by apply IH|]. cbn [add_all]. unfold lift_write at 2.
  unfold mbind, SE_bind. unfold lift_write at 1. destruct (AddSeries ref (s :: ss) w) as [w' [a|e]]; [|done].
  rewrite (IH out') by done. done.
Qed.

Section Merged.
Variable p : Plan Block.
Hypothesis Hord : StronglySorted (fun a b => bm_MaxTime (b_Meta a) < bm_MinTime (b_Meta b)) (p_Sources p).
Hypothesis Hsound : Forall block_sound (p_Sources p).
Abbreviation all_of key := (p_Sources p ≫= fun b => samples_of b key).

Lemma sources_ok : Forall reader_ok (p_Sources p).
Proof. eapply Forall_impl; [exact Hsound|]. intros b Hb. apply Hb. Qed.

Lemma merged_samples_ok key : Forall sample_ok (all_of key).
Proof.
  apply Forall_forall. intros s Hs. apply list_elem_of_bind in Hs as (b & Hs & Hb). pose proof Hsound as H. rewrite Forall_forall in H.
  pose proof (bk_samples _ (H b Hb) key) as Hk. rewrite Forall_forall in Hk. by apply Hk.
Qed.

(** What the merge hands to the writer can be written. *)
Lemma merged_content_ok : exists out, merge_content p = Ok out /\ content_ok out
  /\ (forall key s, s ∈ all_of key <-> exists c, c ∈ out /\ Key c.1 = key /\ s ∈ c.2)
  /\ (forall ref ss, (ref, ss) ∈ out -> ss = all_of (Key ref))
  /\ (forall key, key ∉ (fun c => Key c.1) <$> out -> all_of key = [])
  /\ (forall ref ss, (ref, ss) ∈ out -> exists x, x ∈ p_Sources p /\ ref ∈ BSeries x).
Proof.
  destruct (merge_exact p Hord sources_ok) as (out & Hout & Hso & H1 & H2 & H3). exists out.
  pose proof Hsound as Hs'. rewrite Forall_forall in Hs'.
  assert (Href : forall c, c ∈ out -> Validate c.1 = Ok tt /\ postable c.1 /\ ref_bytes c.1).
  { intros [ref ss] Hc. destruct (H3 ref ss Hc) as (b & Hb & Hr). by apply (bk_refs _ (Hs' b Hb)). }
  split_and!; [done| | | | |exact H3].
  - split; [intros c Hc; by apply Href..| |].
    + by apply keys_NoDup.
    + intros [ref ss] Hc. destruct (H1 ref ss Hc) as (Es & Hne & Hr). cbn [snd]. split_and!; [done| |done]. rewrite Es. apply merged_samples_ok.
  - intros key s. split.
    + intros Hs. destruct (H2 key) as (ref & HK & Hin); [by intros E; rewrite E in Hs; apply not_elem_of_nil in Hs|]. exists (ref, all_of key). done.
    + intros ([ref ss] & Hc & <- & Hs). destruct (H1 ref ss Hc) as (Es & _). cbn [fst snd] in *. by rewrite <- Es.
  - intros ref ss Hc. by apply H1.
  - intros key Hk. destruct (decide (all_of key = [])) as [|Hne]; [done|]. destruct (H2 key Hne) as (ref & <- & Hin).
    destruct Hk. by apply (list_elem_of_fmap_2 (fun c => Key c.1) _ _ Hin).
Qed.

(** [merge] is [Write] of that content. *)
Lemma merge_Write id io out : merge_content p = Ok out -> p_Sources p <> [] ->
  exists b rest, p_Sources p = b :: rest /\
  merge id p io = Some (let '(w, r) := Write id out (merge_opts p (bm_ResolutionS (blk_meta b))) io in
                        (w, match r with Ok m => Ok m | Err e => Err (ErrMergeWrite e) end)).
Proof.
  clear Hord Hsound. intros Hout Hne. unfold merge. unfold merge_content in Hout. pose proof (fun w => merge_add_content _ _ out w Hout) as Hadd.
  destruct (p_Sources p) as [|b rest] eqn:E; [done|]. exists b, rest. split; [done|]. f_equal. unfold Write.
  rewrite Hadd. unfold lift_write at 1. destruct (add_all out _) as [w' [[]|e]]; [|done].
  unfold lift_write. by destruct (BClose w') as [w'' [m|e]].
Qed.

(** The merged block covers exactly the sources' time. *)
Lemma merged_span out id opts m b mid q : content_ok out -> meta_ok id opts out m -> out <> [] ->
  (forall key s, s ∈ all_of key <-> exists c, c ∈ out /\ Key c.1 = key /\ s ∈ c.2) ->
  p_Sources p = b :: mid ++ [q] -> (forall x, x ∈ p_Sources p -> bm_MinTime (blk_meta b) <= bm_MinTime (blk_meta x) /\ bm_MaxTime (blk_meta x) <= bm_MaxTime (blk_meta q)) ->
  bm_MinTime m = bm_MinTime (blk_meta b) /\ bm_MaxTime m = bm_MaxTime (blk_meta q).
Proof.
  clear Hord. intros Hok Hm Hne Hall Hs Hb. pose proof Hsound as Hs'. rewrite Forall_forall in Hs'.
  assert (Hin : forall c s, c ∈ out -> s ∈ c.2 -> bm_MinTime (blk_meta b) <= s.1 <= bm_MaxTime (blk_meta q)).
  { intros c s Hc Hsc. assert (Hex : s ∈ all_of (Key c.1)) by (apply Hall; eauto). apply list_elem_of_bind in Hex as (x & Hx & Hxs).
    pose proof (rk_span _ (bk_reader _ (Hs' x Hxs)) (Key c.1)) as Hsp. rewrite Forall_forall in Hsp. specialize (Hsp s Hx).
    specialize (Hb x Hxs). cbn [b_Meta Block_Reader] in Hsp. lia. }
  assert (Hout : forall x key s, x ∈ p_Sources p -> s ∈ samples_of x key -> bm_MinTime m <= s.1 <= bm_MaxTime m).
  { intros x key s Hx Hk. destruct (proj1 (Hall key s)) as (c & Hc & _ & Hsc); [apply list_elem_of_bind; eauto|]. by apply (mo_span _ _ _ _ Hm c). }
  destruct (mo_tight _ _ _ _ Hm Hne) as [(c1 & s1 & Hc1 & Hs1 & E1) (c2 & s2 & Hc2 & Hs2 & E2)].
  assert (Hbi : b ∈ p_Sources p) by (rewrite Hs; left). assert (Hqi : q ∈ p_Sources p) by (rewrite Hs; right; apply elem_of_app; right; left).
  destruct (bk_min _ (Hs' b Hbi)) as (k1 & t1 & Ht1 & F1). destruct (bk_max _ (Hs' q Hqi)) as (k2 & t2 & Ht2 & F2).
  pose proof (Hin c1 s1 Hc1 Hs1). pose proof (Hin c2 s2 Hc2 Hs2). pose proof (Hout b k1 t1 Hbi Ht1). pose proof (Hout q k2 t2 Hqi Ht2). lia.
Qed.

Lemma merged_samples out w key : content_ok out -> holds_content out w -> int_len (cw_file (bw_chunks w)) ->
  (forall ref ss, (ref, ss) ∈ out -> ss = all_of (Key ref)) -> (forall key, key ∉ (fun c => Key c.1) <$> out -> all_of key = []) ->
  samples_of (opened w) key = all_of key.
Proof.
  clear Hord Hsound. intros Hok Hw Hf Hval Hnone. unfold samples_of at 1. cbn [b_SamplesFor Block_Reader]. rewrite (opened_SamplesFor out) by done.
  destruct (list_find _ out) as [[i [ref ss]]|] eqn:E.
  - apply list_find_Some in E as (Hi & <- & _). apply list_elem_of_lookup_2 in Hi. by apply Hval.
  - apply list_find_None in E. rewrite Forall_forall in E. symmetry. apply Hnone. intros (c & -> & Hc)%list_elem_of_fmap. by destruct (E c Hc).
Qed.
End Merged.

Abbreviation width opts := (Milliseconds (co_MaxBlockRange (setDefaults opts))).

(** The first and the last source bound them all. *)
Lemma planned_bounds mb R bs p pre mid post b q : tidy R bs -> planned mb R bs p pre mid post b q ->
  forall x, x ∈ p_Sources p -> bm_MinTime (b_Meta b) <= bm_MinTime (b_Meta x) /\ bm_MaxTime (b_Meta x) <= bm_MaxTime (b_Meta q).
Proof.
  intros Ht Hp. pose proof (planned_order _ _ _ _ _ _ _ _ _ Ht Hp) as Ho. pose proof (planned_sub _ _ _ _ _ _ _ _ _ Hp) as Hsub.
  assert (Hok : forall x, x ∈ p_Sources p -> bm_MinTime (b_Meta x) <= bm_MaxTime (b_Meta x)).
  { intros x Hx. pose proof (ti_ok _ _ Ht) as H. rewrite Forall_forall in H. apply H. by eapply sublist_subseteq. }
  rewrite (pl_sources _ _ _ _ _ _ _ _ _ Hp) in *. intros x Hx. apply StronglySorted_cons in Ho as [Hb Ho]. rewrite Forall_forall in Hb.
  assert (Hbi : b ∈ b :: mid ++ [q]) by left. assert (Hqi : q ∈ mid ++ [q]) by (apply elem_of_app; right; left).
  pose proof (Hok b Hbi). pose proof (Hok x Hx). pose proof (Hok q ltac:(by right)). pose proof (Hb q Hqi). split.
  - apply elem_of_cons in Hx as [->|Hx]; [done|]. pose proof (Hb x Hx). lia.
  - apply elem_of_cons in Hx as [->|Hx]; [lia|]. apply elem_of_app in Hx as [Hx|Hx]; [|by apply list_elem_of_singleton in Hx as ->].
    apply StronglySorted_app in Ho as [Ho _]. pose proof (Ho x q Hx ltac:(left)). lia.
Qed.


(** Swapping the merged block in for its sources. *)
Lemma swap_sound opts mb R bs p pre mid post b q merged : tidy R bs -> planned mb R bs p pre mid post b q ->
  history opts bs -> Next_ bs opts = Some p ->
  Forall block_sound bs -> block_sound merged -> bm_MinTime (blk_meta merged) = bm_MinTime (blk_meta b) ->
  bm_MaxTime (blk_meta merged) = bm_MaxTime (blk_meta q) -> bm_Level (blk_meta merged) = p_Level p ->
  bm_ResolutionS (blk_meta merged) = bm_ResolutionS (blk_meta b) ->
  bm_ULID (blk_meta merged) ∉ (fun x => bm_ULID (blk_meta x)) <$> bs ->
  (forall key, samples_of merged key = p_Sources p ≫= fun x => samples_of x key) ->
  history opts (swap p merged bs) /\ Forall block_sound (swap p merged bs)
  /\ forall key, (swap p merged bs ≫= fun x => samples_of x key) = (bs ≫= fun x => samples_of x key).
Proof.
  intros Ht Hpl Hh Hp Hs Hms Emin Emax El Er Hid Hsam.
  pose proof (planned_bounds _ _ _ _ _ _ _ _ _ Ht Hpl b ltac:(rewrite (pl_sources _ _ _ _ _ _ _ _ _ Hpl); left)) as Hbq.
  pose proof (planned_span _ _ _ _ _ _ _ _ _ Ht Hpl) as Hspan. cbn [b_Meta Block_Reader] in *.
  assert (Hok : forall x, x ∈ b :: mid ++ [q] -> block_ok x).
  { intros x Hx. pose proof (ti_ok _ _ Ht) as H. rewrite Forall_forall in H. apply H. rewrite (pl_blocks _ _ _ _ _ _ _ _ _ Hpl).
    apply elem_of_app. right. apply elem_of_app. by left. }
  pose proof (Hok b ltac:(left)) as [B1 B2 B3 B4 B5]. pose proof (Hok q ltac:(right; apply elem_of_app; right; left)) as [Q1 Q2 Q3 Q4 Q5].
  pose proof (pl_level _ _ _ _ _ _ _ _ _ Hpl) as Hlv. apply Forall_cons_1 in Hlv as [Hlv _]. cbn [b_Meta Block_Reader] in *.
  assert (Hmok : block_ok merged) by (split; cbn [b_Meta Block_Reader]; lia).
  destruct (swap_tidy _ _ _ _ _ _ _ _ _ merged Ht Hpl Hmok Emin Emax El Hid) as [Esw _].
  pose proof (h_compact _ _ _ merged Hh Hp Hmok) as Hh'. cbn [b_Meta Block_Reader] in Hh'.
  split; [apply Hh'; [by rewrite Hspan, Emin, Emax|done|done]|]. rewrite Esw. rewrite (pl_blocks _ _ _ _ _ _ _ _ _ Hpl) in Hs |- *. split.
  - rewrite !Forall_app in Hs. destruct Hs as (Hs1 & _ & Hs3). apply Forall_app. split; [done|]. by apply Forall_cons_2.
  - intros key. rewrite !bind_app, bind_cons, Hsam. by rewrite (pl_sources _ _ _ _ _ _ _ _ _ Hpl).
Qed.

(** A block open on what a writer was given. *)
Definition opened_from (cs : content) (b : Block) : Prop :=
  exists w, b = opened w /\ content_ok cs /\ cs <> [] /\ holds_content cs w
    /\ int_len (cw_file (bw_chunks w)) /\ int_len (index_bytes (bw_ix w)).

Lemma opened_from_sound cs b : opened_from cs b -> block_sound b.
Proof. intros (w & -> & Hok & Hne & Hw & Hf & _). by eapply opened_sound. Qed.

Lemma compaction_spec opts bs p id io : 2 <= co_MinBlocks (setDefaults opts) -> history opts bs ->
  Next_ bs opts = Some p -> Forall block_sound bs -> id ∉ (fun b => bm_ULID (blk_meta b)) <$> bs ->
  exists w r, merge id p io = Some (w, r)
  /\ match r with Ok m => exists f, bw_published w = Some f /\ bf_meta f = m | Err e => e = ErrMergeWrite ErrIO /\ false ∈ io end
  /\ forall f, bw_published w = Some f -> files_fit f -> exists b, BlockOpen f = Ok b
     /\ (exists cs, opened_from cs b /\ forall c, c ∈ cs -> exists x, x ∈ p_Sources p /\ c.1 ∈ BSeries x)
     /\ bm_ULID (blk_meta b) = id /\ bm_Sources (blk_meta b) = (fun x => bm_ULID (blk_meta x)) <$> p_Sources p
     /\ history opts (swap p b bs) /\ Forall block_sound (swap p b bs)
     /\ forall key, (swap p b bs ≫= fun x => samples_of x key) = (bs ≫= fun x => samples_of x key).
Proof.
  intros Hm Hh Hp Hs Hid. pose proof (history_tidy _ _ Hm Hh) as Ht.
  destruct (Next_tidy _ _ _ Hm Ht Hp) as (pre & mid & post & b0 & q & Hpl).
  pose proof (planned_order _ _ _ _ _ _ _ _ _ Ht Hpl) as Hord. pose proof (planned_sub _ _ _ _ _ _ _ _ _ Hpl) as Hsub.
  pose proof (planned_span _ _ _ _ _ _ _ _ _ Ht Hpl) as Hspan. pose proof (planned_bounds _ _ _ _ _ _ _ _ _ Ht Hpl) as Hbounds.
  assert (Hss : Forall block_sound (p_Sources p)).
  { rewrite Forall_forall in Hs. apply Forall_forall. intros x Hx. apply Hs. by eapply sublist_subseteq. }
  destruct (merged_content_ok p Hord Hss) as (out & Hout & Hcok & Hall & Hval & Hnone & Hfrom).
  pose proof (pl_sources _ _ _ _ _ _ _ _ _ Hpl) as Esrc.
  destruct (merge_Write p id io out Hout ltac:(by rewrite Esrc)) as (b0' & rest & Esrc' & ->).
  rewrite Esrc in Esrc'. injection Esrc' as <- <-.
  assert (Hne : out <> []).
  { intros ->. rewrite Forall_forall in Hss. destruct (bk_min _ (Hss b0 ltac:(rewrite Esrc; left))) as (k & s & Hk & _).
    destruct (proj1 (Hall k s)) as (c & Hc & _); [|by apply not_elem_of_nil in Hc]. apply list_elem_of_bind. exists b0. split; [done|]. rewrite Esrc. left. }
  set (wo := merge_opts p _). destruct (Write_spec id out wo io Hcok) as (w & r & E & Hr). rewrite E.
  exists w, (match r with Ok m => Ok m | Err e => Err (ErrMergeWrite e) end). split; [done|]. split.
  { destruct r as [m|e]; [destruct Hr as (w0 & _ & Hpub & -> & _); eexists; by split|].
    destruct Hr as [[->|[_ ?]] _]; [|done]. split; [done|]. destruct (decide (false ∈ io)) as [|Hni]; [done|].
    destruct (Write_quiet id out wo io); [|by rewrite E]. apply Forall_forall. intros [|] Hb; done. }
  intros f Hpub [Hf Hi]. assert (Hex : exists w0, closing id wo out w0 /\ f = files_of w0).
  { destruct r as [m|e]; [destruct Hr as (w0 & Hcl & Hpub' & _)|destruct Hr as [_ [Hpub'|(w0 & Hcl & Hpub' & _)]]]; [|congruence|];
      exists w0; (split; [done|congruence]). }
  destruct Hex as (w0 & Hcl & ->). cbn in Hf, Hi. pose proof Hcl as [Hw _].
  pose proof (closing_meta _ _ _ _ Hcl) as Hmeta. exists (opened w0). assert (Hbs : block_sound (opened w0)) by (by eapply opened_sound).
  destruct (merged_span p Hss out id wo (meta_of w0) b0 mid q Hcok Hmeta Hne Hall Esrc Hbounds) as [Emin Emax].
  split; [by eapply content_open|]. split; [|split; [exact (mo_id _ _ _ _ Hmeta)|split; [exact (mo_sources _ _ _ _ Hmeta)|]]].
  { exists out. split; [exists w0; done|]. intros [ref ss] Hc. by apply (Hfrom ref ss). }
  eapply swap_sound; try done; try apply Hmeta; [change (bm_ULID (meta_of w0) ∉ (fun b => bm_ULID (blk_meta b)) <$> bs); by rewrite (mo_id _ _ _ _ Hmeta)|]. intros key. by eapply merged_samples.
Qed.


(** ** Examples *)

Definition small_cs (t : Z) : content := [(db_a, [(t, 5); (t + 1, 6)])].
Definition small_opts : WriterOptions := MkWriterOptions 0 [] 0.
Definition small_block (id t : Z) : option Block :=
  match bw_published (Write id (small_cs t) small_opts []).1 with
  | Some f => match BlockOpen f with Ok b => Some b | Err _ => None end
  | None => None
  end.
Definition small_block1 : Block := ltac:(let r := eval vm_compute in (small_block 1 0) in match r with Some ?b => exact b end).
Definition small_block2 : Block := ltac:(let r := eval vm_compute in (small_block 2 10) in match r with Some ?b => exact b end).
Definition small_block3 : Block := ltac:(let r := eval vm_compute in (small_block 3 20) in match r with Some ?b => exact b end).

Lemma small_cs_ok t : is_i64 t -> is_i64 (t + 1) -> content_ok (small_cs t).
Proof.
  intros H1 H2. unfold small_cs. assert (Hr : forall c, c ∈ [(db_a, [(t, 5); (t + 1, 6)])] -> c.1 = db_a) by (intros c Hc; by apply list_elem_of_singleton in Hc as ->).
  split; [intros c ->%Hr; apply ex_ref_ok; right; left..|apply NoDup_singleton|].
  intros c ->%list_elem_of_singleton. cbn [snd]. split_and!; [|repeat (apply Forall_cons_2; [done|]); apply Forall_nil, I|done].
  repeat constructor. unfold before. cbn. lia.
Qed.

Lemma small_sound id t b w m : is_i64 t -> is_i64 (t + 1) -> Write id (small_cs t) small_opts [] = (w, Ok m) ->
  (forall f, bw_published w = Some f -> files_fit f /\ BlockOpen f = Ok b) -> block_sound b.
Proof.
  intros H1 H2 Hrun Hf. pose proof (small_cs_ok t H1 H2) as Hok.
  destruct (Write_opened _ _ _ _ _ _ Hok Hrun ltac:(intros; by apply Hf)) as (w0 & [Hw _] & Hne & Hpub & _ & Hl & _ & Ho).
  destruct (Hf _ Hpub) as [_ Hb]. rewrite Hb in Ho. injection Ho as ->. by eapply opened_sound.
Qed.

Lemma small_block_sound id t b : is_i64 t -> is_i64 (t + 1) -> (exists w m, Write id (small_cs t) small_opts [] = (w, Ok m)
    /\ exists f, bw_published w = Some f /\ files_fit f /\ BlockOpen f = Ok b) -> block_sound b.
Proof.
  intros H1 H2 (w & m & Hrun & f & Hp & Hfit & Ho). eapply small_sound; [exact H1|exact H2|exact Hrun|].
  intros f' Hp'. rewrite Hp in Hp'. injection Hp' as <-. done.
Qed.

Ltac small_sound id t := apply (small_block_sound id t); [done|done|];
  let r := eval vm_compute in (Write id (small_cs t) small_opts []) in
  match r with (?w, Ok ?m) => exists w, m; split; [vm_compute; reflexivity|]; eexists; split; [reflexivity|];
    split; [split; apply Z.ltb_lt; vm_compute; reflexivity|vm_compute; reflexivity] end.

Definition small_blocks : list Block := [small_block1; small_block2; small_block3].
Definition small_plan : Plan Block := MkPlan small_blocks 1.
Definition small_limits : COptions := MkCOptions 3 100000000.

Lemma small_blocks_sound : Forall block_sound small_blocks.
Proof. repeat apply Forall_cons_2; [small_sound 1 0|small_sound 2 10|small_sound 3 20|apply Forall_nil, I]. Qed.

Lemma small_history : history small_limits small_blocks.
Proof.
  assert (Hcut : forall bs b, history small_limits bs -> block_ok b -> bm_Level (b_Meta b) = 0 ->
    bool_decide (Forall (fun x => bm_MaxTime (b_Meta x) < bm_MinTime (b_Meta b)) bs) = true ->
    bool_decide (bm_ULID (b_Meta b) ∈ (fun x => bm_ULID (b_Meta x)) <$> bs) = false -> history small_limits (sortBlocks (bs ++ [b]))).
  { intros bs b Hh Hok Hl Hlt%bool_decide_eq_true Hid%bool_decide_eq_false. by apply h_cut. }
  assert (E : small_blocks = sortBlocks (sortBlocks (sortBlocks ([] ++ [small_block1]) ++ [small_block2]) ++ [small_block3])) by (vm_compute; reflexivity).
  rewrite E. repeat (apply Hcut; [|split; vm_compute; done|reflexivity|vm_compute; reflexivity|vm_compute; reflexivity]). apply h_empty.
Qed.

