(* ===== verification/BlockSafe.v ===== *)
(** * Damaged and hostile block files

    The reader on arbitrary bytes never slices out of range, and one damaged byte
    never turns into wrong samples. *)

From Stdlib Require Import ZArith Lia.
From Stdlib Require Import (notations) String.
From stdpp Require Import base sorting gmap numbers list.
From S2P Require Import Prelude Bstream Chunkenc Wal WalProofs WalSafety Gostring Tsdb Index IndexProofs IndexSelect HeadRecord Head HeadSeries HeadStore HeadOps Compact CompactProofs BlockFile BlockIndex BlockLaws BlockOpen Block BlockServe BlockWrite.

Abbreviation bytes := (Forall is_byte).

(** ** What reading a uvarint tells *)

Lemma Uvarint_loop_read buf : forall i acc v rest, bytes buf -> (i <= 9)%nat -> 0 <= acc < 2 ^ (7 * Z.of_nat i) ->
  Uvarint_loop i acc (7 * Z.of_nat i) buf = Some (v, rest) ->
  exists pre b, buf = pre ++ b :: rest /\ Forall (fun x => 128 <= x) pre /\ 0 <= b < 128 /\ (i + length pre <= 9)%nat
    /\ is_u64 v /\ b * 2 ^ (7 * (Z.of_nat i + ulen pre)) <= v < 2 ^ (7 * (Z.of_nat i + ulen pre + 1)).
Proof.
  induction buf as [|b buf IH]; intros i acc v rest Hb Hi Hacc H; cbn [Uvarint_loop] in H; [done|].
  apply Forall_cons_1 in Hb as [Hb Hbuf]. unfold is_byte in Hb. rewrite (proj2 (Nat.eqb_neq i 10)) in H by lia.
  assert (Hp : 0 < 2 ^ (7 * Z.of_nat i)) by (apply Z.pow_pos_nonneg; lia).
  assert (Hp7 : 2 ^ (7 * (Z.of_nat i + 1)) = 128 * 2 ^ (7 * Z.of_nat i)).
  { replace (7 * (Z.of_nat i + 1)) with (7 + 7 * Z.of_nat i) by lia. by rewrite Z.pow_add_r by lia. }
  assert (H63 : (i <= 8)%nat -> 128 * 2 ^ (7 * Z.of_nat i) <= 2 ^ 63) by (intros; rewrite <- Hp7; apply Z.pow_le_mono_r; lia).
  destruct (Z.ltb_spec b 128) as [Hlt|Hge].
  - destruct ((i =? 9)%nat && (1 <? b)) eqn:E9; [done|].
    assert (Hfit : b * 2 ^ (7 * Z.of_nat i) < 2 ^ 64 /\ acc + b * 2 ^ (7 * Z.of_nat i) < 2 ^ 64).
    { destruct (decide (i = 9%nat)) as [->|Hne].
      - apply andb_false_iff in E9 as [E9|E9]; [done|]. apply Z.ltb_ge in E9. change (2 ^ (7 * Z.of_nat 9)) with (2 ^ 63) in *. lia.
      - specialize (H63 ltac:(lia)). change (2 ^ 63) with 9223372036854775808 in H63. nia. }
    rewrite uvarint_acc in H by lia. injection H as <- <-. exists [], b.
    assert (Hu0 : ulen (@nil Z) = 0) by done. rewrite Hu0, Z.add_0_r, Hp7. split_and!; try done; try (cbn; lia); unfold is_u64; try lia; nia.
  - destruct (decide (i = 9%nat)) as [->|Hne].
    { destruct buf; cbn [Uvarint_loop] in H; done. }
    assert (Hland : Z.land b 127 = b mod 128) by (by rewrite (Z.land_ones _ 7)).
    assert (Hm : 0 <= b mod 128 < 128) by (apply Z.mod_pos_bound; lia). specialize (H63 ltac:(lia)).
    change (2 ^ 63) with 9223372036854775808 in H63. assert (Hfit : b mod 128 * 2 ^ (7 * Z.of_nat i) < 128 * 2 ^ (7 * Z.of_nat i)) by (apply Z.mul_lt_mono_pos_r; lia).
    rewrite Hland, uvarint_acc in H by lia.
    replace (7 * Z.of_nat i + 7) with (7 * Z.of_nat (S i)) in H by lia.
    apply IH in H as (pre & b' & -> & H1 & H2 & H3 & H4 & H5); [|done|lia|replace (7 * Z.of_nat (S i)) with (7 * (Z.of_nat i + 1)) by lia; nia].
    exists (b :: pre), b'. assert (Hl : ulen (b :: pre) = ulen pre + 1) by (unfold ulen; cbn [length]; lia). rewrite Hl.
    replace (Z.of_nat i + (ulen pre + 1)) with (Z.of_nat (S i) + ulen pre) by lia.
    split_and!; try done; try (by apply Forall_cons_2); first [exact (proj1 H5)|exact (proj2 H5)|cbn [length]; lia].
Qed.

Lemma Uvarint_read buf v rest : bytes buf -> Uvarint buf = Some (v, rest) ->
  exists pre b, buf = pre ++ b :: rest /\ Forall (fun x => 128 <= x) pre /\ 0 <= b < 128 /\ (length pre <= 9)%nat
    /\ is_u64 v /\ b * 2 ^ (7 * ulen pre) <= v < 2 ^ (7 * (ulen pre + 1)).
Proof.
  intros Hb H. apply (Uvarint_loop_read buf 0 0 v rest Hb ltac:(lia) ltac:(cbn; lia)) in H as (pre & b & H). exists pre, b.
  change (Z.of_nat 0 + ulen pre) with (ulen pre) in H. naive_solver.
Qed.

(** ** One damaged byte in a chunk *)

(** What [at] does with the record it has read. *)
Definition read_record (off : Z) (rec : list Z) : R (Z * list Z) :=
  match Uvarint rec with
  | None => Err (ErrLengthPrefix off)
  | Some (length, rest) =>
      let used := ulen rec - ulen rest in
      if (ulen rec <=? uint64 (used + 4)) || negb (length =? uint64 (ulen rec - 4 - used)) then Err (ErrLengthPrefix off) else
      body ← slice rec used (uint64 (used + length));
      tail ← slice_from rec (uint64 (used + length));
      want ← BigEndian_Uint32 tail;
      if negb (crc32c body =? want) then Err (ErrChunkCorrupt off) else
      match body with encoding :: data => Ok (encoding, data) | [] => Err ErrPanic end
  end.

Lemma chunk_at_record pre rec post : int_len (pre ++ rec ++ post) -> 6 <= ulen rec <= maxChunkLen ->
  chunk_at (pre ++ rec ++ post) (uint64 (ulen pre)) (ulen rec) = read_record (uint64 (ulen pre)) rec.
Proof.
  intros Hfile Hlen. unfold int_len in Hfile. rewrite !ulen_app in Hfile. pose proof (ulen_nonneg pre). pose proof (ulen_nonneg post).
  rewrite uint64_id by (unfold is_u64; lia). unfold chunk_at. change maxChunkLen with 1048576 in *.
  rewrite !(proj2 (Z.ltb_ge _ _)) by (rewrite ?ulen_app, ?uint64_id; unfold is_u64; lia). cbn [orb].
  rewrite int64_id by (unfold is_i64; lia). rewrite slice_mid. done.
Qed.

(** A record that passes the length check splits as prefix, payload and checksum. *)
Lemma read_record_ok off rec e d : bytes rec -> ulen rec <= maxChunkLen -> read_record off rec = Ok (e, d) ->
  exists u tail, rec = u ++ (e :: d) ++ tail /\ length tail = 4%nat /\ crc32c (e :: d) = Uint32 tail
    /\ Uvarint rec = Some (ulen (e :: d), (e :: d) ++ tail).
Proof.
  intros Hb Hlen H. unfold read_record in H. change maxChunkLen with 1048576 in Hlen. pose proof (ulen_nonneg rec).
  destruct (Uvarint rec) as [[v rest]|] eqn:Eu; [|done].
  destruct (Uvarint_read _ _ _ Hb Eu) as (pre & b & Erec & _ & _ & Hpre & Hv & _). set (u := pre ++ [b]).
  assert (Hrec : rec = u ++ rest) by (rewrite Erec; unfold u; by rewrite <- app_assoc).
  assert (Hu : ulen rec = ulen u + ulen rest) by (by rewrite Hrec, ulen_app). assert (Hul : 1 <= ulen u <= 10).
  { unfold u, ulen. rewrite length_app. cbn [length]. lia. }
  replace (ulen rec - ulen rest) with (ulen u) in H by lia. pose proof (ulen_nonneg rest).
  rewrite (uint64_id (ulen u + 4)) in H by (unfold is_u64; lia).
  destruct (Z.leb_spec (ulen rec) (ulen u + 4)) as [|Hlt]; [done|]. cbn [orb] in H.
  rewrite (uint64_id (ulen rec - 4 - ulen u)) in H by (unfold is_u64; lia).
  destruct (Z.eqb_spec v (ulen rec - 4 - ulen u)) as [Ev|]; cbn [negb] in H; [|done].
  assert (Hsplit : rest = take (Z.to_nat v) rest ++ drop (Z.to_nat v) rest) by (by rewrite take_drop).
  set (body := take (Z.to_nat v) rest) in *. set (tail := drop (Z.to_nat v) rest) in *.
  assert (Hbl : ulen body = v) by (unfold ulen, body in *; rewrite length_take; lia).
  assert (Htl : length tail = 4%nat) by (unfold tail, ulen in *; rewrite length_drop; lia).
  rewrite (uint64_id (ulen u + v)) in H by (unfold is_u64; lia). rewrite <- Hbl in H.
  rewrite Hrec, Hsplit, slice_mid in H. cbn [mbind result_bind] in H.
  rewrite app_assoc, <- ulen_app, slice_from_app in H. cbn [mbind result_bind] in H.
  unfold BigEndian_Uint32 in H. rewrite (proj2 (Z.ltb_ge _ _)) in H by (unfold ulen; lia). cbn [mbind result_bind] in H.
  destruct (Z.eqb_spec (crc32c body) (Uint32 tail)) as [Ec|]; cbn [negb] in H; [|done].
  destruct body as [|e' d']; [done|]. injection H as -> ->. exists u, tail.
  split_and!; [by rewrite Hrec, Hsplit|done|done|]. by rewrite Hbl, <- Hsplit.
Qed.

(** The shortest encoding. *)
Lemma uv_canonical f : forall u, 0 <= u -> u < 2 ^ (7 * Z.of_nat f) -> (0 < f)%nat ->
  u < 2 ^ (7 * ulen (uvarint_loop f u)) /\ (1 < ulen (uvarint_loop f u) -> 2 ^ (7 * (ulen (uvarint_loop f u) - 1)) <= u).
Proof.
  induction f as [|f IH]; intros u Hu Hf Hpos; [lia|]. cbn [uvarint_loop]. destruct (Z.leb_spec 128 u) as [Hge|Hlt].
  - assert (Hsh : Z.shiftr u 7 = u / 128) by (by rewrite Z.shiftr_div_pow2). rewrite Hsh.
    assert (Hd : 0 <= u / 128) by (apply Z.div_pos; lia). assert (Hdm : u = 128 * (u / 128) + u mod 128) by (apply Z.div_mod; lia).
    assert (Hm : 0 <= u mod 128 < 128) by (apply Z.mod_pos_bound; lia).
    assert (Hpw : forall n, 0 <= n -> 2 ^ (7 * (n + 1)) = 128 * 2 ^ (7 * n)).
    { intros n Hn. replace (7 * (n + 1)) with (7 + 7 * n) by lia. by rewrite Z.pow_add_r by lia. }
    replace (7 * Z.of_nat (S f)) with (7 * (Z.of_nat f + 1)) in Hf by lia. rewrite Hpw in Hf by lia.
    assert (Hf0 : (0 < f)%nat). { destruct f; [|lia]. cbn in Hf. lia. }
    destruct (IH (u / 128) Hd ltac:(apply Z.div_lt_upper_bound; lia) Hf0) as [H1 H2]. set (l := uvarint_loop f (u / 128)) in *.
    assert (Hl : ulen (Z.lor (uint8 u) 128 :: l) = ulen l + 1) by (unfold ulen; cbn [length]; lia). rewrite Hl.
    pose proof (ulen_nonneg l). rewrite Hpw by lia. split; [nia|]. intros _. replace (ulen l + 1 - 1) with (ulen l) by lia.
    destruct (decide (1 < ulen l)) as [Hl1|Hl1].
    + specialize (H2 Hl1). replace (ulen l) with (ulen l - 1 + 1) by lia. rewrite Hpw by lia. nia.
    + assert (Hp : 2 ^ (7 * ulen l) <= 2 ^ 7) by (apply Z.pow_le_mono_r; lia). lia.
  - change (ulen [uint8 u]) with 1. split; [lia|lia].
Qed.

Section Record.
Variables (e : Z) (d : list Z).
Hypothesis He : 0 < e < 128.
Hypothesis Hd : bytes d.
Hypothesis Hlen : ulen d <= maxChunkLen - 20.
Abbreviation body := (e :: d).
Abbreviation u := (uv (ulen body)).
Abbreviation tail := (PutUint32 (crc32c body)).

Lemma record_parts : chunk_record e d = u ++ body ++ tail /\ 1 <= ulen u <= 10 /\ ulen body = ulen d + 1
  /\ ulen body < 2 ^ (7 * ulen u) /\ (1 < ulen u -> 2 ^ (7 * (ulen u - 1)) <= ulen body).
Proof.
  change maxChunkLen with 1048576 in Hlen. pose proof (ulen_nonneg d).
  assert (Hb : ulen body = ulen d + 1) by (unfold ulen; cbn [length]; lia).
  assert (Hu : 1 <= ulen u <= 10).
  { unfold ulen at 1 3. pose proof (uv_ge (ulen body)). pose proof (length_uvarint 10 (ulen body)). lia. }
  split_and!; [|lia..| |].
  - rewrite chunk_record_parts, <- Hb. by rewrite uint64_id by (unfold is_u64; lia).
  - apply (uv_canonical 10); lia.
  - apply (uv_canonical 10); lia.
Qed.

(** Where the damaged record's length prefix ends. *)
Lemma damaged_prefix rec' i x v rest : bytes rec' -> rec' = <[i := x]> (chunk_record e d) -> Uvarint rec' = Some (v, rest) ->
  v = ulen rec' - 4 - (ulen rec' - ulen rest) -> ulen rec' - ulen rest = ulen u.
Proof.
  intros Hb Hrec Hu Hv. destruct record_parts as (Er & Hul & Hbl & Hhi & Hlo).
  assert (Hlr : ulen rec' = ulen u + ulen body + 4).
  { rewrite Hrec. unfold ulen at 1. rewrite length_insert. fold (ulen (chunk_record e d)). rewrite Er, !ulen_app. change (ulen tail) with 4. lia. }
  destruct (decide (length u <= i)%nat) as [Hi|Hi].
  - rewrite Er, insert_app_r_alt in Hrec by done. rewrite Hrec in Hu. rewrite Uvarint_Append in Hu.
    + apply (inj Some) in Hu. apply pair_equal_spec in Hu as [_ <-]. rewrite Hrec, ulen_app. lia.
    + change maxChunkLen with 1048576 in Hlen. pose proof (ulen_nonneg d). unfold is_u64. lia.
  - destruct (Uvarint_read _ _ _ Hb Hu) as (pre & b & E & Hpre & Hb1 & _ & _ & Hlow & Hup).
    assert (Hused : ulen rec' - ulen rest = ulen pre + 1) by (rewrite E, ulen_app; unfold ulen; cbn [length]; lia).
    rewrite Hused in Hv |- *. pose proof (ulen_nonneg pre).
    assert (He' : rec' !! length u = Some e).
    { rewrite Hrec, list_lookup_insert_ne by lia. rewrite Er, lookup_app_r by lia. by rewrite Nat.sub_diag. }
    destruct (lt_eq_lt_dec (length pre) (length u)) as [[Hlt|Heq]|Hgt].
    + destruct (decide (ulen pre + 1 = ulen u)) as [|Hne]; [done|]. exfalso. assert (Hlt' : ulen pre + 1 < ulen u) by (unfold ulen in *; lia).
      specialize (Hlo ltac:(lia)). assert (2 ^ (7 * (ulen pre + 1)) <= 2 ^ (7 * (ulen u - 1))) by (apply Z.pow_le_mono_r; lia). lia.
    + exfalso. rewrite E, <- Heq, list_lookup_middle in He' by done. injection He' as ->.
      assert (Hp : ulen pre = ulen u) by (apply (f_equal Z.of_nat); done). rewrite Hp in Hlow. nia.
    + exfalso. rewrite E, lookup_app_l in He' by lia. rewrite Forall_forall in Hpre.
      specialize (Hpre e (list_elem_of_lookup_2 _ _ _ He')). lia.
Qed.

(** One byte of the record changed: an error, or nothing lost. *)
Lemma damaged_record off i x e' d' : is_byte x -> read_record off (<[i := x]> (chunk_record e d)) = Ok (e', d') -> e' = e /\ d' = d.
Proof.
  intros Hx H. destruct record_parts as (Er & Hul & Hbl & Hhi & Hlo). set (rec' := <[i := x]> (chunk_record e d)) in *.
  assert (Hby : bytes (e :: d)) by (apply Forall_cons_2; [unfold is_byte; lia|done]).
  assert (Hb : bytes rec').
  { unfold rec'. apply Forall_insert; [|done]. rewrite Er. apply Forall_app. split; [apply uv_bytes, ulen_nonneg|].
    apply Forall_app. split; [done|]. repeat (apply Forall_cons_2; [apply uint8_range|]). apply Forall_nil, I. }
  assert (Hlr : ulen rec' = ulen u + ulen body + 4).
  { unfold rec'. unfold ulen at 1. rewrite length_insert. fold (ulen (chunk_record e d)). rewrite Er, !ulen_app. change (ulen tail) with 4. lia. }
  destruct (read_record_ok off rec' e' d' Hb) as (u' & tail' & E & Ht & Hc & Hu); [change maxChunkLen with 1048576 in *; lia|done|].
  assert (Hlen' : ulen rec' = ulen u' + ulen (e' :: d') + 4) by (rewrite E, !ulen_app; unfold ulen at 3; lia).
  pose proof (damaged_prefix rec' i x _ _ Hb eq_refl Hu) as Hpre. rewrite ulen_app in Hpre. change (ulen tail') with (Z.of_nat (length tail')) in Hpre.
  rewrite Ht in Hpre. specialize (Hpre ltac:(lia)).
  assert (El1 : length u' = length u) by (unfold ulen in *; lia). assert (El2 : length (e' :: d') = length body) by (unfold ulen in *; lia).
  assert (Hcu : Uint32 tail = crc32c body) by (apply Uint32_PutUint32, crc32c_range; done).
  unfold rec' in E. rewrite Er in E. destruct (decide (i < length u)%nat) as [Hi|Hi].
  - rewrite insert_app_l in E by done. apply app_inj_1 in E as [_ E]; [|by rewrite length_insert].
    apply app_inj_1 in E as [E _]; [|done]. by injection E.
  - rewrite insert_app_r_alt in E by lia. apply app_inj_1 in E as [_ E]; [|done].
    destruct (decide (i - length u < length body)%nat) as [Hj|Hj].
    + rewrite insert_app_l in E by done. apply app_inj_1 in E as [E1 E2]; [|by rewrite length_insert].
      destruct (lookup_lt_is_Some_2 body (i - length u) Hj) as [y Hy]. destruct (decide (y = x)) as [->|Hne].
      { rewrite list_insert_id in E1 by done. by injection E1. }
      exfalso. rewrite <- E1, <- E2, Hcu in Hc. revert Hc. rewrite insert_take_drop by done. apply not_eq_sym.
      rewrite <- (take_drop_middle body _ _ Hy) at 1. apply crc32c_one_byte; [by rewrite take_drop_middle|done|done].
    + rewrite insert_app_r_alt in E by lia. apply app_inj_1 in E as [E _]; [|done]. by injection E.
Qed.
End Record.

(** ** One damaged byte in the index *)

Lemma index_changed body i x : bytes body -> is_byte x ->
  let b := body ++ PutUint32 (crc32c body) in b !! i <> Some x -> (i < length b)%nat -> exists e, openIndexReader (<[i := x]> b) = Err e.
Proof.
  intros Hb Hx b Hne Hi. pose proof (crc_changed body i x Hb Hx Hne Hi) as Hsum. fold b in Hsum. set (b' := <[i := x]> b) in *.
  destruct Hsum as (body' & tail' & Eb & Ht & Hcrc). rewrite Eb. unfold openIndexReader. clearbody b'.
  assert (Hl : ulen (body' ++ tail') = ulen body' + 4) by (rewrite ulen_app; unfold ulen at 2; lia).
  destruct (_ <? _); [by eexists|]. destruct (BigEndian_Uint32 (body' ++ tail')) as [got|e]; cbn [mbind result_bind]; [|by eexists].
  destruct (negb _); [by eexists|]. destruct ((body' ++ tail') !! 4%nat); [|by eexists]. destruct (negb _); [by eexists|].
  rewrite Hl. replace (ulen body' + 4 - 4) with (ulen body') by lia.
  pose proof (slice_mid [] body' tail') as Hs. cbn [app] in Hs. change (ulen []) with 0 in Hs. rewrite Z.add_0_l in Hs. rewrite Hs. cbn [mbind result_bind].
  rewrite slice_from_app. cbn [mbind result_bind]. unfold BigEndian_Uint32. rewrite (proj2 (Z.ltb_ge _ _)) by (unfold ulen; lia). cbn [mbind result_bind].
  rewrite (proj2 (Z.eqb_neq _ _)) by done. by eexists.
Qed.

(** ** An error or the right answer *)

Definition served {E A} (r' r : result E A) : Prop := r' = r \/ exists e, r' = Err e.

Lemma served_refl {E A} (r : result E A) : served r r.
Proof. by left. Qed.
Lemma served_bind {E A B} (r' r : result E A) (f' f : A -> result E B) : served r' r -> (forall a, r = Ok a -> served (f' a) (f a)) ->
  served (r' ≫= f') (r ≫= f).
Proof. intros [->|[e ->]] Hf; [|right; by exists e]. destruct r as [a|e]; [by apply Hf|by left]. Qed.
#[local] Hint Resolve served_refl : core.

Section Damage.
Variables (file : list Z) (k : nat) (x : Z).
Hypothesis Hfile : int_len file.
Hypothesis Hx : is_byte x.
Abbreviation file' := (<[k := x]> file).

Lemma chunk_at_damaged g cr : chunk_in file g cr -> served (chunk_at file' (cr_off cr) (cr_recLen cr)) (chunk_at file (cr_off cr) (cr_recLen cr)).
Proof.
  intros [Hch _ _ _ (pre & post & Ef & -> & ->)]. destruct (built_bytes g Hch) as [Hb Hn]. set (data := Bytes _) in *.
  destruct (record_parts EncodingGorilla data Hn) as (Er & Hul & Hbl & _). pose proof (ulen_nonneg data).
  assert (Hlen : 6 <= ulen (chunk_record EncodingGorilla data) <= maxChunkLen).
  { rewrite Er, !ulen_app. change (ulen (PutUint32 _)) with 4. change maxChunkLen with 1048576 in *. lia. }
  set (rec := chunk_record EncodingGorilla data) in *.
  assert (Hgood : chunk_at file (uint64 (ulen pre)) (ulen rec) = Ok (EncodingGorilla, data)) by (rewrite Ef in Hfile |- *; by apply chunk_record_read).
  assert (Hsame : forall p' q', length p' = length pre -> length q' = length post -> file' = p' ++ rec ++ q' ->
    chunk_at file' (uint64 (ulen pre)) (ulen rec) = Ok (EncodingGorilla, data)).
  { intros p' q' Hp Hq E. rewrite E. replace (ulen pre) with (ulen p') by (unfold ulen; lia).
    rewrite chunk_at_record; [|rewrite <- E; unfold int_len, ulen in *; by rewrite length_insert|done].
    rewrite <- Hgood, Ef, chunk_at_record by (by rewrite <- ?Ef). by replace (ulen p') with (ulen pre) by (unfold ulen; lia). }
  rewrite Hgood. assert (Hif : int_len file') by (unfold int_len, ulen; by rewrite length_insert).
  destruct (decide (k < length pre)%nat) as [H1|H1].
  { left. apply (Hsame (<[k := x]> pre) post); [by rewrite length_insert|done|]. by rewrite Ef, insert_app_l. }
  destruct (decide (k - length pre < length rec)%nat) as [H2|H2].
  - assert (E : file' = pre ++ <[(k - length pre)%nat := x]> rec ++ post) by (rewrite Ef, insert_app_r_alt, insert_app_l by lia; done).
    rewrite E. assert (El : ulen rec = ulen (<[(k - length pre)%nat := x]> rec)) by (unfold ulen; by rewrite length_insert). rewrite El.
    rewrite chunk_at_record; [|by rewrite <- E|by rewrite <- El].
    destruct (read_record _ (<[(k - length pre)%nat := x]> rec)) as [[e' d']|e] eqn:Err; [|right; by eexists]. left.
    apply (damaged_record EncodingGorilla data) in Err as [-> ->]; [done|unfold EncodingGorilla; lia|done|done|done].
  - left. apply (Hsame pre (<[(k - length pre - length rec)%nat := x]> post)); [done|by rewrite length_insert|].
    by rewrite Ef, insert_app_r_alt, insert_app_r_alt by lia.
Qed.

Lemma samples_loop_damaged gs crs from to : Forall2 (chunk_in file) gs crs -> forall out,
  served (samples_loop file' crs from to out) (samples_loop file crs from to out).
Proof.
  induction 1 as [|g cr gs crs Hg Hgs IH]; intros out; cbn [samples_loop]; [done|].
  destruct (_ || _); [by apply IH|]. apply served_bind.
  - destruct (chunk_at_damaged g cr Hg) as [-> | [e ->]]; [done|]. right. by eexists.
  - intros [enc data] _. destruct (negb _); [done|]. destruct (FromBytes data) as [c|e]; [|done].
    destruct (scan _ _ _ _ _) as [out' it]. destruct (it_err it); [done|]. apply IH.
Qed.
End Damage.

Lemma openChunkReader_cases file : openChunkReader file = Ok file \/ exists e, openChunkReader file = Err e.
Proof.
  unfold openChunkReader. destruct (_ <? _); [by right; eexists|]. destruct (BigEndian_Uint32 _) as [got|e]; cbn [mbind result_bind]; [|by right; eexists].
  destruct (negb _); [by right; eexists|]. destruct (drop _ _) as [|v l]; [by right; eexists|]. destruct (negb _); [by right; eexists|by left].
Qed.

Section Served.
Variable cs : content.
Variable w : BWriter.
Hypothesis Hcs : content_ok cs.
Hypothesis Hw : holds_content cs w.
Hypothesis Hfile : int_len (cw_file (bw_chunks w)).
Variables (k : nat) (x : Z).
Hypothesis Hx : is_byte x.
Definition damaged : Block := MkBlock (blk_meta (opened w)) (blk_ix (opened w)) (<[k := x]> (blk_chunks (opened w))).

Lemma samples_damaged s from to : s ∈ ir_series (blk_ix (opened w)) -> served (samples damaged s from to) (samples (opened w) s from to).
Proof.
  intros Hs. destruct (series_content cs w Hw s Hs) as (c & _ & _ & gs & _ & Hf). unfold samples. cbn [damaged opened blk_chunks].
  eapply samples_loop_damaged; done.
Qed.

Lemma SamplesFor_damaged key : served (SamplesFor damaged key) (SamplesFor (opened w) key).
Proof.
  unfold SamplesFor. cbn [damaged blk_ix blk_meta]. destruct (SearchTry _ _) as [i|]; [|done]. cbn [or_panic file_result mbind result_bind]. destruct (_ =? _)%nat; [done|]. destruct (_ !! _) as [s|] eqn:Es; [|done]. cbn [or_panic file_result mbind result_bind]. destruct (decide _); [|done].
  apply samples_damaged. by eapply list_elem_of_lookup_2.
Qed.

Lemma all_loop_damaged ss : (forall s, s ∈ ss -> s ∈ ir_series (blk_ix (opened w))) -> served (all_loop damaged ss) (all_loop (opened w) ss).
Proof.
  induction ss as [|s ss IH]; intros Hs; cbn [all_loop]; [done|]. apply served_bind; [apply samples_damaged, Hs; by left|].
  intros vs _. apply served_bind; [|done]. apply IH. intros. apply Hs. by right.
Qed.

Lemma select_loop_damaged ids from to : served (select_loop damaged ids from to) (select_loop (opened w) ids from to).
Proof.
  induction ids as [|id ids IH]; cbn [select_loop]; [done|]. change (blk_ix damaged) with (blk_ix (opened w)). destruct (_ <=? _); [done|].
  destruct (_ !! _) as [s|] eqn:Es; [|done]. apply served_bind; [apply samples_damaged; by eapply list_elem_of_lookup_2|].
  intros vs _. apply served_bind; [apply IH|done].
Qed.

Lemma select_damaged sel from to : served (BlockSelect damaged sel from to) (BlockSelect (opened w) sel from to).
Proof.
  unfold BlockSelect. change (Overlaps damaged from to) with (Overlaps (opened w) from to). destruct (negb _); [done|].
  apply served_bind; [apply select_loop_damaged|done].
Qed.
End Served.

(** C23: a damaged byte is an error or harmless, never wrong data.  Take a written block and change any one byte: of the index, and the block no longer opens; of the chunk file, and either it no longer opens, or every read by key, every selection and the full listing return an error or exactly what the undamaged block returns. *)
Theorem block_damage id cs opts io w m : content_ok cs -> Write id cs opts io = (w, Ok m) ->
  (forall f, bw_published w = Some f -> files_fit f) ->
  exists f b, bw_published w = Some f /\ BlockOpen f = Ok b
    /\ (forall i x, is_byte x -> (i < length (bf_index f))%nat -> bf_index f !! i <> Some x ->
          exists e, BlockOpen (MkBlockFiles (bf_meta f) (<[i := x]> (bf_index f)) (bf_chunks f)) = Err e)
    /\ (forall i x, is_byte x -> served (BlockOpen (MkBlockFiles (bf_meta f) (bf_index f) (<[i := x]> (bf_chunks f))))
                                        (Ok (MkBlock (blk_meta b) (blk_ix b) (<[i := x]> (blk_chunks b)))))
    /\ (forall i x, is_byte x -> let b' := MkBlock (blk_meta b) (blk_ix b) (<[i := x]> (blk_chunks b)) in
          (forall key, served (SamplesFor b' key) (SamplesFor b key))
          /\ (forall sel from to, served (BlockSelect b' sel from to) (BlockSelect b sel from to))
          /\ served (All b') (All b)).
Proof.
  intros Hcs Hrun Hfit. destruct (Write_opened _ _ _ _ _ _ Hcs Hrun Hfit) as (w0 & Hcl & Hne & Hpub & -> & Hf & Hi & Ho). pose proof Hcl as [Hw _].
  exists (files_of w0), (opened w0). split; [done|]. split; [done|]. split; [|split].
  - intros i x Hx Hlt Hch. unfold BlockOpen. cbn [bf_meta bf_index bf_chunks]. destruct (ReadMeta _) as [m|e]; [|by eexists]. cbn [mbind result_bind].
    cbn [files_of bf_index] in Hlt, Hch |- *.
    destruct (content_indexable cs w0 Hcs Hw Hf Hi) as (B1 & B2 & B3 & B4). rewrite index_layout in *. destruct (index_changed (body (merge_sort series_le (bw_ix w0))) i x) as [e ->]; [|done..|by eexists].
    by apply body_bytes.
  - intros i x Hx. unfold BlockOpen in *. cbn [files_of bf_meta bf_index bf_chunks] in *. destruct (ReadMeta _) as [m|e]; [|done]. cbn [mbind result_bind] in *.
    destruct (openIndexReader _) as [ix|e]; [|done]. cbn [file_result mbind result_bind] in *.
    destruct (openChunkReader (cw_file (bw_chunks w0))) as [fl|e] eqn:Ec; [|done]. cbn [file_result mbind result_bind] in Ho.
    apply (f_equal (fun r => match r with Ok b => (blk_meta b, blk_ix b) | Err _ => (m, ix) end)) in Ho. cbn [blk_meta blk_ix] in Ho.
    apply pair_equal_spec in Ho as [-> ->]. destruct (openChunkReader_cases (<[i := x]> (cw_file (bw_chunks w0)))) as [-> | [e ->]]; [by left|right; by eexists].
  - intros i x Hx b'. split; [|split].
    + intros key. by apply (SamplesFor_damaged cs).
    + intros sel from to. by apply (select_damaged cs).
    + apply (all_loop_damaged cs); done.
Qed.

Lemma block_damage_witness : exists f b, bw_published (Write 7 ex_cs ex_opts []).1 = Some f /\ BlockOpen f = Ok b
  /\ forall key, served (SamplesFor (MkBlock (blk_meta b) (blk_ix b) (<[9%nat := 77]> (blk_chunks b))) key) (SamplesFor b key).
Proof.
  assert (E : Write 7 ex_cs ex_opts [] = ex_run) by (vm_compute; reflexivity). rewrite E.
  destruct (block_damage 7 ex_cs ex_opts [] ex_run.1 (MkMeta 7 1 10 20 (MkBStats 2 3 2) 0 [] 0) ex_cs_ok) as (f & b & H1 & H2 & _ & _ & H3).
  - rewrite E. reflexivity.
  - intros f Hf. apply (inj Some) in Hf as <-. split; apply Z.ltb_lt; vm_compute; reflexivity.
  - exists f, b. split; [exact H1|]. split; [exact H2|]. apply (H3 9%nat 77). split; [discriminate|reflexivity].
Defined.
