(* ===== verification/BlockPanic.v ===== *)
(** * The block reader on arbitrary bytes

    Whatever the files hold, a checksum that matches included, no slice, index or
    fixed-width read of the reader is out of range. *)

From Stdlib Require Import ZArith Lia.
From Stdlib Require Import (notations) String.
From stdpp Require Import base sorting gmap numbers list.
From S2P Require Import Prelude Bstream Chunkenc Wal WalProofs Gostring Tsdb Index IndexProofs IndexSelect HeadRecord Head HeadSeries Compact BlockFile BlockIndex BlockLaws Block BlockWrite BlockSafe.

Definition safe {A} (r : R A) : Prop := r <> Err ErrPanic.

Lemma safe_ok {A} (a : A) : safe (Ok a).
Proof. done. Qed.
Lemma safe_bind {A B} (r : R A) (f : A -> R B) : safe r -> (forall a, r = Ok a -> safe (f a)) -> safe (r ≫= f).
Proof. destruct r as [a|e]; intros Hr Hf; [by apply Hf|]. cbn. intros [= ->]. done. Qed.
Create HintDb panic.
#[local] Hint Resolve safe_ok : panic.

Lemma slice_safe b lo hi : 0 <= lo -> lo <= hi -> hi <= ulen b -> bytes b -> exists s, slice b lo hi = Ok s /\ ulen s = hi - lo /\ bytes s.
Proof.
  intros H1 H2 H3 Hb. unfold slice. rewrite !(proj2 (Z.leb_le _ _)) by done. cbn [andb]. eexists. split; [done|].
  split; [unfold ulen in *; rewrite length_take, length_drop; lia|]. by apply Forall_take, Forall_drop.
Qed.

Lemma slice_from_safe b lo : 0 <= lo <= ulen b -> bytes b -> exists s, slice_from b lo = Ok s /\ ulen s = ulen b - lo /\ bytes s.
Proof. intros [H1 H2] Hb. by apply slice_safe. Qed.

(** ** The decoder *)

Definition sound_decoder (d : decoder) : Prop := bytes (d_b d).

Lemma fail_sound e d : sound_decoder d -> sound_decoder (fail e d).
Proof. intros H. unfold fail. by destruct (d_err d). Qed.

Lemma d_uvarint_sound d v d' : sound_decoder d -> d_uvarint d = (v, d') -> sound_decoder d' /\ is_u64 v.
Proof.
  intros Hd. unfold d_uvarint. destruct (d_err d); [intros [= <- <-]; split; [done|unfold is_u64; lia]|].
  destruct (Uvarint (d_b d)) as [[u rest]|] eqn:E; intros [= <- <-]; [|split; [by apply fail_sound|unfold is_u64; lia]].
  apply Uvarint_read in E as (pre & b & Eb & _ & _ & _ & Hv & _); [|done]. split; [|done].
  unfold sound_decoder in *. rewrite Eb, Forall_app, Forall_cons in Hd. cbn. naive_solver.
Qed.

Lemma d_varint_sound d v d' : sound_decoder d -> d_varint d = (v, d') -> sound_decoder d'.
Proof.
  intros Hd. unfold d_varint. destruct (d_err d); [by intros [= <- <-]|]. unfold Varint.
  destruct (Uvarint (d_b d)) as [[u rest]|] eqn:E; intros [= <- <-]; [|by apply fail_sound].
  apply Uvarint_read in E as (pre & b & Eb & _); [|done].
  unfold sound_decoder in *. rewrite Eb, Forall_app, Forall_cons in Hd. cbn. naive_solver.
Qed.

Lemma d_str_sound d v d' : sound_decoder d -> d_str d = (v, d') -> sound_decoder d'.
Proof.
  intros Hd. unfold d_str. destruct (d_uvarint d) as [n d1] eqn:E. destruct (d_uvarint_sound _ _ _ Hd E) as [H1 _].
  destruct (d_err d1); [by intros [= <- <-]|]. destruct (_ <? _); intros [= <- <-]; [by apply fail_sound|]. by apply Forall_drop.
Qed.

(** Read one field: name the value and what the decoder then is. *)
Ltac field v d :=
  let H := fresh "Hd" in let Hv := fresh "Hv" in
  match goal with
  | |- context [d_uvarint ?d0] => destruct (d_uvarint d0) as [v d] eqn:H; apply d_uvarint_sound in H as [H Hv]; [|done]
  | |- context [d_varint ?d0] => destruct (d_varint d0) as [v d] eqn:H; apply d_varint_sound in H; [|done]
  | |- context [d_str ?d0] => destruct (d_str d0) as [v d] eqn:H; apply d_str_sound in H; [|done]
  end.

Lemma readSymbols_safe d : sound_decoder d -> safe (readSymbols d).
Proof.
  intros Hd. unfold readSymbols. field n d1. destruct (_ || _); [done|].
  generalize 0 (@nil gostring) (∅ : gmap gostring Z). revert d1 Hd0. induction (Z.to_nat n) as [|k IH]; intros d1 H1 i syms ids; cbn [readSymbols_loop]; [done|].
  field s d2. destruct (failed d2); [done|]. by apply IH.
Qed.

Lemma sym_safe syms i : 0 <= i -> safe (sym syms i).
Proof.
  intros Hi. unfold sym. destruct (Z.leb_spec (ulen syms) i) as [|Hlt]; [done|].
  destruct (lookup_lt_is_Some_2 syms (Z.to_nat i)) as [s ->]; [unfold ulen in Hlt; lia|done].
Qed.

Lemma readTags_safe syms n : forall d, sound_decoder d -> safe (readTags syms n d)
  /\ forall ts d', readTags syms n d = Ok (ts, d') -> sound_decoder d'.
Proof.
  induction n as [|n IH]; intros d Hd; cbn [readTags]; [split; [done|]; by intros ts d' [= <- <-]|].
  field i d1. destruct (sym syms i) as [k|e] eqn:Es; cbn [mbind result_bind].
  2:{ split; [|done]. intros [= ->]. by apply (sym_safe syms i) in Es; unfold is_u64 in *; [|lia]. }
  field j d2. destruct (sym syms j) as [v|e] eqn:Ej; cbn [mbind result_bind].
  2:{ split; [|done]. intros [= ->]. by apply (sym_safe syms j) in Ej; unfold is_u64 in *; [|lia]. }
  destruct (IH d2) as [Hs Hk]; [done|]. destruct (readTags syms n d2) as [[ts d3]|e]; cbn [mbind result_bind].
  - split; [done|]. intros ts' d' [= <- <-]. by eapply Hk.
  - split; [|done]. intros [= ->]. done.
Qed.

Definition ref_u64 (c : chunkRef) : Prop := is_u64 (cr_off c) /\ is_u64 (cr_recLen c).

Lemma readChunkRefs_sound n : forall d cs d', sound_decoder d -> readChunkRefs n d = (cs, d') -> sound_decoder d' /\ Forall ref_u64 cs.
Proof.
  induction n as [|n IH]; intros d cs d' Hd; cbn [readChunkRefs]; [intros [= <- <-]; split; [done|constructor]|].
  field minT d1. field span d2. field off d3. field len d4.
  destruct (readChunkRefs n d4) as [cs' d5] eqn:E. destruct (IH d4 cs' d5) as [Hd5 Hcs]; [done|done|].
  intros [= <- <-]. split; [done|]. apply Forall_cons_2; [done|done].
Qed.

Definition series_u64 (s : blockSeries) : Prop := Forall ref_u64 (bs_chunks s).

Lemma readOneSeries_safe syms d : sound_decoder d -> safe (readOneSeries syms d)
  /\ forall s d', readOneSeries syms d = Ok (s, d') -> sound_decoder d' /\ series_u64 s.
Proof.
  intros Hd. unfold readOneSeries. field i d1. destruct (sym syms i) as [metric|e] eqn:Es; cbn [mbind result_bind].
  2:{ split; [|done]. intros [= ->]. by apply (sym_safe syms i) in Es; unfold is_u64 in *; [|lia]. }
  field nt d2. destruct (_ || _); [done|]. destruct (readTags_safe syms (Z.to_nat nt) d2) as [Hs Hk]; [done|].
  destruct (readTags syms (Z.to_nat nt) d2) as [[ts d3]|e]; cbn [mbind result_bind]; [|split; [intros [= ->]; done|done]].
  specialize (Hk ts d3 eq_refl). field nc d4. destruct (_ || _); [done|].
  destruct (readChunkRefs (Z.to_nat nc) d4) as [cs d5] eqn:E. apply readChunkRefs_sound in E as [H5 H6]; [|done].
  destruct (failed d5); [done|]. split; [done|]. intros s d' [= <- <-]. done.
Qed.

Lemma readSeries_safe syms d : sound_decoder d -> safe (readSeries syms d) /\ forall ss, readSeries syms d = Ok ss -> Forall series_u64 ss.
Proof.
  intros Hd. unfold readSeries. field n d1. destruct (_ || _); [done|].
  assert (Hout : Forall series_u64 []) by constructor. revert Hout Hd0. generalize (@nil blockSeries). revert d1.
  induction (Z.to_nat n) as [|k IH]; intros d1 out Hout H1; cbn [readSeries_loop]; [split; [done|]; by intros ss [= <-]|].
  destruct (readOneSeries_safe syms d1 H1) as [Hs Hk]. destruct (readOneSeries syms d1) as [[s d2]|e]; cbn [mbind result_bind]; [|split; [intros [= ->]; done|done]].
  destruct (Hk s d2 eq_refl) as [H2 H3]. apply IH; [|done]. apply Forall_app. split; [done|]. by apply Forall_cons_2.
Qed.

Definition entry_in (size : Z) (e : tableEntry) : Prop := 0 <= te_off e < size.

Lemma readTable_safe size d : sound_decoder d -> safe (readTable size d) /\ forall es, readTable size d = Ok es -> Forall (entry_in size) es.
Proof.
  intros Hd. unfold readTable. field n d1. destruct (_ || _); [done|].
  assert (Hout : Forall (entry_in size) []) by constructor. revert Hout Hd0. generalize (@nil tableEntry) 0. revert d1.
  induction (Z.to_nat n) as [|k IH]; intros d1 out i Hout H1; cbn [readTable_loop].
  { destruct (failed d1); [done|]. split; [done|]. by intros es [= <-]. }
  field ks d2. field vs d3. field off d4. destruct (Z.leb_spec size off) as [|Hlt]; [done|].
  apply IH; [|done]. apply Forall_app. split; [done|]. apply Forall_cons_2; [|done]. unfold entry_in. cbn. unfold is_u64 in *. lia.
Qed.

Lemma read_toc_safe body n : forall toc, bytes toc -> 8 * Z.of_nat n <= ulen toc -> safe (read_toc body toc n)
  /\ forall offs, read_toc body toc n = Ok offs -> length offs = n /\ Forall (fun o => 0 <= o <= ulen body) offs.
Proof.
  induction n as [|n IH]; intros toc Hb Hlen; cbn [read_toc]; [split; [done|]; intros offs [= <-]; split; [done|constructor]|].
  unfold BigEndian_Uint64. rewrite (proj2 (Z.ltb_ge _ _)) by lia. cbn [mbind result_bind]. set (off := Z.lor _ _).
  assert (Hoff : 0 <= off).
  { assert (H4 : forall l, bytes l -> 0 <= Uint32 l).
    { intros l Hl. assert (Hn : forall i, 0 <= nth i l 0) by (intros i; destruct (nth_in_or_default i l 0) as [Hi| ->]; [|done];
        rewrite Forall_forall in Hl; apply list_elem_of_In, Hl in Hi; apply Hi).
      unfold Uint32. rewrite !Z.lor_nonneg, !Z.shiftl_nonneg. auto. }
    unfold off. rewrite Z.lor_nonneg, Z.shiftl_nonneg. split; apply H4; [by apply Forall_drop|done]. }
  destruct (Z.ltb_spec (ulen body) off) as [|Hle]; [done|].
  destruct (slice_from_safe toc 8 ltac:(lia) Hb) as (toc' & -> & Hl' & Hb'). cbn [mbind result_bind].
  destruct (IH toc' Hb' ltac:(lia)) as [Hs Hk]. destruct (read_toc body toc' n) as [offs|e]; cbn [mbind result_bind]; [|split; [intros [= ->]; done|done]].
  destruct (Hk offs eq_refl) as [H1 H2]. split; [done|]. intros o [= <-]. split; [cbn; lia|]. by apply Forall_cons_2.
Qed.

(** What holds of every index that opens. *)
Record reader_safe (r : indexReader) : Prop := {
  rs_postings : bytes (ir_postings r);
  rs_table : Forall (entry_in (ulen (ir_postings r))) (ir_table r);
  rs_series : Forall series_u64 (ir_series r);
  rs_all : Forall (fun id => 0 <= id) (ir_all r);
}.

Lemma BigEndian_Uint32_long l : 4 <= ulen l -> BigEndian_Uint32 l = Ok (Uint32 l).
Proof. intros H. unfold BigEndian_Uint32. by rewrite (proj2 (Z.ltb_ge _ _)) by lia. Qed.

Lemma openIndexReader_safe b : bytes b -> safe (openIndexReader b) /\ forall r, openIndexReader b = Ok r -> reader_safe r.
Proof.
  intros Hb. unfold openIndexReader. change (indexHeadLen + tocLen + 4) with 41. destruct (Z.ltb_spec (ulen b) 41) as [|Hlen]; [done|].
  rewrite BigEndian_Uint32_long by lia. cbn [mbind result_bind]. destruct (negb _); [done|].
  destruct (lookup_lt_is_Some_2 b 4) as [v ->]; [unfold ulen in Hlen; lia|]. destruct (negb _); [done|].
  destruct (slice_safe b 0 (ulen b - 4)) as (body & -> & Hbl & Hbb); [lia..|done|]. cbn [mbind result_bind].
  destruct (slice_from_safe b (ulen b - 4)) as (tail & -> & Htl & _); [lia|done|]. cbn [mbind result_bind].
  rewrite BigEndian_Uint32_long by lia. cbn [mbind result_bind]. destruct (negb _); [done|].
  change tocLen with 32. destruct (slice_from_safe body (ulen body - 32)) as (toc & -> & Hcl & Hcb); [lia|done|]. cbn [mbind result_bind].
  destruct (read_toc_safe body 4 toc Hcb) as [Hs Hk]; [lia|]. destruct (read_toc body toc 4) as [offs|e]; cbn [mbind result_bind]; [|split; [intros [= ->]; done|done]].
  destruct (Hk offs eq_refl) as [Hl Ho]. destruct offs as [|o1 [|o2 [|o3 [|o4 []]]]]; try done. rewrite !Forall_cons in Ho. destruct Ho as (H1 & H2 & _ & H4 & _).
  destruct (slice_from_safe body o1 H1 Hbb) as (b1 & -> & _ & Hb1). cbn [mbind result_bind].
  pose proof (readSymbols_safe (MkDecoder b1 None) Hb1) as Hsy. destruct (readSymbols _) as [[symbols symID]|e]; cbn [mbind result_bind]; [|split; [intros [= ->]; done|done]].
  destruct (slice_from_safe body o2 H2 Hbb) as (b2 & -> & _ & Hb2). cbn [mbind result_bind].
  destruct (readSeries_safe symbols (MkDecoder b2 None) Hb2) as [Hse Hsk]. destruct (readSeries _ _) as [series|e]; cbn [mbind result_bind]; [|split; [intros [= ->]; done|done]].
  destruct (slice_from_safe body o4 H4 Hbb) as (b4 & -> & _ & Hb4). cbn [mbind result_bind].
  destruct (readTable_safe (ulen body) (MkDecoder b4 None) Hb4) as [Hta Htk]. destruct (readTable _ _) as [table|e]; cbn [mbind result_bind]; [|split; [intros [= ->]; done|done]].
  split; [done|]. intros r [= <-]. split; cbn; [done|by apply Htk|by apply Hsk|]. apply Forall_forall. intros id (n & -> & _)%list_elem_of_fmap. lia.
Qed.

(** ** Chunks *)

Lemma read_record_safe off rec : bytes rec -> ulen rec <= maxChunkLen -> safe (read_record off rec).
Proof.
  intros Hb Hlen. unfold read_record. change maxChunkLen with 1048576 in Hlen. pose proof (ulen_nonneg rec).
  destruct (Uvarint rec) as [[v rest]|] eqn:Eu; [|done].
  destruct (Uvarint_read _ _ _ Hb Eu) as (pre & b & Erec & _ & _ & Hpre & Hv & _).
  assert (Hul : 1 <= ulen rec - ulen rest <= 10).
  { rewrite Erec, ulen_app. unfold ulen. cbn [length]. lia. }
  set (used := ulen rec - ulen rest) in *. rewrite (uint64_id (used + 4)) by (unfold is_u64; lia).
  destruct (Z.leb_spec (ulen rec) (used + 4)) as [|Hlt]; [done|]. cbn [orb].
  rewrite (uint64_id (ulen rec - 4 - used)) by (unfold is_u64; lia).
  destruct (Z.eqb_spec v (ulen rec - 4 - used)) as [Ev|]; cbn [negb]; [|done].
  rewrite (uint64_id (used + v)) by (unfold is_u64; lia).
  destruct (slice_safe rec used (used + v)) as (body & -> & Hbl & _); [lia..|done|]. cbn [mbind result_bind].
  destruct (slice_from_safe rec (used + v)) as (tail & -> & Htl & _); [lia|done|]. cbn [mbind result_bind].
  rewrite BigEndian_Uint32_long by lia. cbn [mbind result_bind]. destruct (negb _); [done|].
  destruct body; [unfold ulen in Hbl; cbn in Hbl; lia|done].
Qed.

Lemma chunk_at_safe file off recLen : bytes file -> int_len file -> is_u64 off -> is_u64 recLen -> safe (chunk_at file off recLen).
Proof.
  intros Hb Hf Hoff Hlen. unfold chunk_at. destruct (Z.ltb_spec recLen 6) as [|Hl1]; [done|]. destruct (Z.ltb_spec maxChunkLen recLen) as [|Hl2]; [done|]. cbn [orb].
  pose proof (ulen_nonneg file). unfold int_len, is_u64 in *. destruct (Z.ltb_spec (ulen file) off) as [|Ho]; [done|]. cbn [orb].
  rewrite uint64_id by (unfold is_u64; lia). destruct (Z.ltb_spec (ulen file - off) recLen) as [|Hs]; [done|].
  rewrite int64_id by (unfold is_i64; lia). destruct (slice_safe file off (off + recLen)) as (rec & -> & Hrl & Hrb); [lia..|done|]. cbn [mbind result_bind].
  assert (E : recLen = ulen rec) by lia. rewrite E. apply (read_record_safe off rec Hrb). lia.
Qed.

(** *** The bits of a chunk *)

(** A computation that never indexes out of range. *)
Definition quiet {S E A} (panic : E) (m : SE S E A) : Prop := forall s, (m s).2 <> Err panic.

Section Quiet.
Context {S E : Type} (panic : E).
Lemma rd_quiet_ret {A} (a : A) : quiet panic (mret a : SE S E A).
Proof. done. Qed.
Lemma rd_quiet_throw {A} (e : E) : e <> panic -> quiet panic (throw e : SE S E A).
Proof. intros H s [= ->]. done. Qed.
Lemma rd_quiet_bind {A B} (m : SE S E A) (f : A -> SE S E B) : quiet panic m -> (forall a, quiet panic (f a)) -> quiet panic (m ≫= f).
Proof. intros Hm Hf s. specialize (Hm s). unfold mbind, SE_bind. destruct (m s) as [s' [a|e]]; [apply Hf|intros [= ->]; by apply Hm]. Qed.
Lemma quiet_if {A} (b : bool) (m m' : SE S E A) : quiet panic m -> quiet panic m' -> quiet panic (if b then m else m').
Proof. by destruct b. Qed.
End Quiet.
#[local] Hint Resolve rd_quiet_ret rd_quiet_bind quiet_if : panic.
#[local] Hint Extern 1 (quiet _ (throw _)) => apply rd_quiet_throw; discriminate : panic.

Notation bit_quiet := (quiet ErrStreamPanic).

Lemma readBit_quiet : bit_quiet readBit.
Proof.
  intros b. unfold readBit, stream_at, get, put, throw, mbind, SE_bind, mret, SE_ret. destruct (Nat.leb_spec (length (r_stream b)) (r_pos b)) as [|Hlt]; [done|].
  destruct (r_count b =? 0); cbn [r_stream r_pos r_count].
  - destruct (Nat.leb_spec (length (r_stream b)) (Datatypes.S (r_pos b))) as [|Hlt']; [done|]. cbn [r_stream r_pos r_count]. by destruct (lookup_lt_is_Some_2 _ _ Hlt') as [x ->].
  - by destruct (lookup_lt_is_Some_2 _ _ Hlt) as [x ->].
Qed.
Lemma readBytes_quiet fuel : forall nbits u, bit_quiet (readBytes_loop fuel nbits u).
Proof.
  induction fuel as [|fuel IH]; intros nbits u; cbn [readBytes_loop]; [done|]. intros b. unfold get, mbind at 1, SE_bind at 1. destruct (_ && _); [|done]. destruct (Nat.leb_spec (length (r_stream b)) (r_pos b)) as [|Hlt]; [done|].
  unfold stream_at. destruct (lookup_lt_is_Some_2 _ _ Hlt) as [x ->]. unfold put, mbind, SE_bind, mret, SE_ret. apply IH.
Qed.
Lemma readBits_quiet nbits : bit_quiet (readBits nbits).
Proof.
  unfold readBits. apply rd_quiet_bind; [apply readBytes_quiet|]. intros [n u]. revert u. induction (Z.to_nat n) as [|k IH]; intros u; cbn [readBits_loop]; [done|]. apply rd_quiet_bind; [apply readBit_quiet|]. intros []; apply IH.
Qed.
Lemma readVarint_quiet : bit_quiet readVarint.
Proof.
  assert (H : forall fuel shift u, bit_quiet (readVarint_loop fuel shift u)); [|unfold readVarint; apply rd_quiet_bind; [apply H|done]]. induction fuel as [|fuel IH]; intros shift u; cbn [readVarint_loop]; [auto with panic|].
  apply quiet_if; [auto with panic|]. apply rd_quiet_bind; [|intros v; apply quiet_if; [done|apply IH]]. unfold readByte. apply rd_quiet_bind; [apply readBits_quiet|done].
Qed.
#[local] Hint Resolve readBit_quiet readBits_quiet readVarint_quiet : panic.

Definition chunk_panic : chunk_error := ErrStream ErrStreamPanic.
Notation it_quiet := (quiet chunk_panic).

Lemma br_quiet {A} (m : RD A) : bit_quiet m -> it_quiet (br m).
Proof. intros H it. unfold br. specialize (H (it_br it)). destruct (m (it_br it)) as [r' [a|e]]; cbn in *; [done|]. intros [= ->]. done. Qed.
Lemma modify_quiet f : it_quiet (modify_st f).
Proof. done. Qed.
Lemma get_quiet {A} (f : Iterator -> IT A) : (forall it, it_quiet (f it)) -> it_quiet (get ≫= f).
Proof. intros H it. apply H. Qed.
#[local] Hint Resolve br_quiet modify_quiet get_quiet : panic.

Lemma dod_quiet : it_quiet readDOD.
Proof.
  assert (H : forall n prefix, it_quiet (dod_prefix n prefix)); [|unfold readDOD; apply rd_quiet_bind; [apply H|]; intros prefix; apply quiet_if; auto with panic]. induction n as [|n IH]; intros prefix; cbn [dod_prefix]; [done|].
  apply rd_quiet_bind; [auto with panic|]. intros []; [apply IH|done].
Qed.
Lemma value_quiet : it_quiet readValue.
Proof. unfold readValue. auto 20 with panic. Qed.
Lemma next_quiet read : it_quiet (next_sample read).
Proof. unfold next_sample. pose proof dod_quiet. pose proof value_quiet. auto 20 with panic. Qed.

Definition it_fine (it : Iterator) : Prop := it_err it <> Some chunk_panic.
Lemma next_fine it : it_fine it -> it_fine (Next it).1.
Proof.
  intros Hi. unfold Next. destruct (it_err it) as [e|] eqn:Ee; [exact Hi|]. destruct (_ <=? _); [exact Hi|]. pose proof (next_quiet (it_read it) it) as Hq.
  destruct (frames_next_sample (it_read it) it) as (_ & _ & He). destruct (next_sample (it_read it) it) as [it' [[]|e]]; unfold it_fine; cbn in *; [rewrite He, Ee; done|]. intros [= ->]. done.
Qed.
Lemma scan_fine from to fuel : forall it out, it_fine it -> it_fine (scan fuel from to it out).2.
Proof.
  induction fuel as [|fuel IH]; intros it out Hi; cbn [scan]; [done|]. pose proof (next_fine it Hi) as Hn. destruct (Next it) as [it' []]; cbn in Hn; [|done].
  destruct (At it') as [t v]. repeat case_match; try done; by apply IH.
Qed.

(** An error that stands for a panic of the Go program. *)
Definition panicked (e : read_error) : Prop := e = ErrFile ErrPanic \/ e = ErrDecoding chunk_panic.
Definition rsafe {A} (r : result read_error A) : Prop := forall e, r = Err e -> ~ panicked e.
Lemma rsafe_ok {A} (a : A) : rsafe (Ok a).
Proof. done. Qed.
Lemma rsafe_bind {A B} (r : result read_error A) (f : A -> result read_error B) : rsafe r -> (forall a, r = Ok a -> rsafe (f a)) -> rsafe (r ≫= f).
Proof. destruct r as [a|e]; intros Hr Hf; [by apply Hf|]. cbn. intros e' [= <-]. by apply Hr. Qed.
Lemma rsafe_err {A} e : ~ panicked e -> rsafe (Err e : result read_error A).
Proof. by intros H e' [= <-]. Qed.
Lemma file_result_safe {A} (r : R A) : safe r -> rsafe (file_result r).
Proof. destruct r as [a|e]; [done|]. intros H. apply rsafe_err. intros [[= ->]|[=]]. done. Qed.
#[local] Hint Extern 1 (rsafe (Err _)) => apply rsafe_err; intros [[=]|[=]] : panic.
#[local] Hint Resolve rsafe_ok : panic.

Lemma samples_loop_safe file crs from to : bytes file -> int_len file -> Forall ref_u64 crs -> forall out, rsafe (samples_loop file crs from to out).
Proof.
  intros Hb Hf. induction 1 as [|cr crs [H1 H2] Hcrs IH]; intros out; cbn [samples_loop]; [done|]. destruct (_ || _); [apply IH|].
  apply rsafe_bind; [by apply file_result_safe, chunk_at_safe|]. intros [enc data] _. destruct (negb _); [auto with panic|].
  destruct (FromBytes data) as [c|e] eqn:Ec; [|unfold FromBytes in Ec; destruct (_ <? _)%nat; [injection Ec as <-; auto with panic|done]].
  assert (Hit : it_fine (ChunkIterator c)) by (unfold ChunkIterator; by destruct (_ <? _)%nat). pose proof (scan_fine from to (Z.to_nat (it_total (ChunkIterator c) - it_read (ChunkIterator c)) + 1) _ out Hit) as Hs.
  destruct (scan _ _ _ _ _) as [out' it]. cbn in Hs. unfold it_fine in Hs. destruct (it_err it); [apply rsafe_err; intros [[=]|[= ->]]; done|]. apply IH.
Qed.

(** ** Postings *)

Lemma readPostings_loop_nonneg n : forall first prev d out, sound_decoder d -> 0 <= prev -> Forall (fun id => 0 <= id) out ->
  Forall (fun id => 0 <= id) (readPostings_loop n first prev d out).
Proof.
  induction n as [|n IH]; intros first prev d out Hd Hp Hout; cbn [readPostings_loop]; [done|]. field delta d1. destruct (failed d1); [done|].
  assert (Hn : 0 <= (if first then delta else uint64 (prev + delta))).
  { destruct first; [unfold is_u64 in *; lia|]. apply uint64_range. }
  apply IH; [done|done|]. apply Forall_app. split; [done|]. by apply Forall_cons_2.
Qed.

(** Also on a table that is not sorted. *)
Lemma Search_le n f : (Search n f <= n)%nat.
Proof.
  assert (H : forall fuel i j, (i <= j)%nat -> (Search_loop fuel f i j <= j)%nat); [|apply H; lia].
  induction fuel as [|fuel IH]; intros i j Hij; cbn [Search_loop]; [lia|].
  destruct (i <? j)%nat eqn:E; [|lia]. apply Nat.ltb_lt in E.
  assert (Hh : (i <= (i + j) / 2 < j)%nat) by (split; [apply Nat.div_le_lower_bound|apply Nat.div_lt_upper_bound]; lia).
  destruct (f _); [etrans; [apply IH|]; lia|apply IH; lia].
Qed.

Lemma SearchTry_safe n f : (forall i, (i < n)%nat -> is_Some (f i)) -> exists k, SearchTry n f = Some k /\ (k <= n)%nat.
Proof.
  intros Hf. rewrite (SearchTry_pure n f (fun i => default false (f i))); [eexists; split; [done|apply Search_le]|]. intros i Hi. by destruct (Hf i Hi) as [b ->].
Qed.
(** A search over the table, and the entry it stops at. *)
Lemma table_safe (r : indexReader) (test : tableEntry -> bool) :
  exists i, SearchTry (length (ir_table r)) (fun i => e ← table_at r i; Some (test e)) = Some i /\ (i <= length (ir_table r))%nat /\ (i <> length (ir_table r) -> exists e, table_at r i = Some e /\ e ∈ ir_table r).
Proof.
  destruct (SearchTry_safe (length (ir_table r)) (fun i => e ← table_at r i; Some (test e))) as (i & Hi & Hle).
  { intros i Hi. unfold table_at. destruct (lookup_lt_is_Some_2 _ _ Hi) as [e ->]. by eexists. }
  exists i. split; [done|]. split; [done|]. intros Hne. unfold table_at. destruct (lookup_lt_is_Some_2 (ir_table r) i ltac:(lia)) as [e He]. exists e. split; [done|by eapply list_elem_of_lookup_2].
Qed.

Lemma BPostings_safe r key value : reader_safe r -> exists ids, BPostings r key value = Ok ids /\ Forall (fun id => 0 <= id) ids.
Proof.
  intros [Hp Ht _ _]. unfold BPostings. destruct (ir_symID r !! key) as [k|]; [|by exists []]. destruct (ir_symID r !! value) as [v|]; [|by exists []].
  destruct (table_safe r (fun e => (k <? te_keySym e) || ((te_keySym e =? k) && (v <=? te_valSym e)))) as (i & -> & Hi & Hat). cbn [or_panic mbind result_bind].
  destruct (Nat.eqb_spec i (length (ir_table r))) as [|Hne]; [by exists []|]. destruct (Hat Hne) as (e & -> & He). cbn [or_panic mbind result_bind]. destruct (negb _ || negb _); [by exists []|].
  rewrite Forall_forall in Ht. pose proof (Ht e He) as Hin. unfold entry_in in Hin.
  unfold readPostings. destruct (slice_from_safe (ir_postings r) (te_off e)) as (bs & -> & _ & Hbs); [lia|done|]. cbn [mbind result_bind].
  assert (Hd : sound_decoder (MkDecoder bs None)) by done. field cnt d1. destruct (failed d1 || _); [by exists []|].
  eexists. split; [done|]. by apply readPostings_loop_nonneg.
Qed.
Lemma BTagValues_safe r key : exists vs, BTagValues r key = Ok vs.
Proof.
  unfold BTagValues. destruct (ir_symID r !! key) as [k|]; [|by exists []]. destruct (table_safe r (fun e => k <=? te_keySym e)) as (i & -> & _). cbn [or_panic mbind result_bind].
  rewrite values_at_run by done. by eexists.
Qed.
Lemma gallop_safe l target : is_Some (gallop_try l target).
Proof. destruct (gallop_try_spec l target) as (i & step & -> & _). by eexists. Qed.

(** Selection only returns ids the index gave it, sorted or not. *)
Section Ids.
Variable P : Z -> Prop.
Abbreviation all := (Forall P).

Lemma intersect_all_P fuel : forall a b, all a -> all (intersect_loop fuel a b).
Proof.
  induction fuel as [|fuel IH]; intros a b Ha; cbn [intersect_loop]; [constructor|]. destruct a as [|x a]; [constructor|]. destruct b as [|y b]; [constructor|].
  destruct (x =? y); [|destruct (x <? y); apply IH; [by apply Forall_drop|done]].
  apply Forall_cons_1 in Ha as [Hx Ha]. apply Forall_cons_2; [done|by apply IH].
Qed.

Lemma subtract_P a : forall b, all a -> all (subtract_loop a b).
Proof.
  induction a as [|x a IH]; intros b Ha; cbn [subtract_loop]; [constructor|]. apply Forall_cons_1 in Ha as [Hx Ha].
  destruct (skip_below b x) as [|y b']; [apply Forall_cons_2; [done|by apply IH]|]. destruct (y =? x); [by apply IH|apply Forall_cons_2; [done|by apply IH]].
Qed.

Lemma best_head_P lists : forall best, Forall (fun l => all l) lists -> (forall b, best = Some b -> P b) -> forall b, best_head lists best = Some b -> P b.
Proof.
  induction lists as [|[|x l] lists IH]; intros best Hl Hb b; cbn [best_head]; [apply Hb|apply IH; [by apply Forall_cons_1 in Hl as [_ ?]|done]|].
  apply Forall_cons_1 in Hl as [Hx Hl]. apply Forall_cons_1 in Hx as [Hx _]. apply IH; [done|]. intros c Hc. destruct best as [b0|]; [|injection Hc as <-; done].
  destruct (x <? b0); injection Hc as <-; [done|by apply Hb].
Qed.

Lemma merge_loop_P fuel : forall lists, Forall (fun l => all l) lists -> all (Index.merge_loop fuel lists).
Proof.
  induction fuel as [|fuel IH]; intros lists Hl; cbn [Index.merge_loop]; [constructor|]. destruct (best_head lists None) as [b|] eqn:E; [|constructor].
  apply Forall_cons_2; [by eapply best_head_P in E|]. apply IH. apply Forall_fmap. eapply Forall_impl; [exact Hl|]. intros [|x l] Hx; cbn; [constructor|].
  destruct (x =? b); [by apply Forall_cons_1 in Hx as [_ ?]|done].
Qed.

Lemma merge_postings_P lists : Forall (fun l => all l) lists -> all (merge_postings lists).
Proof.
  intros Hl. unfold merge_postings. destruct lists as [|l [|l' ls]]; [constructor|by apply Forall_cons_1 in Hl as [? _]|by apply merge_loop_P].
Qed.

Lemma IndexSelect_P `{Lookup X} (l : X) sel : (forall k v, all (Postings l k v)) -> all (AllSeries l) -> all (IndexSelect l sel).
Proof.
  intros Hp Ha. unfold IndexSelect.
  assert (Hu : forall k v, all (union_matching l k v)) by (intros k v; apply merge_postings_P, Forall_fmap, Forall_forall; intros; apply Hp).
  assert (Hsub : forall ms ids, all ids -> all (foldl (subtract_matcher l) ids ms)).
  { induction ms as [|m ms IH]; intros ids Hids; cbn [foldl]; [done|]. apply IH. unfold subtract_matcher, subtract. repeat case_match; try done; by apply subtract_P. }
  assert (Hpos : Forall (fun l => all l) (merge_sort shorter (positives l sel))).
  { rewrite merge_sort_Permutation. unfold positives. apply Forall_app. split.
    - destruct (sel_Metric sel); [constructor|]. apply Forall_cons_2; [apply Hp|constructor].
    - apply Forall_forall. intros ids (m & Hm & _)%list_elem_of_bind. destruct (m_Type m); try (by apply not_elem_of_nil in Hm);
        apply list_elem_of_singleton in Hm as ->; [apply Hp|apply Hu]. }
  assert (Hint : forall rest ids, all ids -> forall ids', intersect_all ids rest = Some ids' -> all ids').
  { induction rest as [|next rest IH]; intros ids Hids ids'; cbn [intersect_all]; [by intros [= <-]|].
    assert (Hi : all (intersect ids next)) by (by apply intersect_all_P). destruct (intersect ids next); [done|]. by apply IH. }
  destruct (merge_sort shorter _) as [|ids rest]; [by apply Hsub|]. apply Forall_cons_1 in Hpos as [Hids _].
  destruct (intersect_all ids rest) as [ids'|] eqn:E; [|constructor]. apply Hsub. by eapply Hint.
Qed.
End Ids.

Lemma list_safe (series : list blockSeries) id : 0 <= id -> (ulen series <=? id) = false -> is_Some (series !! Z.to_nat id).
Proof. intros H0 H%Z.leb_gt. apply lookup_lt_is_Some_2. unfold ulen in H. lia. Qed.

(** An open block, whatever its files hold. *)
Record block_safe (b : Block) : Prop := {
  bf_reader : reader_safe (blk_ix b);
  bf_bytes : bytes (blk_chunks b);
  bf_size : int_len (blk_chunks b);
}.

Lemma samples_safe b s from to : block_safe b -> s ∈ ir_series (blk_ix b) -> rsafe (samples b s from to).
Proof.
  intros [Hr Hb Hf] Hs. pose proof (rs_series _ Hr) as Hss. rewrite Forall_forall in Hss. unfold samples. by apply samples_loop_safe, (Hss s Hs).
Qed.

Lemma select_safe b sel from to : block_safe b -> rsafe (BlockSelect b sel from to).
Proof.
  intros Hb. unfold BlockSelect. destruct (negb _); [done|]. apply rsafe_bind; [|done].
  assert (Hids : Forall (fun id => 0 <= id) (IndexSelect (blk_ix b) sel)).
  { apply IndexSelect_P; [|apply Hb]. intros k v. cbn [Postings indexReader_Lookup]. destruct (BPostings_safe _ k v (bf_reader _ Hb)) as (ids & -> & ?). done. }
  induction Hids as [|id ids Hid Hids IH]; cbn [select_loop]; [done|]. destruct (_ <=? _) eqn:E; [auto with panic|].
  destruct (list_safe _ _ Hid E) as [s Es]. rewrite Es. apply rsafe_bind; [apply samples_safe; [done|by eapply list_elem_of_lookup_2]|].
  intros vs _. by apply rsafe_bind.
Qed.

Lemma seriesof_safe b metric : block_safe b -> rsafe (BSeriesOf b metric).
Proof.
  intros Hb. unfold BSeriesOf. cbn [Postings indexReader_Lookup]. destruct (BPostings_safe _ MetricName metric (bf_reader _ Hb)) as (ids & -> & Hids).
  induction Hids as [|id ids Hid Hids IH]; cbn [refs_of]; [done|]. destruct (_ <=? _) eqn:E; [auto with panic|].
  destruct (list_safe _ _ Hid E) as [s Es]. rewrite Es. by apply rsafe_bind.
Qed.

Lemma samplesfor_safe b key : block_safe b -> rsafe (SamplesFor b key).
Proof.
  intros Hb. unfold SamplesFor. set (ss := ir_series (blk_ix b)). destruct (SearchTry_safe (length ss) (fun i => s ← ss !! i; Some (bool_decide (str_le key (Key (bs_ref s)))))) as (i & -> & Hi).
  { intros i Hi. destruct (lookup_lt_is_Some_2 _ _ Hi) as [s ->]. by eexists. }
  cbn [or_panic file_result mbind result_bind]. destruct (Nat.eqb_spec i (length ss)) as [|Hne]; [done|]. destruct (lookup_lt_is_Some_2 ss i ltac:(lia)) as [s Es]. rewrite Es. cbn [or_panic file_result mbind result_bind].
  destruct (decide _); [|done]. apply samples_safe; [done|by eapply list_elem_of_lookup_2].
Qed.


(** A block that opens, with one byte of a chunk changed: a lookup past the last entry
    of the table, and a read of the damaged chunk. *)
Definition ex_files : block_files := default (MkBlockFiles (MkMeta 0 0 0 0 (MkBStats 0 0 0) 0 [] 0) [] []) (bw_published ex_run.1).
Definition hurt_files : block_files := MkBlockFiles (bf_meta ex_files) (bf_index ex_files) (<[9%nat := 77]> (bf_chunks ex_files)).
(** What they return. *)
Example hurt_reads : match BlockOpen hurt_files with
  | Ok b => BPostings (blk_ix b) (str "host") (str "prod") = Ok [] /\ (exists e, SamplesFor b (Key web_a) = Err (ErrFile e)) /\ SamplesFor b (Key db_a) = Ok [(15, 7)]
  | Err _ => False
  end.
Proof. vm_compute. split; [reflexivity|]. split; [by eexists|reflexivity]. Qed.
