(* ===== verification/BlockDir.v ===== *)
(** * The directory of blocks

    The calls that create, publish and delete a block's directory (write.go,
    block.go, meta.go), over a file system that may lose power.  An entry made,
    removed or renamed in a directory is on disk only once that directory has been
    synced, and until then a power cut keeps any part of the pending changes.  The
    contents of a file are on disk only once the file itself has been synced: a
    power cut leaves anything in a file that was written and not synced since. *)

From Stdlib Require Import ZArith.
From Stdlib Require Import (notations) String.
From stdpp Require Import base sorting gmap countable numbers list.
From S2P Require Import Prelude Gofloat Gostring Tsdb Compact BlockFile Block.

(** ** The file system *)

Inductive bfile := FChunks | FIndex | FMeta | FTomb.
#[global] Instance bfile_eq_dec : EqDecision bfile.
Proof. solve_decision. Defined.
#[global] Instance bfile_countable : Countable bfile.
Proof.
  refine (inj_countable' (fun f => match f with FChunks => 0%nat | FIndex => 1%nat | FMeta => 2%nat | FTomb => 3%nat end)
    (fun n => match n with 0%nat => FChunks | 1%nat => FIndex | 2%nat => FMeta | _ => FTomb end) _).
  by intros [].
Defined.

(** Contents: bytes, or the value of a meta.json ([None] when it does not parse). *)
Inductive fcontent := Bytes (b : list Z) | Json (m : option Meta).
Abbreviation bdir := (gmap bfile fcontent).

(** A file: what a reader finds in it, and whether it was synced since it was written. *)
Record file := MkFile { f_now : fcontent; f_synced : bool }.

(** A change of one directory's entries.  A file is known by the name it was made
    under and a number, so that a name can be used again by another file. *)
Inductive fop := Link (f : bfile) (k : nat) | Unlink (f : bfile).
Definition apply_fop (d : gmap bfile nat) (o : fop) : gmap bfile nat := match o with Link f k => <[f := k]> d | Unlink f => delete f d end.

(** A directory: its entries on disk, the changes of them not yet synced, and its files. *)
Record inode := MkInode { in_disk : gmap bfile nat; in_cache : list fop; in_files : gmap (bfile * nat) file }.
Definition in_entries (i : inode) : gmap bfile nat := foldl apply_fop (in_disk i) (in_cache i).
Definition in_view (i : inode) : bdir := map_imap (fun f k => f_now <$> in_files i !! (f, k)) (in_entries i).

(** The contents of the file of that name, which is made when there is none. *)
Definition set_file (f : bfile) (c : fcontent) (i : inode) : inode :=
  match in_entries i !! f with
  | Some k => MkInode (in_disk i) (in_cache i) (<[(f, k) := MkFile c false]> (in_files i))
  | None =>
      let k := size (in_files i) in
      MkInode (in_disk i) (in_cache i ++ [Link f k]) (<[(f, k) := MkFile c false]> (in_files i))
  end.
(** [f.Sync()] of a file: its contents, not its entry. *)
Definition sync_file (f : bfile) (i : inode) : inode :=
  match in_entries i !! f with
  | Some k => MkInode (in_disk i) (in_cache i) (alter (fun x => MkFile (f_now x) true) (f, k) (in_files i))
  | None => i
  end.
Definition remove_entry (f : bfile) (i : inode) : inode := MkInode (in_disk i) (in_cache i ++ [Unlink f]) (in_files i).
(** [f.Sync()] of a directory: its entries, not the contents of its files. *)
Definition sync_entries (i : inode) : inode := MkInode (in_entries i) [] (in_files i).

(** [<ulid>] and [<ulid>.tmp]; an id names one directory in its life. *)
Inductive dname := Named (id : Z) | Temp (id : Z).
#[global] Instance dname_eq_dec : EqDecision dname.
Proof. solve_decision. Defined.
#[global] Instance dname_countable : Countable dname.
Proof.
  refine (inj_countable' (fun n => match n with Named id => inl id | Temp id => inr id end)
    (fun x => match x with inl id => Named id | inr id => Temp id end) _).
  by intros [].
Defined.
Definition id_of (n : dname) : Z := match n with Named id | Temp id => id end.
(** Directories are listed by name. *)
Definition name_le (n n' : dname) : Prop :=
  id_of n < id_of n' \/ (id_of n = id_of n' /\ (n = n' \/ match n with Named _ => True | Temp _ => False end)).
#[global] Instance name_le_dec n n' : Decision (name_le n n').
Proof. unfold name_le. destruct n; apply _. Defined.

Inductive pop := Mkdir (n : dname) | Rmdir (n : dname) | Rename (id : Z).
Definition apply_pop (P : gset dname) (o : pop) : gset dname :=
  match o with
  | Mkdir n => {[ n ]} ∪ P
  | Rmdir n => P ∖ {[ n ]}
  | Rename id => if decide (Temp id ∈ P) then {[ Named id ]} ∪ (P ∖ {[ Temp id ]}) else P
  end.

Record FS := MkFS { pd_disk : gset dname; pd_cache : list pop; inodes : gmap Z inode }.
Definition names (s : FS) : gset dname := foldl apply_pop (pd_disk s) (pd_cache s).
Definition dir_of (s : FS) (n : dname) : bdir := match inodes s !! id_of n with Some i => in_view i | None => ∅ end.

Definition on_dir (id : Z) (g : inode -> inode) (s : FS) : FS := MkFS (pd_disk s) (pd_cache s) (alter g id (inodes s)).
Definition cache_name (o : pop) (s : FS) : FS := MkFS (pd_disk s) (pd_cache s ++ [o]) (inodes s).
Definition make_dir (id : Z) (s : FS) : FS := MkFS (pd_disk s) (pd_cache s ++ [Mkdir (Temp id)]) (<[id := MkInode ∅ [] ∅]> (inodes s)).
Definition flush_dir (id : Z) (s : FS) : FS := on_dir id sync_entries s.
Definition flush_names (s : FS) : FS := MkFS (names s) [] (inodes s).

(** What a power cut may leave: of the pending changes any part, of a file that was
    not synced anything. *)
Definition outcome {X O} (app : X -> O -> X) (disk : X) (cache : list O) (x : X) : Prop :=
  exists l, l `sublist_of` cache /\ x = foldl app disk l.
Definition file_outcome (x x' : option file) : Prop :=
  match x, x' with
  | Some x, Some x' => f_synced x' = true /\ (f_synced x = true -> f_now x' = f_now x)
  | None, None => True
  | _, _ => False
  end.
Definition power_cut (s s' : FS) : Prop :=
  outcome apply_pop (pd_disk s) (pd_cache s) (pd_disk s') /\ pd_cache s' = []
  /\ forall id, match inodes s !! id, inodes s' !! id with
                | Some i, Some i' => outcome apply_fop (in_disk i) (in_cache i) (in_disk i') /\ in_cache i' = []
                    /\ forall x, file_outcome (in_files i !! x) (in_files i' !! x)
                | None, None => True
                | _, _ => False
                end.

(** ** System calls *)

(** A call does what it should, or fails; a write fails after [k] bytes. *)
Inductive call := CallOk | CallFails (k : nat).
Record Env := MkEnv { fs : FS; calls : list call; stats : list bool }.

Inductive dir_error := NotExist | EIO.
Abbreviation DM := (SE Env dir_error).

Definition next_call : DM call := fun s =>
  match calls s with [] => (s, Ok CallOk) | c :: rest => (MkEnv (fs s) rest (stats s), Ok c) end.
Definition io_call : DM unit := c ← next_call; match c with CallOk => mret tt | CallFails _ => throw EIO end.
Definition on_fs (f : FS -> FS) : DM unit := fun s => (MkEnv (f (fs s)) (calls s) (stats s), Ok tt).
Definition try {A} (m : DM A) : DM (result dir_error A) := fun s => ((m s).1, Ok (m s).2).

(** [os.Stat(dir/f) == nil]; [Stat] can fail for another reason than absence. *)
Definition stat (n : dname) (f : bfile) : DM bool := fun s =>
  let there := bool_decide (n ∈ names (fs s)) && bool_decide (is_Some (dir_of (fs s) n !! f)) in
  match stats s with
  | [] => (s, Ok there)
  | ok :: rest => (MkEnv (fs s) (calls s) rest, Ok (ok && there))
  end.

(** Opening a file in the directory for writing, creating or emptying it. *)
Definition create (n : dname) (f : bfile) (c : fcontent) : DM unit :=
  s ← get;
  if decide (n ∈ names (fs s)) then _ ← io_call; on_fs (on_dir (id_of n) (set_file f c)) else throw NotExist.

Definition cut_content (k : nat) (c : fcontent) : fcontent := match c with Bytes b => Bytes (take k b) | Json _ => Json None end.
(** Writing the open file, whose contents become [c]. *)
Definition write_file (n : dname) (f : bfile) (c : fcontent) : DM unit :=
  o ← next_call;
  match o with
  | CallOk => on_fs (on_dir (id_of n) (set_file f c))
  | CallFails k => _ ← on_fs (on_dir (id_of n) (set_file f (cut_content k c))); throw EIO
  end.

Definition empty_content (c : fcontent) : fcontent := match c with Bytes _ => Bytes [] | Json _ => Json None end.
(** [f.Sync()] of the open file; after a failure nothing is known to be on disk. *)
Definition fsync (n : dname) (f : bfile) : DM unit := _ ← io_call; on_fs (on_dir (id_of n) (sync_file f)).
(** [writeFileSync]: create, write, sync, close. *)
Definition writeFileSync (n : dname) (f : bfile) (c : fcontent) : DM unit :=
  _ ← create n f (empty_content c); _ ← write_file n f c; _ ← fsync n f; io_call.

(** [syncDir]: open, sync, close; of a file system that can sync directories.  Entries
    only: the files in the directory are as durable as their own syncs made them. *)
Definition syncDir (n : dname) : DM unit :=
  s ← get;
  if decide (n ∈ names (fs s)) then _ ← io_call; _ ← io_call; _ ← on_fs (flush_dir (id_of n)); io_call else throw NotExist.
Definition syncParent : DM unit := _ ← io_call; _ ← io_call; _ ← on_fs flush_names; io_call.

(** [os.RemoveAll] of one file: absence is success. *)
Definition unlink (n : dname) (f : bfile) : DM unit :=
  s ← get;
  if bool_decide (n ∈ names (fs s)) && bool_decide (is_Some (dir_of (fs s) n !! f))
  then _ ← io_call; on_fs (on_dir (id_of n) (remove_entry f)) else mret tt.

(** Every file of the list, past the ones that resist; whether one did. *)
Fixpoint unlink_each (n : dname) (files : list bfile) : DM bool :=
  match files with
  | [] => mret false
  | f :: rest =>
      r ← try (unlink n f);
      e ← unlink_each n rest;
      mret (match r with Ok _ => e | Err _ => true end)
  end.

Definition rmdir (n : dname) : DM unit :=
  s ← get;
  if decide (dir_of (fs s) n = ∅) then _ ← io_call; on_fs (cache_name (Rmdir n)) else throw EIO.

(** [os.RemoveAll] of a directory, in the order the file system lists it. *)
Definition RemoveAll (order : list bfile) (n : dname) : DM unit :=
  s ← get;
  if decide (n ∈ names (fs s)) then
    failed ← unlink_each n order;
    if failed : bool then throw EIO else rmdir n
  else mret tt.

Definition all_files : list bfile := [FChunks; FIndex; FMeta; FTomb].
Definition ReadDir (n : dname) : DM (list bfile) :=
  s ← get;
  if decide (n ∈ names (fs s)) then _ ← io_call; mret (filter (fun f => is_Some (dir_of (fs s) n !! f)) all_files) else throw NotExist.
Definition ReadNames : DM (list dname) := _ ← io_call; s ← get; mret (merge_sort name_le (elements (names (fs s)))).

(** ** Deleting a block *)

Section Order.
Context (order : list bfile).

Definition removeCondemned (n : dname) : DM unit :=
  _ ← unlink n FMeta;
  r ← try (syncDir n);
  match r with
  | Err NotExist => mret tt
  | Err e => throw e
  | Ok _ =>
      entries ← ReadDir n;
      failed ← unlink_each n entries;
      if failed : bool then throw EIO else RemoveAll order n
  end.

Definition ignore_missing (m : DM unit) : DM unit :=
  r ← try m;
  match r with Ok _ | Err NotExist => mret tt | Err e => throw e end.

(** [deleted\n] *)
Definition tombstone : list Z := str "deleted" ++ [10].
Definition Delete (id : Z) : DM unit :=
  let dir := Named id in
  _ ← ignore_missing (writeFileSync dir FTomb (Bytes tombstone));
  _ ← ignore_missing (syncDir dir);
  _ ← removeCondemned dir;
  syncParent.

(** [DeleteSources]: every source, past the ones that resist. *)
Fixpoint DeleteSources (sources : list Z) : DM bool :=
  match sources with
  | [] => mret false
  | id :: rest => r ← try (Delete id); e ← DeleteSources rest; mret (match r with Ok _ => e | Err _ => true end)
  end.

(** ** Startup *)

Definition Condemned (n : dname) : DM bool := stat n FTomb.

(** The loop of both cleanings: remove the directories a test picks. *)
Fixpoint clean_each (test : dname -> DM bool) (remove : dname -> DM unit) (ns : list dname) : DM (list dname) :=
  match ns with
  | [] => mret []
  | n :: rest =>
      c ← test n;
      if c : bool then _ ← remove n; removed ← clean_each test remove rest; mret (n :: removed)
      else clean_each test remove rest
  end.
Definition sync_removed (removed : list dname) : DM (list dname) :=
  match removed with [] => mret [] | _ => _ ← syncParent; mret removed end.
Definition CleanCondemned : DM (list dname) := ns ← ReadNames; removed ← clean_each Condemned removeCondemned ns; sync_removed removed.

(** The test of [CleanTmp]: a directory that is not a block. *)
Definition incomplete (n : dname) : DM bool :=
  match n with Temp _ => mret true | Named _ => there ← stat n FMeta; mret (negb there) end.
Definition CleanTmp : DM (list dname) := ns ← ReadNames; removed ← clean_each incomplete (RemoveAll order) ns; sync_removed removed.

(** Reading the files of one block; the contents are judged by [BlockOpen]. *)
Definition read_block (n : dname) : DM block_files := fun s =>
  match dir_of (fs s) n !! FMeta, dir_of (fs s) n !! FIndex, dir_of (fs s) n !! FChunks with
  | Some (Json (Some m)), Some (Bytes ix), Some (Bytes ch) => (s, Ok (MkBlockFiles m ix ch))
  | _, _, _ => (s, Err NotExist)
  end.
(** The directories [OpenAll] opens. *)
Fixpoint read_blocks (ns : list dname) : DM (list block_files) :=
  match ns with
  | [] => mret []
  | Temp _ :: rest => read_blocks rest
  | (Named _ as n) :: rest =>
      there ← stat n FMeta;
      if there : bool then f ← read_block n; fs ← read_blocks rest; mret (f :: fs) else read_blocks rest
  end.
(** What [Open] does to the directory before it opens the log. *)
Definition startup_files : DM (list block_files) :=
  _ ← CleanCondemned; _ ← CleanTmp; ns ← ReadNames; read_blocks ns.

(** ** Writing a block *)

Fixpoint append_chunks (n : dname) (written : list Z) (parts : list (list Z)) : DM unit :=
  match parts with
  | [] => mret tt
  | p :: rest => _ ← write_file n FChunks (Bytes (written ++ p)); append_chunks n (written ++ p) rest
  end.

(** The files, then the directory, then the rename: [NewWriter] to [Close]. *)
Definition fill_and_rename (id : Z) (f : block_files) (parts : list (list Z)) : DM unit :=
  let tmp := Temp id in
  _ ← create tmp FChunks (Bytes []);
  _ ← append_chunks tmp [] parts;
  _ ← fsync tmp FChunks; _ ← io_call;
  _ ← writeFileSync tmp FIndex (Bytes (bf_index f));
  _ ← writeFileSync tmp FMeta (Json (Some (bf_meta f)));
  _ ← syncDir tmp;
  _ ← io_call; on_fs (cache_name (Rename id)).

(** Any failure before the rename takes the directory away again. *)
Definition write_dir (id : Z) (f : block_files) (parts : list (list Z)) : DM unit :=
  _ ← io_call; _ ← on_fs (make_dir id);
  r ← try (fill_and_rename id f parts);
  match r with
  | Err e => _ ← try (RemoveAll order (Temp id)); throw e
  | Ok _ => syncParent
  end.

End Order.
