(* ===== verification/BlockDirCrash.v ===== *)
(** * Startup on a directory of blocks

    The cleaning loops, the publication of a block, and the theorem: over any
    history of writes, deletions, cleanings and power cuts, startup finds exactly
    whole blocks, and every block that was published and not deleted. *)

From Stdlib Require Import ZArith Lia.
From stdpp Require Import base sorting gmap countable numbers list relations.
From S2P Require Import Prelude Gofloat Gostring Tsdb Compact BlockFile Block BlockDir.

(** * The directory of blocks survives power cuts

    Whatever calls fail and wherever the power is cut, a directory with a meta.json
    is a whole block; the blocks published and not asked to be deleted are there,
    and startup finds them. *)

(** ** Postconditions of computations *)

Definition wp {S E A} (m : SE S E A) (Q : result E A -> S -> Prop) (s : S) : Prop := Q (m s).2 (m s).1.

Section Wp.
Context {S E : Type}.

Lemma wp_mono {A} (m : SE S E A) (Q Q' : result E A -> S -> Prop) s : wp m Q s -> (forall r s', Q r s' -> Q' r s') -> wp m Q' s.
Proof. unfold wp. auto. Qed.
Lemma wp_ret {A} (a : A) (Q : result E A -> S -> Prop) s : Q (Ok a) s -> wp (mret a) Q s.
Proof. done. Qed.
Lemma wp_throw {A} (e : E) (Q : result E A -> S -> Prop) s : Q (Err e) s -> wp (throw e) Q s.
Proof. done. Qed.
Lemma wp_get (Q : result E S -> S -> Prop) s : Q (Ok s) s -> wp get Q s.
Proof. done. Qed.
Lemma wp_bind {A B} (m : SE S E A) (f : A -> SE S E B) (Q : result E B -> S -> Prop) s :
  wp m (fun r s' => match r with Ok a => wp (f a) Q s' | Err e => Q (Err e) s' end) s -> wp (m ≫= f) Q s.
Proof. unfold wp, mbind, SE_bind. by destruct (m s) as [s' [a|e]]. Qed.
End Wp.

Lemma wp_try {A} (m : DM A) Q s : wp m (fun r s' => Q (Ok r) s') s -> wp (try m) Q s.
Proof. done. Qed.
Lemma wp_fs f Q s : Q (Ok tt) (MkEnv (f (fs s)) (calls s) (stats s)) -> wp (on_fs f) Q s.
Proof. done. Qed.

(** ** Outcomes of a power cut *)

Section Outcomes.
Context {X O : Type} (app : X -> O -> X).

Lemma outcome_view x cache : outcome app x cache (foldl app x cache).
Proof. by exists cache. Qed.

Lemma outcome_nil x y : outcome app x [] y <-> y = x.
Proof. split; [|intros ->; by exists []]. intros (l & Hl & ->). by apply sublist_nil_r in Hl as ->. Qed.

Lemma outcome_snoc x cache o y : outcome app x (cache ++ [o]) y <-> outcome app x cache y \/ exists z, outcome app x cache z /\ y = app z o.
Proof.
  split.
  - intros (l & Hl & ->). apply sublist_app_r in Hl as (l1 & l2 & -> & H1 & H2). apply sublist_cons_r in H2 as [H2|(l3 & -> & H2)]; apply sublist_nil_r in H2 as ->.
    + left. exists l1. by rewrite app_nil_r.
    + right. exists (foldl app x l1). split; [by exists l1|]. by rewrite foldl_app.
  - intros [(l & Hl & ->)|(z & (l & Hl & ->) & ->)].
    + exists l. split; [|done]. by apply sublist_inserts_r.
    + exists (l ++ [o]). split; [by apply sublist_app|by rewrite foldl_app].
Qed.
End Outcomes.

(** The directories a power cut may leave, and the entries of one of them. *)
Definition names_may (s : FS) (P : gset dname) : Prop := outcome apply_pop (pd_disk s) (pd_cache s) P.
Definition shows (i : inode) (en : gmap bfile nat) (e : bdir) : Prop := forall f,
  match en !! f ≫= (fun k => in_files i !! (f, k)) with
  | Some x => exists c, e !! f = Some c /\ (f_synced x = true -> c = f_now x)
  | None => e !! f = None
  end.
Definition dir_may (i : inode) (e : bdir) : Prop := exists en, outcome apply_fop (in_disk i) (in_cache i) en /\ shows i en e.

Lemma names_may_view s : names_may s (names s).
Proof. apply outcome_view. Qed.
Lemma view_lookup i f : in_view i !! f = f_now <$> (in_entries i !! f ≫= (fun k => in_files i !! (f, k))).
Proof. unfold in_view. rewrite map_lookup_imap. by destruct (in_entries i !! f). Qed.
Lemma dir_may_view i : dir_may i (in_view i).
Proof.
  exists (in_entries i). split; [apply outcome_view|]. intros f. rewrite view_lookup. destruct (_ ≫= _) as [x|]; [|done]. by exists (f_now x).
Qed.

(** ** The invariant *)

Definition files_dir (f : block_files) : bdir :=
  {[ FChunks := Bytes (bf_chunks f); FIndex := Bytes (bf_index f); FMeta := Json (Some (bf_meta f)) ]}.
(** A whole block, marked for deletion or not. *)
Definition whole (f : block_files) (e : bdir) : Prop := delete FTomb e = files_dir f.
Definition good (f : block_files) (e : bdir) : Prop := e !! FMeta = None \/ whole f e.

(** No power cut leaves the final name; no power cut leaves a meta.json. *)
Definition hidden (id : Z) (s : FS) : Prop := forall P, names_may s P -> Named id ∉ P.
Definition gone (id : Z) (s : FS) : Prop := forall i e, inodes s !! id = Some i -> dir_may i e -> e !! FMeta = None.

(** [pub]: what was written under each id; [must]: the ids published and not asked to
    be deleted since. *)
Record dir_inv (pub : gmap Z block_files) (must : gset Z) (s : FS) : Prop := {
  dv_named id P : names_may s P -> Named id ∈ P ->
    exists f i, pub !! id = Some f /\ inodes s !! id = Some i /\ forall e, dir_may i e -> good f e;
  dv_must id : id ∈ must -> (forall P, names_may s P -> Named id ∈ P)
    /\ exists f i, pub !! id = Some f /\ inodes s !! id = Some i /\ forall e, dir_may i e -> e = files_dir f;
  dv_used n P : names_may s P -> n ∈ P -> is_Some (pub !! id_of n) /\ is_Some (inodes s !! id_of n);
  dv_one id P : names_may s P -> Temp id ∈ P -> Named id ∈ P -> False;
  dv_temp id : Temp id ∈ names s -> hidden id s;
  dv_tomb id i : Named id ∈ names s -> inodes s !! id = Some i -> in_view i !! FMeta = None -> is_Some (in_view i !! FTomb) \/ gone id s;
}.

(** ** What each change of the file system does to it *)

(** *** What may be left after each change of a directory *)

Lemma may_remove f i e : dir_may (remove_entry f i) e -> dir_may i e \/ exists e0, dir_may i e0 /\ e = delete f e0.
Proof.
  intros (en & Ho & Hs). apply outcome_snoc in Ho as [Ho|(en0 & Ho & ->)]; [left; by exists en|right].
  set (x0 := en0 !! f ≫= (fun k => in_files i !! (f, k))). exists (match x0 with Some x => <[f := f_now x]> e | None => e end).
  assert (He : e !! f = None) by (specialize (Hs f); cbn in Hs; by rewrite lookup_delete_eq in Hs). split.
  - exists en0. split; [done|]. intros g. destruct (decide (g = f)) as [->|Hne].
    + fold x0. destruct x0 as [x|]; [|done]. exists (f_now x). by rewrite lookup_insert_eq.
    + specialize (Hs g). cbn [apply_fop] in Hs. rewrite lookup_delete_ne in Hs by done. cbn in Hs. replace ((match x0 with Some x => <[f := f_now x]> e | None => e end) !! g) with (e !! g); [done|]. destruct x0; [by rewrite lookup_insert_ne|done].
  - destruct x0; [by rewrite delete_insert_eq, delete_id|by rewrite delete_id].
Qed.

Lemma entries_remove f i : in_entries (remove_entry f i) = delete f (in_entries i).
Proof. unfold in_entries. cbn. by rewrite foldl_app. Qed.
Lemma view_remove f i : in_view (remove_entry f i) = delete f (in_view i).
Proof.
  apply map_eq. intros g. rewrite view_lookup, entries_remove. cbn [remove_entry in_files]. destruct (decide (g = f)) as [->|Hne]; [by rewrite !lookup_delete_eq|].
  by rewrite !lookup_delete_ne, view_lookup by done.
Qed.

(** The file [f] has other contents; the rest of the directory is as it was. *)
Lemma set_spec f c i : exists k, in_files (set_file f c i) = <[(f, k) := MkFile c false]> (in_files i) /\ in_entries (set_file f c i) = <[f := k]> (in_entries i)
  /\ forall en, outcome apply_fop (in_disk (set_file f c i)) (in_cache (set_file f c i)) en -> exists en0, outcome apply_fop (in_disk i) (in_cache i) en0 /\ forall g, g <> f -> en !! g = en0 !! g.
Proof.
  unfold set_file. destruct (in_entries i !! f) as [k|] eqn:E.
  - exists k. split; [done|]. split; [symmetry; by apply insert_id|]. intros en He. by exists en.
  - exists (size (in_files i)). split; [done|]. split; [unfold in_entries; cbn; by rewrite foldl_app|]. intros en He. apply outcome_snoc in He as [He|(en0 & He & ->)]; [by exists en|]. exists en0. split; [done|]. intros g Hg. cbn. by rewrite lookup_insert_ne.
Qed.
Lemma may_set f c i e : dir_may (set_file f c i) e -> exists e0, dir_may i e0 /\ delete f e = delete f e0.
Proof.
  intros (en & Ho & Hs). destruct (set_spec f c i) as (k & Ef & _ & Hen). destruct (Hen en Ho) as (en0 & Ho0 & Heq).
  set (x0 := en0 !! f ≫= (fun k => in_files i !! (f, k))). exists (match x0 with Some x => <[f := f_now x]> e | None => delete f e end). split.
  - exists en0. split; [done|]. intros g. destruct (decide (g = f)) as [->|Hne].
    + fold x0. destruct x0 as [x|]; [exists (f_now x); by rewrite lookup_insert_eq|apply lookup_delete_eq].
    + specialize (Hs g). rewrite Heq, Ef in Hs by done. replace ((match x0 with Some x => <[f := f_now x]> e | None => delete f e end) !! g) with (e !! g) by (destruct x0; [by rewrite lookup_insert_ne|by rewrite lookup_delete_ne]).
      destruct (en0 !! g) as [k'|]; cbn in *; [|done]. rewrite lookup_insert_ne in Hs by congruence. done.
  - destruct x0; [by rewrite delete_insert_eq|symmetry; apply delete_id, lookup_delete_eq].
Qed.
Lemma view_set f c i : in_view (set_file f c i) = <[f := c]> (in_view i).
Proof.
  destruct (set_spec f c i) as (k & Ef & Ee & _). apply map_eq. intros g. rewrite view_lookup, Ee, Ef. destruct (decide (g = f)) as [->|Hne].
  - rewrite !lookup_insert_eq. cbn. by rewrite lookup_insert_eq.
  - rewrite !lookup_insert_ne, view_lookup by done. destruct (in_entries i !! g) as [k'|]; [|done]. cbn. by rewrite lookup_insert_ne by congruence.
Qed.

(** Syncs take away possibilities and change nothing a reader sees. *)
Lemma sync_entries_of f i : in_entries (sync_file f i) = in_entries i.
Proof. unfold sync_file. by destruct (in_entries i !! f). Qed.
Lemma sync_lookup f i x y : in_files (sync_file f i) !! x = Some y -> exists y0, in_files i !! x = Some y0 /\ f_now y = f_now y0 /\ (f_synced y0 = true -> f_synced y = true).
Proof.
  unfold sync_file. destruct (in_entries i !! f) as [k|]; [|by eauto]. cbn. rewrite lookup_alter_Some. intros [(<- & y0 & Hy & ->)|[_ Hy]]; by eauto.
Qed.
Lemma sync_absent f i x : in_files (sync_file f i) !! x = None <-> in_files i !! x = None.
Proof. unfold sync_file. destruct (in_entries i !! f) as [k|]; [|done]. cbn. by rewrite lookup_alter_None. Qed.
Lemma may_sync f i e : dir_may (sync_file f i) e -> dir_may i e.
Proof.
  intros (en & Ho & Hs). exists en. split; [unfold sync_file in Ho; by destruct (in_entries i !! f)|]. intros g. specialize (Hs g). destruct (en !! g) as [k|]; [|done]. cbn in *.
  destruct (in_files (sync_file f i) !! (g, k)) as [y|] eqn:E.
  - destruct (sync_lookup _ _ _ _ E) as (y0 & -> & En & Hsy). destruct Hs as (c & Hc & Hs). exists c. split; [done|]. rewrite <- En. auto.
  - apply sync_absent in E. by rewrite E.
Qed.
Lemma view_sync f i : in_view (sync_file f i) = in_view i.
Proof.
  apply map_eq. intros g. rewrite !view_lookup, sync_entries_of. destruct (in_entries i !! g) as [k|]; [|done]. cbn. destruct (in_files (sync_file f i) !! (g, k)) as [y|] eqn:E.
  - destruct (sync_lookup _ _ _ _ E) as (y0 & -> & En & _). cbn. by rewrite En.
  - apply sync_absent in E. by rewrite E.
Qed.
Lemma may_flush i e : dir_may (sync_entries i) e -> dir_may i e.
Proof. intros (en & Ho & Hs). apply outcome_nil in Ho. cbn in Ho. subst en. exists (in_entries i). split; [apply outcome_view|done]. Qed.
Lemma view_flush i : in_view (sync_entries i) = in_view i.
Proof. done. Qed.

(** Once the entries are on disk a power cut leaves the same names; when the files are
    too, it leaves what is there. *)
Lemma flushed_names_may i e f : in_cache i = [] -> dir_may i e -> e !! f = None <-> in_view i !! f = None.
Proof.
  intros Hc (en & Ho & Hs). unfold in_view, in_entries. rewrite Hc in *. apply outcome_nil in Ho as ->. rewrite map_lookup_imap. specialize (Hs f). cbn [foldl].
  destruct (in_disk i !! f) as [k|]; cbn in *; [|done]. destruct (in_files i !! (f, k)) as [x|]; cbn; [|done]. destruct Hs as (c & -> & _). done.
Qed.
Definition clean (f : bfile) (i : inode) : Prop := forall k x, in_entries i !! f = Some k -> in_files i !! (f, k) = Some x -> f_synced x = true.
Lemma clean_may i e : in_cache i = [] -> (forall f, clean f i) -> dir_may i e -> e = in_view i.
Proof.
  intros Hc Hcl (en & Ho & Hs). rewrite Hc in Ho. apply outcome_nil in Ho. assert (Een : en = in_entries i) by (unfold in_entries; by rewrite Hc). subst en. apply map_eq. intros f.
  rewrite view_lookup. specialize (Hs f). specialize (Hcl f). unfold clean in Hcl. rewrite <- Een in *. destruct (in_disk i !! f) as [k|]; cbn in *; [|done]. destruct (in_files i !! (f, k)) as [x|] eqn:E; [|done].
  destruct Hs as (c & -> & Hx). cbn. f_equal. exact (Hx (Hcl k x eq_refl E)).
Qed.
Lemma clean_synced f i : clean f (sync_file f i).
Proof. intros k x. rewrite sync_entries_of. intros E. unfold sync_file. rewrite E. cbn. rewrite lookup_alter_eq. by intros (y & _ & ->)%fmap_Some. Qed.
Lemma clean_sync f g i : clean g i -> clean g (sync_file f i).
Proof. intros H k x. rewrite sync_entries_of. intros E (y0 & Ey & _ & Hs)%sync_lookup. by eapply Hs, H. Qed.
Lemma clean_set f c g i : g <> f -> clean g i -> clean g (set_file f c i).
Proof.
  intros Hne H k x. destruct (set_spec f c i) as (k' & -> & -> & _). rewrite lookup_insert_ne by done. intros E. rewrite lookup_insert_ne by congruence. by apply H.
Qed.
Lemma clean_flush g i : clean g i -> clean g (sync_entries i).
Proof. done. Qed.

Lemma touched s id g j i' : inodes (on_dir id g s) !! j = Some i' ->
  (j = id /\ exists i, inodes s !! id = Some i /\ i' = g i) \/ (j <> id /\ inodes s !! j = Some i').
Proof.
  cbn. intros H. destruct (decide (j = id)) as [->|Hne]; [left|right; by rewrite lookup_alter_ne in H by congruence].
  split; [done|]. rewrite lookup_alter_eq in H. apply fmap_Some in H as (i & Hi & ->). eauto.
Qed.

(** The changes of files an id in a given state admits. *)
Inductive admits (s : FS) (id : Z) : (inode -> inode) -> Prop :=
| adm_hidden g : hidden id s -> admits s id g
| adm_gone f : gone id s -> admits s id (remove_entry f)
| adm_mark c : admits s id (set_file FTomb c)
| adm_meta : (forall i, inodes s !! id = Some i -> is_Some (in_view i !! FTomb)) -> admits s id (remove_entry FMeta).

Lemma hidden_file id id' g s : hidden id s -> hidden id (on_dir id' g s).
Proof. done. Qed.

Lemma gone_unlink s id id' f : gone id s -> gone id (on_dir id' (remove_entry f) s).
Proof.
  intros Hg i' e Hi He. apply touched in Hi as [(-> & i & Hi & ->)|[_ Hi]]; [|by eapply Hg].
  apply may_remove in He as [He|(e0 & He & ->)]; [by eapply Hg|]. destruct (decide (f = FMeta)) as [->|Hne]; [apply lookup_delete_eq|]. rewrite lookup_delete_ne by done. by eapply Hg.
Qed.

Lemma good_same f e e0 : delete FTomb e = delete FTomb e0 -> good f e0 -> good f e.
Proof.
  intros E [H|H]; [left|right; unfold whole in *; congruence]. assert (Hl : delete FTomb e !! FMeta = delete FTomb e0 !! FMeta) by (by rewrite E). by rewrite !lookup_delete_ne, H in Hl by done.
Qed.

(** Whatever an admitted change may leave under the final name is good. *)
Lemma admits_good s id g f i P : admits s id g -> names_may s P -> Named id ∈ P -> inodes s !! id = Some i -> (forall e, dir_may i e -> good f e) ->
  forall e, dir_may (g i) e -> good f e.
Proof.
  intros Ha HP Hn Hi Hg e He. destruct Ha as [g Hh|f' Hgo|c|_].
  - by destruct (Hh P HP).
  - apply may_remove in He as [He|(e0 & He & ->)]; [by apply Hg|]. left. rewrite lookup_delete_None. right. by eapply Hgo.
  - apply may_set in He as (e0 & He & E). by eapply good_same, Hg.
  - apply may_remove in He as [He|(e0 & He & ->)]; [by apply Hg|]. left. apply lookup_delete_eq.
Qed.

Lemma inv_file pub must s id g : dir_inv pub must s -> id ∉ must -> admits s id g -> dir_inv pub must (on_dir id g s).
Proof.
  intros [V1 V2 V3 V4 V5 V6] Hm Ha. split.
  - intros j P HP Hn. destruct (V1 j P HP Hn) as (f & i & Hf & Hi & Hg). exists f. destruct (decide (j = id)) as [->|Hne].
    + exists (g i). split; [done|]. split; [cbn; by rewrite lookup_alter_eq, Hi|]. by eapply admits_good.
    + exists i. split; [done|]. split; [cbn; by rewrite lookup_alter_ne|done].
  - intros j Hj. destruct (V2 j Hj) as (HP & f & i & Hf & Hi & Hg). split; [done|]. exists f, i. split; [done|]. split; [|done].
    cbn. rewrite lookup_alter_ne by (intros ->; done). done.
  - intros n P HP Hn. destruct (V3 n P HP Hn) as [H1 H2]. split; [done|]. cbn. by apply lookup_alter_is_Some.
  - done.
  - done.
  - intros j i' Hn Hi Hv. apply touched in Hi as [(-> & i & Hi & ->)|[Hne Hi]].
    + destruct Ha as [g Hh|f' Hgo|c|Ht].
      * by destruct (Hh _ (names_may_view s)).
      * right. by apply gone_unlink.
      * left. rewrite view_set, lookup_insert_eq. by eexists.
      * left. rewrite view_remove, lookup_delete_ne by done. by apply Ht.
    + destruct (V6 j i' Hn Hi Hv) as [H|H]; [by left|right]. intros i2 e Hi2 He. apply touched in Hi2 as [[-> _]|[_ Hi2]]; [done|]. by eapply H.
Qed.

Lemma names_may_snoc s o P : names_may (cache_name o s) P <-> names_may s P \/ exists P0, names_may s P0 /\ P = apply_pop P0 o.
Proof. apply outcome_snoc. Qed.

Lemma names_snoc s o : names (cache_name o s) = apply_pop (names s) o.
Proof. unfold names. cbn. by rewrite foldl_app. Qed.

(** A name removed. *)
Lemma names_rmdir s n P : names_may (cache_name (Rmdir n) s) P -> exists P0, names_may s P0 /\ P ⊆ P0 /\ (forall n', n' <> n -> n' ∈ P0 -> n' ∈ P).
Proof. intros [HP|(P0 & HP & ->)]%names_may_snoc; [by exists P|]. exists P0. cbn. split; [done|]. set_solver. Qed.

Lemma inv_rmdir pub must s n : dir_inv pub must s -> id_of n ∉ must -> dir_inv pub must (cache_name (Rmdir n) s).
Proof.
  intros [V1 V2 V3 V4 V5 V6] Hm. split.
  - intros j P HP Hn. apply names_rmdir in HP as (P0 & HP & Hsub & _). apply (V1 j P0 HP). set_solver.
  - intros j Hj. destruct (V2 j Hj) as [HP Hrest]. split; [|done]. intros P (P0 & HP0 & _ & Hback)%names_rmdir. apply Hback; [|by apply HP].
    intros <-. done.
  - intros n' P (P0 & HP & Hsub & _)%names_rmdir Hn. apply (V3 n' P0 HP). set_solver.
  - intros j P (P0 & HP & Hsub & _)%names_rmdir H1 H2. apply (V4 j P0 HP); set_solver.
  - intros j Hj P (P0 & HP & Hsub & _)%names_rmdir Hn. rewrite names_snoc in Hj. cbn in Hj. apply (V5 j ltac:(set_solver) P0 HP). set_solver.
  - intros j i Hn Hi Hv. rewrite names_snoc in Hn. cbn in Hn. apply (V6 j i); [set_solver|done|done].
Qed.

(** Part of what was pending settles: a sync, or a power cut. *)
Record settles (s s' : FS) : Prop := {
  se_names P : names_may s' P -> names_may s P;
  se_view : names s' = names s \/ pd_cache s' = [];
  se_inode id : match inodes s !! id, inodes s' !! id with
                | Some i, Some i' => (forall e, dir_may i' e -> dir_may i e) /\ (in_cache i' = [] \/ (names s' = names s /\ in_view i' = in_view i))
                | None, None => True
                | _, _ => False
                end;
}.

Lemma settles_inode s s' id i' : settles s s' -> inodes s' !! id = Some i' ->
  exists i, inodes s !! id = Some i /\ (forall e, dir_may i' e -> dir_may i e) /\ (in_cache i' = [] \/ (names s' = names s /\ in_view i' = in_view i)).
Proof. intros Hs Hi. pose proof (se_inode _ _ Hs id) as H. rewrite Hi in H. destruct (inodes s !! id) as [i|]; [|done]. eauto. Qed.
Lemma settles_inode' s s' id i : settles s s' -> inodes s !! id = Some i -> exists i', inodes s' !! id = Some i' /\ forall e, dir_may i' e -> dir_may i e.
Proof. intros Hs Hi. pose proof (se_inode _ _ Hs id) as H. rewrite Hi in H. destruct (inodes s' !! id) as [i'|]; [|done]. exists i'. split; [done|apply H]. Qed.

Lemma hidden_settles id s s' : settles s s' -> hidden id s -> hidden id s'.
Proof. intros Hs Hh P HP. by apply Hh, (se_names _ _ Hs). Qed.
Lemma gone_settles id s s' : settles s s' -> gone id s -> gone id s'.
Proof. intros Hs Hg i' e Hi He. destruct (settles_inode _ _ _ _ Hs Hi) as (i & Hi0 & Hd & _). by apply (Hg i); [|apply Hd]. Qed.

Lemma inv_settles pub must s s' : dir_inv pub must s -> settles s s' -> dir_inv pub must s'.
Proof.
  intros [V1 V2 V3 V4 V5 V6] Hs. pose proof (se_names _ _ Hs) as HN. split.
  - intros j P HP Hn. destruct (V1 j P (HN _ HP) Hn) as (f & i & Hf & Hi & Hg). destruct (settles_inode' _ _ _ _ Hs Hi) as (i' & Hi' & Hd). eauto 10.
  - intros j Hj. destruct (V2 j Hj) as (HP & f & i & Hf & Hi & Hg). split; [by intros P H%HN; apply HP|]. destruct (settles_inode' _ _ _ _ Hs Hi) as (i' & Hi' & Hd). eauto 10.
  - intros n P HP Hn. destruct (V3 n P (HN _ HP) Hn) as [H1 [i H2]]. split; [done|]. destruct (settles_inode' _ _ _ _ Hs H2) as (i' & Hi' & _). by eexists.
  - intros j P HP. by apply V4, HN.
  - intros j Hj. destruct (se_view _ _ Hs) as [E|E]; [rewrite E in Hj; by eapply hidden_settles; [|apply V5]|].
    intros P HP Hn. unfold names_may in HP. rewrite E in HP. apply outcome_nil in HP. unfold names in Hj. rewrite E in Hj. cbn in Hj. subst P.
    eapply (V4 j (pd_disk s')); [|done..]. apply HN. unfold names_may. rewrite E. by apply outcome_nil.
  - intros j i' Hn Hi Hv. destruct (settles_inode _ _ _ _ Hs Hi) as (i & Hi0 & Hd & [E|[En E]]).
    + right. intros i2 e Hi2 He. rewrite Hi in Hi2. injection Hi2 as <-. by apply (flushed_names_may i' e).
    + rewrite E in *. rewrite En in Hn. destruct (V6 j i Hn Hi0 Hv) as [H|H]; [by left|right]. by eapply gone_settles.
Qed.

Lemma may_power i i' e : outcome apply_fop (in_disk i) (in_cache i) (in_disk i') -> in_cache i' = [] -> (forall x, file_outcome (in_files i !! x) (in_files i' !! x)) ->
  dir_may i' e -> dir_may i e.
Proof.
  intros Ho Hc Hf (en & He & Hs). rewrite Hc in He. apply outcome_nil in He as ->. exists (in_disk i'). split; [done|]. intros f. specialize (Hs f). destruct (in_disk i' !! f) as [k|]; cbn in *; [|done].
  specialize (Hf (f, k)). destruct (in_files i !! (f, k)) as [x|], (in_files i' !! (f, k)) as [x'|]; cbn in *; try done. destruct Hf as [Hx' Hx], Hs as (c & Hc' & Hs). exists c. split; [done|]. intros Hsx. rewrite <- Hx by done. auto.
Qed.
Lemma settles_power s s' : power_cut s s' -> settles s s'.
Proof.
  intros (HP & Hc & Hi). split; [|by right|].
  - intros P H. unfold names_may in H. rewrite Hc in H. by apply outcome_nil in H as ->.
  - intros id. specialize (Hi id). destruct (inodes s !! id) as [i|], (inodes s' !! id) as [i'|]; try done. destruct Hi as (Ho & Hc' & Hf). split; [|by left].
    intros e. by apply may_power.
Qed.

Lemma settles_flush_names s : settles s (flush_names s).
Proof.
  split; [|by right|].
  - intros P HP. apply outcome_nil in HP as ->. apply names_may_view.
  - intros id. cbn. destruct (inodes s !! id) as [i|]; [|done]. split; [done|]. by right.
Qed.

Lemma settles_dir id g s : (forall i e, dir_may (g i) e -> dir_may i e) -> (forall i, in_view (g i) = in_view i) -> settles s (on_dir id g s).
Proof.
  intros Hm Hv. split; [done|by left|]. intros j. cbn. destruct (decide (j = id)) as [->|Hne].
  - rewrite lookup_alter_eq. destruct (inodes s !! id) as [i|]; [|done]. cbn. split; [auto|]. by right.
  - rewrite lookup_alter_ne by done. destruct (inodes s !! j) as [i|]; [|done]. split; [done|]. by right.
Qed.
Lemma settles_flush_dir id s : settles s (flush_dir id s).
Proof. apply settles_dir; [apply may_flush|apply view_flush]. Qed.
Lemma settles_sync id f s : settles s (on_dir id (sync_file f) s).
Proof. apply settles_dir; [apply may_sync|apply view_sync]. Qed.

Lemma flush_gone id s : (forall i, inodes s !! id = Some i -> in_view i !! FMeta = None) -> gone id (flush_dir id s).
Proof.
  intros Hv i' e Hi He. cbn in Hi. rewrite lookup_alter_eq in Hi. apply fmap_Some in Hi as (i & Hi & ->). apply (flushed_names_may (sync_entries i) e FMeta eq_refl He). rewrite view_flush. exact (Hv i Hi).
Qed.

(** A new directory. *)
Lemma names_make id s P : names_may (make_dir id s) P -> exists P0, names_may s P0 /\ (forall n, n ∈ P0 -> n ∈ P) /\ forall n, n ∈ P -> n = Temp id \/ n ∈ P0.
Proof. intros [H|(P0 & H & ->)]%outcome_snoc; [exists P|exists P0]; (split; [done|]); cbn; set_solver. Qed.

Lemma names_make_view id s n : n ∈ names (make_dir id s) <-> n = Temp id \/ n ∈ names s.
Proof. unfold names. cbn. rewrite foldl_app. cbn. set_solver. Qed.

Lemma unused pub must s id P : dir_inv pub must s -> pub !! id = None -> names_may s P -> forall n, n ∈ P -> id_of n <> id.
Proof. intros HV Hp HP n Hn <-. destruct (dv_used _ _ _ HV n P HP Hn) as [[f H] _]. by rewrite Hp in H. Qed.

Lemma inv_make pub must s id f : dir_inv pub must s -> pub !! id = None -> dir_inv (<[id := f]> pub) must (make_dir id s) /\ hidden id (make_dir id s).
Proof.
  intros HV Hp. pose proof (fun P HP n => unused _ _ _ id P HV Hp HP n) as Hun.
  assert (Hold : forall n P, names_may (make_dir id s) P -> n ∈ P -> n <> Temp id -> exists P0, names_may s P0 /\ n ∈ P0 /\ id_of n <> id).
  { intros n P (P0 & HP & _ & Hsub)%names_make Hn Hne. assert (n ∈ P0) by (destruct (Hsub n Hn); done). exists P0. split; [done|]. split; [done|]. by apply (Hun P0). }
  assert (Hnm : forall P, names_may (make_dir id s) P -> Named id ∉ P).
  { intros P HP Hn. destruct (Hold _ _ HP Hn ltac:(done)) as (_ & _ & _ & H). done. }
  split; [|done]. destruct HV as [V1 V2 V3 V4 V5 V6]. assert (Hlook : forall j, j <> id -> inodes (make_dir id s) !! j = inodes s !! j) by (intros; by apply lookup_insert_ne).
  split.
  - intros j P HP Hn. destruct (Hold _ _ HP Hn ltac:(done)) as (P0 & HP0 & Hn0 & Hne). rewrite lookup_insert_ne by (by apply not_eq_sym). rewrite Hlook by done. by apply (V1 j P0).
  - intros j Hj. destruct (V2 j Hj) as (HP & Hrest). pose proof (HP _ (names_may_view s)) as Hv. pose proof (Hun _ (names_may_view s) _ Hv) as Hne. cbn in Hne.
    rewrite lookup_insert_ne by (by apply not_eq_sym). rewrite Hlook by done. split; [|done].
    intros P (P0 & HP0 & Hsub & _)%names_make. by apply Hsub, HP.
  - intros n P HP Hn. destruct (decide (id_of n = id)) as [<-|Hne]; [cbn; rewrite !lookup_insert_eq; split; by eexists|].
    rewrite lookup_insert_ne by (by apply not_eq_sym). rewrite Hlook by done.
    destruct (Hold n P HP Hn) as (P0 & HP0 & Hn0 & _); [intros ->; done|]. by apply (V3 n P0).
  - intros j P HP H1 H2. destruct (Hold _ _ HP H2 ltac:(done)) as (_ & _ & _ & Hne). cbn in Hne. apply names_make in HP as (P0 & HP & _ & Hsub). apply (V4 j P0 HP); [destruct (Hsub _ H1) as [[= ->]|]|destruct (Hsub _ H2)]; done.
  - intros j Hj P HP Hn. destruct (Hold _ _ HP Hn ltac:(done)) as (P0 & HP0 & Hn0 & Hne). cbn in Hne. apply names_make_view in Hj as [[= ->]|Hj]; [done|].
    by apply (V5 j Hj P0).
  - intros j i Hn Hi Hv. destruct (Hold _ _ (names_may_view _) Hn ltac:(done)) as (P0 & HP0 & _ & Hne). cbn in Hne. apply names_make_view in Hn as [[= ]|Hn]. rewrite Hlook in Hi by done.
    destruct (V6 j i Hn Hi Hv) as [H|H]; [by left|right]. intros i2 e Hi2 He. rewrite Hlook in Hi2 by done. by eapply H.
Qed.

(** The rename, once the directory holds the block and is synced. *)
Lemma good_files f : good f (files_dir f).
Proof. right. unfold whole. by rewrite delete_id. Qed.

Definition settled (f : block_files) (id : Z) (s : FS) : Prop := exists i, inodes s !! id = Some i /\ forall e, dir_may i e -> e = files_dir f.

Lemma rename_elem P id n : n ∈ apply_pop P (Rename id) -> (n ∈ P /\ n <> Temp id) \/ (n = Named id /\ Temp id ∈ P).
Proof. cbn. destruct (decide (Temp id ∈ P)); [set_solver|]. intros Hn. left. split; [done|]. by intros ->. Qed.
Lemma rename_keeps P id n : n ∈ P -> n <> Temp id -> n ∈ apply_pop P (Rename id).
Proof. intros Hn Hne. cbn. destruct (decide (Temp id ∈ P)); [set_solver|done]. Qed.

Lemma inv_rename pub must s id f : dir_inv pub must s -> Temp id ∈ names s -> pub !! id = Some f -> settled f id s -> dir_inv pub must (cache_name (Rename id) s).
Proof.
  intros [V1 V2 V3 V4 V5 V6] Ht Hf (i & Hi & Hset). split.
  - intros j P HP Hn. apply names_may_snoc in HP as [HP|(P0 & HP & ->)]; [by apply (V1 j P)|]. apply rename_elem in Hn as [[Hn _]|[[= ->] _]]; [by apply (V1 j P0)|].
    exists f, i. split; [done|]. split; [done|]. intros e ->%Hset. apply good_files.
  - intros j Hj. destruct (V2 j Hj) as (HP & Hrest). split; [|done]. intros P [H|(P0 & H & ->)]%names_may_snoc; [by apply HP|]. apply rename_keeps; [by apply HP|done].
  - intros n P HP Hn. apply names_may_snoc in HP as [HP|(P0 & HP & ->)]; [by apply (V3 n P)|]. apply rename_elem in Hn as [[Hn _]|[-> _]]; [by apply (V3 n P0)|].
    cbn. rewrite Hf, Hi. split; by eexists.
  - intros j P HP H1 H2. apply names_may_snoc in HP as [HP|(P0 & HP & ->)]; [by apply (V4 j P)|].
    apply rename_elem in H1 as [[H1 Hne]|[[=] _]]. apply rename_elem in H2 as [[H2 _]|[[= ->] _]]; [by apply (V4 j P0)|done].
  - intros j Hj P HP Hn. rewrite names_snoc in Hj. apply rename_elem in Hj as [[Hj Hne]|[[=] _]].
    apply names_may_snoc in HP as [HP|(P0 & HP & ->)]; [by apply (V5 j Hj P)|]. apply rename_elem in Hn as [[Hn _]|[[= ->] _]]; [by apply (V5 j Hj P0)|done].
  - intros j i' Hn Hi' Hv. rewrite names_snoc in Hn. apply rename_elem in Hn as [[Hn _]|[[= ->] _]]; [by apply (V6 j i')|].
    cbn in Hi'. rewrite Hi in Hi'. injection Hi' as <-. by rewrite (Hset _ (dir_may_view i)) in Hv.
Qed.

Lemma inv_published pub must s id f : dir_inv pub must s -> Named id ∈ names s -> pub !! id = Some f -> settled f id s -> dir_inv pub ({[ id ]} ∪ must) (flush_names s).
Proof.
  intros HV Hn Hf (i & Hi & Hset). pose proof (inv_settles _ _ _ _ HV (settles_flush_names s)) as [V1 V2 V3 V4 V5 V6]. split; try done.
  intros j [->%elem_of_singleton|Hj]%elem_of_union; [|by apply V2]. split; [|by exists f, i]. by intros P ->%outcome_nil.
Qed.

Lemma inv_forget pub must s id : dir_inv pub must s -> dir_inv pub (must ∖ {[ id ]}) s.
Proof. intros [V1 V2 V3 V4 V5 V6]. split; try done. intros j [Hj _]%elem_of_difference. by apply V2. Qed.

(** ** What each operation does *)

(** [Stat] tells the truth; when [b], every other call succeeds. *)
Definition ready (b : bool) (s : Env) : Prop := Forall (eq true) (stats s) /\ (b = true -> Forall (eq CallOk) (calls s)).

(** Nothing of another id changes, and no name appears. *)
Definition framed (id : Z) (s s' : FS) : Prop := (forall n, n ∈ names s' -> n ∈ names s)
  /\ forall n, id_of n <> id -> (n ∈ names s -> n ∈ names s') /\ inodes s' !! id_of n = inodes s !! id_of n.

Lemma framed_refl id s : framed id s s.
Proof. done. Qed.
Lemma framed_trans id s1 s2 s3 : framed id s1 s2 -> framed id s2 s3 -> framed id s1 s3.
Proof.
  intros [M1 H1] [M2 H2]. split; [auto|]. intros n Hn. destruct (H1 n Hn) as [A1 B1], (H2 n Hn) as [A2 B2]. split; [auto|congruence].
Qed.
Lemma framed_file id g s : framed id s (on_dir id g s).
Proof. split; [done|]. intros n Hn. split; [done|]. cbn. by rewrite lookup_alter_ne by congruence. Qed.
Lemma framed_flush id s : framed id s (flush_dir id s).
Proof. apply framed_file. Qed.
Lemma framed_rmdir n s : framed (id_of n) s (cache_name (Rmdir n) s).
Proof.
  unfold framed. rewrite names_snoc. cbn [apply_pop]. split; [set_solver|]. intros n' Hn. split; [|done]. assert (n' <> n) by congruence. set_solver.
Qed.

Ltac wp_step H := apply wp_bind; eapply wp_mono; [eapply H; eauto|]; cbn beta.

Section Ops.
Context (b : bool).

Lemma next_call_spec s : ready b s -> wp next_call (fun r s' => fs s' = fs s /\ ready b s' /\ exists c, r = Ok c /\ (b = true -> c = CallOk)) s.
Proof.
  intros [H1 H2]. unfold wp, next_call. destruct (calls s) as [|c rest] eqn:E; cbn.
  - split; [done|]. split; [by split; rewrite ?E|]. by exists CallOk.
  - split; [done|]. split; [split; [done|]; intros Hb; specialize (H2 Hb); by apply Forall_cons in H2 as [_ ?]|].
    exists c. split; [done|]. intros Hb. specialize (H2 Hb). by apply Forall_cons in H2 as [? _].
Qed.

Lemma io_call_spec s : ready b s -> wp io_call (fun r s' => fs s' = fs s /\ ready b s' /\ match r with Ok _ => True | Err e => b = false /\ e = EIO end) s.
Proof.
  intros H. unfold io_call. wp_step next_call_spec. intros r s' (Hfs & Hr & c & -> & Hc). destruct c; [by apply wp_ret|].
  apply wp_throw. split; [done|]. split; [done|]. split; [|done]. destruct b; [|done]. by specialize (Hc eq_refl).
Qed.

Lemma stat_spec n f s : ready b s -> wp (stat n f) (fun r s' => fs s' = fs s /\ ready b s'
  /\ r = Ok (bool_decide (n ∈ names (fs s)) && bool_decide (is_Some (dir_of (fs s) n !! f)))) s.
Proof.
  intros [H1 H2]. unfold wp, stat. destruct (stats s) as [|ok rest] eqn:E; cbn.
  - split; [done|]. split; [by split; rewrite ?E|done].
  - apply Forall_cons in H1 as [<- H1]. by split.
Qed.

Lemma ready_fs f s : ready b s -> ready b (MkEnv (f (fs s)) (calls s) (stats s)).
Proof. done. Qed.

Lemma unlink_spec n f s : ready b s -> wp (unlink n f) (fun r s' => ready b s' /\ match r with
  | Ok _ => (fs s' = fs s /\ (n ∈ names (fs s) -> dir_of (fs s) n !! f = None)) \/ (fs s' = on_dir (id_of n) (remove_entry f) (fs s) /\ n ∈ names (fs s))
  | Err _ => b = false /\ fs s' = fs s
  end) s.
Proof.
  intros H. unfold unlink. apply wp_bind, wp_get. destruct (bool_decide (n ∈ _) && _) eqn:E.
  - apply andb_true_iff in E as [Hn _]. apply bool_decide_eq_true in Hn.
    wp_step io_call_spec. intros r s' (Hfs & Hr & Hb). destruct r as [[]|e]; [apply wp_fs; split; [by apply (ready_fs _ s')|right; split; [cbn; by rewrite Hfs|done]]|].
    split; [done|]. split; [by destruct Hb|done].
  - apply wp_ret. split; [done|]. left. split; [done|]. intros Hn. rewrite bool_decide_true in E by done. cbn in E. apply bool_decide_eq_false in E.
    by apply eq_None_not_Some.
Qed.

Lemma syncDir_spec n s : ready b s -> wp (syncDir n) (fun r s' => ready b s' /\ match r with
  | Ok _ => n ∈ names (fs s) /\ fs s' = flush_dir (id_of n) (fs s)
  | Err NotExist => n ∉ names (fs s) /\ fs s' = fs s
  | Err EIO => b = false /\ n ∈ names (fs s) /\ (fs s' = fs s \/ fs s' = flush_dir (id_of n) (fs s))
  end) s.
Proof.
  intros H. unfold syncDir. apply wp_bind, wp_get. destruct (decide _) as [Hn|Hn]; [|by apply wp_throw].
  wp_step io_call_spec. intros r s1 (F1 & R1 & B1). destruct r as [[]|e]; [|destruct B1 as [B1 ->]; split; [done|]; auto].
  wp_step io_call_spec. intros r s2 (F2 & R2 & B2). destruct r as [[]|e]; [|destruct B2 as [B2 ->]; split; [done|]; split; [done|]; split; [done|]; left; congruence].
  apply wp_bind, wp_fs. eapply wp_mono; [apply io_call_spec; exact R2|]. cbn. intros r s3 (F3 & R3 & B3). split; [done|].
  assert (E3 : fs s3 = flush_dir (id_of n) (fs s)) by congruence. destruct r as [[]|e]; [done|]. destruct B3 as [B3 ->]. auto.
Qed.

Lemma syncParent_spec s : ready b s -> wp syncParent (fun r s' => ready b s' /\ match r with
  | Ok _ => fs s' = flush_names (fs s)
  | Err _ => b = false /\ (fs s' = fs s \/ fs s' = flush_names (fs s))
  end) s.
Proof.
  intros H. unfold syncParent. wp_step io_call_spec. intros r s1 (F1 & R1 & B1). destruct r as [[]|e]; [|destruct B1; split; [done|]; auto].
  wp_step io_call_spec. intros r s2 (F2 & R2 & B2). destruct r as [[]|e]; [|destruct B2; split; [done|]; split; [done|]; left; congruence].
  apply wp_bind, wp_fs. eapply wp_mono; [apply io_call_spec; exact R2|]. cbn. intros r s3 (F3 & R3 & B3). split; [done|].
  assert (E3 : fs s3 = flush_names (fs s)) by congruence. destruct r as [[]|e]; [done|]. destruct B3. auto.
Qed.
End Ops.

Lemma dir_of_change n g s : dir_of (on_dir (id_of n) g s) n = match inodes s !! id_of n with Some i => in_view (g i) | None => ∅ end.
Proof. unfold dir_of. cbn. rewrite lookup_alter_eq. by destruct (inodes s !! id_of n). Qed.
Lemma dir_of_unlink n f s : dir_of (on_dir (id_of n) (remove_entry f) s) n = delete f (dir_of s n).
Proof. rewrite dir_of_change. unfold dir_of. destruct (inodes s !! id_of n); [apply view_remove|by rewrite delete_empty]. Qed.
Lemma dir_of_flush n s : dir_of (flush_dir (id_of n) s) n = dir_of s n.
Proof. unfold flush_dir. rewrite dir_of_change. unfold dir_of. by destruct (inodes s !! id_of n). Qed.
Lemma dir_of_sync n f s : dir_of (on_dir (id_of n) (sync_file f) s) n = dir_of s n.
Proof. rewrite dir_of_change. unfold dir_of. destruct (inodes s !! id_of n); [apply view_sync|done]. Qed.

(** Either way nothing can surface under the final name with a meta.json. *)
Definition free (id : Z) (s : FS) : Prop := hidden id s \/ gone id s.

Lemma free_unlink id id' f s : free id s -> free id (on_dir id' (remove_entry f) s).
Proof. intros [H|H]; [left; by apply hidden_file|right; by apply gone_unlink]. Qed.
Lemma free_admits id f s : free id s -> admits s id (remove_entry f).
Proof. intros [H|H]; [by apply adm_hidden|by apply adm_gone]. Qed.

Section Programs.
Context (b : bool) (pub : gmap Z block_files) (must : gset Z).

(** What holds of the file system after a program on the directories of [id]. *)
Definition still (id : Z) (s : FS) (s' : Env) : Prop := ready b s' /\ dir_inv pub must (fs s') /\ framed id s (fs s').

Lemma still_refl id s : ready b s -> dir_inv pub must (fs s) -> still id (fs s) s.
Proof. by split. Qed.
Lemma still_trans id s s1 s2 : still id s s1 -> still id (fs s1) s2 -> still id s s2.
Proof. intros (H1 & H2 & H3) (H4 & H5 & H6). split; [done|]. split; [done|]. by eapply framed_trans. Qed.

Lemma unlink_each_spec n files : forall s, ready b s -> dir_inv pub must (fs s) -> id_of n ∉ must -> free (id_of n) (fs s) ->
  wp (unlink_each n files) (fun r s' => still (id_of n) (fs s) s' /\ free (id_of n) (fs s') /\ names (fs s') = names (fs s)
    /\ (forall f, dir_of (fs s) n !! f = None -> dir_of (fs s') n !! f = None)
    /\ exists e, r = Ok e /\ (b = true -> e = false) /\ (e = false -> n ∈ names (fs s) -> forall f, f ∈ files -> dir_of (fs s') n !! f = None)) s.
Proof.
  induction files as [|f files IH]; intros s Hr HV Hm Hf; cbn [unlink_each].
  - apply wp_ret. split; [by apply still_refl|]. split; [done|]. split; [done|]. split; [done|]. exists false. split; [done|]. split; [done|]. intros _ _ f Hin. by apply not_elem_of_nil in Hin.
  - apply wp_bind, wp_try. eapply wp_mono; [by apply (unlink_spec b)|]. cbn beta. intros r s1 (R1 & Hfs).
    assert (H1 : still (id_of n) (fs s) s1 /\ free (id_of n) (fs s1) /\ names (fs s1) = names (fs s) /\ (forall f, dir_of (fs s) n !! f = None -> dir_of (fs s1) n !! f = None)
      /\ match r with Ok _ => n ∈ names (fs s) -> dir_of (fs s1) n !! f = None | Err _ => b = false end).
    { unfold still. destruct r as [[]|e]; [|destruct Hfs as [Hb ->]; done]. destruct Hfs as [[E Hn]|[E Hn]]; rewrite E; [done|].
      split; [split; [done|]; split; [by apply inv_file; [| |apply free_admits]|apply framed_file]|].
      split; [by apply free_unlink|]. split; [done|]. rewrite dir_of_unlink. split; [intros g Hg; by rewrite lookup_delete_None; right|]. intros _. apply lookup_delete_eq. }
    destruct H1 as (S1 & F1 & N1 & K1 & G1). wp_step IH; [apply S1|]. intros r2 s2 (S2 & F2 & N2 & K2 & e & -> & B2 & G2). apply wp_ret.
    split; [by eapply still_trans|]. split; [done|]. split; [congruence|]. split; [by intros g Hg%K1%K2|].
    exists (match r with Ok _ => e | Err _ => true end). split; [done|]. split; [intros Hb; destruct r as [[]|]; [by apply B2|congruence]|].
    destruct r as [[]|]; [|done]. intros -> Hn g [->|Hg]%elem_of_cons; [by apply K2, G1|]. apply G2; [done|by rewrite N1|done].
Qed.

Lemma rmdir_spec n s : ready b s -> dir_inv pub must (fs s) -> id_of n ∉ must -> (b = true -> dir_of (fs s) n = ∅) ->
  wp (rmdir n) (fun r s' => still (id_of n) (fs s) s' /\ (b = true -> r = Ok tt) /\ (r = Ok tt -> n ∉ names (fs s'))) s.
Proof.
  intros Hr HV Hm He. unfold rmdir. apply wp_bind, wp_get. destruct (decide _) as [Hd|Hd]; [|apply wp_throw; split; [by apply still_refl|]; split; [intros Hb; by destruct (Hd (He Hb))|done]].
  wp_step io_call_spec. intros r s1 (E1 & R1 & B1). destruct r as [[]|e].
  - apply wp_fs. unfold still. cbn [fs]. rewrite E1. split; [split; [done|]; split; [by apply inv_rmdir|apply framed_rmdir]|]. split; [done|]. intros _. rewrite names_snoc. cbn [apply_pop]. set_solver.
  - destruct B1 as [B1 _]. split; [|split; [congruence|done]]. unfold still. rewrite E1. by split.
Qed.

Lemma RemoveAll_spec order n s : ready b s -> dir_inv pub must (fs s) -> id_of n ∉ must -> free (id_of n) (fs s) ->
  (b = true -> forall f, f ∉ order -> dir_of (fs s) n !! f = None) ->
  wp (RemoveAll order n) (fun r s' => still (id_of n) (fs s) s' /\ (b = true -> r = Ok tt) /\ (r = Ok tt -> n ∉ names (fs s'))) s.
Proof.
  intros Hr HV Hm Hf Ho. unfold RemoveAll. apply wp_bind, wp_get. destruct (decide _) as [Hn|Hn]; [|apply wp_ret; split; [by apply still_refl|done]].
  wp_step unlink_each_spec. intros r s1 (S1 & F1 & N1 & K1 & e & -> & B1 & G1). destruct e; [apply wp_throw; split; [done|]; split; [intros Hb; by specialize (B1 Hb)|done]|].
  eapply wp_mono; [apply rmdir_spec|cbn beta; intros r s2 (S2 & B2 & N2); split; [by eapply still_trans|done]]; try apply S1; [done|].
  intros Hb. apply map_eq. intros f. rewrite lookup_empty. destruct (decide (f ∈ order)) as [Hin|Hni]; [by apply G1|]. by apply K1, Ho.
Qed.

Lemma ReadDir_spec n s : ready b s -> wp (ReadDir n) (fun r s' => ready b s' /\ fs s' = fs s /\ match r with
  | Ok es => forall f, f ∉ es -> dir_of (fs s) n !! f = None
  | Err e => b = true -> n ∉ names (fs s)
  end) s.
Proof.
  intros Hr. unfold ReadDir. apply wp_bind, wp_get. destruct (decide _) as [Hn|Hn]; [|by apply wp_throw].
  wp_step io_call_spec. intros r s1 (E1 & R1 & B1). destruct r as [[]|e]; [|destruct B1; split; [done|]; split; [done|]; congruence].
  apply wp_ret. split; [done|]. split; [done|]. intros f Hf. apply eq_None_not_Some. intros Hs. apply Hf, list_elem_of_filter. split; [done|]. destruct f; unfold all_files; set_solver.
Qed.

(** The directory is one startup may remove, or one a tombstone marks. *)
Definition marked (n : dname) (s : FS) : Prop := n ∈ names s -> hidden (id_of n) s \/ is_Some (dir_of s n !! FTomb).

Lemma removeCondemned_spec order n s : ready b s -> dir_inv pub must (fs s) -> id_of n ∉ must -> marked n (fs s) -> 
  wp (removeCondemned order n) (fun r s' => still (id_of n) (fs s) s' /\ (b = true -> r = Ok tt) /\ (r = Ok tt -> n ∉ names (fs s'))) s.
Proof.
  intros Hr HV Hm Hk. unfold removeCondemned. wp_step unlink_spec. intros r s1 (R1 & H1).
  assert (S1 : still (id_of n) (fs s) s1 /\ names (fs s1) = names (fs s) /\ (hidden (id_of n) (fs s) -> hidden (id_of n) (fs s1))).
  { unfold still. destruct r as [[]|e]; [|destruct H1 as [_ ->]; done]. destruct H1 as [[-> _]|[-> Hn]]; [done|]. split; [|done].
    split; [done|]. split; [|apply framed_file]. apply inv_file; [done|done|]. destruct (Hk Hn) as [H|H]; [by apply adm_hidden|]. apply adm_meta.
    intros i Hi. unfold dir_of in H. by rewrite Hi in H. }
  destruct S1 as (S1 & N1 & Hh). destruct r as [[]|e]; [|split; [done|]; split; [destruct H1; congruence|done]].
  assert (Hmeta : n ∈ names (fs s1) -> dir_of (fs s1) n !! FMeta = None).
  { rewrite N1. destruct H1 as [[-> H]|[-> _]]; [done|]. rewrite dir_of_unlink. intros _. apply lookup_delete_eq. }
  apply wp_bind, wp_try. eapply wp_mono; [apply (syncDir_spec b), S1|]. cbn beta. intros r s2 (R2 & H2).
  assert (Hset : (fs s2 = fs s1 \/ fs s2 = flush_dir (id_of n) (fs s1)) -> still (id_of n) (fs s) s2).
  { intros [E|E]; (eapply still_trans; [exact S1|]); unfold still; rewrite E; [split; [done|]; split; [apply S1|apply framed_refl]|].
    split; [done|]. split; [eapply inv_settles; [apply S1|apply settles_flush_dir]|apply framed_flush]. }
  destruct r as [[]|[]].
  - destruct H2 as [Hn2 E2]. pose proof (Hset (or_intror E2)) as S2.
    assert (Hgone : gone (id_of n) (fs s2)).
    { rewrite E2. apply flush_gone. intros i Hi. specialize (Hmeta Hn2). unfold dir_of in Hmeta. by rewrite Hi in Hmeta. }
    wp_step ReadDir_spec. intros r s3 (R3 & E3 & H3). destruct r as [es|e].
    + wp_step unlink_each_spec; [rewrite E3; apply S2|rewrite E3; by right|]. intros r s4 (S4 & F4 & N4 & K4 & e & -> & B4 & G4). rewrite E3 in *.
      assert (S4' : still (id_of n) (fs s) s4) by (eapply still_trans; eassumption).
      destruct e; [apply wp_throw; split; [done|]; split; [intros Hb; by specialize (B4 Hb)|done]|].
      eapply wp_mono; [apply RemoveAll_spec; try apply S4; try done|cbn beta; intros r s5 (S5 & Hrest); split; [by eapply still_trans|done]].
      intros _ f _. destruct (decide (f ∈ es)) as [Hin|Hni]; [apply G4; [done| |done]|by apply K4, H3]. rewrite E2. done.
    + split; [eapply still_trans; [exact S2|]; unfold still; rewrite E3; split; [done|]; split; [apply S2|apply framed_refl]|]. split; [|done].
      intros Hb. destruct (H3 Hb). rewrite E2. done.
  - apply wp_ret. destruct H2 as [Hn2 E2]. split; [apply Hset; by left|]. split; [done|]. by rewrite E2.
  - apply wp_throw. destruct H2 as (Hb & _ & E2). split; [by apply Hset|]. split; [congruence|done].
Qed.

(** *** Writing files *)

Lemma dir_of_put n f c s : is_Some (inodes s !! id_of n) -> dir_of (on_dir (id_of n) (set_file f c) s) n = <[f := c]> (dir_of s n).
Proof. intros [i Hi]. rewrite dir_of_change. unfold dir_of. rewrite Hi. apply view_set. Qed.

(** The file [f] of a directory, if it is there, is on disk as it is. *)
Definition clean_in (n : dname) (s : FS) (f : bfile) : Prop := forall i, inodes s !! id_of n = Some i -> clean f i.
Lemma clean_in_change n g s f : (forall i, clean f i -> clean f (g i)) -> clean_in n s f -> clean_in n (on_dir (id_of n) g s) f.
Proof. intros Hg H i' Hi. apply touched in Hi as [(_ & i & Hi & ->)|[? _]]; [|done]. by apply Hg, H. Qed.

Definition writable (n : dname) (f : bfile) (s : FS) : Prop := hidden (id_of n) s \/ f = FTomb.

(** After a change of one file's contents. *)
Definition wrote (n : dname) (s : FS) (s' : Env) : Prop :=
  still (id_of n) s s' /\ names (fs s') = names s /\ (hidden (id_of n) s -> hidden (id_of n) (fs s')).

Lemma wrote_trans n s s1 s2 : wrote n s s1 -> wrote n (fs s1) s2 -> wrote n s s2.
Proof. intros (H1 & H2 & H3) (H4 & H5 & H6). split; [by eapply still_trans|]. split; [congruence|]. auto. Qed.

Lemma put_file n f c s s1 : fs s1 = s -> ready b s1 -> dir_inv pub must s -> id_of n ∉ must -> writable n f s ->
  wrote n s (MkEnv (on_dir (id_of n) (set_file f c) s) (calls s1) (stats s1)).
Proof.
  intros <- Hr HV Hm Hw. split; [|done]. split; [done|]. split; [|apply framed_file]. apply inv_file; [done|done|]. destruct Hw as [H| ->]; [by apply adm_hidden|apply adm_mark].
Qed.

Lemma create_spec n f c s : ready b s -> dir_inv pub must (fs s) -> id_of n ∉ must -> writable n f (fs s) ->
  wp (create n f c) (fun r s' => wrote n (fs s) s' /\ match r with
    | Ok _ => n ∈ names (fs s) /\ dir_of (fs s') n = <[f := c]> (dir_of (fs s) n) /\ forall g, g <> f -> clean_in n (fs s) g -> clean_in n (fs s') g
    | Err NotExist => n ∉ names (fs s)
    | Err EIO => b = false
    end) s.
Proof.
  intros Hr HV Hm Hw. unfold create. apply wp_bind, wp_get. destruct (decide _) as [Hn|Hn]; [|apply wp_throw; split; [split; [by apply still_refl|done]|done]].
  wp_step io_call_spec. intros r s1 (E1 & R1 & B1). destruct r as [[]|e].
  - apply wp_fs. rewrite E1. split; [by apply put_file|]. split; [done|]. split; [apply dir_of_put; by destruct (dv_used _ _ _ HV n _ (names_may_view _) Hn)|].
    intros g Hg. apply clean_in_change. intros i. by apply clean_set.
  - destruct B1 as [B1 ->]. split; [|done]. unfold wrote, still. by rewrite E1.
Qed.

Lemma write_file_spec n f c s : ready b s -> dir_inv pub must (fs s) -> id_of n ∉ must -> writable n f (fs s) -> n ∈ names (fs s) ->
  wp (write_file n f c) (fun r s' => wrote n (fs s) s' /\ match r with
    | Ok _ => dir_of (fs s') n = <[f := c]> (dir_of (fs s) n) /\ forall g, g <> f -> clean_in n (fs s) g -> clean_in n (fs s') g
    | Err e => b = false /\ e = EIO
    end) s.
Proof.
  intros Hr HV Hm Hw Hn. unfold write_file. assert (Hi : is_Some (inodes (fs s) !! id_of n)) by (by destruct (dv_used _ _ _ HV n _ (names_may_view _) Hn)).
  wp_step next_call_spec. intros r s1 (E1 & R1 & c' & -> & Hc). destruct c' as [|k].
  - apply wp_fs. rewrite E1. split; [by apply put_file|]. split; [by apply dir_of_put|]. intros g Hg. apply clean_in_change. intros i. by apply clean_set.
  - apply wp_bind, wp_fs, wp_throw. rewrite E1. split; [by apply put_file|]. split; [|done]. destruct b; [|done]. by specialize (Hc eq_refl).
Qed.

Lemma wrote_same n s s1 s2 : wrote n s s1 -> fs s2 = fs s1 -> ready b s2 -> wrote n s s2.
Proof. intros (H1 & H2 & H3) E Hr. unfold wrote, still. rewrite E. split; [|done]. split; [done|]. apply H1. Qed.

Lemma writable_wrote n f g s s1 : writable n f s -> wrote n s s1 -> f = g -> writable n g (fs s1).
Proof. intros [H|H] (_ & _ & Hh) <-; [left; auto|by right]. Qed.

Lemma fsync_spec n f s : ready b s -> dir_inv pub must (fs s) -> wp (fsync n f) (fun r s' => wrote n (fs s) s' /\ match r with
  | Ok _ => dir_of (fs s') n = dir_of (fs s) n /\ clean_in n (fs s') f /\ forall g, clean_in n (fs s) g -> clean_in n (fs s') g
  | Err e => b = false /\ e = EIO
  end) s.
Proof.
  intros Hr HV. unfold fsync. wp_step io_call_spec. intros r s1 (E1 & R1 & B1). destruct r as [[]|e].
  - apply wp_fs. rewrite E1. split; [split; [|done]; split; [done|]; split; [eapply inv_settles; [exact HV|apply settles_sync]|apply framed_file]|]. split; [apply dir_of_sync|]. split.
    + intros i' Hi. apply touched in Hi as [(_ & i & _ & ->)|[? _]]; [apply clean_synced|done].
    + intros g. apply clean_in_change. intros i. apply clean_sync.
  - split; [|done]. unfold wrote, still. by rewrite E1.
Qed.

Lemma writeFileSync_spec n f c s : ready b s -> dir_inv pub must (fs s) -> id_of n ∉ must -> writable n f (fs s) ->
  wp (writeFileSync n f c) (fun r s' => wrote n (fs s) s' /\ match r with
    | Ok _ => n ∈ names (fs s) /\ dir_of (fs s') n = <[f := c]> (dir_of (fs s) n) /\ ((forall g, clean_in n (fs s) g) -> forall g, clean_in n (fs s') g)
    | Err NotExist => n ∉ names (fs s)
    | Err EIO => b = false
    end) s.
Proof.
  intros Hr HV Hm Hw. unfold writeFileSync. wp_step create_spec. intros r s1 (W1 & H1). destruct r as [[]|e]; [|by destruct e]. destruct H1 as (Hn & E1 & C1).
  wp_step write_file_spec; [apply W1|apply W1|by eapply writable_wrote|destruct W1 as (_ & -> & _); done|]. intros r s2 (W2 & H2).
  assert (W : wrote n (fs s) s2) by (by eapply wrote_trans). destruct r as [[]|e]; [|destruct H2 as [? ->]; done]. destruct H2 as [H2 C2]. rewrite E1, insert_insert_eq in H2.
  wp_step fsync_spec; [apply W2|apply W2|]. intros r s3 (W3 & H3). assert (W3' : wrote n (fs s) s3) by (by eapply wrote_trans). destruct r as [[]|e]; [|by destruct H3 as [? ->]]. destruct H3 as (H3 & Cf & C3).
  eapply wp_mono; [apply io_call_spec, W3|]. cbn beta. intros r s4 (E4 & R4 & B4). split; [by eapply wrote_same|].
  destruct r as [[]|e]; [|by destruct B4 as [? ->]]. split; [done|]. rewrite E4. split; [by rewrite H3|]. intros Hc g. destruct (decide (g = f)) as [->|Hne]; [done|]. auto.
Qed.

(** *** Deleting *)

Lemma flushed_names n s s1 s2 : still (id_of n) s s1 -> ready b s2 -> (fs s2 = fs s1 \/ fs s2 = flush_names (fs s1)) -> still (id_of n) s s2.
Proof.
  intros H Hr E. eapply still_trans; [exact H|]. unfold still. destruct E as [-> | ->]; [split; [done|]; split; [apply H|done]|].
  split; [done|]. split; [eapply inv_settles; [apply H|apply settles_flush_names]|done].
Qed.

Lemma ignore_spec m Q s : wp m (fun r s' => match r with Err EIO => Q (Err EIO) s' | _ => Q (Ok tt) s' end) s -> wp (ignore_missing m) Q s.
Proof. intros H. unfold ignore_missing. apply wp_bind, wp_try. eapply wp_mono; [exact H|]. cbn beta. by intros [[]|[]] s'. Qed.

Lemma Delete_spec order id s : ready b s -> dir_inv pub must (fs s) -> id ∉ must -> wp (Delete order id) (fun _ s' => still id (fs s) s') s.
Proof.
  intros Hr HV Hm. unfold Delete. set (n := Named id). change id with (id_of n).
  apply wp_bind, ignore_spec. eapply wp_mono; [apply (writeFileSync_spec n FTomb (Bytes tombstone)); try done; by right|]. cbn beta. intros r1 s1 (W1 & H1).
  pose proof W1 as (S1 & N1 & _).
  assert (K1 : r1 = Err EIO \/ marked n (fs s1)).
  { destruct r1 as [[]|[]]; [right|right|by left]; intros Hn; [right|by rewrite N1 in Hn]. destruct H1 as (_ & -> & _). rewrite lookup_insert_eq. by eexists. }
  destruct K1 as [->|K1]; [done|]. assert (Hgo : wp (_ ← ignore_missing (syncDir n); _ ← removeCondemned order n; syncParent) (fun _ s' => still (id_of n) (fs s) s') s1); [|by destruct r1 as [[]|[]]].
  apply wp_bind, ignore_spec. eapply wp_mono; [apply (syncDir_spec b), S1|]. cbn beta. intros r2 s2 (R2 & H2).
  assert (E2 : fs s2 = fs s1 \/ fs s2 = flush_dir (id_of n) (fs s1)) by (destruct r2 as [[]|[]]; naive_solver).
  assert (S2 : still (id_of n) (fs s) s2 /\ marked n (fs s2)).
  { unfold still. destruct E2 as [-> | ->]; [split; [split; [done|apply S1]|done]|]. split; [split; [done|]; split; [eapply inv_settles; [apply S1|apply settles_flush_dir]|eapply framed_trans; [apply S1|apply framed_flush]]|].
    intros Hn. destruct (K1 Hn) as [H|H]; [left; eapply hidden_settles; [apply settles_flush_dir|done]|right; by rewrite dir_of_flush]. }
  destruct S2 as [S2 K2]. assert (Hgo : wp (_ ← removeCondemned order n; syncParent) (fun _ s' => still (id_of n) (fs s) s') s2); [|by destruct r2 as [[]|[]]].
  wp_step removeCondemned_spec; [apply S2|]. intros r3 s3 (S3 & _). assert (S3' : still (id_of n) (fs s) s3) by (eapply still_trans; eassumption).
  destruct r3 as [[]|e]; [|done]. eapply wp_mono; [apply (syncParent_spec b), S3|]. cbn beta. intros r4 s4 (R4 & H4).
  eapply flushed_names; [exact S3'|done|]. destruct r4 as [[]|]; [by right|by destruct H4].
Qed.
End Programs.

Section Clean.
Context (b : bool) (pub : gmap Z block_files) (must : gset Z).

(** ** The cleaning loops *)

(** A property of one directory, which changes of others leave alone. *)
Definition local {A} (p : FS -> dname -> A) : Prop := forall n s s', (n ∈ names s <-> n ∈ names s') -> inodes s' !! id_of n = inodes s !! id_of n -> p s' n = p s n.

Definition untouched (s s' : FS) (n : dname) : Prop := n ∈ names s' /\ inodes s' !! id_of n = inodes s !! id_of n.

Section Loop.
Context (test : dname -> DM bool) (remove : dname -> DM unit) (p : FS -> dname -> bool) (C : FS -> dname -> Prop).
Context (Htest : forall n s, ready b s -> wp (test n) (fun r s' => fs s' = fs s /\ ready b s' /\ r = Ok (p (fs s) n)) s).
Context (Hp : local p) (HC : local C).
Context (Hremove : forall n s, ready b s -> dir_inv pub must (fs s) -> n ∈ names (fs s) -> p (fs s) n = true -> C (fs s) n ->
  wp (remove n) (fun r s' => still b pub must (id_of n) (fs s) s' /\ (b = true -> r = Ok tt) /\ (r = Ok tt -> n ∉ names (fs s'))) s).

Lemma clean_each_spec ns : forall s, ready b s -> dir_inv pub must (fs s) -> NoDup (id_of <$> ns) -> (forall n, n ∈ ns -> n ∈ names (fs s) /\ C (fs s) n) ->
  wp (clean_each test remove ns) (fun r s' => ready b s' /\ dir_inv pub must (fs s') /\ (forall n, n ∈ names (fs s') -> n ∈ names (fs s))
    /\ (forall n, id_of n ∉ id_of <$> ns -> n ∈ names (fs s) -> untouched (fs s) (fs s') n)
    /\ match r with
       | Ok l => forall n, n ∈ ns -> if p (fs s) n then n ∉ names (fs s') /\ n ∈ l else untouched (fs s) (fs s') n
       | Err _ => b = false
       end) s.
Proof.
  induction ns as [|n ns IH]; intros s Hr HV Hnd Hns; cbn [clean_each].
  - apply wp_ret. split; [done|]. split; [done|]. split; [done|]. split; [done|]. intros n Hn. by apply not_elem_of_nil in Hn.
  - cbn in Hnd. apply NoDup_cons in Hnd as [Hni Hnd]. destruct (Hns n ltac:(left)) as [Hn HCn].
    assert (Hother : forall n', n' ∈ ns -> id_of n' <> id_of n) by (intros n' Hn' E; apply Hni; rewrite <- E; by apply list_elem_of_fmap_2).
    apply wp_bind. eapply wp_mono; [apply Htest, Hr|]. cbn beta. intros r0 s0 (E0 & R0 & ->). rewrite <- E0 in *. destruct (p (fs s0) n) eqn:Epn.
    + apply wp_bind. eapply wp_mono; [by apply Hremove|]. cbn beta. intros r1 s1 ((R1 & V1 & M1 & F1) & B1 & G1).
      assert (Hun : forall n', id_of n' <> id_of n -> n' ∈ names (fs s0) -> untouched (fs s0) (fs s1) n') by (intros n' Hne H'; split; by apply F1).
      assert (Hiff : forall n', id_of n' <> id_of n -> n' ∈ names (fs s0) <-> n' ∈ names (fs s1)) by (intros n' Hne; split; [by apply F1|apply M1]).
      destruct r1 as [[]|e]; [|split; [done|]; split; [done|]; split; [done|]; split; [|destruct b; [by specialize (B1 eq_refl)|done]];
        intros n' Hn'; apply Hun; intros E; apply Hn'; rewrite E; left].
      apply wp_bind. eapply wp_mono; [apply IH; try done|].
      { intros n' Hn'. destruct (Hns n' ltac:(by right)) as [H1 H2]. pose proof (Hother n' Hn') as Hne. split; [by apply Hun|]. rewrite (HC n' (fs s0) (fs s1)); [done|by apply Hiff|by apply F1]. }
      cbn beta. intros r2 s2 (R2 & V2 & M2 & F2 & H2).
      assert (Hkeep : forall n', id_of n' ∉ id_of <$> n :: ns -> n' ∈ names (fs s0) -> untouched (fs s0) (fs s2) n').
      { intros n' Hn' Hin. rewrite fmap_cons, not_elem_of_cons in Hn'. destruct Hn' as [Hne Hn']. destruct (Hun n' Hne Hin) as [H3 H4].
        destruct (F2 n' Hn' H3) as [H5 H6]. split; [done|congruence]. }
      destruct r2 as [l|e]; [|by auto 10]. apply wp_ret. split; [done|]. split; [done|]. split; [by auto|]. split; [done|].
      intros n' [->|Hn']%elem_of_cons; [rewrite Epn; split; [intros H%M2; by apply (G1 eq_refl)|left]|]. pose proof (Hother n' Hn') as Hne.
      specialize (H2 n' Hn'). rewrite (Hp n' (fs s0) (fs s1)) in H2; [|by apply Hiff|by apply F1].
      destruct (p (fs s0) n'); [split; [apply H2|right; apply H2]|]. destruct H2 as [H3 H4]. split; [done|]. rewrite H4. by apply F1.
    + eapply wp_mono; [apply IH; try done|]; [intros n' Hn'; apply Hns; by right|]. cbn beta. intros r2 s2 (R2 & V2 & M2 & F2 & H2).
      split; [done|]. split; [done|]. split; [done|].
      assert (Hkeep : forall n', id_of n' ∉ id_of <$> n :: ns -> n' ∈ names (fs s0) -> untouched (fs s0) (fs s2) n').
      { intros n' Hn' Hin. rewrite fmap_cons, not_elem_of_cons in Hn'. destruct Hn'. by apply F2. }
      split; [done|]. destruct r2 as [l|e]; [|done]. intros n' [->|Hn']%elem_of_cons; [|by apply H2]. rewrite Epn. by apply F2.
Qed.
End Loop.

(** ** A cleaning of the whole directory *)

Definition there (f : bfile) (s : FS) (n : dname) : bool := bool_decide (n ∈ names s) && bool_decide (is_Some (dir_of s n !! f)).

Lemma local_there f : local (there f).
Proof. intros n s s' Hn Hi. unfold there, dir_of. rewrite Hi. f_equal. by apply bool_decide_ext. Qed.

Lemma one_name s n n' : dir_inv pub must s -> n ∈ names s -> n' ∈ names s -> id_of n = id_of n' -> n = n'.
Proof.
  intros HV Hn Hn' E. destruct n as [i|i], n' as [j|j]; cbn in E; subst; try done; exfalso; by apply (dv_one _ _ _ HV j _ (names_may_view s)).
Qed.

Lemma must_dir s n : dir_inv pub must s -> n ∈ names s -> id_of n ∈ must -> exists f, n = Named (id_of n) /\ pub !! id_of n = Some f /\ dir_of s n = files_dir f.
Proof.
  intros HV Hn Hm. destruct (dv_must _ _ _ HV _ Hm) as (HP & f & i & Hf & Hi & He). exists f. split; [|split; [done|]].
  - destruct n as [j|j]; [done|]. exfalso. apply (dv_temp _ _ _ HV j Hn (names s) (names_may_view s)), (HP _ (names_may_view s)).
  - unfold dir_of. rewrite Hi. apply He, dir_may_view.
Qed.

Lemma ReadNames_spec s : ready b s -> dir_inv pub must (fs s) -> wp ReadNames (fun r s' => fs s' = fs s /\ ready b s' /\ match r with
  | Ok ns => (forall n, n ∈ ns <-> n ∈ names (fs s)) /\ NoDup (id_of <$> ns)
  | Err _ => b = false
  end) s.
Proof.
  intros Hr HV. unfold ReadNames. wp_step io_call_spec. intros r s1 (E1 & R1 & B1). destruct r as [[]|e]; [|by destruct B1].
  apply wp_bind, wp_get, wp_ret. split; [done|]. split; [done|]. rewrite E1. assert (Hin : forall n, n ∈ merge_sort name_le (elements (names (fs s))) <-> n ∈ names (fs s)).
  { intros n. by rewrite merge_sort_Permutation, elem_of_elements. }
  split; [done|]. apply NoDup_fmap_2_strong; [|rewrite merge_sort_Permutation; apply NoDup_elements].
  intros x y Hx%Hin Hy%Hin. by apply (one_name (fs s)).
Qed.

(** What a cleaning by a test does. *)
Definition cleaned (p : FS -> dname -> bool) (s s' : FS) : Prop :=
  (forall n, n ∈ names s' <-> n ∈ names s /\ p s n = false) /\ forall n, n ∈ names s' -> inodes s' !! id_of n = inodes s !! id_of n.

Lemma clean_spec test remove p (C : FS -> dname -> Prop) s : (forall n s, ready b s -> wp (test n) (fun r s' => fs s' = fs s /\ ready b s' /\ r = Ok (p (fs s) n)) s) ->
  local p -> local C ->
  (forall n s, ready b s -> dir_inv pub must (fs s) -> n ∈ names (fs s) -> p (fs s) n = true -> C (fs s) n ->
    wp (remove n) (fun r s' => still b pub must (id_of n) (fs s) s' /\ (b = true -> r = Ok tt) /\ (r = Ok tt -> n ∉ names (fs s'))) s) ->
  ready b s -> dir_inv pub must (fs s) -> (forall n, n ∈ names (fs s) -> C (fs s) n) ->
  wp (ns ← ReadNames; removed ← clean_each test remove ns; sync_removed removed)
    (fun r s' => ready b s' /\ dir_inv pub must (fs s') /\ match r with Ok _ => cleaned p (fs s) (fs s') | Err _ => b = false end) s.
Proof.
  intros Ht Hp HC Hrm Hr HV Hall. wp_step ReadNames_spec. intros r s1 (E1 & R1 & H1). destruct r as [ns|e]; [|rewrite E1; done]. destruct H1 as [Hns Hnd]. rewrite <- E1 in *.
  apply wp_bind. eapply wp_mono; [apply (clean_each_spec test remove p C Ht Hp HC Hrm ns s1); try done|]; [intros n Hn%Hns; by split; [|apply Hall]|]. cbn beta.
  intros r s2 (R2 & V2 & M2 & F2 & H2). destruct r as [l|e]; [|done].
  assert (Hcl : cleaned p (fs s1) (fs s2)).
  { split.
    - intros n. split; [intros Hn; pose proof (M2 n Hn) as Hn1; split; [done|]|intros [Hn Hpn]]; [|specialize (H2 n (proj2 (Hns n) Hn)); rewrite Hpn in H2; apply H2].
      specialize (H2 n (proj2 (Hns n) Hn1)). destruct (p (fs s1) n); [by destruct H2|done].
    - intros n Hn. specialize (H2 n (proj2 (Hns n) (M2 n Hn))). destruct (p (fs s1) n); [by destruct H2|apply H2]. }
  unfold sync_removed. destruct l as [|x l]; [by apply wp_ret|]. wp_step syncParent_spec. intros r s3 (R3 & H3).
  assert (HV3 : dir_inv pub must (flush_names (fs s2))) by (eapply inv_settles; [exact V2|apply settles_flush_names]).
  destruct r as [[]|e]; [apply wp_ret; by rewrite H3|]. destruct H3 as [Hb [-> | ->]]; by auto.
Qed.

Lemma CleanCondemned_spec order s : ready b s -> dir_inv pub must (fs s) ->
  wp (CleanCondemned order) (fun r s' => ready b s' /\ dir_inv pub must (fs s') /\ match r with Ok _ => cleaned (there FTomb) (fs s) (fs s') | Err _ => b = false end) s.
Proof.
  intros Hr HV. unfold CleanCondemned. apply (clean_spec _ _ (there FTomb) (fun _ _ => True)); try done.
  - intros n s' Hr'. by apply stat_spec.
  - apply local_there.
  - intros n s' Hr' HV' Hn Ht _. unfold there in Ht. rewrite bool_decide_true in Ht by done. cbn in Ht. apply bool_decide_eq_true in Ht.
    apply removeCondemned_spec; [done|done| |by intros _; right]. intros Hm. destruct (must_dir _ _ HV' Hn Hm) as (f & _ & _ & E). rewrite E in Ht. by destruct Ht.
Qed.

(** What [CleanTmp] removes. *)
Definition no_block (s : FS) (n : dname) : bool := match n with Temp _ => true | Named _ => negb (there FMeta s n) end.

Lemma CleanTmp_spec order s : (forall f, f ∈ order) -> ready b s -> dir_inv pub must (fs s) -> (forall n, n ∈ names (fs s) -> dir_of (fs s) n !! FTomb = None) ->
  wp (CleanTmp order) (fun r s' => ready b s' /\ dir_inv pub must (fs s') /\ match r with Ok _ => cleaned no_block (fs s) (fs s') | Err _ => b = false end) s.
Proof.
  intros Ho Hr HV Hnt. unfold CleanTmp. apply (clean_spec _ _ no_block (fun s n => dir_of s n !! FTomb = None)); try done.
  - intros [id|id] s' Hr'; [|by apply wp_ret]. unfold incomplete. apply wp_bind. eapply wp_mono; [by apply (stat_spec b)|]. cbn beta. intros r s1 (E1 & R1 & ->). by apply wp_ret.
  - intros [id|id] s1 s2 Hn Hi; [|done]. cbn. by rewrite (local_there FMeta _ _ _ Hn Hi).
  - intros n s1 s2 Hn Hi. unfold dir_of. by rewrite Hi.
  - intros n s' Hr' HV' Hn Hp Ht. destruct (decide (id_of n ∈ must)) as [Hm|Hm].
    { destruct (must_dir _ _ HV' Hn Hm) as (f & E & _ & Ed). rewrite E in *. cbn in Hp. unfold there in Hp. cbn in Ed. rewrite Ed, !bool_decide_true in Hp; [done|by eexists|done]. }
    apply RemoveAll_spec; try done; [|intros _ f Hf; by destruct (Hf (Ho f))]. destruct n as [id|id]; [right|left; by apply (dv_temp _ _ _ HV')].
    destruct (dv_used _ _ _ HV' _ _ (names_may_view _) Hn) as [_ [i Hi]]. cbn [id_of] in *. unfold dir_of in Ht. cbn [id_of] in Ht. rewrite Hi in Ht.
    destruct (dv_tomb _ _ _ HV' id i Hn Hi) as [[c H]|H]; [|by rewrite Ht in H|done].
    cbn in Hp. unfold there, dir_of in Hp. rewrite bool_decide_true in Hp by done. cbn [id_of] in Hp. rewrite Hi in Hp. apply eq_None_not_Some. by destruct (decide (is_Some (in_view i !! FMeta))) as [H|H]; [rewrite bool_decide_true in Hp|].
Qed.
End Clean.

(** ** Startup *)

Section Startup.
Context (b : bool) (pub : gmap Z block_files) (must : gset Z) (order : list bfile) (Ho : forall f, f ∈ order).

Lemma read_blocks_spec ns : forall s, ready b s -> (forall n, n ∈ ns -> n = Named (id_of n) /\ n ∈ names (fs s) /\ exists f, pub !! id_of n = Some f /\ dir_of (fs s) n = files_dir f) ->
  wp (read_blocks ns) (fun r s' => ready b s' /\ fs s' = fs s /\ exists fl, r = Ok fl /\ Forall2 (fun n f => pub !! id_of n = Some f) ns fl) s.
Proof.
  induction ns as [|n ns IH]; intros s Hr Hns; cbn [read_blocks].
  - apply wp_ret. split; [done|]. split; [done|]. by exists [].
  - destruct (Hns n ltac:(left)) as (E & Hn & f & Hf & Hd). destruct n as [id|id]; [|done]. cbn [id_of] in *.
    wp_step stat_spec. intros r s1 (E1 & R1 & ->). rewrite bool_decide_true by done. rewrite Hd, bool_decide_true by (by eexists). cbn [andb].
    assert (Hread : read_block (Named id) s1 = (s1, Ok f)) by (unfold read_block; rewrite E1, Hd; by destruct f).
    apply wp_bind. unfold wp at 1. rewrite Hread. cbn [fst snd].
    apply wp_bind. eapply wp_mono; [apply IH; [done|]|]; [rewrite E1; intros n' Hn'; apply Hns; by right|]. cbn beta. intros r s2 (R2 & E2 & fl & -> & Hfl).
    apply wp_ret. split; [done|]. split; [congruence|]. exists (f :: fl). split; [done|]. by constructor.
Qed.

(** The blocks startup opens. *)
Definition found (s : FS) (fl : list block_files) : Prop :=
  exists ids : list Z, NoDup ids /\ Forall2 (fun id f => pub !! id = Some f) ids fl /\ (forall id, id ∈ must -> id ∈ ids)
    /\ forall n, n ∈ names s <-> exists id, n = Named id /\ id ∈ ids.

Lemma all_whole s n : dir_inv pub must s -> n ∈ names s -> no_block s n = false -> dir_of s n !! FTomb = None ->
  n = Named (id_of n) /\ exists f, pub !! id_of n = Some f /\ dir_of s n = files_dir f.
Proof.
  intros HV Hn Hnb Ht. destruct n as [id|id]; [|done]. cbn in *. split; [done|]. destruct (dv_named _ _ _ HV id _ (names_may_view s) Hn) as (f & i & Hf & Hi & Hg).
  exists f. split; [done|]. unfold there in Hnb. rewrite bool_decide_true in Hnb by done. cbn in Hnb. apply negb_false_iff, bool_decide_eq_true in Hnb.
  unfold dir_of in *. cbn [id_of] in *. rewrite Hi in *. destruct (Hg _ (dir_may_view i)) as [H|H]; [rewrite H in Hnb; by destruct Hnb|]. unfold whole in H. by rewrite delete_id in H.
Qed.

Lemma startup_spec s : ready b s -> dir_inv pub must (fs s) ->
  wp (startup_files order) (fun r s' => ready b s' /\ dir_inv pub must (fs s') /\ match r with Ok fl => found (fs s') fl | Err _ => b = false end) s.
Proof.
  intros Hr HV. unfold startup_files. wp_step CleanCondemned_spec. intros r s1 (R1 & V1 & H1). destruct r as [l|e]; [|done]. destruct H1 as [N1 I1].
  assert (Hnt : forall n, n ∈ names (fs s1) -> dir_of (fs s1) n !! FTomb = None).
  { intros n Hn. destruct (proj1 (N1 n) Hn) as [Hn0 Ht]. unfold there in Ht. rewrite bool_decide_true in Ht by done. cbn in Ht. apply bool_decide_eq_false in Ht.
    unfold dir_of in *. rewrite (I1 n Hn). by apply eq_None_not_Some. }
  wp_step CleanTmp_spec. intros r s2 (R2 & V2 & H2). destruct r as [l2|e]; [|done]. destruct H2 as [N2 I2].
  assert (Hw : forall n, n ∈ names (fs s2) -> n = Named (id_of n) /\ exists f, pub !! id_of n = Some f /\ dir_of (fs s2) n = files_dir f).
  { intros n Hn. destruct (proj1 (N2 n) Hn) as [Hn1 Hb]. destruct (all_whole _ _ V1 Hn1 Hb (Hnt n Hn1)) as (E & f & Hf & Hd). split; [done|]. exists f. split; [done|].
    unfold dir_of in *. by rewrite (I2 n Hn). }
  wp_step ReadNames_spec. intros r s3 (E3 & R3 & H3). destruct r as [ns|e]; [|by rewrite E3]. destruct H3 as [Hns Hnd].
  eapply wp_mono; [apply read_blocks_spec; [done|]|]; [intros n Hn%Hns; rewrite E3; destruct (Hw n Hn) as [H1 H2]; done|]. cbn beta.
  intros r s4 (R4 & E4 & fl & -> & Hfl). rewrite E4, E3. split; [done|]. split; [done|]. exists (id_of <$> ns). split; [done|]. split; [by apply Forall2_fmap_l|]. split.
  - intros id Hm. destruct (dv_must _ _ _ V2 _ Hm) as [HP _]. apply list_elem_of_fmap. exists (Named id). split; [done|]. apply Hns, HP, names_may_view.
  - intros n. split.
    + intros Hn. exists (id_of n). split; [by apply Hw|]. apply list_elem_of_fmap. exists n. by rewrite Hns.
    + intros (id & -> & Hid). apply list_elem_of_fmap in Hid as (n & -> & Hn%Hns). by rewrite <- (proj1 (Hw n Hn)).
Qed.
End Startup.

(** ** Writing a block *)

Section Writing.
Context (b : bool) (pub : gmap Z block_files) (must : gset Z) (order : list bfile).

Lemma append_chunks_spec n D parts : forall written s, ready b s -> dir_inv pub must (fs s) -> id_of n ∉ must -> hidden (id_of n) (fs s) -> n ∈ names (fs s) ->
  dir_of (fs s) n = <[FChunks := Bytes written]> D ->
  wp (append_chunks n written parts) (fun r s' => wrote b pub must n (fs s) s'
    /\ match r with
       | Ok _ => dir_of (fs s') n = <[FChunks := Bytes (written ++ concat parts)]> D /\ forall g, g <> FChunks -> clean_in n (fs s) g -> clean_in n (fs s') g
       | Err _ => True
       end) s.
Proof.
  induction parts as [|p parts IH]; intros written s Hr HV Hm Hh Hn Hd; cbn [append_chunks concat].
  - apply wp_ret. split; [split; [by apply still_refl|done]|]. by rewrite app_nil_r.
  - apply wp_bind. eapply wp_mono; [apply (write_file_spec b pub must n FChunks); try done; by left|]. cbn beta. intros r s1 (W1 & H1).
    destruct r as [[]|e]; [|done]. destruct H1 as [H1 C1]. rewrite Hd, insert_insert_eq in H1. pose proof W1 as (S1 & N1 & Hh1).
    eapply wp_mono; [apply IH; [apply S1|apply S1|done|by apply Hh1|by rewrite N1|done]|]. cbn beta. intros r s2 (W2 & H2). split; [by eapply wrote_trans|].
    destruct r; [|done]. destruct H2 as [H2 C2]. rewrite app_assoc. auto 10.
Qed.
End Writing.

(** The files of a block in a fresh directory, and the rename. *)
Section Filling.
Context (b : bool) (pub : gmap Z block_files) (must : gset Z) (id : Z) (f : block_files) (parts : list (list Z)).
Context (Hpub : pub !! id = Some f) (Hm : id ∉ must) (Hparts : concat parts = bf_chunks f).

Let n := Temp id.

(** A directory whose files are synced is as written once its entries are. *)
Lemma flushed_settled s : dir_inv pub must s -> n ∈ names s -> dir_of s n = files_dir f -> (forall g, clean_in n s g) -> settled f id (flush_dir id s).
Proof.
  intros HV Hn Hd Hc. destruct (dv_used _ _ _ HV n _ (names_may_view _) Hn) as [_ [i Hi]]. cbn [n id_of] in Hi. exists (sync_entries i). cbn. rewrite lookup_alter_eq, Hi. split; [done|].
  intros e He. rewrite (clean_may (sync_entries i) e eq_refl (fun g => clean_flush g i (Hc g i Hi)) He), view_flush. unfold dir_of in Hd. cbn [n id_of] in Hd. by rewrite Hi in Hd.
Qed.

Lemma fill_spec s : ready b s -> dir_inv pub must (fs s) -> hidden id (fs s) -> n ∈ names (fs s) -> dir_of (fs s) n = ∅ -> (forall g, clean_in n (fs s) g) ->
  wp (fill_and_rename id f parts) (fun r s' => ready b s' /\ dir_inv pub must (fs s') /\ match r with
    | Ok _ => Named id ∈ names (fs s') /\ settled f id (fs s')
    | Err _ => hidden id (fs s')
    end) s.
Proof.
  intros Hr HV Hh Hn Hd Hc. unfold fill_and_rename. fold n.
  assert (Hfail : forall s0 s', hidden id (fs s0) -> wrote b pub must n (fs s0) s' -> ready b s' /\ dir_inv pub must (fs s') /\ hidden id (fs s')).
  { intros s0 s' H0 ((H1 & H2 & _) & _ & H3). split; [done|]. split; [done|]. by apply H3. }
  apply wp_bind. eapply wp_mono; [apply (create_spec b pub must n FChunks (Bytes [])); try done; by left|]. cbn beta. intros r s1 (W1 & H1).
  pose proof (Hfail _ _ Hh W1) as (R1 & V1 & Hh1). destruct r as [[]|e]; [|done]. destruct H1 as (_ & H1 & C1). pose proof W1 as (_ & N1 & _). rewrite <- N1 in Hn.
  apply wp_bind. eapply wp_mono; [apply (append_chunks_spec b pub must n (dir_of (fs s) n) parts []); try done|]. cbn beta. intros r s2 (W2 & H2).
  pose proof (Hfail _ _ Hh1 W2) as (R2 & V2 & Hh2). destruct r as [[]|e]; [|done]. destruct H2 as [H2 C2]. pose proof W2 as (_ & N2 & _). rewrite <- N2 in Hn. rewrite Hd in H2. cbn [app] in H2. rewrite Hparts in H2.
  apply wp_bind. eapply wp_mono; [by apply (fsync_spec b pub must n FChunks)|]. cbn beta. intros r s3 (W3 & H3). pose proof (Hfail _ _ Hh2 W3) as (R3 & V3 & Hh3). destruct r as [[]|e]; [|done].
  destruct H3 as (H3 & Cf & C3). pose proof W3 as (_ & N3 & _). rewrite <- N3 in Hn. rewrite H2 in H3.
  assert (Hc3 : forall g, clean_in n (fs s3) g) by (intros g; destruct (decide (g = FChunks)) as [->|Hne]; auto).
  wp_step io_call_spec. intros r s4 (E4 & R4 & _). rewrite <- E4 in *. destruct r as [[]|e]; [|done].
  apply wp_bind. eapply wp_mono; [apply (writeFileSync_spec b pub must n FIndex (Bytes (bf_index f))); try done; by left|]. cbn beta. intros r s5 (W5 & H5).
  pose proof (Hfail _ _ Hh3 W5) as (R5 & V5 & Hh5). destruct r as [[]|e]; [|done]. destruct H5 as (_ & H5 & C5). pose proof W5 as (_ & N5 & _). rewrite <- N5 in Hn.
  apply wp_bind. eapply wp_mono; [apply (writeFileSync_spec b pub must n FMeta (Json (Some (bf_meta f)))); try done; by left|]. cbn beta. intros r s6 (W6 & H6).
  pose proof (Hfail _ _ Hh5 W6) as (R6 & V6 & Hh6). destruct r as [[]|e]; [|done]. destruct H6 as (_ & H6 & C6). pose proof W6 as (_ & N6 & _). rewrite <- N6 in Hn.
  assert (Hall : dir_of (fs s6) n = files_dir f) by (rewrite H6, H5, H3; by vm_compute). specialize (C6 (C5 Hc3)). clear H1 H2 H3 H5 H6.
  apply wp_bind. eapply wp_mono; [apply (syncDir_spec b), R6|]. cbn beta. intros r s7 (R7 & H7).
  assert (Hflush : dir_inv pub must (flush_dir id (fs s6)) /\ hidden id (flush_dir id (fs s6))).
  { split; [eapply inv_settles; [exact V6|apply settles_flush_dir]|eapply hidden_settles; [apply settles_flush_dir|done]]. }
  destruct r as [[]|e].
  2: { destruct e; [by destruct H7 as [_ ->]|]. by destruct H7 as (_ & _ & [-> | ->]). }
  destruct H7 as [_ E7]. cbn [n id_of] in E7. rewrite <- E7 in Hflush. destruct Hflush as [V7 Hh7].
  assert (Hset : settled f id (fs s7)) by (rewrite E7; by apply flushed_settled).
  assert (Hn7 : Temp id ∈ names (fs s7)) by (by rewrite E7). wp_step io_call_spec. intros r s8 (E8 & R8 & _). rewrite <- E8 in *. destruct r as [[]|e]; [|done].
  apply wp_fs. split; [done|]. cbn [fs]. split; [by eapply inv_rename|]. split; [|done]. rewrite names_snoc. cbn. rewrite decide_True by done. set_solver.
Qed.
End Filling.

Lemma write_dir_spec b pub must order id f parts s : (forall f, f ∈ order) -> ready b s -> dir_inv pub must (fs s) -> pub !! id = None -> concat parts = bf_chunks f ->
  wp (write_dir order id f parts) (fun r s' => ready b s' /\ dir_inv (<[id := f]> pub) (match r with Ok _ => {[ id ]} ∪ must | Err _ => must end) (fs s')) s.
Proof.
  intros Ho Hr HV Hp Hparts. unfold write_dir.
  assert (Hm : id ∉ must). { intros Hin. destruct (dv_must _ _ _ HV _ Hin) as (_ & f' & _ & Hf & _). congruence. }
  assert (Hsub : dir_inv (<[id := f]> pub) must (fs s)).
  { pose proof (fun P HP n => unused _ _ _ id P HV Hp HP n) as Hun. destruct HV as [V1 V2 V3 V4 V5 V6]. split; try done.
    - intros j P HP Hn. rewrite lookup_insert_ne; [by apply (V1 j P)|]. intros <-. by apply (Hun P HP (Named id)).
    - intros j Hj. rewrite lookup_insert_ne by (by intros <-). by apply V2.
    - intros n P HP Hn. rewrite lookup_insert_ne; [by apply (V3 n P)|]. intros E. by apply (Hun P HP n). }
  wp_step io_call_spec. intros r s1 (E1 & R1 & _). rewrite <- E1 in *. destruct r as [[]|e]; [|done]. apply wp_bind, wp_fs.
  destruct (inv_make _ _ _ id f HV Hp) as [V2 Hh2]. set (s2 := MkEnv _ _ _).
  assert (Hn2 : Temp id ∈ names (fs s2)) by (apply names_make_view; by left).
  assert (Hd2 : dir_of (fs s2) (Temp id) = ∅) by (unfold dir_of; cbn; by rewrite lookup_insert_eq).
  assert (Hc2 : forall g, clean_in (Temp id) (fs s2) g) by (intros g i; cbn; rewrite lookup_insert_eq; intros [= <-] k x H; unfold in_entries in H; cbn in H; by rewrite lookup_empty in H).
  apply wp_bind, wp_try. eapply wp_mono; [apply (fill_spec b (<[id := f]> pub) must id f parts); try done; apply lookup_insert_eq|]. cbn beta. intros r s3 (R3 & V3 & H3).
  destruct r as [[]|e].
  - destruct H3 as [Hn3 Hset]. eapply wp_mono; [by apply (syncParent_spec b)|]. cbn beta. intros r s4 (R4 & H4). split; [done|]. destruct r as [[]|e].
    + rewrite H4. eapply inv_published; try done. apply lookup_insert_eq.
    + destruct H4 as [_ [-> | ->]]; [done|]. eapply inv_settles; [done|apply settles_flush_names].
  - apply wp_bind, wp_try. eapply wp_mono; [apply (RemoveAll_spec b (<[id := f]> pub) must order (Temp id)); try done; [by left|intros _ g Hg; by destruct (Hg (Ho g))]|].
    cbn beta. intros r s4 ((R4 & V4 & _) & _). by apply wp_throw.
Qed.

(** ** Histories *)

Definition quiet_calls (cs : list call) (st : list bool) : Prop := Forall (eq CallOk) cs /\ Forall (eq true) st.

(** One step of the directory's life, with any answers of the system calls ([Stat]
    apart) and any listing order: a block written, a block deleted, a startup, a power
    cut.  An id is used once. *)
Inductive dir_step : FS * gmap Z block_files * gset Z -> FS * gmap Z block_files * gset Z -> Prop :=
| dst_write s pub must order cs st id f parts e r : (forall g, g ∈ order) -> Forall (eq true) st -> pub !! id = None -> concat parts = bf_chunks f ->
    write_dir order id f parts (MkEnv s cs st) = (e, r) ->
    dir_step (s, pub, must) (fs e, <[id := f]> pub, match r with Ok _ => {[ id ]} ∪ must | Err _ => must end)
| dst_delete s pub must order cs st id e r : (forall g, g ∈ order) -> Forall (eq true) st ->
    Delete order id (MkEnv s cs st) = (e, r) -> dir_step (s, pub, must) (fs e, pub, must ∖ {[ id ]})
| dst_startup s pub must order cs st e r : (forall g, g ∈ order) -> Forall (eq true) st ->
    startup_files order (MkEnv s cs st) = (e, r) -> dir_step (s, pub, must) (fs e, pub, must)
| dst_power s pub must s' : power_cut s s' -> dir_step (s, pub, must) (s', pub, must).

Lemma wp_run {S E A} (m : SE S E A) Q s s' r : wp m Q s -> m s = (s', r) -> Q r s'.
Proof. unfold wp. intros H Hm. by rewrite Hm in H. Qed.

Lemma dir_step_inv x y : dir_step x y -> dir_inv x.1.2 x.2 x.1.1 -> dir_inv y.1.2 y.2 y.1.1.
Proof.
  assert (Hrdy : forall s cs st, Forall (eq true) st -> ready false (MkEnv s cs st)) by (by split).
  intros [s pub must order cs st id f parts e r Ho Hst Hp Hc E|s pub must order cs st id e r Ho Hst E|s pub must order cs st e r Ho Hst E|s pub must s' Hpc]; cbn [fst snd]; intros HV.
  - by apply (wp_run _ _ _ _ _ (write_dir_spec false pub must order id f parts _ Ho (Hrdy s cs st Hst) HV Hp Hc) E).
  - apply (wp_run _ _ _ _ _ (Delete_spec false pub (must ∖ {[ id ]}) order id _ (Hrdy s cs st Hst) (inv_forget _ _ _ id HV) ltac:(set_solver)) E).
  - by apply (wp_run _ _ _ _ _ (startup_spec false pub must order Ho _ (Hrdy s cs st Hst) HV) E).
  - eapply inv_settles; [exact HV|by apply settles_power].
Qed.

Definition no_blocks : FS := MkFS ∅ [] ∅.

Lemma no_blocks_inv : dir_inv ∅ ∅ no_blocks.
Proof.
  assert (Hno : forall n P, names_may no_blocks P -> n ∉ P) by (intros n P ->%outcome_nil; set_solver).
  split.
  - intros id P HP H. by destruct (Hno _ _ HP H).
  - intros id H. set_solver.
  - intros n P HP H. by destruct (Hno _ _ HP H).
  - intros id P HP H. by destruct (Hno _ _ HP H).
  - intros id H. by destruct (Hno _ _ (names_may_view _) H).
  - intros id i H. by destruct (Hno _ _ (names_may_view _) H).
Qed.

Lemma history_inv x y : rtc dir_step x y -> dir_inv x.1.2 x.2 x.1.1 -> dir_inv y.1.2 y.2 y.1.1.
Proof. induction 1; [done|]. intros HV. apply IHrtc. by eapply dir_step_inv. Qed.


(** *** Example: a power cut in the middle of a deletion *)

(** The cut that loses most: no pending change is kept, and what was not synced is empty. *)
Definition lose_file (x : file) : file := MkFile (if f_synced x then f_now x else empty_content (f_now x)) true.
Definition lose (s : FS) : FS := MkFS (pd_disk s) [] ((fun i => MkInode (in_disk i) [] (lose_file <$> in_files i)) <$> inodes s).
Lemma power_cut_lose s : power_cut s (lose s).
Proof.
  split; [exists []; split; [apply sublist_nil_l|done]|]. split; [done|]. intros id. cbn. rewrite lookup_fmap. destruct (inodes s !! id); cbn; [|done].
  split; [exists []; split; [apply sublist_nil_l|done]|]. split; [done|]. intros x. rewrite lookup_fmap. destruct (in_files _ !! x) as [y|]; cbn; [|done]. split; [done|]. by intros ->.
Qed.

Definition ex_block (id : Z) : block_files := MkBlockFiles (MkMeta id 1 10 20 (MkBStats 1 1 1) 0 [] 0) [1; id] [2; id].
Definition ex_run {A} (m : DM A) (cs : list call) (s : FS) : FS := fs (m (MkEnv s cs [])).1.

(** Two blocks written; the deletion of the first stops at the sync that follows the
    removal of its meta.json, and the power goes with nothing of the rest on disk. *)
Definition ex_written : FS := ex_run (write_dir all_files 8 (ex_block 8) [[2]; [8]]) [] (ex_run (write_dir all_files 7 (ex_block 7) [[2]; [7]]) [] no_blocks).
Definition ex_stopped : FS := ex_run (Delete all_files 7) (replicate 8 CallOk ++ [CallFails 0]) ex_written.

Lemma all_files_all f : f ∈ all_files.
Proof. destruct f; unfold all_files; set_solver. Qed.

Lemma ex_history : rtc dir_step (no_blocks, ∅, ∅) (ex_stopped, <[8 := ex_block 8]> (<[7 := ex_block 7]> ∅), ({[ 8 ]} ∪ ({[ 7 ]} ∪ ∅)) ∖ {[ 7 ]}).
Proof.
  eapply rtc_l; [|eapply rtc_l; [|eapply rtc_l; [|constructor]]].
  - eapply (dst_write _ _ _ all_files [] [] 7 (ex_block 7) [[2]; [7]] _ (Ok tt)); [exact all_files_all|constructor|reflexivity|reflexivity|vm_compute; reflexivity].
  - eapply (dst_write _ _ _ all_files [] [] 8 (ex_block 8) [[2]; [8]] _ (Ok tt)); [exact all_files_all|constructor|reflexivity|reflexivity|vm_compute; reflexivity].
  - eapply (dst_delete _ _ _ all_files (replicate 8 CallOk ++ [CallFails 0]) [] 7); [exact all_files_all|constructor|vm_compute; reflexivity].
Qed.


(** A [Stat] that fails for another reason than absence makes startup remove a
    complete block. *)
Lemma stat_error_removes_block :
  (startup_files all_files (MkEnv (ex_run (write_dir all_files 7 (ex_block 7) [[2]; [7]]) [] no_blocks) [] [true; false])).2 = Ok []
  /\ (startup_files all_files (MkEnv (ex_run (write_dir all_files 7 (ex_block 7) [[2]; [7]]) [] no_blocks) [] [true; true])).2 = Ok [ex_block 7].
Proof. split; vm_compute; reflexivity. Qed.
