(* ===== verification/Db.v ===== *)
(** * The metric database (internal/tsdb/db: db.go, query.go, maintain.go)

    The store the rest of the program talks to: the head over its write-ahead
    log, and the immutable blocks on disk.  A query reads the head, then takes
    the block list, then merges; a block cut publishes the block and only then
    truncates the head.  The block list is its value: file handles and their
    reader counts are not in it. *)

From Stdlib Require Import ZArith Lia.
From Stdlib Require Import (notations) String.
From stdpp Require Import base sorting gmap numbers list.
From S2P Require Import Prelude Chunkenc Wal WalTruncate Gofloat Gostring Tsdb Index HeadRecord Head HeadSeries Compact BlockFile Block.

(** ** Options and state *)

Record DBOptions := MkDBOptions {
  do_BlockRange : Z;      (* nanoseconds, as every duration *)
  do_Retention : Z;
  do_MaxBytes : Z;
  do_MaxBlockRange : Z;
}.

Definition cutThreshold : Z := 3.

Record DB := MkDB { db_opts : DBOptions; db_head : Head WAL; db_blocks : list Block }.

Definition with_head (h : Head WAL) (db : DB) : DB := MkDB (db_opts db) h (db_blocks db).
Definition with_blocks (bs : list Block) (db : DB) : DB := MkDB (db_opts db) (db_head db) bs.

(** [ctx.Err()] of a context that is done; [None] is a context that is not. *)
Inductive ctx_error := Canceled | DeadlineExceeded.

Inductive db_error :=
| ErrContext (e : ctx_error)
| ErrHeadRead (e : chunk_error) | ErrBlockRead (e : read_error) | ErrAppendLog (e : head_error)
| ErrNothingToCut | ErrWriteBlock (e : write_error) | ErrOpenBlock (e : read_error)
| ErrMerge (e : merge_error) | ErrPlanPanic | ErrDelete
| ErrOpenLog (e : wal_error) | ErrReplayLog (e : replay_error).

(** ** Queries *)

Record merging := MkMerging { mg_Series : SeriesRef; mg_Samples : list (Z * Z); mg_unordered : bool }.

Definition add_sample (into : merging) (smp : Z * Z) : merging :=
  let unordered := match last (mg_Samples into) with Some l => (smp.1 <=? l.1) | None => false end in
  MkMerging (mg_Series into) (mg_Samples into ++ [smp]) (mg_unordered into || unordered).

Definition add_series (merged : gmap gostring merging) (s : SeriesRef * list (Z * Z)) : gmap gostring merging :=
  let key := Key s.1 in
  let into := match merged !! key with Some m => m | None => MkMerging s.1 [] false end in
  <[key := foldl add_sample into s.2]> merged.

Definition add_source (merged : gmap gostring merging) (src : list (SeriesRef * list (Z * Z))) : gmap gostring merging :=
  foldl add_series merged src.

(** [sort.SliceStable] by time: equal timestamps keep their order. *)
Fixpoint insert_stable (s : Z * Z) (l : list (Z * Z)) : list (Z * Z) :=
  match l with
  | [] => [s]
  | x :: l' => if s.1 <=? x.1 then s :: l else x :: insert_stable s l'
  end.
Definition SliceStable (l : list (Z * Z)) : list (Z * Z) := foldr insert_stable [] l.

(** [slices.CompactFunc]: of a run of equal timestamps the first. *)
Fixpoint compact_from (prev : Z) (l : list (Z * Z)) : list (Z * Z) :=
  match l with
  | [] => []
  | s :: l' => if prev =? s.1 then compact_from prev l' else s :: compact_from s.1 l'
  end.
Definition CompactFunc (l : list (Z * Z)) : list (Z * Z) :=
  match l with [] => [] | s :: l' => s :: compact_from s.1 l' end.

Definition finish_series (m : merging) : option (SeriesRef * list (Z * Z)) :=
  match mg_Samples m with
  | [] => None
  | _ => Some (mg_Series m, if mg_unordered m then CompactFunc (SliceStable (mg_Samples m)) else mg_Samples m)
  end.

Fixpoint select_blocks (sel : Selector) (from to : Z) (bs : list Block) (merged : gmap gostring merging) :
  result db_error (gmap gostring merging) :=
  match bs with
  | [] => Ok merged
  | b :: rest =>
      if negb (Overlaps b from to) then select_blocks sel from to rest merged else
      match BlockSelect b sel from to with
      | Err e => Err (ErrBlockRead e)
      | Ok got => select_blocks sel from to rest (add_source merged got)
      end
  end.

(** What [Select] does once it has the head's answer and the block list. *)
Definition merge_select (sel : Selector) (from to : Z) (fromHead : list (SeriesRef * list (Z * Z))) (bs : list Block) :
  result db_error (list (SeriesRef * list (Z * Z))) :=
  match select_blocks sel from to bs ∅ with
  | Err e => Err e
  | Ok merged =>
      let merged := add_source merged fromHead in
      Ok (merge_sort key_le (omap finish_series (map_to_list merged).*2))
  end.

(** [Select] with the context as it was when it was called, the head as it was when
    it was read, and the block list as it was when it was taken. *)
Definition DbSelect (ctx : option ctx_error) (sel : Selector) (from to : Z) (h : Head WAL) (bs : list Block) :
  result db_error (list (SeriesRef * list (Z * Z))) :=
  match ctx with
  | Some e => Err (ErrContext e)
  | None =>
      match HeadSelect sel from to h with
      | Err e => Err (ErrHeadRead e)
      | Ok fromHead => merge_select sel from to fromHead bs
      end
  end.

(** ** Metadata *)

Definition metadata (limit : Z) (askHead : list gostring) (askBlocks : list (list gostring)) : list gostring :=
  let seen : gset gostring := list_to_set (askHead ++ concat askBlocks) in
  let out := merge_sort str_le (elements seen) in
  if (0 <? limit) && (limit <? Z.of_nat (length out)) then take (Z.to_nat limit) out else out.

Definition MetricNames (prefix : gostring) (limit : Z) (h : Head WAL) (bs : list Block) : list gostring :=
  metadata limit (Metrics (h_postings h) prefix) ((fun b => Metrics (blk_ix b) prefix) <$> bs).
Definition DbTagKeys (metric : gostring) (h : Head WAL) (bs : list Block) : list gostring :=
  metadata 0 (Keys (h_postings h) metric) ((fun b => Keys (blk_ix b) metric) <$> bs).
Definition DbTagValues (metric key : gostring) (limit : Z) (h : Head WAL) (bs : list Block) : list gostring :=
  metadata limit (Values (h_postings h) metric key) ((fun b => Values (blk_ix b) metric key) <$> bs).

(** [eachSeries]: the series of one metric, once per place that holds them. *)
Fixpoint each_block (metric : gostring) (bs : list Block) : result db_error (list SeriesRef) :=
  match bs with
  | [] => Ok []
  | b :: rest =>
      match BSeriesOf b metric with
      | Err e => Err (ErrBlockRead e)
      | Ok refs => match each_block metric rest with Err e => Err e | Ok out => Ok (refs ++ out) end
      end
  end.
Definition eachSeries (metric : gostring) (h : Head WAL) (bs : list Block) : result db_error (list SeriesRef) :=
  match each_block metric bs with Err e => Err e | Ok out => Ok (SeriesOf metric h ++ out) end.

Fixpoint series_counts (names : list gostring) (h : Head WAL) (bs : list Block) : result db_error (list (gostring * Z)) :=
  match names with
  | [] => Ok []
  | name :: rest =>
      match eachSeries name h bs with
      | Err e => Err e
      | Ok refs =>
          let keys : gset gostring := list_to_set (Key <$> refs) in
          match series_counts rest h bs with
          | Err e => Err e
          | Ok out => Ok (if (0 <? size keys)%nat then (name, Z.of_nat (size keys)) :: out else out)
          end
      end
  end.
Definition SeriesCounts (prefix : gostring) (h : Head WAL) (bs : list Block) : result db_error (list (gostring * Z)) :=
  series_counts (MetricNames prefix 0 h bs) h bs.

(** [TagCardinality]: how many series carry each tag key of a metric, and with how
    many non-empty values. *)
Record tag_acc := MkTagAcc { ta_series : Z; ta_values : gset gostring }.
Record TagKeyCardinality := MkTagKeyCardinality { tk_Key : gostring; tk_Series : Z; tk_Values : Z }.
Record MetricTagCardinality := MkMetricTagCardinality { mt_Series : Z; mt_Keys : list TagKeyCardinality }.

Definition count_tag (st : gmap gostring tag_acc * gset gostring) (t : Tag) : gmap gostring tag_acc * gset gostring :=
  let '(byKey, counted) := st in
  let a := default (MkTagAcc 0 ∅) (byKey !! t_Key t) in
  let a := if decide (t_Key t ∈ counted) then a else MkTagAcc (ta_series a + 1) (ta_values a) in
  let a := if decide (t_Value t = []) then a else MkTagAcc (ta_series a) ({[ t_Value t ]} ∪ ta_values a) in
  (<[t_Key t := a]> byKey, {[ t_Key t ]} ∪ counted).

Definition count_ref (byKey : gmap gostring tag_acc) (ref : SeriesRef) : gmap gostring tag_acc :=
  (foldl count_tag (byKey, ∅) (sr_Tags ref)).1.

Definition key_of_le (a b : TagKeyCardinality) : Prop := str_le (tk_Key a) (tk_Key b).
#[export] Instance key_of_le_dec : RelDecision key_of_le.
Proof. intros a b. unfold key_of_le. apply _. Defined.

Definition cardinality_of (refs : list SeriesRef) : MetricTagCardinality :=
  let series : gmap gostring SeriesRef := foldl (fun m ref => <[Key ref := ref]> m) ∅ refs in
  let byKey := foldl count_ref ∅ (map_to_list series).*2 in
  MkMetricTagCardinality (Z.of_nat (size series))
    (merge_sort key_of_le ((fun ka : gostring * tag_acc => MkTagKeyCardinality ka.1 (ta_series ka.2) (Z.of_nat (size (ta_values ka.2)))) <$> map_to_list byKey)).

Definition TagCardinality (metric : gostring) (h : Head WAL) (bs : list Block) : result db_error MetricTagCardinality :=
  match eachSeries metric h bs with Err e => Err e | Ok refs => Ok (cardinality_of refs) end.

(** ** Appends *)

Inductive reason := ReasonInvalid (e : ref_error) | ReasonNonFinite | ReasonHead (e : head_error).
Record Rejected := MkRejected { rd_Series : SeriesRef; rd_Reason : reason }.
Record AppendResult := MkAppendResult { ar_Series : Z; ar_Samples : Z; ar_Rejected : list Rejected }.

Definition validate (ss : SeriesRef * list (Z * Z)) : option reason :=
  match Validate ss.1 with
  | Err e => Some (ReasonInvalid e)
  | Ok _ => if existsb (fun s => isNaN s.2 || isInf s.2) ss.2 then Some ReasonNonFinite else None
  end.

(** The batch as the head takes it: one entry per sample, and whose it is. *)
Record flat := MkFlat { fl_refs : list SeriesRef; fl_samples : list HSample; fl_owner : list nat; fl_rejected : list Rejected }.

Fixpoint flatten (i : nat) (batch : list (SeriesRef * list (Z * Z))) (f : flat) : flat :=
  match batch with
  | [] => f
  | ss :: rest =>
      flatten (S i) rest
        (match validate ss with
         | Some r => MkFlat (fl_refs f) (fl_samples f) (fl_owner f) (fl_rejected f ++ [MkRejected ss.1 r])
         | None => MkFlat (fl_refs f ++ replicate (length ss.2) ss.1)
                     (fl_samples f ++ ((fun s => MkHSample 0 s.1 s.2) <$> ss.2))
                     (fl_owner f ++ replicate (length ss.2) i) (fl_rejected f)
         end)
  end.

(** The loop over the head's rejections: one entry per series. *)
Fixpoint attribute (batch : list (SeriesRef * list (Z * Z))) (owner : list nat) (rejected : list Rejection)
    (refused : gset nat) (out : list Rejected) : result db_error (list Rejected) :=
  match rejected with
  | [] => Ok out
  | r :: rest =>
      if rj_Index r <? 0 then Err (ErrAppendLog (rj_Err r)) else
      match owner !! Z.to_nat (rj_Index r) with
      | None => Err ErrPlanPanic
      | Some idx =>
          if decide (idx ∈ refused) then attribute batch owner rest refused out else
          match batch !! idx with
          | None => Err ErrPlanPanic
          | Some ss => attribute batch owner rest ({[ idx ]} ∪ refused) (out ++ [MkRejected ss.1 (ReasonHead (rj_Err r))])
          end
      end
  end.

Definition append_batch (batch : list (SeriesRef * list (Z * Z))) (db : DB) : DB * result db_error AppendResult :=
  let f := flatten 0 batch (MkFlat [] [] [] []) in
  match fl_samples f with
  | [] => (db, Ok (MkAppendResult 0 0 (fl_rejected f)))
  | _ =>
      let '(h, stored, rejected) := HeadAppend (fl_refs f) (fl_samples f) (db_head db) in
      let db := with_head h db in
      match attribute batch (fl_owner f) rejected ∅ (fl_rejected f) with
      | Err e => (db, Err e)
      | Ok rej =>
          let stored := default [] stored in
          let wrote : gset nat := list_to_set (omap (fun ow : nat * bool => if ow.2 then Some ow.1 else None) (zip (fl_owner f) stored)) in
          (db, Ok (MkAppendResult (Z.of_nat (size wrote)) (Z.of_nat (length (filter (fun b => b = true) stored))) rej))
      end
  end.

(** [Append]: nothing is done for a context that is done. *)
Definition DbAppend (ctx : option ctx_error) (batch : list (SeriesRef * list (Z * Z))) (db : DB) : DB * result db_error AppendResult :=
  match ctx with Some e => (db, Err (ErrContext e)) | None => append_batch batch db end.

(** ** Block cuts *)

(** [truncateLog]: drop the segments before the one being written, keeping what
    the head's bound still needs in a checkpoint. *)
Definition truncateLog (h : Head WAL) : Head WAL * result wal_error unit :=
  match h_wal h with
  | None => (h, Ok tt)
  | Some w =>
      match Truncate (w_dir w) (w_segment w) (Some (keepForCheckpoint (h_minValid h))) with
      | Err e => (h, Err e)
      | Ok ops =>
          let w := MkWAL (foldl apply_op (w_dir w) ops) (w_segmentSize w) (w_fopen w) (w_segment w) (w_size w)
                     (w_closed w) (w_broken w) (w_script w) in
          (with_wal (Some w) h, Ok tt)
      end
  end.

Definition rangeMs (db : DB) : Z := Milliseconds (do_BlockRange (db_opts db)).

(** Where the head would be cut now, if it is time to. *)
Definition cut_point (now : Z) (db : DB) : option Z :=
  let st := Stats (db_head db) in
  let r := rangeMs db in
  if (st_Samples st =? 0) || (int64 (st_MaxT st - st_MinT st) <? Z.quot (int64 (r * cutThreshold)) 2) then None else
  let cutAt := int64 (int64 (BlockOf (st_MinT st) r * r) + r) in
  let nowBoundary := int64 (BlockOf now r * r) in
  if nowBoundary <? cutAt then None else Some cutAt.

Definition everything : Selector := MkSelector [] [].

(** The block with the head's samples below [cutAt], written and opened; the
    directory of a block that does not open is deleted again. *)
Definition cut_write (cutAt id : Z) (io : list bool) (h : Head WAL) : result db_error Block :=
  match HeadSelect everything (- 2 ^ 63) (int64 (cutAt - 1)) h with
  | Err e => Err (ErrHeadRead e)
  | Ok [] => Err ErrNothingToCut
  | Ok series =>
      match Write id series (MkWriterOptions 0 [] 0) io with
      | (_, Err ErrEmpty) => Err ErrNothingToCut
      | (_, Err e) => Err (ErrWriteBlock e)
      | (w, Ok _) =>
          match bw_published w with
          | None => Err (ErrOpenBlock (ErrFile ErrPanic))   (* no directory to open: unreachable *)
          | Some f => match BlockOpen f with Ok b => Ok b | Err e => Err (ErrOpenBlock e) end
          end
      end
  end.

Definition publish (b : Block) (db : DB) : DB := with_blocks (sortBlocks (db_blocks db ++ [b])) db.
Definition truncate_head (cutAt : Z) (db : DB) : DB := with_head (HeadTruncate cutAt (db_head db)).1.1 db.

(** [CutBlock]: freeze, write, publish, truncate the head, truncate the log. *)
Definition CutBlock (now id : Z) (io : list bool) (db : DB) : DB * result db_error Meta :=
  match cut_point now db with
  | None => (db, Err ErrNothingToCut)
  | Some cutAt =>
      let db := with_head (Freeze cutAt (db_head db)) db in
      match cut_write cutAt id io (db_head db) with
      | Err e => (db, Err e)
      | Ok b =>
          let db := truncate_head cutAt (publish b db) in
          (with_head (truncateLog (db_head db)).1 db, Ok (blk_meta b))
      end
  end.

(** ** Compaction, retention *)

(** [Compact]: whether it merged anything. *)
Definition DbCompact (id : Z) (io : list bool) (db : DB) : DB * result db_error bool :=
  match Next_ (db_blocks db) (MkCOptions 0 (do_MaxBlockRange (db_opts db))) with
  | None => (db, Ok false)
  | Some plan =>
      match merge id plan io with
      | None => (db, Err ErrPlanPanic)
      | Some (_, Err e) => (db, Err (ErrMerge e))
      | Some (w, Ok _) =>
          match bw_published w with
          | None => (db, Err (ErrOpenBlock (ErrFile ErrPanic)))
          | Some f =>
              match BlockOpen f with
              | Err e => (db, Err (ErrOpenBlock e))
              | Ok merged => (with_blocks (swap plan merged (db_blocks db)) db, Ok true)
              end
          end
      end
  end.

(** [applySizeCap] over the block list it took: the blocks left, the bytes left,
    and whether a removal failed; a block is the one with its id.  [size b] is the size of a block's directory, or
    that it could not be read; [deletes] says which deletions succeed. *)
Fixpoint evict (maxBytes : Z) (size : Block -> option Z) (todo : list Block) (deletes : list bool) (blocks : list Block) (used : Z) (failed : bool) :
  list Block * Z * bool :=
  match todo with
  | [] => (blocks, used, failed)
  | b :: rest =>
      if used <=? maxBytes then (blocks, used, failed) else
      match size b with
      | None => evict maxBytes size rest deletes blocks used true
      | Some n =>
          let blocks := filter (fun other => bm_ULID (blk_meta other) <> bm_ULID (blk_meta b)) blocks in
          match deletes with
          | false :: deletes => evict maxBytes size rest deletes blocks used true
          | true :: deletes => evict maxBytes size rest deletes blocks (used - n) failed
          | [] => evict maxBytes size rest [] blocks (used - n) failed
          end
      end
  end.

Definition applySizeCap (usage : option Z) (size : Block -> option Z) (deletes : list bool) (db : DB) : DB * result db_error unit :=
  let maxBytes := do_MaxBytes (db_opts db) in
  if maxBytes <=? 0 then (db, Ok tt) else
  match usage with
  | None => (db, Err ErrDelete)
  | Some used =>
      if used <=? maxBytes then (db, Ok tt) else
      let '(blocks, _, failed) := evict maxBytes size (db_blocks db) deletes (db_blocks db) used false in
      (with_blocks blocks db, if failed then Err ErrDelete else Ok tt)
  end.

(** [ApplyRetention] with a wall clock of [now] nanoseconds: blocks past the
    window go first, then the oldest until the rest fits. *)
Definition ApplyRetention (now : Z) (usage : option Z) (size : Block -> option Z) (expired deletes : list bool) (db : DB) : DB * result db_error unit :=
  let kept :=
    if 0 <=? do_Retention (db_opts db)
    then retain (Z.div (now - do_Retention (db_opts db)) 1000000) (db_blocks db) else db_blocks db in
  let failed := existsb negb (take (length (db_blocks db) - length kept) expired) in
  let '(db, r) := applySizeCap usage size deletes (with_blocks kept db) in
  (db, if failed then Err ErrDelete else r).

(** ** Statistics *)

Definition DbStats (db : DB) : Z * Z :=
  let hs := Stats (db_head db) in
  foldl (fun acc b => (acc.1 + bs_Series (bm_Stats (blk_meta b)), acc.2 + bs_Samples (bm_Stats (blk_meta b))))
    (st_Series hs, st_Samples hs) (db_blocks db).

(** ** Startup *)

Definition blocksMaxTime (bs : list Block) : option Z :=
  foldl (fun acc b => let t := bm_MaxTime (blk_meta b) in
           if match acc with Some m => m | None => - 2 ^ 63 end <? t then Some t else acc) None bs.

(** [OpenAll]: the complete block directories, in name order, sorted by time. *)
Fixpoint open_each (files : list block_files) : result read_error (list Block) :=
  match files with
  | [] => Ok []
  | f :: rest =>
      match BlockOpen f with
      | Err e => Err e
      | Ok b => match open_each rest with Err e => Err e | Ok bs => Ok (b :: bs) end
      end
  end.
Definition OpenAll (files : list block_files) : result read_error (list Block) :=
  match open_each files with Err e => Err e | Ok bs => Ok (sortBlocks bs) end.

(** [Open] on a directory with these blocks (the leftovers of interrupted deletions
    and writes are gone by then) and this log.  [deleted] says whether the
    superseded blocks could be deleted. *)
Definition DbOpen (opts : DBOptions) (max : Z) (sync : bool) (segmentSize : Z) (files : list block_files) (deleted : bool)
    (d : Dir) (script : list io) : result db_error DB :=
  match OpenAll files with
  | Err e => Err (ErrOpenBlock e)
  | Ok all =>
      let blocks := dropSuperseded all in
      if negb (length blocks =? length all)%nat && negb deleted then Err ErrDelete else
      match Repair d with
      | Err e => Err (ErrOpenLog e)
      | Ok (d, _) =>
          match Open d segmentSize script with
          | (_, Err e) => Err (ErrOpenLog e)
          | (w, Ok _) =>
              let h := NewHead (Some w) (Milliseconds (do_BlockRange opts)) max sync in
              let h := match blocksMaxTime blocks with
                       | Some maxT => (HeadTruncate (int64 (maxT + 1)) h).1.1
                       | None => h
                       end in
              match Replay (w_dir w) h with
              | Err e => Err (ErrReplayLog e)
              | Ok (h, _) => Ok (MkDB opts h blocks)
              end
          end
      end
  end.
