(* ===== verification/DbMerge.v ===== *)
(** * The query's merge

    Whatever the sources offer, a merged series has each instant once, in time
    order, with the value of the first source that has it. *)

From Stdlib Require Import ZArith Lia.
From Stdlib Require Import (notations) String.
From stdpp Require Import base sorting gmap numbers list.
From S2P Require Import Prelude Chunkenc Wal Gostring Tsdb Index HeadRecord Head HeadSeries HeadStore HeadOps Compact BlockFile Block BlockServe Db.

Abbreviation at_time t := (filter (fun s : Z * Z => s.1 = t)).

(** ** Stable sort *)

Definition ascending (l : list (Z * Z)) : Prop := StronglySorted (fun a b => a.1 <= b.1) l.

Lemma insert_stable_elem s l x : x ∈ insert_stable s l <-> x = s \/ x ∈ l.
Proof.
  induction l as [|y l IH]; cbn [insert_stable]; [by rewrite list_elem_of_singleton, elem_of_nil; naive_solver|].
  destruct (s.1 <=? y.1); rewrite !elem_of_cons; [done|]. rewrite IH. naive_solver.
Qed.

Lemma insert_stable_ascending s l : ascending l -> ascending (insert_stable s l).
Proof.
  induction 1 as [|x l Hl IH Hx]; cbn [insert_stable]; [repeat constructor|]. rewrite Forall_forall in Hx.
  destruct (Z.leb_spec s.1 x.1) as [Hle|Hgt].
  - constructor; [constructor; [done|by apply Forall_forall]|]. apply Forall_cons_2; [done|]. apply Forall_forall. intros y Hy. specialize (Hx y Hy). lia.
  - constructor; [done|]. apply Forall_forall. intros y [->|Hy]%insert_stable_elem; [lia|by apply Hx].
Qed.

Lemma insert_stable_at s l t : at_time t (insert_stable s l) = at_time t (s :: l).
Proof.
  induction l as [|x l IH]; cbn [insert_stable]; [done|]. destruct (Z.leb_spec s.1 x.1) as [Hle|Hgt]; [done|].
  rewrite !filter_cons in *. rewrite IH. destruct (decide (x.1 = t)), (decide (s.1 = t)); [lia|done..].
Qed.

Lemma SliceStable_spec l : ascending (SliceStable l) /\ forall t, at_time t (SliceStable l) = at_time t l.
Proof.
  induction l as [|s l [IHa IHt]]; cbn [SliceStable foldr]; [split; [constructor|done]|]. fold (SliceStable l) in *. split.
  - by apply insert_stable_ascending.
  - intros t. rewrite insert_stable_at, !filter_cons, IHt. done.
Qed.

(** ** Removing repeats *)

Lemma compact_from_spec l : forall prev, ascending l -> Forall (fun s => prev <= s.1) l ->
  run (compact_from prev l) /\ Forall (fun s => prev < s.1) (compact_from prev l)
  /\ forall t, t <> prev -> at_time t (compact_from prev l) = take 1 (at_time t l).
Proof.
  induction l as [|s l IH]; intros prev Ha Hp; cbn [compact_from]; [split_and!; [constructor..|done]|].
  apply StronglySorted_inv in Ha as [Ha Hs]. apply Forall_cons_1 in Hp as [Hps Hp]. destruct (Z.eqb_spec prev s.1) as [E|Hne].
  - destruct (IH prev Ha Hp) as (H1 & H2 & H3). split_and!; [done|done|]. intros t Ht. rewrite filter_cons_False by congruence. by apply H3.
  - destruct (IH s.1 Ha Hs) as (H1 & H2 & H3). split_and!.
    + constructor; [done|]. eapply Forall_impl; [exact H2|]. intros x Hx. done.
    + apply Forall_cons_2; [lia|]. eapply Forall_impl; [exact H2|]. cbn. lia.
    + intros t Ht. destruct (decide (s.1 = t)) as [<-|Hst].
      * rewrite !filter_cons_True by done. cbn [take]. f_equal. rewrite take_0. apply filter_none. intros x Hx. rewrite Forall_forall in H2. specialize (H2 x Hx). lia.
      * rewrite !filter_cons_False by done. by apply H3.
Qed.

Lemma CompactFunc_spec l : ascending l -> run (CompactFunc l) /\ forall t, at_time t (CompactFunc l) = take 1 (at_time t l).
Proof.
  destruct l as [|s l]; [split; [constructor|done]|]. intros Ha. apply StronglySorted_inv in Ha as [Ha Hs]. cbn [CompactFunc].
  destruct (compact_from_spec l s.1 Ha Hs) as (H1 & H2 & H3). split; [constructor; [done|]; eapply Forall_impl; [exact H2|]; done|].
  intros t. destruct (decide (s.1 = t)) as [<-|Hst].
  - rewrite !filter_cons_True by done. cbn [take]. f_equal. rewrite take_0. apply filter_none. intros x Hx. rewrite Forall_forall in H2. specialize (H2 x Hx). lia.
  - rewrite !filter_cons_False by done. by apply H3.
Qed.

(** A run has each instant at most once. *)
Lemma run_at l t : run l -> at_time t l = take 1 (at_time t l).
Proof.
  induction 1 as [|s l Hl IH Hs]; [done|]. destruct (decide (s.1 = t)) as [<-|Hst].
  - rewrite !filter_cons_True by done. cbn [take]. f_equal. rewrite take_0. apply filter_none. intros x Hx. rewrite Forall_forall in Hs. specialize (Hs x Hx). unfold before in Hs. lia.
  - by rewrite !filter_cons_False.
Qed.

Lemma run_unique l t v v' : run l -> (t, v) ∈ l -> (t, v') ∈ l -> v = v'.
Proof.
  induction 1 as [|s l Hl IH Hs]; intros Hv Hv'; [by apply not_elem_of_nil in Hv|]. rewrite Forall_forall in Hs. unfold before in Hs.
  apply elem_of_cons in Hv as [<-|Hv], Hv' as [E|Hv']; [by injection E|specialize (Hs _ Hv'); cbn in Hs; lia|subst s; specialize (Hs _ Hv); cbn in Hs; lia|by apply IH].
Qed.

(** What a merged series' samples become. *)
Definition settled (m : merging) : list (Z * Z) := if mg_unordered m then CompactFunc (SliceStable (mg_Samples m)) else mg_Samples m.

Definition flagged (m : merging) : Prop := mg_unordered m = false -> run (mg_Samples m).

Lemma settled_spec m : flagged m -> run (settled m) /\ forall t, at_time t (settled m) = take 1 (at_time t (mg_Samples m)).
Proof.
  unfold flagged, settled. intros Hf. destruct (mg_unordered m).
  - destruct (SliceStable_spec (mg_Samples m)) as [Ha Ht]. destruct (CompactFunc_spec _ Ha) as [Hr Hc]. split; [done|]. intros t. by rewrite Hc, Ht.
  - specialize (Hf eq_refl). split; [done|]. intros t. by apply run_at.
Qed.

Lemma add_sample_flagged m s : flagged m -> flagged (add_sample m s).
Proof.
  unfold flagged, add_sample. cbn. intros Hf [Hu Hl]%orb_false_iff. specialize (Hf Hu). destruct s as [t v]. apply run_snoc; [done|]. intros x Hx.
  destruct (last (mg_Samples m)) as [[lt lv]|] eqn:El; [|apply last_None in El; rewrite El in Hx; by apply not_elem_of_nil in Hx].
  apply Z.leb_gt in Hl. pose proof (run_last_max _ _ _ Hf El x Hx). cbn in Hl. lia.
Qed.

Lemma add_samples_spec ss : forall m, flagged m -> flagged (foldl add_sample m ss) /\ mg_Samples (foldl add_sample m ss) = mg_Samples m ++ ss
  /\ mg_Series (foldl add_sample m ss) = mg_Series m.
Proof.
  induction ss as [|s ss IH]; intros m Hm; cbn [foldl]; [by rewrite app_nil_r|].
  destruct (IH (add_sample m s) (add_sample_flagged m s Hm)) as (H1 & H2 & H3). split_and!; [done| |done].
  rewrite H2. cbn. by rewrite <- app_assoc.
Qed.

(** ** Many sources *)

Abbreviation entries := (list (SeriesRef * list (Z * Z))).

(** What the entries of one list say about a key, in order. *)
Definition at_key (key : gostring) (l : entries) : list (Z * Z) := l ≫= fun s => if decide (Key s.1 = key) then s.2 else [].

Lemma bind_none {A B} (l : list A) (f : A -> list B) : (forall x, x ∈ l -> f x = []) -> l ≫= f = [].
Proof. induction l as [|x l IH]; intros H; [done|]. rewrite bind_cons, H, IH; [done| |by left]. intros. apply H. by right. Qed.

Lemma at_key_app key l l' : at_key key (l ++ l') = at_key key l ++ at_key key l'.
Proof. apply bind_app. Qed.

Record merged_from (l : entries) (key : gostring) (m : merging) : Prop := {
  mf_samples : mg_Samples m = at_key key l;
  mf_flag : flagged m;
  mf_series : exists s, s ∈ l /\ mg_Series m = s.1;
  mf_key : Key (mg_Series m) = key;
}.

Lemma add_source_spec l : forall done_ (merged : gmap gostring merging),
  (forall key, match merged !! key with Some m => merged_from done_ key m | None => key ∉ (fun s => Key s.1) <$> done_ end) ->
  forall key, match add_source merged l !! key with
              | Some m => merged_from (done_ ++ l) key m
              | None => key ∉ (fun s => Key s.1) <$> (done_ ++ l) end.
Proof.
  induction l as [|s l IH]; intros done_ merged Hm key; cbn [add_source foldl]; [rewrite app_nil_r; apply Hm|].
  replace (done_ ++ s :: l) with ((done_ ++ [s]) ++ l) by (by rewrite <- app_assoc). apply IH. clear key. intros key.
  unfold add_series. set (into := match merged !! Key s.1 with Some m => m | None => _ end).
  assert (Hin : flagged into /\ mg_Samples into = at_key (Key s.1) done_ /\ Key (mg_Series into) = Key s.1
    /\ exists s', s' ∈ done_ ++ [s] /\ mg_Series into = s'.1).
  { unfold into. specialize (Hm (Key s.1)). destruct (merged !! Key s.1) as [m|] eqn:E.
    - destruct Hm as [H1 H2 (s' & H3 & H3') H4]. split_and!; [done|done|done|]. exists s'. split; [|done]. apply elem_of_app. by left.
    - split_and!; [by intros _; constructor| |done|exists s; split; [apply elem_of_app; right; left|done]]. cbn. symmetry. unfold at_key.
      apply (bind_none done_). intros x Hx. rewrite decide_False; [done|]. intros HK. apply Hm. rewrite <- HK. by apply (list_elem_of_fmap_2 (fun s => Key s.1)). }
  destruct Hin as (Hf & Hs & HK & Hex). destruct (add_samples_spec s.2 into Hf) as (H1 & H2 & H3).
  destruct (decide (key = Key s.1)) as [->|Hne].
  - rewrite lookup_insert_eq. split; [|done|by rewrite H3|by rewrite H3]. rewrite H2, Hs, at_key_app. f_equal. unfold at_key.
    rewrite bind_cons. rewrite decide_True by done. by rewrite app_nil_r.
  - rewrite lookup_insert_ne by done. specialize (Hm key). destruct (merged !! key) as [m|].
    + destruct Hm as [G1 G2 (s' & G3 & G3') G4]. split; [|done| |done].
      * rewrite G1, at_key_app. unfold at_key at 3. rewrite bind_cons, decide_False by done. by rewrite app_nil_r.
      * exists s'. split; [|done]. apply elem_of_app. by left.
    + rewrite fmap_app, not_elem_of_app. split; [done|]. intros ->%list_elem_of_singleton. done.
Qed.

(** The merge as a whole: one entry per key with samples, in key order. *)
Lemma merged_spec l merged : merged = add_source ∅ l ->
  let out := merge_sort key_le (omap finish_series (map_to_list merged).*2) in
  StronglySorted (fun a b => str_lt (Key a.1) (Key b.1)) out
  /\ forall ref vs, (ref, vs) ∈ out <->
       (exists m, merged !! Key ref = Some m /\ mg_Series m = ref /\ at_key (Key ref) l <> [] /\ vs = settled m /\ merged_from l (Key ref) m).
Proof.
  intros -> out. pose proof (add_source_spec l [] ∅) as Hspec. cbn [app] in Hspec.
  assert (Hsp : forall key, match add_source ∅ l !! key with Some m => merged_from l key m | None => key ∉ (fun s => Key s.1) <$> l end).
  { apply Hspec. intros key. rewrite lookup_empty. apply not_elem_of_nil. }
  set (merged := add_source ∅ l) in *.
  assert (Hel : forall ref vs, (ref, vs) ∈ omap finish_series (map_to_list merged).*2 <->
       (exists m, merged !! Key ref = Some m /\ mg_Series m = ref /\ at_key (Key ref) l <> [] /\ vs = settled m /\ merged_from l (Key ref) m)).
  { intros ref vs. rewrite list_elem_of_omap. split.
    - intros (m & Hm & Hfin). apply list_elem_of_fmap in Hm as ([key m'] & -> & Hm). apply elem_of_map_to_list in Hm. cbn [snd] in *. specialize (Hsp key). rewrite Hm in Hsp.
      unfold finish_series in Hfin. destruct (mg_Samples m') as [|s ss] eqn:Es; [done|]. injection Hfin as <- <-. destruct Hsp as [G1 G2 G3 G4] eqn:Eg.
      exists m'. rewrite G4. split_and!; [done|done|by rewrite <- G1, Es|unfold settled; by rewrite Es|done].
    - intros (m & Hm & Hr & Hne & -> & Hmf). exists m. split.
      + apply list_elem_of_fmap. exists (Key ref, m). split; [done|]. by apply elem_of_map_to_list.
      + unfold finish_series, settled. destruct Hmf as [G1 _ _ _]. destruct (mg_Samples m) as [|s ss] eqn:Es; [by rewrite G1 in Hne|]. by rewrite Hr. }
  split; [|intros ref vs; unfold out; by rewrite merge_sort_Permutation, Hel].
  apply sorted_by_key. clear Hel Hspec. assert (Hnd : NoDup (map_to_list merged).*1) by apply NoDup_fst_map_to_list.
  assert (Hk : forall k m, (k, m) ∈ map_to_list merged -> Key (mg_Series m) = k).
  { intros k m Hm%elem_of_map_to_list. specialize (Hsp k). rewrite Hm in Hsp. apply Hsp. }
  revert Hnd Hk. generalize (map_to_list merged). clear. intros ml Hnd Hk. induction ml as [|[k m] ml IH]; [constructor|].
  cbn in Hnd. apply NoDup_cons in Hnd as [Hni Hnd]. cbn [fmap list_fmap omap list_omap snd].
  assert (IH' := IH Hnd ltac:(intros; apply Hk; by right)). destruct (finish_series m) as [[ref vs]|] eqn:E; [|done].
  cbn. apply NoDup_cons. split; [|done]. intros (x & Hx & Hin)%list_elem_of_fmap. apply list_elem_of_omap in Hin as (m' & Hm' & Hfin). apply list_elem_of_fmap in Hm' as ([k' m''] & -> & Hm').
  cbn [snd] in Hfin. apply Hni. apply list_elem_of_fmap. exists (k', m''). split; [|done]. cbn.
  assert (E1 : ref = mg_Series m) by (unfold finish_series in E; by destruct (mg_Samples m); [|injection E]).
  assert (E2 : x.1 = mg_Series m'') by (unfold finish_series in Hfin; destruct (mg_Samples m''); [done|injection Hfin as <-; done]).
  rewrite <- (Hk k m ltac:(by left)), <- (Hk k' m'' ltac:(by right)). congruence.
Qed.

(** The blocks' answers, one after the other. *)
Lemma select_blocks_spec sel from to bs gots : Forall2 (fun b got => BlockSelect b sel from to = Ok got) bs gots -> forall merged,
  select_blocks sel from to bs merged = Ok (add_source merged (concat gots)).
Proof.
  induction 1 as [|b got bs gots Hb Hbs IH]; intros merged; cbn [select_blocks concat]; [done|].
  assert (Happ : forall l l', add_source merged (l ++ l') = add_source (add_source merged l) l') by (intros; apply foldl_app).
  rewrite Happ. destruct (Overlaps b from to) eqn:Eo; cbn [negb]; [by rewrite Hb|].
  unfold BlockSelect in Hb. rewrite Eo in Hb. cbn [negb] in Hb. injection Hb as <-. apply IH.
Qed.

Lemma DbSelect_spec sel from to h bs fromHead gots : HeadSelect sel from to h = Ok fromHead ->
  Forall2 (fun b got => BlockSelect b sel from to = Ok got) bs gots ->
  let all := concat gots ++ fromHead in
  exists out, DbSelect None sel from to h bs = Ok out
    /\ StronglySorted (fun a b => str_lt (Key a.1) (Key b.1)) out
    /\ (forall key, at_key key all <> [] <-> exists ref vs, (ref, vs) ∈ out /\ Key ref = key)
    /\ (forall ref vs, (ref, vs) ∈ out -> run vs /\ (exists s, s ∈ all /\ ref = s.1)
          /\ forall t, at_time t vs = take 1 (at_time t (at_key (Key ref) all))).
Proof.
  intros Hh Hb all. unfold DbSelect. rewrite Hh. unfold merge_select. rewrite (select_blocks_spec _ _ _ _ _ Hb).
  eexists. split; [done|]. assert (E : add_source (add_source ∅ (concat gots)) fromHead = add_source ∅ all) by (symmetry; apply foldl_app).
  destruct (merged_spec all _ E) as [Hso Hel]. split; [done|]. split.
  - intros key. split.
    + intros Hne. pose proof (add_source_spec all [] ∅) as Hsp. cbn [app] in Hsp. specialize (Hsp ltac:(intros k; rewrite lookup_empty; apply not_elem_of_nil) key).
      destruct (add_source ∅ all !! key) as [m|] eqn:Em.
      * exists (mg_Series m), (settled m). pose proof (mf_key _ _ _ Hsp) as HK. split; [|done]. apply Hel. exists m. rewrite HK, E. done.
      * exfalso. apply Hne. unfold at_key. apply bind_none. intros x Hx. rewrite decide_False; [done|]. intros <-. apply Hsp. by apply (list_elem_of_fmap_2 (fun s => Key s.1)).
    + intros (ref & vs & Hin & <-). apply Hel in Hin as (m & _ & _ & Hne & _). done.
  - intros ref vs Hin. apply Hel in Hin as (m & _ & <- & _ & -> & Hmf). destruct (settled_spec m (mf_flag _ _ _ Hmf)) as [Hr Ht].
    split; [done|]. split; [destruct (mf_series _ _ _ Hmf) as (s & Hs & ->); eauto|]. intros t. by rewrite Ht, (mf_samples _ _ _ Hmf).
Qed.

(** A query merges whatever its sources offer.  If the head and every block answer, the result has one entry per series any of them has samples for, in strict key order; its samples are in strict time order, and each instant any source has is there once, with the value of the oldest source that has it, blocks before the head. *)
Theorem query_merge sel from to h bs fromHead gots : HeadSelect sel from to h = Ok fromHead ->
  Forall2 (fun b got => BlockSelect b sel from to = Ok got) bs gots ->
  let all := concat gots ++ fromHead in
  exists out, DbSelect None sel from to h bs = Ok out
    /\ StronglySorted (fun a b => str_lt (Key a.1) (Key b.1)) out
    /\ (forall key, at_key key all <> [] <-> exists ref vs, (ref, vs) ∈ out /\ Key ref = key)
    /\ (forall ref vs, (ref, vs) ∈ out -> run vs /\ (exists s, s ∈ all /\ ref = s.1)
          /\ forall t, at_time t vs = take 1 (at_time t (at_key (Key ref) all))).
Proof. apply DbSelect_spec. Qed.
