(* ===== verification/DbState.v ===== *)
(** * The database as it runs

    The steps of the database that a query can fall between, the invariant they
    keep, and what a query returns that reads the head in one state and the block
    list in a later one. *)

From Stdlib Require Import ZArith Lia.
From Stdlib Require Import (notations) String.
From stdpp Require Import base sorting gmap numbers list relations.
From S2P Require Import Prelude Chunkenc Wal WalProofs WalTruncate Gofloat Gostring Tsdb Index IndexProofs IndexSelect HeadRecord Head HeadSeries HeadStore HeadCommit HeadOps HeadDurable Compact CompactProofs BlockFile BlockIndex BlockLaws BlockOpen Block BlockServe BlockWrite BlockCompact Db DbMerge.

(** ** What is stored where *)

Definition in_head (h : Head WAL) (ref : SeriesRef) (t v : Z) : Prop :=
  exists id ms ss, h_byID h !! id = Some ms /\ ms_ref ms = ref /\ samplesIn ms (- 2 ^ 63) (2 ^ 63 - 1) = Ok ss /\ (t, v) ∈ ss.
Definition in_block (b : Block) (ref : SeriesRef) (t v : Z) : Prop := ref ∈ BSeries b /\ (t, v) ∈ samples_of b (Key ref).
Definition in_blocks (bs : list Block) (ref : SeriesRef) (t v : Z) : Prop := exists b, b ∈ bs /\ in_block b ref t v.
Definition stored (db : DB) (ref : SeriesRef) (t v : Z) : Prop := in_head (db_head db) ref t v \/ in_blocks (db_blocks db) ref t v.

(** A series the wire format can have produced. *)
Record ref_good (ref : SeriesRef) : Prop := {
  rg_valid : Validate ref = Ok tt;
  rg_postable : postable ref;
  rg_bytes : ref_bytes ref;
  rg_clean : ref_clean ref;
  rg_plain t : t ∈ sr_Tags ref -> t_Key t <> MetricName;
  rg_sized : ref_sized ref;
}.

Lemma good_key r r' : ref_good r -> ref_good r' -> Key r = Key r' -> r = r'.
Proof. intros H H'. apply Key_inj; [apply H|apply H']. Qed.

Definition in_store (A : store) (ref : SeriesRef) (t v : Z) : Prop := exists ss, A !! Key ref = Some (ref, ss) /\ (t, v) ∈ ss.

Lemma whole_window ss : Forall sample_ok ss -> filter (fun s => in_window (- 2 ^ 63) (2 ^ 63 - 1) s = true) ss = ss.
Proof.
  intros Hok. apply filter_all. intros s Hs. rewrite Forall_forall in Hok. destruct (Hok s Hs) as [Ht _]. unfold is_i64 in Ht.
  unfold in_window. apply negb_true_iff, orb_false_iff. split; apply Z.ltb_ge; lia.
Qed.

Lemma in_head_store h A ref t v : head_inv h A -> in_head h ref t v <-> in_store A ref t v.
Proof.
  intros Hi. split.
  - intros (id & ms & ss & Hid & <- & Hs & Hin). destruct (hi_series _ _ _ _ Hi Hid) as (ss' & _ & HA & Hsi).
    rewrite (samplesIn_spec _ _ _ _ _ Hsi), whole_window in Hs by apply Hsi. injection Hs as <-. by exists ss'.
  - intros (ss & HA & Hin). destruct (series_of_store _ _ _ _ _ Hi HA) as [_ [id Hid]].
    destruct (h_byID h !! id) as [ms|] eqn:E; [|done]. injection Hid as <-. destruct (hi_series _ _ _ _ Hi E) as (ss' & _ & HA' & Hsi).
    rewrite HA in HA'. injection HA' as <-. exists id, ms, ss. split_and!; [done|done| |done].
    rewrite (samplesIn_spec _ _ _ _ _ Hsi), whole_window by apply Hsi. done.
Qed.

(** ** Blocks of the database *)

Definition serving (b : Block) : Prop := exists cs, opened_from cs b /\ forall c, c ∈ cs -> ref_good c.1.

Lemma serving_sound b : serving b -> block_sound b.
Proof. intros (cs & H & _). by eapply opened_from_sound. Qed.

Lemma in_block_from cs b ref t v : opened_from cs b -> in_block b ref t v <-> exists all, (ref, all) ∈ cs /\ (t, v) ∈ all.
Proof.
  intros (w & -> & Hok & Hne & Hw & Hf & Hi). unfold in_block. rewrite (opened_ref cs) by done.
  assert (Hs : forall all, (ref, all) ∈ cs -> samples_of (opened w) (Key ref) = all).
  { intros all Hin. unfold samples_of. cbn [b_SamplesFor Block_Reader]. pose proof (opened_samples_of cs w (ref, all) Hok Hw Hf Hin) as E. cbn [fst snd] in E. by rewrite E. }
  split.
  - intros [([r all] & -> & Hin)%list_elem_of_fmap Hv]. exists all. cbn [fst] in *. rewrite (Hs all Hin) in Hv. done.
  - intros (all & Hin & Hv). split; [by apply (list_elem_of_fmap_2 fst) in Hin|]. by rewrite (Hs all Hin).
Qed.

Lemma in_block_span b ref t v : block_sound b -> in_block b ref t v -> bm_MinTime (blk_meta b) <= t <= bm_MaxTime (blk_meta b).
Proof.
  intros Hb [_ Hin]. pose proof (rk_span _ (bk_reader _ Hb) (Key ref)) as H. rewrite Forall_forall in H. by apply (H (t, v)).
Qed.

Lemma in_block_fun b ref t v v' : block_sound b -> in_block b ref t v -> in_block b ref t v' -> v = v'.
Proof. intros Hb [_ H] [_ H']. by eapply run_unique; [apply (rk_run _ (bk_reader _ Hb))|exact H|exact H']. Qed.

(** ** Steps *)

(** Where a block cut is. *)
Inductive phase := Idle | Frozen (cutAt : Z) | Published (cutAt : Z) | Truncated (cutAt : Z).

(** A batch of the size and shape an intake hands over. *)
Definition batch_good (batch : list (SeriesRef * list (Z * Z))) : Prop :=
  forall ss, ss ∈ batch -> Validate ss.1 = Ok tt -> ref_good ss.1
    /\ Forall (fun s => - 2 ^ 62 <= s.1 < 2 ^ 62 /\ is_u64 s.2) ss.2.

Definition cut_fits (cutAt id : Z) (io : list bool) (h : Head WAL) : Prop :=
  forall series w m f, HeadSelect everything (- 2 ^ 63) (int64 (cutAt - 1)) h = Ok series ->
    Write id series (MkWriterOptions 0 [] 0) io = (w, Ok m) -> bw_published w = Some f -> files_fit f.

Definition compact_fits (id : Z) (io : list bool) (db : DB) : Prop :=
  forall plan w m f, Next_ (db_blocks db) (MkCOptions 0 (do_MaxBlockRange (db_opts db))) = Some plan ->
    merge id plan io = Some (w, Ok m) -> bw_published w = Some f -> files_fit f.

(** An id no block has, or was merged from. *)
Definition ids (bs : list Block) : list Z := (fun b => bm_ULID (blk_meta b)) <$> bs.
Definition sources (bs : list Block) : list Z := bs ≫= fun b => bm_Sources (blk_meta b).
Definition fresh_id (id : Z) (bs : list Block) : Prop := id ∉ ids bs /\ id ∉ sources bs.

(** The log takes the batch, and the ids do not run out. *)
Definition logs (batch : list (SeriesRef * list (Z * Z))) (db : DB) (r : result db_error AppendResult) : Prop :=
  (exists rep, r = Ok rep) /\ h_nextID (db_head db) + Z.of_nat (length (batch ≫= snd)) < 2 ^ 64.

(** One step: an append, whatever its context, a step of [CutBlock], or a whole
    [Compact] (the cut lock keeps the two apart).  In a calm run the log refuses no
    batch. *)
Inductive db_step (calm : bool) : DB * phase -> DB * phase -> Prop :=
| ds_append ctx batch db db' r p : batch_good batch -> DbAppend ctx batch db = (db', r) -> (calm = true -> ctx = None -> logs batch db r) ->
    db_step calm (db, p) (db', p)
| ds_freeze now cutAt db : cut_point now db = Some cutAt ->
    db_step calm (db, Idle) (with_head (Freeze cutAt (db_head db)) db, Frozen cutAt)
| ds_abort cutAt id io db e : cut_write cutAt id io (db_head db) = Err e -> db_step calm (db, Frozen cutAt) (db, Idle)
| ds_publish cutAt id io db b : cut_write cutAt id io (db_head db) = Ok b -> cut_fits cutAt id io (db_head db) ->
    fresh_id id (db_blocks db) -> db_step calm (db, Frozen cutAt) (publish b db, Published cutAt)
| ds_truncate cutAt db : db_step calm (db, Published cutAt) (truncate_head cutAt db, Truncated cutAt)
| ds_log cutAt db : db_step calm (db, Truncated cutAt) (with_head (truncateLog (db_head db)).1 db, Idle)
| ds_compact id io db db' r : DbCompact id io db = (db', r) -> compact_fits id io db -> fresh_id id (db_blocks db) ->
    db_step calm (db, Idle) (db', Idle).

(** ** The invariant *)

Definition copts (db : DB) : COptions := MkCOptions 0 (do_MaxBlockRange (db_opts db)).

(** Blocks are before the head's samples; while a cut is published and not yet
    truncated, the head's samples below it are in the blocks too. *)
Definition cut_inv (db : DB) (A : store) (p : phase) : Prop :=
  let h := db_head db in
  let below c := forall b, b ∈ db_blocks db -> bm_MaxTime (blk_meta b) < c in
  match p with
  | Idle => exists c, c <= h_minValid h /\ below c /\ forall ref t v, in_store A ref t v -> c <= t
  | Frozen cutAt => (exists k, cutAt = h_BlockRange h * k) /\ - 2 ^ 63 < cutAt < 2 ^ 63 /\ cutAt <= h_minValid h
      /\ exists c, c <= h_minValid h /\ below c /\ forall ref t v, in_store A ref t v -> c <= t
  | Published cutAt => ((exists k, cutAt = h_BlockRange h * k) /\ - 2 ^ 63 < cutAt) /\ cutAt <= h_minValid h /\ below cutAt
      /\ (forall ref t v, in_store A ref t v -> t < cutAt -> in_blocks (db_blocks db) ref t v)
      /\ (forall ref t v v', in_store A ref t v -> in_blocks (db_blocks db) ref t v' -> v = v')
  | Truncated cutAt => below cutAt /\ cutAt <= h_minValid h /\ forall ref t v, in_store A ref t v -> h_minValid h <= t
  end.

Record db_inv (db : DB) (p : phase) (A : store) : Prop := {
  di_head : head_inv (db_head db) A;
  di_range : h_BlockRange (db_head db) = rangeMs db /\ rangeMs db < 2 ^ 62;
  di_refs key ref ss : A !! key = Some (ref, ss) -> ref_good ref;
  di_times ref t v : in_store A ref t v -> - 2 ^ 62 <= t < 2 ^ 62;
  di_history : history (copts db) (db_blocks db);
  di_blocks : Forall serving (db_blocks db);
  di_cut : cut_inv db A p;
}.

Lemma minblocks db : 2 <= co_MinBlocks (setDefaults (copts db)).
Proof. cbn. unfold DefaultMinBlocks. lia. Qed.

(** ** Appends only add *)

Record grows (mv : Z) (b : list (SeriesRef * HSample)) (A A' : store) : Prop := {
  gr_keeps ref t v : in_store A ref t v -> in_store A' ref t v;
  gr_new ref t v : in_store A' ref t v -> in_store A ref t v \/ (mv <= t /\ exists r s, (r, s) ∈ b /\ hs_T s = t);
  gr_refs key ref ss : A' !! key = Some (ref, ss) -> (exists ss0, A !! key = Some (ref, ss0)) \/ exists s, (ref, s) ∈ b;
}.

Lemma grows_refl mv b A : grows mv b A A.
Proof. split; [done|by left|by left; eauto]. Qed.

Lemma grows_trans mv b A1 A2 A3 : grows mv b A1 A2 -> grows mv b A2 A3 -> grows mv b A1 A3.
Proof.
  intros [H1 H2 H3] [G1 G2 G3]. split.
  - intros. by apply G1, H1.
  - intros ref t v [H|H]%G2; [|by right]. by apply H2.
  - intros key ref ss [[ss0 H]|H]%G3; [|by right]. by eapply H3.
Qed.

Lemma grows_resolve max mv ref s A : grows mv [(ref, s)] A (spec_resolve max mv ref (hs_T s) A).1.
Proof.
  unfold spec_resolve. destruct (hs_T s <? mv); [apply grows_refl|]. destruct (A !! Key ref) as [e|] eqn:E; [apply grows_refl|].
  destruct (_ && _); [apply grows_refl|]. cbn [fst]. split.
  - intros r t v (ss & HA & Hin). exists ss. split; [|done]. rewrite lookup_insert_ne; [done|]. intros HK. rewrite HK, HA in E. done.
  - intros r t v (ss & HA & Hin). apply lookup_insert_Some in HA as [[_ [= <- <-]]|[_ HA]]; [by apply not_elem_of_nil in Hin|]. left. by exists ss.
  - intros key r ss [[_ [= <- <-]]|[_ HA]]%lookup_insert_Some; [right; exists s; left|left; eauto].
Qed.

Lemma grows_apply mv ref s A : grows mv [(ref, s)] A (spec_apply mv (Key ref) (hs_T s) (hs_V s) A).1.
Proof.
  unfold spec_apply. destruct (A !! Key ref) as [[r0 ss0]|] eqn:E; [|apply grows_refl].
  assert (Hap : exists l, (append_spec mv (hs_T s) (hs_V s) ss0).1 = ss0 ++ l /\ forall x, x ∈ l -> mv <= hs_T s /\ x.1 = hs_T s).
  { assert (Hnil : exists l, ss0 = ss0 ++ l /\ forall x : Z * Z, x ∈ l -> mv <= hs_T s /\ x.1 = hs_T s).
    { exists []. rewrite app_nil_r. split; [done|]. intros x Hx. by apply not_elem_of_nil in Hx. }
    assert (Hone : mv <= hs_T s -> exists l, ss0 ++ [(hs_T s, hs_V s)] = ss0 ++ l /\ forall x : Z * Z, x ∈ l -> mv <= hs_T s /\ x.1 = hs_T s).
    { intros Hle. eexists. split; [done|]. by intros x ->%list_elem_of_singleton. }
    unfold append_spec. destruct (Z.ltb_spec (hs_T s) mv) as [|Hle]; [exact Hnil|]. destruct (last ss0) as [[lt lv]|]; [|by apply Hone].
    destruct (hs_T s <=? lt); [exact Hnil|by apply Hone]. }
  destruct Hap as (l & El & Hl). destruct (append_spec _ _ _ ss0) as [ss' res]. cbn [fst] in *. subst ss'. split.
  - intros r t v (ss & HA & Hin). destruct (decide (Key r = Key ref)) as [HK|HK].
    + rewrite HK, E in HA. injection HA as -> ->. exists (ss ++ l). split; [by rewrite HK, lookup_insert_eq|]. apply elem_of_app. by left.
    + exists ss. split; [|done]. by rewrite lookup_insert_ne.
  - intros r t v (ss & HA & Hin). apply lookup_insert_Some in HA as [[HK [= <- <-]]|[_ HA]]; [|left; by exists ss].
    apply elem_of_app in Hin as [Hin|Hin]; [left; exists ss0; split; [by rewrite <- HK|done]|]. right.
    destruct (Hl _ Hin) as [H1 H2]. cbn in H2. split; [lia|]. exists ref, s. split; [left|done].
  - intros key r ss [[<- [= <- <-]]|[_ HA]]%lookup_insert_Some; left; eauto.
Qed.

Lemma grows_weaken mv b b' A A' : (forall x, x ∈ b -> x ∈ b') -> grows mv b A A' -> grows mv b' A A'.
Proof.
  intros Hb [H1 H2 H3]. split; [done| |].
  - intros ref t v [H|(H & r & s & Hin & E)]%H2; [by left|]. right. eauto 10.
  - intros key ref ss [H|[s H]]%H3; [by left|]. right. eauto.
Qed.

Lemma spec_append_grows max mv b : forall A, grows mv b A (spec_append max mv b A).1.
Proof.
  induction b as [|[ref s] b IH]; intros A; cbn [spec_append]; [apply grows_refl|].
  assert (H1 : grows mv ((ref, s) :: b) A (spec_append_one max mv ref (hs_T s) (hs_V s) A).1).
  { apply (grows_weaken _ [(ref, s)]); [by intros x ->%list_elem_of_singleton; left|]. unfold spec_append_one.
    pose proof (grows_resolve max mv ref s A) as Hr. destruct (spec_resolve max mv ref (hs_T s) A) as [A1 [[]|e]]; cbn [fst] in *; [|done].
    eapply grows_trans; [exact Hr|]. apply grows_apply. }
  destruct (spec_append_one _ _ _ _ _ A) as [A1 res]. cbn [fst] in H1. specialize (IH A1).
  destruct (spec_append max mv b A1) as [A2 ress]. cbn [fst] in *. eapply grows_trans; [exact H1|].
  eapply grows_weaken; [|exact IH]. by right.
Qed.

(** The flattened batch is the valid part of the batch. *)
Lemma flatten_spec batch : forall i f, length (fl_refs f) = length (fl_samples f) ->
  let f' := flatten i batch f in length (fl_refs f') = length (fl_samples f')
  /\ forall ref s, (ref, s) ∈ zip (fl_refs f') (fl_samples f') -> (ref, s) ∈ zip (fl_refs f) (fl_samples f)
       \/ exists ss, ss ∈ batch /\ Validate ss.1 = Ok tt /\ ref = ss.1 /\ (hs_T s, hs_V s) ∈ ss.2.
Proof.
  induction batch as [|ss batch IH]; intros i f Hf; cbn [flatten]; [split; [done|by left]|].
  set (f1 := match validate ss with Some _ => _ | None => _ end).
  assert (H1 : length (fl_refs f1) = length (fl_samples f1) /\ forall ref s, (ref, s) ∈ zip (fl_refs f1) (fl_samples f1) -> (ref, s) ∈ zip (fl_refs f) (fl_samples f)
       \/ (Validate ss.1 = Ok tt /\ ref = ss.1 /\ (hs_T s, hs_V s) ∈ ss.2)).
  { unfold f1, validate. destruct (Validate ss.1) as [[]|e]; [|by split; [|left]]. destruct (existsb _ _); [by split; [|left]|].
    cbn [fl_refs fl_samples]. split; [rewrite !length_app, length_replicate, length_fmap; lia|]. intros ref s. rewrite zip_with_app by done.
    rewrite elem_of_app. intros [H|H]; [by left|]. right. split; [done|]. apply elem_of_lookup_zip_with in H as (n & r & x & E & Hr & Hx).
    apply lookup_replicate in Hr as [-> _]. rewrite list_lookup_fmap in Hx. destruct (ss.2 !! n) as [y|] eqn:Ey; [|done]. injection Hx as <-. injection E as -> ->.
    split; [done|]. cbn. apply list_elem_of_lookup_2 in Ey. by destruct y. }
  destruct H1 as [Hl Hin]. destruct (IH (S i) f1 Hl) as [Hl' Hin']. split; [done|]. intros ref s [H|(ss' & H & H')]%Hin'.
  - apply Hin in H as [H|(H1 & H2 & H3)]; [by left|]. right. exists ss. split; [left|done].
  - right. exists ss'. split; [by right|done].
Qed.

Lemma flat_batch batch : batch_good batch -> let f := flatten 0 batch (MkFlat [] [] [] []) in
  (forall ref s, (ref, s) ∈ zip (fl_refs f) (fl_samples f) -> ref_good ref /\ - 2 ^ 62 <= hs_T s < 2 ^ 62 /\ is_u64 (hs_V s))
  /\ batch_ok (zip (fl_refs f) (fl_samples f)).
Proof.
  intros Hg f. destruct (flatten_spec batch 0 (MkFlat [] [] [] []) eq_refl) as [_ Hfl]. fold f in Hfl.
  assert (Hbatch : forall ref s, (ref, s) ∈ zip (fl_refs f) (fl_samples f) -> ref_good ref /\ - 2 ^ 62 <= hs_T s < 2 ^ 62 /\ is_u64 (hs_V s)).
  { intros ref s Hin. apply Hfl in Hin as [Hin|(ss & Hss & Hv & -> & Hin)]; [by apply not_elem_of_nil in Hin|].
    destruct (Hg ss Hss Hv) as [Hgood Hall]. rewrite Forall_forall in Hall. specialize (Hall _ Hin). cbn in Hall. done. }
  split; [done|]. apply Forall_forall. intros [ref s] Hin. destruct (Hbatch ref s Hin) as (_ & H1 & H2). split; [unfold is_i64; cbn; lia|done].
Qed.

(** ** Each step keeps the invariant and loses nothing *)

(** What a step may do to what is stored. *)
Record moves (db db' : DB) : Prop := {
  mv_stored ref t v : stored db ref t v -> stored db' ref t v;
  mv_blocks ref t v : in_blocks (db_blocks db) ref t v -> in_blocks (db_blocks db') ref t v;
}.

Lemma moves_refl db : moves db db.
Proof. done. Qed.

(** A head whose samples only grew above its bound. *)
Lemma head_grows_inv db p A h' A' b : db_inv db p A -> head_inv h' A' -> h_BlockRange h' = h_BlockRange (db_head db) ->
  h_minValid (db_head db) <= h_minValid h' -> (p = Idle \/ h_minValid h' = h_minValid (db_head db)) -> grows (h_minValid (db_head db)) b A A' ->
  (forall r s, (r, s) ∈ b -> ref_good r /\ - 2 ^ 62 <= hs_T s < 2 ^ 62) ->
  db_inv (with_head h' db) p A' /\ moves db (with_head h' db).
Proof.
  intros [Hh Hr Hrefs Ht Hhist Hb Hc] Hh' Er Emv Ep [G1 G2 G3] Hbatch. split.
  - split; cbn [with_head db_head db_blocks db_opts]; try done.
    + by rewrite Er.
    + intros key ref ss [[ss0 H]|[s H]]%G3; [by eapply Hrefs|by apply (Hbatch ref s)].
    + intros ref t v [H|(_ & r & s & H & <-)]%G2; [by eapply Ht|by apply (Hbatch r s)].
    + unfold cut_inv in *. cbn [with_head db_head db_blocks] in *. destruct p as [|cutAt|cutAt|cutAt].
      * destruct Hc as (c & Hc1 & Hc2 & Hc3). exists c. split; [lia|]. split; [done|]. intros ref t v [H|[H _]]%G2; [by eapply Hc3|lia].
      * destruct Hc as (Hk & Hi & Hm & c & Hc1 & Hc2 & Hc3). rewrite Er. split; [done|]. split; [done|]. split; [lia|].
        exists c. split; [lia|]. split; [done|]. intros ref t v [H|[H _]]%G2; [by eapply Hc3|lia].
      * destruct Hc as (Hk & Hm & Hbel & Hin & Hfun). rewrite Er. split; [done|]. split; [lia|]. split; [done|]. split.
        -- intros ref t v [H|[H _]]%G2 Hlt; [by apply Hin|lia].
        -- intros ref t v v' [H|[H _]]%G2 Hbl; [by eapply Hfun|]. exfalso. destruct Hbl as (bl & Hbl & Hib).
           rewrite Forall_forall in Hb. pose proof (in_block_span _ _ _ _ (serving_sound _ (Hb bl Hbl)) Hib). specialize (Hbel bl Hbl). lia.
      * destruct Hc as (Hbel & Hm & Hge). destruct Ep as [|Ep]; [done|]. split; [done|]. split; [lia|]. intros ref t v [H|[H _]]%G2; [specialize (Hge _ _ _ H)|]; lia.
  - split; [|done]. intros ref t v [H|H]; [|by right]. left. cbn [with_head db_head]. rewrite (in_head_store h' A') by done. apply G1.
    by apply (in_head_store _ _ _ _ _ Hh).
Qed.

Lemma append_step ctx db p A batch db' r : db_inv db p A -> batch_good batch -> DbAppend ctx batch db = (db', r) ->
  exists A', db_inv db' p A' /\ moves db db'.
Proof.
  intros HI Hg H. destruct ctx as [e|]; cbn [DbAppend] in H; [injection H as <- <-; exists A; split; [done|apply moves_refl]|].
  unfold append_batch in H. destruct (flatten_spec batch 0 (MkFlat [] [] [] []) eq_refl) as [Hlen Hfl].
  set (f := flatten 0 batch _) in *. destruct (fl_samples f) as [|s0 sl] eqn:Es.
  { injection H as <- <-. exists A. split; [done|apply moves_refl]. }
  destruct (flat_batch batch Hg) as [Hbatch Hbok]. fold f in Hbatch, Hbok.
  rewrite <- Es in *. pose proof (HeadAppend_spec (db_head db) A (fl_refs f) (fl_samples f) (di_head _ _ _ HI) Hlen Hbok) as Hs.
  destruct (HeadAppend _ _ _) as [[h' stored_] rejected]. pose proof (spec_append_grows (h_MaxSeries (db_head db)) (h_minValid (db_head db)) (zip (fl_refs f) (fl_samples f)) A) as Hgr.
  destruct (spec_append _ _ _ A) as [A' ress]. cbn [fst] in Hgr. destruct Hs as [[So1 _ _ So4] Hs].
  assert (Hdb : db' = with_head h' db). { destruct (attribute _ _ _ _ _); by injection H as <- _. } subst db'.
  destruct stored_ as [l|].
  - exists A'. destruct Hs as (Hi' & _). eapply head_grows_inv; [done|done|done|lia|by right|done|]. intros r0 s Hin. destruct (Hbatch r0 s Hin) as (? & ? & _). done.
  - exists A. destruct Hs as (Hi' & _). eapply (head_grows_inv _ _ _ _ _ []); [done|done|done|lia|by right|apply grows_refl|]. intros r0 s Hin. by apply not_elem_of_nil in Hin.
Qed.

(** A head with another log. *)
Lemma log_step db cutAt A : db_inv db (Truncated cutAt) A -> db_inv (with_head (truncateLog (db_head db)).1 db) Idle A /\ moves db (with_head (truncateLog (db_head db)).1 db).
Proof.
  intros HI. assert (E : exists w, (truncateLog (db_head db)).1 = with_wal w (db_head db)).
  { unfold truncateLog. destruct (h_wal (db_head db)) as [w|] eqn:Ew; [|exists None; destruct (db_head db); cbn in *; by subst].
    destruct (Truncate _ _ _); [by eexists|]. exists (Some w). destruct (db_head db); cbn in *; by subst. }
  destruct E as [w ->]. destruct (head_grows_inv db (Truncated cutAt) A (with_wal w (db_head db)) A [] HI) as [HI' Hm];
    [by eapply head_inv_same; [apply (di_head _ _ _ HI)|..]|done|done|by right|apply grows_refl|intros r0 s Hin; by apply not_elem_of_nil in Hin|].
  split; [|done]. destruct HI' as [J1 J2 J3 J4 J5 J6 (Hbel & Hmv & Hge)]. split; try done. exists cutAt. split; [done|]. split; [done|].
  intros ref t v H. specialize (Hge _ _ _ H). lia.
Qed.

(** ** Where the head is cut *)

Definition some_chunk (h : Head WAL) (t : Z) : Prop := exists id ms c, h_byID h !! id = Some ms /\ c ∈ ms_chunks ms /\ t = mc_minT c.

Definition stats_ok (h : Head WAL) (acc : HStats * bool) : Prop :=
  if acc.2 : bool then st_Samples acc.1 = 0 else some_chunk h (st_MinT acc.1).

Lemma stats_chunks_ok h id ms cs : h_byID h !! id = Some ms -> (forall c, c ∈ cs -> c ∈ ms_chunks ms) ->
  forall acc, stats_ok h acc -> stats_ok h (foldl stats_chunk acc cs).
Proof.
  intros Hid. induction cs as [|c cs IH]; intros Hc acc Hacc; cbn [foldl]; [done|]. apply IH; [intros; apply Hc; by right|].
  destruct acc as [st first]. unfold stats_ok, stats_chunk in *. cbn in *. destruct (first || (mc_minT c <? st_MinT st)) eqn:E.
  - exists id, ms, c. split_and!; [done|apply Hc; by left|done].
  - apply orb_false_iff in E as [-> _]. done.
Qed.

Lemma Stats_min h : st_Samples (Stats h) <> 0 -> some_chunk h (st_MinT (Stats h)).
Proof.
  unfold Stats. destruct (MemSize _) as [series pairs]. set (acc0 := (_, true)).
  assert (Hall : forall l acc, stats_ok h acc -> stats_ok h (foldl (stats_series h) acc l)).
  { induction l as [|id l IH]; intros acc Hacc; cbn [foldl]; [done|]. apply IH. unfold stats_series.
    destruct (h_byID h !! id) as [ms|] eqn:E; [|done]. destruct acc as [st first]. by apply (stats_chunks_ok h id ms). }
  specialize (Hall (map_to_list (h_byID h)).*1 acc0 eq_refl). destruct (foldl _ _ _) as [st first]. unfold stats_ok in Hall. cbn in *.
  destruct first; [done|]. by intros _.
Qed.

Lemma chunk_in_store h A t : head_inv h A -> some_chunk h t -> exists ref v, in_store A ref t v.
Proof.
  intros Hi (id & ms & c & Hid & Hc & ->). destruct (hi_series _ _ _ _ Hi Hid) as (ss & _ & HA & [_ _ (gs & <- & Hg & _) _]).
  apply list_elem_of_lookup in Hc as [i Hc]. destruct (Forall2_lookup_r _ _ _ _ _ Hg Hc) as (g & Hgi & [_ _ (v & g' & ->) _ _]).
  exists (ms_ref ms), v, (concat gs). split; [done|]. apply list_elem_of_In, in_concat. eexists. split; [apply list_elem_of_In; by eapply list_elem_of_lookup_2|]. by left.
Qed.

Lemma cut_point_spec now db p A cutAt : db_inv db p A -> cut_point now db = Some cutAt ->
  (exists k, cutAt = h_BlockRange (db_head db) * k) /\ - 2 ^ 63 < cutAt < 2 ^ 63.
Proof.
  intros HI H. unfold cut_point in H. destruct (_ || _) eqn:E; [done|]. apply orb_false_iff in E as [E _]. apply Z.eqb_neq in E.
  destruct (chunk_in_store _ _ _ (di_head _ _ _ HI) (Stats_min _ E)) as (ref & v & Hin). pose proof (di_times _ _ _ HI _ _ _ Hin) as Ht.
  set (t := st_MinT (Stats (db_head db))) in *. destruct (di_range _ _ _ HI) as [Hr Hr2]. pose proof (hi_range _ _ (di_head _ _ _ HI)) as Hpos.
  set (r := rangeMs db) in *. rewrite Hr in Hpos |- *. destruct (_ <? _); [done|]. injection H as <-.
  rewrite BlockOf_div by lia. pose proof (Z.div_mod t r ltac:(lia)). pose proof (Z.mod_pos_bound t r Hpos).
  assert (Hq : t - r < t / r * r <= t) by nia. rewrite (int64_id (t / r * r)) by (unfold is_i64; lia). rewrite int64_id by (unfold is_i64; lia).
  split; [exists (t / r + 1); nia|lia].
Qed.

Lemma freeze_step now db A cutAt : db_inv db Idle A -> cut_point now db = Some cutAt ->
  db_inv (with_head (Freeze cutAt (db_head db)) db) (Frozen cutAt) A /\ moves db (with_head (Freeze cutAt (db_head db)) db).
Proof.
  intros HI Hcp. destruct (cut_point_spec _ _ _ _ _ HI Hcp) as [Hk Hb]. set (h' := Freeze cutAt (db_head db)).
  assert (Hh' : h' = with_minValid (Z.max (h_minValid (db_head db)) cutAt) (db_head db)).
  { unfold h', Freeze. destruct (Z.ltb_spec (h_minValid (db_head db)) cutAt); [by rewrite Z.max_r by lia|]. rewrite Z.max_l by lia. by destruct (db_head db). }
  assert (Hi' : head_inv h' A) by (rewrite Hh'; by eapply head_inv_same; [apply (di_head _ _ _ HI)|..]).
  destruct (head_grows_inv db Idle A h' A [] HI Hi') as [[J1 J2 J3 J4 J5 J6 J7] Hm]; [by rewrite Hh'|rewrite Hh'; cbn; lia|by left|apply grows_refl|intros r s Hin; by apply not_elem_of_nil in Hin|].
  split; [|done]. split; try done. unfold cut_inv in *. cbn [with_head db_head db_blocks] in *.
  split; [rewrite Hh'; exact Hk|]. split; [done|]. split; [rewrite Hh'; cbn; lia|done].
Qed.

(** ** Writing and publishing a cut *)

Lemma hi_shard_run (h : Head WAL) A key ref ss : head_inv h A -> A !! key = Some (ref, ss) -> Key ref = key /\ run ss /\ Forall sample_ok ss.
Proof.
  intros Hi HA. assert (is_Some (h_shards h !! key)) as [id Hs] by (apply (hi_keys _ _ Hi); eauto).
  destruct (hi_shard _ _ Hi _ _ Hs) as (ms & ss' & _ & _ & HK & HA' & Hsi). rewrite HA in HA'. injection HA' as -> ->. split; [done|split; apply Hsi].
Qed.

Lemma cut_write_spec db A cutAt id io b : db_inv db (Frozen cutAt) A -> cut_write cutAt id io (db_head db) = Ok b ->
  cut_fits cutAt id io (db_head db) ->
  exists series, opened_from series b /\ meta_ok id (MkWriterOptions 0 [] 0) series (blk_meta b)
    /\ (forall ref ss, (ref, ss) ∈ series <-> exists all, A !! Key ref = Some (ref, all) /\ ss = filter (fun s => in_window (- 2 ^ 63) (cutAt - 1) s = true) all /\ ss <> []).
Proof.
  intros HI Hw Hfit. pose proof (di_cut _ _ _ HI) as (_ & Hb & _). unfold cut_fits in Hfit. unfold cut_write in Hw.
  rewrite int64_id in * by (unfold is_i64; lia).
  destruct (HeadSelect_spec (db_head db) A everything (- 2 ^ 63) (cutAt - 1) (di_head _ _ _ HI)) as (series & E & Hso & Hel).
  { intros key ref ss t HA Ht. by apply (rg_plain _ (di_refs _ _ _ HI _ _ _ HA)). }
  { constructor. }
  assert (Hel' : forall ref ss, (ref, ss) ∈ series <-> exists all, A !! Key ref = Some (ref, all) /\ ss = filter (fun s => in_window (- 2 ^ 63) (cutAt - 1) s = true) all /\ ss <> []).
  { intros ref ss. rewrite Hel. cbn. naive_solver. }
  assert (Hok : content_ok series).
  { assert (Hgood : forall c, c ∈ series -> ref_good c.1).
    { intros [ref ss] Hc. apply Hel' in Hc as (all & HA & _). by apply (di_refs _ _ _ HI _ _ _ HA). }
    split; [intros c Hc; by apply (Hgood c Hc)..|by apply keys_NoDup|].
    intros [ref ss] Hc. apply Hel' in Hc as (all & HA & -> & Hne).
    destruct (hi_shard_run _ _ _ _ _ (di_head _ _ _ HI) HA) as (_ & Hr & Hs). split_and!; [by apply run_filter| |done].
    rewrite Forall_forall in Hs. apply Forall_forall. intros x [_ Hx]%list_elem_of_filter. by apply Hs. }
  rewrite E in Hw. destruct series as [|c0 series0] eqn:Es; [done|]. rewrite <- Es in *.
  destruct (Write id series _ io) as [w [m|e]] eqn:Ew; [|by destruct e].
  destruct (Write_opened _ _ _ _ _ _ Hok Ew) as (w0 & Hcl & Hne & Hpub & -> & Hf & Hi & Ho); [intros f Hf; by eapply Hfit|].
  rewrite Hpub, Ho in Hw. injection Hw as <-. exists series. split; [|split; [by apply closing_meta|done]]. exists w0. destruct Hcl as [Hcl _]. done.
Qed.

Lemma in_cut cutAt t v : is_i64 t -> in_window (- 2 ^ 63) (cutAt - 1) (t, v) = true <-> t < cutAt.
Proof. unfold is_i64, in_window. intros Ht. cbn. rewrite negb_true_iff, orb_false_iff, !Z.ltb_ge. lia. Qed.

(** What the cut block holds: the head's samples below the cut. *)
Lemma cut_block_holds db A cutAt series b : db_inv db (Frozen cutAt) A -> opened_from series b ->
  (forall ref ss, (ref, ss) ∈ series <-> exists all, A !! Key ref = Some (ref, all) /\ ss = filter (fun s => in_window (- 2 ^ 63) (cutAt - 1) s = true) all /\ ss <> []) ->
  forall ref t v, in_block b ref t v <-> in_store A ref t v /\ t < cutAt.
Proof.
  intros HI Hof Hel ref t v. rewrite (in_block_from series) by done. split.
  - intros (ss & Hin & Hv). apply Hel in Hin as (all & HA & -> & _). apply list_elem_of_filter in Hv as [Hw Hv].
    destruct (hi_shard_run _ _ _ _ _ (di_head _ _ _ HI) HA) as (_ & _ & Hs). rewrite Forall_forall in Hs. destruct (Hs _ Hv) as [Ht _].
    apply in_cut in Hw; [|done]. split; [by exists all|done].
  - intros [(all & HA & Hv) Hlt]. destruct (hi_shard_run _ _ _ _ _ (di_head _ _ _ HI) HA) as (_ & _ & Hs). rewrite Forall_forall in Hs. destruct (Hs _ Hv) as [Ht _].
    exists (filter (fun s => in_window (- 2 ^ 63) (cutAt - 1) s = true) all).
    assert (Hin : (t, v) ∈ filter (fun s => in_window (- 2 ^ 63) (cutAt - 1) s = true) all) by (apply list_elem_of_filter; split; [by apply in_cut|done]).
    split; [|done]. apply Hel. exists all. split_and!; [done|done|]. intros E. rewrite E in Hin. by apply not_elem_of_nil in Hin.
Qed.

(** The ends of a sound block are samples of it. *)
Lemma block_ends b : block_sound b -> exists r1 v1 r2 v2, in_block b r1 (bm_MinTime (blk_meta b)) v1 /\ in_block b r2 (bm_MaxTime (blk_meta b)) v2.
Proof.
  intros Hb. destruct (bk_min _ Hb) as (k1 & [t1 v1] & H1 & E1), (bk_max _ Hb) as (k2 & [t2 v2] & H2 & E2). cbn in E1, E2. subst t1 t2.
  assert (Hne : forall k x, x ∈ samples_of b k -> samples_of b k <> []) by (intros k x Hx E; rewrite E in Hx; by apply not_elem_of_nil in Hx).
  destruct (rk_listed _ (bk_reader _ Hb) k1 (Hne _ _ H1)) as (r1 & Hr1 & K1), (rk_listed _ (bk_reader _ Hb) k2 (Hne _ _ H2)) as (r2 & Hr2 & K2).
  exists r1, v1, r2, v2. split; (split; [done|by rewrite ?K1, ?K2]).
Qed.

Lemma publish_step db A cutAt id io b : db_inv db (Frozen cutAt) A -> cut_write cutAt id io (db_head db) = Ok b ->
  cut_fits cutAt id io (db_head db) -> fresh_id id (db_blocks db) ->
  db_inv (publish b db) (Published cutAt) A /\ moves db (publish b db).
Proof.
  intros HI Hw Hfit Hid. destruct (cut_write_spec _ _ _ _ _ _ HI Hw Hfit) as (series & Hof & Hmeta & Hel).
  pose proof (cut_block_holds _ _ _ _ _ HI Hof Hel) as Hin. pose proof (opened_from_sound _ _ Hof) as Hsound.
  assert (Hserv : serving b).
  { exists series. split; [done|]. intros [ref ss] Hc. apply Hel in Hc as (all & HA & _). by apply (di_refs _ _ _ HI _ _ _ HA). }
  destruct (block_ends b Hsound) as (r1 & v1 & r2 & v2 & H1 & H2). apply Hin in H1 as [S1 L1], H2 as [S2 L2].
  destruct HI as [J1 J2 J3 J4 J5 J6 (Hk & Hb & Hm & c & Hc1 & Hc2 & Hc3)].
  pose proof (J4 _ _ _ S1) as T1. pose proof (J4 _ _ _ S2) as T2. pose proof (Hc3 _ _ _ S1) as T3.
  assert (Hle : bm_MinTime (blk_meta b) <= bm_MaxTime (blk_meta b)).
  { assert (Hx : in_block b r1 (bm_MinTime (blk_meta b)) v1) by (by apply Hin). pose proof (in_block_span _ _ _ _ Hsound Hx). lia. }
  assert (Hmem : forall x, x ∈ db_blocks (publish b db) <-> x ∈ db_blocks db \/ x = b).
  { intros x. unfold publish, sortBlocks. cbn [with_blocks db_blocks]. rewrite merge_sort_Permutation, elem_of_app, list_elem_of_singleton. done. }
  assert (Hmv : forall ref t v, in_blocks (db_blocks db) ref t v -> in_blocks (db_blocks (publish b db)) ref t v).
  { intros ref t v (x & Hx & Hi). exists x. split; [apply Hmem; by left|done]. }
  split; [|split; [|done]; intros ref t v [H|H]; [by left|right; by apply Hmv]]. split; try done.
  - apply (h_cut _ (db_blocks db) b); [exact J5| | | |].
    + split; cbn [b_Meta Block_Reader]; [lia..| |]; [by rewrite (mo_resolution _ _ _ _ Hmeta)|by rewrite (mo_level _ _ _ _ Hmeta)].
    + cbn [b_Meta Block_Reader]. by rewrite (mo_level _ _ _ _ Hmeta).
    + apply Forall_forall. intros x Hx. specialize (Hc2 x Hx). cbn [b_Meta Block_Reader]. lia.
    + cbn [b_Meta Block_Reader]. rewrite (mo_id _ _ _ _ Hmeta). apply Hid.
  - apply Forall_forall. rewrite Forall_forall in J6. intros x [Hx| ->]%Hmem; [by apply J6|done].
  - split; [split; [exact Hk|lia]|]. split; [exact Hm|]. split; [|split].
    + intros x [Hx| ->]%Hmem; [specialize (Hc2 x Hx); lia|lia].
    + intros ref t v HA Hlt. exists b. split; [apply Hmem; by right|]. by apply Hin.
    + intros ref t v v' HA (x & [Hx| ->]%Hmem & Hxi).
      * exfalso. rewrite Forall_forall in J6. pose proof (in_block_span _ _ _ _ (serving_sound _ (J6 x Hx)) Hxi). specialize (Hc2 x Hx). specialize (Hc3 _ _ _ HA). lia.
      * apply Hin in Hxi as [(ss & E & Hv') _]. destruct HA as (ss' & E' & Hv). rewrite E in E'. injection E' as <-.
        destruct (hi_shard_run _ _ _ _ _ J1 E) as (_ & Hr & _). by eapply run_unique.
Qed.

(** ** Truncating the head *)

Lemma cut_store_in c A ref t v : in_store (cut_store c A) ref t v <-> in_store A ref t v /\ c <= t.
Proof.
  unfold in_store, cut_store. setoid_rewrite lookup_omap. split.
  - intros (ss & HA & Hin). destruct (A !! Key ref) as [[r all]|] eqn:E; [|done]. cbn in HA. unfold cut_entry in HA. cbn [fst snd] in HA.
    destruct (filter _ all) as [|s l] eqn:Ef; [done|]. injection HA as -> <-. rewrite <- Ef in Hin. apply list_elem_of_filter in Hin as [H1 H2]. split; [by exists all|done].
  - intros [(all & E & Hin) Hle]. rewrite E. cbn. unfold cut_entry. cbn [fst snd].
    assert (Hf : (t, v) ∈ filter (fun s => c <= s.1) all) by (by apply list_elem_of_filter).
    destruct (filter _ all) as [|s l] eqn:Ef; [by apply not_elem_of_nil in Hf|]. by exists (s :: l).
Qed.

Lemma truncate_step db A cutAt : db_inv db (Published cutAt) A ->
  db_inv (truncate_head cutAt db) (Truncated cutAt) (cut_store cutAt A) /\ moves db (truncate_head cutAt db).
Proof.
  intros [J1 J2 J3 J4 J5 J6 (((k & Hk) & _) & Hm & Hbel & Hin & Hfun)].
  pose proof (HeadTruncate_spec (db_head db) A k J1) as Ht. rewrite <- Hk in Ht. unfold truncate_head.
  destruct (HeadTruncate cutAt (db_head db)) as [[h' ds] dc]. cbn [fst]. destruct Ht as (Hi' & _ & Hv & Hr & _). split.
  - split; cbn [with_head db_head db_blocks db_opts]; try done.
    + by rewrite Hr.
    + intros key ref ss HA. unfold cut_store in HA. rewrite lookup_omap in HA. destruct (A !! key) as [[r all]|] eqn:E; [|done]. cbn in HA.
      unfold cut_entry in HA. cbn [fst snd] in HA. destruct (filter _ all); [done|]. injection HA as <- _. by eapply J3.
    + intros ref t v [H _]%cut_store_in. by eapply J4.
    + cbn [cut_inv with_head db_head db_blocks]. split; [exact Hbel|]. split; [lia|]. intros ref t v [_ H]%cut_store_in. lia.
  - split; [|done]. intros ref t v [H|H]; [|by right]. cbn [with_head db_head db_blocks]. apply (in_head_store _ _ _ _ _ J1) in H.
    destruct (decide (cutAt <= t)); [left; apply (in_head_store _ _ _ _ _ Hi'), cut_store_in; done|right]. apply Hin; [done|lia].
Qed.

(** ** Compaction *)

Lemma serving_good x ref : serving x -> ref ∈ BSeries x -> ref_good ref.
Proof.
  intros (csx & (wx & -> & Hokx & _ & Hwx & _) & Hgx) Hr. apply (opened_ref csx wx Hwx) in Hr. apply list_elem_of_fmap in Hr as (cx & -> & Hcx). by apply Hgx.
Qed.

(** Two lists of blocks with the same samples per key hold the same samples. *)
Lemma blocks_transfer l1 l2 : Forall serving l1 -> Forall serving l2 ->
  (forall key, l1 ≫= (fun x => samples_of x key) = l2 ≫= fun x => samples_of x key) -> forall ref t v, in_blocks l1 ref t v -> in_blocks l2 ref t v.
Proof.
  intros Hl1 Hl2 Heq ref t v (x & Hx & Hr & Hv). rewrite Forall_forall in Hl1, Hl2.
  assert (Hin : (t, v) ∈ l2 ≫= fun x => samples_of x (Key ref)) by (rewrite <- Heq; apply list_elem_of_bind; eauto).
  apply list_elem_of_bind in Hin as (y & Hy & Hyl). exists y. split; [done|]. split; [|done].
  destruct (rk_listed _ (bk_reader _ (serving_sound _ (Hl2 y Hyl))) (Key ref)) as (r' & Hr' & HK); [intros E0; rewrite E0 in Hy; by apply not_elem_of_nil in Hy|].
  assert (r' = ref) as <-; [|done]. apply good_key; [by apply (serving_good y r' (Hl2 y Hyl))|by apply (serving_good x ref (Hl1 x Hx))|done].
Qed.

Lemma compact_step db A id io db' r : db_inv db Idle A -> DbCompact id io db = (db', r) -> compact_fits id io db ->
  fresh_id id (db_blocks db) -> db_inv db' Idle A /\ moves db db' /\ forall ref t v, in_blocks (db_blocks db') ref t v -> in_blocks (db_blocks db) ref t v.
Proof.
  intros HI H Hfit Hid. unfold DbCompact in H. unfold compact_fits in Hfit.
  destruct (Next_ (db_blocks db) _) as [plan|] eqn:En; [|injection H as <- _; by split]. specialize (Hfit plan).
  destruct HI as [J1 J2 J3 J4 J5 J6 (c & Hc1 & Hc2 & Hc3)].
  assert (Hsound : Forall block_sound (db_blocks db)) by (eapply Forall_impl; [exact J6|]; apply serving_sound).
  destruct (compaction_spec (copts db) (db_blocks db) plan id io (minblocks db) J5 En Hsound (proj1 Hid)) as (w & res & Em & _ & Hpub).
  assert (Hsame : db_inv db Idle A) by (split; try done; by exists c).
  rewrite Em in H. destruct res as [m|e]; [|injection H as <- _; by split]. destruct (bw_published w) as [f|] eqn:Ep; [|injection H as <- _; by split].
  destruct (Hpub f eq_refl (Hfit w m f eq_refl Em Ep)) as (b & Ho & (cs & Hof & Hsrc) & _ & _ & Hh' & Hs' & Hall). rewrite Ho in H. injection H as <- _.
  assert (Hserv : serving b).
  { exists cs. split; [done|]. intros cc Hcc. destruct (Hsrc cc Hcc) as (x & Hx & Hr).
    assert (Hxin : x ∈ db_blocks db).
    { destruct (Next_tidy _ _ _ (minblocks db) (history_tidy _ _ (minblocks db) J5) En) as (? & ? & ? & ? & ? & Hpl).
      apply planned_sub in Hpl. by eapply sublist_subseteq. }
    rewrite Forall_forall in J6. apply (serving_good x); [by apply J6|done]. }
  set (bs' := swap plan b (db_blocks db)) in *.
  assert (Hmem : forall x, x ∈ bs' -> x ∈ db_blocks db \/ x = b).
  { intros x Hx. unfold bs', swap, sortBlocks in Hx. rewrite merge_sort_Permutation, elem_of_app, list_elem_of_singleton in Hx.
    destruct Hx as [Hx| ->]; [|by right]. left. by apply list_elem_of_filter in Hx as [_ Hx]. }
  assert (Hserv' : Forall serving bs').
  { rewrite Forall_forall in J6. apply Forall_forall. intros x [Hx| ->]%Hmem; [by apply J6|done]. }
  assert (Hmv : forall ref t v, in_blocks (db_blocks db) ref t v -> in_blocks bs' ref t v) by (apply blocks_transfer; [done|done|intros; by rewrite Hall]).
  split; [|split; [split; [|exact Hmv]; intros ref t v [H|H]; [by left|right; by apply Hmv]|apply (blocks_transfer bs' (db_blocks db) Hserv' J6 Hall)]]. split; try done.
  exists c. split; [done|]. split; [|done]. cbn [with_blocks db_blocks]. intros x [Hx| ->]%Hmem; [by apply Hc2|].
  assert (Hbin : b ∈ bs') by (unfold bs', swap, sortBlocks; rewrite merge_sort_Permutation; apply elem_of_app; right; by left).
  destruct (block_ends b (serving_sound _ Hserv)) as (_ & _ & r2 & v2 & _ & H2).
  assert (Hold : in_blocks (db_blocks db) r2 (bm_MaxTime (blk_meta b)) v2) by (apply (blocks_transfer bs' (db_blocks db) Hserv' J6 Hall); by exists b).
  destruct Hold as (y & Hy & Hyi). rewrite Forall_forall in J6. pose proof (in_block_span _ _ _ _ (serving_sound _ (J6 y Hy)) Hyi). specialize (Hc2 y Hy). lia.
Qed.

Lemma db_step_inv calm s s' A : db_inv s.1 s.2 A -> db_step calm s s' -> exists A', db_inv s'.1 s'.2 A' /\ moves s.1 s'.1.
Proof.
  intros HI Hs. destruct Hs as [ctx batch db db' r p Hg H _|now cutAt db H|cutAt id io db e H|cutAt id io db b H Hf Hid|cutAt db|cutAt db|id io db db' r H Hf Hid]; cbn [fst snd] in *.
  - by eapply append_step.
  - exists A. by eapply freeze_step.
  - exists A. split; [|apply moves_refl]. destruct HI as [J1 J2 J3 J4 J5 J6 (_ & _ & _ & Hc)]. by split.
  - exists A. by eapply publish_step.
  - exists (cut_store cutAt A). by apply truncate_step.
  - exists A. by apply (log_step db cutAt).
  - exists A. by destruct (compact_step _ _ _ _ _ _ HI H Hf Hid) as (? & ? & _).
Qed.

Lemma db_reach_inv calm s s' : rtc (db_step calm) s s' -> forall A, db_inv s.1 s.2 A -> exists A', db_inv s'.1 s'.2 A' /\ moves s.1 s'.1.
Proof.
  induction 1 as [s|s s1 s' H _ IH]; intros A HI; [exists A; split; [done|apply moves_refl]|].
  destruct (db_step_inv _ _ _ _ HI H) as (A1 & HI1 & [M1 M2]). destruct (IH A1 HI1) as (A' & HI' & [N1 N2]). exists A'. split; [done|].
  split; intros; [by apply N1, M1|by apply N2, M2].
Qed.
