(* ===== verification/DbQuery.v ===== *)
(** * Queries against a running database *)

From Stdlib Require Import ZArith Lia.
From Stdlib Require Import (notations) String.
From stdpp Require Import base sorting gmap numbers list relations.
From S2P Require Import Prelude Chunkenc Wal WalProofs WalTruncate Gofloat Gostring Tsdb Index IndexProofs IndexSelect HeadRecord Head HeadSeries HeadStore HeadCommit HeadOps HeadDurable Compact CompactProofs BlockFile BlockIndex BlockLaws BlockOpen Block BlockServe BlockWrite BlockCompact Db DbMerge DbState.

Definition matches (sel : Selector) (ref : SeriesRef) : Prop :=
  (sel_Metric sel <> [] -> sr_Metric ref = sel_Metric sel) /\ forallb (fun m => Matcher_Matches m (sr_Tags ref)) (sel_Matchers sel) = true.

(** No instant of a series has two values. *)
Lemma stored_fun db p A ref t v v' : db_inv db p A -> stored db ref t v -> stored db ref t v' -> v = v'.
Proof.
  intros [J1 J2 J3 J4 J5 J6 Jc]. pose proof J6 as Js. rewrite Forall_forall in Js.
  assert (Hhb : forall v v', in_head (db_head db) ref t v -> in_blocks (db_blocks db) ref t v' -> v = v').
  { intros u u' Hh Hb. apply (in_head_store _ _ _ _ _ J1) in Hh.
    assert (Hno : forall c, (forall b, b ∈ db_blocks db -> bm_MaxTime (blk_meta b) < c) -> c <= t -> u = u').
    { intros c Hbel Hle. destruct Hb as (b & Hb & Hi). pose proof (in_block_span _ _ _ _ (serving_sound _ (Js b Hb)) Hi). specialize (Hbel b Hb). lia. }
    destruct p as [|cutAt|cutAt|cutAt]; cbn [cut_inv] in Jc.
    - destruct Jc as (c & _ & Hbel & Hge). apply (Hno c Hbel). by eapply Hge.
    - destruct Jc as (_ & _ & _ & c & _ & Hbel & Hge). apply (Hno c Hbel). by eapply Hge.
    - destruct Jc as (_ & _ & _ & _ & Hfun). by eapply Hfun.
    - destruct Jc as (Hbel & Hm & Hge). apply (Hno cutAt Hbel). specialize (Hge _ _ _ Hh). lia. }
  intros [H|H] [H'|H']; [|by apply Hhb|symmetry; by apply Hhb|].
  - apply (in_head_store _ _ _ _ _ J1) in H as (ss & HA & Hv), H' as (ss' & HA' & Hv'). rewrite HA in HA'. injection HA' as <-.
    destruct (hi_shard_run _ _ _ _ _ J1 HA) as (_ & Hr & _). by eapply run_unique.
  - destruct H as (b & Hb & Hi), H' as (b' & Hb' & Hi').
    pose proof (in_block_span _ _ _ _ (serving_sound _ (Js b Hb)) Hi). pose proof (in_block_span _ _ _ _ (serving_sound _ (Js b' Hb')) Hi').
    pose proof (ti_apart _ _ (history_tidy _ _ (minblocks db) J5)) as Hap.
    destruct (sorted_pairs _ _ b b' Hap Hb Hb') as [<-|[[Hlt _]|[Hlt _]]]; [by eapply in_block_fun; [apply serving_sound, Js|..]|cbn [b_Meta Block_Reader] in Hlt; lia..].
Qed.

Definition in_range (from to t : Z) : Prop := from <= t <= to.
Lemma in_window_range from to s : in_window from to s = true <-> in_range from to s.1.
Proof. unfold in_window, in_range. rewrite negb_true_iff, orb_false_iff, !Z.ltb_ge. done. Qed.

(** The answer of one source: the matching part of what it holds. *)
Definition answers (sel : Selector) (from to : Z) (holds : SeriesRef -> Z -> Z -> Prop) (got : entries) : Prop :=
  forall ref t v, (exists vs, (ref, vs) ∈ got /\ (t, v) ∈ vs) <-> matches sel ref /\ in_range from to t /\ holds ref t v.

Section Sources.
Variables (sel : Selector) (from to : Z).
Hypothesis Hsel : Forall (fun m => m_Key m <> MetricName) (sel_Matchers sel).

(** An exact selection answers. *)
Lemma exact_answers (P : SeriesRef -> list (Z * Z) -> Prop) (holds : SeriesRef -> Z -> Z -> Prop) got :
  (forall ref vs, (ref, vs) ∈ got <-> exists all, P ref all /\ vs = filter (fun s => in_window from to s = true) all /\ vs <> []
     /\ (sel_Metric sel <> [] -> sr_Metric ref = sel_Metric sel) /\ forallb (fun m => Matcher_Matches m (sr_Tags ref)) (sel_Matchers sel) = true) ->
  (forall ref t v, holds ref t v <-> exists all, P ref all /\ (t, v) ∈ all) -> (forall ref all, P ref all -> ref_good ref) ->
  answers sel from to holds got /\ forall s, s ∈ got -> ref_good s.1 /\ matches sel s.1.
Proof.
  clear Hsel. intros Hel Hholds Hgood. split.
  - intros ref t v. rewrite Hholds. split.
    + intros (vs & Hin & Hv). apply Hel in Hin as (all & HA & -> & _ & Hm & Hf). apply list_elem_of_filter in Hv as [Hw Hv].
      split; [done|]. split; [by apply in_window_range in Hw|]. by exists all.
    + intros ([Hm Hf] & Hr & (all & HA & Hv)). assert (Hvf : (t, v) ∈ filter (fun s => in_window from to s = true) all).
      { apply list_elem_of_filter. split; [by apply in_window_range|done]. }
      exists (filter (fun s => in_window from to s = true) all). split; [|done]. apply Hel. exists all. split_and!; [done|done| |done|done].
      intros E'. rewrite E' in Hvf. by apply not_elem_of_nil in Hvf.
  - intros [ref vs] Hin. apply Hel in Hin as (all & HA & _ & _ & Hm & Hf). split; [by apply (Hgood ref all)|done].
Qed.

Lemma head_answers db p A : db_inv db p A -> exists got, HeadSelect sel from to (db_head db) = Ok got
  /\ answers sel from to (in_head (db_head db)) got /\ forall s, s ∈ got -> ref_good s.1 /\ matches sel s.1.
Proof.
  intros HI. destruct (HeadSelect_spec (db_head db) A sel from to (di_head _ _ _ HI)) as (got & E & _ & Hel); [|done|].
  { intros key ref ss t HA Ht. by apply (rg_plain _ (di_refs _ _ _ HI _ _ _ HA)). }
  exists got. split; [done|]. apply (exact_answers (fun ref all => A !! Key ref = Some (ref, all))); [exact Hel| |].
  - intros ref t v. apply in_head_store, HI.
  - intros ref all HA. by apply (di_refs _ _ _ HI _ _ _ HA).
Qed.

Lemma block_answers b : serving b -> exists got, BlockSelect b sel from to = Ok got
  /\ answers sel from to (in_block b) got /\ forall s, s ∈ got -> ref_good s.1 /\ matches sel s.1.
Proof.
  intros (cs & Hof & Hg). pose proof Hof as (w & -> & Hok & Hne & Hw & Hf & Hi).
  destruct (opened_select cs w Hok Hw Hf Hi sel from to) as (got & E & _ & Hel); [intros c t Hc Ht; by apply (rg_plain _ (Hg c Hc))|done|].
  exists got. split; [done|]. apply (exact_answers (fun ref all => (ref, all) ∈ cs)); [exact Hel| |].
  - intros ref t v. by apply in_block_from.
  - intros ref all Hin. by apply (Hg (ref, all)).
Qed.

Lemma blocks_answer bs : Forall serving bs -> exists gots, Forall2 (fun b got => BlockSelect b sel from to = Ok got) bs gots
  /\ answers sel from to (in_blocks bs) (concat gots) /\ forall s, s ∈ concat gots -> ref_good s.1 /\ matches sel s.1.
Proof.
  induction 1 as [|b bs Hb _ (gots & H1 & H2 & H3)].
  - exists []. split; [constructor|]. split; [|intros s Hs; by apply not_elem_of_nil in Hs]. intros ref t v. split.
    + intros (vs & Hin & _). by apply not_elem_of_nil in Hin.
    + intros (_ & _ & b & Hb & _). by apply not_elem_of_nil in Hb.
  - destruct (block_answers b Hb) as (got & E & G2 & G3). exists (got :: gots). split; [by constructor|]. cbn [concat]. split.
    + intros ref t v. split.
      * intros (vs & [Hin|Hin]%elem_of_app & Hv).
        -- destruct (proj1 (G2 ref t v)) as (Hm & Hr & Hi); [eauto|]. split; [done|]. split; [done|]. exists b. split; [by left|done].
        -- destruct (proj1 (H2 ref t v)) as (Hm & Hr & x & Hx & Hi); [eauto|]. split; [done|]. split; [done|]. exists x. split; [by right|done].
      * intros (Hm & Hr & x & [->|Hx]%elem_of_cons & Hi).
        -- destruct (proj2 (G2 ref t v)) as (vs & Hin & Hv); [done|]. exists vs. split; [apply elem_of_app; by left|done].
        -- destruct (proj2 (H2 ref t v)) as (vs & Hin & Hv); [split; [exact Hm|split; [exact Hr|by exists x]]|]. exists vs. split; [apply elem_of_app; by right|done].
    + intros s [Hs|Hs]%elem_of_app; [by apply G3|by apply H3].
Qed.
End Sources.

(** ** The query theorem *)

Definition initial (opts : DBOptions) (w : WAL) (max : Z) (sync : bool) : DB :=
  MkDB opts (NewHead (Some w) (Milliseconds (do_BlockRange opts)) max sync) [].

Lemma initial_inv opts w max sync : 0 < Milliseconds (do_BlockRange opts) < 2 ^ 62 -> db_inv (initial opts w max sync) Idle ∅.
Proof.
  intros Hr. assert (Hno : forall ref t v, ~ in_store ∅ ref t v) by (intros ref t v (ss & H & _); by rewrite lookup_empty in H). split.
  - apply NewHead_inv.
  - unfold initial, rangeMs. cbn [db_head db_opts NewHead h_BlockRange]. rewrite (proj2 (Z.leb_gt _ _)) by lia. lia.
  - intros key ref ss H. by rewrite lookup_empty in H.
  - intros ref t v H. by destruct (Hno _ _ _ H).
  - apply h_empty.
  - constructor.
  - exists (- 2 ^ 63). split; [done|]. split; [intros b Hb; by apply not_elem_of_nil in Hb|]. intros ref t v H. by destruct (Hno _ _ _ H).
Qed.

Lemma at_key_elem key (l : entries) s : s ∈ at_key key l <-> exists x, x ∈ l /\ Key x.1 = key /\ s ∈ x.2.
Proof.
  unfold at_key. rewrite list_elem_of_bind. split.
  - intros (x & Hs & Hx). destruct (decide (Key x.1 = key)) as [HK|]; [|by apply not_elem_of_nil in Hs]. eauto.
  - intros (x & Hx & HK & Hs). exists x. rewrite decide_True by done. done.
Qed.

Lemma take_elem {A} n (l : list A) x : x ∈ take n l -> x ∈ l.
Proof. intros H. rewrite <- (take_drop n l). apply elem_of_app. by left. Qed.

(** Reading the head in one state and the blocks in a later one. *)
Lemma query_spec s1 s2 A1 sel from to : db_inv s1.1 s1.2 A1 -> rtc (db_step false) s1 s2 ->
  Forall (fun m => m_Key m <> MetricName) (sel_Matchers sel) ->
  exists out, DbSelect None sel from to (db_head s1.1) (db_blocks s2.1) = Ok out
    /\ StronglySorted (fun x y => str_lt (Key x.1) (Key y.1)) out
    /\ (forall ref vs, (ref, vs) ∈ out -> run vs /\ matches sel ref
          /\ forall t v, (t, v) ∈ vs -> in_range from to t /\ stored s2.1 ref t v)
    /\ (forall ref t v, matches sel ref -> in_range from to t -> stored s1.1 ref t v -> exists vs, (ref, vs) ∈ out /\ (t, v) ∈ vs).
Proof.
  intros H1 Hreach Hsel. destruct (db_reach_inv _ _ _ Hreach A1 H1) as (A2 & H2 & [Mst Mbl]).
  destruct (head_answers sel from to Hsel _ _ _ H1) as (fromHead & Eh & Ah & Gh).
  destruct (blocks_answer sel from to Hsel _ (di_blocks _ _ _ H2)) as (gots & Eb & Ab & Gb).
  destruct (DbSelect_spec sel from to _ _ _ _ Eh Eb) as (out & E & Hso & Hkeys & Hout). exists out. split; [done|]. split; [done|].
  set (all := concat gots ++ fromHead) in *.
  assert (Hg : forall s, s ∈ all -> ref_good s.1 /\ matches sel s.1) by (intros s [Hs|Hs]%elem_of_app; auto).
  assert (Hall : forall ref t v, ref_good ref -> (t, v) ∈ at_key (Key ref) all <-> matches sel ref /\ in_range from to t /\ (in_head (db_head s1.1) ref t v \/ in_blocks (db_blocks s2.1) ref t v)).
  { intros ref t v Hr. rewrite at_key_elem. split.
    - intros ([ref' vs] & Hx & HK & Hv). assert (ref' = ref) as -> by (apply good_key; [by apply (Hg _ Hx)|done|done]).
      apply elem_of_app in Hx as [Hx|Hx]; [destruct (proj1 (Ab ref t v)) as (? & ? & ?)|destruct (proj1 (Ah ref t v)) as (? & ? & ?)]; eauto.
    - intros (Hm & Hrg & [Hh|Hb]); [destruct (proj2 (Ah ref t v)) as (vs & Hx & Hv)|destruct (proj2 (Ab ref t v)) as (vs & Hx & Hv)]; [done| |done|];
        (exists (ref, vs); split; [apply elem_of_app|]); auto. }
  assert (Hsub : forall ref t v, in_head (db_head s1.1) ref t v \/ in_blocks (db_blocks s2.1) ref t v -> stored s2.1 ref t v).
  { intros ref t v [H|H]; [apply Mst; by left|by right]. }
  split.
  - intros ref vs Hin. destruct (Hout ref vs Hin) as (Hr & (s & Hs & ->) & Ht). destruct (Hg s Hs) as [Hgs Hms]. split; [done|]. split; [done|].
    intros t v Hv. assert (Hva : (t, v) ∈ at_time t vs) by (by apply list_elem_of_filter). rewrite Ht in Hva. apply take_elem in Hva.
    apply list_elem_of_filter in Hva as [_ Hi]. apply Hall in Hi as (_ & Hrg & Hi); [|done]. split; [done|by apply Hsub].
  - intros ref t v Hm Hr Hst. assert (Hsrc : in_head (db_head s1.1) ref t v \/ in_blocks (db_blocks s2.1) ref t v) by (destruct Hst as [H|H]; [by left|right; by apply Mbl]).
    assert (Hgr : ref_good ref).
    { destruct Hsrc as [H|(b & Hb & H & _)].
      - apply (in_head_store _ _ _ _ _ (di_head _ _ _ H1)) in H as (ss & HA & _). by apply (di_refs _ _ _ H1 _ _ _ HA).
      - pose proof (di_blocks _ _ _ H2) as HB. rewrite Forall_forall in HB. by apply (serving_good b ref (HB b Hb)). }
    assert (Hat : (t, v) ∈ at_key (Key ref) all) by (by apply Hall).
    destruct (proj1 (Hkeys (Key ref))) as (ref' & vs & Hin & HK); [intros E0; rewrite E0 in Hat; by apply not_elem_of_nil in Hat|].
    destruct (Hout ref' vs Hin) as (_ & (s & Hs & ->) & Ht). assert (s.1 = ref) as Es by (apply good_key; [by apply Hg|done|done]). rewrite Es in *.
    exists vs. split; [done|]. assert (Hf : (t, v) ∈ at_time t (at_key (Key ref) all)) by (by apply list_elem_of_filter).
    specialize (Ht t). destruct (at_time t (at_key (Key ref) all)) as [|[t0 v0] l] eqn:El; [by apply not_elem_of_nil in Hf|].
    assert (H0 : (t0, v0) ∈ at_time t (at_key (Key ref) all)) by (rewrite El; left). apply list_elem_of_filter in H0 as [Et H0]. cbn in Et. subst t0.
    assert (v0 = v) as ->. { eapply (stored_fun _ _ _ ref t _ _ H2); apply Hsub; [|done]. by apply Hall in H0 as (_ & _ & ?). }
    assert (Hv : (t, v) ∈ at_time t vs) by (rewrite Ht; left). by apply list_elem_of_filter in Hv as [_ ?].
Qed.

(** ** A whole block cut *)

Definition cut_runs (now id : Z) (io : list bool) (db : DB) : Prop :=
  fresh_id id (db_blocks db) /\ forall cutAt, cut_point now db = Some cutAt -> cut_fits cutAt id io (Freeze cutAt (db_head db)).

(** [CutBlock] is a sequence of steps. *)
Lemma cut_steps now id io db : cut_runs now id io db -> rtc (db_step false) (db, Idle) ((CutBlock now id io db).1, Idle).
Proof.
  intros [Hid Hfit]. unfold CutBlock. destruct (cut_point now db) as [cutAt|] eqn:Ec; [|constructor]. specialize (Hfit cutAt eq_refl).
  eapply rtc_l; [by eapply ds_freeze|]. set (db1 := with_head _ db). destruct (cut_write cutAt id io (db_head db1)) as [b|e] eqn:Ew; cbn [fst].
  - eapply rtc_l; [by eapply ds_publish|]. eapply rtc_l; [apply ds_truncate|]. eapply rtc_l; [apply ds_log|constructor].
  - eapply rtc_l; [by eapply ds_abort|constructor].
Qed.

Lemma in_head_log h ref t v : in_head (truncateLog h).1 ref t v <-> in_head h ref t v.
Proof.
  assert (E : h_byID (truncateLog h).1 = h_byID h) by (unfold truncateLog; destruct (h_wal h); [destruct (Truncate _ _ _)|]; done).
  unfold in_head. by rewrite E.
Qed.

Lemma in_blocks_publish b db ref t v : in_blocks (db_blocks (publish b db)) ref t v <-> in_blocks (db_blocks db) ref t v \/ in_block b ref t v.
Proof.
  unfold in_blocks, publish, sortBlocks. cbn [with_blocks db_blocks]. setoid_rewrite merge_sort_Permutation.
  setoid_rewrite elem_of_app. setoid_rewrite list_elem_of_singleton. naive_solver.
Qed.

Lemma CutBlock_spec now id io db A : db_inv db Idle A -> cut_runs now id io db ->
  let '(db', r) := CutBlock now id io db in
  (forall ref t v, stored db' ref t v <-> stored db ref t v)
  /\ match r with
     | Ok m => exists cutAt, cut_point now db = Some cutAt /\ bm_ULID m = id
         /\ (forall ref t v, in_head (db_head db') ref t v <-> in_head (db_head db) ref t v /\ cutAt <= t)
         /\ (forall ref t v, in_blocks (db_blocks db') ref t v <->
               in_blocks (db_blocks db) ref t v \/ (in_head (db_head db) ref t v /\ t < cutAt))
     | Err _ => db_blocks db' = db_blocks db /\ forall ref t v, in_head (db_head db') ref t v <-> in_head (db_head db) ref t v
     end.
Proof.
  intros HI [Hid Hfit]. unfold CutBlock. destruct (cut_point now db) as [cutAt|] eqn:Ec; [|done]. specialize (Hfit cutAt eq_refl).
  destruct (freeze_step _ _ _ _ HI Ec) as [HI1 _]. set (db1 := with_head _ db) in *.
  assert (Hfr : forall ref t v, in_head (db_head db1) ref t v <-> in_head (db_head db) ref t v).
  { intros. by rewrite (in_head_store _ _ _ _ _ (di_head _ _ _ HI1)), (in_head_store _ _ _ _ _ (di_head _ _ _ HI)). }
  destruct (cut_write cutAt id io (db_head db1)) as [b|e] eqn:Ew.
  - destruct (publish_step _ _ _ _ _ _ HI1 Ew Hfit Hid) as [HI2 _]. destruct (truncate_step _ _ _ HI2) as [HI3 _].
    destruct (cut_write_spec _ _ _ _ _ _ HI1 Ew Hfit) as (series & Hof & Hmeta & Hel).
    pose proof (cut_block_holds _ _ _ _ _ HI1 Hof Hel) as Hin.
    set (db3 := truncate_head cutAt (publish b db1)) in *.
    assert (Hh : forall ref t v, in_head (truncateLog (db_head db3)).1 ref t v <-> in_head (db_head db) ref t v /\ cutAt <= t).
    { intros ref t v. by rewrite in_head_log, (in_head_store _ _ _ _ _ (di_head _ _ _ HI3)), cut_store_in, (in_head_store _ _ _ _ _ (di_head _ _ _ HI)). }
    assert (Hb : forall ref t v, in_blocks (db_blocks db3) ref t v <-> in_blocks (db_blocks db) ref t v \/ (in_head (db_head db) ref t v /\ t < cutAt)).
    { intros ref t v. change (db_blocks db3) with (db_blocks (publish b db1)). by rewrite in_blocks_publish, Hin, (in_head_store _ _ _ _ _ (di_head _ _ _ HI)). }
    split; [|exists cutAt; split; [done|]; split; [apply Hmeta|done]].
    intros ref t v. unfold stored. cbn [with_head db_head db_blocks]. rewrite Hh, Hb. destruct (decide (cutAt <= t)); [naive_solver|].
    assert (t < cutAt) by lia. naive_solver.
  - split; [|done]. intros ref t v. unfold stored. by rewrite Hfr.
Qed.

(** ** Example *)

Definition ex_opts_db : DBOptions := MkDBOptions 100000000 (-1) 0 0.
Definition ex_batch : list (SeriesRef * list (Z * Z)) := [(web_a, [(10, 1); (120, 2)]); (db_a, [(190, 3)])].
Definition ex_db0 : DB := initial ex_opts_db example_wal 10 true.
Definition ex_db1 : DB := (DbAppend None ex_batch ex_db0).1.
Definition ex_db2 : DB := (CutBlock 250 7 [] ex_db1).1.

Lemma ref_good_dec ref : Validate ref = Ok tt -> bool_decide (NoDup (pairs ref)) = true ->
  forallb (fun x => (0 <=? x) && (x <? 256)) (sr_Metric ref ++ (sr_Tags ref ≫= fun t => t_Key t ++ t_Value t)) = true ->
  ref_clean ref -> bool_decide (Forall (fun t => t_Key t <> MetricName) (sr_Tags ref)) = true -> ref_sized ref -> ref_good ref.
Proof.
  intros Hv Hp Hb Hc Hm Hs. destruct (ref_ok_dec ref Hv Hp Hb) as (_ & H1 & H2). apply bool_decide_eq_true in Hm. rewrite Forall_forall in Hm. by split.
Qed.

Lemma web_a_good : ref_good web_a.
Proof.
  apply ref_good_dec; [vm_compute; reflexivity..| |vm_compute; reflexivity|].
  - apply NewSeriesRef_clean; [vm_compute; reflexivity|]. repeat constructor.
  - constructor; [vm_compute; done|vm_compute; done|]; cbn; repeat constructor.
Qed.
Lemma db_a_good : ref_good db_a.
Proof.
  apply ref_good_dec; [vm_compute; reflexivity..| |vm_compute; reflexivity|].
  - apply NewSeriesRef_clean; [vm_compute; reflexivity|]. repeat constructor.
  - constructor; [vm_compute; done|vm_compute; done|]; cbn; repeat constructor.
Qed.

Lemma ex_batch_good : batch_good ex_batch.
Proof.
  intros ss Hss _. apply elem_of_cons in Hss as [->|Hss]; [|apply list_elem_of_singleton in Hss as ->]; cbn [fst snd].
  - split; [apply web_a_good|]. repeat (apply Forall_cons_2; [done|]). apply Forall_nil, I.
  - split; [apply db_a_good|]. repeat (apply Forall_cons_2; [done|]). apply Forall_nil, I.
Qed.

Lemma ex_db1_step : db_step false (ex_db0, Idle) (ex_db1, Idle).
Proof. eapply (ds_append _ None ex_batch); [apply ex_batch_good|unfold ex_db1; apply surjective_pairing|done]. Qed.

Lemma ex_cut_runs : cut_runs 250 7 [] ex_db1.
Proof.
  split.
  - split; [apply (bool_decide_eq_false_1 (7 ∈ ids (db_blocks ex_db1)))|apply (bool_decide_eq_false_1 (7 ∈ sources (db_blocks ex_db1)))]; vm_compute; reflexivity.
  - intros cutAt Hc. assert (E : cut_point 250 ex_db1 = Some 100) by (vm_compute; reflexivity). rewrite E in Hc. injection Hc as <-.
    set (h := Freeze 100 (db_head ex_db1)).
    assert (Es : HeadSelect everything (- 2 ^ 63) (int64 (100 - 1)) h = Ok [(web_a, [(10, 1)])]) by (vm_compute; reflexivity).
    intros series w m f Hs Hw Hp. rewrite Es in Hs. injection Hs as <-.
    assert (Hfit : match bw_published (Write 7 [(web_a, [(10, 1)])] (MkWriterOptions 0 [] 0) []).1 with
      | Some f => (Z.of_nat (length (bf_chunks f)) <? 2 ^ 63) && (Z.of_nat (length (bf_index f)) <? 2 ^ 63) | None => true end = true) by (vm_compute; reflexivity).
    rewrite Hw in Hfit. cbn [fst] in Hfit. rewrite Hp in Hfit. apply andb_true_iff in Hfit as [H1 H2]. apply Z.ltb_lt in H1, H2. split; assumption.
Qed.

(** C2: a query sees the database as if it ran at one instant.  With a context that is not done, and whatever appends, block cuts, compactions and log truncations running between the query's read of the head and its read of the block list, it succeeds; every matching sample stored when it began is in the answer, everything in the answer matches and is stored when it ends, series come in strict key order and each series' samples in strict time order. *)
Theorem query_linear opts w max sync db1 p1 db2 p2 sel from to : 0 < Milliseconds (do_BlockRange opts) < 2 ^ 62 ->
  rtc (db_step false) (initial opts w max sync, Idle) (db1, p1) -> rtc (db_step false) (db1, p1) (db2, p2) ->
  Forall (fun m => m_Key m <> MetricName) (sel_Matchers sel) ->
  exists out, DbSelect None sel from to (db_head db1) (db_blocks db2) = Ok out
    /\ StronglySorted (fun x y => str_lt (Key x.1) (Key y.1)) out
    /\ (forall ref vs, (ref, vs) ∈ out -> run vs /\ matches sel ref
          /\ forall t v, (t, v) ∈ vs -> in_range from to t /\ stored db2 ref t v)
    /\ (forall ref t v, matches sel ref -> in_range from to t -> stored db1 ref t v -> exists vs, (ref, vs) ∈ out /\ (t, v) ∈ vs).
Proof.
  intros Hr H1 H2 Hsel. destruct (db_reach_inv _ _ _ H1 ∅ (initial_inv opts w max sync Hr)) as (A & HA & _). by apply (query_spec (db1, p1) (db2, p2) A).
Qed.

Lemma ex_db2_steps : rtc (db_step false) (ex_db1, Idle) (ex_db2, Idle).
Proof. unfold ex_db2. apply cut_steps, ex_cut_runs. Qed.

(** A query that reads the head before the cut and the block list after it. *)
Lemma query_linear_witness :
  exists out, DbSelect None everything 0 150 (db_head ex_db1) (db_blocks ex_db2) = Ok out
    /\ (exists vs, (web_a, vs) ∈ out /\ (120, 2) ∈ vs) /\ length (db_blocks ex_db2) = 1%nat.
Proof.
  assert (H1 : rtc (db_step false) (ex_db0, Idle) (ex_db1, Idle)) by (eapply rtc_l; [apply ex_db1_step|constructor]).
  destruct (query_linear ex_opts_db example_wal 10 true ex_db1 Idle ex_db2 Idle everything 0 150) as (out & E & _ & _ & Hin);
    [split; reflexivity|exact H1|apply ex_db2_steps|constructor|].
  exists out. split; [exact E|]. split; [|vm_compute; reflexivity]. apply Hin; [split; [intros H; by destruct H|reflexivity]|split; discriminate|].
  left. set (r := map_to_list (h_byID (db_head ex_db1))).
  assert (Ex : existsb (fun x => bool_decide (ms_ref x.2 = web_a) && match samplesIn x.2 (- 2 ^ 63) (2 ^ 63 - 1) with Ok ss => bool_decide ((120, 2) ∈ ss) | Err _ => false end) r = true) by (vm_compute; reflexivity).
  apply List.existsb_exists in Ex as ([id ms] & Hx & Hc). apply list_elem_of_In, elem_of_map_to_list in Hx. cbn [snd] in Hc. apply andb_true_iff in Hc as [Hm Hs].
  apply bool_decide_eq_true in Hm. destruct (samplesIn ms _ _) as [ss|e] eqn:Es; [|discriminate Hs]. apply bool_decide_eq_true in Hs.
  exists id, ms, ss. split; [exact Hx|]. split; [exact Hm|]. split; [exact Es|exact Hs].
Defined.

(** C6: a block cut moves samples and neither loses nor invents one, however it ends.  When it succeeds, the head's samples below the cut point are in the block list and exactly the others are left in the head; when it fails anywhere (nothing to cut, a head that cannot be read, a write or an open that fails), the block list and the head's samples are as they were. *)
Theorem cut_block_moves opts w max sync now id io db : 0 < Milliseconds (do_BlockRange opts) < 2 ^ 62 ->
  rtc (db_step false) (initial opts w max sync, Idle) (db, Idle) -> cut_runs now id io db ->
  let '(db', r) := CutBlock now id io db in
  (forall ref t v, stored db' ref t v <-> stored db ref t v)
  /\ match r with
     | Ok m => exists cutAt, cut_point now db = Some cutAt /\ bm_ULID m = id
         /\ (forall ref t v, in_head (db_head db') ref t v <-> in_head (db_head db) ref t v /\ cutAt <= t)
         /\ (forall ref t v, in_blocks (db_blocks db') ref t v <->
               in_blocks (db_blocks db) ref t v \/ (in_head (db_head db) ref t v /\ t < cutAt))
     | Err _ => db_blocks db' = db_blocks db /\ forall ref t v, in_head (db_head db') ref t v <-> in_head (db_head db) ref t v
     end.
Proof.
  intros Hr H1 Hc. destruct (db_reach_inv _ _ _ H1 ∅ (initial_inv opts w max sync Hr)) as (A & HA & _). by apply (CutBlock_spec now id io db A).
Qed.

Lemma cut_block_moves_witness : (forall ref t v, stored ex_db2 ref t v <-> stored ex_db1 ref t v)
  /\ (forall ref t v, in_head (db_head ex_db2) ref t v <-> in_head (db_head ex_db1) ref t v /\ 100 <= t).
Proof.
  assert (H1 : rtc (db_step false) (ex_db0, Idle) (ex_db1, Idle)) by (eapply rtc_l; [apply ex_db1_step|constructor]).
  pose proof (cut_block_moves ex_opts_db example_wal 10 true 250 7 [] ex_db1 ltac:(split; reflexivity) H1 ex_cut_runs) as H.
  assert (E : (match (CutBlock 250 7 [] ex_db1).2 with Ok _ => true | Err _ => false end) = true) by (vm_compute; reflexivity).
  assert (Ec : cut_point 250 ex_db1 = Some 100) by (vm_compute; reflexivity). unfold ex_db2.
  destruct (CutBlock 250 7 [] ex_db1) as [db' [m|e]]; cbn [fst snd] in *; [|discriminate E]. destruct H as [Hs (cutAt & Hc & _ & Hh & _)].
  rewrite Ec in Hc. injection Hc as <-. split; [exact Hs|exact Hh].
Defined.

(** Block and head both have an instant: the block's value is returned. *)
Definition late_head : Head WAL := (HeadAppend [db_a; db_a] [MkHSample 0 0 9; MkHSample 0 30 8] fresh_head).1.1.

Lemma query_merge_witness : exists out, DbSelect None everything 0 100 late_head [small_block1] = Ok out
  /\ (exists vs, (db_a, vs) ∈ out) /\ forall vs, (db_a, vs) ∈ out -> at_time 0 vs = [(0, 5)] /\ at_time 30 vs = [(30, 8)].
Proof.
  assert (Eh : HeadSelect everything 0 100 late_head = Ok [(db_a, [(0, 9); (30, 8)])]) by (vm_compute; reflexivity).
  assert (Eb : BlockSelect small_block1 everything 0 100 = Ok [(db_a, [(0, 5); (1, 6)])]) by (vm_compute; reflexivity).
  destruct (query_merge everything 0 100 late_head [small_block1] _ [[(db_a, [(0, 5); (1, 6)])]] Eh) as (out & E & _ & Hk & Hout);
    [constructor; [exact Eb|constructor]|].
  exists out. split; [exact E|]. split.
  - destruct (proj1 (Hk (Key db_a))) as (ref & vs & Hin & HK); [vm_compute; discriminate|]. destruct (Hout ref vs Hin) as (_ & (s & Hs & ->) & _).
    exists vs. cbn [concat app] in Hs. apply elem_of_cons in Hs as [->|Hs]; [exact Hin|]. apply list_elem_of_singleton in Hs as ->. exact Hin.
  - intros vs Hin. destruct (Hout db_a vs Hin) as (_ & _ & Ht). split; rewrite Ht; vm_compute; reflexivity.
Defined.
