(* ===== verification/DbReport.v ===== *)
(** * What an append reports

    The flat loops of [DB.Append] against a definition per entry: each entry of
    the batch is invalid, or its samples go to the head one by one. *)

From Stdlib Require Import ZArith Lia.
From Stdlib Require Import (notations) String.
From stdpp Require Import base sorting gmap numbers list.
From S2P Require Import Prelude Wal Gofloat Gostring Tsdb IndexSelect HeadRecord Head HeadSeries HeadStore HeadCommit HeadOps Db.

(** ** The reference *)

Inductive outcome := Refused (r : reason) | Offered (ress : list (result head_error bool)).

Definition entry_of (ss : SeriesRef * list (Z * Z)) : list (SeriesRef * HSample) := (fun s => (ss.1, MkHSample 0 s.1 s.2)) <$> ss.2.

Fixpoint spec_batch (max mv : Z) (batch : list (SeriesRef * list (Z * Z))) (A : store) : store * list outcome :=
  match batch with
  | [] => (A, [])
  | ss :: rest =>
      let '(A1, o) := match validate ss with
                      | Some r => (A, Refused r)
                      | None => let '(A1, ress) := spec_append max mv (entry_of ss) A in (A1, Offered ress)
                      end in
      let '(A2, os) := spec_batch max mv rest A1 in (A2, o :: os)
  end.

Definition first_error (ress : list (result head_error bool)) : option head_error :=
  head (omap (fun r => match r with Err e => Some e | Ok _ => None end) ress).
Definition stored_in (ress : list (result head_error bool)) : nat := length (filter (fun r => was_stored r = true) ress).

Definition entry_stored (o : outcome) : nat := match o with Refused _ => 0 | Offered ress => stored_in ress end.
Definition entry_invalid (x : (SeriesRef * list (Z * Z)) * outcome) : option Rejected :=
  match x.2 with Refused r => Some (MkRejected x.1.1 r) | Offered _ => None end.
Definition entry_refused (x : (SeriesRef * list (Z * Z)) * outcome) : option Rejected :=
  match x.2 with Refused _ => None | Offered ress => (fun e => MkRejected x.1.1 (ReasonHead e)) <$> first_error ress end.

(** Entries that stored something, samples stored, and one rejection per entry:
    the invalid entries first, then those with a sample the head refused. *)
Definition report (batch : list (SeriesRef * list (Z * Z))) (os : list outcome) : AppendResult :=
  MkAppendResult (Z.of_nat (length (filter (fun o => entry_stored o <> 0%nat) os)))
    (Z.of_nat (sum_list (entry_stored <$> os)))
    (omap entry_invalid (zip batch os) ++ omap entry_refused (zip batch os)).

(** ** The flattened batch *)

Lemma spec_append_app max mv b1 : forall b2 A, spec_append max mv (b1 ++ b2) A =
  let '(A1, r1) := spec_append max mv b1 A in let '(A2, r2) := spec_append max mv b2 A1 in (A2, r1 ++ r2).
Proof.
  induction b1 as [|[ref s] b1 IH]; intros b2 A; cbn [app spec_append]; [by destruct (spec_append max mv b2 A)|].
  destruct (spec_append_one _ _ _ _ _ A) as [A1 r]. rewrite IH. destruct (spec_append max mv b1 A1) as [A2 r1]. by destruct (spec_append max mv b2 A2).
Qed.

Lemma spec_append_length max mv b : forall A, length (spec_append max mv b A).2 = length b.
Proof.
  induction b as [|[ref s] b IH]; intros A; cbn [spec_append]; [done|]. destruct (spec_append_one _ _ _ _ _ A) as [A1 r].
  specialize (IH A1). destruct (spec_append max mv b A1). cbn in *. lia.
Qed.

(** The results of the entries that were offered, with the entry's number. *)
Fixpoint offered (i : nat) (os : list outcome) : list (nat * list (result head_error bool)) :=
  match os with
  | [] => []
  | Refused _ :: os => offered (S i) os
  | Offered ress :: os => (i, ress) :: offered (S i) os
  end.
Definition owners (l : list (nat * list (result head_error bool))) : list nat := l ≫= fun x => replicate (length x.2) x.1.

Definition valid_entries (batch : list (SeriesRef * list (Z * Z))) : list (SeriesRef * list (Z * Z)) :=
  omap (fun ss => match validate ss with None => Some ss | Some _ => None end) batch.

Lemma omap_step {A B} (f : A -> option B) x l : omap f (x :: l) = match f x with Some y => y :: omap f l | None => omap f l end.
Proof. done. Qed.
Lemma valid_step ss batch : valid_entries (ss :: batch) = match validate ss with None => ss :: valid_entries batch | Some _ => valid_entries batch end.
Proof. unfold valid_entries. rewrite omap_step. by destruct (validate ss). Qed.

Lemma flatten_run max mv batch : forall i f A, length (fl_refs f) = length (fl_samples f) ->
  let f' := flatten i batch f in
  let '(A', os) := spec_batch max mv batch A in
  zip (fl_refs f') (fl_samples f') = zip (fl_refs f) (fl_samples f) ++ (valid_entries batch ≫= entry_of)
  /\ spec_append max mv (valid_entries batch ≫= entry_of) A = (A', (offered i os).*2 ≫= id)
  /\ fl_owner f' = fl_owner f ++ owners (offered i os)
  /\ fl_rejected f' = fl_rejected f ++ omap entry_invalid (zip batch os)
  /\ length os = length batch /\ length (fl_refs f') = length (fl_samples f').
Proof.
  induction batch as [|ss batch IH]; intros i f A Hf; cbn [flatten spec_batch].
  { cbn. by rewrite !app_nil_r. }
  rewrite valid_step. destruct (validate ss) as [r|] eqn:Ev.
  - set (f1 := MkFlat _ _ _ _). specialize (IH (S i) f1 A Hf). destruct (spec_batch max mv batch A) as [A2 os]. destruct IH as (H1 & H2 & H3 & H4 & H5 & H6).
    cbn [offered zip_with length]. rewrite omap_step. split_and!; [done|done|done| |lia|done].
    rewrite H4. cbn [f1 fl_rejected]. rewrite <- app_assoc. done.
  - pose proof (spec_append_length max mv (entry_of ss) A) as Hl. destruct (spec_append max mv (entry_of ss) A) as [A1 ress] eqn:Es. cbn [snd] in Hl.
    set (f1 := MkFlat _ _ _ _). specialize (IH (S i) f1 A1). destruct (spec_batch max mv batch A1) as [A2 os].
    destruct IH as (H1 & H2 & H3 & H4 & H5 & H6); [cbn; rewrite !length_app, length_replicate, length_fmap; lia|].
    unfold entry_of in Hl. rewrite length_fmap in Hl. cbn [offered zip_with length]. rewrite fmap_cons, !bind_cons, omap_step.
    split_and!; [|rewrite spec_append_app, Es; by rewrite H2| |done|lia|done].
    + rewrite H1. cbn [f1 fl_refs fl_samples]. rewrite zip_with_app by done. rewrite <- app_assoc. do 2 f_equal.
      unfold entry_of. clear. induction ss.2 as [|s l IH]; [done|]. cbn. by f_equal.
    + rewrite H3. cbn [f1 fl_owner]. unfold owners. rewrite bind_cons. cbn [fst snd]. rewrite Hl. by rewrite <- app_assoc.
Qed.

(** ** Attributing the rejections *)

Section Attribute.
Variables (batch : list (SeriesRef * list (Z * Z))) (owner : list nat).

Lemma rejections_app {A} (l1 : list (result head_error A)) : forall k l2, rejections k (l1 ++ l2) = rejections k l1 ++ rejections (k + Z.of_nat (length l1)) l2.
Proof.
  induction l1 as [|[a|e] l1 IH]; intros k l2; cbn [app rejections length]; [by rewrite Z.add_0_r|..]; rewrite IH; replace (k + Z.of_nat (S (length l1))) with (k + 1 + Z.of_nat (length l1)) by lia; done.
Qed.

(** The rejections of an entry that is in the report already. *)
Lemma attribute_again i (ress : list (result head_error bool)) rest : forall k refused out, 0 <= k -> i ∈ refused ->
  (forall j, (j < length ress)%nat -> owner !! (Z.to_nat k + j)%nat = Some i) ->
  attribute batch owner (rejections k ress ++ rest) refused out = attribute batch owner rest refused out.
Proof.
  induction ress as [|[a|e] ress IH]; intros k refused out Hk Hi Ho; cbn [rejections app]; [done|..].
  - apply IH; [lia|done|]. intros j Hj. replace (Z.to_nat (k + 1) + j)%nat with (Z.to_nat k + S j)%nat by lia. apply Ho. cbn. lia.
  - cbn [attribute rj_Index]. rewrite (proj2 (Z.ltb_ge _ _)) by lia. pose proof (Ho 0%nat ltac:(cbn; lia)) as H0. rewrite Nat.add_0_r in H0.
    rewrite H0, decide_True by done. apply IH; [lia|done|]. intros j Hj. replace (Z.to_nat (k + 1) + j)%nat with (Z.to_nat k + S j)%nat by lia. apply Ho. cbn. lia.
Qed.

Lemma attribute_entry i ss ress rest : batch !! i = Some ss -> forall k refused out, 0 <= k -> i ∉ refused ->
  (forall j, (j < length ress)%nat -> owner !! (Z.to_nat k + j)%nat = Some i) ->
  attribute batch owner (rejections k ress ++ rest) refused out =
  match first_error ress with
  | None => attribute batch owner rest refused out
  | Some e => attribute batch owner rest ({[i]} ∪ refused) (out ++ [MkRejected ss.1 (ReasonHead e)])
  end.
Proof.
  intros Hb. induction ress as [|[a|e] ress IH]; intros k refused out Hk Hi Ho; cbn [rejections app]; [done|..].
  - rewrite IH; [done|lia|done|]. intros j Hj. replace (Z.to_nat (k + 1) + j)%nat with (Z.to_nat k + S j)%nat by lia. apply Ho. cbn. lia.
  - cbn [attribute rj_Index rj_Err]. rewrite (proj2 (Z.ltb_ge _ _)) by lia. pose proof (Ho 0%nat ltac:(cbn; lia)) as H0. rewrite Nat.add_0_r in H0.
    rewrite H0, decide_False, Hb by done. cbn. rewrite (attribute_again i); [done|lia|set_solver|].
    intros j Hj. replace (Z.to_nat (k + 1) + j)%nat with (Z.to_nat k + S j)%nat by lia. apply Ho. cbn. lia.
Qed.

Definition refusal (x : nat * list (result head_error bool)) : option Rejected :=
  match batch !! x.1, first_error x.2 with Some ss, Some e => Some (MkRejected ss.1 (ReasonHead e)) | _, _ => None end.

Lemma attribute_run l : forall pre refused out, owner = pre ++ owners l -> NoDup l.*1 ->
  (forall x, x ∈ l -> is_Some (batch !! x.1) /\ x.1 ∉ refused) ->
  attribute batch owner (rejections (Z.of_nat (length pre)) (l.*2 ≫= id)) refused out = Ok (out ++ omap refusal l).
Proof.
  induction l as [|[i ress] l IH]; intros pre refused out Ho Hnd Hl; [by rewrite app_nil_r|].
  rewrite fmap_cons, bind_cons, omap_step. rewrite fmap_cons in Hnd. cbn [fst snd] in *. unfold id at 1. rewrite rejections_app. apply NoDup_cons in Hnd as [Hni Hnd].
  destruct (Hl (i, ress)) as [[ss Hb] Hnr]; [by left|]. cbn [fst] in *. unfold owners in Ho. rewrite bind_cons in Ho. cbn [fst snd] in Ho.
  assert (Hidx : forall j, (j < length ress)%nat -> owner !! (Z.to_nat (Z.of_nat (length pre)) + j)%nat = Some i).
  { intros j Hj. rewrite Ho, Nat2Z.id, lookup_app_r by lia. replace (length pre + j - length pre)%nat with j by lia.
    rewrite lookup_app_l by (rewrite length_replicate; lia). by apply lookup_replicate_2. }
  rewrite (attribute_entry i ss) by (done || lia). replace (Z.of_nat (length pre) + Z.of_nat (length ress)) with (Z.of_nat (length (pre ++ replicate (length ress) i))) by (rewrite length_app, length_replicate; lia).
  rewrite app_assoc in Ho. unfold refusal at 1. cbn [fst snd]. rewrite Hb. destruct (first_error ress) as [e|].
  - rewrite IH; [by rewrite <- app_assoc|exact Ho|done|]. intros x Hx. destruct (Hl x) as [H1 H2]; [by right|]. split; [done|].
    rewrite elem_of_union, elem_of_singleton. intros [E|]; [|done]. apply Hni. rewrite <- E. by apply list_elem_of_fmap_2.
  - apply IH; [exact Ho|done|]. intros x Hx. apply Hl. by right.
Qed.

(** A batch-wide failure fails the call. *)
Lemma attribute_fails rejected : (forall x, x ∈ rejected -> rj_Index x < Z.of_nat (length owner)) -> (forall i, i ∈ owner -> is_Some (batch !! i)) ->
  (exists x, x ∈ rejected /\ rj_Index x < 0) -> forall refused out, exists e, attribute batch owner rejected refused out = Err (ErrAppendLog e).
Proof.
  intros Hb Ho. induction rejected as [|r rejected IH]; intros (x & Hx & Hneg) refused out; [by apply not_elem_of_nil in Hx|]. cbn [attribute].
  destruct (Z.ltb_spec (rj_Index r) 0) as [|Hge]; [by eexists|]. apply elem_of_cons in Hx as [->|Hx]; [lia|].
  assert (IH' : forall refused out, exists e, attribute batch owner rejected refused out = Err (ErrAppendLog e)).
  { apply IH; [intros y Hy; apply Hb; by right|by exists x]. }
  destruct (lookup_lt_is_Some_2 owner (Z.to_nat (rj_Index r))) as [i Hi]; [specialize (Hb r ltac:(by left)); lia|]. rewrite Hi.
  destruct (decide (i ∈ refused)); [apply IH'|]. destruct (Ho i) as [ss ->]; [by eapply list_elem_of_lookup_2|]. apply IH'.
Qed.
End Attribute.

(** ** The counts *)

Definition wrote_of (owner : list nat) (stored : list bool) : list nat :=
  omap (fun ow : nat * bool => if ow.2 then Some ow.1 else None) (zip owner stored).

Lemma wrote_entry i ress x : x ∈ wrote_of (replicate (length ress) i) (was_stored <$> ress) <-> x = i /\ stored_in ress <> 0%nat.
Proof.
  unfold wrote_of, stored_in. induction ress as [|r ress IH].
  - cbn. split; [intros H; by apply not_elem_of_nil in H|]. by intros [_ H].
  - rewrite fmap_cons. cbn [length replicate zip_with]. rewrite omap_step, filter_cons. cbn [fst snd]. destruct (was_stored r).
    + rewrite elem_of_cons, IH, decide_True by done. cbn [length]. naive_solver.
    + by rewrite IH, decide_False.
Qed.

Lemma wrote_all l x : x ∈ wrote_of (owners l) (was_stored <$> (l.*2 ≫= id)) <-> exists y, y ∈ l /\ x = y.1 /\ stored_in y.2 <> 0%nat.
Proof.
  induction l as [|[i ress] l IH].
  - cbn. split; [intros H; by apply not_elem_of_nil in H|]. intros (y & H & _). by apply not_elem_of_nil in H.
  - unfold owners. rewrite fmap_cons, !bind_cons, fmap_app. cbn [fst snd]. unfold id at 1, wrote_of.
    rewrite zip_with_app by (by rewrite length_replicate, length_fmap). rewrite omap_app, elem_of_app. fold (owners l).
    change (x ∈ wrote_of (replicate (length ress) i) (was_stored <$> ress) \/ x ∈ wrote_of (owners l) (was_stored <$> (l.*2 ≫= id)) <-> exists y, y ∈ (i, ress) :: l /\ x = y.1 /\ stored_in y.2 <> 0%nat).
    rewrite wrote_entry, IH. setoid_rewrite elem_of_cons. split.
    + intros [[-> H]|(y & Hy & H)]; [exists (i, ress); eauto|exists y; eauto].
    + intros (y & [->|Hy] & -> & H); [by left|right; eauto].
Qed.

Lemma wrote_size l : NoDup l.*1 ->
  size (list_to_set (wrote_of (owners l) (was_stored <$> (l.*2 ≫= id))) : gset nat) = length (filter (fun y => stored_in y.2 <> 0%nat) l).
Proof.
  intros Hnd. assert (E : (list_to_set (wrote_of (owners l) (was_stored <$> (l.*2 ≫= id))) : gset nat) = list_to_set (filter (fun y => stored_in y.2 <> 0%nat) l).*1).
  { apply set_eq. intros x. rewrite !elem_of_list_to_set, wrote_all, list_elem_of_fmap. setoid_rewrite list_elem_of_filter. naive_solver. }
  rewrite E, size_list_to_set, length_fmap; [done|]. eapply sublist_NoDup; [exact Hnd|]. apply fmap_sublist, sublist_filter.
Qed.

Lemma offered_index os : forall i x, x ∈ offered i os -> exists j ress, x = ((i + j)%nat, ress) /\ os !! j = Some (Offered ress).
Proof.
  induction os as [|o os IH]; intros i x Hx; cbn [offered] in Hx; [by apply not_elem_of_nil in Hx|].
  assert (Hrest : x ∈ offered (S i) os -> exists j ress, x = ((i + j)%nat, ress) /\ (o :: os) !! j = Some (Offered ress)).
  { intros H. apply IH in H as (j & ress & -> & H). exists (S j), ress. split; [f_equal; lia|done]. }
  destruct o as [r|ress]; [by apply Hrest|]. apply elem_of_cons in Hx as [->|Hx]; [|by apply Hrest]. exists 0%nat, ress. split; [f_equal; lia|done].
Qed.

Lemma offered_NoDup os : forall i, NoDup (offered i os).*1.
Proof.
  induction os as [|[r|ress] os IH]; intros i; cbn [offered]; [constructor|apply IH|]. rewrite fmap_cons. constructor; [|apply IH].
  intros H. apply list_elem_of_fmap in H as (x & E & Hx). apply offered_index in Hx as (j & ress' & -> & _). cbn in E. lia.
Qed.

Lemma offered_stored os : forall i, length (filter (fun y => stored_in y.2 <> 0%nat) (offered i os)) = length (filter (fun o => entry_stored o <> 0%nat) os).
Proof.
  induction os as [|[r|ress] os IH]; intros i; cbn [offered]; [done|rewrite IH, filter_cons, decide_False; [done|cbn; lia]|].
  rewrite !filter_cons. cbn [snd entry_stored]. destruct (decide (stored_in ress <> 0%nat)); cbn [length]; by rewrite IH.
Qed.

Lemma offered_count os : forall i, length (filter (fun b => b = true) (was_stored <$> ((offered i os).*2 ≫= id))) = sum_list (entry_stored <$> os).
Proof.
  induction os as [|[r|ress] os IH]; intros i; cbn [offered]; [done|rewrite fmap_cons; cbn [sum_list entry_stored]; apply IH|].
  rewrite !fmap_cons, bind_cons, fmap_app, filter_app, length_app, IH. cbn [snd entry_stored]. change (sum_list (stored_in ress :: (entry_stored <$> os))) with (stored_in ress + sum_list (entry_stored <$> os))%nat. f_equal.
  unfold id, stored_in. clear. induction ress as [|r ress IH]; [done|]. rewrite fmap_cons, !filter_cons. destruct (was_stored r); cbn [length]; [rewrite !decide_True by done|rewrite !decide_False by done]; cbn [length]; by rewrite IH.
Qed.

Lemma offered_refused os : forall pre batch, length os = length batch ->
  omap (refusal (pre ++ batch)) (offered (length pre) os) = omap entry_refused (zip batch os).
Proof.
  induction os as [|o os IH]; intros pre [|ss batch] Hl; try done. cbn [zip_with]. rewrite omap_step.
  assert (Hrest : omap (refusal (pre ++ ss :: batch)) (offered (S (length pre)) os) = omap entry_refused (zip batch os)).
  { specialize (IH (pre ++ [ss]) batch ltac:(cbn in Hl; lia)). rewrite length_app, <- app_assoc in IH. cbn [length app] in IH. by rewrite Nat.add_1_r in IH. }
  destruct o as [r|ress]; cbn [offered]; [exact Hrest|]. rewrite omap_step, Hrest. unfold refusal, entry_refused. cbn [fst snd].
  rewrite lookup_app_r, Nat.sub_diag by lia. cbn. by destruct (first_error ress).
Qed.

(** ** A refused batch *)

Lemma resolve_bound {W} `{Logger W} mv b : forall i r x, x ∈ rv_rejected (resolve (W:=W) mv i b r) ->
  x ∈ rv_rejected r \/ rj_Index x < i + Z.of_nat (length b).
Proof.
  induction b as [|[ref s] b IH]; intros i r x Hx; cbn [resolve] in Hx; [by left|]. apply IH in Hx as [Hx|Hx]; [|right; cbn [length]; lia].
  unfold resolve_one in Hx. assert (Hnew : forall e, x ∈ rv_rejected r ++ [MkRejection i e] -> x ∈ rv_rejected r \/ rj_Index x < i + Z.of_nat (length ((ref, s) :: b))).
  { intros e [Hin| ->%list_elem_of_singleton]%elem_of_app; [by left|]. right. cbn. lia. }
  destruct (hs_T s <? mv); [by eapply Hnew|]. destruct (getOrCreate ref (rv_head r)) as [h [[id isNew]|e]]; [by left|by eapply Hnew].
Qed.

Lemma HeadAppend_refused refs samples (h h' : Head WAL) rejected : length refs = length samples -> 0 < Z.of_nat (length samples) ->
  HeadAppend refs samples h = (h', None, rejected) -> forall x, x ∈ rejected -> rj_Index x < Z.of_nat (length samples).
Proof.
  intros Hl Hpos H x Hx. unfold HeadAppend in H. rewrite (proj2 (Nat.eqb_eq _ _) Hl) in H. cbn [negb] in H.
  set (r := resolve _ 0 _ _) in *. destruct (omap id (rv_out r)) as [|v valid]; [by destruct (finish _ _ _ _)|].
  destruct (h_wal h) as [w|]; [|by destruct (finish _ _ _ _)]. destruct (mark_pending _ _ _) as [h1 pending].
  destruct (logLocked _ _ _ _) as [h2 [[]|e]]; [by destruct (finish _ _ _ _)|]. unfold finish in H. injection H as _ <-.
  rewrite merge_sort_Permutation in Hx. apply elem_of_app in Hx as [Hx|Hx%list_elem_of_singleton]; [|subst x; cbn; lia].
  apply resolve_bound in Hx as [Hx|Hx]; [by apply not_elem_of_nil in Hx|]. rewrite length_zip_with in Hx. lia.
Qed.

(** ** The report *)

Definition batch_times (batch : list (SeriesRef * list (Z * Z))) : Prop :=
  forall ss, ss ∈ batch -> Forall (fun s => is_i64 s.1 /\ is_u64 s.2) ss.2.

Lemma offered_owner os (batch : list (SeriesRef * list (Z * Z))) : length os = length batch -> forall i, i ∈ owners (offered 0 os) -> is_Some (batch !! i).
Proof.
  intros Hl i Hi. unfold owners in Hi. apply list_elem_of_bind in Hi as (x & Hi & Hx). apply offered_index in Hx as (j & ress & -> & Hj).
  apply elem_of_replicate in Hi as [-> _]. apply lookup_lt_is_Some_2. apply lookup_lt_Some in Hj. cbn. lia.
Qed.

Lemma owners_length l : length (owners l) = length (l.*2 ≫= id).
Proof. unfold owners. induction l as [|[i ress] l IH]; [done|]. rewrite fmap_cons, !bind_cons, !length_app, length_replicate, IH. done. Qed.

(** Nothing to store: every entry was invalid or empty. *)
Lemma report_nothing os l : l = offered 0 os -> (l.*2 ≫= id) = [] -> (filter (fun y => stored_in y.2 <> 0%nat) l) = [].
Proof.
  intros _ H. apply elem_of_nil_inv. intros x [Hs Hx]%list_elem_of_filter. assert (Hn : x.2 = []); [|by rewrite Hn in Hs].
  destruct (x.2) as [|r rs] eqn:E; [done|]. assert (Hin : r ∈ l.*2 ≫= id); [|rewrite H in Hin; by apply not_elem_of_nil in Hin].
  apply list_elem_of_bind. exists (x.2). split; [rewrite E; by left|by apply list_elem_of_fmap_2].
Qed.

Lemma no_results_refused os batch : length os = length batch -> ((offered 0 os).*2 ≫= id) = [] -> omap entry_refused (zip batch os) = [].
Proof.
  intros Hl H. rewrite <- (offered_refused os [] batch Hl). cbn [app length]. apply elem_of_nil_inv. intros x Hx.
  apply list_elem_of_omap in Hx as (y & Hy & E). unfold refusal in E. destruct (batch !! y.1); [|done].
  destruct (y.2) as [|r rs] eqn:Ey; [done|]. assert (Hin : r ∈ (offered 0 os).*2 ≫= id); [|rewrite H in Hin; by apply not_elem_of_nil in Hin].
  apply list_elem_of_bind. exists (y.2). split; [rewrite Ey; by left|by apply list_elem_of_fmap_2].
Qed.

Lemma valid_times batch : batch_times batch -> batch_ok (valid_entries batch ≫= entry_of).
Proof.
  intros Ht. apply Forall_forall. intros x Hx. apply list_elem_of_bind in Hx as (ss & Hx & Hss). unfold valid_entries in Hss.
  apply list_elem_of_omap in Hss as (ss' & Hss & E). destruct (validate ss'); [done|]. injection E as ->.
  apply list_elem_of_fmap in Hx as (s & -> & Hs). specialize (Ht ss Hss). rewrite Forall_forall in Ht. by apply (Ht s).
Qed.

Lemma append_batch_spec db A batch : head_inv (db_head db) A -> batch_times batch ->
  let '(db', r) := append_batch batch db in
  let '(A', os) := spec_batch (h_MaxSeries (db_head db)) (h_minValid (db_head db)) batch A in
  db_blocks db' = db_blocks db
  /\ match r with
     | Ok rep => head_inv (db_head db') A' /\ rep = report batch os
     | Err e => head_inv (db_head db') A /\ exists le, e = ErrAppendLog le
     end.
Proof.
  intros Hi Ht. unfold append_batch. set (max := h_MaxSeries (db_head db)). set (mv := h_minValid (db_head db)).
  pose proof (flatten_run max mv batch 0 (MkFlat [] [] [] []) A eq_refl) as Hf. cbn zeta in Hf. set (f := flatten 0 batch _) in *.
  destruct (spec_batch max mv batch A) as [A' os]. destruct Hf as (Hz & Hs & Ho & Hr & Hl & Hlen). cbn [fl_refs fl_samples fl_owner fl_rejected zip_with app] in *.
  assert (Hcount : length ((offered 0 os).*2 ≫= id) = length (fl_samples f)).
  { pose proof (spec_append_length max mv (valid_entries batch ≫= entry_of) A) as H. rewrite Hs, <- Hz, length_zip_with in H. cbn [snd] in H. lia. }
  destruct (fl_samples f) as [|s0 ss] eqn:Es.
  - split; [done|]. apply length_zero_iff_nil in Hcount. split.
    + destruct (fl_refs f); [|done]. cbn in Hz. rewrite <- Hz in Hs. cbn in Hs. by injection Hs as <- _.
    + unfold report. rewrite Hr, no_results_refused, app_nil_r by done. f_equal.
      * by rewrite <- (offered_stored os 0), (report_nothing os (offered 0 os) eq_refl Hcount).
      * by rewrite <- (offered_count os 0), Hcount.
  - rewrite <- Es in *. pose proof (HeadAppend_spec (db_head db) A (fl_refs f) (fl_samples f) Hi Hlen) as Ha. fold max mv in Ha. rewrite Hz, Hs in Ha.
    specialize (Ha (valid_times batch Ht)). destruct (HeadAppend _ _ _) as [[h' stored] rejected] eqn:Eh. destruct Ha as [_ Ha].
    destruct stored as [st|].
    + destruct Ha as (Hi' & -> & ->). pose proof (attribute_run batch (fl_owner f) (offered 0 os) [] ∅ (fl_rejected f)) as Hat. cbn [length] in Hat. change (Z.of_nat 0) with 0 in Hat.
      rewrite Hat; [|done|apply offered_NoDup|].
      2:{ intros x Hx. split; [|set_solver]. apply offered_index in Hx as (j & ress & -> & Hj). apply lookup_lt_is_Some_2. apply lookup_lt_Some in Hj. cbn. lia. }
      split; [done|]. split; [done|]. unfold report. cbn [default from_option]. f_equal; [| |].
      * f_equal. rewrite Ho, <- (offered_stored os 0). apply wrote_size, offered_NoDup.
      * f_equal. exact (offered_count os 0).
      * rewrite Hr. f_equal. by apply (offered_refused os [] batch).
    + destruct Ha as (Hi' & _ & e & He).
      destruct (attribute_fails batch (fl_owner f) rejected) with (refused := ∅ : gset nat) (out := fl_rejected f) as [e' ->]; [| | |split; [done|]; split; [done|by eexists]].
      * rewrite Ho, owners_length, Hcount. eapply HeadAppend_refused; [done| |exact Eh]. rewrite Es. cbn. lia.
      * rewrite Ho. by apply offered_owner.
      * exists (MkRejection (-1) (ErrLog e)). done.
Qed.

(** C9: an append does to the store, and reports, what handling the entries of the batch one after another does: an invalid entry (bad series or a non-finite value) is refused whole, the samples of the others go to the head in order.  The report counts the samples stored and the entries that stored any, and lists every refused entry once, with the reason of its first refused sample.  The call fails only with the error of a context that was done when it was called, and then nothing at all changed, or with the log's error, and then nothing of the batch was stored. *)
Theorem append_report ctx db A batch : head_inv (db_head db) A -> batch_times batch ->
  let '(db', r) := DbAppend ctx batch db in
  let '(A', os) := spec_batch (h_MaxSeries (db_head db)) (h_minValid (db_head db)) batch A in
  db_blocks db' = db_blocks db
  /\ match r with
     | Ok rep => ctx = None /\ head_inv (db_head db') A' /\ rep = report batch os
     | Err e => head_inv (db_head db') A
         /\ match ctx with Some ce => e = ErrContext ce /\ db' = db | None => exists le, e = ErrAppendLog le end
     end.
Proof.
  intros Hi Ht. destruct ctx as [ce|]; cbn [DbAppend].
  - by destruct (spec_batch _ _ _ _).
  - pose proof (append_batch_spec db A batch Hi Ht) as H. destruct (append_batch batch db) as [db' [rep|e]], (spec_batch _ _ _ _) as [A' os]; naive_solver.
Qed.

Definition mixed_batch : list (SeriesRef * list (Z * Z)) :=
  [(web_a, [(10, 1); (20, 2); (20, 2); (15, 3); (5, 9)]); (MkSeriesRef [] [], [(10, 1)]);
   (web_b, [(10, 0x7ff0000000000000)]); (web_b, []); (db_a, [(7, 7)])].
Definition empty_db : DB := MkDB (MkDBOptions 100000000 (-1) 0 0) fresh_head [].

Lemma append_report_witness :
  match (DbAppend None mixed_batch empty_db).2 with
  | Ok rep => rep = report mixed_batch (spec_batch 2 (- 2 ^ 63) mixed_batch ∅).2 /\ ar_Samples rep = 3 /\ ar_Series rep = 2
      /\ ar_Rejected rep = [MkRejected (MkSeriesRef [] []) (ReasonInvalid ErrEmptyMetric); MkRejected web_b ReasonNonFinite; MkRejected web_a (ReasonHead ErrOutOfOrder)]
  | Err _ => False
  end.
Proof.
  assert (Ht : batch_times mixed_batch).
  { assert (Hall : Forall (fun ss => Forall (fun s => is_i64 s.1 /\ is_u64 s.2) ss.2) mixed_batch).
    { unfold is_i64, is_u64. refine (bool_decide_eq_true_1 _ _). vm_compute. reflexivity. }
    intros ss Hss. rewrite Forall_forall in Hall. exact (Hall ss Hss). }
  pose proof (append_report None empty_db ∅ mixed_batch (NewHead_inv _ _ _ _) Ht) as H. change (h_MaxSeries (db_head empty_db)) with 2 in H.
  change (h_minValid (db_head empty_db)) with (- 2 ^ 63) in H.
  assert (E : (DbAppend None mixed_batch empty_db).2 = Ok (MkAppendResult 2 3 [MkRejected (MkSeriesRef [] []) (ReasonInvalid ErrEmptyMetric); MkRejected web_b ReasonNonFinite; MkRejected web_a (ReasonHead ErrOutOfOrder)])).
  { vm_compute. reflexivity. }
  destruct (DbAppend None mixed_batch empty_db) as [db' r]. cbn [snd] in *. subst r. destruct (spec_batch 2 (- 2 ^ 63) mixed_batch ∅) as [A' os].
  destruct H as (_ & _ & _ & H). split; [exact H|]. split; [reflexivity|]. split; reflexivity.
Defined.
