(* ===== verification/DbMeta.v ===== *)
(** * Cardinality and retention of the database *)

From Stdlib Require Import ZArith Lia.
From Stdlib Require Import (notations) String.
From stdpp Require Import base sorting gmap numbers list.
From S2P Require Import Prelude Wal Gostring Tsdb Index IndexProofs IndexSelect HeadRecord Head HeadSeries HeadOps Compact BlockFile Block BlockWrite BlockCompact Db DbMerge DbState.

(** ** Tag cardinality *)

Section Tally.
Implicit Types refs : list SeriesRef.

Definition has_key (k : gostring) (ref : SeriesRef) : Prop := k ∈ t_Key <$> sr_Tags ref.
#[export] Instance has_key_dec k ref : Decision (has_key k ref).
Proof. unfold has_key. apply _. Defined.

Definition values_in (k : gostring) (tags : list Tag) : gset gostring :=
  list_to_set (omap (fun t => if decide (t_Key t = k /\ t_Value t <> []) then Some (t_Value t) else None) tags).

(** What [byKey] holds for [k] once [refs] are counted. *)
Definition tally (k : gostring) refs : option tag_acc :=
  if decide (filter (has_key k) refs = []) then None
  else Some (MkTagAcc (Z.of_nat (length (filter (has_key k) refs))) (values_in k (refs ≫= sr_Tags))).

Lemma values_app k l1 l2 : values_in k (l1 ++ l2) = values_in k l1 ∪ values_in k l2.
Proof. unfold values_in. by rewrite omap_app, list_to_set_app_L. Qed.

Lemma values_none k tags : k ∉ t_Key <$> tags -> values_in k tags = ∅.
Proof.
  intros Hk. unfold values_in. apply set_eq. intros x. rewrite elem_of_list_to_set, list_elem_of_omap. split; [|set_solver].
  intros (t & Ht & E). destruct (decide _) as [[<- _]|]; [|done]. destruct Hk. by apply list_elem_of_fmap_2.
Qed.

(** The inner loop, over the tags seen so far. *)
Lemma count_tags tags byKey k : let '(m, counted) := foldl count_tag (byKey, ∅) tags in
  counted = list_to_set (t_Key <$> tags)
  /\ m !! k = if decide (k ∈ t_Key <$> tags)
             then Some (MkTagAcc (ta_series (default (MkTagAcc 0 ∅) (byKey !! k)) + 1) (values_in k tags ∪ ta_values (default (MkTagAcc 0 ∅) (byKey !! k))))
             else byKey !! k.
Proof.
  induction tags as [|t tags IH] using rev_ind; [by cbn|]. rewrite foldl_snoc. destruct (foldl _ _ tags) as [m counted]. destruct IH as [-> IH].
  unfold count_tag. split; [rewrite fmap_app, list_to_set_app_L; cbn; set_solver|]. rewrite fmap_app, values_app.
  destruct (decide (t_Key t = k)) as [<-|Hne].
  - rewrite lookup_insert_eq, (decide_True (P := t_Key t ∈ (t_Key <$> tags) ++ (t_Key <$> [t]))) by (rewrite elem_of_app; right; by left). f_equal. rewrite IH.
    assert (Hv : values_in (t_Key t) [t] = if decide (t_Value t = []) then ∅ else {[ t_Value t ]}).
    { unfold values_in. cbn. destruct (decide (t_Value t = [])); [by rewrite decide_False by naive_solver|rewrite decide_True by done; cbn; set_solver]. }
    rewrite Hv. destruct (decide (t_Key t ∈ t_Key <$> tags)) as [Hin|Hni].
    + rewrite (decide_True (P := t_Key t ∈ (list_to_set (t_Key <$> tags) : gset gostring))) by (by apply elem_of_list_to_set). cbn [default from_option ta_series ta_values]. destruct (decide (t_Value t = [])); cbn; f_equal; set_solver.
    + rewrite (decide_False (P := t_Key t ∈ (list_to_set (t_Key <$> tags) : gset gostring))) by (by rewrite elem_of_list_to_set). rewrite (values_none _ tags) by done. destruct (decide (t_Value t = [])); cbn; f_equal; set_solver.
  - rewrite lookup_insert_ne by done. rewrite IH. assert (Hv : values_in k [t] = ∅) by (apply values_none; cbn; by intros ->%list_elem_of_singleton).
    rewrite Hv, (right_id_L ∅ (∪)). destruct (decide (k ∈ t_Key <$> tags)) as [Hin|Hni].
    + by rewrite decide_True by (apply elem_of_app; by left).
    + rewrite decide_False; [done|]. rewrite elem_of_app. cbn. rewrite list_elem_of_singleton. naive_solver.
Qed.

Lemma tally_step k refs ref : tally k (refs ++ [ref]) =
  if decide (has_key k ref) then Some (MkTagAcc (ta_series (default (MkTagAcc 0 ∅) (tally k refs)) + 1) (values_in k (sr_Tags ref) ∪ ta_values (default (MkTagAcc 0 ∅) (tally k refs))))
  else tally k refs.
Proof.
  assert (Hvals : filter (has_key k) refs = [] -> values_in k (refs ≫= sr_Tags) = ∅).
  { intros H. apply values_none. intros Hin. apply list_elem_of_fmap in Hin as (t & -> & Ht). apply list_elem_of_bind in Ht as (r & Ht & Hr).
    assert (Hf : r ∈ filter (has_key (t_Key t)) refs) by (apply list_elem_of_filter; split; [by apply list_elem_of_fmap_2|done]). rewrite H in Hf. by apply not_elem_of_nil in Hf. }
  unfold tally. rewrite bind_app, values_app, filter_app. cbn [filter list_filter mbind list_bind]. rewrite app_nil_r.
  destruct (decide (has_key k ref)) as [Hk|Hk].
  - rewrite decide_False by (by destruct (filter (has_key k) refs)). f_equal. destruct (decide (filter (has_key k) refs = [])) as [E|E]; unfold id; cbn [default from_option ta_series ta_values].
    + rewrite E, Hvals by done. cbn. f_equal. set_solver.
    + unfold id. cbn [ta_series ta_values]. rewrite length_app. cbn [length]. f_equal; [lia|set_solver].
  - rewrite app_nil_r, (values_none k (sr_Tags ref)) by done. by rewrite (right_id_L ∅ (∪)).
Qed.

Lemma count_refs refs k : foldl count_ref ∅ refs !! k = tally k refs.
Proof.
  induction refs as [|ref refs IH] using rev_ind; [done|]. rewrite foldl_snoc, tally_step, <- IH. unfold count_ref at 1.
  pose proof (count_tags (sr_Tags ref) (foldl count_ref ∅ refs) k) as H. destruct (foldl count_tag _ _) as [m counted]. destruct H as [_ H]. exact H.
Qed.

(** Distinct series, as the map by key holds them. *)
Lemma series_map refs : (forall r r', r ∈ refs -> r' ∈ refs -> Key r = Key r' -> r = r') ->
  (map_to_list (foldl (fun m ref => <[Key ref := ref]> m) (∅ : gmap gostring SeriesRef) refs)).*2 ≡ₚ remove_dups refs.
Proof.
  intros Hinj. set (m := foldl _ _ refs).
  assert (Hm : forall k r, m !! k = Some r <-> r ∈ refs /\ Key r = k).
  { unfold m. clear m. induction refs as [|r0 refs IH] using rev_ind; intros k r.
    - cbn [foldl]. rewrite lookup_empty. split; [done|]. intros [H _]. by apply not_elem_of_nil in H.
    - rewrite foldl_snoc, lookup_insert_Some, IH by (intros; apply Hinj; rewrite ?elem_of_app; auto). rewrite elem_of_app, list_elem_of_singleton. split; [naive_solver|].
      intros [[Hr| ->] <-]; [|by left]. destruct (decide (Key r0 = Key r)) as [E|E]; [left; split; [done|]|right; done].
      apply Hinj; [apply elem_of_app; right; by left|apply elem_of_app; by left|done]. }
  apply NoDup_Permutation; [|apply NoDup_remove_dups|].
  - apply NoDup_fmap_2_strong; [|apply NoDup_map_to_list]. intros [k1 r1] [k2 r2] H1 H2 E. cbn in E. subst r2.
    apply elem_of_map_to_list, Hm in H1 as [_ <-], H2 as [_ <-]. done.
  - intros r. rewrite elem_of_remove_dups, list_elem_of_fmap. split.
    + intros ([k r'] & -> & H). by apply elem_of_map_to_list, Hm in H as [H _].
    + intros Hr. exists (Key r, r). split; [done|]. by apply elem_of_map_to_list, Hm.
Qed.

Lemma tally_perm k refs refs' : refs ≡ₚ refs' -> tally k refs = tally k refs'.
Proof.
  intros Hp. assert (Hf : filter (has_key k) refs ≡ₚ filter (has_key k) refs') by (by rewrite Hp).
  assert (Hv : values_in k (refs ≫= sr_Tags) = values_in k (refs' ≫= sr_Tags)).
  { apply set_eq. intros x. unfold values_in. rewrite !elem_of_list_to_set, !list_elem_of_omap. by setoid_rewrite Hp. }
  unfold tally. rewrite Hv, (Permutation_length Hf). destruct (decide (filter (has_key k) refs = [])) as [E|E], (decide (filter (has_key k) refs' = [])) as [E'|E']; try done.
  - rewrite E in Hf. symmetry in Hf. by apply Permutation_nil_r in Hf.
  - rewrite E' in Hf. by apply Permutation_nil_r in Hf.
Qed.
End Tally.

(** What the report says of each key. *)
Lemma cardinality_spec refs : (forall r r', r ∈ refs -> r' ∈ refs -> Key r = Key r' -> r = r') ->
  let S := remove_dups refs in
  let out := cardinality_of refs in
  mt_Series out = Z.of_nat (length S)
  /\ StronglySorted (fun a b => str_lt (tk_Key a) (tk_Key b)) (mt_Keys out)
  /\ forall k n v, MkTagKeyCardinality k n v ∈ mt_Keys out <->
       n = Z.of_nat (length (filter (fun r => k ∈ t_Key <$> sr_Tags r) S)) /\ 0 < n
       /\ v = Z.of_nat (size (values_in k (S ≫= sr_Tags))).
Proof.
  intros Hinj. cbn zeta. unfold cardinality_of. pose proof (series_map refs Hinj) as Hp. set (m := foldl _ _ refs) in *. cbn [mt_Series mt_Keys].
  set (byKey := foldl count_ref _ _). assert (Hk : forall k, byKey !! k = tally k (remove_dups refs)).
  { intros k. unfold byKey. rewrite count_refs. by apply tally_perm. }
  split; [|split].
  - f_equal. rewrite <- (Permutation_length Hp), length_fmap. by rewrite length_map_to_list.
  - apply (sorted_by tk_Key key_of_le); [done|]. rewrite <- list_fmap_compose. exact (NoDup_fst_map_to_list byKey).
  - intros k n v. rewrite merge_sort_Permutation, list_elem_of_fmap. split.
    + intros ([k' a] & [= -> -> ->] & H). apply elem_of_map_to_list in H. rewrite Hk in H. unfold tally in H.
      destruct (decide _) as [|Hne]; [done|]. injection H as <-. cbn [fst snd ta_series ta_values]. split_and!; [done| |done].
      destruct (filter _ (remove_dups refs)); [done|cbn; lia].
    + intros (-> & Hpos & ->). exists (k, MkTagAcc (Z.of_nat (length (filter (has_key k) (remove_dups refs)))) (values_in k (remove_dups refs ≫= sr_Tags))).
      split; [done|]. apply elem_of_map_to_list. rewrite Hk. unfold tally. rewrite decide_False; [done|]. intros E.
      change (filter (fun r => k ∈ t_Key <$> sr_Tags r) (remove_dups refs)) with (filter (has_key k) (remove_dups refs)) in Hpos. rewrite E in Hpos. cbn in Hpos. lia.
Qed.

(** ** The size cap *)

(** How many of the oldest blocks have to go. *)
Fixpoint evicted (maxBytes : Z) (sizes : list Z) (used : Z) : nat :=
  match sizes with
  | [] => 0
  | n :: rest => if used <=? maxBytes then 0%nat else S (evicted maxBytes rest (used - n))
  end.

Lemma evicted_le maxBytes sizes : forall used, (evicted maxBytes sizes used <= length sizes)%nat.
Proof. induction sizes as [|n rest IH]; intros used; cbn; [lia|]. destruct (used <=? maxBytes); [lia|]. specialize (IH (used - n)). lia. Qed.

(** Enough goes, and no more than needed. *)
Lemma evicted_enough maxBytes sizes : forall used, let k := evicted maxBytes sizes used in
  (used - foldr Z.add 0 (take k sizes) <= maxBytes \/ k = length sizes)
  /\ forall j, (j < k)%nat -> maxBytes < used - foldr Z.add 0 (take j sizes).
Proof.
  induction sizes as [|n rest IH]; intros used; cbn zeta; cbn [evicted]; [split; [by right|intros; lia]|].
  destruct (Z.leb_spec used maxBytes) as [|Hgt]; [split; [left; cbn; lia|intros; lia]|]. destruct (IH (used - n)) as [H1 H2]. cbn zeta in *.
  split; [cbn; destruct H1; [left; lia|right; lia]|]. intros [|j] Hj; [cbn; lia|]. cbn [take foldr]. specialize (H2 j ltac:(lia)). lia.
Qed.

Lemma filter_first b bs : NoDup (ids (b :: bs)) -> filter (fun other => bm_ULID (blk_meta other) <> bm_ULID (blk_meta b)) (b :: bs) = bs.
Proof.
  unfold ids. rewrite fmap_cons, NoDup_cons. intros [Hni _]. rewrite filter_cons, decide_False by naive_solver.
  apply filter_all. intros x Hx E. apply Hni. rewrite <- E. by apply (list_elem_of_fmap_2 (fun b => bm_ULID (blk_meta b))).
Qed.

Lemma evict_spec maxBytes size n todo : forall deletes used failed, NoDup (ids todo) -> (forall b, b ∈ todo -> size b = Some (n b)) ->
  Forall (fun d => d = true) deletes -> let k := evicted maxBytes (n <$> todo) used in
  evict maxBytes size todo deletes todo used failed = (drop k todo, used - foldr Z.add 0 (take k (n <$> todo)), failed).
Proof.
  induction todo as [|b rest IH]; intros deletes used failed Hn Hs Hd; cbn zeta; [cbn; by rewrite Z.sub_0_r|].
  cbn [evict]. rewrite fmap_cons. cbn [evicted]. destruct (Z.leb_spec used maxBytes) as [|Hgt]; [cbn; by rewrite Z.sub_0_r|].
  rewrite (Hs b) by (by left). rewrite filter_first by done. unfold ids in Hn. rewrite fmap_cons in Hn. apply NoDup_cons in Hn as [_ Hn]. cbn [drop take foldr].
  assert (Hrest : forall ds, Forall (fun d => d = true) ds -> evict maxBytes size rest ds rest (used - n b) failed
    = (drop (evicted maxBytes (n <$> rest) (used - n b)) rest, used - (n b + foldr Z.add 0 (take (evicted maxBytes (n <$> rest) (used - n b)) (n <$> rest))), failed)).
  { intros ds Hds. rewrite IH; [|done|intros x Hx; apply Hs; by right|done]. f_equal. f_equal. lia. }
  destruct deletes as [|d ds]; [by apply Hrest|]. apply Forall_cons_1 in Hd as [-> Hd]. by apply Hrest.
Qed.

(** The size cap deletes from the old end only, and no more than it has to.  When sizes can be read and deletions succeed, the blocks left are the list without its first k, where what remains fits the cap or no block is left, and with one block fewer deleted it would not fit; the head is untouched. *)
Theorem size_cap_minimal used size n deletes db : let maxBytes := do_MaxBytes (db_opts db) in 0 < maxBytes ->
  NoDup (ids (db_blocks db)) -> (forall b, b ∈ db_blocks db -> size b = Some (n b)) -> Forall (fun d => d = true) deletes ->
  exists k, applySizeCap (Some used) size deletes db = (with_blocks (drop k (db_blocks db)) db, Ok tt)
    /\ (used - foldr Z.add 0 (n <$> take k (db_blocks db)) <= maxBytes \/ k = length (db_blocks db))
    /\ forall j, (j < k)%nat -> maxBytes < used - foldr Z.add 0 (n <$> take j (db_blocks db)).
Proof.
  intros maxBytes Hpos Hn Hs Hd. unfold applySizeCap. fold maxBytes. rewrite (proj2 (Z.leb_gt _ _)) by done.
  destruct (Z.leb_spec used maxBytes) as [Hle|Hgt].
  - exists 0%nat. split; [by destruct db|]. split; [left; change (used - 0 <= maxBytes); lia|intros; lia].
  - pose proof (evict_spec maxBytes size n (db_blocks db) deletes used false Hn Hs Hd) as E. cbn zeta in E. rewrite E.
    exists (evicted maxBytes (n <$> db_blocks db) used). split; [done|]. destruct (evicted_enough maxBytes (n <$> db_blocks db) used) as [H1 H2]. cbn zeta in *.
    rewrite length_fmap in H1. setoid_rewrite fmap_take. done.
Qed.

(** TagCardinality counts distinct series.  However often a series appears among the sources, the report has the number of distinct series; for every tag key of them, in strict order and once, the number of series that carry it (once, however often a series carries it) and the number of its distinct non-empty values. *)
Theorem cardinality_exact metric h bs refs : eachSeries metric h bs = Ok refs ->
  (forall r r', r ∈ refs -> r' ∈ refs -> Key r = Key r' -> r = r') ->
  let S := remove_dups refs in
  exists out, TagCardinality metric h bs = Ok out /\ mt_Series out = Z.of_nat (length S)
  /\ StronglySorted (fun a b => str_lt (tk_Key a) (tk_Key b)) (mt_Keys out)
  /\ forall k n v, MkTagKeyCardinality k n v ∈ mt_Keys out <->
       n = Z.of_nat (length (filter (fun r => k ∈ t_Key <$> sr_Tags r) S)) /\ 0 < n
       /\ v = Z.of_nat (size (values_in k (S ≫= sr_Tags))).
Proof.
  intros E Hinj. cbn zeta. exists (cardinality_of refs). split; [unfold TagCardinality; by rewrite E|]. by apply cardinality_spec.
Qed.

Definition capped_db (bs : list Block) : DB := MkDB (MkDBOptions 100000000 (-1) 1000 0) fresh_head bs.
Lemma size_cap_minimal_witness : exists k, applySizeCap (Some 1300) (fun _ => Some 200) [] (capped_db small_blocks)
    = (capped_db (drop k small_blocks), Ok tt) /\ k = 2%nat.
Proof.
  destruct (size_cap_minimal 1300 (fun _ => Some 200) (fun _ => 200) [] (capped_db small_blocks)) as (k & E & H1 & H2).
  - reflexivity.
  - refine (bool_decide_eq_true_1 _ _). vm_compute. reflexivity.
  - intros b _. reflexivity.
  - constructor.
  - exists k. split; [exact E|]. destruct k as [|[|[|[|k]]]]; [| |reflexivity| |].
    + destruct H1 as [H|H]; [vm_compute in H; by destruct H|discriminate H].
    + destruct H1 as [H|H]; [vm_compute in H; by destruct H|discriminate H].
    + specialize (H2 2%nat ltac:(lia)). vm_compute in H2. discriminate H2.
    + specialize (H2 2%nat ltac:(lia)). vm_compute in H2. discriminate H2.
Defined.

Definition web_block : Block := ltac:(let r := eval vm_compute in (match bw_published ex_run.1 with Some f => BlockOpen f | None => Err (ErrPostings 0) end) in match r with Ok ?b => exact b end).

(** [web_a] is in the head and in the block. *)
Lemma cardinality_exact_witness : exists out, TagCardinality (str "http.count") example_head [web_block] = Ok out
  /\ mt_Series out = 2 /\ MkTagKeyCardinality (str "host") 2 2 ∈ mt_Keys out.
Proof.
  assert (E : match eachSeries (str "http.count") example_head [web_block] with Ok l => l | Err _ => [] end = [web_a; web_b; web_a]) by (vm_compute; reflexivity).
  assert (E' : match eachSeries (str "http.count") example_head [web_block] with Ok _ => true | Err _ => false end = true) by (vm_compute; reflexivity).
  destruct (eachSeries (str "http.count") example_head [web_block]) as [refs|e] eqn:Er; [subst refs|discriminate E'].
  destruct (cardinality_exact (str "http.count") example_head [web_block] _ Er) as (out & H1 & H2 & _ & H4).
  - assert (Hall : Forall (fun r => Forall (fun r' => Key r = Key r' -> r = r') [web_a; web_b; web_a]) [web_a; web_b; web_a])
      by (refine (bool_decide_eq_true_1 _ _); vm_compute; reflexivity).
    intros r r' Hr Hr'. rewrite Forall_forall in Hall. specialize (Hall r Hr). rewrite Forall_forall in Hall. exact (Hall r' Hr').
  - exists out. split; [exact H1|]. split; [rewrite H2; vm_compute; reflexivity|]. apply H4. split_and!; vm_compute; reflexivity.
Defined.
