(* ===== verification/DbRestart.v ===== *)
(** * A restart loses nothing

    The invariant that ties the log to the head and the blocks, through every step
    of a run in which the log refuses nothing, and what [DbOpen] makes of it. *)

From Stdlib Require Import ZArith Lia.
From Stdlib Require Import (notations) String.
From stdpp Require Import base sorting gmap numbers list relations.
From S2P Require Import Prelude Chunkenc Wal WalProofs WalTruncate WalSafety Gofloat Gostring Tsdb Index IndexProofs IndexSelect HeadRecord Head HeadSeries HeadStore HeadCommit HeadOps HeadDurable Compact CompactProofs BlockFile BlockIndex BlockLaws BlockOpen Block BlockServe BlockWrite BlockCompact Db DbMerge DbState DbQuery.

(** * Restarts of the database

    Why a restart loses nothing: the log and the blocks together determine the
    store.  The log is read under the bound startup uses, one past the newest
    sample of the blocks; every step of the running database keeps what the log
    means under that bound equal to what the head holds above it. *)

(** ** A log that has accepted everything *)

Definition logging (w : WAL) (l : list Record_) : Prop :=
  exists c m rs, writing w c m rs /\ w_broken w = false /\ contents c ++ contents m = l
    /\ forall k, is_Some (c !! k) -> (k <= w_segment w)%nat.

Record frame (w w' : WAL) : Prop := {
  fr_open : w_fopen w' = true;
  fr_broken : w_broken w' = false;
  fr_segment : (w_segment w <= w_segment w')%nat;
}.

Lemma frame_trans w1 w2 w3 : frame w1 w2 -> frame w2 w3 -> frame w1 w3.
Proof. intros [_ _ H1] [H2 H3 H4]. split; [done|done|lia]. Qed.

Lemma f_write_frame bs w w' : w_fopen w = true -> w_broken w = false -> f_write bs w = (w', Ok true) -> frame w w'.
Proof. intros Ho Hb E. destruct (f_write_spec bs w) as (s & b & k & _ & _ & E1). rewrite E, Ho in E1. injection E1 as -> _. split; [done|done|cbn; lia]. Qed.

Lemma undo_fails cause w w' : undoPartial cause w <> (w', Ok tt).
Proof.
  unfold undoPartial, mbind, SE_bind, get. destruct (f_truncate _ w) as [w1 [[]|]]; cbn; [|done|done].
  destruct (f_other w1) as [w2 [[]|]]; cbn; done.
Qed.

Lemma write_records_frame recs : forall w w', w_fopen w = true -> w_broken w = false -> write_records recs w = (w', Ok tt) -> frame w w'.
Proof.
  induction recs as [|x recs IH]; intros w w' Ho Hb E; cbn [write_records] in E; [injection E as <-; by split|].
  destruct (f_write_spec (header_of x) w) as (s1 & b1 & k1 & _ & _ & E1). rewrite Ho in E1. cbn [andb] in E1. rewrite (bind_ok _ _ _ _ _ E1) in E.
  destruct b1; [|by apply undo_fails in E]. cbn [negb] in E. destruct (f_write_frame _ _ _ Ho Hb E1) as [Ho1 Hb1 Hs1]. set (w1 := with_file _ _) in *.
  destruct (f_write_spec (rec_Data x) w1) as (s2 & b2 & k2 & _ & _ & E2). rewrite Ho1 in E2. cbn [andb] in E2. rewrite (bind_ok _ _ _ _ _ E2) in E.
  destruct b2; [|by apply undo_fails in E]. cbn [negb] in E. destruct (f_write_frame _ _ _ Ho1 Hb1 E2) as [Ho2 Hb2 Hs2].
  apply IH in E as [Ho3 Hb3 Hs3]; [|done|done]. split; [done|done|cbn in Hs3; lia].
Qed.

Lemma roll_frame w w' : w_broken w = false -> roll w = (w', Ok tt) -> frame w w'.
Proof.
  intros Hb E. unfold roll in E. destruct (f_other_spec w) as (s1 & b1 & E1 & _). rewrite (bind_ok _ _ _ _ _ E1) in E. destruct b1; cbn [negb] in E; [|done].
  destruct (f_other_spec (with_script s1 w)) as (s2 & b2 & E2 & _). rewrite (bind_ok _ _ _ _ _ E2) in E.
  rewrite (bind_ok (modify (with_open false)) _ _ (with_open false (with_script s2 (with_script s1 w))) tt) in E by done. destruct b2; cbn [negb] in E; [|done].
  rewrite (bind_ok get _ _ _ (with_open false (with_script s2 (with_script s1 w)))) in E by done.
  apply openSegment_ok in E as (_ & Ho2 & Hs2 & Hb2 & _); [|done]. split; [done|done|]. rewrite Hs2. cbn. lia.
Qed.

Lemma Log_frame recs w w' : w_fopen w = true -> w_broken w = false -> Log recs w = (w', Ok tt) -> frame w w'.
Proof.
  intros Ho Hb E. unfold Log in E. destruct recs as [|x recs]; [injection E as <-; by split|]. rewrite (bind_ok get _ w w w) in E by done.
  destruct (w_closed w); [done|]. rewrite Hb in E. destruct (batch_size _ _) as [total|]; [|done].
  destruct (_ && _).
  - destruct (roll w) as [w1 [[]|e]] eqn:Er; [|rewrite (bind_err _ _ _ _ _ Er) in E; done]. rewrite (bind_ok _ _ _ _ _ Er) in E.
    apply roll_frame in Er as [H1 H2 H3]; [|done]. apply write_records_frame in E as [G1 G2 G3]; [|done|done]. split; [done|done|lia].
  - apply write_records_frame in E; done.
Qed.

Lemma logging_inv w c m tail : wal_inv w c m tail -> w_fopen w = true -> w_broken w = false -> exists rs, writing w c m rs.
Proof.
  intros [(n & rs & Hf & Hn & Hs) Hc] Ho Hb. rewrite (Hc Hb) in Hf. rewrite (Hn Ho) in Hf. exists rs. by split; [|done|apply Hs].
Qed.

Lemma logging_Log w l recs w' : logging w l -> Forall bytes_ok recs -> Log recs w = (w', Ok tt) -> logging w' (l ++ recs).
Proof.
  intros (c & m & rs & Hw & Hb & <- & Hc) Hr E. destruct (Log_frame _ _ _ (wr_open _ _ _ _ Hw) Hb E) as [Ho' Hb' Hs'].
  destruct (Log_inv recs w c m [] (writing_inv _ _ _ _ Hw) Hr) as (pre & m' & tail' & w1 & res & E1 & Hi & Hm & _ & Hp). rewrite E in E1. injection E1 as <- <-.
  destruct (logging_inv _ _ _ _ Hi Ho' Hb') as [rs' Hw']. exists c, m', rs'. split_and!; [done|done|by rewrite Hm, (Hp eq_refl), app_assoc|].
  intros k Hk. specialize (Hc k Hk). lia.
Qed.

Lemma logging_Sync w l w' : logging w l -> Sync w = (w', Ok tt) -> logging w' l.
Proof.
  intros (c & m & rs & Hw & Hb & <- & Hc) E. unfold Sync in E. rewrite (bind_ok get _ w w w) in E by done. destruct (w_closed w); [done|]. rewrite Hb in E.
  destruct (f_other_spec w) as (s & b & E1 & _). rewrite (bind_ok _ _ _ _ _ E1) in E. destruct b; [|done]. injection E as <-.
  exists c, m, rs. split_and!; [by apply writing_script|done|done|done].
Qed.

(** The laws of a log that refuses nothing. *)
Definition logging_laws : LoggerLaws WAL :=
  {| lg_holds := logging; lg_Log_ok := logging_Log; lg_Sync_ok := logging_Sync |}.

Lemma logging_replay w l : logging w l -> exists r, replay (w_dir w) = (l, r) /\ rd_err r = None.
Proof. intros (c & m & rs & Hw & _ & <- & _). apply (wal_inv_replay w c m []). by eapply writing_inv. Qed.

(** Opening the directory again. *)
Lemma logging_open w l : logging w l -> forall d cut sz script w', Repair (w_dir w) = Ok (d, cut) -> Open d sz script = (w', Ok tt) -> logging w' l.
Proof.
  intros (c & m & rs & Hw & Hb & <- & Hc) d cut sz script w' Hr Ho.
  destruct (Repair_log_files _ _ _ _ _ _ (wr_files _ _ _ _ Hw)) as (d' & cut' & Hr' & Hf & _). rewrite Hr in Hr'. injection Hr' as <- <-.
  pose proof (Open_log _ _ _ _ _ _ _ _ Hf Ho) as Hi. unfold Open in Ho. rewrite (last_listNumbered _ _ _ _ _ _ Hf) in Ho. cbn [default from_option id] in Ho.
  apply openSegment_ok in Ho as (_ & Ho & Hseg & Hb' & _); [|done]. destruct (logging_inv _ _ _ _ Hi Ho Hb') as [rs' Hw']. exists c, m, rs'. split_and!; [done|done|done|].
  intros k Hk. rewrite Hseg. by apply Hc.
Qed.

Lemma logging_repair w l : logging w l -> exists d cut, Repair (w_dir w) = Ok (d, cut).
Proof. intros (c & m & rs & Hw & _). destruct (Repair_log_files _ _ _ _ _ _ (wr_files _ _ _ _ Hw)) as (d' & cut' & Hr' & _). eauto. Qed.

Definition at_dir (d : Dir) (w : WAL) : WAL :=
  MkWAL d (w_segmentSize w) (w_fopen w) (w_segment w) (w_size w) (w_closed w) (w_broken w) (w_script w).

(** A truncation keeps a tail of the log, and of the rest what the filter keeps. *)
Lemma logging_truncate w l keep : logging w l ->
  exists ops l1 l2, Truncate (w_dir w) (w_segment w) (Some keep) = Ok ops /\ l = l1 ++ l2
    /\ (logging (at_dir (foldl apply_op (w_dir w) ops) w) l \/ logging (at_dir (foldl apply_op (w_dir w) ops) w) (filter (fun x => keep x = true) l1 ++ l2)).
Proof.
  intros (c & m & rs & Hw & Hb & <- & Hc).
  destruct (Truncate_spec _ _ _ _ _ _ (w_segment w) keep (wr_files _ _ _ _ Hw) (Nat.le_refl _) Hc) as (ops & E & _ & Hnone & Hsome).
  exists ops, (contents c ++ contents (below (w_segment w) m)), (contents (from (w_segment w) m)).
  split; [done|]. split; [by rewrite <- app_assoc, <- contents_split|].
  destruct (decide (below (w_segment w) m = ∅)) as [He|Hne].
  - left. rewrite (Hnone He). cbn [foldl]. exists c, m, rs. by destruct w.
  - right. destruct (Hsome Hne) as (c' & m' & r' & Hf & Hc' & Hr & _). exists c', m', rs. split_and!; [|done| |done].
    + split; [exact Hf|apply Hw|apply Hw].
    + destruct (log_files_replays _ _ _ _ _ _ Hf) as (r2 & Hr2 & _). unfold replay in Hr. rewrite (replays_replay _ _ _ Hr2) in Hr. by injection Hr as -> _.
Qed.

(** ** The store and the meaning of the log *)

(** [B], what the log means above [R], is the part of [A] there; it may name series
    that [A] has forgotten. *)
Definition tracks (R : Z) (B A : store) : Prop := forall key,
  match A !! key with
  | Some (ref, ss) => B !! key = Some (ref, filter (fun s => R <= s.1) ss)
  | None => B !! key = None \/ exists ref, B !! key = Some (ref, [])
  end.

Definition own_refs (B : store) : Prop := forall key ref ss, B !! key = Some (ref, ss) -> Key ref = key /\ ref_good ref.

Lemma append_same mv R t v ss : R <= mv -> mv <= t -> append_spec R t v ss = append_spec mv t v ss.
Proof. intros H1 H2. unfold append_spec. rewrite !(proj2 (Z.ltb_ge _ _)) by lia. done. Qed.

Lemma tracks_sample mv R ns B A s : tracks R B A -> runs A -> R <= mv -> mv <= hs_T s -> known (ns, A) s ->
  tracks R (mean_sample R ns B s) (mean_sample mv ns A s).
Proof.
  intros Ht Hr HR Hmv (key & Hk & [[ref ss] HA]). cbn [fst snd] in *. unfold mean_sample. rewrite Hk. unfold spec_apply. rewrite HA.
  pose proof (Ht key) as Hkey. rewrite HA in Hkey. rewrite Hkey.
  pose proof (append_above R R (hs_T s) (hs_V s) ss (Hr _ _ _ HA) (Z.le_refl _) ltac:(lia)) as Hab. rewrite (append_same mv R _ _ ss HR Hmv) in Hab.
  destruct (append_spec mv _ _ ss) as [ss1 r1], (append_spec R _ _ (filter _ ss)) as [ss2 r2]. cbn [fst] in *. subst ss2. intros k.
  destruct (decide (k = key)) as [->|]; [by rewrite !lookup_insert_eq|]. rewrite !lookup_insert_ne by done. apply Ht.
Qed.

Lemma tracks_samples mv R ns ss : forall B A, tracks R B A -> runs A -> R <= mv -> Forall (fun s => mv <= hs_T s /\ known (ns, A) s) ss ->
  tracks R (foldl (mean_sample R ns) B ss) (foldl (mean_sample mv ns) A ss).
Proof.
  induction ss as [|s ss IH]; intros B A Ht Hr HR Hall; cbn [foldl]; [done|]. apply Forall_cons_1 in Hall as [[Hm Hk] Hall]. apply IH; [by apply tracks_sample|by apply mean_sample_runs|done|].
  eapply Forall_impl; [exact Hall|]. intros x (Hx & key & Hkx & HA). split; [done|]. exists key. split; [done|]. by apply mean_sample_keys.
Qed.

Lemma tracks_entry mv R ns B A e : tracks R B A -> runs A -> own_refs B -> R <= mv -> entry_live mv (ns, A) e ->
  (forall id ref, e = ESeries id ref -> ref_good ref) ->
  (mean_entry R (ns, B) e).1 = (mean_entry mv (ns, A) e).1 /\ tracks R (mean_entry R (ns, B) e).2 (mean_entry mv (ns, A) e).2
  /\ runs (mean_entry mv (ns, A) e).2 /\ own_refs (mean_entry R (ns, B) e).2.
Proof.
  intros Ht Hr HB HR Hl Hg. destruct e as [id ref|ss]; cbn [mean_entry entry_live fst snd] in *.
  - split; [done|]. split; [|split; [by apply name_series_runs|]].
    + unfold name_series. cbn [snd]. pose proof (Ht (Key ref)) as Hk. destruct (A !! Key ref) as [[r0 ss]|] eqn:EA; [by rewrite Hk|].
      destruct Hk as [Hk|[r0 Hk]]; rewrite Hk; intros key; (destruct (decide (key = Key ref)) as [->|]; [rewrite ?lookup_insert_eq|rewrite ?lookup_insert_ne by done; apply Ht]); [done|].
      rewrite Hk. f_equal. f_equal. destruct (HB _ _ _ Hk) as [HK Hr0]. apply good_key; [done|by apply (Hg id)|done].
    + unfold name_series. cbn [snd]. destruct (B !! Key ref); [done|]. intros key r ss [[<- [= <- <-]]|[_ H]]%lookup_insert_Some; [split; [done|by apply (Hg id)]|by apply (HB _ _ ss)].
  - split; [done|]. split; [by apply tracks_samples|]. split; [by apply (mean_samples_cut mv mv)|]. clear - HB.
    revert B HB. induction ss as [|s ss IH]; intros B HB; cbn [foldl]; [done|]. apply IH. unfold mean_sample, spec_apply. destruct (ns !! hs_ID s) as [key|]; [|done].
    destruct (B !! key) as [[r l]|] eqn:E; [|done]. destruct (append_spec _ _ _ _). cbn [fst]. intros k r' l' [[<- [= <- <-]]|[_ H]]%lookup_insert_Some; [by apply (HB _ _ l)|by apply (HB _ _ l')].
Qed.

Lemma tracks_log mv R log : forall ns B A, tracks R B A -> runs A -> own_refs B -> R <= mv -> live mv (ns, A) log ->
  (forall id ref, ESeries id ref ∈ log -> ref_good ref) ->
  (foldl (mean_entry R) (ns, B) log).1 = (foldl (mean_entry mv) (ns, A) log).1 /\ tracks R (foldl (mean_entry R) (ns, B) log).2 (foldl (mean_entry mv) (ns, A) log).2
  /\ own_refs (foldl (mean_entry R) (ns, B) log).2.
Proof.
  induction log as [|e log IH]; intros ns B A Ht Hr HB HR Hl Hg; cbn [foldl]; [done|]. destruct Hl as [He Hl].
  destruct (tracks_entry mv R ns B A e Ht Hr HB HR He) as (H1 & H2 & H3 & H4); [intros id ref ->; by apply (Hg id); left|].
  rewrite (surjective_pairing (mean_entry R (ns, B) e)), H1. rewrite (surjective_pairing (mean_entry mv (ns, A) e)) in Hl |- *. apply IH; try done.
  intros id ref Hin. apply (Hg id). by right.
Qed.

(** The references a live log defines are those of the store after it. *)
Lemma mean_entry_refs mv m e key ref ss : m.2 !! key = Some (ref, ss) -> exists ss', (mean_entry mv m e).2 !! key = Some (ref, ss').
Proof.
  intros H. destruct e as [id r|l]; cbn [mean_entry snd].
  - unfold name_series. cbn [snd]. destruct (m.2 !! Key r) eqn:E; [eauto|]. exists ss. rewrite lookup_insert_ne; [done|]. intros <-. congruence.
  - generalize dependent ss. generalize (m.2). induction l as [|s l IH]; intros X ss H; cbn [foldl]; [eauto|].
    assert (exists ss1, mean_sample mv m.1 X s !! key = Some (ref, ss1)) as [ss1 H1]; [|by eapply IH].
    unfold mean_sample, spec_apply. destruct (m.1 !! hs_ID s) as [k|]; [|eauto]. destruct (X !! k) as [[r l']|] eqn:E; [|eauto]. destruct (append_spec _ _ _ _) as [l'' res]. cbn [fst].
    destruct (decide (k = key)) as [->|]; [rewrite lookup_insert_eq|rewrite lookup_insert_ne by done; eauto]. rewrite H in E. injection E as -> _. eauto.
Qed.

Lemma mean_log_refs mv log key ref : forall m ss, m.2 !! key = Some (ref, ss) -> exists ss', (foldl (mean_entry mv) m log).2 !! key = Some (ref, ss').
Proof.
  induction log as [|e log IH]; intros m ss H; cbn [foldl]; [eauto|]. destruct (mean_entry_refs mv m e _ _ _ H) as [ss' Hs']. by eapply IH.
Qed.

Lemma live_refs mv log : forall m, live mv m log -> forall id ref, ESeries id ref ∈ log -> exists ss, (foldl (mean_entry mv) m log).2 !! Key ref = Some (ref, ss).
Proof.
  induction log as [|e log IH]; intros m Hl id ref Hin; [by apply not_elem_of_nil in Hin|]. destruct Hl as [He Hl]. cbn [foldl].
  apply elem_of_cons in Hin as [<-|Hin]; [|by apply (IH _ Hl id)]. destruct He as [ss Hs]. by eapply mean_log_refs.
Qed.

(** ** Records a checkpoint may drop *)

Definition none_between (R k : Z) (B : store) : Prop := forall key ref ss s, B !! key = Some (ref, ss) -> s ∈ ss -> R <= s.1 -> k <= s.1.

Lemma append_adds mv t v ss : (append_spec mv t v ss).1 = ss \/ (mv <= t /\ (append_spec mv t v ss).1 = ss ++ [(t, v)]).
Proof.
  unfold append_spec. destruct (Z.ltb_spec t mv); [by left|]. destruct (last ss) as [[lt lv]|]; [|by right]. destruct (t <=? lt); [by left|by right].
Qed.

(** Samples stay. *)
Lemma mean_sample_mono mv ns B s key ref ss : B !! key = Some (ref, ss) -> exists l, mean_sample mv ns B s !! key = Some (ref, ss ++ l).
Proof.
  intros H. unfold mean_sample, spec_apply. destruct (ns !! hs_ID s) as [k|]; [|exists []; by rewrite app_nil_r]. destruct (B !! k) as [[r l']|] eqn:E; [|exists []; by rewrite app_nil_r].
  pose proof (append_adds mv (hs_T s) (hs_V s) l') as Ha. destruct (append_spec _ _ _ _) as [l'' res]. cbn [fst] in *.
  destruct (decide (k = key)) as [->|]; [rewrite lookup_insert_eq|rewrite lookup_insert_ne by done; exists []; by rewrite app_nil_r]. rewrite H in E. injection E as -> ->.
  destruct Ha as [->|[_ ->]]; [exists []; by rewrite app_nil_r|eauto].
Qed.

Lemma mean_samples_mono mv ns ss key ref : forall B l, B !! key = Some (ref, l) -> exists l', foldl (mean_sample mv ns) B ss !! key = Some (ref, l ++ l').
Proof.
  induction ss as [|s ss IH]; intros B l H; cbn [foldl]; [exists []; by rewrite app_nil_r|]. destruct (mean_sample_mono mv ns B s _ _ _ H) as [l1 H1].
  destruct (IH _ _ H1) as [l2 H2]. exists (l1 ++ l2). by rewrite app_assoc.
Qed.

Lemma mean_log_mono mv log key ref : forall m l, m.2 !! key = Some (ref, l) -> exists l', (foldl (mean_entry mv) m log).2 !! key = Some (ref, l ++ l').
Proof.
  induction log as [|e log IH]; intros m l H; cbn [foldl]; [exists []; by rewrite app_nil_r|].
  assert (exists l1, (mean_entry mv m e).2 !! key = Some (ref, l ++ l1)) as [l1 H1].
  { destruct e as [id r|ss]; cbn [mean_entry snd]; [|by apply mean_samples_mono]. exists []. rewrite app_nil_r. unfold name_series. cbn [snd].
    destruct (m.2 !! Key r) eqn:E; [done|]. rewrite lookup_insert_ne; [done|]. intros <-. congruence. }
  destruct (IH _ _ H1) as [l2 H2]. exists (l1 ++ l2). by rewrite app_assoc.
Qed.

Lemma none_between_back R k B B' : (forall key ref l, B !! key = Some (ref, l) -> exists l', B' !! key = Some (ref, l ++ l')) -> none_between R k B' -> none_between R k B.
Proof. intros Hm Hn key ref ss s H Hs. destruct (Hm _ _ _ H) as [l' H']. apply (Hn _ _ _ s H'). apply elem_of_app. by left. Qed.

Lemma mean_sample_dead R k ns B s : hs_T s < k -> none_between R k (mean_sample R ns B s) -> mean_sample R ns B s = B.
Proof.
  unfold mean_sample, spec_apply. destruct (ns !! hs_ID s) as [key|]; [|done]. destruct (B !! key) as [[ref ss]|] eqn:E; [|done]. intros Ht.
  pose proof (append_adds R (hs_T s) (hs_V s) ss) as Ha. destruct (append_spec R _ _ ss) as [ss' res]. cbn [fst] in *. intros Hn.
  destruct Ha as [->|[Hle ->]]; [by apply insert_id|]. exfalso. specialize (Hn key ref _ (hs_T s, hs_V s) (lookup_insert_eq _ _ _)). cbn in Hn. rewrite elem_of_app, list_elem_of_singleton in Hn. specialize (Hn (or_intror eq_refl) Hle). lia.
Qed.

Lemma mean_samples_drop R k ns ss : forall B, Forall (fun s => hs_T s < k) ss -> none_between R k (foldl (mean_sample R ns) B ss) -> foldl (mean_sample R ns) B ss = B.
Proof.
  induction ss as [|s ss IH]; intros B Hall Hn; cbn [foldl] in *; [done|]. apply Forall_cons_1 in Hall as [Hs Hall]. pose proof (IH _ Hall Hn) as E. rewrite E in Hn |- *.
  by eapply mean_sample_dead.
Qed.

(** Dropping records whose samples are all below [k] changes nothing, when the
    meaning of the log has no sample between [R] and [k]. *)
Lemma checkpoint_same R k log : Forall HeadDurable.entry_ok log -> forall m rest, none_between R k (foldl (mean_entry R) m (log ++ rest)).2 ->
  foldl (mean_entry R) m (filter (fun e => keepForCheckpoint k (record_of e) = true) log ++ rest) = foldl (mean_entry R) m (log ++ rest).
Proof.
  induction 1 as [|e log He _ IH]; intros m rest Hn; [done|]. rewrite filter_cons. pose proof (keep_entry k e He) as Hk. cbn [app foldl] in Hn.
  destruct (decide (keepForCheckpoint k (record_of e) = true)) as [Hd|Hd]; [cbn [app foldl]; by apply IH|].
  assert (Hm : mean_entry R m e = m).
  { rewrite Hk in Hd. destruct e as [id ref|ss]; [done|]. cbn [mean_entry]. rewrite (mean_samples_drop R k); [by destruct m| |].
    - apply Forall_forall. intros s Hs. destruct (Z.ltb_spec (hs_T s) k) as [|Hge]; [done|]. destruct Hd. apply List.existsb_exists. exists s. split; [by apply list_elem_of_In|]. by apply Z.leb_le.
    - eapply none_between_back; [|exact Hn]. intros key r l Hl. by apply mean_log_mono. }
  cbn [app foldl]. rewrite Hm in Hn |- *. by apply IH.
Qed.

(** ** Replay, series by series *)

Definition ids_unique (log : list entry) : Prop := forall id ref ref', ESeries id ref ∈ log -> ESeries id ref' ∈ log -> Key ref = Key ref'.

Record restored (h0 : Head WAL) (log : list entry) (h : Head WAL) : Prop := {
  re_series id ms : h_byID h !! id = Some ms -> ESeries id (ms_ref ms) ∈ log /\ ms_logged ms = true;
  re_next id ref : ESeries id ref ∈ log -> id <= h_nextID h;
  re_opts : same_opts h h0;
  re_wal : h_wal h = h_wal h0;
}.

Lemma restored_sample h0 log mv st s : restored h0 log (rp_head st) -> restored h0 log (rp_head (replay_sample mv st s)).
Proof.
  intros [R1 R2 R3 R4]. unfold replay_sample. destruct (rp_byLogID st !! hs_ID s) as [sid|]; [|by split]. destruct (h_byID (rp_head st) !! sid) as [ms|] eqn:E; [|by split].
  pose proof (appendTo_same (h_BlockRange (rp_head st)) mv (hs_T s) (hs_V s) ms) as Hsame. destruct (appendTo _ _ _ _ ms) as [ms' res]. cbn [fst] in Hsame.
  assert (Hr : restored h0 log (on_series sid (fun _ => ms') (rp_head st))).
  { split; [|done|by destruct R3|done]. destruct Hsame as (_ & Er & El). intros id ms1 Hid. cbn in Hid. destruct (decide (id = sid)) as [->|Hne].
    - rewrite lookup_alter_eq, E in Hid. injection Hid as <-. rewrite Er, El. by apply R1.
    - rewrite lookup_alter_ne in Hid by done. by apply R1. }
  by destruct res as [[]|].
Qed.

Lemma restored_samples h0 log mv ss : forall st, restored h0 log (rp_head st) -> restored h0 log (rp_head (foldl (replay_sample mv) st ss)).
Proof. induction ss as [|s ss IH]; intros st H; cbn [foldl]; [done|]. by apply IH, restored_sample. Qed.

Lemma restored_more h0 log log' h : (forall e, e ∈ log -> e ∈ log') -> (forall id ref, ESeries id ref ∈ log' -> id <= h_nextID h) -> restored h0 log h -> restored h0 log' h.
Proof. intros Hsub Hn [R1 R2 R3 R4]. split; try done. intros id ms Hid. destruct (R1 id ms Hid) as [H1 H2]. split; [by apply Hsub|done]. Qed.

Lemma restored_series h0 log h A id ref : head_inv h A -> restored h0 log h -> is_u64 id -> ids_unique (log ++ [ESeries id ref]) ->
  restored h0 (log ++ [ESeries id ref]) (restoreSeries id ref h).1.
Proof.
  intros Hi [R1 R2 R3 R4] Hid Hu. unfold restoreSeries. set (nextID := if h_nextID h <? id then id else h_nextID h).
  assert (Hnx : h_nextID h <= nextID /\ id <= nextID) by (unfold nextID; destruct (Z.ltb_spec (h_nextID h) id); lia).
  set (h1 := with_ids _ _ _ _ nextID h).
  assert (Hn : forall i r, ESeries i r ∈ log ++ [ESeries id ref] -> i <= nextID).
  { intros i r Hin. apply elem_of_app in Hin as [H|H]; [specialize (R2 _ _ H); lia|]. apply list_elem_of_singleton in H. injection H as -> _. lia. }
  assert (Hold : forall i ms, h_byID h !! i = Some ms -> ESeries i (ms_ref ms) ∈ log ++ [ESeries id ref] /\ ms_logged ms = true).
  { intros i ms H. destruct (R1 i ms H). split; [apply elem_of_app; by left|done]. }
  change (h_shards h1) with (h_shards h). change (h_byID h1) with (h_byID h). change (h_nextID h1) with nextID.
  destruct (h_shards h !! Key ref) as [sid|] eqn:Es; [by split; [| |destruct R3|]|]. destruct (h_byID h !! id) as [ms|] eqn:Eid; cbn [fst].
  - exfalso. destruct (R1 id ms Eid) as [Hin _]. assert (HK : Key (ms_ref ms) = Key ref).
    { apply (Hu id); apply elem_of_app; [by left|right; by left]. }
    destruct (hi_series _ _ _ _ Hi Eid) as (ss & _ & HA & _). rewrite HK in HA.
    assert (is_Some (h_shards h !! Key ref)) as [x Hx] by (apply (hi_keys _ _ Hi); eauto). congruence.
  - split; [|exact Hn|by destruct R3|exact R4]. intros i ms H. cbn in H. apply lookup_insert_Some in H as [[<- <-]|[_ H]]; [|by apply Hold].
    split; [apply elem_of_app; right; by left|done].
Qed.

Lemma replay_restored h0 mv log : forall pre st m, replayed st m -> restored h0 pre (rp_head st) -> Forall HeadDurable.entry_ok log -> ids_unique (pre ++ log) ->
  exists st', replay_records mv st (record_of <$> log) = Ok st' /\ restored h0 (pre ++ log) (rp_head st').
Proof.
  induction log as [|e log IH]; intros pre st m Hr Hre Hok Hu; [exists st; by rewrite app_nil_r|]. rewrite fmap_cons. cbn [replay_records]. apply Forall_cons_1 in Hok as [He Hok].
  replace (pre ++ e :: log) with ((pre ++ [e]) ++ log) in * by (by rewrite <- app_assoc).
  assert (Hu1 : ids_unique (pre ++ [e])) by (intros i r r' H1 H2; apply (Hu i); apply elem_of_app; by left).
  destruct e as [id ref|ss]; cbn [record_of].
  - destruct He as [Hid Href]. destruct (replay_series mv st m id ref Hr Hid Href) as (st1 & E1 & Hr1 & _). rewrite E1. eapply IH; [exact Hr1| |done|done].
    unfold replay_record in E1. cbn [series_record rec_Type rec_Data] in E1. rewrite Z.eqb_refl, decodeSeries_enc in E1 by done.
    pose proof (restored_series h0 pre (rp_head st) _ id ref (rd_inv _ _ Hr) Hre Hid Hu1) as H. destruct (restoreSeries id ref (rp_head st)) as [h1 sid]. by injection E1 as <-.
  - destruct He as [Hss Hlen]. destruct m as [ns A]. destruct (replay_samples_spec mv ns ss st A Hr Hss) as [Hr1 _].
    assert (E1 : replay_record mv st (MkRecord RecordSamples (encodeSamples [] ss)) = Ok (foldl (replay_sample mv) st ss)).
    { unfold replay_record. cbn [rec_Type rec_Data]. change (RecordSamples =? RecordSeries) with false. by rewrite Z.eqb_refl, decodeSamples_enc. }
    rewrite E1. eapply IH; [exact Hr1| |done|done]. apply restored_samples. eapply restored_more; [| |exact Hre].
    + intros e H. apply elem_of_app. by left.
    + intros id ref H. apply elem_of_app in H as [H|H]; [by apply (re_next _ _ _ Hre id ref)|]. by apply list_elem_of_singleton in H.
Qed.

(** ** The bound startup reads the log under *)

Definition bound (bs : list Block) : Z := match blocksMaxTime bs with Some maxT => maxT + 1 | None => - 2 ^ 63 end.

Lemma blocksMaxTime_spec bs : match blocksMaxTime bs with
  | Some m => (exists b, b ∈ bs /\ bm_MaxTime (blk_meta b) = m) /\ forall b, b ∈ bs -> bm_MaxTime (blk_meta b) <= m
  | None => forall b, b ∈ bs -> bm_MaxTime (blk_meta b) <= - 2 ^ 63
  end.
Proof.
  unfold blocksMaxTime. induction bs as [|b bs IH] using rev_ind; [intros b Hb; by apply not_elem_of_nil in Hb|]. rewrite foldl_snoc.
  destruct (foldl _ None bs) as [m|].
  - destruct IH as [(x & Hx & Ex) IH]. destruct (Z.ltb_spec m (bm_MaxTime (blk_meta b))) as [Hlt|Hge]; split.
    + exists b. split; [apply elem_of_app; right; by left|done].
    + intros y [Hy| ->%list_elem_of_singleton]%elem_of_app; [specialize (IH y Hy); lia|lia].
    + exists x. split; [apply elem_of_app; by left|done].
    + intros y [Hy| ->%list_elem_of_singleton]%elem_of_app; [by apply IH|lia].
  - destruct (Z.ltb_spec (- 2 ^ 63) (bm_MaxTime (blk_meta b))) as [Hlt|Hge].
    + split; [exists b; split; [apply elem_of_app; right; by left|done]|]. intros y [Hy| ->%list_elem_of_singleton]%elem_of_app; [specialize (IH y Hy); lia|lia].
    + intros y [Hy| ->%list_elem_of_singleton]%elem_of_app; [by apply IH|lia].
Qed.

Lemma bound_spec (bs : list Block) : Forall block_ok bs ->
  (forall b, b ∈ bs -> bm_MaxTime (blk_meta b) < bound bs) /\ (bs = [] /\ bound bs = - 2 ^ 63 \/ exists b, b ∈ bs /\ bound bs = bm_MaxTime (blk_meta b) + 1).
Proof.
  intros Hok. rewrite Forall_forall in Hok. unfold bound. pose proof (blocksMaxTime_spec bs) as H. destruct (blocksMaxTime bs) as [m|].
  - destruct H as [(b & Hb & <-) H]. split; [intros x Hx; specialize (H x Hx); lia|right; eauto].
  - assert (bs = []) as ->; [|split; [intros b Hb; by apply not_elem_of_nil in Hb|by left]]. apply elem_of_nil_inv. intros b Hb.
    pose proof (bo_span _ (Hok b Hb)) as H1. pose proof (bo_lo _ (Hok b Hb)) as H2. cbn [b_Meta Block_Reader] in *. specialize (H b Hb). lia.
Qed.

Lemma bound_mono (bs bs' : list Block) : Forall block_ok bs -> Forall block_ok bs' ->
  (forall b, b ∈ bs -> exists b', b' ∈ bs' /\ bm_MaxTime (blk_meta b) <= bm_MaxTime (blk_meta b')) -> bound bs <= bound bs'.
Proof.
  intros Hok Hok' H. destruct (bound_spec bs Hok) as [_ Hb], (bound_spec bs' Hok') as [Hlt Hb'].
  assert (Hlo : - 2 ^ 63 <= bound bs').
  { destruct Hb' as [[_ ->]|(b' & Hb' & ->)]; [lia|]. rewrite Forall_forall in Hok'. pose proof (bo_span _ (Hok' b' Hb')) as H1. pose proof (bo_lo _ (Hok' b' Hb')) as H2. cbn [b_Meta Block_Reader] in *. lia. }
  destruct Hb as [[_ ->]|(b & Hin & ->)]; [done|]. destruct (H b Hin) as (b' & Hb1 & Hle). specialize (Hlt b' Hb1). lia.
Qed.

(** ** Names and meanings of a log *)

Lemma meaning_names R R' log : forall m m', m.1 = m'.1 -> (foldl (mean_entry R) m log).1 = (foldl (mean_entry R') m' log).1.
Proof. induction log as [|e log IH]; intros m m' E; cbn [foldl]; [done|]. apply IH. destruct e; cbn; [by rewrite E|done]. Qed.

Lemma names_bound R R' log : (log_meaning R log).1 = (log_meaning R' log).1.
Proof. by apply meaning_names. Qed.

Lemma names_of R log id ref : ids_unique log -> ESeries id ref ∈ log -> (log_meaning R log).1 !! id = Some (Key ref).
Proof.
  unfold log_meaning. induction log as [|e log IH] using rev_ind; intros Hu Hin; [by apply not_elem_of_nil in Hin|]. rewrite foldl_snoc.
  assert (Hu1 : ids_unique log) by (intros i r r' H1 H2; apply (Hu i); apply elem_of_app; by left).
  destruct e as [id' ref'|ss]; cbn [mean_entry name_series fst].
  - destruct (decide (id' = id)) as [->|Hne].
    + rewrite lookup_insert_eq. f_equal. apply (Hu id); [apply elem_of_app; right; by left|done].
    + rewrite lookup_insert_ne by done. apply IH; [done|]. apply elem_of_app in Hin as [?|H]; [done|]. apply list_elem_of_singleton in H. congruence.
  - apply IH; [done|]. apply elem_of_app in Hin as [?|H]; [done|]. by apply list_elem_of_singleton in H.
Qed.

Lemma meaning_cut R R' log : R <= R' -> log_meaning R' log = ((log_meaning R log).1, cut_run R' <$> (log_meaning R log).2) /\ runs (log_meaning R log).2.
Proof.
  intros HR. unfold log_meaning. induction log as [|e log [IH Hr]] using rev_ind; cbn [foldl fst snd].
  - split; [by rewrite fmap_empty|]. intros k r ss H. by rewrite lookup_empty in H.
  - rewrite !foldl_snoc, IH. destruct e as [id ref|ss]; cbn [mean_entry fst snd].
    + split; [apply name_series_cut|by apply name_series_runs].
    + destruct (mean_samples_cut R R' (foldl (mean_entry R) (∅, ∅) log).1 ss _ Hr HR) as [-> ?]. done.
Qed.

Lemma tracks_raise R R' log A : R <= R' -> tracks R (log_meaning R log).2 A -> tracks R' (log_meaning R' log).2 A.
Proof.
  intros HR Ht key. destruct (meaning_cut R R' log HR) as [-> _]. cbn [snd]. rewrite lookup_fmap. specialize (Ht key). destruct (A !! key) as [[ref ss]|].
  - rewrite Ht. cbn. unfold cut_run. cbn. do 2 f_equal. rewrite list_filter_filter. apply list_filter_iff. intros x. lia.
  - destruct Ht as [->|[ref ->]]; [by left|right; by exists ref].
Qed.

Lemma own_raise R R' log : R <= R' -> own_refs (log_meaning R log).2 -> own_refs (log_meaning R' log).2.
Proof.
  intros HR Ho key ref ss H. destruct (meaning_cut R R' log HR) as [E _]. rewrite E in H. cbn [snd] in H. rewrite lookup_fmap in H.
  destruct ((log_meaning R log).2 !! key) as [[r l]|] eqn:Er; [|done]. injection H as <- _. by apply (Ho _ _ l).
Qed.

(** ** The invariant *)

Record dur (db : DB) (A : store) (log : list entry) : Prop := {
  dr_bound : bound (db_blocks db) <= h_minValid (db_head db);
  dr_tracks : tracks (bound (db_blocks db)) (log_meaning (bound (db_blocks db)) log).2 A;
  dr_own : own_refs (log_meaning (bound (db_blocks db)) log).2;
  dr_ok : Forall HeadDurable.entry_ok log;
  dr_unique : ids_unique log;
  dr_next id ref : ESeries id ref ∈ log -> id <= h_nextID (db_head db);
  dr_named : named (db_head db) (log_meaning (bound (db_blocks db)) log).1;
  dr_all : all_logged (db_head db);
  dr_wal : exists w, h_wal (db_head db) = Some w /\ logging w (record_of <$> log);
  dr_super i : i ∈ ids (db_blocks db) -> i ∉ sources (db_blocks db);
}.

(** A head represents one store. *)
Lemma head_inv_unique (h : Head WAL) A A' : head_inv h A -> head_inv h A' -> A = A'.
Proof.
  intros H H'. apply map_eq. intros key. destruct (h_shards h !! key) as [id|] eqn:Es.
  - destruct (hi_shard _ _ H _ _ Es) as (ms & ss & Hms & _ & _ & HA & Hs), (hi_shard _ _ H' _ _ Es) as (ms' & ss' & Hms' & _ & _ & HA' & Hs').
    rewrite Hms in Hms'. injection Hms' as <-. rewrite HA, HA'. do 2 f_equal.
    pose proof (samplesIn_spec _ _ _ (- 2 ^ 63) (2 ^ 63 - 1) Hs) as E. pose proof (samplesIn_spec _ _ _ (- 2 ^ 63) (2 ^ 63 - 1) Hs') as E'.
    rewrite whole_window in E by apply Hs. rewrite whole_window in E' by apply Hs'. congruence.
  - assert (Hn : forall X, head_inv h X -> X !! key = None); [|by rewrite !Hn].
    intros X HX. apply eq_None_not_Some. intros Hk. apply (hi_keys _ _ HX) in Hk. rewrite Es in Hk. by destruct Hk.
Qed.

Lemma good_ref_ok ref : ref_good ref -> ref_ok ref.
Proof. intros H. destruct (rg_bytes _ H) as [H1 H2]. split; [apply H|exact H1|exact H2]. Qed.

(** A step that leaves the blocks, the log and what the head's series are. *)
Lemma dur_head db A log h' A' : dur db A log -> (bound (db_blocks db) <= h_minValid h') -> tracks (bound (db_blocks db)) (log_meaning (bound (db_blocks db)) log).2 A' ->
  (forall id ms, h_byID h' !! id = Some ms -> exists ms0, h_byID (db_head db) !! id = Some ms0 /\ ms_ref ms = ms_ref ms0 /\ ms_logged ms = ms_logged ms0) ->
  h_nextID h' = h_nextID (db_head db) -> h_wal h' = h_wal (db_head db) -> dur (with_head h' db) A' log.
Proof.
  intros [D1 D2 D3 D4 D5 D6 D7 D8 D9 D10] Hb Ht Hser Hn Hw. split; cbn [with_head db_head db_blocks]; try done.
  - intros id ref Hin. rewrite Hn. by eapply D6.
  - intros id ms Hid Hl. destruct (Hser id ms Hid) as (ms0 & H0 & -> & El). apply D7; [done|]. by rewrite <- El.
  - intros id ms Hid. destruct (Hser id ms Hid) as (ms0 & H0 & _ & ->). by apply (D8 id).
  - by rewrite Hw.
Qed.

(** ** Appends *)

Lemma attribute_ok batch owner rejected : forall refused out out', attribute batch owner rejected refused out = Ok out' -> forall x, x ∈ rejected -> 0 <= rj_Index x.
Proof.
  induction rejected as [|r rejected IH]; intros refused out out' H x Hx; [by apply not_elem_of_nil in Hx|]. cbn [attribute] in H.
  destruct (Z.ltb_spec (rj_Index r) 0); [done|]. apply elem_of_cons in Hx as [->|Hx]; [done|]. destruct (owner !! _) as [idx|]; [|done].
  destruct (decide (idx ∈ refused)); [by eapply IH|]. destruct (batch !! idx); [by eapply IH|done].
Qed.

Lemma flatten_length batch : forall i f, (length (fl_samples (flatten i batch f)) <= length (fl_samples f) + length (batch ≫= snd))%nat.
Proof.
  induction batch as [|ss batch IH]; intros i f; cbn [flatten]; [lia|]. rewrite bind_cons, length_app.
  destruct (validate ss); (etrans; [apply IH|]); cbn [fl_samples]; [lia|]. rewrite length_app, length_fmap. lia.
Qed.

Lemma dur_append ctx db p A log batch db' r A' : db_inv db p A -> dur db A log -> batch_good batch -> DbAppend ctx batch db = (db', r) ->
  (ctx = None -> logs batch db r) -> db_inv db' p A' -> exists log', dur db' A' log'.
Proof.
  intros HI HD Hg H Hl HI'. destruct ctx as [e|]; cbn [DbAppend] in H.
  { injection H as <- <-. exists log. by rewrite (head_inv_unique _ _ _ (di_head _ _ _ HI') (di_head _ _ _ HI)). }
  destruct (Hl eq_refl) as [[rep ->] Hnx]. unfold append_batch in H. destruct (flat_batch batch Hg) as [Hbatch Hbok].
  destruct (flatten_spec batch 0 (MkFlat [] [] [] []) eq_refl) as [Hlen _]. pose proof (flatten_length batch 0 (MkFlat [] [] [] [])) as Hfl. cbn [fl_samples length] in Hfl.
  set (f := flatten 0 batch _) in *. destruct (fl_samples f) as [|s0 sl] eqn:Es.
  { injection H as <- _. exists log. by rewrite (head_inv_unique _ _ _ (di_head _ _ _ HI') (di_head _ _ _ HI)). }
  rewrite <- Es in *. pose proof (HeadAppend_spec (db_head db) A (fl_refs f) (fl_samples f) (di_head _ _ _ HI) Hlen Hbok) as Hs.
  destruct (HeadAppend _ _ _) as [[h' st] rejected] eqn:Eh. destruct (spec_append _ _ _ A) as [A1 ress] eqn:Esp.
  assert (Hdb : db' = with_head h' db /\ forall x, x ∈ rejected -> 0 <= rj_Index x).
  { destruct (attribute _ _ _ _ _) as [rej|e] eqn:Ea; [|done]. injection H as <- _. split; [done|]. by eapply attribute_ok. }
  destruct Hdb as [-> Hneg]. destruct Hs as [Hopts Hs]. destruct st as [st|].
  2:{ destruct Hs as (_ & _ & e & He). specialize (Hneg _ He). cbn in Hneg. lia. }
  destruct Hs as (Hi1 & _). assert (A' = A1) as -> by (eapply head_inv_unique; [apply (di_head _ _ _ HI')|exact Hi1]).
  destruct (dr_wal _ _ _ HD) as (w & Hw & Hlog). set (R := bound (db_blocks db)) in *.
  assert (Hrefs : refs_ok A) by (intros key ref ss HA; by apply good_ref_ok, (di_refs _ _ _ HI key ref ss)).
  assert (Hbr : Forall (fun x => ref_ok x.1) (zip (fl_refs f) (fl_samples f))).
  { apply Forall_forall. intros [ref s] Hin. apply good_ref_ok, (Hbatch ref s Hin). }
  destruct (@append_logged WAL _ logging_laws (db_head db) _ (log_meaning R log).1 A w _ _ _ _ _ (di_head _ _ _ HI) (dr_named _ _ _ HD) Hrefs Hw Hlog Hlen Hbok Hbr ltac:(lia) Eh)
    as (log' & [C1 C2 C3 C4 C5 C6 C7 C8 C9 C10]). rewrite Esp in C3. cbn [fst] in C3.
  assert (HrA : runs A). { intros key ref ss HA. by destruct (hi_shard_run _ _ _ _ _ (di_head _ _ _ HI) HA) as (_ & ? & _). }
  destruct (tracks_log (h_minValid (db_head db)) R log' (log_meaning R log).1 (log_meaning R log).2 A (dr_tracks _ _ _ HD) HrA (dr_own _ _ _ HD) (dr_bound _ _ _ HD) C5) as (T1 & T2 & T3).
  { intros id ref Hin. destruct (live_refs _ _ _ C5 id ref Hin) as [ss Hss]. rewrite C3 in Hss. by apply (di_refs _ _ _ HI' _ _ _ Hss). }
  rewrite C3 in T2. rewrite <- T1 in C4. rewrite <- surjective_pairing in T1, T2, T3, C4. exists (log ++ log').
  assert (Em : log_meaning R (log ++ log') = foldl (mean_entry R) (log_meaning R log) log') by (unfold log_meaning; by rewrite foldl_app).
  split; cbn [with_head db_head db_blocks]; fold R; rewrite ?Em; try done.
  - rewrite (so_valid _ _ Hopts). apply HD.
  - apply Forall_app. split; [apply HD|done].
  - intros id r r' [H1|H1]%elem_of_app [H2|H2]%elem_of_app; [by apply (dr_unique _ _ _ HD id)| | |by rewrite (C7 _ _ _ H1 H2)].
    + pose proof (dr_next _ _ _ HD _ _ H1). destruct (C6 (dr_all _ _ _ HD) _ _ H2). lia.
    + pose proof (dr_next _ _ _ HD _ _ H2). destruct (C6 (dr_all _ _ _ HD) _ _ H1). lia.
  - intros id ref [H1|H1]%elem_of_app; [|by apply (C6 (dr_all _ _ _ HD) _ _ H1)]. pose proof (dr_next _ _ _ HD _ _ H1).
    lia.
  - by apply C8, HD.
  - rewrite fmap_app. exact C2.
  - apply HD.
Qed.

(** ** The other steps *)

Lemma dur_freeze db A log cutAt : dur db A log -> dur (with_head (Freeze cutAt (db_head db)) db) A log.
Proof.
  intros HD. assert (Hb : h_byID (Freeze cutAt (db_head db)) = h_byID (db_head db) /\ h_nextID (Freeze cutAt (db_head db)) = h_nextID (db_head db)
    /\ h_wal (Freeze cutAt (db_head db)) = h_wal (db_head db) /\ h_minValid (db_head db) <= h_minValid (Freeze cutAt (db_head db))).
  { unfold Freeze. destruct (Z.ltb_spec (h_minValid (db_head db)) cutAt); cbn; split_and!; done || lia. }
  destruct Hb as (H1 & H2 & H3 & H4). apply (dur_head db A); try done; [pose proof (dr_bound _ _ _ HD); lia|apply HD|]. intros id ms Hid. rewrite H1 in Hid. eauto.
Qed.

Lemma cut_write_sources db A cutAt id io b : db_inv db (Frozen cutAt) A -> cut_write cutAt id io (db_head db) = Ok b -> cut_fits cutAt id io (db_head db) ->
  bm_ULID (blk_meta b) = id /\ bm_Sources (blk_meta b) = [].
Proof. intros HI Hw Hf. destruct (cut_write_spec _ _ _ _ _ _ HI Hw Hf) as (series & _ & Hm & _). split; apply Hm. Qed.

Lemma blocks_ok db p A : db_inv db p A -> Forall block_ok (db_blocks db).
Proof. intros HI. apply (history_tidy _ _ (minblocks db) (di_history _ _ _ HI)). Qed.

Lemma publish_mem b db x : x ∈ db_blocks (publish b db) <-> x ∈ db_blocks db \/ x = b.
Proof. unfold publish, sortBlocks. cbn [with_blocks db_blocks]. by rewrite merge_sort_Permutation, elem_of_app, list_elem_of_singleton. Qed.

Lemma elem_of_ids i bs : i ∈ ids bs <-> exists b, b ∈ bs /\ i = bm_ULID (blk_meta b).
Proof. unfold ids. rewrite list_elem_of_fmap. naive_solver. Qed.
Lemma elem_of_sources i bs : i ∈ sources bs <-> exists b, b ∈ bs /\ i ∈ bm_Sources (blk_meta b).
Proof. unfold sources. rewrite list_elem_of_bind. naive_solver. Qed.

Lemma dur_publish db A log cutAt id io b : db_inv db (Frozen cutAt) A -> dur db A log -> cut_write cutAt id io (db_head db) = Ok b ->
  cut_fits cutAt id io (db_head db) -> fresh_id id (db_blocks db) -> dur (publish b db) A log.
Proof.
  intros HI HD Hw Hf [Hid Hsrc]. destruct (publish_step _ _ _ _ _ _ HI Hw Hf (conj Hid Hsrc)) as [HI' _].
  pose proof HI' as [_ _ _ _ _ _ (_ & Hmv & Hbel & _)]. destruct (cut_write_sources _ _ _ _ _ _ HI Hw Hf) as [Eid Esrc].
  pose proof (blocks_ok _ _ _ HI) as Hok. pose proof (blocks_ok _ _ _ HI') as Hok'.
  assert (HR : bound (db_blocks db) <= bound (db_blocks (publish b db))).
  { apply bound_mono; [done|done|]. intros x Hx. exists x. split; [apply publish_mem; by left|lia]. }
  assert (HR' : bound (db_blocks (publish b db)) <= h_minValid (db_head db)).
  { destruct (bound_spec _ Hok') as [_ [[E _]|(x & Hx & ->)]]; [|specialize (Hbel x Hx); cbn [publish with_blocks db_head] in Hmv; lia].
    exfalso. apply (not_elem_of_nil b). rewrite <- E. apply publish_mem. by right. }
  destruct HD as [D1 D2 D3 D4 D5 D6 D7 D8 D9 D10]. split; try done.
  - by eapply tracks_raise.
  - by eapply own_raise.
  - intros i ms Hi Hl. rewrite (names_bound _ (bound (db_blocks db))). by apply D7.
  - intros i Hi Hs. apply elem_of_ids in Hi as (x & Hx & ->). apply elem_of_sources in Hs as (y & Hy & Hs). apply publish_mem in Hx as [Hx| ->], Hy as [Hy| ->].
    + apply (D10 (bm_ULID (blk_meta x))); [apply elem_of_ids; eauto|apply elem_of_sources; eauto].
    + rewrite Esrc in Hs. by apply not_elem_of_nil in Hs.
    + apply Hsrc. rewrite <- Eid. apply elem_of_sources. eauto.
    + rewrite Esrc in Hs. by apply not_elem_of_nil in Hs.
Qed.

Lemma truncate_series_kept mint l : forall (st : Head WAL * Z * Z) id ms, h_byID (foldl (truncate_one mint) st l).1.1 !! id = Some ms ->
  exists ms0, h_byID st.1.1 !! id = Some ms0 /\ ms_ref ms = ms_ref ms0 /\ ms_logged ms = ms_logged ms0.
Proof.
  induction l as [|i l IH]; intros st id ms H; cbn [foldl] in H; [eauto|]. apply IH in H as (ms1 & H1 & -> & ->). clear IH. destruct st as [[h ds] dc]. unfold truncate_one in H1. cbn [fst].
  destruct (h_byID h !! i) as [ms0|] eqn:E; [|eauto].
  assert (Hon : forall ms', h_byID (on_series i (truncate_series mint) h) !! id = Some ms' -> exists ms0, h_byID h !! id = Some ms0 /\ ms_ref ms' = ms_ref ms0 /\ ms_logged ms' = ms_logged ms0).
  { intros ms' H. cbn in H. destruct (decide (id = i)) as [->|]; [rewrite lookup_alter_eq, E in H; injection H as <-; eauto|]. rewrite lookup_alter_ne in H by done. eauto. }
  destruct (ms_chunks (truncate_series mint ms0)); cbn [fst] in H1; [|by apply Hon]. apply Hon. exact (lookup_weaken _ _ _ _ H1 (forget_sub i (ms_ref ms0) _)).
Qed.

Lemma truncate_frame mint l : forall (st : Head WAL * Z * Z), h_nextID (foldl (truncate_one mint) st l).1.1 = h_nextID st.1.1.
Proof.
  induction l as [|i l IH]; intros st; cbn [foldl]; [done|]. rewrite IH. destruct st as [[h ds] dc]. unfold truncate_one. destruct (h_byID h !! i) as [ms0|]; [|done].
  destruct (ms_chunks (truncate_series mint ms0)); cbn [fst]; [unfold forget; by repeat case_match|done].
Qed.

Lemma filter_both {X} (P Q : X -> Prop) `{!forall x, Decision (P x), !forall x, Decision (Q x)} (l : list X) : (forall x, x ∈ l -> P x -> Q x) -> filter P (filter Q l) = filter P l.
Proof.
  intros Hpq. induction l as [|x l IH]; [done|]. assert (IH' := IH (fun y Hy => Hpq y (list_elem_of_further _ _ _ Hy))). rewrite !filter_cons.
  destruct (decide (Q x)) as [HQ|HQ]; [rewrite filter_cons; destruct (decide (P x)); by rewrite ?IH'|]. destruct (decide (P x)) as [HP|]; [|done]. destruct HQ. apply Hpq; [by left|done].
Qed.

Lemma dur_truncate db A log cutAt : db_inv db (Published cutAt) A -> dur db A log -> dur (truncate_head cutAt db) (cut_store cutAt A) log.
Proof.
  intros HI HD. pose proof HI as [J1 _ _ _ _ J6 (((k & Hk) & Hlo) & Hm & Hbel & Hin & _)].
  assert (Hlive : forall key ref ss s, A !! key = Some (ref, ss) -> s ∈ ss -> bound (db_blocks db) <= s.1 -> cutAt <= s.1).
  { intros key ref ss [t v] HA Hs HR. cbn in *. destruct (Z.le_gt_cases cutAt t) as [|Hlt]; [done|]. exfalso.
    assert (Hst : in_store A ref t v) by (destruct (hi_shard_run _ _ _ _ _ J1 HA) as (<- & _); by exists ss).
    destruct (Hin ref t v Hst Hlt) as (b & Hb & Hi). rewrite Forall_forall in J6. pose proof (in_block_span _ _ _ _ (serving_sound _ (J6 b Hb)) Hi).
    pose proof (proj1 (bound_spec _ (blocks_ok _ _ _ HI)) b Hb). lia. }
  pose proof (HeadTruncate_spec (db_head db) A k J1) as Ht. rewrite <- Hk in Ht. unfold truncate_head.
  pose proof (truncate_series_kept cutAt (map_to_list (h_byID (db_head db))).*1 (with_minValid cutAt (db_head db), 0, 0)) as Hser.
  pose proof (truncate_frame cutAt (map_to_list (h_byID (db_head db))).*1 (with_minValid cutAt (db_head db), 0, 0)) as Hnx.
  unfold HeadTruncate in *. destruct (foldl _ _ _) as [[h' ds] dc]. cbn [fst] in *. destruct Ht as (_ & _ & Hv & _ & _ & Hw).
  apply (dur_head db A); try done.
  - rewrite Hv. destruct (bound_spec _ (blocks_ok _ _ _ HI)) as [_ [[_ ->]|(x & Hx & ->)]]; [lia|specialize (Hbel x Hx); lia].
  - intros key. pose proof (dr_tracks _ _ _ HD key) as Htk. unfold cut_store. rewrite lookup_omap. destruct (A !! key) as [[ref ss]|] eqn:EA; [|exact Htk]. cbn. unfold cut_entry. cbn [fst snd].
    assert (Hfl : filter (fun s => bound (db_blocks db) <= s.1) (filter (fun s => cutAt <= s.1) ss) = filter (fun s => bound (db_blocks db) <= s.1) ss).
    { apply filter_both. intros s Hs. by apply (Hlive key ref ss). }
    destruct (filter (fun s => cutAt <= s.1) ss) as [|s l] eqn:Ef; [right; exists ref|]; rewrite Htk, <- Hfl; done.
Qed.

(** *** The log *)

Lemma filter_records (P : Record_ -> bool) (log : list entry) : filter (fun x => P x = true) (record_of <$> log) = record_of <$> filter (fun e => P (record_of e) = true) log.
Proof.
  induction log as [|e log IH]; [done|]. rewrite fmap_cons, !filter_cons. destruct (decide (P (record_of e) = true)); [rewrite fmap_cons|]; by rewrite IH.
Qed.

Lemma dur_log db A log cutAt : db_inv db (Truncated cutAt) A -> dur db A log -> exists log', dur (with_head (truncateLog (db_head db)).1 db) A log'.
Proof.
  intros HI HD. pose proof HI as [J1 _ _ _ _ _ (_ & _ & Hge)]. destruct (dr_wal _ _ _ HD) as (w & Hw & Hlog). unfold truncateLog. rewrite Hw.
  set (keep := keepForCheckpoint (h_minValid (db_head db))). set (R := bound (db_blocks db)).
  destruct (logging_truncate w _ keep Hlog) as (ops & l1 & l2 & -> & El & Hl). apply fmap_app_inv in El as (log1 & log2 & -> & -> & ->).
  cbn [fst]. set (w' := MkWAL _ _ _ _ _ _ _ _). change (at_dir (foldl apply_op (w_dir w) ops) w) with w' in Hl.
  assert (Hsame : forall log', logging w' (record_of <$> log') -> log_meaning R log' = log_meaning R (log1 ++ log2) -> (forall e, e ∈ log' -> e ∈ log1 ++ log2) ->
    dur (with_head (with_wal (Some w') (db_head db)) db) A log').
  { intros log' Hw' Em Hsub. destruct HD as [D1 D2 D3 D4 D5 D6 D7 D8 D9 D10]. fold R in D1, D2, D3, D7. split; cbn [with_head with_wal db_head db_blocks h_minValid h_nextID h_wal h_byID]; fold R; rewrite ?Em; try done.
    - rewrite Forall_forall in D4. apply Forall_forall. intros e He. by apply D4, Hsub.
    - intros id r r' H1 H2. by apply (D5 id); apply Hsub.
    - intros id r H1. by apply (D6 id r), Hsub.
    - by exists w'. }
  destruct Hl as [Hl|Hl]; [exists (log1 ++ log2); by apply Hsame|]. exists (filter (fun e => keep (record_of e) = true) log1 ++ log2).
  apply Hsame.
  - by rewrite fmap_app, <- filter_records.
  - unfold log_meaning. pose proof (dr_ok _ _ _ HD) as Hok. apply Forall_app in Hok as [Hok _]. apply (checkpoint_same R (h_minValid (db_head db)) log1 Hok).
    fold (log_meaning R (log1 ++ log2)). intros key ref ss [t v] HB Hs HR. pose proof (dr_tracks _ _ _ HD key) as Htk. fold R in Htk. destruct (A !! key) as [[r l]|] eqn:EA.
    + rewrite HB in Htk. injection Htk as -> ->. apply list_elem_of_filter in Hs as [_ Hs]. destruct (hi_shard_run _ _ _ _ _ J1 EA) as (<- & _). apply (Hge r t v). by exists l.
    + destruct Htk as [E|[r E]]; rewrite HB in E; [done|]. injection E as _ ->. by apply not_elem_of_nil in Hs.
  - intros e [He|He]%elem_of_app; apply elem_of_app; [left|by right]. by apply list_elem_of_filter in He as [_ He].
Qed.

(** *** Compaction *)

Lemma compact_result db A id io db' r : db_inv db Idle A -> DbCompact id io db = (db', r) -> compact_fits id io db -> fresh_id id (db_blocks db) ->
  db' = db \/ exists plan b, Next_ (db_blocks db) (copts db) = Some plan /\ db' = with_blocks (swap plan b (db_blocks db)) db
    /\ bm_ULID (blk_meta b) = id /\ bm_Sources (blk_meta b) = ids (p_Sources plan).
Proof.
  intros HI H Hfit Hid. unfold DbCompact in H. unfold compact_fits in Hfit. fold (copts db) in H, Hfit.
  destruct (Next_ (db_blocks db) _) as [plan|] eqn:En; [|injection H as <- _; by left]. specialize (Hfit plan).
  assert (Hsound : Forall block_sound (db_blocks db)) by (eapply Forall_impl; [exact (di_blocks _ _ _ HI)|]; apply serving_sound).
  destruct (compaction_spec (copts db) (db_blocks db) plan id io (minblocks db) (di_history _ _ _ HI) En Hsound (proj1 Hid)) as (w & res & Em & _ & Hpub).
  rewrite Em in H. destruct res as [m|e]; [|injection H as <- _; by left]. destruct (bw_published w) as [f|] eqn:Ep; [|injection H as <- _; by left].
  destruct (Hpub f eq_refl (Hfit w m f eq_refl Em Ep)) as (b & Ho & _ & Hi & Hs & _). rewrite Ho in H. injection H as <- _. right. eauto 10.
Qed.

Lemma swap_mem plan b bs x : x ∈ swap plan b bs <-> (x ∈ bs /\ bm_ULID (blk_meta x) ∉ ids (p_Sources plan)) \/ x = b.
Proof.
  unfold swap, sortBlocks. rewrite merge_sort_Permutation, elem_of_app, list_elem_of_singleton, list_elem_of_filter.
  assert (E : is_source plan x = false <-> bm_ULID (blk_meta x) ∉ ids (p_Sources plan)); [|rewrite E; naive_solver].
  unfold is_source. cbn [b_Meta Block_Reader]. rewrite <- not_true_iff_false, List.existsb_exists, elem_of_ids. split; intros Hno Hex; apply Hno.
  - destruct Hex as (y & Hy & E). exists y. split; [by apply list_elem_of_In|]. by apply Z.eqb_eq.
  - destruct Hex as (y & Hy & E). exists y. split; [by apply list_elem_of_In|]. by apply Z.eqb_eq in E.
Qed.

Lemma dur_compact db A log id io db' r : db_inv db Idle A -> dur db A log -> DbCompact id io db = (db', r) -> compact_fits id io db ->
  fresh_id id (db_blocks db) -> dur db' A log.
Proof.
  intros HI HD H Hfit Hid. destruct (compact_step _ _ _ _ _ _ HI H Hfit Hid) as (HI' & [_ Hfwd] & Hback).
  destruct (compact_result _ _ _ _ _ _ HI H Hfit Hid) as [->|(plan & b & En & -> & Eid & Esrc)]; [done|].
  pose proof (blocks_ok _ _ _ HI) as Hok. pose proof (blocks_ok _ _ _ HI') as Hok'. pose proof (di_blocks _ _ _ HI) as Hs. pose proof (di_blocks _ _ _ HI') as Hs'.
  rewrite Forall_forall in Hs. rewrite Forall_forall in Hs'.
  assert (Hends : forall l l', (forall x, x ∈ l -> serving x) -> (forall x, x ∈ l' -> serving x) -> (forall ref t v, in_blocks l ref t v -> in_blocks l' ref t v) ->
    forall x, x ∈ l -> exists x', x' ∈ l' /\ bm_MaxTime (blk_meta x) <= bm_MaxTime (blk_meta x')).
  { intros l l' Hl Hl' Hin x Hx. destruct (block_ends x (serving_sound _ (Hl x Hx))) as (_ & _ & r2 & v2 & _ & H2).
    destruct (Hin r2 (bm_MaxTime (blk_meta x)) v2) as (y & Hy & Hyi); [by exists x|]. exists y. split; [done|].
    by pose proof (in_block_span _ _ _ _ (serving_sound _ (Hl' y Hy)) Hyi) as [_ ?]. }
  assert (HR : bound (db_blocks (with_blocks (swap plan b (db_blocks db)) db)) = bound (db_blocks db)).
  { apply Z.le_antisymm; apply bound_mono; try done; eapply Hends; eauto. }
  destruct HD as [D1 D2 D3 D4 D5 D6 D7 D8 D9 D10]. split; rewrite ?HR; try done. cbn [with_blocks db_blocks]. intros i Hi Hsrc.
  apply elem_of_ids in Hi as (x & Hx & ->). apply elem_of_sources in Hsrc as (y & Hy & Hin). apply swap_mem in Hx as [[Hx Hnx]| ->], Hy as [[Hy Hny]| ->].
  - apply (D10 (bm_ULID (blk_meta x))); [apply elem_of_ids; eauto|apply elem_of_sources; eauto].
  - by rewrite Esrc in Hin.
  - destruct Hid as [_ Hns]. apply Hns. rewrite <- Eid. apply elem_of_sources. eauto.
  - rewrite Esrc in Hin. destruct Hid as [Hni _]. apply Hni. rewrite <- Eid. apply elem_of_ids in Hin as (z & Hz & ->). apply elem_of_ids. exists z. split; [|done].
    destruct (Next_tidy _ _ _ (minblocks db) (history_tidy _ _ (minblocks db) (di_history _ _ _ HI)) En) as (? & ? & ? & ? & ? & Hpl).
    apply planned_sub in Hpl. by eapply sublist_subseteq.
Qed.

(** ** Every step *)

Lemma dur_step s s' A log : db_inv s.1 s.2 A -> dur s.1 A log -> db_step true s s' -> exists A' log', db_inv s'.1 s'.2 A' /\ dur s'.1 A' log'.
Proof.
  intros HI HD Hs. destruct (db_step_inv _ _ _ _ HI Hs) as (A' & HI' & _). exists A'.
  assert (Hsame : forall X, db_inv s'.1 s'.2 X -> dur s'.1 X log -> exists log', db_inv s'.1 s'.2 A' /\ dur s'.1 A' log').
  { intros X HX HDX. exists log. split; [done|]. by rewrite (head_inv_unique _ _ _ (di_head _ _ _ HI') (di_head _ _ _ HX)). }
  destruct Hs as [ctx batch db db' r p Hg H Hl|now cutAt db H|cutAt id io db e H|cutAt id io db b H Hf Hid|cutAt db|cutAt db|id io db db' r H Hf Hid]; cbn [fst snd] in *.
  - destruct (dur_append _ _ _ _ _ _ _ _ _ HI HD Hg H (Hl eq_refl) HI') as [log' HD']. eauto.
  - apply (Hsame A); [by apply (freeze_step now)|by apply dur_freeze].
  - apply (Hsame A); [|done]. destruct HI as [J1 J2 J3 J4 J5 J6 (_ & _ & _ & Hc)]. by split.
  - apply (Hsame A); [by eapply publish_step|by eapply dur_publish].
  - apply (Hsame (cut_store cutAt A)); [by apply truncate_step|by apply dur_truncate].
  - destruct (dur_log db A log cutAt HI HD) as [log' HD']. exists log'. split; [done|].
    rewrite (head_inv_unique _ _ _ (di_head _ _ _ HI') (di_head _ _ _ (proj1 (log_step _ _ _ HI)))). done.
  - apply (Hsame A); [by destruct (compact_step _ _ _ _ _ _ HI H Hf Hid)|by eapply dur_compact].
Qed.

(** ** Opening the directory *)

(** What the directory may hold besides the blocks in use: blocks that one of them
    was merged from and whose deletion was interrupted. *)
Definition leftover (left used : list Block) : Prop := forall x, x ∈ left ->
  bm_ULID (blk_meta x) ∈ sources used /\ forall i, i ∈ ids used -> i ∉ bm_Sources (blk_meta x).

Definition on_disk (files : list block_files) (bs : list Block) : Prop :=
  exists all left, Forall2 (fun f b => BlockOpen f = Ok b) files all /\ all ≡ₚ bs ++ left /\ leftover left bs.

Lemma open_each_ok files bs : Forall2 (fun f b => BlockOpen f = Ok b) files bs -> open_each files = Ok bs.
Proof. induction 1 as [|f b files bs H _ IH]; [done|]. cbn [open_each]. by rewrite H, IH. Qed.

Lemma drop_leftovers R (bs left all : list Block) : tidy R bs -> (forall i, i ∈ ids bs -> i ∉ sources bs) -> all ≡ₚ bs ++ left -> leftover left bs ->
  dropSuperseded (sortBlocks all) = bs.
Proof.
  intros Ht Hs Hp Hl. assert (Hsp : sortBlocks all ≡ₚ bs ++ left) by (unfold sortBlocks; by rewrite merge_sort_Permutation).
  apply (sorted_tidy R); [done| |].
  - unfold dropSuperseded. set (sup := sortBlocks all ≫= _).
    assert (Hsup : forall i, i ∈ sup <-> i ∈ sources bs \/ i ∈ sources left).
    { intros i. unfold sup. rewrite Hsp, bind_app, elem_of_app. done. }
    rewrite Hsp, filter_app, (filter_all _ bs), (filter_none _ left), app_nil_r; [done| |].
    + intros x Hx Hni. apply Hni, Hsup. left. apply (Hl x Hx).
    + intros x Hx [Hi|Hi]%Hsup; [by apply (Hs (bm_ULID (blk_meta x))); [apply elem_of_ids; eauto|]|].
      apply elem_of_sources in Hi as (y & Hy & Hi). apply (proj2 (Hl y Hy) (bm_ULID (blk_meta x))); [apply elem_of_ids; eauto|done].
  - eapply sorted_sub; [apply sublist_filter|apply sortBlocks_sorted].
Qed.

Lemma truncate_empty (w : WAL) range max sync mint : (HeadTruncate mint (NewHead (Some w) range max sync)).1.1 = with_minValid mint (NewHead (Some w) range max sync).
Proof. done. Qed.

(** The store a replay builds: the part of the head's store above the bound. *)
Lemma tracks_in R B A ref t v : tracks R B A -> in_store B ref t v <-> in_store A ref t v /\ R <= t.
Proof.
  intros Ht. specialize (Ht (Key ref)). unfold in_store. destruct (A !! Key ref) as [[r l]|] eqn:EA.
  - rewrite Ht. split.
    + intros (ss & [= -> <-] & Hin). apply list_elem_of_filter in Hin as [H1 H2]. eauto.
    + intros [(ss & [= -> ->] & Hin) HR]. eexists. split; [done|]. by apply list_elem_of_filter.
  - split; [|intros [(ss & [=] & _) _]]. intros (ss & H & Hin). destruct Ht as [E|[r E]]; rewrite E in H; [done|]. injection H as _ <-. by apply not_elem_of_nil in Hin.
Qed.

(** Below the bound, what the head holds is in the blocks. *)
Lemma below_bound db p A ref t v : db_inv db p A -> in_store A ref t v -> t < bound (db_blocks db) -> in_blocks (db_blocks db) ref t v.
Proof.
  intros HI Hst Hlt. destruct (bound_spec _ (blocks_ok _ _ _ HI)) as [_ Hb]. pose proof (di_times _ _ _ HI _ _ _ Hst) as Htm.
  assert (Hno : forall c, (forall b, b ∈ db_blocks db -> bm_MaxTime (blk_meta b) < c) -> c <= t -> in_blocks (db_blocks db) ref t v).
  { intros c Hbel Hc. exfalso. destruct Hb as [[_ E]|(b & Hin & E)]; [lia|]. specialize (Hbel b Hin). lia. }
  destruct p as [|cutAt|cutAt|cutAt]; pose proof (di_cut _ _ _ HI) as Hc; cbn [cut_inv] in Hc.
  - destruct Hc as (c & _ & Hbel & Hge). by apply (Hno c Hbel), (Hge ref t v).
  - destruct Hc as (_ & _ & _ & c & _ & Hbel & Hge). by apply (Hno c Hbel), (Hge ref t v).
  - destruct Hc as (_ & _ & Hbel & Hin & _). apply Hin; [done|]. destruct Hb as [[_ E]|(b & Hb & E)]; [lia|]. specialize (Hbel b Hb). lia.
  - destruct Hc as (Hbel & Hm & Hge). apply (Hno cutAt Hbel). specialize (Hge _ _ _ Hst). lia.
Qed.

Lemma tracks_self R B A : tracks R B A -> tracks R B B.
Proof.
  intros Ht key. pose proof (Ht key) as Hk. destruct (A !! key) as [[r l]|].
  - rewrite Hk. by rewrite list_filter_filter_r by done.
  - destruct Hk as [->|[ref E]]; [by left|]. rewrite E. done.
Qed.

(** The head startup begins with. *)
Lemma startup_head (w : WAL) range max sync bs : Forall block_ok bs ->
  let h0 := match blocksMaxTime bs with
            | Some maxT => (HeadTruncate (int64 (maxT + 1)) (NewHead (Some w) range max sync)).1.1
            | None => NewHead (Some w) range max sync
            end in
  head_inv h0 ∅ /\ h_minValid h0 = bound bs /\ restored h0 [] h0 /\ h_wal h0 = Some w /\ h_BlockRange h0 = h_BlockRange (NewHead (Some w) range max sync).
Proof.
  intros Hok. assert (Hre : forall h0, h_byID h0 = ∅ -> restored h0 [] h0).
  { intros h0 E. split; [|intros id ref Hin; by apply not_elem_of_nil in Hin|apply same_opts_refl|done]. intros id ms Hid. by rewrite E, lookup_empty in Hid. }
  pose proof (bound_spec bs Hok) as [_ Hb]. unfold bound in *. destruct (blocksMaxTime bs) as [maxT|]; cbn zeta; [|split_and!; [apply NewHead_inv|done|by apply Hre|done|done]].
  rewrite truncate_empty. split_and!; [by eapply head_inv_same; [apply (NewHead_inv (Some w) range max sync)|..]| |by apply Hre|done|done].
  cbn [with_minValid h_minValid]. apply int64_id. unfold is_i64. destruct Hb as [[_ E]|(b & Hb & E)]; [lia|]. rewrite Forall_forall in Hok.
  pose proof (bo_span _ (Hok b Hb)) as H1. pose proof (bo_lo _ (Hok b Hb)) as H2. pose proof (bo_hi _ (Hok b Hb)) as H3. cbn [b_Meta Block_Reader] in *. lia.
Qed.

Lemma restart_inv db p A log w files max sync sz deleted script db' : db_inv db p A -> dur db A log -> h_wal (db_head db) = Some w ->
  on_disk files (db_blocks db) -> DbOpen (db_opts db) max sync sz files deleted (w_dir w) script = Ok db' ->
  exists A', db_inv db' Idle A' /\ dur db' A' log /\ db_blocks db' = db_blocks db /\ forall ref t v, stored db' ref t v <-> stored db ref t v.
Proof.
  intros HI HD Hw (all & left & Hfiles & Hp & Hl) Ho. destruct (dr_wal _ _ _ HD) as (w0 & Hw0 & Hlog). rewrite Hw in Hw0. injection Hw0 as <-.
  pose proof (blocks_ok _ _ _ HI) as Hok. set (R := bound (db_blocks db)). unfold DbOpen, OpenAll in Ho. rewrite (open_each_ok _ _ Hfiles) in Ho.
  rewrite (drop_leftovers _ _ _ _ (history_tidy _ _ (minblocks db) (di_history _ _ _ HI)) (dr_super _ _ _ HD) Hp Hl) in Ho.
  destruct (_ && _); [done|]. destruct (Repair (w_dir w)) as [[d cut]|e] eqn:Er; [|done]. destruct (Open d sz script) as [w' [[]|e]] eqn:Eo; [|done].
  pose proof (logging_open w _ Hlog _ _ _ _ _ Er Eo) as Hlog'. destruct (logging_replay _ _ Hlog') as (r & Hr & He).
  pose proof (startup_head w' (Milliseconds (do_BlockRange (db_opts db))) max sync (db_blocks db) Hok) as Hst. cbn zeta in Hst.
  set (h0 := match blocksMaxTime (db_blocks db) with Some _ => _ | None => _ end) in *. destruct Hst as (S1 & S2 & S3 & S4 & S5). fold R in S2.
  unfold Replay in Ho. rewrite Hr, S2 in Ho. destruct (replay_records_spec R log _ _ (replayed_start h0 S1) (dr_ok _ _ _ HD)) as (st & Est & Hst & Emv).
  destruct (replay_restored h0 R log [] (MkReplaying h0 ∅ 0 0) (∅, ∅) (replayed_start h0 S1) S3 (dr_ok _ _ _ HD) (dr_unique _ _ _ HD)) as (st' & Est' & Hre).
  rewrite Est in Est'. injection Est' as <-. cbn [app] in Hre. rewrite Est, He in Ho. injection Ho as <-. cbn [rp_head] in Emv. rewrite S2 in Emv. fold (log_meaning R log) in Hst.
  set (B := (log_meaning R log).2) in *. pose proof (dr_tracks _ _ _ HD) as Htk. fold R B in Htk. pose proof (rd_inv _ _ Hst) as HB. fold B in HB.
  assert (Hin : forall ref t v, in_store B ref t v <-> in_store A ref t v /\ R <= t) by (intros; by apply tracks_in).
  destruct (bound_spec _ Hok) as [Hmax _]. fold R in Hmax. destruct Hre as [R1 R2 R3 R4].
  assert (HI' : db_inv (MkDB (db_opts db) (rp_head st) (db_blocks db)) Idle B).
  { destruct HI as [J1 [J2 J2'] J3 J4 J5 J6 J7]. split; cbn [db_head db_blocks db_opts]; try done.
    - split; [|done]. rewrite (so_range _ _ R3), S5. unfold rangeMs. cbn [db_opts NewHead h_BlockRange]. fold (rangeMs db). rewrite <- J2. pose proof (hi_range _ _ J1).
      by rewrite (proj2 (Z.leb_gt _ _)) by lia.
    - intros key ref ss H. by apply (dr_own _ _ _ HD key ref ss).
    - intros ref t v [H _]%Hin. by eapply J4.
    - exists R. cbn [db_head db_blocks]. split; [lia|]. split; [done|]. by intros ref t v [_ H]%Hin. }
  exists B. split; [done|]. split; [|split; [done|]].
  - destruct HD as [D1 D2 D3 D4 D5 D6 D7 D8 D9 D10]. split; cbn [db_head db_blocks]; fold R; fold B; try done.
    + lia.
    + by eapply tracks_self.
    + intros id ms Hid _. destruct (R1 id ms Hid) as [H1 _]. by apply names_of.
    + intros id ms Hid. by apply (R1 id ms).
    + exists w'. split; [by rewrite R4|done].
  - intros ref t v. unfold stored. cbn [db_head db_blocks]. rewrite (in_head_store _ _ _ _ _ (di_head _ _ _ HI')), Hin, (in_head_store _ _ _ _ _ (di_head _ _ _ HI)).
    split; [naive_solver|]. intros [H|H]; [|by right]. destruct (Z.le_gt_cases R t) as [|Hlt]; [by left|right]. by eapply below_bound.
Qed.

(** After a compaction, any of the merged blocks may still be on disk. *)
Lemma compact_leftover db A log plan b left : db_inv db Idle A -> dur db A log -> Next_ (db_blocks db) (copts db) = Some plan ->
  bm_Sources (blk_meta b) = ids (p_Sources plan) -> fresh_id (bm_ULID (blk_meta b)) (db_blocks db) ->
  (forall x, x ∈ left -> x ∈ p_Sources plan) -> leftover left (swap plan b (db_blocks db)).
Proof.
  intros HI HD En Es [_ Hf] Hl x Hx. specialize (Hl x Hx).
  destruct (Next_tidy _ _ _ (minblocks db) (history_tidy _ _ (minblocks db) (di_history _ _ _ HI)) En) as (? & ? & ? & ? & ? & Hpl).
  apply planned_sub, sublist_subseteq in Hpl. split.
  - apply elem_of_sources. exists b. split; [apply swap_mem; by right|]. rewrite Es. apply elem_of_ids. eauto.
  - intros i Hi Hin. assert (Hsrc : i ∈ sources (db_blocks db)) by (apply elem_of_sources; exists x; split; [by apply Hpl|done]).
    apply elem_of_ids in Hi as (y & Hy & ->). apply swap_mem in Hy as [[Hy _]| ->]; [|done].
    apply (dr_super _ _ _ HD (bm_ULID (blk_meta y))); [apply elem_of_ids; eauto|done].
Qed.

(** *** Startup succeeds unless a system call fails *)

Definition quiet (script : list io) : Prop := Forall (eq IoOk) script.

Lemma syscall_quiet w : quiet (w_script w) -> exists s, quiet s /\ syscall w = (with_script s w, Ok IoOk).
Proof.
  intros H. unfold syscall. destruct (w_script w) as [|o rest] eqn:E.
  - exists []. split; [constructor|]. rewrite <- E. by destruct w.
  - apply Forall_cons in H as [<- H]. exists rest. by destruct w.
Qed.

Lemma openSegment_quiet n w : quiet (w_script w) -> exists w', openSegment n w = (w', Ok tt).
Proof.
  intros H. unfold openSegment. destruct (syscall_quiet w H) as (s & H1 & E). rewrite (bind_ok _ _ _ _ _ E). set (w1 := with_script s w).
  rewrite (bind_ok get _ w1 w1 w1) by done. set (w2 := with_dir (set_file (w_dir w1) (Seg n) (default [] (d_segs (w_dir w1) !! n))) w1). rewrite (bind_ok _ _ w1 w2 tt) by done.
  destruct (syscall_quiet w2 H1) as (s2 & H2 & E2). rewrite (bind_ok _ _ _ _ _ E2). destruct (_ =? 0).
  - destruct (syscall_quiet (with_script s2 w2) H2) as (s3 & H3 & E3). rewrite (bind_ok _ _ _ _ _ E3). by eexists.
  - rewrite (bind_ok _ _ _ (with_script s2 w2) IoOk) by done. by eexists.
Qed.

Lemma startup_total db p A log w files max sync sz script : db_inv db p A -> dur db A log -> h_wal (db_head db) = Some w ->
  on_disk files (db_blocks db) -> quiet script -> exists db', DbOpen (db_opts db) max sync sz files true (w_dir w) script = Ok db'.
Proof.
  intros HI HD Hw (all & left & Hfiles & Hp & Hl) Hq. destruct (dr_wal _ _ _ HD) as (w0 & Hw0 & Hlog). rewrite Hw in Hw0. injection Hw0 as <-.
  unfold DbOpen, OpenAll. rewrite (open_each_ok _ _ Hfiles), andb_false_r.
  rewrite (drop_leftovers _ _ _ _ (history_tidy _ _ (minblocks db) (di_history _ _ _ HI)) (dr_super _ _ _ HD) Hp Hl).
  destruct (logging_repair _ _ Hlog) as (d & cut & Er). rewrite Er.
  destruct (openSegment_quiet (default 0%nat (last (listNumbered (d_segs d)))) (MkWAL d (if sz <=? 0 then DefaultSegmentSize else sz) false 0 0 false false script) Hq) as [w' Eo].
  change (Open d sz script = (w', Ok tt)) in Eo. rewrite Eo. pose proof (logging_open w _ Hlog _ _ _ _ _ Er Eo) as Hlog'. destruct (logging_replay _ _ Hlog') as (r & Hr & He).
  pose proof (startup_head w' (Milliseconds (do_BlockRange (db_opts db))) max sync (db_blocks db) (blocks_ok _ _ _ HI)) as Hst. cbn zeta in Hst.
  set (h0 := match blocksMaxTime (db_blocks db) with Some _ => _ | None => _ end) in *. destruct Hst as (S1 & S2 & _).
  unfold Replay. rewrite Hr. destruct (replay_records_spec (h_minValid h0) (log) _ _ (replayed_start h0 S1) (dr_ok _ _ _ HD)) as (st & Est & _).
  rewrite Est, He. by eexists.
Qed.

(** ** Runs with restarts *)

(** A step, or a restart at any point: the process stops, between two steps of a cut
    as well, and the directory is opened again. *)
Inductive run_step : DB * phase -> DB * phase -> Prop :=
| run_works s s' : db_step true s s' -> run_step s s'
| run_restarts db p w files max sync sz deleted script db' : h_wal (db_head db) = Some w -> on_disk files (db_blocks db) ->
    DbOpen (db_opts db) max sync sz files deleted (w_dir w) script = Ok db' -> run_step (db, p) (db', Idle).

Definition lasting (db db' : DB) : Prop := forall ref t v, stored db ref t v -> stored db' ref t v.

Definition durable (s : DB * phase) : Prop := exists A log, db_inv s.1 s.2 A /\ dur s.1 A log.

Lemma run_step_durable s s' : durable s -> run_step s s' -> durable s' /\ lasting s.1 s'.1.
Proof.
  intros (A & log & HI & HD) Hrun. destruct Hrun as [s s' Hs|db p w files max sync sz deleted script db' Hw Hf Ho].
  - destruct (dur_step _ _ _ _ HI HD Hs) as (A' & log' & H). destruct (db_step_inv _ _ _ _ HI Hs) as (_ & _ & Hm).
    split; [by exists A', log'|]. intros ref t v. apply Hm.
  - destruct (restart_inv _ _ _ _ _ _ _ _ _ _ _ _ HI HD Hw Hf Ho) as (A' & HI' & HD' & _ & Hst). split; [by exists A', log|]. intros ref t v. apply Hst.
Qed.

Lemma run_durable s s' : rtc run_step s s' -> durable s -> durable s' /\ lasting s.1 s'.1.
Proof.
  induction 1 as [s|s1 s2 s3 H _ IH]; intros Hd; [by split; [|intros ref t v]|]. destruct (run_step_durable _ _ Hd H) as [Hd2 H12].
  destruct (IH Hd2) as [Hd3 H23]. split; [done|]. intros ref t v Hs. by apply H23, H12.
Qed.

(** A first start, on an empty directory. *)
Lemma logging_start sz script w : Open (MkDir ∅ ∅) sz script = (w, Ok tt) -> logging w [].
Proof.
  intros E. pose proof (Open_empty _ _ _ E) as Hi. unfold Open in E. apply openSegment_ok in E as (_ & Ho & Hseg & Hb & _); [|done].
  destruct (logging_inv _ _ _ _ Hi Ho Hb) as [rs Hw]. exists ∅, {[ 0%nat := [] ]}, rs. split_and!; [done|done|by rewrite contents_singleton|].
  intros k [x Hk]. by rewrite lookup_empty in Hk.
Qed.

Lemma initial_durable opts w max sync sz script : 0 < Milliseconds (do_BlockRange opts) < 2 ^ 62 -> Open (MkDir ∅ ∅) sz script = (w, Ok tt) ->
  durable (initial opts w max sync, Idle).
Proof.
  intros Hr Ho. exists ∅, []. split; [by apply initial_inv|]. split; cbn [fst initial db_blocks db_head NewHead h_minValid h_wal fmap list_fmap]; try done.
  - intros key. rewrite lookup_empty. by left.
  - intros id r r' H. by apply not_elem_of_nil in H.
  - intros id r H. by apply not_elem_of_nil in H.
  - exists w. split; [done|]. by eapply logging_start.
  - intros i H. by apply not_elem_of_nil in H.
Qed.


(** *** Example: a stop after a block is published and before the head is truncated *)

Definition ex_frozen : DB := with_head (Freeze 100 (db_head ex_db1)) ex_db1.

Lemma ex_db1_calm : run_step (ex_db0, Idle) (ex_db1, Idle).
Proof.
  apply run_works. eapply (ds_append _ None ex_batch ex_db0 _ (DbAppend None ex_batch ex_db0).2); [apply ex_batch_good|unfold ex_db1; apply surjective_pairing|].
  intros _. split; [|vm_compute; reflexivity].
  assert (E : (match (DbAppend None ex_batch ex_db0).2 with Ok _ => true | Err _ => false end) = true) by (vm_compute; reflexivity).
  destruct (DbAppend None ex_batch ex_db0).2 as [rep|e]; [by exists rep|discriminate E].
Qed.

Lemma ex_frozen_calm : run_step (ex_db1, Idle) (ex_frozen, Frozen 100).
Proof. apply run_works, (ds_freeze _ 250). vm_compute. reflexivity. Qed.

Lemma cut_write_files cutAt id io h b : cut_write cutAt id io h = Ok b -> exists f, BlockOpen f = Ok b.
Proof. unfold cut_write. intros Hc. repeat case_match; try discriminate Hc. injection Hc as <-. eauto. Qed.

Lemma ex_publish_calm b : cut_write 100 7 [] (db_head ex_frozen) = Ok b -> run_step (ex_frozen, Frozen 100) (publish b ex_frozen, Published 100).
Proof.
  intros Hb. destruct ex_cut_runs as [Hid Hfit]. apply run_works, (ds_publish _ 100 7 [] ex_frozen b Hb); [|exact Hid].
  apply Hfit. vm_compute. reflexivity.
Qed.

Lemma publish_wal b db : h_wal (db_head (publish b db)) = h_wal (db_head db).
Proof. done. Qed.
Lemma freeze_wal cutAt (h : Head WAL) : h_wal (Freeze cutAt h) = h_wal h.
Proof. unfold Freeze. by destruct (_ <? _). Qed.

Lemma on_disk_one f b db : BlockOpen f = Ok b -> db_blocks db = [] -> on_disk [f] (db_blocks (publish b db)).
Proof.
  intros Hf E. exists [b], []. split; [by constructor|]. split; [|intros x Hx; by apply not_elem_of_nil in Hx].
  unfold publish, sortBlocks. cbn [with_blocks db_blocks]. by rewrite E, app_nil_r, merge_sort_Permutation.
Qed.

