(* ===== verification/Utf8.v ===== *)
(** * UTF-8 and case

    Go strings are bytes; strings.ToLower walks them rune by rune, each byte that
    starts no valid encoding becoming the replacement character.  The table of the
    case mapping above ASCII is a parameter. *)

From Stdlib Require Import ZArith Lia.
From stdpp Require Import base list sets numbers.
From S2P Require Import Prelude Gostring.

Definition between (lo hi c : Z) : bool := (lo <=? c) && (c <=? hi).
Definition continuation (c : Z) : bool := between 128 191 c.

(** What follows a lead byte (utf8.DecodeRune's tables). *)
Definition rune2 (b0 b1 : Z) : bool := between 194 223 b0 && continuation b1.
Definition rune3 (b0 b1 b2 : Z) : bool :=
  ((b0 =? 224) && between 160 191 b1 || (b0 =? 237) && between 128 159 b1
   || (between 225 236 b0 || between 238 239 b0) && continuation b1) && continuation b2.
Definition rune4 (b0 b1 b2 b3 : Z) : bool :=
  ((b0 =? 240) && between 144 191 b1 || (b0 =? 244) && between 128 143 b1
   || between 241 243 b0 && continuation b1) && continuation b2 && continuation b3.

(** A string as its runes: the bytes of a valid encoding, or one byte that starts none. *)
Inductive rune := Valid_ (bytes : list Z) | Invalid (b : Z).

Fixpoint runes (s : gostring) : list rune :=
  match s with
  | [] => []
  | b0 :: s1 =>
      if between 0 127 b0 then Valid_ [b0] :: runes s1 else
      match s1 with
      | [] => [Invalid b0]
      | b1 :: s2 =>
          if rune2 b0 b1 then Valid_ [b0; b1] :: runes s2 else
          match s2 with
          | [] => Invalid b0 :: runes s1
          | b2 :: s3 =>
              if rune3 b0 b1 b2 then Valid_ [b0; b1; b2] :: runes s3 else
              match s3 with
              | [] => Invalid b0 :: runes s1
              | b3 :: s4 => if rune4 b0 b1 b2 b3 then Valid_ [b0; b1; b2; b3] :: runes s4 else Invalid b0 :: runes s1
              end
          end
      end
  end.

(** Every rune is an encoding. *)
Definition valid_utf8 (s : gostring) : bool := forallb (fun r => match r with Valid_ _ => true | Invalid _ => false end) (runes s).

Definition lower (c : Z) : Z := if between 65 90 c then c + 32 else c.
Definition isASCII (s : gostring) : bool := forallb (between 0 127) s.

(** ** Concatenation *)

(** No encoding spans a boundary before a byte that is no continuation. *)
Definition starts (s : gostring) : Prop := match s with [] => True | c :: _ => continuation c = false end.

Lemma rune2_cont b0 b1 : rune2 b0 b1 = true -> continuation b1 = true.
Proof. unfold rune2. intros H. by apply andb_true_iff in H as [_ ?]. Qed.
Lemma between_cont lo hi c : 128 <= lo -> hi <= 191 -> between lo hi c = true -> continuation c = true.
Proof. unfold continuation, between. intros H1 H2 H. apply andb_true_iff in H as [Ha Hb]. apply Z.leb_le in Ha, Hb. apply andb_true_iff. split; apply Z.leb_le; lia. Qed.
Lemma rune3_cont b0 b1 b2 : rune3 b0 b1 b2 = true -> continuation b1 = true /\ continuation b2 = true.
Proof.
  unfold rune3. rewrite !andb_true_iff, !orb_true_iff, !andb_true_iff. intros [H H2]. split; [|done].
  destruct H as [[[_ H]|[_ H]]|[_ H]]; [by eapply between_cont; [| |exact H]..|done].
Qed.
Lemma rune4_cont b0 b1 b2 b3 : rune4 b0 b1 b2 b3 = true -> continuation b1 = true /\ continuation b2 = true /\ continuation b3 = true.
Proof.
  unfold rune4. rewrite !andb_true_iff, !orb_true_iff, !andb_true_iff. intros [[H H2] H3]. split; [|done].
  destruct H as [[[_ H]|[_ H]]|[_ H]]; [by eapply between_cont; [| |exact H]..|done].
Qed.

Lemma no_rune b0 c : continuation c = false -> rune2 b0 c = false /\ (forall b2, rune3 b0 c b2 = false) /\ forall b2 b3, rune4 b0 c b2 b3 = false.
Proof.
  intros Hc. split_and!; intros; apply not_true_iff_false; intros H; [apply rune2_cont in H|apply rune3_cont in H as [H _]|apply rune4_cont in H as [H _]]; congruence.
Qed.
Lemma no_rune3 b0 b1 c : continuation c = false -> rune3 b0 b1 c = false /\ forall b3, rune4 b0 b1 c b3 = false.
Proof. intros Hc. split; intros; apply not_true_iff_false; intros H; [apply rune3_cont in H as [_ H]|apply rune4_cont in H as (_ & H & _)]; congruence. Qed.
Lemma no_rune4 b0 b1 b2 c : continuation c = false -> rune4 b0 b1 b2 c = false.
Proof. intros Hc. apply not_true_iff_false; intros H. apply rune4_cont in H as (_ & _ & H). congruence. Qed.

(** A rune that does not start at [b0] leaves the rest to its own runes. *)
Lemma runes_step b0 s1 : between 0 127 b0 = false -> runes (b0 :: s1) =
  match s1 with
  | b1 :: s2 => if rune2 b0 b1 then Valid_ [b0; b1] :: runes s2 else
      match s2 with
      | b2 :: s3 => if rune3 b0 b1 b2 then Valid_ [b0; b1; b2] :: runes s3 else
          match s3 with b3 :: s4 => if rune4 b0 b1 b2 b3 then Valid_ [b0; b1; b2; b3] :: runes s4 else Invalid b0 :: runes s1 | [] => Invalid b0 :: runes s1 end
      | [] => Invalid b0 :: runes s1
      end
  | [] => [Invalid b0]
  end.
Proof. intros H. cbn [runes]. by rewrite H. Qed.

Lemma runes_ascii b0 s1 : between 0 127 b0 = true -> runes (b0 :: s1) = Valid_ [b0] :: runes s1.
Proof. intros H. cbn [runes]. by rewrite H. Qed.

Lemma runes_app_start x a : starts a -> runes (x ++ a) = runes x ++ runes a.
Proof.
  intros Ha. remember (length x) as n eqn:En. revert x En. induction (lt_wf n) as [n _ IH]. intros x ->. destruct x as [|b0 x]; [done|].
  assert (IH1 : runes (x ++ a) = runes x ++ runes a) by (apply (IH (length x)); [cbn; lia|done]).
  destruct (between 0 127 b0) eqn:E0; [cbn [app]; rewrite !runes_ascii by done; by rewrite IH1|]. cbn [app]. rewrite !runes_step by done.
  destruct x as [|b1 x]; cbn [app].
  - cbn [app runes] in *. destruct a as [|c a]; [done|]. destruct (no_rune b0 c Ha) as (-> & H3 & H4). destruct a as [|c2 a]; [done|]. rewrite H3. destruct a as [|c3 a]; [done|]. by rewrite H4.
  - cbn [app] in IH1. assert (IH2 : runes (x ++ a) = runes x ++ runes a) by (apply (IH (length x)); [cbn; lia|done]).
    destruct (rune2 b0 b1); [by rewrite IH2|]. destruct x as [|b2 x]; cbn [app].
    + destruct a as [|c a]; [by rewrite app_nil_r|]. destruct (no_rune3 b0 b1 c Ha) as (-> & H4). cbn [app] in IH1. destruct a as [|c2 a]; [by rewrite IH1|]. by rewrite H4, IH1.
    + cbn [app] in IH1. assert (IH3 : runes (x ++ a) = runes x ++ runes a) by (apply (IH (length x)); [cbn; lia|done]).
      destruct (rune3 b0 b1 b2); [by rewrite IH3|]. destruct x as [|b3 x]; cbn [app].
      * destruct a as [|c a]; [by rewrite app_nil_r|]. rewrite (no_rune4 b0 b1 b2 c Ha). cbn [app] in IH1. by rewrite IH1.
      * cbn [app] in IH1. assert (IH4 : runes (x ++ a) = runes x ++ runes a) by (apply (IH (length x)); [cbn; lia|done]).
        destruct (rune4 b0 b1 b2 b3); [by rewrite IH4|by rewrite IH1].
Qed.

Lemma runes_app_valid a y : valid_utf8 a = true -> runes (a ++ y) = runes a ++ runes y.
Proof.
  unfold valid_utf8. remember (length a) as n eqn:En. revert a En. induction (lt_wf n) as [n _ IH]. intros a -> Hv. destruct a as [|b0 a]; [done|]. cbn [app].
  destruct (between 0 127 b0) eqn:E0; [rewrite runes_ascii in * by done; cbn in Hv; rewrite runes_ascii, (IH (length a)) by (done || (cbn; lia)); done|].
  rewrite runes_step in Hv by done. rewrite !runes_step by done. destruct a as [|b1 a]; [done|]. cbn [app].
  destruct (rune2 b0 b1); [cbn in Hv; rewrite (IH (length a)) by (done || (cbn; lia)); done|]. destruct a as [|b2 a]; [done|]. cbn [app].
  destruct (rune3 b0 b1 b2); [cbn in Hv; rewrite (IH (length a)) by (done || (cbn; lia)); done|]. destruct a as [|b3 a]; [done|]. cbn [app].
  destruct (rune4 b0 b1 b2 b3); [cbn in Hv; rewrite (IH (length a)) by (done || (cbn; lia)); done|done].
Qed.

Lemma valid_starts a : valid_utf8 a = true -> starts a.
Proof.
  destruct a as [|b0 a]; [done|]. unfold valid_utf8. cbn [starts]. intros H. apply not_true_iff_false. intros Hc. unfold continuation, between in Hc.
  apply andb_true_iff in Hc as [H1 H2]. apply Z.leb_le in H1, H2.
  assert (E0 : between 0 127 b0 = false) by (apply andb_false_iff; right; apply Z.leb_gt; lia). rewrite runes_step in H by done.
  assert (Hr : forall b1, rune2 b0 b1 = false) by (intros b1; unfold rune2, between; rewrite (proj2 (Z.leb_gt 194 b0)) by lia; done).
  assert (Hr3 : forall b1 b2, rune3 b0 b1 b2 = false).
  { intros b1 b2. unfold rune3, between. rewrite (proj2 (Z.eqb_neq b0 224)), (proj2 (Z.eqb_neq b0 237)), (proj2 (Z.leb_gt 225 b0)), (proj2 (Z.leb_gt 238 b0)) by lia. done. }
  assert (Hr4 : forall b1 b2 b3, rune4 b0 b1 b2 b3 = false).
  { intros b1 b2 b3. unfold rune4, between. rewrite (proj2 (Z.eqb_neq b0 240)), (proj2 (Z.eqb_neq b0 244)), (proj2 (Z.leb_gt 241 b0)) by lia. done. }
  destruct a as [|b1 a]; [done|]. rewrite Hr in H. destruct a as [|b2 a]; [done|]. rewrite Hr3 in H. destruct a as [|b3 a]; [done|]. by rewrite Hr4 in H.
Qed.

(** ** Lower case *)

(** unicode.ToLower on the encoding of a rune above ASCII. *)
Class CaseMap := lower_rune : list Z -> list Z.
(** No such rune lowers to a star. *)
Class CaseLaws `{CaseMap} := lower_rune_star u : length u <> 1%nat -> c_star ∉ lower_rune u.

Section Lower.
Context `{CaseMap}.

Definition lower_unit (r : rune) : list Z :=
  match r with Valid_ [b] => [lower b] | Valid_ u => lower_rune u | Invalid _ => [239; 191; 189] end.
(** strings.ToLower. *)
Definition ToLower (s : gostring) : gostring := runes s ≫= lower_unit.

Lemma ToLower_start x a : starts a -> ToLower (x ++ a) = ToLower x ++ ToLower a.
Proof. intros Ha. unfold ToLower. by rewrite runes_app_start, bind_app. Qed.
Lemma ToLower_valid a y : valid_utf8 a = true -> ToLower (a ++ y) = ToLower a ++ ToLower y.
Proof. intros Ha. unfold ToLower. by rewrite runes_app_valid, bind_app. Qed.

Lemma starts_app a y : starts a -> a <> [] -> starts (a ++ y).
Proof. by destruct a. Qed.

(** A valid part of a string lowers to a part of the lowered string. *)
Lemma ToLower_infix x a y : valid_utf8 a = true -> exists x' y', ToLower (x ++ a ++ y) = x' ++ ToLower a ++ y'.
Proof.
  intros Ha. destruct a as [|c a]; [exists [], (ToLower (x ++ y)); done|]. exists (ToLower x), (ToLower y).
  rewrite ToLower_start by (apply starts_app; [by apply valid_starts|done]). by rewrite ToLower_valid.
Qed.

Lemma ToLower_cons c s : between 0 127 c = true -> ToLower (c :: s) = lower c :: ToLower s.
Proof. intros Hc. unfold ToLower. by rewrite runes_ascii. Qed.

Lemma ToLower_ascii s : isASCII s = true -> ToLower s = lower <$> s.
Proof.
  unfold isASCII. induction s as [|c s IH]; [done|]. cbn [forallb]. intros [Hc Hs]%andb_true_iff. rewrite ToLower_cons by done. cbn. by rewrite IH.
Qed.

Lemma ToLower_star x y : ToLower (x ++ c_star :: y) = ToLower x ++ c_star :: ToLower y.
Proof. by rewrite ToLower_start, ToLower_cons. Qed.

(** The runes of a string are made of its bytes. *)
Lemma rune_bytes s u c : Valid_ u ∈ runes s -> c ∈ u -> c ∈ s.
Proof.
  remember (length s) as n eqn:En. revert s En. induction (lt_wf n) as [n _ IH]. intros s -> Hu Hc. destruct s as [|b0 s]; [by apply not_elem_of_nil in Hu|].
  assert (Hrec : forall s', (length s' < length (b0 :: s))%nat -> Valid_ u ∈ runes s' -> c ∈ s') by (intros s' Hl Hin; by apply (IH (length s'))).
  assert (Hrest : Valid_ u ∈ Invalid b0 :: runes s -> c ∈ b0 :: s) by (intros [[=]|H1]%elem_of_cons; right; apply Hrec; [cbn; lia|done]).
  destruct (between 0 127 b0) eqn:E0; [rewrite runes_ascii in Hu by done; apply elem_of_cons in Hu as [[= ->]|Hu]; [set_solver|right; apply Hrec; [cbn; lia|done]]|].
  rewrite runes_step in Hu by done. destruct s as [|b1 s]; [apply list_elem_of_singleton in Hu; done|].
  destruct (rune2 b0 b1); [apply elem_of_cons in Hu as [[= ->]|Hu]; [set_solver|do 2 right; apply Hrec; [cbn; lia|done]]|]. destruct s as [|b2 s]; [by apply Hrest|].
  destruct (rune3 b0 b1 b2); [apply elem_of_cons in Hu as [[= ->]|Hu]; [set_solver|do 3 right; apply Hrec; [cbn; lia|done]]|]. destruct s as [|b3 s]; [by apply Hrest|].
  destruct (rune4 b0 b1 b2 b3); [apply elem_of_cons in Hu as [[= ->]|Hu]; [set_solver|do 4 right; apply Hrec; [cbn; lia|done]]|by apply Hrest].
Qed.

Lemma lower_is_star c : lower c = c_star -> c = c_star.
Proof. unfold lower, between. destruct (_ && _) eqn:E; [|done]. apply andb_true_iff in E as [H1 H2]. apply Z.leb_le in H1, H2. lia. Qed.

Lemma ToLower_no_star `{!CaseLaws} s : c_star ∉ s -> c_star ∉ ToLower s.
Proof.
  intros Hs Hin. unfold ToLower in Hin. apply list_elem_of_bind in Hin as ([u|b] & Hc & Hu); cbn in Hc; [|set_solver].
  destruct u as [|b [|b1 u]]; [by apply lower_rune_star in Hc| |by apply lower_rune_star in Hc]. apply list_elem_of_singleton in Hc. symmetry in Hc.
  apply lower_is_star in Hc as ->. by apply Hs, (rune_bytes s [c_star]); [|left].
Qed.
End Lower.
