(* ===== verification/Logql.v ===== *)
(** * Log queries (internal/query/logql: ast.go, match.go, plan.go, needs.go)

    The tree of a log search, what it matches, its split into stream matchers and a
    filter, and the text a block must contain for it to match anything there.  The
    parser is in [LogqlParse]. *)

From Stdlib Require Import ZArith.
From Stdlib Require Import (notations) String.
From stdpp Require Import base list numbers.
From S2P Require Import Prelude Gofloat Gostring Names Utf8.

(** ** Logs (pkg/wire/logs.go) *)

(** A decoded JSON value; numbers keep their text (json.Number). *)
Inductive value :=
| VString (s : gostring)
| VNumber (text : gostring)
| VBool (b : bool)
| VNull
| VMap (m : list (gostring * value))
| VArr (l : list value).

Record Log := MkLog {
  l_Ts : Z;
  l_Message : gostring;
  l_Status : gostring;
  l_Service : gostring;
  l_Source : gostring;
  l_Host : gostring;
  l_Tags : list gostring;
  l_Attrs : list (gostring * value);
  l_TraceID : gostring;
  l_SpanID : gostring;
}.

(** ** The tree *)

Inductive Op := OpEq | OpGt | OpGe | OpLt | OpLe | OpRange.
#[global] Instance Op_eq_dec : EqDecision Op.
Proof. solve_decision. Defined.

Inductive Node :=
| Or (Args : list Node)
| And (Args : list Node)
| Not (X : Node)
| Text (Value : gostring)
| Label (Key Value : gostring)
| Attr (Path : gostring) (Op : Op) (Value : gostring) (Num Hi : Z).

Definition ReservedKeys : list gostring := str <$> ["service"; "source"; "host"; "status"; "env"; "trace_id"]%string.
Definition isReserved (k : gostring) : bool := existsb (fun r => bool_decide (r = k)) ReservedKeys.
Definition StreamLabels : list gostring := str <$> ["service"; "source"; "host"; "env"; "status"]%string.
Definition isStreamLabel (k : gostring) : bool := existsb (fun s => bool_decide (s = k)) StreamLabels.

(** ** Strings *)

Fixpoint HasPrefix (s pre : gostring) {struct pre} : bool :=
  match pre, s with
  | [], _ => true
  | p :: pre', c :: s' => (c =? p) && HasPrefix s' pre'
  | _ :: _, [] => false
  end.
Definition HasSuffix (s suf : gostring) : bool :=
  (length suf <=? length s)%nat && bool_decide (drop (length s - length suf) s = suf).

(** [strings.Index], as what follows the first occurrence. *)
Fixpoint after (sub s : gostring) : option gostring :=
  if HasPrefix s sub then Some (drop (length sub) s)
  else match s with [] => None | _ :: s' => after sub s' end.

(** [strings.Split] on one byte. *)
Fixpoint Split_ (c : Z) (s : gostring) : list gostring :=
  match s with
  | [] => [[]]
  | x :: s' => if x =? c then [] :: Split_ c s'
               else match Split_ c s' with a :: l => (x :: a) :: l | [] => [[x]] end
  end.

(** Segments between the first and the last, one after the other. *)
Fixpoint glob_middle (s : gostring) (segs : list gostring) : bool :=
  match segs with
  | [] => true
  | [last] => HasSuffix s last
  | seg :: rest => match after seg s with Some s' => glob_middle s' rest | None => false end
  end.
Definition globMatch (pat s : gostring) : bool :=
  if bool_decide (c_star ∈ pat) then
    match Split_ c_star pat with
    | first :: segs => HasPrefix s first && glob_middle (drop (length first) s) segs
    | [] => false
    end
  else bool_decide (pat = s).

Definition splitWild (pat : gostring) : list gostring := filter (fun s => s <> []) (Split_ c_star pat).

(** ** Matching *)

(** The external parts: strconv.ParseFloat and the case table. *)
Class ParseFloat := parse_float : gostring -> option Z.

(** A need: alternatives of literals, all of one of which must occur; the empty list is
    no constraint. *)
Abbreviation Need := (list (list gostring)).

Section Matching.
Context `{CaseMap} `{ParseFloat}.

(** [indexFoldASCII], as what follows the occurrence. *)
Fixpoint fold_prefix (s needle : gostring) {struct needle} : bool :=
  match needle, s with
  | [], _ => true
  | p :: needle', c :: s' => (lower c =? p) && fold_prefix s' needle'
  | _ :: _, [] => false
  end.
Fixpoint indexFoldASCII (needle s : gostring) : option gostring :=
  if fold_prefix s needle then Some (drop (length needle) s)
  else match s with [] => None | _ :: s' => indexFoldASCII needle s' end.

Fixpoint in_order (find : gostring -> gostring -> option gostring) (s : gostring) (segs : list gostring) : bool :=
  match segs with
  | [] => true
  | seg :: rest => match find seg s with Some s' => in_order find s' rest | None => false end
  end.
Definition containsWild (s : gostring) (segs : list gostring) : bool :=
  if negb (isASCII s) then in_order after (ToLower s) segs else in_order indexFoldASCII s segs.

Fixpoint anyString (fn : gostring -> bool) (v : value) : bool :=
  match v with
  | VString s => fn s
  | VMap m => existsb (fun kv => anyString fn kv.2) m
  | VArr l => existsb (anyString fn) l
  | _ => false
  end.

Definition matchText (pat : gostring) (l : Log) : bool :=
  let segs := splitWild (ToLower pat) in
  containsWild (l_Message l) segs || anyString (fun s => containsWild s segs) (VMap (l_Attrs l)).

Definition LabelValue (l : Log) (key : gostring) : gostring :=
  if bool_decide (key = str "service") then l_Service l else
  if bool_decide (key = str "source") then l_Source l else
  if bool_decide (key = str "host") then l_Host l else
  if bool_decide (key = str "status") then l_Status l else
  if bool_decide (key = str "trace_id") then l_TraceID l else
  if bool_decide (key = str "env") then
    match list_find (fun t => (SplitTag t).1 = str "env") (l_Tags l) with Some (_, t) => (SplitTag t).2 | None => [] end
  else [].

Definition MatchLabel (pattern v : gostring) : bool :=
  if bool_decide (pattern = [c_star]) then negb (bool_decide (v = [])) else globMatch pattern v.

Fixpoint appendFlat (v : value) : list value := match v with VArr l => l ≫= appendFlat | _ => [v] end.

(** The ways to cut a path at a dot. *)
Abbreviation c_dot := 46.
Fixpoint dots (before path : gostring) : list (gostring * gostring) :=
  match path with
  | [] => []
  | c :: rest => (if c =? c_dot then [(before, rest)] else []) ++ dots (before ++ [c]) rest
  end.

Fixpoint walk (cur : value) (path : gostring) : list value :=
  match cur with
  | VMap m =>
      (fix exact (m : list (gostring * value)) := match m with
        | [] => []
        | (k, v) :: rest => if bool_decide (k = path) then appendFlat v else exact rest
        end) m
      ++ flat_map (fun cut => (fix sub (m : list (gostring * value)) := match m with
           | [] => []
           | (k, v) :: rest => if bool_decide (k = cut.1) then walk v cut.2 else sub rest
           end) m) (dots [] path)
  | VArr l => flat_map (fun e => walk e path) l
  | _ => []
  end.
Definition lookup (m : list (gostring * value)) (path : gostring) : list value := walk (VMap m) path.

(** The text of a scalar; an object or an array is rendered by the JSON encoder. *)
Definition ValueText (render : value -> gostring) (v : value) : gostring :=
  match v with
  | VString s => s
  | VNumber t => t
  | VBool b => str (if b then "true" else "false")
  | VNull => str "null"
  | _ => render v
  end.

Definition numberOf (v : value) : option Z := match v with VNumber t => parse_float t | _ => None end.

Definition eqMatches (pat : gostring) (v : value) : bool :=
  match parse_float pat, numberOf v with
  | Some pf, Some f => feq f pf
  | _, _ =>
      match v with
      | VMap _ | VArr _ => false
      | _ => globMatch pat (ValueText (fun _ => []) v)
      end
  end.

Definition attrMatches (op : Op) (pat : gostring) (num hi : Z) (v : value) : bool :=
  match op with
  | OpEq => eqMatches pat v
  | _ =>
      match numberOf v with
      | None => false
      | Some f =>
          match op with
          | OpGt => flt num f
          | OpGe => fle num f
          | OpLt => flt f num
          | OpLe => fle f num
          | OpRange => fle num f && fle f hi
          | OpEq => false
          end
      end
  end.

(** [Compile], applied. *)
Fixpoint Compile (n : Node) (l : Log) : bool :=
  match n with
  | Or args => existsb (fun a => Compile a l) args
  | And args => forallb (fun a => Compile a l) args
  | Not x => negb (Compile x l)
  | Text v => matchText v l
  | Label k v => MatchLabel v (LabelValue l k)
  | Attr path op pat num hi => existsb (attrMatches op pat num hi) (lookup (l_Attrs l) path)
  end.
(** The empty query matches every log. *)
Definition Filter (n : option Node) (l : Log) : bool := match n with None => true | Some n => Compile n l end.

(** ** Planning *)

Record Matcher := MkMatcher { mt_Key : gostring; mt_Value : gostring; mt_Negate : bool }.
Definition Matches (m : Matcher) (v : gostring) : bool := xorb (MatchLabel (mt_Value m) v) (mt_Negate m).

Record Branch := MkBranch { br_Matchers : list Matcher; br_Filter : option Node }.

Fixpoint orArms (n : Node) : list Node := match n with Or args => args ≫= orArms | _ => [n] end.
Fixpoint conjuncts (n : Node) : list Node := match n with And args => args ≫= conjuncts | _ => [n] end.

Definition asMatcher (n : Node) : option Matcher :=
  match n with
  | Label k v => if isStreamLabel k then Some (MkMatcher k v false) else None
  | Not (Label k v) => if isStreamLabel k then Some (MkMatcher k v true) else None
  | _ => None
  end.

Definition planBranch (n : Node) : Branch :=
  let cs := conjuncts n in
  let rest := filter (fun c => asMatcher c = None) cs in
  MkBranch (omap asMatcher cs) (match rest with [] => None | [x] => Some x | _ => Some (And rest) end).

Definition Split (n : option Node) : list Branch := match n with None => [MkBranch [] None] | Some n => planBranch <$> orArms n end.

(** ** What text a match needs *)

Definition MinLiteral : nat := 3.
Definition maxAlts : nat := 16.

Definition literalNeed (pat : gostring) : Need :=
  match filter (fun s => MinLiteral <= length s)%nat (splitWild pat) with [] => [] | lits => [lits] end.

(** One conjunct joined to what the earlier ones need. *)
Definition and_need (acc n : Need) : Need :=
  match n with
  | [] => acc
  | _ => if (maxAlts <? length acc * length n)%nat then acc else x ← acc; y ← n; mret (x ++ y)
  end.
Definition andNeeds (ns : list Need) : Need :=
  match foldl and_need [[]] ns with [[]] => [] | acc => acc end.

(** All of them, or no constraint when one has none. *)
Fixpoint or_alts (ns : list Need) : option Need :=
  match ns with
  | [] => Some []
  | [] :: _ => None
  | n :: rest => match or_alts rest with Some alts => Some (n ++ alts) | None => None end
  end.
Definition orNeeds (ns : list Need) : Need :=
  match or_alts ns with
  | Some alts => if (maxAlts <? length alts)%nat then [] else alts
  | None => []
  end.

Fixpoint Needs_ (q : Node) : Need :=
  match q with
  | Text v => literalNeed (ToLower v)
  | Attr _ OpEq pat _ _ => match parse_float pat with Some _ => [] | None => literalNeed (ToLower pat) end
  | And args => andNeeds (Needs_ <$> args)
  | Or args => orNeeds (Needs_ <$> args)
  | _ => []
  end.
Definition Needs (q : option Node) : Need := match q with None => [] | Some q => Needs_ q end.

End Matching.
