(* ===== verification/LogqlParse.v ===== *)
(** * Reading and printing log searches (internal/query/logql/parse.go, ast.go)

    The scannerless parser, its position being what is left of the query, and the
    printer.  The calls between the levels of the grammar carry fuel, which
    [LogqlPrint] shows is never used up. *)

From Stdlib Require Import ZArith Lia.
From Stdlib Require Import (notations) String.
From stdpp Require Import base list numbers.
From S2P Require Import Prelude Gofloat Gostring Names Utf8 Logql.

Definition MaxDepth : nat := 64.

(** What an error says. *)
Inductive msg :=
| MUnexpected (c : Z)
| MAfterOr
| MAfterAnd
| MAfterNot
| MExpected
| MTooDeep
| MKeyword (kw : gostring)
| MMinus
| MNeverClosed
| MEmptyParens
| MUnexpectedClose
| MUnknownKey (key : gostring)
| MNeedsValue (what : gostring)
| MUnterminated
| MUnknownEscape (e : Z)
| MAttrName
| MAttrColon (path : gostring)
| MNotANumber (word : gostring)
| MRangeOpen
| MRangeShape
| MRangeNumbers (lo hi : gostring)
| MRangeEmpty (lo hi : gostring).

Inductive parse_error := Error (Msg : msg) (Col : Z) | OutOfFuel.
Abbreviation parsed A := (result parse_error (A * gostring)).

(** ** Lexical pieces *)

Definition isSpace (c : Z) : bool := (c =? 32) || (c =? 9) || (c =? 10) || (c =? 13).

Fixpoint skipSpace (r : gostring) : gostring :=
  match r with
  | c :: r' => if isSpace c then skipSpace r' else r
  | [] => []
  end.

(** The word at the cursor is exactly [kw]. *)
Definition keywordAt (r kw : gostring) : bool :=
  HasPrefix r kw
  && match drop (length kw) r with [] => true | c :: _ => isSpace c || (c =? 40) || (c =? 41) end.

(** A byte scan: what passes, and the rest. *)
Fixpoint scan (p : Z -> bool) (r : gostring) : gostring * gostring :=
  match r with
  | c :: r' => if p c then let '(w, t) := scan p r' in (c :: w, t) else ([], r)
  | [] => ([], [])
  end.

Definition bare_char (c : Z) : bool := negb (isSpace c) && negb (c =? 40) && negb (c =? 41).
Definition bare (r : gostring) : gostring * gostring := scan bare_char r.

Definition letter (c : Z) : bool := (c =? 95) || between 97 122 c || between 65 90 c.
Definition digit (c : Z) : bool := between 48 57 c.
Definition key_char (c : Z) : bool := letter c || digit c.
Definition path_char (c : Z) : bool := key_char c || (c =? 46) || (c =? 45).

(** [name:] at the cursor. *)
Definition keyAt (r : gostring) : option gostring :=
  match r with
  | c :: _ =>
      if letter c then
        match scan key_char r with
        | (key, d :: _) => if d =? c_colon then Some key else None
        | _ => None
        end
      else None
  | [] => None
  end.

(** strings.Fields: runs of runes that are not white space. *)
Definition space_encodings : list (list Z) :=
  [[194; 133]; [194; 160]; [225; 154; 128]; [226; 128; 168]; [226; 128; 169]; [226; 128; 175]; [226; 129; 159]; [227; 128; 128]]
  ++ ((fun c => [226; 128; c]) <$> seqZ 128 11).
Definition space_rune (r : rune) : bool :=
  match r with
  | Valid_ [c] => between 9 13 c || (c =? 32)
  | Valid_ u => bool_decide (u ∈ space_encodings)
  | Invalid _ => false
  end.
Definition rune_bytes_of (r : rune) : list Z := match r with Valid_ u => u | Invalid b => [b] end.
Fixpoint fields_from (word : gostring) (rs : list rune) : list gostring :=
  match rs with
  | [] => match word with [] => [] | _ => [word] end
  | r :: rs =>
      if space_rune r then match word with [] => fields_from [] rs | _ => word :: fields_from [] rs end
      else fields_from (word ++ rune_bytes_of r) rs
  end.
Definition Fields (s : gostring) : list gostring := fields_from [] (runes s).

(** ** The parser *)

Definition finite_float (f : Z) : bool := negb (isNaN f) && negb (isInf f).

Section Parser.
Context `{ParseFloat} (slen : Z).

Definition errAt {A} (r : gostring) (m : msg) : parsed A := Err (Error m (slen - Z.of_nat (length r) + 1)).

Definition stops (r : gostring) : bool := match r with [] => true | c :: _ => isSpace c || (c =? 41) end.
Definition closes (r : gostring) : bool := match r with [] => true | c :: _ => c =? 41 end.

Definition at_byte (c : Z) (r : gostring) : bool := match r with d :: _ => d =? c | [] => false end.

(** The rest of a quoted string, after its opening quote at [open]. *)
Fixpoint quoted_rest (open r acc : gostring) : parsed gostring :=
  match r with
  | [] => errAt open MUnterminated
  | c :: r' =>
      if c =? 34 then Ok (acc, r')
      else if c =? 92 then
        match r' with
        | [] => errAt open MUnterminated
        | e :: r'' =>
            if e =? 110 then quoted_rest open r'' (acc ++ [10])
            else if e =? 116 then quoted_rest open r'' (acc ++ [9])
            else if e =? 114 then quoted_rest open r'' (acc ++ [13])
            else if (e =? 34) || (e =? 92) then quoted_rest open r'' (acc ++ [e])
            else errAt r' (MUnknownEscape e)
        end
      else quoted_rest open r' (acc ++ [c])
  end.
Definition quoted (r : gostring) : parsed gostring := quoted_rest r (tail r) [].

Definition p_value (what r : gostring) : parsed gostring :=
  if stops r then errAt r (MNeedsValue what)
  else if at_byte 34 r then quoted r else Ok (bare r).

Definition p_label (key r : gostring) : parsed Node :=
  if negb (isReserved key) then errAt r (MUnknownKey key)
  else '(v, r) ← p_value key (drop (length key + 1) r); Ok (Label key v, r).

Definition p_number (r : gostring) : parsed Z :=
  let '(word, r') := bare r in
  match word, parse_float word with
  | _ :: _, Some f => if finite_float f then Ok (f, r') else errAt r (MNotANumber word)
  | _, _ => errAt r (MNotANumber word)
  end.

Definition rangeTerm (path r : gostring) : parsed Node :=
  match split_at 93 r with
  | None => errAt r MRangeOpen
  | Some (inner, r') =>
      match Fields (drop 1 inner) with
      | [lo; to; hi] =>
          if negb (bool_decide (to = str "TO")) then errAt r MRangeShape else
          match parse_float lo, parse_float hi with
          | Some l, Some h =>
              if negb (finite_float l) || negb (finite_float h) then errAt r (MRangeNumbers lo hi)
              else if flt h l then errAt r (MRangeEmpty lo hi)
              else Ok (Attr path OpRange [] l h, r')
          | _, _ => errAt r (MRangeNumbers lo hi)
          end
      | _ => errAt r MRangeShape
      end
  end.

(** The comparison after the colon, if there is one. *)
Definition comparison_at (r : gostring) : option (Op * gostring) :=
  if at_byte 62 r then Some (if at_byte 61 (drop 1 r) then (OpGe, drop 2 r) else (OpGt, drop 1 r))
  else if at_byte 60 r then Some (if at_byte 61 (drop 1 r) then (OpLe, drop 2 r) else (OpLt, drop 1 r))
  else None.

(** [@path:...], the cursor on the '@'. *)
Definition p_attr (r : gostring) : parsed Node :=
  let '(path, r1) := scan path_char (tail r) in
  match path with
  | [] => errAt r MAttrName
  | _ =>
      if negb (at_byte 58 r1) then errAt r1 (MAttrColon path) else
      let r2 := drop 1 r1 in
      if stops r2 then errAt r2 (MNeedsValue (64 :: path)) else
      match comparison_at r2 with
      | Some (op, r3) => '(f, r) ← p_number r3; Ok (Attr path op [] f 0, r)
      | None =>
          if at_byte 91 r2 then rangeTerm path r2
          else '(v, r) ← p_value (64 :: path) r2; Ok (Attr path OpEq v 0 0, r)
      end
  end.

Definition kw_or : gostring := str "OR".
Definition kw_and : gostring := str "AND".
Definition kw_not : gostring := str "NOT".

(** A single argument is itself. *)
Definition join_args (mk : list Node -> Node) (args : list Node) : Node := match args with [x] => x | _ => mk args end.

Fixpoint p_or (fuel depth : nat) (r : gostring) : parsed Node :=
  match fuel with
  | O => Err OutOfFuel
  | S fuel => '(first, r) ← p_and fuel depth r; or_loop fuel depth [first] r
  end
with or_loop (fuel depth : nat) (args : list Node) (r : gostring) : parsed Node :=
  match fuel with
  | O => Err OutOfFuel
  | S fuel =>
      let r := skipSpace r in
      if negb (keywordAt r kw_or) then Ok (join_args Or args, r) else
      let r' := skipSpace (drop 2 r) in
      if closes r' then errAt r MAfterOr
      else '(next, r) ← p_and fuel depth r'; or_loop fuel depth (args ++ [next]) r
  end
with p_and (fuel depth : nat) (r : gostring) : parsed Node :=
  match fuel with
  | O => Err OutOfFuel
  | S fuel => '(first, r) ← p_unary fuel depth r; and_loop fuel depth [first] r
  end
with and_loop (fuel depth : nat) (args : list Node) (r : gostring) : parsed Node :=
  match fuel with
  | O => Err OutOfFuel
  | S fuel =>
      let r := skipSpace r in
      if closes r || keywordAt r kw_or then Ok (join_args And args, r) else
      if keywordAt r kw_and then
        let r' := skipSpace (drop 3 r) in
        if closes r' || keywordAt r' kw_or then errAt r MAfterAnd
        else '(next, r) ← p_unary fuel depth r'; and_loop fuel depth (args ++ [next]) r
      else '(next, r) ← p_unary fuel depth r; and_loop fuel depth (args ++ [next]) r
  end
with p_unary (fuel depth : nat) (r : gostring) : parsed Node :=
  match fuel with
  | O => Err OutOfFuel
  | S fuel =>
      let r := skipSpace r in
      match r with
      | [] => errAt r MExpected
      | c :: r1 =>
          if (MaxDepth <=? depth)%nat then errAt r MTooDeep
          else if keywordAt r kw_or || keywordAt r kw_and then errAt r (MKeyword (if keywordAt r kw_and then kw_and else kw_or))
          else if keywordAt r kw_not then
            let r' := skipSpace (drop 3 r) in
            if closes r' then errAt r MAfterNot
            else '(x, r) ← p_unary fuel (S depth) r'; Ok (Not x, r)
          else if c =? 45 then
            if stops r1 then errAt r MMinus
            else '(x, r) ← p_unary fuel (S depth) r1; Ok (Not x, r)
          else p_atom fuel depth r
      end
  end
with p_atom (fuel depth : nat) (r : gostring) : parsed Node :=
  match fuel with
  | O => Err OutOfFuel
  | S fuel =>
      match r with
      | [] => errAt r MExpected
      | c :: r1 =>
          if c =? 40 then
            let r' := skipSpace r1 in
            match r' with
            | [] => errAt r MNeverClosed
            | d :: _ =>
                if d =? 41 then errAt r MEmptyParens else
                '(n, t) ← p_or fuel (S depth) r';
                match skipSpace t with
                | [] => errAt r MNeverClosed
                | _ :: t' => Ok (n, t')
                end
            end
          else if c =? 41 then errAt r MUnexpectedClose
          else if c =? 34 then '(s, t) ← quoted r; Ok (Text s, t)
          else if c =? 64 then p_attr r
          else match keyAt r with
               | Some key => p_label key r
               | None => let '(w, t) := bare r in Ok (Text w, t)
               end
      end
  end.
End Parser.

Section Parse.
Context `{ParseFloat}.

(** Enough for every call on a query of this length. *)
Definition fuel_for (r : gostring) : nat := 4 * length r + 4.

Definition Parse (q : gostring) : result parse_error (option Node) :=
  let slen := Z.of_nat (length q) in
  match skipSpace q with
  | [] => Ok None
  | r =>
      '(n, t) ← p_or slen (fuel_for r) 0 r;
      match skipSpace t with
      | [] => Ok (Some n)
      | (c :: _) as u => Err (Error (MUnexpected c) (slen - Z.of_nat (length u) + 1))
      end
  end.
End Parse.

(** ** The printer *)

(** strconv.FormatFloat(f, 'g', -1, 64). *)
Class FormatFloat := format_float : Z -> gostring.

Definition join (sep : gostring) : list gostring -> gostring :=
  fix go l := match l with [] => [] | [x] => x | x :: l => x ++ sep ++ go l end.
Definition parens (s : gostring) : gostring := 40 :: s ++ [41].

Definition bareSafe (s : gostring) : bool :=
  match s with
  | [] => false
  | _ => forallb (fun c => negb ((c <=? 32) || (c =? 127) || (c =? 40) || (c =? 41) || (c =? 34) || (c =? 92))) s
  end.
Definition isKeyword (s : gostring) : bool := bool_decide (s = kw_and) || bool_decide (s = kw_or) || bool_decide (s = kw_not).

Definition escape (c : Z) : gostring :=
  if (c =? 34) || (c =? 92) then [92; c]
  else if c =? 10 then [92; 110]
  else if c =? 9 then [92; 116]
  else if c =? 13 then [92; 114]
  else [c].
Definition quote (s : gostring) : gostring := 34 :: (s ≫= escape) ++ [34].
Definition valueText (v : gostring) : gostring := if bareSafe v then v else quote v.

Section Printer.
Context `{FormatFloat}.

Definition text_String (v : gostring) : gostring :=
  if bareSafe v && negb (match v with c :: _ => (c =? 45) || (c =? 64) | [] => false end)
     && negb (bool_decide (c_colon ∈ v)) && negb (isKeyword v)
  then v else quote v.

Definition attr_String (path : gostring) (op : Op) (v : gostring) (num hi : Z) : gostring :=
  let p := 64 :: path ++ [58] in
  match op with
  | OpGt => p ++ [62] ++ format_float num
  | OpGe => p ++ [62; 61] ++ format_float num
  | OpLt => p ++ [60] ++ format_float num
  | OpLe => p ++ [60; 61] ++ format_float num
  | OpRange => p ++ [91] ++ format_float num ++ str " TO " ++ format_float hi ++ [93]
  | OpEq =>
      match v with
      | c :: _ => if (c =? 62) || (c =? 60) || (c =? 91) then p ++ quote v else p ++ valueText v
      | [] => p ++ quote v
      end
  end.

Fixpoint String_ (n : Node) : gostring :=
  match n with
  | Or args => join (str " OR ") ((fun a => match a with Or _ => parens (String_ a) | _ => String_ a end) <$> args)
  | And args => join [32] ((fun a => match a with Or _ | And _ => parens (String_ a) | _ => String_ a end) <$> args)
  | Not x => 45 :: match x with Or _ | And _ => parens (String_ x) | _ => String_ x end
  | Text v => text_String v
  | Label k v => k ++ [58] ++ valueText v
  | Attr path op v num hi => attr_String path op v num hi
  end.
End Printer.
