(* ===== verification/LogqlPrint.v ===== *)
(** * Printed searches read back

    Whatever tree the parser returns, its printed form parses to the same tree. *)

From Stdlib Require Import ZArith Lia.
From Stdlib Require Import (notations) String.
From stdpp Require Import base list numbers.
From S2P Require Import Prelude Gofloat Gostring Names Utf8 Logql LogqlProofs LogqlParse.

(** * The parser and the printer of log searches agree

    The parser always ends, points inside the query when it fails, builds well-formed
    trees, and reads back what the printer writes. *)

(** What the two functions of strconv promise. *)
Definition float_char (c : Z) : bool := digit c || (c =? 43) || (c =? 45) || (c =? 46) || (c =? 101).
Class FloatLaws `{ParseFloat} `{FormatFloat} := {
  parse_u64 w f : parse_float w = Some f -> is_u64 f;
  format_parse f : is_u64 f -> finite_float f = true -> parse_float (format_float f) = Some f;
  format_chars f : is_u64 f -> finite_float f = true -> format_float f <> [] /\ forallb float_char (format_float f) = true;
}.

(** ** Trees the parser builds *)

Definition u64b (f : Z) : bool := (0 <=? f) && (f <? 2 ^ 64).
Definition printable (f : Z) : bool := u64b f && finite_float f.

Definition wf_attr (path : gostring) (op : Op) (v : gostring) (num hi : Z) : bool :=
  negb (bool_decide (path = [])) && forallb path_char path
  && match op with
     | OpEq => (num =? 0) && (hi =? 0)
     | OpRange => bool_decide (v = []) && printable num && printable hi && negb (flt hi num)
     | _ => bool_decide (v = []) && (hi =? 0) && printable num
     end.

Fixpoint wf (n : Node) : bool :=
  match n with
  | Or args | And args => (2 <=? length args)%nat && forallb wf args
  | Not x => wf x
  | Text _ => true
  | Label k _ => isReserved k
  | Attr path op v num hi => wf_attr path op v num hi
  end.

(** The tree can be read as a single term at this depth of nesting. *)
Fixpoint fits (d : nat) (n : Node) : bool :=
  (d <? MaxDepth)%nat
  && match n with
     | Not x => fits (S d) x
     | And args => forallb (fits (S d)) args
     | Or args => forallb (fun a => match a with And bs => forallb (fits (S d)) bs | _ => fits (S d) a end) args
     | _ => true
     end.
(** ... as a conjunction, as a disjunction. *)
Definition fits_and (d : nat) (n : Node) : bool := match n with And args => forallb (fits d) args | _ => fits d n end.
Definition fits_or (d : nat) (n : Node) : bool := match n with Or args => forallb (fits_and d) args | _ => fits_and d n end.

Lemma fits_less n : forall d d', fits d' n = true -> (d <= d')%nat -> fits d n = true.
Proof.
  induction n as [args IH|args IH|x IH|v|k v|path op pat num hi] using Node_induct; intros d d' Hf Hd; cbn [fits] in *;
    apply andb_true_iff in Hf as [Hd' Hf]; apply andb_true_iff; (split; [apply Nat.ltb_lt in Hd'; apply Nat.ltb_lt; lia|]); try done.
  - rewrite forallb_forall in *. rewrite List.Forall_forall in IH. intros a Ha. specialize (Hf a Ha). specialize (IH a Ha).
    destruct a; try (by eapply IH; [exact Hf|lia]). assert (Hg : fits d' (And Args) = true) by (cbn [fits]; by rewrite Hd', Hf).
    apply (IH (pred (S d))) in Hg; [|lia]. cbn [fits pred] in Hg. by apply andb_true_iff in Hg as [_ Hg].
  - rewrite forallb_forall in *. rewrite List.Forall_forall in IH. intros a Ha. eapply IH; [done|by apply Hf|lia].
  - eapply IH; [exact Hf|lia].
Qed.

Lemma fits_unary d n : (d < MaxDepth)%nat -> fits_or (S d) n = true -> fits d n = true.
Proof.
  intros Hd Hf. assert (Hb : (d <? MaxDepth)%nat = true) by by apply Nat.ltb_lt.
  destruct n; cbn [fits_or fits_and fits] in *; rewrite ?Hb; cbn [andb]; try done.
  apply andb_true_iff in Hf as [_ Hf]. eapply fits_less; [exact Hf|lia].
Qed.

(** ** What one call promises *)

Section Calls.
Context `{ParseFloat} (slen : Z).

(** On success at least one byte is read and the result is as described; an error points into the
    query; the fuel does not run out. *)
Definition reads {A} (r : gostring) (P : A -> Prop) (x : parsed A) : Prop :=
  match x with
  | Ok (a, t) => (length t < length r)%nat /\ P a
  | Err (Error _ col) => 1 <= col <= slen + 1
  | Err OutOfFuel => False
  end.

Lemma reads_then {A B} r r' P (x : parsed A) (f : A * gostring -> parsed B) Q :
  reads r P x -> (forall a t, (length t < length r)%nat -> P a -> reads r' Q (f (a, t))) -> reads r' Q (x ≫= f).
Proof. destruct x as [[a t]|[m c|]]; cbn; [intros [Ht Ha] Hf; by apply Hf|done..]. Qed.

Lemma reads_longer {A} r r' P (x : parsed A) : (length r <= length r')%nat -> reads r P x -> reads r' P x.
Proof. destruct x as [[a t]|[m c|]]; cbn; [|done..]. intros Hl [Ht Ha]. split; [lia|done]. Qed.

Lemma reads_err {A} r0 r (P : A -> Prop) m : Z.of_nat (length r) <= slen -> reads r0 P (errAt slen r m).
Proof. intros Hl. cbn. lia. Qed.

Lemma skipSpace_le r : (length (skipSpace r) <= length r)%nat.
Proof. induction r as [|c r IH]; cbn; [lia|]. destruct (isSpace c); cbn; lia. Qed.

Lemma scan_word_spec p r : r = (scan p r).1 ++ (scan p r).2 /\ forallb p (scan p r).1 = true.
Proof. induction r as [|c r [IH1 IH2]]; [done|]. cbn. destruct (p c) eqn:E; [|done]. destruct (scan p r) as [w t]. cbn in *. rewrite E. by split; [f_equal|]. Qed.
Lemma scan_some p c r : p c = true -> exists w, (scan p (c :: r)).1 = c :: w.
Proof. intros E. cbn. rewrite E. destruct (scan p r) as [w t]. by exists w. Qed.
Lemma scan_len p r : length r = (length (scan p r).1 + length (scan p r).2)%nat.
Proof. rewrite (proj1 (scan_word_spec p r)) at 1. apply length_app. Qed.

Lemma quoted_rest_reads open : Z.of_nat (length open) <= slen ->
  forall r acc, (length r <= length open)%nat -> reads (0 :: r) (fun _ : gostring => True) (quoted_rest slen open r acc).
Proof.
  intros Ho r. remember (length r) as n eqn:En. revert r En. induction (lt_wf n) as [n _ IH]. intros [|c r] -> acc Hl; cbn [quoted_rest]; [by apply reads_err|].
  cbn [length] in *. assert (Hnext : forall a, reads (0 :: c :: r) (fun _ : gostring => True) (quoted_rest slen open r a))
    by (intros a; apply (reads_longer (0 :: r)); [cbn; lia|apply (IH (length r)); cbn in *; lia]).
  destruct (c =? 34); [cbn; split; [lia|done]|]. destruct (c =? 92); [|done]. destruct r as [|e r]; [by apply reads_err|]. cbn [length] in *.
  assert (Hskip : forall a, reads (0 :: c :: e :: r) (fun _ : gostring => True) (quoted_rest slen open r a))
    by (intros a; apply (reads_longer (0 :: r)); [cbn; lia|apply (IH (length r)); lia]).
  repeat (destruct (_ =? _); [done|]). cbn [orb]. destruct (_ || _); [done|]. apply reads_err. cbn. lia.
Qed.

Lemma quoted_reads r : r <> [] -> Z.of_nat (length r) <= slen -> reads r (fun _ : gostring => True) (quoted slen r).
Proof.
  intros Hr Hl. destruct r as [|c r]; [done|]. apply (reads_longer (0 :: r)); [done|]. apply quoted_rest_reads; [done|]. cbn. lia.
Qed.

Lemma stops_false r : stops r = false -> exists c r', r = c :: r' /\ isSpace c = false /\ c <> 41.
Proof. destruct r as [|c r]; [done|]. cbn. intros [Hs Hc%Z.eqb_neq]%orb_false_iff. by exists c, r. Qed.

Lemma bare_reads r : reads (0 :: r) (fun _ : gostring => True) (Ok (bare r)).
Proof. unfold bare. pose proof (scan_len bare_char r). destruct (scan bare_char r) as [w t]. cbn in *. split; [lia|done]. Qed.

(** A value may be empty, before a parenthesis. *)
Lemma p_value_reads what r : Z.of_nat (length r) <= slen -> reads (0 :: r) (fun _ : gostring => True) (p_value slen what r).
Proof.
  intros Hl. unfold p_value. destruct (stops r) eqn:E; [by apply reads_err|]. apply stops_false in E as (c & r' & -> & _ & _).
  pose proof (bare_reads (c :: r')) as Hb. assert (Hq : reads (0 :: c :: r') (fun _ : gostring => True) (quoted slen (c :: r'))) by (apply (reads_longer (c :: r')); [cbn; lia|by apply quoted_reads]).
  by destruct (at_byte 34 (c :: r')).
Qed.

Lemma keyAt_len r key : keyAt r = Some key -> (0 < length key)%nat /\ (length key + 1 <= length r)%nat.
Proof.
  destruct r as [|c r]; [done|]. cbn [keyAt]. destruct (letter c) eqn:Ec; [|done]. assert (Hk : key_char c = true) by (unfold key_char; by rewrite Ec).
  destruct (scan_some key_char c r Hk) as [w Hw]. pose proof (scan_len key_char (c :: r)) as Hl. destruct (scan key_char (c :: r)) as [k [|d t]]; [done|]. cbn [fst snd] in *.
  destruct (d =? 58); [|done]. intros [= <-]. subst k. cbn in *. lia.
Qed.

Lemma p_label_reads key r : Z.of_nat (length r) <= slen -> (0 < length key)%nat -> (length key + 1 <= length r)%nat -> reads r (fun n => wf n = true /\ forall d, fits d n = (d <? MaxDepth)%nat) (p_label slen key r).
Proof.
  intros Hl Hk Hr. unfold p_label. destruct (isReserved key) eqn:E; [cbn [negb]|by apply reads_err]. apply (reads_longer (0 :: drop (length key + 1) r)); [cbn; rewrite length_drop; lia|].
  eapply reads_then; [apply p_value_reads; rewrite length_drop; lia|]. intros v t Ht _. cbn in *. split; [done|]. split; [done|]. intros d. apply andb_true_r.
Qed.

Lemma printable_intro `{FormatFloat} `{!FloatLaws} w f : parse_float w = Some f -> finite_float f = true -> printable f = true.
Proof.
  intros Hf E. unfold printable, u64b. rewrite E. apply parse_u64 in Hf. unfold is_u64 in Hf. rewrite (proj2 (Z.leb_le _ _)), (proj2 (Z.ltb_lt _ _)) by lia. done.
Qed.

Lemma p_number_reads `{FormatFloat} `{!FloatLaws} r : Z.of_nat (length r) <= slen -> reads r (fun f => printable f = true) (p_number slen r).
Proof.
  intros Hl. unfold p_number, bare. pose proof (scan_len bare_char r) as Hb. destruct (scan bare_char r) as [[|c w] t]; cbn [fst snd] in Hb; [by apply reads_err|].
  destruct (parse_float (c :: w)) as [f|] eqn:Ef; [|by apply reads_err]. destruct (finite_float f) eqn:E; [|by apply reads_err]. cbn [length] in Hb. cbn. split; [lia|]. by eapply printable_intro.
Qed.

Lemma split_at_len c r a b : split_at c r = Some (a, b) -> (length b < length r)%nat.
Proof. intros [-> _]%split_at_some. rewrite length_app. cbn. lia. Qed.

Definition is_attr (n : Node) : Prop := wf n = true /\ forall d, fits d n = (d <? MaxDepth)%nat.
Lemma wf_attr_intro path op v num hi : path <> [] -> forallb path_char path = true ->
  match op with
  | OpEq => num = 0 /\ hi = 0
  | OpRange => v = [] /\ printable num = true /\ printable hi = true /\ flt hi num = false
  | _ => v = [] /\ hi = 0 /\ printable num = true
  end -> is_attr (Attr path op v num hi).
Proof.
  intros Hp Hc Ho. split; [|intros d; apply andb_true_r]. cbn [wf]. unfold wf_attr. rewrite (bool_decide_eq_false_2 (path = [])), Hc by done. cbn [negb andb].
  destruct op; [destruct Ho as [-> ->]; done|destruct Ho as (-> & -> & ->); done..|destruct Ho as (-> & -> & -> & ->); done].
Qed.

Lemma rangeTerm_reads `{FormatFloat} `{!FloatLaws} path r : path <> [] -> forallb path_char path = true -> Z.of_nat (length r) <= slen -> reads r is_attr (rangeTerm slen path r).
Proof.
  intros Hp Hc Hl. unfold rangeTerm. destruct (split_at 93 r) as [[inner r']|] eqn:E; [|by apply reads_err]. apply split_at_len in E.
  destruct (Fields _) as [|lo [|to [|hi [|]]]]; try (by apply reads_err). destruct (bool_decide _); [cbn [negb]|by apply reads_err].
  destruct (parse_float lo) as [l|] eqn:El; [|by apply reads_err]. destruct (parse_float hi) as [h|] eqn:Eh; [|by apply reads_err].
  destruct (finite_float l) eqn:Fl; [|by apply reads_err]. destruct (finite_float h) eqn:Fh; [|by apply reads_err]. cbn [negb orb].
  destruct (flt h l) eqn:Elt; [by apply reads_err|]. split; [done|]. apply wf_attr_intro; [done..|]. split_and!; [done|by eapply printable_intro..|done].
Qed.

Lemma number_term `{FormatFloat} `{!FloatLaws} path op r : path <> [] -> forallb path_char path = true -> Z.of_nat (length r) <= slen ->
  (op = OpGt \/ op = OpGe \/ op = OpLt \/ op = OpLe) -> reads r is_attr ('(f, t) ← p_number slen r; Ok (Attr path op [] f 0, t)).
Proof.
  intros Hp Hc Hl Ho. eapply reads_then; [by apply p_number_reads|]. intros f t Ht Hf. split; [done|]. apply wf_attr_intro; [done..|]. by destruct Ho as [->|[->|[->| ->]]].
Qed.

Lemma comparison_len r op r' : comparison_at r = Some (op, r') -> (length r' < length r)%nat /\ (op = OpGt \/ op = OpGe \/ op = OpLt \/ op = OpLe).
Proof.
  unfold comparison_at. destruct r as [|c r]; [done|]. destruct (at_byte 62 _); [|destruct (at_byte 60 _); [|done]]; intros [= E]; destruct (at_byte 61 _); injection E as <- <-;
    (split; [rewrite length_drop; cbn; lia|auto]).
Qed.

Lemma p_attr_reads `{FormatFloat} `{!FloatLaws} r : r <> [] -> Z.of_nat (length r) <= slen -> reads r is_attr (p_attr slen r).
Proof.
  intros Hr Hl. destruct r as [|c0 r]; [done|]. unfold p_attr. cbn [tail]. pose proof (scan_len path_char r) as Hs. pose proof (proj2 (scan_word_spec path_char r)) as Hc.
  destruct (scan path_char r) as [path r1]. cbn [fst snd length] in *. destruct path as [|pc path]; [apply reads_err; cbn; lia|]. set (p := pc :: path) in *. assert (Hp : p <> []) by done.
  destruct r1 as [|c r2]; [apply reads_err; cbn; lia|]. cbn [at_byte drop length] in *. destruct (c =? 58); cbn [negb]; [|apply reads_err; cbn; lia]. rewrite drop_0.
  destruct (stops r2) eqn:Est; [apply reads_err; lia|]. destruct (comparison_at r2) as [[op r3]|] eqn:Ec.
  - apply comparison_len in Ec as [Hlen Hop]. apply (reads_longer r3); [cbn; lia|]. apply number_term; [done..|lia|done].
  - destruct (at_byte 91 r2); [apply (reads_longer r2); [cbn; lia|apply rangeTerm_reads; [done..|lia]]|].
    eapply reads_then; [apply p_value_reads; lia|]. intros v t Ht _. cbn [length] in Ht. split; [cbn; lia|]. by apply wf_attr_intro.
Qed.

(** ** The levels of the grammar *)

Lemma fits_as_and d n : fits d n = true -> fits_and d n = true.
Proof.
  intros Hf. destruct n; try done. cbn [fits_and fits] in *. apply andb_true_iff in Hf as [_ Hf]. rewrite forallb_forall in *. intros a Ha.
  eapply fits_less; [by apply Hf|lia].
Qed.
Lemma fits_and_less d n : fits_and (S d) n = true -> fits_and d n = true.
Proof.
  intros Hf. destruct n; try (eapply fits_less; [exact Hf|lia]). cbn [fits_and] in *. rewrite forallb_forall in *. intros a Ha. eapply fits_less; [by apply Hf|lia].
Qed.
Lemma fits_and_as_or d n : fits_and d n = true -> fits_or d n = true.
Proof.
  intros Hf. destruct n; try done. change (fits d (Or Args) = true) in Hf. cbn [fits] in Hf. apply andb_true_iff in Hf as [_ Hf]. cbn [fits_or]. rewrite forallb_forall in *.
  intros a Ha. apply fits_and_less. specialize (Hf a Ha). destruct a; exact Hf.
Qed.

Definition unary_tree (d : nat) (n : Node) : Prop := wf n = true /\ fits d n = true.
Definition and_tree (d : nat) (n : Node) : Prop := wf n = true /\ fits_and d n = true.
Definition or_tree (d : nat) (n : Node) : Prop := wf n = true /\ fits_or d n = true.

Lemma join_and d args : args <> [] -> Forall (unary_tree d) args -> and_tree d (join_args And args).
Proof.
  intros Hne Ha. destruct args as [|x [|y args]]; [done|apply Forall_cons_1 in Ha as [[Hw Hf] _]; split; [done|by apply fits_as_and]|]. rewrite List.Forall_forall in Ha.
  split; cbn [join_args wf fits_and]; [cbn [length Nat.leb andb]|]; apply forallb_forall; intros a Hin; by destruct (Ha a Hin).
Qed.
Lemma join_or d args : args <> [] -> Forall (and_tree d) args -> or_tree d (join_args Or args).
Proof.
  intros Hne Ha. destruct args as [|x [|y args]]; [done|apply Forall_cons_1 in Ha as [[Hw Hf] _]; split; [done|by apply fits_and_as_or]|]. rewrite List.Forall_forall in Ha.
  split; cbn [join_args wf fits_or]; [cbn [length Nat.leb andb]|]; apply forallb_forall; intros a Hin; by destruct (Ha a Hin).
Qed.

Lemma HasPrefix_len r kw : HasPrefix r kw = true -> (length kw <= length r)%nat.
Proof. intros [t ->]%HasPrefix_some. rewrite length_app. lia. Qed.
Lemma keyword_len r kw : keywordAt r kw = true -> (length kw <= length r)%nat.
Proof. intros [Hp _]%andb_true_iff. by apply HasPrefix_len. Qed.

Section Levels.
Context `{FormatFloat} `{!FloatLaws}.

Definition inside (r : gostring) : Prop := Z.of_nat (length r) <= slen.
(** What each level promises when called with this much fuel. *)
Definition or_ok (fuel : nat) : Prop := forall d r, inside r -> (4 * length r + 4 <= fuel)%nat -> reads r (or_tree d) (p_or slen fuel d r).
Definition or_loop_ok (fuel : nat) : Prop := forall d args r, inside r -> (4 * length r + 1 <= fuel)%nat -> args <> [] -> Forall (and_tree d) args ->
  reads (0 :: r) (or_tree d) (or_loop slen fuel d args r).
Definition and_ok (fuel : nat) : Prop := forall d r, inside r -> (4 * length r + 3 <= fuel)%nat -> reads r (and_tree d) (p_and slen fuel d r).
Definition and_loop_ok (fuel : nat) : Prop := forall d args r, inside r -> (4 * length r + 3 <= fuel)%nat -> args <> [] -> Forall (unary_tree d) args ->
  reads (0 :: r) (and_tree d) (and_loop slen fuel d args r).
Definition unary_ok (fuel : nat) : Prop := forall d r, inside r -> (4 * length r + 2 <= fuel)%nat -> reads r (unary_tree d) (p_unary slen fuel d r).
Definition atom_ok (fuel : nat) : Prop := forall d r, inside r -> (4 * length r + 1 <= fuel)%nat -> (d < MaxDepth)%nat ->
  match r with [] => False | c :: _ => isSpace c = false end -> reads r (unary_tree d) (p_atom slen fuel d r).

Lemma or_step fuel : and_ok fuel -> or_loop_ok fuel -> or_ok (S fuel).
Proof.
  intros HA HL d r Hi Hf. cbn [p_or]. eapply reads_then; [apply HA; [done|lia]|]. intros x t Ht Hx. apply (reads_longer (0 :: t)); [cbn; lia|].
  apply HL; [unfold inside in *; lia|lia|done|by apply Forall_singleton].
Qed.
Lemma and_step fuel : unary_ok fuel -> and_loop_ok fuel -> and_ok (S fuel).
Proof.
  intros HU HL d r Hi Hf. cbn [p_and]. eapply reads_then; [apply HU; [done|lia]|]. intros x t Ht Hx. apply (reads_longer (0 :: t)); [cbn; lia|].
  apply HL; [unfold inside in *; lia|lia|done|by apply Forall_singleton].
Qed.

Lemma or_loop_step fuel : and_ok fuel -> or_loop_ok fuel -> or_loop_ok (S fuel).
Proof.
  intros HA HL d args r Hi Hf Hne Hargs. cbn [or_loop]. pose proof (skipSpace_le r) as Hs. set (r0 := skipSpace r) in *. unfold inside in *.
  destruct (keywordAt r0 kw_or) eqn:Ek; cbn [negb]; [|cbn; split; [lia|by apply join_or]]. apply keyword_len in Ek. change (length kw_or) with 2%nat in Ek.
  pose proof (skipSpace_le (drop 2 r0)) as Hs'. rewrite length_drop in Hs'. destruct (closes _); [apply reads_err; lia|].
  eapply reads_then; [apply HA; unfold inside; lia|]. intros x t Ht Hx. apply (reads_longer (0 :: t)); [cbn; lia|].
  apply HL; [unfold inside; lia|lia|by destruct args|]. apply Forall_app. split; [done|by apply Forall_singleton].
Qed.

Lemma and_loop_step fuel : unary_ok fuel -> and_loop_ok fuel -> and_loop_ok (S fuel).
Proof.
  intros HU HL d args r Hi Hf Hne Hargs. cbn [and_loop]. pose proof (skipSpace_le r) as Hs. set (r0 := skipSpace r) in *. unfold inside in *.
  destruct (closes r0 || keywordAt r0 kw_or); [cbn; split; [lia|by apply join_and]|].
  assert (Hgo : forall r1, (length r1 <= length r0)%nat -> reads (0 :: r) (and_tree d) ('(next, r) ← p_unary slen fuel d r1; and_loop slen fuel d (args ++ [next]) r)).
  { intros r1 Hr1. eapply reads_then; [apply HU; unfold inside; lia|]. intros x t Ht Hx. apply (reads_longer (0 :: t)); [cbn; lia|].
    apply HL; [unfold inside; lia|lia|by destruct args|]. apply Forall_app. split; [done|by apply Forall_singleton]. }
  destruct (keywordAt r0 kw_and) eqn:Ek; [|by apply Hgo]. apply keyword_len in Ek. change (length kw_and) with 3%nat in Ek.
  pose proof (skipSpace_le (drop 3 r0)) as Hs'. rewrite length_drop in Hs'. destruct (_ || _); [apply reads_err; lia|]. apply Hgo. lia.
Qed.

Lemma skipSpace_head r c t : skipSpace r = c :: t -> isSpace c = false.
Proof. induction r as [|x r IH]; [done|]. cbn. destruct (isSpace x) eqn:E; [done|]. by intros [= <- <-]. Qed.

Lemma unary_step fuel : unary_ok fuel -> atom_ok fuel -> unary_ok (S fuel).
Proof.
  intros HU HA d r Hi Hf. cbn [p_unary]. pose proof (skipSpace_le r) as Hs. unfold inside in *. destruct (skipSpace r) as [|c r1] eqn:Er; [apply reads_err; lia|].
  set (r0 := c :: r1) in *. assert (Hl0 : length r0 = S (length r1)) by done. destruct (Nat.leb_spec MaxDepth d) as [Hd|Hd]; [apply reads_err; lia|].
  assert (Hneg : forall r2, (length r2 <= length r1)%nat -> reads r (unary_tree d) ('(x, r) ← p_unary slen fuel (S d) r2; Ok (Not x, r))).
  { intros r2 Hr2. eapply reads_then; [apply HU; unfold inside; lia|]. intros x t Ht [Hw Hfx]. split; [lia|]. split; [done|]. cbn [fits]. rewrite Hfx. by rewrite (proj2 (Nat.ltb_lt _ _) Hd). }
  destruct (_ || _); [apply reads_err; lia|]. destruct (keywordAt r0 kw_not) eqn:Ek.
  - apply keyword_len in Ek. change (length kw_not) with 3%nat in Ek. pose proof (skipSpace_le (drop 3 r0)) as Hs'. rewrite length_drop in Hs'.
    destruct (closes _); [apply reads_err; lia|]. apply Hneg. lia.
  - destruct (c =? 45); [destruct (stops r1); [apply reads_err; lia|by apply Hneg]|]. apply (reads_longer r0); [lia|]. apply HA; [unfold inside; lia|lia|done|]. by eapply skipSpace_head.
Qed.

Lemma atom_step fuel : or_ok fuel -> atom_ok (S fuel).
Proof.
  intros HO d r Hi Hf Hd Hc. unfold inside in *. destruct r as [|c r1]; [done|]. cbn [p_atom]. set (r0 := c :: r1) in *. assert (Hl0 : length r0 = S (length r1)) by done.
  assert (Hdb : (d <? MaxDepth)%nat = true) by by apply Nat.ltb_lt. assert (Htext : forall s, unary_tree d (Text s)) by (intros s; split; [done|]; cbn [fits]; by rewrite Hdb).
  destruct (c =? 40) eqn:E40.
  - pose proof (skipSpace_le r1) as Hs. destruct (skipSpace r1) as [|c2 r2] eqn:E1; [by apply reads_err|]. destruct (c2 =? 41); [by apply reads_err|].
    eapply reads_then; [apply HO; unfold inside; cbn [length] in *; lia|]. intros n t Ht [Hw Hfn]. pose proof (skipSpace_le t) as Hst. destruct (skipSpace t) as [|c3 t']; [by apply reads_err|].
    cbn [length] in *. split; [lia|]. split; [done|]. by apply fits_unary.
  - destruct (c =? 41) eqn:E41; [by apply reads_err|]. destruct (c =? 34); [eapply reads_then; [by apply quoted_reads|]; intros s t Ht _; split; [done|apply Htext]|].
    destruct (c =? 64).
    { pose proof (p_attr_reads r0 ltac:(done) Hi) as Ha. destruct (p_attr slen r0) as [[n t]|]; [|exact Ha]. destruct Ha as [Ht [Hw Hfn]]. split; [done|]. split; [done|]. by rewrite Hfn. }
    destruct (keyAt r0) as [key|] eqn:Ek.
    { apply keyAt_len in Ek as [Hk1 Hk2]. pose proof (p_label_reads key r0 Hi Hk1 Hk2) as Ha. destruct (p_label slen key r0) as [[n t]|]; [|exact Ha].
      destruct Ha as [Ht [Hw Hfn]]. split; [done|]. split; [done|]. by rewrite Hfn. }
    unfold bare. destruct (scan_some bare_char c r1) as [w Hw]; [unfold bare_char; by rewrite Hc, E40, E41|]. pose proof (scan_len bare_char r0) as Hlen. unfold r0 in *. rewrite Hw in Hlen.
    destruct (scan bare_char (c :: r1)) as [w0 t]. cbn [snd length] in *. split; [cbn; lia|apply Htext].
Qed.

Lemma levels fuel : or_ok fuel /\ or_loop_ok fuel /\ and_ok fuel /\ and_loop_ok fuel /\ unary_ok fuel /\ atom_ok fuel.
Proof.
  induction fuel as [|fuel (HO & HOL & HA & HAL & HU & HT)]; [split_and!; intros ?; intros; lia|].
  split_and!; [by apply or_step|by apply or_loop_step|by apply and_step|by apply and_loop_step|by apply unary_step|by apply atom_step].
Qed.
End Levels.
End Calls.

Section Total.
Context `{ParseFloat} `{FormatFloat} `{!FloatLaws}.

(** A tree the parser can return. *)
Definition parse_tree (n : Node) : Prop := wf n = true /\ fits_or 0 n = true.

Lemma parse_outcome q :
  match Parse q with
  | Ok None => skipSpace q = []
  | Ok (Some n) => parse_tree n
  | Err (Error _ col) => 1 <= col <= Z.of_nat (length q) + 1
  | Err OutOfFuel => False
  end.
Proof.
  unfold Parse. pose proof (skipSpace_le q) as Hs. destruct (skipSpace q) as [|c r] eqn:E; [done|].
  destruct (levels (Z.of_nat (length q)) (fuel_for (c :: r))) as [HO _]. specialize (HO O (c :: r) ltac:(unfold inside; lia) ltac:(unfold fuel_for; lia)).
  destruct (p_or _ _ _ _) as [[n t]|[m col|]]; cbn in HO |- *; [|done..]. destruct HO as [Ht Hn]. pose proof (skipSpace_le t) as Hst.
  destruct (skipSpace t) as [|d t'] eqn:Et; [done|]. cbn [length] in *. lia.
Qed.
End Total.

(** ** Words *)

Lemma scan_app p w tail : forallb p w = true -> match tail with [] => True | c :: _ => p c = false end -> scan p (w ++ tail) = (w, tail).
Proof.
  intros Hw Ht. induction w as [|c w IH]; cbn in *; [destruct tail; cbn; [done|by rewrite Ht]|]. apply andb_true_iff in Hw as [Hc Hw]. by rewrite Hc, IH.
Qed.

Lemma scan_prefix p w tail : match tail with [] => True | c :: _ => p c = false end -> scan p (w ++ tail) = ((scan p w).1, (scan p w).2 ++ tail).
Proof. intros Ht. induction w as [|c w IH]; cbn; [destruct tail; cbn; [done|by rewrite Ht]|]. destruct (p c); [|done]. rewrite IH. by destruct (scan p w). Qed.

Lemma stops_char c : isSpace c || (c =? 41) = true -> bare_char c = false.
Proof. unfold bare_char. destruct (isSpace c), (c =? 41), (c =? 40); done. Qed.

Lemma bare_app w tail : forallb bare_char w = true -> stops tail = true -> bare (w ++ tail) = (w, tail).
Proof. intros Hw Ht. apply scan_app; [done|]. destruct tail; [done|]. by apply stops_char. Qed.

Lemma safe_char c : negb ((c <=? 32) || (c =? 127) || (c =? 40) || (c =? 41) || (c =? 34) || (c =? 92)) = true -> bare_char c = true /\ c <> 34.
Proof.
  unfold bare_char, isSpace. intros Hc%negb_true_iff. repeat (apply orb_false_iff in Hc as [Hc ?]). apply Z.leb_gt in Hc.
  repeat match goal with H : (_ =? _) = false |- _ => apply Z.eqb_neq in H end. split; [|done]. by rewrite !(proj2 (Z.eqb_neq c _)) by lia.
Qed.

Lemma bareSafe_chars v : bareSafe v = true -> forallb bare_char v = true /\ exists c v', v = c :: v' /\ bare_char c = true /\ c <> 34.
Proof.
  destruct v as [|c v]; [done|]. unfold bareSafe. intros Hs. split.
  - apply forallb_forall. rewrite forallb_forall in Hs. intros x Hx. by apply safe_char, Hs.
  - cbn [forallb] in Hs. apply andb_true_iff in Hs as [Hc _]. apply safe_char in Hc as [H1 H2]. by exists c, v.
Qed.

(** ** Quotes *)

Lemma quoted_app slen v tail : quoted slen (quote v ++ tail) = Ok (v, tail).
Proof.
  unfold quoted. set (open := quote v ++ tail). change (List.tl open) with (((v ≫= escape) ++ [34]) ++ tail). rewrite <- app_assoc. cbn [app].
  enough (Hgo : forall acc, quoted_rest slen open ((v ≫= escape) ++ 34 :: tail) acc = Ok (acc ++ v, tail)) by exact (Hgo []).
  clearbody open. induction v as [|c v IH]; intros acc; [cbn; by rewrite app_nil_r|]. change ((c :: v) ≫= escape) with (escape c ++ (v ≫= escape)). rewrite <- app_assoc.
  assert (Hacc : acc ++ c :: v = (acc ++ [c]) ++ v) by by rewrite <- app_assoc. rewrite Hacc, <- (IH (acc ++ [c])). clear Hacc IH. generalize ((v ≫= escape) ++ 34 :: tail). intros r.
  unfold escape. destruct (c =? 34) eqn:E1; [apply Z.eqb_eq in E1 as ->; reflexivity|]. destruct (c =? 92) eqn:E2; [apply Z.eqb_eq in E2 as ->; reflexivity|]. cbn [orb].
  destruct (c =? 10) eqn:E3; [apply Z.eqb_eq in E3 as ->; reflexivity|]. destruct (c =? 9) eqn:E4; [apply Z.eqb_eq in E4 as ->; reflexivity|].
  destruct (c =? 13) eqn:E5; [apply Z.eqb_eq in E5 as ->; reflexivity|]. cbn [app quoted_rest]. by rewrite E1, E2.
Qed.

Lemma value_bare slen what c r : stops (c :: r) = false -> c <> 34 -> p_value slen what (c :: r) = Ok (bare (c :: r)).
Proof. intros Hs Hc. unfold p_value. rewrite Hs. cbn [at_byte]. by rewrite (proj2 (Z.eqb_neq c 34)). Qed.

Lemma bare_not_stop c r : bare_char c = true -> stops (c :: r) = false.
Proof. unfold bare_char. cbn. by destruct (isSpace c), (c =? 40), (c =? 41). Qed.

Lemma value_quoted slen what v tail : p_value slen what (quote v ++ tail) = Ok (v, tail).
Proof. unfold p_value. change (stops (quote v ++ tail)) with false. exact (quoted_app slen v tail). Qed.

Lemma value_app slen what v tail : stops tail = true -> p_value slen what (valueText v ++ tail) = Ok (v, tail).
Proof.
  intros Ht. unfold valueText. destruct (bareSafe v) eqn:E; [|apply value_quoted]. apply bareSafe_chars in E as (Hb & c & v' & -> & Hc & Hq).
  change ((c :: v') ++ tail) with (c :: v' ++ tail). rewrite value_bare by (done || by apply bare_not_stop). f_equal. by apply (bare_app (c :: v')).
Qed.

(** ** Keywords *)

Lemma keyword_word w tail : stops tail = true -> forallb bare_char w = true ->
  forall kw, forallb bare_char kw = true -> w <> kw -> keywordAt (w ++ tail) kw = false.
Proof.
  intros Ht. induction w as [|c w IH]; intros Hw kw Hk Hne.
  - destruct kw as [|k kw]; [done|]. cbn in Hk. apply andb_true_iff in Hk as [Hk _]. unfold keywordAt. destruct tail as [|c tail]; [done|]. cbn in Ht |- *.
    destruct (Z.eqb_spec c k) as [->|]; [|done]. apply stops_char in Ht. congruence.
  - cbn in Hw. apply andb_true_iff in Hw as [Hc Hw]. destruct kw as [|k kw].
    + unfold keywordAt. cbn. unfold bare_char in Hc. by destruct (isSpace c), (c =? 40), (c =? 41).
    + cbn in Hk. apply andb_true_iff in Hk as [_ Hk]. unfold keywordAt. cbn. destruct (Z.eqb_spec c k) as [->|]; [|done]. apply IH; [done..|congruence].
Qed.

(** A term that starts here is not mistaken for the end of a list or for an operator. *)
Definition fresh (r : gostring) : Prop :=
  match r with [] => False | c :: _ => isSpace c = false /\ (c =? 41) = false end
  /\ keywordAt r kw_or = false /\ keywordAt r kw_and = false.

Lemma fresh_skip r : fresh r -> skipSpace r = r.
Proof. intros [Hc _]. destruct r as [|c r]; [done|]. cbn. by rewrite (proj1 Hc). Qed.
Lemma fresh_open r : fresh r -> closes r = false /\ stops r = false.
Proof. intros [Hc _]. destruct r as [|c r]; [done|]. destruct Hc as [H1 H2]. cbn. by rewrite H1, H2. Qed.

(** ** Terms *)

Section Terms.
Context `{ParseFloat} `{FormatFloat} `{!FloatLaws} (slen : Z).

Definition unary_text (n : Node) : gostring := match n with Or _ | And _ => parens (String_ n) | _ => String_ n end.
Definition and_text (n : Node) : gostring := match n with Or _ => parens (String_ n) | _ => String_ n end.

Lemma reserved_key k : isReserved k = true -> k ∈ ReservedKeys.
Proof. intros (r & Hr & ->%bool_decide_eq_true)%existsb_exists. by apply list_elem_of_In. Qed.

(** One of the six keys at the cursor. *)
Lemma key_ahead k r : isReserved k = true -> keyAt (k ++ 58 :: r) = Some k /\ fresh (k ++ 58 :: r) /\ keywordAt (k ++ 58 :: r) kw_not = false
  /\ exists c k', k = c :: k' /\ ((c =? 45) || (c =? 40) || (c =? 41) || (c =? 34) || (c =? 64)) = false.
Proof.
  intros Hk%reserved_key. unfold ReservedKeys in Hk. cbn [fmap list_fmap] in Hk.
  repeat (apply elem_of_cons in Hk as [->|Hk]; [split_and!; [reflexivity|repeat split; reflexivity|reflexivity|eexists _, _; split; reflexivity]|]). by apply not_elem_of_nil in Hk.
Qed.

Lemma text_bare v : bareSafe v && negb (match v with c :: _ => (c =? 45) || (c =? 64) | [] => false end) && negb (bool_decide (c_colon ∈ v)) && negb (isKeyword v) = true ->
  forall tail, stops tail = true -> fresh (v ++ tail) /\ keywordAt (v ++ tail) kw_not = false /\ keyAt (v ++ tail) = None
  /\ exists c v', v = c :: v' /\ ((c =? 45) || (c =? 40) || (c =? 41) || (c =? 34) || (c =? 64)) = false /\ forallb bare_char v = true.
Proof.
  intros [[[Hv Hfst]%andb_true_iff Hcol]%andb_true_iff Hkw]%andb_true_iff tail Ht.
  apply bareSafe_chars in Hv as (Hb & c & v' & -> & Hc & Hq). apply negb_true_iff, bool_decide_eq_false in Hcol. apply negb_true_iff in Hkw, Hfst. unfold isKeyword in Hkw.
  apply orb_false_iff in Hkw as [[Hk1 Hk2]%orb_false_iff Hk3]. apply bool_decide_eq_false in Hk1, Hk2, Hk3. apply orb_false_iff in Hfst as [E45 E64].
  assert (Hchar : isSpace c = false /\ (c =? 40) = false /\ (c =? 41) = false) by (unfold bare_char in Hc; by destruct (isSpace c), (c =? 40), (c =? 41)). destruct Hchar as (Hs & H40 & H41).
  split_and!.
  - split; [done|]. split; by apply keyword_word.
  - by apply keyword_word.
  - cbn [app keyAt]. destruct (letter c) eqn:El; [|done]. change (c :: v' ++ tail) with ((c :: v') ++ tail). rewrite scan_prefix.
    2:{ destruct tail as [|t tail]; [done|]. cbn in Ht. unfold key_char, letter, digit, between, isSpace in *. lia. }
    pose proof (scan_word_spec key_char (c :: v')) as [Heq _]. destruct (scan key_char (c :: v')) as [key rest]. cbn [fst snd] in *. destruct rest as [|d rest]; cbn [app].
    + destruct tail as [|t tail]; [done|]. cbn in Ht. destruct (Z.eqb_spec t 58) as [->|]; done.
    + destruct (Z.eqb_spec d 58) as [->|]; [|done]. destruct Hcol. rewrite Heq. apply elem_of_app. right. left.
  - exists c, v'. rewrite E45, H40, H41, E64, (proj2 (Z.eqb_neq c 34)) by done. done.
Qed.

(** *** Attributes *)

Lemma float_bare c : float_char c = true -> bare_char c = true /\ c <> 61 /\ c <> 93 /\ between 0 127 c = true /\ (between 9 13 c || (c =? 32)) = false.
Proof. unfold float_char, bare_char, isSpace, digit, between. lia. Qed.

Lemma number_word f : printable f = true -> parse_float (format_float f) = Some f /\ finite_float f = true
  /\ exists c w, format_float f = c :: w /\ forallb float_char (c :: w) = true.
Proof.
  intros [Hu Hf]%andb_true_iff. assert (Hr : is_u64 f) by (unfold u64b, is_u64 in *; lia). split_and!; [by apply format_parse|done|].
  destruct (format_chars f Hr Hf) as [Hne Hc]. destruct (format_float f) as [|c w]; [done|]. by exists c, w.
Qed.

Lemma number_app f tail : printable f = true -> stops tail = true -> p_number slen (format_float f ++ tail) = Ok (f, tail).
Proof.
  intros (Hp & Hf & c & w & Hw & Hc)%number_word Ht. unfold p_number. rewrite bare_app; [|rewrite Hw; apply forallb_forall; intros x Hx; rewrite forallb_forall in Hc; by apply float_bare, Hc|done].
  cbv beta iota. rewrite Hw in Hp |- *. by rewrite Hp, Hf.
Qed.

Lemma fields_word w acc rs : forallb float_char w = true -> fields_from acc (runes w ++ rs) = fields_from (acc ++ w) rs.
Proof.
  revert acc. induction w as [|c w IH]; intros acc Hw; [by rewrite app_nil_r|]. cbn in Hw. apply andb_true_iff in Hw as [Hc Hw]. apply float_bare in Hc as (_ & _ & _ & Ha & Hs).
  rewrite runes_ascii by done. change ((Valid_ [c] :: runes w) ++ rs) with (Valid_ [c] :: (runes w ++ rs)). cbn [fields_from space_rune]. rewrite Hs. cbn [rune_bytes_of]. rewrite IH by done. by rewrite <- app_assoc.
Qed.

Lemma range_fields a b : forallb float_char a = true -> forallb float_char b = true -> a <> [] -> b <> [] -> Fields (a ++ str " TO " ++ b) = [a; str "TO"; b].
Proof.
  intros Ha Hb Hna Hnb. unfold Fields. change (str " TO " ++ b) with (32 :: 84 :: 79 :: 32 :: b). rewrite runes_app_start by done. rewrite fields_word by done. rewrite !runes_ascii by done.
  cbn [app]. destruct a as [|x a]; [done|]. cbn [fields_from space_rune between rune_bytes_of app Z.leb Z.eqb orb andb Z.compare Pos.compare Pos.compare_cont Pos.eqb]. rewrite <- (app_nil_r (runes b)), fields_word by done.
  by destruct b.
Qed.

Lemma split_range a b tail : forallb float_char a = true -> forallb float_char b = true ->
  split_at 93 (91 :: a ++ str " TO " ++ b ++ 93 :: tail) = Some (91 :: a ++ str " TO " ++ b, tail).
Proof.
  intros Ha Hb. replace (91 :: a ++ str " TO " ++ b ++ 93 :: tail) with ((91 :: a ++ str " TO " ++ b) ++ 93 :: tail) by (cbn; rewrite <- !app_assoc; done). apply split_at_app.
  intros [|[Hin|[Hin|Hin]%elem_of_app]%elem_of_app]%elem_of_cons; [done|..].
  - rewrite forallb_forall in Ha. apply list_elem_of_In, Ha, float_bare in Hin. by destruct Hin as (_ & _ & Hin & _).
  - revert Hin. by apply (bool_decide_eq_false (93 ∈ str " TO ")).
  - rewrite forallb_forall in Hb. apply list_elem_of_In, Hb, float_bare in Hin. by destruct Hin as (_ & _ & Hin & _).
Qed.

Lemma range_app path lo hi tail : printable lo = true -> printable hi = true -> flt hi lo = false ->
  rangeTerm slen path (91 :: format_float lo ++ str " TO " ++ format_float hi ++ 93 :: tail) = Ok (Attr path OpRange [] lo hi, tail).
Proof.
  intros (Hp & Hf & c & w & Hw & Hc)%number_word (Hp' & Hf' & c' & w' & Hw' & Hc')%number_word Hlt. unfold rangeTerm.
  rewrite split_range by (rewrite ?Hw, ?Hw'; done). change (drop 1 (91 :: ?x)) with x. rewrite range_fields by (rewrite ?Hw, ?Hw'; done). rewrite bool_decide_eq_true_2 by done. cbn [negb]. by rewrite Hp, Hp', Hf, Hf', Hlt.
Qed.

(** After the path and the colon. *)
Definition attr_operand (op : Op) (v : gostring) (num hi : Z) : gostring :=
  match op with
  | OpGt => 62 :: format_float num
  | OpGe => 62 :: 61 :: format_float num
  | OpLt => 60 :: format_float num
  | OpLe => 60 :: 61 :: format_float num
  | OpRange => 91 :: format_float num ++ str " TO " ++ format_float hi ++ [93]
  | OpEq => if at_byte 62 v || at_byte 60 v || at_byte 91 v then quote v else valueText v
  end.
Lemma attr_String_operand path op v num hi : attr_String path op v num hi = 64 :: path ++ 58 :: attr_operand op v num hi.
Proof.
  unfold attr_String, attr_operand. destruct op; cbn [app]; rewrite <- ?app_assoc; try done. destruct v as [|c v]; [done|]. cbn [at_byte].
  by destruct (_ || _).
Qed.

Lemma path_colon path r : forallb path_char path = true -> scan path_char (path ++ 58 :: r) = (path, 58 :: r).
Proof. intros Hp. by apply scan_app. Qed.

Lemma operand_plain v tail : (at_byte 62 v || at_byte 60 v || at_byte 91 v) = false -> stops tail = true ->
  comparison_at (valueText v ++ tail) = None /\ at_byte 91 (valueText v ++ tail) = false /\ stops (valueText v ++ tail) = false.
Proof.
  intros [[H62 H60]%orb_false_iff H91]%orb_false_iff Ht. unfold valueText. destruct (bareSafe v) eqn:E; [|done]. apply bareSafe_chars in E as (Hb & c & v' & -> & Hc & Hq).
  unfold comparison_at. cbn [at_byte app] in *. rewrite H62, H60, H91. split_and!; [done..|]. by apply bare_not_stop.
Qed.

Lemma number_not_eq f tail : printable f = true -> at_byte 61 (format_float f ++ tail) = false /\ stops (format_float f ++ tail) = false.
Proof.
  intros (_ & _ & c & w & -> & Hc)%number_word. cbn in Hc. apply andb_true_iff in Hc as [Hc _]. apply float_bare in Hc as (Hb & Hne & _). split; [cbn; by apply Z.eqb_neq|].
  by apply (bare_not_stop c (w ++ tail)).
Qed.

Lemma attr_app path op v num hi tail : wf_attr path op v num hi = true -> stops tail = true ->
  p_attr slen (64 :: path ++ 58 :: attr_operand op v num hi ++ tail) = Ok (Attr path op v num hi, tail).
Proof.
  intros [[Hp Hpc]%andb_true_iff Ho]%andb_true_iff Ht. unfold p_attr. change (List.tl (64 :: ?r)) with r. rewrite path_colon by done. destruct path as [|pc path]; [done|]. set (p := pc :: path) in *.
  change (at_byte 58 (58 :: ?r)) with true. change (drop 1 (58 :: ?r)) with r. cbn [negb]. destruct op; cbn [attr_operand] in *.
  - apply andb_true_iff in Ho as [->%Z.eqb_eq ->%Z.eqb_eq]. destruct (at_byte 62 v || at_byte 60 v || at_byte 91 v) eqn:E.
    + change (stops (quote v ++ tail)) with false. change (comparison_at (quote v ++ tail)) with (@None (Op * gostring)). change (at_byte 91 (quote v ++ tail)) with false. cbv iota. by rewrite value_quoted.
    + destruct (operand_plain v tail E Ht) as (-> & -> & ->). by rewrite value_app.
  - apply andb_true_iff in Ho as [[->%bool_decide_eq_true ->%Z.eqb_eq]%andb_true_iff Hn]. change ((62 :: ?r) ++ tail) with (62 :: r ++ tail). unfold comparison_at. cbn [stops isSpace at_byte Z.eqb Pos.eqb orb]. change (drop 1 (62 :: ?r)) with r. rewrite (proj1 (number_not_eq num tail Hn)). by rewrite number_app.
  - apply andb_true_iff in Ho as [[->%bool_decide_eq_true ->%Z.eqb_eq]%andb_true_iff Hn]. change ((62 :: 61 :: ?r) ++ tail) with (62 :: 61 :: r ++ tail). unfold comparison_at. cbn [stops isSpace at_byte Z.eqb Pos.eqb orb drop]. rewrite !drop_0. cbn [at_byte Z.eqb Pos.eqb]. by rewrite number_app.
  - apply andb_true_iff in Ho as [[->%bool_decide_eq_true ->%Z.eqb_eq]%andb_true_iff Hn]. change ((60 :: ?r) ++ tail) with (60 :: r ++ tail). unfold comparison_at. cbn [stops isSpace at_byte Z.eqb Pos.eqb orb]. change (drop 1 (60 :: ?r)) with r. rewrite (proj1 (number_not_eq num tail Hn)). by rewrite number_app.
  - apply andb_true_iff in Ho as [[->%bool_decide_eq_true ->%Z.eqb_eq]%andb_true_iff Hn]. change ((60 :: 61 :: ?r) ++ tail) with (60 :: 61 :: r ++ tail). unfold comparison_at. cbn [stops isSpace at_byte Z.eqb Pos.eqb orb drop]. rewrite !drop_0. cbn [at_byte Z.eqb Pos.eqb]. by rewrite number_app.
  - apply andb_true_iff in Ho as [[[->%bool_decide_eq_true Hn]%andb_true_iff Hh]%andb_true_iff Hlt%negb_true_iff].
    change ((91 :: ?r) ++ tail) with (91 :: r ++ tail). rewrite <- !app_assoc. cbn [app]. cbn [stops isSpace at_byte Z.eqb Pos.eqb orb]. unfold comparison_at. cbn [at_byte Z.eqb Pos.eqb]. by apply range_app.
Qed.

(** *** Atoms *)

(** What a term looks like from outside. *)
Lemma fresh_byte c r : c ∈ [34; 40; 45; 64] -> fresh (c :: r) /\ keywordAt (c :: r) kw_not = false.
Proof. intros Hc. repeat (apply elem_of_cons in Hc as [->|Hc]; [repeat split; reflexivity|]). by apply not_elem_of_nil in Hc. Qed.

Lemma unary_fresh n tail : wf n = true -> stops tail = true -> fresh (unary_text n ++ tail).
Proof.
  intros Hw Ht. destruct n; cbn [unary_text String_].
  - apply fresh_byte. by vm_compute; repeat constructor.
  - apply fresh_byte. by vm_compute; repeat constructor.
  - apply (fresh_byte 45). by vm_compute; repeat constructor.
  - unfold text_String. destruct (_ && _) eqn:E; [by apply text_bare|]. apply (fresh_byte 34). left.
  - rewrite <- app_assoc. by apply (key_ahead Key).
  - rewrite attr_String_operand. apply (fresh_byte 64). repeat constructor.
Qed.

(** Reading one term at some depth with some fuel. *)
Definition unary_reads (n : Node) : Prop := forall d fuel tail, stops tail = true -> fits d n = true ->
  (4 * length (unary_text n ++ tail) + 2 <= fuel)%nat -> p_unary slen fuel d (unary_text n ++ tail) = Ok (n, tail).

Lemma unary_atom d fuel r : fresh r -> keywordAt r kw_not = false -> at_byte 45 r = false -> (d < MaxDepth)%nat ->
  p_unary slen (S fuel) d r = p_atom slen fuel d r.
Proof.
  intros Hf Hn Hm Hd. cbn [p_unary]. rewrite fresh_skip by done. destruct Hf as (Hc & Ho & Ha). destruct r as [|c r]; [done|]. rewrite (proj2 (Nat.leb_gt _ _)) by done.
  rewrite Ho, Ha, Hn. cbn [orb]. by change (c =? 45) with (at_byte 45 (c :: r)); rewrite Hm.
Qed.

Lemma text_reads v : unary_reads (Text v).
Proof.
  intros d fuel tail Ht Hf Hfuel. cbn [fits] in Hf. rewrite andb_true_r in Hf. apply Nat.ltb_lt in Hf. cbn [unary_text String_] in *. unfold text_String in *. destruct fuel as [|[|fuel]]; [lia..|].
  destruct (_ && _) eqn:E.
  - destruct (text_bare v E tail Ht) as (Hfr & Hn & Hk & c & v' & -> & Hc & Hb). do 4 (apply orb_false_iff in Hc as [Hc ?]).
    rewrite unary_atom; [|done..]. cbn [p_atom app]. repeat match goal with H : (_ =? _) = false |- _ => rewrite H; clear H end.
    change (c :: v' ++ tail) with ((c :: v') ++ tail). rewrite Hk, bare_app by done. done.
  - rewrite unary_atom; [|by apply (fresh_byte 34); left|by apply (fresh_byte 34); left|done|done]. cbn [p_atom quote app]. cbn [Z.eqb Pos.eqb]. change (34 :: ((v ≫= escape) ++ [34]) ++ tail) with (quote v ++ tail). by rewrite quoted_app.
Qed.

Lemma label_reads k v : isReserved k = true -> unary_reads (Label k v).
Proof.
  intros Hk d fuel tail Ht Hf Hfuel. cbn [fits] in Hf. rewrite andb_true_r in Hf. apply Nat.ltb_lt in Hf. cbn [unary_text String_] in *. destruct fuel as [|[|fuel]]; [lia..|].
  rewrite <- app_assoc. cbn [app]. destruct (key_ahead k (valueText v ++ tail) Hk) as (Hka & Hfr & Hn & c & k' & Ek & Hc). do 4 (apply orb_false_iff in Hc as [Hc ?]).
  rewrite unary_atom; [|done|done|by rewrite Ek|done]. cbn [p_atom]. destruct (k ++ 58 :: valueText v ++ tail) as [|c1 r1] eqn:Er; [by rewrite Ek in Er|].
  assert (c1 = c) as -> by (rewrite Ek in Er; by injection Er). repeat match goal with H : (_ =? _) = false |- _ => rewrite H; clear H end. rewrite Hka. unfold p_label. rewrite Hk, <- Er. cbn [negb].
  change (58 :: valueText v ++ tail) with ([58] ++ (valueText v ++ tail)). rewrite app_assoc. replace (length k + 1)%nat with (length (k ++ [58])) by (rewrite length_app; done). rewrite drop_app_length. by rewrite value_app.
Qed.

Lemma attr_reads path op v num hi : wf_attr path op v num hi = true -> unary_reads (Attr path op v num hi).
Proof.
  intros Hw d fuel tail Ht Hf Hfuel. cbn [fits] in Hf. rewrite andb_true_r in Hf. apply Nat.ltb_lt in Hf. cbn [unary_text String_] in *. rewrite attr_String_operand in *. destruct fuel as [|[|fuel]]; [lia..|].
  rewrite unary_atom; [|by apply (fresh_byte 64); repeat constructor|by apply (fresh_byte 64); repeat constructor|done|done]. cbn [p_atom app Z.eqb Pos.eqb].
  rewrite <- app_assoc. cbn [app]. by apply attr_app.
Qed.

Lemma not_reads x : wf x = true -> unary_reads x -> unary_reads (Not x).
Proof.
  intros Hw HU d fuel tail Ht Hf Hfuel. cbn [fits] in Hf. apply andb_true_iff in Hf as [Hd%Nat.ltb_lt Hf]. change (unary_text (Not x)) with (45 :: unary_text x) in *. cbn [app length] in *. destruct fuel as [|fuel]; [lia|].
  pose proof (fresh_byte 45 (unary_text x ++ tail) ltac:(repeat constructor)) as [Hfr Hn]. cbn [p_unary]. rewrite fresh_skip by done. destruct Hfr as (_ & Ho & Ha). rewrite (proj2 (Nat.leb_gt _ _)) by done. rewrite Ho, Ha, Hn. cbn [orb Z.eqb Pos.eqb].
  rewrite (proj2 (fresh_open _ (unary_fresh x tail Hw Ht))). rewrite HU by (done || lia). done.
Qed.

(** *** Lists of terms *)

Definition s_and : gostring := [32].
Definition s_or : gostring := str " OR ".

(** What may follow a conjunction. *)
Definition and_end (tail : gostring) : Prop := stops tail = true /\ (closes (skipSpace tail) || keywordAt (skipSpace tail) kw_or) = true.
Definition and_reads (n : Node) : Prop := forall d fuel tail, and_end tail -> fits_and d n = true ->
  (4 * length (and_text n ++ tail) + 3 <= fuel)%nat -> p_and slen fuel d (and_text n ++ tail) = Ok (n, skipSpace tail).
Definition or_reads (n : Node) : Prop := forall d fuel tail, closes tail = true -> fits_or d n = true ->
  (4 * length (String_ n ++ tail) + 4 <= fuel)%nat -> p_or slen fuel d (String_ n ++ tail) = Ok (n, tail).

Definition listed (text : Node -> gostring) (sep : gostring) (ys : list Node) : gostring := ys ≫= fun y => sep ++ text y.
Lemma listed_cons text sep y ys : listed text sep (y :: ys) = sep ++ text y ++ listed text sep ys.
Proof. unfold listed. cbn. by rewrite <- app_assoc. Qed.
Lemma join_listed text sep x ys : join sep (text <$> x :: ys) = text x ++ listed text sep ys.
Proof.
  revert x. induction ys as [|y ys IH]; intros x; [cbn; by rewrite app_nil_r|]. rewrite listed_cons. change (join sep (text <$> x :: y :: ys)) with (text x ++ sep ++ join sep (text <$> y :: ys)). by rewrite IH.
Qed.

Lemma and_end_stop ys tail : and_end tail -> stops (listed unary_text s_and ys ++ tail) = true.
Proof. intros [Hs _]. by destruct ys. Qed.

Lemma and_loop_done fuel d acc tail : and_end tail -> (1 <= fuel)%nat -> and_loop slen fuel d acc tail = Ok (join_args And acc, skipSpace tail).
Proof. intros [_ He] Hf. destruct fuel as [|fuel]; [lia|]. cbn [and_loop]. by rewrite He. Qed.

Lemma and_loop_reads d ys : Forall (fun y => wf y = true /\ fits d y = true /\ unary_reads y) ys -> forall fuel acc tail, and_end tail ->
  (4 * length (listed unary_text s_and ys ++ tail) + 3 <= fuel)%nat -> and_loop slen fuel d acc (listed unary_text s_and ys ++ tail) = Ok (join_args And (acc ++ ys), skipSpace tail).
Proof.
  induction 1 as [|y ys (Hw & Hf & HU) _ IH]; intros fuel acc tail He Hfuel; [rewrite app_nil_r; apply and_loop_done; [done|lia]|].
  rewrite listed_cons in *. rewrite <- !app_assoc in *. change (s_and ++ ?r) with (32 :: r) in *. cbn [length] in Hfuel. destruct fuel as [|fuel]; [lia|].
  pose proof (and_end_stop ys tail He) as Hst. pose proof (unary_fresh y _ Hw Hst) as Hfr. cbn [and_loop]. change (skipSpace (32 :: ?r)) with (skipSpace r). rewrite (fresh_skip _ Hfr), (proj1 (fresh_open _ Hfr)).
  destruct Hfr as (_ & Ho & Ha). rewrite Ho, Ha. cbn [orb]. rewrite HU by (done || lia). change (and_loop slen fuel d (acc ++ [y]) (listed unary_text s_and ys ++ tail) = Ok (join_args And (acc ++ y :: ys), skipSpace tail)).
  rewrite IH by (done || rewrite length_app in Hfuel; lia). by rewrite <- app_assoc.
Qed.

Lemma unary_as_and n : match n with And _ => False | _ => True end -> unary_reads n -> and_reads n.
Proof.
  intros Hn HU d fuel tail He Hf Hfuel. assert (Ht : and_text n = unary_text n) by by destruct n. assert (Hu : fits d n = true) by by destruct n. rewrite Ht in *. destruct fuel as [|fuel]; [lia|]. cbn [p_and].
  rewrite HU by (done || apply He || lia). change (and_loop slen fuel d [n] tail = Ok (n, skipSpace tail)). rewrite and_loop_done by (done || lia). done.
Qed.

Lemma and_args_reads args : (2 <=? length args)%nat && forallb wf args = true -> Forall (fun a => wf a = true -> unary_reads a) args -> and_reads (And args).
Proof.
  intros [Hlen Hw]%andb_true_iff HU d fuel tail He Hf Hfuel. change (and_text (And args)) with (join s_and (unary_text <$> args)) in *. cbn [fits_and] in Hf. rewrite forallb_forall in Hw, Hf.
  destruct args as [|x [|y ys]]; [done..|]. rewrite join_listed, <- app_assoc in *. assert (Hall : Forall (fun y => wf y = true /\ fits d y = true /\ unary_reads y) (x :: y :: ys)).
  { rewrite List.Forall_forall in *. intros a Ha. split_and!; [by apply Hw|by apply Hf|]. apply HU; [done|by apply Hw]. }
  apply Forall_cons_1 in Hall as [(Hwx & Hfx & HUx) Hall]. destruct fuel as [|fuel]; [lia|]. cbn [p_and]. rewrite HUx by (done || by apply and_end_stop || lia).
  change (and_loop slen fuel d [x] (listed unary_text s_and (y :: ys) ++ tail) = Ok (And (x :: y :: ys), skipSpace tail)). assert (Hx : (0 < length (unary_text x))%nat).
  { destruct (unary_fresh x [] Hwx eq_refl) as [Hc _]. rewrite app_nil_r in Hc. destruct (unary_text x); [done|cbn; lia]. }
  rewrite and_loop_reads by (done || rewrite (length_app (unary_text x)) in Hfuel; lia). done.
Qed.

Lemma and_fresh n tail : wf n = true -> stops tail = true -> match and_text n ++ tail with [] => False | c :: _ => isSpace c = false /\ (c =? 41) = false end.
Proof.
  intros Hw Ht. destruct n as [args|args|x|v|k v|path op v num hi]; try (exact (proj1 (unary_fresh _ tail Hw Ht))). change (and_text (And args)) with (join s_and (unary_text <$> args)).
  cbn [wf] in Hw. apply andb_true_iff in Hw as [Hlen Hw]. destruct args as [|x ys]; [done|]. rewrite join_listed, <- app_assoc. apply unary_fresh; [by apply andb_true_iff in Hw as [Hw _]|]. by destruct ys.
Qed.
Lemma or_end_stop ys tail : closes tail = true -> and_end (listed and_text s_or ys ++ tail).
Proof.
  intros Hc. destruct ys as [|y ys].
  - cbn [listed mbind list_bind app]. destruct tail as [|c tail]; [done|]. cbn in Hc. apply Z.eqb_eq in Hc as ->. done.
  - rewrite listed_cons, <- !app_assoc. done.
Qed.

Lemma skip_or r : skipSpace (s_or ++ r) = 79 :: 82 :: 32 :: r.
Proof. done. Qed.

Lemma or_loop_reads d ys : Forall (fun y => wf y = true /\ fits_and d y = true /\ and_reads y) ys -> forall fuel acc tail, closes tail = true ->
  (4 * length (listed and_text s_or ys ++ tail) + 1 <= fuel)%nat -> or_loop slen fuel d acc (skipSpace (listed and_text s_or ys ++ tail)) = Ok (join_args Or (acc ++ ys), tail).
Proof.
  induction 1 as [|y ys (Hw & Hf & HA) _ IH]; intros fuel acc tail He Hfuel.
  - rewrite app_nil_r. change (listed and_text s_or [] ++ tail) with tail in *. destruct fuel as [|fuel]; [lia|]. destruct tail as [|c tail]; [done|]. cbn in He. apply Z.eqb_eq in He as ->. done.
  - rewrite listed_cons in *. rewrite <- !app_assoc in *. destruct fuel as [|fuel]; [lia|]. rewrite skip_or. pose proof (or_end_stop ys tail He) as Hend. cbn [or_loop].
    change (skipSpace (79 :: ?r)) with (79 :: r). change (keywordAt (79 :: 82 :: 32 :: ?r) kw_or) with true. cbn [negb]. change (skipSpace (drop 2 (79 :: 82 :: 32 :: ?r))) with (skipSpace r).
    pose proof (and_fresh y _ Hw (proj1 Hend)) as Hfr. change (length (s_or ++ ?r)) with (4 + length r)%nat in Hfuel. set (r := and_text y ++ listed and_text s_or ys ++ tail) in *.
    assert (Hs : skipSpace r = r /\ closes r = false) by (destruct r as [|c r']; [done|]; cbn; by rewrite (proj1 Hfr), (proj2 Hfr)). destruct Hs as [-> ->]. unfold r in *. rewrite HA by (done || lia).
    change (or_loop slen fuel d (acc ++ [y]) (skipSpace (listed and_text s_or ys ++ tail)) = Ok (join_args Or (acc ++ y :: ys), tail)). rewrite IH by (done || rewrite length_app in Hfuel; lia). by rewrite <- app_assoc.
Qed.

Lemma and_as_or n : match n with Or _ => False | _ => True end -> and_reads n -> or_reads n.
Proof.
  intros Hn HA d fuel tail Hc Hf Hfuel. assert (Ht : and_text n = String_ n) by by destruct n. assert (Hu : fits_and d n = true) by by destruct n. rewrite <- Ht in *. destruct fuel as [|fuel]; [lia|]. cbn [p_or].
  rewrite HA by (done || exact (or_end_stop [] tail Hc) || lia). exact (or_loop_reads d [] (Forall_nil_2 _) fuel [n] tail Hc ltac:(rewrite length_app in Hfuel; cbn [listed mbind list_bind app]; lia)).
Qed.

Lemma or_args_reads args : (2 <=? length args)%nat && forallb wf args = true -> Forall (fun a => wf a = true -> and_reads a) args -> or_reads (Or args).
Proof.
  intros [Hlen Hw]%andb_true_iff HA d fuel tail Hc Hf Hfuel. change (String_ (Or args)) with (join s_or (and_text <$> args)) in *. cbn [fits_or] in Hf. rewrite forallb_forall in Hw, Hf.
  destruct args as [|x [|y ys]]; [done..|]. rewrite join_listed, <- app_assoc in *. assert (Hall : Forall (fun y => wf y = true /\ fits_and d y = true /\ and_reads y) (x :: y :: ys)).
  { rewrite List.Forall_forall in *. intros a Ha. split_and!; [by apply Hw|by apply Hf|]. apply HA; [done|by apply Hw]. }
  apply Forall_cons_1 in Hall as [(Hwx & Hfx & HAx) Hall]. destruct fuel as [|fuel]; [lia|]. cbn [p_or]. rewrite HAx by (done || by apply or_end_stop || lia).
  exact (or_loop_reads d (y :: ys) Hall fuel [x] tail Hc ltac:(rewrite (length_app (and_text x)) in Hfuel; lia)).
Qed.

(** *** Trees *)

Lemma String_fresh n tail : wf n = true -> stops tail = true -> match String_ n ++ tail with [] => False | c :: _ => isSpace c = false /\ (c =? 41) = false end.
Proof.
  intros Hw Ht. destruct n as [args|args|x|v|k v|path op v num hi]; try (exact (and_fresh _ tail Hw Ht)). change (String_ (Or args)) with (join s_or (and_text <$> args)).
  cbn [wf] in Hw. apply andb_true_iff in Hw as [Hlen Hw]. destruct args as [|x ys]; [done|]. rewrite join_listed, <- app_assoc. apply and_fresh; [by apply andb_true_iff in Hw as [Hw _]|].
  destruct ys; [done|]. by rewrite listed_cons.
Qed.

Lemma atom_parens fuel d r : p_atom slen (S fuel) d (40 :: r) =
  match skipSpace r with
  | [] => errAt slen (40 :: r) MNeverClosed
  | c :: _ =>
      if c =? 41 then errAt slen (40 :: r) MEmptyParens else
      '(n, t) ← p_or slen fuel (S d) (skipSpace r);
      match skipSpace t with [] => errAt slen (40 :: r) MNeverClosed | _ :: t' => Ok (n, t') end
  end.
Proof. reflexivity. Qed.

Lemma parens_reads n : match n with Or _ | And _ => True | _ => False end -> wf n = true -> or_reads n -> unary_reads n.
Proof.
  intros Hn Hw HO d fuel tail Ht Hf Hfuel. assert (Hd : (d < MaxDepth)%nat) by (destruct n; try done; cbn [fits] in Hf; by apply andb_true_iff in Hf as [Hd%Nat.ltb_lt _]).
  assert (Hfo : fits_or (S d) n = true) by (destruct n; try done; cbn [fits] in Hf; by apply andb_true_iff in Hf as [_ Hf]).
  replace (unary_text n ++ tail) with (40 :: String_ n ++ 41 :: tail) in * by (destruct n; try done; cbn [unary_text]; unfold parens; cbn [app]; by rewrite <- app_assoc).
  cbn [length] in Hfuel. destruct fuel as [|[|fuel]]; [lia..|]. destruct (fresh_byte 40 (String_ n ++ 41 :: tail) ltac:(repeat constructor)) as [Hfr Hk]. rewrite unary_atom, atom_parens by done.
  pose proof (String_fresh n (41 :: tail) Hw eq_refl) as Hs. pose proof (HO (S d) fuel (41 :: tail) eq_refl Hfo ltac:(lia)) as Hp. set (r := String_ n ++ 41 :: tail) in *. clearbody r.
  destruct r as [|c r]; [done|]. cbn [skipSpace]. rewrite (proj1 Hs), (proj2 Hs), Hp. done.
Qed.

Lemma tree_reads n : wf n = true -> unary_reads n /\ and_reads n.
Proof.
  induction n as [args IH|args IH|x IH|v|k v|path op v num hi] using Node_induct; intros Hw.
  - assert (HU : unary_reads (Or args)); [|by split; [|apply unary_as_and]]. apply parens_reads; [done..|]. apply or_args_reads; [done|]. apply (List.Forall_impl _ (fun a Ha Hwa => proj2 (Ha Hwa)) IH).
  - assert (HA : and_reads (And args)). { apply and_args_reads; [done|]. apply (List.Forall_impl _ (fun a Ha Hwa => proj1 (Ha Hwa)) IH). }
    split; [|done]. apply parens_reads; [done..|]. by apply and_as_or.
  - assert (HU : unary_reads (Not x)) by (apply not_reads; [done|by apply IH]). by split; [|apply unary_as_and].
  - split; [|apply unary_as_and; [done|]]; apply text_reads.
  - split; [|apply unary_as_and; [done|]]; by apply label_reads.
  - split; [|apply unary_as_and; [done|]]; by apply attr_reads.
Qed.

Lemma query_reads n : wf n = true -> or_reads n.
Proof.
  intros Hw. destruct (tree_reads n Hw) as [_ HA]. destruct n; try (by apply and_as_or). apply or_args_reads; [done|]. cbn [wf] in Hw. apply andb_true_iff in Hw as [_ Hw].
  apply List.Forall_forall. intros a Ha Hwa. by apply tree_reads.
Qed.
End Terms.

(** ** The round trip *)

Section RoundTrip.
Context `{ParseFloat} `{FormatFloat} `{!FloatLaws}.

Lemma print_parse n : parse_tree n -> Parse (String_ n) = Ok (Some n).
Proof.
  intros [Hw Hf]. unfold Parse. pose proof (String_fresh n [] Hw eq_refl) as Hs. rewrite app_nil_r in Hs.
  assert (Hskip : skipSpace (String_ n) = String_ n) by (destruct (String_ n) as [|c r]; [done|]; cbn; by rewrite (proj1 Hs)). rewrite Hskip.
  pose proof (query_reads (Z.of_nat (length (String_ n))) n Hw O (fuel_for (String_ n)) [] eq_refl Hf) as HO. rewrite app_nil_r in HO. specialize (HO ltac:(unfold fuel_for; lia)).
  destruct (String_ n) as [|c r]; [done|]. by rewrite HO.
Qed.

(** C34: the parser always ends, with the fuel [Parse] gives it: every query yields either a query (none only when the text is blank) or an error that points at a byte of the text or just behind it, and the nesting of what it accepts is bounded by MaxDepth. *)
Theorem parse_terminates q :
  match Parse q with
  | Ok None => skipSpace q = []
  | Ok (Some n) => fits_or 0 n = true
  | Err (Error _ col) => 1 <= col <= Z.of_nat (length q) + 1
  | Err OutOfFuel => False
  end.
Proof. pose proof (parse_outcome q) as Ho. destruct (Parse q) as [[n|]|[m col|]]; [apply Ho|done..]. Qed.

(** C21: printing is a canonical form. Whatever query the parser accepts, its printed form parses to the very same tree: quoting, escapes, parentheses, keywords and numbers included. *)
Theorem print_parse_roundtrip q n : Parse q = Ok (Some n) -> Parse (String_ n) = Ok (Some n).
Proof. intros Hq. pose proof (parse_outcome q) as Ho. rewrite Hq in Ho. by apply print_parse. Qed.
End RoundTrip.

(** ** Samples *)

Module PrintSample.
(** Numbers in unary. *)
#[local] Instance unary_parse : ParseFloat := fun w =>
  match w with
  | c :: ones => if (c =? 48) && forallb (Z.eqb 49) ones && (Z.of_nat (length ones) <? 2 ^ 64) then Some (Z.of_nat (length ones)) else None
  | [] => None
  end.
#[local] Instance unary_format : FormatFloat := fun f => 48 :: replicate (Z.to_nat f) 49.
#[local] Instance unary_laws : FloatLaws.
Proof.
  split.
  - intros [|c ones] f; [done|]. unfold parse_float, unary_parse. destruct (_ && _) eqn:E; [|done]. intros [= <-]. unfold is_u64. lia.
  - intros f Hf _. unfold parse_float, format_float, unary_parse, unary_format. unfold is_u64 in Hf. rewrite length_replicate, Z2Nat.id by lia. rewrite (proj2 (Z.ltb_lt f (2 ^ 64))) by lia.
    assert (Hones : forallb (Z.eqb 49) (replicate (Z.to_nat f) 49) = true) by (apply forallb_forall; intros x Hx%list_elem_of_In%elem_of_replicate; by destruct Hx as [-> _]). by rewrite Hones.
  - intros f _ _. split; [done|]. unfold format_float, unary_format. cbn [forallb]. apply forallb_forall. intros x Hx%list_elem_of_In%elem_of_replicate. by destruct Hx as [-> _].
Qed.

Definition q : gostring := str "service:api (-timeout  OR @ms:[0 TO 011]) AND @user:>=01 (x y)".
Definition tree : Node := And [Label (str "service") (str "api"); Or [Not (Text (str "timeout")); Attr (str "ms") OpRange [] 0 2]; Attr (str "user") OpGe [] 1 0; And [Text (str "x"); Text (str "y")]].

Lemma print_parse_roundtrip_witness : Parse q = Ok (Some tree) /\ Parse (String_ tree) = Ok (Some tree).
Proof. split; [vm_compute; reflexivity|]. apply (print_parse_roundtrip q tree). vm_compute. reflexivity. Defined.

(** An unclosed parenthesis is an error one past the end. *)
Lemma parse_terminates_witness : match Parse (str "(a") with Err (Error _ col) => 1 <= col <= 3 | _ => False end.
Proof. pose proof (parse_terminates (str "(a")) as Ht. vm_compute in Ht |- *. exact Ht. Defined.

(** A label followed directly by a parenthesis reads as the empty value and a second term. *)
Example empty_label_value : Parse (str "service:(api)") = Ok (Some (And [Label (str "service") []; Text (str "api")])).
Proof. vm_compute. reflexivity. Qed.
End PrintSample.
