(* ===== verification/LogBloom.v ===== *)
(** * Block filters (internal/logstore/bloom.go)

    The bloom filter of a block's three-byte windows, and why a block it rules out
    holds no log that matches. *)

From Stdlib Require Import ZArith Lia.
From Stdlib Require Import (notations) String.
From stdpp Require Import base gmap list sets numbers.
From S2P Require Import Prelude Wal WalProofs WalSafety Gofloat Gostring Names Tsdb Glob Utf8 Logql LogqlProofs.

Definition bloomK : Z := 4.
Definition bloomBitsPerItem : Z := 8.
Definition minBloomBytes : Z := 8.
Definition maxBloomBytes : Z := 64 * 1024.

(** JSON, as the store uses it (encoding/json). *)
Class LogCodec := { encodeLog : Log -> list Z; decodeLog : list Z -> option Log }.

Record rawEntry := MkRaw { re_Ts : Z; re_Seq : Z; re_Body : list Z }.

Definition trigram (a b c : Z) : Z := Z.lor (Z.lor (Z.shiftl a 16) (Z.shiftl b 8)) c.

(** The bit positions of a trigram in a filter of [m] bits. *)
Definition probes (t m : Z) : list Z :=
  let x := uint64 (t * 0x9E3779B97F4A7C15) in
  let x := Z.lxor x (Z.shiftr x 29) in
  let x := uint64 (x * 0xBF58476D1CE4E5B9) in
  let x := Z.lxor x (Z.shiftr x 32) in
  let h1 := uint32 x in
  let h2 := Z.lor (uint32 (Z.shiftr x 32)) 1 in
  (fun i => uint64 (h1 + i * h2) mod m) <$> seqZ 0 bloomK.

(** The windows of a text. *)
Fixpoint windows (s : gostring) : list Z :=
  match s with
  | a :: ((b :: c :: _) as rest) => trigram a b c :: windows rest
  | _ => []
  end.

(** The texts a term can match. *)
Fixpoint leaves (v : value) : list gostring :=
  match v with
  | VString s => [s]
  | VMap m => flat_map (fun kv => leaves kv.2) m
  | VArr l => flat_map leaves l
  | _ => [ValueText (fun _ => []) v]
  end.
Definition textsOf (l : Log) : list gostring := l_Message l :: leaves (VMap (l_Attrs l)).

Definition set_bit (bits : list Z) (bit : Z) : list Z :=
  alter (fun b => Z.lor b (Z.shiftl 1 (bit mod 8))) (Z.to_nat (bit / 8)) bits.
Definition get_bit (bits : list Z) (bit : Z) : bool :=
  match bits !! Z.to_nat (bit / 8) with Some b => negb (Z.land b (Z.shiftl 1 (bit mod 8)) =? 0) | None => false end.

Definition filter_bytes (n : Z) : Z := Z.min (Z.max ((n * bloomBitsPerItem + 7) / 8) minBloomBytes) maxBloomBytes.
Definition filter_bits (seen : gset Z) : list Z :=
  let nbytes := filter_bytes (Z.of_nat (size seen)) in
  foldl set_bit (replicate (Z.to_nat nbytes) 0) (elements seen ≫= fun t => probes t (nbytes * 8)).

(** The verified filter: its bits and how many. *)
Record bloomView := MkView { bv_bits : list Z; bv_m : Z }.
Definition parseBloom (blob : list Z) : option bloomView :=
  match blob with
  | k :: _ =>
      if (Z.of_nat (length blob) <? 1 + minBloomBytes + 4) || negb (k =? bloomK) then None else
      let body := take (length blob - 4) blob in
      if negb (crc32c body =? Uint32 (drop (length blob - 4) blob)) then None else
      Some (MkView (drop 1 body) (Z.of_nat (length (drop 1 body)) * 8))
  | [] => None
  end.

Definition has (b : bloomView) (t : Z) : bool := forallb (get_bit (bv_bits b)) (probes t (bv_m b)).
Definition hasLiteral (b : bloomView) (lit : gostring) : bool := forallb (has b) (windows lit).
Definition mayMatch (b : bloomView) (need : Need) : bool :=
  match need with [] => true | _ => existsb (forallb (hasLiteral b)) need end.

Section Build.
Context `{CaseMap} `{LogCodec}.

Definition seen_of (ls : list Log) : gset Z := list_to_set (ls ≫= fun l => textsOf l ≫= fun s => windows (ToLower s)).

Definition buildBloom (entries : list rawEntry) : option (list Z) :=
  match mapM (fun e => decodeLog (re_Body e)) entries with
  | None => None
  | Some ls =>
      let body := bloomK :: filter_bits (seen_of ls) in
      Some (body ++ PutUint32 (crc32c body))
  end.
End Build.

(** ** Bits *)

Lemma land_bit b k : 0 <= k -> negb (Z.land b (Z.shiftl 1 k) =? 0) = Z.testbit b k.
Proof.
  intros Hk. destruct (Z.testbit b k) eqn:E.
  - apply negb_true_iff, Z.eqb_neq. intros H. assert (Hb : Z.testbit (Z.land b (Z.shiftl 1 k)) k = false) by (rewrite H; apply Z.bits_0).
    rewrite Z.land_spec, E, Z.shiftl_spec, Z.sub_diag in Hb by done. done.
  - apply negb_false_iff, Z.eqb_eq, Z.bits_inj'. intros i Hi. rewrite Z.land_spec, Z.shiftl_spec, Z.bits_0 by done.
    destruct (decide (i = k)) as [->|Hne]; [by rewrite E|]. destruct (decide (i < k)); [rewrite (Z.testbit_neg_r 1) by lia; apply andb_false_r|].
    rewrite (Z.bits_above_log2 1 (i - k)) by (cbn; lia). apply andb_false_r.
Qed.

Lemma set_bit_length bits bit : length (set_bit bits bit) = length bits.
Proof. apply length_alter. Qed.

Lemma set_bit_get bits bit : 0 <= bit < Z.of_nat (length bits) * 8 -> get_bit (set_bit bits bit) bit = true.
Proof.
  intros Hb. unfold get_bit, set_bit. rewrite list_lookup_alter_eq. destruct (lookup_lt_is_Some_2 bits (Z.to_nat (bit / 8))) as [b Eb]; [pose proof (Z.div_lt_upper_bound bit 8 (Z.of_nat (length bits))); pose proof (Z.div_pos bit 8); lia|]. rewrite Eb. cbn.
  pose proof (Z.mod_pos_bound bit 8). rewrite land_bit by lia. rewrite Z.lor_spec, Z.shiftl_spec, Z.sub_diag by lia. apply orb_true_r.
Qed.

Lemma set_bit_mono bits bit bit' : get_bit bits bit' = true -> get_bit (set_bit bits bit) bit' = true.
Proof.
  unfold get_bit, set_bit. destruct (decide (Z.to_nat (bit / 8) = Z.to_nat (bit' / 8))) as [E|Hne]; [|by rewrite list_lookup_alter_ne].
  rewrite E, list_lookup_alter_eq. destruct (bits !! Z.to_nat (bit' / 8)) as [b|]; [|done]. cbn. pose proof (Z.mod_pos_bound bit' 8). rewrite !land_bit by lia. intros Hb. by rewrite Z.lor_spec, Hb.
Qed.

Lemma set_bits bs : forall bits, (forall b, b ∈ bs -> 0 <= b < Z.of_nat (length bits) * 8) ->
  length (foldl set_bit bits bs) = length bits /\ (forall b, get_bit bits b = true -> get_bit (foldl set_bit bits bs) b = true)
  /\ forall b, b ∈ bs -> get_bit (foldl set_bit bits bs) b = true.
Proof.
  induction bs as [|b bs IH]; intros bits Hr; cbn [foldl]; [split; [done|]; split; [done|]; intros b Hb; by apply not_elem_of_nil in Hb|].
  destruct (IH (set_bit bits b)) as (H1 & H2 & H3); [intros x Hx; rewrite set_bit_length; apply Hr; by right|]. rewrite set_bit_length in H1.
  split; [done|]. split; [intros x Hx; by apply H2, set_bit_mono|]. intros x [->|Hx]%elem_of_cons; [apply H2, set_bit_get, Hr; left|by apply H3].
Qed.

Lemma probes_range t m b : 0 < m -> b ∈ probes t m -> 0 <= b < m.
Proof. intros Hm Hb. apply list_elem_of_fmap in Hb as (i & -> & _). apply Z.mod_pos_bound. done. Qed.

Lemma filter_bytes_range n : 0 <= n -> 8 <= filter_bytes n <= 65536.
Proof. intros Hn. unfold filter_bytes, minBloomBytes, maxBloomBytes, bloomBitsPerItem. lia. Qed.

Lemma filter_has seen t : t ∈ seen -> has (MkView (filter_bits seen) (Z.of_nat (length (filter_bits seen)) * 8)) t = true.
Proof.
  intros Ht. unfold filter_bits. set (nb := filter_bytes (Z.of_nat (size seen))). assert (Hnb : 8 <= nb <= 65536) by (apply filter_bytes_range; lia).
  set (bs := elements seen ≫= _). assert (Hlen : Z.of_nat (length (replicate (Z.to_nat nb) 0)) = nb) by (rewrite length_replicate; lia).
  destruct (set_bits bs (replicate (Z.to_nat nb) 0)) as (H1 & _ & H3).
  { intros b Hb. rewrite Hlen. apply list_elem_of_bind in Hb as (t' & Hb & _). apply (probes_range t'); [lia|done]. }
  unfold has. cbn [bv_bits bv_m]. rewrite H1, Hlen. apply List.forallb_forall. intros b Hb%list_elem_of_In. apply H3.
  apply list_elem_of_bind. exists t. split; [done|]. by apply elem_of_elements.
Qed.

(** ** What a match needs *)

Section Sound.
Context `{CaseMap} `{!CaseLaws} `{ParseFloat}.

Definition occurs (lit s : gostring) : Prop := exists x y, s = x ++ lit ++ y.

Lemma occurs_refl s : occurs s s.
Proof. exists [], []. by rewrite app_nil_r. Qed.
Lemma occurs_app lit x s : occurs lit s -> occurs lit (x ++ s).
Proof. intros (y & z & ->). exists (x ++ y), z. by rewrite app_assoc. Qed.

Lemma in_order_occurs find : (forall seg s t, find seg s = Some t -> exists x, s = x ++ seg ++ t) ->
  forall segs s, in_order find s segs = true -> forall seg, seg ∈ segs -> occurs seg s.
Proof.
  intros Hf. induction segs as [|seg0 segs IH]; intros s Hs seg Hin; [by apply not_elem_of_nil in Hin|]. cbn in Hs. destruct (find seg0 s) as [t|] eqn:E; [|done].
  destruct (Hf _ _ _ E) as [x ->]. apply elem_of_cons in Hin as [->|Hin]; [by exists x, t|]. rewrite app_assoc. apply occurs_app. by apply IH.
Qed.

Lemma fold_prefix_lower (s needle : gostring) : fold_prefix s needle = HasPrefix (lower <$> s) needle.
Proof. revert s. induction needle as [|p needle IH]; intros [|c s]; cbn; try done. by rewrite IH. Qed.
Lemma indexFold_lower (needle s : gostring) : after needle (lower <$> s) = (fun r : gostring => lower <$> r) <$> indexFoldASCII needle s.
Proof.
  induction s as [|c s IH].
  - cbn [fmap list_fmap after indexFoldASCII]. rewrite fold_prefix_lower. cbn [fmap list_fmap]. destruct (HasPrefix [] needle); [|done]. cbn. by rewrite drop_nil.
  - change (lower <$> c :: s) with (lower c :: (lower <$> s)). cbn [after indexFoldASCII]. rewrite fold_prefix_lower. change (lower <$> c :: s) with (lower c :: (lower <$> s)).
    destruct (HasPrefix _ needle); [|exact IH]. change (lower c :: (lower <$> s)) with (lower <$> c :: s). by rewrite <- fmap_drop.
Qed.
Lemma in_order_lower segs (s : gostring) : in_order indexFoldASCII s segs = in_order after (lower <$> s) segs.
Proof. revert s. induction segs as [|seg segs IH]; intros s; [done|]. cbn. rewrite indexFold_lower. destruct (indexFoldASCII seg s); cbn; [apply IH|done]. Qed.

(** Both searches of [containsWild] look at the lowered string. *)
Lemma containsWild_lower s segs : containsWild s segs = in_order after (ToLower s) segs.
Proof. unfold containsWild. destruct (isASCII s) eqn:E; [|done]. cbn. by rewrite in_order_lower, ToLower_ascii. Qed.

Lemma contains_occurs s segs seg : containsWild s segs = true -> seg ∈ segs -> occurs seg (ToLower s).
Proof. rewrite containsWild_lower. intros Hs. apply (in_order_occurs after); [apply after_some|done]. Qed.

Lemma glob_middle_occurs segs : forall s, glob_middle s segs = true -> forall seg, seg ∈ segs -> occurs seg s.
Proof.
  induction segs as [|seg0 segs IH]; intros s Hs seg Hin; [by apply not_elem_of_nil in Hin|]. destruct segs as [|seg1 segs].
  - apply list_elem_of_singleton in Hin as ->. cbn in Hs. apply HasSuffix_some in Hs as [x ->]. apply occurs_app, occurs_refl.
  - change (match after seg0 s with Some s' => glob_middle s' (seg1 :: segs) | None => false end = true) in Hs. destruct (after seg0 s) as [t|] eqn:E; [|done].
    apply after_some in E as [x ->]. apply elem_of_cons in Hin as [->|Hin]; [by exists x, t|]. rewrite app_assoc. apply occurs_app. by apply IH.
Qed.

Lemma glob_occurs pat s seg : globMatch pat s = true -> seg ∈ Split_ c_star pat -> occurs seg s.
Proof.
  unfold globMatch. destruct (bool_decide (c_star ∈ pat)) eqn:E.
  - destruct (Split_ c_star pat) as [|first segs]; [done|]. rewrite andb_true_iff, HasPrefix_some. intros [[t ->] Hm] Hin. rewrite drop_app_length in Hm.
    apply elem_of_cons in Hin as [->|Hin]; [by exists [], t|]. apply occurs_app. by eapply glob_middle_occurs.
  - apply bool_decide_eq_false in E. rewrite Split_none by done. rewrite bool_decide_eq_true. intros -> ->%list_elem_of_singleton. apply occurs_refl.
Qed.

(** Lowering and splitting commute. *)
Lemma Split_lower pat : Split_ c_star (ToLower pat) = ToLower <$> Split_ c_star pat.
Proof.
  remember (length pat) as n eqn:En. revert pat En. induction (lt_wf n) as [n _ IH]. intros pat ->. destruct (split_at c_star pat) as [[a b]|] eqn:E.
  - apply split_at_some in E as [-> Ha]. rewrite ToLower_star, !Split_app by (done || by apply ToLower_no_star). cbn. f_equal. apply (IH (length b)); [rewrite length_app; cbn; lia|done].
  - apply split_at_none in E. rewrite !Split_none by (done || by apply ToLower_no_star). done.
Qed.

Lemma Split_valid pat seg : valid_utf8 pat = true -> seg ∈ Split_ c_star pat -> valid_utf8 seg = true.
Proof.
  remember (length pat) as n eqn:En. revert pat En. induction (lt_wf n) as [n _ IH]. intros pat -> Hv Hin. destruct (split_at c_star pat) as [[a b]|] eqn:E.
  - apply split_at_some in E as [-> Ha]. rewrite Split_app in Hin by done. unfold valid_utf8 in Hv. rewrite runes_app_start, forallb_app in Hv by done. apply andb_true_iff in Hv as [Hva Hvb].
    apply elem_of_cons in Hin as [->|Hin]; [done|]. apply (IH (length b) ltac:(rewrite length_app; cbn; lia) b); [done| |done]. by rewrite runes_ascii in Hvb.
  - apply split_at_none in E. rewrite Split_none in Hin by done. by apply list_elem_of_singleton in Hin as ->.
Qed.

Lemma occurs_lower a s : valid_utf8 a = true -> occurs a s -> occurs (ToLower a) (ToLower s).
Proof. intros Ha (x & y & ->). destruct (ToLower_infix x a y Ha) as (x' & y' & ->). by exists x', y'. Qed.

(** *** The texts of a log hold every text a term reads *)

Section ValueInd.
Context (P : value -> Prop) (HString : forall s, P (VString s)) (HNumber : forall t, P (VNumber t)) (HBool : forall b, P (VBool b)) (HNull : P VNull)
  (HMap : forall m, Forall (fun kv => P kv.2) m -> P (VMap m)) (HArr : forall l, Forall P l -> P (VArr l)).

Fixpoint value_induct (v : value) : P v :=
  match v with
  | VString s => HString s
  | VNumber t => HNumber t
  | VBool b => HBool b
  | VNull => HNull
  | VMap m => HMap m ((fix all (m : list (gostring * value)) : Forall (fun kv => P kv.2) m :=
      match m with [] => Forall_nil_2 _ | kv :: m => Forall_cons_2 _ kv m (value_induct kv.2) (all m) end) m)
  | VArr l => HArr l ((fix all (l : list value) : Forall P l := match l with [] => Forall_nil_2 P | x :: l => Forall_cons_2 P x l (value_induct x) (all l) end) l)
  end.
End ValueInd.

Lemma anyString_leaf fn v : anyString fn v = true -> exists s, s ∈ leaves v /\ fn s = true.
Proof.
  induction v as [s|t|b| |m IH|l IH] using value_induct; cbn [anyString leaves]; try done; [exists s; split; [left|done]|..].
  - induction IH as [|[k v] m Hv _ IHm]; [done|]. cbn [existsb flat_map snd] in *. rewrite orb_true_iff. setoid_rewrite elem_of_app. naive_solver.
  - induction IH as [|v l Hv _ IHl]; [done|]. cbn [existsb flat_map] in *. rewrite orb_true_iff. setoid_rewrite elem_of_app. naive_solver.
Qed.

Lemma appendFlat_leaf v x s : x ∈ appendFlat v -> s ∈ leaves x -> s ∈ leaves v.
Proof.
  intros Hx Hs. induction v as [z|t|b| |m _|l IH] using value_induct; cbn [appendFlat] in Hx; try (by apply list_elem_of_singleton in Hx as ->).
  cbn [leaves]. induction IH as [|v l Hv _ IHl]; [by apply not_elem_of_nil in Hx|]. cbn [flat_map]. apply elem_of_app.
  change ((v :: l) ≫= appendFlat) with (appendFlat v ++ (l ≫= appendFlat)) in Hx. apply elem_of_app in Hx as [Hx|Hx]; auto.
Qed.

Lemma walk_leaf v x s : s ∈ leaves x -> forall path, x ∈ walk v path -> s ∈ leaves v.
Proof.
  intros Hs. induction v as [z|t|b| |m IH|l IH] using value_induct; intros path Hx; cbn [walk] in Hx; try (by apply not_elem_of_nil in Hx).
  - apply elem_of_app in Hx as [Hx|Hx]; cbn [leaves].
    + clear IH. induction m as [|[k v] m IHm]; [by apply not_elem_of_nil in Hx|]. cbn [flat_map snd]. apply elem_of_app.
      destruct (bool_decide (k = path)); [left; by eapply appendFlat_leaf|right; by apply IHm].
    + induction (dots [] path) as [|cut cuts IHc]; [by apply not_elem_of_nil in Hx|]. cbn [flat_map] in Hx. apply elem_of_app in Hx as [Hx|Hx]; [|by apply IHc]. clear IHc.
      induction IH as [|[k v] m Hv _ IHm]; [by apply not_elem_of_nil in Hx|]. cbn [flat_map snd] in *. apply elem_of_app.
      destruct (bool_decide (k = cut.1)); [left; by apply (Hv cut.2)|right; by apply IHm].
  - cbn [leaves]. induction IH as [|v l Hv _ IHl]; [by apply not_elem_of_nil in Hx|]. cbn [flat_map] in *. apply elem_of_app. apply elem_of_app in Hx as [Hx|Hx]; [left; by apply (Hv path)|right; by apply IHl].
Qed.

(** *** Soundness *)

(** One alternative whose literals all occur in the lowered texts. *)
Definition meets (texts : list gostring) (alts : Need) : Prop :=
  exists alt, alt ∈ alts /\ forall lit, lit ∈ alt -> exists t, t ∈ texts /\ occurs lit (ToLower t).
Definition satisfied (texts : list gostring) (need : Need) : Prop := need = [] \/ meets texts need.

Lemma literal_satisfied texts pat : (forall seg, seg ∈ splitWild pat -> exists t, t ∈ texts /\ occurs seg (ToLower t)) -> satisfied texts (literalNeed pat).
Proof.
  intros Hs. unfold literalNeed. set (lits := filter _ _). assert (Hl : forall lit, lit ∈ lits -> exists t, t ∈ texts /\ occurs lit (ToLower t)).
  { intros lit Hin. apply list_elem_of_filter in Hin as [_ Hin]. by apply Hs. }
  destruct lits as [|x lits]; [by left|]. right. exists (x :: lits). split; [by left|done].
Qed.

Lemma and_need_meets texts acc n : meets texts acc -> satisfied texts n -> meets texts (and_need acc n).
Proof.
  intros Ha Hn. unfold and_need. destruct n as [|y n]; [done|]. destruct Hn as [[=]|(alt & Hin & Hall)]. destruct (_ <? _)%nat; [done|].
  destruct Ha as (x & Hx & Hxs). exists (x ++ alt). split; [|intros lit [H2|H2]%elem_of_app; auto].
  apply list_elem_of_bind. exists x. split; [|done]. apply list_elem_of_bind. exists alt. split; [by left|done].
Qed.

Lemma andNeeds_satisfied texts ns : Forall (satisfied texts) ns -> satisfied texts (andNeeds ns).
Proof.
  intros Hns. assert (Hm : forall acc, meets texts acc -> meets texts (foldl and_need acc ns)).
  { induction Hns as [|n ns Hn _ IH]; [done|]. intros acc Ha. cbn. apply IH. by apply and_need_meets. }
  assert (Hstart : meets texts [[]]) by (exists []; split; [by left|]; intros lit Hl; by apply not_elem_of_nil in Hl). specialize (Hm _ Hstart). unfold andNeeds.
  destruct (foldl and_need [[]] ns) as [|[|? ?] [|? ?]]; first [by left|by right].
Qed.

Lemma orNeeds_satisfied texts ns n : n ∈ ns -> satisfied texts n -> satisfied texts (orNeeds ns).
Proof.
  intros Hin Hn. unfold orNeeds. destruct (or_alts ns) as [alts|] eqn:E; [|by left]. destruct (_ <? _)%nat; [by left|]. right.
  revert alts E. induction ns as [|m ns IH]; intros alts E; [by apply not_elem_of_nil in Hin|]. cbn in E. destruct m as [|x m]; [done|].
  destruct (or_alts ns) as [rest|]; [|done]. injection E as <-. apply elem_of_cons in Hin as [->|Hin].
  - destruct Hn as [[=]|(alt & Ha & Hall)]. exists alt. split; [rewrite app_comm_cons; apply elem_of_app; by left|done].
  - destruct (IH Hin rest eq_refl) as (alt & Ha & Hall). exists alt. split; [|done]. rewrite app_comm_cons. apply elem_of_app. by right.
Qed.

(** The patterns of attribute terms are text. *)
Fixpoint well_encoded (q : Node) : bool :=
  match q with
  | Or args | And args => forallb well_encoded args
  | Attr _ OpEq pat _ _ => valid_utf8 pat
  | _ => true
  end.

Lemma needs_sound l q : well_encoded q = true -> Compile q l = true -> satisfied (textsOf l) (Needs_ q).
Proof.
  induction q as [args IH|args IH|x _|v|k v|path op pat num hi] using Node_induct; intros Hw Hm; cbn [Needs_ Compile well_encoded] in *; try (by left).
  - apply existsb_exists in Hm as (a & Ha & Hm). rewrite List.Forall_forall in IH. rewrite forallb_forall in Hw. apply (orNeeds_satisfied _ _ (Needs_ a)); [by apply list_elem_of_fmap_2, list_elem_of_In|].
    apply (IH a Ha); [by apply Hw|done].
  - apply andNeeds_satisfied. rewrite forallb_forall in Hw, Hm. rewrite List.Forall_forall in IH. apply Forall_fmap, List.Forall_forall. intros a Ha.
    apply (IH a Ha); [by apply Hw|by apply Hm].
  - apply literal_satisfied. intros seg Hseg. unfold matchText in Hm. apply orb_true_iff in Hm as [Hm|Hm].
    + exists (l_Message l). split; [left|by eapply contains_occurs].
    + apply anyString_leaf in Hm as (s & Hs & Hc). exists s. split; [by right|by eapply contains_occurs].
  - destruct op; try (by left). destruct (parse_float pat) as [pf|] eqn:Ep; [by left|]. apply literal_satisfied. intros seg Hseg.
    apply list_elem_of_filter in Hseg as [_ Hseg]. rewrite Split_lower in Hseg. apply list_elem_of_fmap in Hseg as (seg0 & -> & Hseg).
    apply existsb_exists in Hm as (v & Hv%list_elem_of_In & Hm). cbn [attrMatches] in Hm. unfold eqMatches in Hm. rewrite Ep in Hm.
    assert (Hg : exists t, leaves v = [t] /\ globMatch pat t = true) by (destruct v; try done; eauto). destruct Hg as (t & Hl & Hg). exists t. split.
    + right. unfold lookup in Hv. eapply walk_leaf; [|exact Hv]. rewrite Hl. left.
    + apply occurs_lower; [by eapply Split_valid|by eapply glob_occurs].
Qed.
End Sound.

(** ** The filter of a block *)

Lemma windows_tail c s w : w ∈ windows s -> w ∈ windows (c :: s).
Proof. destruct s as [|a [|b s]]; cbn [windows]; [intros HF; inversion HF..|]. intros H. by right. Qed.
Lemma windows_front s y w : w ∈ windows s -> w ∈ windows (s ++ y).
Proof.
  induction s as [|a s IH]; [intros HF; inversion HF|]. destruct s as [|b [|c s]]; [by intros ?%not_elem_of_nil..|].
  change (windows (a :: b :: c :: s)) with (trigram a b c :: windows (b :: c :: s)). intros [->|H]%elem_of_cons; [left|]. apply (windows_tail a ((b :: c :: s) ++ y)). by apply IH.
Qed.
Lemma windows_occurs lit s w : occurs lit s -> w ∈ windows lit -> w ∈ windows s.
Proof. intros (x & y & ->) Hw. induction x as [|c x IH]; [exact (windows_front lit y w Hw)|]. exact (windows_tail c (x ++ lit ++ y) w IH). Qed.

Lemma lor_byte a b : is_byte a -> is_byte b -> is_byte (Z.lor a b).
Proof.
  unfold is_byte. intros Ha Hb. assert (H0 : 0 <= Z.lor a b) by (apply Z.lor_nonneg; lia). split; [done|].
  rewrite <- (Z.mod_small a (2 ^ 8)), <- (Z.mod_small b (2 ^ 8)), <- !Z.land_ones, <- Z.land_lor_distr_l, Z.land_ones by lia.
  by apply Z.mod_pos_bound.
Qed.

Lemma set_bit_bytes bits bit : Forall is_byte bits -> Forall is_byte (set_bit bits bit).
Proof.
  intros Hb. apply Forall_alter; [done|]. intros b Hx Hbyte. apply lor_byte; [done|]. pose proof (Z.mod_pos_bound bit 8 ltac:(lia)) as Hm.
  unfold is_byte. rewrite Z.shiftl_mul_pow2, Z.mul_1_l by lia. split; [lia|]. apply Z.pow_lt_mono_r; lia.
Qed.

Lemma filter_bits_bytes seen : Forall is_byte (filter_bits seen).
Proof.
  unfold filter_bits. set (bs := elements seen ≫= _). generalize bs. clear bs. intros bs.
  assert (H : Forall is_byte (replicate (Z.to_nat (filter_bytes (Z.of_nat (size seen)))) 0)) by (apply Forall_replicate; unfold is_byte; lia).
  revert H. generalize (replicate (Z.to_nat (filter_bytes (Z.of_nat (size seen)))) 0). induction bs as [|b bs IH]; intros l Hl; [done|]. cbn. apply IH. by apply set_bit_bytes.
Qed.
Lemma filter_bits_length seen : 8 <= Z.of_nat (length (filter_bits seen)) <= 65536.
Proof.
  unfold filter_bits. set (nb := filter_bytes (Z.of_nat (size seen))). assert (Hnb : 8 <= nb <= 65536) by (apply filter_bytes_range; lia).
  generalize (elements seen ≫= fun t => probes t (nb * 8)). intros bs.
  assert (H : length (foldl set_bit (replicate (Z.to_nat nb) 0) bs) = Z.to_nat nb).
  { transitivity (length (replicate (Z.to_nat nb) 0)); [|apply length_replicate]. generalize (replicate (Z.to_nat nb) 0). induction bs as [|b bs IH]; intros l; [done|]. cbn. rewrite IH. apply set_bit_length. }
  lia.
Qed.

(** ** The whole *)

Section Whole.
Context `{CaseMap} `{!CaseLaws} `{ParseFloat} `{LogCodec}.

Lemma parse_built (bits : list Z) : Forall is_byte bits -> 8 <= Z.of_nat (length bits) -> let body := bloomK :: bits in
  parseBloom (body ++ PutUint32 (crc32c body)) = Some (MkView bits (Z.of_nat (length bits) * 8)).
Proof.
  intros Hb Hl body. change (body ++ ?t) with (bloomK :: bits ++ t). unfold parseBloom. change (bloomK :: bits ++ ?t) with (body ++ t).
  rewrite length_app. change (length (PutUint32 _)) with 4%nat. rewrite Nat.add_sub, take_app_length, drop_app_length.
  rewrite (proj2 (Z.ltb_ge _ _)) by (unfold minBloomBytes, body; cbn [length]; lia). cbn [orb negb]. rewrite Uint32_PutUint32 by (apply crc32c_range, Forall_cons_2; [unfold is_byte, bloomK; lia|done]). by rewrite !Z.eqb_refl.
Qed.

Lemma parse_changed (bits : list Z) i x : Forall is_byte bits -> is_byte x -> let body := bloomK :: bits in let blob := body ++ PutUint32 (crc32c body) in
  blob !! i <> Some x -> (i < length blob)%nat -> parseBloom (<[i := x]> blob) = None.
Proof.
  intros Hb Hx body blob Hne Hi. assert (Hbody : Forall is_byte body) by (apply Forall_cons_2; [unfold is_byte, bloomK; lia|done]).
  destruct (crc_changed body i x Hbody Hx Hne Hi) as (body' & tail' & E & Ht & Hcrc). fold body blob in E. rewrite E. unfold parseBloom.
  destruct (body' ++ tail') as [|k rest] eqn:Eb; [done|]. destruct (_ || _); [done|]. rewrite <- Eb, length_app, Ht, Nat.add_sub, take_app_length, drop_app_length.
  by rewrite (proj2 (Z.eqb_neq _ _)).
Qed.

Lemma view_literal (ls : list Log) l t lit : l ∈ ls -> t ∈ textsOf l -> occurs lit (ToLower t) ->
  hasLiteral (MkView (filter_bits (seen_of ls)) (Z.of_nat (length (filter_bits (seen_of ls))) * 8)) lit = true.
Proof.
  intros Hl Ht Ho. apply List.forallb_forall. intros w Hw%list_elem_of_In. apply filter_has. unfold seen_of. apply elem_of_list_to_set, list_elem_of_bind.
  exists l. split; [|done]. apply list_elem_of_bind. exists t. split; [|done]. by apply (windows_occurs lit).
Qed.

Lemma view_may_match ls l need : l ∈ ls -> satisfied (textsOf l) need ->
  mayMatch (MkView (filter_bits (seen_of ls)) (Z.of_nat (length (filter_bits (seen_of ls))) * 8)) need = true.
Proof.
  intros Hl [->|(alt & Ha & Hall)]; [done|]. unfold mayMatch. destruct need as [|n need]; [done|]. apply List.existsb_exists. exists alt. split; [by apply list_elem_of_In|].
  apply List.forallb_forall. intros lit (t & Ht & Ho)%list_elem_of_In%Hall. by apply (view_literal ls l t).
Qed.

Lemma filters_satisfied l qs q : q ∈ qs -> from_option well_encoded true q = true -> Filter q l = true -> satisfied (textsOf l) (orNeeds (Needs <$> qs)).
Proof. intros Hq Hw Hm. apply (orNeeds_satisfied _ _ (Needs q)); [by apply list_elem_of_fmap_2|]. destruct q as [q|]; [by apply needs_sound|by left]. Qed.

Lemma built_view ls : let body := bloomK :: filter_bits (seen_of ls) in
  parseBloom (body ++ PutUint32 (crc32c body)) = Some (MkView (filter_bits (seen_of ls)) (Z.of_nat (length (filter_bits (seen_of ls))) * 8)).
Proof. apply parse_built; [apply filter_bits_bytes|apply filter_bits_length]. Qed.

Lemma bloom_admits entries blob view e l qs q : buildBloom entries = Some blob -> parseBloom blob = Some view -> e ∈ entries -> decodeLog (re_Body e) = Some l ->
  q ∈ qs -> from_option well_encoded true q = true -> Filter q l = true -> mayMatch view (orNeeds (Needs <$> qs)) = true.
Proof.
  unfold buildBloom. destruct (mapM _ entries) as [ls|] eqn:E; [|done]. intros Hb Hp He Hd Hq Hw Hm. apply (inj Some) in Hb as <-. rewrite built_view in Hp. apply (inj Some) in Hp as <-. apply (view_may_match ls l); [|by eapply filters_satisfied].
  apply mapM_Some_1 in E. apply list_elem_of_lookup in He as [i Hi]. destruct (Forall2_lookup_l _ _ _ _ _ E Hi) as (l' & Hl' & Hd'). rewrite Hd in Hd'. injection Hd' as <-. by eapply list_elem_of_lookup_2.
Qed.

(** C20: a block's filter never hides a log that a query with well-encoded attribute patterns finds. The blob built for a block's entries passes its own check; and whenever a log of the block satisfies one of the filters a search may match the stream through, the filter answers "may match" for what those filters together need, whatever the case, the wildcards and the nesting of the query and the values of the log. The attribute patterns of the query must be valid UTF-8: a log that one which is not matches can be hidden ([untext_pattern_hidden]). And a blob in which one byte has changed is refused, so a flipped bit cannot make a filter deny what is there. *)
Theorem bloom_sound entries blob : buildBloom entries = Some blob ->
  exists view, parseBloom blob = Some view
    /\ (forall e l qs q, e ∈ entries -> decodeLog (re_Body e) = Some l -> q ∈ qs -> from_option well_encoded true q = true -> Filter q l = true ->
          mayMatch view (orNeeds (Needs <$> qs)) = true)
    /\ forall i x, is_byte x -> (i < length blob)%nat -> blob !! i <> Some x -> parseBloom (<[i := x]> blob) = None.
Proof.
  intros Hb. assert (Hv : exists ls, blob = (bloomK :: filter_bits (seen_of ls)) ++ PutUint32 (crc32c (bloomK :: filter_bits (seen_of ls)))) by (unfold buildBloom in Hb; destruct (mapM _ entries) as [ls|]; [exists ls; by apply (inj Some) in Hb|done]).
  destruct Hv as [ls Eb]. eexists. split; [rewrite Eb; apply built_view|]. split.
  - intros e l qs q He Hd Hq Hw Hm. eapply bloom_admits; [exact Hb|rewrite Eb; apply built_view|done..].
  - intros i x Hx Hi Hne. rewrite Eb in *. apply (parse_changed (filter_bits (seen_of ls)) i x); [apply filter_bits_bytes|done..].
Qed.
End Whole.

(** ** Samples *)

Module Sample.
#[local] Instance no_case : CaseMap := fun u => if bool_decide (c_star ∈ u) then [] else u.
#[local] Instance no_case_laws : CaseLaws.
Proof. intros u _. unfold lower_rune, no_case. case_bool_decide; [apply not_elem_of_nil|done]. Qed.
#[local] Instance no_floats : ParseFloat := fun _ => None.
(** A log whose message and one attribute are its body. *)
Definition plain (body : list Z) : Log := MkLog 0 body [] [] [] [] [] [(str "a", VString body)] [] [].
#[local] Instance plain_codec : LogCodec := {| encodeLog := l_Message; decodeLog := fun b => Some (plain b) |}.

Definition entry : rawEntry := MkRaw 7 1 (str "Read Timeout").
Definition query : Node := And [Text (str "TIME*"); Not (Text (str "write"))].

Lemma bloom_sound_witness : exists blob view, buildBloom [entry] = Some blob /\ parseBloom blob = Some view
  /\ mayMatch view (orNeeds (Needs <$> [Some query])) = true.
Proof.
  destruct (buildBloom [entry]) as [blob|] eqn:E; [|discriminate E]. destruct (bloom_sound [entry] blob E) as (view & Hp & Hm & _).
  exists blob, view. split; [reflexivity|]. split; [exact Hp|]. apply (Hm entry (plain (re_Body entry)) [Some query] (Some query)); [left|reflexivity|left|reflexivity|vm_compute; reflexivity].
Defined.

(** A pattern that is not text: the matcher compares bytes, the filter compares what lowering makes of them. *)
Definition half_rune : Node := Attr (str "a") OpEq [42; 195; 42] 0 0.
Definition accented : rawEntry := MkRaw 7 1 [195; 169].

Example untext_pattern_hidden : Compile half_rune (plain (re_Body accented)) = true
  /\ exists blob view, buildBloom [accented] = Some blob /\ parseBloom blob = Some view /\ mayMatch view (Needs (Some half_rune)) = false.
Proof. split; [vm_compute; reflexivity|]. eexists _, _. split; [vm_compute; reflexivity|]. split; vm_compute; reflexivity. Qed.
End Sample.
