(* ===== verification/LogChunk.v ===== *)
(** * Log chunks (internal/logstore/chunk.go)

    The chunk file, byte for byte: its header, its compressed blocks with their filters,
    and the footer index; the two ways a reader learns the blocks, and the writer with
    every outcome of its system calls. *)

From Stdlib Require Import ZArith Lia.
From Stdlib Require Import (notations) String.
From stdpp Require Import base list numbers.
From S2P Require Import Prelude Wal Gostring HeadRecord BlockFile LogBloom.

Definition chunkMagic : list Z := str "OZYC".
Definition footerMagic : list Z := str "OZYF".
Definition chunkVersion : Z := 2.
Definition chunkHdrSize : Z := 8.
Definition blockHdrSize : Z := 40.
Definition indexEntrySz : Z := 44.
Definition trailerSize : Z := 20.
Definition maxBlockRaw : Z := 16 * 2 ^ 20.
Definition maxBlockComp : Z := 16 * 2 ^ 20.
Definition maxBlockCount : Z := 2 ^ 22.
Definition maxBloomLen : Z := 2 ^ 20.

Inductive log_error := ErrCorruptChunk | ErrEmptyBlock | ErrBlockTooLarge | ErrRead | ErrWrite | ErrSync | ErrTruncate | ErrRename.
Abbreviation L := (result log_error).

(** ** Blocks *)

Record BlockMeta := MkMeta {
  bm_Offset : Z;
  bm_MinTs : Z;
  bm_MaxTs : Z;
  bm_N : Z;
  bm_RawLen : Z;
  bm_CompLen : Z;
  bm_CRC : Z;
  bm_LastSeq : Z;
  bm_BloomLen : Z;
  bm_ver : Z;
}.

Definition hdrSize (v : Z) : Z := if 2 <=? v then blockHdrSize + 4 else blockHdrSize.
Definition entrySize (v : Z) : Z := if 2 <=? v then indexEntrySz + 4 else indexEntrySz.
Definition bm_hdr (m : BlockMeta) : Z := hdrSize (bm_ver m).
Definition bm_end (m : BlockMeta) : Z := int64 (bm_Offset m + bm_hdr m + bm_CompLen m + bm_BloomLen m).
Definition bloomOffset (m : BlockMeta) : Z := int64 (bm_Offset m + bm_hdr m + bm_CompLen m).

(** github.com/klauspost/compress/zstd, as the store uses it; decoding refuses what would not fit
    the decoder's memory limit. *)
Class Zstd := { EncodeAll : list Z -> list Z; DecodeAll : list Z -> option (list Z) }.

Section Codec.
Context `{Zstd}.

Definition entry_raw (prev prevSeq : Z) (e : rawEntry) : list Z :=
  AppendVarint [] (int64 (re_Ts e - prev)) ++ AppendVarint [] (int64 (uint64 (re_Seq e - prevSeq)))
  ++ AppendUvarint [] (ulen (re_Body e)) ++ re_Body e.
Fixpoint raw_of (prev prevSeq : Z) (es : list rawEntry) : list Z :=
  match es with
  | [] => []
  | e :: es => entry_raw prev prevSeq e ++ raw_of (re_Ts e) (re_Seq e) es
  end.

Definition encodeBlock (entries : list rawEntry) : L (BlockMeta * list Z) :=
  match entries with
  | [] => Err ErrEmptyBlock
  | e0 :: _ =>
      let minTs := foldl (fun a e => Z.min a (re_Ts e)) (re_Ts e0) entries in
      let maxTs := foldl (fun a e => Z.max a (re_Ts e)) (re_Ts e0) entries in
      let lastSeq := foldl (fun a e => Z.max a (re_Seq e)) (re_Seq e0) entries in
      let raw := raw_of minTs 0 entries in
      if maxBlockRaw <? ulen raw then Err ErrBlockTooLarge else
      let comp := EncodeAll raw in
      Ok (MkMeta 0 minTs maxTs (uint32 (ulen entries)) (uint32 (ulen raw)) (uint32 (ulen comp)) (crc32c comp) lastSeq 0 0, comp)
  end.

Fixpoint decode_entries (n : nat) (prev prevSeq : Z) (raw : list Z) : L (list rawEntry) :=
  match n with
  | O => match raw with [] => Ok [] | _ => Err ErrCorruptChunk end
  | S n =>
      match Varint raw with
      | None => Err ErrCorruptChunk
      | Some (d, raw) =>
          match Varint raw with
          | None => Err ErrCorruptChunk
          | Some (ds, raw) =>
              match Uvarint raw with
              | None => Err ErrCorruptChunk
              | Some (l, raw) =>
                  if ulen raw <? l then Err ErrCorruptChunk else
                  let ts := int64 (prev + d) in
                  let seq := uint64 (prevSeq + uint64 ds) in
                  out ← decode_entries n ts seq (drop (Z.to_nat l) raw);
                  Ok (MkRaw ts seq (take (Z.to_nat l) raw) :: out)
              end
          end
      end
  end.

Definition decodeBlock (m : BlockMeta) (comp : list Z) : L (list rawEntry) :=
  if negb (uint32 (ulen comp) =? bm_CompLen m) then Err ErrCorruptChunk
  else if negb (crc32c comp =? bm_CRC m) then Err ErrCorruptChunk
  else if (maxBlockRaw <? bm_RawLen m) || (maxBlockCount <? bm_N m) then Err ErrCorruptChunk
  else match DecodeAll comp with
       | None => Err ErrCorruptChunk
       | Some raw =>
           if negb (uint32 (ulen raw) =? bm_RawLen m) then Err ErrCorruptChunk
           else decode_entries (Z.to_nat (bm_N m)) (bm_MinTs m) 0 raw
       end.
End Codec.

(** ** The bytes of a file *)

Definition u32_at (b : list Z) (i : nat) : Z := Uint32 (drop i b).
Definition u64_at (b : list Z) (i : nat) : Z := Z.lor (Uint32 (drop (i + 4) b)) (Z.shiftl (Uint32 (drop i b)) 32).
Definition i64_at (b : list Z) (i : nat) : Z := int64 (u64_at b i).

Definition putBlockHeader (m : BlockMeta) : list Z :=
  PutUint64 (uint64 (bm_MinTs m)) ++ PutUint64 (uint64 (bm_MaxTs m)) ++ PutUint32 (bm_N m) ++ PutUint32 (bm_RawLen m)
  ++ PutUint32 (bm_CompLen m) ++ PutUint32 (bm_CRC m) ++ PutUint64 (bm_LastSeq m)
  ++ (if 2 <=? bm_ver m then PutUint32 (bm_BloomLen m) else []).

Definition getBlockHeader (b : list Z) (offset ver : Z) : BlockMeta :=
  MkMeta offset (i64_at b 0) (i64_at b 8) (u32_at b 16) (u32_at b 20) (u32_at b 24) (u32_at b 28) (u64_at b 32)
    (if 2 <=? ver then u32_at b 40 else 0) ver.

Definition plausible (m : BlockMeta) (fileSize : Z) : bool :=
  (0 <? bm_N m) && (bm_N m <=? maxBlockCount) && (bm_RawLen m <=? maxBlockRaw) && (bm_CompLen m <=? maxBlockComp)
  && (bm_BloomLen m <=? maxBloomLen) && (bm_MinTs m <=? bm_MaxTs m) && (bm_end m <=? fileSize).

(** [r.ReadAt] on a whole file: the bytes asked for or an error. *)
Definition ReadAt (file : list Z) (n off : Z) : option (list Z) :=
  if (0 <=? off) && (off + n <=? ulen file) then Some (take (Z.to_nat n) (drop (Z.to_nat off) file)) else None.

Record ChunkIndex := MkIndex { ix_Blocks : list BlockMeta; ix_ValidEnd : Z; ix_Sealed : bool; ix_Version : Z }.

(** One entry of the footer. *)
Definition footer_entry (e : list Z) (ver : Z) : BlockMeta :=
  MkMeta (i64_at e 0) (i64_at e 8) (i64_at e 16) (u32_at e 24) (u32_at e 28) (u32_at e 32) 0 (u64_at e 36) (if 2 <=? ver then u32_at e 44 else 0) ver.
(** The entries must tile the file from [prevEnd]. *)
Fixpoint footer_blocks (n : nat) (buf : list Z) (ver off prevEnd : Z) : option (list BlockMeta) :=
  match n with
  | O => if prevEnd =? off then Some [] else None
  | S n =>
      let m := footer_entry buf ver in
      if negb (bm_Offset m =? prevEnd) || negb (plausible m off) then None
      else match footer_blocks n (drop (Z.to_nat (entrySize ver)) buf) ver off (bm_end m) with
           | Some ms => Some (m :: ms)
           | None => None
           end
  end.

Definition readFooter (file : list Z) (ver : Z) : option ChunkIndex :=
  let size := ulen file in
  let esz := entrySize ver in
  if size <? chunkHdrSize + trailerSize then None else
  match ReadAt file trailerSize (size - trailerSize) with
  | None => None
  | Some t =>
      if negb (bool_decide (take 4 (drop 16 t) = footerMagic)) then None else
      let count := u32_at t 0 in
      let off := i64_at t 4 in
      let crc := u32_at t 12 in
      if (maxBlockCount <? count) || negb (int64 (off + count * esz) =? size - trailerSize) then None else
      match ReadAt file (count * esz) off with
      | None => None
      | Some buf =>
          if negb (crc32c buf =? crc) then None
          else match footer_blocks (Z.to_nat count) buf ver off chunkHdrSize with
               | Some ms => Some (MkIndex ms off true ver)
               | None => None
               end
      end
  end.

(** The walk over the block headers from [end_]; every block takes some bytes, so the length of the
    file is fuel enough. *)
Fixpoint walk_from (fuel : nat) (file : list Z) (ver end_ : Z) : list BlockMeta * Z :=
  match fuel with
  | O => ([], end_)
  | S fuel =>
      let hsz := hdrSize ver in
      if negb (end_ + hsz <=? ulen file) then ([], end_) else
      match ReadAt file hsz end_ with
      | None => ([], end_)
      | Some hdr =>
          let m := getBlockHeader hdr end_ ver in
          if negb (plausible m (ulen file)) then ([], end_) else
          match ReadAt file (bm_CompLen m) (end_ + hsz) with
          | None => ([], end_)
          | Some comp =>
              if negb (crc32c comp =? bm_CRC m) then ([], end_)
              else let '(ms, e) := walk_from fuel file ver (bm_end m) in (m :: ms, e)
          end
      end
  end.
Definition walkBlocks (file : list Z) (ver : Z) : ChunkIndex :=
  let '(ms, e) := walk_from (length file) file ver chunkHdrSize in MkIndex ms e false ver.

Definition u16_at (b : list Z) (i : nat) : Z := Z.lor (nth (i + 1) b 0) (Z.shiftl (nth i b 0) 8).
Definition readIndex (file : list Z) : L ChunkIndex :=
  if ulen file <? chunkHdrSize then Err ErrCorruptChunk
  else if negb (bool_decide (take 4 file = chunkMagic)) then Err ErrCorruptChunk
  else
    let ver := u16_at file 4 in
    if (ver <? 1) || (chunkVersion <? ver) then Err ErrCorruptChunk
    else match readFooter file ver with Some ix => Ok ix | None => Ok (walkBlocks file ver) end.

Definition readBlock `{Zstd} (file : list Z) (m : BlockMeta) : L (list rawEntry) :=
  match ReadAt file (bm_hdr m + bm_CompLen m) (bm_Offset m) with
  | None => Err ErrRead
  | Some buf =>
      let disk := getBlockHeader buf (bm_Offset m) (bm_ver m) in
      if negb (bm_N disk =? bm_N m) || negb (bm_RawLen disk =? bm_RawLen m) || negb (bm_CompLen disk =? bm_CompLen m)
         || negb (bm_MinTs disk =? bm_MinTs m) || negb (bm_MaxTs disk =? bm_MaxTs m) || negb (bm_BloomLen disk =? bm_BloomLen m)
      then Err ErrCorruptChunk
      else decodeBlock disk (drop (Z.to_nat (bm_hdr m)) buf)
  end.

Definition readBloom (file : list Z) (m : BlockMeta) : option bloomView :=
  if bm_BloomLen m =? 0 then None
  else match ReadAt file (bm_BloomLen m) (bloomOffset m) with
       | None => None
       | Some blob => parseBloom blob
       end.

Definition encode_footer_entry (ver : Z) (m : BlockMeta) : list Z :=
  PutUint64 (uint64 (bm_Offset m)) ++ PutUint64 (uint64 (bm_MinTs m)) ++ PutUint64 (uint64 (bm_MaxTs m)) ++ PutUint32 (bm_N m)
  ++ PutUint32 (bm_RawLen m) ++ PutUint32 (bm_CompLen m) ++ PutUint64 (bm_LastSeq m) ++ (if 2 <=? ver then PutUint32 (bm_BloomLen m) else []).
Definition encodeFooter (blocks : list BlockMeta) (indexOffset ver : Z) : list Z :=
  let buf := blocks ≫= encode_footer_entry ver in
  buf ++ PutUint32 (ulen blocks) ++ PutUint64 (uint64 indexOffset) ++ PutUint32 (crc32c buf) ++ footerMagic.

(** ** The writer *)

(** What the system calls of one operation do: a write that fails leaves some prefix of its bytes. *)
Record outcome := MkOutcome { oc_written : option nat; oc_truncated : bool; oc_synced : bool; oc_renamed : bool }.

Definition write_at (file : list Z) (off : Z) (buf : list Z) : list Z :=
  take (Z.to_nat off) file ++ buf ++ drop (Z.to_nat off + length buf) file.

Record logWriter := MkLogWriter { lw_blocks : list BlockMeta; lw_end : Z; lw_ver : Z }.

Definition chunk_header (ver : Z) : list Z := chunkMagic ++ [uint8 (Z.shiftr ver 8); uint8 ver; 0; 0].

(** A new or empty file. *)
Definition create_chunk (newVer : Z) (oc : outcome) : list Z * L logWriter :=
  match oc_written oc with
  | Some k => (take k (chunk_header newVer), Err ErrWrite)
  | None => (chunk_header newVer, Ok (MkLogWriter [] chunkHdrSize newVer))
  end.

(** [openChunk]: the file afterwards, and the file set aside if there is one. *)
Definition openChunk (newVer : Z) (oc : outcome) (file : list Z) : list Z * option (list Z) * L logWriter :=
  match file with
  | [] => let '(f, w) := create_chunk newVer oc in (f, None, w)
  | _ =>
      match readIndex file with
      | Err ErrCorruptChunk =>
          if oc_renamed oc then let '(f, w) := create_chunk newVer oc in (f, Some file, w)
          else (file, None, Err ErrRename)
      | Err e => (file, None, Err e)
      | Ok ix =>
          let w := MkLogWriter (ix_Blocks ix) (ix_ValidEnd ix) (ix_Version ix) in
          if ix_ValidEnd ix <? ulen file then
            if oc_truncated oc then (take (Z.to_nat (ix_ValidEnd ix)) file, None, Ok w) else (file, None, Err ErrTruncate)
          else (file, None, Ok w)
      end
  end.

(** The block's place in the file. *)
Definition placed (w : logWriter) (m : BlockMeta) (bloom : list Z) : BlockMeta :=
  MkMeta (lw_end w) (bm_MinTs m) (bm_MaxTs m) (bm_N m) (bm_RawLen m) (bm_CompLen m) (bm_CRC m) (bm_LastSeq m) (uint32 (ulen bloom)) (lw_ver w).

Definition appendBlock (oc : outcome) (w : logWriter) (file : list Z) (m : BlockMeta) (comp bloom : list Z) : logWriter * list Z * L BlockMeta :=
  let bloom := if lw_ver w <? 2 then [] else bloom in
  let m := placed w m bloom in
  let buf := putBlockHeader m ++ comp ++ bloom in
  match oc_written oc with
  | Some k =>
      let file := write_at file (lw_end w) (take k buf) in
      (w, if oc_truncated oc then take (Z.to_nat (lw_end w)) file else file, Err ErrWrite)
  | None =>
      let file := write_at file (lw_end w) buf in
      if oc_synced oc then (MkLogWriter (lw_blocks w ++ [m]) (bm_end m) (lw_ver w), file, Ok m)
      else (w, file, Err ErrSync)
  end.

Definition seal (oc : outcome) (w : logWriter) (file : list Z) : list Z * L unit :=
  let buf := encodeFooter (lw_blocks w) (lw_end w) (lw_ver w) in
  match oc_written oc with
  | Some k =>
      let file := write_at file (lw_end w) (take k buf) in
      (if oc_truncated oc then take (Z.to_nat (lw_end w)) file else file, Err ErrWrite)
  | None => (write_at file (lw_end w) buf, if oc_synced oc then Ok tt else Err ErrSync)
  end.
