(* ===== verification/LogChunkProofs.v ===== *)
(** * Log chunks read back

    A block decodes to what was encoded, a chunk file lists exactly the blocks written,
    sealed or torn, and no acknowledged block is lost. *)

From Stdlib Require Import ZArith Lia.
From Stdlib Require Import (notations) String.
From stdpp Require Import base list numbers.
From S2P Require Import Prelude Wal WalProofs WalSafety Gostring HeadRecord BlockFile BlockIndex LogBloom LogChunk.

(** What the compressor promises, for input within the decoder's limit. *)
Class ZstdLaws `{Zstd} := {
  zstd_roundtrip raw : Forall is_byte raw -> ulen raw <= maxBlockRaw -> DecodeAll (EncodeAll raw) = Some raw;
  zstd_bytes raw : Forall is_byte raw -> Forall is_byte (EncodeAll raw);
}.

(** ** The block codec *)

(** An entry as the store makes it: JSON is never empty. *)
Definition entry_ok (e : rawEntry) : Prop := is_i64 (re_Ts e) /\ is_u64 (re_Seq e) /\ Forall is_byte (re_Body e) /\ re_Body e <> [] /\ int_len (re_Body e).

Lemma Varint_Append v rest : is_i64 v -> Varint (AppendVarint [] v ++ rest) = Some (v, rest).
Proof. intros Hv. unfold Varint, AppendVarint, AppendUvarint. cbn [app]. rewrite Uvarint_Append by apply zigzag_range. by rewrite unzigzag_zigzag. Qed.

Lemma seq_delta a b : is_u64 a -> uint64 (b + uint64 (int64 (uint64 (a - b)))) = a.
Proof.
  intros Ha. rewrite uint64_int64. unfold uint64. rewrite Z.mod_mod, Zplus_mod_idemp_r by lia. replace (b + (a - b)) with a by lia. by apply Z.mod_small.
Qed.

Lemma decode_raw es : Forall entry_ok es -> forall prev prevSeq, decode_entries (length es) prev prevSeq (raw_of prev prevSeq es) = Ok es.
Proof.
  induction 1 as [|e es (Ht & Hs & _ & _ & Hl) _ IH]; intros prev prevSeq; [done|]. cbn [length raw_of decode_entries]. unfold entry_raw. rewrite <- !app_assoc.
  rewrite Varint_Append by apply int64_range. rewrite Varint_Append by apply int64_range. unfold AppendUvarint. cbn [app]. rewrite Uvarint_Append by by apply ulen_u64.
  rewrite (proj2 (Z.ltb_ge _ _)) by (rewrite ulen_app; pose proof (ulen_nonneg (raw_of (re_Ts e) (re_Seq e) es)); lia). rewrite ulen_nat, take_app_length, drop_app_length.
  rewrite int64_add_sub, seq_delta by done. rewrite IH. by destruct e.
Qed.

Lemma uvarint_all_bytes u : 0 <= u -> Forall is_byte (AppendUvarint [] u).
Proof. apply uvarint_loop_bytes. Qed.
Lemma raw_bytes es : Forall entry_ok es -> forall prev prevSeq, Forall is_byte (raw_of prev prevSeq es).
Proof.
  induction 1 as [|e es (_ & _ & Hb & _) _ IH]; intros prev prevSeq; [done|]. cbn [raw_of]. unfold entry_raw, AppendVarint. repeat (apply Forall_app; split); try done; apply uvarint_all_bytes; try apply ulen_nonneg; apply zigzag_range.
Qed.

Lemma append_len u : (1 <= length (AppendUvarint [] u))%nat.
Proof. apply uvarint_nonempty. Qed.
(** Every entry takes at least four bytes, so a block within the size limit is within the count limit. *)
Lemma raw_count es : Forall entry_ok es -> forall prev prevSeq, 4 * ulen es <= ulen (raw_of prev prevSeq es).
Proof.
  induction 1 as [|e es (_ & _ & _ & Hb & _) _ IH]; intros prev prevSeq; [done|]. cbn [raw_of]. rewrite ulen_app. specialize (IH (re_Ts e) (re_Seq e)).
  enough (4 <= ulen (entry_raw prev prevSeq e)) by (unfold ulen in *; cbn [length]; lia). unfold entry_raw, ulen. rewrite !length_app. unfold AppendVarint.
  pose proof (append_len (zigzag (int64 (re_Ts e - prev)))). pose proof (append_len (zigzag (int64 (uint64 (re_Seq e - prevSeq))))). pose proof (append_len (ulen (re_Body e))). unfold ulen in *.
  destruct (re_Body e); [done|]. cbn [length] in *. lia.
Qed.

Lemma fold_min es a : Forall (fun e => foldl (fun a e => Z.min a (re_Ts e)) a es <= re_Ts e) es /\ foldl (fun a e => Z.min a (re_Ts e)) a es <= a.
Proof. revert a. induction es as [|e es IH]; intros a; [split; [done|cbn; lia]|]. cbn [foldl]. destruct (IH (Z.min a (re_Ts e))) as [H1 H2]. split; [apply Forall_cons_2; [lia|done]|lia]. Qed.
Lemma fold_max (f : rawEntry -> Z) es a : Forall (fun e => f e <= foldl (fun a e => Z.max a (f e)) a es) es /\ a <= foldl (fun a e => Z.max a (f e)) a es.
Proof. revert a. induction es as [|e es IH]; intros a; [split; [done|cbn; lia]|]. cbn [foldl]. destruct (IH (Z.max a (f e))) as [H1 H2]. split; [apply Forall_cons_2; [lia|done]|lia]. Qed.
Lemma fold_in (op : Z -> Z -> Z) (f : rawEntry -> Z) (P : Z -> Prop) es a : (forall x y, op x y = x \/ op x y = y) -> P a -> Forall (fun e => P (f e)) es -> P (foldl (fun a e => op a (f e)) a es).
Proof. intros Hop Ha He. revert a Ha. induction He as [|e es He _ IH]; intros a Ha; [done|]. cbn [foldl]. apply IH. by destruct (Hop a (f e)) as [-> | ->]. Qed.

Section Codec.
Context `{Zstd} `{!ZstdLaws}.

(** What an encoded block says of its entries. *)
Definition describes (m : BlockMeta) (comp : list Z) (es : list rawEntry) : Prop :=
  es <> [] /\ Forall entry_ok es /\ Forall is_byte comp /\ bm_CompLen m = uint32 (ulen comp) /\ bm_CRC m = crc32c comp /\ decodeBlock m comp = Ok es
  /\ 0 < bm_N m <= maxBlockCount /\ 0 <= bm_RawLen m <= maxBlockRaw /\ is_i64 (bm_MinTs m) /\ is_i64 (bm_MaxTs m) /\ bm_MinTs m <= bm_MaxTs m /\ is_u64 (bm_LastSeq m)
  /\ Forall (fun e => bm_MinTs m <= re_Ts e <= bm_MaxTs m /\ re_Seq e <= bm_LastSeq m) es.

Lemma encode_describes es m comp : Forall entry_ok es -> encodeBlock es = Ok (m, comp) -> describes m comp es.
Proof.
  intros He. destruct es as [|e0 es]; [done|]. unfold encodeBlock. set (E := e0 :: es) in *. set (minTs := foldl (fun a e => Z.min a (re_Ts e)) (re_Ts e0) E). set (maxTs := foldl (fun a e => Z.max a (re_Ts e)) (re_Ts e0) E). set (lastSeq := foldl (fun a e => Z.max a (re_Seq e)) (re_Seq e0) E). set (raw := raw_of minTs 0 E).
  destruct (Z.ltb_spec maxBlockRaw (ulen raw)) as [|Hraw]; [done|]. intros [= <- <-]. pose proof (raw_bytes E He minTs 0) as Hrb. fold raw in Hrb. pose proof (raw_count E He minTs 0) as Hn. fold raw in Hn.
  pose proof (ulen_nonneg raw) as Hr0. assert (HE : 0 < ulen E) by (unfold ulen, E; cbn [length]; lia). unfold maxBlockRaw in Hraw.
  assert (HN : uint32 (ulen E) = ulen E) by (unfold uint32; apply Z.mod_small; lia). assert (HR : uint32 (ulen raw) = ulen raw) by (unfold uint32; apply Z.mod_small; lia).
  assert (Hts : Forall (fun e => is_i64 (re_Ts e)) E) by (eapply List.Forall_impl; [|exact He]; intros e Hok; apply Hok). assert (Hsq : Forall (fun e => is_u64 (re_Seq e)) E) by (eapply List.Forall_impl; [|exact He]; intros e Hok; apply Hok).
  assert (He0 : is_i64 (re_Ts e0) /\ is_u64 (re_Seq e0)) by (by inversion Hts; inversion Hsq). destruct He0 as [Ht0 Hs0].
  assert (Hmin : is_i64 minTs) by (apply (fold_in Z.min re_Ts is_i64); [intros; lia|done..]). assert (Hmax : is_i64 maxTs) by (apply (fold_in Z.max re_Ts is_i64); [intros; lia|done..]).
  assert (Hlast : is_u64 lastSeq) by (apply (fold_in Z.max re_Seq is_u64); [intros; lia|done..]).
  pose proof (fold_min E (re_Ts e0)) as [Fmin Fmin0]. pose proof (fold_max re_Ts E (re_Ts e0)) as [Fmax Fmax0]. pose proof (fold_max re_Seq E (re_Seq e0)) as [Fseq _]. fold minTs in Fmin, Fmin0. fold maxTs in Fmax, Fmax0. fold lastSeq in Fseq.
  split; [done|]. split; [done|]. split; [by apply zstd_bytes|]. cbn [bm_CompLen bm_CRC bm_N bm_RawLen bm_MinTs bm_MaxTs bm_LastSeq]. split; [done|]. split; [done|]. split.
  { unfold decodeBlock. cbn [bm_CompLen bm_CRC bm_N bm_RawLen bm_MinTs]. rewrite !Z.eqb_refl. cbn [negb]. rewrite zstd_roundtrip by (done || unfold maxBlockRaw; lia). rewrite Z.eqb_refl, HN, HR.
    rewrite !(proj2 (Z.ltb_ge _ _)) by (unfold maxBlockRaw, maxBlockCount; lia). cbn [orb negb]. rewrite ulen_nat. by apply decode_raw. }
  rewrite HN, HR. unfold maxBlockCount, maxBlockRaw. split_and!; [lia..|done|done|lia|done|].
  rewrite List.Forall_forall in *. intros e Hin. specialize (Fmin e Hin). specialize (Fmax e Hin). specialize (Fseq e Hin). cbn in *. lia.
Qed.
End Codec.

(** ** Fields *)

Lemma u32_put v rest : is_u32 v -> Uint32 (PutUint32 v ++ rest) = v.
Proof. intros Hv. rewrite Uint32_put_any. by apply Z.mod_small. Qed.
Lemma u64_put v rest : is_u64 v -> u64_at (PutUint64 v ++ rest) 0 = v.
Proof.
  intros Hv. pose proof (PutUint64_at v rest Hv) as Hp. unfold BigEndian_Uint64 in Hp. destruct (ulen _ <? 8); [done|]. by injection Hp.
Qed.
Lemma i64_put v rest : is_i64 v -> i64_at (PutUint64 (uint64 v) ++ rest) 0 = v.
Proof. intros Hv. unfold i64_at. rewrite u64_put by apply uint64_range. rewrite int64_uint64. by apply int64_id. Qed.

Lemma u64_skip a b i : u64_at (a ++ b) (length a + i) = u64_at b i.
Proof. unfold u64_at. rewrite <- Nat.add_assoc, !drop_app_add. done. Qed.
Lemma u32_skip a b i : u32_at (a ++ b) (length a + i) = u32_at b i.
Proof. unfold u32_at. by rewrite drop_app_add. Qed.

Definition fields_ok (m : BlockMeta) : Prop :=
  is_i64 (bm_MinTs m) /\ is_i64 (bm_MaxTs m) /\ is_u32 (bm_N m) /\ is_u32 (bm_RawLen m) /\ is_u32 (bm_CompLen m) /\ is_u32 (bm_CRC m) /\ is_u64 (bm_LastSeq m) /\ is_u32 (bm_BloomLen m)
  /\ (bm_ver m < 2 -> bm_BloomLen m = 0).
Definition no_crc (m : BlockMeta) : BlockMeta :=
  MkMeta (bm_Offset m) (bm_MinTs m) (bm_MaxTs m) (bm_N m) (bm_RawLen m) (bm_CompLen m) 0 (bm_LastSeq m) (bm_BloomLen m) (bm_ver m).

Lemma get_put m rest : fields_ok m -> getBlockHeader (putBlockHeader m ++ rest) (bm_Offset m) (bm_ver m) = m.
Proof.
  intros (H1 & H2 & H3 & H4 & H5 & H6 & H7 & H8 & H9). unfold getBlockHeader, putBlockHeader. destruct m as [off mn mx n rl cl crc ls bl ver]. cbn [bm_Offset bm_MinTs bm_MaxTs bm_N bm_RawLen bm_CompLen bm_CRC bm_LastSeq bm_BloomLen bm_ver] in *.
  rewrite <- !app_assoc. set (tl := (if 2 <=? ver then PutUint32 bl else []) ++ rest).
  change (i64_at (PutUint64 (uint64 mn) ++ PutUint64 (uint64 mx) ++ ?r) 8) with (i64_at (PutUint64 (uint64 mx) ++ r) 0).
  rewrite !i64_put by done. f_equal.
  - exact (u32_put n _ H3).
  - exact (u32_put rl _ H4).
  - exact (u32_put cl _ H5).
  - exact (u32_put crc _ H6).
  - exact (u64_put ls tl H7).
  - unfold tl. destruct (Z.leb_spec 2 ver) as [Hv|Hv]; [exact (u32_put bl rest H8)|symmetry; by apply H9].
Qed.

Lemma footer_put m rest : fields_ok m -> is_i64 (bm_Offset m) -> footer_entry (encode_footer_entry (bm_ver m) m ++ rest) (bm_ver m) = no_crc m.
Proof.
  intros (H1 & H2 & H3 & H4 & H5 & H6 & H7 & H8 & H9) Ho. unfold footer_entry, encode_footer_entry, no_crc. destruct m as [off mn mx n rl cl crc ls bl ver]. cbn [bm_Offset bm_MinTs bm_MaxTs bm_N bm_RawLen bm_CompLen bm_CRC bm_LastSeq bm_BloomLen bm_ver] in *.
  rewrite <- !app_assoc. set (tl := (if 2 <=? ver then PutUint32 bl else []) ++ rest).
  change (i64_at (PutUint64 (uint64 off) ++ PutUint64 (uint64 mn) ++ ?r) 8) with (i64_at (PutUint64 (uint64 mn) ++ r) 0).
  change (i64_at (PutUint64 (uint64 off) ++ PutUint64 (uint64 mn) ++ PutUint64 (uint64 mx) ++ ?r) 16) with (i64_at (PutUint64 (uint64 mx) ++ r) 0).
  rewrite !i64_put by done. f_equal.
  - exact (u32_put n _ H3).
  - exact (u32_put rl _ H4).
  - exact (u32_put cl _ H5).
  - exact (u64_put ls tl H7).
  - unfold tl. destruct (Z.leb_spec 2 ver) as [Hv|Hv]; [exact (u32_put bl rest H8)|symmetry; by apply H9].
Qed.

Lemma put_length m : ulen (putBlockHeader m) = bm_hdr m.
Proof. unfold putBlockHeader, bm_hdr, hdrSize. by destruct (2 <=? bm_ver m). Qed.
Lemma footer_entry_length ver m : ulen (encode_footer_entry ver m) = entrySize ver.
Proof. unfold encode_footer_entry, entrySize. by destruct (2 <=? ver). Qed.

Lemma ReadAt_mid a b c : ReadAt (a ++ b ++ c) (ulen b) (ulen a) = Some b.
Proof.
  unfold ReadAt. rewrite !ulen_app. pose proof (ulen_nonneg a). pose proof (ulen_nonneg b). pose proof (ulen_nonneg c). rewrite !(proj2 (Z.leb_le _ _)) by lia. cbn [andb].
  by rewrite !ulen_nat, drop_app_length, take_app_length.
Qed.
(** A read inside a prefix reads the same of the whole. *)
Lemma ReadAt_prefix file n off tail buf : 0 <= n -> ReadAt file n off = Some buf -> ReadAt (file ++ tail) n off = Some buf.
Proof.
  unfold ReadAt. rewrite ulen_app. pose proof (ulen_nonneg tail). intros Hn. destruct (Z.leb_spec 0 off); [|done]. destruct (Z.leb_spec (off + n) (ulen file)) as [Hle|]; [|done]. intros [= <-].
  rewrite (proj2 (Z.leb_le _ _)) by lia. cbn [andb]. unfold ulen in *. rewrite drop_app_le, take_app_le by (rewrite ?length_drop; lia). done.
Qed.
Lemma ReadAt_len file n off buf : 0 <= n -> ReadAt file n off = Some buf -> ulen buf = n /\ 0 <= off /\ off + n <= ulen file.
Proof.
  unfold ReadAt. intros Hn. destruct (Z.leb_spec 0 off); [|done]. destruct (Z.leb_spec (off + n) (ulen file)) as [Hle|]; [|done]. intros [= <-]. unfold ulen in *. rewrite length_take, length_drop. lia.
Qed.

(** ** The walk *)

Lemma nth_byte (l : list Z) i : Forall is_byte l -> is_byte (nth i l 0).
Proof. intros Hl. destruct (nth_in_or_default i l 0) as [Hin| ->]; [|unfold is_byte; lia]. rewrite List.Forall_forall in Hl. by apply Hl. Qed.
Lemma Uint32_range (l : list Z) : Forall is_byte l -> is_u32 (Uint32 l).
Proof.
  intros Hl. change (Uint32 l) with (Uint32 [nth 0 l 0; nth 1 l 0; nth 2 l 0; nth 3 l 0]). pose proof (nth_byte l 0 Hl). pose proof (nth_byte l 1 Hl). pose proof (nth_byte l 2 Hl). pose proof (nth_byte l 3 Hl).
  rewrite Uint32_bytes by done. unfold is_byte, is_u32 in *. lia.
Qed.
Lemma u32_at_range b i : Forall is_byte b -> is_u32 (u32_at b i).
Proof. intros Hb. apply Uint32_range. by apply Forall_drop. Qed.
Lemma u64_at_range b i : Forall is_byte b -> is_u64 (u64_at b i).
Proof.
  intros Hb. unfold u64_at. pose proof (u32_at_range b i Hb) as H1. pose proof (u32_at_range b (i + 4) Hb) as H2. unfold u32_at, is_u32 in *. rewrite Z.shiftl_mul_pow2 by lia. rewrite lor_disjoint by lia. unfold is_u64. lia.
Qed.

Lemma header_fields b off ver : Forall is_byte b -> fields_ok (getBlockHeader b off ver).
Proof.
  intros Hb. unfold fields_ok, getBlockHeader. cbn [bm_MinTs bm_MaxTs bm_N bm_RawLen bm_CompLen bm_CRC bm_LastSeq bm_BloomLen bm_ver]. split_and!; try apply int64_range; try (by apply u32_at_range); try (by apply u64_at_range).
  - destruct (2 <=? ver); [by apply u32_at_range|unfold is_u32; lia].
  - intros Hv. by rewrite (proj2 (Z.leb_gt _ _)).
Qed.

Definition small (file : list Z) : Prop := ulen file < 2 ^ 62.
Lemma end_exact m : fields_ok m -> 0 <= bm_Offset m < 2 ^ 62 -> bm_end m = bm_Offset m + bm_hdr m + bm_CompLen m + bm_BloomLen m.
Proof.
  intros (_ & _ & _ & _ & Hc & _ & _ & Hb & _) Ho. unfold bm_end. apply int64_id. unfold is_i64, is_u32 in *. unfold bm_hdr, hdrSize, blockHdrSize. destruct (2 <=? bm_ver m); lia.
Qed.

(** The blocks lie one behind the other from [off] to [e]. *)
Fixpoint tile (ver size off : Z) (ms : list BlockMeta) (e : Z) : Prop :=
  match ms with
  | [] => e = off
  | m :: ms => bm_Offset m = off /\ bm_ver m = ver /\ fields_ok m /\ plausible m size = true /\ tile ver size (bm_end m) ms e
  end.

Lemma plausible_end m size : plausible m size = true -> bm_end m <= size.
Proof. unfold plausible. rewrite !andb_true_iff. intros [_ He]. lia. Qed.
Lemma plausible_more m size size' : plausible m size = true -> size <= size' -> plausible m size' = true.
Proof. unfold plausible. rewrite !andb_true_iff. intros [Hrest He] Hle. split; [done|lia]. Qed.

Lemma ReadAt_bytes file n off buf : Forall is_byte file -> ReadAt file n off = Some buf -> Forall is_byte buf.
Proof. unfold ReadAt. intros Hf. destruct (_ && _); [|done]. intros [= <-]. by apply Forall_take, Forall_drop. Qed.

Lemma walk_tile fuel : forall file ver off ms e, Forall is_byte file -> walk_from fuel file ver off = (ms, e) -> tile ver (ulen file) off ms e.
Proof.
  induction fuel as [|fuel IH]; intros file ver off ms e Hf; cbn [walk_from]; [by intros [= <- <-]|].
  destruct (_ <=? _); cbn [negb]; [|by intros [= <- <-]]. destruct (ReadAt file (hdrSize ver) off) as [hdr|] eqn:Eh; [|by intros [= <- <-]]. set (m := getBlockHeader hdr off ver).
  destruct (plausible m (ulen file)) eqn:Ep; cbn [negb]; [|by intros [= <- <-]]. destruct (ReadAt file (bm_CompLen m) _) as [comp|]; [|by intros [= <- <-]]. destruct (_ =? _); cbn [negb]; [|by intros [= <- <-]].
  destruct (walk_from fuel file ver (bm_end m)) as [ms' e'] eqn:Ew. intros [= <- <-]. split_and!; [done|done|apply header_fields; by eapply ReadAt_bytes|done|by apply IH].
Qed.

Lemma tile_le ver size ms : forall off e, 0 <= off -> size < 2 ^ 62 -> off <= size -> tile ver size off ms e -> off <= e <= size.
Proof.
  induction ms as [|m ms IH]; intros off e Ho Hs Hle; cbn [tile]; [lia|]. intros (Hoff & _ & Hf & Hp & Ht). apply plausible_end in Hp. pose proof (end_exact m Hf ltac:(lia)) as He.
  destruct Hf as (_ & _ & _ & _ & Hc & _ & _ & Hb & _). unfold is_u32 in *. assert (0 <= bm_hdr m) by (unfold bm_hdr, hdrSize, blockHdrSize; destruct (2 <=? _); lia).
  assert (off <= bm_end m) by lia. specialize (IH (bm_end m) e ltac:(lia) Hs Hp Ht). lia.
Qed.

(** One step of the walk at a block that checks out. *)
Definition good_at (file : list Z) (ver off : Z) (m : BlockMeta) : Prop :=
  exists hdr comp, ReadAt file (hdrSize ver) off = Some hdr /\ m = getBlockHeader hdr off ver /\ plausible m (ulen file) = true
    /\ ReadAt file (bm_CompLen m) (off + hdrSize ver) = Some comp /\ crc32c comp = bm_CRC m.

Lemma hdrSize_pos ver : 40 <= hdrSize ver <= 44.
Proof. unfold hdrSize, blockHdrSize. destruct (2 <=? ver); lia. Qed.

Lemma walk_good fuel file ver off m : good_at file ver off m ->
  walk_from (S fuel) file ver off = let '(ms, e) := walk_from fuel file ver (bm_end m) in (m :: ms, e).
Proof.
  intros (hdr & comp & Hh & -> & Hp & Hc & Hcrc). cbn [walk_from]. pose proof (hdrSize_pos ver). destruct (ReadAt_len file (hdrSize ver) off hdr) as (_ & _ & Hle); [lia|done|]. rewrite (proj2 (Z.leb_le _ _)) by lia. cbn [negb].
  rewrite Hh, Hp, Hc, Hcrc, Z.eqb_refl. done.
Qed.

Lemma good_more file tail ver off m : Forall is_byte file -> good_at file ver off m -> good_at (file ++ tail) ver off m.
Proof.
  intros Hf (hdr & comp & Hh & -> & Hp & Hc & Hcrc). exists hdr, comp. pose proof (hdrSize_pos ver). split; [apply ReadAt_prefix; [lia|done]|]. split; [done|].
  split; [eapply plausible_more; [done|]; rewrite ulen_app; pose proof (ulen_nonneg tail); lia|]. split; [|done]. apply ReadAt_prefix; [|done].
  pose proof (header_fields hdr off ver (ReadAt_bytes _ _ _ _ Hf Hh)) as (_ & _ & _ & _ & Hcl & _). unfold is_u32 in Hcl. lia.
Qed.

(** The walk, as a relation: good blocks from [off] to [e]. *)
Fixpoint walks (file : list Z) (ver off : Z) (ms : list BlockMeta) (e : Z) : Prop :=
  match ms with
  | [] => e = off
  | m :: ms => good_at file ver off m /\ walks file ver (bm_end m) ms e
  end.

Lemma walk_walks fuel : forall file ver off ms e, walk_from fuel file ver off = (ms, e) -> walks file ver off ms e.
Proof.
  induction fuel as [|fuel IH]; intros file ver off ms e; cbn [walk_from]; [by intros [= <- <-]|].
  destruct (_ <=? _); cbn [negb]; [|by intros [= <- <-]]. destruct (ReadAt file (hdrSize ver) off) as [hdr|] eqn:Eh; [|by intros [= <- <-]]. set (m := getBlockHeader hdr off ver).
  destruct (plausible m (ulen file)) eqn:Ep; cbn [negb]; [|by intros [= <- <-]]. destruct (ReadAt file (bm_CompLen m) _) as [comp|] eqn:Ec; [|by intros [= <- <-]]. destruct (Z.eqb_spec (crc32c comp) (bm_CRC m)); cbn [negb]; [|by intros [= <- <-]].
  destruct (walk_from fuel file ver (bm_end m)) as [ms' e'] eqn:Ew. intros [= <- <-]. split; [by exists hdr, comp|by apply IH].
Qed.

Lemma walks_more file tail ver ms : Forall is_byte file -> forall off e, walks file ver off ms e -> walks (file ++ tail) ver off ms e.
Proof. intros Hf. induction ms as [|m ms IH]; intros off e; [done|]. intros [Hg Hw]. split; [by apply good_more|by apply IH]. Qed.
Lemma walks_app file ver ms ms' : forall off mid e, walks file ver off ms mid -> walks file ver mid ms' e -> walks file ver off (ms ++ ms') e.
Proof. induction ms as [|m ms IH]; intros off mid e; cbn; [by intros -> |]. intros [Hg Hw] Hw'. split; [done|by eapply IH]. Qed.

(** The walk goes through whatever checks out, and on from there. *)
Lemma walks_walk file ver ms : forall off mid fuel, walks file ver off ms mid ->
  walk_from (length ms + fuel) file ver off = let '(ms', e) := walk_from fuel file ver mid in (ms ++ ms', e).
Proof.
  induction ms as [|m ms IH]; intros off mid fuel; [intros ->; cbn [length Nat.add app]; by destruct (walk_from fuel file ver off)|]. intros [Hg Hw]. cbn [length Nat.add]. rewrite (walk_good _ _ _ _ _ Hg), (IH _ _ _ Hw).
  by destruct (walk_from fuel file ver mid).
Qed.

(** ** A block at its place *)

(** The bytes [appendBlock] writes, and when they are well-formed. *)
Definition block_bytes (m : BlockMeta) (comp bloom : list Z) : list Z := putBlockHeader m ++ comp ++ bloom.
Definition block_ok (m : BlockMeta) (comp bloom : list Z) : Prop :=
  fields_ok m /\ bm_CompLen m = ulen comp /\ bm_BloomLen m = ulen bloom /\ bm_CRC m = crc32c comp
  /\ 0 < bm_N m <= maxBlockCount /\ bm_RawLen m <= maxBlockRaw /\ ulen comp <= maxBlockComp /\ ulen bloom <= maxBloomLen /\ bm_MinTs m <= bm_MaxTs m.

Lemma block_length m comp bloom : ulen (block_bytes m comp bloom) = bm_hdr m + ulen comp + ulen bloom.
Proof. unfold block_bytes. rewrite !ulen_app, put_length. lia. Qed.
Lemma block_end pre m comp bloom : block_ok m comp bloom -> bm_Offset m = ulen pre -> small pre -> bm_end m = ulen (pre ++ block_bytes m comp bloom).
Proof.
  intros (Hf & Hc & Hb & _) Ho Hs. rewrite end_exact by (done || unfold small in Hs; pose proof (ulen_nonneg pre); lia). rewrite ulen_app, block_length. lia.
Qed.
Lemma block_plausible m comp bloom size : block_ok m comp bloom -> plausible m size = (bm_end m <=? size).
Proof.
  intros (_ & Hc & Hb & _ & HN & HR & HC & HB & HT). unfold plausible. rewrite Hc, Hb. rewrite (proj2 (Z.ltb_lt 0 _)) by lia. rewrite !(proj2 (Z.leb_le (bm_N m) _)), (proj2 (Z.leb_le (bm_RawLen m) _)), (proj2 (Z.leb_le (ulen comp) _)), (proj2 (Z.leb_le (ulen bloom) _)), (proj2 (Z.leb_le (bm_MinTs m) _)) by lia. done.
Qed.

Lemma good_block pre m comp bloom tail : block_ok m comp bloom -> bm_Offset m = ulen pre -> small pre ->
  good_at (pre ++ block_bytes m comp bloom ++ tail) (bm_ver m) (ulen pre) m.
Proof.
  intros Hok Ho Hs. pose proof (block_end pre m comp bloom Hok Ho Hs) as He. exists (putBlockHeader m), comp. unfold block_bytes. rewrite <- !app_assoc. split_and!.
  - fold (bm_hdr m). rewrite <- put_length. apply ReadAt_mid.
  - rewrite <- (get_put m []) at 1 by apply Hok. by rewrite app_nil_r, Ho.
  - rewrite (block_plausible _ comp bloom) by done. apply Z.leb_le. rewrite He. unfold block_bytes. rewrite !ulen_app. pose proof (ulen_nonneg tail). lia.
  - fold (bm_hdr m). rewrite <- put_length. destruct Hok as (_ & -> & _). rewrite <- ulen_app. replace (pre ++ putBlockHeader m ++ comp ++ bloom ++ tail) with ((pre ++ putBlockHeader m) ++ comp ++ (bloom ++ tail)) by by rewrite <- !app_assoc. apply ReadAt_mid.
  - by destruct Hok as (_ & _ & _ & -> & _).
Qed.

(** A torn block ends the walk. *)
Lemma torn_block pre m comp bloom k fuel : block_ok m comp bloom -> bm_Offset m = ulen pre -> small pre -> (k < length (block_bytes m comp bloom))%nat ->
  walk_from fuel (pre ++ take k (block_bytes m comp bloom)) (bm_ver m) (ulen pre) = ([], ulen pre).
Proof.
  intros Hok Ho Hs Hk. destruct fuel as [|fuel]; [done|]. cbn [walk_from]. destruct (Z.leb_spec (ulen pre + hdrSize (bm_ver m)) (ulen (pre ++ take k (block_bytes m comp bloom)))) as [Hh|Hh]; cbn [negb]; [|done].
  rewrite ulen_app in Hh. unfold ulen in Hh at 3. rewrite length_take in Hh. pose proof (put_length m) as Hp. unfold bm_hdr in Hp. unfold ulen in Hp at 1.
  assert (Hkh : (length (putBlockHeader m) <= k)%nat) by lia. replace (take k (block_bytes m comp bloom)) with (putBlockHeader m ++ take (k - length (putBlockHeader m)) (comp ++ bloom)) by (symmetry; by apply take_app_ge).
  fold (bm_hdr m). rewrite <- put_length, ReadAt_mid. rewrite <- Ho, <- (app_nil_r (putBlockHeader m)) at 1. rewrite get_put by apply Hok. rewrite (block_plausible _ comp bloom) by done.
  rewrite (proj2 (Z.leb_gt _ _)); [done|]. rewrite (block_end pre m comp bloom Hok Ho Hs). unfold block_bytes, ulen in *. rewrite !length_app, length_take, length_app in *. lia.
Qed.

Section ReadBack.
Context `{Zstd}.

Lemma read_block_at pre m comp bloom tail : block_ok m comp bloom -> bm_Offset m = ulen pre -> readBlock (pre ++ block_bytes m comp bloom ++ tail) m = decodeBlock m comp.
Proof.
  intros Hok Ho. unfold readBlock, block_bytes. rewrite Ho. destruct Hok as (Hf & Hc & _). rewrite Hc, <- put_length, <- ulen_app. rewrite <- !app_assoc.
  replace (pre ++ putBlockHeader m ++ comp ++ bloom ++ tail) with (pre ++ (putBlockHeader m ++ comp) ++ bloom ++ tail) by by rewrite <- !app_assoc. rewrite ReadAt_mid. rewrite <- Ho, get_put, !Z.eqb_refl by done. cbn [negb orb].
  by rewrite Hc, Z.eqb_refl, ulen_nat, drop_app_length.
Qed.
Lemma read_block_more file tail m : 0 <= bm_CompLen m -> match readBlock file m with Err ErrRead => True | r => readBlock (file ++ tail) m = r end.
Proof.
  intros Hc. unfold readBlock. destruct (ReadAt file _ _) as [buf|] eqn:E; [|done]. assert (Hn : 0 <= bm_hdr m + bm_CompLen m) by (pose proof (hdrSize_pos (bm_ver m)); unfold bm_hdr; lia). rewrite (ReadAt_prefix _ _ _ tail _ Hn E).
  destruct (negb _ || _ || _ || _ || _ || _); [done|]. by destruct (decodeBlock _ _) as [|[]].
Qed.
End ReadBack.

Lemma read_bloom_at pre m comp bloom tail : block_ok m comp bloom -> bm_Offset m = ulen pre -> small (pre ++ block_bytes m comp bloom) ->
  readBloom (pre ++ block_bytes m comp bloom ++ tail) m = if bool_decide (bloom = []) then None else parseBloom bloom.
Proof.
  intros Hok Ho Hs. unfold readBloom. destruct Hok as (Hf & Hc & Hb & _). rewrite Hb. case_bool_decide as Hn; [by subst|]. destruct (Z.eqb_spec (ulen bloom) 0) as [E|_]; [by destruct bloom|].
  assert (Hoff : bloomOffset m = ulen (pre ++ putBlockHeader m ++ comp)).
  { unfold bloomOffset. rewrite Ho, Hc, <- put_length, !ulen_app. unfold small in Hs. rewrite ulen_app, block_length, <- put_length in Hs. pose proof (ulen_nonneg pre). pose proof (ulen_nonneg (putBlockHeader m)). pose proof (ulen_nonneg comp). pose proof (ulen_nonneg bloom). rewrite int64_id by (unfold is_i64; lia). lia. }
  rewrite Hoff. unfold block_bytes. replace (pre ++ (putBlockHeader m ++ comp ++ bloom) ++ tail) with ((pre ++ putBlockHeader m ++ comp) ++ bloom ++ tail) by by rewrite <- !app_assoc. by rewrite ReadAt_mid.
Qed.

(** ** The footer *)

Lemma footer_blocks_tile ver size ms : forall off rest, size < 2 ^ 62 -> 0 <= off <= size -> tile ver size off ms size ->
  footer_blocks (length ms) ((ms ≫= encode_footer_entry ver) ++ rest) ver size off = Some (no_crc <$> ms).
Proof.
  induction ms as [|m ms IH]; intros off rest Hs Ho; cbn [tile length footer_blocks]; [intros ->; by rewrite Z.eqb_refl|]. intros (Hoff & Hv & Hf & Hp & Ht).
  change ((m :: ms) ≫= encode_footer_entry ver) with (encode_footer_entry ver m ++ (ms ≫= encode_footer_entry ver)). rewrite <- app_assoc. subst ver. rewrite footer_put by (done || unfold is_i64; lia).
  change (bm_Offset (no_crc m)) with (bm_Offset m). change (plausible (no_crc m) size) with (plausible m size). change (bm_end (no_crc m)) with (bm_end m). rewrite Hoff, Z.eqb_refl, Hp. cbn [negb orb].
  rewrite <- (footer_entry_length (bm_ver m) m), ulen_nat, drop_app_length. pose proof (plausible_end _ _ Hp) as He. pose proof (end_exact m Hf ltac:(lia)) as Hx.
  destruct Hf as (_ & _ & _ & _ & Hc & _ & _ & Hb & _). unfold is_u32 in *. pose proof (hdrSize_pos (bm_ver m)). unfold bm_hdr in Hx. rewrite IH by (done || lia). done.
Qed.

Lemma footer_length ver ms : ulen (ms ≫= encode_footer_entry ver) = ulen ms * entrySize ver.
Proof. induction ms as [|m ms IH]; [done|]. change ((m :: ms) ≫= encode_footer_entry ver) with (encode_footer_entry ver m ++ (ms ≫= encode_footer_entry ver)). rewrite ulen_app, footer_entry_length, IH. unfold ulen. cbn [length]. lia. Qed.

Lemma put32_bytes v : Forall is_byte (PutUint32 v).
Proof. unfold PutUint32. repeat (apply Forall_cons_2; [apply uint8_range|]). by apply Forall_nil. Qed.
Lemma footer_bytes ver ms : Forall is_byte (ms ≫= encode_footer_entry ver).
Proof.
  apply Forall_bind, List.Forall_forall. intros m _. unfold encode_footer_entry, PutUint64. repeat (apply Forall_app; split); try apply put32_bytes. destruct (2 <=? ver); [apply put32_bytes|by apply Forall_nil].
Qed.

Lemma no_crc_footer ver ms ms' : no_crc <$> ms = no_crc <$> ms' -> ms ≫= encode_footer_entry ver = ms' ≫= encode_footer_entry ver.
Proof.
  revert ms'. induction ms as [|m ms IH]; intros [|m' ms'] E; try done. cbn [fmap list_fmap] in E. injection E as E0 E1 E2 E3 E4 E5 E6 E7 E8 E.
  change (encode_footer_entry ver m ++ (ms ≫= encode_footer_entry ver) = encode_footer_entry ver m' ++ (ms' ≫= encode_footer_entry ver)). rewrite (IH _ E). f_equal. unfold encode_footer_entry. by rewrite E0, E1, E2, E3, E4, E5, E6, E7.
Qed.
