(* ===== verification/LogChunkLife.v ===== *)
(** * The life of a log chunk

    The writer over a file whose writes, truncations and syncs can fail and whose
    unsynced tail a crash can cut: what is acknowledged stays readable. *)

From Stdlib Require Import ZArith Lia.
From Stdlib Require Import (notations) String.
From stdpp Require Import base list numbers.
From S2P Require Import Prelude Wal WalProofs WalSafety Gostring HeadRecord BlockFile BlockIndex LogBloom LogChunk LogChunkProofs.

(** ** What a reader learns of a file *)

Definition headed (ver : Z) (file : list Z) : Prop := (ver = 1 \/ ver = 2) /\ take 8 file = chunk_header ver.

Lemma readIndex_headed ver file : headed ver file -> readIndex file = Ok (match readFooter file ver with Some ix => ix | None => walkBlocks file ver end).
Proof.
  intros [Hv Hh]. rewrite <- (take_drop 8 file). rewrite Hh. generalize (drop 8 file). intros rest. unfold readIndex. rewrite (proj2 (Z.ltb_ge _ _)) by (rewrite ulen_app; pose proof (ulen_nonneg rest); unfold chunkHdrSize; change (ulen (chunk_header ver)) with 8; lia).
  change (take 4 (chunk_header ver ++ rest)) with chunkMagic. rewrite bool_decide_eq_true_2 by done. cbn [negb].
  assert (Hu : u16_at (chunk_header ver ++ rest) 4 = ver) by (by destruct Hv as [-> | ->]). rewrite Hu. replace ((ver <? 1) || (chunkVersion <? ver)) with false by (by destruct Hv as [-> | ->]). by destruct (readFooter _ ver).
Qed.

Lemma headed_app ver file tail : headed ver file -> headed ver (file ++ tail).
Proof.
  intros [Hv Hh]. split; [done|]. assert (8 <= length file)%nat by (apply (f_equal length) in Hh; rewrite length_take in Hh; change (length (chunk_header ver)) with 8%nat in Hh; lia). by rewrite take_app_le.
Qed.
Lemma headed_len ver file : headed ver file -> 8 <= ulen file.
Proof. intros [_ Hh]. apply (f_equal length) in Hh. rewrite length_take in Hh. change (length (chunk_header ver)) with 8%nat in Hh. unfold ulen. lia. Qed.

Lemma walks_tile file ver ms : Forall is_byte file -> forall off e, walks file ver off ms e -> tile ver (ulen file) off ms e.
Proof.
  intros Hf. induction ms as [|m ms IH]; intros off e; [done|]. intros [(hdr & comp & Hh & -> & Hp & _) Hw]. split_and!; [done|done|apply header_fields; by eapply ReadAt_bytes|done|by apply IH].
Qed.

Definition trailer (n off crc : Z) : list Z := PutUint32 n ++ PutUint64 (uint64 off) ++ PutUint32 crc ++ footerMagic.

Lemma read_sealed pre ver ms blocks : headed ver pre -> Forall is_byte pre -> walks pre ver chunkHdrSize ms (ulen pre) -> no_crc <$> blocks = no_crc <$> ms -> ulen ms <= maxBlockCount ->
  small (pre ++ encodeFooter blocks (ulen pre) ver) -> readFooter (pre ++ encodeFooter blocks (ulen pre) ver) ver = Some (MkIndex (no_crc <$> ms) (ulen pre) true ver).
Proof.
  intros Hh Hb Hw Hcrc Hn Hs. pose proof (headed_len _ _ Hh) as H8. apply walks_tile in Hw; [|done]. unfold encodeFooter in *. rewrite (no_crc_footer ver blocks ms Hcrc) in *. set (buf := ms ≫= encode_footer_entry ver) in *.
  replace (ulen blocks) with (ulen ms) in * by (unfold ulen; apply (f_equal length) in Hcrc; rewrite !length_fmap in Hcrc; lia). change (PutUint32 (ulen ms) ++ PutUint64 (uint64 (ulen pre)) ++ PutUint32 (crc32c buf) ++ footerMagic) with (trailer (ulen ms) (ulen pre) (crc32c buf)) in *.
  set (t := trailer (ulen ms) (ulen pre) (crc32c buf)) in *. assert (Hlt : ulen t = 20) by done. assert (Hbl : ulen buf = ulen ms * entrySize ver) by apply footer_length. pose proof (ulen_nonneg buf) as Hb0. pose proof (ulen_nonneg ms) as Hm0.
  unfold small in Hs. rewrite !ulen_app, Hlt in Hs. unfold readFooter. rewrite !ulen_app, Hlt. unfold chunkHdrSize, trailerSize. rewrite (proj2 (Z.ltb_ge _ _)) by lia. replace (ulen pre + (ulen buf + 20) - 20) with (ulen (pre ++ buf)) by (rewrite ulen_app; lia).
  replace (pre ++ buf ++ t) with ((pre ++ buf) ++ t ++ []) by (rewrite app_nil_r; by rewrite <- app_assoc). rewrite <- Hlt, ReadAt_mid. change (take 4 (drop 16 t)) with footerMagic. rewrite bool_decide_eq_true_2 by done. cbn [negb].
  assert (Hcount : u32_at t 0 = ulen ms) by (apply u32_put; unfold is_u32, maxBlockCount in *; lia). assert (Hoff : i64_at t 4 = ulen pre) by exact (i64_put (ulen pre) (PutUint32 (crc32c buf) ++ footerMagic) ltac:(unfold is_i64; lia)).
  assert (Hc : u32_at t 12 = crc32c buf) by exact (u32_put (crc32c buf) footerMagic ltac:(apply crc32c_range, footer_bytes)). rewrite Hcount, Hoff, Hc.
  rewrite (proj2 (Z.ltb_ge _ _)) by lia. cbn [orb]. rewrite <- Hbl, <- ulen_app, int64_id by (unfold is_i64; rewrite ulen_app; pose proof (ulen_nonneg pre); lia). rewrite Z.eqb_refl. cbn [negb].
  replace ((pre ++ buf) ++ t ++ []) with (pre ++ buf ++ t) by (rewrite app_nil_r; by rewrite <- app_assoc). rewrite ReadAt_mid, Z.eqb_refl. cbn [negb]. rewrite ulen_nat. rewrite <- (app_nil_r buf). unfold buf.
  rewrite footer_blocks_tile; [done|lia|unfold chunkHdrSize; lia|exact Hw].
Qed.

Lemma tile_count ver size ms : size < 2 ^ 62 -> forall off e, 0 <= off <= size -> tile ver size off ms e -> off + 40 * ulen ms <= e.
Proof.
  intros Hs. induction ms as [|m ms IH]; intros off e Ho; cbn [tile]; [intros ->; unfold ulen; cbn; lia|]. intros (Hoff & _ & Hf & Hp & Ht). apply plausible_end in Hp. pose proof (end_exact m Hf ltac:(lia)) as He.
  destruct Hf as (_ & _ & _ & _ & Hc & _ & _ & Hb & _). unfold is_u32 in *. pose proof (hdrSize_pos (bm_ver m)). unfold bm_hdr in He. specialize (IH (bm_end m) e ltac:(lia) Ht). unfold ulen in *. cbn [length]. lia.
Qed.

Lemma walk_prefix pre tail ver ms : headed ver pre -> Forall is_byte pre -> small pre -> walks pre ver chunkHdrSize ms (ulen pre) ->
  exists fuel, walkBlocks (pre ++ tail) ver = let '(ms', e) := walk_from fuel (pre ++ tail) ver (ulen pre) in MkIndex (ms ++ ms') e false ver.
Proof.
  intros Hh Hb Hs Hw. pose proof (headed_len _ _ Hh) as H8. pose proof (tile_count ver (ulen pre) ms Hs chunkHdrSize (ulen pre) ltac:(unfold chunkHdrSize; lia) (walks_tile _ _ _ Hb _ _ Hw)) as Hn.
  exists (length (pre ++ tail) - length ms)%nat. unfold walkBlocks. pose proof (walks_walk (pre ++ tail) ver ms chunkHdrSize (ulen pre) (length (pre ++ tail) - length ms) (walks_more _ _ _ _ Hb _ _ Hw)) as Hwalk.
  replace (length ms + (length (pre ++ tail) - length ms))%nat with (length (pre ++ tail)) in Hwalk by (rewrite length_app; unfold ulen, chunkHdrSize in *; lia). rewrite Hwalk. by destruct (walk_from _ _ ver (ulen pre)).
Qed.

Lemma read_torn pre ver ms m comp bloom k : headed ver pre -> Forall is_byte pre -> small pre -> walks pre ver chunkHdrSize ms (ulen pre) ->
  block_ok m comp bloom -> bm_Offset m = ulen pre -> bm_ver m = ver -> (k < length (block_bytes m comp bloom))%nat ->
  walkBlocks (pre ++ take k (block_bytes m comp bloom)) ver = MkIndex ms (ulen pre) false ver.
Proof.
  intros Hh Hb Hs Hw Hok Ho Hv Hk. destruct (walk_prefix pre (take k (block_bytes m comp bloom)) ver ms Hh Hb Hs Hw) as [fuel ->]. subst ver. rewrite torn_block by done. by rewrite app_nil_r.
Qed.

(** Cutting a file behind the last good block keeps the walk. *)
Lemma ReadAt_cut file n off e buf : 0 <= n -> ReadAt file n off = Some buf -> off + n <= e <= ulen file -> ReadAt (take (Z.to_nat e) file) n off = Some buf.
Proof.
  intros Hn Hr He. destruct (ReadAt_len _ _ _ _ Hn Hr) as (_ & Ho & _). unfold ReadAt in *. rewrite (proj2 (Z.leb_le 0 off)) in * by lia. destruct (off + n <=? ulen file); [|done]. injection Hr as <-.
  unfold ulen in *. rewrite length_take, (proj2 (Z.leb_le _ _)) by lia. cbn [andb]. f_equal. rewrite skipn_firstn_comm, take_take. f_equal. lia.
Qed.

Lemma walks_cut file ver ms e : Forall is_byte file -> small file -> forall off, 0 <= off -> off <= ulen file -> walks file ver off ms e -> walks (take (Z.to_nat e) file) ver off ms e.
Proof.
  intros Hb Hs. induction ms as [|m ms IH]; intros off Ho Hle; [done|]. intros [Hg Hw]. pose proof Hg as (hdr & comp & Hh & Em & Hp & Hc & Hcrc). pose proof (plausible_end _ _ Hp) as Hend.
  assert (Hf : fields_ok m) by (rewrite Em; apply header_fields; by eapply ReadAt_bytes). assert (Hoff : bm_Offset m = off) by (by rewrite Em). assert (Hver : bm_ver m = ver) by (by rewrite Em). unfold small in Hs. pose proof (end_exact m Hf ltac:(lia)) as Hx.
  pose proof (hdrSize_pos ver) as Hhz. unfold bm_hdr in Hx. rewrite Hver in Hx. pose proof Hf as (_ & _ & _ & _ & Hcl & _ & _ & Hbl & _). unfold is_u32 in Hcl, Hbl.
  pose proof (tile_le ver (ulen file) ms (bm_end m) e ltac:(lia) Hs Hend (walks_tile _ _ _ Hb _ _ Hw)) as Hlast. split; [|apply IH; [lia|lia|done]].
  assert (Hlen : ulen (take (Z.to_nat e) file) = e) by (unfold ulen in *; rewrite length_take; lia). exists hdr, comp. split_and!; [apply ReadAt_cut; [lia|done|lia]|done| |apply ReadAt_cut; [lia|done|lia]|done].
  rewrite Hlen. unfold plausible in *. rewrite !andb_true_iff in *. destruct Hp as [Hp _]. split; [done|]. apply Z.leb_le. lia.
Qed.

(** ** The writer *)

Section Life.
Context `{Zstd} `{!ZstdLaws}.

(** The file, its writer, and the blocks it has acknowledged with their entries. *)
Record chunk := MkChunk { ck_file : list Z; ck_w : logWriter; ck_acked : list (BlockMeta * list rawEntry) }.

(** A footer found intact is one the writer wrote. *)
Definition no_forgery (w : logWriter) (file : list Z) : Prop :=
  match readFooter file (lw_ver w) with
  | None => True
  | Some ix => ix_Blocks ix = no_crc <$> lw_blocks w /\ ix_ValidEnd ix = lw_end w /\ ix_Version ix = lw_ver w
  end.

(** A batch as the store seals it: the compressed size within the reader's limit, the filter's too. *)
Definition sealable (es : list rawEntry) (m : BlockMeta) (comp bloom : list Z) : Prop :=
  Forall entry_ok es /\ encodeBlock es = Ok (m, comp) /\ ulen comp <= maxBlockComp /\ Forall is_byte bloom /\ ulen bloom <= maxBloomLen.

(** One operation. A crash may cut what lies behind the last block synced; the file is then opened again. *)
Inductive chunk_step : chunk -> chunk -> Prop :=
| CS_append file w acked oc es m comp bloom w' file' r : sealable es m comp bloom ->
    appendBlock oc w file m comp bloom = (w', file', r) -> small file' ->
    chunk_step (MkChunk file w acked) (MkChunk file' w' (match r with Ok m' => acked ++ [(m', es)] | Err _ => acked end))
| CS_seal file w acked oc file' r : seal oc w file = (file', r) -> small file' ->
    chunk_step (MkChunk file w acked) (MkChunk file' w acked)
| CS_reopen file w acked oc newVer k file' aside w' : lw_end w <= Z.of_nat k -> no_forgery w (take k file) ->
    openChunk newVer oc (take k file) = (file', aside, Ok w') ->
    chunk_step (MkChunk file w acked) (MkChunk file' w' acked).
Inductive chunk_reach : chunk -> Prop :=
| CR_new newVer oc file aside w : newVer = 1 \/ newVer = 2 -> openChunk newVer oc [] = (file, aside, Ok w) -> chunk_reach (MkChunk file w [])
| CR_step c c' : chunk_reach c -> chunk_step c c' -> chunk_reach c'.

(** The bytes up to the writer's end are a chunk with exactly the writer's blocks, which hold the acknowledged ones. *)
Definition chunk_inv (c : chunk) : Prop :=
  exists pre tail ms, ck_file c = pre ++ tail /\ ulen pre = lw_end (ck_w c) /\ headed (lw_ver (ck_w c)) pre /\ Forall is_byte (ck_file c) /\ small (ck_file c)
    /\ walks pre (lw_ver (ck_w c)) chunkHdrSize ms (ulen pre) /\ no_crc <$> ms = no_crc <$> lw_blocks (ck_w c)
    /\ Forall (fun a => no_crc a.1 ∈ no_crc <$> ms /\ 0 <= bm_CompLen a.1 /\ readBlock pre a.1 = Ok a.2) (ck_acked c).

Lemma create_inv newVer oc file w : newVer = 1 \/ newVer = 2 -> create_chunk newVer oc = (file, Ok w) -> chunk_inv (MkChunk file w []).
Proof.
  intros Hv. unfold create_chunk. destruct (oc_written oc); [done|]. intros [= <- <-]. exists (chunk_header newVer), [], []. cbn [ck_file ck_w ck_acked lw_end lw_ver lw_blocks].
  split_and!; [by rewrite app_nil_r|done|by split|by destruct Hv as [-> | ->]; repeat constructor|by unfold small|done|done|by apply Forall_nil].
Qed.

Lemma write_at_end pre tail buf : write_at (pre ++ tail) (ulen pre) buf = pre ++ buf ++ drop (length buf) tail.
Proof. unfold write_at. rewrite ulen_nat, take_app_length. by rewrite drop_app_add. Qed.

Lemma write_at_exact pre buf : write_at pre (ulen pre) buf = pre ++ buf.
Proof. pose proof (write_at_end pre [] buf) as E. by rewrite drop_nil, !app_nil_r in E. Qed.

Lemma uint32_small x : 0 <= x < 2 ^ 32 -> uint32 x = x.
Proof. intros Hx. unfold uint32. by apply Z.mod_small. Qed.

Lemma placed_ok w es m comp bloom : sealable es m comp bloom -> (lw_ver w < 2 -> bloom = []) -> block_ok (placed w m bloom) comp bloom /\ decodeBlock (placed w m bloom) comp = Ok es.
Proof.
  intros (He & Henc & Hcomp & _ & Hbl) Hv. destruct (encode_describes es m comp He Henc) as (_ & _ & Hcb & HC & Hcrc & Hdec & HN & HR & Hmin & Hmax & Hle & Hls & _).
  pose proof (ulen_nonneg comp). pose proof (ulen_nonneg bloom). unfold maxBlockComp, maxBloomLen, maxBlockCount, maxBlockRaw in *. rewrite uint32_small in HC by lia. split; [|exact Hdec].
  unfold block_ok, fields_ok, placed. cbn [bm_MinTs bm_MaxTs bm_N bm_RawLen bm_CompLen bm_CRC bm_LastSeq bm_BloomLen bm_ver]. rewrite uint32_small by lia.
  split_and!; try done; unfold is_u32, maxBlockCount, maxBlockRaw in *; try lia; try (rewrite Hcrc; by apply crc32c_range). intros Hlt. by rewrite (Hv Hlt).
Qed.

Lemma header_bytes m : Forall is_byte (putBlockHeader m).
Proof. unfold putBlockHeader, PutUint64. repeat (apply Forall_app; split); try apply put32_bytes. destruct (2 <=? bm_ver m); [apply put32_bytes|by apply Forall_nil]. Qed.

(** Bytes behind the writer's end do not matter. *)
Lemma inv_tail file w acked pre tail tail' : chunk_inv (MkChunk file w acked) -> file = pre ++ tail -> ulen pre = lw_end w -> Forall is_byte tail' -> small (pre ++ tail') ->
  chunk_inv (MkChunk (pre ++ tail') w acked).
Proof.
  intros (pre0 & tail0 & ms0 & Hfile & Hend & Hh & Hb & Hs & Hw & Hcrc & Ha) -> Hpre Hb' Hs'. cbn [ck_file ck_w ck_acked] in *. assert (Hlen : length pre = length pre0) by (unfold ulen in *; lia).
  apply app_inj_1 in Hfile as [<- <-]; [|done]. exists pre, tail', ms0. cbn [ck_file ck_w ck_acked]. apply Forall_app in Hb as [Hbp _]. split_and!; try done. by apply Forall_app.
Qed.

Lemma inv_parts c : chunk_inv c -> exists pre tail, ck_file c = pre ++ tail /\ ulen pre = lw_end (ck_w c) /\ Forall is_byte pre /\ Forall is_byte tail /\ small pre.
Proof.
  intros (pre & tail & ms & Hf & He & _ & Hb & Hs & _). exists pre, tail. rewrite Hf in Hb, Hs. apply Forall_app in Hb as [Hb1 Hb2]. split_and!; try done. unfold small in *. rewrite ulen_app in Hs. pose proof (ulen_nonneg tail). lia.
Qed.

Lemma footer_all_bytes blocks off ver : Forall is_byte (encodeFooter blocks off ver).
Proof.
  unfold encodeFooter, PutUint64. repeat (apply Forall_app; split); try apply put32_bytes; [apply footer_bytes|]. by repeat constructor.
Qed.

(** A failed write, whether or not its bytes are cut off again. *)
Lemma inv_failed_write c buf k (cut : bool) : chunk_inv c -> Forall is_byte buf ->
  let file := write_at (ck_file c) (lw_end (ck_w c)) (take k buf) in let file' := if cut then take (Z.to_nat (lw_end (ck_w c))) file else file in
  small file' -> chunk_inv (MkChunk file' (ck_w c) (ck_acked c)).
Proof.
  intros Hinv Hbuf. destruct (inv_parts c Hinv) as (pre & tail & Hf & He & Hbp & Hbt & Hsp). rewrite <- He, Hf, write_at_end. cbn zeta. destruct c as [file w acked]. cbn [ck_file ck_w ck_acked] in *. destruct cut.
  - rewrite ulen_nat, take_app_length. intros _. rewrite <- (app_nil_r pre). by eapply inv_tail; [exact Hinv|exact Hf|done|by apply Forall_nil|rewrite app_nil_r].
  - intros Hs. eapply inv_tail; [exact Hinv|exact Hf|done| |done]. apply Forall_app. split; [by apply Forall_take|by apply Forall_drop].
Qed.

Lemma append_inv file w acked oc es m comp bloom w' file' r : chunk_inv (MkChunk file w acked) -> sealable es m comp bloom ->
  appendBlock oc w file m comp bloom = (w', file', r) -> small file' ->
  chunk_inv (MkChunk file' w' (match r with Ok m' => acked ++ [(m', es)] | Err _ => acked end)).
Proof.
  intros Hinv Hseal Happ Hs. unfold appendBlock in Happ. set (bl := if lw_ver w <? 2 then [] else bloom) in *.
  assert (Hseal' : sealable es m comp bl) by (unfold bl; destruct (lw_ver w <? 2); [|done]; destruct Hseal as (? & ? & ? & ? & ?); split_and!; [done..|by apply Forall_nil|unfold ulen, maxBloomLen; cbn [length]; lia]).
  destruct (placed_ok w es m comp bl Hseal' ltac:(intros Hlt; unfold bl; by rewrite (proj2 (Z.ltb_lt _ _) Hlt))) as [Hok Hdec]. set (m1 := placed w m bl) in *. change (putBlockHeader m1 ++ comp ++ bl) with (block_bytes m1 comp bl) in Happ.
  assert (Hcb : Forall is_byte comp) by by destruct (encode_describes es m comp (proj1 Hseal') (proj1 (proj2 Hseal'))) as (_ & _ & Hcb & _).
  assert (Hbytes : Forall is_byte (block_bytes m1 comp bl)) by (unfold block_bytes; apply Forall_app; split; [apply header_bytes|]; apply Forall_app; split; [done|by destruct Hseal' as (_ & _ & _ & Hb & _)]).
  pose proof (fun pre => good_block pre m1 comp bl [] Hok) as Hgood. pose proof (fun pre => block_end pre m1 comp bl Hok) as Hbend. pose proof (fun pre => read_block_at pre m1 comp bl [] Hok) as Hread. rewrite Hdec in Hread.
  assert (Hoff : bm_Offset m1 = lw_end w) by done. assert (Hver : bm_ver m1 = lw_ver w) by done. assert (Hc1 : 0 <= bm_CompLen m1) by (destruct Hok as (_ & -> & _); apply ulen_nonneg).
  clear Hok Hdec Hcb. generalize dependent (block_bytes m1 comp bl). intros B Happ HB Hgood Hbend Hread. clearbody m1.
  destruct (oc_written oc) as [k|]; [injection Happ as <- <- <-; by apply (inv_failed_write (MkChunk file w acked) _ k (oc_truncated oc))|].
  destruct (inv_parts _ Hinv) as (pre & tail & Hf & He & Hbp & Hbt & Hsp). cbn [ck_file ck_w] in *. rewrite <- He, Hf, write_at_end in Happ.
  assert (Hdrop : Forall is_byte (drop (length (B)) tail)) by by apply Forall_drop. destruct (oc_synced oc).
  2:{ injection Happ as <- <- <-. eapply inv_tail; [exact Hinv|exact Hf|done|by apply Forall_app|done]. }
  injection Happ as <- <- <-. destruct Hinv as (pre0 & tail0 & ms & Hf0 & He0 & Hh & _ & _ & Hw & Hcrc & Ha). cbn [ck_file ck_w ck_acked] in *.
  rewrite Hf in Hf0. apply app_inj_1 in Hf0 as [<- <-]; [|unfold ulen in *; lia]. clear He0. rewrite <- He in Hoff.
  exists (pre ++ B), (drop (length (B)) tail), (ms ++ [m1]). cbn [ck_file ck_w ck_acked lw_end lw_ver lw_blocks]. split_and!.
  - by rewrite <- app_assoc.
  - symmetry. by apply Hbend.
  - by apply headed_app.
  - by repeat (apply Forall_app; split).
  - done.
  - eapply walks_app; [by apply walks_more|]. split; [|symmetry; by apply Hbend]. specialize (Hgood pre Hoff Hsp). rewrite app_nil_r in Hgood. by rewrite Hver in Hgood.
  - by rewrite !fmap_app, Hcrc.
  - apply Forall_app. split.
    + eapply List.Forall_impl; [|exact Ha]. intros [a es'] (Hin & Hc & Hr). split_and!; [rewrite fmap_app; apply elem_of_app; by left|done|]. pose proof (read_block_more pre (B) a Hc) as Hmore. cbn [fst snd] in *. by rewrite Hr in Hmore.
    + apply Forall_singleton. cbn [fst snd]. split_and!; [rewrite fmap_app; apply elem_of_app; right; by left|done|].
      specialize (Hread pre Hoff). by rewrite app_nil_r in Hread.
Qed.

Lemma seal_inv file w acked oc file' r : chunk_inv (MkChunk file w acked) -> seal oc w file = (file', r) -> small file' -> chunk_inv (MkChunk file' w acked).
Proof.
  intros Hinv Hseal Hs. unfold seal in Hseal. pose proof (footer_all_bytes (lw_blocks w) (lw_end w) (lw_ver w)) as Hb. generalize dependent (encodeFooter (lw_blocks w) (lw_end w) (lw_ver w)). intros F Hseal HF.
  destruct (oc_written oc) as [k|]; injection Hseal as <- <-; [by apply (inv_failed_write (MkChunk file w acked) _ k (oc_truncated oc))|].
  destruct (inv_parts _ Hinv) as (pre & tail & Hf & He & Hbp & Hbt & Hsp). cbn [ck_file ck_w] in *. assert (E : write_at file (lw_end w) F = pre ++ F ++ drop (length F) tail) by by rewrite <- He, Hf, write_at_end. rewrite E in *.
  eapply inv_tail; [exact Hinv|exact Hf|done| |done]. apply Forall_app. split; [done|by apply Forall_drop].
Qed.

(** Opening what a crash left. *)
Lemma index_inv file w acked k : chunk_inv (MkChunk file w acked) -> lw_end w <= Z.of_nat k -> no_forgery w (take k file) ->
  exists ix extra, readIndex (take k file) = Ok ix /\ ix_Version ix = lw_ver w /\ no_crc <$> ix_Blocks ix = (no_crc <$> lw_blocks w) ++ extra /\ lw_end w <= ix_ValidEnd ix <= ulen (take k file)
    /\ chunk_inv (MkChunk (take (Z.to_nat (ix_ValidEnd ix)) (take k file)) (MkLogWriter (ix_Blocks ix) (ix_ValidEnd ix) (ix_Version ix)) acked).
Proof.
  intros (pre & tail & ms & Hf & He & Hh & Hb & Hs & Hw & Hcrc & Ha) Hk Hforge. cbn [ck_file ck_w ck_acked] in *.
  assert (Htk : take k file = pre ++ take (k - length pre) tail) by (rewrite Hf; apply take_app_ge; unfold ulen in *; lia). rewrite Htk in *. set (tl := take (k - length pre) tail) in *.
  rewrite Hf in Hb, Hs. apply Forall_app in Hb as [Hbp Hbt]. assert (Hbtl : Forall is_byte tl) by by apply Forall_take.
  assert (Hsm : small (pre ++ tl)) by (unfold small, ulen, tl in *; rewrite length_app, length_take in *; lia). assert (Hsp : small pre) by (unfold small, ulen in *; rewrite length_app in Hsm; lia).
  pose proof (headed_app _ _ tl Hh) as Hh'. rewrite (readIndex_headed _ _ Hh'). unfold no_forgery in Hforge. destruct (readFooter (pre ++ tl) (lw_ver w)) as [ix|].
  - destruct Hforge as (Hbl & Hve & Hvr). exists ix, []. rewrite app_nil_r, Hve, Hvr, Hbl. split; [done|]. split; [done|]. split; [rewrite <- list_fmap_compose; by apply list_fmap_ext|]. rewrite <- He, ulen_nat, take_app_length.
    split; [rewrite ulen_app; pose proof (ulen_nonneg tl); lia|]. exists pre, [], ms. cbn [ck_file ck_w ck_acked lw_end lw_ver lw_blocks]. rewrite app_nil_r. split_and!; try done. rewrite <- list_fmap_compose. rewrite Hcrc. by apply list_fmap_ext.
  - destruct (walk_prefix pre tl (lw_ver w) ms Hh Hbp Hsp Hw) as [fuel ->]. destruct (walk_from fuel (pre ++ tl) (lw_ver w) (ulen pre)) as [ms' e] eqn:Ewalk. apply walk_walks in Ewalk.
    assert (Hbw : Forall is_byte (pre ++ tl)) by by apply Forall_app. pose proof (walks_tile _ _ _ Hbw _ _ Ewalk) as Htile. assert (Hle : ulen pre <= e <= ulen (pre ++ tl)) by (apply (tile_le (lw_ver w) _ ms'); [apply ulen_nonneg|done|rewrite ulen_app; pose proof (ulen_nonneg tl); lia|done]).
    exists (MkIndex (ms ++ ms') e false (lw_ver w)), (no_crc <$> ms'). cbn [ix_Blocks ix_ValidEnd ix_Version]. split; [done|]. split; [done|]. split; [by rewrite fmap_app, Hcrc|]. rewrite <- He. split; [lia|].
    assert (Hwall : walks (pre ++ tl) (lw_ver w) chunkHdrSize (ms ++ ms') e) by (eapply walks_app; [by apply walks_more|done]). pose proof (headed_len _ _ Hh) as H8.
    apply walks_cut in Hwall; [|done|done|done|rewrite ulen_app; pose proof (ulen_nonneg tl); unfold chunkHdrSize; lia].
    exists (take (Z.to_nat e) (pre ++ tl)), [], (ms ++ ms'). cbn [ck_file ck_w ck_acked lw_end lw_ver lw_blocks]. assert (Hlen : ulen (take (Z.to_nat e) (pre ++ tl)) = e) by (unfold ulen in *; rewrite length_take; lia).
    assert (Hsplit : take (Z.to_nat e) (pre ++ tl) = pre ++ take (Z.to_nat e - length pre) tl) by (apply take_app_ge; unfold ulen in *; lia). rewrite Hlen. split_and!.
    + by rewrite app_nil_r.
    + done.
    + rewrite Hsplit. by apply headed_app.
    + by apply Forall_take.
    + unfold small in *. lia.
    + done.
    + done.
    + rewrite Hsplit. eapply List.Forall_impl; [|exact Ha]. intros [a es'] (Hin & Hc & Hr). split_and!; [rewrite fmap_app; apply elem_of_app; by left|done|]. pose proof (read_block_more pre (take (Z.to_nat e - length pre) tl) a Hc) as Hmore. cbn [fst snd] in *. by rewrite Hr in Hmore.
Qed.

Lemma reopen_inv file w acked oc newVer k file' aside w' : chunk_inv (MkChunk file w acked) -> lw_end w <= Z.of_nat k -> no_forgery w (take k file) ->
  openChunk newVer oc (take k file) = (file', aside, Ok w') -> chunk_inv (MkChunk file' w' acked).
Proof.
  intros Hinv Hk Hforge Hopen. destruct (index_inv _ _ _ _ Hinv Hk Hforge) as (ix & extra & Hix & _ & _ & Hend & Hnew). unfold openChunk in Hopen. rewrite Hix in Hopen.
  destruct (take k file) as [|c0 f] eqn:Ef; [discriminate Hix|]. destruct (Z.ltb_spec (ix_ValidEnd ix) (ulen (c0 :: f))) as [Hlt|Hge].
  - destruct (oc_truncated oc); [|done]. injection Hopen as <- <- <-. done.
  - injection Hopen as <- <- <-. rewrite (take_ge (c0 :: f)) in Hnew by (unfold ulen in *; lia). done.
Qed.

Lemma reach_inv c : chunk_reach c -> chunk_inv c.
Proof.
  induction 1 as [newVer oc file aside w Hv Hopen|c c' _ IH Hstep].
  - unfold openChunk in Hopen. destruct (create_chunk newVer oc) as [f w0] eqn:E. injection Hopen as <- <- ->. by eapply create_inv.
  - destruct Hstep; [by eapply append_inv|by eapply seal_inv|by eapply reopen_inv].
Qed.

Lemma acked_readable c a es : chunk_inv c -> (a, es) ∈ ck_acked c -> no_crc a ∈ no_crc <$> lw_blocks (ck_w c) /\ forall k, lw_end (ck_w c) <= Z.of_nat k -> readBlock (take k (ck_file c)) a = Ok es.
Proof.
  intros (pre & tail & ms & Hf & He & _ & _ & _ & _ & Hcrc & Ha) Hin. rewrite List.Forall_forall in Ha. apply list_elem_of_In, Ha in Hin as (Hin & Hc & Hr). cbn [fst snd] in *. rewrite <- Hcrc. split; [done|]. intros k Hk.
  rewrite Hf, take_app_ge by (unfold ulen in *; lia). pose proof (read_block_more pre (take (k - length pre) tail) a Hc) as Hmore. by rewrite Hr in Hmore.
Qed.

(** C15: A block the writer has acknowledged is never lost. Start with a new chunk file; append blocks, write footers, close and open again, in any order, with any write failing half-way, any truncation or sync failing, and any crash that cuts the file behind the last block synced: every acknowledged block is in the writer's list and reads back exactly the entries that were sealed into it; and whatever such a cut leaves, the index a reader builds has all of them, whether from the footer or by walking the blocks. *)
Theorem chunk_durable c : chunk_reach c ->
  (forall m es, (m, es) ∈ ck_acked c -> no_crc m ∈ no_crc <$> lw_blocks (ck_w c) /\ readBlock (ck_file c) m = Ok es)
  /\ forall k, lw_end (ck_w c) <= Z.of_nat k -> no_forgery (ck_w c) (take k (ck_file c)) ->
       exists ix, readIndex (take k (ck_file c)) = Ok ix
         /\ forall m es, (m, es) ∈ ck_acked c -> no_crc m ∈ no_crc <$> ix_Blocks ix /\ readBlock (take k (ck_file c)) m = Ok es.
Proof.
  intros Hinv%reach_inv. split.
  - intros m es Hin. destruct (acked_readable c m es Hinv Hin) as [Hl Hr]. split; [done|]. destruct (inv_parts c Hinv) as (pre & tail & Hf & He & _).
    specialize (Hr (length (ck_file c))). rewrite take_ge in Hr by lia. apply Hr. rewrite Hf, length_app. unfold ulen in He. lia.
  - intros k Hk Hforge. destruct c as [file w acked]. destruct (index_inv _ _ _ _ Hinv Hk Hforge) as (ix & extra & Hix & _ & Hbl & _). exists ix. split; [done|]. intros m es Hin.
    destruct (acked_readable _ m es Hinv Hin) as [Hl Hr]. split; [rewrite Hbl; apply elem_of_app; by left|by apply Hr].
Qed.

(** The index of a chunk is exact. When the file ends with the writer's last block, the footer [seal] writes makes a reader see precisely the writer's blocks, vouched for; and a crash at any byte of the next block leaves a file whose readers see precisely the writer's blocks and where the next one goes (unless the torn bytes happen to be an intact footer themselves). *)
Theorem chunk_index_exact c oc : chunk_reach c -> ulen (ck_file c) = lw_end (ck_w c) -> oc_written oc = None ->
  (ulen (lw_blocks (ck_w c)) <= maxBlockCount -> small (seal oc (ck_w c) (ck_file c)).1 ->
     readIndex (seal oc (ck_w c) (ck_file c)).1 = Ok (MkIndex (no_crc <$> lw_blocks (ck_w c)) (lw_end (ck_w c)) true (lw_ver (ck_w c))))
  /\ forall es m comp bloom k, sealable es m comp bloom -> small (appendBlock oc (ck_w c) (ck_file c) m comp bloom).1.2 ->
       let torn := take k (appendBlock oc (ck_w c) (ck_file c) m comp bloom).1.2 in
       lw_end (ck_w c) <= ulen torn < ulen (appendBlock oc (ck_w c) (ck_file c) m comp bloom).1.2 -> readFooter torn (lw_ver (ck_w c)) = None ->
       exists blocks, readIndex torn = Ok (MkIndex blocks (lw_end (ck_w c)) false (lw_ver (ck_w c))) /\ no_crc <$> blocks = no_crc <$> lw_blocks (ck_w c).
Proof.
  intros (pre & tail & ms & Hf & He & Hh & Hb & Hs & Hw & Hcrc & Ha)%reach_inv Hlen Hoc. assert (tail = []) as -> by (destruct tail; [done|]; rewrite Hf in Hlen; unfold ulen in *; rewrite length_app in Hlen; cbn [length] in Hlen; lia).
  rewrite app_nil_r in Hf. rewrite Hf in *. split.
  - intros Hn. unfold seal. rewrite Hoc. cbn [fst]. rewrite <- He. rewrite write_at_exact. intros Hsm.
    rewrite (readIndex_headed (lw_ver (ck_w c))) by by apply headed_app. assert (Hcount : ulen ms = ulen (lw_blocks (ck_w c))) by (apply (f_equal length) in Hcrc; rewrite !length_fmap in Hcrc; unfold ulen; lia).
    rewrite (read_sealed pre (lw_ver (ck_w c)) ms) by (done || lia). by rewrite Hcrc.
  - intros es m comp bloom k Hseal. unfold appendBlock. rewrite Hoc. set (bl := if lw_ver (ck_w c) <? 2 then [] else bloom) in *.
    assert (Hseal' : sealable es m comp bl) by (unfold bl; destruct (lw_ver (ck_w c) <? 2); [|done]; destruct Hseal as (? & ? & ? & ? & ?); split_and!; [done..|by apply Forall_nil|unfold ulen, maxBloomLen; cbn [length]; lia]).
    destruct (placed_ok (ck_w c) es m comp bl Hseal' ltac:(intros Hlt; unfold bl; by rewrite (proj2 (Z.ltb_lt _ _) Hlt))) as [Hok _]. set (m1 := placed (ck_w c) m bl) in *. change (putBlockHeader m1 ++ comp ++ bl) with (block_bytes m1 comp bl).
    assert (E : write_at pre (lw_end (ck_w c)) (block_bytes m1 comp bl) = pre ++ block_bytes m1 comp bl) by (rewrite <- He; apply write_at_exact).
    replace (if oc_synced oc then _ else _).1.2 with (pre ++ block_bytes m1 comp bl) by (rewrite E; by destruct (oc_synced oc)). intros Hsm Htorn Hfoot.
    assert (Hk : take k (pre ++ block_bytes m1 comp bl) = pre ++ take (k - length pre) (block_bytes m1 comp bl)) by (apply take_app_ge; unfold ulen in *; rewrite length_take in Htorn; lia).
    rewrite Hk in *. rewrite (readIndex_headed (lw_ver (ck_w c))), Hfoot by by apply headed_app. exists ms. split; [|done]. rewrite <- He. f_equal. apply (read_torn pre (lw_ver (ck_w c)) ms m1 comp bl); try done.
    rewrite !ulen_app in Htorn. unfold ulen in Htorn. rewrite length_take in Htorn. lia.
Qed.
End Life.

(** ** Samples *)

Module ChunkSample.
(** A compressor that does not compress. *)
#[local] Instance stored : Zstd := {| EncodeAll := fun raw => raw; DecodeAll := fun comp => Some comp |}.
#[local] Instance stored_laws : ZstdLaws.
Proof. by split. Qed.

Definition fine : outcome := MkOutcome None true true true.
Definition torn_write : outcome := MkOutcome (Some 30%nat) false true true.
Definition entries1 : list rawEntry := [MkRaw 100 1 (str "a"); MkRaw 90 2 (str "bc")].
Definition entries2 : list rawEntry := [MkRaw 200 3 (str "d")].

(** A new chunk, a block, a block whose write fails half-way and is not cut off. *)
Definition state0 : list Z * option (list Z) * L logWriter := openChunk 2 fine [].
Definition w0 : logWriter := MkLogWriter [] 8 2.
Definition enc (es : list rawEntry) : BlockMeta * list Z := match encodeBlock es with Ok p => p | Err _ => (MkMeta 0 0 0 0 0 0 0 0 0 0, []) end.
Definition after1 := appendBlock fine w0 (chunk_header 2) (enc entries1).1 (enc entries1).2 [].
Definition after2 := appendBlock torn_write after1.1.1 after1.1.2 (enc entries2).1 (enc entries2).2 [].
Definition acked1 : BlockMeta := match after1.2 with Ok m => m | Err _ => MkMeta 0 0 0 0 0 0 0 0 0 0 end.
Definition sample : chunk := MkChunk after2.1.2 after2.1.1 [(acked1, entries1)].

Lemma entries_ok : Forall entry_ok entries1 /\ Forall entry_ok entries2.
Proof. split; repeat (apply Forall_cons_2; [split_and!; try (cbn; unfold is_i64, is_u64, int_len, ulen; cbn [length]; lia); [by repeat constructor|done]|]); by apply Forall_nil. Qed.

Lemma sample_reach1 : chunk_reach (MkChunk after1.1.2 after1.1.1 [(acked1, entries1)]).
Proof.
  eapply (CR_step (MkChunk (chunk_header 2) w0 [])); [eapply (CR_new 2 fine); [by right|reflexivity]|].
  apply (CS_append _ _ [] fine entries1 (enc entries1).1 (enc entries1).2 [] after1.1.1 after1.1.2 after1.2); [|vm_compute; reflexivity|vm_compute; reflexivity].
  split_and!; [apply entries_ok|vm_compute; reflexivity|vm_compute; discriminate|by apply Forall_nil|vm_compute; discriminate].
Qed.

Lemma chunk_durable_witness : readBlock (ck_file sample) acked1 = Ok entries1 /\ no_forgery (ck_w sample) (take 100 (ck_file sample))
  /\ exists ix, readIndex (take 100 (ck_file sample)) = Ok ix /\ no_crc acked1 ∈ no_crc <$> ix_Blocks ix.
Proof.
  assert (Hr : chunk_reach sample).
  { eapply CR_step; [exact sample_reach1|]. apply (CS_append _ _ [(acked1, entries1)] torn_write entries2 (enc entries2).1 (enc entries2).2 [] after2.1.1 after2.1.2 after2.2); [|vm_compute; reflexivity|vm_compute; reflexivity].
    split_and!; [apply entries_ok|vm_compute; reflexivity|vm_compute; discriminate|by apply Forall_nil|vm_compute; discriminate]. }
  assert (Hf : no_forgery (ck_w sample) (take 100 (ck_file sample))) by (vm_compute; exact I). destruct (chunk_durable sample Hr) as [H1 H2].
  split; [apply H1; left|]. split; [exact Hf|]. destruct (H2 100%nat ltac:(vm_compute; discriminate) Hf) as (ix & Hix & Hall). exists ix. split; [exact Hix|]. apply (Hall acked1 entries1). left.
Defined.

Definition sample1 : chunk := MkChunk after1.1.2 after1.1.1 [(acked1, entries1)].
Lemma chunk_index_exact_witness : readIndex (seal fine (ck_w sample1) (ck_file sample1)).1 = Ok (MkIndex (no_crc <$> lw_blocks (ck_w sample1)) (lw_end (ck_w sample1)) true 2).
Proof. apply (chunk_index_exact sample1 fine sample_reach1 eq_refl eq_refl); [vm_compute; discriminate|vm_compute; reflexivity]. Defined.
End ChunkSample.
