(* ===== verification/LogSearch.v ===== *)
(** * Searching the log store (internal/logstore/search.go)

    The snapshot of candidate runs, the lazy merge that decodes a block when its edge is
    reached, pages and cursors. *)

From Stdlib Require Import ZArith Lia.
From Stdlib Require Import (notations) String.
From stdpp Require Import base list numbers sorting.
From S2P Require Import Prelude Gostring Names Utf8 Logql LogBloom LogChunk.

Definition DefaultLimit : Z := 100.
Definition MaxLimit : Z := 10000.
Definition DefaultScanBudget : Z := 2 * 2 ^ 30.

Inductive Order := Newest | Oldest.

(** Cursors are compared and passed on as the key they encode. *)
Record cursorKey := MkCursor { ck_ts : Z; ck_seq : Z }.
Record SearchOpts := MkOpts { o_Limit : Z; o_Order : Order; o_Cursor : option cursorKey; o_ScanBudget : Z }.

Record Stats := MkStats { st_Streams : Z; st_BlocksRead : Z; st_BlocksSkipped : Z; st_BytesRead : Z; st_EntriesExamined : Z }.
Record SearchResult := MkResult { r_Logs : list Log; r_Cursor : option cursorKey; r_Truncated : bool; r_Stats : Stats }.

(** What a search reads of the store, under its lock: the streams with their heads, the chunks with
    their published blocks. A path is a number. *)
Record sstream := MkStream { ss_id : Z; ss_labels : list gostring; ss_head : list rawEntry }.
Record schunk := MkChunkOf { sc_stream : Z; sc_path : Z; sc_blocks : list BlockMeta }.
Record sstore := MkStore { ss_streams : list sstream; ss_chunks : list schunk }.

(** What opening a chunk file finds during the query. *)
Inductive opened := Missing | Unopenable | Bytes (b : list Z).
Abbreviation files := (Z -> opened).

(** One sorted run of candidates. *)
Inductive run_data := HeadRun (entries : list rawEntry) | BlockRun (path : Z) (meta : BlockMeta) (need : Need).
Record run := MkRun { rn_stream : Z; rn_pred : Log -> bool; rn_minTs : Z; rn_maxTs : Z; rn_data : run_data }.

Definition less (a b : rawEntry) : bool := if negb (re_Ts a =? re_Ts b) then re_Ts a <? re_Ts b else re_Seq a <? re_Seq b.

Fixpoint insert_less (lt : rawEntry -> rawEntry -> bool) (e : rawEntry) (es : list rawEntry) : list rawEntry :=
  match es with
  | [] => [e]
  | x :: rest => if lt e x then e :: es else x :: insert_less lt e rest
  end.
(** sort.SliceStable. *)
Definition SliceStable (lt : rawEntry -> rawEntry -> bool) (es : list rawEntry) : list rawEntry := foldl (fun acc e => insert_less lt e acc) [] es.

Definition label_of (labels : list gostring) (key : gostring) : gostring :=
  (fix go (ks : list gostring) (ls : list gostring) := match ks, ls with k :: ks, v :: ls => if bool_decide (k = key) then v else go ks ls | _, _ => [] end) StreamLabels labels.

Definition orFilters (fs : list (Log -> bool)) (l : Log) : bool := existsb (fun f => f l) fs.

Section Search.
Context `{CaseMap} `{ParseFloat} `{LogCodec} `{Zstd}.

Definition branch_selects (labels : list gostring) (b : Branch) : bool := forallb (fun m => Matches m (label_of labels (mt_Key m))) (br_Matchers b).

Definition in_range (from to : Z) (e : rawEntry) : bool := (from <=? re_Ts e) && (re_Ts e <=? to).

(** The runs of one stream. *)
Definition stream_runs (s : sstore) (plan : list Branch) (from to : Z) (st : sstream) : list run :=
  let bs := filter (fun b => branch_selects (ss_labels st) b) plan in
  match bs with
  | [] => []
  | _ =>
      let pred := orFilters ((fun b => Filter (br_Filter b)) <$> bs) in
      let need := orNeeds ((fun b => Needs (br_Filter b)) <$> bs) in
      let es := SliceStable less (filter (fun e => in_range from to e) (ss_head st)) in
      match es, last es with
      | e0 :: _, Some e1 => [MkRun (ss_id st) pred (re_Ts e0) (re_Ts e1) (HeadRun es)]
      | _, _ => []
      end
      ++ (filter (fun c => sc_stream c = ss_id st) (ss_chunks s) ≫= fun c =>
            (fun b => MkRun (ss_id st) pred (bm_MinTs b) (bm_MaxTs b) (BlockRun (sc_path c) b need))
              <$> filter (fun b => (from <=? bm_MaxTs b) && (bm_MinTs b <=? to)) (sc_blocks c))
  end.
Definition selected (plan : list Branch) (st : sstream) : bool := existsb (branch_selects (ss_labels st)) plan.
Definition snapshot (s : sstore) (plan : list Branch) (from to : Z) : list run * Z :=
  (ss_streams s ≫= stream_runs s plan from to, Z.of_nat (length (filter (fun st => selected plan st) (ss_streams s)))).

Definition ruledOut (fs : files) (r : run) : bool :=
  match rn_data r with
  | HeadRun _ => false
  | BlockRun path m need =>
      match need with
      | [] => false
      | _ => match fs path with
             | Bytes f => match readBloom f m with Some b => negb (mayMatch b need) | None => false end
             | _ => false
             end
      end
  end.

Definition load (fs : files) (r : run) : L (list rawEntry) :=
  match rn_data r with
  | HeadRun es => Ok es
  | BlockRun path m _ =>
      match fs path with
      | Missing => Ok []
      | Unopenable => Err ErrRead
      | Bytes f => readBlock f m
      end
  end.
Definition raw_len (r : run) : option Z := match rn_data r with HeadRun _ => None | BlockRun _ m _ => Some (bm_RawLen m) end.

Definition reaches (r : run) (ts : Z) (desc : bool) : bool := if desc then ts <=? rn_maxTs r else rn_minTs r <=? ts.

(** Strictly after the cursor in the search order. *)
Definition past (cur : option cursorKey) (desc : bool) (e : rawEntry) : bool :=
  match cur with
  | None => true
  | Some c =>
      let after := (ck_ts c <? re_Ts e) || ((re_Ts e =? ck_ts c) && (ck_seq c <? re_Seq e)) in
      let before := (re_Ts e <? ck_ts c) || ((re_Ts e =? ck_ts c) && (re_Seq e <? ck_seq c)) in
      if desc then before else after
  end.
Definition order_less (desc : bool) (a b : rawEntry) : bool := if desc then less b a else less a b.
Definition orderedFiltered (es : list rawEntry) (from to : Z) (cur : option cursorKey) (desc : bool) : list rawEntry :=
  SliceStable (order_less desc) (filter (fun e => in_range from to e && past cur desc e) es).

(** The heap of cursors: its root is a least one, and taking it leaves the rest of its run. *)
Definition mergeCursor := (run * list rawEntry)%type.
Definition cursor_head (c : mergeCursor) : option rawEntry := head c.2.
Definition cursor_less (desc : bool) (a b : mergeCursor) : bool :=
  match cursor_head a, cursor_head b with Some x, Some y => order_less desc x y | _, _ => false end.
Fixpoint heap_root (desc : bool) (c : mergeCursor) (h : list mergeCursor) : mergeCursor * list mergeCursor :=
  match h with
  | [] => (c, [])
  | d :: h => let '(m, rest) := heap_root desc d h in if cursor_less desc m c then (m, c :: rest) else (c, m :: rest)
  end.
Definition heap_pop (desc : bool) (h : list mergeCursor) : option (run * rawEntry * list mergeCursor) :=
  match h with
  | [] => None
  | c :: h =>
      match heap_root desc c h with
      | ((r, e :: es), rest) => Some (r, e, match es with [] => rest | _ => (r, es) :: rest end)
      | ((_, []), _) => None
      end
  end.
Definition heap_top_ts (desc : bool) (h : list mergeCursor) : option Z := match heap_pop desc h with Some (_, e, _) => Some (re_Ts e) | None => None end.

(** ** The scan *)

Record scan_state := MkScan {
  sn_next : list run;
  sn_heap : list mergeCursor;
  sn_budget : Z;
  sn_stats : Stats;
}.

Definition skip_block (s : Stats) : Stats := MkStats (st_Streams s) (st_BlocksRead s) (st_BlocksSkipped s + 1) (st_BytesRead s) (st_EntriesExamined s).
Definition read_bytes (s : Stats) (n : Z) : Stats := MkStats (st_Streams s) (st_BlocksRead s + 1) (st_BlocksSkipped s) (st_BytesRead s + n) (st_EntriesExamined s).
Definition examine (s : Stats) : Stats := MkStats (st_Streams s) (st_BlocksRead s) (st_BlocksSkipped s) (st_BytesRead s) (st_EntriesExamined s + 1).

(** Where a search that stopped at this run resumes. *)
Definition resume_at (r : run) (desc : bool) : cursorKey := if desc then MkCursor (int64 (rn_maxTs r + 1)) 0 else MkCursor (int64 (rn_minTs r - 1)) (2 ^ 64 - 1).

(** The inner loop: decode every run whose near edge is at or beyond the best entry in hand; the
    budget can stop it. *)
Fixpoint advance (fs : files) (from to : Z) (cur : option cursorKey) (desc : bool) (next : list run) (heap : list mergeCursor) (budget : Z) (stats : Stats) : L (scan_state * option cursorKey) :=
  match next with
  | [] => Ok (MkScan [] heap budget stats, None)
  | r :: rest =>
      if match heap_top_ts desc heap with None => true | Some ts => reaches r ts desc end then
        if ruledOut fs r then advance fs from to cur desc rest heap budget (skip_block stats) else
        let decode budget stats :=
          match load fs r with
          | Err e => Err e
          | Ok es =>
              let c := orderedFiltered es from to cur desc in
              advance fs from to cur desc rest (match c with [] => heap | _ => (r, c) :: heap end) budget stats
          end in
        match raw_len r with
        | None => decode budget stats
        | Some n =>
            if (budget <? n) && (0 <? st_BlocksRead stats) then Ok (MkScan rest heap budget stats, Some (resume_at r desc))
            else decode (budget - n) (read_bytes stats n)
        end
      else Ok (MkScan next heap budget stats, None)
  end.

Definition key_of (e : rawEntry) : cursorKey := MkCursor (re_Ts e) (re_Seq e).

(** The outer loop; [examined] is the last entry looked at, [lastKey] the last one emitted. *)
Fixpoint scan_loop (fuel : nat) (fs : files) (from to : Z) (cur : option cursorKey) (desc : bool) (limit : Z) (s : scan_state)
    (out : list Log) (lastKey examined : option rawEntry) : L SearchResult :=
  match fuel with
  | O => Err ErrRead
  | S fuel =>
      match advance fs from to cur desc (sn_next s) (sn_heap s) (sn_budget s) (sn_stats s) with
      | Err e => Err e
      | Ok (s, Some resume) => Ok (MkResult out (Some (match examined with Some e => key_of e | None => resume end)) true (sn_stats s))
      | Ok (s, None) =>
          match heap_pop desc (sn_heap s) with
          | None => Ok (MkResult out None false (sn_stats s))
          | Some (r, e, heap) =>
              let stats := examine (sn_stats s) in
              match decodeLog (re_Body e) with
              | None => Err ErrCorruptChunk
              | Some l =>
                  let s := MkScan (sn_next s) heap (sn_budget s) stats in
                  if negb (rn_pred r l) then scan_loop fuel fs from to cur desc limit s out lastKey (Some e)
                  else if Z.of_nat (length out) =? limit then Ok (MkResult out (key_of <$> lastKey) false stats)
                  else scan_loop fuel fs from to cur desc limit s (out ++ [l]) (Some e) (Some e)
              end
          end
      end
  end.

Definition entries_of (fs : files) (r : run) : list rawEntry := match load fs r with Ok es => es | Err _ => [] end.

(** [sort_runs] is sort.Slice, which orders runs with equal edges as it likes. *)
Definition edge_le (desc : bool) (a b : run) : Prop := if desc then rn_maxTs b <= rn_maxTs a else rn_minTs a <= rn_minTs b.

Definition Search (sort_runs : bool -> list run -> list run) (s : sstore) (fs : files) (q : option Node) (from to : Z) (opts : SearchOpts) : L SearchResult :=
  let limit := Z.min (if o_Limit opts <=? 0 then DefaultLimit else o_Limit opts) MaxLimit in
  let budget := if o_ScanBudget opts <=? 0 then DefaultScanBudget else o_ScanBudget opts in
  let desc := match o_Order opts with Newest => true | Oldest => false end in
  let cur := o_Cursor opts in
  let to' := match cur with Some c => if desc then Z.min to (ck_ts c) else to | None => to end in
  let from' := match cur with Some c => if desc then from else Z.max from (ck_ts c) | None => from end in
  if to' <? from' then Ok (MkResult [] None false (MkStats 0 0 0 0 0)) else
  let '(runs, selected) := snapshot s (Split q) from' to' in
  let runs := sort_runs desc runs in
  let fuel := S (length (runs ≫= entries_of fs)) in
  scan_loop fuel fs from' to' cur desc limit (MkScan runs [] budget (MkStats selected 0 0 0 0)) [] None None.
End Search.
