(* ===== verification/LogSearchOrder.v ===== *)
(** * The order of a search and its merge

    The strict order on entries, the sort, and the heap that always gives the least entry in hand. *)

From Stdlib Require Import ZArith Lia.
From Stdlib Require Import (notations) String.
From stdpp Require Import base list numbers sorting.
From S2P Require Import Prelude Gostring Names Utf8 Logql LogBloom LogChunk LogSearch.

Section Order.
Context (desc : bool).

(** The search order, as a relation. *)
Definition precedes (a b : rawEntry) : Prop := order_less desc a b = true.
Abbreviation sorted := (StronglySorted precedes).
Definition distinct (es : list rawEntry) : Prop := NoDup (key_of <$> es).

Lemma less_spec a b : less a b = true <-> re_Ts a < re_Ts b \/ (re_Ts a = re_Ts b /\ re_Seq a < re_Seq b).
Proof. unfold less. destruct (Z.eqb_spec (re_Ts a) (re_Ts b)); cbn [negb]; rewrite Z.ltb_lt; lia. Qed.
Lemma precedes_spec a b : precedes a b <-> if desc then re_Ts b < re_Ts a \/ (re_Ts b = re_Ts a /\ re_Seq b < re_Seq a) else re_Ts a < re_Ts b \/ (re_Ts a = re_Ts b /\ re_Seq a < re_Seq b).
Proof. unfold precedes, order_less. destruct desc; apply less_spec. Qed.

Lemma precedes_irrefl a : ~ precedes a a.
Proof. rewrite precedes_spec. destruct desc; lia. Qed.
Lemma precedes_trans a b c : precedes a b -> precedes b c -> precedes a c.
Proof. rewrite !precedes_spec. destruct desc; lia. Qed.
Lemma precedes_asym a b : precedes a b -> ~ precedes b a.
Proof. rewrite !precedes_spec. destruct desc; lia. Qed.
Lemma precedes_total a b : key_of a <> key_of b -> precedes a b \/ precedes b a.
Proof.
  intros Hne. rewrite !precedes_spec. assert (Hd : re_Ts a <> re_Ts b \/ re_Seq a <> re_Seq b).
  { destruct (Z.eq_dec (re_Ts a) (re_Ts b)) as [E1|]; [|by left]. destruct (Z.eq_dec (re_Seq a) (re_Seq b)) as [E2|]; [|by right]. destruct Hne. unfold key_of. by rewrite E1, E2. }
  destruct desc; lia.
Qed.

Lemma sorted_unique l1 l2 : sorted l1 -> sorted l2 -> l1 ≡ₚ l2 -> l1 = l2.
Proof. intros H1 H2. apply (StronglySorted_unique_strong precedes); [|done..]. intros x y _ _ Hxy Hyx. by destruct (precedes_asym _ _ Hxy). Qed.

(** ** Sorting *)

Lemma insert_perm lt e es : insert_less lt e es ≡ₚ e :: es.
Proof. induction es as [|x es IH]; [done|]. cbn. destruct (lt e x); [done|]. rewrite IH. apply Permutation_swap. Qed.
Lemma sort_perm lt es : SliceStable lt es ≡ₚ es.
Proof.
  unfold SliceStable. enough (H : forall acc, foldl (fun acc e => insert_less lt e acc) acc es ≡ₚ es ++ acc) by by rewrite H, app_nil_r.
  induction es as [|e es IH]; intros acc; [done|]. cbn [foldl app]. rewrite IH, insert_perm. by rewrite Permutation_middle.
Qed.

Lemma insert_sorted e es : sorted es -> Forall (fun x => key_of x <> key_of e) es -> sorted (insert_less (order_less desc) e es).
Proof.
  induction 1 as [|x es Hs IH Hx]; intros Hne; cbn; [by repeat constructor|]. apply Forall_cons_1 in Hne as [Hxe Hne]. destruct (order_less desc e x) eqn:E.
  - constructor; [by constructor|]. constructor; [done|]. eapply List.Forall_impl; [|exact Hx]. intros y Hy. by eapply precedes_trans.
  - constructor; [by apply IH|]. rewrite insert_perm. constructor; [|done]. destruct (precedes_total x e Hxe) as [|Hb]; [done|]. unfold precedes in Hb. congruence.
Qed.

Lemma distinct_perm a b : a ≡ₚ b -> distinct a -> distinct b.
Proof. intros Hp. unfold distinct. by rewrite Hp. Qed.

Lemma sort_sorted es : distinct es -> sorted (SliceStable (order_less desc) es).
Proof.
  unfold SliceStable. enough (Hgo : forall acc, sorted acc -> distinct (es ++ acc) -> sorted (foldl (fun acc e => insert_less (order_less desc) e acc) acc es)).
  { intros Hd. apply Hgo; [constructor|by rewrite app_nil_r]. }
  induction es as [|e es IH]; intros acc Hs Hd; [done|]. cbn [foldl]. apply IH.
  - apply insert_sorted; [done|]. unfold distinct in Hd. cbn [app fmap list_fmap] in Hd. apply NoDup_cons in Hd as [Hni _]. apply List.Forall_forall. intros x Hx Heq. apply Hni. rewrite <- Heq. apply list_elem_of_fmap_2, elem_of_app. right. by apply list_elem_of_In.
  - eapply distinct_perm; [|exact Hd]. rewrite insert_perm. cbn. apply Permutation_middle.
Qed.

Lemma sorted_app a b : sorted a -> sorted b -> (forall x y, x ∈ a -> y ∈ b -> precedes x y) -> sorted (a ++ b).
Proof.
  induction 1 as [|x a Ha IH Hx]; intros Hb Hab; [done|]. cbn. constructor.
  - apply IH; [done|]. intros y z Hy Hz. apply Hab; [by right|done].
  - apply Forall_app. split; [done|]. apply List.Forall_forall. intros y Hy. apply Hab; [left|by apply list_elem_of_In].
Qed.
Lemma sorted_split a b : sorted (a ++ b) -> forall x y, x ∈ a -> y ∈ b -> precedes x y.
Proof. intros Hs x y Hx Hy. by eapply (StronglySorted_app_1_elem_of precedes). Qed.
Lemma sorted_distinct l : sorted l -> distinct l.
Proof.
  induction 1 as [|x l Hl IH Hx]; [by apply NoDup_nil|]. unfold distinct. cbn. apply NoDup_cons. split; [|done]. intros (y & E & Hy)%list_elem_of_fmap. rewrite List.Forall_forall in Hx. apply list_elem_of_In, Hx in Hy.
  unfold key_of in E. injection E as E1 E2. rewrite precedes_spec in Hy. destruct desc; lia.
Qed.

(** ** The heap *)

Definition cursor_ok (c : mergeCursor) : Prop := c.2 <> [] /\ sorted c.2.
Definition in_hand (h : list mergeCursor) : list rawEntry := h ≫= snd.

Lemma root_perm c h : let '(m, rest) := heap_root desc c h in m :: rest ≡ₚ c :: h.
Proof.
  revert c. induction h as [|d h IH]; intros c; cbn [heap_root]; [done|]. specialize (IH d). destruct (heap_root desc d h) as [m rest]. destruct (cursor_less desc m c).
  - rewrite Permutation_swap. by rewrite IH.
  - by rewrite IH.
Qed.

Lemma root_least c h : Forall cursor_ok (c :: h) -> distinct (in_hand (c :: h)) ->
  let '(m, rest) := heap_root desc c h in forall e, head m.2 = Some e -> forall d x, d ∈ rest -> x ∈ d.2 -> precedes e x.
Proof.
  revert c. induction h as [|d h IH]; intros c Hok Hd; cbn [heap_root]; [intros e _ d x Hdin; by apply not_elem_of_nil in Hdin|].
  assert (Hd' : distinct (in_hand (d :: h))) by (unfold distinct, in_hand in *; cbn [mbind list_bind] in *; rewrite fmap_app in Hd; by apply NoDup_app in Hd as (_ & _ & Hd)).
  pose proof (Forall_cons_1 _ _ _ Hok) as [Hc Hok']. specialize (IH d Hok' Hd'). pose proof (root_perm d h) as Hp. destruct (heap_root desc d h) as [m rest].
  assert (Hm : cursor_ok m) by (rewrite <- Hp in Hok'; by inversion Hok'). destruct Hc as [Hcn Hcs], Hm as [Hmn Hms]. destruct c as [rc [|ec ces]]; [done|]. destruct m as [rm [|em mes]]; [done|]. cbn [snd] in *.
  assert (Hne : key_of ec <> key_of em).
  { intros E. unfold distinct, in_hand in Hd. rewrite <- Hp in Hd. cbn [mbind list_bind snd fmap list_fmap] in Hd. rewrite fmap_app in Hd. apply NoDup_app in Hd as (_ & Hdis & _). apply (Hdis (key_of ec)); [left|]. rewrite E. cbn. left. }
  unfold cursor_less, cursor_head. cbn [head snd]. destruct (order_less desc em ec) eqn:E.
  - intros e [= <-] d' x [->|Hin]%elem_of_cons Hx; [|by eapply (IH em)]. cbn in Hx. apply elem_of_cons in Hx as [->|Hx]; [done|]. eapply precedes_trans; [exact E|]. inversion_clear Hcs as [|? ? _ Hall]. rewrite List.Forall_forall in Hall. by apply Hall, list_elem_of_In.
  - assert (Hlt : precedes ec em) by (destruct (precedes_total ec em Hne) as [|Hb]; [done|unfold precedes in Hb; congruence]). intros e [= <-] d' x [->|Hin]%elem_of_cons Hx.
    + cbn in Hx. apply elem_of_cons in Hx as [->|Hx]; [done|]. eapply precedes_trans; [exact Hlt|]. inversion_clear Hms as [|? ? _ Hall]. rewrite List.Forall_forall in Hall. by apply Hall, list_elem_of_In.
    + eapply precedes_trans; [exact Hlt|]. by eapply (IH em).
Qed.

(** Taking the least entry. *)
Lemma pop_spec h : Forall cursor_ok h -> distinct (in_hand h) ->
  match heap_pop desc h with
  | None => h = []
  | Some (r, e, h') => exists es rest, h ≡ₚ (r, e :: es) :: rest /\ h' = (match es with [] => rest | _ => (r, es) :: rest end) /\ Forall cursor_ok h' /\ in_hand h ≡ₚ e :: in_hand h' /\ forall x, x ∈ in_hand h' -> precedes e x
  end.
Proof.
  intros Hok Hd. destruct h as [|c h]; [done|]. cbn [heap_pop]. pose proof (root_perm c h) as Hp. pose proof (root_least c h Hok Hd) as Hl. destruct (heap_root desc c h) as [m rest].
  assert (Hok' : Forall cursor_ok (m :: rest)) by by rewrite Hp. apply Forall_cons_1 in Hok' as [[Hn Hs] Hrest]. destruct m as [r [|e es]]; [done|]. cbn [snd] in *. inversion_clear Hs as [|? ? Hes Hall].
  exists es, rest. split; [by rewrite Hp|]. split; [done|]. split; [destruct es; [done|by constructor]|].
  assert (Hin : in_hand (match es with [] => rest | _ => (r, es) :: rest end) = es ++ in_hand rest) by by destruct es. rewrite Hin. split.
  - unfold in_hand. rewrite <- Hp. done.
  - intros x [Hx|Hx]%elem_of_app; [rewrite List.Forall_forall in Hall; by apply Hall, list_elem_of_In|]. apply list_elem_of_bind in Hx as (d & Hx & Hd'). by eapply (Hl e).
Qed.

Lemma top_ts h : Forall cursor_ok h -> distinct (in_hand h) ->
  match heap_top_ts desc h with
  | None => h = []
  | Some ts => (exists e, e ∈ in_hand h /\ re_Ts e = ts) /\ forall x, x ∈ in_hand h -> if desc then re_Ts x <= ts else ts <= re_Ts x
  end.
Proof.
  intros Hok Hd. unfold heap_top_ts. pose proof (pop_spec h Hok Hd) as Hp. destruct (heap_pop desc h) as [[[r e] h']|]; [|done]. destruct Hp as (es & rest & _ & _ & _ & Hin & Hleast). split.
  - exists e. split; [rewrite Hin; left|done].
  - intros x Hx. rewrite Hin in Hx. apply elem_of_cons in Hx as [->|Hx]; [destruct desc; lia|]. apply Hleast, precedes_spec in Hx. destruct desc; lia.
Qed.
End Order.
