(* ===== verification/LogSearchExact.v ===== *)
(** * Searches answer the query

    Over a store whose blocks and heads are sound, a search returns exactly the logs that
    satisfy the query, in order, a page at a time. *)

From Stdlib Require Import ZArith Lia.
From Stdlib Require Import (notations) String.
From stdpp Require Import base list numbers sorting.
From S2P Require Import Prelude Gostring Names Utf8 Logql LogqlProofs LogBloom LogChunk LogSearch LogSearchOrder.

(** * A search is exact

    The scan examines the candidates in order, misses no match, and its cursor separates
    what it returned from what is left. *)

Section Scan.
Context `{CaseMap} `{ParseFloat} `{LogCodec} `{Zstd} (fs : files) (from to : Z) (cur : option cursorKey) (desc : bool) (limit : Z).

Abbreviation precedes := (LogSearchOrder.precedes desc).
Abbreviation sorted := (StronglySorted (LogSearchOrder.precedes desc)).

(** The candidates of a run, and which of them match. *)
Definition cand (r : run) : list rawEntry := orderedFiltered (entries_of fs r) from to cur desc.
Definition hit (r : run) (e : rawEntry) : bool := match decodeLog (re_Body e) with Some l => rn_pred r l | None => false end.
Definition hits (h : list mergeCursor) : list rawEntry := h ≫= fun c => filter (fun e => hit c.1 e) c.2.
Definition pending (next : list run) : list rawEntry := next ≫= cand.
Definition pending_hits (next : list run) : list rawEntry := next ≫= fun r => filter (fun e => hit r e) (cand r).
Definition log_of (e : rawEntry) : Log := default (MkLog 0 [] [] [] [] [] [] [] [] []) (decodeLog (re_Body e)).

Definition run_ok (r : run) : Prop :=
  (exists es, load fs r = Ok es) /\ (forall e, e ∈ cand r -> rn_minTs r <= re_Ts e <= rn_maxTs r) /\ (forall e, e ∈ cand r -> is_Some (decodeLog (re_Body e)))
  /\ (ruledOut fs r = true -> forall e, e ∈ cand r -> hit r e = false) /\ (is_Some (raw_len r) -> - 2 ^ 63 < rn_minTs r /\ rn_maxTs r < 2 ^ 63 - 1 /\ rn_minTs r <= rn_maxTs r).

Record ready (next : list run) (heap : list mergeCursor) : Prop := {
  rd_runs : Forall run_ok next;
  rd_edges : StronglySorted (edge_le desc) next;
  rd_heap : Forall (cursor_ok desc) heap;
  rd_distinct : distinct (in_hand heap ++ pending next);
  rd_decodes : forall e, e ∈ in_hand heap -> is_Some (decodeLog (re_Body e));
}.

Lemma pending_cons r next : pending (r :: next) = cand r ++ pending next.
Proof. done. Qed.
Lemma pending_hits_cons r next : pending_hits (r :: next) = filter (fun e => hit r e) (cand r) ++ pending_hits next.
Proof. done. Qed.

Lemma distinct_app_l a b : distinct (a ++ b) -> distinct a.
Proof. unfold distinct. rewrite fmap_app. by intros [Ha _]%NoDup_app. Qed.
Lemma distinct_app_r a b : distinct (a ++ b) -> distinct b.
Proof. unfold distinct. rewrite fmap_app. by intros (_ & _ & Hb)%NoDup_app. Qed.
Lemma distinct_drop a b c : distinct (a ++ b ++ c) -> distinct (a ++ c).
Proof. intros Hd. apply (distinct_app_r b). eapply distinct_perm; [|exact Hd]. rewrite !app_assoc. by rewrite (Permutation_app_comm a b). Qed.

Lemma cand_sorted r : distinct (cand r) -> sorted (cand r).
Proof. unfold cand, orderedFiltered. intros Hd. apply sort_sorted. eapply distinct_perm; [|exact Hd]. apply sort_perm. Qed.

(** The near edge of the remaining runs bounds their candidates. *)
Definition not_before (ts : Z) (x : rawEntry) : Prop := if desc then re_Ts x <= ts else ts <= re_Ts x.
Definition edge (r : run) : Z := if desc then rn_maxTs r else rn_minTs r.

Lemma cand_edge r x : run_ok r -> x ∈ cand r -> not_before (edge r) x.
Proof. intros (_ & Hb & _) Hx. specialize (Hb x Hx). unfold not_before, edge. destruct desc; lia. Qed.
Lemma pending_edge r next x : Forall run_ok (r :: next) -> StronglySorted (edge_le desc) (r :: next) -> x ∈ pending (r :: next) -> not_before (edge r) x.
Proof.
  intros [Hr Hok]%Forall_cons_1 Hs Hx. inversion_clear Hs as [|? ? _ Hall]. rewrite pending_cons in Hx. apply elem_of_app in Hx as [Hx|Hx]; [by apply cand_edge|]. apply list_elem_of_bind in Hx as (r' & Hx & Hr').
  rewrite List.Forall_forall in Hok, Hall. specialize (Hok r' (proj1 (list_elem_of_In _ _) Hr')). specialize (Hall r' (proj1 (list_elem_of_In _ _) Hr')). pose proof (cand_edge r' x Hok Hx) as He. unfold not_before, edge, edge_le in *. destruct desc; lia.
Qed.

(** What the inner loop leaves. *)
Definition advanced (next : list run) (heap : list mergeCursor) (s : scan_state) : Prop :=
  ready (sn_next s) (sn_heap s) /\ hits (sn_heap s) ++ pending_hits (sn_next s) ≡ₚ hits heap ++ pending_hits next
  /\ (length (in_hand (sn_heap s) ++ pending (sn_next s)) <= length (in_hand heap ++ pending next))%nat
  /\ (forall x, x ∈ in_hand (sn_heap s) ++ pending (sn_next s) -> x ∈ in_hand heap ++ pending next).

Lemma advanced_trans next heap next' heap' gone s : hits heap' ++ pending_hits next' ≡ₚ hits heap ++ pending_hits next -> in_hand heap ++ pending next ≡ₚ gone ++ in_hand heap' ++ pending next' ->
  advanced next' heap' s -> advanced next heap s.
Proof.
  intros Hh Hp (Hr & Hs & Hl & Hin). split; [done|]. split; [by rewrite Hs|]. split.
  - rewrite Hp, (length_app gone). lia.
  - intros x Hx. rewrite Hp. apply elem_of_app. right. by apply Hin.
Qed.

(** Decoding the next run moves its candidates to the heap. *)
Lemma ready_decode r next heap : ready (r :: next) heap -> ready next (match cand r with [] => heap | _ => (r, cand r) :: heap end).
Proof.
  intros [Hr He Hh Hd Hdec]. apply Forall_cons_1 in Hr as [Hrok Hr]. inversion_clear He as [|? ? He' _]. rewrite pending_cons in Hd. assert (Hc : distinct (cand r)) by by eapply distinct_app_l, distinct_app_r.
  assert (Hin : in_hand (match cand r with [] => heap | _ => (r, cand r) :: heap end) = cand r ++ in_hand heap) by by destruct (cand r). split; try done.
  - destruct (cand r) as [|x c] eqn:Ec; [done|]. rewrite <- Ec in *. constructor; [split; cbn; [by rewrite Ec|by apply cand_sorted]|done].
  - rewrite Hin. eapply distinct_perm; [|exact Hd]. rewrite !app_assoc. by rewrite (Permutation_app_comm (in_hand heap) (cand r)).
  - rewrite Hin. intros e [He2|He2]%elem_of_app; [by destruct Hrok as (_ & _ & Hd2 & _ & _); apply Hd2|by apply Hdec].
Qed.
Lemma hits_decode r next heap : hits (match cand r with [] => heap | _ => (r, cand r) :: heap end) ++ pending_hits next ≡ₚ hits heap ++ pending_hits (r :: next).
Proof.
  rewrite pending_hits_cons. assert (Hh : hits (match cand r with [] => heap | _ => (r, cand r) :: heap end) = filter (fun e => hit r e) (cand r) ++ hits heap) by by destruct (cand r). rewrite Hh, !app_assoc. by rewrite (Permutation_app_comm (hits heap)).
Qed.
Lemma held_decode r next heap : in_hand heap ++ pending (r :: next) ≡ₚ [] ++ in_hand (match cand r with [] => heap | _ => (r, cand r) :: heap end) ++ pending next.
Proof.
  rewrite pending_cons. assert (Hin : in_hand (match cand r with [] => heap | _ => (r, cand r) :: heap end) = cand r ++ in_hand heap) by by destruct (cand r). rewrite Hin. cbn [app]. rewrite !app_assoc. by rewrite (Permutation_app_comm (in_hand heap)).
Qed.

(** A block its filter rules out holds no match. *)
Lemma ready_skip r next heap : ready (r :: next) heap -> ready next heap.
Proof.
  intros [Hr He Hh Hd Hdec]. apply Forall_cons_1 in Hr as [_ Hr]. inversion_clear He. rewrite pending_cons in Hd. split; try done. by eapply distinct_drop.
Qed.
Lemma filter_no (p : rawEntry -> bool) l : (forall e, e ∈ l -> p e = false) -> filter (fun e => p e) l = [].
Proof.
  intros Hp. induction l as [|e l IH]; [done|]. rewrite filter_cons, decide_False by (rewrite Hp; [intros []|left]). apply IH. intros x Hx. apply Hp. by right.
Qed.
Lemma hits_skip r next heap : run_ok r -> ruledOut fs r = true -> hits heap ++ pending_hits next ≡ₚ hits heap ++ pending_hits (r :: next).
Proof. intros (_ & _ & _ & Hout & _) Hr. rewrite pending_hits_cons. by rewrite (filter_no (hit r)) by by apply Hout. Qed.

(** A budget stop at a run: all that is left lies at or behind its near edge. *)
Definition stopped (next : list run) (heap : list mergeCursor) (k : cursorKey) : Prop := forall x, x ∈ hits heap ++ pending_hits next -> past (Some k) desc x = true.
Lemma resume_past r x : - 2 ^ 63 < rn_minTs r /\ rn_maxTs r < 2 ^ 63 - 1 /\ rn_minTs r <= rn_maxTs r -> not_before (edge r) x -> past (Some (resume_at r desc)) desc x = true.
Proof.
  intros (Hb1 & Hb2 & Hb3). unfold not_before, edge, resume_at, past. destruct desc; cbn [ck_ts ck_seq]; rewrite int64_id by (unfold is_i64; lia); intros Hx; apply orb_true_iff; left; lia.
Qed.

Lemma hits_held heap x : x ∈ hits heap -> x ∈ in_hand heap.
Proof. intros (c & Hx & Hc)%list_elem_of_bind. apply list_elem_of_filter in Hx as [_ Hx]. apply list_elem_of_bind. by exists c. Qed.
Lemma pending_hits_pending next x : x ∈ pending_hits next -> x ∈ pending next.
Proof. intros (r & Hx & Hr)%list_elem_of_bind. apply list_elem_of_filter in Hx as [_ Hx]. apply list_elem_of_bind. by exists r. Qed.

Lemma advance_spec next : forall heap budget stats, ready next heap ->
  exists s res, advance fs from to cur desc next heap budget stats = Ok (s, res) /\ st_EntriesExamined (sn_stats s) = st_EntriesExamined stats
    /\ match res with
       | Some k => stopped next heap k
       | None => advanced next heap s
           /\ match heap_top_ts desc (sn_heap s) with
              | None => sn_next s = []
              | Some ts => forall r, r ∈ sn_next s -> reaches r ts desc = false
              end
       end.
Proof.
  induction next as [|r next IH]; intros heap budget stats Hrd; cbn [advance].
  { eexists _, None. split; [done|]. split; [done|]. split; [by split|]. cbn [sn_heap sn_next]. destruct (heap_top_ts desc heap); [|done]. intros r0 Hr0. by apply not_elem_of_nil in Hr0. }
  pose proof Hrd as [Hr He Hh Hd Hdec]. pose proof (Forall_cons_1 _ _ _ Hr) as [Hrok Hr']. pose proof (top_ts desc heap Hh (distinct_app_l _ _ Hd)) as Htop.
  destruct (match heap_top_ts desc heap with None => true | Some ts => reaches r ts desc end) eqn:Ereach.
  2:{ eexists _, None. split; [done|]. split; [done|]. split; [by split|]. cbn [sn_heap sn_next]. destruct (heap_top_ts desc heap) as [ts|]; [|done]. intros r' [->|Hr2]%elem_of_cons; [done|].
      inversion_clear He as [|? ? _ Hall]. rewrite List.Forall_forall in Hall. apply list_elem_of_In, Hall in Hr2. unfold reaches, edge_le in *. destruct desc; lia. }
  destruct (ruledOut fs r) eqn:Eout.
  { destruct (IH heap budget (skip_block stats) (ready_skip _ _ _ Hrd)) as (s & res & Hs & Hst & Hres). exists s, res. split; [done|]. split; [done|]. destruct res as [k|].
    - intros x Hx. apply Hres. by rewrite (hits_skip r).
    - destruct Hres as [Hadv Hedge]. split; [|done]. eapply advanced_trans; [by apply hits_skip| |exact Hadv]. rewrite pending_cons. instantiate (1 := cand r). rewrite !app_assoc. by rewrite (Permutation_app_comm (in_hand heap)). }
  assert (Hdecode : forall budget stats0, st_EntriesExamined stats0 = st_EntriesExamined stats -> exists s res, match load fs r with Err e => Err e | Ok es => advance fs from to cur desc next (match orderedFiltered es from to cur desc with [] => heap | _ => (r, orderedFiltered es from to cur desc) :: heap end) budget stats0 end = Ok (s, res)
    /\ st_EntriesExamined (sn_stats s) = st_EntriesExamined stats /\ match res with Some k => stopped (r :: next) heap k | None => advanced (r :: next) heap s /\ match heap_top_ts desc (sn_heap s) with None => sn_next s = [] | Some ts => forall r, r ∈ sn_next s -> reaches r ts desc = false end end).
  { intros budget0 stats0 Hst0. destruct Hrok as ([es Hload] & _). assert (Hcand : orderedFiltered es from to cur desc = cand r) by (unfold cand, entries_of; by rewrite Hload). rewrite Hload, Hcand.
    destruct (IH _ budget0 stats0 (ready_decode _ _ _ Hrd)) as (s & res & Hs & Hst & Hres). exists s, res. split; [done|]. split; [congruence|]. destruct res as [k|].
    - intros x Hx. apply Hres. by rewrite hits_decode.
    - destruct Hres as [Hadv Hedge]. split; [|done]. eapply advanced_trans; [apply hits_decode|apply held_decode|exact Hadv]. }
  destruct (raw_len r) as [n|] eqn:Eraw; [|by apply Hdecode]. destruct (_ && _) eqn:Estop; [|by apply Hdecode].
  eexists _, (Some _). split; [done|]. split; [done|]. intros x Hx. apply resume_past; [destruct Hrok as (_ & _ & _ & _ & Hb); apply Hb; by rewrite Eraw|]. apply elem_of_app in Hx as [Hx|Hx]; [|by apply (pending_edge r next x Hr He), pending_hits_pending].
  apply hits_held in Hx. destruct (heap_top_ts desc heap) as [ts|]; [|by rewrite Htop in Hx; apply not_elem_of_nil in Hx]. destruct Htop as [_ Hall]. specialize (Hall x Hx). unfold reaches, not_before, edge in *. destruct desc; lia.
Qed.

(** ** The outer loop *)

Context (Q : rawEntry -> Prop).

Definition left (s : scan_state) : list rawEntry := in_hand (sn_heap s) ++ pending (sn_next s).

(** What holds each time round: [outE] are the entries emitted. *)
Record going (s : scan_state) (outE : list rawEntry) (lastKey examined : option rawEntry) : Prop := {
  gn_ready : ready (sn_next s) (sn_heap s);
  gn_sorted : sorted outE;
  gn_last : last outE = lastKey;
  gn_limit : Z.of_nat (length outE) <= limit;
  gn_emitted : forall e x, e ∈ outE -> x ∈ left s -> precedes e x;
  gn_examined : forall z x, examined = Some z -> x ∈ left s -> precedes z x;
  gn_order : forall z e, examined = Some z -> e ∈ outE -> e = z \/ precedes e z;
  gn_first : examined = None -> outE = [];
  gn_count : if examined then 0 < st_EntriesExamined (sn_stats s) else st_EntriesExamined (sn_stats s) = 0;
  gn_cands : forall x, x ∈ left s -> Q x;
  gn_seen : forall z, examined = Some z -> Q z;
  gn_out : forall e, e ∈ outE -> Q e;
}.

(** What the loop returns, given the matches [L] still ahead. *)
Definition page (outE L : list rawEntry) (n : nat) (res : SearchResult) : Prop :=
  (n <= length L)%nat /\ r_Logs res = log_of <$> (outE ++ take n L) /\ Z.of_nat (length outE + n) <= limit
  /\ match r_Cursor res with
     | None => n = length L /\ r_Truncated res = false
     | Some k =>
         if r_Truncated res && (st_EntriesExamined (r_Stats res) =? 0)
         then outE = [] /\ n = O /\ forall x, x ∈ L -> past (Some k) desc x = true
         else exists z, k = key_of z /\ Q z /\ (forall x, x ∈ outE ++ take n L -> x = z \/ precedes x z) /\ (forall x, x ∈ drop n L -> precedes z x)
           /\ (r_Truncated res = false -> Z.of_nat (length outE + n) = limit /\ (n < length L)%nat)
     end.

Lemma going_advanced s outE lastKey examined s' : going s outE lastKey examined -> advanced (sn_next s) (sn_heap s) s' -> st_EntriesExamined (sn_stats s') = st_EntriesExamined (sn_stats s) -> going s' outE lastKey examined.
Proof.
  intros [] (Hrd & _ & _ & Hin) Hst. assert (Hsub : forall x, x ∈ left s' -> x ∈ left s) by (intros x Hx; by apply Hin). split; auto; try (intros; eauto). by rewrite Hst.
Qed.

Lemma hits_perm h h' : h ≡ₚ h' -> hits h ≡ₚ hits h'.
Proof. intros Hp. unfold hits. by rewrite Hp. Qed.

Lemma exists_sorted l : distinct l -> exists L, sorted L /\ L ≡ₚ l.
Proof. intros Hd. exists (SliceStable (order_less desc) l). split; [by apply sort_sorted|apply sort_perm]. Qed.

Lemma sublist_keys (a b : list rawEntry) : sublist a b -> sublist (key_of <$> a) (key_of <$> b).
Proof. induction 1; [constructor|by apply sublist_skip|by apply sublist_cons]. Qed.
Lemma hits_distinct next heap : distinct (in_hand heap ++ pending next) -> distinct (hits heap ++ pending_hits next).
Proof.
  assert (Hsub : forall (h : list mergeCursor), sublist (hits h) (in_hand h)).
  { induction h as [|c h IH]; [constructor|]. unfold hits, in_hand in *. cbn [mbind list_bind]. apply sublist_app; [apply sublist_filter|done]. }
  assert (Hsub2 : forall n, sublist (pending_hits n) (pending n)).
  { induction n as [|r n IH]; [constructor|]. rewrite pending_hits_cons, pending_cons. apply sublist_app; [apply sublist_filter|done]. }
  unfold distinct. intros Hd. eapply sublist_NoDup; [exact Hd|]. apply sublist_keys, sublist_app; [apply Hsub|apply Hsub2].
Qed.

(** The popped entry precedes all that is left. *)
Lemma pop_least s r e h' : ready (sn_next s) (sn_heap s) -> match heap_top_ts desc (sn_heap s) with None => sn_next s = [] | Some ts => forall r, r ∈ sn_next s -> reaches r ts desc = false end ->
  heap_pop desc (sn_heap s) = Some (r, e, h') -> left s ≡ₚ e :: (in_hand h' ++ pending (sn_next s)) /\ (forall x, x ∈ in_hand h' ++ pending (sn_next s) -> precedes e x)
  /\ ready (sn_next s) h' /\ hits (sn_heap s) ≡ₚ (if hit r e then [e] else []) ++ hits h' /\ is_Some (decodeLog (re_Body e)).
Proof.
  intros [Hr He Hh Hd Hdec] Hedge Hpop. pose proof (pop_spec desc (sn_heap s) Hh (distinct_app_l _ _ Hd)) as Hp. unfold heap_top_ts in Hedge. rewrite Hpop in Hp, Hedge. destruct Hp as (es & rest & Hperm & Hh' & Hok & Hin & Hleast).
  assert (Hleft : left s ≡ₚ e :: (in_hand h' ++ pending (sn_next s))) by (unfold left; by rewrite Hin). split; [done|]. split_and!; [| | |apply Hdec; rewrite Hin; left].
  - intros x [Hx|Hx]%elem_of_app; [by apply Hleast|]. apply list_elem_of_bind in Hx as (r' & Hx & Hr'). specialize (Hedge r' Hr'). rewrite List.Forall_forall in Hr. specialize (Hr r' (proj1 (list_elem_of_In _ _) Hr')). pose proof (cand_edge r' x Hr Hx) as Hc.
    rewrite precedes_spec. unfold reaches, not_before, edge in *. destruct desc; lia.
  - split; try done.
    + unfold left in Hleft. eapply distinct_perm in Hd; [|exact Hleft]. by apply (distinct_app_r [e]).
    + intros x Hx. apply Hdec. rewrite Hin. by right.
  - rewrite (hits_perm _ _ Hperm), Hh'. unfold hits at 1. cbn [mbind list_bind fst snd]. rewrite filter_cons. destruct (hit r e); [rewrite decide_True by done|rewrite decide_False by (intros [])]; destruct es; done.
Qed.

(** After looking at an entry that does not match, and after emitting one that does. *)
Lemma going_on s outE lastKey examined r e h' : going s outE lastKey examined -> heap_pop desc (sn_heap s) = Some (r, e, h') ->
  match heap_top_ts desc (sn_heap s) with None => sn_next s = [] | Some ts => forall r, r ∈ sn_next s -> reaches r ts desc = false end ->
  let s' := MkScan (sn_next s) h' (sn_budget s) (examine (sn_stats s)) in
  going s' outE lastKey (Some e) /\ (Z.of_nat (length outE) < limit -> going s' (outE ++ [e]) (Some e) (Some e)).
Proof.
  intros [Hrd Hs Hl Hlim Hem Hex Hord Hfirst Hcount HQ Hseen Hout] Hpop Hedge. destruct (pop_least s r e h' Hrd Hedge Hpop) as (Hleft & Hleast & Hrd' & _ & _).
  set (s' := MkScan (sn_next s) h' (sn_budget s) (examine (sn_stats s))). assert (Hl' : left s' = in_hand h' ++ pending (sn_next s)) by done.
  assert (He : e ∈ left s) by (rewrite Hleft; left). assert (Hsub : forall x, x ∈ left s' -> x ∈ left s) by (intros x Hx; rewrite Hleft; right; by rewrite <- Hl').
  assert (Hcnt : 0 < st_EntriesExamined (sn_stats s')) by (cbn; destruct examined; lia). cbn zeta. split.
  - split; auto.
    + intros z x [= <-] Hx. apply Hleast. by rewrite <- Hl'.
    + intros z x [= <-] Hx. right. by apply Hem.
    + done.
    + intros z [= <-]. by apply HQ.
  - intros Hlt. split; auto.
    + apply sorted_app; [done|by repeat constructor|]. intros x y Hx ->%list_elem_of_singleton. by apply Hem.
    + by rewrite last_snoc.
    + rewrite length_app. cbn [length]. lia.
    + intros x y [Hx| ->%list_elem_of_singleton]%elem_of_app Hy; [by apply Hem, Hsub|apply Hleast; by rewrite <- Hl'].
    + intros z x [= <-] Hx. apply Hleast. by rewrite <- Hl'.
    + intros z x [= <-] [Hx| ->%list_elem_of_singleton]%elem_of_app; [right; by apply Hem|by left].
    + done.
    + intros z [= <-]. by apply HQ.
    + intros x [Hx| ->%list_elem_of_singleton]%elem_of_app; [by apply Hout|by apply HQ].
Qed.

Lemma sorted_last l z : sorted l -> last l = Some z -> forall x, x ∈ l -> x = z \/ precedes x z.
Proof.
  intros Hs Hl x Hx. apply last_Some in Hl as [l' ->]. apply elem_of_app in Hx as [Hx| ->%list_elem_of_singleton]; [|by left]. right. eapply (sorted_split desc); [exact Hs|done|left].
Qed.
Lemma page_emit outE e L n res : page (outE ++ [e]) L n res -> page outE (e :: L) (S n) res.
Proof.
  intros (Hn & Hlogs & Hlim & Hcur). rewrite <- app_assoc in Hlogs, Hcur. change ([e] ++ take n L) with (take (S n) (e :: L)) in Hlogs, Hcur. split; [cbn; lia|]. split; [done|]. rewrite length_app in Hlim. cbn [length] in *. split; [lia|].
  destruct (r_Cursor res) as [k|]; [|destruct Hcur; split; [lia|done]]. destruct (_ && _); [destruct Hcur as [Hc _]; by destruct outE|]. destruct Hcur as (z & Hk & HQ & Hbefore & Hafter & Hfull). exists z. split_and!; [done..|]. intros Ht. specialize (Hfull Ht). rewrite length_app in Hfull. cbn [length] in Hfull. lia.
Qed.

Lemma search_scan_spec : 0 < limit -> forall fuel s outE lastKey examined, going s outE lastKey examined -> (length (left s) < fuel)%nat ->
  exists res L n, scan_loop fuel fs from to cur desc limit s (log_of <$> outE) lastKey examined = Ok res
    /\ sorted L /\ L ≡ₚ hits (sn_heap s) ++ pending_hits (sn_next s) /\ page outE L n res.
Proof.
  intros Hlimit. induction fuel as [|fuel IH]; intros s outE lastKey examined Hg Hfuel; [lia|]. cbn [scan_loop].
  destruct (advance_spec (sn_next s) (sn_heap s) (sn_budget s) (sn_stats s) (gn_ready _ _ _ _ Hg)) as (s1 & res1 & Hadv & Hst & Hres). rewrite Hadv. destruct res1 as [k|].
  - destruct (exists_sorted (hits (sn_heap s) ++ pending_hits (sn_next s))) as (L & HL & HLp); [apply hits_distinct, (rd_distinct _ _ (gn_ready _ _ _ _ Hg))|].
    eexists _, L, O. split; [done|]. split; [done|]. split; [done|]. split; [lia|]. cbn [r_Logs r_Cursor r_Truncated r_Stats]. rewrite take_0, app_nil_r, Nat.add_0_r. split; [done|]. split; [apply Hg|]. rewrite drop_0.
    pose proof (gn_count _ _ _ _ Hg) as Hcount. rewrite Hst. destruct examined as [z|].
    + rewrite (proj2 (Z.eqb_neq _ _)) by lia. cbn [andb]. exists z. split; [done|]. split; [by apply (gn_seen _ _ _ _ Hg)|]. split; [intros x Hx; by apply (gn_order _ _ _ _ Hg)|]. split; [|done]. intros x Hx. apply (gn_examined _ _ _ _ Hg); [done|].
      rewrite HLp in Hx. unfold left. apply elem_of_app in Hx as [Hx|Hx]; apply elem_of_app; [left; by apply hits_held|right; by apply pending_hits_pending].
    + rewrite Hcount. cbn [andb Z.eqb]. split; [by apply (gn_first _ _ _ _ Hg)|]. split; [done|]. intros x Hx. apply Hres. by rewrite <- HLp.
  - destruct Hres as [Hadvd Hedge]. pose proof (going_advanced _ _ _ _ _ Hg Hadvd Hst) as Hg1. pose proof Hadvd as (Hrd1 & Hhits & Hlen & _).
    pose proof (pop_spec desc (sn_heap s1) (rd_heap _ _ Hrd1) (distinct_app_l _ _ (rd_distinct _ _ Hrd1))) as Hpop. destruct (heap_pop desc (sn_heap s1)) as [[[r e] h']|] eqn:Epop.
    2:{ unfold heap_top_ts in Hedge. rewrite Epop in Hedge. rewrite Hpop, Hedge in Hhits. cbn in Hhits. exists (MkResult (log_of <$> outE) None false (sn_stats s1)), [], O. split; [done|]. split; [constructor|]. split; [done|].
        split; [done|]. cbn [r_Logs r_Cursor r_Truncated]. rewrite take_nil, app_nil_r, Nat.add_0_r. split; [done|]. split; [apply Hg|done]. }
    clear Hpop. destruct (pop_least s1 r e h' Hrd1 Hedge Epop) as (Hleft & Hleast & Hrd' & Hhit & Hdec). destruct (going_on s1 outE lastKey examined r e h' Hg1 Epop Hedge) as [Hskip Hemit].
    destruct Hdec as [l Hl]. rewrite Hl. assert (Hp : rn_pred r l = hit r e) by (unfold hit; by rewrite Hl). rewrite Hp.
    assert (Hlen' : (length (in_hand h' ++ pending (sn_next s1)) < fuel)%nat) by (apply Permutation_length in Hleft; unfold left in *; cbn [length] in Hleft; lia).
    set (s2 := MkScan (sn_next s1) h' (sn_budget s1) (examine (sn_stats s1))) in *. destruct (hit r e) eqn:Ehit; cbn [negb].
    + destruct (Z.eqb_spec (Z.of_nat (length (log_of <$> outE))) limit) as [Hfull|Hfull]; rewrite length_fmap in Hfull.
      * destruct (exists_sorted (hits (sn_heap s) ++ pending_hits (sn_next s))) as (L & HL & HLp); [apply hits_distinct, (rd_distinct _ _ (gn_ready _ _ _ _ Hg))|]. eexists _, L, O. split; [done|]. split; [done|]. split; [done|].
        split; [lia|]. cbn [r_Logs r_Cursor r_Truncated r_Stats]. rewrite take_0, app_nil_r, Nat.add_0_r, drop_0. split; [done|]. split; [lia|]. rewrite <- (gn_last _ _ _ _ Hg). destruct (last outE) as [z|] eqn:Elast; [|apply last_None in Elast; subst; cbn in Hfull; lia].
        cbn [fmap option_fmap option_map andb]. assert (Hz : z ∈ outE) by (apply last_Some in Elast as [l' ->]; apply elem_of_app; right; left). exists z. split; [done|]. split; [by apply (gn_out _ _ _ _ Hg)|]. split; [apply (sorted_last outE z); [apply Hg|done]|].
        split; [|intros _; split; [done|]; rewrite HLp, <- Hhits, Hhit; cbn; lia]. intros x Hx. apply (gn_emitted _ _ _ _ Hg); [done|]. rewrite HLp in Hx. unfold left. apply elem_of_app in Hx as [Hx|Hx]; apply elem_of_app; [left; by apply hits_held|right; by apply pending_hits_pending].
      * destruct (IH s2 (outE ++ [e]) (Some e) (Some e)) as (res & L & n & Hres & HL & HLp & Hpage); [apply Hemit; pose proof (gn_limit _ _ _ _ Hg); lia|done|].
        exists res, (e :: L), (S n). split; [rewrite fmap_app in Hres; cbn [fmap list_fmap] in Hres; unfold log_of at 2 in Hres; by rewrite Hl in Hres|]. split.
        { constructor; [done|]. apply List.Forall_forall. intros x Hx%list_elem_of_In. rewrite HLp in Hx. apply Hleast. apply elem_of_app in Hx as [Hx|Hx]; apply elem_of_app; [left; by apply hits_held|right; by apply pending_hits_pending]. }
        split; [|by apply page_emit]. rewrite HLp. cbn [sn_heap sn_next s2]. rewrite <- Hhits, Hhit. done.
    + destruct (IH s2 outE lastKey (Some e) Hskip Hlen') as (res & L & n & Hres & HL & HLp & Hpage). exists res, L, n. split; [done|]. split; [done|]. split; [|done]. rewrite HLp. cbn [sn_heap sn_next s2]. rewrite <- Hhits, Hhit. done.
Qed.
End Scan.

Section Exact.
Context `{CaseMap} `{!CaseLaws} `{ParseFloat} `{LogCodec} `{Zstd} (fs : files) (s : sstore).

(** ** What the store holds *)

Definition block_entries (path : Z) (m : BlockMeta) : list rawEntry :=
  match fs path with Bytes f => match readBlock f m with Ok es => es | Err _ => [] end | _ => [] end.
Definition chunk_entries (c : schunk) : list rawEntry := sc_blocks c ≫= block_entries (sc_path c).
Definition stream_entries (st : sstream) : list rawEntry := ss_head st ++ (filter (fun c => sc_stream c = ss_id st) (ss_chunks s) ≫= chunk_entries).
Definition stored : list rawEntry := ss_streams s ≫= stream_entries.

(** The logs a search is to return from here. *)
Definition answers (q : option Node) (from to : Z) (cur : option cursorKey) (desc : bool) : list rawEntry :=
  filter (fun e => in_range from to e && past cur desc e && Filter q (log_of e)) stored.

(** A published block: it opens unless it was deleted, lies within its bounds, and its filter is the one built for it. *)
Definition block_sound (path : Z) (m : BlockMeta) : Prop :=
  - 2 ^ 63 < bm_MinTs m /\ bm_MaxTs m < 2 ^ 63 - 1 /\ bm_MinTs m <= bm_MaxTs m /\
  match fs path with
  | Missing => True
  | Unopenable => False
  | Bytes f => exists es, readBlock f m = Ok es /\ Forall (fun e => bm_MinTs m <= re_Ts e <= bm_MaxTs m) es
      /\ match readBloom f m with None => True | Some view => exists blob, buildBloom es = Some blob /\ parseBloom blob = Some view end
  end.

Record store_sound : Prop := {
  so_keys : distinct stored;
  so_blocks : forall c m, c ∈ ss_chunks s -> m ∈ sc_blocks c -> block_sound (sc_path c) m;
  so_logs : forall st e, st ∈ ss_streams s -> e ∈ stream_entries st ->
    exists l, decodeLog (re_Body e) = Some l /\ forall k, k ∈ StreamLabels -> label_of (ss_labels st) k = LabelValue l k;
}.

(** ** Streams and branches *)

Lemma asMatcher_key c m : asMatcher c = Some m -> mt_Key m ∈ StreamLabels.
Proof.
  assert (Hkey : forall k, isStreamLabel k = true -> k ∈ StreamLabels) by (intros k (x & Hx & ->%bool_decide_eq_true)%existsb_exists; by apply list_elem_of_In).
  destruct c as [| |x| |k v|]; cbn [asMatcher]; try done.
  - destruct x as [| | | |k v|]; try done. destruct (isStreamLabel k) eqn:E; [|done]. intros [= <-]. by apply Hkey.
  - destruct (isStreamLabel k) eqn:E; [|done]. intros [= <-]. by apply Hkey.
Qed.
Lemma plan_keys q b m : b ∈ Split q -> m ∈ br_Matchers b -> mt_Key m ∈ StreamLabels.
Proof.
  intros Hb Hm. destruct q as [n|]; [|apply list_elem_of_singleton in Hb as ->; by apply not_elem_of_nil in Hm]. apply list_elem_of_fmap in Hb as (a & -> & _).
  unfold planBranch in Hm. cbn [br_Matchers] in Hm. apply list_elem_of_omap in Hm as (c & _ & Hc). by eapply asMatcher_key.
Qed.

Lemma branch_labels q b labels l : b ∈ Split q -> (forall k, k ∈ StreamLabels -> label_of labels k = LabelValue l k) ->
  branch_selects labels b = forallb (fun m => Matches m (LabelValue l (mt_Key m))) (br_Matchers b).
Proof.
  intros Hb Hl. unfold branch_selects. apply forallb_fun, List.Forall_forall. intros m Hm%list_elem_of_In. by rewrite Hl by by eapply plan_keys.
Qed.

(** Through the branches that select its stream a log is judged as by the whole query. *)
Lemma selected_exact q labels l : (forall k, k ∈ StreamLabels -> label_of labels k = LabelValue l k) ->
  Filter q l = orFilters ((fun b => Filter (br_Filter b)) <$> filter (fun b => branch_selects labels b) (Split q)) l.
Proof.
  intros Hl. rewrite split_meaning. assert (Hsub : forall bs, (forall b, b ∈ bs -> b ∈ Split q) -> existsb (on_branch l) bs = orFilters ((fun b => Filter (br_Filter b)) <$> filter (fun b => branch_selects labels b) bs) l); [|by apply Hsub].
  induction bs as [|b bs IH]; intros Hin; [done|]. cbn [existsb]. rewrite IH by (intros x Hx; apply Hin; by right). unfold on_branch at 1. rewrite <- (branch_labels q b labels l) by (done || apply Hin; left).
  rewrite filter_cons. destruct (branch_selects labels b); [rewrite decide_True by done|rewrite decide_False by (intros [])]; done.
Qed.

(** ** The runs of a stream *)

Section Runs.
Context (Hs : store_sound) (q : option Node) (from to : Z) (cur : option cursorKey) (desc : bool).

Definition keep (e : rawEntry) : bool := in_range from to e && past cur desc e.

Lemma cand_keep r : cand fs from to cur desc r ≡ₚ filter (fun e => keep e) (entries_of fs r).
Proof. apply sort_perm. Qed.

Lemma keep_range (l : list rawEntry) : filter (fun e => keep e) (filter (fun e => in_range from to e) l) = filter (fun e => keep e) l.
Proof.
  induction l as [|e l IH]; [done|]. rewrite (filter_cons (fun e => Is_true (in_range from to e))). destruct (decide (in_range from to e)) as [Hr|Hr]; rewrite !(filter_cons (fun e => Is_true (keep e))), IH; [done|].
  rewrite (decide_False (P := Is_true (keep e))); [done|]. unfold keep. intros Hk. apply Hr. by apply andb_prop_elim in Hk as [Hk _].
Qed.

Definition chosen (st : sstream) : list Branch := filter (fun b => branch_selects (ss_labels st) b) (Split q).
Definition pred_of (st : sstream) : Log -> bool := orFilters ((fun b => Filter (br_Filter b)) <$> chosen st).
Definition need_of (st : sstream) : Need := orNeeds ((fun b => Needs (br_Filter b)) <$> chosen st).
Definition head_run (st : sstream) : list run :=
  let es := SliceStable less (filter (fun e => in_range from to e) (ss_head st)) in
  match es, last es with e0 :: _, Some e1 => [MkRun (ss_id st) (pred_of st) (re_Ts e0) (re_Ts e1) (HeadRun es)] | _, _ => [] end.
Definition block_run (st : sstream) (path : Z) (b : BlockMeta) : run := MkRun (ss_id st) (pred_of st) (bm_MinTs b) (bm_MaxTs b) (BlockRun path b (need_of st)).
Definition chunk_runs (st : sstream) (c : schunk) : list run := block_run st (sc_path c) <$> filter (fun b => (from <=? bm_MaxTs b) && (bm_MinTs b <=? to)) (sc_blocks c).
Definition runs_of (st : sstream) : list run := head_run st ++ (filter (fun c => sc_stream c = ss_id st) (ss_chunks s) ≫= chunk_runs st).

Lemma stream_runs_of st : stream_runs s (Split q) from to st = match chosen st with [] => [] | _ => runs_of st end.
Proof. unfold stream_runs, runs_of, head_run, chunk_runs, block_run, pred_of, need_of. fold (chosen st). destruct (chosen st); reflexivity. Qed.

Lemma head_pending st : pending fs from to cur desc (head_run st) ≡ₚ filter (fun e => keep e) (ss_head st).
Proof.
  unfold head_run. set (es := SliceStable less _). assert (Hp : es ≡ₚ filter (fun e => in_range from to e) (ss_head st)) by apply sort_perm.
  assert (Hk : filter (fun e => keep e) es ≡ₚ filter (fun e => keep e) (ss_head st)) by (rewrite Hp; by rewrite keep_range). destruct es as [|e0 es]; [by rewrite <- Hk|].
  destruct (last (e0 :: es)) as [e1|] eqn:El; [|by apply last_None in El]. unfold pending. cbn [mbind list_bind]. rewrite app_nil_r, cand_keep. exact Hk.
Qed.

Lemma block_load c m st : c ∈ ss_chunks s -> m ∈ sc_blocks c -> load fs (block_run st (sc_path c) m) = Ok (block_entries (sc_path c) m)
  /\ Forall (fun e => bm_MinTs m <= re_Ts e <= bm_MaxTs m) (block_entries (sc_path c) m).
Proof.
  intros Hc Hm. destruct (so_blocks Hs c m Hc Hm) as (_ & _ & _ & Hb). unfold load, block_entries. cbn [rn_data block_run]. destruct (fs (sc_path c)) as [| |f]; [by split|done|]. destruct Hb as (es & -> & Hf & _). done.
Qed.

Lemma filter_outside (m : BlockMeta) es : Forall (fun e => bm_MinTs m <= re_Ts e <= bm_MaxTs m) es -> (from <=? bm_MaxTs m) && (bm_MinTs m <=? to) = false -> filter (fun e => keep e) es = [].
Proof.
  intros Hf Ho. apply (filter_no keep). intros e He. rewrite List.Forall_forall in Hf. apply list_elem_of_In, Hf in He. unfold keep, in_range. destruct (from <=? re_Ts e) eqn:E1, (re_Ts e <=? to) eqn:E2; try done. lia.
Qed.

Lemma chunk_pending st c : c ∈ ss_chunks s -> pending fs from to cur desc (chunk_runs st c) ≡ₚ filter (fun e => keep e) (chunk_entries c).
Proof.
  intros Hc. unfold chunk_runs, chunk_entries. assert (Hall : forall m, m ∈ sc_blocks c -> m ∈ sc_blocks c) by done. revert Hall. generalize (sc_blocks c) at 1 3 4. intros ms. induction ms as [|m ms IH]; intros Hall; [done|].
  cbn [mbind list_bind]. rewrite filter_app, filter_cons. destruct (block_load c m st Hc (Hall m ltac:(left))) as [Hload Hf]. assert (IH' := IH ltac:(intros x Hx; apply Hall; by right)). destruct ((from <=? bm_MaxTs m) && (bm_MinTs m <=? to)) eqn:E.
  - rewrite decide_True by done. cbn [fmap list_fmap]. rewrite pending_cons, cand_keep. unfold entries_of at 1. rewrite Hload. by rewrite IH'.
  - rewrite decide_False by (intros []). by rewrite (filter_outside m _ Hf E).
Qed.

Lemma runs_pending st : st ∈ ss_streams s -> pending fs from to cur desc (runs_of st) ≡ₚ filter (fun e => keep e) (stream_entries st).
Proof.
  intros Hst. unfold runs_of, stream_entries, pending. rewrite bind_app, filter_app. fold (pending fs from to cur desc (head_run st)). rewrite head_pending. f_equiv.
  assert (Hall : forall c, c ∈ filter (fun c => sc_stream c = ss_id st) (ss_chunks s) -> c ∈ ss_chunks s) by (intros c Hc; by apply list_elem_of_filter in Hc as [_ Hc]). revert Hall. generalize (filter (fun c => sc_stream c = ss_id st) (ss_chunks s)).
  intros cs. induction cs as [|c cs IH]; intros Hall; [done|]. cbn [mbind list_bind]. rewrite bind_app, filter_app. fold (pending fs from to cur desc (chunk_runs st c)). rewrite chunk_pending by (apply Hall; left). f_equiv. apply IH. intros x Hx. apply Hall. by right.
Qed.

Lemma runs_pred st r : r ∈ runs_of st -> rn_pred r = pred_of st.
Proof.
  intros [Hr|Hr]%elem_of_app.
  - unfold head_run in Hr. destruct (SliceStable _ _) as [|e0 es]; [by apply not_elem_of_nil in Hr|]. destruct (last _); [|by apply not_elem_of_nil in Hr]. by apply list_elem_of_singleton in Hr as ->.
  - apply list_elem_of_bind in Hr as (c & Hr & _). by apply list_elem_of_fmap in Hr as (b & -> & _).
Qed.

Lemma stream_distinct st : st ∈ ss_streams s -> distinct (stream_entries st).
Proof.
  intros Hst. pose proof (so_keys Hs) as Hd. unfold stored in Hd. apply list_elem_of_split in Hst as (l1 & l2 & Hl). rewrite Hl, bind_app in Hd. apply distinct_app_r in Hd. change ((st :: l2) ≫= stream_entries) with (stream_entries st ++ (l2 ≫= stream_entries)) in Hd. by apply distinct_app_l in Hd.
Qed.
Lemma distinct_filter (p : rawEntry -> bool) (l : list rawEntry) : distinct l -> distinct (filter (fun e => p e) l).
Proof. unfold distinct. intros Hd. eapply sublist_NoDup; [exact Hd|]. apply sublist_keys, sublist_filter. Qed.

Lemma decodes st e : st ∈ ss_streams s -> e ∈ stream_entries st -> is_Some (decodeLog (re_Body e)).
Proof. intros Hst He. destruct (so_logs Hs st e Hst He) as (l & -> & _). by eexists. Qed.

Lemma head_run_ok st r : st ∈ ss_streams s -> r ∈ head_run st -> run_ok fs from to cur desc r.
Proof.
  intros Hst Hr. unfold head_run in Hr. set (es := SliceStable less _) in Hr. assert (Hp : es ≡ₚ filter (fun e => in_range from to e) (ss_head st)) by apply sort_perm.
  assert (Hd : distinct (filter (fun e => in_range from to e) (ss_head st))) by (apply (distinct_filter (in_range from to)); eapply distinct_app_l; by apply (stream_distinct st)). assert (Hsort : StronglySorted (precedes false) es) by exact (sort_sorted false _ Hd).
  destruct es as [|e0 es]; [by apply not_elem_of_nil in Hr|]. destruct (last (e0 :: es)) as [e1|] eqn:El; [|by apply last_None in El]. apply list_elem_of_singleton in Hr as ->. set (E := e0 :: es) in *.
  assert (Hcand : forall e, e ∈ cand fs from to cur desc (MkRun (ss_id st) (pred_of st) (re_Ts e0) (re_Ts e1) (HeadRun E)) -> e ∈ E) by (intros e He; rewrite cand_keep in He; by apply list_elem_of_filter in He as [_ He]).
  split_and!; [by exists E| | |done|by intros []].
  - intros e He%Hcand. cbn [rn_minTs rn_maxTs]. split.
    + apply elem_of_cons in He as [->|He]; [done|]. inversion_clear Hsort as [|? ? _ Hall]. rewrite List.Forall_forall in Hall. apply list_elem_of_In, Hall, precedes_spec in He. lia.
    + destruct (sorted_last false E e1 Hsort El e He) as [->|Hlt]; [done|]. apply precedes_spec in Hlt. lia.
  - intros e He%Hcand. rewrite Hp in He. apply list_elem_of_filter in He as [_ He]. apply (decodes st); [done|]. apply elem_of_app. by left.
Qed.

(** The filters of the plan keep the patterns of the query. *)
Lemma arms_encoded n : well_encoded n = true -> Forall (fun a => well_encoded a = true) (orArms n).
Proof.
  induction n as [args IH|args _|x _|v|k v|p o v num hi] using Node_induct; intros Hw; cbn [orArms]; try (by apply Forall_singleton). apply Forall_bind. cbn [well_encoded] in Hw. rewrite forallb_forall in Hw. rewrite List.Forall_forall in IH |- *. intros a Ha. by apply IH, Hw.
Qed.
Lemma conjuncts_encoded n : well_encoded n = true -> Forall (fun a => well_encoded a = true) (conjuncts n).
Proof.
  induction n as [args _|args IH|x _|v|k v|p o v num hi] using Node_induct; intros Hw; cbn [conjuncts]; try (by apply Forall_singleton). apply Forall_bind. cbn [well_encoded] in Hw. rewrite forallb_forall in Hw. rewrite List.Forall_forall in IH |- *. intros a Ha. by apply IH, Hw.
Qed.
Lemma branch_encoded b : from_option well_encoded true q = true -> b ∈ Split q -> from_option well_encoded true (br_Filter b) = true.
Proof.
  intros Hw Hb. destruct q as [n|]; [|by apply list_elem_of_singleton in Hb as ->]. cbn [from_option] in Hw. apply list_elem_of_fmap in Hb as (a & -> & Ha). pose proof (arms_encoded n Hw) as Harms. rewrite List.Forall_forall in Harms. apply list_elem_of_In, Harms, conjuncts_encoded in Ha.
  unfold planBranch. cbn [br_Filter]. assert (Hrest : Forall (fun a => well_encoded a = true) (filter (fun c => asMatcher c = None) (conjuncts a))) by (rewrite List.Forall_forall in Ha |- *; intros x Hx; apply Ha; apply list_elem_of_In, list_elem_of_filter in Hx as [_ Hx]; by apply list_elem_of_In). destruct (filter _ _) as [|x [|y rest]]; [done|by inversion Hrest|].
  cbn [from_option well_encoded]. apply forallb_forall. rewrite List.Forall_forall in Hrest. by apply Hrest.
Qed.

Lemma block_run_ok st c m : from_option well_encoded true q = true -> st ∈ ss_streams s -> c ∈ ss_chunks s -> sc_stream c = ss_id st -> m ∈ sc_blocks c -> run_ok fs from to cur desc (block_run st (sc_path c) m).
Proof.
  intros Hw Hst Hc Hid Hm. destruct (block_load c m st Hc Hm) as [Hload Hf]. set (r := block_run st (sc_path c) m) in *.
  assert (Hcand : forall e, e ∈ cand fs from to cur desc r -> e ∈ block_entries (sc_path c) m) by (intros e He; rewrite cand_keep in He; apply list_elem_of_filter in He as [_ He]; unfold entries_of in He; by rewrite Hload in He).
  split_and!; [by eexists|..].
  - intros e He%Hcand. rewrite List.Forall_forall in Hf. by apply Hf, list_elem_of_In.
  - intros e He%Hcand. apply (decodes st); [done|]. apply elem_of_app. right. apply list_elem_of_bind. exists c. split; [|by apply list_elem_of_filter]. apply list_elem_of_bind. by exists m.
  - intros Hout e He%Hcand. unfold hit. destruct (decodeLog (re_Body e)) as [l|] eqn:El; [|done]. destruct (rn_pred r l) eqn:Ep; [|done]. exfalso. destruct (so_blocks Hs c m Hc Hm) as (_ & _ & _ & Hb).
    unfold ruledOut in Hout. cbn [rn_data r block_run] in Hout. unfold block_entries in He. destruct (fs (sc_path c)) as [| |f]; [by apply not_elem_of_nil in He|done|]. destruct Hb as (es & Hes & _ & Hbloom). rewrite Hes in He.
    destruct (need_of st) as [|alt alts] eqn:En; [done|]. destruct (readBloom f m) as [view|]; [|done]. destruct Hbloom as (blob & Hbuild & Hparse). apply existsb_exists in Ep as (fl & Hfl & Hm2). apply list_elem_of_In, list_elem_of_fmap in Hfl as (b & -> & Hb).
    assert (HbS : b ∈ Split q) by by apply list_elem_of_filter in Hb as [_ Hb]. assert (Hmay : mayMatch view (orNeeds (Needs <$> (br_Filter <$> chosen st))) = true).
    { eapply (bloom_admits es blob view e l _ (br_Filter b)); [done..|by apply list_elem_of_fmap_2|by apply branch_encoded|done]. }
    rewrite <- list_fmap_compose in Hmay. change ((Needs ∘ br_Filter) <$> chosen st) with ((fun b => Needs (br_Filter b)) <$> chosen st) in Hmay. fold (need_of st) in Hmay. rewrite En in Hmay. by rewrite Hmay in Hout.
  - intros _. by destruct (so_blocks Hs c m Hc Hm) as (Hb1 & Hb2 & Hb3 & _).
Qed.

Lemma runs_ok st r : from_option well_encoded true q = true -> st ∈ ss_streams s -> r ∈ runs_of st -> run_ok fs from to cur desc r.
Proof.
  intros Hw Hst [Hr|Hr]%elem_of_app; [by apply (head_run_ok st)|]. apply list_elem_of_bind in Hr as (c & Hr & Hc). apply list_elem_of_filter in Hc as [Hid Hc]. apply list_elem_of_fmap in Hr as (m & -> & Hm). apply list_elem_of_filter in Hm as [_ Hm]. by apply block_run_ok.
Qed.

(** ** All streams *)

Definition all_runs : list run := (snapshot s (Split q) from to).1.
Definition wanted (e : rawEntry) : bool := keep e && Filter q (log_of e).

Definition judged (p : Log -> bool) (e : rawEntry) : bool := match decodeLog (re_Body e) with Some l => p l | None => false end.
Lemma same_pred_hits p rs : (forall r, r ∈ rs -> rn_pred r = p) ->
  pending_hits fs from to cur desc rs = filter (fun e => judged p e) (pending fs from to cur desc rs).
Proof.
  induction rs as [|r rs IH]; intros Hp; [done|]. rewrite pending_hits_cons, pending_cons, filter_app, IH by (intros x Hx; apply Hp; by right). f_equal. unfold hit. by rewrite Hp by left.
Qed.

Lemma kept_both (p p' : rawEntry -> bool) (l : list rawEntry) : (forall e, e ∈ l -> p' e = Filter q (log_of e)) -> filter (fun e => p' e) (filter (fun e => p e) l) = filter (fun e => p e && Filter q (log_of e)) l.
Proof.
  induction l as [|e l IH]; intros Hl; [done|]. rewrite (filter_cons (fun e => Is_true (p e))), (filter_cons (fun e => Is_true (p e && _))). rewrite <- IH by (intros x Hx; apply Hl; by right).
  destruct (decide (p e)) as [Hp|Hp].
  - rewrite filter_cons. destruct (decide (p' e)) as [Hp'|Hp']; [rewrite decide_True|rewrite decide_False]; try done; rewrite Hl in Hp' by left; [by apply andb_prop_intro|]. intros Hb. by apply andb_prop_elim in Hb as [_ Hb].
  - rewrite decide_False; [done|]. intros Hb. by apply andb_prop_elim in Hb as [Hb _].
Qed.

Lemma stream_hits st : st ∈ ss_streams s -> pending_hits fs from to cur desc (stream_runs s (Split q) from to st) ≡ₚ filter (fun e => wanted e) (stream_entries st).
Proof.
  intros Hst. rewrite stream_runs_of. assert (Hl : forall e, e ∈ stream_entries st -> exists l, decodeLog (re_Body e) = Some l /\ Filter q (log_of e) = pred_of st l).
  { intros e He. destruct (so_logs Hs st e Hst He) as (l & Hl & Hlab). exists l. split; [done|]. unfold log_of. rewrite Hl. by apply selected_exact. }
  destruct (chosen st) as [|b bs] eqn:Ec.
  - symmetry. rewrite (filter_no wanted); [done|]. intros e He. destruct (Hl e He) as (l & _ & Hf). unfold wanted. rewrite Hf. unfold pred_of. rewrite Ec. apply andb_false_r.
  - rewrite (same_pred_hits (pred_of st)) by (intros r Hr; by eapply runs_pred). rewrite runs_pending by done. rewrite (kept_both keep (judged (pred_of st))); [done|].
    intros e He. destruct (Hl e He) as (l & Hd & Hf). unfold judged. by rewrite Hd, Hf.
Qed.

Lemma some_hits sts : (forall st, st ∈ sts -> st ∈ ss_streams s) ->
  pending_hits fs from to cur desc (sts ≫= stream_runs s (Split q) from to) ≡ₚ filter (fun e => wanted e) (sts ≫= stream_entries).
Proof.
  induction sts as [|st sts IH]; intros Hall; [done|]. rewrite !bind_cons. unfold pending_hits. rewrite bind_app, filter_app.
  fold (pending_hits fs from to cur desc (stream_runs s (Split q) from to st)). rewrite stream_hits by (apply Hall; left). f_equiv. apply IH. intros x Hx. apply Hall. by right.
Qed.
Lemma all_hits : pending_hits fs from to cur desc all_runs ≡ₚ filter (fun e => wanted e) stored.
Proof. by apply some_hits. Qed.

Lemma some_pending sts : (forall st, st ∈ sts -> st ∈ ss_streams s) ->
  exists gone, filter (fun e => keep e) (sts ≫= stream_entries) ≡ₚ gone ++ pending fs from to cur desc (sts ≫= stream_runs s (Split q) from to).
Proof.
  induction sts as [|st sts IH]; intros Hall; [by exists []|]. destruct IH as [gone IH]; [intros x Hx; apply Hall; by right|]. rewrite !bind_cons.
  assert (Happ : forall a b, pending fs from to cur desc (a ++ b) = pending fs from to cur desc a ++ pending fs from to cur desc b) by (intros; apply bind_app). rewrite Happ, stream_runs_of. destruct (chosen st).
  - exists (filter (fun e => keep e) (stream_entries st) ++ gone). rewrite filter_app, IH. change (pending fs from to cur desc []) with (@nil rawEntry). cbn [app]. by rewrite <- app_assoc.
  - exists gone. rewrite filter_app, IH, runs_pending by (apply Hall; left). rewrite !app_assoc. f_equiv. apply Permutation_app_comm.
Qed.
Lemma all_pending : exists gone, filter (fun e => keep e) stored ≡ₚ gone ++ pending fs from to cur desc all_runs.
Proof. by apply some_pending. Qed.

Lemma all_distinct : distinct (pending fs from to cur desc all_runs).
Proof. destruct all_pending as [gone Hp]. apply (distinct_app_r gone). eapply distinct_perm; [exact Hp|]. apply (distinct_filter keep), (so_keys Hs). Qed.

Lemma all_runs_ok : from_option well_encoded true q = true -> Forall (run_ok fs from to cur desc) all_runs.
Proof.
  intros Hw. apply List.Forall_forall. intros r Hr%list_elem_of_In. unfold all_runs, snapshot in Hr. cbn [fst] in Hr. apply list_elem_of_bind in Hr as (st & Hr & Hst). rewrite stream_runs_of in Hr. destruct (chosen st); [by apply not_elem_of_nil in Hr|]. by apply (runs_ok st).
Qed.

Lemma pending_kept x : x ∈ pending fs from to cur desc all_runs -> keep x = true.
Proof. destruct all_pending as [gone Hp]. intros Hx. assert (Hin : x ∈ gone ++ pending fs from to cur desc all_runs) by (apply elem_of_app; by right). rewrite <- Hp in Hin. apply list_elem_of_filter in Hin as [Hk _]. by apply Is_true_true. Qed.
End Runs.

(** ** Pages *)

Lemma past_key desc z x : past (Some (key_of z)) desc x = true <-> precedes desc z x.
Proof. rewrite precedes_spec. unfold past, key_of. cbn [ck_ts ck_seq]. destruct desc; rewrite orb_true_iff, andb_true_iff, !Z.ltb_lt, Z.eqb_eq; lia. Qed.
Lemma past_trans desc cur z x : past cur desc z = true -> precedes desc z x -> past cur desc x = true.
Proof.
  destruct cur as [[ts seq]|]; [|done]. pose proof (past_key desc (MkRaw ts seq [])) as Hk. unfold key_of in Hk. cbn [re_Ts re_Seq] in Hk. rewrite !Hk. apply precedes_trans.
Qed.

Lemma narrowed from to cur desc e : let to' := match cur with Some c => if (desc : bool) then Z.min to (ck_ts c) else to | None => to end in
  let from' := match cur with Some c => if desc then from else Z.max from (ck_ts c) | None => from end in
  in_range from' to' e && past cur desc e = in_range from to e && past cur desc e.
Proof.
  destruct cur as [c|]; [|done]. cbn zeta. destruct (past (Some c) desc e) eqn:Ep; [|by rewrite !andb_false_r]. rewrite !andb_true_r. unfold past in Ep. unfold in_range. destruct desc; lia.
Qed.

Lemma filter_same (p p' : rawEntry -> bool) (l : list rawEntry) : (forall e, e ∈ l -> p e = p' e) -> filter (fun e => p e) l = filter (fun e => p' e) l.
Proof.
  induction l as [|e l IH]; intros Hp; [done|]. rewrite !filter_cons. rewrite IH by (intros x Hx; apply Hp; by right). assert (He : p e = p' e) by (apply Hp; left). by destruct (decide (p e)) as [Ha|Ha]; rewrite He in Ha; [rewrite decide_True|rewrite decide_False].
Qed.

Lemma filter_every (p : rawEntry -> bool) (l : list rawEntry) : (forall e, e ∈ l -> p e = true) -> filter (fun e => p e) l = l.
Proof. induction l as [|e l IH]; intros Hp; [done|]. rewrite filter_cons, decide_True by (rewrite Hp; [done|left]). f_equal. apply IH. intros x Hx. apply Hp. by right. Qed.

(** What is past the cursor of a page is what the page left. *)
Lemma past_rest desc z (L : list rawEntry) n : (forall x, x ∈ take n L -> x = z \/ precedes desc x z) -> (forall x, x ∈ drop n L -> precedes desc z x) -> filter (fun x => past (Some (key_of z)) desc x) L = drop n L.
Proof.
  intros Hb Ha. rewrite <- (take_drop n L) at 1. rewrite filter_app. rewrite (filter_no (past (Some (key_of z)) desc) (take n L)).
  - cbn [app]. apply (filter_every (past (Some (key_of z)) desc)). intros x Hx. by apply past_key, Ha.
  - intros x Hx. apply not_true_is_false. rewrite past_key. intros Hp. destruct (Hb x Hx) as [->|Hlt]; [by apply precedes_irrefl in Hp|]. by apply precedes_asym in Hp.
Qed.

Lemma answers_rest q from to cur desc z (L : list rawEntry) n : L ≡ₚ answers q from to cur desc -> past cur desc z = true ->
  (forall x, x ∈ take n L -> x = z \/ precedes desc x z) -> (forall x, x ∈ drop n L -> precedes desc z x) -> drop n L ≡ₚ answers q from to (Some (key_of z)) desc.
Proof.
  intros HL Hz Hb Ha. rewrite <- (past_rest desc z L n Hb Ha), HL. unfold answers.
  induction stored as [|e l IH]; [done|]. rewrite !filter_cons. set (k := Some (key_of z)) in *. assert (Himp : past k desc e = true -> past cur desc e = true) by (intros Hp; eapply past_trans; [exact Hz|by apply past_key]).
  destruct (in_range from to e) eqn:Er, (past cur desc e) eqn:Ec, (past k desc e) eqn:Ek, (Filter q (log_of e)) eqn:Ef; cbn [andb]; try (by discriminate (Himp eq_refl)); repeat first [rewrite decide_True by done|rewrite decide_False by (intros [])]; try done;
    rewrite filter_cons, Ek; [rewrite decide_True by done; by rewrite IH|rewrite decide_False by (intros []); done].
Qed.

(** sort.Slice: the runs by their near edge, ties in any order. *)
Definition sorts (sort_runs : bool -> list run -> list run) : Prop := forall desc rs, sort_runs desc rs ≡ₚ rs /\ StronglySorted (edge_le desc) (sort_runs desc rs).
Definition newest_first (opts : SearchOpts) : bool := match o_Order opts with Newest => true | Oldest => false end.
Definition page_limit (opts : SearchOpts) : Z := Z.min (if o_Limit opts <=? 0 then DefaultLimit else o_Limit opts) MaxLimit.

Lemma going_start q from to cur desc limit (rs : list run) budget n : store_sound -> from_option well_encoded true q = true -> 0 < limit -> rs ≡ₚ all_runs q from to -> StronglySorted (edge_le desc) rs ->
  going fs from to cur desc limit (fun e => keep from to cur desc e = true) (MkScan rs [] budget (MkStats n 0 0 0 0)) [] None None.
Proof.
  intros Hs Hw Hl Hp Hsort. assert (Hpend : pending fs from to cur desc rs ≡ₚ pending fs from to cur desc (all_runs q from to)) by (unfold pending; by rewrite Hp).
  assert (Hno : forall (e : rawEntry), e ∈ [] -> False) by (intros e He; by apply not_elem_of_nil in He). split; cbn [sn_next sn_heap sn_stats st_EntriesExamined]; try done.
  - split; [rewrite Hp; by apply all_runs_ok|done|by apply Forall_nil| |by intros e He%Hno]. eapply distinct_perm; [symmetry; exact Hpend|]. by apply all_distinct.
  - constructor.
  - cbn. lia.
  - intros e x He. by apply Hno in He.
  - unfold left. cbn [sn_heap sn_next]. intros x Hx. change (x ∈ pending fs from to cur desc rs) in Hx. rewrite Hpend in Hx. by eapply pending_kept.
  - intros e He. by apply Hno in He.
Qed.

(** C14: A search answers the query. Over a store whose logs have distinct keys and carry their stream's labels (none has been folded into the overflow stream by MaxStreams, where a search by its own service would not find it), whose published blocks read back within their bounds and whose filters were built for them, and for a query whose attribute patterns are valid UTF-8, a search succeeds, and there is one list L of exactly the stored logs that are in the time range, past the cursor and satisfy the query, in the search order, such that the page is the first n logs of L, at most the limit. No cursor means the page is all of L; otherwise nothing L has left is before the cursor, an untruncated page is full, and what the next page is to find is exactly the rest of L, unless the scan budget stopped the search before a single log was examined: the cursor of such a search can fail to advance ([budget_search_stuck]). *)
Theorem search_exact sort_runs q from to opts : store_sound -> sorts sort_runs -> from_option well_encoded true q = true ->
  exists res L n, Search sort_runs s fs q from to opts = Ok res
    /\ StronglySorted (precedes (newest_first opts)) L /\ L ≡ₚ answers q from to (o_Cursor opts) (newest_first opts)
    /\ (n <= length L)%nat /\ Z.of_nat n <= page_limit opts /\ r_Logs res = log_of <$> take n L
    /\ match r_Cursor res with
       | None => n = length L
       | Some k => (forall x, x ∈ drop n L -> past (Some k) (newest_first opts) x = true)
           /\ (r_Truncated res = false -> Z.of_nat n = page_limit opts /\ (n < length L)%nat)
           /\ (r_Truncated res = false \/ st_EntriesExamined (r_Stats res) <> 0 -> drop n L ≡ₚ answers q from to (Some k) (newest_first opts))
       end.
Proof.
  intros Hs Hsort Hw. unfold Search. fold (newest_first opts). fold (page_limit opts). set (desc := newest_first opts). set (limit := page_limit opts). set (cur := o_Cursor opts).
  assert (Hlimit : 0 < limit) by (unfold limit, page_limit, DefaultLimit, MaxLimit; destruct (Z.leb_spec (o_Limit opts) 0); lia).
  set (to' := match cur with Some c => if desc then Z.min to (ck_ts c) else to | None => to end). set (from' := match cur with Some c => if desc then from else Z.max from (ck_ts c) | None => from end).
  assert (Hans : answers q from to cur desc = filter (fun e => wanted q from' to' cur desc e) stored).
  { unfold answers. apply (filter_same (fun e => in_range from to e && past cur desc e && Filter q (log_of e)) (wanted q from' to' cur desc)). intros e _. unfold wanted, keep, from', to'. by rewrite (narrowed from to cur desc e). }
  destruct (Z.ltb_spec to' from') as [Hempty|_].
  - eexists _, [], O. split; [done|]. split; [constructor|]. split; [|split; [done|]; split; [lia|]; done]. rewrite Hans. rewrite (filter_no (wanted q from' to' cur desc)); [done|]. intros e _. unfold wanted, keep, in_range. destruct (Z.leb_spec from' (re_Ts e)), (Z.leb_spec (re_Ts e) to'); try done. lia.
  - destruct (snapshot s (Split q) from' to') as [runs sel] eqn:Esnap. assert (Hruns : runs = all_runs q from' to') by (unfold all_runs; by rewrite Esnap). destruct (Hsort desc runs) as [Hperm Hedges]. set (rs := sort_runs desc runs) in *.
    pose proof (going_start q from' to' cur desc limit rs (if o_ScanBudget opts <=? 0 then DefaultScanBudget else o_ScanBudget opts) sel Hs Hw Hlimit ltac:(by rewrite Hperm, Hruns) Hedges) as Hgo.
    destruct (search_scan_spec fs from' to' cur desc limit _ Hlimit (S (length (rs ≫= entries_of fs))) _ _ _ _ Hgo) as (res & L & n & Hres & HL & HLp & Hn & Hlogs & Hlim & Hcur).
    { unfold left. cbn [sn_heap sn_next]. change (length (pending fs from' to' cur desc rs) < S (length (rs ≫= entries_of fs)))%nat. apply Nat.lt_succ_r. clear. induction rs as [|r rs IH]; [done|]. rewrite pending_cons, bind_cons, !length_app.
      enough (length (cand fs from' to' cur desc r) <= length (entries_of fs r))%nat by lia. rewrite cand_keep. apply length_filter. }
    assert (HLa : L ≡ₚ answers q from to cur desc) by (rewrite HLp, Hans; cbn [sn_heap sn_next]; change (hits []) with (@nil rawEntry); cbn [app]; rewrite <- (all_hits Hs q from' to' cur desc); rewrite <- Hruns; unfold pending_hits; by rewrite Hperm).
    exists res, L, n. split; [exact Hres|]. split; [done|]. split; [done|]. split; [done|]. split; [cbn in Hlim; lia|]. split; [done|]. destruct (r_Cursor res) as [k|]; [|by destruct Hcur].
    destruct (r_Truncated res && (st_EntriesExamined (r_Stats res) =? 0)) eqn:Estuck.
    + apply andb_true_iff in Estuck as [Ht He%Z.eqb_eq]. destruct Hcur as (_ & -> & Hall). rewrite Ht. split; [by rewrite drop_0|]. split; [done|]. by intros [|].
    + destruct Hcur as (z & -> & Hz & Hb & Ha & Hfull). split; [intros x Hx; by apply past_key, Ha|]. split; [exact Hfull|]. intros _. apply (answers_rest q from to cur desc z); [done| |done|done]. unfold keep in Hz. by apply andb_true_iff in Hz as [_ Hz].
Qed.
End Exact.

(** ** Samples *)

#[export] Instance edge_le_dec desc : RelDecision (edge_le desc).
Proof. intros a b. unfold edge_le. destruct desc; apply _. Defined.
Definition merge_runs (desc : bool) (rs : list run) : list run := merge_sort (edge_le desc) rs.
Lemma merge_runs_sorts : sorts merge_runs.
Proof.
  intros desc rs. split; [apply merge_sort_Permutation|]. assert (Ht : Transitive (edge_le desc)) by (intros a b c; unfold edge_le; destruct desc; lia). assert (Htot : Total (edge_le desc)) by (intros a b; unfold edge_le; destruct desc; lia).
  by apply StronglySorted_merge_sort.
Qed.

Module SearchSample.
#[local] Instance no_case : CaseMap := fun u => if bool_decide (c_star ∈ u) then [] else u.
#[local] Instance no_case_laws : CaseLaws.
Proof. intros u _. unfold lower_rune, no_case. case_bool_decide; [apply not_elem_of_nil|done]. Qed.
#[local] Instance no_floats : ParseFloat := fun _ => None.
Definition plain (body : list Z) : Log := MkLog 0 body [] [] [] [] [] [] [] [].
#[local] Instance plain_codec : LogCodec := {| encodeLog := l_Message; decodeLog := fun b => Some (plain b) |}.
#[local] Instance uncompressed : Zstd := {| EncodeAll := fun raw => raw; DecodeAll := fun comp => Some comp |}.

(** A chunk of two blocks that end at the same time, and a head. *)
Definition es1 : list rawEntry := [MkRaw 5 1 (str "disk timeout"); MkRaw 10 2 (str "ok")].
Definition es2 : list rawEntry := [MkRaw 6 3 (str "read timeout"); MkRaw 10 4 (str "ok too")].
Definition enc (es : list rawEntry) : BlockMeta * list Z := match encodeBlock es with Ok p => p | Err _ => (MkMeta 0 0 0 0 0 0 0 0 0 0, []) end.
Definition fine : outcome := MkOutcome None true true true.
Definition bloom_of (es : list rawEntry) : list Z := default [] (buildBloom es).
Definition after1 := appendBlock fine (MkLogWriter [] 8 2) (chunk_header 2) (enc es1).1 (enc es1).2 (bloom_of es1).
Definition after2 := appendBlock fine after1.1.1 after1.1.2 (enc es2).1 (enc es2).2 (bloom_of es2).
Definition disk : files := fun path => if path =? 1 then Bytes after2.1.2 else Missing.
Definition blocks : list BlockMeta := lw_blocks after2.1.1.
Definition store : sstore := MkStore [MkStream 1 [[]; []; []; []; []] [MkRaw 12 5 (str "a Timeout")]] [MkChunkOf 1 1 blocks].
Definition timeout : option Node := Some (Text (str "timeout")).

Lemma store_is_sound : store_sound disk store.
Proof.
  split.
  - assert (E : stored disk store = [MkRaw 12 5 (str "a Timeout")] ++ es1 ++ es2) by (vm_compute; reflexivity). rewrite E. unfold distinct. cbn. repeat (apply NoDup_cons; split; [intros Hin; repeat (apply elem_of_cons in Hin as [Hin|Hin]; [discriminate Hin|]); by apply not_elem_of_nil in Hin|]). apply NoDup_nil. exact I.
  - intros c m ->%list_elem_of_singleton Hm. assert (Hb : blocks = [match blocks with b :: _ => b | [] => MkMeta 0 0 0 0 0 0 0 0 0 0 end; match blocks with _ :: b :: _ => b | _ => MkMeta 0 0 0 0 0 0 0 0 0 0 end]) by (vm_compute; reflexivity).
    cbn [sc_blocks] in Hm. rewrite Hb in Hm. apply elem_of_cons in Hm as [->|Hm]; [|apply list_elem_of_singleton in Hm as ->]; unfold block_sound; cbn [sc_path]; change (disk 1) with (Bytes after2.1.2).
    + split_and!; [vm_compute; reflexivity|vm_compute; reflexivity|vm_compute; discriminate|]. exists es1. split; [vm_compute; reflexivity|]. split; [repeat constructor; vm_compute; discriminate|]. vm_compute. eexists. split; reflexivity.
    + split_and!; [vm_compute; reflexivity|vm_compute; reflexivity|vm_compute; discriminate|]. exists es2. split; [vm_compute; reflexivity|]. split; [repeat constructor; vm_compute; discriminate|]. vm_compute. eexists. split; reflexivity.
  - intros st e ->%list_elem_of_singleton _. exists (plain (re_Body e)). split; [reflexivity|]. intros k Hk. unfold StreamLabels in Hk. cbn [fmap list_fmap] in Hk. repeat (apply elem_of_cons in Hk as [->|Hk]; [reflexivity|]). by apply not_elem_of_nil in Hk.
Qed.

Lemma search_exact_witness : exists res L n, Search merge_runs store disk timeout 0 100 (MkOpts 2 Newest None 0) = Ok res /\ L ≡ₚ answers disk store timeout 0 100 None true /\ r_Logs res = log_of <$> take n L.
Proof.
  destruct (search_exact disk store merge_runs timeout 0 100 (MkOpts 2 Newest None 0) store_is_sound merge_runs_sorts eq_refl) as (res & L & n & Hr & _ & HL & _ & _ & Hlogs & _). exists res, L, n. split; [exact Hr|]. split; [exact HL|exact Hlogs].
Defined.

(** The page itself. *)
Example first_page : match Search merge_runs store disk timeout 0 100 (MkOpts 2 Newest None 0) with Ok res => r_Logs res = plain <$> [str "a Timeout"; str "read timeout"] /\ r_Cursor res = Some (MkCursor 6 3) | Err _ => False end.
Proof. vm_compute. split; reflexivity. Qed.

(** A scan budget smaller than two blocks that end together stops the search for good. Four logs match; the first page returns none of them and a cursor just behind the blocks, and the page from that cursor returns none and the same cursor again. *)
Theorem budget_search_stuck :
  length (answers disk store None 0 11 None true) = 4%nat
  /\ let page cur := Search merge_runs store disk None 0 11 (MkOpts 100 Newest cur 1) in
     match page None with
     | Ok res => r_Logs res = [] /\ r_Truncated res = true /\ r_Cursor res = Some (MkCursor 11 0)
     | Err _ => False
     end
     /\ match page (Some (MkCursor 11 0)) with
        | Ok res => r_Logs res = [] /\ r_Truncated res = true /\ r_Cursor res = Some (MkCursor 11 0)
        | Err _ => False
        end.
Proof. vm_compute. repeat split. Qed.
End SearchSample.
