(* ===== verification/LogStore.v ===== *)
(** * The log store (internal/logstore/store.go, catalog.go)

    Streams with their heads, the log, sealing into chunk files, retention and recovery. The
    write-ahead log and the chunk files are reached through the two interfaces below. *)

From Stdlib Require Import ZArith Lia.
From Stdlib Require Import (notations) String.
From stdpp Require Import base gmap numbers list.
From S2P Require Import Prelude Wal WalProofs Gostring Names HeadRecord BlockFile Utf8 Logql LogBloom LogChunk LogSearch.

Definition DefaultBlockBytes : Z := 256 * 2 ^ 10.
Definition DefaultBlockAge : Z := 5 * 60 * 10 ^ 9.
Definition DefaultRetention : Z := 7 * 24 * 3600 * 10 ^ 9.
Definition DefaultMaxStreams : Z := 5000.
Definition walRecordLogs : Z := 1.
Definition maxWALRecord : Z := 8 * 2 ^ 20.
Definition MaxVarintLen64 : Z := 10.
Definition OverflowLabel : gostring := str "_overflow".

(** Durations and times are nanoseconds; a day is its number since the epoch, which its name
    [2006-01-02] determines. *)
Record SOptions := MkSOptions { so_Retention : Z; so_BlockBytes : Z; so_BlockAge : Z; so_MaxStreams : Z }.
Definition with_defaults (o : SOptions) : SOptions :=
  MkSOptions (if so_Retention o =? 0 then DefaultRetention else so_Retention o)
    (if so_BlockBytes o <=? 0 then DefaultBlockBytes else so_BlockBytes o)
    (if so_BlockAge o <=? 0 then DefaultBlockAge else so_BlockAge o)
    (if so_MaxStreams o <=? 0 then DefaultMaxStreams else so_MaxStreams o).

Definition dayMs : Z := 24 * 3600 * 1000.
Definition dayOf (ms : Z) : Z := ms / dayMs.

Inductive store_error := SErrClosed | SErrWal (e : wal_error) | SErrChunk (e : log_error) | SErrCatalog | SErrRecord | SErrDecode | SErrIO.

(** ** The catalog *)

(** The two tables, and the last id handed out. *)
Record catalog := MkCatalog { ct_streams : list (Z * gostring); ct_labels : list (Z * gostring * gostring); ct_last : Z }.

Fixpoint Join (sep : gostring) (ss : list gostring) : gostring :=
  match ss with
  | [] => []
  | [s] => s
  | s :: ss => s ++ sep ++ Join sep ss
  end.
Definition label_key (ls : list gostring) : gostring := Join [31] ls.
Definition labelsOf (l : Log) : list gostring := LabelValue l <$> StreamLabels.

(** A row of the join sets the label it names, if it names one. *)
Definition set_label (ls : list gostring) (k v : gostring) : list gostring :=
  zip_with (fun name old => if negb (bool_decide (k = [])) && bool_decide (name = k) then v else old) StreamLabels ls.
Definition join_rows (c : catalog) (id : Z) : list (gostring * gostring) :=
  match filter (fun r => r.1.1 = id) (ct_labels c) with
  | [] => [([], [])]
  | rs => (fun r => (r.1.2, r.2)) <$> rs
  end.
Definition cat_streams (c : catalog) : list (Z * list gostring) :=
  (fun s => (s.1, foldl (fun ls kv => set_label ls kv.1 kv.2) (replicate 5 []) (join_rows c s.1))) <$> ct_streams c.

(** An absent label is stored as nothing. *)
Definition label_row (id : Z) (kv : gostring * gostring) : option (Z * gostring * gostring) := if bool_decide (kv.2 = []) then None else Some (id, kv.1, kv.2).
Definition cat_create (ls : list gostring) (c : catalog) : option (Z * catalog) :=
  if existsb (fun s => bool_decide (s.2 = label_key ls)) (ct_streams c) then None else
  let id := ct_last c + 1 in
  Some (id, MkCatalog (ct_streams c ++ [(id, label_key ls)])
              (ct_labels c ++ omap (label_row id) (zip StreamLabels ls)) id).

(** ** The records of the log *)

Definition entry_bytes (b : list Z) : list Z := AppendUvarint [] (ulen b) ++ b.
Definition encodeWALRecord (base : Z) (bodies : list (list Z)) : list Z :=
  PutUint64 base ++ AppendUvarint [] (ulen bodies) ++ (bodies ≫= entry_bytes).

Fixpoint decode_bodies (n : nat) (p : list Z) : option (list (list Z)) :=
  match n with
  | O => match p with [] => Some [] | _ => None end
  | S n =>
      match Uvarint p with
      | None => None
      | Some (l, p) =>
          if ulen p <? l then None else
          match decode_bodies n (drop (Z.to_nat l) p) with
          | Some bs => Some (take (Z.to_nat l) p :: bs)
          | None => None
          end
      end
  end.
Definition decodeWALRecord (p : list Z) : option (Z * list (list Z)) :=
  if ulen p <? 9 then None else
  let base := u64_at p 0 in
  match Uvarint (drop 8 p) with
  | None => None
  | Some (n, rest) =>
      if ulen (drop 8 p) <? n then None else
      match decode_bodies (Z.to_nat n) rest with
      | Some bodies => Some (base, bodies)
      | None => None
      end
  end.

(** The bodies one record takes, and the others. *)
Fixpoint fill_record (first : bool) (size : Z) (bodies : list (list Z)) : list (list Z) * list (list Z) :=
  match bodies with
  | [] => ([], [])
  | b :: rest =>
      if first || (size + ulen b <? maxWALRecord)
      then let '(now, later) := fill_record false (size + ulen b + MaxVarintLen64) rest in (b :: now, later)
      else ([], bodies)
  end.
(** The fuel is the number of bodies: every record takes at least one. *)
Fixpoint wal_records (fuel : nat) (base : Z) (bodies : list (list Z)) : list Record_ :=
  match fuel, bodies with
  | S fuel, _ :: _ =>
      let '(now, later) := fill_record true 0 bodies in
      MkRecord walRecordLogs (encodeWALRecord base now) :: wal_records fuel (uint64 (base + ulen now)) later
  | _, _ => []
  end.

(** ** What the store uses *)

(** The log (internal/tsdb/wal): [D] is what a crash leaves of it. Recovery repairs it, reads every
    record with the segment it ends in, and opens it for appending. *)
Class StoreWal (W D : Type) := {
  wal_Log : list Record_ -> W -> W * result wal_error unit;
  wal_Sync : W -> W * result wal_error unit;
  wal_Segment : W -> nat;
  wal_Truncate : nat -> W -> W * result wal_error unit;
  wal_Close : W -> W * result wal_error unit;
  wal_Recover : D -> result wal_error (list (nat * Record_) * W);
}.

(** Chunk files: [F] a file, [C] its writer (chunk.go). *)
Class ChunkFiles (F C : Type) := {
  cf_open : outcome -> option F -> F * L C;
  cf_append : outcome -> C -> F -> BlockMeta -> list Z -> list Z -> C * F * L BlockMeta;
  cf_seal : outcome -> C -> F -> F * L unit;
  cf_index : F -> L (list BlockMeta);
  cf_read : F -> BlockMeta -> L (list rawEntry);
}.

(** A chunk is a stream's day. *)
Abbreviation chunkKey := (Z * Z)%type.

Record stream := MkSt {
  st_id : Z;
  st_labels : list gostring;
  st_head : list rawEntry;
  st_headBytes : Z;
  st_headSince : Z;
  st_headSeg : nat;
  st_open : option chunkKey;
}.
Definition with_head (es : list rawEntry) (bytes since : Z) (seg : nat) (st : stream) : stream :=
  MkSt (st_id st) (st_labels st) es bytes since seg (st_open st).
Definition with_open (o : option chunkKey) (st : stream) : stream :=
  MkSt (st_id st) (st_labels st) (st_head st) (st_headBytes st) (st_headSince st) (st_headSeg st) o.

(** [stream.add]. *)
Definition entry_size (e : rawEntry) : Z := ulen (re_Body e) + 16.
Definition add (e : rawEntry) (now : Z) (seg : nat) (st : stream) : stream :=
  let '(since, seg) := match st_head st with [] => (now, seg) | _ => (st_headSince st, st_headSeg st) end in
  with_head (st_head st ++ [e]) (st_headBytes st + entry_size e) since seg st.

(** ** The store *)

Section Store.
Context `{LogCodec} `{CaseMap} `{Zstd} {W D F C : Type} `{StoreWal W D} `{ChunkFiles F C}.
(** The order in which a Go map is walked. *)
Context (shuffle : list Z -> list Z) (shuffle_keys : list chunkKey -> list chunkKey).

(** A chunk: the published blocks, and the writer while it is appended to. *)
Record chunkState := MkCs { cs_blocks : list BlockMeta; cs_w : option C }.

(** What the process keeps, what is on disk, and the outcomes of the system calls to come. *)
Record Store := MkS {
  s_opts : SOptions;
  s_seq : Z;
  s_streams : gmap gostring Z;
  s_byID : gmap Z stream;
  s_chunks : gmap chunkKey chunkState;
  s_closed : bool;
  s_folded : Z;
  s_cat : catalog;
  s_files : gmap chunkKey F;
  s_wal : W;
  s_calls : list outcome;
}.
Abbreviation SM := (SE Store store_error).

Definition set_seq x (s : Store) : Store := MkS (s_opts s) x (s_streams s) (s_byID s) (s_chunks s) (s_closed s) (s_folded s) (s_cat s) (s_files s) (s_wal s) (s_calls s).
Definition set_byID x (s : Store) : Store := MkS (s_opts s) (s_seq s) (s_streams s) x (s_chunks s) (s_closed s) (s_folded s) (s_cat s) (s_files s) (s_wal s) (s_calls s).
Definition set_chunks x (s : Store) : Store := MkS (s_opts s) (s_seq s) (s_streams s) (s_byID s) x (s_closed s) (s_folded s) (s_cat s) (s_files s) (s_wal s) (s_calls s).
Definition set_closed (s : Store) : Store := MkS (s_opts s) (s_seq s) (s_streams s) (s_byID s) (s_chunks s) true (s_folded s) (s_cat s) (s_files s) (s_wal s) (s_calls s).
Definition add_folded (s : Store) : Store := MkS (s_opts s) (s_seq s) (s_streams s) (s_byID s) (s_chunks s) (s_closed s) (s_folded s + 1) (s_cat s) (s_files s) (s_wal s) (s_calls s).
Definition set_files x (s : Store) : Store := MkS (s_opts s) (s_seq s) (s_streams s) (s_byID s) (s_chunks s) (s_closed s) (s_folded s) (s_cat s) x (s_wal s) (s_calls s).
Definition set_wal x (s : Store) : Store := MkS (s_opts s) (s_seq s) (s_streams s) (s_byID s) (s_chunks s) (s_closed s) (s_folded s) (s_cat s) (s_files s) x (s_calls s).
Definition set_calls x (s : Store) : Store := MkS (s_opts s) (s_seq s) (s_streams s) (s_byID s) (s_chunks s) (s_closed s) (s_folded s) (s_cat s) (s_files s) (s_wal s) x.
Definition new_stream (id : Z) (ls : list gostring) (cat : catalog) (s : Store) : Store :=
  MkS (s_opts s) (s_seq s) (<[label_key ls := id]> (s_streams s)) (<[id := MkSt id ls [] 0 0 0 None]> (s_byID s)) (s_chunks s) (s_closed s) (s_folded s) cat (s_files s) (s_wal s) (s_calls s).

Definition modify (f : Store -> Store) : SM unit := fun s => (f s, Ok tt).
Definition try_ {A} (m : SM A) : SM (result store_error A) := fun s => ((m s).1, Ok (m s).2).
(** With no more outcomes given, calls succeed. *)
Definition next_call : SM outcome := fun s =>
  match s_calls s with [] => (s, Ok (MkOutcome None true true true)) | c :: rest => (set_calls rest s, Ok c) end.
(** A call that succeeds or fails whole. *)
Definition call_ok (e : store_error) : SM unit := c ← next_call; if oc_renamed c then mret tt else throw e.
Definition on_wal (f : W -> W * result wal_error unit) : SM unit := fun s =>
  let '(w, r) := f (s_wal s) in (set_wal w s, match r with Ok _ => Ok tt | Err e => Err (SErrWal e) end).
Definition on_stream (id : Z) (f : stream -> stream) : SM unit := modify (fun s => set_byID (alter f id (s_byID s)) s).
Definition on_chunk (key : chunkKey) (f : chunkState -> chunkState) : SM unit := modify (fun s => set_chunks (alter f key (s_chunks s)) s).

(** *** Streams *)

Definition create_stream (ls : list gostring) : SM Z :=
  _ ← call_ok SErrCatalog;
  s ← get;
  match cat_create ls (s_cat s) with
  | None => throw SErrCatalog
  | Some (id, cat) => _ ← modify (new_stream id ls cat); mret id
  end.

(** A log of a new combination past the bound is filed under the overflow labels. *)
Definition fold_labels (ls : list gostring) : list gostring := replicate 3 OverflowLabel ++ drop 3 ls.

Definition streamFor (l : Log) : SM Z :=
  s ← get;
  let ls := labelsOf l in
  match s_streams s !! label_key ls with
  | Some id => mret id
  | None =>
      if so_MaxStreams (s_opts s) <=? Z.of_nat (size (s_streams s)) then
        _ ← modify add_folded;
        match s_streams s !! label_key (fold_labels ls) with
        | Some id => mret id
        | None => create_stream (fold_labels ls)
        end
      else create_stream ls
  end.

Fixpoint streams_for (batch : list Log) : SM (list Z) :=
  match batch with
  | [] => mret []
  | l :: rest => id ← streamFor l; ids ← streams_for rest; mret (id :: ids)
  end.

(** *** Chunks *)

Definition closeWriter (key : chunkKey) : SM unit :=
  s ← get;
  match s_chunks s !! key with
  | Some (MkCs blocks (Some w)) =>
      match s_files s !! key with
      | None => throw SErrIO
      | Some f =>
          c ← next_call;
          let '(f, r) := cf_seal c w f in
          closed ← next_call;
          _ ← modify (fun s => set_files (<[key := f]> (s_files s)) s);
          _ ← on_chunk key (fun cs => MkCs (cs_blocks cs) None);
          match r with
          | Err e => throw (SErrChunk e)
          | Ok _ => if oc_renamed closed then mret tt else throw SErrIO
          end
      end
  | _ => mret tt
  end.

(** Opening the chunk's writer, if it has none. *)
Definition open_writer (key : chunkKey) : SM unit :=
  s ← get;
  match s_chunks s !! key with
  | Some (MkCs _ None) =>
      c ← next_call;
      let '(f, r) := cf_open c (s_files s !! key) in
      _ ← modify (fun s => set_files (<[key := f]> (s_files s)) s);
      match r with
      | Err e => throw (SErrChunk e)
      | Ok w => on_chunk key (fun cs => MkCs (cs_blocks cs) (Some w))
      end
  | _ => mret tt
  end.

Definition chunkFor (id : Z) (key : chunkKey) : SM unit :=
  s ← get;
  _ ← match s_byID s !! id ≫= st_open with
      | Some k => if decide (k = key) then mret tt else _ ← closeWriter k; on_stream id (with_open None)
      | None => mret tt
      end;
  s ← get;
  _ ← match s_chunks s !! key with
      | Some _ => mret tt
      | None => _ ← call_ok SErrIO; modify (fun s => set_chunks (<[key := MkCs [] None]> (s_chunks s)) s)
      end;
  _ ← open_writer key;
  on_stream id (with_open (Some key)).

(** *** Sealing *)

Definition off_day (day : Z) (es : list rawEntry) : list rawEntry := filter (fun e => dayOf (re_Ts e) <> day) es.
(** The head without the day that was sealed. *)
Definition drop_day (day : Z) (st : stream) : stream :=
  let rest := off_day day (st_head st) in
  with_head rest (foldr Z.add 0 (entry_size <$> rest)) (st_headSince st) (st_headSeg st) st.

Definition sealDay (id day : Z) (group : list rawEntry) : SM unit :=
  match encodeBlock group with
  | Err e => throw (SErrChunk e)
  | Ok (meta, comp) =>
      let key := (id, day) in
      _ ← chunkFor id key;
      s ← get;
      match s_chunks s !! key, s_files s !! key with
      | Some (MkCs blocks (Some w)), Some f =>
          c ← next_call;
          let '(w, f, r) := cf_append c w f meta comp (default [] (buildBloom group)) in
          _ ← modify (fun s => set_files (<[key := f]> (s_files s)) s);
          _ ← on_chunk key (fun cs => MkCs (cs_blocks cs) (Some w));
          match r with
          | Err e => throw (SErrChunk e)
          | Ok pub =>
              _ ← on_chunk key (fun cs => MkCs (cs_blocks cs ++ [pub]) (cs_w cs));
              on_stream id (drop_day day)
          end
      | _, _ => throw SErrIO
      end
  end.

(** The runs of entries of one day. *)
Fixpoint day_groups (es : list rawEntry) : list (Z * list rawEntry) :=
  match es with
  | [] => []
  | e :: es =>
      match day_groups es with
      | (d, g) :: rest => if d =? dayOf (re_Ts e) then (d, e :: g) :: rest else (dayOf (re_Ts e), [e]) :: (d, g) :: rest
      | [] => [(dayOf (re_Ts e), [e])]
      end
  end.
Fixpoint seal_days (id : Z) (groups : list (Z * list rawEntry)) : SM unit :=
  match groups with
  | [] => mret tt
  | (day, g) :: rest => _ ← sealDay id day g; seal_days id rest
  end.

Definition safe_segment (s : Store) : nat :=
  foldr (fun st safe => match st_head st with [] => safe | _ => (safe `min` st_headSeg st)%nat end) (wal_Segment (s_wal s)) (map_to_list (s_byID s)).*2.
Definition truncateWAL : SM unit := s ← get; on_wal (wal_Truncate (safe_segment s)).

Definition seal (id : Z) : SM unit :=
  s ← get;
  match s_byID s !! id with
  | None => mret tt
  | Some st =>
      match st_head st with
      | [] => mret tt
      | es => _ ← seal_days id (day_groups (SliceStable less es)); truncateWAL
      end
  end.

(** *** Appending *)

Definition number (base : Z) (xs : list (Log * list Z)) : list rawEntry := imap (fun i x => MkRaw (l_Ts x.1) (uint64 (base + Z.of_nat i)) x.2) xs.
Fixpoint add_all (ids : list Z) (es : list rawEntry) (now : Z) (seg : nat) (m : gmap Z stream) : gmap Z stream :=
  match ids, es with
  | id :: ids, e :: es => add_all ids es now seg (alter (add e now seg) id m)
  | _, _ => m
  end.
Definition full_heads (s : Store) (ids : list Z) : list Z :=
  foldl (fun acc id => match s_byID s !! id with
                       | Some st => if negb (bool_decide (id ∈ acc)) && (so_BlockBytes (s_opts s) <=? st_headBytes st) then acc ++ [id] else acc
                       | None => acc
                       end) [] ids.
(** A seal that fails is only reported. *)
Fixpoint seal_each (ids : list Z) : SM (list store_error) :=
  match ids with
  | [] => mret []
  | id :: rest => r ← try_ (seal id); es ← seal_each rest; mret (match r with Ok _ => es | Err e => e :: es end)
  end.

Definition Append (now : Z) (batch : list Log) : SM unit :=
  match batch with
  | [] => mret tt
  | _ =>
      let bodies := encodeLog <$> batch in
      s ← get;
      if s_closed s then throw SErrClosed else
      ids ← streams_for batch;
      let base := uint64 (s_seq s + 1) in
      _ ← on_wal (wal_Log (wal_records (length bodies) base bodies));
      _ ← modify (set_seq (uint64 (base + ulen batch - 1)));
      _ ← on_wal wal_Sync;
      _ ← modify (fun s => set_byID (add_all ids (number base (zip batch bodies)) now (wal_Segment (s_wal s)) (s_byID s)) s);
      s ← get;
      _ ← seal_each (full_heads s ids);
      mret tt
  end.

(** *** The other operations *)

Definition joined (es : list store_error) : SM unit := match es with [] => mret tt | e :: _ => throw e end.

Definition wanted (want : stream -> bool) (s : Store) (id : Z) : bool :=
  match s_byID s !! id with Some st => match st_head st with [] => false | _ => want st end | None => false end.
Definition sealAll (want : stream -> bool) : SM unit :=
  s ← get;
  es ← seal_each (shuffle (filter (fun id => wanted want s id) (map_to_list (s_byID s)).*1));
  joined es.
Definition Flush : SM unit := s ← get; if s_closed s then throw SErrClosed else sealAll (fun _ => true).

Definition remove_file (key : chunkKey) : SM (list store_error) :=
  c ← next_call;
  if oc_renamed c then _ ← modify (fun s => set_files (delete key (s_files s)) s); mret [] else mret [SErrIO].
(** The footer of the open writer goes to a file that is then removed. *)
Definition expire_chunk (key : chunkKey) : SM (list store_error) :=
  _ ← try_ (closeWriter key);
  _ ← modify (fun s => set_chunks (delete key (s_chunks s)) s);
  _ ← on_stream key.1 (fun st => if decide (st_open st = Some key) then with_open None st else st);
  remove_file key.
Fixpoint expire_all (keys : list chunkKey) : SM (list store_error) :=
  match keys with
  | [] => mret []
  | k :: rest => a ← expire_chunk k; b ← expire_all rest; mret (a ++ b)
  end.
Definition expired (cutoff day : Z) : bool := (day + 1) * dayMs * 10 ^ 6 <=? cutoff.
Definition expire (now : Z) : SM unit :=
  s ← get;
  let doomed := filter (fun k => expired (now - so_Retention (s_opts s)) k.2) (map_to_list (s_chunks s)).*1 in
  es ← expire_all (shuffle_keys doomed);
  joined es.

(** One round of the background loop; the time of the last retention pass is threaded. *)
Definition tick (now lastRetention : Z) : SM Z :=
  s ← get;
  if s_closed s then mret lastRetention else
  let cutoff := now - so_BlockAge (s_opts s) in
  _ ← try_ (sealAll (fun st => st_headSince st <=? cutoff));
  if (0 <? so_Retention (s_opts s)) && (60 * 10 ^ 9 <=? now - lastRetention)
  then _ ← try_ (expire now); mret now else mret lastRetention.

Fixpoint close_all (keys : list chunkKey) : SM (list store_error) :=
  match keys with
  | [] => mret []
  | k :: rest => r ← try_ (closeWriter k); es ← close_all rest; mret (match r with Ok _ => es | Err e => e :: es end)
  end.
Definition errs_of (r : result store_error unit) : list store_error := match r with Ok _ => [] | Err e => [e] end.
Definition StoreClose : SM unit :=
  s ← get;
  if s_closed s then mret tt else
  _ ← modify set_closed;
  a ← try_ (sealAll (fun _ => true));
  s ← get;
  b ← close_all (shuffle_keys (map_to_list (s_chunks s)).*1);
  c ← try_ truncateWAL;
  d ← try_ (on_wal wal_Close);
  e ← try_ (call_ok SErrCatalog);
  joined (errs_of a ++ b ++ errs_of c ++ errs_of d ++ errs_of e).

Record UsageRec := MkUsage { u_Streams : Z; u_Chunks : Z; u_Blocks : Z; u_Entries : Z; u_HeadEntries : Z; u_HeadBytes : Z; u_RawBytes : Z; u_CompressedBytes : Z; u_BloomBytes : Z; u_Folded : Z }.
Definition Usage (s : Store) : UsageRec :=
  let blocks := (map_to_list (s_chunks s)).*2 ≫= cs_blocks in
  let heads := (fun id => default (MkSt 0 [] [] 0 0 0 None) (s_byID s !! id)) <$> (map_to_list (s_streams s)).*2 in
  MkUsage (Z.of_nat (size (s_streams s))) (Z.of_nat (size (s_chunks s))) (ulen blocks) (foldr Z.add 0 (bm_N <$> blocks))
    (foldr Z.add 0 ((fun st => ulen (st_head st)) <$> heads)) (foldr Z.add 0 (st_headBytes <$> heads))
    (foldr Z.add 0 (bm_RawLen <$> blocks)) (foldr Z.add 0 (bm_CompLen <$> blocks)) (foldr Z.add 0 (bm_BloomLen <$> blocks)) (s_folded s).

(** *** Recovery *)

Definition load_streams (rows : list (Z * list gostring)) : gmap gostring Z * gmap Z stream :=
  foldl (fun m r => (<[label_key r.2 := r.1]> m.1, <[r.1 := MkSt r.1 r.2 [] 0 0 0 None]> m.2)) (∅, ∅) rows.

(** The chunks whose file has an index and whose stream is known, and the newest number of each. *)
Definition load_chunks (byID : gmap Z stream) (files : gmap chunkKey F) : gmap chunkKey chunkState :=
  map_imap (fun k f => match cf_index f with Ok blocks => if decide (is_Some (byID !! k.1)) then Some (MkCs blocks None) else None | Err _ => None end) files.
Definition last_seq (blocks : list BlockMeta) : Z := foldl Z.max 0 (bm_LastSeq <$> blocks).
Definition sealed_seq (chunks : gmap chunkKey chunkState) (key : chunkKey) : Z := match chunks !! key with Some cs => last_seq (cs_blocks cs) | None => 0 end.
Definition newest_seq (chunks : gmap chunkKey chunkState) : Z := foldr Z.max 0 ((fun cs => last_seq (cs_blocks cs)) <$> (map_to_list chunks).*2).

Definition replay_entry (sealed : chunkKey -> Z) (now : Z) (seg : nat) (seq : Z) (body : list Z) : SM unit :=
  _ ← modify (fun s => set_seq (Z.max (s_seq s) seq) s);
  match decodeLog body with
  | None => throw SErrDecode
  | Some l =>
      id ← streamFor l;
      if seq <=? sealed (id, dayOf (l_Ts l)) then mret tt
      else on_stream id (add (MkRaw (l_Ts l) seq body) now seg)
  end.
Fixpoint replay_bodies (sealed : chunkKey -> Z) (now : Z) (seg : nat) (seq : Z) (bodies : list (list Z)) : SM unit :=
  match bodies with
  | [] => mret tt
  | b :: rest => _ ← replay_entry sealed now seg seq b; replay_bodies sealed now seg (uint64 (seq + 1)) rest
  end.
Fixpoint replay_log (sealed : chunkKey -> Z) (now : Z) (recs : list (nat * Record_)) : SM unit :=
  match recs with
  | [] => mret tt
  | (seg, r) :: rest =>
      if negb (rec_Type r =? walRecordLogs) then replay_log sealed now rest else
      match decodeWALRecord (rec_Data r) with
      | None => throw SErrRecord
      | Some (base, bodies) => _ ← replay_bodies sealed now seg base bodies; replay_log sealed now rest
      end
  end.

(** [Open]: the process's state from what is on disk. *)
Definition OpenStore (opts : SOptions) (now : Z) (calls : list outcome) (cat : catalog) (files : gmap chunkKey F) (d : D) : result store_error Store :=
  let '(streams, byID) := load_streams (cat_streams cat) in
  let chunks := load_chunks byID files in
  match wal_Recover d with
  | Err e => Err (SErrWal e)
  | Ok (recs, w) =>
      match replay_log (sealed_seq chunks) now recs (MkS (with_defaults opts) (newest_seq chunks) streams byID chunks false 0 cat files w calls) with
      | (s, Ok _) => Ok s
      | (_, Err e) => Err e
      end
  end.
End Store.
