(* ===== verification/LogStoreInv.v ===== *)
(** * What the log store relies on, and its invariant

    The laws of the two interfaces, and the invariant that makes every acknowledged log present
    exactly once: in its stream's head or in one published block. First the records and the
    catalog, which read back what was written. *)

From Stdlib Require Import ZArith Lia.
From Stdlib Require Import (notations) String.
From stdpp Require Import base gmap numbers list sorting.
From S2P Require Import Prelude Wal WalProofs WalSafety Gostring Names HeadRecord BlockFile BlockIndex Utf8 Logql LogBloom LogChunk LogChunkProofs LogSearch LogSearchOrder LogStore.

(** * The log store's records and catalog

    A record of the log decodes to the bodies it was made of, a batch is split into records that hold
    it in order, and a stream comes out of the catalog with the labels it was created with. *)

(** ** Records *)

Lemma decode_bodies_enc bodies : Forall (fun b => int_len b) bodies -> decode_bodies (length bodies) (bodies ≫= entry_bytes) = Some bodies.
Proof.
  induction 1 as [|b bodies Hb _ IH]; [done|]. cbn [length decode_bodies]. rewrite bind_cons. unfold entry_bytes at 1. rewrite <- app_assoc. unfold AppendUvarint. cbn [app]. rewrite Uvarint_Append by by apply ulen_u64.
  rewrite (proj2 (Z.ltb_ge _ _)) by (rewrite ulen_app; pose proof (ulen_nonneg (bodies ≫= entry_bytes)); lia). rewrite ulen_nat, take_app_length, drop_app_length. by rewrite IH.
Qed.

Lemma bodies_length (bodies : list (list Z)) : ulen bodies <= ulen (bodies ≫= entry_bytes).
Proof.
  induction bodies as [|b bodies IH]; [done|]. rewrite bind_cons, ulen_app. unfold entry_bytes at 1. rewrite ulen_app. pose proof (append_len (ulen b)) as Hn. unfold ulen in *. cbn [length]. lia.
Qed.

Lemma record_roundtrip base bodies : is_u64 base -> bodies <> [] -> is_u64 (ulen bodies) -> Forall (fun b => int_len b) bodies -> decodeWALRecord (encodeWALRecord base bodies) = Some (base, bodies).
Proof.
  intros Hbase Hne Hn Hb. unfold decodeWALRecord, encodeWALRecord. rewrite u64_put by done. change 8%nat with (length (PutUint64 base)). rewrite drop_app_length, ulen_app.
  pose proof (append_len (ulen bodies)) as Ha. change (ulen (PutUint64 base)) with 8. pose proof (bodies_length bodies) as Hl. rewrite ulen_app. assert (0 < ulen bodies) by (destruct bodies; [done|]; unfold ulen; cbn [length]; lia).
  rewrite (proj2 (Z.ltb_ge _ _)) by (unfold ulen in *; lia). unfold AppendUvarint at 1. cbn [app]. rewrite Uvarint_Append by done.
  rewrite (proj2 (Z.ltb_ge _ _)) by (unfold ulen in *; lia). by rewrite ulen_nat, decode_bodies_enc.
Qed.

Lemma record_bytes base bodies : Forall (Forall is_byte) bodies -> Forall is_byte (encodeWALRecord base bodies).
Proof.
  intros Hb. unfold encodeWALRecord. apply Forall_app. split; [apply Forall_app; split; apply put32_bytes|]. apply Forall_app. split; [apply uvarint_all_bytes, ulen_nonneg|].
  induction Hb as [|b bodies Hb _ IH]; [constructor|]. rewrite bind_cons. apply Forall_app. split; [|done]. apply Forall_app. split; [apply uvarint_all_bytes, ulen_nonneg|done].
Qed.

(** ** Batches *)

Lemma fill_split bodies : forall first size now later, fill_record first size bodies = (now, later) -> bodies = now ++ later.
Proof.
  induction bodies as [|b bodies IH]; intros first size now later; cbn [fill_record]; [by intros [= <- <-]|]. destruct (_ || _); [|by intros [= <- <-]].
  destruct (fill_record false _ bodies) as [n l] eqn:E. intros [= <- <-]. cbn [app]. f_equal. by eapply IH.
Qed.
Lemma fill_some b bodies now later : fill_record true 0 (b :: bodies) = (now, later) -> now <> [].
Proof. cbn [fill_record orb]. destruct (fill_record false _ bodies) as [n l]. by intros [= <- _]. Qed.

(** What a batch leaves in the log: records of consecutive numbers that hold its bodies in order. *)
Record wrec := MkWrec { wr_seg : nat; wr_base : Z; wr_bodies : list (list Z) }.
Definition to_rec (g : wrec) : nat * Record_ := (wr_seg g, MkRecord walRecordLogs (encodeWALRecord (wr_base g) (wr_bodies g))).
Fixpoint split_batch (fuel : nat) (seg : nat) (base : Z) (bodies : list (list Z)) : list wrec :=
  match fuel, bodies with
  | S fuel, _ :: _ => let '(now, later) := fill_record true 0 bodies in MkWrec seg base now :: split_batch fuel seg (uint64 (base + ulen now)) later
  | _, _ => []
  end.
Lemma records_of_batch fuel seg : forall base bodies, (seg,.) <$> wal_records fuel base bodies = to_rec <$> split_batch fuel seg base bodies.
Proof.
  induction fuel as [|fuel IH]; intros base [|b bodies]; try done. cbn [wal_records split_batch]. destruct (fill_record true 0 (b :: bodies)) as [now later]. rewrite !fmap_cons. f_equal. apply IH.
Qed.
Definition numbered (base : Z) (bodies : list (list Z)) : list (Z * list Z) := imap (fun i b => (base + Z.of_nat i, b)) bodies.
Lemma numbered_app base a b : numbered base (a ++ b) = numbered base a ++ numbered (base + ulen a) b.
Proof. unfold numbered. rewrite imap_app. f_equal. apply imap_ext. intros i x _. unfold ulen. f_equal. lia. Qed.

Lemma split_batch_numbered fuel seg : forall base bodies, (length bodies <= fuel)%nat -> 0 <= base -> base + ulen bodies <= 2 ^ 64 ->
  (split_batch fuel seg base bodies ≫= fun g => numbered (wr_base g) (wr_bodies g)) = numbered base bodies
  /\ Forall (fun g => wr_seg g = seg /\ base <= wr_base g < 2 ^ 64 /\ wr_base g + ulen (wr_bodies g) <= 2 ^ 64 /\ wr_bodies g <> [] /\ wr_bodies g ⊆ bodies) (split_batch fuel seg base bodies).
Proof.
  induction fuel as [|fuel IH]; intros base [|b bodies] Hl Hb Hmax; try (by split; [done|constructor]); [cbn [length] in Hl; lia|].
  cbn [split_batch]. destruct (fill_record true 0 (b :: bodies)) as [now later] eqn:E. pose proof (fill_split _ _ _ _ _ E) as Hs. pose proof (fill_some _ _ _ _ E) as Hne. rewrite Hs, ulen_app in Hmax. pose proof (ulen_nonneg later).
  assert (0 < ulen now) by (destruct now; [done|]; unfold ulen; cbn [length]; lia). apply (f_equal length) in Hs as Hlen. rewrite length_app in Hlen. unfold ulen in *.
  rewrite bind_cons. cbn [wr_base wr_bodies]. destruct later as [|x later].
  - assert (split_batch fuel seg (uint64 (base + Z.of_nat (length now))) [] = []) as -> by by destruct fuel. rewrite app_nil_r in Hs. rewrite Hs. cbn [mbind list_bind]. rewrite app_nil_r. split; [done|]. apply Forall_singleton. cbn. split_and!; lia || done.
  - cbn [length] in *. rewrite uint64_id by (unfold is_u64; lia). destruct (IH (base + Z.of_nat (length now)) (x :: later)) as [IHe IHf]; [cbn [length] in *; lia|lia|cbn [length]; lia|].
    rewrite IHe, Hs, numbered_app. split; [done|]. constructor; [cbn; split_and!; try lia; try done; apply list_subseteq_app_l|]; [done|].
    eapply List.Forall_impl; [|exact IHf]. intros g (? & ? & ? & ? & Hsub). split_and!; try done; try lia. intros y Hy. apply elem_of_app. right. by apply Hsub.
Qed.

(** ** The catalog *)

Record cat_ok (c : catalog) : Prop := {
  co_last : forall id key, (id, key) ∈ ct_streams c -> id <= ct_last c;
  co_labels : forall r, r ∈ ct_labels c -> r.1.1 <= ct_last c;
}.

Definition label_rows (ls : list gostring) : list (gostring * gostring) := filter (fun kv => kv.2 <> []) (zip StreamLabels ls).
Lemma set_rows ls : length ls = 5%nat -> foldl (fun acc kv => set_label acc kv.1 kv.2) (replicate 5 []) (match label_rows ls with [] => [([], [])] | rs => rs end) = ls.
Proof.
  destruct ls as [|a [|b [|c [|d [|e [|]]]]]]; try done. intros _. unfold label_rows, StreamLabels. cbn [fmap list_fmap zip_with].
  rewrite !filter_cons. cbn [snd]. rewrite filter_nil. repeat case_decide; repeat match goal with H : ~ (_ <> _) |- _ => apply dec_stable in H end; subst; vm_compute; reflexivity.
Qed.

Lemma new_rows (id : Z) ls : omap (label_row id) (zip StreamLabels ls) = (fun kv : gostring * gostring => (id, kv.1, kv.2)) <$> label_rows ls.
Proof.
  unfold label_rows. induction (zip StreamLabels ls) as [|kv l IH]; [done|]. cbn [omap list_omap]. rewrite filter_cons. unfold label_row at 1. case_bool_decide as E; [rewrite decide_False by (intros Hn; by apply Hn)|rewrite decide_True by done; rewrite fmap_cons; f_equal]; done.
Qed.

(** A stream created is listed with the labels it was created with, the others as before. *)
Lemma catalog_create c ls id c' : cat_ok c -> length ls = 5%nat -> cat_create ls c = Some (id, c') ->
  cat_streams c' = cat_streams c ++ [(id, ls)] /\ cat_ok c' /\ ct_last c < id.
Proof.
  intros [Hl Hr] Hlen. unfold cat_create. destruct (existsb _ _); [done|]. cbv zeta. intros Hc. apply (inj Some), pair_eq in Hc as [<- <-]. rewrite new_rows.
  assert (Hold : forall id', id' <= ct_last c -> filter (fun r : Z * gostring * gostring => r.1.1 = id') ((fun kv : gostring * gostring => (ct_last c + 1, kv.1, kv.2)) <$> label_rows ls) = []).
  { intros id' Hid. apply filter_none. intros r (kv & -> & _)%list_elem_of_fmap. cbn. lia. }
  assert (Hnew : filter (fun r : Z * gostring * gostring => r.1.1 = ct_last c + 1) (ct_labels c) = []) by (apply filter_none; intros r Hin; specialize (Hr r Hin); lia).
  split_and!; [| |lia].
  - unfold cat_streams. cbn [ct_streams]. rewrite fmap_app. f_equal.
    + apply list_fmap_ext. intros i [id' key] Hin%list_elem_of_lookup_2. cbn [fst]. unfold join_rows. cbn [ct_labels]. rewrite filter_app, (Hold id') by by eapply Hl. by rewrite app_nil_r.
    + cbn [fmap list_fmap fst]. f_equal. f_equal. unfold join_rows. cbn [ct_labels]. rewrite filter_app, Hnew. cbn [app].
      rewrite (filter_all _ ((fun kv : gostring * gostring => (ct_last c + 1, kv.1, kv.2)) <$> label_rows ls)) by (intros r (kv & -> & _)%list_elem_of_fmap; done).
      rewrite <- (set_rows ls Hlen) at 2. assert (Hrows : forall rs : list (gostring * gostring), (fun r : Z * gostring * gostring => (r.1.2, r.2)) <$> ((fun kv : gostring * gostring => (ct_last c + 1, kv.1, kv.2)) <$> rs) = rs)
        by (induction rs as [|[k v] rs IH]; [done|]; rewrite !fmap_cons, IH; done). specialize (Hrows (label_rows ls)). destruct (label_rows ls) as [|kv rs]; [done|]. rewrite !fmap_cons in *. by rewrite Hrows.
  - split; cbn [ct_streams ct_labels ct_last].
    + intros id' key [Hin|Hin]%elem_of_app; [apply Hl in Hin; lia|]. apply list_elem_of_singleton in Hin. injection Hin as -> _. lia.
    + intros r [Hin|Hin]%elem_of_app; [apply Hr in Hin; lia|]. apply list_elem_of_fmap in Hin as (kv & -> & _). cbn. lia.
Qed.

(** ** What the log promises *)

(** [wal_keeps w a b]: the log holds the records [a], which are synced, and then [b], which are not;
    each with its segment. [wal_crash w d]: a crash may leave [d]. *)
Class StoreWalLaws (W D : Type) `{StoreWal W D} := {
  wal_keeps : W -> list (nat * Record_) -> list (nat * Record_) -> Prop;
  wal_crash : W -> D -> Prop;
  wal_sorted w a b : wal_keeps w a b -> StronglySorted le (a ++ b).*1 /\ Forall (fun n => (n <= wal_Segment w)%nat) (a ++ b).*1;
  wal_Log_ok w a b recs w' r : wal_keeps w a b -> Forall bytes_ok recs -> Forall (fun r => rec_Data r <> []) recs -> wal_Log recs w = (w', r) ->
    exists pre, wal_keeps w' a (b ++ ((wal_Segment w',.) <$> pre)) /\ pre `prefix_of` recs /\ (r = Ok tt -> pre = recs) /\ (r <> Ok tt -> recs <> [] -> pre <> recs);
  wal_Sync_ok w a b w' r : wal_keeps w a b -> wal_Sync w = (w', r) ->
    wal_Segment w' = wal_Segment w /\ match r with Ok _ => wal_keeps w' (a ++ b) [] | Err _ => wal_keeps w' a b end;
  wal_Truncate_ok w a b before w' r : wal_keeps w a b -> (before <= wal_Segment w)%nat -> wal_Truncate before w = (w', r) ->
    exists cut, (cut <= before)%nat /\ wal_keeps w' (filter (fun x => (cut <= x.1)%nat) a) (filter (fun x => (cut <= x.1)%nat) b);
  wal_Close_ok w a b w' r : wal_keeps w a b -> wal_Close w = (w', r) -> wal_keeps w' a b;
  wal_crash_ok w a b d : wal_keeps w a b -> wal_crash w d ->
    exists b' rest w', b = b' ++ rest /\ wal_Recover d = Ok (a ++ b', w') /\ wal_keeps w' (a ++ b') [];
}.

(** ** What a chunk file promises *)

Definition max_seq (es : list rawEntry) : Z := foldr Z.max 0 (re_Seq <$> es).
Definition writer_of {C} (r : L C) : option C := match r with Ok w => Some w | Err _ => None end.

(** [cf_holds f w gs t]: the file has the published blocks [gs] with their entries, and [w] is its
    writer, if it has one. Behind them there may be a block [t] that was written and not synced. *)
Class ChunkFilesLaws (F C : Type) `{ChunkFiles F C} `{Zstd} := {
  cf_holds : F -> option C -> list (BlockMeta * list rawEntry) -> option (list rawEntry) -> Prop;
  cf_crash : F -> option C -> F -> Prop;
  cf_open_new oc f r : cf_open oc None = (f, r) -> cf_holds f (writer_of r) [] None;
  cf_open_old oc f gs f' r : cf_holds f None gs None -> cf_open oc (Some f) = (f', r) -> cf_holds f' (writer_of r) gs None;
  cf_append_ok oc f w gs t es m comp bloom w' f' r : cf_holds f (Some w) gs t -> Forall entry_ok es -> encodeBlock es = Ok (m, comp) -> Forall is_byte bloom ->
    cf_append oc w f m comp bloom = (w', f', r) ->
    match r with
    | Ok m' => cf_holds f' (Some w') (gs ++ [(m', es)]) None /\ bm_LastSeq m' = bm_LastSeq m
    | Err _ => exists t', cf_holds f' (Some w') gs t' /\ (t' = None \/ t' = Some es)
    end;
  cf_seal_ok oc f w gs t f' r : cf_holds f (Some w) gs t -> cf_seal oc w f = (f', r) -> cf_holds f' None gs None;
  cf_crash_ok f w gs t f' : cf_holds f w gs t -> cf_crash f w f' ->
    exists extra, cf_holds f' None (gs ++ extra) None /\ (extra = [] \/ exists m es, t = Some es /\ extra = [(m, es)] /\ bm_LastSeq m = max_seq es);
  cf_index_ok f gs : cf_holds f None gs None ->
    (gs = [] /\ exists e, cf_index f = Err e) \/ (exists blocks, cf_index f = Ok blocks /\ no_crc <$> blocks = no_crc <$> gs.*1);
  cf_read_ok f w gs t m es m' : cf_holds f w gs t -> (m, es) ∈ gs -> no_crc m' = no_crc m -> cf_read f m' = Ok es;
}.

(** ** The state and what it stands for *)

Section Invariant.
Context `{LogCodec} `{CaseMap} `{Zstd} {W D F C : Type} `{StoreWal W D} `{ChunkFiles F C} `{!StoreWalLaws W D} `{!ChunkFilesLaws F C}.
Abbreviation Store := (@Store W F C).

(** A log whose labels make an unambiguous key: the wire format refuses control characters in them. *)
Definition clean_labels (l : Log) : Prop := 31 ∉ l_Service l /\ 31 ∉ l_Source l /\ 31 ∉ l_Host l.
Definition loggable (e : rawEntry) : Prop := exists l, decodeLog (re_Body e) = Some l /\ l_Ts l = re_Ts e /\ clean_labels l.

(** The stream a stored log belongs to. *)
Definition filed (s : Store) (e : rawEntry) : option Z :=
  match decodeLog (re_Body e) with
  | None => None
  | Some l =>
      match s_streams s !! label_key (labelsOf l) with
      | Some id => Some id
      | None => if so_MaxStreams (s_opts s) <=? Z.of_nat (size (s_streams s)) then s_streams s !! label_key (fold_labels (labelsOf l)) else None
      end
  end.

(** The entries of the log's records. *)
Definition ts_of (body : list Z) : Z := match decodeLog body with Some l => l_Ts l | None => 0 end.
Definition raw_entry (x : Z * list Z) : rawEntry := MkRaw (ts_of x.2) x.1 x.2.
Definition wrec_es (g : wrec) : list (nat * rawEntry) := (fun x => (wr_seg g, raw_entry x)) <$> numbered (wr_base g) (wr_bodies g).
Definition wal_es (gs : list wrec) : list (nat * rawEntry) := gs ≫= wrec_es.
Definition wrec_ok (g : wrec) : Prop :=
  1 <= wr_base g < 2 ^ 64 /\ wr_base g + ulen (wr_bodies g) <= 2 ^ 64 /\ wr_bodies g <> [] /\ Forall (fun b => int_len b) (wr_bodies g).

(** What the invariant keeps beside the state: the records of the log, the blocks of each chunk, a block
    written and not synced, the logs acknowledged with their streams, and the logs nobody was promised:
    those of batches that were refused or whose day has expired. *)
Record ghost := MkG {
  g_sync : list wrec;
  g_tail : list wrec;
  g_gs : chunkKey -> list (BlockMeta * list rawEntry);
  g_try : chunkKey -> option (list rawEntry);
  g_acked : list (Z * rawEntry);
  g_loose : list rawEntry;
}.
Definition in_blocks (G : ghost) (key : chunkKey) : list rawEntry := g_gs G key ≫= snd.
Definition sealed_at (G : ghost) (key : chunkKey) : Z := last_seq (g_gs G key).*1.
Definition known (G : ghost) (e : rawEntry) : Prop := e ∈ (wal_es (g_sync G ++ g_tail G)).*2 \/ exists key, e ∈ in_blocks G key.
Definition head_of (s : Store) (id : Z) : list rawEntry := match s_byID s !! id with Some st => st_head st | None => [] end.
Definition chunk_writer (s : Store) (key : chunkKey) : option C := s_chunks s !! key ≫= cs_w.

Record Inv (s : Store) (G : ghost) : Prop := {
  iv_wal : wal_keeps (s_wal s) (to_rec <$> g_sync G) (to_rec <$> g_tail G);
  iv_recs : Forall wrec_ok (g_sync G ++ g_tail G);
  iv_order : StronglySorted Z.lt (re_Seq <$> (wal_es (g_sync G ++ g_tail G)).*2);
  iv_seq : 0 <= s_seq s < 2 ^ 64;
  iv_known : forall e, known G e -> entry_ok e /\ 1 <= re_Seq e <= s_seq s /\ loggable e /\ is_Some (filed s e) /\ e ∈ (g_acked G).*2 ++ g_loose G;
  iv_unique : forall e e', known G e -> known G e' -> re_Seq e = re_Seq e' -> e = e';
  iv_place : forall key e, e ∈ in_blocks G key -> filed s e = Some key.1 /\ dayOf (re_Ts e) = key.2;
  iv_blocks : forall key, Forall (fun g => bm_LastSeq g.1 = max_seq g.2 /\ g.2 <> []) (g_gs G key) /\ NoDup (in_blocks G key);
  iv_files : forall key,
    match s_files s !! key with
    | Some f => cf_holds f (chunk_writer s key) (g_gs G key) (g_try G key)
    | None => g_gs G key = [] /\ chunk_writer s key = None
    end /\ (chunk_writer s key = None -> g_try G key = None);
  iv_chunks : forall key,
    match s_chunks s !! key with
    | Some cs => no_crc <$> cs_blocks cs = no_crc <$> (g_gs G key).*1
    | None => g_gs G key = []
    end;
  iv_heads : forall id st, s_byID s !! id = Some st -> StronglySorted Z.lt (re_Seq <$> st_head st)
    /\ forall e, e ∈ st_head st -> filed s e = Some id /\ sealed_at G (id, dayOf (re_Ts e)) < re_Seq e
         /\ exists seg, (seg, e) ∈ wal_es (g_sync G) /\ (st_headSeg st <= seg)%nat;
  iv_try : forall key es, g_try G key = Some es -> NoDup es /\ es <> []
    /\ forall e, e ∈ es <-> e ∈ head_of s key.1 /\ dayOf (re_Ts e) = key.2 /\ re_Seq e <= max_seq es;
  iv_acked : forall id e, (id, e) ∈ g_acked G -> filed s e = Some id /\ (e ∈ head_of s id \/ e ∈ in_blocks G (id, dayOf (re_Ts e)));
  iv_catalog : cat_ok (s_cat s) /\ s_streams s = (load_streams (cat_streams (s_cat s))).1
    /\ forall id, is_Some (s_byID s !! id) <-> is_Some ((load_streams (cat_streams (s_cat s))).2 !! id);
  iv_streams : forall k id, s_streams s !! k = Some id -> is_Some (s_byID s !! id);
}.
End Invariant.
