(* ===== verification/LogStoreSeal.v ===== *)
(** * Sealing keeps the invariant

    A block of a day's entries moves them from the head to the chunk, or leaves them where they are;
    and cutting the log back keeps the records of everything still in a head. *)

From Stdlib Require Import ZArith Lia.
From Stdlib Require Import (notations) String.
From stdpp Require Import base gmap numbers list sorting.
From S2P Require Import Prelude Wal WalProofs WalSafety Gostring Names HeadRecord BlockFile BlockIndex Utf8 Logql LogBloom LogChunk LogChunkProofs LogSearch LogSearchOrder LogStore LogStoreInv.

(** * The log store's chunk operations keep the invariant

    Opening, closing, writing and publishing blocks, and cutting the log back. *)

Lemma bind_cases {S E A B} (m : SE S E A) (f : A -> SE S E B) s s' r : (m ≫= f) s = (s', r) ->
  (exists s1 a, m s = (s1, Ok a) /\ f a s1 = (s', r)) \/ (exists e, m s = (s', Err e) /\ r = Err e).
Proof. unfold mbind, SE_bind. destruct (m s) as [s1 [a|e]]; [intros E0; left; by exists s1, a|]. intros [= <- <-]. right. by exists e. Qed.

(** ** Newest numbers *)

Lemma fold_max_spec (l : list Z) : forall a, a <= foldl Z.max a l /\ (forall x, x ∈ l -> x <= foldl Z.max a l) /\ (foldl Z.max a l = a \/ foldl Z.max a l ∈ l).
Proof.
  induction l as [|y l IH]; intros a; cbn [foldl].
  - split; [lia|]. split; [intros x Hx; by apply not_elem_of_nil in Hx|by left].
  - destruct (IH (Z.max a y)) as (H1 & H2 & H3). split; [lia|]. split.
    + intros x [->|Hx]%elem_of_cons; [lia|by apply H2].
    + destruct H3 as [H3|H3]; [|right; by right]. destruct (Z.max_spec a y) as [[? E]|[? E]]; rewrite E in H3 |- *; [right; rewrite H3; by left|by left].
Qed.
Lemma last_seq_snoc bs b : last_seq (bs ++ [b]) = Z.max (last_seq bs) (bm_LastSeq b).
Proof. unfold last_seq. rewrite fmap_app, foldl_app. done. Qed.
Lemma last_seq_no_crc bs bs' : no_crc <$> bs = no_crc <$> bs' -> last_seq bs = last_seq bs'.
Proof.
  intros E. unfold last_seq. f_equal. assert (Hf : forall l, bm_LastSeq <$> l = bm_LastSeq <$> (no_crc <$> l)) by (intros l; rewrite <- list_fmap_compose; done). by rewrite (Hf bs), (Hf bs'), E.
Qed.
Lemma max_seq_in es e : e ∈ es -> re_Seq e <= max_seq es.
Proof. unfold max_seq. induction es as [|x es IH]; [intros He; by apply not_elem_of_nil in He|]. cbn. intros [->|He]%elem_of_cons; [lia|]. specialize (IH He). lia. Qed.
Lemma max_seq_nonneg es : 0 <= max_seq es.
Proof. unfold max_seq. induction es; cbn; lia. Qed.
Lemma max_seq_le es n : 0 <= n -> (forall e, e ∈ es -> re_Seq e <= n) -> max_seq es <= n.
Proof. unfold max_seq. intros Hn. induction es as [|x es IH]; intros He; cbn; [lia|]. apply Z.max_lub; [apply He; by left|apply IH; intros e Hin; apply He; by right]. Qed.

Section Ops.
Context `{LogCodec} `{CaseMap} `{Zstd} {W D F C : Type} `{StoreWal W D} `{ChunkFiles F C} `{!StoreWalLaws W D} `{!ChunkFilesLaws F C}.
Abbreviation Store := (@Store W F C).
Implicit Types (s : Store) (G : ghost).

Lemma sealed_in s G key e : Inv s G -> e ∈ in_blocks G key -> re_Seq e <= sealed_at G key.
Proof.
  intros HI He. destruct (iv_blocks _ _ HI key) as [Hb _]. unfold in_blocks in He. apply list_elem_of_bind in He as ([m es] & He & Hg). cbn [snd] in He.
  rewrite List.Forall_forall in Hb. pose proof (Hb _ (proj1 (list_elem_of_In _ _) Hg)) as [Hm _]. cbn [fst snd] in Hm. transitivity (max_seq es); [by apply max_seq_in|]. rewrite <- Hm.
  unfold sealed_at, last_seq. apply (proj1 (proj2 (fold_max_spec (bm_LastSeq <$> (g_gs G key).*1) 0))). apply list_elem_of_fmap. exists m. split; [done|]. apply list_elem_of_fmap. by exists (m, es).
Qed.
Lemma sealed_le s G key : Inv s G -> sealed_at G key <= s_seq s.
Proof.
  intros HI. unfold sealed_at, last_seq. destruct (fold_max_spec (bm_LastSeq <$> (g_gs G key).*1) 0) as (_ & _ & [->|Hin]); [apply (iv_seq _ _ HI)|].
  apply list_elem_of_fmap in Hin as (m & -> & Hm). apply list_elem_of_fmap in Hm as ([m' es] & -> & Hg). cbn [fst]. destruct (iv_blocks _ _ HI key) as [Hb _]. rewrite List.Forall_forall in Hb. pose proof (Hb _ (proj1 (list_elem_of_In _ _) Hg)) as [Hm _]. cbn [fst snd] in Hm. rewrite Hm.
  apply max_seq_le; [apply (iv_seq _ _ HI)|]. intros e He. apply (iv_known _ _ HI e). right. exists key. unfold in_blocks. apply list_elem_of_bind. by exists (m', es).
Qed.

(** ** Changes that leave the heads and blocks alone *)

Definition head_view (st : stream) : list rawEntry * nat := (st_head st, st_headSeg st).

(** Everything but the files, the writers and the outcomes to come is the same. *)
Record same s s' : Prop := {
  sm_opts : s_opts s' = s_opts s;
  sm_seq : s_seq s' = s_seq s;
  sm_streams : s_streams s' = s_streams s;
  sm_cat : s_cat s' = s_cat s;
  sm_wal : s_wal s' = s_wal s;
  sm_closed : s_closed s' = s_closed s;
  sm_heads : forall id, head_view <$> s_byID s' !! id = head_view <$> s_byID s !! id;
}.
#[global] Instance same_trans : Transitive same.
Proof. intros a b c [] []. split; congruence || (intros id; etransitivity; eauto). Qed.
#[global] Instance same_refl : Reflexive same.
Proof. intros a. by split. Qed.

Lemma same_filed s s' e : s_opts s' = s_opts s -> s_streams s' = s_streams s -> filed s' e = filed s e.
Proof. unfold filed. by intros -> ->. Qed.
Lemma same_some s s' id : same s s' -> is_Some (s_byID s' !! id) <-> is_Some (s_byID s !! id).
Proof. intros Hs. pose proof (sm_heads _ _ Hs id) as E. destruct (s_byID s' !! id), (s_byID s !! id); done. Qed.
Lemma same_head s s' id : same s s' -> head_of s' id = head_of s id.
Proof. intros Hs. pose proof (sm_heads _ _ Hs id) as E. unfold head_of. destruct (s_byID s' !! id), (s_byID s !! id); try done. cbn in E. unfold head_view in E. by injection E. Qed.

Definition file_ok s G (key : chunkKey) : Prop :=
  match s_files s !! key with
  | Some f => cf_holds f (chunk_writer s key) (g_gs G key) (g_try G key)
  | None => g_gs G key = [] /\ chunk_writer s key = None
  end /\ (chunk_writer s key = None -> g_try G key = None).
Definition chunk_ok s G (key : chunkKey) : Prop :=
  match s_chunks s !! key with
  | Some cs => no_crc <$> cs_blocks cs = no_crc <$> (g_gs G key).*1
  | None => g_gs G key = []
  end.
Definition try_ok s (key : chunkKey) (es : list rawEntry) : Prop :=
  NoDup es /\ es <> [] /\ forall e, e ∈ es <-> e ∈ head_of s key.1 /\ dayOf (re_Ts e) = key.2 /\ re_Seq e <= max_seq es.
Definition with_try (t : chunkKey -> option (list rawEntry)) G : ghost := MkG (g_sync G) (g_tail G) (g_gs G) t (g_acked G) (g_loose G).

Lemma inv_files s s' G t : Inv s G -> same s s' -> (forall key es, t key = Some es -> g_try G key = Some es \/ try_ok s key es) ->
  (forall key, file_ok s' (with_try t G) key) -> (forall key, chunk_ok s' (with_try t G) key) -> Inv s' (with_try t G).
Proof.
  intros HI Hs Ht Hf Hc. destruct HI. pose proof (fun e => same_filed s s' e (sm_opts _ _ Hs) (sm_streams _ _ Hs)) as Hfiled. split; cbn [g_sync g_tail g_gs g_try g_acked g_loose with_try].
  - by rewrite (sm_wal _ _ Hs).
  - done.
  - done.
  - by rewrite (sm_seq _ _ Hs).
  - intros e He. rewrite Hfiled, (sm_seq _ _ Hs). by apply iv_known.
  - done.
  - intros key e He. rewrite Hfiled. by apply iv_place.
  - done.
  - apply Hf.
  - apply Hc.
  - intros id st Hst. pose proof (sm_heads _ _ Hs id) as E. rewrite Hst in E. destruct (s_byID s !! id) as [st0|] eqn:E0; [|done]. cbn in E. unfold head_view in E. injection E as -> ->.
    destruct (iv_heads id st0 E0) as [Hsort Hh]. split; [done|]. intros e He. rewrite Hfiled. by apply Hh.
  - intros key es He. assert (Hok : try_ok s key es) by (apply Ht in He as [He|He]; [by apply iv_try|done]). destruct Hok as (Hn & He0 & Hm). split; [done|]. split; [done|]. intros e. by rewrite (same_head _ _ _ Hs).
  - intros id e He. rewrite Hfiled, (same_head _ _ _ Hs). by apply iv_acked.
  - rewrite (sm_cat _ _ Hs), (sm_streams _ _ Hs). destruct iv_catalog as (? & ? & Hid). split_and!; try done. intros id. by rewrite (same_some _ _ _ Hs).
  - intros k id Hk. rewrite (sm_streams _ _ Hs) in Hk. apply (same_some _ _ _ Hs). by eapply iv_streams.
Qed.

(** ** Opening and closing *)

Lemma store_call_spec s : exists cs oc, @next_call W F C s = (set_calls cs s, Ok oc).
Proof. unfold next_call. destruct (s_calls s) as [|c cs] eqn:E; [exists [], (MkOutcome None true true true)|by exists cs, c]. by destruct s; cbn in E |- *; subst. Qed.
Lemma call_ok_spec s e : exists cs r, @call_ok W F C e s = (set_calls cs s, r).
Proof. unfold call_ok. destruct (store_call_spec s) as (cs & oc & E). rewrite (bind_ok _ _ _ _ _ E). exists cs. destruct (oc_renamed oc); eauto. Qed.

Lemma inv_same s s' G : Inv s G -> same s s' -> s_files s' = s_files s -> s_chunks s' = s_chunks s -> Inv s' G.
Proof.
  intros HI Hs Ef Ec. assert (Hw : forall key, chunk_writer s' key = chunk_writer s key) by (intros key; unfold chunk_writer; by rewrite Ec). destruct G as [sy ta gs tr ac lo].
  apply (inv_files s s' (MkG sy ta gs tr ac lo) tr HI Hs); [by left| |].
  - intros key. unfold file_ok. rewrite Ef, Hw. apply (iv_files _ _ HI).
  - intros key. unfold chunk_ok. rewrite Ec. apply (iv_chunks _ _ HI).
Qed.

(** Replacing one chunk's file and writer. *)
Definition put_chunk (key : chunkKey) (f : F) (cs : chunkState) s : Store := set_chunks (<[key := cs]> (s_chunks s)) (set_files (<[key := f]> (s_files s)) s).
Definition set_try (key : chunkKey) (t : option (list rawEntry)) G : chunkKey -> option (list rawEntry) := fun k => if decide (k = key) then t else g_try G k.

Lemma same_put key f cs calls s : same s (set_calls calls (put_chunk key f cs s)).
Proof. by split. Qed.

Lemma inv_put s G key f cs calls t : Inv s G -> cf_holds f (cs_w cs) (g_gs G key) t -> no_crc <$> cs_blocks cs = no_crc <$> (g_gs G key).*1 ->
  (cs_w cs = None -> t = None) -> (forall es, t = Some es -> try_ok s key es) ->
  Inv (set_calls calls (put_chunk key f cs s)) (with_try (set_try key t G) G).
Proof.
  intros HI Hf Hb Hw Ht. apply (inv_files s); [done|apply same_put| | |].
  - intros k es. unfold set_try. case_decide as E; [subst; intros He; right; by apply Ht|by left].
  - intros k. unfold file_ok, chunk_writer, set_try. cbn [s_files s_chunks set_calls put_chunk set_chunks set_files with_try g_gs g_try]. destruct (decide (k = key)) as [->|Hne].
    + rewrite !lookup_insert_eq. by split.
    + rewrite !lookup_insert_ne by done. apply (iv_files _ _ HI).
  - intros k. unfold chunk_ok. cbn [s_chunks set_calls put_chunk set_chunks with_try g_gs]. destruct (decide (k = key)) as [->|Hne]; [by rewrite lookup_insert_eq|]. rewrite lookup_insert_ne by done. apply (iv_chunks _ _ HI).
Qed.

Lemma alter_put {A} (m : gmap chunkKey A) key (f : A -> A) x : m !! key = Some x -> alter f key m = <[key := f x]> m.
Proof. intros E. apply map_eq. intros k. destruct (decide (k = key)) as [->|Hne]; [by rewrite lookup_alter_eq, lookup_insert_eq, E|by rewrite lookup_alter_ne, lookup_insert_ne]. Qed.

Lemma closeWriter_inv key s G s' r : Inv s G -> closeWriter key s = (s', r) -> exists t, Inv s' (with_try t G) /\ same s s'.
Proof.
  intros HI. assert (Hsame : exists t, Inv s (with_try t G) /\ same s s) by (exists (g_try G); split; [by destruct G|done]). unfold closeWriter. rewrite (bind_ok get _ s s s) by done.
  destruct (s_chunks s !! key) as [[blocks [w|]]|] eqn:Ec; [|by intros [= <- _]|by intros [= <- _]]. destruct (s_files s !! key) as [f|] eqn:Ef; [|by intros [= <- _]].
  destruct (store_call_spec s) as (cs & oc & E1). rewrite (bind_ok _ _ _ _ _ E1). destruct (cf_seal oc w f) as [f' rs] eqn:Es. destruct (store_call_spec (set_calls cs s)) as (cs2 & oc2 & E2). rewrite (bind_ok _ _ _ _ _ E2).
  destruct (iv_files _ _ HI key) as [Hh _]. unfold chunk_writer in Hh. rewrite Ef, Ec in Hh. cbn [mbind option_bind cs_w] in Hh. pose proof (cf_seal_ok _ _ _ _ _ _ _ Hh Es) as Hclosed.
  pose proof (iv_chunks _ _ HI key) as Hb. rewrite Ec in Hb. cbn [cs_blocks] in Hb. intros Er.
  enough (s' = set_calls cs2 (put_chunk key f' (MkCs blocks None) s)) as ->; [exists (set_try key None G); split; [by apply inv_put|apply same_put]|].
  revert Er. unfold on_chunk, modify, mbind, SE_bind. cbn [s_files s_chunks set_calls set_files]. rewrite (alter_put _ _ _ _ Ec). destruct rs; [destruct (oc_renamed oc2)|]; by intros [= <- _].
Qed.

Lemma open_writer_inv key s G s' r : Inv s G -> open_writer key s = (s', r) -> exists t, Inv s' (with_try t G) /\ same s s' /\ (r = Ok tt -> is_Some (s_chunks s !! key) -> is_Some (chunk_writer s' key)).
Proof.
  intros HI. assert (Hsame : exists t, Inv s (with_try t G) /\ same s s) by (exists (g_try G); split; [by destruct G|done]). unfold open_writer. rewrite (bind_ok get _ s s s) by done.
  destruct (s_chunks s !! key) as [[blocks [w|]]|] eqn:Ec.
  - intros [= <- _]. destruct Hsame as (t & ? & ?). exists t. split_and!; try done. intros _ _. unfold chunk_writer. by rewrite Ec.
  - destruct (store_call_spec s) as (cs & oc & E1). rewrite (bind_ok _ _ _ _ _ E1). destruct (cf_open oc (s_files s !! key)) as [f' rs] eqn:Eo.
    assert (Hh : cf_holds f' (writer_of rs) (g_gs G key) None).
    { destruct (iv_files _ _ HI key) as [Hf Ht]. unfold chunk_writer in Hf, Ht. rewrite Ec in Hf, Ht. cbn [mbind option_bind cs_w] in Hf, Ht. rewrite (Ht eq_refl) in Hf. destruct (s_files s !! key) as [f|]; [by eapply cf_open_old|]. destruct Hf as [-> _]. by eapply cf_open_new. }
    pose proof (iv_chunks _ _ HI key) as Hb. rewrite Ec in Hb. cbn [cs_blocks] in Hb. intros Er.
    assert (s' = set_calls cs (put_chunk key f' (MkCs blocks (writer_of rs)) s)) as ->.
    { revert Er. unfold on_chunk, modify, mbind, SE_bind. cbn [s_files s_chunks set_calls set_files]. destruct rs; [rewrite (alter_put _ _ _ _ Ec); by intros [= <- _]|]. intros [= <- _]. unfold put_chunk. cbn [writer_of s_chunks set_files]. by rewrite (insert_id _ _ _ Ec). }
    exists (set_try key None G). split; [by apply (inv_put s G key f' (MkCs blocks (writer_of rs)) cs None)|]. split; [apply same_put|]. intros -> _. unfold chunk_writer. cbn [s_chunks set_calls put_chunk set_chunks]. rewrite lookup_insert_eq. cbn. destruct rs; [by eexists|]. revert Er. by unfold modify, mbind, SE_bind.
  - intros [= <- _]. destruct Hsame as (t & ? & ?). exists t. split_and!; try done.
Qed.

(** [chunkFor] leaves the chunk open for appending. *)
Lemma chunkFor_inv id key s G s' r : Inv s G -> chunkFor id key s = (s', r) -> exists t, Inv s' (with_try t G) /\ same s s' /\ (r = Ok tt -> is_Some (chunk_writer s' key)).
Proof.
  intros HI. unfold chunkFor. rewrite (bind_ok get _ s s s) by done. intros [(s1 & [] & E1 & E)|(e & E1 & ->)]%bind_cases.
  2:{ destruct (s_byID s !! id ≫= st_open) as [k|]; [|done]. destruct (decide (k = key)); [done|]. apply bind_cases in E1 as [(s1 & [] & _ & E1)|(e' & E1 & _)]; [done|]. destruct (closeWriter_inv _ _ _ _ _ HI E1) as (t & ? & ?). by exists t. }
  assert (Hfirst : exists t, Inv s1 (with_try t G) /\ same s s1).
  { assert (Hid : exists t, Inv s (with_try t G) /\ same s s) by (exists (g_try G); split; [by destruct G|done]). destruct (s_byID s !! id ≫= st_open) as [k|]; [|by injection E1 as <-]. destruct (decide (k = key)); [by injection E1 as <-|].
    apply bind_cases in E1 as [(s0 & [] & E0 & E1)|(e' & _ & E1)]; [|done]. destruct (closeWriter_inv _ _ _ _ _ HI E0) as (t & HI0 & Hs0). exists t. unfold on_stream, modify in E1. injection E1 as <-.
    assert (Hs1 : same s0 (set_byID (alter (with_open None) id (s_byID s0)) s0)).
    { split; try done. intros id'. cbn [s_byID set_byID]. destruct (decide (id' = id)) as [->|Hne]; [rewrite lookup_alter_eq; by destruct (s_byID s0 !! id)|by rewrite lookup_alter_ne]. }
    split; [by eapply inv_same|by etransitivity]. }
  clear E1. destruct Hfirst as (t1 & HI1 & Hs1). revert E. rewrite (bind_ok get _ s1 s1 s1) by done. intros [(s2 & [] & E2 & E)|(e & E2 & ->)]%bind_cases.
  2:{ destruct (s_chunks s1 !! key); [done|]. destruct (call_ok_spec s1 SErrIO) as (cs & rc & Ec). unfold mbind, SE_bind in E2. rewrite Ec in E2. destruct rc; [done|]. injection E2 as <- _. exists t1. split_and!; [by eapply inv_same|by eapply (same_trans s s1)|done]. }
  assert (Hsecond : exists t, Inv s2 (with_try t G) /\ same s s2 /\ is_Some (s_chunks s2 !! key)).
  { destruct (s_chunks s1 !! key) as [x|] eqn:Ek; [injection E2 as <-; exists t1; split_and!; try done; by eexists|]. destruct (call_ok_spec s1 SErrIO) as (cs & rc & Ec). unfold mbind, SE_bind in E2. rewrite Ec in E2. destruct rc; [|done]. unfold modify in E2. injection E2 as <-.
    exists t1. split_and!; [|by eapply (same_trans s s1)|cbn [s_chunks set_chunks]; rewrite lookup_insert_eq; by eexists].
    assert (Hkey : forall k, chunk_writer (set_chunks (<[key:=MkCs [] None]> (s_chunks (set_calls cs s1))) (set_calls cs s1)) k = chunk_writer s1 k).
    { intros k. unfold chunk_writer. cbn [s_chunks set_chunks set_calls]. destruct (decide (k = key)) as [->|Hne]; [by rewrite lookup_insert_eq, Ek|by rewrite lookup_insert_ne]. }
    apply (inv_files s1 _ (with_try t1 G) t1 HI1); [by split|by left| |].
    - intros k. unfold file_ok. rewrite Hkey. apply (iv_files _ _ HI1).
    - intros k. pose proof (iv_chunks _ _ HI1 k) as Hk. unfold chunk_ok. cbn [s_chunks set_chunks set_calls]. destruct (decide (k = key)) as [->|Hne]; [|by rewrite lookup_insert_ne]. rewrite lookup_insert_eq. rewrite Ek in Hk. cbn [cs_blocks]. cbn [g_gs with_try] in Hk |- *. by rewrite Hk. }
  clear E2 HI1 Hs1. destruct Hsecond as (t2 & HI2 & Hs2 & Hk2). apply bind_cases in E as [(s3 & [] & E3 & E)|(e & E3 & ->)].
  2:{ destruct (open_writer_inv _ _ _ _ _ HI2 E3) as (t & HI3 & Hs3 & _). exists t. split_and!; [done|by eapply (same_trans s s2)|done]. }
  destruct (open_writer_inv _ _ _ _ _ HI2 E3) as (t & HI3 & Hs3 & Hw). unfold on_stream, modify in E. injection E as <- _. exists t.
  assert (Hs4 : same s3 (set_byID (alter (with_open (Some key)) id (s_byID s3)) s3)).
  { split; try done. intros id'. cbn [s_byID set_byID]. destruct (decide (id' = id)) as [->|Hne]; [rewrite lookup_alter_eq; by destruct (s_byID s3 !! id)|by rewrite lookup_alter_ne]. }
  split_and!; [by eapply inv_same|by eapply (same_trans s s2), (same_trans s2 s3)|]. intros _. by apply Hw.
Qed.
End Ops.

Section Seal.
Context `{LogCodec} `{CaseMap} `{Zstd} {W D F C : Type} `{StoreWal W D} `{ChunkFiles F C} `{!StoreWalLaws W D} `{!ChunkFilesLaws F C}.
Abbreviation Store := (@Store W F C).
Implicit Types (s : Store) (G : ghost).

Lemma increasing_NoDup (l : list Z) : StronglySorted Z.lt l -> NoDup l.
Proof. induction 1 as [|x l _ IH Hf]; [constructor|]. constructor; [|done]. intros Hin. rewrite List.Forall_forall in Hf. apply list_elem_of_In, Hf in Hin. lia. Qed.

Lemma sorted_filter {A} (f : A -> Z) (P : A -> Prop) `{!forall x, Decision (P x)} (l : list A) : StronglySorted Z.lt (f <$> l) -> StronglySorted Z.lt (f <$> filter P l).
Proof.
  induction l as [|x l IH]; [done|]. rewrite fmap_cons. intros [Hs Hf]%StronglySorted_inv. rewrite filter_cons. case_decide; [|by apply IH]. rewrite fmap_cons. constructor; [by apply IH|].
  rewrite List.Forall_forall in *. intros y Hy%list_elem_of_In. apply Hf, list_elem_of_In. apply list_elem_of_fmap in Hy as (z & -> & Hz). apply list_elem_of_filter in Hz as [_ Hz]. apply list_elem_of_fmap. by exists z.
Qed.

Definition on_day (day : Z) (es : list rawEntry) : list rawEntry := filter (fun e => dayOf (re_Ts e) = day) es.
Definition add_block (key : chunkKey) (g : BlockMeta * list rawEntry) G : ghost :=
  MkG (g_sync G) (g_tail G) (fun k => if decide (k = key) then g_gs G k ++ [g] else g_gs G k) (set_try key None G) (g_acked G) (g_loose G).

Lemma in_blocks_add key g G k : in_blocks (add_block key g G) k = if decide (k = key) then in_blocks G k ++ g.2 else in_blocks G k.
Proof. unfold in_blocks. cbn [g_gs add_block]. case_decide; [|done]. by rewrite bind_app, bind_singleton. Qed.
Lemma sealed_add key g G k : sealed_at (add_block key g G) k = if decide (k = key) then Z.max (sealed_at G k) (bm_LastSeq g.1) else sealed_at G k.
Proof. unfold sealed_at. cbn [g_gs add_block]. case_decide; [|done]. rewrite fmap_app. apply last_seq_snoc. Qed.

Lemma in_wal_known G seg e : (seg, e) ∈ wal_es (g_sync G) -> known G e.
Proof. intros He. left. unfold wal_es in *. rewrite bind_app, fmap_app. apply elem_of_app. left. apply list_elem_of_fmap. by exists (seg, e). Qed.
Lemma head_known s G id e : Inv s G -> e ∈ head_of s id -> known G e.
Proof. intros HI. unfold head_of. destruct (s_byID s !! id) as [st|] eqn:E; [|intros He; by apply not_elem_of_nil in He]. intros He. destruct (iv_heads _ _ HI id st E) as [_ Hh]. destruct (Hh e He) as (_ & _ & seg & Hw & _). by eapply in_wal_known. Qed.

(** The head without one day. *)
Lemma head_drop s id day k : head_of (set_byID (alter (drop_day day) id (s_byID s)) s) k = if decide (k = id) then off_day day (head_of s k) else head_of s k.
Proof. unfold head_of. cbn [s_byID set_byID]. case_decide as E; [subst; rewrite lookup_alter_eq; by destruct (s_byID s !! id)|by rewrite lookup_alter_ne]. Qed.

Lemma inv_publish s G id day group f w blocks pub calls st : Inv s G -> s_byID s !! id = Some st -> group ≡ₚ on_day day (st_head st) -> bm_LastSeq pub = max_seq group -> group <> [] ->
  cf_holds f (Some w) (g_gs G (id, day) ++ [(pub, group)]) None -> no_crc <$> blocks = no_crc <$> (g_gs G (id, day)).*1 ->
  Inv (set_byID (alter (drop_day day) id (s_byID s)) (set_calls calls (put_chunk (id, day) f (MkCs (blocks ++ [pub]) (Some w)) s))) (add_block (id, day) (pub, group) G).
Proof.
  intros HI Est Hg Hlast Hnil Hf Hb. set (s' := set_byID _ _). set (G' := add_block _ _ _).
  assert (Hgroup : forall e, e ∈ group <-> e ∈ st_head st /\ dayOf (re_Ts e) = day) by (intros e; rewrite Hg; unfold on_day; rewrite list_elem_of_filter; tauto).
  assert (Hhead : head_of s id = st_head st) by (unfold head_of; by rewrite Est).
  assert (Hknown : forall e, known G' e <-> known G e).
  { intros e. split; intros [He|[k He]]; try by left.
    - unfold G' in He. rewrite in_blocks_add in He. case_decide; [|right; by exists k]. apply elem_of_app in He as [He|He]; [right; by exists k|]. cbn [snd] in He. apply Hgroup in He as [He _]. eapply (head_known s G id); [done|by rewrite Hhead].
    - right. exists k. unfold G'. rewrite in_blocks_add. case_decide; [apply elem_of_app; by left|done]. }
  assert (Hheads : forall k, head_of s' k = if decide (k = id) then off_day day (head_of s k) else head_of s k) by (intros k; apply (head_drop (set_calls calls (put_chunk (id, day) f (MkCs (blocks ++ [pub]) (Some w)) s)))).
  assert (Hfiled : forall e, filed s' e = filed s e) by (intros e; by apply same_filed).
  destruct (iv_heads _ _ HI id st Est) as [Hsort Hh]. assert (Hnodup : NoDup (re_Seq <$> st_head st)) by by apply increasing_NoDup.
  split.
  - apply (iv_wal _ _ HI).
  - apply (iv_recs _ _ HI).
  - apply (iv_order _ _ HI).
  - apply (iv_seq _ _ HI).
  - intros e He%Hknown. rewrite Hfiled. by apply (iv_known _ _ HI).
  - intros e e' He%Hknown He'%Hknown. by apply (iv_unique _ _ HI).
  - intros k e. unfold G'. rewrite in_blocks_add, Hfiled. case_decide as Ek; [|apply (iv_place _ _ HI)]. intros [He|He]%elem_of_app; [by apply (iv_place _ _ HI)|]. subst k. cbn [snd fst] in *. apply Hgroup in He as [He Hd]. split; [by apply Hh|done].
  - intros k. unfold G'. rewrite in_blocks_add. cbn [g_gs add_block]. destruct (iv_blocks _ _ HI k) as [Hb1 Hb2]. case_decide as Ek; [|done]. subst k. cbn [snd]. split; [apply Forall_app; split; [done|by apply Forall_singleton]|].
    apply NoDup_app. split_and!; [done| |].
    + intros e He Hge. apply Hgroup in Hge as [Hge Hd]. pose proof (sealed_in _ _ _ _ HI He). destruct (Hh e Hge) as (_ & Hs & _). rewrite Hd in Hs. lia.
    + rewrite Hg. apply NoDup_filter. by eapply NoDup_fmap_1.
  - intros k. unfold s', chunk_writer. cbn [s_files s_chunks set_byID set_calls put_chunk set_chunks set_files G' add_block g_gs g_try set_try]. unfold set_try. destruct (decide (k = (id, day))) as [->|Hne].
    + rewrite !lookup_insert_eq. cbn. done.
    + rewrite !lookup_insert_ne by done. apply (iv_files _ _ HI).
  - intros k. unfold s'. cbn [s_chunks set_byID set_calls put_chunk set_chunks G' add_block g_gs]. destruct (decide (k = (id, day))) as [->|Hne]; [|rewrite lookup_insert_ne by done; apply (iv_chunks _ _ HI)].
    rewrite lookup_insert_eq. cbn [cs_blocks]. rewrite !fmap_app. f_equal. done.
  - intros k st' Est'. unfold s' in Est'. cbn [s_byID set_byID set_calls put_chunk set_chunks set_files] in Est'. unfold G'. cbn [g_sync add_block].
    destruct (decide (k = id)) as [->|Hne].
    + rewrite lookup_alter_eq, Est in Est'. injection Est' as <-. cbn [st_head st_headSeg drop_day with_head]. split.
      * by apply sorted_filter.
      * intros e [Hd He]%list_elem_of_filter. rewrite Hfiled, sealed_add. rewrite decide_False by (intros [= Hd']; by rewrite Hd' in Hd). by apply Hh.
    + rewrite lookup_alter_ne in Est' by done. destruct (iv_heads _ _ HI k st' Est') as [Hs' Hh']. split; [done|]. intros e He. rewrite Hfiled, sealed_add. rewrite decide_False by by intros [=]. by apply Hh'.
  - intros k es. unfold G'. cbn [g_try add_block]. unfold set_try. case_decide as Ek; [done|]. intros Ht. destruct (iv_try _ _ HI k es Ht) as (Hn & He0 & Hm). split; [done|]. split; [done|]. intros e. rewrite Hm, Hheads. case_decide as Eid; [|done]. unfold off_day. rewrite list_elem_of_filter. split; [|tauto].
    intros (He & Hd & Hle). split_and!; try done. rewrite Hd. intros Heq. apply Ek. destruct k as [k1 k2]. cbn in *. by subst.
  - intros id' e He. cbn [g_acked G' add_block] in He. destruct (iv_acked _ _ HI id' e He) as [Hfi Hin]. rewrite Hfiled. split; [done|]. rewrite Hheads. unfold G'. rewrite in_blocks_add. destruct Hin as [Hin|Hin]; [|right; case_decide; [apply elem_of_app; by left|done]].
    case_decide as Eid; [|by left]. subst id'. destruct (decide (dayOf (re_Ts e) = day)) as [Hd|Hd]; [|left; unfold off_day; by apply list_elem_of_filter].
    right. rewrite Hd, decide_True by done. apply elem_of_app. right. cbn [snd]. apply Hgroup. split; [by rewrite <- Hhead|done].
  - destruct (iv_catalog _ _ HI) as (? & ? & Hids). split_and!; try done. intros k. unfold s'. cbn [s_byID s_cat set_byID set_calls put_chunk set_chunks set_files]. rewrite lookup_alter_is_Some. apply Hids.
  - intros k id' Hk. unfold s'. cbn [s_byID set_byID set_calls put_chunk set_chunks set_files]. rewrite lookup_alter_is_Some. by eapply (iv_streams _ _ HI).
Qed.

(** ** One day *)

Lemma encode_last es m comp : Forall entry_ok es -> encodeBlock es = Ok (m, comp) -> bm_LastSeq m = max_seq es.
Proof.
  intros He. destruct es as [|e0 es]; [done|]. unfold encodeBlock. cbv zeta. destruct (maxBlockRaw <? _); [done|]. intros Em. apply ok_inj, pair_eq in Em as [<- _]. cbn [bm_LastSeq]. set (E := e0 :: es) in *.
  destruct (fold_max re_Seq E (re_Seq e0)) as [Hall _]. apply Z.le_antisymm.
  - apply (fold_in Z.max re_Seq (fun x => x <= max_seq E)); [intros; lia|apply max_seq_in; by left|]. apply List.Forall_forall. intros e Hin%list_elem_of_In. by apply max_seq_in.
  - apply max_seq_le; [|intros e Hin%list_elem_of_In; by apply (proj1 (List.Forall_forall _ _) Hall)]. apply (fold_in Z.max re_Seq (fun x => 0 <= x)); [intros; lia| |].
    + assert (Ho : entry_ok e0) by by inversion He. destruct Ho as (_ & Hu & _). unfold is_u64 in Hu. lia.
    + eapply List.Forall_impl; [|exact He]. intros e (_ & Hu & _). unfold is_u64 in Hu. lia.
Qed.

Lemma bloom_bytes es : Forall is_byte (default [] (buildBloom es)).
Proof.
  unfold buildBloom. destruct (mapM _ es) as [ls|]; [|constructor]. cbn [default from_option id]. apply Forall_app. split; [|apply put32_bytes]. apply Forall_cons_2; [done|]. apply filter_bits_bytes.
Qed.

(** What an operation that only moves logs leaves as it was. *)
Record framed s s' : Prop := {
  fr_opts : s_opts s' = s_opts s;
  fr_seq : s_seq s' = s_seq s;
  fr_streams : s_streams s' = s_streams s;
  fr_cat : s_cat s' = s_cat s;
  fr_closed : s_closed s' = s_closed s;
}.
#[global] Instance framed_trans : Transitive framed.
Proof. intros a b c [] []. split; congruence. Qed.
#[global] Instance framed_refl : Reflexive framed.
Proof. intros a. by split. Qed.
Lemma same_framed s s' : same s s' -> framed s s'.
Proof. intros []. by split. Qed.
(** The same logs are promised. *)
Definition promise G G' : Prop := g_acked G' = g_acked G /\ g_loose G' = g_loose G.

Lemma same_view s s' id st : same s s' -> s_byID s !! id = Some st -> exists st', s_byID s' !! id = Some st' /\ st_head st' = st_head st.
Proof. intros Hs E. pose proof (sm_heads _ _ Hs id) as Hv. rewrite E in Hv. destruct (s_byID s' !! id) as [st'|]; [|done]. exists st'. split; [done|]. cbn in Hv. unfold head_view in Hv. by injection Hv. Qed.

Lemma sealDay_inv id day group s G s' r st : Inv s G -> s_byID s !! id = Some st -> group ≡ₚ on_day day (st_head st) -> sealDay id day group s = (s', r) ->
  exists G' st', Inv s' G' /\ promise G G' /\ framed s s' /\ s_byID s' !! id = Some st'
    /\ match r with Ok _ => st_head st' = off_day day (st_head st) | Err _ => st_head st' = st_head st end
    /\ forall k, k <> id -> head_of s' k = head_of s k.
Proof.
  intros HI Est Hg. assert (Hid : exists G' st', Inv s G' /\ promise G G' /\ framed s s /\ s_byID s !! id = Some st' /\ st_head st' = st_head st /\ forall k, k <> id -> head_of s k = head_of s k) by (exists G, st; by split_and!).
  unfold sealDay. destruct (encodeBlock group) as [[meta comp]|e] eqn:Eenc; [|intros [= <- <-]; exact Hid]. clear Hid. assert (Hnil : group <> []) by (intros E0; by rewrite E0 in Eenc).
  intros [(s1 & [] & E1 & E)|(e & E1 & ->)]%bind_cases; destruct (chunkFor_inv _ _ _ _ _ _ HI E1) as (t & HI1 & Hs1 & Hw); destruct (same_view _ _ _ _ Hs1 Est) as (st1 & Est1 & Hh1).
  2:{ exists (with_try t G), st1. split_and!; try done; [by apply same_framed|]. intros k _. by apply same_head. }
  revert E. rewrite (bind_ok get _ s1 s1 s1) by done. destruct (Hw eq_refl) as [w Hw1]. unfold chunk_writer in Hw1. destruct (s_chunks s1 !! (id, day)) as [[blocks [w0|]]|] eqn:Ec; try done. cbn in Hw1. injection Hw1 as ->.
  destruct (iv_files _ _ HI1 (id, day)) as [Hf _]. unfold chunk_writer in Hf. rewrite Ec in Hf. cbn [mbind option_bind cs_w] in Hf. destruct (s_files s1 !! (id, day)) as [f|] eqn:Ef; [|by destruct Hf].
  destruct (store_call_spec s1) as (cs & oc & Ecall). rewrite (bind_ok _ _ _ _ _ Ecall). destruct (cf_append oc w f meta comp (default [] (buildBloom group))) as [[w' f'] ra] eqn:Ea.
  rewrite <- Hh1 in Hg. assert (Hok : Forall entry_ok group).
  { apply List.Forall_forall. intros e He%list_elem_of_In. rewrite Hg in He. apply list_elem_of_filter in He as [_ He]. apply (iv_known _ _ HI1). eapply (head_known s1 _ id); [done|]. unfold head_of. by rewrite Est1. }
  pose proof (cf_append_ok _ _ _ _ _ _ _ _ _ _ _ _ Hf Hok Eenc (bloom_bytes group) Ea) as Happ. pose proof (iv_chunks _ _ HI1 (id, day)) as Hb. rewrite Ec in Hb. cbn [cs_blocks] in Hb. destruct ra as [pub|e].
  - destruct Happ as [Hh Hlast]. rewrite (encode_last _ _ _ Hok Eenc) in Hlast. intros E.
    assert (Hs' : s' = set_byID (alter (drop_day day) id (s_byID s1)) (set_calls cs (put_chunk (id, day) f' (MkCs (blocks ++ [pub]) (Some w')) s1)) /\ r = Ok tt).
    { revert E. unfold on_chunk, on_stream, modify, mbind, SE_bind. cbn [s_files s_chunks s_byID set_calls set_files set_chunks]. rewrite (alter_put _ _ _ _ Ec). rewrite (alter_put _ _ _ (MkCs blocks (Some w'))) by (cbn [cs_blocks]; by rewrite lookup_insert_eq).
      cbn [cs_blocks cs_w]. rewrite insert_insert_eq. by intros [= <- <-]. }
    destruct Hs' as [-> ->]. clear E. eexists _, (drop_day day st1). split_and!; [by eapply inv_publish|done| | | |].
    + destruct (same_framed _ _ Hs1). by split.
    + cbn [s_byID set_byID]. by rewrite lookup_alter_eq, Est1.
    + cbn [st_head drop_day with_head]. by rewrite Hh1.
    + intros k Hk. rewrite <- (same_head _ _ k Hs1). unfold head_of. cbn [s_byID set_byID]. by rewrite lookup_alter_ne.
  - destruct Happ as (t' & Hh & Ht'). intros E.
    assert (Hs' : s' = set_calls cs (put_chunk (id, day) f' (MkCs blocks (Some w')) s1) /\ exists e', r = Err e').
    { revert E. unfold on_chunk, modify, mbind, SE_bind. cbn [s_files s_chunks set_calls set_files set_chunks]. rewrite (alter_put _ _ _ _ Ec). cbn [cs_blocks]. intros [= <- <-]. eauto. }
    destruct Hs' as (-> & e' & ->). clear E. eexists (with_try (set_try (id, day) t' (with_try t G)) G), st1. split_and!; try done; cycle 1.
    + destruct (same_framed _ _ Hs1). by split.
    + intros k _. by rewrite <- (same_head _ _ k Hs1).
    + apply (inv_put s1 (with_try t G) (id, day) f' (MkCs blocks (Some w')) cs t'); [done|done|done|done|]. intros es ->. destruct Ht' as [|[= <-]]; [done|]. split; [|split; [done|]].
      * rewrite Hg. apply NoDup_filter. eapply NoDup_fmap_1, increasing_NoDup, (iv_heads _ _ HI1 id st1 Est1).
      * intros e0. cbn [fst snd]. unfold head_of. rewrite Est1. rewrite Hg at 1. unfold on_day. rewrite list_elem_of_filter. split; [intros [Hd He]; split_and!; try done; apply max_seq_in; rewrite Hg; by apply list_elem_of_filter|tauto].
Qed.

(** ** All days of a head *)

Lemma on_day_cons d e es : on_day d (e :: es) = if decide (dayOf (re_Ts e) = d) then e :: on_day d es else on_day d es.
Proof. unfold on_day. by rewrite filter_cons. Qed.

Lemma day_groups_spec es : StronglySorted (fun a b => re_Ts a <= re_Ts b) es ->
  StronglySorted Z.lt (day_groups es).*1 /\ (forall e, e ∈ es -> dayOf (re_Ts e) ∈ (day_groups es).*1) /\ forall d g, (d, g) ∈ day_groups es -> g = on_day d es /\ exists e, e ∈ es /\ dayOf (re_Ts e) = d.
Proof.
  induction 1 as [|e es _ IH Hf]; [split; [constructor|split; [intros e He|intros d g Hg]; by apply not_elem_of_nil in He || by apply not_elem_of_nil in Hg]|].
  destruct IH as (Hsort & Hday & Hgrp). assert (Hge : forall d, d ∈ (day_groups es).*1 -> dayOf (re_Ts e) <= d).
  { intros d ((d', g) & -> & Hg)%list_elem_of_fmap. destruct (Hgrp _ _ Hg) as (_ & x & Hx & <-). rewrite List.Forall_forall in Hf. apply list_elem_of_In, Hf in Hx. unfold dayOf, dayMs. cbn [fst]. by apply Z.div_le_mono. }
  cbn [day_groups]. destruct (day_groups es) as [|[d g] rest] eqn:Eg.
  - assert (es = []) as -> by (destruct es as [|x es]; [done|]; specialize (Hday x ltac:(by left)); by apply not_elem_of_nil in Hday). cbn [fmap list_fmap fst]. split; [repeat constructor|]. split; [intros x ->%list_elem_of_singleton; by left|].
    intros d g [= -> ->]%list_elem_of_singleton. rewrite on_day_cons, decide_True by done. split; [done|]. exists e. split; [by left|done].
  - rewrite fmap_cons in Hsort, Hday, Hge. cbn [fst] in *. apply StronglySorted_inv in Hsort as Hs2. destruct Hs2 as [Hrest Hlt]. rewrite List.Forall_forall in Hlt. destruct (Z.eqb_spec d (dayOf (re_Ts e))) as [Ed|Ed].
    + rewrite fmap_cons. cbn [fst]. split; [done|]. split; [intros x [->|Hx]%elem_of_cons; [rewrite Ed; by left|by apply Hday]|]. intros d' g' [[= -> ->]|Hg]%elem_of_cons.
      * destruct (Hgrp d g ltac:(by left)) as [-> _]. rewrite on_day_cons, decide_True by done. split; [done|]. exists e. split; [by left|done].
      * destruct (Hgrp d' g' ltac:(by right)) as (-> & x & Hx & Hd). rewrite on_day_cons, decide_False; [split; [done|]; exists x; split; [by right|done]|]. rewrite <- Ed. intros ->. assert (d' ∈ rest.*1) as Hin by (apply list_elem_of_fmap; by exists (d', on_day d' es)). apply list_elem_of_In, Hlt in Hin. lia.
    + assert (dayOf (re_Ts e) < d) by (specialize (Hge d ltac:(by left)); lia). assert (Hbig : forall d', d' ∈ d :: rest.*1 -> dayOf (re_Ts e) < d') by (intros d' [->|Hd]%elem_of_cons; [done|]; apply list_elem_of_In, Hlt in Hd; lia).
      rewrite !fmap_cons. cbn [fst]. split; [constructor; [done|]; apply List.Forall_forall; intros d' Hd%list_elem_of_In; by apply Hbig|]. split; [intros x [->|Hx]%elem_of_cons; [by left|right; by apply Hday]|].
      intros d' g' [[= -> ->]|Hg]%elem_of_cons.
      * rewrite on_day_cons, decide_True by done. split; [|exists e; split; [by left|done]]. f_equal. symmetry. apply filter_none. intros x Hx Hd. apply Hday, Hbig in Hx. lia.
      * destruct (Hgrp d' g' Hg) as (-> & x & Hx & Hd). rewrite on_day_cons, decide_False; [split; [done|]; exists x; split; [by right|done]|]. apply Hday, Hbig in Hx. lia.
Qed.

Lemma on_off_day d d' es : d <> d' -> on_day d (off_day d' es) = on_day d es.
Proof.
  intros Hne. unfold on_day, off_day. rewrite list_filter_filter. apply list_filter_iff. intros e. split; [tauto|]. intros ->. by split.
Qed.

Lemma seal_days_inv id groups : forall s G s' r st, Inv s G -> s_byID s !! id = Some st -> NoDup groups.*1 -> (forall d g, (d, g) ∈ groups -> g ≡ₚ on_day d (st_head st)) -> seal_days id groups s = (s', r) ->
  exists G' st', Inv s' G' /\ promise G G' /\ framed s s' /\ s_byID s' !! id = Some st' /\ (forall k, k <> id -> head_of s' k = head_of s k)
    /\ st_head st' ⊆ st_head st /\ (r = Ok tt -> forall e, e ∈ st_head st' -> dayOf (re_Ts e) ∉ groups.*1).
Proof.
  induction groups as [|[d g] groups IH]; intros s G s' r st HI Est Hnd Hgs; cbn [seal_days].
  - intros [= <- <-]. exists G, st. split_and!; try done. intros _ e _ Hin. by apply not_elem_of_nil in Hin.
  - rewrite fmap_cons in Hnd. cbn [fst] in Hnd. apply NoDup_cons in Hnd as [Hd Hnd]. intros [(s1 & [] & E1 & E)|(e & E1 & ->)]%bind_cases; destruct (sealDay_inv _ _ _ _ _ _ _ _ HI Est (Hgs d g ltac:(by left)) E1) as (G1 & st1 & HI1 & Hp1 & Hf1 & Est1 & Hh1 & Hk1).
    2:{ exists G1, st1. rewrite Hh1. by split_and!. }
    assert (Hgs1 : forall d' g', (d', g') ∈ groups -> g' ≡ₚ on_day d' (st_head st1)) by (intros d' g' Hin; rewrite Hh1, on_off_day; [apply Hgs; by right|]; intros ->; apply Hd; apply list_elem_of_fmap; by exists (d, g')).
    destruct (IH _ _ _ _ _ HI1 Est1 Hnd Hgs1 E) as (G2 & st2 & HI2 & Hp2 & Hf2 & Est2 & Hk2 & Hsub & Hok).
    exists G2, st2. split_and!; try done.
    + destruct Hp1, Hp2. split; congruence.
    + by etransitivity.
    + intros k Hk. by rewrite Hk2, Hk1.
    + intros e He. apply Hsub in He. rewrite Hh1 in He. by apply list_elem_of_filter in He as [_ He].
    + intros -> e He. rewrite fmap_cons. cbn [fst]. intros [Hde|Hin]%elem_of_cons; [|by apply (Hok eq_refl e He)]. apply Hsub in He. rewrite Hh1 in He. by apply list_elem_of_filter in He as [He _].
Qed.

(** ** Cutting the log *)

Lemma wal_es_filter cut gs : wal_es (filter (fun g => (cut <= wr_seg g)%nat) gs) = filter (fun x => (cut <= x.1)%nat) (wal_es gs).
Proof.
  unfold wal_es. induction gs as [|g gs IH]; [done|]. rewrite filter_cons, bind_cons, filter_app. case_decide as Hc.
  - rewrite bind_cons, IH. f_equal. symmetry. apply filter_all. intros x (y & -> & _)%list_elem_of_fmap. done.
  - rewrite IH. rewrite (filter_none _ (wrec_es g)); [done|]. intros x (y & -> & _)%list_elem_of_fmap. done.
Qed.
Lemma to_rec_filter cut (gs : list wrec) : filter (fun x : nat * Record_ => (cut <= x.1)%nat) (to_rec <$> gs) = to_rec <$> filter (fun g => (cut <= wr_seg g)%nat) gs.
Proof. induction gs as [|g gs IH]; [done|]. rewrite fmap_cons, !filter_cons. cbn [to_rec fst]. case_decide; [rewrite fmap_cons|]; by rewrite IH. Qed.

Lemma safe_spec s : (safe_segment s <= wal_Segment (s_wal s))%nat /\ forall id st, s_byID s !! id = Some st -> st_head st <> [] -> (safe_segment s <= st_headSeg st)%nat.
Proof.
  unfold safe_segment. assert (Hall : forall sts n, let r := foldr (fun st safe => match st_head st with [] => safe | _ => (safe `min` st_headSeg st)%nat end) n sts in (r <= n)%nat /\ forall st, st ∈ sts -> st_head st <> [] -> (r <= st_headSeg st)%nat).
  { induction sts as [|x sts IH]; intros n; cbn [foldr]; [split; [done|intros st Hs; by apply not_elem_of_nil in Hs]|]. destruct (IH n) as [IH1 IH2]. split.
    - destruct (st_head x); [done|]. lia.
    - intros st [->|Hs]%elem_of_cons Hne; [destruct (st_head x); [done|lia]|]. specialize (IH2 st Hs Hne). destruct (st_head x); [done|lia]. }
  destruct (Hall (map_to_list (s_byID s)).*2 (wal_Segment (s_wal s))) as [Hseg Hst]. split; [exact Hseg|]. intros id st E Hne. apply Hst; [|done]. apply list_elem_of_fmap. exists (id, st). split; [done|]. by apply elem_of_map_to_list.
Qed.

Definition cut_ghost (cut : nat) G : ghost :=
  MkG (filter (fun g => (cut <= wr_seg g)%nat) (g_sync G)) (filter (fun g => (cut <= wr_seg g)%nat) (g_tail G)) (g_gs G) (g_try G) (g_acked G) (g_loose G).

Lemma truncateWAL_inv s G s' r : Inv s G -> truncateWAL s = (s', r) -> exists G', Inv s' G' /\ promise G G' /\ framed s s' /\ s_byID s' = s_byID s.
Proof.
  intros HI. unfold truncateWAL, on_wal. rewrite (bind_ok get _ s s s) by done. destruct (wal_Truncate (safe_segment s) (s_wal s)) as [w' rw] eqn:Ew. intros [= <- _]. destruct (safe_spec s) as [Hsafe Hheads].
  destruct (wal_Truncate_ok _ _ _ _ _ _ (iv_wal _ _ HI) Hsafe Ew) as (cut & Hcut & Hk). rewrite !to_rec_filter in Hk. exists (cut_ghost cut G). split_and!; try done.
  assert (Hes : wal_es (g_sync (cut_ghost cut G) ++ g_tail (cut_ghost cut G)) = filter (fun x => (cut <= x.1)%nat) (wal_es (g_sync G ++ g_tail G))) by (cbn [g_sync g_tail cut_ghost]; by rewrite <- filter_app, wal_es_filter).
  assert (Hknown : forall e, known (cut_ghost cut G) e -> known G e).
  { intros e [He|He]; [left|by right]. rewrite Hes in He. apply list_elem_of_fmap in He as (x & -> & Hx). apply list_elem_of_filter in Hx as [_ Hx]. apply list_elem_of_fmap. by exists x. }
  assert (Hfiled : forall e, filed (set_wal w' s) e = filed s e) by (intros e; by apply same_filed). split.
  - exact Hk.
  - cbn [g_sync g_tail cut_ghost]. rewrite <- filter_app. apply List.Forall_forall. intros g Hg%list_elem_of_In. apply list_elem_of_filter in Hg as [_ Hg]. apply list_elem_of_In in Hg. by apply (proj1 (List.Forall_forall _ _) (iv_recs _ _ HI)).
  - rewrite Hes. rewrite <- list_fmap_compose. apply sorted_filter. rewrite list_fmap_compose. apply (iv_order _ _ HI).
  - apply (iv_seq _ _ HI).
  - intros e He%Hknown. rewrite Hfiled. by apply (iv_known _ _ HI).
  - intros e e' He%Hknown He'%Hknown. by apply (iv_unique _ _ HI).
  - intros key e He. rewrite Hfiled. by apply (iv_place _ _ HI).
  - apply (iv_blocks _ _ HI).
  - apply (iv_files _ _ HI).
  - apply (iv_chunks _ _ HI).
  - intros id st Est. destruct (iv_heads _ _ HI id st Est) as [Hs Hh]. split; [done|]. intros e He. rewrite Hfiled. destruct (Hh e He) as (? & ? & seg & Hw & Hle). split_and!; try done. exists seg. split; [|done]. cbn [g_sync cut_ghost]. rewrite wal_es_filter. apply list_elem_of_filter. split; [|done]. cbn [fst].
    assert (st_head st <> []) by (intros E; rewrite E in He; by apply not_elem_of_nil in He). specialize (Hheads id st Est ltac:(done)). lia.
  - apply (iv_try _ _ HI).
  - intros id e He. rewrite Hfiled. by apply (iv_acked _ _ HI).
  - apply (iv_catalog _ _ HI).
  - apply (iv_streams _ _ HI).
Qed.

(** ** Whole heads *)

Lemma head_distinct s G id st : Inv s G -> s_byID s !! id = Some st -> distinct (st_head st).
Proof.
  intros HI Est. destruct (iv_heads _ _ HI id st Est) as [Hs _]. apply increasing_NoDup in Hs. unfold distinct. apply (NoDup_fmap_1 ck_seq). rewrite <- list_fmap_compose. exact Hs.
Qed.

Lemma seal_stream_inv id s G s' r : Inv s G -> seal id s = (s', r) ->
  exists G', Inv s' G' /\ promise G G' /\ framed s s' /\ (forall k, k <> id -> head_of s' k = head_of s k) /\ (r = Ok tt -> head_of s' id = []).
Proof.
  intros HI. unfold seal. rewrite (bind_ok get _ s s s) by done. destruct (s_byID s !! id) as [st|] eqn:Est; [|intros [= <- <-]; exists G; split_and!; try done; unfold head_of; by rewrite Est].
  destruct (st_head st) as [|e0 es] eqn:Eh; [intros [= <- <-]; exists G; split_and!; try done; unfold head_of; by rewrite Est|]. rewrite <- Eh. set (sorted_head := SliceStable less (st_head st)).
  assert (Hs : StronglySorted (fun a b => re_Ts a <= re_Ts b) sorted_head).
  { pose proof (sort_sorted false (st_head st) (head_distinct _ _ _ _ HI Est)) as Hsort. change (SliceStable (order_less false) (st_head st)) with sorted_head in Hsort. revert Hsort. generalize sorted_head. intros l. induction 1 as [|x l _ IH Hf]; constructor; [done|].
    eapply List.Forall_impl; [|exact Hf]. intros y Hy%precedes_spec. lia. }
  destruct (day_groups_spec _ Hs) as (Hdays & Hin & Hgrp). assert (Hperm : sorted_head ≡ₚ st_head st) by apply sort_perm.
  assert (Hgs : forall d g, (d, g) ∈ day_groups sorted_head -> g ≡ₚ on_day d (st_head st)) by (intros d g Hg; destruct (Hgrp d g Hg) as [-> _]; unfold on_day; by rewrite Hperm).
  intros [(s1 & [] & E1 & E)|(e & E1 & ->)]%bind_cases; destruct (seal_days_inv _ _ _ _ _ _ _ HI Est (increasing_NoDup _ Hdays) Hgs E1) as (G1 & st1 & HI1 & Hp1 & Hf1 & Est1 & Hk1 & Hsub & Hok); [|by exists G1; split_and!].
  destruct (truncateWAL_inv _ _ _ _ HI1 E) as (G2 & HI2 & Hp2 & Hf2 & Eb). exists G2. split_and!; [done|destruct Hp1, Hp2; split; congruence|by etransitivity| |].
  - intros k Hk. rewrite <- (Hk1 k Hk). unfold head_of. by rewrite Eb.
  - intros _. unfold head_of. rewrite Eb, Est1. destruct (st_head st1) as [|e rest] eqn:Eh1; [done|]. exfalso. apply (Hok eq_refl e); [by left|]. apply Hin. rewrite Hperm. apply Hsub. by left.
Qed.

Lemma seal_each_inv ids : forall s G s' r, Inv s G -> seal_each ids s = (s', r) ->
  exists G' es, Inv s' G' /\ promise G G' /\ framed s s' /\ r = Ok es /\ (es = [] -> forall id, id ∈ ids -> head_of s' id = []) /\ forall id, head_of s id = [] -> head_of s' id = [].
Proof.
  induction ids as [|id ids IH]; intros s G s' r HI; cbn [seal_each].
  - intros [= <- <-]. exists G, []. split_and!; try done. intros _ id Hid. by apply not_elem_of_nil in Hid.
  - unfold try_, mbind at 1, SE_bind at 1. destruct (seal id s) as [s1 r1] eqn:E1. cbn [fst snd]. destruct (seal_stream_inv _ _ _ _ _ HI E1) as (G1 & HI1 & Hp1 & Hf1 & Hk1 & Hok1).
    intros [(s2 & es & E2 & E)|(e & E2 & ->)]%bind_cases; destruct (IH _ _ _ _ HI1 E2) as (G2 & es' & HI2 & Hp2 & Hf2 & Er & Hok2 & Hkeep2); [|done]. injection Er as ->. injection E as <- <-.
    exists G2, (match r1 with Ok _ => es' | Err e => e :: es' end). split_and!; [done|destruct Hp1, Hp2; split; congruence|by etransitivity|done| |].
    + destruct r1 as [[]|]; [|done]. intros -> k [->|Hk]%elem_of_cons; [|by apply Hok2]. by apply Hkeep2, Hok1.
    + intros k Hk. apply Hkeep2. destruct (decide (k = id)) as [->|Hne]; [|by rewrite Hk1]. 
      revert E1. unfold seal. rewrite (bind_ok get _ s s s) by done. unfold head_of in Hk. destruct (s_byID s !! id) as [st|] eqn:Est; [rewrite Hk|]; intros [= <- _]; unfold head_of; by rewrite Est.
Qed.
End Seal.
