(* ===== verification/LogStoreRecover.v ===== *)
(** * Appending keeps the invariant, recovery rebuilds it

    An append files each log under its stream, logs the batch and adds it to the heads. After a crash the store is opened from what is on disk: every log of the write-ahead log that no
    block holds is in its stream's head again, and nothing else is. *)

From Stdlib Require Import ZArith Lia.
From Stdlib Require Import (notations) String.
From stdpp Require Import base gmap numbers list sorting.
From S2P Require Import Prelude Wal WalProofs WalSafety Gostring Names HeadRecord BlockFile BlockIndex Utf8 Logql LogBloom LogChunk LogChunkProofs LogSearch LogSearchOrder LogStore LogStoreInv LogStoreSeal.

(** * Appending keeps the invariant

    Filing a log under its stream, logging a batch, and adding it to the heads. *)

(** ** Keys *)

Lemma split_sep (a b x y : gostring) : 31 ∉ a -> 31 ∉ b -> a ++ 31 :: x = b ++ 31 :: y -> a = b /\ x = y.
Proof.
  revert b. induction a as [|c a IH]; intros [|d b] Ha Hb; cbn [app].
  - by intros [= <-].
  - intros [= <- _]. exfalso. apply Hb. by left.
  - intros [= -> _]. exfalso. apply Ha. by left.
  - intros [= <- E]. apply not_elem_of_cons in Ha as [_ Ha], Hb as [_ Hb]. by destruct (IH b Ha Hb E) as [-> ->].
Qed.

Lemma labels_five l : exists env, labelsOf l = [l_Service l; l_Source l; l_Host l; env; l_Status l].
Proof. exists (LabelValue l (str "env")). vm_compute. reflexivity. Qed.

(** Clean labels that read as overflow labels are overflow labels. *)
Lemma fold_key l ls : clean_labels l -> length ls = 5%nat -> label_key (labelsOf l) = label_key (fold_labels ls) -> fold_labels (labelsOf l) = labelsOf l.
Proof.
  intros (H1 & H2 & H3) Hlen. destruct (labels_five l) as (env & ->). destruct ls as [|a [|b [|c [|d [|e [|]]]]]]; try done. unfold fold_labels. cbn [drop replicate app label_key Join].
  assert (Ho : 31 ∉ OverflowLabel) by (apply (bool_decide_unpack _); vm_compute; exact I).
  intros E. apply split_sep in E as [-> E]; [|done..]. apply split_sep in E as [-> E]; [|done..]. apply split_sep in E as [-> E]; [|done..]. done.
Qed.

Lemma sorted_app_lt (a b : list Z) : StronglySorted Z.lt a -> StronglySorted Z.lt b -> (forall x y, x ∈ a -> y ∈ b -> x < y) -> StronglySorted Z.lt (a ++ b).
Proof.
  intros Ha Hb. induction Ha as [|x a Ha IH Hf]; intros Hlt; [done|]. cbn [app]. constructor; [apply IH; intros; apply Hlt; [by right|done]|]. apply Forall_app. split; [done|]. apply List.Forall_forall. intros y Hy%list_elem_of_In. apply Hlt; [by left|done].
Qed.

Section Append.
Context `{LogCodec} `{CaseMap} `{Zstd} {W D F C : Type} `{StoreWal W D} `{ChunkFiles F C} `{!StoreWalLaws W D} `{!ChunkFilesLaws F C}.
Abbreviation Store := (@Store W F C).
Implicit Types (s : Store) (G : ghost).

(** ** Streams *)

Lemma load_snoc rows r : load_streams (rows ++ [r]) = (<[label_key r.2 := r.1]> (load_streams rows).1, <[r.1 := MkSt r.1 r.2 [] 0 0 0 None]> (load_streams rows).2).
Proof. unfold load_streams. by rewrite foldl_app. Qed.
Lemma load_ids rows : forall id, is_Some ((load_streams rows).2 !! id) <-> id ∈ rows.*1.
Proof.
  induction rows as [|r rows IH] using rev_ind; intros id; [split; [by intros []|intros Hin; by apply not_elem_of_nil in Hin]|]. rewrite load_snoc, fmap_app, elem_of_app. cbn [snd fst fmap list_fmap]. rewrite list_elem_of_singleton, lookup_insert_is_Some, <- IH. destruct (decide (r.1 = id)) as [->|]; naive_solver.
Qed.
Lemma load_known rows k id : (load_streams rows).1 !! k = Some id -> is_Some ((load_streams rows).2 !! id).
Proof.
  induction rows as [|r rows IH] using rev_ind; [done|]. rewrite load_snoc. cbn [fst snd]. intros Hk. apply lookup_insert_is_Some. apply lookup_insert_Some in Hk as [[_ <-]|[_ Hk]]; [by left|]. destruct (decide (r.1 = id)); [by left|right; split; [done|by apply IH]].
Qed.

(** The store has grown by streams, and every log stays filed where it was. *)
Record grown s s' : Prop := {
  gr_opts : s_opts s' = s_opts s;
  gr_seq : s_seq s' = s_seq s;
  gr_wal : s_wal s' = s_wal s;
  gr_closed : s_closed s' = s_closed s;
  gr_filed : forall e id, loggable e -> filed s e = Some id -> filed s' e = Some id;
  gr_head : forall k, head_of s' k = head_of s k;
}.
#[global] Instance grown_trans : Transitive grown.
Proof. intros a b c [] []. split; try congruence; eauto. Qed.
#[global] Instance grown_refl : Reflexive grown.
Proof. intros a. by split. Qed.

Lemma same_grown s s' : same s s' -> grown s s'.
Proof.
  intros Hs. destruct (same_framed _ _ Hs). split; try done; [apply (sm_wal _ _ Hs)| |intros k; by apply same_head]. intros e id _. by rewrite (same_filed s s').
Qed.

Lemma inv_create s G ls id cat l : Inv s G -> cat_create ls (s_cat s) = Some (id, cat) -> length ls = 5%nat -> s_streams s !! label_key ls = None ->
  (Z.of_nat (size (s_streams s)) < so_MaxStreams (s_opts s) \/ ls = fold_labels (labelsOf l)) ->
  Inv (new_stream id ls cat s) G /\ grown s (new_stream id ls cat s).
Proof.
  intros HI Ecat Hlen Hnone Hwhy. destruct (iv_catalog _ _ HI) as (Hco & Hst & Hids). destruct (catalog_create _ _ _ _ Hco Hlen Ecat) as (Hrows & Hco' & Hfresh). set (s' := new_stream id ls cat s).
  assert (Hnew : s_byID s !! id = None).
  { destruct (s_byID s !! id) eqn:E; [|done]. exfalso. assert (Hin : is_Some (s_byID s !! id)) by (rewrite E; by eexists). apply Hids, load_ids in Hin. apply list_elem_of_fmap in Hin as ([id' ls'] & -> & Hin). unfold cat_streams in Hin. apply list_elem_of_fmap in Hin as ([id'' key] & [= -> _] & Hin). apply (co_last _ Hco) in Hin. cbn in Hfresh. lia. }
  assert (Hhead : forall k, head_of s' k = head_of s k).
  { intros k. unfold head_of, s'. cbn [s_byID new_stream]. destruct (decide (k = id)) as [->|Hne]; [by rewrite lookup_insert_eq, Hnew|by rewrite lookup_insert_ne]. }
  assert (Hfiled : forall e k, loggable e -> filed s e = Some k -> filed s' e = Some k).
  { intros e k (l' & Hl' & _ & Hclean). unfold filed, s'. rewrite Hl'. cbn [s_streams s_opts new_stream]. set (key := label_key ls) in *. destruct (s_streams s !! label_key (labelsOf l')) as [k0|] eqn:Eown.
    - intros [= ->]. rewrite lookup_insert_ne by congruence. by rewrite Eown.
    - destruct (Z.leb_spec (so_MaxStreams (s_opts s)) (Z.of_nat (size (s_streams s)))) as [Hfull|]; [|done]. intros Ef. destruct Hwhy as [|Hls]; [lia|]. assert (Hne : key <> label_key (labelsOf l')).
      { intros Ekey. assert (Hlen0 : length (labelsOf l) = 5%nat) by (destruct (labels_five l) as (env & ->); done). rewrite (fold_key l' (labelsOf l)) in Ef; [congruence|done|done|]. rewrite <- Hls. unfold key in Ekey. congruence. }
      rewrite lookup_insert_ne by done. rewrite Eown. rewrite map_size_insert_None by done. rewrite (proj2 (Z.leb_le _ _)) by lia. rewrite lookup_insert_ne by congruence. done. }
  assert (Hfiled' : forall e, known G e -> filed s' e = filed s e).
  { intros e He. destruct (iv_known _ _ HI e He) as (_ & _ & Hl & [k Hk] & _). rewrite Hk. by apply Hfiled. }
  split; [|split; done]. split.
  - apply (iv_wal _ _ HI).
  - apply (iv_recs _ _ HI).
  - apply (iv_order _ _ HI).
  - apply (iv_seq _ _ HI).
  - intros e He. rewrite Hfiled' by done. by apply (iv_known _ _ HI).
  - apply (iv_unique _ _ HI).
  - intros key e He. rewrite Hfiled' by (right; by exists key). by apply (iv_place _ _ HI).
  - apply (iv_blocks _ _ HI).
  - apply (iv_files _ _ HI).
  - apply (iv_chunks _ _ HI).
  - intros k st. unfold s'. cbn [s_byID new_stream]. destruct (decide (k = id)) as [->|Hne].
    + rewrite lookup_insert_eq. intros [= <-]. cbn. split; [constructor|]. intros e He. by apply not_elem_of_nil in He.
    + rewrite lookup_insert_ne by done. intros Est. destruct (iv_heads _ _ HI k st Est) as [Hs Hh]. split; [done|]. intros e He. rewrite Hfiled'; [by apply Hh|]. eapply (head_known s G k); [done|]. unfold head_of. by rewrite Est.
  - intros key es Ht. destruct (iv_try _ _ HI key es Ht) as (Hn & He0 & Hm). split; [done|]. split; [done|]. intros e. by rewrite Hhead.
  - intros k e He. destruct (iv_acked _ _ HI k e He) as [Hfi Hin]. rewrite Hhead. split; [|done]. rewrite Hfiled'; [done|]. destruct Hin as [Hin|Hin]; [by eapply head_known|right; by eexists].
  - cbn [s_cat s_streams s_byID new_stream s']. rewrite Hrows, load_snoc. cbn [fst snd]. split_and!; [done|by rewrite Hst|]. intros k. rewrite !lookup_insert_is_Some, Hids. done.
  - intros k id'. unfold s'. cbn [s_streams s_byID new_stream]. intros Hk. apply lookup_insert_is_Some. apply lookup_insert_Some in Hk as [[_ <-]|[_ Hk]]; [by left|]. destruct (decide (id = id')); [by left|right; split; [done|]]. by eapply (iv_streams _ _ HI).
Qed.

Lemma create_stream_inv s G ls l s' r : Inv s G -> length ls = 5%nat -> s_streams s !! label_key ls = None ->
  (Z.of_nat (size (s_streams s)) < so_MaxStreams (s_opts s) \/ ls = fold_labels (labelsOf l)) -> create_stream ls s = (s', r) ->
  Inv s' G /\ grown s s' /\ forall id, r = Ok id -> s_streams s' !! label_key ls = Some id.
Proof.
  intros HI Hlen Hnone Hwhy. unfold create_stream. destruct (call_ok_spec s SErrCatalog) as (cs & rc & Ec). unfold mbind at 1, SE_bind at 1. rewrite Ec. assert (Hs : same s (set_calls cs s)) by by split. assert (HI1 : Inv (set_calls cs s) G) by by eapply inv_same.
  destruct rc as [[]|e]; [|intros [= <- <-]; split_and!; [done|by apply same_grown|done]]. rewrite (bind_ok get _ (set_calls cs s) (set_calls cs s) (set_calls cs s)) by done. cbn [s_cat set_calls].
  destruct (cat_create ls (s_cat s)) as [[id cat]|] eqn:Ecat; [|intros [= <- <-]; split_and!; [done|by apply same_grown|done]]. unfold modify, mbind, SE_bind. intros [= <- <-].
  destruct (inv_create (set_calls cs s) G ls id cat l HI1 Ecat Hlen Hnone Hwhy) as [HI2 Hg]. split_and!; [done|etransitivity; [by apply same_grown|done]|]. intros id' [= <-]. cbn [s_streams new_stream]. by rewrite lookup_insert_eq.
Qed.

Lemma filed_log s l e : decodeLog (re_Body e) = Some l -> filed s e =
  match s_streams s !! label_key (labelsOf l) with
  | Some id => Some id
  | None => if so_MaxStreams (s_opts s) <=? Z.of_nat (size (s_streams s)) then s_streams s !! label_key (fold_labels (labelsOf l)) else None
  end.
Proof. unfold filed. by intros ->. Qed.

Lemma streamFor_inv s G l s' r : Inv s G -> streamFor l s = (s', r) ->
  Inv s' G /\ grown s s' /\ forall id e, r = Ok id -> decodeLog (re_Body e) = Some l -> clean_labels l -> filed s' e = Some id.
Proof.
  intros HI. unfold streamFor. rewrite (bind_ok get _ s s s) by done. destruct (s_streams s !! label_key (labelsOf l)) as [id|] eqn:Eown.
  { intros [= <- <-]. split_and!; try done. intros id' e [= <-] Hl _. by rewrite (filed_log s l e Hl), Eown. }
  destruct (Z.leb_spec (so_MaxStreams (s_opts s)) (Z.of_nat (size (s_streams s)))) as [Hfull|Hroom].
  - unfold modify, mbind, SE_bind. assert (Hs : same s (add_folded s)) by by split. assert (HI1 : Inv (add_folded s) G) by by eapply inv_same.
    destruct (s_streams s !! label_key (fold_labels (labelsOf l))) as [id|] eqn:Ef.
    { intros [= <- <-]. split_and!; [done|by apply same_grown|]. intros id' e [= <-] Hl _. rewrite (filed_log _ l e Hl). cbn [s_streams s_opts add_folded]. rewrite Eown, (proj2 (Z.leb_le _ _)) by done. done. }
    intros Ec. assert (Hlen : length (fold_labels (labelsOf l)) = 5%nat) by (destruct (labels_five l) as (env & ->); done). destruct (create_stream_inv (add_folded s) G _ l _ _ HI1 Hlen Ef (or_intror eq_refl) Ec) as (HI2 & Hg & Hkey).
    split_and!; [done|etransitivity; [by apply same_grown|done]|]. intros id e -> Hl Hclean. specialize (Hkey id eq_refl). rewrite (filed_log _ l e Hl). destruct (s_streams s' !! label_key (labelsOf l)) as [id'|] eqn:Eown'.
    + (* the new stream's key is the log's own: the labels were overflow labels already *)
      assert (Hk : label_key (labelsOf l) = label_key (fold_labels (labelsOf l))); [|congruence]. destruct (decide (label_key (labelsOf l) = label_key (fold_labels (labelsOf l)))) as [|Hne]; [done|]. exfalso.
      revert Ec. unfold create_stream. destruct (call_ok_spec (add_folded s) SErrCatalog) as (cs & rc & Ec). unfold mbind, SE_bind. rewrite Ec. destruct rc as [[]|]; [|done]. unfold get, modify. cbn [s_cat set_calls add_folded]. destruct (cat_create _ _) as [[i c]|]; [|done].
      intros [= <- _]. cbn [s_streams new_stream set_calls add_folded] in Eown'. rewrite lookup_insert_ne in Eown' by congruence. congruence.
    + rewrite (proj2 (Z.leb_le _ _)); [done|]. rewrite (gr_opts _ _ Hg). cbn [s_opts add_folded]. revert Ec. unfold create_stream. destruct (call_ok_spec (add_folded s) SErrCatalog) as (cs & rc & Ec). unfold mbind, SE_bind. rewrite Ec. destruct rc as [[]|]; [|done]. unfold get, modify. cbn [s_cat set_calls add_folded]. destruct (cat_create _ _) as [[i c]|]; [|done].
      intros [= <- _]. cbn [s_streams new_stream set_calls add_folded]. rewrite map_size_insert_None by done. lia.
  - intros Ec. assert (Hlen : length (labelsOf l) = 5%nat) by (destruct (labels_five l) as (env & ->); done). destruct (create_stream_inv s G _ l _ _ HI Hlen Eown (or_introl Hroom) Ec) as (HI2 & Hg & Hkey). split_and!; try done. intros id e -> Hl _. by rewrite (filed_log _ l e Hl), (Hkey id eq_refl).
Qed.

(** ** Logging a batch *)

(** A log the codec and the wire format admit. *)
Record storable (l : Log) : Prop := {
  sb_decodes : decodeLog (encodeLog l) = Some l;
  sb_bytes : Forall is_byte (encodeLog l);
  sb_some : encodeLog l <> [];
  sb_len : int_len (encodeLog l);
  sb_ts : is_i64 (l_Ts l);
  sb_labels : clean_labels l;
}.

Definition batch_entries (base : Z) (batch : list Log) : list rawEntry := raw_entry <$> numbered base (encodeLog <$> batch).

Lemma numbered_in base bodies x : x ∈ numbered base bodies <-> exists i, bodies !! i = Some x.2 /\ x.1 = base + Z.of_nat i.
Proof.
  unfold numbered. rewrite elem_of_lookup_imap. split; [intros (i & b & -> & Hb); by exists i|]. intros (i & Hb & Hx). exists i, x.2. destruct x; cbn in *; subst. done.
Qed.
Lemma batch_entry base batch e : e ∈ batch_entries base batch -> exists i l, batch !! i = Some l /\ e = MkRaw (ts_of (encodeLog l)) (base + Z.of_nat i) (encodeLog l).
Proof.
  intros (x & -> & (i & Hb & Hx)%numbered_in)%list_elem_of_fmap. rewrite list_lookup_fmap in Hb. destruct (batch !! i) as [l|] eqn:El; [|done]. cbn in Hb. injection Hb as Hb. exists i, l. split; [done|]. unfold raw_entry. by rewrite <- Hb, Hx.
Qed.
Lemma batch_seqs base batch : re_Seq <$> batch_entries base batch = imap (fun i _ => base + Z.of_nat i) batch.
Proof. unfold batch_entries, numbered. rewrite imap_fmap, !fmap_imap. done. Qed.
Lemma imap_increasing {A} (l : list A) : forall base, StronglySorted Z.lt (imap (fun i _ => base + Z.of_nat i) l).
Proof.
  induction l as [|x l IH]; intros base; [constructor|]. rewrite imap_cons. assert (E : imap ((fun i _ => base + Z.of_nat i) ∘ S) l = imap (fun i _ => (base + 1) + Z.of_nat i) l) by (apply imap_ext; intros; cbn; lia). rewrite E. constructor; [apply IH|].
  apply List.Forall_forall. intros y Hy%list_elem_of_In. apply elem_of_lookup_imap in Hy as (i & b & -> & _). lia.
Qed.

Definition log_batch (split : list wrec) (es : list rawEntry) G : ghost := MkG (g_sync G) (g_tail G ++ split) (g_gs G) (g_try G) (g_acked G) (g_loose G ++ es).

Lemma wal_es_app a b : wal_es (a ++ b) = wal_es a ++ wal_es b.
Proof. unfold wal_es. apply bind_app. Qed.
Lemma split_es fuel seg base bodies : (length bodies <= fuel)%nat -> 0 <= base -> base + ulen bodies <= 2 ^ 64 ->
  wal_es (split_batch fuel seg base bodies) = (fun x => (seg, raw_entry x)) <$> numbered base bodies.
Proof.
  intros Hl Hb Hm. destruct (split_batch_numbered fuel seg base bodies Hl Hb Hm) as [<- Hf]. unfold wal_es, wrec_es. induction (split_batch fuel seg base bodies) as [|g gs IH]; [done|].
  apply Forall_cons_1 in Hf as [(Hseg & _) Hf]. rewrite !bind_cons, fmap_app, Hseg. f_equal. by apply IH.
Qed.

Lemma inv_logged s G w batch seg : Inv s G -> Forall storable batch -> batch <> [] -> s_seq s + ulen batch < 2 ^ 64 ->
  (forall e, e ∈ batch_entries (s_seq s + 1) batch -> is_Some (filed s e)) ->
  let split := split_batch (length batch) seg (s_seq s + 1) (encodeLog <$> batch) in
  wal_keeps w (to_rec <$> g_sync G) ((to_rec <$> g_tail G) ++ (to_rec <$> split)) ->
  Inv (set_seq (s_seq s + ulen batch) (set_wal w s)) (log_batch split (batch_entries (s_seq s + 1) batch) G).
Proof.
  intros HI Hst Hne Hmax Hfiled split Hw. pose proof (iv_seq _ _ HI) as Hseq. set (bodies := encodeLog <$> batch) in *. set (es := batch_entries (s_seq s + 1) batch) in *. set (s' := set_seq _ _). set (G' := log_batch _ _ _).
  assert (Hlen : length bodies = length batch) by apply length_fmap. pose proof (split_batch_numbered (length batch) seg (s_seq s + 1) bodies ltac:(lia) ltac:(lia) ltac:(unfold ulen in *; lia)) as [_ Hsplit]. fold split in Hsplit.
  pose proof (split_es (length batch) seg (s_seq s + 1) bodies ltac:(lia) ltac:(lia) ltac:(unfold ulen in *; lia)) as Hes. fold split in Hes.
  assert (Hall : wal_es (g_sync G' ++ g_tail G') = wal_es (g_sync G ++ g_tail G) ++ ((fun x => (seg, raw_entry x)) <$> numbered (s_seq s + 1) bodies)) by (cbn [g_sync g_tail G' log_batch]; by rewrite app_assoc, wal_es_app, Hes).
  assert (Hsnd : (wal_es (g_sync G' ++ g_tail G')).*2 = (wal_es (g_sync G ++ g_tail G)).*2 ++ es) by (rewrite Hall, fmap_app, <- list_fmap_compose; done).
  assert (Hknown : forall e, known G' e <-> known G e \/ e ∈ es).
  { intros e. unfold known. rewrite Hsnd, elem_of_app. change (in_blocks G') with (in_blocks G). tauto. }
  assert (Hnew : forall e, e ∈ es -> entry_ok e /\ s_seq s + 1 <= re_Seq e <= s_seq s + ulen batch /\ loggable e).
  { intros e (i & l & Hi & ->)%batch_entry. pose proof (lookup_lt_Some _ _ _ Hi) as Hlt. rewrite List.Forall_forall in Hst. destruct (Hst l) as [Hd Hby Hs Hln Hts Hlab]; [apply list_elem_of_In; by eapply list_elem_of_lookup_2|]. unfold ts_of. rewrite Hd. unfold ulen in *. cbn [re_Seq].
    split; [|split; [lia|]]. { unfold entry_ok. cbn [re_Ts re_Seq re_Body]. split; [done|]. split; [unfold is_u64; lia|]. by split. } exists l. by split_and!. }
  assert (Hold : forall e, known G e -> re_Seq e <= s_seq s) by (intros e He; by apply (iv_known _ _ HI)). assert (HF : forall e, filed s' e = filed s e) by (intros e; by apply same_filed). split.
  - cbn [s_wal s' set_seq set_wal g_sync g_tail G' log_batch]. by rewrite fmap_app.
  - cbn [g_sync g_tail G' log_batch]. rewrite app_assoc. apply Forall_app. split; [apply (iv_recs _ _ HI)|]. eapply List.Forall_impl; [|exact Hsplit]. intros g (_ & ? & ? & ? & Hsub). split_and!; try done; try lia. apply List.Forall_forall. intros b Hb%list_elem_of_In. apply Hsub in Hb. apply list_elem_of_fmap in Hb as (l & -> & Hl). rewrite List.Forall_forall in Hst. by apply Hst, list_elem_of_In.
  - rewrite Hsnd, fmap_app. apply sorted_app_lt; [apply (iv_order _ _ HI)|unfold es; rewrite batch_seqs; apply imap_increasing|]. intros x y (e & -> & He)%list_elem_of_fmap (e' & -> & He')%list_elem_of_fmap. assert (known G e) by by left. specialize (Hold e ltac:(done)). destruct (Hnew e' He') as (_ & ? & _). lia.
  - cbn [s_seq s' set_seq]. unfold ulen in *. lia.
  - intros e [He|He]%Hknown; rewrite HF; cbn [s_seq s' set_seq g_acked g_loose G' log_batch]; rewrite app_assoc.
    + destruct (iv_known _ _ HI e He) as (? & ? & ? & ? & ?). split_and!; try done; [unfold ulen; lia..|]. apply elem_of_app. by left.
    + destruct (Hnew e He) as (? & ? & ?). split_and!; try done; [lia|lia|by apply Hfiled|]. apply elem_of_app. by right.
  - intros e e' [He|He]%Hknown [He'|He']%Hknown E.
    + by apply (iv_unique _ _ HI).
    + specialize (Hold e He). destruct (Hnew e' He') as (_ & ? & _). lia.
    + specialize (Hold e' He'). destruct (Hnew e He) as (_ & ? & _). lia.
    + apply batch_entry in He as (i & l & Hi & ->), He' as (i' & l' & Hi' & ->). cbn in E. assert (i = i') as -> by lia. by simplify_eq.
  - intros key e He. rewrite HF. by apply (iv_place _ _ HI).
  - apply (iv_blocks _ _ HI).
  - apply (iv_files _ _ HI).
  - apply (iv_chunks _ _ HI).
  - intros id st Est. destruct (iv_heads _ _ HI id st Est) as [Hs Hh]. split; [done|]. intros e He. rewrite HF. by apply Hh.
  - apply (iv_try _ _ HI).
  - intros id e He. rewrite HF. by apply (iv_acked _ _ HI).
  - apply (iv_catalog _ _ HI).
  - apply (iv_streams _ _ HI).
Qed.

(** ** Syncing *)

Definition synced G : ghost := MkG (g_sync G ++ g_tail G) [] (g_gs G) (g_try G) (g_acked G) (g_loose G).
Lemma inv_wal s G w : Inv s G -> wal_keeps w (to_rec <$> g_sync G) (to_rec <$> g_tail G) -> Inv (set_wal w s) G.
Proof.
  intros HI Hw. assert (HF : forall e, filed (set_wal w s) e = filed s e) by (intros e; by apply same_filed). split; try apply HI; try done.
Qed.
Lemma inv_synced s G w : Inv s G -> wal_keeps w (to_rec <$> g_sync G ++ g_tail G) [] -> Inv (set_wal w s) (synced G).
Proof.
  intros HI Hw. assert (Hk : forall e, known (synced G) e <-> known G e) by (intros e; unfold known; cbn [g_sync g_tail synced]; by rewrite app_nil_r). split; try apply HI; try done; cbn [g_sync g_tail synced]; rewrite ?app_nil_r; try apply HI.
  - intros e He%Hk. by apply (iv_known _ _ HI).
  - intros e e' He%Hk He'%Hk. by apply (iv_unique _ _ HI).
  - intros id st Est. destruct (iv_heads _ _ HI id st Est) as [Hs Hh]. split; [done|]. intros e He. destruct (Hh e He) as (? & ? & seg & ? & ?). split_and!; try done. exists seg. split; [|done]. rewrite wal_es_app. apply elem_of_app. by left.
Qed.
Lemma inv_loose s G es : Inv s G -> Inv s (MkG (g_sync G) (g_tail G) (g_gs G) (g_try G) (g_acked G) (g_loose G ++ es)).
Proof.
  intros HI. split; try apply HI. intros e He. destruct (iv_known _ _ HI e He) as (? & ? & ? & ? & Hin). split_and!; try done; try lia. cbn [g_acked g_loose]. rewrite app_assoc. apply elem_of_app. by left.
Qed.

(** ** Adding to the heads *)

Definition ack (id : Z) (e : rawEntry) G : ghost := MkG (g_sync G) (g_tail G) (g_gs G) (g_try G) (g_acked G ++ [(id, e)]) (g_loose G).

Lemma wal_es_seg gs seg e : (seg, e) ∈ wal_es gs -> seg ∈ (to_rec <$> gs).*1.
Proof.
  intros (g & He & Hg)%list_elem_of_bind. apply list_elem_of_fmap in He as (x & [= -> _] & _). apply list_elem_of_fmap. exists (to_rec g). split; [done|]. apply list_elem_of_fmap. by exists g.
Qed.

Lemma head_add s id e now seg k : is_Some (s_byID s !! id) -> head_of (set_byID (alter (add e now seg) id (s_byID s)) s) k = if decide (k = id) then head_of s k ++ [e] else head_of s k.
Proof.
  intros [st Est]. unfold head_of. cbn [s_byID set_byID]. case_decide as E; [subst|by rewrite lookup_alter_ne]. rewrite lookup_alter_eq, Est. cbn. unfold add. by destruct (st_head st) eqn:Eh; rewrite ?Eh.
Qed.

Lemma inv_add s G id e now : Inv s G -> filed s e = Some id -> sealed_at G (id, dayOf (re_Ts e)) < re_Seq e -> (wal_Segment (s_wal s), e) ∈ wal_es (g_sync G) ->
  (forall x, x ∈ head_of s id -> re_Seq x < re_Seq e) -> 0 < re_Seq e ->
  Inv (set_byID (alter (add e now (wal_Segment (s_wal s))) id (s_byID s)) s) (ack id e G).
Proof.
  intros HI Hfi Hsealed Hwal Hlast Hpos. set (seg := wal_Segment (s_wal s)) in *. set (s' := set_byID _ _). assert (HF : forall e, filed s' e = filed s e) by (intros x; by apply same_filed).
  assert (Hid : is_Some (s_byID s !! id)). { unfold filed in Hfi. destruct (decodeLog _) as [l|]; [|done]. destruct (s_streams s !! label_key (labelsOf l)) eqn:E; [injection Hfi as ->; by eapply (iv_streams _ _ HI)|]. destruct (_ <=? _); [by eapply (iv_streams _ _ HI)|done]. }
  pose proof (fun k => head_add s id e now seg k Hid) as Hhead. fold s' in Hhead. assert (Hk : forall x, known (ack id e G) x <-> known G x) by done. split; try apply HI; try done.
  - intros x Hx. rewrite HF. destruct (iv_known _ _ HI x Hx) as (Ha & Hb & Hc & Hd & Hin). refine (conj Ha (conj Hb (conj Hc (conj Hd _)))). cbn [g_acked g_loose ack]. rewrite fmap_app. apply elem_of_app in Hin as [Hin|Hin]; apply elem_of_app; [left; apply elem_of_app; by left|by right].
  - intros k st Est. unfold s' in Est. cbn [s_byID set_byID] in Est. destruct (decide (k = id)) as [->|Hne]; [|rewrite lookup_alter_ne in Est by done; apply (iv_heads _ _ HI k st Est)].
    destruct Hid as [st0 Est0]. rewrite lookup_alter_eq, Est0 in Est. cbn in Est. injection Est as <-. destruct (iv_heads _ _ HI id st0 Est0) as [Hs Hh]. assert (Hlast' : forall x, x ∈ st_head st0 -> re_Seq x < re_Seq e) by (intros x Hx; apply Hlast; unfold head_of; by rewrite Est0).
    assert (Hsegs : forall x, x ∈ st_head st0 -> (st_headSeg st0 <= seg)%nat).
    { intros x Hx. destruct (Hh x Hx) as (_ & _ & sg & Hsg & Hle). apply wal_es_seg in Hsg. destruct (wal_sorted _ _ _ (iv_wal _ _ HI)) as [_ Hb]. rewrite List.Forall_forall in Hb. specialize (Hb sg). unfold seg. etransitivity; [exact Hle|]. apply Hb, list_elem_of_In. rewrite fmap_app. apply elem_of_app. by left. }
    assert (Hnew : st_head (add e now seg st0) = st_head st0 ++ [e] /\ (st_headSeg (add e now seg st0) <= seg)%nat /\ (st_head st0 <> [] -> st_headSeg (add e now seg st0) = st_headSeg st0)).
    { unfold add. destruct (st_head st0) as [|x0 rest] eqn:Eh; cbn [st_head st_headSeg with_head]; rewrite ?Eh; [done|]. split_and!; try done. apply (Hsegs x0). by left. }
    destruct Hnew as (-> & Hseg1 & Hseg2). split.
    + rewrite fmap_app. apply sorted_app_lt; [done|repeat constructor|]. intros x y (x' & -> & Hx')%list_elem_of_fmap ->%list_elem_of_singleton. by apply Hlast'.
    + intros x [Hx| ->%list_elem_of_singleton]%elem_of_app; [|split_and!; [done|done|]; exists seg; by split]. rewrite Hseg2 by (intros E; rewrite E in Hx; by apply not_elem_of_nil in Hx). by apply Hh.
  - intros key es Ht. destruct (iv_try _ _ HI key es Ht) as (Hn & He0 & Hm). split; [done|]. split; [done|]. intros x. rewrite Hm, Hhead. case_decide as Ek; [|done]. rewrite elem_of_app, list_elem_of_singleton. split; [tauto|]. intros ([Hx| ->] & Hd & Hle); [by split_and!|]. exfalso.
    enough (max_seq es < re_Seq e) by lia. enough (max_seq es <= re_Seq e - 1) by lia. apply max_seq_le; [lia|]. intros y Hy. apply Hm in Hy as (Hy & _). rewrite Ek in Hy. apply Hlast in Hy. lia.
  - intros k x [Hx|Hx]%elem_of_app; rewrite HF, Hhead.
    + destruct (iv_acked _ _ HI k x Hx) as [? [Hin|Hin]]; (split; [done|]); [left|by right]. case_decide; [apply elem_of_app; by left|done].
    + apply list_elem_of_singleton in Hx. injection Hx as -> ->. split; [done|]. left. rewrite decide_True by done. apply elem_of_app. right. by left.
  - destruct (iv_catalog _ _ HI) as (? & ? & Hids). split_and!; try done. intros k. unfold s'. cbn [s_byID s_cat set_byID]. rewrite lookup_alter_is_Some. apply Hids.
  - intros k id' Hk'. unfold s'. cbn [s_byID set_byID]. rewrite lookup_alter_is_Some. by eapply (iv_streams _ _ HI).
Qed.

Definition ack_all (l : list (Z * rawEntry)) G : ghost := MkG (g_sync G) (g_tail G) (g_gs G) (g_try G) (g_acked G ++ l) (g_loose G).

Lemma inv_add_all now es : forall ids s G, Inv s G -> length ids = length es -> StronglySorted Z.lt (re_Seq <$> es) ->
  (forall id e, (id, e) ∈ zip ids es -> filed s e = Some id) ->
  (forall e, e ∈ es -> (forall key, sealed_at G key < re_Seq e) /\ (wal_Segment (s_wal s), e) ∈ wal_es (g_sync G) /\ (forall k x, x ∈ head_of s k -> re_Seq x < re_Seq e) /\ 0 < re_Seq e) ->
  Inv (set_byID (add_all ids es now (wal_Segment (s_wal s)) (s_byID s)) s) (ack_all (zip ids es) G).
Proof.
  induction es as [|e es IH]; intros [|id ids] s G HI Hlen Hs Hfi Hall; try done; cbn [add_all zip zip_with].
  - replace (set_byID (s_byID s) s) with s by by destruct s. unfold ack_all. rewrite app_nil_r. by destruct G.
  - rewrite fmap_cons in Hs. apply StronglySorted_inv in Hs as [Hs Hf]. destruct (Hall e ltac:(by left)) as (Hsl & Hw & Hlast & Hpos). pose proof (Hfi id e ltac:(by left)) as Hid.
    pose proof (inv_add s G id e now HI Hid (Hsl _) Hw (Hlast id) Hpos) as HI1. set (s1 := set_byID (alter (add e now (wal_Segment (s_wal s))) id (s_byID s)) s) in *.
    specialize (IH ids s1 (ack id e G) HI1 ltac:(cbn in Hlen; lia) Hs). change (set_byID (add_all ids es now (wal_Segment (s_wal s)) (alter (add e now (wal_Segment (s_wal s))) id (s_byID s))) s) with (set_byID (add_all ids es now (wal_Segment (s_wal s1)) (s_byID s1)) s1).
    replace (ack_all ((id, e) :: zip ids es) G) with (ack_all (zip ids es) (ack id e G)) by (unfold ack_all, ack; cbn [g_acked g_sync g_tail g_gs g_try g_loose]; by rewrite <- app_assoc). apply IH.
    + intros k x Hx. rewrite (same_filed s s1) by done. apply Hfi. by right.
    + intros x Hx. destruct (Hall x ltac:(by right)) as (Hslx & Hwx & Hlx & Hpx). split_and!; try done. intros k y Hy.
      assert (His : is_Some (s_byID s !! id)). { destruct (s_byID s !! id) eqn:E; [by eexists|]. exfalso. assert (Hin : (id, e) ∈ g_acked (ack id e G)) by (cbn [g_acked ack]; apply elem_of_app; right; by left). destruct (iv_acked _ _ HI1 id e Hin) as [Hf1 _]. unfold filed in Hid. destruct (decodeLog _) as [l|]; [|done]. destruct (s_streams s !! label_key (labelsOf l)) eqn:E2; [injection Hid as ->; apply (iv_streams _ _ HI) in E2 as [? E2]; congruence|]. destruct (_ <=? _); [apply (iv_streams _ _ HI) in Hid as [? ?]; congruence|done]. }
      unfold s1 in Hy. rewrite (head_add s id e now _ k His) in Hy. case_decide; [|by eapply Hlx]. apply elem_of_app in Hy as [Hy| ->%list_elem_of_singleton]; [by eapply Hlx|]. rewrite List.Forall_forall in Hf. apply Hf, list_elem_of_In, list_elem_of_fmap. by exists x.
Qed.

(** ** The whole operation *)

Lemma streams_for_inv batch : forall s G s' r, Inv s G -> Forall storable batch -> streams_for batch s = (s', r) ->
  Inv s' G /\ grown s s' /\ forall ids, r = Ok ids -> Forall2 (fun l id => forall e, decodeLog (re_Body e) = Some l -> loggable e -> filed s' e = Some id) batch ids.
Proof.
  induction batch as [|l batch IH]; intros s G s' r HI Hst; cbn [streams_for].
  - intros [= <- <-]. split_and!; try done. intros ids [= <-]. constructor.
  - apply Forall_cons_1 in Hst as [Hl Hst]. intros [(s1 & id & E1 & E)|(e & E1 & ->)]%bind_cases; destruct (streamFor_inv _ _ _ _ _ HI E1) as (HI1 & Hg1 & Hfi1); [|done].
    apply bind_cases in E as [(s2 & ids & E2 & E)|(e & E2 & ->)]; destruct (IH _ _ _ _ HI1 Hst E2) as (HI2 & Hg2 & Hfi2); [|split_and!; [done|by etransitivity|done]].
    injection E as <- <-. split_and!; [done|by etransitivity|]. intros ? [= <-]. constructor; [|by apply Hfi2]. intros e He Hlog. apply (gr_filed _ _ Hg2); [done|]. apply Hfi1; [done|done|apply Hl].
Qed.

Lemma number_entries base batch : Forall storable batch -> 0 <= base -> base + ulen batch <= 2 ^ 64 -> number base (zip batch (encodeLog <$> batch)) = batch_entries base batch.
Proof.
  intros Hst Hb Hmax. unfold number, batch_entries, numbered. rewrite imap_fmap, fmap_imap. apply list_eq. intros i. rewrite !list_lookup_imap. rewrite lookup_zip_with, list_lookup_fmap. destruct (batch !! i) as [l|] eqn:El; [|done]. cbn. f_equal.
  pose proof (lookup_lt_Some _ _ _ El) as Hlt. unfold ulen in Hmax. rewrite uint64_id by (unfold is_u64; lia). unfold raw_entry, ts_of. cbn [fst snd]. rewrite List.Forall_forall in Hst. destruct (Hst l) as [Hd _ _ _ _ _]; [apply list_elem_of_In; by eapply list_elem_of_lookup_2|]. by rewrite Hd.
Qed.

Definition new_entries s (batch : list Log) : list rawEntry := batch_entries (s_seq s + 1) batch.
Definition new_records s (batch : list Log) : list Record_ := wal_records (length batch) (s_seq s + 1) (encodeLog <$> batch).
(** A batch of one record, or one that the log takes whole. *)
Definition one_write s (batch : list Log) : Prop := (length (new_records s batch) <= 1)%nat \/ (wal_Log (new_records s batch) (s_wal s)).2 = Ok tt.

Definition promised s' (es : list rawEntry) : list (Z * rawEntry) := (fun e => (default 0 (filed s' e), e)) <$> es.
(** What a batch adds to the promises. *)
Definition promises s' (r : result store_error unit) (es : list rawEntry) G G' : Prop :=
  g_acked G' = g_acked G ++ (match r with Ok _ => promised s' es | Err _ => [] end) /\ g_loose G' = g_loose G ++ es.

Lemma entry_filed s batch ids : Forall storable batch -> Forall2 (fun l id => forall e, decodeLog (re_Body e) = Some l -> loggable e -> filed s e = Some id) batch ids ->
  forall base id e, (id, e) ∈ zip ids (batch_entries base batch) -> filed s e = Some id.
Proof.
  intros Hst Hf base id e (i & Hi)%list_elem_of_lookup. rewrite lookup_zip_with in Hi. destruct (ids !! i) as [id'|] eqn:Eid; [|done]. cbn in Hi. destruct (batch_entries base batch !! i) as [e'|] eqn:Ee; [|done]. cbn in Hi. injection Hi as -> ->.
  destruct (Forall2_lookup_r _ _ _ _ _ Hf Eid) as (l & El & Hl). unfold batch_entries, numbered in Ee. rewrite list_lookup_fmap, list_lookup_imap, list_lookup_fmap, El in Ee. cbn in Ee. injection Ee as <-.
  rewrite List.Forall_forall in Hst. destruct (Hst l) as [Hd _ _ _ _ Hc]; [apply list_elem_of_In; by eapply list_elem_of_lookup_2|]. apply Hl; [done|]. exists l. cbn. unfold ts_of. by rewrite Hd.
Qed.

Lemma records_bytes s batch : Forall storable batch -> Forall bytes_ok (new_records s batch).
Proof.
  intros Hst. unfold new_records. assert (Hb : Forall (Forall is_byte) (encodeLog <$> batch)) by (apply Forall_fmap; eapply List.Forall_impl; [|exact Hst]; intros l Hl; apply Hl). revert Hb. generalize (encodeLog <$> batch), (s_seq s + 1). generalize (length batch) as fuel.
  induction fuel as [|fuel IH]; intros [|b bodies] base Hb; cbn [wal_records]; try constructor. destruct (fill_record true 0 (b :: bodies)) as [now later] eqn:E. apply fill_split in E. rewrite E in Hb. apply Forall_app in Hb as [Hn Hl]. constructor; [|by apply IH]. split; [done|]. by apply record_bytes.
Qed.

Lemma records_full fuel : forall base bodies, Forall (fun r => rec_Data r <> []) (wal_records fuel base bodies).
Proof. induction fuel as [|fuel IH]; intros base [|b bodies]; cbn [wal_records]; try constructor. destruct (fill_record true 0 (b :: bodies)) as [now later]. by constructor. Qed.

Lemma new_sizes s batch : batch <> [] -> new_records s batch <> [].
Proof. unfold new_records. destruct batch as [|l batch]; [done|]. intros _. cbn [length wal_records fmap list_fmap]. by destruct (fill_record true 0 _) as [now later]. Qed.

Lemma on_wal_bind {A} (f : W -> W * result wal_error unit) (k : unit -> SE Store store_error A) s :
  (on_wal f ≫= k) s = match f (s_wal s) with (w, Ok _) => k tt (set_wal w s) | (w, Err e) => (set_wal w s, Err (SErrWal e)) end.
Proof. unfold on_wal, mbind, SE_bind. by destruct (f (s_wal s)) as [w [[]|]]. Qed.
Lemma modify_bind {A} (f : Store -> Store) (k : unit -> SE Store store_error A) s : (modify f ≫= k) s = k tt (f s).
Proof. done. Qed.

Lemma Append_inv now batch s G s' r : Inv s G -> Forall storable batch -> s_seq s + ulen batch < 2 ^ 64 -> one_write s batch -> Append now batch s = (s', r) ->
  exists G', Inv s' G' /\ promises s' r (new_entries s batch) G G' /\ s_opts s' = s_opts s.
Proof.
  intros HI Hst Hmax Hone. pose proof (iv_seq _ _ HI) as Hseq. assert (Hsame : forall s1 r1, Inv s1 G -> s_opts s1 = s_opts s -> r1 <> Ok tt -> exists G', Inv s1 G' /\ promises s1 r1 (new_entries s batch) G G' /\ s_opts s1 = s_opts s).
  { intros s1 r1 HI1 Ho Hr. eexists. split; [by apply inv_loose|]. split; [|done]. split; [|done]. destruct r1 as [[]|]; [done|]. by rewrite app_nil_r. }
  unfold Append. destruct batch as [|l0 batch0] eqn:Eb; [intros [= <- <-]; exists G; split_and!; [done| |done]; split; by rewrite app_nil_r|]. rewrite <- Eb in *. assert (Hne : batch <> []) by by rewrite Eb. clear Eb l0 batch0.
  rewrite (bind_ok get _ s s s) by done. destruct (s_closed s); [intros [= <- <-]; by apply Hsame|].
  intros [(s1 & ids & E1 & E)|(e & E1 & ->)]%bind_cases; destruct (streams_for_inv _ _ _ _ _ HI Hst E1) as (HI1 & Hg1 & Hids); [|apply Hsame; [done|apply (gr_opts _ _ Hg1)|done]].
  specialize (Hids ids eq_refl). rewrite length_fmap in E. rewrite (uint64_id (s_seq s + 1)) in E by (unfold is_u64, ulen in *; destruct batch; [done|cbn [length] in *; lia]). fold (new_records s batch) in E. revert E. rewrite on_wal_bind, (gr_wal _ _ Hg1).
  destruct (wal_Log (new_records s batch) (s_wal s)) as [w rl] eqn:Elog. pose proof (iv_wal _ _ HI1) as Hw1. rewrite (gr_wal _ _ Hg1) in Hw1. destruct (wal_Log_ok _ _ _ _ _ _ Hw1 (records_bytes s batch Hst) (records_full _ _ _) Elog) as (pre & Hkeep & Hpre & Hok & Hbad).
  destruct rl as [[]|e].
  2:{ assert (pre = []) as ->. { destruct Hone as [Hlen|Hlog]; [|by rewrite Elog in Hlog]. destruct Hpre as [rest Hrest]. specialize (Hbad ltac:(done) (new_sizes s batch Hne)). destruct pre as [|x pre]; [done|]. rewrite Hrest in Hlen. destruct pre as [|y pre], rest as [|z rest]; cbn in Hlen; try lia. by rewrite app_nil_r in Hrest. }
      rewrite app_nil_r in Hkeep. intros [= <- <-]. apply Hsame; [by apply inv_wal|apply (gr_opts _ _ Hg1)|done]. }
  rewrite (Hok eq_refl) in Hkeep. unfold new_records in Hkeep. rewrite records_of_batch in Hkeep. rewrite modify_bind.
  assert (Hlast : uint64 (s_seq s + 1 + ulen batch - 1) = s_seq s1 + ulen batch) by (rewrite (gr_seq _ _ Hg1); replace (s_seq s + 1 + ulen batch - 1) with (s_seq s + ulen batch) by lia; apply uint64_id; unfold is_u64, ulen in *; lia). rewrite Hlast.
  assert (Hfi : forall id e, (id, e) ∈ zip ids (new_entries s batch) -> filed s1 e = Some id) by by apply entry_filed. assert (Hlen : length ids = length (new_entries s batch)) by (unfold new_entries, batch_entries, numbered; rewrite length_fmap, length_imap, length_fmap; symmetry; by eapply Forall2_length).
  assert (Hsome : forall e, e ∈ new_entries s batch -> is_Some (filed s1 e)).
  { intros e (i & Hi)%list_elem_of_lookup. destruct (lookup_lt_is_Some_2 ids i) as [id Hid]; [rewrite Hlen; by eapply lookup_lt_Some|]. exists id. apply Hfi. apply list_elem_of_lookup. exists i. by rewrite lookup_zip_with, Hid, Hi. }
  pose proof (inv_logged s1 G w batch (wal_Segment w) HI1 Hst Hne) as Hlogged. cbn zeta in Hlogged. rewrite (gr_seq _ _ Hg1) in Hlogged, Hlast |- *. specialize (Hlogged Hmax Hsome Hkeep). set (G1 := log_batch _ _ G) in Hlogged. set (s2 := set_seq (s_seq s + ulen batch) (set_wal w s1)) in *.
  rewrite on_wal_bind. change (s_wal s2) with w. destruct (wal_Sync w) as [w2 rs] eqn:Esync. destruct (wal_Sync_ok _ _ _ _ _ (iv_wal _ _ Hlogged) Esync) as [Hseg Hsync].
  destruct rs as [[]|e].
  2:{ intros [= <- <-]. exists G1. split_and!; [by apply inv_wal| |apply (gr_opts _ _ Hg1)]. split; [|done]. by rewrite app_nil_r. }
  rewrite <- fmap_app in Hsync. pose proof (inv_synced _ _ _ Hlogged Hsync) as HI3. set (s3 := set_wal w2 s2) in *. rewrite modify_bind. rewrite number_entries by (done || lia || (unfold ulen in *; lia)). fold (new_entries s batch).
  assert (HI4 : Inv (set_byID (add_all ids (new_entries s batch) now (wal_Segment (s_wal s3)) (s_byID s3)) s3) (ack_all (zip ids (new_entries s batch)) (synced G1))).
  { apply inv_add_all; [done|done|unfold new_entries; rewrite batch_seqs; apply imap_increasing|done|]. intros e He. assert (Hes : s_seq s + 1 <= re_Seq e) by (apply batch_entry in He as (i & l & _ & ->); cbn [re_Seq]; lia). split_and!.
    - intros key. pose proof (sealed_le _ _ key HI1) as Hle. rewrite (gr_seq _ _ Hg1) in Hle. change (sealed_at (synced G1) key) with (sealed_at G key). lia.
    - change (wal_Segment (s_wal s3)) with (wal_Segment w2). rewrite Hseg. cbn [g_sync synced G1 log_batch g_tail]. rewrite app_assoc, wal_es_app. apply elem_of_app. right.
      rewrite split_es; [|rewrite length_fmap; done|lia|unfold ulen in *; rewrite length_fmap; lia]. unfold new_entries, batch_entries in He. apply list_elem_of_fmap in He as (x & -> & Hx). apply list_elem_of_fmap. by exists x.
    - intros k x Hx. change (head_of s3 k) with (head_of s1 k) in Hx. apply (head_known _ _ _ _ HI1) in Hx. destruct (iv_known _ _ HI1 x Hx) as (_ & Hle & _). rewrite (gr_seq _ _ Hg1) in Hle. lia.
    - lia. }
  set (s4 := set_byID _ s3) in *. rewrite (bind_ok get _ s4 s4 s4) by done. intros [(s5 & errs & E5 & E)|(e & E5 & ->)]%bind_cases; destruct (seal_each_inv _ _ _ _ _ HI4 E5) as (G5 & es' & HI5 & [Ha Hl] & Hf5 & Er & _); [|done].
  injection E as <- <-. exists G5. split_and!; [done| |rewrite (fr_opts _ _ Hf5); apply (gr_opts _ _ Hg1)]. split; [|by rewrite Hl]. rewrite Ha. cbn [g_acked ack_all synced G1 log_batch]. f_equal.
  unfold promised. apply list_eq. intros i. rewrite list_lookup_fmap, lookup_zip_with. destruct (new_entries s batch !! i) as [e|] eqn:Ee; cbn; [|by destruct (ids !! i)]. destruct (lookup_lt_is_Some_2 ids i) as [id Hid]; [rewrite Hlen; by eapply lookup_lt_Some|]. rewrite Hid. cbn. f_equal. f_equal.
  rewrite (same_filed s4 s5) by (apply Hf5). change (filed s4 e) with (filed s1 e). rewrite (Hfi id e); [done|]. apply list_elem_of_lookup. exists i. by rewrite lookup_zip_with, Hid, Ee.
Qed.
End Append.

(** Choosing for each entry of a finite map. *)
Lemma map_choice {K A B} `{Countable K} (m : gmap K A) (P : K -> A -> B -> Prop) : (forall k a, m !! k = Some a -> exists b, P k a b) ->
  exists g : gmap K B, (forall k a, m !! k = Some a -> exists b, g !! k = Some b /\ P k a b) /\ forall k, m !! k = None -> g !! k = None.
Proof.
  induction m as [|k a m Hk IH] using map_ind; intros HP.
  - exists ∅. by split.
  - destruct IH as (g & Hg & Hn); [intros k' a' E; apply HP; rewrite lookup_insert_ne; [done|congruence]|]. destruct (HP k a) as [b Hb]; [by rewrite lookup_insert_eq|]. exists (<[k := b]> g). split.
    + intros k' a' E. apply lookup_insert_Some in E as [[<- <-]|[Hne E]]; [exists b; by rewrite lookup_insert_eq|]. destruct (Hg k' a' E) as (b' & ? & ?). exists b'. by rewrite lookup_insert_ne.
    + intros k' E. apply lookup_insert_None in E as [E Hne]. rewrite lookup_insert_ne by done. by apply Hn.
Qed.

Lemma sorted_prefix (a b : list Z) : StronglySorted Z.lt (a ++ b) -> StronglySorted Z.lt a.
Proof. induction a as [|x a IH]; [constructor|]. cbn [app]. intros [Hs Hf]%StronglySorted_inv. constructor; [by apply IH|]. by apply Forall_app in Hf as [Hf _]. Qed.

Section Recover.
Context `{LogCodec} `{CaseMap} `{Zstd} {W D F C : Type} `{StoreWal W D} `{ChunkFiles F C} `{!StoreWalLaws W D} `{!ChunkFilesLaws F C}.
Abbreviation Store := (@Store W F C).
Implicit Types (s : Store) (G : ghost).

(** ** Reading the log *)

Fixpoint replay_list (sealed : chunkKey -> Z) (now : Z) (xs : list (nat * rawEntry)) : SE Store store_error unit :=
  match xs with
  | [] => mret tt
  | (seg, e) :: rest => _ ← replay_entry sealed now seg (re_Seq e) (re_Body e); replay_list sealed now rest
  end.

Lemma replay_list_app sealed now xs ys s : replay_list sealed now (xs ++ ys) s = (_ ← replay_list sealed now xs; replay_list sealed now ys) s.
Proof.
  revert s. induction xs as [|[seg e] xs IH]; intros s; [done|]. cbn [app replay_list]. unfold mbind, SE_bind in *. destruct (replay_entry sealed now seg (re_Seq e) (re_Body e) s) as [s1 [[]|]]; [apply IH|done].
Qed.
Lemma replay_bodies_list sealed now seg bodies : forall base s, 0 <= base -> base + ulen bodies <= 2 ^ 64 ->
  replay_bodies sealed now seg base bodies s = replay_list sealed now ((fun x => (seg, raw_entry x)) <$> numbered base bodies) s.
Proof.
  induction bodies as [|b bodies IH]; intros base s Hb Hm; [done|]. unfold numbered. rewrite imap_cons. cbn [replay_bodies fmap list_fmap replay_list raw_entry re_Seq re_Body fst snd]. rewrite Z.add_0_r.
  assert (E : imap ((fun (i : nat) (b : list Z) => (base + Z.of_nat i, b)) ∘ S) bodies = numbered (base + 1) bodies) by (apply imap_ext; intros i x _; cbn; f_equal; lia). rewrite E.
  unfold mbind, SE_bind. destruct (replay_entry sealed now seg base b s) as [s1 [[]|]]; [|done]. unfold ulen in *. cbn [length] in Hm. destruct bodies as [|b' bodies]; [done|]. cbn [length] in *. rewrite uint64_id by (unfold is_u64; lia). apply IH; unfold ulen; cbn [length]; lia.
Qed.
Lemma replay_log_list sealed now gs : Forall wrec_ok gs -> forall s, replay_log sealed now (to_rec <$> gs) s = replay_list sealed now (wal_es gs) s.
Proof.
  induction 1 as [|g gs (Hb & Hm & Hne & Hl) _ IH]; intros s; [done|]. rewrite fmap_cons. cbn [replay_log to_rec rec_Type rec_Data]. rewrite Z.eqb_refl. cbn [negb].
  unfold wal_es. rewrite bind_cons. fold (wal_es gs). rewrite replay_list_app. rewrite record_roundtrip.
  - unfold mbind, SE_bind. rewrite replay_bodies_list by lia. fold (wrec_es g). destruct (replay_list sealed now (wrec_es g) s) as [s1 [[]|]]; [apply IH|done].
  - unfold is_u64. lia.
  - done.
  - unfold is_u64. pose proof (ulen_nonneg (wr_bodies g)). lia.
  - done.
Qed.

(** ** The heads a replay leaves *)

(** The entries of a stream that no block holds. *)
Definition unsealed s0 (sealed : chunkKey -> Z) (id : Z) (x : nat * rawEntry) : Prop := filed s0 x.2 = Some id /\ sealed (id, dayOf (re_Ts x.2)) < re_Seq x.2.
#[global] Instance unsealed_dec s0 sealed id x : Decision (unsealed s0 sealed id x).
Proof. unfold unsealed. apply _. Defined.

Record replayed s0 (sealed : chunkKey -> Z) (done_ : list (nat * rawEntry)) s : Prop := {
  rp_opts : s_opts s = s_opts s0;
  rp_streams : s_streams s = s_streams s0;
  rp_chunks : s_chunks s = s_chunks s0;
  rp_cat : s_cat s = s_cat s0;
  rp_files : s_files s = s_files s0;
  rp_wal : s_wal s = s_wal s0;
  rp_closed : s_closed s = s_closed s0;
  rp_seq : s_seq s0 <= s_seq s /\ (forall x, x ∈ done_ -> re_Seq x.2 <= s_seq s) /\ (s_seq s = s_seq s0 \/ exists x, x ∈ done_ /\ s_seq s = re_Seq x.2);
  rp_some : forall id, is_Some (s_byID s !! id) <-> is_Some (s_byID s0 !! id);
  rp_heads : forall id st, s_byID s !! id = Some st -> st_head st = (filter (unsealed s0 sealed id) done_).*2
    /\ forall x, x ∈ filter (unsealed s0 sealed id) done_ -> (st_headSeg st <= x.1)%nat;
}.

Lemma streamFor_filed s l e id : decodeLog (re_Body e) = Some l -> filed s e = Some id -> streamFor l s = (s, Ok id) \/ streamFor l s = (add_folded s, Ok id).
Proof.
  intros Hl. rewrite (filed_log s l e Hl). unfold streamFor. rewrite (bind_ok get _ s s s) by done. destruct (s_streams s !! label_key (labelsOf l)); [intros [= <-]; by left|]. destruct (_ <=? _); [|done].
  unfold modify, mbind, SE_bind. intros ->. by right.
Qed.

Lemma sorted_le_snoc (xs : list (nat * rawEntry)) x : StronglySorted le (xs ++ [x]).*1 -> StronglySorted le xs.*1 /\ forall y, y ∈ xs -> (y.1 <= x.1)%nat.
Proof.
  induction xs as [|z xs IH]; [intros _; split; [constructor|intros y Hy; by apply not_elem_of_nil in Hy]|]. cbn [app]. rewrite !fmap_cons. intros [Hs Hf]%StronglySorted_inv. destruct (IH Hs) as [Hs1 Hle]. rewrite fmap_app in Hf. apply Forall_app in Hf as [Hf1 Hf2]. split; [by constructor|].
  intros y [->|Hy]%elem_of_cons; [|by apply Hle]. by apply Forall_cons_1 in Hf2 as [Hf2 _].
Qed.

Lemma replay_step s0 sealed done_ s now seg e id : replayed s0 sealed done_ s -> loggable e -> filed s0 e = Some id -> is_Some (s_byID s0 !! id) -> (forall y, y ∈ done_ -> (y.1 <= seg)%nat) ->
  exists s', replay_entry sealed now seg (re_Seq e) (re_Body e) s = (s', Ok tt) /\ replayed s0 sealed (done_ ++ [(seg, e)]) s'.
Proof.
  intros Hr (l & Hl & Hts & _) Hfi Hid Hseg. unfold replay_entry. rewrite modify_bind, Hl. set (s1 := set_seq (Z.max (s_seq s) (re_Seq e)) s). assert (Hfi1 : filed s1 e = Some id) by (rewrite <- Hfi; apply same_filed; [apply (rp_opts _ _ _ _ Hr)|apply (rp_streams _ _ _ _ Hr)]).
  assert (Hsf : exists s2, streamFor l s1 = (s2, Ok id) /\ (s2 = s1 \/ s2 = add_folded s1)) by (destruct (streamFor_filed s1 l e id Hl Hfi1) as [->| ->]; eauto). destruct Hsf as (s2 & Esf & Hs2). rewrite (bind_ok _ _ _ _ _ Esf). rewrite Hts.
  assert (Hfilter : forall k, filter (unsealed s0 sealed k) (done_ ++ [(seg, e)]) = filter (unsealed s0 sealed k) done_ ++ (if decide (unsealed s0 sealed k (seg, e)) then [(seg, e)] else [])) by (intros k; by rewrite filter_app, filter_cons, filter_nil).
  assert (Hseq : s_seq s2 = Z.max (s_seq s) (re_Seq e)) by by destruct Hs2 as [->| ->]. assert (Hby : s_byID s2 = s_byID s) by by destruct Hs2 as [->| ->].
  assert (Hfrm : s_opts s2 = s_opts s0 /\ s_streams s2 = s_streams s0 /\ s_chunks s2 = s_chunks s0 /\ s_cat s2 = s_cat s0 /\ s_files s2 = s_files s0 /\ s_wal s2 = s_wal s0 /\ s_closed s2 = s_closed s0) by (destruct Hr, Hs2 as [->| ->]; by split_and!). destruct Hfrm as (F1 & F2 & F3 & F4 & F5 & F6 & F7).
  assert (Hseqs : s_seq s0 <= s_seq s2 /\ (forall x, x ∈ done_ ++ [(seg, e)] -> re_Seq x.2 <= s_seq s2) /\ (s_seq s2 = s_seq s0 \/ exists x, x ∈ done_ ++ [(seg, e)] /\ s_seq s2 = re_Seq x.2)).
  { destruct (rp_seq _ _ _ _ Hr) as (Q1 & Q2 & Q3). rewrite Hseq. split_and!; [lia| |].
    - intros x [Hx| ->%list_elem_of_singleton]%elem_of_app; [specialize (Q2 x Hx); lia|cbn; lia].
    - destruct (Z.max_spec (s_seq s) (re_Seq e)) as [[? ->]|[? ->]]; [right; exists (seg, e); split; [apply elem_of_app; right; by left|done]|]. destruct Q3 as [Q3|(x & Hx & Q3)]; [by left|right]. exists x. split; [apply elem_of_app; by left|done]. }
  destruct (Z.leb_spec (re_Seq e) (sealed (id, dayOf (re_Ts e)))) as [Hle|Hgt].
  - exists s2. split; [done|]. split; try done.
    + intros k. rewrite Hby. apply (rp_some _ _ _ _ Hr).
    + intros k st Est. rewrite Hby in Est. destruct (rp_heads _ _ _ _ Hr k st Est) as [Hh1 Hh2]. rewrite Hfilter, decide_False; [by rewrite app_nil_r|]. intros [Hk Hk2]. cbn [snd] in Hk, Hk2. rewrite Hfi in Hk. injection Hk as ->. lia.
  - eexists. split; [reflexivity|]. unfold on_stream, modify. cbn [fst snd]. replace (MkRaw (re_Ts e) (re_Seq e) (re_Body e)) with e by by destruct e. split; try done.
    + intros k. cbn [s_byID set_byID]. rewrite Hby, lookup_alter_is_Some. apply (rp_some _ _ _ _ Hr).
    + intros k st Est. cbn [s_byID set_byID] in Est. rewrite Hby in Est. rewrite Hfilter. destruct (decide (k = id)) as [->|Hne].
      * rewrite decide_True by by split. apply (rp_some _ _ _ _ Hr) in Hid as [st0 Est0]. rewrite lookup_alter_eq, Est0 in Est. cbn in Est. injection Est as <-. destruct (rp_heads _ _ _ _ Hr id st0 Est0) as [Hh1 Hh2]. rewrite fmap_app, <- Hh1. unfold add. destruct (st_head st0) as [|x0 r0] eqn:Eh; cbn [st_head st_headSeg with_head]; rewrite ?Eh.
        -- split; [done|]. symmetry in Hh1. apply fmap_nil_inv in Hh1. rewrite Hh1. cbn [app]. intros x ->%list_elem_of_singleton. done.
        -- split; [done|]. intros x [Hx| ->%list_elem_of_singleton]%elem_of_app; [by apply Hh2|]. cbn [fst]. destruct (filter (unsealed s0 sealed id) done_) as [|y ys] eqn:Ef; [done|]. specialize (Hh2 y ltac:(by left)). assert (Hy : y ∈ filter (unsealed s0 sealed id) done_) by (rewrite Ef; by left). apply list_elem_of_filter in Hy as [_ Hy]. specialize (Hseg y Hy). lia.
      * rewrite lookup_alter_ne in Est by done. rewrite decide_False; [rewrite app_nil_r; by apply (rp_heads _ _ _ _ Hr)|]. intros [Hk _]. cbn [snd] in Hk. congruence.
Qed.

Lemma replay_all s0 sealed now xs : (forall x, x ∈ xs -> loggable x.2 /\ exists id, filed s0 x.2 = Some id /\ is_Some (s_byID s0 !! id)) -> StronglySorted le xs.*1 ->
  (forall id st, s_byID s0 !! id = Some st -> st_head st = []) -> exists s, replay_list sealed now xs s0 = (s, Ok tt) /\ replayed s0 sealed xs s.
Proof.
  intros Hx Hs Hempty. induction xs as [|[seg e] xs IH] using rev_ind.
  - exists s0. split; [done|]. split; try done.
    + split_and!; [done|intros x Hin; by apply not_elem_of_nil in Hin|by left].
    + intros id st Est. rewrite (Hempty id st Est). split; [done|]. intros x Hin. by apply not_elem_of_nil in Hin.
  - apply sorted_le_snoc in Hs as [Hs Hle]. destruct IH as (s1 & E1 & Hr1); [intros x Hin; apply Hx, elem_of_app; by left|done|]. destruct (Hx (seg, e) ltac:(apply elem_of_app; right; by left)) as (Hlog & id & Hfi & Hid). cbn [fst snd] in *.
    destruct (replay_step s0 sealed xs s1 now seg e id Hr1 Hlog Hfi Hid Hle) as (s2 & E2 & Hr2). exists s2. split; [|done]. rewrite replay_list_app. unfold mbind at 1, SE_bind at 1. rewrite E1. cbn [replay_list]. unfold mbind, SE_bind. by rewrite E2.
Qed.

(** ** After a crash *)

(** Every chunk file is as a crash may leave it. *)
Definition crashed s (files' : gmap chunkKey F) : Prop :=
  forall key, match s_files s !! key, files' !! key with
              | Some f, Some f' => cf_crash f (chunk_writer s key) f'
              | None, None => True
              | _, _ => False
              end.

(** The blocks that survive: those published, and possibly one that was written and not synced. *)
Lemma crash_blocks s G files' : Inv s G -> crashed s files' -> exists extra : chunkKey -> list (BlockMeta * list rawEntry), forall key,
  match files' !! key with Some f' => cf_holds f' None (g_gs G key ++ extra key) None | None => g_gs G key = [] /\ extra key = [] end
  /\ (extra key = [] \/ exists m es, g_try G key = Some es /\ extra key = [(m, es)] /\ bm_LastSeq m = max_seq es).
Proof.
  intros HI Hc. destruct (map_choice files' (fun key f' x => cf_holds f' None (g_gs G key ++ x) None /\ (x = [] \/ exists m es, g_try G key = Some es /\ x = [(m, es)] /\ bm_LastSeq m = max_seq es))) as (g & Hg & Hn).
  { intros key f' Ef'. specialize (Hc key). rewrite Ef' in Hc. destruct (s_files s !! key) as [f|] eqn:Ef; [|done]. destruct (iv_files _ _ HI key) as [Hf _]. rewrite Ef in Hf. destruct (cf_crash_ok _ _ _ _ _ Hf Hc) as (x & ? & ?). by exists x. }
  exists (fun key => default [] (g !! key)). intros key. destruct (files' !! key) as [f'|] eqn:Ef'.
  - destruct (Hg key f' Ef') as (x & -> & ? & ?). done.
  - rewrite (Hn key Ef'). specialize (Hc key). rewrite Ef' in Hc. destruct (s_files s !! key) as [f|] eqn:Ef; [done|]. destruct (iv_files _ _ HI key) as [Hf _]. rewrite Ef in Hf. destruct Hf as [Hf _]. split; [done|by left].
Qed.

Lemma load_empty rows id st : (load_streams rows).2 !! id = Some st -> st_head st = [].
Proof.
  induction rows as [|r rows IH] using rev_ind; [done|]. rewrite load_snoc. cbn [snd]. intros E. apply lookup_insert_Some in E as [[_ <-]|[_ E]]; [done|by apply IH].
Qed.

Lemma newest_le (chunks : gmap chunkKey (@chunkState C)) key cs : chunks !! key = Some cs -> last_seq (cs_blocks cs) <= newest_seq chunks.
Proof.
  intros E. unfold newest_seq. assert (Hin : last_seq (cs_blocks cs) ∈ (fun cs => last_seq (cs_blocks cs)) <$> (map_to_list chunks).*2) by (apply list_elem_of_fmap; exists cs; split; [done|]; apply list_elem_of_fmap; exists (key, cs); split; [done|]; by apply elem_of_map_to_list).
  revert Hin. generalize ((fun cs : chunkState => last_seq (cs_blocks cs)) <$> (map_to_list chunks).*2). induction l as [|x l IH]; intros Hin; [by apply not_elem_of_nil in Hin|]. cbn [foldr]. apply elem_of_cons in Hin as [->|Hin]; [lia|]. specialize (IH Hin). lia.
Qed.
Lemma newest_bound (chunks : gmap chunkKey (@chunkState C)) n : 0 <= n -> (forall key cs, chunks !! key = Some cs -> last_seq (cs_blocks cs) <= n) -> 0 <= newest_seq chunks <= n.
Proof.
  intros Hn Hall. unfold newest_seq. assert (Hl : Forall (fun x => x <= n) ((fun cs => last_seq (cs_blocks cs)) <$> (map_to_list chunks).*2)).
  { apply List.Forall_forall. intros x Hx%list_elem_of_In. apply list_elem_of_fmap in Hx as (cs & -> & Hcs). apply list_elem_of_fmap in Hcs as ([key cs'] & -> & Hk). apply elem_of_map_to_list in Hk. by eapply Hall. }
  revert Hl. generalize ((fun cs : chunkState => last_seq (cs_blocks cs)) <$> (map_to_list chunks).*2). induction 1 as [|x l Hx _ IH]; cbn [foldr]; lia.
Qed.

Definition recovered G (sync : list wrec) (extra : chunkKey -> list (BlockMeta * list rawEntry)) : ghost :=
  MkG sync [] (fun key => g_gs G key ++ extra key) (fun _ => None) (g_acked G) (g_loose G).

Section AfterCrash.
Context s G (files' : gmap chunkKey F) (extra : chunkKey -> list (BlockMeta * list rawEntry)) (sync tl : list wrec) (HI : Inv s G)
  (Htl : g_sync G ++ g_tail G = sync ++ tl) (Hsync : g_sync G `prefix_of` sync)
  (Hx : forall key, match files' !! key with Some f' => cf_holds f' None (g_gs G key ++ extra key) None | None => g_gs G key = [] /\ extra key = [] end
     /\ (extra key = [] \/ exists m es, g_try G key = Some es /\ extra key = [(m, es)] /\ bm_LastSeq m = max_seq es)).
Let G' := recovered G sync extra.

Lemma rec_blocks key : in_blocks G' key = in_blocks G key ++ (extra key ≫= snd).
Proof. unfold in_blocks. cbn [g_gs G' recovered]. apply bind_app. Qed.
Lemma rec_extra key e : e ∈ extra key ≫= snd -> e ∈ head_of s key.1 /\ dayOf (re_Ts e) = key.2.
Proof.
  intros He. destruct (Hx key) as [_ [E|(m & es & Ht & E & _)]]; rewrite E in He; [by apply not_elem_of_nil in He|]. rewrite bind_singleton in He. cbn [snd] in He. destruct (iv_try _ _ HI key es Ht) as (_ & _ & Hm). apply Hm in He as (? & ? & _). done.
Qed.
Lemma rec_wal x : x ∈ wal_es sync -> x ∈ wal_es (g_sync G ++ g_tail G).
Proof. intros Hin. rewrite Htl, wal_es_app. apply elem_of_app. by left. Qed.
Lemma rec_wal_es : wal_es (g_sync G' ++ g_tail G') = wal_es sync.
Proof. cbn [g_sync g_tail G' recovered]. by rewrite app_nil_r. Qed.
Lemma rec_sync_known x : x ∈ wal_es sync -> known G x.2.
Proof. intros Hin. left. apply list_elem_of_fmap. exists x. split; [done|by apply rec_wal]. Qed.

(** What is known now was known before the crash. *)
Lemma rec_known e : known G' e -> known G e.
Proof.
  intros [He|[key He]].
  - rewrite rec_wal_es in He. apply list_elem_of_fmap in He as (x & -> & Hin). by apply rec_sync_known.
  - rewrite rec_blocks in He. apply elem_of_app in He as [He|He]; [right; by exists key|]. apply rec_extra in He as [He _]. by eapply head_known.
Qed.
Lemma head_filed id e : e ∈ head_of s id -> filed s e = Some id.
Proof. unfold head_of. destruct (s_byID s !! id) as [st|] eqn:Est; [|intros He; by apply not_elem_of_nil in He]. intros He. by apply (iv_heads _ _ HI id st Est). Qed.
Lemma rec_place key e : e ∈ in_blocks G' key -> filed s e = Some key.1 /\ dayOf (re_Ts e) = key.2.
Proof. rewrite rec_blocks. intros [He|He]%elem_of_app; [by apply (iv_place _ _ HI)|]. apply rec_extra in He as [He Hd]. split; [by apply head_filed|done]. Qed.

Lemma rec_sealed_at key : sealed_at G' key = sealed_at G key \/ exists m es, g_try G key = Some es /\ extra key = [(m, es)] /\ sealed_at G' key = Z.max (sealed_at G key) (max_seq es).
Proof.
  unfold sealed_at. cbn [g_gs G' recovered]. destruct (Hx key) as [_ [E|(m & es & Ht & E & Hm)]]; rewrite E; [left; by rewrite app_nil_r|]. right. exists m, es. split_and!; try done. rewrite fmap_app. cbn [fmap list_fmap fst]. by rewrite last_seq_snoc, Hm.
Qed.
Lemma rec_last key e : e ∈ in_blocks G' key -> re_Seq e <= sealed_at G' key.
Proof.
  rewrite rec_blocks. destruct (Hx key) as [_ [E|(m & es & Ht & E & Hm)]].
  - rewrite E, app_nil_r. intros He. unfold sealed_at. cbn [g_gs G' recovered]. rewrite E, app_nil_r. by apply (sealed_in s).
  - rewrite E, bind_singleton. cbn [snd]. unfold sealed_at. cbn [g_gs G' recovered]. rewrite E, fmap_app. cbn [fmap list_fmap fst]. rewrite last_seq_snoc, Hm. intros [He|He]%elem_of_app; [apply (sealed_in s) in He; [unfold sealed_at in He; lia|done]|apply max_seq_in in He; lia].
Qed.
Lemma rec_sealed_le key : sealed_at G' key <= s_seq s.
Proof.
  pose proof (sealed_le s G key HI) as Hle. destruct (rec_sealed_at key) as [->|(m & es & Ht & _ & ->)]; [done|]. apply Z.max_lub; [done|]. apply max_seq_le; [apply (iv_seq _ _ HI)|].
  intros e He. destruct (iv_try _ _ HI key es Ht) as (_ & _ & Hmem). apply Hmem in He as (He & _). apply (head_known _ _ _ _ HI), (iv_known _ _ HI) in He as (_ & Hq & _). lia.
Qed.
Lemma rec_groups key : Forall (fun g => bm_LastSeq g.1 = max_seq g.2 /\ g.2 <> []) (g_gs G' key) /\ NoDup (in_blocks G' key).
Proof.
  rewrite rec_blocks. destruct (iv_blocks _ _ HI key) as [Hb1 Hb2]. cbn [g_gs G' recovered]. destruct (Hx key) as [_ [E|(m & es & Ht & E & Hm)]]; rewrite E; [by rewrite !app_nil_r|]. rewrite bind_singleton. cbn [snd]. destruct (iv_try _ _ HI key es Ht) as (Hn & He0 & Hmem). split; [apply Forall_app; split; [done|by apply Forall_singleton]|].
  apply NoDup_app. split_and!; [done| |done]. intros e He He'. apply Hmem in He' as (He' & Hd & _). apply (sealed_in s) in He; [|done]. unfold head_of in He'. destruct (s_byID s !! key.1) as [st|] eqn:Est; [|by apply not_elem_of_nil in He']. destruct (iv_heads _ _ HI key.1 st Est) as [_ Hh]. destruct (Hh e He') as (_ & Hlt & _). rewrite Hd in Hlt. destruct key. cbn [fst snd] in *. lia.
Qed.

Lemma filed_stream e id : filed s e = Some id -> is_Some (s_byID s !! id).
Proof. unfold filed. destruct (decodeLog _) as [l|]; [|done]. destruct (s_streams s !! label_key (labelsOf l)) eqn:E2; [intros [= ->]; by eapply (iv_streams _ _ HI)|]. destruct (_ <=? _); [by eapply (iv_streams _ _ HI)|done]. Qed.

(** *** The chunks found *)

Context (byID : gmap Z stream) (Hids : forall id, is_Some (s_byID s !! id) <-> is_Some (byID !! id)).
Let chunks := load_chunks byID files'.

Lemma rec_chunks key : match chunks !! key with Some cs => cs_w cs = None /\ no_crc <$> cs_blocks cs = no_crc <$> (g_gs G' key).*1 | None => g_gs G' key = [] end.
Proof.
  unfold chunks, load_chunks. rewrite map_lookup_imap. destruct (Hx key) as [Hh _]. cbn [g_gs G' recovered]. destruct (files' !! key) as [f'|]; cbn [mbind option_bind]; [|destruct Hh as [-> ->]; done]. destruct (cf_index_ok _ _ Hh) as [[-> (e & ->)]|(blocks & -> & Hbl)]; [done|]. case_decide as Hsome; [done|].
  destruct (g_gs G key ++ extra key) as [|g gs] eqn:Eg; [done|]. exfalso. apply Hsome. destruct (rec_groups key) as [Hf _]. cbn [g_gs G' recovered] in Hf. rewrite Eg in Hf. apply Forall_cons_1 in Hf as [[_ Hne] _]. destruct (g.2) as [|e es] eqn:E2; [done|].
  assert (He : e ∈ in_blocks G' key) by (unfold in_blocks; cbn [g_gs G' recovered]; rewrite Eg, bind_cons, E2; by left). apply rec_place in He as [He _]. by apply filed_stream, Hids in He.
Qed.
Lemma rec_sealed key : sealed_seq chunks key = sealed_at G' key.
Proof. unfold sealed_seq, sealed_at. pose proof (rec_chunks key) as Hgs. destruct (chunks !! key) as [cs|]; [destruct Hgs as [_ Hg]; by apply last_seq_no_crc|by rewrite Hgs]. Qed.
Lemma rec_newest : 0 <= newest_seq chunks <= s_seq s.
Proof. apply newest_bound; [apply (iv_seq _ _ HI)|]. intros key cs E. pose proof (rec_sealed key) as Hs. unfold sealed_seq in Hs. rewrite E in Hs. rewrite Hs. apply rec_sealed_le. Qed.
Lemma rec_newest_block key e : e ∈ in_blocks G' key -> re_Seq e <= Z.max 0 (newest_seq chunks).
Proof.
  intros He. pose proof (rec_last key e He) as Hle. rewrite <- rec_sealed in Hle. unfold sealed_seq in Hle. destruct (chunks !! key) as [cs|] eqn:Ec; [pose proof (newest_le _ _ _ Ec); lia|lia].
Qed.

(** *** The state the replay leaves *)

Context s0 s' w (Hopts : so_MaxStreams (s_opts s0) = so_MaxStreams (s_opts s)) (Hstreams : s_streams s0 = s_streams s) (Hbyid : s_byID s0 = byID) (Hchunks : s_chunks s0 = chunks) (Hcat : s_cat s0 = s_cat s)
  (Hfiles : s_files s0 = files') (Hwal : s_wal s0 = w) (Hseq : s_seq s0 = newest_seq chunks) (Hkeep : wal_keeps w (to_rec <$> sync) []) (Hr : replayed s0 (sealed_seq chunks) (wal_es sync) s').

Lemma rec_filed s1 e : s_opts s1 = s_opts s0 -> s_streams s1 = s_streams s0 -> filed s1 e = filed s e.
Proof. intros E1 E2. unfold filed. by rewrite E1, E2, Hopts, Hstreams. Qed.
Lemma rec_order : StronglySorted Z.lt (re_Seq <$> (wal_es sync).*2).
Proof. pose proof (iv_order _ _ HI) as Ho. rewrite Htl, wal_es_app, !fmap_app in Ho. by eapply sorted_prefix. Qed.

Lemma rec_heads id st : s_byID s' !! id = Some st -> StronglySorted Z.lt (re_Seq <$> st_head st)
  /\ forall e, e ∈ st_head st <-> exists seg, (seg, e) ∈ wal_es sync /\ filed s e = Some id /\ sealed_at G' (id, dayOf (re_Ts e)) < re_Seq e /\ (st_headSeg st <= seg)%nat.
Proof.
  intros Est. destruct (rp_heads _ _ _ _ Hr id st Est) as [-> Hseg]. split.
  - rewrite <- list_fmap_compose. apply sorted_filter. rewrite list_fmap_compose. apply rec_order.
  - intros e. rewrite list_elem_of_fmap. split.
    + intros ([seg e'] & -> & Hin0). apply list_elem_of_filter in Hin0 as Hin. destruct Hin as [[Hf Hlt] Hin]. cbn [snd] in *. rewrite rec_filed in Hf by done. rewrite rec_sealed in Hlt. exists seg. split_and!; try done. by apply (Hseg _ Hin0).
    + intros (seg & Hin & Hf & Hlt & _). exists (seg, e). split; [done|]. apply list_elem_of_filter. split; [|done]. split; cbn [snd]; [by rewrite rec_filed|by rewrite rec_sealed].
Qed.

(** An acknowledged log is in the head again, or in a block. *)
Lemma rec_acked id e : (id, e) ∈ g_acked G -> e ∈ head_of s' id \/ e ∈ in_blocks G' (id, dayOf (re_Ts e)).
Proof.
  intros He. destruct (iv_acked _ _ HI id e He) as [Hfi [Hin|Hin]]; [|right; rewrite rec_blocks; apply elem_of_app; by left].
  unfold head_of in Hin. destruct (s_byID s !! id) as [st|] eqn:Est; [|by apply not_elem_of_nil in Hin]. destruct (iv_heads _ _ HI id st Est) as [_ Hh]. destruct (Hh e Hin) as (_ & Hlt & seg & Hw & _).
  destruct (decide (sealed_at G' (id, dayOf (re_Ts e)) < re_Seq e)) as [Hs|Hs].
  - left. assert (Hsome : is_Some (s_byID s' !! id)) by (apply (rp_some _ _ _ _ Hr); rewrite Hbyid; apply Hids; by rewrite Est). destruct Hsome as [st' Est']. unfold head_of. rewrite Est'. destruct (rp_heads _ _ _ _ Hr id st' Est') as [-> _]. apply list_elem_of_fmap. exists (seg, e). split; [done|]. apply list_elem_of_filter. split; [split; cbn [snd]; [by rewrite rec_filed|by rewrite rec_sealed]|].
    destruct Hsync as [tl1 ->]. rewrite wal_es_app. apply elem_of_app. by left.
  - right. rewrite rec_blocks. apply elem_of_app. right. destruct (rec_sealed_at (id, dayOf (re_Ts e))) as [E|(m & es & Ht & Ex & E)]; rewrite E in Hs; [lia|].
    rewrite Ex, bind_singleton. cbn [snd]. destruct (iv_try _ _ HI _ es Ht) as (_ & _ & Hmem). apply Hmem. cbn [fst snd]. split_and!; [unfold head_of; by rewrite Est|done|lia].
Qed.

Lemma recovered_inv : s_streams s = (load_streams (cat_streams (s_cat s))).1 -> byID = (load_streams (cat_streams (s_cat s))).2 -> Inv s' G'.
Proof.
  intros Hst Hload. destruct Hr as [R1 R2 R3 R4 R5 R6 R7 (R8 & R9 & R10) R11 R12]. pose proof (fun e => rec_filed s' e R1 R2) as HF. rewrite Hseq in R8, R10. pose proof rec_newest as Hnew. split.
  - by rewrite R6, Hwal.
  - cbn [g_sync g_tail G' recovered]. rewrite app_nil_r. pose proof (iv_recs _ _ HI) as Hall. rewrite Htl in Hall. by apply Forall_app in Hall as [Hall _].
  - rewrite rec_wal_es. apply rec_order.
  - pose proof (iv_seq _ _ HI). destruct R10 as [->|(x & Hin & ->)]; [lia|]. destruct (iv_known _ _ HI _ (rec_sync_known x Hin)) as (_ & ? & _). lia.
  - intros e He. rewrite HF. destruct (iv_known _ _ HI e (rec_known e He)) as (Ha & Hb0 & Hc & Hd & Hin). refine (conj Ha (conj (conj (proj1 Hb0) _) (conj Hc (conj Hd Hin)))). destruct He as [He|[key He]].
    + rewrite rec_wal_es in He. apply list_elem_of_fmap in He as (x & -> & Hin'). by apply R9.
    + pose proof (rec_newest_block key e He). lia.
  - intros e e' He He'. apply (iv_unique _ _ HI); by apply rec_known.
  - intros key e He. rewrite HF. by apply rec_place.
  - apply rec_groups.
  - intros key. assert (Hcw : chunk_writer s' key = None) by (unfold chunk_writer; rewrite R3, Hchunks; pose proof (rec_chunks key) as Hgs; destruct (chunks !! key) as [cs|]; [by destruct Hgs|done]). rewrite R5, Hfiles, Hcw. cbn [g_gs g_try G' recovered]. split; [|done]. destruct (Hx key) as [Hh _]. destruct (files' !! key); [done|]. by destruct Hh as [-> ->].
  - intros key. rewrite R3, Hchunks. pose proof (rec_chunks key) as Hgs. destruct (chunks !! key); [by destruct Hgs|done].
  - intros id st Est. destruct (rec_heads id st Est) as [Hs Hh]. split; [done|]. intros e He. rewrite HF. apply Hh in He as (seg & ? & ? & ? & ?). split_and!; [done|done|]. by exists seg.
  - done.
  - intros id e He. rewrite HF. split; [by apply (iv_acked _ _ HI)|by apply rec_acked].
  - destruct (iv_catalog _ _ HI) as (? & _). rewrite R4, R2, Hcat, Hstreams. split_and!; [done|done|]. intros id. by rewrite R11, Hbyid, Hload.
  - intros k id Hk. rewrite R2, Hstreams, Hst in Hk. apply R11. rewrite Hbyid, Hload. by eapply load_known.
Qed.
End AfterCrash.

(** The segments of the entries are in order. *)
Lemma wal_es_sorted (gs : list wrec) : StronglySorted le (to_rec <$> gs).*1 -> StronglySorted le (wal_es gs).*1.
Proof.
  intros Hs. induction gs as [|g gs IH]; [constructor|]. rewrite !fmap_cons in Hs. apply StronglySorted_inv in Hs as [Hs Hf]. specialize (IH Hs). unfold wal_es. rewrite bind_cons, fmap_app. fold (wal_es gs).
  assert (Hg : forall n, n ∈ (wrec_es g).*1 -> n = wr_seg g) by (intros n Hn; unfold wrec_es in Hn; rewrite <- list_fmap_compose in Hn; by apply list_elem_of_fmap in Hn as (x & -> & _)).
  assert (Hlater : forall n, n ∈ (wal_es gs).*1 -> (wr_seg g <= n)%nat) by (intros n ([seg e] & -> & Hin)%list_elem_of_fmap; apply wal_es_seg in Hin; rewrite List.Forall_forall in Hf; by apply Hf, list_elem_of_In).
  revert Hg. generalize ((wrec_es g).*1) as l. induction l as [|n l IHl]; intros Hg; [done|]. cbn [app]. constructor; [apply IHl; intros m Hm; apply Hg; by right|]. rewrite (Hg n ltac:(by left)). apply Forall_app. split; [|by apply List.Forall_forall; intros m Hm%list_elem_of_In; apply Hlater].
  apply List.Forall_forall. intros m Hm%list_elem_of_In. rewrite (Hg m); [done|by right].
Qed.

(** Opening the store after a crash succeeds and keeps every promise. *)
Lemma recover_inv s G files' d opts now calls : Inv s G -> crashed s files' -> wal_crash (s_wal s) d -> so_MaxStreams (with_defaults opts) = so_MaxStreams (s_opts s) ->
  exists s' G', OpenStore opts now calls (s_cat s) files' d = Ok s' /\ Inv s' G' /\ promise G G' /\ s_opts s' = with_defaults opts.
Proof.
  intros HI Hfiles Hwal Hopts. destruct (crash_blocks s G files' HI Hfiles) as (extra & Hx). destruct (wal_crash_ok _ _ _ _ (iv_wal _ _ HI) Hwal) as (b' & rest & w' & Hb & Hrec & Hkeep). apply fmap_app_inv in Hb as (tl1 & tl2 & -> & -> & Htl).
  destruct (iv_catalog _ _ HI) as (Hco & Hst & Hids). unfold OpenStore. destruct (load_streams (cat_streams (s_cat s))) as [streams byID] eqn:Eload. cbn [fst snd] in *. set (chunks := load_chunks byID files'). rewrite Hrec. rewrite <- fmap_app in Hkeep |- *. set (sync := g_sync G ++ tl1) in *.
  assert (Htl' : g_sync G ++ g_tail G = sync ++ tl2) by (rewrite Htl; apply app_assoc). assert (Hrecs : Forall wrec_ok sync) by (pose proof (iv_recs _ _ HI) as Hall; rewrite Htl' in Hall; by apply Forall_app in Hall as [Hall _]). rewrite (replay_log_list _ _ _ Hrecs).
  set (s0 := MkS (with_defaults opts) (newest_seq chunks) streams byID chunks false 0 (s_cat s) files' w' calls). assert (HF : forall e, filed s0 e = filed s e) by (intros e; apply (rec_filed s s0 Hopts (eq_sym Hst)); done).
  assert (Hentry : forall x, x ∈ wal_es sync -> loggable x.2 /\ exists id, filed s0 x.2 = Some id /\ is_Some (s_byID s0 !! id)).
  { intros x Hin. destruct (iv_known _ _ HI _ (rec_sync_known G sync tl2 Htl' x Hin)) as (_ & _ & Hlog & [id Hid] & _). split; [done|]. exists id. rewrite HF. split; [done|]. cbn [s_byID s0]. by eapply Hids, filed_stream. }
  assert (Hsegs : StronglySorted le (wal_es sync).*1) by (apply wal_es_sorted; destruct (wal_sorted _ _ _ Hkeep) as [Hs _]; by rewrite app_nil_r in Hs).
  destruct (replay_all s0 (sealed_seq chunks) now (wal_es sync) Hentry Hsegs) as (s' & Erun & Hr); [intros id st E; cbn [s_byID s0] in E; apply (load_empty (cat_streams (s_cat s)) id st); by rewrite Eload|].
  rewrite Erun. exists s', (recovered G sync extra). split_and!; [done| |done|apply (rp_opts _ _ _ _ Hr)].
  eapply (recovered_inv s G files' extra sync tl2 HI Htl' ltac:(by exists tl1) Hx byID Hids s0 s' w'); try done; by rewrite Eload.
Qed.
End Recover.
