(* ===== verification/LogStoreLife.v ===== *)
(** * Every acknowledged log is in the store exactly once

    Retention and shutdown, the life of a store as a relation on its states, and what holds in all of
    them. *)

From Stdlib Require Import ZArith Lia.
From Stdlib Require Import (notations) String.
From stdpp Require Import base gmap numbers list sorting.
From S2P Require Import Prelude Wal WalProofs WalSafety Gostring Names HeadRecord BlockFile BlockIndex Utf8 Logql LogBloom LogChunk LogChunkProofs LogSearch LogSearchOrder LogStore LogStoreInv LogStoreSeal LogStoreRecover.

Section Life.
Context `{LogCodec} `{CaseMap} `{Zstd} {W D F C : Type} `{StoreWal W D} `{ChunkFiles F C} `{!StoreWalLaws W D} `{!ChunkFilesLaws F C}.
Abbreviation Store := (@Store W F C).
Implicit Types (s : Store) (G : ghost).

(** ** Retention *)

(** A pass lets go of the logs of the days that have expired. *)
Definition stays (cutoff : Z) (x : Z * rawEntry) : bool := negb (expired cutoff (dayOf (re_Ts x.2))).
Definition release (cutoff : Z) G : ghost :=
  MkG (g_sync G) (g_tail G) (g_gs G) (g_try G) (filter (fun x => stays cutoff x) (g_acked G)) (g_loose G ++ (g_acked G).*2).
Lemma inv_release s G cutoff : Inv s G -> Inv s (release cutoff G).
Proof.
  intros HI. split; try apply HI.
  - intros e He. destruct (iv_known _ _ HI e He) as (Ha & Hb & Hc & Hd & Hin). refine (conj Ha (conj Hb (conj Hc (conj Hd _)))). cbn [g_acked g_loose release]. apply elem_of_app. right. apply elem_of_app. apply elem_of_app in Hin as [Hin|Hin]; [by right|by left].
  - intros id e He. cbn [g_acked release] in He. apply list_elem_of_filter in He as [_ He]. by apply (iv_acked _ _ HI).
Qed.

Definition drop_blocks (key : chunkKey) G : ghost :=
  MkG (g_sync G) (g_tail G) (fun k => if decide (k = key) then [] else g_gs G k) (set_try key None G) (g_acked G) (g_loose G).
Definition drop_chunk (key : chunkKey) s : Store := set_files (delete key (s_files s)) (set_chunks (delete key (s_chunks s)) s).

Lemma inv_drop s G key : Inv s G -> (forall id e, (id, e) ∈ g_acked G -> dayOf (re_Ts e) <> key.2) -> Inv (drop_chunk key s) (drop_blocks key G).
Proof.
  intros HI Hday. set (s' := drop_chunk key s). set (G' := drop_blocks key G). assert (HF : forall e, filed s' e = filed s e) by (intros e; by apply same_filed).
  assert (Hb : forall k, in_blocks G' k = if decide (k = key) then [] else in_blocks G k) by (intros k; unfold in_blocks; cbn [g_gs G' drop_blocks]; by case_decide).
  assert (Hk : forall e, known G' e -> known G e) by (intros e [He|[k He]]; [by left|right]; rewrite Hb in He; case_decide; [by apply not_elem_of_nil in He|by exists k]).
  assert (Hs : forall k, sealed_at G' k <= sealed_at G k) by (intros k; unfold sealed_at; cbn [g_gs G' drop_blocks]; case_decide; [exact (proj1 (fold_max_spec (bm_LastSeq <$> (g_gs G k).*1) 0))|done]). split; try apply HI; try done.
  - intros e He%Hk. rewrite HF. by apply (iv_known _ _ HI).
  - intros e e' He%Hk He'%Hk. by apply (iv_unique _ _ HI).
  - intros k e. rewrite Hb, HF. case_decide; [intros He; by apply not_elem_of_nil in He|apply (iv_place _ _ HI)].
  - intros k. rewrite Hb. cbn [g_gs G' drop_blocks]. case_decide; [split; constructor|apply (iv_blocks _ _ HI)].
  - intros k. unfold s', chunk_writer. cbn [s_files s_chunks drop_chunk set_files set_chunks g_gs g_try G' drop_blocks]. unfold set_try. case_decide as E; [subst; by rewrite !lookup_delete_eq|]. rewrite !lookup_delete_ne by done. apply (iv_files _ _ HI).
  - intros k. unfold s'. cbn [s_chunks drop_chunk set_files set_chunks g_gs G' drop_blocks]. case_decide as E; [subst; by rewrite lookup_delete_eq|]. rewrite lookup_delete_ne by done. apply (iv_chunks _ _ HI).
  - intros id st Est. destruct (iv_heads _ _ HI id st Est) as [Hsort Hh]. split; [done|]. intros e He. rewrite HF. destruct (Hh e He) as (? & ? & ?). split_and!; try done. specialize (Hs (id, dayOf (re_Ts e))). lia.
  - intros k es. cbn [g_try G' drop_blocks]. unfold set_try. case_decide; [done|]. apply (iv_try _ _ HI).
  - intros id e He. rewrite HF, Hb. destruct (iv_acked _ _ HI id e He) as [? [Hin|Hin]]; (split; [done|]); [by left|right]. case_decide as E; [|done]. exfalso. apply (Hday id e He). by rewrite <- E.
Qed.

Lemma expire_chunk_inv key s G s' r : Inv s G -> (forall id e, (id, e) ∈ g_acked G -> dayOf (re_Ts e) <> key.2) -> expire_chunk key s = (s', r) ->
  exists es, r = Ok es /\ (es = [] -> exists G', Inv s' G' /\ promise G G' /\ framed s s').
Proof.
  intros HI Hday. unfold expire_chunk, try_. unfold mbind at 1, SE_bind at 1. destruct (closeWriter key s) as [s1 r1] eqn:E1. cbn [fst]. destruct (closeWriter_inv _ _ _ _ _ HI E1) as (t & HI1 & Hs1). rewrite modify_bind. unfold on_stream. rewrite modify_bind. unfold remove_file.
  set (s2 := set_byID _ _). destruct (store_call_spec s2) as (cs & oc & Ec). rewrite (bind_ok _ _ _ _ _ Ec). destruct (oc_renamed oc); [|intros [= <- <-]; by eexists]. rewrite modify_bind. intros [= <- <-]. exists []. split; [done|]. intros _. exists (drop_blocks key (with_try t G)).
  assert (Hsame : same s1 (set_calls cs (set_byID (s_byID s2) s1))).
  { split; try done. intros id. cbn [s_byID set_calls set_byID s2]. cbn [s_byID set_chunks]. destruct (decide (id = key.1)) as [->|Hne]; [rewrite lookup_alter_eq; destruct (s_byID s1 !! key.1) as [st|]; [cbn; by case_decide|done]|by rewrite lookup_alter_ne]. }
  split_and!; [|done|destruct (same_framed _ _ Hs1); by split]. apply (inv_drop (set_calls cs (set_byID (s_byID s2) s1)) (with_try t G) key); [by eapply inv_same|done].
Qed.

(** Removals that fail are collected. *)
Lemma expire_chunk_total key s : exists s' es, expire_chunk key s = (s', Ok es).
Proof.
  unfold expire_chunk, try_. unfold mbind at 1, SE_bind at 1. destruct (closeWriter key s) as [s1 r1]. cbn [fst]. rewrite modify_bind. unfold on_stream. rewrite modify_bind. unfold remove_file.
  set (s2 := set_byID _ _). destruct (store_call_spec s2) as (cs & oc & Ec). rewrite (bind_ok _ _ _ _ _ Ec). destruct (oc_renamed oc); [rewrite modify_bind|]; eauto.
Qed.
Lemma expire_all_total keys : forall s, exists s' es, expire_all keys s = (s', Ok es).
Proof.
  induction keys as [|key keys IH]; intros s; cbn [expire_all]; [by exists s, []|]. destruct (expire_chunk_total key s) as (s1 & a & E1). rewrite (bind_ok _ _ _ _ _ E1). destruct (IH s1) as (s2 & b & E2). rewrite (bind_ok _ _ _ _ _ E2). by exists s2, (a ++ b).
Qed.

Lemma expire_all_inv keys : forall s G s', Inv s G -> (forall key, key ∈ keys -> forall id e, (id, e) ∈ g_acked G -> dayOf (re_Ts e) <> key.2) -> expire_all keys s = (s', Ok []) ->
  exists G', Inv s' G' /\ promise G G' /\ framed s s'.
Proof.
  induction keys as [|key keys IH]; intros s G s' HI Hday; cbn [expire_all]; [intros [= <-]; by exists G|]. destruct (expire_chunk_total key s) as (s1 & a & E1). rewrite (bind_ok _ _ _ _ _ E1). destruct (expire_all_total keys s1) as (s2 & b & E2). rewrite (bind_ok _ _ _ _ _ E2). intros E. injection E as -> [-> ->]%app_eq_nil.
  destruct (expire_chunk_inv _ _ _ _ _ HI (Hday key ltac:(by left)) E1) as (es1 & [= <-] & Hok1). destruct (Hok1 eq_refl) as (G1 & HI1 & [Ha1 Hl1] & Hf1).
  destruct (IH _ _ _ HI1 ltac:(intros k Hk; rewrite Ha1; apply Hday; by right) E2) as (G2 & HI2 & [Ha2 Hl2] & Hf2). exists G2. split_and!; [done|split; congruence|by etransitivity].
Qed.

Lemma expire_inv shuffle_keys now s G s' : Inv s G -> (forall l x, x ∈ shuffle_keys l -> x ∈ l) -> expire shuffle_keys now s = (s', Ok tt) ->
  exists G', Inv s' G' /\ promise (release (now - so_Retention (s_opts s)) G) G' /\ framed s s'.
Proof.
  intros HI Hsh. unfold expire. rewrite (bind_ok get _ s s s) by done. set (cutoff := now - so_Retention (s_opts s)). intros [(s1 & es & E1 & E)|(e & _ & ?)]%bind_cases; [|done]. destruct es as [|e es]; [|done]. injection E as <-.
  eapply (expire_all_inv _ s (release cutoff G) s1 (inv_release s G cutoff HI)); [|exact E1].
  intros key Hkey id e He. apply Hsh, list_elem_of_filter in Hkey as [Hexp _]. cbn [g_acked release] in He. apply list_elem_of_filter in He as [Hst _]. unfold stays in Hst. cbn [snd] in Hst. intros Hd. rewrite Hd in Hst. by destruct (expired cutoff key.2).
Qed.

(** ** Sealing and closing *)

Lemma joined_spec s s' es r : @joined W F C es s = (s', r) -> s' = s /\ (r = Ok tt -> es = []).
Proof. destruct es; intros [= <- <-]; done. Qed.

Lemma sealAll_inv shuffle want s G s' r : Inv s G -> sealAll shuffle want s = (s', r) ->
  exists G', Inv s' G' /\ promise G G' /\ framed s s' /\ (r = Ok tt -> (forall l, shuffle l ≡ₚ l) -> (forall st, want st = true) -> forall id, head_of s' id = []).
Proof.
  intros HI. unfold sealAll. rewrite (bind_ok get _ s s s) by done. intros [(s1 & es & E1 & E)|(e & E1 & ->)]%bind_cases; destruct (seal_each_inv _ _ _ _ _ HI E1) as (G1 & es' & HI1 & Hp & Hf & Er & Hok & Hkeep); [|done]. injection Er as ->. apply joined_spec in E as [-> Hes].
  exists G1. split_and!; try done. intros -> Hsh Hwant id. destruct (head_of s id) as [|e es] eqn:Eh; [by apply Hkeep|]. apply Hok; [by apply Hes|]. rewrite Hsh. apply list_elem_of_filter. unfold head_of in Eh. destruct (s_byID s !! id) as [st|] eqn:Est; [|done]. split.
  - unfold wanted. rewrite Est, Eh. by rewrite Hwant.
  - apply list_elem_of_fmap. exists (id, st). split; [done|]. by apply elem_of_map_to_list.
Qed.

Lemma close_all_inv keys : forall s G s' r, Inv s G -> close_all keys s = (s', r) -> exists G', Inv s' G' /\ promise G G' /\ framed s s' /\ exists es, r = Ok es.
Proof.
  induction keys as [|k keys IH]; intros s G s' r HI; cbn [close_all]; [intros [= <- <-]; exists G; split_and!; try done; eauto|]. unfold try_, mbind at 1, SE_bind at 1. destruct (closeWriter k s) as [s1 r1] eqn:E1. cbn [fst snd]. destruct (closeWriter_inv _ _ _ _ _ HI E1) as (t & HI1 & Hs1).
  intros [(s2 & es & E2 & E)|(e & E2 & ->)]%bind_cases; destruct (IH _ _ _ _ HI1 E2) as (G2 & HI2 & Hp & Hf & es' & Er); [|done]. injection E as <- <-. exists G2. split_and!; [done|done| |by eexists]. etransitivity; [by apply same_framed|done].
Qed.

Lemma StoreClose_inv shuffle shuffle_keys s G s' r : Inv s G -> StoreClose shuffle shuffle_keys s = (s', r) -> exists G', Inv s' G' /\ promise G G' /\ s_opts s' = s_opts s.
Proof.
  intros HI. unfold StoreClose. rewrite (bind_ok get _ s s s) by done. destruct (s_closed s); [intros [= <- _]; by exists G|]. rewrite modify_bind. assert (HI0 : Inv (set_closed s) G) by (split; apply HI). unfold try_. unfold mbind at 1, SE_bind at 1. destruct (sealAll shuffle (fun _ => true) (set_closed s)) as [s1 r1] eqn:E1. cbn [fst snd].
  destruct (sealAll_inv _ _ _ _ _ _ HI0 E1) as (G1 & HI1 & [Ha1 Hl1] & Hf1 & _). rewrite (bind_ok get _ s1 s1 s1) by done. intros [(s2 & es2 & E2 & E)|(e & E2 & ->)]%bind_cases; destruct (close_all_inv _ _ _ _ _ HI1 E2) as (G2 & HI2 & [Ha2 Hl2] & Hf2 & es2' & Er2); [|done]. clear Er2 E1 E2.
  revert E. unfold mbind at 1, SE_bind at 1. destruct (truncateWAL s2) as [s3 r3] eqn:E3. cbn [fst snd]. destruct (truncateWAL_inv _ _ _ _ HI2 E3) as (G3 & HI3 & [Ha3 Hl3] & Hf3 & _). unfold mbind at 1, SE_bind at 1. unfold on_wal at 1 2. destruct (wal_Close (s_wal s3)) as [w rw] eqn:Ew. cbn [fst snd].
  pose proof (inv_wal s3 G3 w HI3 (wal_Close_ok _ _ _ _ _ (iv_wal _ _ HI3) Ew)) as HI4. unfold mbind at 1, SE_bind at 1. destruct (call_ok_spec (set_wal w s3) SErrCatalog) as (cs & rc & Ec). rewrite Ec. cbn [fst snd]. intros [-> _]%joined_spec. exists G3. split_and!; [|split; congruence|].
  - apply (inv_same (set_wal w s3)); [done|by split|done|done].
  - cbn [s_opts set_calls set_wal]. rewrite (fr_opts _ _ Hf3), (fr_opts _ _ Hf2), (fr_opts _ _ Hf1). done.
Qed.

(** ** What the store holds *)

Definition read_entries s (key : chunkKey) (m : BlockMeta) : list rawEntry :=
  match s_files s !! key with Some f => match cf_read f m with Ok es => es | Err _ => [] end | None => [] end.
Definition head_contents s : list (Z * rawEntry) := map_to_list (s_byID s) ≫= fun x => (x.1,.) <$> st_head x.2.
Definition block_contents s : list (Z * rawEntry) := map_to_list (s_chunks s) ≫= fun x => (x.1.1,.) <$> (cs_blocks x.2 ≫= read_entries s x.1).
(** Each log with its stream, as a search finds it. *)
Definition contents s : list (Z * rawEntry) := head_contents s ++ block_contents s.

Lemma read_blocks s G key cs : Inv s G -> s_chunks s !! key = Some cs -> cs_blocks cs ≫= read_entries s key = in_blocks G key.
Proof.
  intros HI Ec. pose proof (iv_chunks _ _ HI key) as Hb. rewrite Ec in Hb. destruct (iv_files _ _ HI key) as [Hf _]. unfold in_blocks, read_entries. destruct (s_files s !! key) as [f|] eqn:Ef; [|destruct Hf as [E _]; rewrite E in *; cbn in Hb; by apply fmap_nil_inv in Hb as ->].
  assert (Hread : forall m es m', (m, es) ∈ g_gs G key -> no_crc m' = no_crc m -> cf_read f m' = Ok es) by (intros m es m' Hin Heq; by eapply cf_read_ok). revert Hb Hread. clear. generalize (cs_blocks cs). generalize (g_gs G key). induction l as [|[m es] gs IH]; intros [|b bs] Hb Hread; try done.
  rewrite !fmap_cons in Hb. cbn [fst] in Hb. apply (inj2 cons) in Hb as [Hm Hb]. rewrite !bind_cons. rewrite (Hread m es b) by (done || by left). cbn [snd]. f_equal. apply IH; [done|]. intros m0 es0 m' Hin. apply Hread. by right.
Qed.

Lemma in_head s id e : (id, e) ∈ head_contents s <-> e ∈ head_of s id /\ is_Some (s_byID s !! id).
Proof.
  unfold head_contents. rewrite list_elem_of_bind. split.
  - intros ([id' st] & He & Hk). apply list_elem_of_fmap in He as (x & [= -> ->] & Hx). apply elem_of_map_to_list in Hk. cbn [fst snd] in *. unfold head_of. rewrite Hk. split; [done|by eexists].
  - intros [He [st Est]]. exists (id, st). split; [|by apply elem_of_map_to_list]. apply list_elem_of_fmap. exists e. split; [done|]. unfold head_of in He. by rewrite Est in He.
Qed.
Lemma in_chunks s G id e : Inv s G -> (id, e) ∈ block_contents s <-> exists key, e ∈ in_blocks G key /\ key.1 = id.
Proof.
  intros HI. unfold block_contents. rewrite list_elem_of_bind. split.
  - intros ([key cs] & He & Hk). apply elem_of_map_to_list in Hk. cbn [fst snd] in *. rewrite (read_blocks s G key cs HI Hk) in He. apply list_elem_of_fmap in He as (x & [= -> ->] & Hx). by exists key.
  - intros (key & He & <-). pose proof (iv_chunks _ _ HI key) as Hc. destruct (s_chunks s !! key) as [cs|] eqn:Ec; [|unfold in_blocks in He; rewrite Hc in He; by apply not_elem_of_nil in He]. exists (key, cs). split; [|by apply elem_of_map_to_list]. cbn [fst snd]. rewrite (read_blocks s G key cs HI Ec). apply list_elem_of_fmap. by exists e.
Qed.

Lemma contents_NoDup s G : Inv s G -> NoDup (contents s).
Proof.
  intros HI. apply NoDup_app. split_and!.
  - apply NoDup_bind; [|intros [id st] Hk|apply NoDup_map_to_list].
    + intros [id st] [id' st'] x Hk Hk' Hx Hx'. apply elem_of_map_to_list in Hk, Hk'. cbn [fst snd] in *. apply list_elem_of_fmap in Hx as (e & -> & _), Hx' as (e' & [= <- _] & _). congruence.
    + apply elem_of_map_to_list in Hk. cbn [fst snd]. apply NoDup_fmap_2; [by intros a b [= ->]|]. eapply NoDup_fmap_1, increasing_NoDup, (iv_heads _ _ HI id st Hk).
  - intros [id e] [He _]%in_head (key & Hk & <-)%(in_chunks s G _ _ HI). pose proof (sealed_in _ _ _ _ HI Hk) as Hle. destruct (iv_place _ _ HI key e Hk) as [_ Hd]. unfold head_of in He. destruct (s_byID s !! key.1) as [st|] eqn:Est; [|by apply not_elem_of_nil in He]. destruct (iv_heads _ _ HI _ st Est) as [_ Hh]. destruct (Hh e He) as (_ & Hlt & _). rewrite Hd in Hlt. destruct key. cbn [fst snd] in *. lia.
  - apply NoDup_bind; [|intros [key cs] Hk|apply NoDup_map_to_list].
    + intros [k cs] [k' cs'] x Hk Hk' Hx Hx'. apply elem_of_map_to_list in Hk, Hk'. cbn [fst snd] in *. rewrite (read_blocks s G _ _ HI Hk) in Hx. rewrite (read_blocks s G _ _ HI Hk') in Hx'. apply list_elem_of_fmap in Hx as (e & -> & Hx), Hx' as (e' & [= _ <-] & Hx').
      apply (iv_place _ _ HI) in Hx as [Hf Hd], Hx' as [Hf' Hd']. assert (k = k') as -> by (destruct k, k'; cbn in *; congruence). congruence.
    + apply elem_of_map_to_list in Hk. cbn [fst snd]. rewrite (read_blocks s G _ _ HI Hk). apply NoDup_fmap_2; [by intros a b [= ->]|]. apply (iv_blocks _ _ HI key).
Qed.
Lemma contents_known s G x : Inv s G -> x ∈ contents s -> known G x.2 /\ filed s x.2 = Some x.1.
Proof.
  intros HI. destruct x as [id e]. unfold contents. rewrite elem_of_app. cbn [fst snd]. intros [[He _]%in_head|(key & He & <-)%(in_chunks s G _ _ HI)].
  - split; [by eapply head_known|]. by eapply head_filed.
  - split; [right; by exists key|]. by apply (iv_place _ _ HI).
Qed.
Lemma contents_seqs s G : Inv s G -> NoDup (re_Seq <$> (contents s).*2).
Proof.
  intros HI. pose proof (contents_NoDup s G HI) as Hn. pose proof (contents_known s G) as Hk. specialize (fun x => Hk x HI). induction (contents s) as [|x l IH]; [constructor|]. rewrite !fmap_cons. apply NoDup_cons in Hn as [Hx Hn]. apply NoDup_cons. split.
  - intros (e & E & He)%list_elem_of_fmap. apply list_elem_of_fmap in He as (y & -> & Hy). destruct (Hk x ltac:(by left)) as [Hkx Hfx], (Hk y ltac:(by right)) as [Hky Hfy]. pose proof (iv_unique _ _ HI _ _ Hkx Hky E) as Exy. apply Hx. destruct x as [i e], y as [i' e']. cbn [fst snd] in *. subst e'. assert (i = i') as -> by congruence. done.
  - apply IH; [done|]. intros y Hy. apply Hk. by right.
Qed.

(** ** The life of a store *)

(** [store_reach s acked loose]: the store is in state [s], has acknowledged the logs [acked], each
    with its stream, and may also hold the logs [loose]. *)
Inductive store_reach : Store -> list (Z * rawEntry) -> list rawEntry -> Prop :=
| SR_new opts now calls d w s : wal_Recover d = Ok ([], w) -> wal_keeps w [] [] -> OpenStore opts now calls (MkCatalog [] [] 0) ∅ d = Ok s ->
    store_reach s [] []
| SR_append s acked loose now batch s' r : store_reach s acked loose -> Forall storable batch -> s_seq s + ulen batch < 2 ^ 64 -> one_write s batch ->
    Append now batch s = (s', r) ->
    store_reach s' (acked ++ (match r with Ok _ => promised s' (new_entries s batch) | Err _ => [] end)) (loose ++ new_entries s batch)
| SR_seal s acked loose shuffle want s' r : store_reach s acked loose -> sealAll shuffle want s = (s', r) -> store_reach s' acked loose
| SR_expire s acked loose shuffle_keys now s' : store_reach s acked loose -> (forall l x, x ∈ shuffle_keys l -> x ∈ l) -> expire shuffle_keys now s = (s', Ok tt) ->
    store_reach s' (filter (fun x => stays (now - so_Retention (s_opts s)) x) acked) (loose ++ acked.*2)
| SR_close s acked loose shuffle shuffle_keys s' r : store_reach s acked loose -> StoreClose shuffle shuffle_keys s = (s', r) -> store_reach s' acked loose
| SR_crash s acked loose files' d opts now calls s' : store_reach s acked loose -> crashed s files' -> wal_crash (s_wal s) d ->
    so_MaxStreams (with_defaults opts) = so_MaxStreams (s_opts s) -> OpenStore opts now calls (s_cat s) files' d = Ok s' -> store_reach s' acked loose.

Lemma new_inv opts now calls d w s : wal_Recover d = Ok ([], w) -> wal_keeps w [] [] -> OpenStore opts now calls (MkCatalog [] [] 0) ∅ d = Ok s -> Inv s (MkG [] [] (fun _ => []) (fun _ => None) [] []).
Proof.
  intros Hrec Hk. unfold OpenStore. rewrite Hrec. cbn [load_streams cat_streams ct_streams fmap list_fmap foldl replay_log]. intros E. injection E as <-. assert (Hno : forall e, ~ known (MkG [] [] (fun _ => []) (fun _ => None) [] []) e) by (intros e [He|[key He]]; by apply not_elem_of_nil in He).
  split; try done; cbn [g_sync g_tail g_gs g_try g_acked g_loose s_seq s_files s_chunks s_byID s_streams s_cat].
  - constructor.
  - by intros e He%Hno.
  - by intros e e' He%Hno.
  - intros key e He. by apply not_elem_of_nil in He.
  - intros key. split; constructor.
  - intros id e He. by apply not_elem_of_nil in He.
  - split_and!; [|done|done]. split; [intros id key He|intros r He]; by apply not_elem_of_nil in He.
Qed.

Lemma reach_ghost s acked loose : store_reach s acked loose -> exists G, Inv s G /\ g_acked G = acked /\ g_loose G = loose.
Proof.
  induction 1 as [opts now calls d w s Hrec Hk Eo|s acked loose now batch s' r _ (G & HI & <- & <-) Hst Hmax Hone E|s acked loose shuffle want s' r _ (G & HI & <- & <-) E|s acked loose sk now s' _ (G & HI & <- & <-) Hsh E|s acked loose sh sk s' r _ (G & HI & <- & <-) E|s acked loose files' d opts now calls s' _ (G & HI & <- & <-) Hf Hw Ho E].
  - eexists. split; [by eapply new_inv|done].
  - destruct (Append_inv _ _ _ _ _ _ HI Hst Hmax Hone E) as (G' & HI' & [Ha Hl] & _). by exists G'.
  - destruct (sealAll_inv _ _ _ _ _ _ HI E) as (G' & HI' & [Ha Hl] & _). by exists G'.
  - destruct (expire_inv _ _ _ _ _ HI Hsh E) as (G' & HI' & [Ha Hl] & _). by exists G'.
  - destruct (StoreClose_inv _ _ _ _ _ _ HI E) as (G' & HI' & [Ha Hl] & _). by exists G'.
  - destruct (recover_inv _ _ _ _ _ now calls HI Hf Hw Ho) as (s1 & G' & E1 & HI' & [Ha Hl] & _). rewrite E in E1. injection E1 as <-. by exists G'.
Qed.


(** Flushing empties every head: when it reports success, every log the store holds is in a block. *)
Theorem flush_seals_all shuffle s acked loose s' : store_reach s acked loose -> (forall l, shuffle l ≡ₚ l) -> Flush shuffle s = (s', Ok tt) ->
  (forall id, head_of s' id = []) /\ forall x, x ∈ acked -> x ∈ block_contents s'.
Proof.
  intros Hr Hsh. destruct (reach_ghost _ _ _ Hr) as (G & HI & <- & <-). unfold Flush. rewrite (bind_ok get _ s s s) by done. destruct (s_closed s); [done|]. intros E. destruct (sealAll_inv _ _ _ _ _ _ HI E) as (G' & HI' & [Ha Hl] & _ & Hall). specialize (Hall eq_refl Hsh (fun _ => eq_refl)). split; [done|].
  intros [id e] He. rewrite <- Ha in He. destruct (iv_acked _ _ HI' id e He) as [_ [Hin|Hin]]; [rewrite Hall in Hin; by apply not_elem_of_nil in Hin|]. apply (in_chunks s' G' _ _ HI'). by eexists.
Qed.
End Life.
