(* ===== verification/LogStoreWal.v ===== *)
(** * The write-ahead log behind the log store

    The log of internal/tsdb/wal as the store uses it: replay with the segment each record ends in
    ([r.End().Segment]), and the store's interface to a log implemented by [Log], [Sync],
    [Truncate], [Close], [Repair] and [Open]. Every law the store relies on is proved of them. *)

From Stdlib Require Import ZArith Lia.
From stdpp Require Import base gmap numbers list sorting.
From S2P Require Import Prelude Wal WalProofs WalTruncate WalSafety LogStore LogStoreInv.

(** ** Replaying with segments *)

Fixpoint replay_at_loop (fuel : nat) (r : WReader) : list (nat * Record_) * WReader :=
  match fuel with
  | O => ([], r)
  | S fuel' =>
      match ReaderNext r with
      | (r', true) => let '(rs, r'') := replay_at_loop fuel' r' in ((Z.to_nat (p_Segment (rd_end_ r')), rd_rec r') :: rs, r'')
      | (r', false) => ([], r')
      end
  end.
Definition replay_at (d : Dir) : list (nat * Record_) * WReader := replay_at_loop (log_bytes (NewReader d) + 1) (NewReader d).

Inductive replays_at : WReader -> list (nat * Record_) -> WReader -> Prop :=
| ra_done r r' : ReaderNext r = (r', false) -> replays_at r [] r'
| ra_step r r1 n rs r' : ReaderNext r = (r1, true) -> n = Z.to_nat (p_Segment (rd_end_ r1)) -> replays_at r1 rs r' -> replays_at r ((n, rd_rec r1) :: rs) r'.

Lemma at_same r1 r2 rs r' : ReaderNext r1 = ReaderNext r2 -> replays_at r2 rs r' -> replays_at r1 rs r'.
Proof. intros H Hr. inversion Hr; subst; econstructor; eauto; congruence. Qed.
Lemma at_plain r rs r' : replays_at r rs r' -> replays r rs.*2 r'.
Proof. induction 1; econstructor; eauto. Qed.
Lemma at_loop r rs r' : replays_at r rs r' -> forall fuel, (length rs < fuel)%nat -> replay_at_loop fuel r = (rs, r').
Proof.
  induction 1 as [r r' H|r r1 n rs r' H -> _ IH]; intros fuel Hf; (destruct fuel as [|fuel]; [lia|]); cbn [replay_at_loop]; rewrite H; [done|].
  rewrite IH; [done|simpl in Hf; lia].
Qed.

Lemma at_frames rs : forall r rest rs' r' n, Forall record_ok rs -> rd_f r = Some (frames rs ++ rest) -> p_Offset (rd_end_ r) = rd_off r -> p_Segment (rd_end_ r) = Z.of_nat n ->
  replays_at (advance rs rest r) rs' r' -> replays_at r (((n,.) <$> rs) ++ rs') r'.
Proof.
  induction rs as [|x rs IH]; intros r rest rs' r' n Hok Hf Hoff Hn H; cbn [app fmap list_fmap].
  - eapply at_same; [|exact H]. unfold advance. cbn [frames mbind list_bind length last default from_option]. rewrite Z.add_0_r. f_equal. destruct r as [?????????? []]. cbn in *. by simplify_eq.
  - apply Forall_cons_1 in Hok as [Hx Hok]. rewrite frames_cons, <- app_assoc in Hf. pose proof (readRecord_frame x (frames rs ++ rest) r Hx) as Hr. assert (rd_rec (advance [x] (frames rs ++ rest) r) = x) as Hx' by done. rewrite <- Hx' at 1.
    eapply ra_step; [by apply (next_step r _ _ true Hf)|cbn [advance rd_end_ p_Segment]; by rewrite Hn, Nat2Z.id|]. eapply IH; [done|done|done|done|].
    replace (advance rs rest (advance [x] (frames rs ++ rest) r)) with (advance (x :: rs) rest r); [done|]. unfold advance.
    cbn [rd_dir rd_files rd_idx rd_f rd_size rd_off rd_last rd_strict rd_rec rd_err rd_end_ p_File p_Segment]. rewrite frames_one, frames_cons, length_app.
    replace (rd_off r + Z.of_nat (length (frame x)) + Z.of_nat (length (frames rs))) with (rd_off r + Z.of_nat (length (frame x) + length (frames rs))) by lia. f_equal. rewrite last_cons. by destruct (last rs).
Qed.

Lemma at_file r n rs rs' r' : rd_f r = None -> rd_files r !! rd_idx r = Some (Seg n) -> file_of (rd_dir r) (Seg n) = Some (frames rs) -> Forall record_ok rs ->
  replays_at (set_unread None (advance rs [] (openNext (Seg n) r))) rs' r' -> replays_at r (((n,.) <$> rs) ++ rs') r'.
Proof.
  intros Hf Hn Hc Hok H. eapply at_same; [by apply next_open|]. eapply (at_frames rs _ []); [done| |done|done|].
  - cbn [openNext rd_f]. by rewrite Hc, app_nil_r.
  - eapply at_same; [|exact H]. by apply next_eof.
Qed.

(** The records of the last file take the reader from its opening to the end of the replay. *)
Lemma at_last_file r n rs : rd_f r = None -> rd_files r !! rd_idx r = Some (Seg n) -> S (rd_idx r) = length (rd_files r) -> rd_err r = None ->
  file_of (rd_dir r) (Seg n) = Some (frames rs) -> Forall record_ok rs -> exists r', replays_at r ((n,.) <$> rs) r' /\ rd_err r' = None.
Proof.
  intros Hf Hn Hlast He Hc Hok. set (r1 := set_unread None (advance rs [] (openNext (Seg n) r))). exists r1. split; [|done].
  rewrite <- (app_nil_r ((n,.) <$> rs)). eapply at_file; try done. constructor. apply next_end; [done|]. cbn [r1 set_unread advance openNext rd_files rd_idx]. apply lookup_ge_None. lia.
Qed.

Lemma at_files init : forall r (g : nat -> list Record_) n rs, drop (rd_idx r) (rd_files r) = (Seg <$> init) ++ [Seg n] -> rd_f r = None -> rd_err r = None ->
  (forall k, k ∈ init -> file_of (rd_dir r) (Seg k) = Some (frames (g k)) /\ Forall record_ok (g k)) ->
  file_of (rd_dir r) (Seg n) = Some (frames rs) -> Forall record_ok rs ->
  exists r', replays_at r ((init ≫= fun k => (k,.) <$> g k) ++ ((n,.) <$> rs)) r' /\ rd_err r' = None.
Proof.
  induction init as [|f init IH]; intros r g n rs Hd Hf He Hg Hc Hok.
  - cbn [app mbind list_bind]. eapply at_last_file; eauto.
    + rewrite <- (Nat.add_0_r (rd_idx r)), <- lookup_drop, Hd. done.
    + apply (f_equal length) in Hd. rewrite length_drop in Hd. simpl in Hd. lia.
  - destruct (Hg f) as [Hgf Hgok]; [by left|]. set (r1 := set_unread None (advance (g f) [] (openNext (Seg f) r))). destruct (IH r1 g n rs) as (r' & Hr' & He'); try done.
    + cbn [r1 set_unread advance openNext rd_idx rd_files]. rewrite <- Nat.add_1_r, <- drop_drop, Hd. done.
    + intros k Hk. apply Hg. by right.
    + exists r'. split; [|done]. rewrite bind_cons, <- app_assoc. eapply at_file; eauto. rewrite <- (Nat.add_0_r (rd_idx r)), <- lookup_drop, Hd. done.
Qed.

(** ** A log's records with their segments *)

Definition tagged (m : recmap) : list (nat * Record_) := listNumbered m ≫= fun n => (n,.) <$> default [] (m !! n).

Lemma tagged_newest m n rs : m !! n = Some rs -> (forall k, is_Some (m !! k) -> (k <= n)%nat) -> tagged m = tagged (delete n m) ++ ((n,.) <$> rs).
Proof.
  intros Hn Hmax. unfold tagged. rewrite (listNumbered_max m n rs), bind_app by done. cbn [mbind list_bind]. rewrite Hn, app_nil_r. cbn [default from_option id]. f_equal.
  apply bind_ext_in. intros k [y Hy]%elem_of_listNumbered. rewrite Hy. by apply lookup_delete_Some in Hy as [_ ->].
Qed.
Lemma tagged_append m n rs pre : m !! n = Some rs -> (forall k, is_Some (m !! k) -> (k <= n)%nat) -> tagged (<[n := rs ++ pre]> m) = tagged m ++ ((n,.) <$> pre).
Proof.
  intros Hn Hmax. rewrite (tagged_newest m n rs) by done. rewrite (tagged_newest (<[n := rs ++ pre]> m) n (rs ++ pre)); [|apply lookup_insert_eq|intros k Hk; rewrite lookup_insert_is_Some in Hk; destruct Hk as [->|[_ Hk]]; [done|eauto]].
  by rewrite delete_insert_eq, fmap_app, app_assoc.
Qed.
Lemma elem_of_tagged m x : x ∈ tagged m <-> exists rs, m !! x.1 = Some rs /\ x.2 ∈ rs.
Proof.
  unfold tagged. rewrite list_elem_of_bind. split.
  - intros (n & Hx & [rs Hn]%elem_of_listNumbered). rewrite Hn in Hx. apply list_elem_of_fmap in Hx as (y & -> & Hy). by exists rs.
  - intros (rs & Hm & Hx). exists x.1. split; [|apply elem_of_listNumbered; by eexists]. rewrite Hm. apply list_elem_of_fmap. exists x.2. split; [by destruct x|done].
Qed.

Lemma sorted_bind l (g : nat -> list Record_) : StronglySorted le l -> StronglySorted le (l ≫= fun n => (n,.) <$> g n).*1.
Proof.
  induction 1 as [|n l Hl IH Hn]; [constructor|]. rewrite bind_cons, fmap_app. assert (Hg : ((n,.) <$> g n).*1 = replicate (length (g n)) n) by (rewrite <- list_fmap_compose; induction (g n); cbn; by f_equal). rewrite Hg. clear Hg.
  induction (length (g n)) as [|k IHk]; [done|]. cbn [replicate app]. constructor; [done|]. apply Forall_app. split; [apply List.Forall_forall; intros x Hx%list_elem_of_In; apply elem_of_replicate in Hx as [-> _]; done|].
  apply List.Forall_forall. intros x Hx%list_elem_of_In. apply list_elem_of_fmap in Hx as ([a r] & -> & Hx). apply list_elem_of_bind in Hx as (b & Hb & Hin). apply list_elem_of_fmap in Hb as (y & [= -> ->] & _). cbn [fst]. rewrite List.Forall_forall in Hn. by apply Hn, list_elem_of_In.
Qed.
Lemma tagged_sorted m : StronglySorted le (tagged m).*1.
Proof. apply sorted_bind, listNumbered_sorted. Qed.

Lemma log_replay_at d m n rs : log_files d ∅ m n rs [] -> exists r', replay_at d = (tagged m, r') /\ rd_err r' = None.
Proof.
  intros Hlf. pose proof Hlf as [Hc Hs Hn Hmax Hcok Hmok Hq]. rewrite app_nil_r in Hs. set (init := listNumbered (delete n m)). assert (Hfiles : rd_files (NewReader d) = (Seg <$> init) ++ [Seg n]).
  { cbn [NewReader rd_files]. rewrite Hc, Hs. change (listNumbered (frames <$> (∅ : recmap))) with (@nil nat). rewrite listNumbered_insert by (rewrite lookup_fmap, Hn; eauto). rewrite listNumbered_fmap, (listNumbered_max m n rs) by done. unfold init. by rewrite fmap_app. }
  destruct (at_files init (NewReader d) (fun k => default [] (m !! k)) n rs) as (r' & Hr & He); try done.
  - intros k [y Hy]%elem_of_listNumbered. apply lookup_delete_Some in Hy as [Hne Hy]. cbn [file_of rd_dir NewReader]. rewrite Hs, lookup_insert_ne, lookup_fmap, Hy by done. cbn. eauto.
  - cbn [file_of rd_dir NewReader]. rewrite Hs. apply lookup_insert_eq.
  - eauto.
  - exists r'. split; [|done]. assert (tagged m = (init ≫= fun k => (k,.) <$> default [] (m !! k)) ++ ((n,.) <$> rs)) as ->.
    { rewrite (tagged_newest m n rs) by done. f_equal. apply bind_ext_in. intros k [y Hy]%elem_of_listNumbered. rewrite Hy. by apply lookup_delete_Some in Hy as [_ ->]. }
    unfold replay_at. apply at_loop; [done|]. apply at_plain, replays_length in Hr. rewrite length_fmap in Hr. lia.
Qed.

(** ** The log as the store's interface *)

(** [os.Remove] after [os.Remove], up to the first that fails, and then [syncDir]. *)
Fixpoint remove_ops (ops : list fsop) : WL unit :=
  match ops with
  | [] => o ← syscall; match o with IoOk => mret tt | IoFail _ => throw ErrIO end
  | op :: rest =>
      o ← syscall;
      match o with
      | IoOk => _ ← Wal.modify (fun w => with_dir (apply_op (w_dir w) op) w); remove_ops rest
      | IoFail _ => throw ErrIO
      end
  end.
Definition truncate_dir (before : nat) : WL unit :=
  w ← get;
  match Truncate (w_dir w) before None with
  | Err e => throw e
  | Ok [] => mret tt
  | Ok ops => remove_ops ops
  end.

Definition recover_log (d : Dir) (segmentSize : Z) (script : list io) : result wal_error (list (nat * Record_) * (WAL * nat)) :=
  match Repair d with
  | Err e => Err e
  | Ok (d, _) =>
      let '(recs, r) := replay_at d in
      match rd_err r with
      | Some e => Err e
      | None => match Open d segmentSize script with (w, Ok _) => Ok (recs, (w, length (w_file w))) | (_, Err e) => Err e end
      end
  end.

(** A log, and how many bytes of its newest segment are known to be synced; a directory to open with
    the segment size and the outcomes of the calls to come. *)
#[export] Instance store_wal : StoreWal (WAL * nat) (Dir * Z * list io) := {|
  wal_Log recs x := let '(w, r) := Wal.Log recs x.1 in ((w, if decide (w_segment w = w_segment x.1) then x.2 else 0%nat), r);
  wal_Sync x := let '(w, r) := Sync x.1 in ((w, match r with Ok _ => length (w_file w) | Err _ => x.2 end), r);
  wal_Segment x := w_segment x.1;
  wal_Truncate before x := let '(w, r) := truncate_dir before x.1 in ((w, x.2), r);
  wal_Close x := let '(w, r) := Close x.1 in ((w, x.2), r);
  wal_Recover d := recover_log d.1.1 d.1.2 d.2;
|}.

(** [n] is the newest segment: the one written to, or the one a roll created before it failed. *)
Record holds (w : WAL) (m : recmap) (n : nat) (rs : list Record_) (tail : list Z) : Prop := {
  ho_files : log_files (w_dir w) ∅ m n rs tail;
  ho_at : n = w_segment w \/ (w_fopen w = false /\ n = S (w_segment w) /\ rs = []);
  ho_size : w_fopen w = true -> w_broken w = false -> w_size w = Z.of_nat (length (frames rs));
  ho_clean : w_broken w = false -> tail = [];
}.
(** The records [a] are synced: whole in an old segment, or within the synced bytes of the newest. *)
Definition kept (x : WAL * nat) (a b : list (nat * Record_)) : Prop :=
  exists m n rs tail ra rb, holds x.1 m n rs tail /\ tagged m = a ++ b /\ rs = ra ++ rb /\ (length (frames ra) <= x.2)%nat /\ ((n,.) <$> rb) `suffix_of` b.

Lemma inv_holds w m n rs tail : wal_inv w ∅ m tail -> m !! n = Some rs -> (forall k, is_Some (m !! k) -> (k <= n)%nat) -> n = w_segment w -> holds w m n rs tail.
Proof.
  intros [(n0 & rs0 & Hf & _ & Hsz) Hcl] Hn Hmax Hat. assert (n0 = n) as -> by (pose proof (lf_max _ _ _ _ _ _ Hf n ltac:(eauto)); pose proof (Hmax n0 ltac:(rewrite (lf_newest _ _ _ _ _ _ Hf); eauto)); lia).
  assert (rs0 = rs) as -> by (pose proof (lf_newest _ _ _ _ _ _ Hf); congruence). split; try done; by left.
Qed.

Lemma openSegment_cases n w : d_segs (w_dir w) !! n = None -> exists s,
  let w1 := with_dir (set_file (w_dir w) (Seg n) []) w in
  openSegment n w = (with_script s w, Err ErrIO) \/ openSegment n w = (with_script s w1, Err ErrIO) \/ openSegment n w = (with_segment n 0 (with_script s w1), Ok tt).
Proof.
  intros Hnone. unfold openSegment. destruct (syscall_spec w) as (s & o & E). rewrite (bind_ok _ _ _ _ _ E). destruct o; [|exists s; by left]. rewrite (bind_ok get _ (with_script s w) (with_script s w) (with_script s w)) by done. cbn [with_script w_dir]. rewrite Hnone. cbn [default from_option length Z.of_nat].
  set (w2 := with_dir (set_file (w_dir w) (Seg n) []) (with_script s w)). change (MkWAL _ _ _ _ _ _ _ s) with (with_script s w). rewrite (bind_ok _ _ (with_script s w) w2 tt) by done. destruct (syscall_spec w2) as (s2 & o2 & E2). rewrite (bind_ok _ _ _ _ _ E2). destruct o2; [|exists s2; right; by left].
  cbn [Z.eqb]. destruct (syscall_spec (with_script s2 w2)) as (s3 & o3 & E3). rewrite (bind_ok _ _ _ _ _ E3). exists s3. destruct o3; [by right; right|right; by left].
Qed.

Lemma holds_script s w m n rs tail : holds w m n rs tail -> holds (with_script s w) m n rs tail.
Proof. by intros [? ? ? ?]. Qed.

(** What a roll leaves. *)
Lemma roll_holds w m rs w' r : holds w m (w_segment w) rs [] -> w_fopen w = true -> w_broken w = false -> roll w = (w', r) ->
  match r with
  | Ok _ => w_segment w' = S (w_segment w) /\ writing w' ∅ (<[S (w_segment w) := []]> m) [] /\ w_broken w' = false
  | Err _ => w_segment w' = w_segment w /\ ((holds w' m (w_segment w) rs []) \/ holds w' (<[S (w_segment w) := []]> m) (S (w_segment w)) [] [])
  end.
Proof.
  intros [Hf _ Hsz _] Ho Hb. specialize (Hsz Ho Hb). unfold roll. destruct (f_other_spec w) as (s1 & b1 & E1 & _). rewrite (bind_ok _ _ _ _ _ E1). destruct b1; cbn [negb]; [|intros [= <- <-]; split; [done|left]; by split; try done; left].
  destruct (f_other_spec (with_script s1 w)) as (s2 & b2 & E2 & _). rewrite (bind_ok _ _ _ _ _ E2). set (w2 := Wal.with_open false (with_script s2 w)). rewrite (bind_ok _ _ _ w2 tt) by done.
  assert (Hh2 : holds w2 m (w_segment w) rs []) by (split; try done; by left). destruct b2; cbn [negb]; [|intros [= <- <-]; split; [done|by left]]. rewrite (bind_ok get _ w2 w2 w2) by done. change (w_segment w2) with (w_segment w).
  destruct (log_files_next _ _ _ _ _ Hf) as (Hf2 & _ & Hnone). destruct (openSegment_cases (S (w_segment w)) w2 Hnone) as (s & [->|[->| ->]]); intros [= <- <-].
  - split; [done|left]. split; try done; by left.
  - split; [done|right]. split; try done. by right.
  - split_and!; [done| |done]. by split.
Qed.

Lemma tagged_next d m n rs tail : log_files d ∅ m n rs tail -> tagged (<[S n := []]> m) = tagged m.
Proof.
  intros Hf. assert (Hnone : m !! S n = None) by (apply eq_None_not_Some; intros Hk%(lf_max _ _ _ _ _ _ Hf); lia).
  rewrite (tagged_newest _ (S n) []), delete_insert_id, app_nil_r by (done || apply lookup_insert_eq || (intros k Hk; rewrite lookup_insert_is_Some in Hk; destruct Hk as [->|[_ Hk]]; [done|apply (lf_max _ _ _ _ _ _ Hf) in Hk; lia])). done.
Qed.

(** What [Log] leaves: the records of the batch it wrote, all in the newest segment. *)
Definition logged (w : WAL) (m : recmap) (n : nat) (rs recs : list Record_) (w' : WAL) (r : result wal_error unit) : Prop :=
  exists pre m' n' rs' tail', holds w' m' n' rs' tail' /\ tagged m' = tagged m ++ ((w_segment w',.) <$> pre) /\ pre `prefix_of` recs /\ (r = Ok tt -> pre = recs)
    /\ (r <> Ok tt -> Forall (fun r => rec_Data r <> []) recs -> recs <> [] -> pre <> recs)
    /\ ((n' = n /\ rs' = rs ++ pre /\ w_segment w' = w_segment w) \/ rs' = pre).

Lemma write_logged w m rs recs w' r : writing w ∅ m rs -> w_broken w = false -> Forall record_ok recs -> write_records recs w = (w', r) -> logged w m (w_segment w) rs recs w' r.
Proof.
  intros Hw Hb Hok E. destruct (write_records_inv recs w ∅ m rs Hw Hb Hok) as (pre & tail & w0 & r0 & E0 & [rest Hp] & Hr & Hi & Hbad & Hseg). rewrite E in E0. injection E0 as <- <-. pose proof (wr_files _ _ _ _ Hw) as Hf. pose proof (lf_newest _ _ _ _ _ _ Hf) as Hn. pose proof (lf_max _ _ _ _ _ _ Hf) as Hmax.
  exists pre, (<[w_segment w := rs ++ pre]> m), (w_segment w), (rs ++ pre), tail. split_and!.
  - apply inv_holds; [done|apply lookup_insert_eq| |done]. intros k Hk. rewrite lookup_insert_is_Some in Hk. destruct Hk as [->|[_ Hk]]; [done|eauto].
  - rewrite Hseg. by apply tagged_append.
  - by exists rest.
  - done.
  - intros Hne Hd _. by apply Hbad.
  - by left.
Qed.

Lemma Log_logged recs w m n rs tail w' r : holds w m n rs tail -> Forall bytes_ok recs -> Wal.Log recs w = (w', r) -> logged w m n rs recs w' r.
Proof.
  intros Hh Hb. assert (Hsame : forall w1 r1 m1 n1 rs1 tail1, holds w1 m1 n1 rs1 tail1 -> tagged m1 = tagged m -> w_segment w1 = w_segment w -> (n1 = n /\ rs1 = rs \/ rs1 = []) -> r1 <> Ok tt \/ recs = [] -> logged w m n rs recs w1 r1).
  { intros w1 r1 m1 n1 rs1 tail1 Hh1 Ht Hs Hor Hr. exists [], m1, n1, rs1, tail1. rewrite Ht, !app_nil_r. split_and!; [done|done|apply prefix_nil|intros ->; by destruct Hr as [Hr| ->]|intros _ _ Hne E; by apply Hne|]. destruct Hor as [[-> ->]| ->]; [by left|by right]. }
  destruct recs as [|x recs']; [intros [= <- <-]; eapply Hsame; eauto|]. cbn [Wal.Log]. set (recs := x :: recs') in *. rewrite (bind_ok get _ w w w) by done.
  destruct (w_closed w); [intros [= <- <-]; eapply Hsame; eauto|]. destruct (w_broken w) eqn:Ebr; [intros [= <- <-]; eapply Hsame; eauto|]. destruct (batch_size recs 0) as [total|e] eqn:Ebs; [|intros [= <- <-]; eapply Hsame; eauto].
  pose proof (batch_size_ok _ _ _ Ebs Hb) as Hok. pose proof Hh as [Hf Hat Hsz Hcl]. specialize (Hcl Ebr) as ->. destruct (w_fopen w) eqn:Eo.
  - destruct Hat as [->|[? _]]; [|done]. specialize (Hsz eq_refl Ebr). assert (Hw : writing w ∅ m rs) by by constructor. destruct ((0 <? w_size w) && _).
    + destruct (roll w) as [w1 r1] eqn:Er. pose proof (roll_holds _ _ _ _ _ Hh Eo Ebr Er) as Hroll. pose proof (tagged_next _ _ _ _ _ Hf) as Hnext. destruct r1 as [[]|e].
      * rewrite (bind_ok _ _ _ _ _ Er). intros E. destruct Hroll as (Hs1 & Hw1 & Hb1). destruct (write_logged _ _ _ _ _ _ Hw1 Hb1 Hok E) as (pre & m' & n' & rs' & tail' & Hh' & Ht & Hp & Hr & Hbad & Hor). exists pre, m', n', rs', tail'. rewrite Ht, Hnext. split_and!; try done. right. destruct Hor as [(_ & -> & _)| ->]; done.
      * rewrite (bind_err _ _ _ _ _ Er). intros [= <- <-]. destruct Hroll as (Hs1 & [Hh1|Hh1]); [by eapply Hsame; eauto|]. eapply Hsame; eauto.
    + rewrite (bind_ok (mret tt) _ w w tt) by done. by apply write_logged.
  - assert (Hstay : forall s b, holds (if b : bool then with_broken (with_script s w) else with_script s w) m n rs []) by (intros s []; split; try done; cbn [with_broken with_script w_fopen]; by rewrite Eo).
    destruct ((0 <? w_size w) && _).
    + unfold roll. destruct (f_other_spec w) as (s1 & b1 & E1 & Hb1). rewrite (Hb1 Eo) in E1. rewrite (bind_err _ _ w (with_script s1 w) ErrIO) by by rewrite (bind_ok _ _ _ _ _ E1). intros [= <- <-]. eapply Hsame; [apply (Hstay s1 false)|done|done|by left|by left].
    + rewrite (bind_ok (mret tt) _ w w tt) by done. cbn [write_records recs]. destruct (f_write_spec (header_of x) w) as (s1 & b1 & k1 & _ & _ & E1). rewrite Eo in E1. rewrite (bind_ok _ _ _ _ _ E1). cbn [andb negb]. unfold undoPartial. set (w1 := with_script s1 w). rewrite (bind_ok get _ w1 w1 w1) by done.
      destruct (f_truncate_spec (w_size w1) w1) as (s2 & b2 & E2 & Hb2). assert (b2 = false) as -> by by apply Hb2. rewrite (bind_ok _ _ _ _ _ E2). cbn [negb]. intros [= <- <-]. eapply Hsame; [apply (Hstay s2 true)|done|done|by left|by left].
Qed.

(** ** The laws *)

(** A crash leaves the newest segment cut anywhere behind its synced bytes; the calls that open it succeed. *)
Definition crash_log (x : WAL * nat) (d : Dir * Z * list io) : Prop :=
  Forall (fun o => o = IoOk) (take 3 d.2)
  /\ exists n k, last (listNumbered (d_segs (w_dir x.1))) = Some n /\ (x.2 <= k)%nat /\ d.1.1 = set_file (w_dir x.1) (Seg n) (take k (default [] (d_segs (w_dir x.1) !! n))).

Lemma kept_sorted x a b : kept x a b -> StronglySorted le (a ++ b).*1 /\ Forall (fun n => (n <= w_segment x.1)%nat) (a ++ b).*1.
Proof.
  intros (m & n & rs & tail & ra & rb & [Hf Hat _ _] & <- & _). split; [apply tagged_sorted|]. apply List.Forall_forall. intros k Hk%list_elem_of_In. apply list_elem_of_fmap in Hk as ([k' y] & -> & (rs' & Hk & Hy)%elem_of_tagged). cbn [fst snd] in *.
  pose proof (lf_max _ _ _ _ _ _ Hf k' ltac:(eauto)). destruct Hat as [->|(_ & -> & ->)]; [done|]. destruct (decide (k' = S (w_segment x.1))) as [->|]; [|lia]. rewrite (lf_newest _ _ _ _ _ _ Hf) in Hk. injection Hk as <-. by apply not_elem_of_nil in Hy.
Qed.

Lemma kept_log x a b recs x' r : kept x a b -> Forall bytes_ok recs -> Forall (fun r => rec_Data r <> []) recs -> wal_Log recs x = (x', r) ->
  exists pre, kept x' a (b ++ ((wal_Segment x',.) <$> pre)) /\ pre `prefix_of` recs /\ (r = Ok tt -> pre = recs) /\ (r <> Ok tt -> recs <> [] -> pre <> recs).
Proof.
  intros (m & n & rs & tail & ra & rb & Hh & Ht & Hrs & Hra & Hrb) Hb Hne. cbn [wal_Log wal_Segment store_wal]. destruct (Wal.Log recs x.1) as [w' r'] eqn:E. intros [= <- <-]. destruct (Log_logged _ _ _ _ _ _ _ _ Hh Hb E) as (pre & m' & n' & rs' & tail' & Hh' & Ht' & Hp & Hr & Hbad & Hor). cbn [fst].
  assert (Hn : n' = w_segment w' \/ rs' = []) by (destruct (ho_at _ _ _ _ _ Hh') as [?|(_ & _ & ?)]; auto). exists pre. split_and!; try done; [|by intros; apply Hbad]. exists m', n', rs', tail'. cbn [fst snd]. destruct Hor as [(-> & -> & Hseg)| ->].
  - exists ra, (rb ++ pre). rewrite Hseg, decide_True by done. split_and!; [done|by rewrite Ht', Ht, Hseg, app_assoc|by rewrite Hrs, app_assoc|done|]. rewrite fmap_app. destruct Hrb as [b0 ->]. exists b0. rewrite <- app_assoc. do 2 f_equal. destruct Hn as [->|Hn]; [by rewrite Hseg|]. rewrite Hrs in Hn. by apply app_eq_nil in Hn as [_ ->].
  - exists [], pre. split_and!; [done|by rewrite Ht', Ht, app_assoc|done|cbn; lia|]. exists b. f_equal. destruct Hn as [->| ->]; done.
Qed.

Lemma kept_sync x a b x' r : kept x a b -> wal_Sync x = (x', r) -> wal_Segment x' = wal_Segment x /\ match r with Ok _ => kept x' (a ++ b) [] | Err _ => kept x' a b end.
Proof.
  intros Hk. pose proof Hk as (m & n & rs & tail & ra & rb & Hh & Ht & Hrs & Hra & Hrb). cbn [wal_Sync wal_Segment store_wal]. unfold Sync. rewrite (bind_ok get _ x.1 x.1 x.1) by done. assert (Hself : (x.1, x.2) = x) by by destruct x. destruct (w_closed x.1); [intros [= <- <-]; by rewrite Hself|]. destruct (w_broken x.1) eqn:Ebr; [intros [= <- <-]; by rewrite Hself|].
  destruct (f_other_spec x.1) as (s & ok & E & Hok). rewrite (bind_ok _ _ _ _ _ E). destruct ok; cbn [negb]; intros [= <- <-]; (split; [done|]).
  - destruct (w_fopen x.1) eqn:Eo; [|by specialize (Hok eq_refl)]. destruct (ho_at _ _ _ _ _ Hh) as [->|[? _]]; [|congruence]. pose proof (ho_clean _ _ _ _ _ Hh Ebr) as ->. exists m, (w_segment x.1), rs, [], rs, []. cbn [fst snd]. split_and!; [by apply holds_script|by rewrite app_nil_r|by rewrite app_nil_r| |by apply suffix_nil].
    unfold w_file. cbn [with_script w_dir w_segment]. rewrite (log_files_file _ _ _ _ _ _ (ho_files _ _ _ _ _ Hh)). cbn [default from_option id]. by rewrite app_nil_r.
  - exists m, n, rs, tail, ra, rb. cbn [fst snd]. split_and!; try done. by apply holds_script.
Qed.

Lemma kept_close x a b x' r : kept x a b -> wal_Close x = (x', r) -> kept x' a b.
Proof.
  intros Hk. pose proof Hk as (m & n & rs & tail & ra & rb & Hh & Ht & Hrs & Hra & Hrb). cbn [wal_Close store_wal]. unfold Close. rewrite (bind_ok get _ x.1 x.1 x.1) by done. destruct (w_closed x.1); [intros [= <- _]; by destruct x|]. rewrite (bind_ok _ _ x.1 (with_closed x.1) tt) by done.
  destruct (f_other_spec (with_closed x.1)) as (s & ok & E & _). rewrite (bind_ok _ _ _ _ _ E). destruct (f_other_spec (with_script s (with_closed x.1))) as (s2 & ok2 & E2 & _). rewrite (bind_ok _ _ _ _ _ E2). set (w2 := Wal.with_open false (with_script s2 (with_closed x.1))). rewrite (bind_ok _ _ _ w2 tt) by done.
  assert (Hh2 : holds w2 m n rs tail) by (destruct Hh as [Hf Hat Hsz Hcl]; split; try done; destruct Hat as [?|(? & ? & ?)]; [by left|by right]). destruct ok; [destruct ok2|]; cbn [negb]; intros [= <- _]; by exists m, n, rs, tail, ra, rb.
Qed.

(** What a crash cannot take: a list cut at [k] bytes keeps what fits. *)
Lemma cut_keeps (ra rb kept0 lost : list Record_) k : ra ++ rb = kept0 ++ lost -> (length (frames ra) <= k)%nat -> (forall x l, lost = x :: l -> (k < length (frames kept0) + length (frame x))%nat) -> exists rb1, kept0 = ra ++ rb1 /\ rb = rb1 ++ lost.
Proof.
  intros E Hra Hl. destruct (decide (length ra <= length kept0)%nat) as [Hle|Hgt].
  - apply app_eq_inv in E as [(l & -> & ->)|(l & -> & ->)]; [|by exists l]. rewrite length_app in Hle. destruct l; [|cbn in Hle; lia]. exists []. by rewrite !app_nil_r.
  - apply app_eq_inv in E as [(l & -> & ->)|(l & -> & ->)]; [|rewrite length_app in Hgt; lia]. destruct l as [|x l]; [rewrite app_nil_r in Hgt; lia|]. specialize (Hl x (l ++ rb) eq_refl). rewrite frames_app, frames_cons, !length_app in Hra. lia.
Qed.

Lemma openSegment_fine n w : Forall (fun o => o = IoOk) (take 3 (w_script w)) -> exists w', openSegment n w = (w', Ok tt).
Proof.
  intros Hs. assert (Hsys : forall j w0, Forall (fun o => o = IoOk) (take (S j) (w_script w0)) -> exists s, syscall w0 = (with_script s w0, Ok IoOk) /\ Forall (fun o => o = IoOk) (take j s)).
  { intros j w0. unfold syscall. destruct (w_script w0) as [|o s] eqn:E; cbn [take]; [intros _; exists []; split; [rewrite <- E; by destruct w0|by destruct j]|]. intros [-> Hj]%Forall_cons_1. by exists s. }
  unfold openSegment. destruct (Hsys _ w Hs) as (s1 & E1 & H1). rewrite (bind_ok _ _ _ _ _ E1). set (w1 := with_script s1 w). rewrite (bind_ok get _ w1 w1 w1) by done. rewrite (bind_ok (Wal.modify _) _ w1 (with_dir (set_file (w_dir w1) (Seg n) (default [] (d_segs (w_dir w1) !! n))) w1) tt) by done.
  set (w2 := with_dir _ w1). destruct (Hsys _ w2 H1) as (s2 & E2 & H2). rewrite (bind_ok _ _ _ _ _ E2). destruct (_ =? 0); [destruct (Hsys _ (with_script s2 w2) H2) as (s3 & E3 & _); rewrite (bind_ok _ _ _ _ _ E3)|rewrite (bind_ok (mret IoOk) _ (with_script s2 w2) (with_script s2 w2) IoOk) by done]; by eexists.
Qed.

Lemma Open_fine d m n rs sz script : log_files d ∅ m n rs [] -> Forall (fun o => o = IoOk) (take 3 script) ->
  exists w, Open d sz script = (w, Ok tt) /\ holds w m n rs [] /\ w_file w = frames rs.
Proof.
  intros Hf Hs. assert (exists w, Open d sz script = (w, Ok tt)) as [w E] by (unfold Open; by apply openSegment_fine). exists w. split; [done|]. pose proof (Open_log _ _ _ _ _ _ _ _ Hf E) as Hi. unfold Open in E. rewrite (last_listNumbered _ _ _ _ _ _ Hf) in E. apply openSegment_ok in E as (Hd & _ & Hseg & _ & _); [|done]. cbn [w_dir default from_option id] in Hd, Hseg.
  split; [apply inv_holds; [done|apply (lf_newest _ _ _ _ _ _ Hf)|apply (lf_max _ _ _ _ _ _ Hf)|done]|]. unfold w_file. rewrite Hd, Hseg. cbn [set_file d_segs]. rewrite lookup_insert_eq, (log_files_file _ _ _ _ _ _ Hf). cbn [default from_option id]. by rewrite app_nil_r.
Qed.

Lemma kept_crash x a b d : kept x a b -> crash_log x d -> exists b' rest x', b = b' ++ rest /\ wal_Recover d = Ok (a ++ b', x') /\ kept x' (a ++ b') [].
Proof.
  intros (m & n & rs & tail & ra & rb & [Hf _ _ _] & Ht & Hrs & Hra & [b0 Hrb]) (Hscript & n' & k & Hlast & Hk & Hd). rewrite (last_listNumbered _ _ _ _ _ _ Hf) in Hlast. injection Hlast as <-. rewrite (log_files_file _ _ _ _ _ _ Hf) in Hd. cbn [default from_option id] in Hd.
  destruct (log_files_cut_any _ _ _ _ _ _ k Hf) as (kp & lost & tail' & Hsplit & Htake & Hcut & Hl). rewrite Htake in Hd. destruct (cut_keeps ra rb kp lost k ltac:(congruence) ltac:(lia) Hl) as (rb1 & Hkp & Hrb1).
  destruct (Repair_log_files _ _ _ _ _ _ Hcut) as (d2 & cut & Hrep & Hf2 & _). destruct (log_replay_at _ _ _ _ Hf2) as (r' & Hrp & He). destruct (Open_fine d2 _ n kp d.1.2 d.2 Hf2 Hscript) as (w & Ho & Hh & Hfile).
  assert (Htag : tagged (<[n := kp]> m) = a ++ b0 ++ ((n,.) <$> rb1)).
  { rewrite (tagged_newest _ n kp) by (apply lookup_insert_eq || apply (lf_max _ _ _ _ _ _ Hf2)). rewrite delete_insert_eq. rewrite (tagged_newest m n rs (lf_newest _ _ _ _ _ _ Hf) (lf_max _ _ _ _ _ _ Hf)), Hrb, Hrs, Hrb1, app_assoc, !fmap_app in Ht. rewrite !app_assoc in Ht. apply (inj (.++ ((n,.) <$> lost))) in Ht. rewrite Hkp, fmap_app, !app_assoc. exact Ht. }
  exists (b0 ++ ((n,.) <$> rb1)), ((n,.) <$> lost), (w, length (w_file w)). split_and!.
  - by rewrite Hrb, Hrb1, fmap_app, app_assoc.
  - cbn [wal_Recover store_wal]. unfold recover_log. rewrite Hd, Hrep, Hrp, He, Ho. by rewrite Htag.
  - exists (<[n := kp]> m), n, kp, [], kp, []. cbn [fst snd]. rewrite Htag, Hfile, !app_nil_r. by split_and!.
Qed.

(** *** Truncation *)

Lemma tagged_from cut m : tagged (from cut m) = filter (fun x => (cut <= x.1)%nat) (tagged m).
Proof.
  assert (Hb : forall (l : list nat) (g h : nat -> list Record_), (forall k, k ∈ l -> (cut <= k)%nat /\ g k = h k) -> l ≫= (fun k => (k,.) <$> g k) = filter (fun x => (cut <= x.1)%nat) (l ≫= fun k => (k,.) <$> h k)).
  { induction l as [|k l IH]; intros g h Hl; [done|]. rewrite !bind_cons, filter_app. destruct (Hl k ltac:(by left)) as [Hk ->]. f_equal; [|apply IH; intros k' Hk'; apply Hl; by right]. symmetry. apply filter_all. by intros x (y & -> & _)%list_elem_of_fmap. }
  unfold tagged at 2. rewrite (listNumbered_split cut m), bind_app, filter_app. rewrite (filter_none _ (listNumbered (below cut m) ≫= _)).
  - apply Hb. intros k [y Hy]%elem_of_listNumbered. rewrite Hy. rewrite lookup_from in Hy. case_decide; [|done]. by rewrite Hy.
  - intros x Hx Hle. apply list_elem_of_bind in Hx as (k & Hx & [y Hy]%elem_of_listNumbered). apply list_elem_of_fmap in Hx as (z & -> & _). cbn [fst] in Hle. rewrite lookup_below in Hy. case_decide; [lia|done].
Qed.

Lemma remove_ops_run l : forall w w' r, remove_ops (RemoveSegment <$> l) w = (w', r) ->
  exists l1 l2 s, l = l1 ++ l2 /\ w' = with_script s (with_dir (foldl apply_op (w_dir w) (RemoveSegment <$> l1)) w).
Proof.
  induction l as [|k l IH]; intros w w' r; cbn [remove_ops fmap list_fmap]; destruct (syscall_spec w) as (s & o & E); rewrite (bind_ok _ _ _ _ _ E).
  - intros Ew. exists [], [], s. split; [done|]. destruct o; injection Ew as <- _; by destruct w.
  - destruct o; [|intros [= <- _]; exists [], (k :: l), s; split; [done|]; by destruct w]. set (w1 := with_dir (apply_op (w_dir w) (RemoveSegment k)) (with_script s w)). rewrite (bind_ok (Wal.modify _) _ (with_script s w) w1 tt) by done. intros (l1 & l2 & s2 & -> & ->)%IH. by exists (k :: l1), l2, s2.
Qed.

(** The segments a truncation got to are older than those it did not. *)
Lemma removed_are_oldest before m l1 l2 : l1 ++ l2 = listNumbered (below before m) -> let cut := match l2 with [] => before | k :: _ => k end in
  (forall k, k ∈ l1 -> (k < cut)%nat) /\ (forall k, k ∈ l2 -> (cut <= k)%nat).
Proof.
  intros E cut. pose proof (listNumbered_sorted (below before m)) as Hs. pose proof (listNumbered_NoDup (below before m)) as Hn. rewrite <- E in Hs, Hn. apply NoDup_app in Hn as (_ & Hdis & _). split.
  - intros k Hk. unfold cut. destruct l2 as [|k2 l2].
    + assert (is_Some (below before m !! k)) as [y Hy] by (apply elem_of_listNumbered; rewrite <- E; apply elem_of_app; by left). rewrite lookup_below in Hy. by case_decide.
    + pose proof (StronglySorted_app_1_elem_of le l1 (k2 :: l2) k k2 Hs Hk ltac:(by left)). assert (k <> k2) by (intros ->; apply (Hdis k2 Hk); by left). lia.
  - intros k Hk. unfold cut. apply StronglySorted_app_1_r in Hs. destruct l2 as [|k2 l2]; [by apply not_elem_of_nil in Hk|]. apply elem_of_cons in Hk as [->|Hk]; [done|]. apply StronglySorted_inv in Hs as [_ Hall]. rewrite List.Forall_forall in Hall. by apply Hall, list_elem_of_In.
Qed.

Lemma kept_truncate x a b before x' r : kept x a b -> (before <= wal_Segment x)%nat -> wal_Truncate before x = (x', r) ->
  exists cut, (cut <= before)%nat /\ kept x' (filter (fun x => (cut <= x.1)%nat) a) (filter (fun x => (cut <= x.1)%nat) b).
Proof.
  intros Hk Hbef. pose proof Hk as (m & n & rs & tail & ra & rb & Hh & Ht & Hrs & Hra & [b0 Hrb]). pose proof Hh as [Hf Hat Hsz Hcl]. cbn [wal_Truncate store_wal wal_Segment] in *. assert (Hseg : (w_segment x.1 <= n)%nat) by (destruct Hat as [?|(_ & ? & _)]; lia).
  assert (Hnone : exists cut, (cut <= before)%nat /\ kept x (filter (fun x => (cut <= x.1)%nat) a) (filter (fun x => (cut <= x.1)%nat) b)) by (exists 0%nat; split; [lia|]; rewrite !filter_all by (intros; lia); done).
  unfold truncate_dir. rewrite (bind_ok get _ x.1 x.1 x.1) by done. unfold Truncate. set (doomed := filter (fun k => (k < before)%nat) (listNumbered (d_segs (w_dir x.1)))). destruct doomed as [|k0 ks] eqn:Ed; [intros [= <- _]; by destruct x|]. cbn [foldl app]. rewrite (lf_cps _ _ _ _ _ _ Hf). change (listNumbered (frames <$> (∅ : recmap))) with (@nil nat). rewrite filter_nil, app_nil_r.
  destruct (remove_ops (RemoveSegment <$> k0 :: ks) x.1) as [w1 r1] eqn:Erun. cbn [fmap list_fmap] in Erun |- *. rewrite Erun. intros [= <- _]. apply (remove_ops_run (k0 :: ks)) in Erun as (l1 & l2 & s & El & ->). rewrite <- Ed in El. clear Ed k0 ks.
  assert (Hin : forall k, k ∈ doomed <-> (k < before)%nat /\ is_Some (m !! k)) by (intros k; unfold doomed; by apply (elem_of_doomed (w_dir x.1) ∅ m n rs tail before Hf ltac:(lia))).
  set (cut := match l2 with [] => before | k :: _ => k end). assert (Hcut : (cut <= before)%nat) by (unfold cut; destruct l2 as [|k l2]; [done|]; assert (k ∈ doomed) as [? _]%Hin by (rewrite El; apply elem_of_app; right; by left); lia).
  destruct (removed_are_oldest before m l1 l2) as (Hold & Hnew); [rewrite <- El; by apply (doomed_listed (w_dir x.1) ∅ m n rs tail before Hf ltac:(lia))|]. fold cut in Hold, Hnew.
  assert (Hmap : delete_all l1 m = from cut m).
  { apply map_eq. intros k. rewrite lookup_delete_all, lookup_from. repeat case_decide; try done; [by specialize (Hold k ltac:(done)); lia|]. destruct (m !! k) eqn:Em; [|done]. exfalso. assert (Hkd : k ∈ doomed) by (apply Hin; split; [lia|eauto]). rewrite El in Hkd. apply elem_of_app in Hkd as [?|Hk2%Hnew]; [done|lia]. }
  exists cut. split; [done|]. exists (from cut m), n, rs, tail, ra, rb. cbn [fst snd]. split_and!; try done.
  - rewrite <- Hmap. split; try done. cbn [with_script with_dir w_dir]. apply log_files_remove_segs; [done|]. intros k Hk1. assert (k ∈ doomed) as [? _]%Hin by (rewrite El; apply elem_of_app; by left). lia.
  - by rewrite tagged_from, Ht, filter_app.
  - rewrite Hrb, filter_app. exists (filter (fun x => (cut <= x.1)%nat) b0). f_equal. apply filter_all. intros y (z & -> & _)%list_elem_of_fmap. cbn. lia.
Qed.

#[export] Instance store_wal_laws : StoreWalLaws (WAL * nat) (Dir * Z * list io) := {|
  wal_keeps := kept;
  wal_crash := crash_log;
  wal_sorted := kept_sorted;
  wal_Log_ok := kept_log;
  wal_Sync_ok := kept_sync;
  wal_Truncate_ok := kept_truncate;
  wal_Close_ok := kept_close;
  wal_crash_ok := kept_crash;
|}.
