(* ===== verification/LogStoreChunks.v ===== *)
(** * The chunk files behind the log store

    The store's interface to chunk files implemented by [openChunk], [appendBlock], [seal],
    [readIndex] and [readBlock] of internal/logstore/chunk.go on the bytes of the file, and every law
    the store relies on proved of them.

    Some outcomes are outside the interface: a write that fails is cut off again, and a write of a
    file past [2^62] bytes, of a block past the reader's limits, or after which some cut of the file
    would show a block nobody wrote (a checksum met by chance in stale bytes) counts as one that
    failed and was cut off. *)

From Stdlib Require Import ZArith Lia.
From Stdlib Require Import (notations) String.
From stdpp Require Import base gmap numbers list.
From S2P Require Import Prelude Wal Gostring HeadRecord BlockFile BlockIndex LogBloom LogChunk LogChunkProofs LogChunkLife LogStore LogStoreInv LogStoreSeal.

#[export] Instance BlockMeta_eq_dec : EqDecision BlockMeta.
Proof. solve_decision. Defined.

Section Chunks.
Context `{Zstd} `{!ZstdLaws}.

(** A reader of these bytes learns exactly the writer's blocks. *)
Definition shows_b (w : logWriter) (file : list Z) : bool :=
  match readIndex file with
  | Ok ix => bool_decide (no_crc <$> ix_Blocks ix = no_crc <$> lw_blocks w) && (ix_ValidEnd ix =? lw_end w) && (ix_Version ix =? lw_ver w)
  | Err _ => false
  end
  && match readFooter file (lw_ver w) with
     | None => true
     | Some ix => bool_decide (ix_Blocks ix = no_crc <$> lw_blocks w) && (ix_ValidEnd ix =? lw_end w) && (ix_Version ix =? lw_ver w)
     end.
Definition shows (w : logWriter) (file : list Z) : Prop := shows_b w file = true.

(** The same of every cut of the file from [lo] to [hi]. *)
Definition cuts_show (w : logWriter) (file : list Z) (lo hi : Z) : bool :=
  forallb (fun k => shows_b w (take k file)) (seq (Z.to_nat lo) (Z.to_nat hi - Z.to_nat lo)).

Definition good : outcome := MkOutcome None true true true.
Definition refused : outcome := MkOutcome (Some 0%nat) true true true.
Definition cut_back (oc : outcome) : outcome := MkOutcome (oc_written oc) true (oc_synced oc) (oc_renamed oc).

Definition file_append (oc : outcome) (w : logWriter) (f : list Z) (m : BlockMeta) (comp bloom : list Z) : logWriter * list Z * L BlockMeta :=
  let '(w2, f2, _) := appendBlock good w f m comp bloom in
  let fits := (ulen comp <=? maxBlockComp) && (ulen bloom <=? maxBloomLen) && (ulen f2 <? 2 ^ 62) in
  let clear := cuts_show w f2 (lw_end w) (lw_end w2) && cuts_show w2 f2 (lw_end w2) (ulen f2 + 1) in
  appendBlock (if fits && clear then cut_back oc else refused) w f m comp bloom.
Definition file_seal (oc : outcome) (w : logWriter) (f : list Z) : list Z * L unit :=
  let f2 := (LogChunk.seal good w f).1 in
  LogChunk.seal (if (ulen f2 <? 2 ^ 62) && cuts_show w f2 (lw_end w) (ulen f2 + 1) then cut_back oc else refused) w f.

#[export] Instance chunk_files : ChunkFiles (list Z) logWriter := {|
  cf_open oc f := let '(f, _, r) := openChunk chunkVersion oc (default [] f) in (f, r);
  cf_append := file_append;
  cf_seal := file_seal;
  cf_index f := match readIndex f with Ok ix => Ok (ix_Blocks ix) | Err e => Err e end;
  cf_read := readBlock;
|}.

(** ** What a file holds *)

Definition lists (w : logWriter) (gs : list (BlockMeta * list rawEntry)) : Prop := no_crc <$> lw_blocks w = no_crc <$> gs.*1.
(** The file has the writer's blocks, and no cut behind them shows anything else. *)
Definition tidy (f : list Z) (w : logWriter) (gs : list (BlockMeta * list rawEntry)) : Prop :=
  chunk_inv (MkChunk f w gs) /\ lists w gs /\ forall k, lw_end w <= Z.of_nat k -> shows w (take k f).
(** The header of a file that was being created. *)
Definition torn_header (f : list Z) : Prop := exists j, (j < 8)%nat /\ f = take j (chunk_header chunkVersion).

Definition file_holds (f : list Z) (ow : option logWriter) (gs : list (BlockMeta * list rawEntry)) (t : option (list rawEntry)) : Prop :=
  match ow, t with
  | Some w, None => tidy f w gs
  | Some w, Some es => chunk_inv (MkChunk f w gs) /\ lists w gs /\ shows w (take (Z.to_nat (lw_end w)) f)
      /\ exists m w2, tidy f w2 (gs ++ [(m, es)]) /\ bm_LastSeq m = max_seq es /\ forall k, lw_end w <= Z.of_nat k < lw_end w2 -> shows w (take k f)
  | None, None => (gs = [] /\ torn_header f) \/ exists w, tidy f w gs
  | None, Some _ => False
  end.
(** A crash cuts the file somewhere behind its last synced block. *)
Definition file_crash (f : list Z) (ow : option logWriter) (f' : list Z) : Prop :=
  exists k, f' = take k f /\ match ow with Some w => lw_end w <= Z.of_nat k | None => match readIndex f with Ok ix => ix_ValidEnd ix <= Z.of_nat k | Err _ => True end end.

Lemma cuts_shown w f lo hi : cuts_show w f lo hi = true -> forall k, lo <= Z.of_nat k < hi -> shows w (take k f).
Proof. unfold cuts_show. rewrite forallb_forall. intros Hc k Hk. apply Hc, in_seq. lia. Qed.
Lemma cuts_shown_all w f : lw_end w <= ulen f -> cuts_show w f (lw_end w) (ulen f + 1) = true -> forall k, lw_end w <= Z.of_nat k -> shows w (take k f).
Proof.
  intros Hle Hc k Hk. destruct (decide (Z.of_nat k <= ulen f)); [apply (cuts_shown _ _ _ _ Hc); lia|]. rewrite take_ge by (unfold ulen in *; lia). rewrite <- (take_ge f (length f)) by lia. apply (cuts_shown _ _ _ _ Hc). unfold ulen in *. lia.
Qed.

Lemma shows_forge w f : shows w f -> no_forgery w f.
Proof. unfold shows, shows_b, no_forgery. intros [_ Hs]%andb_true_iff. destruct (readFooter f (lw_ver w)) as [ix|]; [|done]. rewrite !andb_true_iff, bool_decide_eq_true, !Z.eqb_eq in Hs. by destruct Hs as [[? ?] ?]. Qed.
Lemma shows_index w f : shows w f -> exists ix, readIndex f = Ok ix /\ no_crc <$> ix_Blocks ix = no_crc <$> lw_blocks w /\ ix_ValidEnd ix = lw_end w /\ ix_Version ix = lw_ver w.
Proof. unfold shows, shows_b. intros [Hs _]%andb_true_iff. destruct (readIndex f) as [ix|]; [|done]. rewrite !andb_true_iff, bool_decide_eq_true, !Z.eqb_eq in Hs. destruct Hs as [[? ?] ?]. by exists ix. Qed.
(** It depends on the writer's blocks up to their checksums. *)
Lemma shows_same w w' f : no_crc <$> lw_blocks w' = no_crc <$> lw_blocks w -> lw_end w' = lw_end w -> lw_ver w' = lw_ver w -> shows w f -> shows w' f.
Proof. unfold shows, shows_b. by intros -> -> ->. Qed.

Lemma tidy_len f w gs : chunk_inv (MkChunk f w gs) -> lw_end w <= ulen f.
Proof. intros (pre & tail & ? & Hf & He & _). cbn [ck_file ck_w] in *. rewrite Hf, ulen_app. pose proof (ulen_nonneg tail). lia. Qed.
Lemma inv_cut f w gs k : chunk_inv (MkChunk f w gs) -> lw_end w <= Z.of_nat k -> chunk_inv (MkChunk (take k f) w gs).
Proof.
  intros Hi Hk. pose proof Hi as (pre & tail & ms & Hf & He & _ & Hb & Hs & _). cbn [ck_file ck_w] in *. rewrite Hf, take_app_ge by (unfold ulen in *; lia). rewrite Hf in Hb, Hs. apply Forall_app in Hb as [_ Hb]. eapply inv_tail; [exact Hi|exact Hf|done|by apply Forall_take|].
  unfold small, ulen in *. rewrite length_app, length_take in *. lia.
Qed.
Lemma tidy_cut f w gs k : tidy f w gs -> lw_end w <= Z.of_nat k -> tidy (take k f) w gs.
Proof. intros (Hi & Hl & Hs) Hk. split_and!; [by apply inv_cut|done|]. intros k' Hk'. rewrite take_take. apply Hs. lia. Qed.
Lemma whole (f : list Z) : f = take (length f) f.
Proof. symmetry. by apply take_ge. Qed.
Lemma tidy_whole f w gs : tidy f w gs -> shows w f.
Proof. intros (Hi & _ & Hs). rewrite (whole f). apply Hs. by apply (tidy_len _ _ gs). Qed.

(** The empty chunk. *)
Lemma header_tidy : tidy (chunk_header chunkVersion) (MkLogWriter [] chunkHdrSize chunkVersion) [].
Proof.
  assert (Hi : chunk_inv (MkChunk (chunk_header chunkVersion) (MkLogWriter [] chunkHdrSize chunkVersion) [])) by (eapply (create_inv chunkVersion good); [by right|done]). split_and!; [done|done|]. intros k Hk. cbn [lw_end] in Hk. unfold chunkHdrSize in Hk. rewrite take_ge by (change (length (chunk_header chunkVersion)) with 8%nat; lia). vm_compute. reflexivity.
Qed.
Lemma create_holds oc f r : create_chunk chunkVersion oc = (f, r) -> file_holds f (writer_of r) [] None.
Proof.
  unfold create_chunk. destruct (oc_written oc) as [j|]; intros [= <- <-]; cbn [writer_of file_holds]; [|apply header_tidy]. destruct (decide (j < 8)%nat); [left; split; [done|by exists j]|]. rewrite take_ge by (change (length (chunk_header chunkVersion)) with 8%nat; lia). right. eexists. apply header_tidy.
Qed.

Lemma open_holds oc f gs f' r : file_holds f None gs None -> cf_open oc (Some f) = (f', r) -> file_holds f' (writer_of r) gs None.
Proof.
  intros Hf. cbn [cf_open chunk_files default from_option id]. destruct Hf as [(-> & j & Hj & Ef)|[w Ht]].
  - destruct f as [|c f0] eqn:E; [unfold openChunk; destruct (create_chunk chunkVersion oc) as [f1 r1] eqn:Ec; intros [= <- <-]; by eapply create_holds|]. rewrite <- E in *. assert (Hix : readIndex f = Err ErrCorruptChunk) by (unfold readIndex; rewrite (proj2 (Z.ltb_lt _ _)); [done|]; unfold ulen, chunkHdrSize; rewrite Ef, length_take; lia).
    unfold openChunk. rewrite Hix, E. destruct (oc_renamed oc); [|intros [= <- <-]; cbn [writer_of file_holds]; left; split; [done|]; exists j; by rewrite <- E]. destruct (create_chunk chunkVersion oc) as [f1 r1] eqn:Ec. intros [= <- <-]. by eapply create_holds.
  - pose proof Ht as (Hi & Hl & Hs). pose proof (tidy_whole _ _ _ Ht) as Hw. destruct (shows_index _ _ Hw) as (ix & Hix & Hbl & Hend & Hver). pose proof (tidy_len _ _ _ Hi) as Hlen.
    assert (Hnew : tidy (take (Z.to_nat (lw_end w)) f) (MkLogWriter (ix_Blocks ix) (ix_ValidEnd ix) (ix_Version ix)) gs).
    { destruct (index_inv f w gs (length f) Hi Hlen) as (ix' & extra & Hix' & _ & _ & _ & Hinv); [rewrite <- whole; by apply shows_forge|]. rewrite <- whole, Hix in Hix'. injection Hix' as <-. rewrite <- whole, Hend in Hinv. rewrite Hend in *. split_and!; [done|unfold lists; cbn [lw_blocks]; by rewrite Hbl, Hl|]. cbn [lw_end]. intros k Hk. rewrite take_take. apply (shows_same w); [done..|]. apply Hs. lia. }
    unfold openChunk. rewrite Hix. destruct f as [|c f0] eqn:E; [discriminate Hix|]. rewrite <- E in *. rewrite Hend in *. destruct (Z.ltb_spec (lw_end w) (ulen f)) as [Hlt|Hge]; [destruct (oc_truncated oc)|]; intros [= <- <-]; cbn [writer_of file_holds].
    + done.
    + right. by exists w.
    + by rewrite take_ge in Hnew by (unfold ulen in *; lia).
Qed.

(** ** Writing *)

Lemma holds_base f w gs t : file_holds f (Some w) gs t -> chunk_inv (MkChunk f w gs) /\ lists w gs /\ shows w (take (Z.to_nat (lw_end w)) f) /\ 0 <= lw_end w <= ulen f.
Proof.
  intros Hf. assert (Hi : chunk_inv (MkChunk f w gs)) by (destruct t; apply Hf). pose proof (tidy_len _ _ _ Hi). assert (0 <= lw_end w) by (destruct Hi as (pre & ? & ? & _ & He & _); cbn [ck_w] in He; rewrite <- He; apply ulen_nonneg).
  split_and!; try done; [destruct t; apply Hf|]. destruct t; [apply Hf|]. destruct Hf as (_ & _ & Hs). apply Hs. lia.
Qed.
Lemma base_tidy f w gs t : file_holds f (Some w) gs t -> tidy (take (Z.to_nat (lw_end w)) f) w gs.
Proof.
  intros (Hi & Hl & Hs & Hlen)%holds_base. split_and!; [apply inv_cut; [done|lia]|done|]. intros k Hk. by rewrite take_take, Nat.min_r by lia.
Qed.
Lemma write_base f off buf : 0 <= off <= ulen f -> take (Z.to_nat off) (write_at f off buf) = take (Z.to_nat off) f.
Proof. intros Ho. unfold write_at. apply take_app_length'. rewrite length_take. unfold ulen in Ho. lia. Qed.

Lemma append_holds oc f w gs t es m comp bloom w' f' r : file_holds f (Some w) gs t -> Forall entry_ok es -> encodeBlock es = Ok (m, comp) -> Forall is_byte bloom ->
  file_append oc w f m comp bloom = (w', f', r) ->
  match r with
  | Ok m' => file_holds f' (Some w') (gs ++ [(m', es)]) None /\ bm_LastSeq m' = bm_LastSeq m
  | Err _ => exists t', file_holds f' (Some w') gs t' /\ (t' = None \/ t' = Some es)
  end.
Proof.
  intros Hf Hes Henc Hbl. pose proof (base_tidy _ _ _ _ Hf) as Hbase. destruct (holds_base _ _ _ _ Hf) as (Hi & Hl & Hs & Hlen). unfold file_append.
  assert (Hfail : forall k sy rn w1 f1 r1, appendBlock (MkOutcome (Some k) true sy rn) w f m comp bloom = (w1, f1, r1) -> match r1 with Ok m' => file_holds f1 (Some w1) (gs ++ [(m', es)]) None /\ bm_LastSeq m' = bm_LastSeq m | Err _ => exists t', file_holds f1 (Some w1) gs t' /\ (t' = None \/ t' = Some es) end).
  { intros k sy rn w1 f1 r1. unfold appendBlock. cbn [oc_written oc_truncated]. intros [= <- <- <-]. exists None. rewrite write_base by done. split; [done|by left]. }
  destruct (appendBlock good w f m comp bloom) as [[w2 f2] r2] eqn:Egood. match goal with |- context [if ?b then _ else _] => destruct b eqn:Efit end; [|apply Hfail]. rewrite !andb_true_iff in Efit. destruct Efit as [[[Hc%Z.leb_le Hb%Z.leb_le] Hsm%Z.ltb_lt] [Hc1 Hc2]].
  assert (Hseal : sealable es m comp bloom) by by split_and!. pose proof (append_inv _ _ _ _ _ _ _ _ _ _ _ Hi Hseal Egood Hsm) as Hgood. unfold cut_back. destruct oc as [[k|] tr sy rn]; cbn [oc_written oc_synced oc_renamed]; [apply Hfail|].
  pose proof Egood as Eg. unfold appendBlock in Eg. cbn [good oc_written oc_synced] in Eg. apply pair_eq in Eg as [[Ew Ef]%pair_eq Er]. rewrite <- Er in *. set (m2 := placed w m (if lw_ver w <? 2 then [] else bloom)) in *. assert (Ht2 : tidy f2 w2 (gs ++ [(m2, es)])).
  { split_and!; [done|unfold lists; rewrite <- Ew; cbn [lw_blocks]; by rewrite !fmap_app, Hl|]. apply cuts_shown_all; [by eapply tidy_len|done]. }
  destruct sy.
  - assert (E : appendBlock (MkOutcome None true true rn) w f m comp bloom = (w2, f2, Ok m2)) by (rewrite <- Egood; done). rewrite E. intros [= <- <- <-]. by split.
  - assert (E : appendBlock (MkOutcome None true false rn) w f m comp bloom = (w, f2, Err ErrSync)) by (by rewrite <- Ef). intros E'. rewrite E' in E. injection E as -> -> ->. pose proof (append_inv _ _ _ _ _ _ _ _ _ _ _ Hi Hseal E' Hsm) as Hi2. cbn in Hi2. exists (Some es). split; [|by right]. split_and!; [done|done| |exists m2, w2; split_and!].
    + rewrite <- Ef. by rewrite write_base.
    + done.
    + by apply (encode_last es m comp).
    + intros k Hk. by apply (cuts_shown _ _ _ _ Hc1).
Qed.

Lemma seal_holds oc f w gs t f' r : file_holds f (Some w) gs t -> file_seal oc w f = (f', r) -> file_holds f' None gs None.
Proof.
  intros Hf. pose proof (base_tidy _ _ _ _ Hf) as Hbase. destruct (holds_base _ _ _ _ Hf) as (Hi & Hl & Hs & Hlen). unfold file_seal. assert (Hfail : forall k sy rn f1 r1, LogChunk.seal (MkOutcome (Some k) true sy rn) w f = (f1, r1) -> file_holds f1 None gs None).
  { intros k sy rn f1 r1. unfold LogChunk.seal. cbn [oc_written oc_truncated]. intros [= <- <-]. rewrite write_base by done. right. by exists w. }
  destruct (LogChunk.seal good w f) as [f2 r2] eqn:Egood. cbn [fst]. destruct (_ && _) eqn:Efit; [|apply Hfail]. apply andb_true_iff in Efit as [Hsm%Z.ltb_lt Hc]. unfold cut_back. destruct oc as [[k|] tr sy rn]; cbn [oc_written oc_synced oc_renamed]; [apply Hfail|].
  intros E. assert (f' = f2) as -> by (unfold LogChunk.seal in E, Egood; cbn [good oc_written] in E, Egood; injection E as <- _; by injection Egood as <- _). pose proof (seal_inv _ _ _ _ _ _ Hi Egood Hsm) as Hi2. right. exists w. split_and!; [done|done|]. apply cuts_shown_all; [by eapply tidy_len|done].
Qed.

(** ** Crashes and reading *)

Lemma crash_holds f ow gs t f' : file_holds f ow gs t -> file_crash f ow f' ->
  exists extra, file_holds f' None (gs ++ extra) None /\ (extra = [] \/ exists m es, t = Some es /\ extra = [(m, es)] /\ bm_LastSeq m = max_seq es).
Proof.
  intros Hf (k & -> & Hk). destruct ow as [w|], t as [es|]; cbn [file_holds] in Hf; [| | |].
  - destruct Hf as (Hi & Hl & Hs & m & w2 & Ht & Hm & Hcuts). destruct (decide (Z.of_nat k < lw_end w2)) as [Hlt|Hge].
    + exists []. rewrite app_nil_r. split; [|by left]. right. exists w. split_and!; [by apply inv_cut|done|]. intros k' Hk'. rewrite take_take. apply Hcuts. lia.
    + exists [(m, es)]. split; [right; exists w2; apply tidy_cut; [done|lia]|right; by exists m, es].
  - exists []. rewrite app_nil_r. split; [|by left]. right. exists w. by apply tidy_cut.
  - done.
  - exists []. rewrite app_nil_r. split; [|by left]. destruct Hf as [(-> & j & Hj & ->)|[w Ht]].
    + left. split; [done|]. exists (k `min` j)%nat. split; [lia|]. by rewrite take_take.
    + right. exists w. destruct (shows_index _ _ (tidy_whole _ _ _ Ht)) as (ix & Hix & _ & Hend & _). rewrite Hix, Hend in Hk. by apply tidy_cut.
Qed.

Lemma index_holds f gs : file_holds f None gs None -> (gs = [] /\ exists e, cf_index f = Err e) \/ (exists blocks, cf_index f = Ok blocks /\ no_crc <$> blocks = no_crc <$> gs.*1).
Proof.
  cbn [cf_index chunk_files]. intros [(-> & j & Hj & ->)|[w Ht]].
  - left. split; [done|]. exists ErrCorruptChunk. unfold readIndex. rewrite (proj2 (Z.ltb_lt _ _)); [done|]. unfold ulen, chunkHdrSize. rewrite length_take. lia.
  - right. destruct (shows_index _ _ (tidy_whole _ _ _ Ht)) as (ix & -> & Hbl & _). destruct Ht as (_ & Hl & _). exists (ix_Blocks ix). split; [done|]. by rewrite Hbl, Hl.
Qed.

Lemma read_no_crc f m m' : no_crc m' = no_crc m -> readBlock f m' = readBlock f m.
Proof. destruct m, m'. unfold no_crc. cbn. by intros [= -> -> -> -> -> -> -> -> ->]. Qed.
Lemma read_holds f ow gs t m es m' : file_holds f ow gs t -> (m, es) ∈ gs -> no_crc m' = no_crc m -> cf_read f m' = Ok es.
Proof.
  intros Hf Hin Hm. cbn [cf_read chunk_files]. rewrite (read_no_crc _ _ _ Hm). assert (exists w, chunk_inv (MkChunk f w gs)) as [w Hi].
  { destruct ow as [w|]; [exists w; by apply (holds_base _ _ _ _ Hf)|]. destruct t; [done|]. destruct Hf as [(-> & _)|[w [Hi _]]]; [by apply not_elem_of_nil in Hin|by exists w]. }
  destruct (acked_readable _ _ _ Hi Hin) as [_ Hr]. rewrite (whole f). apply Hr. by apply (tidy_len _ _ gs).
Qed.

#[export] Instance chunk_files_laws : ChunkFilesLaws (list Z) logWriter.
Proof.
  refine {| cf_holds := file_holds; cf_crash := file_crash; cf_open_old := open_holds; cf_append_ok := append_holds; cf_seal_ok := seal_holds; cf_crash_ok := crash_holds; cf_index_ok := index_holds; cf_read_ok := read_holds |}.
  intros oc f r. cbn [cf_open chunk_files default from_option]. unfold openChunk. destruct (create_chunk chunkVersion oc) as [f1 r1] eqn:Ec. intros [= <- <-]. by eapply create_holds.
Defined.
End Chunks.
