(* ===== verification/LogStoreSample.v ===== *)
(** * A life of the log store, and a head that cannot be sealed

    A run of the store on the bytes of a write-ahead log and of chunk files, with a sync that fails and a
    crash; and the head that has outgrown a block. *)

From Stdlib Require Import ZArith Lia.
From Stdlib Require Import (notations) String.
From stdpp Require Import base gmap numbers list sorting.
From S2P Require Import Prelude Wal WalProofs WalSafety Gostring Names HeadRecord BlockFile BlockIndex Utf8 Logql LogBloom LogChunk LogChunkProofs LogChunkLife LogSearch LogSearchOrder LogStore LogStoreInv LogStoreSeal LogStoreRecover LogStoreLife LogStoreWal LogStoreChunks.

Module StoreSample.
(** Logs with an hour and a service, encoded as these. *)
Definition hour : Z := 3600000.
Definition log_at (h : Z) (service : gostring) : Logql.Log := MkLog (h * hour) [] [] service [] [] [] [] [] [].
#[local] Instance hours : LogCodec := {| encodeLog l := l_Ts l / hour :: l_Service l; decodeLog b := match b with [] => None | h :: svc => Some (log_at h svc) end |}.
#[local] Instance plain : Zstd := {| EncodeAll raw := raw; DecodeAll comp := Some comp |}.
#[local] Instance plain_laws : ZstdLaws.
Proof. by split. Qed.
#[local] Instance caseless : CaseMap := fun u => u.

Abbreviation State := (@Store (WAL * nat) (list Z) logWriter).
Definition opts : SOptions := MkSOptions 0 0 0 0.
Definition unsynced : outcome := MkOutcome None true false true.
Definition start : result store_error State := OpenStore (D := Dir * Z * list io) opts 0 (replicate 8 good ++ [unsynced]) (MkCatalog [] [] 0) ∅ (MkDir ∅ ∅, 0, []).
Definition s0 : State := match start with Ok s => s | Err _ => MkS opts 0 ∅ ∅ ∅ false 0 (MkCatalog [] [] 0) ∅ (MkWAL (MkDir ∅ ∅) 0 false 0 0 false false [], 0%nat) [] end.
Definition batch1 : list Logql.Log := [log_at 1 (str "a"); log_at 25 (str "a"); log_at 2 (str "b")].
Definition batch2 : list Logql.Log := [log_at 3 (str "a")].
Definition s1 : State := (Append 100 batch1 s0).1.
(** The second stream's footer is not synced: the seal is reported as failed. *)
Definition s2 : State := (sealAll (fun l => l) (fun _ => true) s1).1.
Definition s3 : State := (Append 200 batch2 s2).1.
Definition acked : list (Z * rawEntry) := promised s1 (new_entries s0 batch1) ++ promised s3 (new_entries s2 batch2).
(** A crash, and the store opened again. *)
Definition left_over : Dir * Z * list io := (set_file (w_dir (s_wal s3).1) (Seg 0) (take 48 (default [] (d_segs (w_dir (s_wal s3).1) !! 0%nat))), 0, []).
Definition s4 : State := match OpenStore opts 300 [] (s_cat s3) (s_files s3) left_over with Ok s => s | Err _ => s3 end.

Lemma batches_storable : Forall storable batch1 /\ Forall storable batch2.
Proof.
  split; repeat constructor; try (vm_compute; done); unfold clean_labels; cbn [log_at l_Service l_Source l_Host]; by (apply (bool_decide_unpack _); vm_compute).
Qed.

Lemma sample_life : exists loose, store_reach s3 acked loose.
Proof.
  eexists. eapply (SR_append s2 (promised s1 (new_entries s0 batch1)) _ 200 batch2 s3 (Ok tt)); [|apply batches_storable|vm_compute; reflexivity|left; vm_compute; lia|vm_compute; reflexivity].
  eapply (SR_seal s1 _ _ (fun l => l) (fun _ => true) s2); [|vm_compute; reflexivity].
  eapply (SR_append s0 [] [] 100 batch1 s1 (Ok tt)); [|apply batches_storable|vm_compute; reflexivity|left; vm_compute; lia|vm_compute; reflexivity].
  eapply (SR_new opts 0 (replicate 8 good ++ [unsynced]) (MkDir ∅ ∅, 0, []) (s_wal s0)); [vm_compute; reflexivity| |vm_compute; reflexivity].
  exists {[ 0%nat := [] ]}, 0%nat, [], [], [], []. split_and!; try done. apply inv_holds; [|done| |done].
  - eapply (Open_empty 0 []). vm_compute. reflexivity.
  - intros k Hk. apply lookup_singleton_is_Some in Hk. lia.
Qed.

Lemma nothing_lost f ow : file_crash f ow f.
Proof.
  exists (length f + Z.to_nat match ow with Some w => lw_end w | None => match readIndex f with Ok ix => ix_ValidEnd ix | Err _ => 0 end end)%nat. rewrite take_ge by lia. split; [done|]. destruct ow; [lia|]. destruct (readIndex f); [lia|done].
Qed.

End StoreSample.

(** ** A head past the size of a block *)

Section Oversized.
Context `{LogCodec} `{CaseMap} `{Zstd} {W D F C : Type} `{StoreWal W D} `{ChunkFiles F C}.

Definition body_bytes (es : list rawEntry) : Z := foldr Z.add 0 ((fun e => ulen (re_Body e)) <$> es).
Lemma body_bytes_perm es es' : es ≡ₚ es' -> body_bytes es = body_bytes es'.
Proof. unfold body_bytes. induction 1; cbn; lia. Qed.
Lemma raw_of_bodies es : forall prev prevSeq, body_bytes es <= ulen (raw_of prev prevSeq es).
Proof.
  induction es as [|e es IH]; intros prev prevSeq; [done|]. cbn [raw_of]. unfold body_bytes, entry_raw. cbn [fmap list_fmap foldr]. specialize (IH (re_Ts e) (re_Seq e)). unfold body_bytes in IH. rewrite !ulen_app. pose proof (ulen_nonneg (AppendVarint [] (int64 (re_Ts e - prev)))). pose proof (ulen_nonneg (AppendVarint [] (int64 (uint64 (re_Seq e - prevSeq))))). pose proof (ulen_nonneg (AppendUvarint [] (ulen (re_Body e)))). lia.
Qed.
Lemma one_day day es : es <> [] -> (forall e, e ∈ es -> dayOf (re_Ts e) = day) -> day_groups es = [(day, es)].
Proof.
  induction es as [|e es IH]; intros Hne Hday; [done|]. cbn [day_groups]. rewrite (Hday e) by by left. destruct es as [|e' es]; [done|]. rewrite IH by (done || intros x Hx; apply Hday; by right). by rewrite Z.eqb_refl.
Qed.

(** A head of one day that has outgrown a block is never sealed again. Whatever the system calls do, sealing it fails before it touches the disk and leaves the store as it was: the head stays, with the segments of the log it holds on to, and every later attempt fails the same way. *)
Theorem oversized_head_stuck (s : @Store W F C) id st day : s_byID s !! id = Some st -> (forall e, e ∈ st_head st -> dayOf (re_Ts e) = day) -> maxBlockRaw < body_bytes (st_head st) ->
  seal id s = (s, Err (SErrChunk ErrBlockTooLarge)).
Proof.
  intros Est Hday Hbig. unfold seal. rewrite (bind_ok get _ s s s) by done. rewrite Est. destruct (st_head st) as [|e0 es0] eqn:Eh; [done|]. rewrite <- Eh in *. set (sorted := SliceStable less (st_head st)). assert (Hp : sorted ≡ₚ st_head st) by apply sort_perm.
  assert (Hne : sorted <> []) by (intros E; rewrite E, Eh in Hp; by apply Permutation_nil_cons in Hp). rewrite (one_day day) by (done || intros e He; apply Hday; by rewrite <- Hp). cbn [seal_days]. erewrite (bind_err _ _ s s); [|].
  - done.
  - erewrite (bind_err _ _ s s); [done|]. unfold sealDay, encodeBlock. destruct sorted as [|e es] eqn:Es; [done|]. rewrite <- Es in *. cbv zeta. rewrite (proj2 (Z.ltb_lt _ _)); [done|]. eapply Z.lt_le_trans; [exact Hbig|]. rewrite <- (body_bytes_perm _ _ Hp). apply raw_of_bodies.
Qed.
End Oversized.

Module OversizedSample.
Import StoreSample.
#[local] Existing Instances hours plain caseless.
Definition huge : rawEntry := MkRaw 0 1 (replicate (Z.to_nat (maxBlockRaw + 1)) 0).
Definition full : State := set_byID {[ 1 := MkSt 1 [] [huge] 0 0 0 None ]} s0.
Lemma oversized_head_stuck_witness : seal 1 full = (full, Err (SErrChunk ErrBlockTooLarge)).
Proof.
  apply (oversized_head_stuck full 1 (MkSt 1 [] [huge] 0 0 0 None) 0).
  - apply lookup_singleton_eq.
  - cbn [st_head]. intros e He. apply list_elem_of_singleton in He as ->. reflexivity.
  - cbn [st_head]. unfold body_bytes, huge. cbn [fmap list_fmap foldr re_Body]. unfold ulen. rewrite length_replicate, Z2Nat.id by (unfold maxBlockRaw; lia). lia.
Defined.
End OversizedSample.
