(* ===== verification/Sketch.v ===== *)
(** * Quantile sketches (internal/sketch: store.go, sketch.go, bin.go, wire.go; pkg/wire/sketches.go)

    A sketch counts observations in buckets of geometrically growing width. The counts are float64 bit
    patterns; [math.Log] and [math.Pow], whose last bits the Go documentation does not fix, are
    parameters. Bucket indices stay within 32 bits, so the index arithmetic does not wrap. *)

From Stdlib Require Import ZArith Lia SpecFloat.
From stdpp Require Import base numbers list.
From S2P Require Import Prelude Gofloat Gofloat64 HeadRecord.

Definition MaxBins : Z := 2048.
Definition MinInt32 : Z := - 2 ^ 31.
Definition MaxInt32 : Z := 2 ^ 31 - 1.

(** ** A run of buckets (store.go) *)

(** [st_arr] is the backing array to its capacity; the slice is its first [st_len] elements. *)
Record store := MkStore { st_arr : list Z; st_len : Z; st_offset : Z; st_total : Z }.
Definition empty_store : store := MkStore [] 0 0 0.
Definition counts (s : store) : list Z := take (Z.to_nat (st_len s)) (st_arr s).

Definition zeroes (n : Z) : list Z := replicate (Z.to_nat n) 0.
(** [copy(dst[at:], src)]. *)
Definition copy_at (dst : list Z) (at_ : Z) (src : list Z) : list Z :=
  take (Z.to_nat at_) dst ++ take (length dst - Z.to_nat at_) src ++ drop (Z.to_nat at_ + length src) dst.

Definition growLow (k : Z) (s : store) : store :=
  if st_len s =? MaxBins then s else
  let need := st_offset s + st_len s - k in
  if need <=? MaxBins then
    let want := Z.min (Z.max need (2 * st_len s)) MaxBins in
    let newOffset := st_offset s + st_len s - want in
    MkStore (copy_at (zeroes want) (st_offset s - newOffset) (counts s)) want newOffset (st_total s)
  else
    let newOffset := st_offset s + st_len s - MaxBins in
    MkStore (copy_at (zeroes MaxBins) (st_offset s - newOffset) (counts s)) MaxBins newOffset (st_total s).

Definition growHigh (k : Z) (s : store) : store :=
  let want := k - st_offset s + 1 in
  if want <=? MaxBins then
    if want <=? ulen (st_arr s) then MkStore (st_arr s) want (st_offset s) (st_total s)
    else MkStore (copy_at (zeroes (Z.min (Z.max (2 * want) 8) MaxBins)) 0 (counts s)) want (st_offset s) (st_total s)
  else
    let newOffset := k - MaxBins + 1 in
    let from := newOffset - st_offset s in
    let folded := foldl fadd 0 (take (Z.to_nat from) (counts s)) in
    let grown := if from <? st_len s then copy_at (zeroes MaxBins) 0 (drop (Z.to_nat from) (counts s)) else zeroes MaxBins in
    MkStore (alter (fun c => fadd c folded) 0%nat grown) MaxBins newOffset (st_total s).

Definition grow (k : Z) (s : store) : store :=
  if st_len s =? 0 then MkStore (zeroes 8) 1 k (st_total s)
  else if k <? st_offset s then growLow k s
  else if st_offset s + st_len s <=? k then growHigh k s
  else s.

Definition store_add (k weight : Z) (s : store) : store :=
  let s := grow k s in
  let i := Z.max (k - st_offset s) 0 in
  MkStore (alter (fun c => fadd c weight) (Z.to_nat i) (st_arr s)) (st_len s) (st_offset s) (fadd (st_total s) weight).

Record Bin := MkBin { b_Index : Z; b_Count : Z }.
(** The non-empty buckets in ascending order ([forEach], [bins]). *)
Fixpoint bins_from (k : Z) (cs : list Z) : list Bin :=
  match cs with
  | [] => []
  | c :: cs => if feq c 0 then bins_from (k + 1) cs else MkBin k c :: bins_from (k + 1) cs
  end.
Definition bins (s : store) : list Bin := bins_from (st_offset s) (counts s).

Definition store_merge (other s : store) : store :=
  match last (bins other) with
  | None => s
  | Some top => foldl (fun s b => store_add (b_Index b) (b_Count b) s) (grow (b_Index top) s) (bins other)
  end.
Definition store_clone (s : store) : store := MkStore (counts s) (st_len s) (st_offset s) (st_total s).

(** ** Sketches (sketch.go) *)

(** [int(x)] of a NaN is implementation-dependent in Go: [int_of_NaN]. *)
Class GoMath := { Log : Z -> Z; Pow : Z -> Z -> Z; int_of_NaN : Z }.

Inductive sketch_error := ErrIncompatible | ErrNotFinite | ErrWeight | ErrBadBin | ErrBadQuantile | ErrGamma | ErrInvalid.

Record Sketch := MkSketch {
  sk_gamma : Z;
  sk_invLogGamma : Z;
  sk_pos : store;
  sk_neg : store;
  sk_zeros : Z;
  sk_count : Z;
  sk_sum : Z;
  sk_min : Z;
  sk_max : Z;
}.
Abbreviation SK := (result sketch_error).

Definition one : Z := of_int 1.
Definition two : Z := of_int 2.

(** [int(math.Ceil(x))] where it is used: between the clamps of [index]. *)
Definition ceil_int (x : Z) : Z :=
  match F64 x with
  | S754_finite s m e =>
      let n := if s then Zneg m else Zpos m in
      if 0 <=? e then n * 2 ^ e else - ((- n) / 2 ^ (- e))
  | S754_zero _ => 0
  | S754_infinity s => if s then MinInt32 - 1 else MaxInt32 + 1
  | S754_nan => 0
  end.

Section Sketches.
Context `{GoMath}.

Definition fresh (gamma : Z) : Sketch := MkSketch gamma (fdiv one (Log gamma)) empty_store empty_store 0 0 0 (Inf false) (Inf true).
(** [New] panics on a bad [alpha]. *)
Definition New (alpha : Z) : option Sketch :=
  if negb (flt 0 alpha && flt alpha one) then None else
  let gamma := fdiv (fadd one alpha) (fsub one alpha) in
  if fle gamma one then None else Some (fresh gamma).
Definition NewWithGamma (gamma : Z) : SK Sketch :=
  if negb (finite gamma) || fle gamma one then Err ErrGamma else Ok (fresh gamma).

Definition index (s : Sketch) (v : Z) : Z :=
  let x := fmul (Log v) (sk_invLogGamma s) in
  let k := ceil_int x in
  if isNaN x then int_of_NaN else if k <? MinInt32 then MinInt32 else if MaxInt32 <? k then MaxInt32 else k.
Definition value (s : Sketch) (k : Z) : Z := fdiv (fmul two (Pow (sk_gamma s) (of_int k))) (fadd (sk_gamma s) one).

Definition AddWithCount (v weight : Z) (s : Sketch) : SK Sketch :=
  if negb (finite v) then Err ErrNotFinite else
  if negb (finite weight) || fle weight 0 then Err ErrWeight else
  Ok (MkSketch (sk_gamma s) (sk_invLogGamma s)
        (if flt 0 v then store_add (index s v) weight (sk_pos s) else sk_pos s)
        (if flt 0 v then sk_neg s else if flt v 0 then store_add (index s (fneg v)) weight (sk_neg s) else sk_neg s)
        (if flt 0 v || flt v 0 then sk_zeros s else fadd (sk_zeros s) weight)
        (fadd (sk_count s) weight) (fadd (sk_sum s) (fmul v weight))
        (if flt v (sk_min s) then v else sk_min s) (if flt (sk_max s) v then v else sk_max s)).
Definition SketchAdd (v : Z) (s : Sketch) : SK Sketch := AddWithCount v one s.

Definition SketchMerge (other : option Sketch) (s : Sketch) : SK Sketch :=
  match other with
  | None => Ok s
  | Some o =>
      if negb (feq (sk_gamma s) (sk_gamma o)) then Err ErrIncompatible else
      Ok (MkSketch (sk_gamma s) (sk_invLogGamma s) (store_merge (sk_pos o) (sk_pos s)) (store_merge (sk_neg o) (sk_neg s))
            (fadd (sk_zeros s) (sk_zeros o)) (fadd (sk_count s) (sk_count o)) (fadd (sk_sum s) (sk_sum o))
            (if flt (sk_min o) (sk_min s) then sk_min o else sk_min s) (if flt (sk_max s) (sk_max o) then sk_max o else sk_max s))
  end.
Definition Clone (s : Sketch) : Sketch :=
  MkSketch (sk_gamma s) (sk_invLogGamma s) (store_clone (sk_pos s)) (store_clone (sk_neg s)) (sk_zeros s) (sk_count s) (sk_sum s) (sk_min s) (sk_max s).

(** The walk over buckets: the total so far, and the first bucket that takes it past [rank]. *)
Fixpoint walk (rank seen : Z) (bs : list Bin) : Z * option Z :=
  match bs with
  | [] => (seen, None)
  | b :: bs =>
      let seen := fadd seen (b_Count b) in
      if flt rank seen then (seen, Some (b_Index b)) else walk rank seen bs
  end.
Definition clampToRange (v min max : Z) : Z := if flt v min then min else if flt max v then max else v.

Definition rank_of (q : Z) (s : Sketch) : Z :=
  let rank := fmul q (fsub (sk_count s) one) in
  if flt rank 0 then 0 else rank.
Definition Quantile (q : Z) (s : Sketch) : SK Z :=
  if negb (fle 0 q && fle q one) then Err ErrBadQuantile else
  if feq (sk_count s) 0 then Ok NaN else
  if feq q 0 then Ok (sk_min s) else
  if feq q one then Ok (sk_max s) else
  let rank := rank_of q s in
  let '(seen, found) := walk rank 0 (reverse (bins (sk_neg s))) in
  match found with
  | Some k => Ok (clampToRange (fneg (value s k)) (sk_min s) (sk_max s))
  | None =>
      let seen := fadd seen (sk_zeros s) in
      if flt rank seen then Ok 0 else
      let '(_, found) := walk rank seen (bins (sk_pos s)) in
      match found with
      | Some k => Ok (clampToRange (value s k) (sk_min s) (sk_max s))
      | None => Ok (sk_max s)
      end
  end.

(** ** Restoring (bin.go, wire.go) *)

Definition AddBin (b : Bin) (negative : bool) (s : Sketch) : SK Sketch :=
  if negb (finite (b_Count b)) then Err ErrBadBin else
  if fle (b_Count b) 0 then Ok s else
  if (b_Index b <? MinInt32) || (MaxInt32 <? b_Index b) then Err ErrBadBin else
  Ok (MkSketch (sk_gamma s) (sk_invLogGamma s)
        (if negative then sk_pos s else store_add (b_Index b) (b_Count b) (sk_pos s))
        (if negative then store_add (b_Index b) (b_Count b) (sk_neg s) else sk_neg s)
        (sk_zeros s) (sk_count s) (sk_sum s) (sk_min s) (sk_max s)).
Fixpoint AddBins (bs : list Bin) (negative : bool) (s : Sketch) : SK Sketch :=
  match bs with
  | [] => Ok s
  | b :: bs => match AddBin b negative s with Ok s => AddBins bs negative s | Err e => Err e end
  end.

Definition SetAggregates (count sum min max zeros : Z) (s : Sketch) : SK Sketch :=
  if negb (finite count) || flt count 0 then Err ErrBadBin else
  if negb (finite zeros) || flt zeros 0 then Err ErrBadBin else
  if negb (finite sum) then Err ErrBadBin else
  if flt 0 count && (negb (finite min) || negb (finite max)) then Err ErrBadBin else
  if flt 0 count && flt max min then Err ErrBadBin else
  Ok (MkSketch (sk_gamma s) (sk_invLogGamma s) (sk_pos s) (sk_neg s) zeros count sum min max).

Record WSketch := MkWSketch { w_Gamma : Z; w_Count : Z; w_Sum : Z; w_Min : Z; w_Max : Z; w_Zeros : Z; w_Bins : list Bin; w_NegBins : list Bin }.

Definition ToWire (s : Sketch) : WSketch :=
  let some := flt 0 (sk_count s) in
  MkWSketch (sk_gamma s) (sk_count s) (sk_sum s) (if some then sk_min s else 0) (if some then sk_max s else 0) (sk_zeros s) (bins (sk_pos s)) (bins (sk_neg s)).

Fixpoint valid_bins (prev : option Z) (bs : list Bin) : bool :=
  match bs with
  | [] => true
  | b :: bs =>
      finite (b_Count b) && negb (fle (b_Count b) 0) && (MinInt32 <=? b_Index b) && (b_Index b <=? MaxInt32)
      && match prev with Some p => p <? b_Index b | None => true end && valid_bins (Some (b_Index b)) bs
  end.
Definition validateBins (bs : list Bin) : bool := (ulen bs <=? MaxBins) && valid_bins None bs.

(** [1e-6] and [1e-9]. *)
Definition tol_rel : Z := 0x3EB0C6F7A0B5ED8D.
Definition tol_abs : Z := 0x3E112E0BE826D695.
Definition fabs (a : Z) : Z := fmag a.
Definition binned (w : WSketch) : Z :=
  fadd (foldl fadd (foldl fadd 0 (b_Count <$> w_Bins w)) (b_Count <$> w_NegBins w)) (w_Zeros w).
Definition ValidateSketch (w : WSketch) : bool :=
  finite (w_Gamma w) && negb (fle (w_Gamma w) one)
  && finite (w_Count w) && negb (flt (w_Count w) 0) && finite (w_Zeros w) && negb (flt (w_Zeros w) 0) && finite (w_Sum w)
  && negb (flt 0 (w_Count w) && (negb (finite (w_Min w)) || negb (finite (w_Max w)) || flt (w_Max w) (w_Min w)))
  && validateBins (w_Bins w) && validateBins (w_NegBins w)
  && negb (flt (fadd (fmul tol_rel (w_Count w)) tol_abs) (fabs (fsub (binned w) (w_Count w)))).

Definition FromWire (w : WSketch) : SK Sketch :=
  if negb (ValidateSketch w) then Err ErrInvalid else
  match NewWithGamma (w_Gamma w) with
  | Err e => Err e
  | Ok s =>
      match AddBins (w_Bins w) false s with
      | Err e => Err e
      | Ok s =>
          match AddBins (w_NegBins w) true s with
          | Err e => Err e
          | Ok s => if feq (w_Count w) 0 then Ok s else SetAggregates (w_Count w) (w_Sum w) (w_Min w) (w_Max w) (w_Zeros w) s
          end
      end
  end.
End Sketches.
