(* ===== verification/SketchBins.v ===== *)
(** * What a run of buckets holds

    A store of buckets refines a histogram of the observations it was given: bucket [k] has the whole
    weight of index [k], and everything too far below the highest index is in the lowest bucket. That
    depends on the observations alone, not on their order or on how the array was grown. *)

From Stdlib Require Import ZArith Lia Sorting.Sorted.
From stdpp Require Import base numbers list.
From S2P Require Import Prelude Gofloat Gofloat64 HeadRecord Sketch.

(** ** Histograms *)

Abbreviation obs := (list (Z * Z)).
Definition clampi (T k : Z) : Z := Z.max k (T - MaxBins + 1).
Fixpoint sumZ {A} (f : A -> Z) (l : list A) : Z := match l with [] => 0 | x :: l => f x + sumZ f l end.
Definition wsum (h : obs) : Z := sumZ snd h.
(** The weight in bucket [j] when [T] is the highest, and below bucket [j]. *)
Definition hist (T : Z) (h : obs) (j : Z) : Z := sumZ (fun x => if clampi T x.1 =? j then x.2 else 0) h.
Definition below (T : Z) (h : obs) (j : Z) : Z := sumZ (fun x => if clampi T x.1 <? j then x.2 else 0) h.

Lemma sumZ_app {A} (f : A -> Z) l l' : sumZ f (l ++ l') = sumZ f l + sumZ f l'.
Proof. induction l as [|x l IH]; cbn; lia. Qed.
Lemma sumZ_ext {A} (f g : A -> Z) l : (forall x, x ∈ l -> f x = g x) -> sumZ f l = sumZ g l.
Proof. induction l as [|x l IH]; intros Hf; [done|]. cbn. rewrite (Hf x) by by left. rewrite IH; [done|]. intros y Hy. apply Hf. by right. Qed.
Lemma sumZ_plus {A} (f g : A -> Z) l : sumZ (fun x => f x + g x) l = sumZ f l + sumZ g l.
Proof. induction l as [|x l IH]; cbn; lia. Qed.
Lemma sumZ_0 {A} (f : A -> Z) l : (forall x, x ∈ l -> f x = 0) -> sumZ f l = 0.
Proof. intros Hf. rewrite (sumZ_ext f (fun _ => 0)) by done. induction l; cbn; [done|]. apply IHl. intros y Hy. apply Hf. by right. Qed.
Lemma sumZ_le {A} (f g : A -> Z) l : (forall x, x ∈ l -> f x <= g x) -> sumZ f l <= sumZ g l.
Proof. induction l as [|x l IH]; intros Hf; [done|]. cbn. pose proof (Hf x ltac:(by left)). specialize (IH (fun y Hy => Hf y ltac:(by right))). lia. Qed.
Lemma sumZ_nonneg {A} (f : A -> Z) l : (forall x, x ∈ l -> 0 <= f x) -> 0 <= sumZ f l.
Proof. intros Hf. rewrite <- (sumZ_0 (fun _ : A => 0) l) by done. by apply sumZ_le. Qed.
Lemma sumZ_perm {A} (f : A -> Z) l l' : l ≡ₚ l' -> sumZ f l = sumZ f l'.
Proof. induction 1; cbn; lia. Qed.

Definition weighty (h : obs) : Prop := forall x, x ∈ h -> 0 < x.2.
Lemma weighty_app h h' : weighty (h ++ h') <-> weighty h /\ weighty h'.
Proof. unfold weighty. setoid_rewrite elem_of_app. naive_solver. Qed.
Lemma hist_bounds T h j : weighty h -> 0 <= hist T h j <= wsum h.
Proof. intros Hw. split; [apply sumZ_nonneg|apply sumZ_le]; intros x Hx; specialize (Hw x Hx); destruct (_ =? j); lia. Qed.
Lemma below_bounds T h j : weighty h -> 0 <= below T h j /\ below T h j + hist T h j <= wsum h.
Proof.
  intros Hw. split; [apply sumZ_nonneg; intros x Hx; specialize (Hw x Hx); destruct (_ <? j); lia|]. unfold below, hist, wsum. rewrite <- sumZ_plus. apply sumZ_le. intros x Hx. specialize (Hw x Hx). destruct (Z.ltb_spec (clampi T x.1) j), (Z.eqb_spec (clampi T x.1) j); lia.
Qed.
Lemma below_S T h j : below T h (j + 1) = below T h j + hist T h j.
Proof. unfold below, hist. rewrite <- sumZ_plus. apply sumZ_ext. intros x _. destruct (Z.ltb_spec (clampi T x.1) (j + 1)), (Z.ltb_spec (clampi T x.1) j), (Z.eqb_spec (clampi T x.1) j); lia. Qed.
Lemma hist_app T h h' j : hist T (h ++ h') j = hist T h j + hist T h' j.
Proof. apply sumZ_app. Qed.
Lemma hist_cons T x h j : hist T (x :: h) j = (if clampi T x.1 =? j then x.2 else 0) + hist T h j.
Proof. done. Qed.
Lemma wsum_app h h' : wsum (h ++ h') = wsum h + wsum h'.
Proof. apply sumZ_app. Qed.
Lemma hist_none T h j : (forall x, x ∈ h -> clampi T x.1 <> j) -> hist T h j = 0.
Proof. intros Hx. apply sumZ_0. intros x Hin. by rewrite (proj2 (Z.eqb_neq _ _) (Hx x Hin)). Qed.
Lemma clampi_twice T T' k : T <= T' -> clampi T' (clampi T k) = clampi T' k.
Proof. unfold clampi. lia. Qed.

(** Raising the highest bucket. *)
Lemma hist_raise T T' h j : T <= T' -> hist T' h j = (if j <? T' - MaxBins + 1 then 0 else if j =? T' - MaxBins + 1 then below T h j + hist T h j else hist T h j).
Proof.
  intros HT. destruct (Z.ltb_spec j (T' - MaxBins + 1)); [apply hist_none; intros x _; unfold clampi; lia|]. destruct (Z.eqb_spec j (T' - MaxBins + 1)).
  - unfold below, hist. rewrite <- sumZ_plus. apply sumZ_ext. intros x _. unfold clampi. destruct (Z.eqb_spec (Z.max x.1 (T' - MaxBins + 1)) j), (Z.ltb_spec (Z.max x.1 (T - MaxBins + 1)) j), (Z.eqb_spec (Z.max x.1 (T - MaxBins + 1)) j); lia.
  - unfold hist. apply sumZ_ext. intros x _. unfold clampi. destruct (Z.eqb_spec (Z.max x.1 (T' - MaxBins + 1)) j), (Z.eqb_spec (Z.max x.1 (T - MaxBins + 1)) j); lia.
Qed.

(** ** The store of a histogram *)

Record rep (s : store) (T : Z) (h : obs) : Prop := {
  rp_len : 1 <= st_len s <= MaxBins;
  rp_top : st_offset s + st_len s - 1 = T;
  rp_cap : st_len s <= ulen (st_arr s) <= MaxBins;
  rp_arr : forall i : nat, nth i (st_arr s) 0 = of_int (hist T h (st_offset s + Z.of_nat i));
  rp_obs : forall x, x ∈ h -> x.1 <= T /\ st_offset s <= clampi T x.1;
  rp_pos : weighty h;
  rp_total : st_total s = of_int (wsum h);
  rp_sum : wsum h < 2 ^ 53;
}.

Lemma nth_zeroes n i : nth i (zeroes n) 0 = 0.
Proof. unfold zeroes. generalize (Z.to_nat n). intros m. revert i. induction m as [|m IH]; intros [|i]; cbn; auto. Qed.
Lemma nth_take (l : list Z) n i : nth i (take n l) 0 = if (i <? n)%nat then nth i l 0 else 0.
Proof. rewrite !nth_lookup. destruct (Nat.ltb_spec i n); [by rewrite lookup_take_lt|by rewrite lookup_take_ge]. Qed.
Lemma nth_drop (l : list Z) n i : nth i (drop n l) 0 = nth (n + i) l 0.
Proof. by rewrite !nth_lookup, lookup_drop. Qed.
Lemma nth_app (l l' : list Z) i : nth i (l ++ l') 0 = if (i <? length l)%nat then nth i l 0 else nth (i - length l) l' 0.
Proof. destruct (Nat.ltb_spec i (length l)); [by apply app_nth1|by apply app_nth2]. Qed.
Lemma nth_beyond (l : list Z) i : (length l <= i)%nat -> nth i l 0 = 0.
Proof. apply nth_overflow. Qed.
Lemma length_copy dst a src : 0 <= a -> a + ulen src <= ulen dst -> ulen (copy_at dst a src) = ulen dst.
Proof. intros Ha Hl. unfold copy_at, ulen in *. rewrite !length_app, !length_take, length_drop. lia. Qed.
Lemma length_zeroes n : 0 <= n -> ulen (zeroes n) = n.
Proof. intros Hn. unfold ulen, zeroes. rewrite length_replicate. lia. Qed.
Lemma nth_copy n a src i : 0 <= a -> a + ulen src <= n -> nth i (copy_at (zeroes n) a src) 0 = if Z.of_nat i <? a then 0 else nth (i - Z.to_nat a) src 0.
Proof.
  intros Ha Hl. pose proof (length_zeroes n) as Hz. unfold copy_at, ulen in *. assert (Hlen : length (zeroes n) = Z.to_nat n) by (specialize (Hz ltac:(lia)); lia). rewrite !nth_app, !nth_take, nth_drop, !nth_zeroes, !length_take, Hlen. destruct (Z.ltb_spec (Z.of_nat i) a), (Nat.ltb_spec i (Z.to_nat a `min` Z.to_nat n)); try lia; [by destruct (_ <? _)%nat|].
  replace (i - Z.to_nat a `min` Z.to_nat n)%nat with (i - Z.to_nat a)%nat by lia. destruct (Nat.ltb_spec (i - Z.to_nat a) ((Z.to_nat n - Z.to_nat a) `min` length src)); [by rewrite (proj2 (Nat.ltb_lt _ _)) by lia|]. rewrite nth_beyond; [done|lia].
Qed.
Lemma nth_alter (f : Z -> Z) (l : list Z) p i : (p < length l)%nat -> nth i (alter f p l) 0 = if (i =? p)%nat then f (nth p l 0) else nth i l 0.
Proof.
  revert p i. induction l as [|x l IH]; intros [|p] [|i] Hp; cbn [length] in Hp; try lia; cbn [alter list_alter nth Nat.eqb]; try done. rewrite IH by lia. done.
Qed.

Lemma nth_counts s T h i : rep s T h -> nth i (counts s) 0 = of_int (hist T h (st_offset s + Z.of_nat i)).
Proof.
  intros Hr. unfold counts. rewrite nth_take. destruct (Nat.ltb_spec i (Z.to_nat (st_len s))); [apply (rp_arr _ _ _ Hr)|]. rewrite hist_none; [done|]. intros x Hx. destruct (rp_obs _ _ _ Hr x Hx) as [Hk _]. pose proof (rp_top _ _ _ Hr). unfold clampi, MaxBins. lia.
Qed.
Lemma len_counts s T h : rep s T h -> ulen (counts s) = st_len s.
Proof. intros Hr. pose proof (rp_len _ _ _ Hr). pose proof (rp_cap _ _ _ Hr). unfold counts, ulen in *. rewrite length_take. lia. Qed.

(** Sums of whole counts. *)
Lemma fold_counts s T h n : rep s T h -> (n <= length (counts s))%nat -> foldl fadd 0 (take n (counts s)) = of_int (below T h (st_offset s + Z.of_nat n)).
Proof.
  intros Hr. induction n as [|n IH]; intros Hn.
  - cbn [take foldl]. rewrite Z.add_0_r. unfold below. rewrite sumZ_0; [done|]. intros x Hx. destruct (rp_obs _ _ _ Hr x Hx) as [_ Ho]. by rewrite (proj2 (Z.ltb_ge _ _)) by lia.
  - rewrite (take_S_r _ _ (nth n (counts s) 0)) by (destruct (nth_lookup_or_length (counts s) n 0); [done|lia]). rewrite foldl_app, IH by lia. cbn [foldl]. rewrite (nth_counts _ _ _ n Hr). replace (st_offset s + Z.of_nat (S n)) with (st_offset s + Z.of_nat n + 1) by lia. rewrite below_S.
    pose proof (below_bounds T h (st_offset s + Z.of_nat n) (rp_pos _ _ _ Hr)). pose proof (hist_bounds T h (st_offset s + Z.of_nat n) (rp_pos _ _ _ Hr)). pose proof (rp_sum _ _ _ Hr). apply fadd_int; lia.
Qed.

(** ** Growing *)

Lemma below_offset s T h x : rep s T h -> x <= st_offset s -> below T h x = 0.
Proof. intros Hr Hx. apply sumZ_0. intros y Hy. destruct (rp_obs _ _ _ Hr y Hy) as [_ Ho]. by rewrite (proj2 (Z.ltb_ge _ _)) by lia. Qed.
Lemma hist_under s T h j : rep s T h -> j < st_offset s -> hist T h j = 0.
Proof. intros Hr Hj. apply hist_none. intros y Hy. destruct (rp_obs _ _ _ Hr y Hy) as [_ Ho]. lia. Qed.

Lemma low_rep s T h want : rep s T h -> st_len s <= want <= MaxBins -> let newOffset := st_offset s + st_len s - want in
  rep (MkStore (copy_at (zeroes want) (st_offset s - newOffset) (counts s)) want newOffset (st_total s)) T h.
Proof.
  intros Hr Hw newOffset. pose proof (rp_len _ _ _ Hr) as Hlen. pose proof (rp_top _ _ _ Hr) as Htop. pose proof (len_counts _ _ _ Hr) as Hc. assert (Hgap : st_offset s - newOffset = want - st_len s) by (unfold newOffset; lia). split; cbn [st_arr st_len st_offset st_total]; try apply Hr.
  - lia.
  - unfold newOffset. lia.
  - rewrite length_copy; rewrite ?length_zeroes; lia.
  - intros i. rewrite nth_copy by lia. destruct (Z.ltb_spec (Z.of_nat i) (st_offset s - newOffset)); [rewrite (hist_under s) by (done || lia); done|]. rewrite (nth_counts _ _ _ _ Hr). do 2 f_equal. unfold newOffset in *. lia.
  - intros x Hx. destruct (rp_obs _ _ _ Hr x Hx). unfold newOffset. lia.
Qed.

Lemma hist_lift s T h k j : rep s T h -> T <= k -> k - st_offset s + 1 <= MaxBins -> st_offset s <= j -> hist k h j = hist T h j.
Proof.
  intros Hr Hk Hw Hj. rewrite (hist_raise T k h j Hk). rewrite (proj2 (Z.ltb_ge _ _)) by lia. destruct (Z.eqb_spec j (k - MaxBins + 1)); [|done]. rewrite (below_offset s) by (done || lia). lia.
Qed.
Lemma high_rep s T h k arr : rep s T h -> T <= k -> k - st_offset s + 1 <= MaxBins -> k - st_offset s + 1 <= ulen arr <= MaxBins -> (forall i, nth i arr 0 = of_int (hist T h (st_offset s + Z.of_nat i))) ->
  rep (MkStore arr (k - st_offset s + 1) (st_offset s) (st_total s)) k h.
Proof.
  intros Hr Hk Hw Hlen Harr. pose proof (rp_len _ _ _ Hr). pose proof (rp_top _ _ _ Hr). split; cbn [st_arr st_len st_offset st_total]; try apply Hr; try lia.
  - intros i. rewrite Harr. f_equal. symmetry. apply (hist_lift s); (done || lia).
  - intros x Hx. destruct (rp_obs _ _ _ Hr x Hx) as [Hx1 Hx2]. unfold clampi in *. lia.
Qed.

(** Collapsing: what lies below the new floor is added to it. *)
Lemma collapse_rep s T h k : rep s T h -> T <= k -> MaxBins < k - st_offset s + 1 -> rep (growHigh k s) k h.
Proof.
  intros Hr Hk Hw. pose proof (rp_len _ _ _ Hr) as Hlen. pose proof (rp_top _ _ _ Hr) as Htop. pose proof (len_counts _ _ _ Hr) as Hc. unfold growHigh. rewrite (proj2 (Z.leb_gt _ _)) by lia. set (newOffset := k - MaxBins + 1). set (from := newOffset - st_offset s). set (grown := if from <? st_len s then _ else _). assert (Hfrom : 0 < from) by (unfold from, newOffset; lia).
  assert (Hgrown : forall i, nth i grown 0 = of_int (hist T h (newOffset + Z.of_nat i))).
  { intros i. unfold grown. destruct (Z.ltb_spec from (st_len s)).
    - rewrite nth_copy by (try lia; unfold ulen in *; rewrite length_drop; unfold MaxBins in *; lia). rewrite (proj2 (Z.ltb_ge _ _)) by lia. rewrite nth_drop, (nth_counts _ _ _ _ Hr). do 2 f_equal. unfold from. lia.
    - rewrite nth_zeroes, hist_none; [done|]. intros x Hx. destruct (rp_obs _ _ _ Hr x Hx) as [Hx1 _]. unfold clampi, from, newOffset, MaxBins in *. lia. }
  assert (Hlg : ulen grown = MaxBins) by (unfold grown; destruct (from <? st_len s) eqn:E; [apply Z.ltb_lt in E; rewrite length_copy; rewrite ?length_zeroes; unfold ulen in *; rewrite ?length_drop; unfold MaxBins in *; lia|by apply length_zeroes]).
  assert (Hfold : foldl fadd 0 (take (Z.to_nat from) (counts s)) = of_int (below T h newOffset)).
  { destruct (decide (from <= st_len s)) as [Hle|Hgt]; [rewrite (fold_counts _ _ _ _ Hr) by (unfold ulen in *; lia); do 2 f_equal; unfold from; lia|]. rewrite take_ge by (unfold ulen in *; lia). rewrite <- (take_ge (counts s) (length (counts s))) by lia. rewrite (fold_counts _ _ _ _ Hr) by lia. f_equal. unfold below. apply sumZ_ext. intros x Hx. destruct (rp_obs _ _ _ Hr x Hx) as [Hx1 _].
    assert (clampi T x.1 <= T) by (unfold clampi, MaxBins; lia). rewrite !(proj2 (Z.ltb_lt _ _)) by (unfold ulen, from in *; lia). done. }
  rewrite Hfold. split; cbn [st_arr st_len st_offset st_total]; try apply Hr; try (unfold newOffset, MaxBins; lia).
  - unfold ulen in *. rewrite length_alter. lia.
  - intros i. rewrite nth_alter by (unfold ulen, MaxBins in *; lia). rewrite (hist_raise T k h _ Hk). fold newOffset. rewrite (proj2 (Z.ltb_ge _ _)) by lia. pose proof (below_bounds T h newOffset (rp_pos _ _ _ Hr)). pose proof (hist_bounds T h newOffset (rp_pos _ _ _ Hr)). pose proof (rp_sum _ _ _ Hr). destruct (Nat.eqb_spec i 0) as [->|Hi].
    + rewrite Hgrown, Z.add_0_r, Z.eqb_refl, fadd_int by lia. f_equal. lia.
    + rewrite (proj2 (Z.eqb_neq _ _)) by lia. apply Hgrown.
  - intros x Hx. destruct (rp_obs _ _ _ Hr x Hx). unfold clampi, newOffset. lia.
Qed.

Lemma grow_rep s T h k : rep s T h -> rep (grow k s) (Z.max T k) h /\ st_offset (grow k s) <= clampi (Z.max T k) k.
Proof.
  intros Hr. pose proof (rp_len _ _ _ Hr) as Hlen. pose proof (rp_top _ _ _ Hr) as Htop. pose proof (rp_cap _ _ _ Hr) as Hcap. pose proof (len_counts _ _ _ Hr) as Hc. unfold grow. rewrite (proj2 (Z.eqb_neq _ 0)) by lia. destruct (Z.ltb_spec k (st_offset s)) as [Hlow|Hge].
  - rewrite Z.max_l by lia. unfold growLow. destruct (Z.eqb_spec (st_len s) MaxBins); [split; [done|unfold clampi; lia]|]. destruct (Z.leb_spec (st_offset s + st_len s - k) MaxBins); (split; [apply low_rep; [done|lia]|cbn [st_offset]; unfold clampi; lia]).
  - destruct (Z.leb_spec (st_offset s + st_len s) k) as [Hhigh|Hin]; [|rewrite Z.max_l by lia; split; [done|unfold clampi; lia]]. rewrite Z.max_r by lia. destruct (decide (k - st_offset s + 1 <= MaxBins)) as [Hw|Hw].
    + unfold growHigh. rewrite (proj2 (Z.leb_le _ _) Hw). destruct (Z.leb_spec (k - st_offset s + 1) (ulen (st_arr s))); (split; [apply (high_rep s T); try done; try lia|cbn [st_offset]; unfold clampi; lia]).
      * apply (rp_arr _ _ _ Hr).
      * rewrite length_copy; rewrite ?length_zeroes; unfold MaxBins in *; lia.
      * intros i. rewrite nth_copy by (unfold MaxBins in *; lia). rewrite (proj2 (Z.ltb_ge _ _)) by lia. rewrite (nth_counts _ _ _ _ Hr). do 2 f_equal. lia.
    + split; [apply (collapse_rep s T); (done || lia)|]. unfold growHigh. rewrite (proj2 (Z.leb_gt _ _)) by lia. cbn [st_offset]. unfold clampi. lia.
Qed.

(** ** Adding *)

Lemma put_rep s T h k w : rep s T h -> k <= T -> st_offset s <= clampi T k -> 0 < w -> wsum h + w < 2 ^ 53 ->
  rep (MkStore (alter (fun c => fadd c (of_int w)) (Z.to_nat (Z.max (k - st_offset s) 0)) (st_arr s)) (st_len s) (st_offset s) (fadd (st_total s) (of_int w))) T (h ++ [(k, w)]).
Proof.
  intros Hr Hk Hoff Hw Hsum. pose proof (rp_len _ _ _ Hr) as Hlen. pose proof (rp_top _ _ _ Hr) as Htop. pose proof (rp_cap _ _ _ Hr) as Hcap. assert (Hpos : weighty (h ++ [(k, w)])) by (apply weighty_app; split; [apply Hr|]; intros x Hx; apply list_elem_of_singleton in Hx as ->; done).
  assert (Hp : st_offset s + Z.max (k - st_offset s) 0 = clampi T k) by (unfold clampi in *; lia). assert (Hc : clampi T k <= T) by (unfold clampi, MaxBins; lia). assert (Hw1 : wsum (h ++ [(k, w)]) = wsum h + w) by (rewrite wsum_app; cbn; lia). pose proof (sumZ_nonneg snd h ltac:(intros x Hx; pose proof (rp_pos _ _ _ Hr x Hx); lia)) as Hn. fold (wsum h) in Hn.
  split; cbn [st_arr st_len st_offset st_total]; try done; try lia.
  - unfold ulen in *. rewrite length_alter. lia.
  - intros i. rewrite nth_alter by (unfold ulen in *; lia). rewrite hist_app. cbn [hist sumZ fst snd]. pose proof (hist_bounds T h (clampi T k) (rp_pos _ _ _ Hr)). destruct (Nat.eqb_spec i (Z.to_nat (Z.max (k - st_offset s) 0))) as [->|Hi].
    + rewrite (rp_arr _ _ _ Hr). replace (st_offset s + Z.of_nat (Z.to_nat (Z.max (k - st_offset s) 0))) with (clampi T k) by lia. rewrite Z.eqb_refl, fadd_int by lia. f_equal. lia.
    + rewrite (proj2 (Z.eqb_neq _ _)) by lia. rewrite (rp_arr _ _ _ Hr). f_equal. lia.
  - intros x [Hx|Hx]%elem_of_app; [by apply (rp_obs _ _ _ Hr)|]. apply list_elem_of_singleton in Hx as ->. done.
  - rewrite (rp_total _ _ _ Hr), fadd_int by lia. by rewrite Hw1.
Qed.
Lemma add_rep s T h k w : rep s T h -> 0 < w -> wsum h + w < 2 ^ 53 -> rep (store_add k (of_int w) s) (Z.max T k) (h ++ [(k, w)]).
Proof. intros Hr Hw Hsum. destruct (grow_rep s T h k Hr) as [Hg Ho]. unfold store_add. apply put_rep; (done || lia). Qed.

Lemma grow_empty k : rep (grow k empty_store) k [].
Proof.
  unfold grow. cbn [empty_store st_len Z.eqb]. split; cbn [st_arr st_len st_offset st_total]; try done; try (unfold MaxBins; lia); try (intros x Hx; by apply not_elem_of_nil in Hx).
  intros i. apply nth_zeroes.
Qed.

(** ** The buckets in order *)

Fixpoint canon_from (f : Z -> Z) (k : Z) (n : nat) : obs :=
  match n with O => [] | S n => (if f k =? 0 then [] else [(k, f k)]) ++ canon_from f (k + 1) n end.
Definition as_bin (x : Z * Z) : Bin := MkBin x.1 (of_int x.2).
(** The buckets of a histogram, which is all that can be seen of a store. *)
Definition canon (T : Z) (h : obs) : obs := canon_from (hist T h) (T - MaxBins + 1) (Z.to_nat MaxBins).

Lemma bins_canon_from f cs : forall k, (forall j, 0 <= f j < 2 ^ 53) -> (forall i, (i < length cs)%nat -> nth i cs 0 = of_int (f (k + Z.of_nat i))) -> bins_from k cs = as_bin <$> canon_from f k (length cs).
Proof.
  induction cs as [|c cs IH]; intros k Hf Hc; [done|]. cbn [bins_from canon_from length]. rewrite fmap_app, <- IH; [|done|].
  - pose proof (Hc 0%nat ltac:(cbn; lia)) as E. cbn [nth] in E. rewrite Z.add_0_r in E. rewrite E, feq_int_0 by done. by destruct (f k =? 0).
  - intros i Hi. pose proof (Hc (S i) ltac:(cbn; lia)) as E. cbn [nth] in E. rewrite E. do 2 f_equal. lia.
Qed.
Lemma canon_from_skip f m : forall k n, (forall i, (i < m)%nat -> f (k + Z.of_nat i) = 0) -> canon_from f k (m + n) = canon_from f (k + Z.of_nat m) n.
Proof.
  induction m as [|m IH]; intros k n Hf; [by rewrite Z.add_0_r|]. cbn [canon_from Nat.add]. pose proof (Hf 0%nat ltac:(lia)) as E. rewrite Z.add_0_r in E. rewrite E. cbn [Z.eqb app]. rewrite IH; [f_equal; lia|]. intros i Hi. rewrite <- (Hf (S i)) by lia. f_equal. lia.
Qed.
Lemma bins_canon s T h : rep s T h -> bins s = as_bin <$> canon T h.
Proof.
  intros Hr. pose proof (rp_len _ _ _ Hr). pose proof (rp_top _ _ _ Hr). pose proof (rp_cap _ _ _ Hr). pose proof (rp_sum _ _ _ Hr). pose proof (len_counts _ _ _ Hr) as Hc. unfold bins, canon.
  rewrite (bins_canon_from (hist T h)); [|intros j; pose proof (hist_bounds T h j (rp_pos _ _ _ Hr)); lia|intros i _; apply (nth_counts _ _ _ _ Hr)]. f_equal. symmetry.
  replace (Z.to_nat MaxBins) with (Z.to_nat (MaxBins - st_len s) + length (counts s))%nat by (unfold ulen in *; lia). rewrite canon_from_skip; [f_equal; lia|]. intros i Hi. apply (hist_under s); [done|]. lia.
Qed.

Lemma elem_canon f n : forall k x, x ∈ canon_from f k n <-> k <= x.1 < k + Z.of_nat n /\ f x.1 <> 0 /\ x.2 = f x.1.
Proof.
  induction n as [|n IH]; intros k [j w]; cbn [canon_from fst snd].
  - rewrite elem_of_nil. split; [done|]. lia.
  - rewrite elem_of_app, IH. cbn [fst snd]. destruct (Z.eqb_spec (f k) 0) as [E|E]; rewrite ?list_elem_of_singleton, ?elem_of_nil; split.
    + intros [Hn|?]; [by destruct Hn|naive_solver lia].
    + intros (Hj & Hf & Hw). right. assert (j <> k) by congruence. naive_solver lia.
    + intros [[= -> ->]|?]; naive_solver lia.
    + intros (Hj & Hf & Hw). destruct (decide (j = k)) as [->|]; [left; congruence|right; naive_solver lia].
Qed.
Lemma canon_sorted f n : forall k, StronglySorted (fun a b => a.1 < b.1) (canon_from f k n).
Proof.
  induction n as [|n IH]; intros k; [constructor|]. cbn [canon_from]. destruct (f k =? 0); cbn [app]; [apply IH|]. constructor; [apply IH|]. apply List.Forall_forall. intros x Hx%list_elem_of_In. apply elem_canon in Hx as [Hx _]. cbn [fst]. lia.
Qed.
Lemma canon_perm T h h' : h ≡ₚ h' -> canon T h = canon T h'.
Proof.
  intros Hp. unfold canon. assert (Hf : forall j, hist T h j = hist T h' j) by (intros j; by apply sumZ_perm). generalize (T - MaxBins + 1). generalize (Z.to_nat MaxBins). induction n as [|n IH]; intros k; [done|]. cbn [canon_from]. by rewrite Hf, IH.
Qed.

(** Summing over the buckets is summing over the observations. *)
Lemma canon_sum_from (g : Z -> bool) f n : forall k, sumZ (fun x => if g x.1 then x.2 else 0) (canon_from f k n) = sumZ (fun j => if g j then f j else 0) (seqZ k (Z.of_nat n)).
Proof.
  induction n as [|n IH]; intros k; [done|]. rewrite seqZ_cons by lia. cbn [canon_from sumZ]. rewrite sumZ_app, IH. replace (Z.pred (Z.of_nat (S n))) with (Z.of_nat n) by lia. rewrite <- Z.add_1_r. destruct (Z.eqb_spec (f k) 0) as [->|]; cbn [sumZ fst snd]; destruct (g k); lia.
Qed.
Lemma sum_point (g : Z -> bool) c w n : forall k, sumZ (fun j => if g j then (if c =? j then w else 0) else 0) (seqZ k (Z.of_nat n)) = if (k <=? c) && (c <? k + Z.of_nat n) then (if g c then w else 0) else 0.
Proof.
  induction n as [|n IH]; intros k; [cbn [seqZ]; replace (Z.of_nat 0) with 0 by done; cbn; destruct (Z.leb_spec k c), (Z.ltb_spec c (k + 0)); (done || lia)|]. rewrite seqZ_cons by lia. cbn [sumZ]. replace (Z.pred (Z.of_nat (S n))) with (Z.of_nat n) by lia. rewrite IH. destruct (Z.eqb_spec c k) as [->|].
  - rewrite (proj2 (Z.leb_gt (Z.succ k) k)), (proj2 (Z.leb_le k k)), (proj2 (Z.ltb_lt k (k + _))) by lia. cbn [andb]. destruct (g k); lia.
  - assert (E : (Z.succ k <=? c) && (c <? Z.succ k + Z.of_nat n) = (k <=? c) && (c <? k + Z.of_nat (S n))) by (apply eq_true_iff_eq; rewrite !andb_true_iff, !Z.leb_le, !Z.ltb_lt; lia). rewrite E. by destruct (g k).
Qed.
Lemma canon_sum (g : Z -> bool) T h : (forall x, x ∈ h -> x.1 <= T) -> sumZ (fun x => if g x.1 then x.2 else 0) (canon T h) = sumZ (fun x => if g (clampi T x.1) then x.2 else 0) h.
Proof.
  intros Hh. unfold canon. rewrite canon_sum_from. rewrite Z2Nat.id by (unfold MaxBins; lia). induction h as [|x h IH].
  - apply sumZ_0. intros j _. by destruct (g j).
  - cbn [sumZ]. rewrite <- IH by (intros y Hy; apply Hh; by right). rewrite <- (Z2Nat.id MaxBins) at 1 2 by (unfold MaxBins; lia). assert (E : (if g (clampi T x.1) then x.2 else 0) = sumZ (fun j => if g j then (if clampi T x.1 =? j then x.2 else 0) else 0) (seqZ (T - MaxBins + 1) (Z.of_nat (Z.to_nat MaxBins)))).
    { rewrite sum_point. pose proof (Hh x ltac:(by left)). rewrite (proj2 (Z.leb_le _ _)), (proj2 (Z.ltb_lt _ _)) by (unfold clampi, MaxBins; lia). done. }
    rewrite E, <- sumZ_plus. apply sumZ_ext. intros j _. unfold hist. cbn [sumZ]. destruct (g j); lia.
Qed.

(** ** Merging *)

(** The highest bucket is that of some observation. *)
Definition tight (T : Z) (h : obs) : Prop := exists x, x ∈ h /\ x.1 = T.
Definition holds (s : store) (h : obs) : Prop := (s = empty_store /\ h = []) \/ exists T, rep s T h /\ tight T h.

Lemma wsum_nonneg h : weighty h -> 0 <= wsum h.
Proof. intros Hw. apply sumZ_nonneg. intros x Hx. specialize (Hw x Hx). lia. Qed.
Lemma hist_elem T h x : weighty h -> x ∈ h -> 0 < hist T h (clampi T x.1).
Proof.
  intros Hw Hx. apply list_elem_of_split in Hx as (h1 & h2 & ->). apply weighty_app in Hw as [Hw1 Hw2]. assert (Hw3 : weighty h2) by (intros y Hy; apply Hw2; by right). rewrite hist_app, hist_cons, Z.eqb_refl. pose proof (hist_bounds T h1 (clampi T x.1) Hw1). pose proof (hist_bounds T h2 (clampi T x.1) Hw3). specialize (Hw2 x ltac:(by left)). lia.
Qed.
Lemma canon_last T h : weighty h -> tight T h -> exists c, last (canon T h) = Some (T, c).
Proof.
  intros Hw (x & Hx & Hk). assert (Hpos : 0 < hist T h T) by (pose proof (hist_elem T h x Hw Hx) as He; rewrite Hk in He; replace (clampi T T) with T in He by (unfold clampi, MaxBins; lia); done).
  assert (Happ : forall f n k, canon_from f k (S n) = canon_from f k n ++ canon_from f (k + Z.of_nat n) 1).
  { intros f. induction n as [|n IH]; intros k; [cbn [canon_from]; rewrite Z.add_0_r; done|]. cbn [canon_from]. cbn [canon_from] in IH. rewrite IH, <- !app_assoc. replace (k + 1 + Z.of_nat n) with (k + Z.of_nat (S n)) by lia. done. }
  unfold canon. replace (Z.to_nat MaxBins) with (S (Z.to_nat (MaxBins - 1))) by (unfold MaxBins; lia). rewrite Happ. replace (T - MaxBins + 1 + Z.of_nat (Z.to_nat (MaxBins - 1))) with T by (unfold MaxBins; lia). cbn [canon_from]. rewrite (proj2 (Z.eqb_neq _ _)) by lia. cbn [app]. rewrite last_snoc. eauto.
Qed.
Lemma weighty_canon T h : weighty h -> weighty (canon T h).
Proof. intros Hw x Hx. apply elem_canon in Hx as (_ & Hn & ->). pose proof (hist_bounds T h x.1 Hw). lia. Qed.
Lemma wsum_canon T h : (forall x, x ∈ h -> x.1 <= T) -> wsum (canon T h) = wsum h.
Proof. apply (canon_sum (fun _ => true)). Qed.

(** A store given the buckets of a histogram holds what it would hold given the observations. *)
Lemma refold s T T2 h h' : rep s T (h ++ canon T2 h') -> T2 <= T -> weighty h' -> (forall x, x ∈ h' -> x.1 <= T2) -> rep s T (h ++ h').
Proof.
  intros Hr HT Hw Hle. assert (Hh : forall j, hist T (canon T2 h') j = hist T h' j) by (intros j; unfold hist at 1; rewrite (canon_sum (fun k => clampi T k =? j)) by done; apply sumZ_ext; intros x _; by rewrite clampi_twice). assert (Hsum : wsum (h ++ canon T2 h') = wsum (h ++ h')) by (rewrite !wsum_app, wsum_canon; done).
  split; try apply Hr.
  - intros i. rewrite (rp_arr _ _ _ Hr). by rewrite !hist_app, Hh.
  - intros x [Hx|Hx]%elem_of_app; [apply (rp_obs _ _ _ Hr); apply elem_of_app; by left|]. pose proof (Hle x Hx). split; [lia|]. pose proof (hist_elem T2 h' x Hw Hx). rewrite <- (clampi_twice T2 T x.1) by done. apply (rp_obs _ _ _ Hr (clampi T2 x.1, hist T2 h' (clampi T2 x.1))). apply elem_of_app. right. apply elem_canon. cbn [fst snd]. split_and!; try lia; unfold clampi, MaxBins; lia.
  - apply weighty_app. split; [|done]. pose proof (rp_pos _ _ _ Hr) as Hp. by apply weighty_app in Hp as [? _].
  - rewrite <- Hsum. apply Hr.
  - rewrite <- Hsum. apply Hr.
Qed.
Lemma adds_rep l : forall s T h, rep s T h -> weighty l -> wsum h + wsum l < 2 ^ 53 -> (forall x, x ∈ l -> x.1 <= T) -> rep (foldl (fun s b => store_add (b_Index b) (b_Count b) s) s (as_bin <$> l)) T (h ++ l).
Proof.
  induction l as [|[k w] l IH]; intros s T h Hr Hw Hsum Hle; [by rewrite app_nil_r|]. cbn [fmap list_fmap foldl as_bin b_Index b_Count fst snd]. assert (Hw' : weighty l) by (intros y Hy; apply Hw; by right). pose proof (wsum_nonneg l Hw'). cbn [wsum sumZ snd] in Hsum. fold (wsum l) in Hsum. pose proof (Hw (k, w) ltac:(by left)) as Hwk. pose proof (Hle (k, w) ltac:(by left)) as Hk. cbn [fst snd] in *.
  change ((k, w) :: l) with ([(k, w)] ++ l). rewrite app_assoc. apply IH; [|done|rewrite wsum_app; cbn; lia|intros y Hy; apply Hle; by right]. rewrite <- (Z.max_l T k) by done. apply add_rep; [done|done|lia].
Qed.

Lemma holds_add s h k w : holds s h -> 0 < w -> wsum h + w < 2 ^ 53 -> holds (store_add k (of_int w) s) (h ++ [(k, w)]).
Proof.
  intros [[-> ->]|(T & Hr & x & Hx & Hk)] Hw Hsum; right.
  - exists k. split; [|exists (k, w); split; [by left|done]]. unfold store_add. apply (put_rep _ k []); [apply grow_empty|lia| |done|done]. cbn [st_offset grow]. unfold grow. cbn. unfold clampi, MaxBins. lia.
  - exists (Z.max T k). split; [by apply add_rep|]. destruct (Z.max_spec T k) as [[_ ->]|[_ ->]]; [exists (k, w)|exists x]; rewrite elem_of_app; (split; [|done]); [right; by left|by left].
Qed.
Lemma holds_merge s o h h' : holds s h -> holds o h' -> wsum h + wsum h' < 2 ^ 53 -> holds (store_merge o s) (h ++ h').
Proof.
  intros Hs [[-> ->]|(T2 & Ho & Ht)] Hsum; [by rewrite app_nil_r|]. unfold store_merge. pose proof (rp_pos _ _ _ Ho) as Hw. assert (Hle : forall x, x ∈ h' -> x.1 <= T2) by (intros x Hx; apply (rp_obs _ _ _ Ho x Hx)). rewrite (bins_canon _ _ _ Ho), fmap_last. destruct (canon_last T2 h' Hw Ht) as [c ->]. cbn [fmap option_fmap option_map as_bin b_Index fst].
  assert (Hcl : forall T, T2 <= T -> forall x, x ∈ canon T2 h' -> x.1 <= T) by (intros T HT x Hx; apply elem_canon in Hx as [Hx _]; unfold MaxBins in Hx; lia). pose proof (weighty_canon T2 h' Hw) as Hwc. pose proof (wsum_canon T2 h' Hle) as Hsc. destruct Ht as (x & Hx & Hk). right. destruct Hs as [[-> ->]|(T & Hr & y & Hy & Hky)].
  - exists T2. split; [|exists x; split; [by apply elem_of_app; right|done]]. apply (refold _ T2 T2); [|lia|done|done]. apply adds_rep; [apply grow_empty|done|rewrite Hsc; done|by apply Hcl].
  - exists (Z.max T T2). split.
    + apply (refold _ _ T2); [|lia|done|done]. apply adds_rep; [apply grow_rep; done|done|rewrite Hsc; done|apply Hcl; lia].
    + destruct (Z.max_spec T T2) as [[_ ->]|[_ ->]]; [exists x|exists y]; rewrite elem_of_app; tauto.
Qed.
Lemma holds_clone s h : holds s h -> holds (store_clone s) h.
Proof.
  intros [[-> ->]|(T & Hr & Ht)]; [by left|]. right. exists T. split; [|done]. pose proof (len_counts _ _ _ Hr). pose proof (rp_len _ _ _ Hr). split; cbn [store_clone st_arr st_len st_offset st_total]; try apply Hr; [lia|]. intros i. apply (nth_counts _ _ _ _ Hr).
Qed.
Lemma tight_unique T T' h h' : tight T h -> tight T' h' -> h ≡ₚ h' -> (forall x, x ∈ h -> x.1 <= T) -> (forall x, x ∈ h' -> x.1 <= T') -> T = T'.
Proof. intros (x & Hx & <-) (y & Hy & <-) Hp Hl Hl'. rewrite Hp in Hx. rewrite <- Hp in Hy. apply Hl' in Hx. apply Hl in Hy. lia. Qed.

(** Two stores that were given the same observations, in whatever order and grouping, have the same buckets. *)
Lemma holds_same s s' h h' : holds s h -> holds s' h' -> h ≡ₚ h' -> bins s = bins s'.
Proof.
  intros [[-> ->]|(T & Hr & Ht)] [[-> ->]|(T' & Hr' & Ht')] Hp; try done.
  - apply Permutation_nil_l in Hp as <-. by destruct Ht' as (x & Hx%elem_of_nil & _).
  - apply Permutation_nil_r in Hp as ->. by destruct Ht as (x & Hx%elem_of_nil & _).
  - rewrite (bins_canon _ _ _ Hr), (bins_canon _ _ _ Hr'). rewrite (tight_unique T T' h h' Ht Ht' Hp); [by rewrite (canon_perm _ _ _ Hp)|intros x Hx; apply (rp_obs _ _ _ Hr x Hx)|intros x Hx; apply (rp_obs _ _ _ Hr' x Hx)].
Qed.
Lemma holds_len s h : holds s h -> 0 <= st_len s <= MaxBins /\ ulen (st_arr s) <= MaxBins.
Proof. intros [[-> ->]|(T & Hr & _)]; [done|]. pose proof (rp_len _ _ _ Hr). pose proof (rp_cap _ _ _ Hr). lia. Qed.
