(* ===== verification/SketchMerge.v ===== *)
(** * Sketches built by adding and merging

    Whatever order observations arrive in, and however they are split over sketches that are merged
    later, the buckets and the exact aggregates are the same, so every quantile is answered the same. And however a
    sketch came about its buckets are within their bound, with every index inside its slice. Last, what a quantile
    answers: the estimate of the bucket in which its rank falls. *)

From Stdlib Require Import ZArith Lia Sorting.Sorted.
From stdpp Require Import base numbers list sorting.
From S2P Require Import Prelude Gofloat Gofloat64 HeadRecord Sketch SketchBins.

(** ** The shape of a store *)

Definition shape (s : store) : Prop := s = empty_store \/ (1 <= st_len s <= MaxBins /\ st_len s <= ulen (st_arr s) <= MaxBins).

Lemma length_counts s : st_len s <= ulen (st_arr s) -> 0 <= st_len s -> ulen (counts s) = st_len s.
Proof. intros Hl Hn. unfold counts, ulen in *. rewrite length_take. lia. Qed.
Lemma grow_shape k s : shape s -> let s' := grow k s in 1 <= st_len s' <= MaxBins /\ st_len s' <= ulen (st_arr s') <= MaxBins /\ 0 <= Z.max (k - st_offset s') 0 < st_len s'.
Proof.
  intros [->|[Hl Hc]].
  { unfold grow. cbn [empty_store st_len Z.eqb]. cbn [st_len st_arr st_offset]. rewrite length_zeroes by lia. unfold MaxBins. lia. }
  pose proof (length_counts s ltac:(lia) ltac:(lia)) as Hk. cbv zeta. unfold grow. rewrite (proj2 (Z.eqb_neq _ 0)) by lia. destruct (Z.ltb_spec k (st_offset s)) as [Hlow|Hge].
  - unfold growLow. destruct (Z.eqb_spec (st_len s) MaxBins); [lia|]. destruct (Z.leb_spec (st_offset s + st_len s - k) MaxBins); cbn [st_len st_arr st_offset]; rewrite length_copy; rewrite ?length_zeroes; unfold MaxBins in *; lia.
  - destruct (Z.leb_spec (st_offset s + st_len s) k) as [Hhigh|Hin]; [|lia]. unfold growHigh. destruct (Z.leb_spec (k - st_offset s + 1) MaxBins).
    + destruct (Z.leb_spec (k - st_offset s + 1) (ulen (st_arr s))); cbn [st_len st_arr st_offset]; [lia|]. rewrite length_copy; rewrite ?length_zeroes; unfold MaxBins in *; lia.
    + cbn [st_len st_arr st_offset]. assert (forall f (l : list Z), ulen (alter f 0%nat l) = ulen l) as -> by (intros f l; unfold ulen; by rewrite length_alter). destruct (Z.ltb_spec (k - MaxBins + 1 - st_offset s) (st_len s)); rewrite ?length_copy; rewrite ?length_zeroes; unfold ulen in *; rewrite ?length_drop; unfold MaxBins in *; lia.
Qed.
Lemma add_shape k w s : shape s -> shape (store_add k w s).
Proof.
  intros Hs. destruct (grow_shape k s Hs) as (Hl & Hc & _). right. unfold store_add. cbn [st_len st_arr]. unfold ulen in *. rewrite length_alter. lia.
Qed.
Lemma merge_shape o s : shape s -> shape (store_merge o s).
Proof.
  intros Hs. unfold store_merge. destruct (last (bins o)) as [top|]; [|done]. assert (Hg : shape (grow (b_Index top) s)) by (destruct (grow_shape (b_Index top) s Hs) as (Hl & Hc & _); right; lia). revert Hg. generalize (grow (b_Index top) s). induction (bins o) as [|b l IH]; intros s' Hs'; [done|]. cbn [foldl]. by apply IH, add_shape.
Qed.
Lemma clone_shape s : shape s -> shape (store_clone s).
Proof. intros [->|[Hl Hc]]; [by left|]. right. unfold store_clone. cbn [st_len st_arr]. rewrite length_counts by lia. lia. Qed.

Section Made.
Context `{GoMath}.

(** Any use of the package's exported functions on the sketches it has returned, decoding included. *)
Inductive made : Sketch -> Prop :=
  | made_New alpha s : New alpha = Some s -> made s
  | made_NewWithGamma g s : NewWithGamma g = Ok s -> made s
  | made_Add s v w s' : made s -> AddWithCount v w s = Ok s' -> made s'
  | made_Merge s o s' : made s -> made o -> SketchMerge (Some o) s = Ok s' -> made s'
  | made_Clone s : made s -> made (Clone s)
  | made_AddBin s b neg s' : made s -> AddBin b neg s = Ok s' -> made s'
  | made_SetAggregates s c u lo hi z s' : made s -> SetAggregates c u lo hi z s = Ok s' -> made s'.

Lemma made_AddBins bs neg : forall s s', made s -> AddBins bs neg s = Ok s' -> made s'.
Proof. induction bs as [|b bs IH]; intros s s' Hs; cbn [AddBins]; [by intros [= <-]|]. destruct (AddBin b neg s) as [s1|] eqn:E; [|done]. apply IH. by eapply made_AddBin. Qed.
Lemma made_FromWire w s : FromWire w = Ok s -> made s.
Proof.
  unfold FromWire. destruct (negb _); [done|]. destruct (NewWithGamma _) as [s0|] eqn:E0; [|done]. destruct (AddBins (w_Bins w) _ _) as [s1|] eqn:E1; [|done]. destruct (AddBins (w_NegBins w) _ _) as [s2|] eqn:E2; [|done]. apply made_NewWithGamma in E0. pose proof (made_AddBins _ _ _ _ E0 E1) as H1. pose proof (made_AddBins _ _ _ _ H1 E2) as H2.
  destruct (feq _ 0); [by intros [= <-]|]. by apply made_SetAggregates.
Qed.
Lemma made_shape s : made s -> shape (sk_pos s) /\ shape (sk_neg s).
Proof.
  induction 1 as [alpha s E|g s E|s v w s' Hs [IHp IHn] E|s o s' Hs [IHp IHn] Ho _ E|s Hs [IHp IHn]|s b neg s' Hs [IHp IHn] E|s c u lo hi z s' Hs IH E].
  - unfold New in E. destruct (negb _); [done|]. destruct (fle _ one); [done|]. injection E as <-. split; by left.
  - unfold NewWithGamma in E. destruct (_ || _); [done|]. injection E as <-. split; by left.
  - unfold AddWithCount in E. destruct (negb (finite v)); [done|]. destruct (_ || _); [done|]. apply ok_inj in E as <-. cbn [sk_pos sk_neg]. destruct (flt 0 v), (flt v 0); split; eauto using add_shape.
  - unfold SketchMerge in E. destruct (negb _); [done|]. apply ok_inj in E as <-. cbn [sk_pos sk_neg]. split; by apply merge_shape.
  - split; by apply clone_shape.
  - unfold AddBin in E. destruct (negb _); [done|]. destruct (fle _ 0); [by apply ok_inj in E as <-|]. destruct (_ || _); [done|]. apply ok_inj in E as <-. cbn [sk_pos sk_neg]. destruct neg; split; eauto using add_shape.
  - unfold SetAggregates in E. repeat (destruct (_ : bool) in E; [done|]). apply ok_inj in E as <-. exact IH.
Qed.

(** C36: However a sketch was built, decoded or merged, each of its two bucket runs takes at most [MaxBins]
    slots of memory, and adding a bucket of any index next writes inside the slice: Go's index check cannot fail. *)
Theorem sketch_bounded s k : made s -> forall st, st = sk_pos s \/ st = sk_neg s ->
  ulen (st_arr st) <= MaxBins /\ ulen (st_arr (store_add k one st)) <= MaxBins /\ 0 <= Z.max (k - st_offset (grow k st)) 0 < ulen (counts (grow k st)).
Proof.
  intros Hm st Hst. assert (Hs : shape st) by (destruct (made_shape s Hm); by destruct Hst as [->| ->]). destruct (grow_shape k st Hs) as (Hl & Hc & Hi). rewrite length_counts by lia. split_and!; try lia.
  - destruct Hs as [->|[_ ?]]; [done|lia].
  - destruct (add_shape k one st Hs) as [E|[_ ?]]; [by rewrite E|lia].
Qed.
End Made.

(** ** The observations of a sketch *)

Lemma fval_min v m : isNaN v = false -> isNaN m = false -> fval (if flt v m then v else m) = Z.min (fval v) (fval m) /\ isNaN (if flt v m then v else m) = false.
Proof. intros Hv Hm. unfold flt. rewrite Hv, Hm. cbn [negb andb]. destruct (Z.ltb_spec (fval v) (fval m)); split; (done || lia). Qed.
Lemma fval_max v m : isNaN v = false -> isNaN m = false -> fval (if flt m v then v else m) = Z.max (fval v) (fval m) /\ isNaN (if flt m v then v else m) = false.
Proof. intros Hv Hm. unfold flt. rewrite Hv, Hm. cbn [negb andb]. destruct (Z.ltb_spec (fval m) (fval v)); split; (done || lia). Qed.
Lemma finite_not_NaN v : finite v = true -> isNaN v = false.
Proof. unfold finite. by destruct (isNaN v). Qed.

(** A sketch is given values with whole weights: each is a float64 and a positive count. *)
Definition lowest (xs : obs) : Z := foldr (fun x m => Z.min (fval x.1) m) (fval (Inf false)) xs.
Definition highest (xs : obs) : Z := foldr (fun x m => Z.max (fval x.1) m) (fval (Inf true)) xs.
Lemma lowest_app xs ys : lowest (xs ++ ys) = Z.min (lowest xs) (lowest ys).
Proof.
  assert (Hl : forall l, lowest l <= fval (Inf false)) by (induction l; cbn [lowest foldr]; [done|unfold lowest in *; lia]). induction xs as [|x xs IH]; [specialize (Hl ys); cbn [app lowest foldr] in *; unfold lowest in *; lia|]. change (lowest ((x :: xs) ++ ys)) with (Z.min (fval x.1) (lowest (xs ++ ys))). change (lowest (x :: xs)) with (Z.min (fval x.1) (lowest xs)). lia.
Qed.
Lemma highest_app xs ys : highest (xs ++ ys) = Z.max (highest xs) (highest ys).
Proof.
  assert (Hl : forall l, fval (Inf true) <= highest l) by (induction l; cbn [highest foldr]; [done|unfold highest in *; lia]). induction xs as [|x xs IH]; [specialize (Hl ys); cbn [app highest foldr] in *; unfold highest in *; lia|]. change (highest ((x :: xs) ++ ys)) with (Z.max (fval x.1) (highest (xs ++ ys))). change (highest (x :: xs)) with (Z.max (fval x.1) (highest xs)). lia.
Qed.
Lemma lowest_perm xs ys : xs ≡ₚ ys -> lowest xs = lowest ys.
Proof. unfold lowest. induction 1; cbn; lia. Qed.
Lemma highest_perm xs ys : xs ≡ₚ ys -> highest xs = highest ys.
Proof. unfold highest. induction 1; cbn; lia. Qed.

Section Built.
Context `{GoMath} (gamma : Z).

(** The bucket of a value. *)
Inductive place := Above (k : Z) | Under (k : Z) | AtZero.
Definition place_of (v : Z) : place :=
  if flt 0 v then Above (index (fresh gamma) v) else if flt v 0 then Under (index (fresh gamma) (fneg v)) else AtZero.
Definition above (xs : obs) : obs := omap (fun x => match place_of x.1 with Above k => Some (k, x.2) | _ => None end) xs.
Definition under (xs : obs) : obs := omap (fun x => match place_of x.1 with Under k => Some (k, x.2) | _ => None end) xs.
Definition at_zero (xs : obs) : Z := sumZ (fun x => match place_of x.1 with AtZero => x.2 | _ => 0 end) xs.

(** Sketches made of these observations, added one by one or merged. *)
Inductive built : Sketch -> obs -> Prop :=
  | built_fresh : built (fresh gamma) []
  | built_add s xs v w s' : built s xs -> 0 < w -> AddWithCount v (of_int w) s = Ok s' -> built s' (xs ++ [(v, w)])
  | built_merge s o xs ys s' : built s xs -> built o ys -> SketchMerge (Some o) s = Ok s' -> built s' (xs ++ ys)
  | built_clone s xs : built s xs -> built (Clone s) xs.

Record holdsAll (s : Sketch) (xs : obs) : Prop := {
  ha_gamma : sk_gamma s = gamma /\ sk_invLogGamma s = sk_invLogGamma (fresh gamma);
  ha_pos : holds (sk_pos s) (above xs);
  ha_neg : holds (sk_neg s) (under xs);
  ha_zeros : sk_zeros s = of_int (at_zero xs);
  ha_count : sk_count s = of_int (wsum xs);
  ha_min : fval (sk_min s) = lowest xs /\ isNaN (sk_min s) = false;
  ha_max : fval (sk_max s) = highest xs /\ isNaN (sk_max s) = false;
  ha_weights : weighty xs;
  ha_finite : forall x, x ∈ xs -> finite x.1 = true;
}.

Lemma index_eq s xs v : holdsAll s xs -> index s v = index (fresh gamma) v.
Proof. intros Hs. destruct (ha_gamma _ _ Hs) as [_ E]. unfold index. by rewrite E. Qed.
Lemma parts_sum xs : wsum xs = wsum (above xs) + wsum (under xs) + at_zero xs.
Proof.
  unfold above, under, at_zero, wsum. induction xs as [|x xs IH]; [done|]. cbn [omap list_omap sumZ]. destruct (place_of x.1); cbn [sumZ snd]; lia.
Qed.
Lemma weighty_parts xs : weighty xs -> weighty (above xs) /\ weighty (under xs) /\ 0 <= at_zero xs.
Proof.
  intros Hw. split_and!.
  - intros y (x & Hx & E)%list_elem_of_omap. specialize (Hw x Hx). destruct (place_of x.1); try done. by injection E as <-.
  - intros y (x & Hx & E)%list_elem_of_omap. specialize (Hw x Hx). destruct (place_of x.1); try done. by injection E as <-.
  - apply sumZ_nonneg. intros x Hx. specialize (Hw x Hx). destruct (place_of x.1); lia.
Qed.
Lemma parts_app xs ys : above (xs ++ ys) = above xs ++ above ys /\ under (xs ++ ys) = under xs ++ under ys /\ at_zero (xs ++ ys) = at_zero xs + at_zero ys.
Proof. unfold above, under, at_zero. by rewrite !omap_app, sumZ_app. Qed.
Lemma parts_le xs : weighty xs -> 0 <= wsum (above xs) <= wsum xs /\ 0 <= wsum (under xs) <= wsum xs /\ 0 <= at_zero xs <= wsum xs.
Proof. intros Hw. destruct (weighty_parts xs Hw) as (Ha & Hu & Hz). pose proof (parts_sum xs). pose proof (wsum_nonneg _ Ha). pose proof (wsum_nonneg _ Hu). lia. Qed.

Lemma add_holds s xs v w s' : holdsAll s xs -> 0 < w -> wsum xs + w < 2 ^ 53 -> AddWithCount v (of_int w) s = Ok s' -> holdsAll s' (xs ++ [(v, w)]).
Proof.
  intros Hs Hw Hsum E. unfold AddWithCount in E. destruct (finite v) eqn:Ev; [|done]. cbn [negb] in E. destruct (_ || _); [done|]. apply ok_inj in E as <-. pose proof (finite_not_NaN v Ev) as Hn. pose proof (ha_weights _ _ Hs) as Hwx. pose proof (parts_le xs Hwx) as (Hpa & Hpu & Hpz). destruct (parts_app xs [(v, w)]) as (Ea & Eu & Ez).
  assert (Hplace : place_of v = if flt 0 v then Above (index s v) else if flt v 0 then Under (index s (fneg v)) else AtZero) by (unfold place_of; by rewrite !(index_eq s xs _ Hs)).
  assert (Hone : above [(v, w)] = (if flt 0 v then [(index s v, w)] else []) /\ under [(v, w)] = (if flt 0 v then [] else if flt v 0 then [(index s (fneg v), w)] else []) /\ at_zero [(v, w)] = if flt 0 v || flt v 0 then 0 else w).
  { unfold above, under, at_zero. cbn [omap list_omap sumZ fst snd]. rewrite Hplace. destruct (flt 0 v), (flt v 0); cbn; rewrite ?Z.add_0_r; done. }
  destruct Hone as (Oa & Ou & Oz). rewrite Oa in Ea. rewrite Ou in Eu. rewrite Oz in Ez. split; cbn [sk_gamma sk_invLogGamma sk_pos sk_neg sk_zeros sk_count sk_min sk_max].
  - apply Hs.
  - rewrite Ea. destruct (flt 0 v); [|rewrite app_nil_r; apply Hs]. apply holds_add; [apply Hs|done|lia].
  - rewrite Eu. destruct (flt 0 v); [rewrite app_nil_r; apply Hs|]. destruct (flt v 0); [|rewrite app_nil_r; apply Hs]. apply holds_add; [apply Hs|done|lia].
  - rewrite Ez, (ha_zeros _ _ Hs). destruct (_ || _); [by rewrite Z.add_0_r|]. rewrite fadd_int by lia. done.
  - rewrite (ha_count _ _ Hs), fadd_int by lia. rewrite wsum_app. f_equal. cbn. lia.
  - destruct (ha_min _ _ Hs) as [Em Nm]. destruct (fval_min v (sk_min s) Hn Nm) as [F N]. rewrite F, N, lowest_app, Em. split; [|done]. cbn [lowest foldr fst]. assert (fval v <= fval (Inf false)); [|lia]. clear -Ev. unfold finite, isNaN, isInf in Ev. unfold fval. change (2 ^ 63 <=? Inf false) with false. cbv iota. change (fmag (Inf false)) with 9218868437227405312. assert (0 <= fmag v) by (rewrite fmag_mod; apply Z.mod_pos_bound; lia). destruct (Z.ltb_spec 9218868437227405312 (fmag v)); [done|]. destruct (_ <=? v); lia.
  - destruct (ha_max _ _ Hs) as [Em Nm]. destruct (fval_max v (sk_max s) Hn Nm) as [F N]. rewrite F, N, highest_app, Em. split; [|done]. cbn [highest foldr fst]. assert (fval (Inf true) <= fval v); [|lia]. clear -Ev. unfold finite, isNaN, isInf in Ev. unfold fval. change (2 ^ 63 <=? Inf true) with true. cbv iota. change (fmag (Inf true)) with 9218868437227405312. assert (0 <= fmag v) by (rewrite fmag_mod; apply Z.mod_pos_bound; lia). destruct (Z.ltb_spec 9218868437227405312 (fmag v)); [done|]. destruct (_ <=? v); lia.
  - apply weighty_app. split; [done|]. intros x Hx. by apply list_elem_of_singleton in Hx as ->.
  - intros x [Hx|Hx]%elem_of_app; [by apply (ha_finite _ _ Hs)|]. by apply list_elem_of_singleton in Hx as ->.
Qed.
Lemma merge_holds s o xs ys s' : holdsAll s xs -> holdsAll o ys -> wsum xs + wsum ys < 2 ^ 53 -> SketchMerge (Some o) s = Ok s' -> holdsAll s' (xs ++ ys).
Proof.
  intros Hs Ho Hsum E. unfold SketchMerge in E. destruct (negb _); [done|]. apply ok_inj in E as <-. pose proof (ha_weights _ _ Hs) as Hwx. pose proof (ha_weights _ _ Ho) as Hwy. destruct (parts_app xs ys) as (Ea & Eu & Ez). pose proof (parts_le xs Hwx) as (Hpa & Hpu & Hpz). pose proof (parts_le ys Hwy) as (Hqa & Hqu & Hqz).
  split; cbn [sk_gamma sk_invLogGamma sk_pos sk_neg sk_zeros sk_count sk_min sk_max].
  - apply Hs.
  - rewrite Ea. apply holds_merge; [apply Hs|apply Ho|lia].
  - rewrite Eu. apply holds_merge; [apply Hs|apply Ho|lia].
  - rewrite (ha_zeros _ _ Hs), (ha_zeros _ _ Ho), fadd_int by lia. by rewrite Ez.
  - rewrite (ha_count _ _ Hs), (ha_count _ _ Ho), fadd_int by lia. by rewrite wsum_app.
  - destruct (ha_min _ _ Hs) as [Em Nm], (ha_min _ _ Ho) as [Eo No]. destruct (fval_min _ _ No Nm) as [F N]. rewrite F, N, lowest_app, Em, Eo. split; [lia|done].
  - destruct (ha_max _ _ Hs) as [Em Nm], (ha_max _ _ Ho) as [Eo No]. destruct (fval_max _ _ No Nm) as [F N]. rewrite F, N, highest_app, Em, Eo. split; [lia|done].
  - by apply weighty_app.
  - intros x [Hx|Hx]%elem_of_app; [by apply (ha_finite _ _ Hs)|by apply (ha_finite _ _ Ho)].
Qed.
Lemma built_weights s xs : built s xs -> weighty xs.
Proof. induction 1 as [|s xs v w s' _ IH Hw _|s o xs ys s' _ IH _ IHo _|]; [by intros x ?%elem_of_nil| | |done]; apply weighty_app; (split; [done|]); [|done]. intros x Hx. by apply list_elem_of_singleton in Hx as ->. Qed.
Lemma built_holds s xs : built s xs -> wsum xs < 2 ^ 53 -> holdsAll s xs.
Proof.
  induction 1 as [|s xs v w s' Hb IH Hw E|s o xs ys s' Hb IH Ho IHo E|s xs Hb IH]; intros Hsum.
  - split; try done; try (by left); intros x Hx; by apply elem_of_nil in Hx.
  - rewrite wsum_app in Hsum. cbn in Hsum. eapply add_holds; [apply IH; lia|done|lia|done].
  - rewrite wsum_app in Hsum. pose proof (wsum_nonneg _ (built_weights _ _ Hb)). pose proof (wsum_nonneg _ (built_weights _ _ Ho)). eapply merge_holds; [apply IH; lia|apply IHo; lia|lia|done].
  - specialize (IH Hsum). split; try apply IH; apply holds_clone; apply IH.
Qed.

(** ** Sketches that answer alike *)

Record alike (a b : Sketch) : Prop := {
  al_gamma : sk_gamma a = sk_gamma b;
  al_pos : bins (sk_pos a) = bins (sk_pos b);
  al_neg : bins (sk_neg a) = bins (sk_neg b);
  al_zeros : sk_zeros a = sk_zeros b;
  al_count : sk_count a = sk_count b;
  al_min : fval (sk_min a) = fval (sk_min b) /\ isNaN (sk_min a) = isNaN (sk_min b);
  al_max : fval (sk_max a) = fval (sk_max b) /\ isNaN (sk_max a) = isNaN (sk_max b);
}.
(** The same float64, up to the sign of a zero. *)
Definition same_answer (a b : SK Z) : Prop :=
  match a, b with Ok x, Ok y => fval x = fval y /\ isNaN x = isNaN y | Err e, Err e' => e = e' | _, _ => False end.

Lemma clamp_alike v a b : alike a b -> same_answer (Ok (clampToRange v (sk_min a) (sk_max a))) (Ok (clampToRange v (sk_min b) (sk_max b))).
Proof.
  intros Hal. destruct (al_min _ _ Hal) as [Fm Nm], (al_max _ _ Hal) as [Fx Nx]. unfold clampToRange. assert (E : flt v (sk_min a) = flt v (sk_min b)) by (unfold flt; by rewrite Fm, Nm). assert (E' : flt (sk_max a) v = flt (sk_max b) v) by (unfold flt; by rewrite Fx, Nx). rewrite E, E'. destruct (flt v (sk_min b)); [done|]. destruct (flt (sk_max b) v); done.
Qed.
Lemma quantile_alike q a b : alike a b -> same_answer (Quantile q a) (Quantile q b).
Proof.
  intros Hal. unfold Quantile, rank_of, value. rewrite (al_count _ _ Hal), (al_pos _ _ Hal), (al_neg _ _ Hal), (al_zeros _ _ Hal), (al_gamma _ _ Hal). destruct (negb _); [done|]. destruct (feq (sk_count b) 0); [done|]. destruct (feq q 0); [apply Hal|]. destruct (feq q one); [apply Hal|]. set (rank := if flt _ 0 then _ else _). destruct (walk rank 0 _) as [seen [k|]]; [by apply clamp_alike|]. destruct (flt rank (fadd seen _)); [done|]. destruct (walk rank _ (bins (sk_pos b))) as [seen2 [k|]]; [by apply clamp_alike|]. apply Hal.
Qed.
Lemma parts_perm xs ys : xs ≡ₚ ys -> above xs ≡ₚ above ys /\ under xs ≡ₚ under ys /\ at_zero xs = at_zero ys.
Proof. intros Hp. unfold above, under, at_zero. rewrite (sumZ_perm _ _ _ Hp). split_and!; [by rewrite Hp|by rewrite Hp|done]. Qed.
Lemma holds_alike a b xs ys : holdsAll a xs -> holdsAll b ys -> xs ≡ₚ ys -> alike a b.
Proof.
  intros Ha Hb Hp. destruct (parts_perm xs ys Hp) as (Pa & Pu & Pz). split.
  - by rewrite (proj1 (ha_gamma _ _ Ha)), (proj1 (ha_gamma _ _ Hb)).
  - by apply (holds_same _ _ _ _ (ha_pos _ _ Ha) (ha_pos _ _ Hb)).
  - by apply (holds_same _ _ _ _ (ha_neg _ _ Ha) (ha_neg _ _ Hb)).
  - by rewrite (ha_zeros _ _ Ha), (ha_zeros _ _ Hb), Pz.
  - rewrite (ha_count _ _ Ha), (ha_count _ _ Hb). f_equal. by apply sumZ_perm.
  - destruct (ha_min _ _ Ha) as [-> ->], (ha_min _ _ Hb) as [-> ->]. split; [by apply lowest_perm|done].
  - destruct (ha_max _ _ Ha) as [-> ->], (ha_max _ _ Hb) as [-> ->]. split; [by apply highest_perm|done].
Qed.

End Built.

(** * What a quantile answers

    The walk of [Quantile] over the buckets stops in the one bucket in which the rank falls when the
    observations are laid out in order of value. *)

(** ** The walk *)

Lemma walk_spec rank l : forall a, 0 <= a -> weighty l -> a + wsum l < 2 ^ 53 -> flt rank (of_int a) = false ->
  (walk rank (of_int a) (as_bin <$> l) = (of_int (a + wsum l), None) /\ flt rank (of_int (a + wsum l)) = false) \/
  (exists l1 k c l2, l = l1 ++ (k, c) :: l2 /\ walk rank (of_int a) (as_bin <$> l) = (of_int (a + wsum l1 + c), Some k) /\ flt rank (of_int (a + wsum l1)) = false /\ flt rank (of_int (a + wsum l1 + c)) = true).
Proof.
  induction l as [|[k c] l IH]; intros a Ha Hw Hsum Hlt; [left; cbn; by rewrite Z.add_0_r|]. assert (Hw' : weighty l) by (intros y Hy; apply Hw; by right). pose proof (Hw (k, c) ltac:(by left)) as Hc. cbn [snd] in Hc. pose proof (wsum_nonneg l Hw'). change (wsum ((k, c) :: l)) with (c + wsum l) in *. cbn [fmap list_fmap walk as_bin b_Count b_Index fst snd]. rewrite fadd_int by lia. destruct (flt rank (of_int (a + c))) eqn:E.
  - right. exists [], k, c, l. cbn [wsum sumZ]. by rewrite Z.add_0_r.
  - destruct (IH (a + c) ltac:(lia) Hw' ltac:(lia) E) as [[Hwk Hf]|(l1 & k' & c' & l2 & -> & Hwk & Hf & Ht)].
    + left. by rewrite Z.add_assoc.
    + right. exists ((k, c) :: l1), k', c', l2. change (wsum ((k, c) :: l1)) with (c + wsum l1). rewrite Z.add_assoc. done.
Qed.

(** The weight to the left of a place in a sorted run. *)
Lemma sorted_run_split k c l1 l2 : StronglySorted (fun a b : Z * Z => a.1 < b.1) (l1 ++ (k, c) :: l2) ->
  sumZ (fun x => if x.1 <? k then x.2 else 0) (l1 ++ (k, c) :: l2) = wsum l1 /\ sumZ (fun x => if k <? x.1 then x.2 else 0) (l1 ++ (k, c) :: l2) = wsum l2.
Proof.
  intros Hs. rewrite !sumZ_app. cbn [sumZ fst snd]. rewrite !Z.ltb_irrefl. apply StronglySorted_app in Hs as (H1 & _ & Hs). apply StronglySorted_inv in Hs as [_ Hf]. rewrite List.Forall_forall in Hf. assert (H2 : forall x, x ∈ l2 -> k < x.1) by (intros x Hx; by apply (Hf x), list_elem_of_In). assert (H3 : forall x, x ∈ l1 -> x.1 < k) by (intros x Hx; apply (H1 x (k, c)); [done|by left]).
  unfold wsum. split.
  - rewrite (sumZ_0 _ l2); [rewrite (sumZ_ext _ snd l1); [lia|]|]; intros x Hx; [by rewrite (proj2 (Z.ltb_lt _ _)) by auto|specialize (H2 x Hx); by rewrite (proj2 (Z.ltb_ge _ _)) by lia].
  - rewrite (sumZ_0 _ l1); [rewrite (sumZ_ext _ snd l2); [lia|]|]; intros x Hx; [by rewrite (proj2 (Z.ltb_lt _ _)) by auto|specialize (H3 x Hx); by rewrite (proj2 (Z.ltb_ge _ _)) by lia].
Qed.
Lemma sumZ_omap {A B} (f : B -> Z) (g : A -> option B) l : sumZ f (omap g l) = sumZ (fun x => match g x with Some y => f y | None => 0 end) l.
Proof. induction l as [|x l IH]; [done|]. cbn [omap list_omap sumZ]. destruct (g x); cbn [sumZ]; lia. Qed.

(** The highest index of a histogram. *)
Definition peak (h : obs) : Z := match h with [] => 0 | x :: h => foldr (fun y m => Z.max y.1 m) x.1 h end.
Lemma peak_spec T h : tight T h -> (forall x, x ∈ h -> x.1 <= T) -> peak h = T.
Proof.
  intros (x & Hx & <-) Hle. destruct h as [|y h]; [by apply elem_of_nil in Hx|]. cbn [peak]. assert (Hb : y.1 <= x.1) by (apply Hle; by left). assert (Hm : forall z, z ∈ h -> z.1 <= x.1) by (intros z Hz; apply Hle; by right). assert (Hin : y.1 = x.1 \/ x ∈ h) by (apply elem_of_cons in Hx as [->|]; eauto).
  clear Hx Hle. induction h as [|z h IH]; cbn [foldr]; [destruct Hin as [?|Hin]; [done|by apply elem_of_nil in Hin]|]. pose proof (Hm z ltac:(by left)). assert (Hm' : forall z, z ∈ h -> z.1 <= x.1) by (intros u Hu; apply Hm; by right). assert (Hle : foldr (fun y m => Z.max y.1 m) y.1 h <= x.1).
  { clear -Hb Hm'. induction h as [|u h IH]; cbn [foldr]; [done|]. pose proof (Hm' u ltac:(by left)). specialize (IH (fun z Hz => Hm' z ltac:(by right))). lia. }
  destruct Hin as [Hy|Hin]; [rewrite IH by eauto; lia|]. apply elem_of_cons in Hin as [->|Hin]; [lia|]. rewrite IH by eauto. lia.
Qed.

Lemma flt_cases a b : flt a b = true -> fle a b = true /\ feq a b = false /\ feq b a = false.
Proof.
  unfold flt, fle, feq. destruct (isNaN a), (isNaN b); cbn [negb andb]; try done. intros Hlt%Z.ltb_lt. assert (a <> b) by (intros ->; lia). rewrite (proj2 (Z.leb_le _ _)), (proj2 (Z.eqb_neq a b)), (proj2 (Z.eqb_neq b a)) by lia. cbn [orb]. unfold fval in Hlt. destruct (Z.eqb_spec (fmag a) 0), (Z.eqb_spec (fmag b) 0); try done. exfalso. destruct (_ <=? a), (_ <=? b); lia.
Qed.

Section Rank.
Context `{GoMath} (gamma : Z).

(** Where an observation counts once the lowest buckets have been folded, and the order of these places. *)
Definition settled (xs : obs) (v : Z) : place :=
  match place_of gamma v with
  | Above k => Above (clampi (peak (above gamma xs)) k)
  | Under k => Under (clampi (peak (under gamma xs)) k)
  | AtZero => AtZero
  end.
Definition before (p q : place) : bool :=
  match p, q with
  | Under k, Under k' => k' <? k
  | Under _, _ => true
  | AtZero, Above _ => true
  | Above k, Above k' => k <? k'
  | _, _ => false
  end.
Definition weight_before (xs : obs) (p : place) : Z := sumZ (fun x => if before (settled xs x.1) p then x.2 else 0) xs.
Definition weight_through (xs : obs) (p : place) : Z := sumZ (fun x => if before p (settled xs x.1) then 0 else x.2) xs.
(** What a place answers. *)
Definition answer (s : Sketch) (p : place) : Z :=
  match p with
  | Under k => clampToRange (fneg (value s k)) (sk_min s) (sk_max s)
  | AtZero => 0
  | Above k => clampToRange (value s k) (sk_min s) (sk_max s)
  end.

Lemma before_under xs k : weight_before xs (Under k) = sumZ (fun x => if k <? clampi (peak (under gamma xs)) x.1 then x.2 else 0) (under gamma xs).
Proof. unfold weight_before. set (T := peak (under gamma xs)). unfold under. rewrite sumZ_omap. apply sumZ_ext. intros x _. unfold settled. by destruct (place_of gamma x.1). Qed.
Lemma before_above xs k : weight_before xs (Above k) = wsum (under gamma xs) + at_zero gamma xs + sumZ (fun x => if clampi (peak (above gamma xs)) x.1 <? k then x.2 else 0) (above gamma xs).
Proof. unfold weight_before. set (T := peak (above gamma xs)). unfold under, above, at_zero, wsum. rewrite !sumZ_omap, <- !sumZ_plus. apply sumZ_ext. intros x _. unfold settled. fold T. destruct (place_of gamma x.1); cbn [before fst snd]; lia. Qed.
Lemma before_zero xs : weight_before xs AtZero = wsum (under gamma xs).
Proof. unfold weight_before, under, wsum. rewrite sumZ_omap. apply sumZ_ext. intros x _. unfold settled. by destruct (place_of gamma x.1). Qed.
Lemma through_zero xs : weight_through xs AtZero = wsum (under gamma xs) + at_zero gamma xs.
Proof. unfold weight_through, under, at_zero, wsum. rewrite sumZ_omap, <- sumZ_plus. apply sumZ_ext. intros x _. unfold settled. destruct (place_of gamma x.1); cbn; lia. Qed.
Lemma through_under xs k : weight_through xs (Under k) = weight_before xs (Under k) + hist (peak (under gamma xs)) (under gamma xs) k.
Proof.
  rewrite before_under. unfold weight_through, hist. set (T := peak (under gamma xs)). unfold under. rewrite !sumZ_omap, <- sumZ_plus. apply sumZ_ext. intros x _. unfold settled. fold T. destruct (place_of gamma x.1) as [k'|k'|]; cbn [before fst snd]; try lia. destruct (Z.ltb_spec (clampi T k') k), (Z.ltb_spec k (clampi T k')), (Z.eqb_spec (clampi T k') k); lia.
Qed.
Lemma through_above xs k : weight_through xs (Above k) = weight_before xs (Above k) + hist (peak (above gamma xs)) (above gamma xs) k.
Proof.
  rewrite before_above. unfold weight_through, hist. set (T := peak (above gamma xs)). unfold above, under, at_zero, wsum. rewrite !sumZ_omap, <- !sumZ_plus. apply sumZ_ext. intros x _. unfold settled. fold T. destruct (place_of gamma x.1) as [k'|k'|]; cbn [before fst snd]; try lia. destruct (Z.ltb_spec k (clampi T k')), (Z.ltb_spec (clampi T k') k), (Z.eqb_spec (clampi T k') k); lia.
Qed.

(** The buckets of a store, in terms of its observations. *)
Lemma holds_canon s h : holds s h -> bins s = as_bin <$> canon (peak h) h /\ weighty h /\ (forall x, x ∈ h -> x.1 <= peak h).
Proof.
  intros [[-> ->]|(T & Hr & Ht)]; [split_and!; [done|by intros x ?%elem_of_nil|by intros x ?%elem_of_nil]|]. assert (Hle : forall x, x ∈ h -> x.1 <= T) by (intros x Hx; apply (rp_obs _ _ _ Hr x Hx)). rewrite (peak_spec T h Ht Hle). split_and!; [by apply bins_canon|apply Hr|done].
Qed.
Lemma canon_elem_hist T h l1 k c l2 : canon T h = l1 ++ (k, c) :: l2 -> c = hist T h k.
Proof. intros E. assert (Hin : (k, c) ∈ canon T h) by (rewrite E; apply elem_of_app; right; by left). by apply elem_canon in Hin as (_ & _ & ?). Qed.
Lemma canon_prefix T h l1 k c l2 : (forall x, x ∈ h -> x.1 <= T) -> canon T h = l1 ++ (k, c) :: l2 ->
  wsum l1 = sumZ (fun x => if clampi T x.1 <? k then x.2 else 0) h /\ wsum l2 = sumZ (fun x => if k <? clampi T x.1 then x.2 else 0) h /\ c = hist T h k.
Proof.
  intros Hle E. pose proof (canon_sorted (hist T h) (Z.to_nat MaxBins) (T - MaxBins + 1)) as Hs. fold (canon T h) in Hs. rewrite E in Hs. destruct (sorted_run_split k c l1 l2 Hs) as [H1 H2]. rewrite <- E in H1, H2. rewrite (canon_sum (fun j => j <? k)) in H1 by done. rewrite (canon_sum (fun j => k <? j)) in H2 by done. split_and!; [done|done|by eapply canon_elem_hist].
Qed.
Lemma hist_pos_elem T h k : hist T h k <> 0 -> exists y, y ∈ h /\ clampi T y.1 = k.
Proof.
  induction h as [|x h IH]; [done|]. rewrite hist_cons. destruct (Z.eqb_spec (clampi T x.1) k) as [E|]; [intros _; exists x; split; [by left|done]|]. intros Hp. destruct (IH ltac:(lia)) as (y & Hy & ?). exists y. split; [by right|done].
Qed.

(** The place whose observations cover the rank. *)
Definition covers (xs : obs) (rank : Z) (p : place) : Prop :=
  flt rank (of_int (weight_before xs p)) = false /\ flt rank (of_int (weight_through xs p)) = true.

Lemma under_some xs k : hist (peak (under gamma xs)) (under gamma xs) k <> 0 -> exists x, x ∈ xs /\ settled xs x.1 = Under k.
Proof.
  intros (y & Hy & Hk)%hist_pos_elem. apply list_elem_of_omap in Hy as (x & Hx & E). exists x. split; [done|]. unfold settled. destruct (place_of gamma x.1); try done. injection E as <-. by rewrite <- Hk.
Qed.
Lemma above_some xs k : hist (peak (above gamma xs)) (above gamma xs) k <> 0 -> exists x, x ∈ xs /\ settled xs x.1 = Above k.
Proof.
  intros (y & Hy & Hk)%hist_pos_elem. apply list_elem_of_omap in Hy as (x & Hx & E). exists x. split; [done|]. unfold settled. destruct (place_of gamma x.1); try done. injection E as <-. by rewrite <- Hk.
Qed.
Lemma zero_some xs : at_zero gamma xs <> 0 -> exists x, x ∈ xs /\ settled xs x.1 = AtZero.
Proof.
  induction xs as [|x xs IH]; [done|]. unfold at_zero. cbn [sumZ]. fold (at_zero gamma xs). intros Hp. destruct (place_of gamma x.1) as [k|k|] eqn:E.
  1, 2: destruct (IH ltac:(lia)) as (y & Hy & Ep); exists y; (split; [by right|]); unfold settled in *; by destruct (place_of gamma y.1).
  exists x. split; [by left|]. unfold settled. by rewrite E.
Qed.

(** The rank of a proper quantile is below the count. *)
Lemma rank_below s q n : sk_count s = of_int n -> 0 < n < 2 ^ 53 -> is_u64 q -> flt 0 q = true -> flt q one = true -> flt (rank_of q s) (of_int n) = true.
Proof.
  intros Hc Hn Hu Hq0 Hq1. assert (Hq : 0 < q < of_int 1).
  { unfold is_u64 in Hu. unfold flt in Hq0, Hq1. apply andb_true_iff in Hq0 as [_ Hq0%Z.ltb_lt], Hq1 as [_ Hq1%Z.ltb_lt]. change (fval 0) with 0 in Hq0. change (fval one) with (of_int 1) in Hq1. unfold fval in *. assert (0 <= fmag q) by (rewrite fmag_mod; apply Z.mod_pos_bound; lia). destruct (Z.leb_spec (2 ^ 63) q); [lia|]. rewrite fmag_small in * by lia. lia. }
  unfold rank_of. rewrite Hc. change one with (of_int 1). rewrite fsub_int by lia. pose proof (fmul_fraction q (n - 1) Hq ltac:(lia)) as Hf. pose proof (of_int_mono (n - 1) n ltac:(lia) ltac:(lia) ltac:(lia)) as Hm. pose proof (of_int_range n ltac:(lia)) as Hr. set (r := fmul q (of_int (n - 1))) in *.
  assert (Hneg : flt r 0 = false) by (unfold flt; destruct (isNaN r); [done|]; cbn [negb andb]; change (fval 0) with 0; apply Z.ltb_ge; unfold fval; rewrite (proj2 (Z.leb_gt _ _)) by lia; rewrite fmag_small by lia; lia). rewrite Hneg. unfold flt. destruct (int_finite n ltac:(lia)) as [-> _]. assert (Hnan : isNaN r = false) by (unfold isNaN; rewrite fmag_small by lia; apply Z.ltb_ge; lia). rewrite Hnan. cbn [negb andb]. apply Z.ltb_lt. rewrite fval_int by lia. unfold fval. rewrite (proj2 (Z.leb_gt _ _)) by lia. rewrite fmag_small by lia. lia.
Qed.

(** C35: For a quantile strictly between 0 and 1 of a sketch with whole weights, the answer is the estimate of the one
    bucket in which the rank falls: the bucket holds an observation, the weight of all observations in
    earlier buckets does not exceed the rank and with the bucket's own weight it does. The walk never runs past the last bucket. *)
Theorem quantile_rank s xs q : built gamma s xs -> 0 < wsum xs < 2 ^ 53 -> is_u64 q -> flt 0 q = true -> flt q one = true ->
  exists x, x ∈ xs /\ covers xs (rank_of q s) (settled xs x.1) /\ Quantile q s = Ok (answer s (settled xs x.1)).
Proof.
  intros Hb [Hpos Hsum] Hu Hlt0 Hlt1. destruct (flt_cases 0 q Hlt0) as (Hq0 & _ & Hne0), (flt_cases q one Hlt1) as (Hq1 & Hne1 & _). pose proof (built_holds gamma s xs Hb Hsum) as Hs. pose proof (rank_below s q (wsum xs) (ha_count _ _ _ Hs) ltac:(lia) Hu Hlt0 Hlt1) as Hrank. pose proof (parts_sum gamma xs) as Hparts. pose proof (parts_le gamma xs (ha_weights _ _ _ Hs)) as (Pa & Pu & Pz). unfold Quantile. rewrite Hq0, Hq1, Hne0, Hne1, (ha_count _ _ _ Hs). cbn [andb negb]. rewrite feq_int_0 by lia. rewrite (proj2 (Z.eqb_neq _ _)) by lia. set (rank := rank_of q s). assert (Hr0 : flt rank (of_int 0) = false) by (unfold rank, rank_of; destruct (flt (fmul q _) 0) eqn:E; [done|exact E]).
  destruct (holds_canon _ _ (ha_neg _ _ _ Hs)) as (Bn & Wn & Ln), (holds_canon _ _ (ha_pos _ _ _ Hs)) as (Bp & Wp & Lp). rewrite Bn, Bp, <- fmap_reverse. set (hn := under gamma xs) in *. set (hp := above gamma xs) in *. pose proof (wsum_canon _ _ Ln) as Sn. pose proof (wsum_canon _ _ Lp) as Sp.
  assert (Sr : wsum (reverse (canon (peak hn) hn)) = wsum hn) by (rewrite <- Sn; apply sumZ_perm, reverse_Permutation). assert (Wr : weighty (reverse (canon (peak hn) hn))) by (intros x Hx; rewrite reverse_Permutation in Hx; by apply (weighty_canon (peak hn) hn Wn x)). change (walk rank 0) with (walk rank (of_int 0)).
  destruct (walk_spec rank _ 0 ltac:(lia) Wr ltac:(lia) Hr0) as [[-> Hf]|(l1 & k & c & l2 & El & -> & Hf & Ht)]; rewrite ?Sr, ?Z.add_0_l in *.
  - rewrite (ha_zeros _ _ _ Hs), fadd_int by lia. destruct (flt rank (of_int (wsum hn + at_zero gamma xs))) eqn:Ez.
    + destruct (zero_some xs) as (x & Hx & Ep); [intros E0; rewrite E0, Z.add_0_r in Ez; congruence|]. exists x. rewrite Ep. unfold covers. rewrite before_zero, through_zero. done.
    + assert (Hn0 : 0 <= wsum hn + at_zero gamma xs) by lia. assert (Hn1 : wsum hn + at_zero gamma xs + wsum (canon (peak hp) hp) < 2 ^ 53) by lia. destruct (walk_spec rank _ _ Hn0 (weighty_canon (peak hp) hp Wp) Hn1 Ez) as [[-> Hf2]|(l1 & k & c & l2 & El & -> & Hf2 & Ht2)].
      * exfalso. rewrite Sp in Hf2. replace (wsum xs) with (wsum hn + at_zero gamma xs + wsum hp) in Hrank by lia. unfold rank in Hf2. congruence.
      * destruct (canon_prefix _ _ _ _ _ _ Lp El) as (E1 & _ & Ec). assert (Hin : (k, c) ∈ canon (peak hp) hp) by (rewrite El; apply elem_of_app; right; by left). apply elem_canon in Hin as (_ & Hn & _). destruct (above_some xs k Hn) as (x & Hx & Ep). exists x. rewrite Ep. unfold covers. rewrite through_above, before_above. fold hn hp. rewrite <- E1, <- Ec. done.
  - apply (f_equal reverse) in El. rewrite reverse_involutive, reverse_app, reverse_cons, <- app_assoc in El. cbn [app] in El. destruct (canon_prefix _ _ _ _ _ _ Ln El) as (_ & E1 & Ec). assert (Hin : (k, c) ∈ canon (peak hn) hn) by (rewrite El; apply elem_of_app; right; by left). apply elem_canon in Hin as (_ & Hn & _). destruct (under_some xs k Hn) as (x & Hx & Ep). exists x. rewrite Ep. unfold covers. rewrite through_under, before_under. fold hn.
    assert (E2 : wsum (reverse l1) = wsum l1) by (apply sumZ_perm, reverse_Permutation). rewrite <- E1, <- Ec, E2. done.
Qed.
End Rank.
