(* ===== verification/SketchCodec.v ===== *)
(** * Sketches on disk (internal/sketchstore/encode.go)

    A stored value is a codec byte and a payload, or its zstd frame: a version, six float64s and the two
    bucket runs as index differences and counts. The compressor is the parameter [Zstd]. *)

From Stdlib Require Import ZArith Lia SpecFloat.
From stdpp Require Import base numbers list.
From S2P Require Import Prelude Gofloat Gofloat64 HeadRecord LogChunk Sketch.

Definition formatVersion : Z := 1.
Definition codecRaw : Z := 0.
Definition codecZstd : Z := 1.
Definition countsFloat : Z := 0.
Definition countsIntegral : Z := 1.
Definition maxDecompressedValue : Z := 2 ^ 20.
Definition compressionFloor : Z := 128.

Inductive codec_error := errCorrupt | errSketch (e : sketch_error).
Abbreviation CR := (result codec_error).

(** [f == math.Trunc(f)], [uint64(f)] of such an [f] in range, and [math.MaxUint64] as a float64. *)
Definition whole (f : Z) : bool :=
  match F64 f with
  | S754_finite _ m e => (0 <=? e) || (Zpos m mod 2 ^ (- e) =? 0)
  | S754_nan => false
  | _ => true
  end.
Definition to_uint64 (f : Z) : Z :=
  match F64 f with S754_finite _ m e => if 0 <=? e then Zpos m * 2 ^ e else Zpos m / 2 ^ (- e) | _ => 0 end.
Definition MaxUint64f : Z := (64 + 1023) * 2 ^ 52.

(** ** Writing *)

Definition integral (b : Bin) : bool := negb (negb (whole (b_Count b)) || flt (b_Count b) 0 || fle MaxUint64f (b_Count b)).
Definition flags_of (bs : list Bin) : Z := if forallb integral bs then countsIntegral else countsFloat.
Fixpoint append_bins_loop (flags prev : Z) (bs : list Bin) (buf : list Z) : list Z :=
  match bs with
  | [] => buf
  | b :: bs =>
      let buf := AppendVarint buf (int64 (b_Index b - prev)) in
      append_bins_loop flags (b_Index b) bs
        (if negb (Z.land flags countsIntegral =? 0) then AppendUvarint buf (to_uint64 (b_Count b)) else AppendUint64 buf (b_Count b))
  end.
Definition appendBins (buf : list Z) (bs : list Bin) : list Z :=
  append_bins_loop (flags_of bs) 0 bs (AppendUvarint (buf ++ [flags_of bs]) (ulen bs)).

Definition encodePayload (s : Sketch) : list Z :=
  let w := ToWire s in
  let buf := foldl AppendUint64 [formatVersion] [w_Gamma w; w_Count w; w_Sum w; w_Min w; w_Max w; w_Zeros w] in
  appendBins (appendBins buf (w_Bins w)) (w_NegBins w).

Definition encodeValue `{Zstd} (s : Sketch) : list Z :=
  let payload := encodePayload s in
  if ulen payload <? compressionFloor then codecRaw :: payload else
  let compressed := EncodeAll payload in
  if ulen payload <=? ulen compressed then codecRaw :: payload else codecZstd :: compressed.

(** ** Reading *)

(** [binary.LittleEndian.Uint64] of the first eight bytes. *)
Definition Uint64le (p : list Z) : Z := le_value (take 8 p).

Fixpoint read_bins_loop (n : nat) (flags prev : Z) (p : list Z) : CR (list Bin * list Z) :=
  match n with
  | O => Ok ([], p)
  | S n =>
      match Varint p with
      | None => Err errCorrupt
      | Some (delta, p) =>
          let idx := int64 (prev + delta) in
          if (idx <? MinInt32) || (MaxInt32 <? idx) then Err errCorrupt else
          match (if negb (Z.land flags countsIntegral =? 0) then match Uvarint p with None => None | Some (c, p) => Some (of_int c, p) end
                 else if ulen p <? 8 then None else Some (Uint64le p, drop 8 p)) with
          | None => Err errCorrupt
          | Some (count, p) =>
              match read_bins_loop n flags idx p with
              | Err e => Err e
              | Ok (bs, p) => Ok (MkBin idx count :: bs, p)
              end
          end
      end
  end.
Definition readBins (p : list Z) : CR (list Bin * list Z) :=
  match p with
  | [] => Err errCorrupt
  | flags :: p =>
      if negb (Z.land flags (Z.lnot countsIntegral) =? 0) then Err errCorrupt else
      match Uvarint p with
      | None => Err errCorrupt
      | Some (n, p) => if MaxBins <? n then Err errCorrupt else read_bins_loop (Z.to_nat n) flags 0 p
      end
  end.

Definition agg_at (p : list Z) (i : Z) : Z := Uint64le (drop (Z.to_nat (i * 8)) p).

Section Decode.
Context `{GoMath} `{Zstd}.

Definition decodePayload (p : list Z) : CR Sketch :=
  if ulen p <? 1 + 6 * 8 then Err errCorrupt else
  if negb (hd 0 p =? formatVersion) then Err errCorrupt else
  let p := drop 1 p in
  let agg := agg_at p in
  let p := drop (6 * 8) p in
  match readBins p with
  | Err e => Err e
  | Ok (pos, p) =>
      match readBins p with
      | Err e => Err e
      | Ok (neg, p) =>
          if negb (ulen p =? 0) then Err errCorrupt else
          match FromWire (MkWSketch (agg 0) (agg 1) (agg 2) (agg 3) (agg 4) (agg 5) pos neg) with
          | Ok s => Ok s
          | Err e => Err (errSketch e)
          end
      end
  end.

Definition decodeValue (v : list Z) : CR Sketch :=
  match v with
  | [] => Err errCorrupt
  | c :: payload =>
      if c =? codecRaw then decodePayload payload
      else if c =? codecZstd then match DecodeAll payload with None => Err errCorrupt | Some out => decodePayload out end
      else Err errCorrupt
  end.
End Decode.
