(* ===== verification/SketchCodecProofs.v ===== *)
(** * Stored sketches come back

    The byte format round trips for every sketch a wire form can have, fractional counts included, and
    whatever bytes it is given a decoder returns an error or a sketch that satisfies what the rest of the program relies on.
    A sketch that was stored merges as the one it was. *)

From Stdlib Require Import ZArith Lia SpecFloat Sorting.Sorted.
From stdpp Require Import base numbers list sorting.
From S2P Require Import Prelude Wal Gofloat Gofloat64 Gostring HeadRecord BlockFile BlockIndex LogChunk LogChunkProofs Sketch SketchBins SketchMerge SketchCodec.

(** * Restoring a sketch from its buckets

    A sketch rendered for the wire and read back has the same buckets: they are added in order to an
    empty run, and span no more than [MaxBins] indices. *)

(** ** float64s and their bits *)

Lemma fmag_range a : 0 <= fmag a < 2 ^ 63.
Proof. rewrite fmag_mod. apply Z.mod_pos_bound. lia. Qed.
Lemma finite_mag c : finite c = true <-> fmag c < 2047 * 2 ^ 52.
Proof.
  unfold finite, isNaN, isInf. change 9218868437227405312 with (2047 * 2 ^ 52). destruct (Z.ltb_spec (2047 * 2 ^ 52) (fmag c)), (Z.eqb_spec (fmag c) (2047 * 2 ^ 52)); cbn; split; (done || lia).
Qed.
Lemma bits_F64 c : is_u64 c -> finite c = true -> bits_of (F64 c) = c.
Proof.
  unfold is_u64. intros Hc Hf%finite_mag. pose proof (fmag_range c) as Hm. assert (Hsign : c = sign_bit (2 ^ 63 <=? c) + fmag c) by (unfold sign_bit; rewrite fmag_mod in *; destruct (Z.leb_spec (2 ^ 63) c); [assert (E : c mod 2 ^ 63 = c - 2 ^ 63) by (symmetry; apply (Zmod_unique _ _ 1); lia); lia|rewrite Z.mod_small; lia]).
  pose proof (Z.div_mod (fmag c) (2 ^ 52) ltac:(lia)) as Hdm. pose proof (Z.mod_pos_bound (fmag c) (2 ^ 52) ltac:(lia)) as Hmod. assert (He : 0 <= fmag c / 2 ^ 52 < 2047) by (split; [apply Z.div_pos; lia|apply Z.div_lt_upper_bound; lia]).
  assert (Hbits : forall x, x = c -> uint64 x = c) by (intros x ->; by apply uint64_id). unfold F64. set (e := fmag c / 2 ^ 52) in *. set (f := fmag c mod 2 ^ 52) in *. rewrite (proj2 (Z.eqb_neq e 2047)) by lia. destruct (Z.eqb_spec e 0) as [E0|E0].
  - destruct f as [|m|m] eqn:Ef; [apply Hbits; lia| |lia]. apply Hbits. rewrite (proj2 (Z.ltb_lt _ _)) by lia. lia.
  - destruct (2 ^ 52 + f) as [|m|m] eqn:Ef; [lia| |lia]. apply Hbits. rewrite (proj2 (Z.ltb_ge _ _)) by lia. lia.
Qed.
(** Adding to nothing. *)
Lemma fadd_0 c : is_u64 c -> finite c = true -> fle c 0 = false -> fadd 0 c = c.
Proof.
  intros Hc Hf Hp. unfold fadd. change (F64 0) with (S754_zero false). pose proof (bits_F64 c Hc Hf) as Hb. destruct (F64 c) as [s|s| |s m e] eqn:E; cbn [SFadd]; try done. exfalso. subst c. by destruct s.
Qed.

(** ** Adding buckets in order *)

(** A run whose spare capacity is clear. *)
Definition clear (s : store) : Prop := 1 <= st_len s <= MaxBins /\ st_len s <= ulen (st_arr s) <= MaxBins /\ forall i, (Z.to_nat (st_len s) <= i)%nat -> nth i (st_arr s) 0 = 0.

Lemma counts_ext (s : store) l : st_len s = ulen l -> st_len s <= ulen (st_arr s) -> (forall i, (i < length l)%nat -> nth i (st_arr s) 0 = nth i l 0) -> counts s = l.
Proof.
  intros Hl Hc Hn. unfold counts. apply (nth_ext _ _ 0 0); [unfold ulen in *; rewrite length_take; lia|]. intros i Hi. unfold ulen in *. rewrite length_take in Hi. rewrite nth_take, (proj2 (Nat.ltb_lt _ _)) by lia. apply Hn. lia.
Qed.
Lemma add_above k w s : clear s -> st_offset s + st_len s <= k -> k - st_offset s + 1 <= MaxBins ->
  let s' := store_add k w s in clear s' /\ st_offset s' = st_offset s /\ st_len s' = k - st_offset s + 1 /\ counts s' = counts s ++ zeroes (k - st_offset s - st_len s) ++ [fadd 0 w].
Proof.
  intros (Hl & Hc & Hz) Hk Hw. cbv zeta. pose proof (length_counts s ltac:(lia) ltac:(lia)) as Hlc. unfold store_add, grow. rewrite (proj2 (Z.eqb_neq (st_len s) 0)), (proj2 (Z.ltb_ge k (st_offset s))), (proj2 (Z.leb_le (st_offset s + st_len s) k)) by lia. set (g := growHigh k s).
  assert (Hg : st_offset g = st_offset s /\ st_len g = k - st_offset s + 1 /\ st_len g <= ulen (st_arr g) <= MaxBins /\ forall i, nth i (st_arr g) 0 = if (i <? Z.to_nat (st_len s))%nat then nth i (st_arr s) 0 else 0).
  { unfold g, growHigh. rewrite (proj2 (Z.leb_le _ _) Hw). destruct (Z.leb_spec (k - st_offset s + 1) (ulen (st_arr s))); cbn [st_offset st_len st_arr]; (split_and!; try done; try lia).
    - intros i. destruct (Nat.ltb_spec i (Z.to_nat (st_len s))); [done|]. by apply Hz.
    - rewrite length_copy; rewrite ?length_zeroes; unfold MaxBins in *; lia.
    - rewrite length_copy; rewrite ?length_zeroes; unfold MaxBins in *; lia.
    - intros i. rewrite nth_copy by (unfold MaxBins in *; lia). rewrite (proj2 (Z.ltb_ge _ _)) by lia. rewrite Nat.sub_0_r. unfold counts. by rewrite nth_take. }
  destruct Hg as (Ho & Hlen & Hcap & Hnth). rewrite Ho. assert (Hi : Z.to_nat (Z.max (k - st_offset s) 0) = Z.to_nat (st_len g - 1)) by lia. rewrite Hi. cbn [st_offset st_len st_arr].
  assert (Harr : forall i, nth i (alter (fun c => fadd c w) (Z.to_nat (st_len g - 1)) (st_arr g)) 0 = if (i =? Z.to_nat (st_len g - 1))%nat then fadd 0 w else nth i (st_arr g) 0).
  { intros i. rewrite nth_alter by (unfold ulen in *; lia). destruct (_ =? _)%nat; [|done]. rewrite Hnth, (proj2 (Nat.ltb_ge _ _)) by lia. done. }
  split_and!; cbn [st_len st_arr st_offset]; try lia; try done.
  - split_and!; cbn [st_len st_arr]; try lia; try (unfold ulen in *; rewrite length_alter; lia). intros i Hge. rewrite Harr, (proj2 (Nat.eqb_neq _ _)) by lia. rewrite Hnth, (proj2 (Nat.ltb_ge _ _)) by lia. done.
  - assert (Hzl : length (zeroes (k - st_offset s - st_len s)) = Z.to_nat (k - st_offset s - st_len s)) by (unfold zeroes; apply length_replicate). apply counts_ext; cbn [st_len st_arr].
    + unfold ulen in *. rewrite !length_app, Hzl. cbn [length]. lia.
    + unfold ulen in *. rewrite length_alter. lia.
    + intros i Hlt. rewrite Harr, Hnth, !nth_app, Hzl, nth_zeroes. rewrite !length_app, Hzl in Hlt. cbn [length] in Hlt. assert (Hlc' : length (counts s) = Z.to_nat (st_len s)) by (unfold ulen in *; lia). rewrite Hlc'. destruct (Nat.eqb_spec i (Z.to_nat (st_len g - 1))) as [->|Hne].
      * rewrite (proj2 (Nat.ltb_ge _ _)) by lia. rewrite (proj2 (Nat.ltb_ge _ _)) by lia. replace (Z.to_nat (st_len g - 1) - Z.to_nat (st_len s) - Z.to_nat (k - st_offset s - st_len s))%nat with 0%nat by lia. done.
      * destruct (Nat.ltb_spec i (Z.to_nat (st_len s))); [unfold counts; by rewrite nth_take, (proj2 (Nat.ltb_lt _ _))|]. by rewrite (proj2 (Nat.ltb_lt _ _)) by lia.
Qed.

Lemma bins_from_app a b : forall k, bins_from k (a ++ b) = bins_from k a ++ bins_from (k + ulen a) b.
Proof.
  induction a as [|c a IH]; intros k; cbn [app bins_from]; [unfold ulen; cbn; by rewrite Z.add_0_r|]. replace (k + ulen (c :: a)) with (k + 1 + ulen a) by (unfold ulen; cbn [length]; lia). rewrite IH. by destruct (feq c 0).
Qed.
Lemma bins_from_zeroes n : forall k, bins_from k (zeroes n) = [].
Proof. unfold zeroes. induction (Z.to_nat n) as [|m IH]; intros k; [done|]. cbn [replicate bins_from]. apply IH. Qed.

(** What every rendered bucket satisfies. *)
Definition good_bin (b : Bin) : Prop := is_u64 (b_Count b) /\ finite (b_Count b) = true /\ fle (b_Count b) 0 = false.
Lemma good_nonzero b : good_bin b -> feq (b_Count b) 0 = false.
Proof.
  intros (Hu & Hf & Hl). pose proof (finite_not_NaN _ Hf) as Hn. rewrite feq_fval; [|done|unfold is_u64; lia|done|done]. unfold fle in Hl. rewrite Hn in Hl. cbn [negb andb] in Hl. change (isNaN 0) with false in Hl. cbn [negb andb] in Hl. apply Z.leb_gt in Hl. apply Z.eqb_neq. lia.
Qed.
Definition ascending (bs : list Bin) : Prop := StronglySorted (fun a b => b_Index a < b_Index b) bs.
Definition add_all (bs : list Bin) (s : store) : store := foldl (fun s b => store_add (b_Index b) (b_Count b) s) s bs.

Lemma add_all_clear bs : forall s, clear s -> Forall good_bin bs -> ascending bs -> (forall b, b ∈ bs -> st_offset s + st_len s <= b_Index b < st_offset s + MaxBins) -> bins (add_all bs s) = bins s ++ bs.
Proof.
  induction bs as [|b bs IH]; intros s Hc Hg Ha Hr; [by rewrite app_nil_r|]. apply Forall_cons_1 in Hg as [Hgb Hg]. apply StronglySorted_inv in Ha as [Ha Hf]. rewrite List.Forall_forall in Hf. destruct (Hr b ltac:(by left)) as [Hlo Hhi]. destruct (add_above (b_Index b) (b_Count b) s Hc Hlo ltac:(lia)) as (Hc' & Ho & Hl & Hcs). cbn [add_all foldl]. change (foldl _ _ bs) with (add_all bs (store_add (b_Index b) (b_Count b) s)). rewrite IH; [|done|done|done|].
  - unfold bins at 1. rewrite Hcs, Ho, !bins_from_app, bins_from_zeroes. cbn [app bins_from]. rewrite fadd_0 by apply Hgb. rewrite (good_nonzero b Hgb), <- app_assoc. cbn [app]. do 2 f_equal. destruct Hc as (Hs1 & Hs2 & _). rewrite (length_counts s) by lia. rewrite length_zeroes by lia. destruct b as [i c]. cbn [b_Index b_Count] in *. f_equal. lia.
  - intros b' Hb'. rewrite Ho, Hl. specialize (Hf b' (proj1 (list_elem_of_In _ _) Hb')). pose proof (Hr b' ltac:(by right)). lia.
Qed.
Lemma add_all_bins bs : Forall good_bin bs -> ascending bs -> (forall a b, a ∈ bs -> b ∈ bs -> b_Index b - b_Index a < MaxBins) -> bins (add_all bs empty_store) = bs.
Proof.
  destruct bs as [|b bs]; [done|]. intros Hg Ha Hr. apply Forall_cons_1 in Hg as [Hgb Hg]. pose proof Ha as Ha'. apply StronglySorted_inv in Ha as [Ha Hf]. rewrite List.Forall_forall in Hf. cbn [add_all foldl]. change (foldl _ _ bs) with (add_all bs (store_add (b_Index b) (b_Count b) empty_store)).
  assert (E : store_add (b_Index b) (b_Count b) empty_store = MkStore (b_Count b :: zeroes 7) 1 (b_Index b) (b_Count b)).
  { unfold store_add, grow. cbn [empty_store st_len Z.eqb st_arr st_offset st_total]. rewrite Z.sub_diag. change (Z.to_nat (Z.max 0 0)) with 0%nat. change (zeroes 8) with (0 :: zeroes 7). change (alter ?f 0%nat (0 :: ?l)) with (f 0 :: l). cbv beta. by rewrite fadd_0 by apply Hgb. }
  rewrite E, add_all_clear; [|..]; try done.
  - unfold bins. change (counts _) with [b_Count b]. cbn [bins_from st_offset]. rewrite (good_nonzero b Hgb). by destruct b.
  - split_and!; cbn [st_len st_arr]; try (unfold MaxBins; cbn; lia); try done. intros [|i] Hi; [cbn in Hi; lia|]. cbn [nth]. apply nth_zeroes.
  - intros b' Hb'. cbn [st_len st_offset]. specialize (Hf b' (proj1 (list_elem_of_In _ _) Hb')). pose proof (Hr b b' ltac:(by left) ltac:(by right)). lia.
Qed.

(** ** Rendering and restoring *)

Definition narrow (bs : list Bin) : Prop := forall a b, a ∈ bs -> b ∈ bs -> b_Index b - b_Index a < MaxBins.
Lemma bins_from_range cs : forall k b, b ∈ bins_from k cs -> k <= b_Index b < k + ulen cs.
Proof.
  induction cs as [|c cs IH]; intros k b; cbn [bins_from]; [by intros ?%elem_of_nil|]. replace (k + ulen (c :: cs)) with (k + 1 + ulen cs) by (unfold ulen; cbn [length]; lia). assert (0 <= ulen cs) by (unfold ulen; lia). destruct (feq c 0); [intros Hb%IH; lia|]. intros [->|Hb%IH]%elem_of_cons; [cbn; lia|lia].
Qed.
Lemma bins_ascending s : ascending (bins s).
Proof.
  unfold bins. generalize (st_offset s). induction (counts s) as [|c cs IH]; intros k; cbn [bins_from]; [constructor|]. destruct (feq c 0); [apply IH|]. constructor; [apply IH|]. apply List.Forall_forall. intros b Hb%list_elem_of_In. apply bins_from_range in Hb. cbn [b_Index]. lia.
Qed.
Lemma bins_narrow s : shape s -> narrow (bins s).
Proof.
  intros [->|[Hl Hc]] a b Ha Hb; [by apply elem_of_nil in Ha|]. apply bins_from_range in Ha, Hb. rewrite length_counts in * by lia. lia.
Qed.
Lemma bins_few s : shape s -> ulen (bins s) <= MaxBins.
Proof.
  intros Hs. assert (Hle : forall cs k, (length (bins_from k cs) <= length cs)%nat) by (induction cs as [|c cs IH]; intros k; cbn [bins_from]; [done|]; specialize (IH (k + 1)); destruct (feq c 0); cbn [length]; lia). unfold bins. specialize (Hle (counts s) (st_offset s)). destruct Hs as [->|[Hl Hc]]; [done|]. pose proof (length_counts s ltac:(lia) ltac:(lia)). unfold ulen in *. lia.
Qed.

Definition in_range (b : Bin) : Prop := MinInt32 <= b_Index b <= MaxInt32.
Lemma valid_bins_spec bs : forall prev, valid_bins prev bs = true <->
  Forall (fun b => finite (b_Count b) = true /\ fle (b_Count b) 0 = false /\ in_range b) bs /\ ascending bs /\ forall p, prev = Some p -> forall b, b ∈ bs -> p < b_Index b.
Proof.
  induction bs as [|b bs IH]; intros prev; cbn [valid_bins].
  - split; [intros _|done]. split_and!; [constructor|constructor|intros p _ b Hb; by apply elem_of_nil in Hb].
  - rewrite !andb_true_iff, negb_true_iff, !Z.leb_le, IH. unfold in_range, ascending. split.
    + intros (((((Hf & Hp) & Hlo) & Hhi) & Hprev) & Hall & Ha & Hn). split_and!; [by constructor| |].
      * constructor; [done|]. apply List.Forall_forall. intros b' Hb'%list_elem_of_In. by apply (Hn _ eq_refl).
      * intros p -> b' [->|Hb']%elem_of_cons; apply Z.ltb_lt in Hprev; [done|]. specialize (Hn _ eq_refl b' Hb'). lia.
    + intros (Hall & Ha & Hn). apply Forall_cons_1 in Hall as [(Hf & Hp & Hr) Hall]. apply StronglySorted_inv in Ha as [Ha Hs]. rewrite List.Forall_forall in Hs. split_and!; try done; try lia.
      * destruct prev as [p|]; [|done]. apply Z.ltb_lt. apply (Hn p eq_refl). by left.
      * intros p [= <-] b' Hb'. by apply Hs, list_elem_of_In.
Qed.

Section Wire.
Context `{GoMath}.

Lemma AddBins_ok bs neg : forall s, Forall (fun b => finite (b_Count b) = true /\ fle (b_Count b) 0 = false /\ in_range b) bs ->
  AddBins bs neg s = Ok (MkSketch (sk_gamma s) (sk_invLogGamma s) (if neg then sk_pos s else add_all bs (sk_pos s)) (if neg then add_all bs (sk_neg s) else sk_neg s) (sk_zeros s) (sk_count s) (sk_sum s) (sk_min s) (sk_max s)).
Proof.
  induction bs as [|b bs IH]; intros s Hall; cbn [AddBins]; [by destruct neg, s|]. apply Forall_cons_1 in Hall as [(Hf & Hp & Hr) Hall]. unfold AddBin. rewrite Hf, Hp. cbn [negb]. unfold in_range in Hr. rewrite (proj2 (Z.ltb_ge _ _)), (proj2 (Z.ltb_ge _ _)) by lia. cbn [orb]. rewrite IH by done. by destruct neg.
Qed.

(** A wire form that a sketch can have. *)
Record wire_ok (w : WSketch) : Prop := {
  wo_valid : ValidateSketch w = true;
  wo_bins : Forall (fun b => is_u64 (b_Count b)) (w_Bins w ++ w_NegBins w);
  wo_narrow : narrow (w_Bins w) /\ narrow (w_NegBins w);
  wo_empty : feq (w_Count w) 0 = true -> w = MkWSketch (w_Gamma w) 0 0 0 0 0 (w_Bins w) (w_NegBins w);
}.

Lemma validate_parts w : ValidateSketch w = true -> finite (w_Gamma w) = true /\ fle (w_Gamma w) one = false /\ finite (w_Count w) = true /\ flt (w_Count w) 0 = false /\ finite (w_Zeros w) = true /\ flt (w_Zeros w) 0 = false /\ finite (w_Sum w) = true /\
  (flt 0 (w_Count w) = true -> finite (w_Min w) = true /\ finite (w_Max w) = true /\ flt (w_Max w) (w_Min w) = false) /\ validateBins (w_Bins w) = true /\ validateBins (w_NegBins w) = true.
Proof.
  unfold ValidateSketch. rewrite !andb_true_iff, !negb_true_iff. intros ((((((((((Hg & Hg1) & Hc) & Hc0) & Hz) & Hz0) & Hs) & Hm) & Hb) & Hn) & _). split_and!; try done. intros Hpos. rewrite Hpos in Hm. cbn [andb] in Hm. apply orb_false_iff in Hm as [[H1 H2]%orb_false_iff H3]. by apply negb_false_iff in H1, H2.
Qed.
Lemma validateBins_good bs : validateBins bs = true -> Forall (fun b => is_u64 (b_Count b)) bs -> Forall (fun b => finite (b_Count b) = true /\ fle (b_Count b) 0 = false /\ in_range b) bs /\ Forall good_bin bs /\ ascending bs.
Proof.
  unfold validateBins. intros [_ Hv]%andb_true_iff Hu. apply valid_bins_spec in Hv as (Hall & Ha & _). split_and!; try done. rewrite List.Forall_forall in *. intros b Hb. destruct (Hall b Hb) as (Hf & Hp & _). split_and!; [by apply Hu|done|done].
Qed.
Lemma count_pos c : finite c = true -> flt c 0 = false -> feq c 0 = false -> flt 0 c = true.
Proof.
  intros Hf Hl He. pose proof (finite_not_NaN c Hf) as Hn. unfold feq, flt in *. rewrite Hn in *. change (isNaN 0) with false in *. change (fval 0) with 0 in *. change (fmag 0) with 0 in *. cbn [negb andb Z.eqb] in *. rewrite andb_true_r in He. apply orb_false_iff in He as [_ He%Z.eqb_neq]. apply Z.ltb_ge in Hl. apply Z.ltb_lt. unfold fval in *. pose proof (fmag_range c). destruct (_ <=? c); lia.
Qed.

Lemma from_wire w : wire_ok w -> exists s, FromWire w = Ok s /\ ToWire s = w.
Proof.
  intros Hw. pose proof (validate_parts w (wo_valid _ Hw)) as (Hg & Hg1 & Hc & Hc0 & Hz & Hz0 & Hs & Hm & Hb & Hn). pose proof (wo_bins _ Hw) as Hu. apply Forall_app in Hu as [Hu1 Hu2]. destruct (wo_narrow _ Hw) as [Hr1 Hr2]. destruct (validateBins_good _ Hb Hu1) as (Hb1 & Hb2 & Hb3), (validateBins_good _ Hn Hu2) as (Hn1 & Hn2 & Hn3).
  unfold FromWire. rewrite (wo_valid _ Hw). cbn [negb]. unfold NewWithGamma. rewrite Hg, Hg1. cbn [negb orb]. rewrite AddBins_ok by done. rewrite AddBins_ok by done. cbn [fresh sk_gamma sk_invLogGamma sk_pos sk_neg sk_zeros sk_count sk_sum sk_min sk_max]. destruct (feq (w_Count w) 0) eqn:E0.
  - eexists. split; [done|]. unfold ToWire. cbn [sk_gamma sk_invLogGamma sk_pos sk_neg sk_zeros sk_count sk_sum sk_min sk_max]. change (flt 0 0) with false. cbv iota. rewrite !add_all_bins by done. symmetry. by apply (wo_empty _ Hw).
  - pose proof (count_pos _ Hc Hc0 E0) as Hpos. destruct (Hm Hpos) as (Hm1 & Hm2 & Hm3). unfold SetAggregates. rewrite Hc, Hc0, Hz, Hz0, Hs, Hpos, Hm1, Hm2, Hm3. cbn [negb orb andb]. eexists. split; [done|]. unfold ToWire. cbn [sk_gamma sk_invLogGamma sk_pos sk_neg sk_zeros sk_count sk_sum sk_min sk_max]. rewrite Hpos, !add_all_bins by done. by destruct w.
Qed.
End Wire.

(** ** Whole counts *)

Lemma positive_bits c : is_u64 c -> finite c = true -> fle c 0 = false -> 0 < c < 2047 * 2 ^ 52.
Proof.
  unfold is_u64. intros Hu Hf Hl. pose proof (finite_not_NaN c Hf) as Hn. apply finite_mag in Hf. unfold fle in Hl. rewrite Hn in Hl. change (isNaN 0) with false in Hl. change (fval 0) with 0 in Hl. cbn [negb andb] in Hl. apply Z.leb_gt in Hl. unfold fval in Hl. pose proof (fmag_range c). destruct (Z.leb_spec (2 ^ 63) c); [lia|]. rewrite fmag_small in * by lia. lia.
Qed.
Lemma whole_back c : is_u64 c -> finite c = true -> fle c 0 = false -> whole c = true -> fle MaxUint64f c = false -> of_int (to_uint64 c) = c /\ is_u64 (to_uint64 c).
Proof.
  intros Hu Hf Hl Hw Hmax. pose proof (positive_bits c Hu Hf Hl) as Hc. pose proof (bits_F64 c Hu Hf) as Hb. destruct (F64_pos c Hc) as (m & e & EF & Hcase). unfold whole in Hw. unfold to_uint64. rewrite EF in *. assert (Hup : c < MaxUint64f).
  { unfold fle in Hmax. rewrite (finite_not_NaN c Hf) in Hmax. change (isNaN MaxUint64f) with false in Hmax. cbn [negb andb] in Hmax. apply Z.leb_gt in Hmax. unfold fval in Hmax. change (2 ^ 63 <=? MaxUint64f) with false in Hmax. rewrite (proj2 (Z.leb_gt (2 ^ 63) c)) in Hmax by lia. rewrite (fmag_small c) in Hmax by lia. exact Hmax. }
  destruct (Z.leb_spec 0 e) as [He|He].
  - destruct Hcase as [(Hm & Hce & _)|[_ Hx]]; [|lia]. assert (He' : e <= 11) by (unfold MaxUint64f in Hup; lia). split.
    + unfold of_int. pose proof (normalize_exact (Zpos m) e e false ltac:(lia) He) as Hn. rewrite (digits_full (Zpos m)) in Hn by lia. rewrite Z.sub_diag in Hn. rewrite Hn by lia. rewrite <- Hb. do 2 f_equal; [cbn; lia|lia].
    + unfold is_u64. assert (1 <= 2 ^ e <= 2 ^ 11) by (split; [apply (Z.pow_le_mono_r 2 0); lia|apply Z.pow_le_mono_r; lia]). nia.
  - cbn [orb] in Hw. apply Z.eqb_eq in Hw. assert (Hp : 0 < 2 ^ (- e)) by (apply Z.pow_pos_nonneg; lia). pose proof (Z.div_mod (Zpos m) (2 ^ (- e)) ltac:(lia)) as Hdm. rewrite Hw, Z.add_0_r in Hdm. set (n := Zpos m / 2 ^ (- e)) in *. assert (Hn : 0 < n) by nia. destruct Hcase as [(Hm & Hce & He2)|[Hm ->]].
    + assert (Hn53 : n < 2 ^ 53) by nia. assert (Hd : digits n + - e = 53) by (rewrite <- digits_mul by lia; rewrite <- (digits_full (Zpos m)) by lia; f_equal; lia). split; [|unfold is_u64; lia]. unfold of_int. rewrite int_normalize by lia. rewrite <- Hb. do 2 f_equal; [|lia]. replace (53 - digits n) with (- e) by lia. replace (n * 2 ^ (- e)) with (Zpos m) by lia. done.
    + exfalso. assert (2 ^ 52 <= 2 ^ (- -1074)) by (apply Z.pow_le_mono_r; lia). nia.
Qed.

(** ** A run of buckets *)

Definition count_bytes (flags : Z) (b : Bin) : list Z :=
  if negb (Z.land flags countsIntegral =? 0) then AppendUvarint [] (to_uint64 (b_Count b)) else le_bytes 8 (b_Count b).
Fixpoint bins_bytes (flags prev : Z) (bs : list Bin) : list Z :=
  match bs with [] => [] | b :: bs => AppendVarint [] (int64 (b_Index b - prev)) ++ count_bytes flags b ++ bins_bytes flags (b_Index b) bs end.
Lemma append_bins_bytes flags bs : forall prev buf, append_bins_loop flags prev bs buf = buf ++ bins_bytes flags prev bs.
Proof.
  induction bs as [|b bs IH]; intros prev buf; cbn [append_bins_loop bins_bytes]; [by rewrite app_nil_r|]. rewrite IH. unfold count_bytes, AppendVarint, AppendUvarint, AppendUint64. destruct (negb _); cbn [app]; by rewrite <- !app_assoc.
Qed.
Definition run_bytes (bs : list Bin) : list Z := flags_of bs :: AppendUvarint [] (ulen bs) ++ bins_bytes (flags_of bs) 0 bs.
Lemma appendBins_bytes buf bs : appendBins buf bs = buf ++ run_bytes bs.
Proof. unfold appendBins, run_bytes. rewrite append_bins_bytes. unfold AppendUvarint. cbn [app]. by rewrite <- !app_assoc. Qed.

(** Buckets a run can hold. *)
Definition stored_bin (b : Bin) : Prop := good_bin b /\ in_range b.
Lemma read_loop_bytes bs flags : forall prev rest, Forall stored_bin bs -> is_i64 prev -> (flags = countsIntegral /\ forallb integral bs = true \/ flags = countsFloat) ->
  read_bins_loop (length bs) flags prev (bins_bytes flags prev bs ++ rest) = Ok (bs, rest).
Proof.
  induction bs as [|b bs IH]; intros prev rest Hall Hp Hfl; cbn [length read_bins_loop bins_bytes]; [done|]. apply Forall_cons_1 in Hall as [[(Hu & Hf & Hl) Hr] Hall]. unfold in_range in Hr. rewrite <- !app_assoc, Varint_Append by apply int64_range. cbv zeta.
  assert (Hidx : int64 (prev + int64 (b_Index b - prev)) = b_Index b) by (apply int64_add_sub; unfold is_i64, MinInt32, MaxInt32 in *; lia). rewrite Hidx. rewrite (proj2 (Z.ltb_ge _ _)), (proj2 (Z.ltb_ge _ _)) by lia. cbn [orb]. unfold count_bytes. assert (Hi : is_i64 (b_Index b)) by (unfold is_i64, MinInt32, MaxInt32 in *; lia). destruct Hfl as [[-> Hint]| ->].
  - cbn [forallb] in Hint. apply andb_true_iff in Hint as [Hb Hint]. unfold integral in Hb. apply negb_true_iff in Hb. apply orb_false_iff in Hb as [[Hwh _]%orb_false_iff Hmax]. apply negb_false_iff in Hwh. destruct (whole_back _ Hu Hf Hl Hwh Hmax) as [Hback Hub]. change (Z.land countsIntegral countsIntegral =? 0) with false. cbn [negb]. unfold AppendUvarint. cbn [app]. rewrite Uvarint_Append by done. rewrite Hback, IH by eauto. by destruct b.
  - change (Z.land countsFloat countsIntegral =? 0) with true. cbn [negb]. rewrite (proj2 (Z.ltb_ge _ _)) by (unfold ulen; rewrite length_app, length_le_bytes; lia). unfold Uint64le. rewrite take_app_length', drop_app_length' by by rewrite length_le_bytes. rewrite le_value_bytes by done. rewrite IH by eauto. by destruct b.
Qed.
Lemma readBins_bytes bs rest : Forall stored_bin bs -> ulen bs <= MaxBins -> readBins (run_bytes bs ++ rest) = Ok (bs, rest).
Proof.
  intros Hall Hn. unfold run_bytes. cbn [app readBins]. assert (Hfl : Z.land (flags_of bs) (Z.lnot countsIntegral) =? 0 = true) by (unfold flags_of; by destruct (forallb integral bs)). rewrite Hfl. cbn [negb]. unfold AppendUvarint. cbn [app]. rewrite <- app_assoc, Uvarint_Append by (unfold is_u64, ulen, MaxBins in *; lia). rewrite (proj2 (Z.ltb_ge _ _)) by lia. unfold ulen at 1. rewrite Nat2Z.id. apply read_loop_bytes; [done|unfold is_i64; lia|]. unfold flags_of. destruct (forallb integral bs); [by left|by right].
Qed.

(** ** The payload *)

Definition wire_bytes (w : WSketch) : list Z :=
  formatVersion :: le_bytes 8 (w_Gamma w) ++ le_bytes 8 (w_Count w) ++ le_bytes 8 (w_Sum w) ++ le_bytes 8 (w_Min w) ++ le_bytes 8 (w_Max w) ++ le_bytes 8 (w_Zeros w) ++ run_bytes (w_Bins w) ++ run_bytes (w_NegBins w).
Lemma encodePayload_bytes s : encodePayload s = wire_bytes (ToWire s).
Proof. unfold encodePayload, wire_bytes. rewrite !appendBins_bytes. cbn [foldl]. unfold AppendUint64. rewrite <- !app_assoc. done. Qed.
Lemma length_bins_bytes flags bs : forall prev, ulen (bins_bytes flags prev bs) <= 20 * ulen bs.
Proof.
  induction bs as [|b bs IH]; intros prev; [done|]. cbn [bins_bytes]. specialize (IH (b_Index b)). unfold ulen in *. rewrite !length_app. cbn [length]. unfold AppendVarint, AppendUvarint. cbn [app]. pose proof (length_uvarint 10 (zigzag (int64 (b_Index b - prev)))). assert ((length (count_bytes flags b) <= 10)%nat); [|lia]. unfold count_bytes. destruct (negb _); [apply length_uvarint|rewrite length_le_bytes; lia].
Qed.
Lemma length_wire w : ulen (w_Bins w) <= MaxBins -> ulen (w_NegBins w) <= MaxBins -> ulen (wire_bytes w) <= maxDecompressedValue.
Proof.
  intros H1 H2. assert (Hrun : forall bs, ulen (run_bytes bs) <= 11 + 20 * ulen bs).
  { intros bs. unfold run_bytes. pose proof (length_bins_bytes (flags_of bs) bs 0) as Hb. unfold ulen in *. cbn [length]. rewrite length_app. unfold AppendUvarint. cbn [app]. pose proof (length_uvarint 10 (Z.of_nat (length bs))). lia. }
  pose proof (Hrun (w_Bins w)). pose proof (Hrun (w_NegBins w)). unfold wire_bytes, ulen, maxDecompressedValue, MaxBins in *. cbn [length]. rewrite !length_app, !length_le_bytes. lia.
Qed.

Definition wire_u64 (w : WSketch) : Prop := is_u64 (w_Gamma w) /\ is_u64 (w_Count w) /\ is_u64 (w_Sum w) /\ is_u64 (w_Min w) /\ is_u64 (w_Max w) /\ is_u64 (w_Zeros w).

Lemma agg_skip v p i : 0 < i -> agg_at (le_bytes 8 v ++ p) i = agg_at p (i - 1).
Proof.
  intros Hi. unfold agg_at. f_equal. replace (Z.to_nat (i * 8)) with (length (le_bytes 8 v) + Z.to_nat ((i - 1) * 8))%nat by (rewrite length_le_bytes; lia). by rewrite drop_app_add.
Qed.
Lemma agg_head v p : is_u64 v -> agg_at (le_bytes 8 v ++ p) 0 = v.
Proof. intros Hv. unfold agg_at, Uint64le. rewrite Z.mul_0_l, drop_0, take_app_length' by by rewrite length_le_bytes. by apply le_value_bytes. Qed.

Lemma wire_bytes_byte w : Forall is_byte (wire_bytes w).
Proof.
  assert (Hb : forall flags bs prev, Forall is_byte (bins_bytes flags prev bs)).
  { intros flags. induction bs as [|b bs IH]; intros prev; cbn [bins_bytes]; [constructor|]. apply Forall_app. split; [apply uvarint_all_bytes, zigzag_range|]. apply Forall_app. split; [|apply IH]. unfold count_bytes. destruct (negb _); [|apply le_bytes_bytes]. apply uvarint_all_bytes. unfold to_uint64. destruct (F64 _) as [| | |s m e]; try done. destruct (Z.leb_spec 0 e); [apply Z.mul_nonneg_nonneg; [done|apply Z.pow_nonneg; done]|]. apply Z.div_pos; [done|]. apply Z.pow_pos_nonneg; lia. }
  assert (Hr : forall bs, Forall is_byte (run_bytes bs)).
  { intros bs. unfold run_bytes. constructor; [unfold flags_of; by destruct (forallb integral bs)|]. apply Forall_app. split; [apply uvarint_all_bytes; unfold ulen; lia|apply Hb]. }
  unfold wire_bytes. constructor; [done|]. repeat (apply Forall_app; split); auto using le_bytes_bytes.
Qed.

Section Decoding.
Context `{GoMath} `{Zstd}.

Lemma decode_wire w : wire_ok w -> wire_u64 w -> exists s, decodePayload (wire_bytes w) = Ok s /\ FromWire w = Ok s /\ ToWire s = w.
Proof.
  intros Hw (U0 & U1 & U2 & U3 & U4 & U5). destruct (from_wire w Hw) as (s & Hf & Ht). exists s. split; [|by split]. pose proof (validate_parts w (wo_valid _ Hw)) as (_ & _ & _ & _ & _ & _ & _ & _ & Hb & Hn). pose proof (wo_bins _ Hw) as Hu. apply Forall_app in Hu as [Hu1 Hu2].
  assert (Hstore : forall bs, validateBins bs = true -> Forall (fun b => is_u64 (b_Count b)) bs -> Forall stored_bin bs /\ ulen bs <= MaxBins).
  { intros bs Hv Hu. destruct (validateBins_good bs Hv Hu) as (H1 & H2 & _). split; [|unfold validateBins in Hv; apply andb_true_iff in Hv as [Hv _]; by apply Z.leb_le in Hv]. rewrite List.Forall_forall in *. intros b Hb'. split; [by apply H2|by apply (H1 b Hb')]. }
  destruct (Hstore _ Hb Hu1) as [Hs1 Hl1], (Hstore _ Hn Hu2) as [Hs2 Hl2]. unfold decodePayload. rewrite (proj2 (Z.ltb_ge _ _)) by (unfold ulen, wire_bytes; cbn [length]; rewrite !length_app, !length_le_bytes; lia).
  unfold wire_bytes. cbn [hd]. change (formatVersion =? formatVersion) with true. cbn [negb drop]. cbv zeta. rewrite !drop_0. rewrite !(agg_skip _ _ 5) by lia. change (5 - 1) with 4. rewrite !(agg_skip _ _ 4) by lia. change (4 - 1) with 3. rewrite !(agg_skip _ _ 3) by lia. change (3 - 1) with 2. rewrite !(agg_skip _ _ 2) by lia. change (2 - 1) with 1. rewrite !(agg_skip _ _ 1) by lia. change (1 - 1) with 0. rewrite !agg_head by done.
  assert (Hd : drop (6 * 8) (le_bytes 8 (w_Gamma w) ++ le_bytes 8 (w_Count w) ++ le_bytes 8 (w_Sum w) ++ le_bytes 8 (w_Min w) ++ le_bytes 8 (w_Max w) ++ le_bytes 8 (w_Zeros w) ++ run_bytes (w_Bins w) ++ run_bytes (w_NegBins w)) = run_bytes (w_Bins w) ++ run_bytes (w_NegBins w)).
  { rewrite !app_assoc. rewrite <- (app_assoc _ (run_bytes (w_Bins w))). rewrite drop_app_length'; [done|]. rewrite !length_app, !length_le_bytes. done. }
  rewrite Hd, readBins_bytes by done. rewrite <- (app_nil_r (run_bytes (w_NegBins w))), readBins_bytes by done. cbn [ulen length Z.of_nat Z.eqb negb]. change (ulen [] =? 0) with true. cbn [negb]. replace (MkWSketch _ _ _ _ _ _ _ _) with w by (by destruct w). by rewrite Hf.
Qed.

(** What the compressor promises within the decoder's memory limit. *)
Class SketchZstd : Prop := sketch_zstd raw : Forall is_byte raw -> ulen raw <= maxDecompressedValue -> DecodeAll (EncodeAll raw) = Some raw.

Lemma decode_encode `{!SketchZstd} s : wire_ok (ToWire s) -> wire_u64 (ToWire s) -> exists s', decodeValue (encodeValue s) = Ok s' /\ FromWire (ToWire s) = Ok s' /\ ToWire s' = ToWire s.
Proof.
  intros Hw Hu. destruct (decode_wire _ Hw Hu) as (s' & Hd & Hf & Ht). exists s'. split; [|by split]. pose proof (validate_parts _ (wo_valid _ Hw)) as (_ & _ & _ & _ & _ & _ & _ & _ & Hb & Hn). unfold validateBins in Hb, Hn. apply andb_true_iff in Hb as [Hb%Z.leb_le _], Hn as [Hn%Z.leb_le _].
  unfold encodeValue. rewrite encodePayload_bytes. destruct (_ <? compressionFloor); [exact Hd|]. destruct (_ <=? _); [exact Hd|]. cbn [decodeValue]. change (codecZstd =? codecRaw) with false. change (codecZstd =? codecZstd) with true. cbv iota. rewrite sketch_zstd; [exact Hd|apply wire_bytes_byte|by apply length_wire].
Qed.

(** A stored sketch reads back as it was: whatever codec byte the encoder chose, decoding the value gives a
    sketch with the same wire form, that is the same aggregates and the same buckets, fractional counts
    included. *)
Theorem stored_roundtrip `{!SketchZstd} s : wire_ok (ToWire s) -> wire_u64 (ToWire s) -> exists s', decodeValue (encodeValue s) = Ok s' /\ ToWire s' = ToWire s.
Proof. intros Hw Hu. destruct (decode_encode s Hw Hu) as (s' & Hd & _ & Ht). eauto. Qed.

(** What the rest of the program relies on. *)
Record well_typed (s : Sketch) : Prop := {
  wt_gamma : finite (sk_gamma s) = true /\ fle (sk_gamma s) one = false;
  wt_count : finite (sk_count s) = true /\ flt (sk_count s) 0 = false;
  wt_zeros : finite (sk_zeros s) = true /\ flt (sk_zeros s) 0 = false;
  wt_sum : finite (sk_sum s) = true;
  wt_range : if flt 0 (sk_count s) then finite (sk_min s) = true /\ finite (sk_max s) = true /\ flt (sk_max s) (sk_min s) = false
             else sk_count s = 0 /\ sk_min s = Inf false /\ sk_max s = Inf true;
  wt_pos : shape (sk_pos s) /\ ulen (bins (sk_pos s)) <= MaxBins /\ ascending (bins (sk_pos s));
  wt_neg : shape (sk_neg s) /\ ulen (bins (sk_neg s)) <= MaxBins /\ ascending (bins (sk_neg s));
}.

Lemma from_wire_typed w s : FromWire w = Ok s -> well_typed s.
Proof.
  intros E. pose proof (made_shape s (made_FromWire w s E)) as [Sp Sn]. assert (Hbase : forall st, shape st -> shape st /\ ulen (bins st) <= MaxBins /\ ascending (bins st)) by (intros st Hst; split_and!; [done|by apply bins_few|apply bins_ascending]). unfold FromWire in E. destruct (ValidateSketch w) eqn:Hv; [|done]. cbn [negb] in E. pose proof (validate_parts w Hv) as (Hg & Hg1 & Hc & Hc0 & Hz & Hz0 & Hs & Hm & Hb & Hn). unfold NewWithGamma in E. rewrite Hg, Hg1 in E. cbn [negb orb] in E.
  unfold validateBins in Hb, Hn. apply andb_true_iff in Hb as [_ Hb], Hn as [_ Hn]. apply valid_bins_spec in Hb as (Hb & _ & _), Hn as (Hn & _ & _). rewrite AddBins_ok in E by done. rewrite AddBins_ok in E by done. destruct (feq (w_Count w) 0) eqn:E0.
  - apply ok_inj in E as <-. split; try (by apply Hbase); done.
  - pose proof (count_pos _ Hc Hc0 E0) as Hpos. destruct (Hm Hpos) as (Hm1 & Hm2 & Hm3). unfold SetAggregates in E. rewrite Hc, Hc0, Hz, Hz0, Hs, Hpos, Hm1, Hm2, Hm3 in E. cbn [negb orb andb] in E. apply ok_inj in E as <-. split; try (by apply Hbase); cbn [sk_gamma sk_count sk_zeros sk_sum sk_min sk_max fresh]; try done. by rewrite Hpos.
Qed.
Lemma payload_typed p s : decodePayload p = Ok s -> well_typed s.
Proof.
  unfold decodePayload. destruct (_ <? _); [done|]. destruct (negb _); [done|]. destruct (readBins _) as [[pos p1]|]; [|done]. destruct (readBins p1) as [[neg p2]|]; [|done]. destruct (negb _); [done|]. destruct (FromWire _) as [s'|] eqn:E; [|done]. intros E'%ok_inj. subst s'. by apply from_wire_typed in E.
Qed.

(** C37: Whatever bytes a stored value holds, reading it fails or gives a well-formed sketch: a growth factor above 1,
    finite aggregates that are not negative, an ordered range (or the sentinels of an empty
    sketch) and two ascending runs of at most [MaxBins] buckets. *)
Theorem decoded_well_typed v s : decodeValue v = Ok s -> well_typed s.
Proof.
  unfold decodeValue. destruct v as [|c p]; [done|]. destruct (c =? codecRaw); [apply payload_typed|]. destruct (c =? codecZstd); [|done]. destruct (DecodeAll p) as [out|]; [apply payload_typed|done].
Qed.
End Decoding.

(** * Sketches that were stored

    A sketch built from observations can be stored and read back, and merging what was read is merging what was stored. *)

(** ** Restored runs of buckets *)

Lemma add_all_holds l : forall s h, holds s h -> weighty l -> wsum h + wsum l < 2 ^ 53 -> holds (add_all (as_bin <$> l) s) (h ++ l).
Proof.
  induction l as [|[k w] l IH]; intros s h Hs Hw Hsum; [by rewrite app_nil_r|]. assert (Hw' : weighty l) by (intros y Hy; apply Hw; by right). pose proof (Hw (k, w) ltac:(by left)) as Hwk. cbn [snd] in Hwk. pose proof (wsum_nonneg l Hw'). change (wsum ((k, w) :: l)) with (w + wsum l) in Hsum. cbn [fmap list_fmap add_all foldl as_bin b_Index b_Count fst snd]. change ((k, w) :: l) with ([(k, w)] ++ l). rewrite app_assoc. apply IH; [apply holds_add; [done|done|lia]|done|]. rewrite wsum_app. cbn. lia.
Qed.
Lemma restore_holds s h : holds s h -> wsum h < 2 ^ 53 -> holds (add_all (bins s) empty_store) h.
Proof.
  intros [[-> ->]|(T & Hr & Ht)] Hsum; [by left|]. pose proof (rp_pos _ _ _ Hr) as Hw. assert (Hle : forall x, x ∈ h -> x.1 <= T) by (intros x Hx; apply (rp_obs _ _ _ Hr x Hx)). pose proof (add_all_holds (canon T h) empty_store [] ltac:(by left) (weighty_canon T h Hw) ltac:(rewrite wsum_canon by done; done)) as Ha. rewrite (bins_canon _ _ _ Hr). cbn [app] in Ha. destruct (canon_last T h Hw Ht) as [c Hl]. assert (Hin : (T, c) ∈ canon T h) by (apply last_Some in Hl as [l' ->]; apply elem_of_app; right; by left).
  destruct Ha as [[_ E]|(T' & Hr' & Ht')]; [rewrite E in Hl; done|]. assert (HT : T' = T).
  { apply (tight_unique T' T _ _ Ht' (ex_intro _ (T, c) (conj Hin eq_refl)) (Permutation_refl _)); [intros x Hx; apply (rp_obs _ _ _ Hr' x Hx)|]. intros x Hx. apply elem_canon in Hx as [Hx _]. unfold MaxBins in Hx. lia. }
  subst T'. right. exists T. split; [|done]. apply (refold _ T T [] h); [exact Hr'|lia|done|done].
Qed.
Lemma holds_shape s h : holds s h -> shape s.
Proof. intros [[-> _]|(T & Hr & _)]; [by left|]. right. pose proof (rp_len _ _ _ Hr). pose proof (rp_cap _ _ _ Hr). lia. Qed.
Lemma fold_counts_int l : forall a, 0 <= a -> weighty l -> a + wsum l < 2 ^ 53 -> foldl fadd (of_int a) (b_Count <$> (as_bin <$> l)) = of_int (a + wsum l).
Proof.
  induction l as [|[k w] l IH]; intros a Ha Hw Hsum; [cbn; by rewrite Z.add_0_r|]. assert (Hw' : weighty l) by (intros y Hy; apply Hw; by right). pose proof (Hw (k, w) ltac:(by left)) as Hwk. cbn [snd] in Hwk. pose proof (wsum_nonneg l Hw'). change (wsum ((k, w) :: l)) with (w + wsum l) in *. cbn [fmap list_fmap foldl as_bin b_Count snd]. rewrite fadd_int by lia. change (foldl fadd (of_int (a + w)) (b_Count <$> (as_bin <$> l)) = of_int (a + (w + wsum l))). rewrite IH by (done || lia). f_equal. lia.
Qed.

Section Stored.
Context `{GoMath} (gamma : Z).

(** What is asked of the observations: they are float64s, their logarithms are numbers, the counts are
    exact and the sum has not overflowed. *)
Record storable (s : Sketch) (xs : obs) : Prop := {
  so_gamma : is_u64 gamma /\ finite gamma = true /\ fle gamma one = false;
  so_values : forall x, x ∈ xs -> is_u64 x.1;
  so_index : forall x, x ∈ xs -> match place_of gamma x.1 with Above k | Under k => MinInt32 <= k <= MaxInt32 | AtZero => True end;
  so_total : wsum xs < 2 ^ 53;
  so_sum : finite (sk_sum s) = true;
}.

(** What storage and merging keep. *)
Record keeps (s : Sketch) (xs : obs) : Prop := {
  kp_holds : holdsAll gamma s xs;
  kp_bits : is_u64 (sk_sum s) /\ is_u64 (sk_min s) /\ is_u64 (sk_max s);
  kp_empty : xs = [] -> sk_sum s = 0;
}.

Lemma canon_ok h T : weighty h -> tight T h -> (forall x, x ∈ h -> x.1 <= T) -> wsum h < 2 ^ 53 -> (forall x, x ∈ h -> MinInt32 <= x.1 <= MaxInt32) ->
  Forall (fun b => is_u64 (b_Count b) /\ finite (b_Count b) = true /\ fle (b_Count b) 0 = false /\ in_range b) (as_bin <$> canon T h).
Proof.
  intros Hw (z & Hz & Hzt) Hle Hsum Hidx. apply List.Forall_forall. intros b Hb%list_elem_of_In. apply list_elem_of_fmap in Hb as (x & -> & Hx). apply elem_canon in Hx as (Hr & Hn & Hc). pose proof (hist_bounds T h x.1 Hw) as Hb. cbn [as_bin b_Count b_Index]. rewrite Hc. pose proof (of_int_range (hist T h x.1) ltac:(lia)) as Hor. destruct (int_finite (hist T h x.1) ltac:(lia)) as [Hf1 Hf2]. split_and!.
  - unfold is_u64. lia.
  - unfold finite. by rewrite Hf1, Hf2.
  - unfold fle. rewrite Hf1. change (isNaN 0) with false. change (fval 0) with 0. cbn [negb andb]. apply Z.leb_gt. rewrite fval_int by lia. pose proof (of_int_mono 0 (hist T h x.1)). rewrite of_int_0 in *. lia.
  - destruct (hist_pos_elem T h x.1 Hn) as (y & Hy & Ek). pose proof (Hidx y Hy). specialize (Hidx z Hz). specialize (Hle y Hy). unfold in_range. cbn [as_bin b_Index]. unfold clampi, MaxBins in Ek. lia.
Qed.
Lemma holds_validate s h : holds s h -> wsum h < 2 ^ 53 -> (forall x, x ∈ h -> MinInt32 <= x.1 <= MaxInt32) -> validateBins (bins s) = true /\ Forall (fun b => is_u64 (b_Count b)) (bins s).
Proof.
  intros Hs Hsum Hidx. pose proof (bins_few s (holds_shape s h Hs)) as Hfew. pose proof (bins_ascending s) as Ha. assert (Hok : Forall (fun b => is_u64 (b_Count b) /\ finite (b_Count b) = true /\ fle (b_Count b) 0 = false /\ in_range b) (bins s)).
  { destruct Hs as [[-> ->]|(T & Hr & Ht)]; [constructor|]. rewrite (bins_canon _ _ _ Hr). apply canon_ok; [apply Hr|done| |done|done]. intros x Hx. apply (rp_obs _ _ _ Hr x Hx). }
  split; [|eapply List.Forall_impl; [|exact Hok]; by intros b [? _]]. unfold validateBins. rewrite (proj2 (Z.leb_le _ _) Hfew). cbn [andb]. apply valid_bins_spec. split_and!; [eapply List.Forall_impl; [|exact Hok]; by intros b [_ ?]|done|done].
Qed.
Lemma index_parts xs : (forall x, x ∈ xs -> match place_of gamma x.1 with Above k | Under k => MinInt32 <= k <= MaxInt32 | AtZero => True end) ->
  (forall x, x ∈ above gamma xs -> MinInt32 <= x.1 <= MaxInt32) /\ (forall x, x ∈ under gamma xs -> MinInt32 <= x.1 <= MaxInt32).
Proof.
  intros Hi. split; intros y (x & Hx & E)%list_elem_of_omap; specialize (Hi x Hx); destruct (place_of gamma x.1); try done; by injection E as <-.
Qed.

(** ** The aggregates of a sketch with observations *)

Lemma finite_fval c : finite c = true <-> - (2047 * 2 ^ 52) < fval c < 2047 * 2 ^ 52.
Proof. rewrite finite_mag. unfold fval. pose proof (fmag_range c). destruct (_ <=? c); lia. Qed.
Lemma lowest_bounds xs : (forall x, x ∈ xs -> finite x.1 = true) -> xs <> [] -> - (2047 * 2 ^ 52) < lowest xs /\ lowest xs <= highest xs /\ highest xs < 2047 * 2 ^ 52.
Proof.
  intros Hf. assert (Hgen : forall ys, (forall x, x ∈ ys -> finite x.1 = true) -> - (2047 * 2 ^ 52) < lowest ys /\ highest ys < 2047 * 2 ^ 52).
  { induction ys as [|y ys IH]; intros Hy; [done|]. change (lowest (y :: ys)) with (Z.min (fval y.1) (lowest ys)). change (highest (y :: ys)) with (Z.max (fval y.1) (highest ys)). specialize (IH (fun x Hx => Hy x ltac:(by right))). pose proof (proj1 (finite_fval y.1) (Hy y ltac:(by left))). lia. }
  destruct (Hgen xs Hf) as [H1 H2]. destruct xs as [|x xs]; [done|]. intros _. change (lowest (x :: xs)) with (Z.min (fval x.1) (lowest xs)) in *. change (highest (x :: xs)) with (Z.max (fval x.1) (highest xs)) in *. lia.
Qed.
Lemma binned_exact s xs : holdsAll gamma s xs -> wsum xs < 2 ^ 53 -> binned (ToWire s) = of_int (wsum xs).
Proof.
  intros Hs Hsum. unfold binned. cbn [ToWire w_Bins w_NegBins w_Zeros]. destruct (holds_canon _ _ (ha_pos _ _ _ Hs)) as (Bp & Wp & Lp), (holds_canon _ _ (ha_neg _ _ _ Hs)) as (Bn & Wn & Ln). pose proof (parts_sum gamma xs). pose proof (parts_le gamma xs (ha_weights _ _ _ Hs)). rewrite Bp, Bn, (ha_zeros _ _ _ Hs). pose proof (wsum_canon _ _ Lp) as Sp. pose proof (wsum_canon _ _ Ln) as Sn.
  assert (Hlt : 0 + wsum (canon (peak (above gamma xs)) (above gamma xs)) < 2 ^ 53) by lia. pose proof (fold_counts_int _ 0 (Z.le_refl 0) (weighty_canon _ _ Wp) Hlt) as F1. rewrite of_int_0 in F1. rewrite F1, Z.add_0_l, Sp. rewrite fold_counts_int; [|lia|by apply weighty_canon|lia]. rewrite Sn, fadd_int by lia. f_equal. lia.
Qed.

Lemma keeps_wire_ok s xs : keeps s xs -> storable s xs -> wire_ok (ToWire s) /\ wire_u64 (ToWire s).
Proof.
  intros [Hs (Us & Um & Ux) Ue] Hso. pose proof (so_total _ _ Hso) as Hsum. destruct (so_gamma _ _ Hso) as (Ug & Fg & Lg). pose proof (ha_weights _ _ _ Hs) as Hw. pose proof (parts_le gamma xs Hw) as (Pa & Pu & Pz). destruct (index_parts xs (so_index _ _ Hso)) as [Ia Iu]. destruct (holds_validate _ _ (ha_pos _ _ _ Hs) ltac:(lia) Ia) as [Vp Up], (holds_validate _ _ (ha_neg _ _ _ Hs) ltac:(lia) Iu) as [Vn Un]. pose proof (wsum_nonneg xs Hw) as Hnn.
  assert (Rc : 0 <= wsum xs < 2 ^ 53) by lia. assert (Rz : 0 <= at_zero gamma xs < 2 ^ 53) by lia. pose proof (of_int_range _ Rc). pose proof (of_int_range _ Rz). destruct (int_finite _ Rc) as [Fc1 Fc2], (int_finite _ Rz) as [Fz1 Fz2]. pose proof (binned_exact s xs Hs Hsum) as Hbin. assert (Hflt : forall n, 0 <= n < 2 ^ 53 -> flt (of_int n) 0 = false) by (intros n Hn; change 0 with (of_int 0) at 1; rewrite flt_int by lia; apply Z.ltb_ge; lia).
  assert (Hnil : wsum xs = 0 -> xs = []) by (intros E; destruct xs as [|x xs']; [done|]; exfalso; pose proof (Hw x ltac:(by left)); assert (Hw' : weighty xs') by (intros y Hy; apply Hw; by right); pose proof (wsum_nonneg xs' Hw'); change (wsum (x :: xs')) with (x.2 + wsum xs') in E; lia).
  assert (Hpos : flt 0 (of_int (wsum xs)) = (0 <? wsum xs)) by (change 0 with (of_int 0) at 1; apply flt_int; lia). destruct (ha_min _ _ _ Hs) as [Em Nm], (ha_max _ _ _ Hs) as [Ex Nx]. split; [split|].
  - unfold ValidateSketch. rewrite Hbin. cbn [ToWire w_Gamma w_Count w_Sum w_Min w_Max w_Zeros w_Bins w_NegBins]. rewrite (ha_count _ _ _ Hs), (ha_zeros _ _ _ Hs), (proj1 (ha_gamma _ _ _ Hs)), Fg, Lg, Vp, Vn, (so_sum _ _ Hso), !Hflt by lia. unfold finite at 1 2. rewrite Fc1, Fc2, Fz1, Fz2, fsub_same by lia. cbn [negb andb]. rewrite andb_true_r. change (fabs 0) with 0. rewrite tolerance_nonneg by (try (unfold tol_rel, tol_abs; lia); lia). cbn [negb]. rewrite !andb_true_r, negb_true_iff, Hpos. destruct (Z.ltb_spec 0 (wsum xs)); [|done]. cbn [andb]. destruct (lowest_bounds xs (ha_finite _ _ _ Hs)) as (L1 & L2 & L3); [by intros ->|]. rewrite (proj2 (finite_fval (sk_min s))), (proj2 (finite_fval (sk_max s))) by lia. cbn [negb orb]. unfold flt. rewrite Nm, Nx. cbn [negb andb]. apply Z.ltb_ge. lia.
  - cbn [ToWire w_Bins w_NegBins]. apply Forall_app. done.
  - cbn [ToWire w_Bins w_NegBins]. split; apply bins_narrow; eapply holds_shape; apply Hs.
  - cbn [ToWire w_Count]. rewrite (ha_count _ _ _ Hs), feq_int_0 by lia. intros E%Z.eqb_eq. specialize (Hnil E). subst xs. unfold ToWire. cbn [w_Gamma w_Bins w_NegBins]. rewrite (ha_count _ _ _ Hs), (ha_zeros _ _ _ Hs), (Ue eq_refl). done.
  - unfold wire_u64. cbn [ToWire w_Gamma w_Count w_Sum w_Min w_Max w_Zeros]. rewrite (ha_count _ _ _ Hs), (ha_zeros _ _ _ Hs), (proj1 (ha_gamma _ _ _ Hs)). split_and!; try done; try (unfold is_u64; lia); destruct (flt 0 _); (done || (unfold is_u64; lia)).
Qed.

Lemma keeps_add s xs v w s' : keeps s xs -> 0 < w -> wsum xs + w < 2 ^ 53 -> is_u64 v -> AddWithCount v (of_int w) s = Ok s' -> keeps s' (xs ++ [(v, w)]).
Proof.
  intros [Hs (_ & Hm & Hx) _] Hw Hsum Hu E. split; [by eapply add_holds| |by destruct xs]. unfold AddWithCount in E. destruct (negb _); [done|]. destruct (_ || _); [done|]. apply ok_inj in E as <-. cbn [sk_sum sk_min sk_max]. split_and!; [apply bits_u64|by destruct (flt v _)|by destruct (flt _ v)].
Qed.
Lemma keeps_merge s o xs ys s' : keeps s xs -> keeps o ys -> wsum xs + wsum ys < 2 ^ 53 -> SketchMerge (Some o) s = Ok s' -> keeps s' (xs ++ ys).
Proof.
  intros [Hs (_ & Hm & Hx) H0] [Ho (_ & Hom & Hox) Ho0] Hsum E. split; [by eapply merge_holds| |]; unfold SketchMerge in E; (destruct (negb _); [done|]); apply ok_inj in E as <-; cbn [sk_sum sk_min sk_max].
  - split_and!; [apply bits_u64|by destruct (flt _ _)|by destruct (flt _ _)].
  - intros [-> ->]%app_eq_nil. by rewrite H0, Ho0.
Qed.
Lemma keeps_restored s xs s' : keeps s xs -> storable s xs -> FromWire (ToWire s) = Ok s' -> keeps s' xs.
Proof.
  intros Hk Hso E. destruct (keeps_wire_ok s xs Hk Hso) as [Hw _]. destruct Hk as [Hs (Us & Um & Ux) Ue]. pose proof (so_total _ _ Hso) as Hsum. pose proof (ha_weights _ _ _ Hs) as Hwt. pose proof (parts_le gamma xs Hwt) as (Pa & Pu & Pz). pose proof (wsum_nonneg xs Hwt). destruct (ha_gamma _ _ _ Hs) as [Eg Ei].
  unfold FromWire in E. rewrite (wo_valid _ Hw) in E. cbn [negb] in E. pose proof (validate_parts _ (wo_valid _ Hw)) as (Hg & Hg1 & Hc & Hc0 & Hz & Hz0 & Hs' & Hm & Hb & Hn). unfold NewWithGamma in E. rewrite Hg, Hg1 in E. cbn [negb orb] in E. pose proof (wo_bins _ Hw) as Hu. apply Forall_app in Hu as [Hu1 Hu2]. rewrite AddBins_ok in E by (by apply validateBins_good). rewrite AddBins_ok in E by (by apply validateBins_good). cbn [ToWire w_Gamma w_Count w_Sum w_Min w_Max w_Zeros w_Bins w_NegBins fresh sk_gamma sk_invLogGamma sk_pos sk_neg sk_zeros sk_count sk_sum sk_min sk_max] in *.
  pose proof (restore_holds _ _ (ha_pos _ _ _ Hs) ltac:(lia)) as Rp. pose proof (restore_holds _ _ (ha_neg _ _ _ Hs) ltac:(lia)) as Rn. rewrite Eg in E. destruct (feq (sk_count s) 0) eqn:E0.
  - rewrite (ha_count _ _ _ Hs), feq_int_0 in E0 by lia. apply Z.eqb_eq in E0. assert (Hnil : xs = []) by (destruct xs as [|x xs']; [done|]; exfalso; pose proof (Hwt x ltac:(by left)); assert (Hw' : weighty xs') by (intros y Hy; apply Hwt; by right); pose proof (wsum_nonneg xs' Hw'); change (wsum (x :: xs')) with (x.2 + wsum xs') in E0; lia). subst xs. apply ok_inj in E as <-. split; [|split_and!; by vm_compute|done]. split; try done. by intros x ?%elem_of_nil.
  - pose proof (count_pos _ Hc Hc0 E0) as Hpos. rewrite Hpos in *. destruct (Hm eq_refl) as (Hm1 & Hm2 & Hm3). unfold SetAggregates in E. rewrite Hc, Hc0, Hz, Hz0, Hs', Hpos, Hm1, Hm2, Hm3 in E. cbn [negb orb andb] in E. apply ok_inj in E as <-. split; cbn [sk_sum sk_min sk_max]; [|done|done]. split; cbn [sk_gamma sk_invLogGamma sk_pos sk_neg sk_zeros sk_count sk_sum sk_min sk_max]; try done; try apply Hs.
Qed.
End Stored.

Section Kept.
Context `{GoMath} `{Zstd} `{!SketchZstd} (gamma : Z).

(** Sketches built from observations, merged, copied, and stored and read back, any number of times. *)
Inductive kept : Sketch -> obs -> Prop :=
  | kept_fresh : kept (fresh gamma) []
  | kept_add s xs v w s' : kept s xs -> 0 < w -> AddWithCount v (of_int w) s = Ok s' -> kept s' (xs ++ [(v, w)])
  | kept_merge s o xs ys s' : kept s xs -> kept o ys -> SketchMerge (Some o) s = Ok s' -> kept s' (xs ++ ys)
  | kept_clone s xs : kept s xs -> kept (Clone s) xs
  | kept_stored s xs s' : kept s xs -> storable gamma s xs -> decodeValue (encodeValue s) = Ok s' -> kept s' xs.

Lemma kept_weights s xs : kept s xs -> weighty xs.
Proof. induction 1 as [|s xs v w s' _ IH Hw _|s o xs ys s' _ IH _ IHo _| |]; [by intros x ?%elem_of_nil| | |done|done]; apply weighty_app; (split; [done|]); [|done]. intros x Hx. by apply list_elem_of_singleton in Hx as ->. Qed.
Lemma kept_keeps s xs : kept s xs -> wsum xs < 2 ^ 53 -> (forall x, x ∈ xs -> is_u64 x.1) -> keeps gamma s xs.
Proof.
  induction 1 as [|s xs v w s' Hb IH Hw E|s o xs ys s' Hb IH Ho IHo E|s xs Hb IH|s xs s' Hb IH Hso E]; intros Hsum Hu.
  - split; [apply built_holds; [constructor|done]|split_and!; by vm_compute|done].
  - rewrite wsum_app in Hsum. cbn in Hsum. eapply keeps_add; [apply IH; [lia|]|done|lia| |done]; [intros x Hx; apply Hu, elem_of_app; by left|]. apply (Hu (v, w)), elem_of_app. right. by left.
  - rewrite wsum_app in Hsum. pose proof (wsum_nonneg _ (kept_weights _ _ Hb)). pose proof (wsum_nonneg _ (kept_weights _ _ Ho)). eapply keeps_merge; [apply IH; [lia|]|apply IHo; [lia|]|lia|done]; intros x Hx; apply Hu, elem_of_app; tauto.
  - destruct (IH Hsum Hu) as [Hs Hbits He]. split; [|done|done]. split; try apply Hs; apply holds_clone; apply Hs.
  - specialize (IH Hsum Hu). destruct (keeps_wire_ok gamma s xs IH Hso) as [Hw Hwu]. destruct (decode_encode s Hw Hwu) as (s1 & Hd & Hf & _). assert (s1 = s') as <- by congruence. by eapply keeps_restored.
Qed.

(** C17: Two sketches of the same growth factor that were given the same observations with whole weights, in
    any order and through any tree of merges, copies, and stores and reads, have the same buckets, zero
    count, count, minimum and maximum, and answer every quantile alike, as long as the counts stay
    within the integers a float64 holds. *)
Theorem merge_order_irrelevant a b xs ys : kept a xs -> kept b ys -> xs ≡ₚ ys -> wsum xs < 2 ^ 53 -> (forall x, x ∈ xs -> is_u64 x.1) ->
  alike a b /\ forall q, same_answer (Quantile q a) (Quantile q b).
Proof.
  intros Ha Hb Hp Hsum Hu. assert (Hal : alike a b).
  { eapply (holds_alike gamma); [apply kp_holds, kept_keeps; [exact Ha|done|done]|apply kp_holds, kept_keeps; [exact Hb| |]|exact Hp]; [by rewrite <- (sumZ_perm snd _ _ Hp : wsum xs = wsum ys)|]. intros x Hx. apply Hu. by rewrite Hp. }
  split; [done|]. intros q. by apply quantile_alike.
Qed.

(** A sketch kept this way whose sum is finite can always be stored and read back, with the same wire form. *)
Theorem kept_storable s xs : kept s xs -> storable gamma s xs -> exists s', decodeValue (encodeValue s) = Ok s' /\ ToWire s' = ToWire s /\ kept s' xs.
Proof.
  intros Hk Hso. pose proof (kept_keeps s xs Hk (so_total _ _ _ Hso) (so_values _ _ _ Hso)) as Hks. destruct (keeps_wire_ok gamma s xs Hks Hso) as [Hw Hwu]. destruct (decode_encode s Hw Hwu) as (s' & Hd & _ & Ht). exists s'. split_and!; [done|done|by eapply kept_stored].
Qed.
End Kept.
