(* ===== verification/SketchStore.v ===== *)
(** * The sketch store (internal/sketchstore/sketchstore.go)

    One encoded sketch per series and bucket in an ordered key-value store, with an index entry per
    series. The key-value store (github.com/cockroachdb/pebble) is the parameter [Pebble]: what a committed batch and an
    iterator do are hypotheses about it. Appends and sweeps exclude each other in the source
    ([sweepMu]), so each operation is one step. *)

From Stdlib Require Import ZArith Lia Sorting.Sorted.
From stdpp Require Import base numbers list gmap sorting.
From S2P Require Import Prelude Wal Gofloat Gofloat64 Gostring Tsdb HeadRecord BlockFile LogChunk Sketch SketchCodec.

Definition prefixPoint : Z := 115.
Definition prefixSeries : Z := 120.
Definition pointKeyLen : Z := 1 + 8 + 4.
Definition seriesKeyLen : Z := 1 + 8.
Definition MaxTimestamp : Z := 2 ^ 32 - 1.

(** ** Keys *)

(** [hash/fnv]: FNV-1a over 64 bits. *)
Definition fnv64a (b : list Z) : Z := foldl (fun h c => uint64 (Z.lxor h c * 1099511628211)) 14695981039346656037 b.
Definition SeriesID (ref : SeriesRef) : Z := fnv64a (Key ref).

Definition pointKey (id tsSec : Z) : list Z := prefixPoint :: PutUint64 id ++ PutUint32 (uint32 tsSec).
Definition seriesEnd (id : Z) : list Z := pointKey id MaxTimestamp ++ [255].
Definition seriesKey (id : Z) : list Z := prefixSeries :: PutUint64 id.
(** [binary.BigEndian.Uint64(k[1:])] and [Uint32(k[9:])] of a key long enough. *)
Definition key_id (k : list Z) : Z := Z.lor (Uint32 (drop 5 k)) (Z.shiftl (Uint32 (drop 1 k)) 32).
Definition key_ts (k : list Z) : Z := Uint32 (drop 9 k).

(** ** The key-value store *)

Inductive op := OpSet (k v : list Z) | OpDelete (k : list Z) | OpDeleteRange (lo hi : list Z).
Class Pebble (DB : Type) := {
  (** the batch, and whether committing it succeeded *)
  Commit : list op -> DB -> DB * bool;
  (** what an iterator over [lower, upper) visits, and whether it met no error *)
  Scan : DB -> list Z -> list Z -> list (list Z * list Z) * bool;
}.

(** ** The store *)

Record Point := MkPoint { p_TimeMs : Z; p_Sketch : option Sketch }.
Record Entry := MkEntry { e_Series : SeriesRef; e_Points : list Point }.
Inductive reject := RejRef (e : ref_error) | RejCollision | RejNil | RejTime.
Record AppendResult := MkAppendResult { ar_Series : Z; ar_Points : Z; ar_Rejected : list (SeriesRef * reject) }.
Inductive store_error := ErrCtx | ErrCommit | ErrIter | ErrKey | ErrValue (e : codec_error) | ErrFn.

Record Store (DB : Type) := MkStore_ { s_db : DB; s_retention : Z; s_grace : Z; s_ids : gmap Z gostring }.
Arguments MkStore_ {DB}.
Arguments s_db {DB}.
Arguments s_retention {DB}.
Arguments s_grace {DB}.
Arguments s_ids {DB}.

Definition known (ids : gmap Z gostring) (id : Z) : gostring := default [] (ids !! id).
Definition claim (ids newIDs : gmap Z gostring) (ref : SeriesRef) : result reject Z :=
  match Validate ref with
  | Err e => Err (RejRef e)
  | Ok _ =>
      let key := Key ref in
      let id := SeriesID ref in
      let held := match known ids id with [] => known newIDs id | h => h end in
      if negb (bool_decide (held = [])) && negb (bool_decide (held = key)) then Err RejCollision else Ok id
  end.

Section Ops.
Context {DB : Type} `{Pebble DB} `{GoMath} `{Zstd}.

Fixpoint encodePoints (id : Z) (points : list Point) : result reject (list (list Z * list Z)) :=
  match points with
  | [] => Ok []
  | p :: points =>
      match p_Sketch p with
      | None => Err RejNil
      | Some sk =>
          let sec := Z.quot (p_TimeMs p) 1000 in
          if (p_TimeMs p <? 0) || (MaxTimestamp <? sec) then Err RejTime else
          match encodePoints id points with
          | Err e => Err e
          | Ok out => Ok ((pointKey id sec, encodeValue sk) :: out)
          end
      end
  end.

Definition sets (kvs : list (list Z * list Z)) : list op := (fun kv => OpSet kv.1 kv.2) <$> kvs.

(** The loop over the entries; [cancel] says whether the context has ended before each. *)
Fixpoint append_loop (cancel : nat -> bool) (i : nat) (ids : gmap Z gostring) (entries : list Entry) (newIDs : gmap Z gostring) (batch : list op) (res : AppendResult)
  : gmap Z gostring * list op * AppendResult * bool :=
  match entries with
  | [] => (newIDs, batch, res, true)
  | e :: entries =>
      if cancel i then (newIDs, batch, res, false) else
      match claim ids newIDs (e_Series e) with
      | Err r => append_loop cancel (S i) ids entries newIDs batch (MkAppendResult (ar_Series res) (ar_Points res) (ar_Rejected res ++ [(e_Series e, r)]))
      | Ok id =>
          match encodePoints id (e_Points e) with
          | Err r => append_loop cancel (S i) ids entries newIDs batch (MkAppendResult (ar_Series res) (ar_Points res) (ar_Rejected res ++ [(e_Series e, r)]))
          | Ok kvs =>
              let key := Key (e_Series e) in
              let fresh := negb (bool_decide (known ids id = key)) && negb (bool_decide (known newIDs id = key)) in
              append_loop cancel (S i) ids entries
                (if fresh then <[id := key]> newIDs else newIDs)
                (batch ++ (if fresh then [OpSet (seriesKey id) key] else []) ++ sets kvs)
                (MkAppendResult (ar_Series res + 1) (ar_Points res + ulen kvs) (ar_Rejected res))
          end
      end
  end.

Definition no_result : AppendResult := MkAppendResult 0 0 [].
Definition StoreAppend (cancel : nat -> bool) (entries : list Entry) (s : Store DB) : Store DB * AppendResult * option store_error :=
  match entries with
  | [] => (s, no_result, None)
  | _ =>
      let '(newIDs, batch, res, done) := append_loop cancel 0 (s_ids s) entries ∅ [] no_result in
      if negb done then (s, res, Some ErrCtx) else
      let '(db, ok) := Commit batch (s_db s) in
      if negb ok then (MkStore_ db (s_retention s) (s_grace s) (s_ids s), no_result, Some ErrCommit)
      else (MkStore_ db (s_retention s) (s_grace s) (newIDs ∪ s_ids s), res, None)
  end.

Definition clampSeconds (ms : Z) : Z := if ms <? 0 then 0 else Z.min (Z.quot ms 1000) MaxTimestamp.

(** A point as a reader gets it. *)
Record RPoint := MkRPoint { rp_TimeMs : Z; rp_Sketch : Sketch }.
Fixpoint read_loop {A} (cancel : nat -> bool) (i : nat) (fn : RPoint -> A -> A * bool) (kvs : list (list Z * list Z)) (ok : bool) (acc : A) : A * option store_error :=
  match kvs with
  | [] => (acc, if ok then None else Some ErrIter)
  | (k, v) :: kvs =>
      if cancel i then (acc, Some ErrCtx) else
      if negb (ulen k =? pointKeyLen) then (acc, Some ErrKey) else
      match decodeValue v with
      | Err e => (acc, Some (ErrValue e))
      | Ok sk =>
          let '(acc, fine) := fn (MkRPoint (key_ts k * 1000) sk) acc in
          if negb fine then (acc, Some ErrFn) else read_loop cancel (S i) fn kvs ok acc
      end
  end.
Definition ReadEach {A} (cancel : nat -> bool) (ref : SeriesRef) (fromMs toMs : Z) (fn : RPoint -> A -> A * bool) (s : Store DB) (acc : A) : A * option store_error :=
  if toMs <? fromMs then (acc, None) else
  let id := SeriesID ref in
  let held := known (s_ids s) id in
  if negb (bool_decide (held = [])) && negb (bool_decide (held = Key ref)) then (acc, None) else
  let from := clampSeconds fromMs in
  let to := clampSeconds toMs in
  let upper := if to <? MaxTimestamp then pointKey id (to + 1) else seriesEnd id in
  let '(kvs, ok) := Scan (s_db s) (pointKey id from) upper in
  read_loop cancel 0 fn kvs ok acc.
Definition Read (cancel : nat -> bool) (ref : SeriesRef) (fromMs toMs : Z) (s : Store DB) : list RPoint * option store_error :=
  ReadEach cancel ref fromMs toMs (fun p out => (out ++ [p], true)) s [].

Definition isEmpty (id : Z) (db : DB) : result store_error bool :=
  let '(kvs, ok) := Scan db (pointKey id 0) (seriesEnd id) in
  match kvs with [] => if ok then Ok true else Err ErrIter | _ => Ok false end.

Fixpoint emptied_of (ids : list Z) (db : DB) : result store_error (list Z) :=
  match ids with
  | [] => Ok []
  | id :: ids =>
      match isEmpty id db with
      | Err e => Err e
      | Ok empty =>
          match emptied_of ids db with
          | Err e => Err e
          | Ok out => Ok (if empty then id :: out else out)
          end
      end
  end.
Definition sorted_ids (ids : gmap Z gostring) : list Z := merge_sort Z.le ((map_to_list ids).*1).
Definition any_cancelled (cancel : nat -> bool) (n : nat) : bool := existsb cancel (seq 0 n).

Definition Truncate (cancel : nat -> bool) (beforeMs : Z) (s : Store DB) : Store DB * result store_error Z :=
  if cancel 0%nat then (s, Err ErrCtx) else
  if beforeMs <=? 0 then (s, Ok 0) else
  let before := clampSeconds beforeMs in
  let ids := sorted_ids (s_ids s) in
  if any_cancelled (fun i => cancel (S i)) (length ids) then (s, Err ErrCtx) else
  let '(db, ok) := Commit ((fun id => OpDeleteRange (pointKey id 0) (pointKey id before)) <$> ids) (s_db s) in
  let s := MkStore_ db (s_retention s) (s_grace s) (s_ids s) in
  if negb ok then (s, Err ErrCommit) else
  match emptied_of ids db with
  | Err e => (s, Err e)
  | Ok [] => (s, Ok 0)
  | Ok emptied =>
      let '(db, ok) := Commit ((fun id => OpDelete (seriesKey id)) <$> emptied) db in
      if negb ok then (MkStore_ db (s_retention s) (s_grace s) (s_ids s), Err ErrCommit)
      else (MkStore_ db (s_retention s) (s_grace s) (foldr delete (s_ids s) emptied), Ok (ulen emptied))
  end.

(** [now] in nanoseconds since 1970. *)
Definition Sweep (cancel : nat -> bool) (now : Z) (s : Store DB) : Store DB * result store_error Z :=
  if s_retention s <? 0 then (s, Ok 0) else
  Truncate cancel ((now + int64 (- s_retention s - s_grace s)) / 1000000) s.

(** [Open] on a database that opened. *)
Fixpoint load_loop (kvs : list (list Z * list Z)) (ok : bool) (ids : gmap Z gostring) : result store_error (gmap Z gostring) :=
  match kvs with
  | [] => if ok then Ok ids else Err ErrIter
  | (k, v) :: kvs => if negb (ulen k =? seriesKeyLen) then Err ErrKey else load_loop kvs ok (<[key_id k := v]> ids)
  end.
Definition loadIDs (db : DB) : result store_error (gmap Z gostring) :=
  let '(kvs, ok) := Scan db [prefixSeries] [prefixSeries + 1] in load_loop kvs ok ∅.
Definition StoreOpen (retention grace : Z) (db : DB) : result store_error (Store DB) :=
  match loadIDs db with
  | Err e => Err e
  | Ok ids => Ok (MkStore_ db (if retention =? 0 then 15 * 24 * 3600 * 1000000000 else retention) (Z.max grace 0) ids)
  end.
End Ops.
