(* ===== verification/SketchStoreSpec.v ===== *)
(** * What the sketch store promises

    Abstractly the store is a map from series and second to a value, and a map from ids to the series
    that own them. [SketchStore] implements it on the key-value store: appends in sequence, retention, reads and reopening.
    The byte order of the keys is what makes its scans exact. *)

From Stdlib Require Import ZArith Lia Sorting.Sorted.
From stdpp Require Import base numbers list gmap sorting.
From S2P Require Import Prelude Wal WalProofs WalSafety Gofloat Gofloat64 Gostring Tsdb HeadRecord BlockFile BlockIndex LogChunk LogChunkProofs Sketch SketchCodec SketchStore.

(** * The keys of the sketch store

    Keys are fixed-width big-endian numbers behind a prefix byte, so their byte order is the order of
    series and then of time, and the bounds of each scan hold exactly the keys they are meant to. *)

(** ** Byte order of numbers *)

Fixpoint be_value (l : list Z) : Z := match l with [] => 0 | x :: l => x * 256 ^ ulen l + be_value l end.
Lemma be_bounds l : Forall is_byte l -> 0 <= be_value l < 256 ^ ulen l.
Proof.
  induction 1 as [|x l Hx _ IH]; [done|]. cbn [be_value]. unfold is_byte in Hx. replace (ulen (x :: l)) with (ulen l + 1) by (unfold ulen; cbn [length]; lia). rewrite Z.pow_add_r by (unfold ulen; lia). nia.
Qed.
Lemma strcmp_be a : forall b, Forall is_byte a -> Forall is_byte b -> length a = length b -> strcmp a b = (be_value a ?= be_value b).
Proof.
  induction a as [|x a IH]; intros [|y b] Ha Hb Hl; try done. apply Forall_cons_1 in Ha as [Hx Ha], Hb as [Hy Hb]. injection Hl as Hl. cbn [strcmp be_value]. pose proof (be_bounds a Ha) as Ba. pose proof (be_bounds b Hb) as Bb. assert (E : ulen a = ulen b) by (unfold ulen; lia). rewrite E in *. rewrite (IH b Ha Hb Hl). assert (0 < 256 ^ ulen b) by (apply Z.pow_pos_nonneg; unfold ulen; lia). destruct (Z.compare_spec x y) as [->|Hlt|Hgt]; symmetry.
  - destruct (Z.compare_spec (be_value a) (be_value b)); [apply Z.compare_eq_iff|apply Z.compare_lt_iff|apply Z.compare_gt_iff]; lia.
  - apply Z.compare_lt_iff. nia.
  - apply Z.compare_gt_iff. nia.
Qed.
Lemma strcmp_app a : forall b a' b', length a = length b -> strcmp (a ++ a') (b ++ b') = match strcmp a b with Eq => strcmp a' b' | c => c end.
Proof. induction a as [|x a IH]; intros [|y b] a' b' Hl; try done. injection Hl as Hl. cbn [app strcmp]. destruct (x ?= y); [by apply IH|done|done]. Qed.

Lemma be_put32 v : is_u32 v -> be_value (PutUint32 v) = v.
Proof.
  unfold is_u32. intros Hv. unfold PutUint32. cbn [be_value]. unfold ulen. cbn [length Z.of_nat Pos.of_succ_nat Pos.succ]. rewrite !Z.shiftr_div_pow2 by lia. unfold uint8. change (256 ^ 0) with 1. change (256 ^ 1) with 256. change (256 ^ 2) with 65536. change (256 ^ 3) with 16777216. change (2 ^ 8) with 256. change (2 ^ 16) with 65536. change (2 ^ 24) with 16777216.
  pose proof (Z.div_mod v 256 ltac:(lia)). pose proof (Z.div_mod (v / 256) 256 ltac:(lia)). pose proof (Z.div_mod (v / 256 / 256) 256 ltac:(lia)). rewrite !Z.div_div in * by lia. change (256 * 256) with 65536 in *. change (65536 * 256) with 16777216 in *. assert (v / 16777216 < 256) by (apply Z.div_lt_upper_bound; lia). assert (0 <= v / 16777216) by (apply Z.div_pos; lia). rewrite (Z.mod_small (v / 16777216)) by lia. lia.
Qed.
Lemma be_app a b : be_value (a ++ b) = be_value a * 256 ^ ulen b + be_value b.
Proof.
  induction a as [|x a IH]; [done|]. cbn [app be_value]. rewrite IH. replace (ulen (a ++ b)) with (ulen a + ulen b) by (unfold ulen; rewrite length_app; lia). rewrite Z.pow_add_r by (unfold ulen; lia). ring.
Qed.
Lemma be_put64 v : is_u64 v -> be_value (PutUint64 v) = v.
Proof.
  unfold is_u64. intros Hv. unfold PutUint64. rewrite be_app. rewrite <- (PutUint32_mod v). rewrite Z.shiftr_div_pow2 by lia. rewrite !be_put32; [|unfold is_u32; apply Z.mod_pos_bound; lia|unfold is_u32; split; [apply Z.div_pos; lia|apply Z.div_lt_upper_bound; lia]]. change (256 ^ ulen (PutUint32 (v mod 2 ^ 32))) with (2 ^ 32). pose proof (Z.div_mod v (2 ^ 32) ltac:(lia)). lia.
Qed.
Lemma put64_bytes v : Forall is_byte (PutUint64 v).
Proof. unfold PutUint64. apply Forall_app. split; apply put32_bytes. Qed.

Lemma u32_id v : is_u32 v -> uint32 v = v.
Proof. apply Z.mod_small. Qed.
Lemma cmp64 a b : is_u64 a -> is_u64 b -> strcmp (PutUint64 a) (PutUint64 b) = (a ?= b).
Proof. intros Ha Hb. rewrite strcmp_be; [|apply put64_bytes|apply put64_bytes|reflexivity]. by rewrite !be_put64. Qed.
Lemma cmp32 a b : is_u32 a -> is_u32 b -> strcmp (PutUint32 a) (PutUint32 b) = (a ?= b).
Proof. intros Ha Hb. rewrite strcmp_be; [|apply put32_bytes|apply put32_bytes|reflexivity]. by rewrite !be_put32. Qed.

Lemma cmp_points id ts id' ts' : is_u64 id -> is_u64 id' -> is_u32 ts -> is_u32 ts' -> strcmp (pointKey id ts) (pointKey id' ts') = match id ?= id' with Eq => ts ?= ts' | c => c end.
Proof.
  intros Hi Hi' Ht Ht'. unfold pointKey. cbn [strcmp]. rewrite Z.compare_refl, strcmp_app by reflexivity. rewrite (u32_id ts), (u32_id ts') by done. rewrite cmp64 by done. by rewrite cmp32 by done.
Qed.
Lemma cmp_end id ts id' : is_u64 id -> is_u64 id' -> is_u32 ts -> strcmp (pointKey id ts) (seriesEnd id') = match id ?= id' with Eq => Lt | c => c end.
Proof.
  intros Hi Hi' Ht. assert (Hm : is_u32 MaxTimestamp) by (unfold is_u32, MaxTimestamp; lia). unfold seriesEnd. rewrite <- (app_nil_r (pointKey id ts)), strcmp_app by reflexivity. rewrite cmp_points by done. destruct (id ?= id'); [|done|done]. unfold is_u32, MaxTimestamp in *. destruct (Z.compare_spec ts (2 ^ 32 - 1)); [done|done|lia].
Qed.
Lemma cmp_series id id' : is_u64 id -> is_u64 id' -> strcmp (seriesKey id) (seriesKey id') = (id ?= id').
Proof. intros Hi Hi'. unfold seriesKey. cbn [strcmp]. rewrite Z.compare_refl. by apply cmp64. Qed.

Lemma pointKey_inj id ts id' ts' : is_u64 id -> is_u64 id' -> is_u32 ts -> is_u32 ts' -> pointKey id ts = pointKey id' ts' -> id = id' /\ ts = ts'.
Proof. intros Hi Hi' Ht Ht' E. apply strcmp_eq in E. rewrite cmp_points in E by done. destruct (Z.compare_spec id id'); [|done|done]. by apply Z.compare_eq_iff in E. Qed.
Lemma seriesKey_inj id id' : is_u64 id -> is_u64 id' -> seriesKey id = seriesKey id' -> id = id'.
Proof. intros Hi Hi' E. apply strcmp_eq in E. rewrite cmp_series in E by done. by apply Z.compare_eq_iff. Qed.
Lemma series_not_point id id' ts : seriesKey id <> pointKey id' ts.
Proof. done. Qed.

(** Reading a key back. *)
Lemma length_put64 v : length (PutUint64 v) = 8%nat.
Proof. done. Qed.
Lemma key_ts_point id ts : is_u32 ts -> key_ts (pointKey id ts) = ts.
Proof. intros Ht. unfold key_ts, pointKey. rewrite u32_id by done. change (drop 9 (prefixPoint :: PutUint64 id ++ PutUint32 ts)) with (PutUint32 ts). by apply Uint32_PutUint32. Qed.
Lemma key_id_series id : is_u64 id -> key_id (seriesKey id) = id.
Proof.
  unfold is_u64. intros Hi. unfold key_id, seriesKey. change (drop 1 (prefixSeries :: PutUint64 id)) with (PutUint32 (Z.shiftr id 32) ++ PutUint32 id). change (drop 5 (prefixSeries :: PutUint64 id)) with (PutUint32 id ++ []). rewrite !Uint32_put_any. rewrite Z.shiftr_div_pow2, Z.shiftl_mul_pow2 by lia. rewrite lor_disjoint by (lia || dlia). rewrite (Z.mod_small (id / 2 ^ 32)) by dlia. dlia.
Qed.
Lemma length_point id ts : ulen (pointKey id ts) = pointKeyLen.
Proof. done. Qed.
Lemma length_series id : ulen (seriesKey id) = seriesKeyLen.
Proof. done. Qed.

(** ** The key-value store's promises *)

Abbreviation kvmap := (gmap (list Z) (list Z)).
Definition within (lo hi k : list Z) : Prop := str_le lo k /\ str_lt k hi.
#[export] Instance within_dec lo hi k : Decision (within lo hi k).
Proof. unfold within. apply _. Defined.
Definition apply_op (m : kvmap) (o : op) : kvmap :=
  match o with
  | OpSet k v => <[k := v]> m
  | OpDelete k => delete k m
  | OpDeleteRange lo hi => filter (fun kv => ~ within lo hi kv.1) m
  end.
Definition apply_ops (ops : list op) (m : kvmap) : kvmap := foldl apply_op m ops.

(** A batch is applied in order and as a whole or not at all; an iterator visits the keys within its
    bounds in byte order, and one that meets an error stops early. *)
Class PebbleLaws (DB : Type) `{Pebble DB} := {
  contents : DB -> kvmap;
  commit_ok ops db db' : Commit ops db = (db', true) -> contents db' = apply_ops ops (contents db);
  commit_err ops db db' : Commit ops db = (db', false) -> contents db' = contents db;
  scan_ok db lo hi kvs ok : Scan db lo hi = (kvs, ok) -> exists rest, (ok = true -> rest = []) /\ StronglySorted str_lt ((kvs ++ rest).*1) /\
    forall k v, (k, v) ∈ kvs ++ rest <-> contents db !! k = Some v /\ within lo hi k;
}.

(** ** The abstract store *)

Record spec := MkSpec { owner : gmap Z gostring; pts : gmap (Z * Z) (list Z) }.
Definition empty_spec : spec := MkSpec ∅ ∅.

Section Spec.
Context `{GoMath} `{Zstd}.

Fixpoint spec_values (points : list Point) : result reject (list (Z * list Z)) :=
  match points with
  | [] => Ok []
  | p :: points =>
      match p_Sketch p with
      | None => Err RejNil
      | Some sk =>
          if (p_TimeMs p <? 0) || (MaxTimestamp <? p_TimeMs p / 1000) then Err RejTime else
          match spec_values points with Err e => Err e | Ok out => Ok ((p_TimeMs p / 1000, encodeValue sk) :: out) end
      end
  end.
Definition spec_put (id : Z) (vals : list (Z * list Z)) (p : gmap (Z * Z) (list Z)) : gmap (Z * Z) (list Z) :=
  foldl (fun p x => <[(id, x.1) := x.2]> p) p vals.
(** One entry: refused, or its series owns its id and its points replace what was in their seconds. *)
Definition spec_entry (e : Entry) (A : spec) : result reject (spec * Z) :=
  match Validate (e_Series e) with
  | Err r => Err (RejRef r)
  | Ok _ =>
      let id := SeriesID (e_Series e) in
      if match owner A !! id with Some k => negb (bool_decide (k = Key (e_Series e))) | None => false end then Err RejCollision else
      match spec_values (e_Points e) with
      | Err r => Err r
      | Ok vals => Ok (MkSpec (<[id := Key (e_Series e)]> (owner A)) (spec_put id vals (pts A)), ulen vals)
      end
  end.
Fixpoint spec_append (es : list Entry) (A : spec) (res : AppendResult) : spec * AppendResult :=
  match es with
  | [] => (A, res)
  | e :: es =>
      match spec_entry e A with
      | Err r => spec_append es A (MkAppendResult (ar_Series res) (ar_Points res) (ar_Rejected res ++ [(e_Series e, r)]))
      | Ok (A', n) => spec_append es A' (MkAppendResult (ar_Series res + 1) (ar_Points res + n) (ar_Rejected res))
      end
  end.
(** Retention: what is older goes, and with it the series that have nothing left. *)
Definition has_points (p : gmap (Z * Z) (list Z)) (id : Z) : bool := existsb (fun e => e.1.1 =? id) (map_to_list p).
Definition spec_expire (before : Z) (A : spec) : spec := MkSpec (owner A) (filter (fun e => before <= e.1.2) (pts A)).
Definition spec_forget (A : spec) : spec := MkSpec (filter (fun e => has_points (pts A) e.1 = true) (owner A)) (pts A).
Definition spec_truncate (before : Z) (A : spec) : spec := spec_forget (spec_expire before A).
(** A read: the decoded values of the series' seconds within the window, in order of time. *)
Definition spec_read (id from to : Z) (A : spec) (out : list RPoint) : Prop :=
  StronglySorted (fun a b => rp_TimeMs a < rp_TimeMs b) out /\
  forall p, p ∈ out <-> exists ts v, pts A !! (id, ts) = Some v /\ from <= ts <= to /\ decodeValue v = Ok (rp_Sketch p) /\ rp_TimeMs p = ts * 1000.

(** ** The relation *)

Record refines (m : kvmap) (ids : gmap Z gostring) (A : spec) : Prop := {
  rf_owner : ids = owner A;
  rf_ids : forall id key, ids !! id = Some key -> is_u64 id /\ m !! seriesKey id = Some key /\ exists ref, key = Key ref /\ id = SeriesID ref;
  rf_series : forall id key, is_u64 id -> m !! seriesKey id = Some key -> ids !! id = Some key;
  rf_pts : forall id ts, is_u64 id -> is_u32 ts -> m !! pointKey id ts = pts A !! (id, ts);
  rf_dom : forall id ts v, pts A !! (id, ts) = Some v -> is_u64 id /\ is_u32 ts /\ is_Some (owner A !! id);
  rf_keys : forall k v, m !! k = Some v -> (exists id, is_u64 id /\ k = seriesKey id) \/ (exists id ts, is_u64 id /\ is_u32 ts /\ k = pointKey id ts);
}.

Lemma SeriesID_u64 ref : is_u64 (SeriesID ref).
Proof.
  unfold SeriesID, fnv64a. assert (Hb : is_u64 14695981039346656037) by (unfold is_u64; lia). revert Hb. generalize 14695981039346656037. induction (Key ref) as [|c l IH]; intros h Hh; [done|]. cbn [foldl]. apply IH, uint64_range.
Qed.
Lemma Key_nonempty ref : Key ref <> [].
Proof. unfold Key. by destruct (sr_Metric ref). Qed.
Lemma refines_empty : refines ∅ ∅ empty_spec.
Proof. split; intros; try done; by rewrite ?lookup_empty in *. Qed.
Lemma known_some m ids A id : refines m ids A -> (known ids id = [] <-> ids !! id = None) /\ forall key, key <> [] -> known ids id = key <-> ids !! id = Some key.
Proof.
  intros Hr. unfold known. destruct (ids !! id) as [k|] eqn:E; cbn [default from_option Datatypes.id]; [|split; [done|]; intros key Hk; split; [intros <-|]; done]. destruct (rf_ids _ _ _ Hr id k E) as (_ & _ & ref & -> & _). pose proof (Key_nonempty ref). split; [done|]. intros key _. split; congruence.
Qed.

(** ** Steps *)

Lemma refines_index m ids A ref : refines m ids A -> ids !! SeriesID ref = None -> let id := SeriesID ref in
  refines (<[seriesKey id := Key ref]> m) (<[id := Key ref]> ids) (MkSpec (<[id := Key ref]> (owner A)) (pts A)).
Proof.
  intros Hr Hnone id. pose proof (SeriesID_u64 ref) as Hu. fold id in Hnone, Hu. split; cbn [owner pts].
  - by rewrite (rf_owner _ _ _ Hr).
  - intros id' key. destruct (decide (id' = id)) as [->|Hne]; [rewrite !lookup_insert_eq; intros [= <-]; split_and!; [done|done|by exists ref]|]. rewrite lookup_insert_ne by done. intros E. destruct (rf_ids _ _ _ Hr id' key E) as (Hu' & Hm & Href). split_and!; [done| |done]. rewrite lookup_insert_ne; [done|]. intros E'. apply Hne. symmetry. by apply seriesKey_inj.
  - intros id' key Hu'. destruct (decide (id' = id)) as [->|Hne]; [by rewrite !lookup_insert_eq|]. rewrite !lookup_insert_ne; [by apply Hr|done|]. intros E'. apply Hne. symmetry. by apply seriesKey_inj.
  - intros id' ts Hu' Ht. rewrite lookup_insert_ne by done. by apply Hr.
  - intros id' ts v Hp. destruct (rf_dom _ _ _ Hr _ _ _ Hp) as (? & ? & ?). split_and!; [done|done|]. apply lookup_insert_is_Some. destruct (decide (id = id')); [by left|by right].
  - intros k v [[<- _]|[_ Hm]]%lookup_insert_Some; [left; by exists id|]. by apply (rf_keys _ _ _ Hr k v).
Qed.
Lemma refines_point m ids A id ts v : refines m ids A -> is_Some (ids !! id) -> is_u32 ts -> refines (<[pointKey id ts := v]> m) ids (MkSpec (owner A) (<[(id, ts) := v]> (pts A))).
Proof.
  intros Hr [key Hid] Ht. destruct (rf_ids _ _ _ Hr id key Hid) as (Hu & _ & _). split; cbn [owner pts].
  - apply Hr.
  - intros id' key' E. rewrite lookup_insert_ne by done. by apply Hr.
  - intros id' key' Hu'. rewrite lookup_insert_ne by done. by apply Hr.
  - intros id' ts' Hu' Ht'. destruct (decide ((id', ts') = (id, ts))) as [[= -> ->]|Hne]; [by rewrite !lookup_insert_eq|]. rewrite !lookup_insert_ne; [by apply Hr|congruence|]. intros E. apply Hne. apply pointKey_inj in E as [-> ->]; done.
  - intros id' ts' v' [[[= <- <-] _]|[_ Hp]]%lookup_insert_Some; [split_and!; [done|done|rewrite <- (rf_owner _ _ _ Hr); by exists key]|]. by apply (rf_dom _ _ _ Hr) in Hp.
  - intros k v' [[<- _]|[_ Hm]]%lookup_insert_Some; [right; by exists id, ts|]. by apply (rf_keys _ _ _ Hr k v').
Qed.
Lemma apply_ops_app a b m : apply_ops (a ++ b) m = apply_ops b (apply_ops a m).
Proof. apply foldl_app. Qed.
Lemma refines_points vals : forall m ids A id, refines m ids A -> is_Some (ids !! id) -> Forall (fun x => is_u32 x.1) vals ->
  refines (apply_ops (sets ((fun x => (pointKey id x.1, x.2)) <$> vals)) m) ids (MkSpec (owner A) (spec_put id vals (pts A))).
Proof.
  induction vals as [|[ts v] vals IH]; intros m ids A id Hr Hid Ht; [by destruct A|]. apply Forall_cons_1 in Ht as [Ht1 Ht]. cbn [fst] in Ht1. exact (IH (<[pointKey id ts := v]> m) ids (MkSpec (owner A) (<[(id, ts) := v]> (pts A))) id (refines_point m ids A id ts v Hr Hid Ht1) Hid Ht).
Qed.

(** The points of an entry, as keys and as seconds. *)
Lemma encode_values id ps : match spec_values ps with
  | Ok vals => encodePoints id ps = Ok ((fun x => (pointKey id x.1, x.2)) <$> vals) /\ Forall (fun x => is_u32 x.1) vals
  | Err r => encodePoints id ps = Err r end.
Proof.
  induction ps as [|p ps IH]; [done|]. cbn [spec_values encodePoints]. destruct (p_Sketch p) as [sk|]; [|done]. destruct (Z.ltb_spec (p_TimeMs p) 0) as [Hneg|Hpos]; [by rewrite orb_true_l|]. rewrite Z.quot_div_nonneg by lia. cbn [orb]. destruct (Z.ltb_spec MaxTimestamp (p_TimeMs p / 1000)) as [Hbig|Hok]; [done|]. destruct (spec_values ps) as [vals|r]; [|by rewrite IH]. destruct IH as [-> Hu]. split; [done|]. constructor; [|done]. unfold is_u32, MaxTimestamp in *. cbn [fst]. split; [apply Z.div_pos; lia|lia].
Qed.
End Spec.
