(* ===== verification/SketchStoreLife.v ===== *)
(** * Runs of the sketch store

    Any sequence of appends, sweeps, reads and restarts, with whatever failures the key-value store reports,
    is a run of the abstract store. *)

From Stdlib Require Import ZArith Lia Sorting.Sorted.
From stdpp Require Import base numbers list gmap sorting.
From S2P Require Import Prelude Wal Gofloat Gofloat64 Gostring Tsdb HeadRecord BlockFile LogChunk Sketch SketchBins SketchMerge SketchCodec SketchCodecProofs SketchStore SketchStoreSpec.

(** * The sketch store keeps its promise

    Every operation of [SketchStore] on the key-value store is the operation of the abstract store
    [SketchStoreSpec], errors included: a failed append changes nothing, a failed sweep removes at most expired points. *)

Section Appending.
Context `{GoMath} `{Zstd}.

Lemma spec_entry_id A id key : owner A !! id = Some key -> MkSpec (<[id := key]> (owner A)) (pts A) = A.
Proof. intros E. destruct A as [o p]. cbn in *. by rewrite insert_id. Qed.

(** What [claim] decides, in terms of the union of the two maps it looks in. *)
Lemma claim_spec m A ids newIDs ref : refines m (newIDs ∪ ids) A -> newIDs ##ₘ ids ->
  claim ids newIDs ref = match Validate ref with
    | Err e => Err (RejRef e)
    | Ok _ => if match owner A !! SeriesID ref with Some k => negb (bool_decide (k = Key ref)) | None => false end then Err RejCollision else Ok (SeriesID ref)
    end.
Proof.
  intros Hr Hd. unfold claim. destruct (Validate ref); [|done]. rewrite <- (rf_owner _ _ _ Hr). set (id := SeriesID ref). cbv zeta.
  assert (Hheld : (match known ids id with [] => known newIDs id | h => h end) = known (newIDs ∪ ids) id).
  { unfold known. destruct (newIDs !! id) as [k|] eqn:En.
    - rewrite (lookup_union_Some_l _ _ _ _ En). rewrite map_disjoint_alt in Hd. destruct (Hd id) as [?|E0]; [congruence|]. by rewrite E0.
    - rewrite lookup_union_r by done. destruct (ids !! id) as [[|? ?]|]; done. }
  rewrite Hheld. destruct (known_some m _ A id Hr) as [Hk1 Hk2]. destruct ((newIDs ∪ ids) !! id) as [k|] eqn:E.
  - assert (Hne : k <> []) by (destruct (rf_ids _ _ _ Hr id k E) as (_ & _ & r & -> & _); apply Key_nonempty). rewrite (proj2 (Hk2 k Hne) eq_refl). rewrite bool_decide_false by done. done.
  - rewrite (proj2 Hk1 eq_refl). by rewrite bool_decide_true.
Qed.

Lemma append_loop_refines cancel ids m es : forall i newIDs batch res A newIDs' batch' res',
  refines (apply_ops batch m) (newIDs ∪ ids) A -> newIDs ##ₘ ids -> append_loop cancel i ids es newIDs batch res = (newIDs', batch', res', true) ->
  refines (apply_ops batch' m) (newIDs' ∪ ids) (spec_append es A res).1 /\ res' = (spec_append es A res).2.
Proof.
  induction es as [|e es IH]; intros i newIDs batch res A newIDs' batch' res' Hr Hd; cbn [append_loop spec_append]; [intros [= <- <- <-]; done|]. destruct (cancel i); [done|]. rewrite (claim_spec _ _ _ _ _ Hr Hd). unfold spec_entry. destruct (Validate (e_Series e)) as [u|re]; [|intros E; by apply (IH _ _ _ _ _ _ _ _ Hr Hd E)]. set (id := SeriesID (e_Series e)). set (key := Key (e_Series e)). cbv zeta. destruct (match owner A !! id with Some k => _ | None => false end) eqn:Hcol; [intros E; by apply (IH _ _ _ _ _ _ _ _ Hr Hd E)|].
  pose proof (encode_values id (e_Points e)) as Henc. destruct (spec_values (e_Points e)) as [vals|r]; [|rewrite Henc; intros E; by apply (IH _ _ _ _ _ _ _ _ Hr Hd E)]. destruct Henc as [-> Hu32]. assert (Hlen : ulen ((fun x : Z * list Z => (pointKey id x.1, x.2)) <$> vals) = ulen vals) by (unfold ulen; by rewrite length_fmap). rewrite Hlen. pose proof (Key_nonempty (e_Series e)) as Hne.
  destruct (owner A !! id) as [k|] eqn:Eo.
  - apply negb_false_iff, bool_decide_eq_true in Hcol. subst k. pose proof (rf_owner _ _ _ Hr) as Ho. rewrite <- Ho in Eo. assert (Hfresh : negb (bool_decide (known ids id = key)) && negb (bool_decide (known newIDs id = key)) = false).
    { apply lookup_union_Some in Eo as [En|Ei]; [|unfold known; rewrite Ei; cbn [default from_option Datatypes.id]; by rewrite bool_decide_true|done]. unfold known. rewrite En. cbn [default from_option Datatypes.id]. rewrite (bool_decide_true (key = key)) by done. by rewrite andb_false_r. }
    rewrite Hfresh. cbn [app]. intros E. rewrite Ho in Eo. apply (IH _ _ _ _ (MkSpec (<[id := key]> (owner A)) (spec_put id vals (pts A))) _ _ _) in E; [exact E| |done]. rewrite apply_ops_app. rewrite insert_id by done. apply refines_points; [done|rewrite Ho; by exists key|done].
  - pose proof (rf_owner _ _ _ Hr) as Ho. rewrite <- Ho in Eo. apply lookup_union_None in Eo as [En Ei]. assert (Hfresh : negb (bool_decide (known ids id = key)) && negb (bool_decide (known newIDs id = key)) = true) by (unfold known; rewrite En, Ei; cbn [default from_option]; rewrite !bool_decide_false by done; done). rewrite Hfresh. intros E.
    assert (Hix : refines (apply_ops (batch ++ [OpSet (seriesKey id) key]) m) (<[id := key]> (newIDs ∪ ids)) (MkSpec (<[id := key]> (owner A)) (pts A))) by (rewrite apply_ops_app; apply refines_index; [done|by apply lookup_union_None]).
    apply (IH _ _ _ _ (MkSpec (<[id := key]> (owner A)) (spec_put id vals (pts A))) _ _ _) in E; [exact E| |by apply map_disjoint_insert_l_2]. rewrite app_assoc, apply_ops_app. rewrite insert_union_l in Hix. apply (refines_points vals _ _ _ id) in Hix; [exact Hix| |done]. rewrite <- insert_union_l, lookup_insert_eq. by exists key.
Qed.
End Appending.

(** ** Retention *)

Lemma within_point id b id' ts : is_u64 id -> is_u64 id' -> is_u32 b -> is_u32 ts -> within (pointKey id 0) (pointKey id b) (pointKey id' ts) <-> id' = id /\ ts < b.
Proof.
  intros Hi Hi' Hb Ht. assert (H0 : is_u32 0) by (unfold is_u32; lia). unfold within, str_le, str_lt. rewrite !cmp_points by done. unfold is_u32 in *. destruct (Z.compare_spec id id') as [->|Hlt|Hgt].
  - rewrite Z.compare_refl, Z.compare_lt_iff. destruct (Z.compare_spec 0 ts); naive_solver lia.
  - rewrite (proj2 (Z.compare_gt_iff id' id)) by lia. naive_solver lia.
  - naive_solver lia.
Qed.
Lemma within_all id id' ts : is_u64 id -> is_u64 id' -> is_u32 ts -> within (pointKey id 0) (seriesEnd id) (pointKey id' ts) <-> id' = id.
Proof.
  intros Hi Hi' Ht. assert (H0 : is_u32 0) by (unfold is_u32; lia). unfold within, str_le, str_lt. rewrite cmp_points, cmp_end by done. unfold is_u32 in *. destruct (Z.compare_spec id id') as [->|Hlt|Hgt].
  - rewrite Z.compare_refl. destruct (Z.compare_spec 0 ts); naive_solver lia.
  - rewrite (proj2 (Z.compare_gt_iff id' id)) by lia. naive_solver lia.
  - naive_solver lia.
Qed.
Lemma within_series lo hi id : (exists l h, lo = prefixPoint :: l /\ hi = prefixPoint :: h) -> ~ within lo hi (seriesKey id).
Proof. intros (l & h & -> & ->) [_ Hlt]. done. Qed.

Lemma lookup_delete_ranges los m k : forall v, apply_ops ((fun r : list Z * list Z => OpDeleteRange r.1 r.2) <$> los) m !! k = Some v <-> m !! k = Some v /\ forall r, r ∈ los -> ~ within r.1 r.2 k.
Proof.
  revert m. induction los as [|r los IH]; intros m v; cbn [fmap list_fmap]; [split; [intros E; split; [done|intros r Hr; by apply elem_of_nil in Hr]|by intros [? _]]|]. change (apply_ops _ m) with (apply_ops ((fun r : list Z * list Z => OpDeleteRange r.1 r.2) <$> los) (apply_op m (OpDeleteRange r.1 r.2))). rewrite IH. cbn [apply_op]. rewrite map_lookup_filter_Some. cbn [fst]. setoid_rewrite elem_of_cons. naive_solver.
Qed.
Lemma lookup_deletes (ks : list (list Z)) m k : forall v, apply_ops (OpDelete <$> ks) m !! k = Some v <-> m !! k = Some v /\ k ∉ ks.
Proof.
  revert m. induction ks as [|x ks IH]; intros m v; cbn [fmap list_fmap]; [split; [intros E; split; [done|apply not_elem_of_nil]|by intros [? _]]|]. change (apply_ops _ m) with (apply_ops (OpDelete <$> ks) (delete x m)). rewrite IH, lookup_delete_Some, elem_of_cons. naive_solver.
Qed.
Lemma lookup_foldr_delete (out : list Z) (ids : gmap Z gostring) id : forall k, foldr delete ids out !! id = Some k <-> ids !! id = Some k /\ id ∉ out.
Proof. induction out as [|x out IH]; intros k; cbn [foldr]; [rewrite elem_of_nil; tauto|]. rewrite lookup_delete_Some, IH, elem_of_cons. naive_solver. Qed.
Lemma elem_sorted_ids ids id : id ∈ sorted_ids ids <-> is_Some (ids !! id).
Proof.
  unfold sorted_ids. rewrite merge_sort_Permutation, list_elem_of_fmap. split; [intros ([i k] & -> & Hin%elem_of_map_to_list); by exists k|]. intros [k Hk]. exists (id, k). split; [done|by apply elem_of_map_to_list].
Qed.
Lemma NoDup_sorted_ids ids : NoDup (sorted_ids ids).
Proof. unfold sorted_ids. rewrite merge_sort_Permutation. apply NoDup_fst_map_to_list. Qed.
Lemma has_points_spec p id : has_points p id = true <-> exists ts v, p !! (id, ts) = Some v.
Proof.
  unfold has_points. rewrite existsb_exists. split.
  - intros ([[i ts] v] & Hin%list_elem_of_In & E%Z.eqb_eq). cbn in E. subst i. exists ts, v. by apply elem_of_map_to_list.
  - intros (ts & v & Hp). exists ((id, ts), v). split; [by apply list_elem_of_In, elem_of_map_to_list|]. cbn. apply Z.eqb_refl.
Qed.

Lemma expire_refines m ids A b : refines m ids A -> is_u32 b -> refines (apply_ops ((fun id => OpDeleteRange (pointKey id 0) (pointKey id b)) <$> sorted_ids ids) m) ids (spec_expire b A).
Proof.
  intros Hr Hb. set (los := (fun id => (pointKey id 0, pointKey id b)) <$> sorted_ids ids). assert (Hops : (fun id => OpDeleteRange (pointKey id 0) (pointKey id b)) <$> sorted_ids ids = (fun r : list Z * list Z => OpDeleteRange r.1 r.2) <$> los) by (unfold los; by rewrite <- list_fmap_compose). rewrite Hops. set (m' := apply_ops _ m). assert (Hlos : forall r, r ∈ los <-> exists id, is_Some (ids !! id) /\ r = (pointKey id 0, pointKey id b)) by (intros r; unfold los; rewrite list_elem_of_fmap; setoid_rewrite elem_sorted_ids; naive_solver).
  assert (Hseries : forall id, m' !! seriesKey id = m !! seriesKey id).
  { intros id. apply option_eq. intros v. unfold m'. rewrite lookup_delete_ranges. split; [by intros [? _]|]. intros E. split; [done|]. intros r (id' & _ & ->)%Hlos. apply within_series. cbn [fst snd]. unfold pointKey. eauto. }
  assert (Hpts : forall id ts, is_u64 id -> is_u32 ts -> m' !! pointKey id ts = filter (fun e => b <= e.1.2) (pts A) !! (id, ts)).
  { intros id ts Hi Ht. apply option_eq. intros v. unfold m'. rewrite lookup_delete_ranges, map_lookup_filter_Some, (rf_pts _ _ _ Hr) by done. cbn [fst snd]. split; intros [E Hw]; (split; [done|]).
    - destruct (rf_dom _ _ _ Hr _ _ _ E) as (_ & _ & Ho). rewrite <- (rf_owner _ _ _ Hr) in Ho. specialize (Hw (pointKey id 0, pointKey id b) (proj2 (Hlos _) (ex_intro _ id (conj Ho eq_refl)))). cbn [fst snd] in Hw. rewrite within_point in Hw by done. lia.
    - intros r (id' & [k' Hk'] & ->)%Hlos. cbn [fst snd]. destruct (rf_ids _ _ _ Hr id' k' Hk') as (Hu' & _). rewrite within_point by done. lia. }
  split; cbn [spec_expire owner pts].
  - apply Hr.
  - intros id key E. rewrite Hseries. by apply Hr.
  - intros id key Hu. rewrite Hseries. by apply Hr.
  - done.
  - intros id ts v [E _]%map_lookup_filter_Some. by apply (rf_dom _ _ _ Hr) in E.
  - intros k v [E _]%lookup_delete_ranges. by apply (rf_keys _ _ _ Hr k v).
Qed.

Lemma forget_refines m ids A out : refines m ids A -> (forall id, id ∈ out <-> is_Some (ids !! id) /\ has_points (pts A) id = false) ->
  refines (apply_ops ((fun id => OpDelete (seriesKey id)) <$> out) m) (foldr delete ids out) (spec_forget A).
Proof.
  intros Hr Hout. assert (Hops : (fun id => OpDelete (seriesKey id)) <$> out = OpDelete <$> (seriesKey <$> out)) by (by rewrite <- list_fmap_compose). rewrite Hops. set (m' := apply_ops _ m). assert (Hu : forall id, id ∈ out -> is_u64 id) by (intros id [[k Hk] _]%Hout; by apply (rf_ids _ _ _ Hr) in Hk as [? _]).
  assert (Hpk : forall id ts, m' !! pointKey id ts = m !! pointKey id ts).
  { intros id ts. apply option_eq. intros v. unfold m'. rewrite lookup_deletes. split; [by intros [? _]|]. intros E. split; [done|]. by intros (? & ? & _)%list_elem_of_fmap. }
  assert (Hsk : forall id, is_u64 id -> seriesKey id ∈ seriesKey <$> out <-> id ∈ out).
  { intros id Hi. rewrite list_elem_of_fmap. split; [|by exists id]. intros (id' & E & Hin). apply seriesKey_inj in E; [by subst|done|by apply Hu]. }
  assert (Hown : foldr delete ids out = filter (fun e => has_points (pts A) e.1 = true) (owner A)).
  { apply map_eq. intros id. apply option_eq. intros k. rewrite lookup_foldr_delete, map_lookup_filter_Some, <- (rf_owner _ _ _ Hr). cbn [fst]. split; intros [E Hx]; (split; [done|]).
    - destruct (has_points (pts A) id) eqn:Hp; [done|]. exfalso. apply Hx, Hout. split; [by exists k|done].
    - intros [_ Hp]%Hout. congruence. }
  split; cbn [spec_forget owner pts].
  - done.
  - intros id key [E Hn]%lookup_foldr_delete. destruct (rf_ids _ _ _ Hr id key E) as (Hi & Hm & Href). split_and!; [done| |done]. unfold m'. apply lookup_deletes. split; [done|]. by rewrite Hsk.
  - intros id key Hi [E Hn]%lookup_deletes. apply lookup_foldr_delete. split; [by apply Hr|]. by rewrite <- Hsk.
  - intros id ts Hi Ht. rewrite Hpk. by apply Hr.
  - intros id ts v E. destruct (rf_dom _ _ _ Hr _ _ _ E) as (Hi & Ht & [k Hk]). split_and!; [done|done|]. exists k. apply map_lookup_filter_Some. split; [done|]. apply has_points_spec. by exists ts, v.
  - intros k v [E _]%lookup_deletes. by apply (rf_keys _ _ _ Hr k v).
Qed.
Lemma size_foldr_delete (out : list Z) (ids : gmap Z gostring) : NoDup out -> (forall id, id ∈ out -> is_Some (ids !! id)) -> Z.of_nat (size (foldr delete ids out)) = Z.of_nat (size ids) - ulen out.
Proof.
  induction 1 as [|x out Hx Hnd IH]; intros Hin; [unfold ulen; cbn [foldr length]; lia|]. cbn [foldr]. destruct (Hin x ltac:(by left)) as [k Hk]. assert (Hl : foldr delete ids out !! x = Some k) by (by apply lookup_foldr_delete). rewrite map_size_delete_Some by (by exists k). specialize (IH (fun id Hid => Hin id ltac:(by right))). assert (size (foldr delete ids out) <> 0%nat) by (intros Hz%map_size_empty_iff; rewrite Hz in Hl; done). unfold ulen in *. cbn [length]. lia.
Qed.

(** ** The operations *)

Section Operations.
Context {DB : Type} `{PebbleLaws DB} `{GoMath} `{Zstd}.

Definition keeps_spec (s : Store DB) (A : spec) : Prop := refines (contents (s_db s)) (s_ids s) A.

Lemma append_refines cancel es s A s' res err : keeps_spec s A -> StoreAppend cancel es s = (s', res, err) ->
  match err with None => keeps_spec s' (spec_append es A no_result).1 /\ res = (spec_append es A no_result).2 | Some _ => keeps_spec s' A end.
Proof.
  intros Hs. unfold StoreAppend. destruct es as [|e es]; [by intros [= <- <- <-]|]. destruct (append_loop _ _ _ _ _ _ _) as [[[newIDs batch] res'] fin] eqn:El. destruct fin; cbn [negb]; [|by intros [= <- <- <-]]. destruct (Commit batch (s_db s)) as [db ok] eqn:Ec. destruct ok; cbn [negb].
  - assert (Hr0 : refines (apply_ops [] (contents (s_db s))) (∅ ∪ s_ids s) A) by (rewrite map_empty_union; exact Hs). destruct (append_loop_refines _ _ _ _ _ _ _ _ _ _ _ _ Hr0 (map_disjoint_empty_l _) El) as [Hr Hres]. intros [= <- <- <-]. split; [|done]. unfold keeps_spec. cbn [s_db s_ids]. by rewrite (commit_ok _ _ _ Ec).
  - intros [= <- <- <-]. unfold keeps_spec. cbn [s_db s_ids]. by rewrite (commit_err _ _ _ Ec).
Qed.

Lemma isEmpty_spec db ids A id e : refines (contents db) ids A -> is_u64 id -> isEmpty id db = Ok e -> e = negb (has_points (pts A) id).
Proof.
  intros Hr Hi. unfold isEmpty. destruct (Scan db _ _) as [kvs ok] eqn:Es. destruct (scan_ok _ _ _ _ _ Es) as (rest & Hrest & _ & Hin). destruct kvs as [|[k v] kvs].
  - destruct ok; [|done]. rewrite Hrest in Hin by done. intros [= <-]. symmetry. apply negb_true_iff, not_true_iff_false. intros (ts & v & Hp)%has_points_spec. destruct (rf_dom _ _ _ Hr _ _ _ Hp) as (_ & Ht & _). assert (Hx : (pointKey id ts, v) ∈ ([] ++ [] : list (list Z * list Z))) by (apply Hin; rewrite (rf_pts _ _ _ Hr) by done; split; [done|by apply within_all]). by apply elem_of_nil in Hx.
  - intros [= <-]. symmetry. apply negb_false_iff, has_points_spec. destruct (proj1 (Hin k v) ltac:(by left)) as [Hm Hw]. destruct (rf_keys _ _ _ Hr k v Hm) as [(id' & _ & ->)|(id' & ts & Hi' & Ht & ->)]; [exfalso; apply (within_series (pointKey id 0) (seriesEnd id) id'); [unfold pointKey, seriesEnd, pointKey; cbn [app]; eauto|done]|]. apply within_all in Hw as ->; [|done|done|done]. exists ts, v. by rewrite <- (rf_pts _ _ _ Hr).
Qed.
Lemma emptied_spec db ids A l out : refines (contents db) ids A -> Forall is_u64 l -> emptied_of l db = Ok out -> out = filter (fun id => has_points (pts A) id = false) l.
Proof.
  intros Hr Hl. revert out. induction Hl as [|id l Hi _ IH]; intros out; cbn [emptied_of]; [by intros [= <-]|]. destruct (isEmpty id db) as [e|] eqn:Ee; [|done]. pose proof (isEmpty_spec _ _ _ _ _ Hr Hi Ee) as ->. destruct (emptied_of l db) as [out'|]; [|done]. intros [= <-]. rewrite (IH out' eq_refl), filter_cons. destruct (has_points (pts A) id); cbn [negb]; [by rewrite decide_False by done|by rewrite decide_True by done].
Qed.
Lemma clampSeconds_u32 ms : is_u32 (clampSeconds ms).
Proof. unfold clampSeconds, is_u32, MaxTimestamp. destruct (Z.ltb_spec ms 0); [lia|]. rewrite Z.quot_div_nonneg by lia. assert (0 <= ms / 1000) by (apply Z.div_pos; lia). lia. Qed.

(** A sweep that fails has removed nothing but expired points. *)
Definition truncated (beforeMs : Z) (A A' : spec) (r : result store_error Z) : Prop :=
  match r with
  | Err _ => A' = A \/ A' = spec_expire (clampSeconds beforeMs) A
  | Ok n => if beforeMs <=? 0 then A' = A /\ n = 0 else A' = spec_truncate (clampSeconds beforeMs) A /\ n = Z.of_nat (size (owner A)) - Z.of_nat (size (owner A'))
  end.
Lemma truncate_refines cancel beforeMs s A s' r : keeps_spec s A -> Truncate cancel beforeMs s = (s', r) -> exists A', truncated beforeMs A A' r /\ keeps_spec s' A'.
Proof.
  intros Hs. unfold Truncate. destruct (cancel 0%nat); [intros [= <- <-]; exists A; split; [by left|done]|]. destruct (beforeMs <=? 0) eqn:Eb; [intros [= <- <-]; exists A; unfold truncated; by rewrite Eb|]. destruct (any_cancelled _ _); [intros [= <- <-]; exists A; split; [by left|done]|]. destruct (Commit _ (s_db s)) as [db ok] eqn:Ec. destruct ok; cbn [negb]; [|intros [= <- <-]; exists A; split; [by left|]; unfold keeps_spec; cbn [s_db s_ids]; by rewrite (commit_err _ _ _ Ec)].
  set (b := clampSeconds beforeMs). pose proof (expire_refines _ _ _ b Hs (clampSeconds_u32 beforeMs)) as Hx. rewrite <- (commit_ok _ _ _ Ec) in Hx. assert (Hu : Forall is_u64 (sorted_ids (s_ids s))) by (apply List.Forall_forall; intros id Hid%list_elem_of_In; apply elem_sorted_ids in Hid as [k Hk]; by apply (rf_ids _ _ _ Hs) in Hk as [? _]).
  destruct (emptied_of _ db) as [out|e] eqn:Ee; [|intros [= <- <-]; exists (spec_expire b A); split; [by right|exact Hx]]. pose proof (emptied_spec _ _ _ _ _ Hx Hu Ee) as Hout. assert (Hout' : forall id, id ∈ out <-> is_Some (s_ids s !! id) /\ has_points (pts (spec_expire b A)) id = false) by (intros id; rewrite Hout, list_elem_of_filter, elem_sorted_ids; tauto).
  pose proof (forget_refines _ _ _ _ Hx Hout') as Hf. assert (Hsize : Z.of_nat (size (owner (spec_truncate b A))) = Z.of_nat (size (owner A)) - ulen out).
  { change (owner (spec_truncate b A)) with (owner (spec_forget (spec_expire b A))). rewrite <- (rf_owner _ _ _ Hf), <- (rf_owner _ _ _ Hs). apply size_foldr_delete; [rewrite Hout; apply NoDup_filter, NoDup_sorted_ids|by intros id [? _]%Hout']. }
  destruct out as [|o out]; [intros [= <- <-]; exists (spec_truncate b A); split; [unfold truncated; rewrite Eb; split; [done|unfold ulen in Hsize; cbn [length] in Hsize; lia]|exact Hf]|]. cbn [s_db s_ids s_retention s_grace]. destruct (Commit _ db) as [db2 ok2] eqn:Ec2. destruct ok2; cbn [negb]; intros [= <- <-].
  - exists (spec_truncate b A). split; [unfold truncated; rewrite Eb; split; [done|lia]|]. unfold keeps_spec. cbn [s_db s_ids]. rewrite (commit_ok _ _ _ Ec2). exact Hf.
  - exists (spec_expire b A). split; [by right|]. unfold keeps_spec. cbn [s_db s_ids]. rewrite (commit_err _ _ _ Ec2). exact Hx.
Qed.
End Operations.

(** * Reading and reopening the sketch store

    A read visits the seconds of its window in order; a process that reopens the store finds the series it had. The
    runs of the store, and what holds in all of them. *)

Lemma Forall2_in_r {A B} (P : A -> B -> Prop) l k y : Forall2 P l k -> y ∈ k -> exists x, x ∈ l /\ P x y.
Proof. induction 1 as [|a b l k Hab _ IH]; [by intros ?%elem_of_nil|]. intros [->|Hy]%elem_of_cons; [exists a; split; [by left|done]|]. destruct (IH Hy) as (x & Hx & ?). exists x. split; [by right|done]. Qed.
Lemma Forall2_in_l {A B} (P : A -> B -> Prop) l k x : Forall2 P l k -> x ∈ l -> exists y, y ∈ k /\ P x y.
Proof. intros Hf Hx. apply (Forall2_in_r (fun y x => P x y) k l x); [by apply Forall2_flip|done]. Qed.

Section Reading.
Context {DB : Type} `{PebbleLaws DB} `{GoMath} `{Zstd}.

Definition collect (p : RPoint) (out : list RPoint) : list RPoint * bool := (out ++ [p], true).
Definition read_as (kv : list Z * list Z) (p : RPoint) : Prop := decodeValue kv.2 = Ok (rp_Sketch p) /\ rp_TimeMs p = key_ts kv.1 * 1000.
Lemma read_loop_collect cancel kvs ok : forall i acc out, read_loop cancel i collect kvs ok acc = (out, None) -> ok = true /\ exists ps, out = acc ++ ps /\ Forall2 read_as kvs ps.
Proof.
  induction kvs as [|[k v] kvs IH]; intros i acc out; cbn [read_loop]; [destruct ok; [|done]; intros [= <-]; split; [done|]; exists []; by rewrite app_nil_r|]. destruct (cancel i); [done|]. destruct (negb _); [done|]. destruct (decodeValue v) as [sk|] eqn:Ed; [|done]. unfold collect at 1. cbn [negb]. intros E. destruct (IH _ _ _ E) as (Hok & ps & -> & Hf). split; [done|]. exists (MkRPoint (key_ts k * 1000) sk :: ps). rewrite <- app_assoc. split; [done|]. by constructor.
Qed.
(** Reading succeeds when nothing cancels it and every value decodes. *)
Lemma read_loop_ok kvs : forall i acc, (forall k v, (k, v) ∈ kvs -> ulen k = pointKeyLen /\ exists sk, decodeValue v = Ok sk) -> exists out, read_loop (fun _ => false) i collect kvs true acc = (out, None).
Proof.
  induction kvs as [|[k v] kvs IH]; intros i acc Hall; cbn [read_loop]; [by exists acc|]. destruct (Hall k v ltac:(by left)) as [Hlen [sk Hd]]. rewrite Hlen. cbn [negb]. change (pointKeyLen =? pointKeyLen) with true. cbn [negb]. rewrite Hd. unfold collect at 1. cbn [negb]. apply IH. intros k' v' Hin. apply Hall. by right.
Qed.

Lemma upper_bound id from to id' ts : is_u64 id -> is_u64 id' -> is_u32 from -> is_u32 to -> is_u32 ts ->
  within (pointKey id from) (if to <? MaxTimestamp then pointKey id (to + 1) else seriesEnd id) (pointKey id' ts) <-> id' = id /\ from <= ts <= to.
Proof.
  intros Hi Hi' Hf Ht Hts. unfold within, str_le, str_lt. rewrite cmp_points by done. assert (Hu : strcmp (pointKey id' ts) (if to <? MaxTimestamp then pointKey id (to + 1) else seriesEnd id) = match id' ?= id with Eq => if ts <=? to then Lt else strcmp (pointKey id' ts) (pointKey id (to + 1)) | c => c end).
  { destruct (Z.ltb_spec to MaxTimestamp).
    - assert (Ht1 : is_u32 (to + 1)) by (unfold is_u32, MaxTimestamp in *; lia). rewrite cmp_points by assumption. destruct (id' ?= id) eqn:E; [|done|done]. destruct (Z.leb_spec ts to); [apply Z.compare_lt_iff; lia|done].
    - rewrite cmp_end by done. destruct (id' ?= id); [|done|done]. by rewrite (proj2 (Z.leb_le _ _)) by (unfold is_u32, MaxTimestamp in *; lia). }
  rewrite Hu. destruct (Z.compare_spec id id') as [->|Hlt|Hgt].
  - rewrite Z.compare_refl. destruct (Z.leb_spec ts to).
    + clear Hu. split; [intros [Hc _]|intros [_ Hc]; split; [|done]]; destruct (Z.compare_spec from ts); (done || lia).
    + split; [|lia]. intros [_ Hx]. exfalso. destruct (Z.ltb_spec to MaxTimestamp); [|unfold is_u32, MaxTimestamp in *; lia]. assert (Ht1 : is_u32 (to + 1)) by (unfold is_u32, MaxTimestamp in *; lia). rewrite cmp_points, Z.compare_refl in Hx by assumption. apply (proj1 (Z.compare_lt_iff _ _)) in Hx. lia.
  - rewrite (proj2 (Z.compare_gt_iff id' id)) by lia. split; [by intros [_ ?]|lia].
  - split; [by intros [? _]|lia].
Qed.
Lemma not_series_upper id from to id' : ~ within (pointKey id from) (if to <? MaxTimestamp then pointKey id (to + 1) else seriesEnd id) (seriesKey id').
Proof. apply within_series. destruct (to <? MaxTimestamp); unfold seriesEnd, pointKey; cbn [app]; eauto. Qed.

(** What the keys of a read are. *)
Lemma scan_window s A id from to kvs : keeps_spec s A -> is_u64 id -> is_u32 from -> is_u32 to ->
  Scan (s_db s) (pointKey id from) (if to <? MaxTimestamp then pointKey id (to + 1) else seriesEnd id) = (kvs, true) ->
  StronglySorted (fun a b => key_ts a.1 < key_ts b.1) kvs /\ (forall k v, (k, v) ∈ kvs <-> exists ts, is_u32 ts /\ k = pointKey id ts /\ pts A !! (id, ts) = Some v /\ from <= ts <= to).
Proof.
  intros Hs Hi Hf Ht Es. destruct (scan_ok _ _ _ _ _ Es) as (rest & Hrest & Hsort & Hin). rewrite (Hrest eq_refl), app_nil_r in *. assert (Hmem : forall k v, (k, v) ∈ kvs <-> exists ts, is_u32 ts /\ k = pointKey id ts /\ pts A !! (id, ts) = Some v /\ from <= ts <= to).
  { intros k v. rewrite Hin. split.
    - intros [Hm Hw]. destruct (rf_keys _ _ _ Hs k v Hm) as [(id' & _ & ->)|(id' & ts & Hi' & Hts & ->)]; [by apply not_series_upper in Hw|]. apply upper_bound in Hw as [-> Hr]; try done. exists ts. split_and!; try done; try lia. by rewrite <- (rf_pts _ _ _ Hs).
    - intros (ts & Hts & -> & Hp & Hr). split; [by rewrite (rf_pts _ _ _ Hs)|]. by apply upper_bound. }
  split; [|done]. clear Hin Es. assert (Hk : forall x, x ∈ kvs -> exists ts, is_u32 ts /\ x.1 = pointKey id ts) by (intros [k v] Hx; apply Hmem in Hx as (ts & Hts & -> & _); by exists ts). clear Hmem Hrest. induction kvs as [|x kvs IH]; [constructor|]. cbn [fmap list_fmap] in Hsort. apply StronglySorted_inv in Hsort as [Hsort Hall]. constructor; [apply IH; [done|intros y Hy; apply Hk; by right]|]. rewrite List.Forall_forall in *. intros y Hy. specialize (Hall y.1 (in_map fst _ _ Hy)). destruct (Hk x ltac:(by left)) as (tx & Htx & Ex). destruct (Hk y ltac:(right; by apply list_elem_of_In)) as (ty & Hty & Ey). rewrite Ex, Ey in *. unfold str_lt in Hall. rewrite cmp_points, Z.compare_refl in Hall by done. rewrite !key_ts_point by done. by apply Z.compare_lt_iff.
Qed.

(** A read that ends without an error. *)
Definition read_result (ref : SeriesRef) (fromMs toMs : Z) (A : spec) (out : list RPoint) : Prop :=
  if (toMs <? fromMs) || match owner A !! SeriesID ref with Some k => negb (bool_decide (k = Key ref)) | None => false end then out = []
  else spec_read (SeriesID ref) (clampSeconds fromMs) (clampSeconds toMs) A out.
Lemma foreign_held s A ref : keeps_spec s A -> negb (bool_decide (known (s_ids s) (SeriesID ref) = [])) && negb (bool_decide (known (s_ids s) (SeriesID ref) = Key ref)) = match owner A !! SeriesID ref with Some k => negb (bool_decide (k = Key ref)) | None => false end.
Proof.
  intros Hs. rewrite <- (rf_owner _ _ _ Hs). destruct (known_some _ _ _ (SeriesID ref) Hs) as [Hk1 Hk2]. destruct (s_ids s !! SeriesID ref) as [k|] eqn:E.
  - assert (Hne : k <> []) by (destruct (rf_ids _ _ _ Hs _ k E) as (_ & _ & r & -> & _); apply Key_nonempty). rewrite (proj2 (Hk2 k Hne) eq_refl). by rewrite bool_decide_false.
  - rewrite (proj2 Hk1 eq_refl). by rewrite bool_decide_true.
Qed.
Lemma read_refines cancel ref fromMs toMs s A out : keeps_spec s A -> Read cancel ref fromMs toMs s = (out, None) -> read_result ref fromMs toMs A out.
Proof.
  intros Hs. unfold Read, ReadEach, read_result. fold collect. rewrite (foreign_held s A ref Hs). destruct (toMs <? fromMs); [by intros [= <-]|]. cbn [orb]. destruct (match owner A !! SeriesID ref with Some k => _ | None => false end); [by intros [= <-]|]. destruct (Scan _ _ _) as [kvs ok] eqn:Es. intros E. destruct (read_loop_collect _ _ _ _ _ _ E) as (-> & ps & -> & Hf). cbn [app]. destruct (scan_window s A _ _ _ _ Hs (SeriesID_u64 ref) (clampSeconds_u32 fromMs) (clampSeconds_u32 toMs) Es) as [Hsort Hmem]. split.
  - clear -Hf Hsort. induction Hf as [|kv p kvs ps Hp Hf IH]; [constructor|]. apply StronglySorted_inv in Hsort as [Hsort Hall]. constructor; [by apply IH|]. rewrite List.Forall_forall in *. intros p' Hp'%list_elem_of_In. apply (Forall2_in_r _ _ _ _ Hf) in Hp' as (kv' & Hkv' & Hr'). specialize (Hall kv' (proj1 (list_elem_of_In _ _) Hkv')). destruct Hp as [_ ->], Hr' as [_ ->]. lia.
  - intros p. split.
    + intros Hp. apply (Forall2_in_r _ _ _ _ Hf) in Hp as ([k v] & Hkv & Hd & Ht). apply Hmem in Hkv as (ts & Hts & -> & Hp & Hr). cbn [fst snd] in *. exists ts, v. split_and!; try done; try lia. by rewrite Ht, key_ts_point.
    + intros (ts & v & Hp & Hr & Hd & Ht). destruct (rf_dom _ _ _ Hs _ _ _ Hp) as (_ & Hts & _). assert (Hkv : (pointKey (SeriesID ref) ts, v) ∈ kvs) by (apply Hmem; by exists ts). apply (Forall2_in_l _ _ _ _ Hf) in Hkv as (p' & Hp' & Hd' & Ht'). cbn [fst snd] in *. rewrite key_ts_point in Ht' by done. destruct p as [t sk], p' as [t' sk']. cbn in *. congruence.
Qed.
End Reading.

Section Life.
Context {DB : Type} `{PebbleLaws DB} `{GoMath} `{Zstd}.

(** ** Reopening *)

Lemma load_loop_lookup kvs : forall ids r, NoDup ((fun kv : list Z * list Z => key_id kv.1) <$> kvs) -> load_loop kvs true ids = Ok r ->
  forall id v, r !! id = Some v <-> (exists k, (k, v) ∈ kvs /\ key_id k = id) \/ (ids !! id = Some v /\ forall k w, (k, w) ∈ kvs -> key_id k <> id).
Proof.
  induction kvs as [|[k v] kvs IH]; intros ids r Hnd; cbn [load_loop].
  - intros [= <-] id v. split; [intros E; right; split; [done|by intros k w ?%elem_of_nil]|]. intros [(k & Hk%elem_of_nil & _)|[E _]]; done.
  - destruct (negb _); [done|]. cbn [fmap list_fmap fst] in Hnd. apply NoDup_cons in Hnd as [Hn Hnd]. intros E id w. rewrite (IH _ _ Hnd E). assert (Hno : forall k' w', (k', w') ∈ kvs -> key_id k' <> key_id k) by (intros k' w' Hin Heq; apply Hn; rewrite <- Heq; apply list_elem_of_fmap; by exists (k', w')). split.
    + intros [(k' & Hin & Ek)|[[[<- <-]|[Hne Ei]]%lookup_insert_Some Hk]]; [left; exists k'; split; [by right|done]|left; exists k; split; [by left|done]|right; split; [done|]]. intros k' w' [[= -> ->]|Hin]%elem_of_cons; [done|by eapply Hk].
    + intros [(k' & [[= -> ->]|Hin]%elem_of_cons & Ek)|[Ei Hk]].
      * right. split; [apply lookup_insert_Some; by left|]. rewrite <- Ek. exact Hno.
      * left. by exists k'.
      * right. split; [|intros k' w' Hin; eapply Hk; by right]. apply lookup_insert_Some. right. split; [eapply Hk; by left|done].
Qed.
Lemma sorted_NoDup_ids (kvs : list (list Z * list Z)) : StronglySorted str_lt (kvs.*1) -> (forall k v, (k, v) ∈ kvs -> exists id, is_u64 id /\ k = seriesKey id) -> NoDup ((fun kv : list Z * list Z => key_id kv.1) <$> kvs).
Proof.
  induction kvs as [|[k v] kvs IH]; intros Hs Hk; [constructor|]. cbn [fmap list_fmap fst] in *. apply StronglySorted_inv in Hs as [Hs Hall]. constructor; [|apply IH; [done|intros k' v' Hin; eapply Hk; by right]]. intros ([k' v'] & E & Hin)%list_elem_of_fmap. cbn [fst] in E. destruct (Hk k v ltac:(by left)) as (id & Hi & ->), (Hk k' v' ltac:(by right)) as (id' & Hi' & ->). rewrite !key_id_series in E by done. subst id'. rewrite List.Forall_forall in Hall. specialize (Hall (seriesKey id) (proj1 (list_elem_of_In _ _) (proj2 (list_elem_of_fmap _ _ _) (ex_intro _ (_, _) (conj eq_refl Hin))))). by apply (irreflexivity str_lt) in Hall.
Qed.
Lemma reopen_refines r g db ids A s' : refines (contents db) ids A -> StoreOpen r g db = Ok s' -> keeps_spec s' A.
Proof.
  intros Hr. unfold StoreOpen, loadIDs. destruct (Scan db _ _) as [kvs ok] eqn:Es. destruct (load_loop kvs ok ∅) as [ids'|] eqn:El; [|done]. intros [= <-]. assert (ok = true) as -> by (clear -El; revert El; generalize (∅ : gmap Z gostring); induction kvs as [|[k v] kvs IH]; intros ids0; cbn [load_loop]; [by destruct ok|]; destruct (negb _); [done|apply IH]). destruct (scan_ok _ _ _ _ _ Es) as (rest & Hrest & Hsort & Hin). rewrite (Hrest eq_refl), app_nil_r in *.
  assert (Hmem : forall k v, (k, v) ∈ kvs <-> exists id, is_u64 id /\ k = seriesKey id /\ ids !! id = Some v).
  { intros k v. rewrite Hin. split.
    - intros [Hm [Hlo _]]. destruct (rf_keys _ _ _ Hr k v Hm) as [(id & Hi & ->)|(id & ts & _ & _ & ->)]; [exists id; split_and!; [done|done|by apply Hr]|done].
    - intros (id & Hi & -> & E). split; [by apply (rf_ids _ _ _ Hr) in E as (_ & ? & _)|done]. }
  assert (Hids : ids' = ids).
  { apply map_eq. intros id. apply option_eq. intros v. rewrite (load_loop_lookup kvs ∅ ids'); [|apply sorted_NoDup_ids; [done|]; intros k v' (id' & Hi & -> & _)%Hmem; by exists id'|done]. split.
    - intros [(k & (id' & Hi & -> & E)%Hmem & Ek)|[E _]]; [|by rewrite lookup_empty in E]. rewrite key_id_series in Ek by done. by subst id'.
    - intros E. left. destruct (rf_ids _ _ _ Hr id v E) as (Hi & _). exists (seriesKey id). split; [apply Hmem; by exists id|by apply key_id_series]. }
  unfold keeps_spec. cbn [s_db s_ids]. by rewrite Hids.
Qed.

(** ** Runs *)

Inductive event :=
  | EvAppend (es : list Entry) (res : AppendResult) (err : option store_error)
  | EvTruncate (beforeMs : Z) (r : result store_error Z)
  | EvRead (ref : SeriesRef) (fromMs toMs : Z) (out : list RPoint)
  | EvReopen.
Inductive step : Store DB -> event -> Store DB -> Prop :=
  | step_append cancel es s s' res err : StoreAppend cancel es s = (s', res, err) -> step s (EvAppend es res err) s'
  | step_truncate cancel b s s' r : Truncate cancel b s = (s', r) -> step s (EvTruncate b r) s'
  | step_sweep cancel now s s' r : Sweep cancel now s = (s', r) -> step s (EvTruncate (if s_retention s <? 0 then 0 else (now + int64 (- s_retention s - s_grace s)) / 1000000) r) s'
  | step_read cancel ref a b s out : Read cancel ref a b s = (out, None) -> step s (EvRead ref a b out) s
  | step_reopen retention grace s s' : StoreOpen retention grace (s_db s) = Ok s' -> step s EvReopen s'.
Inductive run : Store DB -> list event -> Store DB -> Prop :=
  | run_nil s : run s [] s
  | run_cons s e s1 evs s' : step s e s1 -> run s1 evs s' -> run s (e :: evs) s'.

Inductive spec_step : spec -> event -> spec -> Prop :=
  | sp_append es A res : res = (spec_append es A no_result).2 -> spec_step A (EvAppend es res None) (spec_append es A no_result).1
  | sp_append_failed es A res e : spec_step A (EvAppend es res (Some e)) A
  | sp_truncate b A A' r : truncated b A A' r -> spec_step A (EvTruncate b r) A'
  | sp_read ref a b A out : read_result ref a b A out -> spec_step A (EvRead ref a b out) A
  | sp_reopen A : spec_step A EvReopen A.
Inductive spec_run : spec -> list event -> spec -> Prop :=
  | spec_nil A : spec_run A [] A
  | spec_cons A e A1 evs A' : spec_step A e A1 -> spec_run A1 evs A' -> spec_run A (e :: evs) A'.

Lemma step_refines s e s' A : step s e s' -> keeps_spec s A -> exists A', spec_step A e A' /\ keeps_spec s' A'.
Proof.
  intros [cancel es s1 s2 res err E|cancel b s1 s2 r E|cancel now s1 s2 r E|cancel ref a b s1 out E|rt g s1 s2 E] Hs.
  - pose proof (append_refines _ _ _ _ _ _ _ Hs E) as Ha. destruct err; [exists A; split; [constructor|done]|]. destruct Ha as [Ha Hres]. eexists. split; [by constructor|done].
  - destruct (truncate_refines _ _ _ _ _ _ Hs E) as (A' & Ht & Hs'). exists A'. split; [by constructor|done].
  - unfold Sweep in E. destruct (s_retention s1 <? 0); [injection E as <- <-; exists A; split; [by constructor|done]|]. destruct (truncate_refines _ _ _ _ _ _ Hs E) as (A' & Ht & Hs'). exists A'. split; [by constructor|done].
  - exists A. split; [|done]. constructor. by eapply read_refines.
  - exists A. split; [constructor|]. by eapply reopen_refines.
Qed.
Lemma run_refines s evs s' : run s evs s' -> forall A, keeps_spec s A -> exists A', spec_run A evs A' /\ keeps_spec s' A'.
Proof.
  induction 1 as [s|s e s1 evs s' Hstep _ IH]; intros A Hs; [exists A; split; [constructor|done]|]. destruct (step_refines _ _ _ _ Hstep Hs) as (A1 & Hsp & Hs1). destruct (IH A1 Hs1) as (A' & Hrun & Hs'). exists A'. split; [by econstructor|done].
Qed.
Lemma open_empty retention grace db s : contents db = ∅ -> StoreOpen retention grace db = Ok s -> keeps_spec s empty_spec.
Proof. intros Hc Ho. apply (reopen_refines retention grace db ∅ empty_spec); [rewrite Hc; apply refines_empty|done]. Qed.

(** C16: The sketch store implements the map it promises: any run of appends, sweeps, reads and restarts over the
    key-value store, with any of its failures, has the same results as the run of the abstract store, in which an
    append is applied entry by entry or not at all, a sweep removes what is older than its cutoff and the
    series left with nothing, and a read returns the decoded seconds of its window in order. *)
Theorem sketch_store_refines retention grace db s0 evs s : contents db = ∅ -> StoreOpen retention grace db = Ok s0 -> run s0 evs s ->
  exists A, spec_run empty_spec evs A /\ keeps_spec s A.
Proof. intros Hc Ho Hrun. eapply run_refines; [done|]. by eapply open_empty. Qed.

(** C38: No point is ever out of retention's reach: in every run a stored point belongs to a series in the index whose
    key hashes to the point's id, and a sweep with a cutoff past the point removes it. *)
Theorem no_orphan_points retention grace db s0 evs s id ts v : contents db = ∅ -> StoreOpen retention grace db = Ok s0 -> run s0 evs s ->
  is_u64 id -> is_u32 ts -> contents (s_db s) !! pointKey id ts = Some v ->
  (exists ref, s_ids s !! id = Some (Key ref) /\ SeriesID ref = id /\ contents (s_db s) !! seriesKey id = Some (Key ref)) /\
  forall cancel beforeMs s' n, 0 < beforeMs -> ts < clampSeconds beforeMs -> Truncate cancel beforeMs s = (s', Ok n) -> contents (s_db s') !! pointKey id ts = None.
Proof.
  intros Hc Ho Hrun Hi Hts Hp. destruct (run_refines _ _ _ Hrun _ (open_empty _ _ _ _ Hc Ho)) as (A & _ & Hs). pose proof Hp as Hp'. rewrite (rf_pts _ _ _ Hs) in Hp' by done. split.
  - destruct (rf_dom _ _ _ Hs _ _ _ Hp') as (_ & _ & [k Hk]). rewrite <- (rf_owner _ _ _ Hs) in Hk. destruct (rf_ids _ _ _ Hs id k Hk) as (_ & Hm & ref & -> & ->). by exists ref.
  - intros cancel b s' n Hb Hlt E. destruct (truncate_refines _ _ _ _ _ _ Hs E) as (A' & Ht & Hs'). unfold truncated in Ht. rewrite (proj2 (Z.leb_gt b 0)) in Ht by lia. destruct Ht as [-> _]. rewrite (rf_pts _ _ _ Hs') by done. cbn [spec_truncate spec_forget spec_expire pts]. apply map_lookup_filter_None. right. intros w Hw. cbn [fst snd]. lia.
Qed.

(** ** Appending and reading back *)

Lemma accepted_entry e A : ar_Rejected (spec_append [e] A no_result).2 = [] -> exists A' n, spec_entry e A = Ok (A', n) /\ (spec_append [e] A no_result).1 = A'.
Proof. cbn [spec_append]. destruct (spec_entry e A) as [[A' n]|r]; [intros _; by exists A', n|done]. Qed.
Lemma point_second ref t sk A A' n : spec_entry (MkEntry ref [MkPoint t (Some sk)]) A = Ok (A', n) ->
  0 <= t /\ clampSeconds t = t / 1000 /\ is_u32 (t / 1000) /\ owner A' !! SeriesID ref = Some (Key ref) /\ pts A' !! (SeriesID ref, t / 1000) = Some (encodeValue sk).
Proof.
  unfold spec_entry. cbn [e_Series e_Points spec_values p_Sketch p_TimeMs]. destruct (Validate ref); [|done]. destruct (match owner A !! _ with Some k => _ | None => false end); [done|]. destruct (Z.ltb_spec t 0) as [Hneg|Hpos]; [done|]. cbn [orb]. destruct (Z.ltb_spec MaxTimestamp (t / 1000)) as [Hbig|Hok]; [done|]. intros [= <- <-]. assert (0 <= t / 1000) by (apply Z.div_pos; lia). cbn [owner pts spec_put foldl fst snd]. rewrite !lookup_insert_eq. split_and!; try done.
  - unfold clampSeconds. rewrite (proj2 (Z.ltb_ge _ _)) by lia. rewrite Z.quot_div_nonneg by lia. lia.
  - unfold is_u32, MaxTimestamp in *. lia.
Qed.

(** A sketch that was appended is read back: after any run, when an append of one sketch succeeds and rejects
    nothing, reading that series at that time without cancellation or iterator error gives exactly one
    point, at the start of its second, with the wire form of the sketch appended. *)
Theorem append_then_read `{!SketchZstd} retention grace db s0 evs s cancel ref t sk s' res : contents db = ∅ -> StoreOpen retention grace db = Ok s0 -> run s0 evs s ->
  wire_ok (ToWire sk) -> wire_u64 (ToWire sk) -> StoreAppend cancel [MkEntry ref [MkPoint t (Some sk)]] s = (s', res, None) -> ar_Rejected res = [] ->
  (forall lo hi, (Scan (s_db s') lo hi).2 = true) ->
  exists sk', Read (fun _ => false) ref t t s' = ([MkRPoint (t / 1000 * 1000) sk'], None) /\ ToWire sk' = ToWire sk.
Proof.
  intros Hc Ho Hrun Hw Hu Ea Hrej Hscan. destruct (run_refines _ _ _ Hrun _ (open_empty _ _ _ _ Hc Ho)) as (A & _ & Hs). destruct (append_refines _ _ _ _ _ _ _ Hs Ea) as [Hs' Hres]. rewrite Hres in Hrej. destruct (accepted_entry _ _ Hrej) as (A' & n & He & HA'). rewrite HA' in Hs'. destruct (point_second _ _ _ _ _ _ He) as (Ht & Hclamp & Hsec & Hown & Hpt). destruct (decode_encode sk Hw Hu) as (sk' & Hd & _ & Hwire). exists sk'. split; [|done].
  unfold Read, ReadEach. fold collect. rewrite (foreign_held s' A' ref Hs'), Hown, (bool_decide_true (Key ref = Key ref)) by done. rewrite Z.ltb_irrefl, Hclamp. cbn [negb]. destruct (Scan (s_db s') _ _) as [kvs ok] eqn:Es. assert (ok = true) as -> by (specialize (Hscan (pointKey (SeriesID ref) (t / 1000)) (if t / 1000 <? MaxTimestamp then pointKey (SeriesID ref) (t / 1000 + 1) else seriesEnd (SeriesID ref))); rewrite Es in Hscan; done).
  destruct (scan_window s' A' _ _ _ _ Hs' (SeriesID_u64 ref) Hsec Hsec Es) as [Hsort Hmem]. assert (Hall : forall k v, (k, v) ∈ kvs <-> k = pointKey (SeriesID ref) (t / 1000) /\ v = encodeValue sk).
  { intros k v. rewrite Hmem. split; [intros (ts & _ & -> & Hp & Hr); assert (ts = t / 1000) as -> by lia; split; congruence|]. intros [-> ->]. exists (t / 1000). split_and!; (done || lia). }
  assert (Hkvs : kvs = [(pointKey (SeriesID ref) (t / 1000), encodeValue sk)]).
  { destruct kvs as [|[k v] kvs]; [by destruct (proj1 (elem_of_nil _) (proj2 (Hall _ _) (conj eq_refl eq_refl)))|]. destruct (proj1 (Hall k v) ltac:(by left)) as [-> ->]. f_equal. apply StronglySorted_inv in Hsort as [_ Hf]. destruct kvs as [|[k' v'] kvs]; [done|]. exfalso. destruct (proj1 (Hall k' v') ltac:(right; by left)) as [-> _]. apply Forall_cons_1 in Hf as [Hlt _]. cbn [fst] in Hlt. lia. }
  rewrite Hkvs. cbn [read_loop]. rewrite length_point, Z.eqb_refl. cbn [negb]. rewrite Hd, key_ts_point by done. done.
Qed.
End Life.
