(* ===== verification/SketchSample.v ===== *)
(** * Sample sketches

    Concrete sketches, a key-value store in memory and logarithms to base 2, on which the theorems are
    applied; and two cases at the edge of what they cover. *)

From Stdlib Require Import ZArith Lia Sorting.Sorted SpecFloat.
From stdpp Require Import base numbers list gmap sorting.
From S2P Require Import Prelude Wal Gofloat Gofloat64 Gostring Tsdb HeadRecord BlockFile LogChunk Sketch SketchBins SketchMerge SketchCodec SketchCodecProofs SketchStore SketchStoreSpec SketchStoreLife.

(** The exponent of a number, and the powers of 2. *)
#[local] Instance math2 : GoMath := {
  Log v := of_int (fmag v / 2 ^ 52 - 1023);
  Pow g k := match F64 k with S754_finite s m e => ((if s then -1 else 1) * (Zpos m / 2 ^ (- e)) + 1023) * 2 ^ 52 | _ => one end;
  int_of_NaN := 0;
}.
#[local] Instance stored_only : Zstd := { EncodeAll l := l; DecodeAll l := Some l }.
#[local] Instance stored_only_laws : SketchZstd.
Proof. intros raw _ _. done. Qed.

Definition get {E A} (d : A) (r : result E A) : A := match r with Ok a => a | Err _ => d end.
Definition half : Z := 1022 * 2 ^ 52.
Definition s0 : Sketch := fresh two.
Definition plus3 : Sketch := get s0 (AddWithCount (of_int 6) (of_int 3) s0).
Definition minus2 : Sketch := get s0 (AddWithCount (of_int (-5)) (of_int 2) s0).
Definition both : Sketch := get s0 (SketchMerge (Some minus2) plus3).
Definition other_way : Sketch := get s0 (AddWithCount (of_int 6) (of_int 3) minus2).

Ltac vm := vm_compute; reflexivity.
Lemma made_s0 : made s0.
Proof. apply (made_NewWithGamma two). vm. Qed.
Lemma made_plus3 : made plus3.
Proof. apply (made_Add s0 (of_int 6) (of_int 3) plus3 made_s0). vm. Qed.
Lemma made_minus2 : made minus2.
Proof. apply (made_Add s0 (of_int (-5)) (of_int 2) minus2 made_s0). vm. Qed.
Lemma made_both : made both.
Proof. apply (made_Merge plus3 minus2 both made_plus3 made_minus2). vm. Qed.
Lemma sketch_bounded_witness : ulen (st_arr (sk_pos both)) <= MaxBins /\ ulen (st_arr (store_add 9000 one (sk_pos both))) <= MaxBins /\
  0 <= Z.max (9000 - st_offset (grow 9000 (sk_pos both))) 0 < ulen (counts (grow 9000 (sk_pos both))).
Proof.
  exact (sketch_bounded both 9000 made_both (sk_pos both) (or_introl eq_refl)).
Defined.

Lemma built_plus3 : built two plus3 [(of_int 6, 3)].
Proof. apply (built_add two s0 [] (of_int 6) 3); [constructor|lia|vm]. Qed.
Lemma built_both : built two both [(of_int 6, 3); (of_int (-5), 2)].
Proof. apply (built_merge two plus3 minus2 [(of_int 6, 3)] [(of_int (-5), 2)]); [apply built_plus3|apply (built_add two s0 [] (of_int (-5)) 2); [constructor|lia|vm]|vm]. Qed.
(** The median of three sixes and two minus fives is the estimate of the bucket of 6. *)
Lemma quantile_rank_witness : exists x, x ∈ [(of_int 6, 3); (of_int (-5), 2)] /\ covers two [(of_int 6, 3); (of_int (-5), 2)] (rank_of half both) (settled two [(of_int 6, 3); (of_int (-5), 2)] x.1) /\
  Quantile half both = Ok (answer both (settled two [(of_int 6, 3); (of_int (-5), 2)] x.1)).
Proof. apply (quantile_rank two both [(of_int 6, 3); (of_int (-5), 2)] half built_both); [vm_compute; done|unfold is_u64; vm_compute; done|by vm_compute|vm]. Defined.

Lemma kept_plus3 : kept two plus3 [(of_int 6, 3)].
Proof. apply (kept_add two s0 [] (of_int 6) 3); [constructor|lia|vm]. Qed.
Lemma kept_minus2 : kept two minus2 [(of_int (-5), 2)].
Proof. apply (kept_add two s0 [] (of_int (-5)) 2); [constructor|lia|vm]. Qed.
Lemma storable_minus2 : storable two minus2 [(of_int (-5), 2)].
Proof.
  split.
  - unfold is_u64. by vm_compute.
  - intros x ->%list_elem_of_singleton. unfold is_u64. by vm_compute.
  - intros x ->%list_elem_of_singleton. by vm_compute.
  - by vm_compute.
  - by vm_compute.
Qed.
Definition minus2_read : Sketch := get s0 (decodeValue (encodeValue minus2)).
Definition read_then_merged : Sketch := get s0 (SketchMerge (Some plus3) minus2_read).
(** Merging in the other order, after one of the two was stored and read back. *)
Lemma merge_order_irrelevant_witness : alike both read_then_merged /\ forall q, same_answer (Quantile q both) (Quantile q read_then_merged).
Proof.
  apply (merge_order_irrelevant two both read_then_merged [(of_int 6, 3); (of_int (-5), 2)] [(of_int (-5), 2); (of_int 6, 3)]).
  - apply (kept_merge two plus3 minus2 [(of_int 6, 3)] [(of_int (-5), 2)]); [apply kept_plus3|apply kept_minus2|vm].
  - apply (kept_merge two minus2_read plus3 [(of_int (-5), 2)] [(of_int 6, 3)]); [apply (kept_stored two minus2); [apply kept_minus2|apply storable_minus2|vm]|apply kept_plus3|vm].
  - constructor.
  - by vm_compute.
  - intros x [->|[->|Hx]%elem_of_cons]%elem_of_cons; [unfold is_u64; by vm_compute|unfold is_u64; by vm_compute|by apply elem_of_nil in Hx].
Defined.

(** Half an observation. *)
Definition sampled : Sketch := get s0 (AddWithCount (of_int 6) half plus3).
Lemma made_sampled : made sampled.
Proof. apply (made_Add plus3 (of_int 6) half sampled made_plus3). vm. Qed.
Lemma u64_check (f : Bin -> Z) l : forallb (fun b => (0 <=? f b) && (f b <? 2 ^ 64)) l = true -> Forall (fun b => is_u64 (f b)) l.
Proof. rewrite forallb_forall, List.Forall_forall. intros Hall b Hb. specialize (Hall b Hb). apply andb_true_iff in Hall as [?%Z.leb_le ?%Z.ltb_lt]. done. Qed.
Lemma wire_sampled : wire_ok (ToWire sampled) /\ wire_u64 (ToWire sampled).
Proof.
  split; [split|].
  - by vm_compute.
  - apply u64_check. vm.
  - destruct (made_shape sampled made_sampled) as [Sp Sn]. split; by apply bins_narrow.
  - intros E. exfalso. revert E. assert (feq (w_Count (ToWire sampled)) 0 = false) as -> by vm. done.
  - unfold wire_u64, is_u64. split_and!; by vm_compute.
Qed.
Lemma stored_roundtrip_witness : exists s', decodeValue (encodeValue sampled) = Ok s' /\ ToWire s' = ToWire sampled.
Proof. apply (stored_roundtrip sampled); apply wire_sampled. Defined.
Lemma decoded_well_typed_witness : exists s, decodeValue (encodeValue sampled) = Ok s /\ well_typed s.
Proof. exists (get s0 (decodeValue (encodeValue sampled))). split; [vm|]. apply (decoded_well_typed (encodeValue sampled)). by vm_compute. Defined.

(** ** Edges *)

Definition MaxFloat : Z := 0x7FEFFFFFFFFFFFFF.
Definition overflowed : Sketch := get s0 (AddWithCount MaxFloat one (get s0 (AddWithCount MaxFloat one s0))).
(** Two observations that are finite, whose sum is not: the sketch is built and encoded without an error, and can never be
    read again. *)
Lemma overflowed_sum_unreadable : made overflowed /\ sk_sum overflowed = Inf false /\ decodeValue (encodeValue overflowed) = Err (errSketch ErrInvalid).
Proof.
  split; [|split; vm]. apply (made_Add (get s0 (AddWithCount MaxFloat one s0)) MaxFloat one); [apply (made_Add s0 MaxFloat one _ made_s0); vm|vm].
Qed.
Definition tenth : Z := 0x3FB999999999999A.
Definition fifth : Z := 0x3FC999999999999A.
Definition three_tenths : Z := 0x3FD3333333333333.
Definition weighed (w : Z) (s : Sketch) : Sketch := get s0 (AddWithCount (of_int 6) w s).
(** Fractional weights in one bucket: the count depends on the order of the observations. *)
Lemma fractional_order_matters : bins (sk_pos (weighed three_tenths (weighed fifth (weighed tenth s0)))) <> bins (sk_pos (weighed tenth (weighed fifth (weighed three_tenths s0)))).
Proof. by vm_compute. Qed.

(** ** A key-value store in memory *)

Definition kv_le (a b : list Z * list Z) : Prop := str_le a.1 b.1.
#[local] Instance kv_le_dec : RelDecision kv_le.
Proof. intros a b. unfold kv_le. apply _. Defined.
#[local] Instance kv_le_total : Total kv_le.
Proof. intros a b. apply str_le_total. Qed.
#[local] Instance kv_le_trans : Transitive kv_le.
Proof. intros a b c. unfold kv_le. apply transitivity. Qed.
Definition mem_scan (m : kvmap) (lo hi : list Z) : list (list Z * list Z) := merge_sort kv_le (map_to_list (filter (fun kv => within lo hi kv.1) m)).
#[local] Instance mem : Pebble kvmap := { Commit ops m := (apply_ops ops m, true); Scan m lo hi := (mem_scan m lo hi, true) }.
Lemma strictly_sorted (l : list (list Z * list Z)) : StronglySorted kv_le l -> NoDup (l.*1) -> StronglySorted str_lt (l.*1).
Proof.
  induction 1 as [|x l Hs IH Hall]; intros Hnd; [constructor|]. cbn [fmap list_fmap] in *. apply NoDup_cons in Hnd as [Hn Hnd]. constructor; [by apply IH|]. rewrite List.Forall_forall in *. intros k Hk%list_elem_of_In. pose proof Hk as Hk'. apply list_elem_of_fmap in Hk' as (y & -> & Hy). apply str_le_lt; [by apply Hall, list_elem_of_In|]. intros E. apply Hn. by rewrite E.
Qed.
#[local] Instance mem_laws : PebbleLaws kvmap.
Proof.
  apply (Build_PebbleLaws kvmap mem (fun m => m)).
  - by intros ops db db' [= <-].
  - by intros ops db db' [=].
  - intros db lo hi kvs ok [= <- <-]. exists []. rewrite app_nil_r. split; [done|]. split.
    + apply strictly_sorted; [apply (StronglySorted_merge_sort kv_le)|]. unfold mem_scan. rewrite merge_sort_Permutation. apply NoDup_fst_map_to_list.
    + intros k v. unfold mem_scan. rewrite merge_sort_Permutation, elem_of_map_to_list, map_lookup_filter_Some. done.
Defined.

(** The metric [lat]. *)
Definition latency : SeriesRef := MkSeriesRef [108; 97; 116] [].
Definition opened : Store kvmap := get (MkStore_ ∅ 0 0 ∅) (StoreOpen 0 0 (∅ : kvmap)).
Definition at_7s : list Entry := [MkEntry latency [MkPoint 7250 (Some sampled)]].
Definition appended : Store kvmap := (StoreAppend (fun _ => false) at_7s opened).1.1.
Definition swept : Store kvmap := (Truncate (fun _ => false) 9000 appended).1.
Definition life : list event := [EvAppend at_7s (MkAppendResult 1 1 []) None; EvTruncate 9000 (Ok 1)].

Lemma step_appended : step opened (EvAppend at_7s (MkAppendResult 1 1 []) None) appended.
Proof. apply (step_append (fun _ => false)). vm. Qed.
Lemma run_life : run opened life swept.
Proof. apply (run_cons _ _ appended); [apply step_appended|]. apply (run_cons _ _ swept); [apply (step_truncate (fun _ => false)); vm|constructor]. Qed.

Lemma sketch_store_refines_witness : exists A, spec_run empty_spec life A /\ keeps_spec swept A.
Proof. apply (sketch_store_refines 0 0 (∅ : kvmap) opened life swept); [done|vm|apply run_life]. Defined.
Lemma no_orphan_points_witness : exists ref, s_ids appended !! SeriesID latency = Some (Key ref) /\ SeriesID ref = SeriesID latency.
Proof.
  destruct (no_orphan_points 0 0 (∅ : kvmap) opened [EvAppend at_7s (MkAppendResult 1 1 []) None] appended (SeriesID latency) 7 (encodeValue sampled)) as [(ref & H1 & H2 & _) _]; [done|vm|apply (run_cons _ _ appended); [apply step_appended|constructor]|apply SeriesID_u64|unfold is_u32; lia|vm|]. exists ref. split; [exact H1|exact H2].
Defined.
Lemma append_then_read_witness : exists sk', Read (fun _ => false) latency 7250 7250 appended = ([MkRPoint 7000 sk'], None) /\ ToWire sk' = ToWire sampled.
Proof.
  apply (append_then_read 0 0 (∅ : kvmap) opened [] opened (fun _ => false) latency 7250 sampled appended (MkAppendResult 1 1 [])); [done|vm|constructor|apply wire_sampled|apply wire_sampled|vm|done|done].
Defined.
