(* ===== verification/Aggregator.v ===== *)
(** * The agent's aggregator (internal/agent/aggregator/aggregator.go)

    Samples of counters, gauges, sets, histograms and distributions become one point per context and bucket.
    A context is a kind, a name and a set of tags; a bucket is a whole number of flush intervals. Times are
    nanoseconds since 1970, [Unix] of them seconds; the random draws of a reservoir, the seeded hash of a key and
    the order in which a Go map is walked are parameters. *)

From Stdlib Require Import ZArith Lia.
From Stdlib Require Import (notations) String.
From stdpp Require Import base gmap sorting numbers list.
From S2P Require Import Prelude Gofloat Gofloat64 Gostring Names HeadRecord Sketch.

(** ** Tags of the agent (internal/agent/agenttags) *)

Definition MaxTagsPerPoint : Z := 50.

Section Tags.
(** [strings.ToLower], as in [Names]. *)
Context (ToLower : gostring -> gostring).

Definition NormalizeTags (tags : list gostring) : list gostring := omap (NormalizeTag ToLower) tags.

(** The tags, and how many the cap removed. *)
Definition Decorate (tags agentTags : list gostring) (hostTag : gostring) : list gostring * Z :=
  let out := tags ++ agentTags in
  let out := if bool_decide (hostTag <> []) && negb (HasTagKey out (str "host")) then out ++ [hostTag] else out in
  let out := CanonicalTags out in
  if MaxTagsPerPoint <? ulen out then (take (Z.to_nat MaxTagsPerPoint) out, ulen out - MaxTagsPerPoint) else (out, 0).

Definition own_hosts (own : list gostring) : list gostring := base.filter (fun t => fst (SplitTag t) = str "host") own.

(** The slow path: tags that say whose series it is come first. *)
Definition DecorateFixed (own keep agentTags : list gostring) (hostTag : gostring) : list gostring * Z :=
  let fixed := keep ++ agentTags ++ own_hosts own in
  let fixed := if bool_decide (hostTag <> []) && negb (HasTagKey fixed (str "host")) then fixed ++ [hostTag] else fixed in
  let fixed := CanonicalTags fixed in
  let over := MaxTagsPerPoint <? ulen fixed in
  let dropped := if over then ulen fixed - MaxTagsPerPoint else 0 in
  let fixed := if over then take (Z.to_nat MaxTagsPerPoint) fixed else fixed in
  let rest := base.filter (fun t => t ∉ fixed) (CanonicalTags own) in
  let room := MaxTagsPerPoint - ulen fixed in
  let '(rest, dropped) := if room <? ulen rest then (take (Z.to_nat room) rest, dropped + (ulen rest - room)) else (rest, dropped) in
  (CanonicalTags (fixed ++ rest), dropped).

Definition DecorateKeeping (own keep agentTags : list gostring) (hostTag : gostring) : list gostring * Z :=
  if (ulen keep =? 0) || (ulen own + ulen keep + ulen agentTags + 1 <=? MaxTagsPerPoint)
  then Decorate (own ++ keep) agentTags hostTag
  else DecorateFixed own keep agentTags hostTag.

(** [exportClashes]: one tag, and all of them with the number dropped. *)
Definition export_tag (keep : list gostring) (t : gostring) : option gostring :=
  let '(k, v) := SplitTag t in
  if bool_decide (k <> str "host") && HasTagKey keep k && bool_decide (t ∉ keep)
  then NormalizeTag ToLower (JoinTag (str "exported_" ++ k) v) else Some t.
Definition exportClashes (own keep : list gostring) : list gostring * Z :=
  if (ulen keep =? 0) || (ulen own =? 0) then (own, 0) else
  let out := omap (export_tag keep) own in (out, ulen own - ulen out).
Definition ExportClashes (own keep agentTags : list gostring) : list gostring * Z := exportClashes own (keep ++ agentTags).
End Tags.

(** ** Arithmetic *)

Definition second : Z := 10 ^ 9.
Definition Unix (now : Z) : Z := now / second.
Definition MinInt64 : Z := - 2 ^ 63.

Definition floorTo (t width : Z) : Z :=
  let q := Z.quot t width in
  let q := if negb (Z.rem t width =? 0) && (t <? 0) then q - 1 else q in
  int64 (q * width).
Definition abs (x : Z) : Z := if x <? 0 then int64 (- x) else x.

(** [selfmetrics.FirstBucket] *)
Definition FirstBucket (started interval : Z) : Z :=
  let s := Unix started in
  int64 (s - Z.rem (Z.rem s interval + interval) interval + interval).

(** The builtin [min] and [max] on float64s. *)
Definition fmin (a b : Z) : Z := if isNaN a || isNaN b then NaN else if flt b a || (feq a b && (2 ^ 63 <=? b)) then b else a.
Definition fmax (a b : Z) : Z := if isNaN a || isNaN b then NaN else if flt a b || (feq a b && (b <? 2 ^ 63)) then b else a.

(** [0.5], [0.95] and [sketch.DefaultAlpha]. *)
Definition p50 : Z := 0x3FE0000000000000.
Definition p95 : Z := 0x3FEE666666666666.
Definition DefaultAlpha : Z := 0x3F847AE147AE147B.

Definition float_le (a b : Z) : Prop := fle a b = true.
#[export] Instance float_le_dec : RelDecision float_le.
Proof. intros a b. unfold float_le. apply _. Defined.

(** Nearest rank; [None] is an index out of range, which [percentile_defined] excludes. *)
Definition percentile (sorted : list Z) (p : Z) : option Z :=
  if ulen sorted =? 0 then Some NaN else
  let i := ceil_int (fmul p (of_int (ulen sorted))) - 1 in sorted !! Z.to_nat (Z.max i 0).

(** ** State *)

Abbreviation Counter := 1.
Abbreviation Gauge := 2.
Abbreviation SetKind := 3.
Abbreviation Histogram := 4.
Abbreviation Distribution := 5.

Record Sample := MkSample {
  s_Name : gostring;
  s_Kind : Z;
  s_Value : Z;
  s_SetMember : gostring;
  s_SampleRate : Z;
  s_Tags : list gostring;
  s_Timestamp : Z;
}.

Definition TimestampTolerance : Z := 60 * second.

(** Without [Started] there is no floor. *)
Record Options := MkOptions {
  o_Started : option Z;
  o_HostTag : gostring;
  o_Tags : list gostring;
  o_FlushInterval : Z;
  o_ContextExpiry : Z;
  o_HistogramMaxSamples : Z;
  o_Alpha : Z;
  o_Shards : Z;
}.

Record bucket := MkBucket {
  b_sum : Z;
  b_last : Z;
  b_members : gset gostring;
  b_n : Z;
  b_weighted : Z;
  b_min : Z;
  b_max : Z;
  b_values : list Z;
  b_sketch : option Sketch;
}.
Definition new_bucket : bucket := MkBucket 0 0 ∅ 0 0 (Inf false) (Inf true) [] None.

Record aggContext := MkContext {
  c_name : gostring;
  c_tags : list gostring;
  c_kind : Z;
  c_buckets : gmap Z bucket;
  c_lastSeen : Z;
  c_next : Z;
  c_lastData : Z;
}.

Record Aggregator := MkAggregator {
  a_interval : Z;
  a_expiry : Z;
  a_histCap : Z;
  a_alpha : Z;
  a_hostTag : gostring;
  a_agentTags : list gostring;
  a_first : Z;
  a_shards : list (gmap gostring aggContext);
  a_watermark : Z;
  a_nContexts : Z;
  a_heldBack : Z;
  a_samplesDropped : Z;
  a_tagsDropped : Z;
  a_lateSamples : Z;
  a_pointsFlushed : Z;
}.

(** What is sent (pkg/wire/series.go, sketches.go). *)
Inductive wkind := KindCount | KindGauge.
Record Point := MkPoint { p_Timestamp : Z; p_Value : Z }.
Record Series := MkSeries { w_Metric : gostring; w_Type : wkind; w_Interval : Z; w_Tags : list gostring; w_Points : list Point }.
Record SketchPoint := MkSketchPoint { sp_Timestamp : Z; sp_Sketch : WSketch }.
Record SketchSeries := MkSketchSeries { ss_Metric : gostring; ss_Tags : list gostring; ss_Interval : Z; ss_Points : list SketchPoint }.

(** ** One context's points (emitter) *)

(** The series by suffix, in the order in which the suffixes were first used. *)
Record emitter := MkEmitter { e_series : list (gostring * Series); e_sketch : option SketchSeries }.
Definition new_emitter : emitter := MkEmitter [] None.

Fixpoint add_point (suffix : gostring) (fresh : Series) (p : Point) (l : list (gostring * Series)) : list (gostring * Series) :=
  match l with
  | [] => [(suffix, MkSeries (w_Metric fresh) (w_Type fresh) (w_Interval fresh) (w_Tags fresh) [p])]
  | (k, s) :: l => if bool_decide (k = suffix) then (k, MkSeries (w_Metric s) (w_Type s) (w_Interval s) (w_Tags s) (w_Points s ++ [p])) :: l
                   else (k, s) :: add_point suffix fresh p l
  end.
Definition emit (c : aggContext) (interval : Z) (suffix : gostring) (kind : wkind) (ts v : Z) (e : emitter) : emitter :=
  let fresh := MkSeries (c_name c ++ suffix) kind (match kind with KindGauge => 0 | _ => interval end) (c_tags c) [] in
  MkEmitter (add_point suffix fresh (MkPoint ts v) (e_series e)) (e_sketch e).
Definition emit_sketch (c : aggContext) (interval : Z) (ts : Z) (s : Sketch) (e : emitter) : emitter :=
  let ss := default (MkSketchSeries (c_name c) (c_tags c) interval []) (e_sketch e) in
  MkEmitter (e_series e) (Some (MkSketchSeries (ss_Metric ss) (ss_Tags ss) (ss_Interval ss) (ss_Points ss ++ [MkSketchPoint ts (ToWire s)]))).

(** [int(x.Timestamp - y.Timestamp)] and [cmp.Compare] as orders. *)
Definition point_le (x y : Point) : Prop := int64 (p_Timestamp x - p_Timestamp y) <= 0.
#[export] Instance point_le_dec : RelDecision point_le.
Proof. intros x y. unfold point_le. apply _. Defined.
Definition sketch_point_le (x y : SketchPoint) : Prop := sp_Timestamp x <= sp_Timestamp y.
#[export] Instance sketch_point_le_dec : RelDecision sketch_point_le.
Proof. intros x y. unfold sketch_point_le. apply _. Defined.

Definition emitted_series (e : emitter) : list Series :=
  (fun '(_, s) => MkSeries (w_Metric s) (w_Type s) (w_Interval s) (w_Tags s) (merge_sort point_le (w_Points s))) <$> e_series e.
Definition emitted_sketches (e : emitter) : list SketchSeries :=
  match e_sketch e with
  | None => []
  | Some s => [MkSketchSeries (ss_Metric s) (ss_Tags s) (ss_Interval s) (merge_sort sketch_point_le (ss_Points s))]
  end.

(** ** Operations *)

Section Aggregating.
Context `{GoMath} (ToLower : gostring -> gostring).
(** [maphash.String] under the aggregator's seed. *)
Context (MapHash : gostring -> Z).

Definition NewAggregator (opts : Options) : Aggregator :=
  let interval := Z.quot (if o_FlushInterval opts <? second then 10 * second else o_FlushInterval opts) second in
  let expiry := Z.quot (if o_ContextExpiry opts <=? 0 then 5 * 60 * second else o_ContextExpiry opts) second in
  MkAggregator interval expiry
    (if o_HistogramMaxSamples opts <=? 0 then 10000 else o_HistogramMaxSamples opts)
    (if negb (flt 0 (o_Alpha opts) && flt (o_Alpha opts) one) then DefaultAlpha else o_Alpha opts)
    (o_HostTag opts) (NormalizeTags ToLower (o_Tags opts))
    (match o_Started opts with None => MinInt64 | Some t => FirstBucket t interval end)
    (replicate (Z.to_nat (if o_Shards opts <=? 0 then 16 else o_Shards opts)) ∅)
    MinInt64 0 0 0 0 0 0.

Definition contextTags (raw : list gostring) (a : Aggregator) : list gostring * Z :=
  let tags := NormalizeTags ToLower raw in
  let '(out, dropped) := Decorate tags (a_agentTags a) (a_hostTag a) in
  (out, ulen raw - ulen tags + dropped).

Fixpoint JoinComma (tags : list gostring) : gostring :=
  match tags with [] => [] | [t] => t | t :: ts => t ++ c_comma :: JoinComma ts end.
Definition contextKey (kind : Z) (name : gostring) (tags : list gostring) : gostring :=
  uint8 (48 + kind) :: name ++ c_pipe :: JoinComma tags.

(** The new bucket and how many samples it dropped; [None] is the panic of [sketch.New]. [draw] is the
    source's [Int64N]. *)
Definition update (draw : Z -> Z) (kind : Z) (s : Sample) (rate : Z) (a : Aggregator) (b : bucket) : option (bucket * Z) :=
  if kind =? Counter then
    Some (MkBucket (fadd (b_sum b) (fdiv (s_Value s) rate)) (b_last b) (b_members b) (b_n b) (b_weighted b) (b_min b) (b_max b) (b_values b) (b_sketch b), 0)
  else if kind =? Gauge then
    Some (MkBucket (b_sum b) (s_Value s) (b_members b) (b_n b) (b_weighted b) (b_min b) (b_max b) (b_values b) (b_sketch b), 0)
  else if kind =? SetKind then
    Some (MkBucket (b_sum b) (b_last b) ({[s_SetMember s]} ∪ b_members b) (b_n b) (b_weighted b) (b_min b) (b_max b) (b_values b) (b_sketch b), 0)
  else if kind =? Distribution then
    sk ← (match b_sketch b with Some sk => Some sk | None => New (a_alpha a) end);
    match AddWithCount (s_Value s) (fdiv one rate) sk with
    | Ok sk => Some (MkBucket (b_sum b) (b_last b) (b_members b) (b_n b) (b_weighted b) (b_min b) (b_max b) (b_values b) (Some sk), 0)
    | Err _ => Some (MkBucket (b_sum b) (b_last b) (b_members b) (b_n b) (b_weighted b) (b_min b) (b_max b) (b_values b) (Some sk), 1)
    end
  else if kind =? Histogram then
    let n := b_n b + 1 in
    let values :=
      if ulen (b_values b) <? a_histCap a then b_values b ++ [s_Value s]
      else if draw n <? a_histCap a then <[Z.to_nat (draw n) := s_Value s]> (b_values b) else b_values b in
    Some (MkBucket (fadd (b_sum b) (s_Value s)) (b_last b) (b_members b) n (fadd (b_weighted b) (fdiv one rate))
            (fmin (b_min b) (s_Value s)) (fmax (b_max b) (s_Value s)) values (b_sketch b), 0)
  else Some (b, 0).

Definition shard_of (a : Aggregator) (key : gostring) : nat := Z.to_nat (MapHash key mod ulen (a_shards a)).

(** The counters an [Add] moves. *)
Definition counted (dropped tags late : Z) (shards : list (gmap gostring aggContext)) (new : Z) (a : Aggregator) : Aggregator :=
  MkAggregator (a_interval a) (a_expiry a) (a_histCap a) (a_alpha a) (a_hostTag a) (a_agentTags a) (a_first a) shards (a_watermark a)
    (a_nContexts a + new) (a_heldBack a) (a_samplesDropped a + dropped) (a_tagsDropped a + tags) (a_lateSamples a + late) (a_pointsFlushed a).

(** The time a sample is counted at, and its rate. *)
Definition sample_time (s : Sample) (nowS : Z) : Z :=
  if negb (s_Timestamp s =? 0) && (abs (int64 (s_Timestamp s - nowS)) <=? Z.quot TimestampTolerance second) then s_Timestamp s else nowS.
Definition sample_rate (s : Sample) : Z := if negb (flt 0 (s_SampleRate s) && fle (s_SampleRate s) one) then one else s_SampleRate s.

(** The bucket a sample falls in, and whether it is late. *)
Definition sample_start (s : Sample) (nowS : Z) (a : Aggregator) : Z * bool :=
  let start := Z.max (floorTo (sample_time s nowS) (a_interval a)) (a_first a) in
  if start <? a_watermark a then (a_watermark a, true) else (start, false).

(** The context with the sample's bucket opened. *)
Definition open_bucket (start nowS : Z) (c : aggContext) : aggContext * bucket :=
  let seen := if c_lastSeen c <? nowS then nowS else c_lastSeen c in
  match c_buckets c !! start with
  | Some b => (MkContext (c_name c) (c_tags c) (c_kind c) (c_buckets c) seen (c_next c) (c_lastData c), b)
  | None => (MkContext (c_name c) (c_tags c) (c_kind c) (c_buckets c) seen
              (if (c_kind c =? Counter) && (start <? c_next c) then start else c_next c) (c_lastData c), new_bucket)
  end.
Definition set_bucket (start : Z) (b : bucket) (c : aggContext) : aggContext :=
  MkContext (c_name c) (c_tags c) (c_kind c) (<[start := b]> (c_buckets c)) (c_lastSeen c) (c_next c) (c_lastData c).

Definition AggAdd (draw : Z -> Z) (s : Sample) (now : Z) (a : Aggregator) : option Aggregator :=
  match NormalizeMetricName (s_Name s) with
  | None => Some (counted 1 0 0 (a_shards a) 0 a)
  | Some name =>
      if (s_Kind s <? Counter) || (Distribution <? s_Kind s) then Some (counted 1 0 0 (a_shards a) 0 a) else
      let '(tags, lost) := contextTags (s_Tags s) a in
      let key := contextKey (s_Kind s) name tags in
      let nowS := Unix now in
      let rate := sample_rate s in
      if negb (finite (fdiv (s_Value s) rate)) || negb (finite (fdiv one rate)) then Some (counted 1 lost 0 (a_shards a) 0 a) else
      let '(start, late) := sample_start s nowS a in
      let i := shard_of a key in
      sh ← a_shards a !! i;
      let '(c, new) := match sh !! key with
                       | Some c => (c, 0)
                       | None => (MkContext name tags (s_Kind s) ∅ 0 start start, 1)
                       end in
      let '(c, b) := open_bucket start nowS c in
      '(b, dropped) ← update draw (c_kind c) s rate a b;
      Some (counted dropped lost (if late then 1 else 0) (<[i := <[key := set_bucket start b c]> sh]> (a_shards a)) new a)
  end.

(** ** Flushing a counter *)

(** The walk's position, the starts not yet passed, what is left of the buckets, and the points. *)
Record walk := MkWalk { k_s : Z; k_starts : list Z; k_buckets : gmap Z bucket; k_lastData : Z; k_points : list Point }.

Fixpoint drop_upto (s : Z) (l : list Z) : list Z :=
  match l with [] => [] | x :: l => if x <=? s then drop_upto s l else x :: l end.

Definition walk_step (interval expiry cutoff : Z) (w : walk) : walk + walk :=
  let s := k_s w in
  match k_buckets w !! s with
  | Some b => inl (MkWalk (int64 (s + interval)) (k_starts w) (delete s (k_buckets w)) s (k_points w ++ [MkPoint s (b_sum b)]))
  | None =>
      if s <=? int64 (k_lastData w + expiry)
      then inl (MkWalk (int64 (s + interval)) (k_starts w) (k_buckets w) (k_lastData w) (k_points w ++ [MkPoint s 0]))
      else
        let rest := drop_upto s (k_starts w) in
        match rest with
        | x :: _ => if cutoff <=? x then inr (MkWalk cutoff rest (k_buckets w) (k_lastData w) (k_points w))
                    else inl (MkWalk x rest (k_buckets w) (k_lastData w) (k_points w))
        | [] => inr (MkWalk cutoff rest (k_buckets w) (k_lastData w) (k_points w))
        end
  end.
Fixpoint walk_loop (fuel : nat) (interval expiry cutoff : Z) (w : walk) : option walk :=
  if k_s w <? cutoff then
    match fuel with
    | O => None
    | S fuel => match walk_step interval expiry cutoff w with inl w => walk_loop fuel interval expiry cutoff w | inr w => Some w end
    end
  else Some w.
(** Enough for every bucket and the zeros after it, however long the gaps. *)
Definition walk_fuel (interval expiry : Z) (starts : list Z) : nat := Z.to_nat ((ulen starts + 1) * (expiry / interval + 3)).

(** The buckets the final flush adds. *)
Definition flush_open (starts : list Z) (buckets : gmap Z bucket) : list Point :=
  omap (fun st => (fun b => MkPoint st (b_sum b)) <$> buckets !! st) starts.

Definition flushCounter (a : Aggregator) (cutoff : Z) (starts : list Z) (c : aggContext) : option (aggContext * list Series) :=
  w ← walk_loop (walk_fuel (a_interval a) (a_expiry a) starts) (a_interval a) (a_expiry a) cutoff
        (MkWalk (c_next c) starts (c_buckets c) (c_lastData c) []);
  let next := if c_next c <? k_s w then k_s w else c_next c in
  let points := k_points w ++ flush_open starts (k_buckets w) in
  let e := foldl (fun e p => emit c (a_interval a) [] KindCount (p_Timestamp p) (p_Value p) e) new_emitter points in
  Some (MkContext (c_name c) (c_tags c) (c_kind c) (foldr delete (k_buckets w) starts) (c_lastSeen c) next (k_lastData w), emitted_series e).

(** ** Flushing *)

Definition held_back (cutoff nowS : Z) (final : bool) (s : Z) : bool := final && (cutoff <=? s) && (nowS <? s).
Definition due (cutoff nowS : Z) (final : bool) (s : Z) : bool := negb (held_back cutoff nowS final s) && ((s <? cutoff) || final).
Definition bucket_starts (c : aggContext) : list Z := (map_to_list (c_buckets c)).*1.
(** The order of the map is undone by the sort. *)
Definition due_starts (cutoff nowS : Z) (final : bool) (c : aggContext) : list Z :=
  merge_sort Z.le (base.filter (fun s => due cutoff nowS final s = true) (bucket_starts c)).

Definition emit_bucket (a : Aggregator) (c : aggContext) (e : emitter) (s : Z) : emitter :=
  match c_buckets c !! s with
  | None => e
  | Some b =>
      let add suffix kind v := emit c (a_interval a) suffix kind s v in
      if c_kind c =? Gauge then add [] KindGauge (b_last b) e
      else if c_kind c =? SetKind then add [] KindGauge (of_int (Z.of_nat (size (b_members b)))) e
      else if c_kind c =? Distribution then match b_sketch b with Some sk => emit_sketch c (a_interval a) s sk e | None => e end
      else if c_kind c =? Histogram then
        let values := merge_sort float_le (b_values b) in
        let e := add (str ".avg") KindGauge (fdiv (b_sum b) (of_int (b_n b))) e in
        let e := add (str ".min") KindGauge (b_min b) e in
        let e := add (str ".max") KindGauge (b_max b) e in
        let e := add (str ".median") KindGauge (default NaN (percentile values p50)) e in
        let e := add (str ".95percentile") KindGauge (default NaN (percentile values p95)) e in
        add (str ".count") KindCount (b_weighted b) e
      else e
  end.

(** One context: what is left of it and what it sends. *)
Definition flushContext (a : Aggregator) (cutoff : Z) (final : bool) (nowS : Z) (c : aggContext) : option (aggContext * list Series * list SketchSeries) :=
  let starts := due_starts cutoff nowS final c in
  if c_kind c =? Counter then '(c, out) ← flushCounter a cutoff starts c; Some (c, out, [])
  else
    let e := foldl (emit_bucket a c) new_emitter starts in
    Some (MkContext (c_name c) (c_tags c) (c_kind c) (foldr delete (c_buckets c) starts) (c_lastSeen c) (c_next c) (c_lastData c),
          emitted_series e, emitted_sketches e).
Definition held_of (cutoff nowS : Z) (final : bool) (c : aggContext) : Z := ulen (base.filter (fun s => held_back cutoff nowS final s = true) (bucket_starts c)).

Definition idle_expired (a : Aggregator) (nowS : Z) (c : aggContext) : bool :=
  (size (c_buckets c) =? 0)%nat && (a_expiry a <? int64 (nowS - c_lastSeen c))
  && (negb (c_kind c =? Counter) || (int64 (c_lastData c + a_expiry a) <? c_next c)).

(** What one context sent, under its key. *)
Record sent := MkSent { n_key : gostring; n_series : list Series; n_sketches : list SketchSeries }.

(** The order in which [range] walks a map of contexts. *)
Context (order : gmap gostring aggContext -> list (gostring * aggContext)).

Definition flush_entry (a : Aggregator) (cutoff : Z) (final : bool) (nowS : Z) (kc : gostring * aggContext) : option (gostring * aggContext * sent) :=
  '(c, out, sketches) ← flushContext a cutoff final nowS kc.2; Some (kc.1, c, MkSent kc.1 out sketches).
Definition flush_shard (a : Aggregator) (cutoff : Z) (final : bool) (nowS : Z) (sh : gmap gostring aggContext) : option (gmap gostring aggContext * list sent) :=
  rs ← mapM (flush_entry a cutoff final nowS) (order sh);
  Some (list_to_map (base.filter (fun kc => idle_expired a nowS kc.2 = false) rs.*1), rs.*2).
Definition held_in (cutoff nowS : Z) (final : bool) (sh : gmap gostring aggContext) : Z :=
  foldr Z.add 0 ((fun kc => held_of cutoff nowS final kc.2) <$> order sh).

(** The parts of [Flush] between which other goroutines run: the watermark is raised first, then the shards
    are flushed one by one, each under its lock. *)
Definition FlushBegin (cutoff : Z) (a : Aggregator) : Aggregator :=
  MkAggregator (a_interval a) (a_expiry a) (a_histCap a) (a_alpha a) (a_hostTag a) (a_agentTags a) (a_first a) (a_shards a)
    (if a_watermark a <? cutoff then cutoff else a_watermark a)
    (a_nContexts a) (a_heldBack a) (a_samplesDropped a) (a_tagsDropped a) (a_lateSamples a) (a_pointsFlushed a).
Definition FlushShard (cutoff : Z) (final : bool) (nowS : Z) (i : nat) (a : Aggregator) : option (Aggregator * list sent) :=
  sh ← a_shards a !! i;
  '(sh', out) ← flush_shard a cutoff final nowS sh;
  Some (MkAggregator (a_interval a) (a_expiry a) (a_histCap a) (a_alpha a) (a_hostTag a) (a_agentTags a) (a_first a) (<[i := sh']> (a_shards a)) (a_watermark a)
          (a_nContexts a - (Z.of_nat (size sh) - Z.of_nat (size sh'))) (a_heldBack a + held_in cutoff nowS final sh)
          (a_samplesDropped a) (a_tagsDropped a) (a_lateSamples a) (a_pointsFlushed a), out).
Definition points_in (out : list sent) : Z :=
  foldr Z.add 0 ((fun n => foldr Z.add 0 ((fun s => ulen (w_Points s)) <$> n_series n) + foldr Z.add 0 ((fun s => ulen (ss_Points s)) <$> n_sketches n)) <$> out).
Definition FlushEnd (out : list sent) (a : Aggregator) : Aggregator :=
  MkAggregator (a_interval a) (a_expiry a) (a_histCap a) (a_alpha a) (a_hostTag a) (a_agentTags a) (a_first a) (a_shards a) (a_watermark a)
    (a_nContexts a) (a_heldBack a) (a_samplesDropped a) (a_tagsDropped a) (a_lateSamples a) (a_pointsFlushed a + points_in out).

Fixpoint FlushShards (cutoff : Z) (final : bool) (nowS : Z) (ns : list nat) (out : list sent) (a : Aggregator) : option (Aggregator * list sent) :=
  match ns with
  | [] => Some (a, out)
  | i :: ns => '(a, o) ← FlushShard cutoff final nowS i a; FlushShards cutoff final nowS ns (out ++ o) a
  end.

(** The series a flush returns, by metric and tags. *)
Fixpoint tags_cmp (a b : list gostring) : comparison :=
  match a, b with
  | [], [] => Eq
  | [], _ => Lt
  | _, [] => Gt
  | x :: a, y :: b => match strcmp x y with Eq => tags_cmp a b | c => c end
  end.
Definition by_name (x y : gostring * list gostring) : Prop := match strcmp x.1 y.1 with Eq => tags_cmp x.2 y.2 | c => c end <> Gt.
#[local] Instance by_name_dec : RelDecision by_name.
Proof. intros x y. unfold by_name. destruct (match strcmp x.1 y.1 with Eq => tags_cmp x.2 y.2 | c => c end); [left|left|right]; congruence. Defined.
Definition wire_series_le (x y : Series) : Prop := by_name (w_Metric x, w_Tags x) (w_Metric y, w_Tags y).
#[local] Instance wire_series_le_dec : RelDecision wire_series_le.
Proof. intros x y. unfold wire_series_le. apply _. Defined.
Definition sketch_series_le (x y : SketchSeries) : Prop := by_name (ss_Metric x, ss_Tags x) (ss_Metric y, ss_Tags y).
#[local] Instance sketch_series_le_dec : RelDecision sketch_series_le.
Proof. intros x y. unfold sketch_series_le. apply _. Defined.
Definition payload (out : list sent) : list Series * list SketchSeries :=
  (merge_sort wire_series_le (mjoin (n_series <$> out)), merge_sort sketch_series_le (mjoin (n_sketches <$> out))).

Definition AggFlush (now : Z) (final : bool) (a : Aggregator) : option (Aggregator * (list Series * list SketchSeries)) :=
  let nowS := Unix now in
  let cutoff := floorTo nowS (a_interval a) in
  let a := FlushBegin cutoff a in
  '(a, out) ← FlushShards cutoff final nowS (seq 0 (length (a_shards a))) [] a;
  Some (FlushEnd out a, payload out).

Definition HeldBack (a : Aggregator) : Z := a_heldBack a.
Definition Contexts (a : Aggregator) : Z := a_nContexts a.

(** ** The agent's flush loop, with samples arriving meanwhile

    [Run] checks the clock at each tick and flushes when it has passed a boundary; when it is told to stop it
    flushes what is open and returns. Samples are added from other goroutines at any time. *)
Inductive phase :=
| Waiting
| Flushing (cutoff : Z) (final : bool) (nowS : Z) (i : nat) (out : list sent)
| Stopped.

(** [y_sent] are the flushes handed to the sink, [y_last] the last boundary seen. *)
Record system := MkSystem { y_agg : Aggregator; y_last : Z; y_phase : phase; y_sent : list (list sent) }.

Inductive event :=
| EvAdd (draw : Z -> Z) (s : Sample) (now : Z)
| EvTick (now : Z)
| EvStop (now : Z)
| EvShard
| EvSink.

Definition run_event (e : event) (y : system) : option system :=
  let a := y_agg y in
  match e, y_phase y with
  | EvAdd draw s now, _ => a ← AggAdd draw s now a; Some (MkSystem a (y_last y) (y_phase y) (y_sent y))
  | EvTick now, Waiting =>
      let c := floorTo (Unix now) (a_interval a) in
      if y_last y <? c then Some (MkSystem (FlushBegin c a) c (Flushing c false (Unix now) 0 []) (y_sent y)) else Some y
  | EvStop now, Waiting =>
      let c := floorTo (Unix now) (a_interval a) in
      Some (MkSystem (FlushBegin c a) (y_last y) (Flushing c true (Unix now) 0 []) (y_sent y))
  | EvShard, Flushing cutoff final nowS i out =>
      '(a, o) ← FlushShard cutoff final nowS i a; Some (MkSystem a (y_last y) (Flushing cutoff final nowS (S i) (out ++ o)) (y_sent y))
  | EvSink, Flushing cutoff final nowS i out =>
      if (i =? length (a_shards a))%nat
      then Some (MkSystem (FlushEnd out a) (y_last y) (if final then Stopped else Waiting) (y_sent y ++ [out]))
      else None
  | _, _ => None
  end.
Fixpoint run_events (es : list event) (y : system) : option system :=
  match es with [] => Some y | e :: es => y ← run_event e y; run_events es y end.
Definition started (opts : Options) (now : Z) : system :=
  let a := NewAggregator opts in MkSystem a (floorTo (Unix now) (a_interval a)) Waiting [].
End Aggregating.
