(* ===== verification/AggregatorFlush.v ===== *)
(** * What a flush of one context sends

    The emitter's series are tables: a column per derived metric, a row per bucket, in order of time. The walk that
    fills a counter's gaps with zeros sends what a walk over every single bucket would, in a number of rounds that
    does not depend on the length of the gaps. *)

From Stdlib Require Import ZArith Lia Sorting.Sorted.
From Stdlib Require Import (notations) String.
From stdpp Require Import base gmap sorting numbers list.
From S2P Require Import Prelude Gofloat Gofloat64 Gostring Names IndexProofs HeadRecord Sketch Aggregator.

(** ** Times *)

(** Seconds that leave room for the arithmetic of buckets. *)
Definition in_time (s : Z) : Prop := 0 <= s < 2 ^ 61.

Lemma in_time_i64 s d : in_time s -> 0 <= d < 2 ^ 61 -> int64 (s + d) = s + d.
Proof. unfold in_time. intros. apply int64_id. unfold is_i64. lia. Qed.

Lemma sorted_by_unique {A} (f : A -> Z) (l1 l2 : list A) : ssorted (f <$> l1) -> ssorted (f <$> l2) -> l1 ≡ₚ l2 -> l1 = l2.
Proof.
  revert l2. induction l1 as [|x l1 IH]; intros l2 H1 H2 HP; [by apply Permutation_nil_l in HP|].
  destruct l2 as [|y l2]; [by apply Permutation_nil_r in HP|]. cbn in H1, H2. apply ssorted_cons in H1 as [H1 Hx], H2 as [H2 Hy].
  assert (x = y) as ->; [|f_equal; apply IH; [done..|by eapply Permutation_cons_inv]].
  assert (Hxy : x ∈ y :: l2) by (rewrite <- HP; by left). apply elem_of_cons in Hxy as [->|Hxy]; [done|].
  assert (Hyx : y ∈ x :: l1) by (rewrite HP; by left). apply elem_of_cons in Hyx as [->|Hyx]; [done|]. exfalso.
  specialize (Hx (f y) (list_elem_of_fmap_2 _ _ _ Hyx)). specialize (Hy (f x) (list_elem_of_fmap_2 _ _ _ Hxy)). lia.
Qed.

#[local] Instance point_le_total : Total point_le.
Proof.
  intros x y. unfold point_le. set (d := p_Timestamp x - p_Timestamp y). replace (p_Timestamp y - p_Timestamp x) with (- d) by lia.
  unfold int64. destruct (decide ((d + 2 ^ 63) mod 2 ^ 64 <= 2 ^ 63)) as [|Hd]; [left; lia|right].
  pose proof (Z.div_mod (d + 2 ^ 63) (2 ^ 64) ltac:(lia)) as E. pose proof (Z.mod_pos_bound (d + 2 ^ 63) (2 ^ 64) ltac:(lia)).
  rewrite <- (Z.mod_unique (- d + 2 ^ 63) (2 ^ 64) (- ((d + 2 ^ 63) / 2 ^ 64)) (2 ^ 64 - (d + 2 ^ 63) mod 2 ^ 64)); lia.
Qed.

(** Points in order of time stay as they are. *)
Lemma sort_points l : ssorted (p_Timestamp <$> l) -> Forall (fun p => in_time (p_Timestamp p)) l -> merge_sort point_le l = l.
Proof.
  intros Hs Ht. apply (sorted_by_unique p_Timestamp); [|done|apply merge_sort_Permutation].
  assert (Hd : NoDup (p_Timestamp <$> merge_sort point_le l)) by (rewrite merge_sort_Permutation; by apply ssorted_NoDup).
  assert (Ht' : Forall (fun p => in_time (p_Timestamp p)) (merge_sort point_le l)) by by rewrite merge_sort_Permutation.
  pose proof (Sorted_merge_sort point_le l) as HS. revert HS Hd Ht'. generalize (merge_sort point_le l). clear. intros l.
  assert (Sorted point_le l -> NoDup (p_Timestamp <$> l) -> Forall (fun p => in_time (p_Timestamp p)) l -> Sorted Z.lt (p_Timestamp <$> l)) as HL; [|intros; apply Sorted_StronglySorted; [intros ??? ; lia|by apply HL]].
  induction 1 as [|x l HS IH Hx]; [constructor|]. cbn [fmap list_fmap]. intros [Hn Hd]%NoDup_cons [Ht1 Ht]%Forall_cons_1. constructor; [by apply IH|].
  destruct Hx as [|y l Hxy]; [constructor|]. cbn. constructor. apply Forall_cons_1 in Ht as [Ht2 _]. unfold point_le in Hxy. unfold in_time in *. rewrite int64_id in Hxy by (unfold is_i64; lia).
  assert (p_Timestamp x <> p_Timestamp y); [|lia]. intros E. apply Hn. rewrite E. cbn. left.
Qed.

#[local] Instance sketch_point_le_total : Total sketch_point_le.
Proof. intros x y. unfold sketch_point_le. lia. Qed.
#[local] Instance sketch_point_le_trans : Transitive sketch_point_le.
Proof. intros x y z. unfold sketch_point_le. lia. Qed.
Lemma sort_sketch_points l : ssorted (sp_Timestamp <$> l) -> merge_sort sketch_point_le l = l.
Proof.
  intros Hs. apply (sorted_by_unique sp_Timestamp); [|done|apply merge_sort_Permutation].
  assert (Hd : NoDup (sp_Timestamp <$> merge_sort sketch_point_le l)) by (rewrite merge_sort_Permutation; by apply ssorted_NoDup).
  pose proof (StronglySorted_merge_sort sketch_point_le l) as HS. revert Hd. induction HS as [|x k HS IH Hx]; [constructor|]. cbn. intros [Hn Hd]%NoDup_cons. apply ssorted_cons. split; [by apply IH|].
  intros y (p & -> & Hp)%list_elem_of_fmap. rewrite Forall_forall in Hx. pose proof (Hx p Hp) as Hle. unfold sketch_point_le in Hle. assert (sp_Timestamp x <> sp_Timestamp p); [|lia]. intros E. apply Hn. rewrite E. by apply list_elem_of_fmap_2.
Qed.

(** ** Tables *)

(** A column: suffix, type, and the value of a bucket. *)
Abbreviation column := (gostring * wkind * (bucket -> Z))%type.
Abbreviation suffix_of := (fun k : column => k.1.1).

Definition column_series (c : aggContext) (interval : Z) (k : column) (points : list Point) : Series :=
  MkSeries (c_name c ++ k.1.1) k.1.2 (match k.1.2 with KindGauge => 0 | _ => interval end) (c_tags c) points.
Definition row (k : column) (sb : Z * bucket) : Point := MkPoint sb.1 (k.2 sb.2).
Definition table (c : aggContext) (interval : Z) (ks : list column) (rows : list (Z * bucket)) : list (gostring * Series) :=
  match rows with [] => [] | _ => (fun k => (k.1.1, column_series c interval k (row k <$> rows))) <$> ks end.

Lemma add_point_found suffix fresh p l1 s l2 : suffix ∉ l1.*1 ->
  add_point suffix fresh p (l1 ++ (suffix, s) :: l2) = l1 ++ (suffix, MkSeries (w_Metric s) (w_Type s) (w_Interval s) (w_Tags s) (w_Points s ++ [p])) :: l2.
Proof.
  induction l1 as [|[k x] l1 IH]; cbn [app add_point fmap list_fmap]; [intros _; by rewrite bool_decide_eq_true_2|].
  intros [Hk Hl]%not_elem_of_cons. rewrite bool_decide_eq_false_2 by (intros ->; by apply Hk). by rewrite IH.
Qed.
Lemma add_point_new suffix fresh p l : suffix ∉ l.*1 -> add_point suffix fresh p l = l ++ [(suffix, MkSeries (w_Metric fresh) (w_Type fresh) (w_Interval fresh) (w_Tags fresh) [p])].
Proof.
  induction l as [|[k x] l IH]; cbn [app add_point fmap list_fmap]; [done|].
  intros [Hk Hl]%not_elem_of_cons. rewrite bool_decide_eq_false_2 by (intros ->; by apply Hk). by rewrite IH.
Qed.

(** One bucket is one more row. *)
Definition emit_row (c : aggContext) (interval : Z) (ks : list column) (sb : Z * bucket) (e : emitter) : emitter :=
  foldl (fun e (k : column) => emit c interval k.1.1 k.1.2 sb.1 (k.2 sb.2) e) e ks.
Lemma emit_row_sketch c iv ks sb e : e_sketch (emit_row c iv ks sb e) = e_sketch e.
Proof. unfold emit_row. revert e. induction ks as [|k ks IH]; intros e; [done|]. cbn [foldl]. by rewrite IH. Qed.
Lemma emit_row_table c iv ks rows sb e : NoDup (suffix_of <$> ks) -> e_series e = table c iv ks rows ->
  e_series (emit_row c iv ks sb e) = table c iv ks (rows ++ [sb]).
Proof.
  intros Hn He. set (cell rs k := (k.1.1, column_series c iv k (row k <$> rs)) : gostring * Series).
  assert (Hg : forall done todo e, ks = done ++ todo -> e_series e = (cell (rows ++ [sb]) <$> done) ++ (match rows with [] => [] | _ => cell rows <$> todo end) ->
    e_series (emit_row c iv todo sb e) = cell (rows ++ [sb]) <$> ks).
  { intros dn todo. revert dn. induction todo as [|k todo IH]; intros dn e' Hk E'.
    { cbn. rewrite E'. rewrite app_nil_r in Hk. subst dn. destruct rows; by rewrite app_nil_r. }
    cbn [emit_row foldl]. apply (IH (dn ++ [k])); [by rewrite <- app_assoc|]. cbn [emit e_series]. rewrite E'.
    assert (Hout : k.1.1 ∉ (cell (rows ++ [sb]) <$> dn).*1).
    { rewrite <- list_fmap_compose. rewrite Hk, fmap_app in Hn. apply NoDup_app in Hn as (_ & Hn & _). intros Hin. apply (Hn (k.1.1)); [exact Hin|cbn; left]. }
    destruct rows as [|r rows].
    - cbn iota. rewrite app_nil_r, add_point_new by done. by rewrite fmap_app, app_nil_r.
    - cbn iota. rewrite !fmap_cons. change (cell (r :: rows) k) with (k.1.1, column_series c iv k (row k <$> r :: rows)).
      rewrite add_point_found by done. rewrite fmap_app, <- app_assoc. cbn [fmap list_fmap app]. do 2 f_equal. unfold cell, column_series. cbn. by rewrite fmap_app. }
  rewrite (Hg [] ks e); [|done|by rewrite He; destruct rows]. unfold table. by destruct rows.
Qed.

Definition columns (kind : Z) : list column :=
  if kind =? Counter then [([], KindCount, b_sum)]
  else if kind =? Gauge then [([], KindGauge, b_last)]
  else if kind =? SetKind then [([], KindGauge, fun b => of_int (Z.of_nat (size (b_members b))))]
  else if kind =? Histogram then
    [(str ".avg", KindGauge, fun b => fdiv (b_sum b) (of_int (b_n b))); (str ".min", KindGauge, b_min); (str ".max", KindGauge, b_max);
     (str ".median", KindGauge, fun b => default NaN (percentile (merge_sort float_le (b_values b)) p50));
     (str ".95percentile", KindGauge, fun b => default NaN (percentile (merge_sort float_le (b_values b)) p95));
     (str ".count", KindCount, b_weighted)]
  else [].
Lemma columns_NoDup kind : NoDup (suffix_of <$> columns kind).
Proof.
  unfold columns. destruct (_ =? _); [apply NoDup_singleton|]. destruct (_ =? _); [apply NoDup_singleton|]. destruct (_ =? _); [apply NoDup_singleton|].
  destruct (_ =? _); [|constructor]. apply (bool_decide_unpack _). vm_compute. done.
Qed.

(** ** The points of a context *)

Section Emission.
Context (a : Aggregator) (c : aggContext).

(** The rows of the starts that have buckets. *)
Definition rows_of (starts : list Z) : list (Z * bucket) := omap (fun s => (fun b => (s, b)) <$> c_buckets c !! s) starts.
Definition sketch_points (rows : list (Z * bucket)) : list SketchPoint := omap (fun sb => (fun sk => MkSketchPoint sb.1 (ToWire sk)) <$> b_sketch sb.2) rows.

Lemma emit_bucket_row e s b : c_buckets c !! s = Some b -> (c_kind c =? Counter) = false ->
  emit_bucket a c e s = match (if c_kind c =? Distribution then b_sketch b else None) with
                        | Some sk => emit_sketch c (a_interval a) s sk e
                        | None => emit_row c (a_interval a) (columns (c_kind c)) (s, b) e
                        end.
Proof.
  intros Hb HC. unfold emit_bucket, columns. rewrite Hb, HC. destruct (c_kind c =? Gauge) eqn:E2; [by apply Z.eqb_eq in E2; rewrite E2|].
  destruct (c_kind c =? SetKind) eqn:E3; [by apply Z.eqb_eq in E3; rewrite E3|]. destruct (c_kind c =? Distribution) eqn:E5.
  - apply Z.eqb_eq in E5. rewrite E5. by destruct (b_sketch b).
  - by destruct (c_kind c =? Histogram).
Qed.

Lemma emit_buckets starts : (c_kind c =? Counter) = false ->
  let e := foldl (emit_bucket a c) new_emitter starts in
  e_series e = table c (a_interval a) (columns (c_kind c)) (rows_of starts) /\
  e_sketch e = (if c_kind c =? Distribution then
                  match sketch_points (rows_of starts) with [] => None | ps => Some (MkSketchSeries (c_name c) (c_tags c) (a_interval a) ps) end
                else None).
Proof.
  intros HC. induction starts as [|s starts [IH1 IH2]] using rev_ind; cbn zeta in *; [by destruct (_ =? Distribution)|].
  rewrite foldl_app. cbn [foldl]. set (e := foldl (emit_bucket a c) new_emitter starts) in *.
  unfold rows_of. rewrite omap_app. fold (rows_of starts). cbn [omap list_omap]. destruct (c_buckets c !! s) as [b|] eqn:Hb; cbn [fmap option_fmap option_map].
  2:{ rewrite app_nil_r. unfold emit_bucket. by rewrite Hb. }
  rewrite (emit_bucket_row e s b Hb HC). unfold sketch_points in *. rewrite omap_app. cbn [omap list_omap]. cbn [fst snd].
  destruct (c_kind c =? Distribution) eqn:E5.
  - assert (columns (c_kind c) = []) as Hc by (apply Z.eqb_eq in E5; by rewrite E5). rewrite Hc in *.
    assert (forall rows, table c (a_interval a) [] rows = []) as Ht by (intros [|]; done). rewrite Ht in *.
    destruct (b_sketch b) as [sk|]; cbn [fmap option_fmap option_map emit_row foldl]; [|by rewrite app_nil_r].
    cbn [emit_sketch e_series e_sketch]. rewrite IH2. split; [done|]. destruct (omap _ (rows_of starts)) as [|x ps]; done.
  - rewrite emit_row_sketch, IH2. split; [|done]. apply emit_row_table; [apply columns_NoDup|done].
Qed.
End Emission.

Definition series_of (c : aggContext) (interval : Z) (k : column) (rows : list (Z * bucket)) : Series := column_series c interval k (row k <$> rows).

Lemma sorted_series c iv ks rows : ssorted rows.*1 -> Forall in_time rows.*1 ->
  emitted_series (MkEmitter (table c iv ks rows) None) = (match rows with [] => [] | _ => (fun k => series_of c iv k rows) <$> ks end).
Proof.
  intros Hs Ht. unfold emitted_series, table. cbn [e_series]. destruct rows as [|r rows]; [done|]. rewrite <- list_fmap_compose. apply list_fmap_ext. intros i k _.
  cbn [compose]. unfold compose. unfold series_of, column_series. cbn [w_Points w_Metric w_Type w_Interval w_Tags]. f_equal. apply sort_points.
  - rewrite <- list_fmap_compose. exact Hs.
  - apply Forall_fmap. exact (proj1 (Forall_fmap fst in_time (r :: rows)) Ht).
Qed.

(** ** The walk of a counter *)

Section Walk.
Context (iv expiry : Z) (Hiv : 0 < iv < 2 ^ 34) (Hex : 0 <= expiry < 2 ^ 34).

(** Every single bucket from [s] on: its sum, a zero soon after data, or nothing. *)
Fixpoint every_bucket (n : nat) (s : Z) (bs : gmap Z bucket) (lastData : Z) : list Point * Z :=
  match n with
  | O => ([], lastData)
  | S n =>
      match bs !! s with
      | Some b => let '(ps, d) := every_bucket n (s + iv) bs s in (MkPoint s (b_sum b) :: ps, d)
      | None => let '(ps, d) := every_bucket n (s + iv) bs lastData in
                (if s <=? lastData + expiry then MkPoint s 0 :: ps else ps, d)
      end
  end.

Lemma every_ext n : forall s bs bs' d, (forall x, s <= x -> bs !! x = bs' !! x) -> every_bucket n s bs d = every_bucket n s bs' d.
Proof.
  induction n as [|n IH]; intros s bs bs' d E; [done|]. cbn [every_bucket]. rewrite <- (E s) by lia.
  destruct (bs !! s); by rewrite (IH (s + iv) bs bs') by (intros; apply E; lia).
Qed.
(** A gap past the horizon sends nothing. *)
Lemma every_gap m n : forall s bs d, d + expiry < s -> (forall x, s <= x < s + Z.of_nat m * iv -> bs !! x = None) ->
  every_bucket (m + n) s bs d = every_bucket n (s + Z.of_nat m * iv) bs d.
Proof.
  induction m as [|m IH]; intros s bs d Hd Hn; [f_equal; lia|]. cbn [Nat.add every_bucket]. rewrite (Hn s) by lia.
  rewrite (IH (s + iv)) by (first [lia|intros; apply Hn; lia]). replace (s + iv + Z.of_nat m * iv) with (s + Z.of_nat (S m) * iv) by lia.
  destruct (every_bucket n _ bs d) as [ps d']. rewrite (proj2 (Z.leb_gt _ _)) by lia. done.
Qed.
Definition rounds (s cutoff : Z) : nat := Z.to_nat ((cutoff - s) / iv).
Lemma rounds_0 s cutoff : cutoff <= s -> rounds s cutoff = O.
Proof. intros Hs. unfold rounds. assert ((cutoff - s) / iv <= 0) by (apply Z.div_le_upper_bound; lia). lia. Qed.
Lemma rounds_split s x cutoff : (iv | s) -> (iv | x) -> (iv | cutoff) -> s <= x <= cutoff ->
  rounds s cutoff = (rounds s x + rounds x cutoff)%nat /\ s + Z.of_nat (rounds s x) * iv = x.
Proof.
  intros [q ->] [r ->] [t ->] H. unfold rounds. rewrite <- !Z.mul_sub_distr_r, !Z.div_mul by lia. split; nia.
Qed.
Lemma rounds_step s cutoff : (iv | s) -> (iv | cutoff) -> s < cutoff -> rounds s cutoff = S (rounds (s + iv) cutoff).
Proof. intros [q ->] [t ->] H. unfold rounds. replace (t * iv - (q * iv + iv)) with ((t - q - 1) * iv) by lia. rewrite <- Z.mul_sub_distr_r, !Z.div_mul by lia. nia. Qed.

Record walking (cutoff : Z) (w : walk) : Prop := {
  wk_time : in_time (k_s w);
  wk_aligned : (iv | k_s w);
  wk_buckets x : is_Some (k_buckets w !! x) -> in_time x /\ (iv | x) /\ k_s w <= x;
  wk_listed x : is_Some (k_buckets w !! x) -> x < cutoff -> x ∈ k_starts w;
  wk_there x : x ∈ k_starts w -> k_s w <= x -> is_Some (k_buckets w !! x);
  wk_sorted : ssorted (k_starts w);
  wk_lastData : in_time (k_lastData w);
  wk_data : is_Some (k_buckets w !! k_s w) \/ k_lastData w < k_s w;
}.

(** The rounds that are left: one for each bucket, and for the zeros after it and a jump. *)
Definition ahead (s : Z) (starts : list Z) : Z := ulen (base.filter (fun x => s <= x) starts).
Definition cost (w : walk) : Z :=
  ahead (k_s w) (k_starts w) * (expiry / iv + 2)
  + match k_buckets w !! k_s w with Some _ => 0 | None => 1 + Z.max 0 ((k_lastData w + expiry - k_s w) / iv + 1) end.

Lemma ahead_mono s s' l : s <= s' -> ahead s' l <= ahead s l.
Proof.
  intros Hs. unfold ahead, ulen. induction l as [|x l IH]; [done|]. rewrite !filter_cons. repeat case_decide; cbn [length]; lia.
Qed.
Lemma ahead_hit s s' l : s < s' -> s ∈ l -> ahead s' l + 1 <= ahead s l.
Proof.
  intros Hs. induction l as [|x l IH]; [by intros ?%elem_of_nil|]. intros Hx.
  pose proof (ahead_mono s s' l ltac:(lia)) as Hm. unfold ahead, ulen in *. rewrite !filter_cons. apply elem_of_cons in Hx as [->|Hx].
  - rewrite decide_False by lia. rewrite decide_True by lia. cbn [length]. lia.
  - specialize (IH Hx). repeat case_decide; cbn [length]; lia.
Qed.
Lemma drop_upto_elem s l x : ssorted l -> x ∈ drop_upto s l <-> x ∈ l /\ s < x.
Proof.
  induction l as [|y l IH]; cbn [drop_upto]; [intros _; by rewrite elem_of_nil; naive_solver|]. intros [Hl Hy]%ssorted_cons.
  destruct (Z.leb_spec y s) as [Hle|Hgt].
  - rewrite IH, elem_of_cons by done. split; [naive_solver|]. intros [[->|?] ?]; [lia|done].
  - split; [|naive_solver]. intros Hx. split; [done|]. apply elem_of_cons in Hx as [->|Hx]; [done|]. specialize (Hy x Hx). lia.
Qed.
Lemma drop_upto_sorted s l : ssorted l -> ssorted (drop_upto s l).
Proof. induction l as [|y l IH]; cbn [drop_upto]; [done|]. intros H. pose proof H as [Hl Hy]%ssorted_cons. destruct (y <=? s); [by apply IH|done]. Qed.

(** What is left of the buckets from [s] on. *)
Definition left_from (s : Z) (bs bs' : gmap Z bucket) : Prop := forall x, bs' !! x = if x <? s then None else bs !! x.
Definition advances (cutoff : Z) (w w' : walk) : Prop :=
  k_s w < k_s w' <= cutoff /\ left_from (k_s w') (k_buckets w) (k_buckets w') /\
  exists ps, k_points w' = k_points w ++ ps /\
    every_bucket (rounds (k_s w) cutoff) (k_s w) (k_buckets w) (k_lastData w)
    = (ps ++ (every_bucket (rounds (k_s w') cutoff) (k_s w') (k_buckets w') (k_lastData w')).1,
       (every_bucket (rounds (k_s w') cutoff) (k_s w') (k_buckets w') (k_lastData w')).2).

Lemma multiple_next s x : (iv | s) -> (iv | x) -> s < x -> s + iv <= x.
Proof. intros [q ->] [r ->] H. assert (q < r) by (apply (Z.mul_lt_mono_pos_r iv); lia). pose proof (Z.mul_le_mono_nonneg_r (q + 1) r iv ltac:(lia) ltac:(lia)). lia. Qed.
Lemma none_before cutoff w x : walking cutoff w -> x < k_s w -> k_buckets w !! x = None.
Proof. intros H Hx. destruct (k_buckets w !! x) eqn:E; [|done]. destruct (wk_buckets _ _ H x) as (_ & _ & ?); [by rewrite E|lia]. Qed.

Lemma walk_hit cutoff w b : walking cutoff w -> (iv | cutoff) -> in_time cutoff -> k_s w < cutoff -> k_buckets w !! k_s w = Some b ->
  let w' := MkWalk (k_s w + iv) (k_starts w) (delete (k_s w) (k_buckets w)) (k_s w) (k_points w ++ [MkPoint (k_s w) (b_sum b)]) in
  walking cutoff w' /\ cost w' < cost w /\ advances cutoff w w'.
Proof.
  intros Hw Ha Ht Hs Hb w'. destruct Hw as [Hti Hal Hbu Hli Hth Hso Hld Hda]. pose proof (multiple_next _ _ Hal Ha Hs) as Hn. unfold in_time in *.
  assert (Hdom : forall x, is_Some (k_buckets w' !! x) -> is_Some (k_buckets w !! x) /\ k_s w + iv <= x).
  { intros x Hx. cbn in Hx. destruct (decide (x = k_s w)) as [->|Hne]; [by rewrite lookup_delete_eq in Hx; destruct Hx|]. rewrite lookup_delete_ne in Hx by done. split; [done|]. destruct (Hbu x Hx) as (_ & Hxa & Hxs). apply multiple_next; [done..|lia]. }
  assert (Hleft : left_from (k_s w') (k_buckets w) (k_buckets w')).
  { intros x. cbn. destruct (Z.ltb_spec x (k_s w + iv)) as [Hx|Hx].
    - destruct (delete (k_s w) (k_buckets w) !! x) eqn:E; [|done]. destruct (Hdom x) as [_ ?]; [cbn; by rewrite E|lia].
    - by rewrite lookup_delete_ne by lia. }
  split; [|split; [|split; [cbn; lia|split; [done|]]]].
  - constructor; cbn [k_s k_starts k_buckets k_lastData w'].
    + unfold in_time. lia.
    + by apply Z.divide_add_r; [|exists 1; lia].
    + intros x Hx. destruct (Hdom x Hx) as [H1 H2]. destruct (Hbu x H1) as (? & ? & ?). done.
    + intros x Hx. apply Hli. by apply (Hdom x).
    + intros x Hx Hge. rewrite lookup_delete_ne by lia. apply Hth; [done|lia].
    + done.
    + unfold in_time. lia.
    + right. lia.
  - unfold cost. cbn [k_s k_starts k_buckets k_lastData w']. rewrite Hb.
    pose proof (ahead_hit (k_s w) (k_s w + iv) (k_starts w) ltac:(lia) (Hli _ ltac:(by rewrite Hb) Hs)) as Hah.
    assert (0 <= expiry / iv) by (apply Z.div_pos; lia). assert ((k_s w + expiry - (k_s w + iv)) / iv + 1 = expiry / iv) as -> by (replace (k_s w + expiry - (k_s w + iv)) with (expiry + (-1) * iv) by lia; rewrite Z.div_add by lia; lia).
    destruct (delete (k_s w) (k_buckets w) !! (k_s w + iv)); nia.
  - exists [MkPoint (k_s w) (b_sum b)]. split; [done|]. rewrite rounds_step by done. cbn [every_bucket]. rewrite Hb. cbn [k_s k_buckets k_lastData w'].
    rewrite (every_ext _ (k_s w + iv) (k_buckets w) (delete (k_s w) (k_buckets w))) by (intros x Hx; by rewrite lookup_delete_ne by lia). by destruct (every_bucket _ _ _ _).
Qed.

Lemma walk_zero cutoff w : walking cutoff w -> (iv | cutoff) -> in_time cutoff -> k_s w < cutoff -> k_buckets w !! k_s w = None -> k_s w <= k_lastData w + expiry ->
  let w' := MkWalk (k_s w + iv) (k_starts w) (k_buckets w) (k_lastData w) (k_points w ++ [MkPoint (k_s w) 0]) in
  walking cutoff w' /\ cost w' < cost w /\ advances cutoff w w'.
Proof.
  intros Hw Ha Ht Hs Hb Hz w'. pose proof Hw as [Hti Hal Hbu Hli Hth Hso Hld Hda]. pose proof (multiple_next _ _ Hal Ha Hs) as Hn. unfold in_time in *.
  assert (Hdom : forall x, is_Some (k_buckets w !! x) -> k_s w + iv <= x).
  { intros x Hx. destruct (Hbu x Hx) as (_ & Hxa & Hxs). apply multiple_next; [done..|]. assert (x <> k_s w); [|lia]. intros ->. rewrite Hb in Hx. by destruct Hx. }
  split; [|split; [|split; [cbn; lia|split]]].
  - constructor; cbn [k_s k_starts k_buckets k_lastData w'].
    + unfold in_time. lia.
    + by apply Z.divide_add_r; [|exists 1; lia].
    + intros x Hx. pose proof (Hdom x Hx). destruct (Hbu x Hx) as (? & ? & ?). done.
    + done.
    + intros x Hx Hge. apply Hth; [done|lia].
    + done.
    + done.
    + right. destruct Hda as [Hda|]; [rewrite Hb in Hda; by destruct Hda|lia].
  - unfold cost. cbn [k_s k_starts k_buckets k_lastData w']. rewrite Hb. pose proof (ahead_mono (k_s w) (k_s w + iv) (k_starts w) ltac:(lia)) as Hah. assert (0 <= expiry / iv) by (apply Z.div_pos; lia).
    assert (0 <= (k_lastData w + expiry - k_s w) / iv) by (apply Z.div_pos; lia). assert ((k_lastData w + expiry - (k_s w + iv)) / iv + 1 = (k_lastData w + expiry - k_s w) / iv) as -> by (replace (k_lastData w + expiry - (k_s w + iv)) with (k_lastData w + expiry - k_s w + (-1) * iv) by lia; rewrite Z.div_add by lia; lia).
    destruct (k_buckets w !! (k_s w + iv)); nia.
  - intros x. cbn. destruct (Z.ltb_spec x (k_s w + iv)) as [Hx|Hx]; [|done]. destruct (k_buckets w !! x) eqn:E; [|done]. specialize (Hdom x ltac:(by rewrite E)). lia.
  - exists [MkPoint (k_s w) 0]. split; [done|]. rewrite rounds_step by done. cbn [every_bucket]. rewrite Hb. cbn [k_s k_buckets k_lastData w']. rewrite (proj2 (Z.leb_le _ _)) by lia. by destruct (every_bucket _ _ _ _).
Qed.

(** Past the horizon: what comes next, and nothing before it. *)
Lemma jump_none cutoff w x : walking cutoff w -> k_buckets w !! k_s w = None -> (forall y, y ∈ drop_upto (k_s w) (k_starts w) -> x <= y) -> x <= cutoff ->
  forall y, y < x -> k_buckets w !! y = None.
Proof.
  intros Hw Hb Hx Hc y Hy. destruct (k_buckets w !! y) eqn:E; [|done]. assert (Hsome : is_Some (k_buckets w !! y)) by by rewrite E. destruct (wk_buckets _ _ Hw y Hsome) as (_ & _ & Hge).
  assert (y <> k_s w) by (intros ->; congruence). specialize (Hx y). rewrite drop_upto_elem in Hx by apply (wk_sorted _ _ Hw). exfalso. assert (x <= y); [|lia]. apply Hx. split; [apply (wk_listed _ _ Hw); [done|lia]|lia].
Qed.
Lemma walk_jump cutoff w x rest : walking cutoff w -> (iv | cutoff) -> in_time cutoff -> k_s w < cutoff -> k_buckets w !! k_s w = None -> k_lastData w + expiry < k_s w ->
  drop_upto (k_s w) (k_starts w) = x :: rest -> x < cutoff ->
  let w' := MkWalk x (x :: rest) (k_buckets w) (k_lastData w) (k_points w) in
  walking cutoff w' /\ cost w' < cost w /\ advances cutoff w w'.
Proof.
  intros Hw Ha Ht Hs Hb Hz Hr Hx w'. pose proof Hw as [Hti Hal Hbu Hli Hth Hso Hld Hda].
  assert (Hrs : ssorted (x :: rest)) by (rewrite <- Hr; by apply drop_upto_sorted). pose proof Hrs as [_ Hmin]%ssorted_cons.
  assert (Hel : forall y, y ∈ x :: rest <-> y ∈ k_starts w /\ k_s w < y) by (intros y; rewrite <- Hr; by apply drop_upto_elem).
  destruct (proj1 (Hel x) ltac:(left)) as [Hxs Hxgt]. destruct (Hth x Hxs ltac:(lia)) as [b Hxb]. destruct (Hbu x ltac:(by rewrite Hxb)) as (Hxt & Hxa & _).
  assert (Hno : forall y, y < x -> k_buckets w !! y = None).
  { apply (jump_none cutoff w x Hw Hb); [|lia]. rewrite Hr. intros y [->|Hy]%elem_of_cons; [lia|]. specialize (Hmin y Hy). lia. }
  split; [|split; [|split; [cbn; lia|split]]].
  - constructor; cbn [k_s k_starts k_buckets k_lastData w']; [done|done| | | |done|done|left; by rewrite Hxb].
    + intros y Hy. destruct (Hbu y Hy) as (? & ? & ?). split; [done|]. split; [done|]. destruct (decide (x <= y)); [done|]. rewrite (Hno y) in Hy by lia. by destruct Hy.
    + intros y Hy Hlt. apply Hel. split; [by apply Hli|]. destruct (decide (x <= y)); [lia|]. rewrite (Hno y) in Hy by lia. by destruct Hy.
    + intros y Hy _. apply Hel in Hy as [Hy ?]. apply Hth; [done|lia].
  - unfold cost. cbn [k_s k_starts k_buckets k_lastData w']. rewrite Hb, Hxb. assert (0 <= expiry / iv) by (apply Z.div_pos; lia).
    assert (ahead x (x :: rest) <= ahead (k_s w) (k_starts w)); [|nia]. unfold ahead, ulen. apply Nat2Z.inj_le. apply submseteq_length, NoDup_submseteq; [by apply NoDup_filter, ssorted_NoDup|].
    intros y [_ Hy]%list_elem_of_filter. apply list_elem_of_filter. apply Hel in Hy as [? ?]. split; [lia|done].
  - intros y. cbn. destruct (Z.ltb_spec y x); [|done]. by apply Hno.
  - exists []. split; [cbn; by rewrite app_nil_r|]. cbn [k_s k_buckets k_lastData w' app]. destruct (rounds_split (k_s w) x cutoff Hal Hxa Ha ltac:(lia)) as [-> Ex].
    rewrite every_gap; [rewrite Ex; by destruct (every_bucket _ _ _ _)|done|]. intros y Hy. apply Hno. lia.
Qed.
Lemma walk_rest cutoff w : walking cutoff w -> (iv | cutoff) -> k_s w < cutoff -> k_buckets w !! k_s w = None -> k_lastData w + expiry < k_s w ->
  (forall y, y ∈ drop_upto (k_s w) (k_starts w) -> cutoff <= y) ->
  every_bucket (rounds (k_s w) cutoff) (k_s w) (k_buckets w) (k_lastData w) = ([], k_lastData w) /\ left_from cutoff (k_buckets w) (k_buckets w).
Proof.
  intros Hw Ha Hs Hb Hz Hr. assert (Hno : forall y, y < cutoff -> k_buckets w !! y = None) by (apply (jump_none cutoff w cutoff Hw Hb Hr); lia). split.
  - destruct (rounds_split (k_s w) cutoff cutoff (wk_aligned _ _ Hw) Ha Ha ltac:(lia)) as [-> Ex]. rewrite every_gap; [|done|intros; apply Hno; lia]. by rewrite rounds_0 by lia.
  - intros y. destruct (Z.ltb_spec y cutoff); [by apply Hno|done].
Qed.

(** The walk ends, within the fuel, having sent what a walk over every bucket sends. *)
Lemma walk_loop_spec cutoff : (iv | cutoff) -> in_time cutoff -> forall fuel w, walking cutoff w -> cost w <= Z.of_nat fuel ->
  exists w', walk_loop fuel iv expiry cutoff w = Some w' /\ k_s w' = Z.max (k_s w) cutoff /\ left_from cutoff (k_buckets w) (k_buckets w') /\
    k_points w' = k_points w ++ (every_bucket (rounds (k_s w) cutoff) (k_s w) (k_buckets w) (k_lastData w)).1 /\
    k_lastData w' = (every_bucket (rounds (k_s w) cutoff) (k_s w) (k_buckets w) (k_lastData w)).2.
Proof.
  intros Ha Ht fuel. induction fuel as [|fuel IH]; intros w Hw Hc; cbn [walk_loop]; destruct (Z.ltb_spec (k_s w) cutoff) as [Hs|Hs];
    try (exists w; rewrite rounds_0 by lia; cbn [every_bucket fst snd]; rewrite app_nil_r; split; [done|]; split; [lia|]; split; [|done]; intros x; destruct (Z.ltb_spec x cutoff); [apply (none_before cutoff w x Hw); lia|done]).
  { exfalso. unfold cost, ahead, ulen in Hc. assert (0 <= expiry / iv) by (apply Z.div_pos; lia). destruct (k_buckets w !! k_s w) eqn:Hb; [|nia].
    pose proof (ahead_hit (k_s w) (k_s w + iv) (k_starts w) ltac:(lia) (wk_listed _ _ Hw _ ltac:(by rewrite Hb) Hs)) as Hah. unfold ahead, ulen in Hah. nia. }
  assert (Hgo : forall w', walk_step iv expiry cutoff w = inl w' -> walking cutoff w' /\ cost w' < cost w /\ advances cutoff w w' ->
    exists w'', (match walk_step iv expiry cutoff w with inl w => walk_loop fuel iv expiry cutoff w | inr w => Some w end) = Some w'' /\ k_s w'' = Z.max (k_s w) cutoff /\ left_from cutoff (k_buckets w) (k_buckets w'') /\
    k_points w'' = k_points w ++ (every_bucket (rounds (k_s w) cutoff) (k_s w) (k_buckets w) (k_lastData w)).1 /\
    k_lastData w'' = (every_bucket (rounds (k_s w) cutoff) (k_s w) (k_buckets w) (k_lastData w)).2).
  { intros w' -> (Hw' & Hc' & (Hlt & Hlf & ps & Hps & Hev)). destruct (IH w' Hw' ltac:(lia)) as (w'' & E & Es & Hl & Ep & Ed). exists w''. split; [done|]. split; [lia|]. split; [|rewrite Hev; cbn [fst snd]; rewrite Ep, Hps, <- app_assoc; done].
    intros x. rewrite (Hl x), (Hlf x). destruct (Z.ltb_spec x cutoff); [done|]. rewrite (proj2 (Z.ltb_ge _ _)) by lia. done. }
  pose proof Hw as [Hti _ _ _ _ _ Hld _]. unfold walk_step in *. unfold in_time in *. rewrite !(int64_id (k_s w + iv)) in * by (unfold is_i64; lia). rewrite (int64_id (k_lastData w + expiry)) in * by (unfold is_i64; lia).
  destruct (k_buckets w !! k_s w) as [b|] eqn:Hb; [eapply Hgo; [done|]; by apply walk_hit|]. destruct (Z.leb_spec (k_s w) (k_lastData w + expiry)) as [Hz|Hz]; [eapply Hgo; [done|]; by apply walk_zero|].
  assert (Hend : (forall y, y ∈ drop_upto (k_s w) (k_starts w) -> cutoff <= y) -> exists w', Some (MkWalk cutoff (drop_upto (k_s w) (k_starts w)) (k_buckets w) (k_lastData w) (k_points w)) = Some w' /\ k_s w' = Z.max (k_s w) cutoff /\ left_from cutoff (k_buckets w) (k_buckets w') /\
    k_points w' = k_points w ++ (every_bucket (rounds (k_s w) cutoff) (k_s w) (k_buckets w) (k_lastData w)).1 /\
    k_lastData w' = (every_bucket (rounds (k_s w) cutoff) (k_s w) (k_buckets w) (k_lastData w)).2).
  { intros Hr. destruct (walk_rest cutoff w Hw Ha Hs Hb ltac:(lia) Hr) as [Hev Hl]. eexists. split; [done|]. rewrite Hev. cbn. split; [lia|]. by rewrite app_nil_r. }
  destruct (drop_upto (k_s w) (k_starts w)) as [|x rest] eqn:Hr; [apply Hend; by intros y ?%elem_of_nil|].
  pose proof (drop_upto_sorted (k_s w) (k_starts w) (wk_sorted _ _ Hw)) as Hrs. rewrite Hr in Hrs. apply ssorted_cons in Hrs as [_ Hmin]. destruct (Z.leb_spec cutoff x) as [Hx|Hx].
  - apply Hend. intros y [->|Hy]%elem_of_cons; [done|]. specialize (Hmin y Hy). lia.
  - eapply Hgo; [done|]. by apply walk_jump.
Qed.

(** ** Which points those are *)

(** The last data before [t], [d] being the last before [s]. *)
Definition latest (bs : gmap Z bucket) (s d t e : Z) : Prop :=
  (is_Some (bs !! e) /\ s <= e < t /\ (forall x, is_Some (bs !! x) -> s <= x < t -> x <= e)) \/ (e = d /\ forall x, is_Some (bs !! x) -> ~ s <= x < t).

Lemma latest_first bs s d e : latest bs s d s e <-> e = d.
Proof. split; [intros [(_ & ? & _)|[-> _]]; [lia|done]|]. intros ->. right. split; [done|]. intros x _. lia. Qed.
Lemma latest_next bs s d t e : (iv | s) -> (forall x, is_Some (bs !! x) -> (iv | x)) -> s + iv <= t ->
  latest bs s d t e <-> latest bs (s + iv) (if bs !! s then s else d) t e.
Proof.
  intros Hs Ha Ht. assert (Hgrid : forall x, is_Some (bs !! x) -> s <= x -> x = s \/ s + iv <= x).
  { intros x Hx Hle. destruct (decide (x = s)); [by left|right]. apply multiple_next; [done|by apply Ha|lia]. }
  unfold latest. destruct (bs !! s) as [b|] eqn:Eb.
  - assert (Hsb : is_Some (bs !! s)) by by rewrite Eb. split.
    + intros [(He & Hr & Hm)|[-> Hn]]; [|exfalso; apply (Hn s Hsb); lia]. destruct (Hgrid e He ltac:(lia)) as [->|Hge]; [right|left].
      * split; [done|]. intros x Hx Hin. specialize (Hm x Hx ltac:(lia)). lia.
      * split; [done|]. split; [lia|]. intros x Hx Hin. apply Hm; [done|lia].
    + intros [(He & Hr & Hm)|[-> Hn]]; left.
      * split; [done|]. split; [lia|]. intros x Hx Hin. destruct (Hgrid x Hx ltac:(lia)) as [->|?]; [lia|]. apply Hm; [done|lia].
      * split; [done|]. split; [lia|]. intros x Hx Hin. destruct (Hgrid x Hx ltac:(lia)) as [->|?]; [lia|]. exfalso. apply (Hn x Hx). lia.
  - assert (Hns : forall x, is_Some (bs !! x) -> s <= x -> s + iv <= x) by (intros x Hx Hle; destruct (Hgrid x Hx Hle) as [->|?]; [rewrite Eb in Hx; by destruct Hx|done]). split.
    + intros [(He & Hr & Hm)|[-> Hn]]; [left|right]; [pose proof (Hns e He ltac:(lia)); split; [done|]; split; [lia|]; intros x Hx Hin; apply Hm; [done|lia]|]. split; [done|]. intros x Hx Hin. apply (Hn x Hx). lia.
    + intros [(He & Hr & Hm)|[-> Hn]]; [left|right].
      * split; [done|]. split; [lia|]. intros x Hx Hin. pose proof (Hns x Hx ltac:(lia)). apply Hm; [done|lia].
      * split; [done|]. intros x Hx Hin. pose proof (Hns x Hx ltac:(lia)). apply (Hn x Hx). lia.
Qed.

(** The value sent for the bucket at [t]: its sum, or zero within the expiry of the last data. *)
Definition fills (bs : gmap Z bucket) (s d : Z) (p : Point) : Prop :=
  match bs !! p_Timestamp p with
  | Some b => p_Value p = b_sum b
  | None => p_Value p = 0 /\ exists e, latest bs s d (p_Timestamp p) e /\ p_Timestamp p <= e + expiry
  end.

Lemma every_bounds n : forall s bs d p, (iv | s) -> p ∈ (every_bucket n s bs d).1 -> s <= p_Timestamp p < s + Z.of_nat n * iv /\ (iv | p_Timestamp p).
Proof.
  induction n as [|n IH]; intros s bs d p Hs Hp; [by apply elem_of_nil in Hp|]. cbn [every_bucket] in Hp. assert (Hs' : (iv | s + iv)) by (by apply Z.divide_add_r; [|exists 1; lia]).
  assert (Hin : forall d', p ∈ (every_bucket n (s + iv) bs d').1 -> s <= p_Timestamp p < s + Z.of_nat (S n) * iv /\ (iv | p_Timestamp p)).
  { intros d' Hp'. apply IH in Hp' as [? ?]; [|done]. split; [lia|done]. }
  assert (Hhd : forall v, p = MkPoint s v -> s <= p_Timestamp p < s + Z.of_nat (S n) * iv /\ (iv | p_Timestamp p)) by (intros v ->; cbn; split; [lia|done]).
  destruct (bs !! s) as [b|].
  - destruct (every_bucket n (s + iv) bs s) as [ps d'] eqn:E. cbn in Hp. apply elem_of_cons in Hp as [->|Hp]; [by eapply Hhd|]. apply (Hin s). by rewrite E.
  - destruct (every_bucket n (s + iv) bs d) as [ps d'] eqn:E. cbn in Hp. assert (p = MkPoint s 0 \/ p ∈ ps) as [->|Hp'] by (destruct (_ <=? _); [by apply elem_of_cons in Hp|by right]); [by eapply Hhd|]. apply (Hin d). by rewrite E.
Qed.
Lemma every_sorted n : forall s bs d, (iv | s) -> ssorted (p_Timestamp <$> (every_bucket n s bs d).1).
Proof.
  induction n as [|n IH]; intros s bs d Hs; [constructor|]. cbn [every_bucket]. assert (Hs' : (iv | s + iv)) by (by apply Z.divide_add_r; [|exists 1; lia]).
  assert (Hc : forall d' v, ssorted (p_Timestamp <$> MkPoint s v :: (every_bucket n (s + iv) bs d').1)).
  { intros d' v. cbn [fmap list_fmap]. apply ssorted_cons. split; [by apply IH|]. intros y (q & -> & Hq)%list_elem_of_fmap. apply every_bounds in Hq as [? _]; [cbn; lia|done]. }
  destruct (bs !! s) as [b|].
  - specialize (Hc s (b_sum b)). by destruct (every_bucket n (s + iv) bs s).
  - specialize (Hc d 0). specialize (IH (s + iv) bs d Hs'). destruct (every_bucket n (s + iv) bs d). cbn in *. by destruct (_ <=? _).
Qed.
Lemma every_elem n : forall s bs d p, (iv | s) -> (forall x, is_Some (bs !! x) -> (iv | x)) ->
  p ∈ (every_bucket n s bs d).1 <-> s <= p_Timestamp p < s + Z.of_nat n * iv /\ (iv | p_Timestamp p) /\ fills bs s d p.
Proof.
  induction n as [|n IH]; intros s bs d [t v] Hs Ha; cbn [every_bucket p_Timestamp p_Value].
  { cbn. split; [by intros ?%elem_of_nil|lia]. }
  assert (Hs' : (iv | s + iv)) by (by apply Z.divide_add_r; [|exists 1; lia]). unfold fills. cbn [p_Timestamp p_Value].
  assert (Hsplit : s <= t < s + Z.of_nat (S n) * iv /\ (iv | t) <-> t = s \/ (s + iv <= t < s + iv + Z.of_nat n * iv /\ (iv | t))).
  { split; [intros [? ?]; destruct (decide (t = s)); [by left|right; split; [split; [apply multiple_next; [done|done|lia]|lia]|done]]|intros [->|[? ?]]; split; [lia|done|lia|done]]. }
  specialize (IH (s + iv) bs (if bs !! s then s else d) (MkPoint t v) Hs' Ha). unfold fills in IH. cbn [p_Timestamp p_Value] in IH.
  assert (Htail : (MkPoint t v ∈ (every_bucket n (s + iv) bs (if bs !! s then s else d)).1) <-> (t <> s /\ (s <= t < s + Z.of_nat (S n) * iv /\ (iv | t)) /\
     match bs !! t with Some b => v = b_sum b | None => v = 0 /\ exists e, latest bs s d t e /\ t <= e + expiry end)).
  { rewrite IH, Hsplit. split.
    - intros (Hr & Ht & Hv). split; [lia|]. split; [by right|]. destruct (bs !! t); [done|]. destruct Hv as (-> & e & He & ?). split; [done|]. exists e. rewrite latest_next; [done|done|done|lia].
    - intros (Hne & [->|[Hr Ht]] & Hv); [done|]. split; [done|]. split; [done|]. destruct (bs !! t); [done|]. destruct Hv as (-> & e & He & ?). split; [done|]. exists e. rewrite latest_next in He; [done|done|done|lia]. }
  transitivity ((s <= t < s + Z.of_nat (S n) * iv /\ (iv | t)) /\ match bs !! t with Some b => v = b_sum b | None => v = 0 /\ exists e, latest bs s d t e /\ t <= e + expiry end); [|tauto].
  destruct (bs !! s) as [b|] eqn:Eb; destruct (every_bucket n _ _ _) as [ps d']; cbn [fst snd] in *.
  - rewrite elem_of_cons, Htail. split.
    + intros [[= -> ->]|(Hne & ? & ?)]; [|done]. rewrite Hsplit, Eb. split; [by left|done].
    + intros [Hr Hv]. destruct (decide (t = s)) as [->|Hne]; [left; rewrite Eb in Hv; by subst v|right; done].
  - assert (Hx : forall P : bool, (MkPoint t v ∈ (if P then MkPoint s 0 :: ps else ps)) <-> (t = s /\ v = 0 /\ P = true) \/ MkPoint t v ∈ ps).
    { intros []; [rewrite elem_of_cons|]; split; [intros [[= -> ->]|?]; [by left|by right]|intros [(-> & -> & _)|?]; [by left|by right]|by right|intros [(_ & _ & ?)|?]; done]. }
    rewrite Hx, Htail, Z.leb_le. split.
    + intros [(-> & -> & ?)|(Hne & ? & ?)]; [|done]. rewrite Hsplit, Eb. split; [by left|]. split; [done|]. exists d. by rewrite latest_first.
    + intros [Hr Hv]. destruct (decide (t = s)) as [->|Hne]; [left|right; done]. rewrite Eb in Hv. destruct Hv as (-> & e & ->%latest_first & ?). done.
Qed.
Lemma every_last n : forall s bs d, let d' := (every_bucket n s bs d).2 in d' = d \/ s <= d' < s + Z.of_nat n * iv.
Proof.
  induction n as [|n IH]; intros s bs d; [by left|]. cbn [every_bucket]. destruct (bs !! s).
  - specialize (IH (s + iv) bs s). destruct (every_bucket n (s + iv) bs s). cbn in *. right. lia.
  - specialize (IH (s + iv) bs d). destruct (every_bucket n (s + iv) bs d). cbn in *. lia.
Qed.
Lemma every_last_hit n s bs d : is_Some (bs !! s) -> s <= (every_bucket (S n) s bs d).2 < s + Z.of_nat (S n) * iv.
Proof. intros [b Hb]. cbn [every_bucket]. rewrite Hb. pose proof (every_last n (s + iv) bs s) as H. destruct (every_bucket n (s + iv) bs s). cbn in *. lia. Qed.
End Walk.

(** ** A context, before and after a flush *)

Record agg_ok (a : Aggregator) : Prop := {
  ok_interval : 0 < a_interval a < 2 ^ 34;
  ok_expiry : 0 <= a_expiry a < 2 ^ 34;
  ok_cap : 1 <= a_histCap a;
}.

(** Nothing before [E] is open. *)
Record ctx_ok (a : Aggregator) (E : Z) (c : aggContext) : Prop := {
  cx_kind : Counter <= c_kind c <= Distribution;
  cx_buckets s : is_Some (c_buckets c !! s) -> in_time s /\ (a_interval a | s) /\ E <= s;
  cx_next : c_kind c = Counter -> in_time (c_next c) /\ (a_interval a | c_next c) /\ E <= c_next c /\ in_time (c_lastData c) /\
    (forall s, is_Some (c_buckets c !! s) -> c_next c <= s) /\ (is_Some (c_buckets c !! c_next c) \/ c_lastData c < c_next c);
}.

Lemma elem_of_bucket_starts c s : s ∈ bucket_starts c <-> is_Some (c_buckets c !! s).
Proof.
  unfold bucket_starts. rewrite list_elem_of_fmap. split.
  - intros ([x b] & -> & Hx%elem_of_map_to_list). by exists b.
  - intros [b Hb]. exists (s, b). split; [done|]. by apply elem_of_map_to_list.
Qed.
Lemma bucket_starts_NoDup c : NoDup (bucket_starts c).
Proof. apply NoDup_fst_map_to_list. Qed.

Section FlushOne.
Context (a : Aggregator) (c : aggContext) (E cutoff nowS : Z) (final : bool).
Context (Ha : agg_ok a) (Hc : ctx_ok a E c) (Hct : in_time cutoff) (Hca : (a_interval a | cutoff)).

Abbreviation starts := (due_starts cutoff nowS final c).

Lemma due_spec s : due cutoff nowS final s = true <-> s < cutoff \/ (final = true /\ s <= nowS).
Proof. unfold due, held_back. destruct final, (Z.leb_spec cutoff s), (Z.ltb_spec nowS s), (Z.ltb_spec s cutoff); cbn; split; intros; try done; try lia; destruct H4 as [?|[? ?]]; try done; lia. Qed.
Lemma starts_elem s : s ∈ starts <-> is_Some (c_buckets c !! s) /\ due cutoff nowS final s = true.
Proof. unfold due_starts. rewrite merge_sort_Permutation, list_elem_of_filter, elem_of_bucket_starts. tauto. Qed.
Lemma starts_sorted : ssorted starts.
Proof.
  apply ssorted_strict. assert (Hn : NoDup starts) by (unfold due_starts; rewrite merge_sort_Permutation; apply NoDup_filter, bucket_starts_NoDup).
  pose proof (StronglySorted_merge_sort Z.le (base.filter (fun s => due cutoff nowS final s = true) (bucket_starts c))) as HS. fold starts in HS. revert HS Hn. generalize starts. clear. intros l HS. induction HS as [|x l HS IH Hx]; [constructor|].
  intros [Hn Hd]%NoDup_cons. constructor; [by apply IH|]. rewrite Forall_forall in *. intros y Hy. split; [by apply Hx|]. intros ->. done.
Qed.
Lemma starts_time : Forall in_time starts.
Proof. apply Forall_forall. intros s [Hs _]%starts_elem. by apply (cx_buckets _ _ _ Hc). Qed.

(** Deleting the starts leaves what is not due. *)
Lemma lookup_deleted (bs : gmap Z bucket) l s : foldr delete bs l !! s = if bool_decide (s ∈ l) then None else bs !! s.
Proof.
  induction l as [|x l IH]; cbn [foldr]; [by rewrite bool_decide_eq_false_2 by apply not_elem_of_nil|]. destruct (decide (s = x)) as [->|Hne].
  - rewrite lookup_delete_eq. rewrite bool_decide_eq_true_2; [done|left].
  - rewrite lookup_delete_ne by done. rewrite IH. destruct (decide (s ∈ l)); [rewrite !bool_decide_eq_true_2; [done|by right|done]|]. rewrite !bool_decide_eq_false_2; [done|by apply not_elem_of_cons|done].
Qed.

Lemma rows_stamps : (rows_of c starts).*1 = starts.
Proof.
  unfold rows_of. assert (H : Forall (fun s => is_Some (c_buckets c !! s)) starts) by (apply Forall_forall; intros s Hs; by apply starts_elem in Hs as [? _]).
  induction H as [|s l [b Hb] _ IH]; [done|]. cbn [omap list_omap]. rewrite Hb. cbn. by rewrite IH.
Qed.
Lemma rows_elem s b : (s, b) ∈ rows_of c starts <-> c_buckets c !! s = Some b /\ due cutoff nowS final s = true.
Proof.
  unfold rows_of. rewrite list_elem_of_omap. split.
  - intros (x & Hx & Hb). destruct (c_buckets c !! x) eqn:Eb; [|done]. injection Hb as -> ->. apply starts_elem in Hx as [_ ?]. done.
  - intros [Hb Hd]. exists s. rewrite Hb. split; [|done]. apply starts_elem. by rewrite Hb.
Qed.

(** The points of a counter: those of every closed bucket, and at the end those of the open ones. *)
Definition counter_points : list Point :=
  (every_bucket (a_interval a) (a_expiry a) (rounds (a_interval a) (c_next c) cutoff) (c_next c) (c_buckets c) (c_lastData c)).1
  ++ (row ([], KindCount, b_sum) <$> base.filter (fun sb => cutoff <= sb.1) (rows_of c starts)).

Definition sent_series : list Series :=
  if c_kind c =? Counter then match counter_points with [] => [] | _ => [column_series c (a_interval a) ([], KindCount, b_sum) counter_points] end
  else match rows_of c starts with [] => [] | _ => (fun k => series_of c (a_interval a) k (rows_of c starts)) <$> columns (c_kind c) end.
Definition sent_sketches : list SketchSeries :=
  if c_kind c =? Distribution then match sketch_points (rows_of c starts) with [] => [] | ps => [MkSketchSeries (c_name c) (c_tags c) (a_interval a) ps] end
  else [].

Lemma counter_points_sorted : c_kind c = Counter -> ssorted (p_Timestamp <$> counter_points) /\ Forall (fun p => in_time (p_Timestamp p)) counter_points.
Proof.
  intros Hk. destruct (cx_next _ _ _ Hc Hk) as (Hnt & Hna & _ & _ & _ & _). destruct Ha as [Hiv Hex _]. unfold counter_points. set (ev := every_bucket _ _ _ _ _ _).
  assert (Hev : forall p, p ∈ ev.1 -> c_next c <= p_Timestamp p < cutoff).
  { intros p Hp. pose proof Hp as Hp'. apply every_bounds in Hp as [Hp _]; [|done..]. split; [lia|]. destruct (decide (cutoff <= c_next c)) as [Hle|Hgt].
    - unfold ev in Hp'. rewrite rounds_0 in Hp' by (first [done|lia]). by apply elem_of_nil in Hp'.
    - destruct (rounds_split _ Hiv (c_next c) cutoff cutoff Hna Hca Hca ltac:(lia)) as [_ Er]. lia. }
  assert (Hop : forall p, p ∈ row ([], KindCount, b_sum) <$> base.filter (fun sb => cutoff <= sb.1) (rows_of c starts) -> cutoff <= p_Timestamp p /\ in_time (p_Timestamp p)).
  { intros p ([s b] & -> & Hin)%list_elem_of_fmap. apply list_elem_of_filter in Hin as [Hge Hin]. apply rows_elem in Hin as [Hb _]. cbn in *. split; [done|]. apply (cx_buckets _ _ _ Hc). by rewrite Hb. }
  split.
  - rewrite fmap_app. apply ssorted_app. split; [by apply every_sorted|]. split.
    + rewrite <- list_fmap_compose. assert (Hrs : ssorted (rows_of c starts).*1) by (rewrite rows_stamps; apply starts_sorted). revert Hrs. generalize (rows_of c starts). clear. intros l. induction l as [|[s b] l IH]; [constructor|].
      cbn [fmap list_fmap]. intros [Hl Hs]%ssorted_cons. rewrite filter_cons. case_decide; [|by apply IH]. cbn [fmap list_fmap]. apply ssorted_cons. split; [by apply IH|]. intros y ([s' b'] & -> & [_ Hin]%list_elem_of_filter)%list_elem_of_fmap. cbn. apply Hs. by apply (list_elem_of_fmap_2 fst) in Hin.
    + intros x y (p & -> & Hp)%list_elem_of_fmap (q & -> & Hq)%list_elem_of_fmap. specialize (Hev p Hp). specialize (Hop q Hq). lia.
  - apply Forall_app. split; apply Forall_forall; intros p Hp; [|by apply Hop]. specialize (Hev p Hp). unfold in_time in *. lia.
Qed.

Definition as_row (p : Point) : Z * bucket := (p_Timestamp p, MkBucket (p_Value p) 0 ∅ 0 0 0 0 [] None).
Lemma emit_points ps : let e := foldl (fun e p => emit c (a_interval a) [] KindCount (p_Timestamp p) (p_Value p) e) new_emitter ps in
  e_series e = table c (a_interval a) [([], KindCount, b_sum)] (as_row <$> ps) /\ e_sketch e = None.
Proof.
  induction ps as [|p ps [IH1 IH2]] using rev_ind; cbn zeta in *; [done|]. rewrite foldl_app. cbn [foldl]. split; [|done].
  rewrite fmap_app. apply (emit_row_table c (a_interval a) [([], KindCount, b_sum)] (as_row <$> ps) (as_row p)); [apply NoDup_singleton|done].
Qed.
Lemma emitted_points ps : ssorted (p_Timestamp <$> ps) -> Forall (fun p => in_time (p_Timestamp p)) ps ->
  emitted_series (foldl (fun e p => emit c (a_interval a) [] KindCount (p_Timestamp p) (p_Value p) e) new_emitter ps)
  = match ps with [] => [] | _ => [column_series c (a_interval a) ([], KindCount, b_sum) ps] end.
Proof.
  intros Hs Ht. destruct (emit_points ps) as [E1 E2]. set (e := foldl _ _ ps) in *. destruct e as [es sk]. cbn in E1, E2. subst es sk.
  assert (Er : (as_row <$> ps).*1 = p_Timestamp <$> ps) by (by rewrite <- list_fmap_compose). rewrite sorted_series.
  - destruct ps as [|p ps]; [done|]. cbn [fmap list_fmap]. unfold series_of. do 2 f_equal. change (row ([], KindCount, b_sum) <$> as_row p :: (as_row <$> ps)) with (row ([], KindCount, b_sum) <$> (as_row <$> p :: ps)). rewrite <- list_fmap_compose. generalize (p :: ps). intros l. induction l as [|[t v] l IH]; [done|]. cbn [fmap list_fmap]. f_equal. exact IH.
  - by rewrite Er.
  - rewrite Er. apply Forall_fmap. exact Ht.
Qed.

Lemma counter_walk : c_kind c = Counter -> walking (a_interval a) cutoff (MkWalk (c_next c) starts (c_buckets c) (c_lastData c) []).
Proof.
  intros Hk. destruct (cx_next _ _ _ Hc Hk) as (Hnt & Hna & _ & Hld & Hge & Hda). constructor; cbn [k_s k_starts k_buckets k_lastData]; [done|done| | | |apply starts_sorted|done|done].
  - intros x Hx. destruct (cx_buckets _ _ _ Hc x Hx) as (? & ? & _). split; [done|]. split; [done|]. by apply Hge.
  - intros x Hx Hlt. apply starts_elem. split; [done|]. apply due_spec. by left.
  - intros x Hx _. by apply starts_elem in Hx as [? _].
Qed.
(** The fuel does not depend on how far the walk has to go. *)
Lemma counter_cost : c_kind c = Counter -> cost (a_interval a) (a_expiry a) (MkWalk (c_next c) starts (c_buckets c) (c_lastData c) []) <= Z.of_nat (walk_fuel (a_interval a) (a_expiry a) starts).
Proof.
  intros Hk. destruct (cx_next _ _ _ Hc Hk) as (_ & _ & _ & _ & _ & Hda). destruct Ha as [Hiv Hex _]. unfold cost, walk_fuel. cbn [k_s k_starts k_buckets k_lastData].
  assert (HE : 0 <= a_expiry a / a_interval a) by (apply Z.div_pos; lia). assert (Hah : 0 <= ahead (c_next c) starts <= ulen starts) by (unfold ahead, ulen; pose proof (length_filter (fun x => c_next c <= x) starts); lia).
  rewrite Z2Nat.id by (unfold ulen in *; nia). destruct (c_buckets c !! c_next c) as [b|] eqn:Eb; [nia|]. assert (c_lastData c < c_next c) by (destruct Hda as [[? ?]|?]; [done|lia]).
  assert ((c_lastData c + a_expiry a - c_next c) / a_interval a <= a_expiry a / a_interval a) by (apply Z.div_le_mono; lia). nia.
Qed.

Lemma open_rows bs : left_from cutoff (c_buckets c) bs ->
  flush_open starts bs = row ([], KindCount, b_sum) <$> base.filter (fun sb => cutoff <= sb.1) (rows_of c starts).
Proof.
  intros Hl. unfold flush_open, rows_of. generalize starts. intros l. induction l as [|s l IH]; [done|]. cbn [omap list_omap]. rewrite (Hl s).
  destruct (Z.ltb_spec s cutoff) as [Hs|Hs].
  - destruct (c_buckets c !! s) as [b|]; cbn [fmap option_fmap option_map]; [|exact IH]. rewrite filter_cons, decide_False by (cbn; lia). exact IH.
  - destruct (c_buckets c !! s) as [b|]; cbn [fmap option_fmap option_map]; [|exact IH]. rewrite filter_cons, decide_True by (cbn; lia). cbn [fmap list_fmap]. f_equal. exact IH.
Qed.

(** The context after the flush. *)
Record left_of (c' : aggContext) : Prop := {
  lf_name : c_name c' = c_name c;
  lf_tags : c_tags c' = c_tags c;
  lf_kind : c_kind c' = c_kind c;
  lf_seen : c_lastSeen c' = c_lastSeen c;
  lf_buckets s : c_buckets c' !! s = if due cutoff nowS final s then None else c_buckets c !! s;
  lf_next : c_kind c = Counter -> c_next c' = Z.max (c_next c) cutoff /\
    c_lastData c' = (every_bucket (a_interval a) (a_expiry a) (rounds (a_interval a) (c_next c) cutoff) (c_next c) (c_buckets c) (c_lastData c)).2;
}.

Lemma deleted_due (bs : gmap Z bucket) s : (bs = c_buckets c \/ left_from cutoff (c_buckets c) bs) ->
  foldr delete bs starts !! s = if due cutoff nowS final s then None else c_buckets c !! s.
Proof.
  intros Hbs. rewrite lookup_deleted. destruct (due cutoff nowS final s) eqn:Hd.
  - destruct (decide (s ∈ starts)) as [Hin|Hin]; [by rewrite bool_decide_eq_true_2|]. rewrite bool_decide_eq_false_2 by done.
    assert (c_buckets c !! s = None) as Hn by (destruct (c_buckets c !! s) eqn:Eb; [|done]; exfalso; apply Hin, starts_elem; by rewrite Eb). destruct Hbs as [->|Hl]; [done|]. rewrite (Hl s), Hn. by destruct (s <? cutoff).
  - rewrite bool_decide_eq_false_2; [|intros [_ ?]%starts_elem; congruence]. destruct Hbs as [->|Hl]; [done|]. rewrite (Hl s). destruct (Z.ltb_spec s cutoff) as [Hs|]; [|done].
    exfalso. assert (due cutoff nowS final s = true); [|congruence]. apply due_spec. by left.
Qed.

Lemma flush_context : exists c', flushContext a cutoff final nowS c = Some (c', sent_series, sent_sketches) /\ left_of c'.
Proof.
  unfold flushContext, sent_series, sent_sketches. destruct (c_kind c =? Counter) eqn:Hk.
  - apply Z.eqb_eq in Hk. destruct Ha as [Hiv Hex _]. destruct (walk_loop_spec _ _ Hiv Hex cutoff Hca Hct _ _ (counter_walk Hk) (counter_cost Hk)) as (w & Ew & Es & Hl & Ep & Ed). cbn [k_s k_buckets k_points k_lastData app] in *.
    unfold flushCounter. rewrite Ew. cbn [mbind option_bind]. rewrite (open_rows _ Hl), Ep. fold counter_points. destruct (counter_points_sorted Hk) as [H1 H2]. rewrite (emitted_points _ H1 H2). assert ((c_kind c =? Distribution) = false) as -> by (by rewrite Hk). eexists. split; [done|].
    constructor; cbn [c_name c_tags c_kind c_lastSeen c_buckets c_next c_lastData]; [done|done|done|done|intros s; apply deleted_due; by right|].
    intros _. split; [|done]. rewrite Es. destruct (Z.ltb_spec (c_next c) (Z.max (c_next c) cutoff)); lia.
  - destruct (emit_buckets a c starts Hk) as [E1 E2]. set (e := foldl _ _ _) in *. eexists. split.
    + f_equal. f_equal; [f_equal|].
      * unfold emitted_series. rewrite E1. apply (sorted_series c (a_interval a) (columns (c_kind c)) (rows_of c starts)); rewrite rows_stamps; [apply starts_sorted|apply starts_time].
      * unfold emitted_sketches. rewrite E2. destruct (c_kind c =? Distribution); [|done]. destruct (sketch_points (rows_of c starts)) as [|p ps] eqn:Eps; [done|]. cbn [ss_Metric ss_Tags ss_Interval ss_Points]. f_equal. f_equal. apply sort_sketch_points. rewrite <- Eps.
        assert (Hrs : ssorted (rows_of c starts).*1) by (rewrite rows_stamps; apply starts_sorted). revert Hrs. generalize (rows_of c starts). clear. intros l. induction l as [|[s b] l IH]; [constructor|]. cbn [fmap list_fmap]. intros [Hl Hs]%ssorted_cons. cbn [sketch_points omap list_omap snd fst].
        destruct (b_sketch b) as [sk|]; cbn [fmap option_fmap option_map]; [|by apply IH]. cbn [list_fmap fmap]. apply ssorted_cons. split; [by apply IH|]. intros y (q & -> & Hq)%list_elem_of_fmap. apply list_elem_of_omap in Hq as ([s' b'] & Hin & Eq). cbn in Eq. destruct (b_sketch b'); [|done]. injection Eq as <-. cbn. apply Hs. by apply (list_elem_of_fmap_2 fst) in Hin.
    + constructor; cbn [c_name c_tags c_kind c_lastSeen c_buckets c_next c_lastData]; [done|done|done|done|intros s; apply deleted_due; by left|]. intros E'. by rewrite E' in Hk.
Qed.

(** ** What was sent, point by point *)

Definition sent_at (t : Z) : Prop := E <= t /\ in_time t /\ (t < cutoff \/ (final = true /\ t <= nowS)).
Lemma due_sent_at s : is_Some (c_buckets c !! s) -> due cutoff nowS final s = true -> sent_at s.
Proof. intros Hs Hd%due_spec. destruct (cx_buckets _ _ _ Hc s Hs) as (? & _ & ?). unfold sent_at. tauto. Qed.

(** A point is the value of its bucket, or a zero where a counter has none. *)
Definition valued (k : column) (p : Point) : Prop :=
  match c_buckets c !! p_Timestamp p with Some b => p_Value p = k.2 b | None => c_kind c = Counter /\ p_Value p = 0 end.

Lemma counter_points_spec : c_kind c = Counter ->
  (forall p, p ∈ counter_points -> sent_at (p_Timestamp p) /\ valued ([], KindCount, b_sum) p) /\
  (forall s b, c_buckets c !! s = Some b -> due cutoff nowS final s = true -> MkPoint s (b_sum b) ∈ counter_points).
Proof.
  intros Hk. destruct (cx_next _ _ _ Hc Hk) as (Hnt & Hna & HE & _ & Hge & _). pose proof (ok_interval _ Ha) as Hiv. pose proof (ok_expiry _ Ha) as Hex. assert (Hal : forall x, is_Some (c_buckets c !! x) -> (a_interval a | x)) by (intros x Hx; by apply (cx_buckets _ _ _ Hc)).
  unfold counter_points. split.
  - intros p [Hp|Hp]%elem_of_app.
    + pose proof Hp as Hp'. rewrite (every_elem _ _ Hiv) in Hp by done. destruct Hp as (Hr & _ & Hf). assert (Hcut : p_Timestamp p < cutoff).
      { destruct (decide (cutoff <= c_next c)); [by rewrite rounds_0 in Hp' by (first [done|lia]); apply elem_of_nil in Hp'|]. destruct (rounds_split _ Hiv (c_next c) cutoff cutoff Hna Hca Hca ltac:(lia)) as [_ Er]. lia. }
      split; [split; [lia|]; split; [unfold in_time in *; lia|by left]|]. unfold fills in Hf. unfold valued. destruct (c_buckets c !! p_Timestamp p); [done|]. by destruct Hf as [-> _].
    + apply list_elem_of_fmap in Hp as ([s b] & -> & [_ Hin]%list_elem_of_filter). apply rows_elem in Hin as [Hb Hd]. cbn [row p_Timestamp p_Value fst snd]. split; [apply due_sent_at; [by rewrite Hb|done]|]. unfold valued. cbn. by rewrite Hb.
  - intros s b Hb Hd. apply elem_of_app. specialize (Hge s ltac:(by rewrite Hb)). destruct (decide (s < cutoff)) as [Hs|Hs]; [left|right].
    + rewrite (every_elem _ _ Hiv) by done. cbn [p_Timestamp]. destruct (rounds_split _ Hiv (c_next c) cutoff cutoff Hna Hca Hca ltac:(lia)) as [_ Er]. split; [lia|]. split; [apply Hal; by rewrite Hb|]. unfold fills. cbn. by rewrite Hb.
    + apply list_elem_of_fmap. exists (s, b). split; [done|]. apply list_elem_of_filter. split; [cbn; lia|]. by apply rows_elem.
Qed.

Definition column_ok (sr : Series) (k : column) : Prop := k ∈ columns (c_kind c) /\ sr = column_series c (a_interval a) k (w_Points sr).

Lemma sent_series_spec sr : sr ∈ sent_series -> exists k, column_ok sr k /\ ssorted (p_Timestamp <$> w_Points sr) /\
  forall p, p ∈ w_Points sr -> sent_at (p_Timestamp p) /\ valued k p.
Proof.
  unfold sent_series. destruct (c_kind c =? Counter) eqn:Hk.
  - apply Z.eqb_eq in Hk. destruct (counter_points_sorted Hk) as [Hs _]. destruct (counter_points_spec Hk) as [Hp _]. destruct counter_points as [|p ps] eqn:Ep; [by intros ?%elem_of_nil|]. rewrite <- Ep in *. intros ->%list_elem_of_singleton.
    exists ([], KindCount, b_sum). split; [split; [rewrite Hk; left|done]|]. done.
  - destruct (rows_of c starts) as [|r rows] eqn:Er; [by intros ?%elem_of_nil|]. rewrite <- Er. intros (k & -> & Hin)%list_elem_of_fmap. exists k. split; [done|]. cbn [series_of column_series w_Points]. split.
    + rewrite <- list_fmap_compose. change (p_Timestamp ∘ row k) with (@fst Z bucket). rewrite rows_stamps. apply starts_sorted.
    + intros p ([s b] & -> & Hs)%list_elem_of_fmap. apply rows_elem in Hs as [Hb Hd]. split; [apply due_sent_at; [cbn; by rewrite Hb|done]|]. unfold valued. cbn. by rewrite Hb.
Qed.
Lemma sent_complete s b k : c_buckets c !! s = Some b -> due cutoff nowS final s = true -> k ∈ columns (c_kind c) ->
  exists sr, sr ∈ sent_series /\ column_ok sr k /\ MkPoint s (k.2 b) ∈ w_Points sr.
Proof.
  intros Hb Hd Hin. unfold sent_series. destruct (c_kind c =? Counter) eqn:Hk.
  - apply Z.eqb_eq in Hk. destruct (counter_points_spec Hk) as [_ Hp]. specialize (Hp s b Hb Hd). assert (k = ([], KindCount, b_sum)) as ->.
    { unfold columns in Hin. rewrite Hk in Hin. by apply list_elem_of_singleton in Hin. }
    destruct counter_points as [|p ps] eqn:Ep; [by apply elem_of_nil in Hp|]. rewrite <- Ep in *. eexists. split; [by left|]. split; [by split|]. done.
  - assert (Hr : (s, b) ∈ rows_of c starts) by by apply rows_elem. destruct (rows_of c starts) as [|r rows] eqn:Er; [by apply elem_of_nil in Hr|]. rewrite <- Er in *. exists (series_of c (a_interval a) k (rows_of c starts)). split; [by apply (list_elem_of_fmap_2 (fun k => series_of c (a_interval a) k (rows_of c starts)))|]. split; [by split|].
    cbn. apply list_elem_of_fmap. by exists (s, b).
Qed.
Lemma sent_series_names : NoDup (w_Metric <$> sent_series).
Proof.
  unfold sent_series. destruct (_ =? _); [destruct counter_points; [constructor|apply NoDup_singleton]|]. destruct (rows_of c starts) as [|r rows]; [constructor|]. rewrite <- list_fmap_compose.
  pose proof (columns_NoDup (c_kind c)) as Hn. revert Hn. generalize (columns (c_kind c)). intros l. induction l as [|k l IH]; [constructor|]. cbn [fmap list_fmap]. intros [Hk Hl]%NoDup_cons. constructor; [|by apply IH].
  intros (k' & Ek & Hk')%list_elem_of_fmap. cbn in Ek. apply app_inv_head in Ek. apply Hk. rewrite Ek. by apply (list_elem_of_fmap_2 suffix_of) in Hk'.
Qed.
Lemma sent_sketches_spec ss : ss ∈ sent_sketches -> c_kind c = Distribution /\ ssorted (sp_Timestamp <$> ss_Points ss) /\ sent_sketches = [ss] /\
  forall p, p ∈ ss_Points ss -> sent_at (sp_Timestamp p) /\ exists b sk, c_buckets c !! sp_Timestamp p = Some b /\ b_sketch b = Some sk /\ sp_Sketch p = ToWire sk.
Proof.
  unfold sent_sketches. destruct (Z.eqb_spec (c_kind c) Distribution) as [Hk|]; [|by intros ?%elem_of_nil]. destruct (sketch_points (rows_of c starts)) as [|p ps] eqn:Ep; [by intros ?%elem_of_nil|]. rewrite <- Ep. intros ->%list_elem_of_singleton. split; [done|]. cbn [ss_Points]. split; [|split; [done|]].
  - assert (Hrs : ssorted (rows_of c starts).*1) by (rewrite rows_stamps; apply starts_sorted). revert Hrs. generalize (rows_of c starts). clear. intros l. induction l as [|[s b] l IH]; [constructor|]. cbn [fmap list_fmap]. intros [Hl Hs]%ssorted_cons. cbn [sketch_points omap list_omap snd fst].
    destruct (b_sketch b) as [sk|]; cbn [fmap option_fmap option_map]; [|by apply IH]. cbn [list_fmap fmap]. apply ssorted_cons. split; [by apply IH|]. intros y (q & -> & Hq)%list_elem_of_fmap. apply list_elem_of_omap in Hq as ([s' b'] & Hin & Eq). cbn in Eq. destruct (b_sketch b'); [|done]. injection Eq as <-. cbn. apply Hs. by apply (list_elem_of_fmap_2 fst) in Hin.
  - intros q ([s b] & Hin & Eq)%list_elem_of_omap. cbn in Eq. destruct (b_sketch b) as [sk|] eqn:Eb; [|done]. injection Eq as <-. apply rows_elem in Hin as [Hb Hd]. cbn. split; [apply due_sent_at; [by rewrite Hb|done]|]. by exists b, sk.
Qed.
Lemma sketch_complete s b sk : c_kind c = Distribution -> c_buckets c !! s = Some b -> b_sketch b = Some sk -> due cutoff nowS final s = true ->
  exists ss, ss ∈ sent_sketches /\ MkSketchPoint s (ToWire sk) ∈ ss_Points ss.
Proof.
  intros Hk Hb Hsk Hd. assert (Hin : MkSketchPoint s (ToWire sk) ∈ sketch_points (rows_of c starts)).
  { apply list_elem_of_omap. exists (s, b). split; [by apply rows_elem|]. cbn. by rewrite Hsk. }
  unfold sent_sketches. rewrite Hk. cbn. destruct (sketch_points (rows_of c starts)); [by apply elem_of_nil in Hin|]. eexists. split; [by left|]. done.
Qed.
End FlushOne.

(** A flush that is not the last leaves nothing before its cutoff. *)
Lemma flush_keeps_ok a c E cutoff nowS c' : agg_ok a -> ctx_ok a E c -> in_time cutoff -> (a_interval a | cutoff) -> left_of a c cutoff nowS false c' -> ctx_ok a (Z.max E cutoff) c'.
Proof.
  intros Ha [Hk Hb Hn] Hct Hca [_ _ Ek _ Eb En]. assert (Hd : forall s, is_Some (c_buckets c' !! s) -> is_Some (c_buckets c !! s) /\ cutoff <= s).
  { intros s Hs. rewrite Eb in Hs. destruct (due cutoff nowS false s) eqn:Ed; [by destruct Hs|]. split; [done|]. destruct (decide (s < cutoff)); [|lia]. assert (due cutoff nowS false s = true); [|congruence]. apply due_spec. by left. }
  constructor; rewrite ?Ek; [done| |].
  - intros s Hs. destruct (Hd s Hs) as [H1 H2]. destruct (Hb s H1) as (? & ? & ?). split; [done|]. split; [done|]. lia.
  - intros E1. destruct (Hn E1) as (Hnt & Hna & HE & Hld & Hge & Hda). destruct (En E1) as [-> ->]. pose proof (ok_interval _ Ha) as Hiv. pose proof (ok_expiry _ Ha) as Hex. set (ev := every_bucket _ _ _ _ _ _).
    assert (Hlast : ev.2 = c_lastData c \/ c_next c <= ev.2 < cutoff).
    { destruct (every_last (a_interval a) (a_expiry a) Hiv (rounds (a_interval a) (c_next c) cutoff) (c_next c) (c_buckets c) (c_lastData c)) as [Hl|Hl]; [by left|right]. fold ev in Hl. destruct (decide (cutoff <= c_next c)); [rewrite rounds_0 in Hl by (first [done|lia]); lia|]. destruct (rounds_split _ Hiv (c_next c) cutoff cutoff Hna Hca Hca ltac:(lia)) as [_ Er]. lia. }
    unfold in_time in *. split; [lia|]. split; [destruct (Z.max_spec (c_next c) cutoff) as [[_ ->]|[_ ->]]; done|]. split; [lia|]. split; [lia|]. split; [intros s Hs; destruct (Hd s Hs) as [H1 H2]; specialize (Hge s H1); lia|].
    destruct (decide (c_next c < cutoff)) as [Hlt|Hle].
    + right. destruct Hda as [Hsome|?]; [|lia]. destruct (rounds_split _ Hiv (c_next c) cutoff cutoff Hna Hca Hca ltac:(lia)) as [_ Er]. unfold ev. rewrite (rounds_step _ Hiv _ _ Hna Hca Hlt) in *.
      pose proof (every_last_hit (a_interval a) (a_expiry a) Hiv (rounds (a_interval a) (c_next c + a_interval a) cutoff) (c_next c) (c_buckets c) (c_lastData c) Hsome). lia.
    + replace (Z.max (c_next c) cutoff) with (c_next c) by lia. unfold ev. rewrite rounds_0 by (first [done|lia]). cbn [every_bucket snd]. destruct Hda as [Hsome|?]; [left|by right]. rewrite Eb. destruct (due cutoff nowS false (c_next c)) eqn:Ed; [|done]. apply due_spec in Ed as [?|[? _]]; [lia|done].
Qed.
