(* ===== verification/AggregatorLife.v ===== *)
(** * The life of an aggregator

    Samples arrive while flushes run, shard by shard. Whatever the interleaving, no bucket of a context is sent
    twice, every accepted sample is counted in exactly one bucket, and what is sent for a bucket is the summary of the
    samples counted in it. *)

From Stdlib Require Import ZArith Lia SpecFloat Sorting.Sorted.
From Stdlib Require Import (notations) String.
From stdpp Require Import base gmap sorting numbers list.
From S2P Require Import Prelude Gofloat Gofloat64 Gostring Names IndexProofs HeadRecord Sketch Aggregator AggregatorFlush.

(** ** Times and buckets *)

Lemma floorTo_div t iv : 0 < iv -> is_i64 (t / iv * iv) -> floorTo t iv = t / iv * iv.
Proof.
  intros Hiv Hr. unfold floorTo. rewrite <- (int64_id (t / iv * iv)) by done. do 2 f_equal.
  destruct (Z.eqb_spec (Z.rem t iv) 0) as [E0|E0], (Z.ltb_spec t 0) as [Hn|Hn]; cbn [negb andb].
  - apply Z.rem_divide in E0 as [q ->]; [|lia]. by rewrite Z.quot_mul, Z.div_mul by lia.
  - by rewrite Z.quot_div_nonneg by lia.
  - pose proof (Z.quot_rem t iv ltac:(lia)) as E. pose proof (Z.rem_bound_pos_neg t iv ltac:(lia) ltac:(lia)). apply (Z.div_unique _ _ _ (Z.rem t iv + iv)); lia.
  - by rewrite Z.quot_div_nonneg by lia.
Qed.
Lemma floor_bounds t iv : 0 < iv -> t - iv < t / iv * iv <= t /\ (iv | t / iv * iv).
Proof. intros Hiv. pose proof (Z.div_mod t iv ltac:(lia)). pose proof (Z.mod_pos_bound t iv Hiv). split; [lia|]. by exists (t / iv). Qed.

(** Times at which the agent runs: at least an interval and at most 2^60 seconds after 1970. *)
Definition clock_ok (a : Aggregator) (T now : Z) : Prop := a_interval a <= Unix now <= T /\ T < 2 ^ 60.

Lemma cutoff_ok a T now : agg_ok a -> clock_ok a T now -> let c := floorTo (Unix now) (a_interval a) in in_time c /\ (a_interval a | c) /\ c <= Unix now.
Proof.
  intros Ha [Hn HT] c. pose proof (ok_interval _ Ha) as Hiv. destruct (floor_bounds (Unix now) (a_interval a) ltac:(lia)) as [Hb Hd]. assert (0 <= Unix now / a_interval a * a_interval a) by (apply Z.mul_nonneg_nonneg; [apply Z.div_pos; lia|lia]).
  assert (c = Unix now / a_interval a * a_interval a) as -> by (apply floorTo_div; [lia|unfold is_i64; lia]). unfold in_time. split; [lia|]. split; [done|lia].
Qed.

(** The watermark, before the first flush and after. *)
Definition mark_ok (a : Aggregator) : Prop := a_watermark a = MinInt64 \/ (in_time (a_watermark a) /\ (a_interval a | a_watermark a)).
Definition floor_ok (a : Aggregator) : Prop := in_time (a_first a) /\ (a_interval a | a_first a).

(** A sample lands in a bucket that is still open, on the grid, and not before its own time. *)
Lemma sample_start_ok a T s now : agg_ok a -> floor_ok a -> mark_ok a -> clock_ok a T now -> is_i64 (s_Timestamp s) ->
  let start := (sample_start s (Unix now) a).1 in in_time start /\ (a_interval a | start) /\ a_watermark a <= start /\ a_first a <= start /\ floorTo (sample_time s (Unix now)) (a_interval a) <= start.
Proof.
  intros Ha [Hft Hfa] Hm [Hn HT] Hts. pose proof (ok_interval _ Ha) as Hiv. set (n := Unix now) in *. set (iv := a_interval a) in *. assert (Hfl : floorTo (sample_time s n) iv < 2 ^ 61 /\ (iv | floorTo (sample_time s n) iv)).
  { assert (Hst : - 2 ^ 63 + iv <= sample_time s n < 2 ^ 60 + 100).
    { unfold sample_time. destruct (negb _ && _) eqn:E; [|lia]. apply andb_prop in E as [_ E]. apply Z.leb_le in E. change (Z.quot TimestampTolerance second) with 60 in E. unfold abs, int64, is_i64 in *.
      pose proof (Z.div_mod (s_Timestamp s - n + 2 ^ 63) (2 ^ 64) ltac:(lia)) as Em. pose proof (Z.mod_pos_bound (s_Timestamp s - n + 2 ^ 63) (2 ^ 64) ltac:(lia)) as Hr. set (r := (s_Timestamp s - n + 2 ^ 63) mod 2 ^ 64) in *. set (q := (s_Timestamp s - n + 2 ^ 63) / 2 ^ 64) in *.
      assert (q = 0 \/ q = -1) as Hq by lia. destruct (Z.ltb_spec (r - 2 ^ 63) 0) as [Hlt|Hge]; [|lia].
      destruct (decide (r = 0)) as [Hr0|Hr0]; [lia|]. replace (- (r - 2 ^ 63) + 2 ^ 63) with (2 ^ 64 - r) in E by lia. rewrite Z.mod_small in E by lia. lia. }
    destruct (floor_bounds (sample_time s n) iv ltac:(lia)) as [Hb Hd]. rewrite floorTo_div by (first [lia|unfold is_i64; lia]). split; [lia|done]. }
  unfold sample_start. fold iv. set (st := Z.max (floorTo (sample_time s n) iv) (a_first a)). assert (Hs : in_time st /\ (iv | st)).
  { unfold st, in_time in *. split; [lia|]. destruct (Z.max_spec (floorTo (sample_time s n) iv) (a_first a)) as [[_ ->]|[_ ->]]; [done|apply Hfl]. }
  assert (floorTo (sample_time s n) iv <= st /\ a_first a <= st) by (unfold st; lia). destruct (Z.ltb_spec st (a_watermark a)) as [Hlt|Hge]; cbn [fst].
  - destruct Hm as [Em|[Hm1 Hm2]]; [unfold in_time, MinInt64 in *; lia|]. split_and!; try done; lia.
  - split_and!; try apply Hs; lia.
Qed.

(** ** Rates *)

Lemma shr_positive m e l : 0 < m -> -1074 <= e -> let '(mrs, e') := shr_fexp 53 1024 m e l in 0 < shr_m mrs /\ -1074 <= e'.
Proof.
  intros Hm He. pose proof (shr_fexp_div m e l ltac:(lia)) as H. destruct (shr_fexp 53 1024 m e l) as [mrs e']. destruct H as [He' ->]. rewrite (Zdigits2_digits m Hm) in He'. unfold fexp, emin in He'. destruct (digits_bounds m Hm) as [Hd [Hb _]].
  split; [|lia]. apply Z.div_str_pos. split; [apply Z.pow_pos_nonneg; lia|]. destruct (Z.le_gt_cases (digits m) 53); [replace (e' - e) with 0 by lia; lia|]. apply Z.le_trans with (2 ^ (digits m - 1)); [apply Z.pow_le_mono_r; lia|done].
Qed.
Lemma round_positive M e l : 0 < M -> -1074 <= e -> forall s, binary_round_aux 53 1024 false M e l <> S754_zero s.
Proof.
  intros HM He s. unfold binary_round_aux. pose proof (shr_positive M e l HM He) as H1. destruct (shr_fexp 53 1024 M e l) as [mrs e']. destruct H1 as [H1 He1]. set (R := round_nearest_even _ _). assert (HR : 0 < R) by (unfold R, round_nearest_even; destruct (loc_of_shr_record mrs) as [|[]]; [lia|destruct (Z.even _); lia|lia|lia]).
  pose proof (shr_positive R e' loc_Exact HR He1) as H2. destruct (shr_fexp 53 1024 R e' loc_Exact) as [mrs2 e2]. destruct H2 as [H2 _]. destruct (shr_m mrs2); [lia| |done]. by destruct (_ <=? _).
Qed.
Lemma F64_rate r : flt 0 r = true -> fle r one = true -> exists m e, F64 r = S754_finite false m e /\ Zpos m < 2 ^ 53 /\ -1074 <= e <= -52.
Proof.
  intros H1 H2. unfold flt, fle in *. change (isNaN 0) with false in H1. change (fval 0) with 0 in H1. change (isNaN one) with false in H2. change (fval one) with (1023 * 2 ^ 52) in H2. cbn [negb] in *. rewrite !andb_true_iff, Z.ltb_lt in H1. rewrite !andb_true_iff, Z.leb_le in H2. destruct H1 as [_ H1], H2 as [_ H2].
  unfold fval in *. destruct (Z.leb_spec (2 ^ 63) r) as [Hs|Hs]; [assert (0 <= fmag r) by (rewrite fmag_mod; apply Z.mod_pos_bound; lia); lia|]. assert (Em : fmag (fmag r) = fmag r) by (rewrite !fmag_mod; apply Zmod_mod).
  assert (EF : F64 r = F64 (fmag r)) by (unfold F64; rewrite Em, (proj2 (Z.leb_gt _ _) Hs), (proj2 (Z.leb_gt _ (fmag r))) by lia; done). destruct (F64_pos (fmag r) ltac:(lia)) as (m & e & E & Hc). exists m, e. rewrite EF, E. split; [done|]. destruct Hc as [(Hm & Ee & Hr)|[Hm ->]]; lia.
Qed.
(** The weight of a sample is positive. *)
Lemma weight_positive r : flt 0 r = true -> fle r one = true -> fle (fdiv one r) 0 = false.
Proof.
  intros H1 H2. destruct (F64_rate r H1 H2) as (m & e & E & Hm & He). unfold fdiv. rewrite E. change (F64 one) with (S754_finite false 4503599627370496 (-52)). cbn [SFdiv xorb]. unfold SFdiv_core_binary. change (Zdigits2 4503599627370496) with 53. rewrite (Zdigits2_digits (Zpos m)) by lia.
  destruct (digits_bounds (Zpos m) ltac:(lia)) as [Hd Hb]. assert (Hd53 : digits (Zpos m) <= 53) by (apply digits_le; lia). set (d := digits (Zpos m)) in *. unfold fexp, emin. set (e' := Z.min _ _). assert (Ee : -52 - e - e' = d /\ -1074 <= e') by lia. destruct Ee as [-> He']. assert (Hq : 4503599627370496 * 2 ^ d / Zpos m > 0) by (apply Z.lt_gt, Z.div_str_pos; lia).
  destruct d as [|p|p] eqn:Ed; [lia| |lia]. rewrite Z.shiftl_mul_pow2 by lia. pose proof (Z_div_mod_eq_full (4503599627370496 * 2 ^ Zpos p) (Zpos m)) as _. unfold Z.div in Hq. destruct (Z.div_eucl _ _) as [q r']. set (x := binary_round_aux _ _ _ _ _ _).
  pose proof (round_positive q e' (new_location (Zpos m) r') ltac:(lia) He') as Hnz. pose proof (round_plus q e' (new_location (Zpos m) r') ltac:(lia)) as Hpl. fold x in Hnz, Hpl. destruct (plus_bits x Hpl) as [Hn|Hr]; unfold fle; [by rewrite Hn|].
  assert (bits_of x <> 0). { clear Hr. destruct x as [s|s| |s mx ex]; [by destruct (Hnz s)|by destruct s|done|]. destruct Hpl as (-> & Hmx & Hex). unfold bits_of. cbn [sign_bit]. destruct (Z.ltb_spec (Zpos mx) (2 ^ 52)); rewrite uint64_id; unfold is_u64; lia. }
  change (fval 0) with 0. assert (fval (bits_of x) = bits_of x) as -> by (unfold fval; rewrite (proj2 (Z.leb_gt _ _)), fmag_small by lia; done). rewrite (proj2 (Z.leb_gt _ _)) by lia. by rewrite andb_false_r.
Qed.
Lemma finite_value v r : flt 0 r = true -> fle r one = true -> finite (fdiv v r) = true -> finite v = true.
Proof.
  intros H1 H2 Hf. destruct (F64_rate r H1 H2) as (m & e & E & _). unfold fdiv in Hf. rewrite E in Hf. destruct (finite v) eqn:Ev; [done|]. unfold finite in Ev. apply andb_false_iff in Ev as [Ev|Ev]; apply negb_false_iff in Ev.
  - rewrite (F64_NaN v Ev) in Hf. done.
  - unfold isInf in Ev. apply Z.eqb_eq in Ev. assert (EF : F64 v = S754_infinity (2 ^ 63 <=? v)) by (unfold F64; by rewrite Ev). rewrite EF in Hf. cbn [SFdiv] in Hf. by destruct (2 ^ 63 <=? v).
Qed.
Lemma sample_rate_ok s : flt 0 (sample_rate s) = true /\ fle (sample_rate s) one = true.
Proof. unfold sample_rate. destruct (flt 0 (s_SampleRate s)) eqn:E1, (fle (s_SampleRate s) one) eqn:E2; cbn; done. Qed.

(** ** What a bucket says of its samples *)

Section Summaries.
Context `{GoMath}.

Definition sketch_of (alpha : Z) (l : list Sample) : option Sketch :=
  foldl (fun o s => sk ← o; match AddWithCount (s_Value s) (fdiv one (sample_rate s)) sk with Ok sk => Some sk | Err _ => None end) (New alpha) l.

(** Exact but for the values kept for the percentiles: all of them up to the cap, then some. *)
Record histogram_of (cap : Z) (l : list Sample) (b : bucket) : Prop := {
  hs_n : b_n b = ulen l;
  hs_sum : b_sum b = foldl fadd 0 (s_Value <$> l);
  hs_weighted : b_weighted b = foldl (fun x s => fadd x (fdiv one (sample_rate s))) 0 l;
  hs_min : b_min b = foldl fmin (Inf false) (s_Value <$> l);
  hs_max : b_max b = foldl fmax (Inf true) (s_Value <$> l);
  hs_kept : ulen (b_values b) = Z.min (ulen l) cap;
  hs_values : b_values b ⊆+ s_Value <$> l;
  hs_all : ulen l <= cap -> b_values b = s_Value <$> l;
}.

Definition summarises (a : Aggregator) (kind : Z) (l : list Sample) (b : bucket) : Prop :=
  if kind =? Counter then b_sum b = foldl (fun x s => fadd x (fdiv (s_Value s) (sample_rate s))) 0 l
  else if kind =? Gauge then last (s_Value <$> l) = Some (b_last b)
  else if kind =? SetKind then b_members b = list_to_set (s_SetMember <$> l)
  else if kind =? Histogram then histogram_of (a_histCap a) l b
  else if kind =? Distribution then exists sk, b_sketch b = Some sk /\ sketch_of (a_alpha a) l = Some sk
  else True.

(** A bucket, new or with samples. *)
Definition holds_bucket (a : Aggregator) (kind : Z) (l : list Sample) (b : bucket) : Prop := (l = [] /\ b = new_bucket) \/ (l <> [] /\ summarises a kind l b).

Lemma replaced_value (vs l : list Z) j v : vs ⊆+ l -> <[j := v]> vs ⊆+ l ++ [v].
Proof.
  intros Hs. destruct (decide (j < length vs)%nat) as [Hj|Hj]; [|rewrite list_insert_ge by lia; etransitivity; [exact Hs|apply submseteq_inserts_r; reflexivity]].
  destruct (lookup_lt_is_Some_2 _ _ Hj) as [x Hx]. rewrite (insert_take_drop _ _ _ Hj). rewrite <- (take_drop_middle vs j x Hx) in Hs.
  rewrite (Permutation_app_comm l [v]). cbn [app]. rewrite <- Permutation_middle. apply submseteq_skip. etransitivity; [|exact Hs]. rewrite <- Permutation_middle. apply submseteq_cons. reflexivity.
Qed.

Lemma histogram_add a draw s l b : 1 <= a_histCap a -> (forall n, 0 < n -> 0 <= draw n < n) -> s_Kind s = Histogram -> holds_bucket a Histogram l b ->
  exists b', update draw Histogram s (sample_rate s) a b = Some (b', 0) /\ histogram_of (a_histCap a) (l ++ [s]) b'.
Proof.
  intros Hcap Hdraw Hk Hb. assert (Hh : histogram_of (a_histCap a) l b).
  { destruct Hb as [[-> ->]|[_ Hb]]; [|exact Hb]. constructor; try done. cbn. unfold ulen. cbn. lia. }
  destruct Hh as [H1 H2 H3 H4 H5 H6 H7 H8]. unfold update. cbn [Z.eqb Pos.eqb]. eexists. split; [done|]. assert (Hl : ulen (l ++ [s]) = ulen l + 1) by (unfold ulen; rewrite length_app; cbn; lia).
  constructor; cbn [b_n b_sum b_weighted b_min b_max b_values]; rewrite ?fmap_app, ?foldl_app; cbn [fmap list_fmap foldl]; try congruence.
  - rewrite Hl. destruct (Z.ltb_spec (ulen (b_values b)) (a_histCap a)); [unfold ulen in *; rewrite length_app; cbn; lia|]. destruct (_ <? _); [unfold ulen in *; rewrite length_insert|]; lia.
  - destruct (_ <? _); [by apply submseteq_app|]. destruct (_ <? _); [by apply replaced_value|]. etransitivity; [exact H7|apply submseteq_inserts_r; reflexivity].
  - rewrite Hl. intros Hle. rewrite (proj2 (Z.ltb_lt _ _)) by lia. rewrite H8 by lia. done.
Qed.

(** One more sample: the bucket is updated, and nothing is dropped. *)
Lemma update_spec a draw s l b : 1 <= a_histCap a -> is_Some (New (a_alpha a)) -> (forall n, 0 < n -> 0 <= draw n < n) -> Counter <= s_Kind s <= Distribution ->
  finite (fdiv (s_Value s) (sample_rate s)) = true -> finite (fdiv one (sample_rate s)) = true -> holds_bucket a (s_Kind s) l b ->
  exists b', update draw (s_Kind s) s (sample_rate s) a b = Some (b', 0) /\ summarises a (s_Kind s) (l ++ [s]) b'.
Proof.
  intros Hcap [sk0 Hal] Hdraw Hk Hfv Hfw Hb. destruct (sample_rate_ok s) as [Hr1 Hr2]. pose proof (finite_value _ _ Hr1 Hr2 Hfv) as Hv. pose proof (weight_positive _ Hr1 Hr2) as Hw.
  assert (s_Kind s = 1 \/ s_Kind s = 2 \/ s_Kind s = 3 \/ s_Kind s = 4 \/ s_Kind s = 5) as [E|[E|[E|[E|E]]]] by lia; rewrite E in *.
  - eexists. split; [done|]. unfold summarises. cbn [Z.eqb Pos.eqb b_sum]. rewrite foldl_app. cbn [foldl]. destruct Hb as [[-> ->]|[_ Hb]]; [done|]. unfold summarises in Hb. cbn [Z.eqb Pos.eqb] in Hb. by rewrite Hb.
  - eexists. split; [done|]. unfold summarises. cbn [Z.eqb Pos.eqb b_last]. rewrite fmap_app. cbn [fmap list_fmap]. by rewrite last_snoc.
  - eexists. split; [done|]. unfold summarises. cbn [Z.eqb Pos.eqb b_members]. rewrite fmap_app, list_to_set_app_L. cbn. rewrite union_empty_r_L, union_comm_L. f_equal. destruct Hb as [[-> ->]|[_ Hb]]; [done|exact Hb].
  - destruct (histogram_add a draw s l b Hcap Hdraw E Hb) as (b' & Eu & Hh). by exists b'.
  - assert (Hsk : exists sk, (match b_sketch b with Some sk => Some sk | None => New (a_alpha a) end) = Some sk /\ sketch_of (a_alpha a) l = Some sk).
    { destruct Hb as [[-> ->]|[_ (sk & -> & Hs)]]; [by exists sk0|by exists sk]. }
    destruct Hsk as (sk & E1 & E2). unfold update. cbn [Z.eqb Pos.eqb]. rewrite E1. cbn [mbind option_bind]. assert (Ea : exists sk', AddWithCount (s_Value s) (fdiv one (sample_rate s)) sk = Ok sk') by (unfold AddWithCount; rewrite Hv, Hfw, Hw; cbn; by eexists).
    destruct Ea as [sk' Ea]. rewrite Ea. eexists. split; [done|]. unfold summarises. cbn [Z.eqb Pos.eqb b_sketch]. exists sk'. split; [done|]. unfold sketch_of. rewrite foldl_app. fold (sketch_of (a_alpha a) l). rewrite E2. cbn. by rewrite Ea.
Qed.
End Summaries.

(** ** Contexts by key *)

Section Life.
Context `{GoMath} (ToLower : gostring -> gostring) (MapHash : gostring -> Z) (order : gmap gostring aggContext -> list (gostring * aggContext)).
(** A Go map is walked over each of its entries once. *)
Context (Horder : forall m, order m ≡ₚ map_to_list m).

Definition ctx_of (a : Aggregator) (k : gostring) : option aggContext := a_shards a !! shard_of MapHash a k ≫= (.!! k).

(** The key an acceptable sample is filed under. *)
Definition sample_key (a : Aggregator) (s : Sample) : option gostring :=
  name ← NormalizeMetricName (s_Name s);
  if (s_Kind s <? Counter) || (Distribution <? s_Kind s) then None
  else if negb (finite (fdiv (s_Value s) (sample_rate s))) || negb (finite (fdiv one (sample_rate s))) then None
  else Some (contextKey (s_Kind s) name (contextTags ToLower (s_Tags s) a).1).

Definition same_config (a a' : Aggregator) : Prop :=
  a_interval a' = a_interval a /\ a_expiry a' = a_expiry a /\ a_histCap a' = a_histCap a /\ a_alpha a' = a_alpha a /\ a_hostTag a' = a_hostTag a /\ a_agentTags a' = a_agentTags a /\
  a_first a' = a_first a /\ length (a_shards a') = length (a_shards a).

Definition filed (k : gostring) (c : aggContext) : Prop := k = contextKey (c_kind c) (c_name c) (c_tags c) /\ Counter <= c_kind c <= Distribution.

Record wf (a : Aggregator) : Prop := {
  wf_ok : agg_ok a;
  wf_alpha : is_Some (New (a_alpha a));
  wf_floor : floor_ok a;
  wf_mark : mark_ok a;
  wf_shards : (0 < length (a_shards a))%nat;
  wf_placed i sh k c : a_shards a !! i = Some sh -> sh !! k = Some c -> i = shard_of MapHash a k /\ filed k c;
}.

Lemma shard_in a k : (0 < length (a_shards a))%nat -> (shard_of MapHash a k < length (a_shards a))%nat.
Proof. intros Hl. unfold shard_of, ulen. pose proof (Z.mod_pos_bound (MapHash k) (Z.of_nat (length (a_shards a))) ltac:(lia)). lia. Qed.
Lemma shard_same a a' k : length (a_shards a') = length (a_shards a) -> shard_of MapHash a' k = shard_of MapHash a k.
Proof. intros E. unfold shard_of, ulen. by rewrite E. Qed.
Lemma key_kind k1 n1 t1 k2 n2 t2 : Counter <= k1 <= Distribution -> Counter <= k2 <= Distribution -> contextKey k1 n1 t1 = contextKey k2 n2 t2 -> k1 = k2.
Proof. unfold contextKey. intros H1 H2 [= E _]. rewrite !uint8_id in E by (unfold is_byte; lia). lia. Qed.
Lemma ctx_filed a k c : wf a -> ctx_of a k = Some c -> filed k c.
Proof. intros Hw. unfold ctx_of. destruct (a_shards a !! _) as [sh|] eqn:Es; [|done]. intros Hc. by apply (wf_placed _ Hw _ sh k c Es Hc). Qed.

(** Agreement on everything but the contexts and the counts keeps the rest. *)
Lemma wf_config a a' : same_config a a' -> a_watermark a' = a_watermark a -> wf a ->
  (forall i sh k c, a_shards a' !! i = Some sh -> sh !! k = Some c -> i = shard_of MapHash a k /\ filed k c) -> wf a'.
Proof.
  intros (E1 & E2 & E3 & E4 & _ & _ & E7 & E8) Ew [[H1 H2 H3] H4 H5 H6 H7 H8] Hp. unfold floor_ok, mark_ok in *. constructor; [constructor| | | | |]; rewrite ?E1, ?E2, ?E3, ?E4, ?E8; unfold floor_ok, mark_ok; rewrite ?E1, ?E7, ?Ew; try done.
  intros i sh k c Hi Hk. rewrite (shard_same a a') by done. by apply (Hp i sh k c).
Qed.
Lemma same_config_trans a b c : same_config a b -> same_config b c -> same_config a c.
Proof. unfold same_config. intuition congruence. Qed.
Lemma sample_key_config a a' s : same_config a a' -> sample_key a' s = sample_key a s.
Proof. intros (_ & _ & _ & _ & E1 & E2 & _). unfold sample_key, contextTags. by rewrite E1, E2. Qed.
Lemma ctx_ok_config a a' E c : same_config a a' -> ctx_ok a E c -> ctx_ok a' E c.
Proof. intros (E1 & _) [H1 H2 H3]. constructor; rewrite ?E1; done. Qed.
Lemma summarises_config a a' k l b : same_config a a' -> summarises a k l b -> summarises a' k l b.
Proof. intros (_ & _ & E3 & E4 & _) Hs. unfold summarises in *. by rewrite E3, E4. Qed.

(** ** Adding a sample *)

Lemma add_dropped draw s now a : sample_key a s = None -> exists a', AggAdd ToLower MapHash draw s now a = Some a' /\ same_config a a' /\ a_shards a' = a_shards a /\ a_watermark a' = a_watermark a.
Proof.
  unfold sample_key, AggAdd. destruct (NormalizeMetricName (s_Name s)) as [name|]; cbn [mbind option_bind]; [|intros _; by eexists]. destruct ((s_Kind s <? 1) || (5 <? s_Kind s)); [intros _; by eexists|]. destruct (contextTags ToLower (s_Tags s) a) as [tags lost].
  destruct (_ || _); [|done]. intros _. by eexists.
Qed.

Definition fresh_context (s : Sample) (name : gostring) (tags : list gostring) (start : Z) : aggContext := MkContext name tags (s_Kind s) ∅ 0 start start.
(** The context of a key after a sample of it. *)
Record added (s : Sample) (start : Z) (c0 c : aggContext) (b : bucket) : Prop := {
  ad_name : c_name c = c_name c0;
  ad_tags : c_tags c = c_tags c0;
  ad_kind : c_kind c = c_kind c0;
  ad_buckets : c_buckets c = <[start := b]> (c_buckets c0);
  ad_lastData : c_lastData c = c_lastData c0;
  ad_next : c_next c = match c_buckets c0 !! start with Some _ => c_next c0 | None => if (c_kind c0 =? Counter) && (start <? c_next c0) then start else c_next c0 end;
}.

Lemma add_accepted draw s now a key l : wf a -> (forall n, 0 < n -> 0 <= draw n < n) -> sample_key a s = Some key ->
  let start := (sample_start s (Unix now) a).1 in
  holds_bucket a (s_Kind s) l (default new_bucket (c ← ctx_of a key; c_buckets c !! start)) ->
  exists a' c0 c b, AggAdd ToLower MapHash draw s now a = Some a' /\ same_config a a' /\ a_watermark a' = a_watermark a /\ wf a' /\
    (ctx_of a key = Some c0 \/ (ctx_of a key = None /\ exists name tags, c0 = fresh_context s name tags start)) /\ c_kind c0 = s_Kind s /\
    added s start c0 c b /\ summarises a (s_Kind s) (l ++ [s]) b /\
    (forall k, ctx_of a' k = if decide (k = key) then Some c else ctx_of a k).
Proof.
  intros Hw Hdraw Hk start Hb. pose proof Hw as [Hok Hal _ _ Hsh Hpl]. unfold sample_key in Hk. unfold AggAdd. destruct (NormalizeMetricName (s_Name s)) as [name|]; [|done]. cbn [mbind option_bind] in Hk. destruct ((s_Kind s <? 1) || (5 <? s_Kind s)) eqn:Ekd; [done|]. apply orb_false_iff in Ekd as [Ek1 Ek2]. apply Z.ltb_ge in Ek1, Ek2.
  destruct (contextTags ToLower (s_Tags s) a) as [tags lost]. cbn [fst] in Hk. destruct (negb (finite (fdiv (s_Value s) (sample_rate s)))) eqn:Ef1; [done|]. destruct (negb (finite (fdiv one (sample_rate s)))) eqn:Ef2; [done|]. cbn [orb] in *. apply negb_false_iff in Ef1, Ef2. injection Hk as Hk. rewrite Hk.
  unfold start in *. clear start. destruct (sample_start s (Unix now) a) as [start late]. cbn [fst] in *. pose proof (shard_in a key Hsh) as Hi. destruct (lookup_lt_is_Some_2 _ _ Hi) as [sh Es]. rewrite Es. cbn [mbind option_bind]. unfold ctx_of in Hb. rewrite Es in Hb. cbn [mbind option_bind] in Hb.
  set (c0 := match sh !! key with Some c => c | None => fresh_context s name tags start end).
  assert (Ec0 : (match sh !! key with Some c => (c, 0) | None => (MkContext name tags (s_Kind s) ∅ 0 start start, 1) end) = (c0, if sh !! key then 0 else 1)) by (unfold c0; by destruct (sh !! key)). rewrite Ec0. clear Ec0.
  assert (Hk0 : c_kind c0 = s_Kind s /\ filed key c0).
  { unfold c0. destruct (sh !! key) as [c1|] eqn:E1; [|split; [done|split; [done|cbn; lia]]]. destruct (Hpl _ _ _ _ Es E1) as [_ [Hf Hkd]]. split; [|done]. symmetry. by eapply key_kind; [lia|exact Hkd|rewrite Hk; exact Hf]. }
  destruct Hk0 as [Hk0 Hf0]. assert (Hb0 : holds_bucket a (s_Kind s) l (default new_bucket (c_buckets c0 !! start))) by (unfold c0; destruct (sh !! key); [exact Hb|cbn; by rewrite lookup_empty]).
  assert (Hopen : exists c1, open_bucket start (Unix now) c0 = (c1, default new_bucket (c_buckets c0 !! start)) /\ c_name c1 = c_name c0 /\ c_tags c1 = c_tags c0 /\ c_kind c1 = c_kind c0 /\ c_buckets c1 = c_buckets c0 /\ c_lastData c1 = c_lastData c0 /\
     c_next c1 = match c_buckets c0 !! start with Some _ => c_next c0 | None => if (c_kind c0 =? Counter) && (start <? c_next c0) then start else c_next c0 end).
  { unfold open_bucket. destruct (c_buckets c0 !! start); by eexists. }
  destruct Hopen as (c1 & -> & Hn1 & Ht1 & Hk1 & Hb1 & Hd1 & Hx1). rewrite Hk1, Hk0. destruct (update_spec a draw s l _ (ok_cap _ Hok) Hal Hdraw ltac:(lia) Ef1 Ef2 Hb0) as (b & Eu & Hs). rewrite Eu. cbn [mbind option_bind].
  eexists _, c0, (set_bucket start b c1), b. split; [done|]. set (a' := counted _ _ _ _ _ _). assert (Hcfg : same_config a a') by (unfold same_config, a'; cbn; rewrite length_insert; done). split; [done|]. split; [done|].
  assert (Hctx : forall k, ctx_of a' k = if decide (k = key) then Some (set_bucket start b c1) else ctx_of a k).
  { intros k. unfold ctx_of. rewrite (shard_same a a') by apply Hcfg. cbn [a_shards a' counted]. destruct (decide (shard_of MapHash a k = shard_of MapHash a key)) as [E|E].
    - rewrite E, list_lookup_insert_eq by done. rewrite Es. cbn [mbind option_bind]. case_decide as Hd; [subst k; by rewrite lookup_insert_eq|by rewrite lookup_insert_ne].
    - rewrite list_lookup_insert_ne by congruence. case_decide as Hd; [by subst k|done]. }
  split.
  { apply (wf_config a a' Hcfg); [done|done|]. intros i sh' k c Hi' Hc'. cbn [a_shards a' counted] in Hi'. apply list_lookup_insert_Some in Hi' as [(<- & <- & _)|[Hne Hi']]; [|by apply (Hpl i sh')].
    apply lookup_insert_Some in Hc' as [[<- <-]|[Hne Hc']]; [|by apply (Hpl _ sh)]. split; [done|]. unfold filed, set_bucket in *. cbn. rewrite Hn1, Ht1, Hk1. done. }
  split; [unfold ctx_of; rewrite Es; cbn [mbind option_bind]; unfold c0; destruct (sh !! key); [by left|right; split; [done|by eexists _, _]]|]. split; [done|]. split; [|split; [done|done]].
  constructor; cbn [set_bucket c_name c_tags c_kind c_buckets c_lastData c_next]; congruence.
Qed.

(** ** Flushing a shard *)

Definition for_key (k : gostring) (out : list sent) : list sent := base.filter (fun n => n_key n = k) out.
Lemma for_key_app k o1 o2 : for_key k (o1 ++ o2) = for_key k o1 ++ for_key k o2.
Proof. apply filter_app. Qed.
Lemma for_key_elem k out n : n ∈ for_key k out <-> n ∈ out /\ n_key n = k.
Proof. unfold for_key. rewrite list_elem_of_filter. by split; intros [? ?]. Qed.

Lemma filter_key {B} (l : list (gostring * B)) k : NoDup l.*1 -> base.filter (fun kc => kc.1 = k) l = match (list_to_map l : gmap gostring B) !! k with Some c => [(k, c)] | None => [] end.
Proof.
  induction l as [|[k' c] l IH]; cbn [fmap list_fmap]; [done|]. intros [Hn Hd]%NoDup_cons. rewrite filter_cons. cbn [list_to_map foldr fst]. case_decide as E; cbn in E.
  - subst k'. cbn. rewrite lookup_insert_eq. rewrite IH by done. rewrite not_elem_of_list_to_map_1 by done. done.
  - rewrite IH by done. cbn. by rewrite lookup_insert_ne.
Qed.

Section FlushShard.
Context (a : Aggregator) (cutoff nowS : Z) (final : bool) (sh : gmap gostring aggContext).
Context (Ha : agg_ok a) (Hct : in_time cutoff) (Hca : (a_interval a | cutoff)).
Context (Hsh : forall k c, sh !! k = Some c -> exists E, ctx_ok a E c).

Definition after (c : aggContext) : aggContext := match flushContext a cutoff final nowS c with Some (c', _, _) => c' | None => c end.
Definition sent_of (k : gostring) (c : aggContext) : sent := MkSent k (sent_series a c cutoff nowS final) (sent_sketches a c cutoff nowS final).

Lemma after_spec k c : sh !! k = Some c -> flushContext a cutoff final nowS c = Some (after c, sent_series a c cutoff nowS final, sent_sketches a c cutoff nowS final) /\ left_of a c cutoff nowS final (after c).
Proof. intros Hk. destruct (Hsh k c Hk) as [E Hc]. destruct (flush_context a c E cutoff nowS final Ha Hc Hct Hca) as (c' & Ef & Hl). unfold after. rewrite Ef. done. Qed.

Lemma flush_shard_spec : exists sh' out, flush_shard order a cutoff final nowS sh = Some (sh', out) /\
  (forall k, sh' !! k = (c ← sh !! k; if idle_expired a nowS (after c) then None else Some (after c))) /\
  (forall k, for_key k out = match sh !! k with Some c => [sent_of k c] | None => [] end).
Proof.
  set (res := fun kc : gostring * aggContext => (kc.1, after kc.2, sent_of kc.1 kc.2)).
  assert (Hm : mapM (flush_entry a cutoff final nowS) (order sh) = Some (res <$> order sh)).
  { assert (Hall : Forall (fun kc => sh !! kc.1 = Some kc.2) (order sh)) by (rewrite Horder; apply Forall_forall; intros [k c]; apply elem_of_map_to_list).
    induction Hall as [|[k c] l Hk _ IH]; [done|]. assert (flush_entry a cutoff final nowS (k, c) = Some (res (k, c))) as He by (unfold flush_entry; cbn [fst snd] in *; by rewrite (proj1 (after_spec k c Hk))). cbn [mapM fmap list_fmap]. rewrite He. cbn [mbind option_bind]. by rewrite IH. }
  unfold flush_shard. rewrite Hm. cbn [mbind option_bind]. eexists _, _. split; [done|].
  assert (HN : NoDup (order sh).*1) by (rewrite Horder; apply NoDup_fst_map_to_list). assert (Hin : forall k c, (k, c) ∈ order sh <-> sh !! k = Some c) by (intros k c; rewrite Horder; apply elem_of_map_to_list). split.
  - intros k. apply option_eq. intros c'. rewrite <- elem_of_list_to_map.
    + rewrite list_elem_of_filter. split.
      * intros [Hx (r & E & (kc & -> & Hkc)%list_elem_of_fmap)%list_elem_of_fmap]. injection E as -> ->. destruct kc as [k c]. apply Hin in Hkc. cbn in *. rewrite Hkc. cbn. by rewrite Hx.
      * destruct (sh !! k) as [c|] eqn:Ek; [|done]. cbn. destruct (idle_expired a nowS (after c)) eqn:Ex; [done|]. intros [= <-]. split; [done|]. apply list_elem_of_fmap. exists (res (k, c)). split; [done|]. apply list_elem_of_fmap_2. by apply Hin.
    + assert (HN2 : NoDup (((res <$> order sh).*1).*1)) by (rewrite <- !list_fmap_compose; exact HN). revert HN2. generalize ((res <$> order sh).*1). clear. intros l. induction l as [|[k c] l IH]; [constructor|]. cbn [fmap list_fmap]. intros [Hn Hd]%NoDup_cons. rewrite filter_cons. case_decide; [|by apply IH]. cbn. constructor; [|by apply IH]. intros ([k' c'] & Ek & [_ Hl]%list_elem_of_filter)%list_elem_of_fmap. cbn in Ek. apply Hn. rewrite Ek. by apply (list_elem_of_fmap_2 fst) in Hl.
  - intros k. unfold for_key. assert (E : base.filter (fun n => n_key n = k) (res <$> order sh).*2 = (fun kc => sent_of kc.1 kc.2) <$> base.filter (fun kc => kc.1 = k) (order sh)).
    { generalize (order sh). intros l. induction l as [|[k' c] l IH]; [done|]. cbn [fmap list_fmap]. rewrite !filter_cons. cbn. repeat case_decide; try done. cbn. f_equal. exact IH. }
    rewrite E, (filter_key _ _ HN). rewrite <- (list_to_map_flip sh (order sh)) by (by rewrite Horder). by destruct (sh !! k).
Qed.
End FlushShard.

(** ** The ledger: which bucket each accepted sample was counted in *)

Record entry := MkEntry { en_key : gostring; en_start : Z; en_sample : Sample }.
Definition counted_in (L : list entry) (k : gostring) (t : Z) : list Sample := en_sample <$> base.filter (fun e => en_key e = k /\ en_start e = t) L.

Lemma counted_snoc L key start s k t : counted_in (L ++ [MkEntry key start s]) k t = counted_in L k t ++ (if decide (key = k /\ start = t) then [s] else []).
Proof. unfold counted_in. rewrite filter_app, fmap_app, filter_cons. cbn [en_key en_start]. by case_decide. Qed.
Lemma counted_other L key start s k t : ~ (key = k /\ start = t) -> counted_in (L ++ [MkEntry key start s]) k t = counted_in L k t.
Proof. intros Hne. rewrite counted_snoc, decide_False by done. by rewrite app_nil_r. Qed.

Definition stamped (n : sent) (t : Z) : Prop :=
  (exists sr p, sr ∈ n_series n /\ p ∈ w_Points sr /\ p_Timestamp p = t) \/ (exists ss p, ss ∈ n_sketches n /\ p ∈ ss_Points ss /\ sp_Timestamp p = t).
Definition stamps (m : gostring) (ns : list sent) : list Z :=
  mjoin ((fun n => mjoin ((fun sr => p_Timestamp <$> w_Points sr) <$> base.filter (fun sr => w_Metric sr = m) (n_series n))) <$> ns).
Definition sketch_stamps (ns : list sent) : list Z := mjoin ((fun n => mjoin ((fun ss => sp_Timestamp <$> ss_Points ss) <$> n_sketches n)) <$> ns).

(** A point is the summary of what was counted in its bucket; a counter with nothing there is zero. *)
Definition says (a : Aggregator) (L : list entry) (key : gostring) (kind : Z) (k : column) (p : Point) : Prop :=
  match counted_in L key (p_Timestamp p) with
  | [] => kind = Counter /\ p_Value p = 0
  | l => exists b, summarises a kind l b /\ p_Value p = k.2 b
  end.
Definition sketch_says (a : Aggregator) (L : list entry) (key : gostring) (p : SketchPoint) : Prop :=
  exists sk, counted_in L key (sp_Timestamp p) <> [] /\ sketch_of (a_alpha a) (counted_in L key (sp_Timestamp p)) = Some sk /\ sp_Sketch p = ToWire sk.
Definition truthful (a : Aggregator) (L : list entry) (n : sent) : Prop :=
  exists kind name tags, n_key n = contextKey kind name tags /\
    (forall sr, sr ∈ n_series n -> exists k, k ∈ columns kind /\ w_Metric sr = name ++ k.1.1 /\ w_Type sr = k.1.2 /\ w_Tags sr = tags /\ forall p, p ∈ w_Points sr -> says a L (n_key n) kind k p) /\
    (forall ss, ss ∈ n_sketches n -> kind = Distribution /\ ss_Metric ss = name /\ ss_Tags ss = tags /\ forall p, p ∈ ss_Points ss -> sketch_says a L (n_key n) p).

(** Samples counted elsewhere do not matter. *)
Lemma truthful_ext a L L' n : (forall t, stamped n t -> counted_in L' (n_key n) t = counted_in L (n_key n) t) -> truthful a L n -> truthful a L' n.
Proof.
  intros E (kind & name & tags & E1 & E2 & E3). exists kind, name, tags. split; [done|]. split.
  - intros sr Hsr. destruct (E2 sr Hsr) as (k & Hk & ? & ? & ? & Hp). exists k. split_and!; try done. intros p Hin. specialize (Hp p Hin). unfold says in *. rewrite E; [done|]. left. by exists sr, p.
  - intros ss Hss. destruct (E3 ss Hss) as (? & ? & ? & Hp). split_and!; try done. intros p Hin. destruct (Hp p Hin) as (sk & Hsk). exists sk. rewrite E; [done|]. right. by exists ss, p.
Qed.

(** What holds of one key: [a0] is the configuration, [T] the latest time, [live] whether a flush is still to come. *)
Record key_ok (a0 : Aggregator) (T : Z) (a : Aggregator) (live : Prop) (outs : list sent) (L : list entry) (k : gostring) : Prop := {
  ko_series m : ssorted (stamps m (for_key k outs));
  ko_sketches : ssorted (sketch_stamps (for_key k outs));
  ko_time n t : n ∈ for_key k outs -> stamped n t -> a_first a0 <= t <= T;
  ko_live : live -> exists E, a_first a0 <= E <= Z.max (a_watermark a) (a_first a0) /\ (forall n t, n ∈ for_key k outs -> stamped n t -> t < E) /\
    (forall c, ctx_of a k = Some c -> ctx_ok a0 E c);
  ko_says n : n ∈ for_key k outs -> truthful a0 L n;
  ko_open c s b : ctx_of a k = Some c -> c_buckets c !! s = Some b -> counted_in L k s <> [] /\ summarises a0 (c_kind c) (counted_in L k s) b;
  ko_kept s : counted_in L k s <> [] -> (exists c, ctx_of a k = Some c /\ is_Some (c_buckets c !! s)) \/ (exists n, n ∈ for_key k outs /\ stamped n s);
  ko_apart c s n : ctx_of a k = Some c -> is_Some (c_buckets c !! s) -> n ∈ for_key k outs -> ~ stamped n s;
}.

(** Nothing of the key changed but the watermark, which only rises. *)
Lemma key_ok_same a0 T a a' live outs L k : ctx_of a' k = ctx_of a k -> a_watermark a <= a_watermark a' -> key_ok a0 T a live outs L k -> key_ok a0 T a' live outs L k.
Proof.
  intros E Hw [H1 H2 H3 H4 H5 H6 H7 H8]. constructor; rewrite ?E; try done. intros Hl. destruct (H4 Hl) as (E0 & Hr & Hs & Hc). exists E0. split; [lia|]. split; [done|]. done.
Qed.
(** A sample of another key. *)
Lemma key_ok_other a0 T a a' live outs L k key start s : k <> key -> ctx_of a' k = ctx_of a k -> a_watermark a' = a_watermark a -> key_ok a0 T a live outs L k -> key_ok a0 T a' live outs (L ++ [MkEntry key start s]) k.
Proof.
  intros Hne E Hw Hk. destruct (key_ok_same a0 T a a' live outs L k E ltac:(lia) Hk) as [H1 H2 H3 H4 H5 H6 H7 H8]. assert (Hc : forall t, counted_in (L ++ [MkEntry key start s]) k t = counted_in L k t) by (intros t; apply counted_other; by intros [-> _]).
  constructor; try done.
  - intros n Hn. pose proof Hn as [_ Ek]%for_key_elem. apply (truthful_ext a0 L); [intros t _; rewrite Ek; apply Hc|by apply H5].
  - intros c s' b. rewrite Hc. apply H6.
  - intros s'. rewrite Hc. apply H7.
Qed.

Lemma ctx_ok_added a0 E s start c0 c b : in_time start -> (a_interval a0 | start) -> E <= start -> Counter <= s_Kind s <= Distribution -> c_kind c0 = s_Kind s -> added s start c0 c b ->
  (ctx_ok a0 E c0 \/ exists name tags, c0 = fresh_context s name tags start) -> ctx_ok a0 E c.
Proof.
  intros Ht Ha HE Hkd Hk0 [_ _ Ek Eb Ed En] H0. assert (Hb0 : forall x, is_Some (c_buckets c0 !! x) -> in_time x /\ (a_interval a0 | x) /\ E <= x).
  { destruct H0 as [H0|(name & tags & ->)]; [apply (cx_buckets _ _ _ H0)|]. intros x Hx. cbn in Hx. rewrite lookup_empty in Hx. by destruct Hx. }
  constructor; rewrite ?Ek, ?Hk0; [done| |].
  - intros x Hx. rewrite Eb in Hx. destruct (decide (x = start)) as [->|Hne]; [done|]. rewrite lookup_insert_ne in Hx by done. by apply Hb0.
  - intros E1. rewrite Ed, En, Eb. destruct H0 as [H0|(name & tags & ->)].
    + destruct (cx_next _ _ _ H0 ltac:(lia)) as (Hn1 & Hn2 & Hn3 & Hn4 & Hn5 & Hn6). rewrite Hk0, E1. cbn [Z.eqb Pos.eqb andb]. set (nx := match c_buckets c0 !! start with Some _ => c_next c0 | None => if start <? c_next c0 then start else c_next c0 end).
      assert (Hnx : (nx = start /\ start < c_next c0) \/ (nx = c_next c0 /\ c_next c0 <= start)).
      { unfold nx. destruct (c_buckets c0 !! start) eqn:Es; [right; split; [done|]; apply Hn5; by rewrite Es|]. destruct (Z.ltb_spec start (c_next c0)); [by left|by right]. }
      split; [destruct Hnx as [[-> _]|[-> _]]; done|]. split; [destruct Hnx as [[-> _]|[-> _]]; done|]. split; [destruct Hnx as [[-> _]|[-> _]]; done|]. split; [done|]. split.
      * intros x Hx. destruct (decide (x = start)) as [->|Hne]; [lia|]. rewrite lookup_insert_ne in Hx by done. specialize (Hn5 x Hx). lia.
      * destruct Hnx as [[-> _]|[-> Hle]]; [left; by rewrite lookup_insert_eq|]. destruct (decide (c_next c0 = start)) as [->|Hne]; [left; by rewrite lookup_insert_eq|]. rewrite lookup_insert_ne by done. done.
    + cbn [c_buckets c_next c_lastData c_kind fresh_context]. rewrite lookup_empty, Z.ltb_irrefl, andb_false_r. split_and!; try done.
      * intros x Hx. destruct (decide (x = start)) as [->|Hne]; [lia|]. rewrite lookup_insert_ne, lookup_empty in Hx by done. by destruct Hx.
      * left. by rewrite lookup_insert_eq.
Qed.

(** A sample of the key itself. *)
Lemma key_ok_added a0 T a a' (live : Prop) outs L key start s c0 c b : live -> in_time start -> (a_interval a0 | start) -> a_watermark a <= start -> a_first a0 <= start -> Counter <= s_Kind s <= Distribution ->
  (ctx_of a key = Some c0 \/ (ctx_of a key = None /\ exists name tags, c0 = fresh_context s name tags start)) -> c_kind c0 = s_Kind s -> added s start c0 c b ->
  summarises a0 (s_Kind s) (counted_in L key start ++ [s]) b -> ctx_of a' key = Some c -> a_watermark a' = a_watermark a ->
  key_ok a0 T a live outs L key -> key_ok a0 T a' live outs (L ++ [MkEntry key start s]) key.
Proof.
  intros Hl Ht Ha Hw Hf Hkd H0 Hk0 Had Hs Ec Ew [H1 H2 H3 H4 H5 H6 H7 H8]. destruct (H4 Hl) as (E & Hr & Hst & Hok). assert (Hcs : counted_in (L ++ [MkEntry key start s]) key start = counted_in L key start ++ [s]) by (by rewrite counted_snoc, decide_True).
  assert (Hco : forall t, t <> start -> counted_in (L ++ [MkEntry key start s]) key t = counted_in L key t) by (intros t Hne; apply counted_other; by intros [_ ->]). assert (Hopen : forall x, x <> start -> c_buckets c !! x = c_buckets c0 !! x) by (intros x Hne; by rewrite (ad_buckets _ _ _ _ _ Had), lookup_insert_ne).
  constructor; try done.
  - intros _. exists E. rewrite Ew. split; [done|]. split; [done|]. rewrite Ec. intros c' [= <-]. apply (ctx_ok_added a0 E s start c0 c b Ht Ha ltac:(lia) Hkd Hk0 Had). destruct H0 as [H0|[_ H0]]; [left; by apply Hok|by right].
  - intros n Hn. apply (truthful_ext a0 L); [|by apply H5]. intros t Hstamp. pose proof (Hst n t Hn Hstamp). apply for_key_elem in Hn as [_ ->]. apply Hco. lia.
  - intros c' x b'. rewrite Ec. intros [= <-] Hx. rewrite (ad_kind _ _ _ _ _ Had), Hk0. destruct (decide (x = start)) as [->|Hne].
    + rewrite (ad_buckets _ _ _ _ _ Had), lookup_insert_eq in Hx. injection Hx as <-. rewrite Hcs. split; [by destruct (counted_in L key start)|done].
    + rewrite (Hopen x Hne) in Hx. rewrite (Hco x Hne). destruct H0 as [H0|(_ & name & tags & ->)]; [|cbn in Hx; by rewrite lookup_empty in Hx]. rewrite <- Hk0. by apply (H6 c0).
  - intros x Hx. destruct (decide (x = start)) as [->|Hne]; [left; exists c; split; [done|]; rewrite (ad_buckets _ _ _ _ _ Had), lookup_insert_eq; by eexists|]. rewrite (Hco x Hne) in Hx. destruct (H7 x Hx) as [(c1 & E1 & Hsome)|Hsent]; [left|by right].
    exists c. split; [done|]. rewrite (Hopen x Hne). destruct H0 as [H0|[H0 _]]; [|congruence]. rewrite H0 in E1. injection E1 as <-. done.
  - intros c1 x n. rewrite Ec. intros [= <-] Hx Hn Hstamp. destruct (decide (x = start)) as [->|Hne]; [specialize (Hst n start Hn Hstamp); lia|]. rewrite (Hopen x Hne) in Hx. destruct H0 as [H0|(_ & name & tags & ->)]; [by apply (H8 c0 x n)|]. cbn in Hx. rewrite lookup_empty in Hx. by destruct Hx.
Qed.

(** ** A flush of the key *)

Lemma stamps_app m l1 l2 : stamps m (l1 ++ l2) = stamps m l1 ++ stamps m l2.
Proof. unfold stamps. by rewrite fmap_app, join_app. Qed.
Lemma sketch_stamps_app l1 l2 : sketch_stamps (l1 ++ l2) = sketch_stamps l1 ++ sketch_stamps l2.
Proof. unfold sketch_stamps. by rewrite fmap_app, join_app. Qed.
Lemma stamps_elem m ns t : t ∈ stamps m ns -> exists n, n ∈ ns /\ stamped n t.
Proof.
  unfold stamps. intros (l & Hl & (n & -> & Hn)%list_elem_of_fmap)%list_elem_of_join. apply list_elem_of_join in Hl as (l & Hl & (sr & -> & [_ Hsr]%list_elem_of_filter)%list_elem_of_fmap). apply list_elem_of_fmap in Hl as (p & -> & Hp). exists n. split; [done|]. left. by exists sr, p.
Qed.
Lemma sketch_stamps_elem ns t : t ∈ sketch_stamps ns -> exists n, n ∈ ns /\ stamped n t.
Proof.
  unfold sketch_stamps. intros (l & Hl & (n & -> & Hn)%list_elem_of_fmap)%list_elem_of_join. apply list_elem_of_join in Hl as (l & Hl & (ss & -> & Hss)%list_elem_of_fmap). apply list_elem_of_fmap in Hl as (p & -> & Hp). exists n. split; [done|]. right. by exists ss, p.
Qed.
Lemma filter_metric (l : list Series) m : NoDup (w_Metric <$> l) -> base.filter (fun sr => w_Metric sr = m) l = [] \/ exists sr, sr ∈ l /\ base.filter (fun sr => w_Metric sr = m) l = [sr].
Proof.
  induction l as [|x l IH]; [by left|]. cbn [fmap list_fmap]. intros [Hn Hd]%NoDup_cons. rewrite filter_cons. case_decide as E.
  - right. exists x. split; [left|]. f_equal. destruct (base.filter _ l) as [|y r] eqn:Ef; [done|]. exfalso. assert (Hy : y ∈ base.filter (fun sr => w_Metric sr = m) l) by (rewrite Ef; left). apply list_elem_of_filter in Hy as [Ey Hy]. apply Hn. rewrite E, <- Ey. by apply list_elem_of_fmap_2.
  - destruct (IH Hd) as [->|(sr & Hsr & ->)]; [by left|right]. exists sr. split; [by right|done].
Qed.

Section FlushKey.
Context (a0 : Aggregator) (T : Z) (a : Aggregator) (outs : list sent) (L : list entry) (k : gostring) (c : aggContext) (cutoff nowS : Z) (final : bool).
Context (Hcfg : same_config a0 a) (Hw : wf a) (Hct : in_time cutoff) (Hca : (a_interval a | cutoff)) (Hcn : cutoff <= nowS) (HnT : nowS <= T) (Hcw : cutoff <= a_watermark a).
Context (Hctx : ctx_of a k = Some c).

Abbreviation new := (sent_of a cutoff nowS final k c).

Lemma sent_of_stamped E t : ctx_ok a E c -> stamped new t -> sent_at E cutoff nowS final t.
Proof.
  intros Hc [(sr & p & Hsr & Hp & <-)|(ss & p & Hss & Hp & <-)]; cbn [n_series n_sketches sent_of] in *.
  - destruct (sent_series_spec a c E cutoff nowS final (wf_ok _ Hw) Hc Hct Hca sr Hsr) as (col & _ & _ & Hpts). by apply Hpts.
  - destruct (sent_sketches_spec a c E cutoff nowS final Hc ss Hss) as (_ & _ & _ & Hpts). by apply Hpts.
Qed.
Lemma sent_of_sorted E m : ctx_ok a E c -> ssorted (stamps m [new]) /\ ssorted (sketch_stamps [new]).
Proof.
  intros Hc. unfold stamps, sketch_stamps. cbn [fmap list_fmap mjoin list_join n_series n_sketches sent_of]. rewrite !app_nil_r. split.
  - destruct (filter_metric (sent_series a c cutoff nowS final) m (sent_series_names a c cutoff nowS final)) as [->|(sr & Hsr & ->)]; [constructor|]. cbn. rewrite app_nil_r. by destruct (sent_series_spec a c E cutoff nowS final (wf_ok _ Hw) Hc Hct Hca sr Hsr) as (col & _ & Hs & _).
  - destruct (sent_sketches a c cutoff nowS final) as [|ss l] eqn:E1; [constructor|]. destruct (sent_sketches_spec a c E cutoff nowS final Hc ss ltac:(rewrite E1; left)) as (_ & Hs & E2 & _). rewrite E1 in E2. injection E2 as ->. cbn. by rewrite app_nil_r.
Qed.

Lemma sent_truthful E : ctx_ok a E c -> (forall n t, n ∈ for_key k outs -> stamped n t -> t < E) -> key_ok a0 T a True outs L k -> truthful a0 L new.
Proof.
  intros Hc HE Hko. destruct (ctx_filed a k c Hw Hctx) as [Hk Hkd]. exists (c_kind c), (c_name c), (c_tags c). split; [done|]. cbn [n_key n_series n_sketches sent_of].
  assert (Hval : forall t b, c_buckets c !! t = Some b -> counted_in L k t <> [] /\ summarises a0 (c_kind c) (counted_in L k t) b) by (intros t b; by apply (ko_open _ _ _ _ _ _ _ Hko)).
  assert (Hnone : forall t, E <= t -> c_buckets c !! t = None -> counted_in L k t = []).
  { intros t Ht Hn. destruct (counted_in L k t) eqn:El; [done|]. exfalso. destruct (ko_kept _ _ _ _ _ _ _ Hko t ltac:(by rewrite El)) as [(c1 & E1 & Hs)|(n & Hn1 & Hn2)].
    - rewrite Hctx in E1. injection E1 as <-. rewrite Hn in Hs. by destruct Hs.
    - specialize (HE n t Hn1 Hn2). lia. }
  split.
  - intros sr Hsr. destruct (sent_series_spec a c E cutoff nowS final (wf_ok _ Hw) Hc Hct Hca sr Hsr) as (col & [Hcol Esr] & _ & Hpts). exists col. split; [done|]. split; [by rewrite Esr|]. split; [by rewrite Esr|]. split; [by rewrite Esr|]. intros p Hp. destruct (Hpts p Hp) as [[Hge _] Hv]. unfold valued in Hv. unfold says.
    destruct (c_buckets c !! p_Timestamp p) as [b|] eqn:Eb; [|by rewrite (Hnone _ Hge Eb)]. destruct (Hval _ _ Eb) as [Hne Hs]. destruct (counted_in L k (p_Timestamp p)); [done|]. by exists b.
  - intros ss Hss. destruct (sent_sketches_spec a c E cutoff nowS final Hc ss Hss) as (Hd & _ & E2 & Hpts). split; [done|]. unfold sent_sketches in Hss. rewrite Hd in Hss. cbn [Z.eqb Pos.eqb] in Hss. assert (ss_Metric ss = c_name c /\ ss_Tags ss = c_tags c) as [-> ->] by (destruct (sketch_points _); [by apply elem_of_nil in Hss|]; by apply list_elem_of_singleton in Hss as ->).
    split; [done|]. split; [done|]. intros p Hp. destruct (Hpts p Hp) as [_ (b & sk & Eb & Esk & Ew)]. destruct (Hval _ _ Eb) as [Hne Hs]. rewrite Hd in Hs. destruct Hs as (sk' & E' & Hsk). exists sk. split; [done|]. split; [congruence|done].
Qed.

Lemma sent_due s b : c_buckets c !! s = Some b -> due cutoff nowS final s = true -> (exists E, ctx_ok a E c) -> key_ok a0 T a True outs L k -> stamped new s.
Proof.
  intros Hb Hd [E Hc] Hko. destruct (decide (c_kind c = Distribution)) as [Ek|Ek].
  - right. destruct (ko_open _ _ _ _ _ _ _ Hko c s b Hctx Hb) as [_ Hs]. rewrite Ek in Hs. destruct Hs as (sk & Esk & _). destruct (sketch_complete a c cutoff nowS final s b sk Ek Hb Esk Hd) as (ss & Hss & Hp). by exists ss, (MkSketchPoint s (ToWire sk)).
  - left. assert (exists col, col ∈ columns (c_kind c)) as [col Hcol].
    { pose proof (cx_kind _ _ _ Hc). assert (c_kind c = 1 \/ c_kind c = 2 \/ c_kind c = 3 \/ c_kind c = 4) as [-> |[-> |[-> | ->]]] by lia; eexists; left. }
    destruct (sent_complete a c E cutoff nowS final (wf_ok _ Hw) Hc Hct Hca s b col Hb Hd Hcol) as (sr & Hsr & _ & Hp). by exists sr, (MkPoint s (col.2 b)).
Qed.

Lemma key_ok_flushed a' (live : Prop) outs' : for_key k outs' = for_key k outs ++ [new] -> (final = true -> ~ live) ->
  ctx_of a' k = (if idle_expired a nowS (after a cutoff nowS final c) then None else Some (after a cutoff nowS final c)) -> left_of a c cutoff nowS final (after a cutoff nowS final c) -> a_watermark a' = a_watermark a ->
  key_ok a0 T a True outs L k -> key_ok a0 T a' live outs' L k.
Proof.
  intros Eo Hfin Ec Hleft Ew Hko. pose proof Hko as [H1 H2 H3 H4 H5 H6 H7 H8]. destruct (H4 I) as (E & Hr & Hst & Hok). pose proof (ctx_ok_config a0 a E c Hcfg (Hok c Hctx)) as Hc. set (c' := after a cutoff nowS final c) in *. assert (Hlf := Hleft). destruct Hleft as [_ _ Ek _ Eb _].
  assert (Hinv : forall c1, ctx_of a' k = Some c1 -> c1 = c') by (intros c1; rewrite Ec; destruct (idle_expired _ _ _); [done|]; by intros [= <-]).
  assert (Hnew : forall t, stamped new t -> sent_at E cutoff nowS final t) by (intros t; by apply sent_of_stamped).
  constructor; rewrite ?Eo.
  - intros m. rewrite stamps_app. apply ssorted_app. split; [done|]. split; [by apply (sent_of_sorted E m Hc)|]. intros x y (n & Hn & Hx)%stamps_elem (n' & ->%list_elem_of_singleton & Hy)%stamps_elem. specialize (Hst n x Hn Hx). destruct (Hnew y Hy). lia.
  - rewrite sketch_stamps_app. apply ssorted_app. split; [done|]. split; [by apply (sent_of_sorted E [] Hc)|]. intros x y (n & Hn & Hx)%sketch_stamps_elem (n' & ->%list_elem_of_singleton & Hy)%sketch_stamps_elem. specialize (Hst n x Hn Hx). destruct (Hnew y Hy). lia.
  - intros n t [Hn| ->%list_elem_of_singleton]%elem_of_app Hs; [by apply (H3 n)|]. destruct (Hnew t Hs) as (? & _ & ?). lia.
  - intros Hl. destruct final; [by destruct (Hfin eq_refl)|]. exists (Z.max E cutoff). rewrite Ew. split; [lia|]. split.
    + intros n t [Hn| ->%list_elem_of_singleton]%elem_of_app Hs; [specialize (Hst n t Hn Hs); lia|]. destruct (Hnew t Hs) as (? & _ & [?|[? _]]); [lia|done].
    + intros c1 ->%Hinv. apply (ctx_ok_config a a0); [unfold same_config in *; intuition congruence|]. by apply (flush_keeps_ok a c E cutoff nowS c' (wf_ok _ Hw)).
  - intros n [Hn| ->%list_elem_of_singleton]%elem_of_app; [by apply H5|]. by apply (sent_truthful E Hc Hst).
  - intros c1 s b ->%Hinv Hs. rewrite Eb in Hs. rewrite Ek. destruct (due _ _ _ _); [done|]. by apply (H6 c).
  - intros s Hs. destruct (H7 s Hs) as [(c1 & E1 & [b Hb])|(n & Hn & Hn')]; [|right; exists n; split; [apply elem_of_app; by left|done]]. rewrite Hctx in E1. injection E1 as <-. destruct (due cutoff nowS final s) eqn:Hd.
    + right. exists new. split; [apply elem_of_app; right; by left|]. apply (sent_due s b Hb Hd); [by exists E|done].
    + left. exists c'. assert (Hs' : c_buckets c' !! s = Some b) by (by rewrite Eb, Hd). split; [|by rewrite Hs']. rewrite Ec. assert (idle_expired a nowS c' = false) as ->; [|done]. unfold idle_expired. destruct (Nat.eqb_spec (size (c_buckets c')) 0) as [E0|]; [|done]. apply map_size_empty_inv in E0. by rewrite E0, lookup_empty in Hs'.
  - intros c1 s n ->%Hinv Hs [Hn| ->%list_elem_of_singleton]%elem_of_app Hstamp; rewrite Eb in Hs; destruct (due cutoff nowS final s) eqn:Hd; try (by destruct Hs); [by apply (H8 c s n)|]. destruct (Hnew s Hstamp) as (_ & _ & Hds). apply due_spec in Hds. congruence.
Qed.
End FlushKey.

(** ** Runs *)

Definition all_out (y : system) : list sent := mjoin (y_sent y) ++ match y_phase y with Flushing _ _ _ _ out => out | _ => [] end.
(** Whether the key is still to be flushed. *)
Definition live_for (y : system) (k : gostring) : Prop :=
  match y_phase y with Waiting => True | Flushing _ final _ i _ => final = false \/ (i <= shard_of MapHash (y_agg y) k)%nat | Stopped => False end.
Definition phase_ok (T : Z) (y : system) : Prop :=
  match y_phase y with
  | Flushing cutoff _ nowS _ _ => in_time cutoff /\ (a_interval (y_agg y) | cutoff) /\ cutoff <= nowS <= T /\ cutoff <= a_watermark (y_agg y)
  | _ => True
  end.
Record run_inv (a0 : Aggregator) (T : Z) (y : system) (L : list entry) : Prop := {
  ri_wf : wf (y_agg y);
  ri_config : same_config a0 (y_agg y);
  ri_phase : phase_ok T y;
  ri_keys k : key_ok a0 T (y_agg y) (live_for y k) (all_out y) L k;
}.

Lemma key_ok_live a0 T a (live live' : Prop) outs L k : (live' -> live) -> key_ok a0 T a live outs L k -> key_ok a0 T a live' outs L k.
Proof. intros Hl [H1 H2 H3 H4 H5 H6 H7 H8]. constructor; auto. Qed.

Definition event_ok (a : Aggregator) (T : Z) (e : event) : Prop :=
  match e with
  | EvAdd draw s now => clock_ok a T now /\ is_i64 (s_Timestamp s) /\ forall n, 0 < n -> 0 <= draw n < n
  | EvTick now | EvStop now => clock_ok a T now
  | _ => True
  end.
Definition enabled (e : event) (y : system) : Prop :=
  match e, y_phase y with
  | EvAdd _ _ _, _ | EvTick _, Waiting | EvStop _, Waiting => True
  | EvShard, Flushing _ _ _ i _ => (i < length (a_shards (y_agg y)))%nat
  | EvSink, Flushing _ _ _ i _ => i = length (a_shards (y_agg y))
  | _, _ => False
  end.
Definition accepts (a : Aggregator) (e : event) : option (gostring * Sample) :=
  match e with EvAdd _ s _ => (fun k => (k, s)) <$> sample_key a s | _ => None end.
Definition arrivals (L : list entry) : list (gostring * Sample) := (fun e => (en_key e, en_sample e)) <$> L.

Lemma config_sym a b : same_config a b -> same_config b a.
Proof. unfold same_config. intuition congruence. Qed.

Lemma run_add a0 T y L draw s now : run_inv a0 T y L -> event_ok a0 T (EvAdd draw s now) -> (forall k, live_for y k) ->
  exists y' L', run_event ToLower MapHash order (EvAdd draw s now) y = Some y' /\ run_inv a0 T y' L' /\ arrivals L' = arrivals L ++ option_list (accepts a0 (EvAdd draw s now)) /\ y_phase y' = y_phase y.
Proof.
  intros [Hw Hcfg Hph Hk] (Hclk & Hts & Hdraw) Hlive. destruct y as [a last ph outs]. cbn [y_agg y_last y_phase y_sent] in *. unfold run_event. cbn [y_agg y_last y_phase y_sent]. cbn [accepts]. rewrite <- (sample_key_config a0 a s Hcfg).
  assert (Hphase : forall a', a_interval a' = a_interval a -> a_watermark a' = a_watermark a -> phase_ok T (MkSystem a' last ph outs)) by (intros a' E1 E2; unfold phase_ok in *; cbn in *; rewrite E1, E2; done).
  destruct (sample_key a s) as [key|] eqn:Ek; cbn [fmap option_fmap option_map option_list].
  - set (start := (sample_start s (Unix now) a).1). assert (Hclk' : clock_ok a T now) by (unfold clock_ok in *; destruct Hcfg as (-> & _); done). destruct (sample_start_ok a T s now (wf_ok _ Hw) (wf_floor _ Hw) (wf_mark _ Hw) Hclk' Hts) as (Ht & Hal & Hwm & Hfi & _). fold start in Ht, Hal, Hwm, Hfi.
    assert (Hkd : Counter <= s_Kind s <= Distribution) by (unfold sample_key in Ek; destruct (NormalizeMetricName _); [|done]; cbn in Ek; destruct (_ || _) eqn:E in Ek; [done|]; apply orb_false_iff in E as [?%Z.ltb_ge ?%Z.ltb_ge]; lia).
    pose proof (Hk key) as Hkey. assert (Hb : holds_bucket a (s_Kind s) (counted_in L key start) (default new_bucket (c ← ctx_of a key; c_buckets c !! start))).
    { destruct (ctx_of a key) as [c|] eqn:Ec; cbn [mbind option_bind default].
      - destruct (c_buckets c !! start) as [b|] eqn:Eb; cbn [default].
        + right. destruct (ko_open _ _ _ _ _ _ _ Hkey c start b Ec Eb) as [Hne Hs]. split; [done|]. assert (c_kind c = s_Kind s) as <-; [|by apply (summarises_config a0 a)]. destruct (ctx_filed a key c Hw Ec) as [Hf Hkc]. unfold sample_key in Ek. destruct (NormalizeMetricName (s_Name s)); [|done]. cbn in Ek. destruct (_ || _); [done|]. destruct (_ || _); [done|]. injection Ek as Ek. symmetry. eapply key_kind; [exact Hkd|exact Hkc|]. rewrite Ek. exact Hf.
        + left. split; [|done]. destruct (counted_in L key start) eqn:El; [done|]. exfalso. destruct (ko_kept _ _ _ _ _ _ _ Hkey start ltac:(by rewrite El)) as [(c1 & E1 & Hsm)|(n & Hn & Hst)]; [rewrite Ec in E1; injection E1 as <-; rewrite Eb in Hsm; by destruct Hsm|]. destruct (ko_live _ _ _ _ _ _ _ Hkey (Hlive key)) as (E & Hr & Hlt & _). specialize (Hlt n start Hn Hst). destruct Hcfg as (_ & _ & _ & _ & _ & _ & Ef & _). lia.
      - left. split; [|done]. destruct (counted_in L key start) eqn:El; [done|]. exfalso. destruct (ko_kept _ _ _ _ _ _ _ Hkey start ltac:(by rewrite El)) as [(c1 & E1 & Hsm)|(n & Hn & Hst)]; [congruence|]. destruct (ko_live _ _ _ _ _ _ _ Hkey (Hlive key)) as (E & Hr & Hlt & _). specialize (Hlt n start Hn Hst). destruct Hcfg as (_ & _ & _ & _ & _ & _ & Ef & _). lia. }
    destruct (add_accepted draw s now a key (counted_in L key start) Hw Hdraw Ek Hb) as (a' & c0 & c & b & Ea & Hc' & Ew & Hw' & H0 & Hk0 & Had & Hs & Hctx). fold start in H0, Had. rewrite Ea. cbn [mbind option_bind].
    exists (MkSystem a' last ph outs), (L ++ [MkEntry key start s]). split; [done|]. split; [|split; [unfold arrivals; by rewrite fmap_app|done]]. constructor; cbn [y_agg].
    + done.
    + by eapply same_config_trans.
    + apply Hphase; [apply Hc'|done].
    + intros k. change (all_out (MkSystem a' last ph outs)) with (all_out (MkSystem a last ph outs)). apply (key_ok_live a0 T a' (live_for (MkSystem a last ph outs) k)); [intros _; apply Hlive|]. destruct (decide (k = key)) as [->|Hne].
      * apply (key_ok_added a0 T a a' _ _ L key start s c0 c b); try done; [destruct Hcfg as (<- & _); done|destruct Hcfg as (_ & _ & _ & _ & _ & _ & <- & _); done|by apply (summarises_config a a0); [apply config_sym|]|]. rewrite Hctx. by rewrite decide_True.
      * apply (key_ok_other a0 T a a'); [done|rewrite Hctx; by rewrite decide_False|done|done].
  - destruct (add_dropped draw s now a Ek) as (a' & Ea & Hc' & Es & Ew). rewrite Ea. cbn [mbind option_bind]. assert (Hctx : forall k, ctx_of a' k = ctx_of a k) by (intros k; unfold ctx_of; rewrite (shard_same a a') by apply Hc'; by rewrite Es).
    exists (MkSystem a' last ph outs), L. split; [done|]. split; [|split; [by rewrite app_nil_r|done]]. constructor; cbn [y_agg].
    + apply (wf_config a a' Hc' Ew Hw). rewrite Es. apply (wf_placed _ Hw).
    + by eapply same_config_trans.
    + apply Hphase; [apply Hc'|done].
    + intros k. change (all_out (MkSystem a' last ph outs)) with (all_out (MkSystem a last ph outs)). apply (key_ok_live a0 T a' (live_for (MkSystem a last ph outs) k)); [intros _; apply Hlive|]. apply (key_ok_same a0 T a); [done|lia|done].
Qed.

(** The watermark rises before any shard is flushed. *)
Lemma begin_wf a0 T a last outs L now final : run_inv a0 T (MkSystem a last Waiting outs) L -> clock_ok a0 T now ->
  let c := floorTo (Unix now) (a_interval a) in forall last', run_inv a0 T (MkSystem (FlushBegin c a) last' (Flushing c final (Unix now) 0 []) outs) L.
Proof.
  intros [Hw Hcfg _ Hk] Hclk c last'. cbn [y_agg] in *. assert (Hclk' : clock_ok a T now) by (unfold clock_ok in *; destruct Hcfg as (-> & _); done). destruct (cutoff_ok a T now (wf_ok _ Hw) Hclk') as (Hct & Hca & Hcn). fold c in Hct, Hca, Hcn.
  assert (Hwm : a_watermark a <= a_watermark (FlushBegin c a) /\ c <= a_watermark (FlushBegin c a)) by (cbn; destruct (Z.ltb_spec (a_watermark a) c); lia).
  constructor; cbn [y_agg].
  - destruct Hw as [H1 H2 H3 H4 H5 H6]. constructor; [by destruct H1|done|done| |done|done]. unfold mark_ok in *. cbn [a_watermark a_interval FlushBegin]. destruct (a_watermark a <? c); [by right|done].
  - done.
  - unfold phase_ok. cbn [y_phase y_agg]. split; [done|]. split; [done|]. unfold clock_ok in *. lia.
  - intros k. specialize (Hk k). unfold all_out in *. cbn [y_sent y_phase] in *. apply (key_ok_live a0 T _ (live_for (MkSystem a last Waiting outs) k)); [done|]. apply (key_ok_same a0 T a); [done|lia|done].
Qed.

Lemma run_shard a0 T a last outs L cutoff final nowS i out : run_inv a0 T (MkSystem a last (Flushing cutoff final nowS i out) outs) L -> (i < length (a_shards a))%nat ->
  exists a' o, FlushShard order cutoff final nowS i a = Some (a', o) /\ run_inv a0 T (MkSystem a' last (Flushing cutoff final nowS (S i) (out ++ o)) outs) L.
Proof.
  intros [Hw Hcfg (Hct & Hca & [Hcn HnT] & Hcw) Hk] Hi. cbn [y_agg] in *. destruct (lookup_lt_is_Some_2 _ _ Hi) as [sh Es].
  assert (Hshard : forall k c, sh !! k = Some c -> i = shard_of MapHash a k /\ ctx_of a k = Some c) by (intros k c Hc; destruct (wf_placed _ Hw _ _ _ _ Es Hc) as [E _]; split; [done|]; unfold ctx_of; rewrite <- E, Es; done).
  assert (Hlv : forall k, i = shard_of MapHash a k -> live_for (MkSystem a last (Flushing cutoff final nowS i out) outs) k) by (intros k E; unfold live_for; cbn; right; lia).
  assert (Hsh : forall k c, sh !! k = Some c -> exists E, ctx_ok a E c).
  { intros k c Hc. destruct (Hshard k c Hc) as [E Hctx]. destruct (ko_live _ _ _ _ _ _ _ (Hk k) (Hlv k E)) as (E0 & _ & _ & Hok). exists E0. by apply (ctx_ok_config a0 a), Hok. }
  destruct (flush_shard_spec a cutoff nowS final sh (wf_ok _ Hw) Hct Hca Hsh) as (sh' & o & Ef & Hl & Ho). unfold FlushShard. rewrite Es. cbn [mbind option_bind]. rewrite Ef. cbn [mbind option_bind]. eexists _, o. split; [done|]. set (a' := MkAggregator _ _ _ _ _ _ _ _ _ _ _ _ _ _ _).
  assert (Hc' : same_config a a') by (unfold same_config, a'; cbn; rewrite length_insert; done).
  assert (Hctx : forall k, ctx_of a' k = if decide (i = shard_of MapHash a k) then sh' !! k else ctx_of a k).
  { intros k. unfold ctx_of. rewrite (shard_same a a') by apply Hc'. cbn [a_shards a']. case_decide as E; [by rewrite <- E, list_lookup_insert_eq|by rewrite list_lookup_insert_ne]. }
  assert (Haf : forall k c, sh !! k = Some c -> left_of a c cutoff nowS final (after a cutoff nowS final c)) by (intros k c Hc; by apply (after_spec a cutoff nowS final sh (wf_ok _ Hw) Hct Hca Hsh k c)).
  constructor; cbn [y_agg].
  - apply (wf_config a a' Hc'); [done|done|]. intros j s1 k c Hj Hc. cbn [a_shards a'] in Hj. apply list_lookup_insert_Some in Hj as [(<- & <- & _)|[Hne Hj]]; [|by apply (wf_placed _ Hw _ s1)]. rewrite Hl in Hc. destruct (sh !! k) as [c1|] eqn:E1; [|done]. cbn in Hc. destruct (idle_expired _ _ _); [done|]. injection Hc as <-.
    destruct (wf_placed _ Hw _ _ _ _ Es E1) as [? Hf]. split; [done|]. destruct (Haf k c1 E1) as [En Et Ek _ _ _]. unfold filed in *. by rewrite En, Et, Ek.
  - by eapply same_config_trans.
  - unfold phase_ok. cbn. done.
  - intros k. specialize (Hk k). unfold all_out in *. cbn [y_sent y_phase] in *. assert (Hfk : for_key k (mjoin outs ++ out ++ o) = for_key k (mjoin outs ++ out) ++ match sh !! k with Some c => [sent_of a cutoff nowS final k c] | None => [] end) by (rewrite app_assoc, for_key_app, Ho; done).
    destruct (sh !! k) as [c|] eqn:Ec.
    + destruct (Hshard k c Ec) as [Ei Hck]. apply (key_ok_flushed a0 T a (mjoin outs ++ out) L k c cutoff nowS final Hcfg Hw Hct Hca Hcn HnT Hcw Hck a').
      * done.
      * intros ->. unfold live_for. cbn [y_phase y_agg]. rewrite (shard_same a a') by apply Hc'. intros [?|?]; [done|lia].
      * rewrite Hctx, decide_True by done. rewrite Hl, Ec. done.
      * by apply (Haf k).
      * done.
      * apply (key_ok_live a0 T a (live_for (MkSystem a last (Flushing cutoff final nowS i out) outs) k)); [intros _; by apply Hlv|done].
    + rewrite app_nil_r in Hfk. assert (Hck : ctx_of a' k = ctx_of a k) by (rewrite Hctx; case_decide as E; [|done]; rewrite Hl, Ec; unfold ctx_of; by rewrite <- E, Es; cbn; rewrite Ec).
      assert (Hk2 : key_ok a0 T a' (live_for (MkSystem a' last (Flushing cutoff final nowS (S i) (out ++ o)) outs) k) (mjoin outs ++ out) L k).
      { apply (key_ok_live a0 T a' (live_for (MkSystem a last (Flushing cutoff final nowS i out) outs) k)); [|apply (key_ok_same a0 T a); [done|unfold a'; cbn; lia|done]]. unfold live_for. cbn [y_phase y_agg]. rewrite (shard_same a a') by apply Hc'. intros [?|?]; [by left|right; lia]. }
      destruct Hk2 as [H1 H2 H3 H4 H5 H6 H7 H8]. constructor; rewrite ?Hfk; done.
Qed.

Definition is_add (e : event) : bool := match e with EvAdd _ _ _ => true | _ => false end.
(** The agent stops its sources before the aggregator (agent.go, Run). *)
Fixpoint calm (es : list event) : bool :=
  match es with [] => true | EvStop _ :: es => forallb (fun e => negb (is_add e)) es | _ :: es => calm es end.
Definition stopping (y : system) : bool := match y_phase y with Waiting => false | Flushing _ final _ _ _ => final | Stopped => true end.
Definition quiet (y : system) (es : list event) : bool := if stopping y then forallb (fun e => negb (is_add e)) es else calm es.

Lemma not_stopping_live y k : stopping y = false -> live_for y k.
Proof. unfold stopping, live_for. destruct (y_phase y) as [|c [] n i o|]; try done. by left. Qed.

(** Every event that can happen does, and keeps the invariant. *)
Lemma run_enabled a0 T y L e es : run_inv a0 T y L -> event_ok a0 T e -> quiet y (e :: es) = true -> enabled e y ->
  exists y' L', run_event ToLower MapHash order e y = Some y' /\ run_inv a0 T y' L' /\ arrivals L' = arrivals L ++ option_list (accepts a0 e) /\ quiet y' es = true.
Proof.
  intros Hi He Hq Hen. pose proof Hi as [Hw Hcfg Hph Hk]. destruct e as [draw s now|now|now| |].
  - assert (Hst : stopping y = false) by (unfold quiet in Hq; by destruct (stopping y)). destruct (run_add a0 T y L draw s now Hi He) as (y' & L' & E & Hi' & Ea & Ep); [intros k; by apply not_stopping_live|]. exists y', L'. split_and!; try done. unfold quiet, stopping in *. rewrite Ep. rewrite Hst in *. done.
  - destruct y as [a last [| |] outs]; try done. cbn [run_event y_agg y_phase y_last y_sent]. destruct (last <? _).
    + eexists _, L. split; [done|]. split; [by apply (begin_wf a0 T a last)|]. split; [by rewrite app_nil_r|done].
    + eexists _, L. split; [done|]. split; [done|]. split; [by rewrite app_nil_r|done].
  - destruct y as [a last [| |] outs]; try done. cbn [run_event y_agg y_phase y_last y_sent]. eexists _, L. split; [done|]. split; [by apply (begin_wf a0 T a last)|]. split; [by rewrite app_nil_r|done].
  - destruct y as [a last [|c final n i o|] outs]; try done. cbn [run_event y_agg y_phase y_last y_sent enabled] in *. destruct (run_shard a0 T a last outs L c final n i o Hi Hen) as (a' & o' & E & Hi'). rewrite E. cbn [mbind option_bind]. eexists _, L. split; [done|]. split; [done|]. split; [by rewrite app_nil_r|]. unfold quiet, stopping in *. cbn in *. by destruct final.
  - destruct y as [a last [|c final n i o|] outs]; try done. cbn [run_event y_agg y_phase y_last y_sent enabled] in *. rewrite Hen, Nat.eqb_refl. eexists _, L. split; [done|]. split; [|split; [by rewrite app_nil_r|unfold quiet, stopping in *; cbn in *; by destruct final]].
    constructor; cbn [y_agg]; [|done|by destruct final|].
    + apply (wf_config a _); [unfold same_config; done|done|done|]. cbn. apply (wf_placed _ Hw).
    + intros k. specialize (Hk k). unfold all_out in *. cbn [y_sent y_phase] in *. assert (Eo : mjoin (outs ++ [o]) ++ match (if final then Stopped else Waiting) with Flushing _ _ _ _ out => out | _ => [] end = mjoin outs ++ o) by (rewrite join_app; cbn; rewrite app_nil_r; destruct final; by rewrite app_nil_r). rewrite Eo.
      apply (key_ok_live a0 T _ (live_for (MkSystem a last (Flushing c final n i o) outs) k)); [unfold live_for; cbn; destruct final; [done|by left]|]. apply (key_ok_same a0 T a); [done|cbn; lia|done].
Qed.

Lemma run_some_enabled e y y' : run_event ToLower MapHash order e y = Some y' -> enabled e y.
Proof.
  unfold run_event, enabled. destruct y as [a last [|c f n i o|] outs], e; cbn [y_agg y_phase y_last y_sent]; try done.
  - unfold FlushShard. destruct (a_shards a !! i) eqn:E; [|done]. intros _. by eapply lookup_lt_Some.
  - destruct (Nat.eqb_spec i (length (a_shards a))); done.
Qed.

Lemma run_keeps a0 T es : forall y L y', run_inv a0 T y L -> Forall (event_ok a0 T) es -> quiet y es = true -> run_events ToLower MapHash order es y = Some y' ->
  exists L', run_inv a0 T y' L' /\ arrivals L' = arrivals L ++ omap (accepts a0) es.
Proof.
  induction es as [|e es IH]; intros y L y' Hi Hes Hq Hr; cbn [run_events] in Hr.
  - injection Hr as <-. exists L. split; [done|]. by rewrite app_nil_r.
  - apply Forall_cons_1 in Hes as [He Hes]. destruct (run_event ToLower MapHash order e y) as [y1|] eqn:E1; [|done]. cbn [mbind option_bind] in Hr. destruct (run_enabled a0 T y L e es Hi He Hq (run_some_enabled e y y1 E1)) as (y2 & L1 & E2 & Hi1 & Ea & Hq1). rewrite E1 in E2. injection E2 as <-.
    destruct (IH y1 L1 y' Hi1 Hes Hq1 Hr) as (L' & Hi' & Ea'). exists L'. split; [done|]. rewrite Ea', Ea, <- app_assoc. cbn [omap list_omap]. by destruct (accepts a0 e).
Qed.

(** ** The first state *)

Record options_ok (opts : Options) : Prop := {
  oo_interval : is_i64 (o_FlushInterval opts);
  oo_expiry : is_i64 (o_ContextExpiry opts);
  oo_started : exists t, o_Started opts = Some t /\ 0 <= Unix t < 2 ^ 60;
  oo_alpha : is_Some (New (a_alpha (NewAggregator ToLower opts)));
}.

Lemma FirstBucket_spec t iv : 0 < iv < 2 ^ 34 -> 0 <= Unix t < 2 ^ 60 -> FirstBucket t iv = (Unix t / iv + 1) * iv.
Proof.
  intros Hiv Ht. unfold FirstBucket. set (s := Unix t) in *. pose proof (Z.div_mod s iv ltac:(lia)) as E. pose proof (Z.mod_pos_bound s iv ltac:(lia)) as Hm. rewrite (Z.rem_mod_nonneg s) by lia. rewrite Z.rem_mod_nonneg by lia.
  replace (s mod iv + iv) with (s mod iv + 1 * iv) by lia. rewrite Z.mod_add by lia. rewrite Z.mod_mod by lia. rewrite int64_id by (unfold is_i64; lia). lia.
Qed.
Lemma New_ok opts : options_ok opts -> wf (NewAggregator ToLower opts) /\ exists t, o_Started opts = Some t /\ Unix t < a_first (NewAggregator ToLower opts).
Proof.
  intros [Hiv Hex (t & Et & Ht) Hal]. set (a := NewAggregator ToLower opts). assert (Hi : 0 < a_interval a < 2 ^ 34).
  { cbn. unfold second in *. unfold is_i64 in *. destruct (Z.ltb_spec (o_FlushInterval opts) (10 ^ 9)); [done|]. rewrite Z.quot_div_nonneg by lia. split; [apply Z.div_str_pos; lia|apply Z.div_lt_upper_bound; lia]. }
  assert (Hx : 0 <= a_expiry a < 2 ^ 34).
  { cbn. unfold second in *. unfold is_i64 in *. destruct (Z.leb_spec (o_ContextExpiry opts) 0); [done|]. rewrite Z.quot_div_nonneg by lia. split; [apply Z.div_pos; lia|apply Z.div_lt_upper_bound; lia]. }
  assert (Hf : a_first a = (Unix t / a_interval a + 1) * a_interval a) by (rewrite <- (FirstBucket_spec t (a_interval a) Hi Ht); cbn; by rewrite Et).
  pose proof (Z.div_mod (Unix t) (a_interval a) ltac:(lia)) as Edm. pose proof (Z.mod_pos_bound (Unix t) (a_interval a) ltac:(lia)) as Hm. assert (0 <= Unix t / a_interval a) by (apply Z.div_pos; lia). split; [|exists t; split; [done|lia]]. constructor.
  - constructor; [done|done|]. cbn. destruct (Z.leb_spec (o_HistogramMaxSamples opts) 0); lia.
  - done.
  - split; [unfold in_time; lia|]. rewrite Hf. by exists (Unix t / a_interval a + 1).
  - by left.
  - cbn. rewrite length_replicate. destruct (Z.leb_spec (o_Shards opts) 0); lia.
  - intros i sh k c Hi'. cbn in Hi'. apply lookup_replicate in Hi' as [-> _]. by rewrite lookup_empty.
Qed.
Lemma started_inv opts now T : options_ok opts -> run_inv (NewAggregator ToLower opts) T (started ToLower opts now) [].
Proof.
  intros Ho. destruct (New_ok opts Ho) as [Hw _]. constructor; [done|done|done|]. intros k. assert (Hc : ctx_of (NewAggregator ToLower opts) k = None).
  { unfold ctx_of. cbn. destruct (replicate _ _ !! _) as [sh|] eqn:E; [|done]. apply lookup_replicate in E as [-> _]. cbn. apply lookup_empty. }
  cbn [y_agg started]. constructor; rewrite ?Hc; try done; [constructor|constructor|by intros n t ?%elem_of_nil| |by intros n ?%elem_of_nil]. intros _. exists (a_first (NewAggregator ToLower opts)). split; [lia|]. split; [by intros n t ?%elem_of_nil|done].
Qed.
End Life.
