(* ===== verification/AggregatorRuns.v ===== *)
(** * What an aggregator promises

    Over any run of the agent: no bucket is sent twice, not even by an agent and the one started after it; every
    accepted sample is counted in exactly one bucket; the gaps of a counter are filled with zeros for the expiry and no
    longer; a flush always completes. And two small agents that run, one after the other. *)

From Stdlib Require Import ZArith Lia Sorting.Sorted.
From Stdlib Require Import (notations) String.
From stdpp Require Import base gmap sorting numbers list.
From S2P Require Import Prelude Gofloat Gofloat64 Gostring Names IndexProofs HeadRecord Sketch Aggregator AggregatorFlush AggregatorLife.

Section Promises.
Context `{GoMath} (ToLower : gostring -> gostring) (MapHash : gostring -> Z) (order : gmap gostring aggContext -> list (gostring * aggContext)).
Context (Horder : forall m, order m ≡ₚ map_to_list m).

(** A run of an agent: its options, when it was started, what happened, and where it led. *)
Record agent_run (opts : Options) (T : Z) (es : list event) (y : system) : Prop := {
  ar_options : options_ok ToLower opts;
  ar_events : Forall (event_ok (NewAggregator ToLower opts) T) es;
  ar_calm : calm es = true;
  ar_run : exists now, run_events ToLower MapHash order es (started ToLower opts now) = Some y;
}.

Lemma agent_inv opts T es y : agent_run opts T es y -> exists L, run_inv MapHash (NewAggregator ToLower opts) T y L /\ arrivals L = omap (accepts ToLower (NewAggregator ToLower opts)) es.
Proof. intros [Ho He Hc (now & Hr)]. destruct (run_keeps ToLower MapHash order Horder (NewAggregator ToLower opts) T es (started ToLower opts now) [] y) as (L & Hi & Ea); try done; [by apply started_inv|]. by exists L. Qed.

Lemma for_key_sent y k n : n ∈ for_key k (mjoin (y_sent y)) -> n ∈ for_key k (all_out y).
Proof. unfold all_out. rewrite for_key_app. intros Hn. apply elem_of_app. by left. Qed.

(** C19: no bucket of a context is sent twice. In every run of the agent, with samples arriving between the locked parts of
    a flush, the timestamps sent for each metric of a context, and for its sketches, strictly increase from flush to flush
    and within one. *)
Theorem no_bucket_twice opts T es y : agent_run opts T es y ->
  forall k m, ssorted (stamps m (for_key k (mjoin (y_sent y)))) /\ ssorted (sketch_stamps (for_key k (mjoin (y_sent y)))).
Proof.
  intros Hr k m. destruct (agent_inv opts T es y Hr) as (L & Hi & _). pose proof (ri_keys _ _ _ _ _ Hi k) as Hk. pose proof (ko_series _ _ _ _ _ _ _ _ Hk m) as H1. pose proof (ko_sketches _ _ _ _ _ _ _ _ Hk) as H2.
  unfold all_out in *. rewrite for_key_app, stamps_app in H1. rewrite for_key_app, sketch_stamps_app in H2. apply ssorted_app in H1 as [H1 _], H2 as [H2 _]. done.
Qed.

(** C18: every sample that is accepted is counted once. Each accepted sample has a bucket, of its own context, that is
    either still open or was sent, never both; and each point sent is the summary of the samples of its bucket, in the order
    they arrived: the sum of a counter, the last value of a gauge, the number of members of a set, the statistics of a
    histogram, the sketch of a distribution. A counter's point whose bucket has no samples is zero. *)
Theorem samples_counted_once opts T es y : agent_run opts T es y ->
  exists L, arrivals L = omap (accepts ToLower (NewAggregator ToLower opts)) es /\
    (forall n, n ∈ mjoin (y_sent y) -> truthful (NewAggregator ToLower opts) L n) /\
    (forall e, e ∈ L -> let open := exists c, ctx_of MapHash (y_agg y) (en_key e) = Some c /\ is_Some (c_buckets c !! en_start e) in
       let was_sent := exists n, n ∈ all_out y /\ n_key n = en_key e /\ stamped n (en_start e) in (open \/ was_sent) /\ ~ (open /\ was_sent)).
Proof.
  intros Hr. destruct (agent_inv opts T es y Hr) as (L & Hi & Ea). exists L. split; [done|]. split.
  - intros n Hn. apply (ko_says _ _ _ _ _ _ _ _ (ri_keys _ _ _ _ _ Hi (n_key n))). apply for_key_sent, for_key_elem. done.
  - intros e He open was_sent. pose proof (ri_keys _ _ _ _ _ Hi (en_key e)) as Hk. assert (Hne : counted_in L (en_key e) (en_start e) <> []).
    { unfold counted_in. assert (Hin : e ∈ base.filter (fun e' => en_key e' = en_key e /\ en_start e' = en_start e) L) by (by apply list_elem_of_filter). by destruct (base.filter _ L); [apply elem_of_nil in Hin|]. }
    split.
    + destruct (ko_kept _ _ _ _ _ _ _ _ Hk _ Hne) as [?|(n & Hn & Hs)]; [by left|right]. apply for_key_elem in Hn as [? ?]. by exists n.
    + intros [(c & Ec & Hb) (n & Hn & En & Hs)]. apply (ko_apart _ _ _ _ _ _ _ _ Hk c (en_start e) n Ec Hb); [|done]. by apply for_key_elem.
Qed.

(** C39: an agent and the one started after it never stamp the same bucket. Whatever the first sent, its final flush
    included, is stamped before everything the second sends, as long as the second was not started before the
    latest time the first saw. *)
Theorem restart_stamps_later opts T es y opts' T' es' y' t : agent_run opts T es y -> agent_run opts' T' es' y' ->
  o_Started opts' = Some t -> T <= Unix t ->
  forall n s n' s', n ∈ mjoin (y_sent y) -> stamped n s -> n' ∈ mjoin (y_sent y') -> stamped n' s' -> s < s'.
Proof.
  intros H1 H2 Et HT n s n' s' Hn Hs Hn' Hs'. destruct (agent_inv opts T es y H1) as (L & Hi & _). destruct (agent_inv opts' T' es' y' H2) as (L' & Hi' & _).
  pose proof (ko_time _ _ _ _ _ _ _ _ (ri_keys _ _ _ _ _ Hi (n_key n)) n s ltac:(apply for_key_sent, for_key_elem; done) Hs) as B1. pose proof (ko_time _ _ _ _ _ _ _ _ (ri_keys _ _ _ _ _ Hi' (n_key n')) n' s' ltac:(apply for_key_sent, for_key_elem; done) Hs') as B2.
  destruct (New_ok ToLower MapHash opts' (ar_options _ _ _ _ H2)) as [_ (t' & Et' & Hf)]. rewrite Et in Et'. injection Et' as <-. lia.
Qed.

(** ** Flushes complete *)

Lemma shards_complete a0 T cutoff final nowS last outs L : forall ns i out a, ns = seq i (length (a_shards a) - i) ->
  run_inv MapHash a0 T (MkSystem a last (Flushing cutoff final nowS i out) outs) L -> exists a' out', FlushShards order cutoff final nowS ns out a = Some (a', out').
Proof.
  induction ns as [|j ns IH]; intros i out a Hn Hi; cbn [FlushShards]; [by eexists _, _|]. destruct (length (a_shards a) - i)%nat as [|k] eqn:Ek; [done|]. cbn [seq] in Hn. injection Hn as -> Hn.
  destruct (run_shard ToLower MapHash order Horder a0 T a last outs L cutoff final nowS i out Hi ltac:(lia)) as (a' & o & E & Hi'). rewrite E. cbn [mbind option_bind]. apply (IH (S i)); [|done].
  assert (length (a_shards a') = length (a_shards a)) as ->; [|rewrite Hn; f_equal; lia]. pose proof (ri_config _ _ _ _ _ Hi) as C1. pose proof (ri_config _ _ _ _ _ Hi') as C2. unfold same_config in *. cbn [y_agg] in *. intuition congruence.
Qed.
(** A flush of a waiting agent returns, whatever its contexts hold: the walk of each counter ends. *)
Theorem flush_completes opts T es y now final : agent_run opts T es y -> y_phase y = Waiting -> clock_ok (NewAggregator ToLower opts) T now ->
  exists a' out, AggFlush order now final (y_agg y) = Some (a', out).
Proof.
  intros Hr Hp Hclk. destruct (agent_inv opts T es y Hr) as (L & Hi & _). destruct y as [a last ph outs]. cbn in Hp. subst ph. pose proof (begin_wf MapHash (NewAggregator ToLower opts) T a last outs L now final Hi Hclk last) as Hb. unfold AggFlush. cbn [y_agg]. set (c := floorTo (Unix now) (a_interval a)) in *.
  destruct (shards_complete (NewAggregator ToLower opts) T c final (Unix now) last outs L (seq 0 (length (a_shards (FlushBegin c a)))) 0 [] (FlushBegin c a)) as (a' & out & E); [by rewrite Nat.sub_0_r|done|]. rewrite E. by eexists _, _.
Qed.
End Promises.

(** C40: the gaps of a counter. A flush that is not the last sends, for the closed buckets of a counter that it had not sent, the
    sum of each that has data, and zero for each other one within the expiry of the last data before it; nothing else. The
    code jumps over longer gaps: what it sends is what a walk over every bucket would, and it ends within a number of rounds
    that does not depend on them. *)
Theorem counter_zero_fill a c E cutoff nowS : agg_ok a -> ctx_ok a E c -> c_kind c = Counter -> in_time cutoff -> (a_interval a | cutoff) ->
  exists c' out, flushContext a cutoff false nowS c = Some (c', out, []) /\
    forall p, p ∈ mjoin (w_Points <$> out) <->
      c_next c <= p_Timestamp p < cutoff /\ (a_interval a | p_Timestamp p) /\ fills (a_expiry a) (c_buckets c) (c_next c) (c_lastData c) p.
Proof.
  intros Ha Hc Hk Hct Hca. destruct (flush_context a c E cutoff nowS false Ha Hc Hct Hca) as (c' & Ef & _). exists c', (sent_series a c cutoff nowS false). split; [rewrite Ef; unfold sent_sketches; by rewrite Hk|]. intros p.
  destruct (cx_next _ _ _ Hc Hk) as (_ & Hna & _ & _ & Hge & _). pose proof (ok_interval _ Ha) as Hiv. pose proof (ok_expiry _ Ha) as Hex.
  assert (Hp : mjoin (w_Points <$> sent_series a c cutoff nowS false) = (every_bucket (a_interval a) (a_expiry a) (rounds (a_interval a) (c_next c) cutoff) (c_next c) (c_buckets c) (c_lastData c)).1).
  { assert (counter_points a c cutoff nowS false = (every_bucket (a_interval a) (a_expiry a) (rounds (a_interval a) (c_next c) cutoff) (c_next c) (c_buckets c) (c_lastData c)).1) as <-.
    - unfold counter_points. rewrite filter_none; [by rewrite app_nil_r|]. intros [s b] [_ Hd]%rows_elem. cbn. apply due_spec in Hd as [?|[? _]]; [lia|done].
    - unfold sent_series. rewrite Hk. cbn [Z.eqb Pos.eqb]. destruct (counter_points a c cutoff nowS false); [done|]. cbn. by rewrite app_nil_r. }
  rewrite Hp, (every_elem _ _ Hiv Hex) by (first [done|intros x Hx; by apply (cx_buckets _ _ _ Hc)]). destruct (decide (cutoff <= c_next c)) as [Hle|Hgt].
  - rewrite rounds_0 by (first [done|lia]). split; intros (? & _); lia.
  - destruct (rounds_split _ Hiv (c_next c) cutoff cutoff Hna Hca Hca ltac:(lia)) as [_ Er]. rewrite Er. done.
Qed.

(** ** The agent's tags *)

Section AgentTags.
Context (own keep agentTags : list gostring) (hostTag : gostring).

(** The tags that say whose series it is. *)
Definition fixed_tags : list gostring :=
  let fixed := keep ++ agentTags ++ own_hosts own in if bool_decide (hostTag <> []) && negb (HasTagKey fixed (str "host")) then fixed ++ [hostTag] else fixed.

Lemma canonical_NoDup l : NoDup (CanonicalTags l).
Proof.
  unfold CanonicalTags. pose proof (canonical_strict str_le l) as Hs. induction Hs as [|x k Hs IH Hx]; constructor; [|done]. intros Hin. rewrite Forall_forall in Hx. by destruct (Hx x Hin).
Qed.
Lemma canonical_length l k : (forall x, x ∈ l -> x ∈ k) -> (length (CanonicalTags l) <= length k)%nat.
Proof. intros Hlk. apply submseteq_length, NoDup_submseteq; [apply canonical_NoDup|]. intros x Hx. apply Hlk. exact (proj1 (elem_of_canonical str_le l x) Hx). Qed.
Lemma elem_of_CanonicalTags l x : x ∈ CanonicalTags l <-> x ∈ l.
Proof. apply elem_of_canonical. Qed.

Lemma has_host l : HasTagKey l (str "host") = true <-> exists t, t ∈ l /\ fst (SplitTag t) = str "host".
Proof. unfold HasTagKey. rewrite existsb_Exists. split; intros (t & Ht & Hh); exists t; (split; [done|]); [exact (bool_decide_eq_true_1 _ Hh)|exact (bool_decide_eq_true_2 _ Hh)]. Qed.
Lemma host_moved : HasTagKey (keep ++ agentTags ++ own_hosts own) (str "host") = HasTagKey ((own ++ keep) ++ agentTags) (str "host").
Proof.
  apply eq_true_iff_eq. rewrite !has_host. unfold own_hosts. split; intros (t & Ht & Hh); exists t; (split; [|done]); revert Ht; rewrite !elem_of_app, list_elem_of_filter; tauto.
Qed.

(** A list of at most fifty tags is not cut. *)
Lemma uncut (l : list gostring) : (length l <= 50)%nat -> (MaxTagsPerPoint <? ulen l) = false.
Proof. intros Hl. apply Z.ltb_ge. unfold MaxTagsPerPoint, ulen. lia. Qed.

(** When everything fits, the shortcut of [DecorateKeeping] gives the tags of the long way. *)
Theorem keeping_shortcut : ulen own + ulen keep + ulen agentTags + 1 <= MaxTagsPerPoint -> Decorate (own ++ keep) agentTags hostTag = DecorateFixed own keep agentTags hostTag.
Proof.
  intros Hfit. unfold Decorate, DecorateFixed. rewrite host_moved. set (hc := bool_decide (hostTag <> []) && _). set (out := if hc then ((own ++ keep) ++ agentTags) ++ [hostTag] else (own ++ keep) ++ agentTags). set (fixed := if hc then (keep ++ agentTags ++ own_hosts own) ++ [hostTag] else keep ++ agentTags ++ own_hosts own).
  assert (Hf : forall x, x ∈ fixed -> x ∈ out) by (intros x; unfold fixed, out, own_hosts; destruct hc; rewrite !elem_of_app, list_elem_of_filter; tauto).
  assert (Ho : forall x, x ∈ out <-> x ∈ fixed \/ x ∈ own) by (intros x; unfold fixed, out, own_hosts; destruct hc; rewrite !elem_of_app, list_elem_of_filter; tauto).
  assert (Hlen : (length out <= 50)%nat) by (unfold out, ulen, MaxTagsPerPoint in *; destruct hc; rewrite !length_app; cbn; lia).
  assert (Hcf : (length (CanonicalTags fixed) <= 50)%nat) by (etransitivity; [by apply (canonical_length fixed out)|done]). assert (Hco : (length (CanonicalTags out) <= 50)%nat) by (etransitivity; [by apply (canonical_length out out)|done]).
  rewrite (uncut _ Hcf), (uncut _ Hco). set (rest := base.filter _ (CanonicalTags own)). assert (Hd : NoDup (CanonicalTags fixed ++ rest)).
  { apply NoDup_app. split; [apply canonical_NoDup|]. split; [intros x Hx [Hn _]%list_elem_of_filter; done|apply NoDup_filter, canonical_NoDup]. }
  assert (Hr : (length (CanonicalTags fixed ++ rest) <= length out)%nat).
  { apply submseteq_length, NoDup_submseteq; [done|]. intros x [Hx|Hx]%elem_of_app; apply Ho; [left; exact (proj1 (elem_of_CanonicalTags _ x) Hx)|]. apply list_elem_of_filter in Hx as [_ Hx]. right. exact (proj1 (elem_of_CanonicalTags _ x) Hx). }
  rewrite length_app in Hr. rewrite (proj2 (Z.ltb_ge _ _)) by (unfold MaxTagsPerPoint, ulen; lia). f_equal. apply canonical_ext; try apply _. intros x. rewrite elem_of_app. unfold rest. rewrite list_elem_of_filter, !elem_of_CanonicalTags, Ho. destruct (decide (x ∈ fixed)); tauto.
Qed.

(** Tags that say whose series it is survive the cap as long as they fit it themselves, and at most fifty tags are left. *)
Theorem keeping_keeps : keep <> [] -> ulen (CanonicalTags fixed_tags) <= MaxTagsPerPoint ->
  (forall t, t ∈ keep \/ t ∈ agentTags -> t ∈ (DecorateKeeping own keep agentTags hostTag).1) /\ ulen (DecorateKeeping own keep agentTags hostTag).1 <= MaxTagsPerPoint.
Proof.
  intros Hk Hfix. assert (E : DecorateKeeping own keep agentTags hostTag = DecorateFixed own keep agentTags hostTag).
  { unfold DecorateKeeping. rewrite (proj2 (Z.eqb_neq (ulen keep) 0)) by (unfold ulen; destruct keep; [done|cbn; lia]). cbn [orb]. destruct (Z.leb_spec (ulen own + ulen keep + ulen agentTags + 1) MaxTagsPerPoint); [by apply keeping_shortcut|done]. }
  rewrite E. unfold DecorateFixed. fold fixed_tags. assert ((MaxTagsPerPoint <? ulen (CanonicalTags fixed_tags)) = false) as -> by (by apply Z.ltb_ge). set (rest := base.filter _ (CanonicalTags own)). set (room := MaxTagsPerPoint - _). set (kept := if room <? ulen rest then _ else _). assert (Hroom : 0 <= room) by (unfold room; lia).
  assert (Hkept : exists cut n, kept = (cut, n) /\ ulen cut <= room).
  { unfold kept. destruct (Z.ltb_spec room (ulen rest)); eexists _, _; (split; [done|]); unfold ulen in *; rewrite ?length_take; lia. }
  destruct Hkept as (cut & n & -> & Hcut). cbn [fst]. split.
  - intros t Ht. apply elem_of_CanonicalTags, elem_of_app. left. apply elem_of_CanonicalTags. unfold fixed_tags. destruct (_ && _); rewrite !elem_of_app; tauto.
  - pose proof (canonical_length (CanonicalTags fixed_tags ++ cut) (CanonicalTags fixed_tags ++ cut) ltac:(done)) as Hl. rewrite length_app in Hl. unfold room, ulen in *. lia.
Qed.
End AgentTags.

(** ** Percentiles *)

(** A float64 that is not above a whole number rounds up to at most it. *)
Lemma ceil_below x n : 0 <= n < 2 ^ 53 -> 0 <= x <= of_int n -> ceil_int x <= n.
Proof.
  intros Hn Hx. destruct (decide (x = 0)) as [->|Hx0]; [change (ceil_int 0) with 0; lia|]. pose proof (of_int_range n Hn). destruct (decide (n = 0)) as [->|Hn0]; [rewrite of_int_0 in Hx; lia|]. rewrite of_int_pos in Hx by lia. pose proof (int_bits_range n ltac:(lia)) as Hb. unfold int_bits in *.
  destruct (F64_pos x ltac:(lia)) as (m & e & EF & Hc). unfold ceil_int. rewrite EF. destruct (digits_bounds n ltac:(lia)) as [Hd [Hlo Hhi]]. assert (Hd53 : digits n <= 53) by (apply digits_le; lia). set (d := digits n) in *. pose proof (full_mantissa n ltac:(lia)) as HM. fold d in HM.
  assert (Hle : e <= 0 /\ Zpos m <= n * 2 ^ (- e)).
  { destruct Hc as [(Hm & Ex & He)|[Hm ->]].
    - assert (e <= d - 53) by lia. split; [lia|]. destruct (decide (e = d - 53)) as [->|Hne]; [replace (- (d - 53)) with (53 - d) by lia; lia|]. assert (2 ^ (d - 1) * 2 ^ (- e) <= n * 2 ^ (- e)) by (apply Z.mul_le_mono_nonneg_r; [apply Z.pow_nonneg; lia|lia]). rewrite <- Z.pow_add_r in * by lia. assert (2 ^ 53 <= 2 ^ (d - 1 + - e)) by (apply Z.pow_le_mono_r; lia). lia.
    - split; [lia|]. assert (2 ^ 52 <= 2 ^ 1074) by (apply Z.pow_le_mono_r; lia). assert (1 * 2 ^ 1074 <= n * 2 ^ 1074) by (apply Z.mul_le_mono_nonneg_r; [apply Z.pow_nonneg; lia|lia]). change (- -1074) with 1074. lia. }
  destruct Hle as [He Hle]. destruct (Z.leb_spec 0 e); [replace e with 0 in * by lia; change (2 ^ 0) with 1 in *; change (2 ^ - 0) with 1 in *; lia|]. assert (- n <= - Zpos m / 2 ^ (- e)); [|lia]. apply Z.div_le_lower_bound; [apply Z.pow_pos_nonneg; lia|lia].
Qed.

(** A percentile of the values of a histogram is one of them: the index is never out of range. *)
Theorem percentile_defined (l : list Z) p : 1 <= ulen l < 2 ^ 53 -> 0 < p < one -> exists v, percentile l p = Some v /\ v ∈ l.
Proof.
  intros Hl Hp. pose proof (fmul_fraction p (ulen l) Hp ltac:(lia)) as Hm. pose proof (ceil_below _ (ulen l) ltac:(lia) Hm) as Hc. unfold percentile. rewrite (proj2 (Z.eqb_neq _ _)) by lia.
  destruct (lookup_lt_is_Some_2 l (Z.to_nat (Z.max (ceil_int (fmul p (of_int (ulen l))) - 1) 0))) as [v Ev]; [unfold ulen in *; lia|]. exists v. split; [done|]. by eapply list_elem_of_lookup_2.
Qed.

(** ** An agent that runs *)

Section Sample.
#[local] Instance sample_math : GoMath := {| Log := fun x => x; Pow := fun x _ => x; int_of_NaN := 0 |}.

Definition by_length (k : gostring) : Z := ulen k.
Definition as_listed (m : gmap gostring aggContext) : list (gostring * aggContext) := map_to_list m.
Definition as_is (s : gostring) : gostring := s.

(** Buckets of ten seconds, two shards, zeros for thirty seconds. *)
Definition sample_options (t : Z) : Options := MkOptions (Some (t * second)) (str "host:web1") [] (10 * second) (30 * second) 0 0 2.
Definition measure (name : gostring) (kind v ts : Z) : Sample := MkSample name kind v (str "alice") 0 [str "env:dev"] ts.
Definition first_draw (n : Z) : Z := 0.
Definition add_at (now : Z) (s : Sample) : event := EvAdd first_draw s (now * second).
Definition busy : list event :=
  [add_at 101 (measure (str "hits") Counter (of_int 3) 0); add_at 102 (measure (str "hits") Counter (of_int 4) 0); add_at 103 (measure (str "hits") Counter (of_int 5) 125);
   add_at 104 (measure (str "load") Gauge (of_int 7) 0); add_at 104 (measure (str "wait") Histogram (of_int 7) 0); add_at 105 (measure (str "size") Distribution (of_int 6) 0); add_at 106 (measure (str "users") SetKind 0 0);
   EvTick (111 * second); EvShard; add_at 111 (measure (str "hits") Counter (of_int 2) 104); EvShard; EvSink;
   EvTick (112 * second); EvTick (200 * second); EvShard; EvShard; EvSink; add_at 203 (measure (str "load") Gauge (of_int 9) 0); EvStop (205 * second); EvShard; EvShard; EvSink].
Definition first_agent : system := default (started as_is (sample_options 95) (100 * second)) (run_events as_is by_length as_listed busy (started as_is (sample_options 95) (100 * second))).

Lemma busy_run : run_events as_is by_length as_listed busy (started as_is (sample_options 95) (100 * second)) = Some first_agent.
Proof. vm_compute. reflexivity. Qed.
Lemma sample_options_ok t : 0 <= t < 2 ^ 60 -> options_ok as_is (sample_options t).
Proof.
  intros Ht. constructor; [unfold is_i64; vm_compute; done|unfold is_i64; vm_compute; done| |apply is_Some_alt; vm_compute; exact I]. exists (t * second). split; [done|]. unfold Unix. rewrite Z.div_mul by done. done.
Qed.
Lemma add_ok opts T now s : a_interval (NewAggregator as_is opts) <= now <= T -> T < 2 ^ 60 -> is_i64 (s_Timestamp s) -> event_ok (NewAggregator as_is opts) T (add_at now s).
Proof. intros Hn HT Hs. unfold add_at, event_ok, clock_ok, Unix. rewrite Z.div_mul by done. split_and!; try lia; try done; unfold first_draw; lia. Qed.
Lemma clock_at opts T now : a_interval (NewAggregator as_is opts) <= now <= T -> T < 2 ^ 60 -> clock_ok (NewAggregator as_is opts) T (now * second).
Proof. intros Hn HT. unfold clock_ok, Unix. rewrite Z.div_mul by done. lia. Qed.
Lemma sample_interval t : a_interval (NewAggregator as_is (sample_options t)) = 10.
Proof. done. Qed.
Ltac events := repeat (apply Forall_cons; split; [first [apply add_ok; [rewrite sample_interval; lia|lia|unfold is_i64; vm_compute; done] | apply clock_at; [rewrite sample_interval; lia|lia] | exact I] | ]); by apply Forall_nil.
Lemma busy_agent : agent_run as_is by_length as_listed (sample_options 95) 205 busy first_agent.
Proof. constructor; [apply sample_options_ok; lia|unfold busy; events|done|exists (100 * second); exact busy_run]. Qed.
Lemma as_listed_walks m : as_listed m ≡ₚ map_to_list m.
Proof. done. Qed.

(** The timestamps of the counter: the late sample of 104 is counted at 110, after which zeros fill the gaps. *)
Lemma busy_stamps : stamps (str "hits") (mjoin (y_sent first_agent)) = [100; 110; 120; 130; 140; 150].
Proof. vm_compute. reflexivity. Qed.
Definition hits_key : gostring := contextKey Counter (str "hits") [str "env:dev"; str "host:web1"].
Lemma no_bucket_twice_witness : ssorted (stamps (str "hits") (for_key hits_key (mjoin (y_sent first_agent)))) /\ ssorted (sketch_stamps (for_key hits_key (mjoin (y_sent first_agent)))).
Proof. exact (no_bucket_twice as_is by_length as_listed as_listed_walks (sample_options 95) 205 busy first_agent busy_agent hits_key (str "hits")). Defined.

Lemma samples_counted_once_witness : exists L, arrivals L = omap (accepts as_is (NewAggregator as_is (sample_options 95))) busy /\
  (forall n, n ∈ mjoin (y_sent first_agent) -> truthful (NewAggregator as_is (sample_options 95)) L n).
Proof. destruct (samples_counted_once as_is by_length as_listed as_listed_walks (sample_options 95) 205 busy first_agent busy_agent) as (L & H1 & H2 & _). exists L. split; [exact H1|exact H2]. Defined.

(** The agent started after it, in the second in which it stopped. *)
Definition after_restart : list event := [add_at 206 (measure (str "hits") Counter (of_int 1) 0); EvTick (221 * second); EvShard; EvShard; EvSink].
Definition second_agent : system := default (started as_is (sample_options 205) (205 * second)) (run_events as_is by_length as_listed after_restart (started as_is (sample_options 205) (205 * second))).
Lemma restarted_run : run_events as_is by_length as_listed after_restart (started as_is (sample_options 205) (205 * second)) = Some second_agent.
Proof. vm_compute. reflexivity. Qed.
Lemma restarted_agent : agent_run as_is by_length as_listed (sample_options 205) 221 after_restart second_agent.
Proof. constructor; [apply sample_options_ok; lia|unfold after_restart; events|done|exists (205 * second); exact restarted_run]. Qed.
Definition nth_sent (y : system) (i : nat) : sent := default (MkSent [] [] []) (mjoin (y_sent y) !! i).
Lemma nth_sent_elem y i : bool_decide (i < length (mjoin (y_sent y)))%nat = true -> nth_sent y i ∈ mjoin (y_sent y).
Proof. intros Hi%bool_decide_eq_true. unfold nth_sent. destruct (lookup_lt_is_Some_2 _ _ Hi) as [n En]. rewrite En. by eapply list_elem_of_lookup_2. Qed.
(** The first point of the first series. *)
Lemma stamped_first n t : match n_series n with sr :: _ => match w_Points sr with p :: _ => p_Timestamp p =? t | [] => false end | [] => false end = true -> stamped n t.
Proof.
  destruct n as [k [|sr l] ss]; [done|]. cbn [n_series]. destruct (w_Points sr) as [|p ps] eqn:Ep; [done|]. intros <-%Z.eqb_eq. left. exists sr, p. cbn. rewrite Ep. split; [left|]. split; [left|done].
Qed.
(** The last flush of the first agent sent the open bucket of 200; the first of the second begins at 210. *)
Lemma restart_stamps_later_witness : stamped (nth_sent first_agent 10) 200 /\ stamped (nth_sent second_agent 0) 210 /\ 200 < 210.
Proof.
  assert (H1 : stamped (nth_sent first_agent 10) 200) by (apply stamped_first; vm_compute; reflexivity). assert (H2 : stamped (nth_sent second_agent 0) 210) by (apply stamped_first; vm_compute; reflexivity).
  split; [exact H1|]. split; [exact H2|]. apply (restart_stamps_later as_is by_length as_listed as_listed_walks (sample_options 95) 205 busy first_agent (sample_options 205) 221 after_restart second_agent (205 * second) busy_agent restarted_agent eq_refl ltac:(vm_compute; discriminate) (nth_sent first_agent 10) 200 (nth_sent second_agent 0) 210); [apply nth_sent_elem; vm_compute; reflexivity|exact H1|apply nth_sent_elem; vm_compute; reflexivity|exact H2].
Defined.

(** A counter with data at 100 and nothing since, flushed at 200. *)
Definition idle_hits : aggContext := MkContext (str "hits") [] Counter {[100 := MkBucket (of_int 3) 0 ∅ 0 0 0 0 [] None]} 101 100 100.
Definition sample_agg : Aggregator := NewAggregator as_is (sample_options 95).
Lemma idle_ok : ctx_ok sample_agg 100 idle_hits.
Proof.
  assert (Hb : forall s, is_Some (c_buckets idle_hits !! s) -> s = 100) by (intros s [b Hb]; cbn in Hb; by apply lookup_singleton_Some in Hb as [<- _]). assert (H10 : (a_interval sample_agg | 100)) by (change (a_interval sample_agg) with 10; by exists 10).
  constructor; [cbn; lia| |].
  - intros s ->%Hb. unfold in_time. split; [lia|]. split; [done|lia].
  - intros _. cbn [c_next c_lastData idle_hits]. unfold in_time. split; [lia|]. split; [done|]. split; [lia|]. split; [lia|]. split; [intros s ->%Hb; lia|]. left. cbn. rewrite lookup_singleton_eq. by eexists.
Qed.
Lemma counter_zero_fill_witness : exists c' out, flushContext sample_agg 200 false 201 idle_hits = Some (c', out, []) /\ MkPoint 130 0 ∈ mjoin (w_Points <$> out).
Proof.
  destruct (counter_zero_fill sample_agg idle_hits 100 200 201) as (c' & out & E & Hp); [apply (New_ok as_is by_length (sample_options 95)), sample_options_ok; lia|apply idle_ok|reflexivity|unfold in_time; lia|change (a_interval sample_agg) with 10; by exists 20|].
  exists c', out. split; [exact E|]. apply Hp. cbn [p_Timestamp]. split; [cbn; lia|]. split; [change (a_interval sample_agg) with 10; by exists 13|]. unfold fills. cbn. rewrite lookup_singleton_ne by done. split; [done|]. exists 100. split; [|vm_compute; discriminate]. left. rewrite lookup_singleton_eq. split; [by eexists|]. split; [lia|]. intros x [b Hx] _. apply lookup_singleton_Some in Hx as [<- _]. lia.
Defined.

(** ** Edges *)

Definition MaxFloat64 : Z := 0x7FEFFFFFFFFFFFFF.
(** Two samples of a counter, each finite, whose sum is not: both are accepted, and the point that is sent is infinite, which
    no payload can carry. *)
Definition overflowing : list event :=
  [add_at 101 (measure (str "hits") Counter MaxFloat64 0); add_at 102 (measure (str "hits") Counter MaxFloat64 0); EvTick (111 * second); EvShard; EvShard; EvSink].
Lemma counter_overflows : exists y, run_events as_is by_length as_listed overflowing (started as_is (sample_options 95) (100 * second)) = Some y /\
  a_samplesDropped (y_agg y) = 0 /\ (w_Points <$> mjoin (n_series <$> mjoin (y_sent y))) = [[MkPoint 100 (Inf false)]].
Proof. eexists. split; [vm_compute; reflexivity|]. split; vm_compute; reflexivity. Qed.

(** A timestamp of exactly 2^63 seconds before the clock passes for one within a minute of it: the difference wraps, and so does
    its absolute value. *)
Lemma tolerance_wraps : abs (int64 ((101 - 2 ^ 63) - 101)) = - 2 ^ 63 /\ sample_time (measure (str "hits") Counter one (101 - 2 ^ 63)) 101 = 101 - 2 ^ 63.
Proof. split; vm_compute; reflexivity. Qed.
End Sample.
