(* ===== verification/Monitor.v ===== *)
(** * Monitors (internal/monitor: spec levels, state, advance, one evaluation)

    The alert state machine of a monitor's groups: threshold levels and their
    validation, one step of one group, one evaluation of all groups, and the
    commit that makes an evaluation's outcome durable before it is adopted.

    A time.Time is a number of nanoseconds after the zero time, so [IsZero] is
    being 0; a Duration is an int64 number of nanoseconds. *)

From Stdlib Require Import ZArith Lia.
From Stdlib Require Import (notations) String.
From stdpp Require Import base sorting gmap numbers list.
From S2P Require Import Prelude Gofloat Gostring.

(** ** Time *)

(** [Time.Sub] saturates. *)
Definition Sub (t u : Z) : Z := Z.max (- 2 ^ 63) (Z.min (2 ^ 63 - 1) (t - u)).
Definition After (t u : Z) : bool := u <? t.
Definition IsZero (t : Z) : bool := t =? 0.
Definition Second : Z := 1000000000.
Definition Hour : Z := 3600 * Second.
(** The Unix epoch. *)
Definition unixEpoch : Z := 62135596800 * Second.
Definition UnixMilli (t : Z) : Z := (t - unixEpoch) / 1000000.
Definition fromUnixMilli (ms : Z) : Z := unixEpoch + ms * 1000000.

(** meta/monitors.go: how a time and a value are stored. *)
Definition msOrZero (t : Z) : Z := if IsZero t then 0 else UnixMilli t.
Definition timeOrZero (ms : Z) : Z := if ms =? 0 then 0 else fromUnixMilli ms.
Definition nullFloat (v : Z) : option Z := if isNaN v || isInf v then None else Some v.

(** scheduler.go: the first evaluation time after [t] for this phase. *)
Definition TimeTruncate (t d : Z) : Z := if d <=? 0 then t else t - t mod d.
Definition nextAfter (t interval offset : Z) : Z :=
  let base := TimeTruncate (t - offset) interval + offset in
  if negb (After base t) then base + interval else base.

(** ** Levels (spec/query.go, spec/monitor.go) *)

Inductive Op := OpGT | OpGE | OpLT | OpLE | OpEQ | OpNE.

Definition Compare (o : Op) (v t : Z) : bool :=
  match o with
  | OpGT => flt t v
  | OpGE => fle t v
  | OpLT => flt v t
  | OpLE => fle v t
  | OpEQ => feq v t
  | OpNE => negb (feq v t)
  end.
Definition Above (o : Op) : bool := match o with OpGT | OpGE => true | _ => false end.
Definition Below (o : Op) : bool := match o with OpLT | OpLE => true | _ => false end.

Record Thresholds := MkThresholds {
  th_Critical : option Z; th_Warning : option Z; th_CriticalRecovery : option Z; th_WarningRecovery : option Z;
}.

Record Levels := MkLevels {
  lv_Op : Op; lv_Critical : Z; lv_CriticalRecovery : Z;
  lv_HasWarning : bool; lv_Warning : Z; lv_WarningRecovery : Z;
}.

Definition Breach (l : Levels) (v level : Z) : bool := Compare (lv_Op l) v level.

Inductive level_error :=
| NotFinite | CriticalMismatch | RecoveryNeedsWarning | NoDirection
| WarningPastCritical | CriticalRecoveryPast | WarningRecoveryPast.

Definition finite (p : option Z) : list level_error :=
  match p with Some x => if isNaN x || isInf x then [NotFinite] else [] | None => [] end.

Definition before_ (o : Op) (a b : Z) : bool := if Below o then fle b a else fle a b.

(** [levels], for a query with this comparison and threshold. *)
Definition levels (op : Op) (threshold : Z) (t : Thresholds) : Levels * list level_error :=
  let lv := MkLevels op threshold (default threshold (th_CriticalRecovery t))
    (match th_Warning t with Some _ => true | None => false end) (default 0 (th_Warning t))
    (match th_WarningRecovery t with Some w => w | None => default 0 (th_Warning t) end) in
  let errs := finite (th_Critical t) ++ finite (th_Warning t) ++ finite (th_CriticalRecovery t)
    ++ finite (th_WarningRecovery t)
    ++ (match th_Critical t with Some c => if feq c threshold then [] else [CriticalMismatch] | None => [] end)
    ++ (match th_WarningRecovery t, th_Warning t with Some _, None => [RecoveryNeedsWarning] | _, _ => [] end) in
  if negb (Above op) && negb (Below op) then
    (lv, errs ++ match th_Warning t, th_CriticalRecovery t, th_WarningRecovery t with
                 | None, None, None => [] | _, _, _ => [NoDirection] end)
  else
    (lv, errs
      ++ (if lv_HasWarning lv && (feq (lv_Warning lv) (lv_Critical lv) || negb (before_ op (lv_Warning lv) (lv_Critical lv)))
          then [WarningPastCritical] else [])
      ++ (if negb (before_ op (lv_CriticalRecovery lv) (lv_Critical lv)) then [CriticalRecoveryPast] else [])
      ++ (if lv_HasWarning lv && negb (before_ op (lv_WarningRecovery lv) (lv_Warning lv)) then [WarningRecoveryPast] else [])).

(** ** The state machine (state/state.go) *)

Inductive Status := SOK | SWarn | SAlert | SNoData.
#[export] Instance Status_eq_dec : EqDecision Status.
Proof. solve_decision. Defined.

Record Group := MkGroup {
  g_Status : Status;
  g_Since : Z;
  g_Breaches : Z;
  g_LastValue : Z;
  g_LastEval : Z;
  g_LastData : Z;
  g_LastNotified : Z;
}.

(** A NaN, as [math.NaN] returns it. *)
Definition NaN : Z := 9221120237041090561.

Definition New (now : Z) : Group := MkGroup SOK now 0 NaN 0 0 0.

Record Observation := MkObservation {
  o_Now : Z; o_WindowEnd : Z; o_Present : bool; o_Value : Z; o_DataTs : Z;
}.

Record Config := MkConfig {
  c_Levels : Levels; c_MinFailures : Z; c_NoDataTimeframe : Z; c_Renotify : Z; c_Muted : bool;
}.

Inductive Notify := NotifyNone | NotifyTransition | NotifyRenotify.
#[export] Instance Notify_eq_dec : EqDecision Notify.
Proof. solve_decision. Defined.

Record Result_ := MkResult { r_From : Status; r_To : Status; r_Notify : Notify }.

Definition Changed (from to : Status) : bool := negb (bool_decide (from = to)).

Definition noData (prev : Group) (obs : Observation) (cfg : Config) : Status :=
  if (c_NoDataTimeframe cfg <=? 0) || IsZero (g_LastData prev) then g_Status prev
  else if c_NoDataTimeframe cfg <=? Sub (o_WindowEnd obs) (g_LastData prev) then SNoData
  else g_Status prev.

Definition evaluate (prev : Group) (v : Z) (cfg : Config) : Status * Z :=
  let lv := c_Levels cfg in
  let from := match g_Status prev with SNoData => SOK | s => s end in
  let crit := Breach lv v (lv_Critical lv) in
  let breaches := if crit then int64 (g_Breaches prev + 1) else 0 in
  let minFail := Z.max (c_MinFailures cfg) 1 in
  if crit && (minFail <=? breaches) then (SAlert, breaches)
  else if bool_decide (from = SAlert) && Breach lv v (lv_CriticalRecovery lv) then (SAlert, breaches)
  else if lv_HasWarning lv && Breach lv v (lv_Warning lv) then (SWarn, breaches)
  else if lv_HasWarning lv && (bool_decide (from = SWarn) || bool_decide (from = SAlert))
          && Breach lv v (lv_WarningRecovery lv) then (SWarn, breaches)
  else (SOK, breaches).

Definition Step (prev : Group) (obs : Observation) (cfg : Config) : Group * Result_ :=
  let '(status, breaches, value, data) :=
    if negb (o_Present obs) then
      let s := noData prev obs cfg in
      (s, if bool_decide (s = SNoData) then 0 else g_Breaches prev, g_LastValue prev, g_LastData prev)
    else
      let '(s, b) := evaluate prev (o_Value obs) cfg in
      (s, b, o_Value obs, if After (o_DataTs obs) (g_LastData prev) then o_DataTs obs else g_LastData prev) in
  let changed := Changed (g_Status prev) status in
  let notify :=
    if c_Muted cfg then NotifyNone
    else if changed then NotifyTransition
    else if (0 <? c_Renotify cfg) && (bool_decide (status = SAlert) || bool_decide (status = SNoData))
            && (c_Renotify cfg <=? Sub (o_Now obs) (g_LastNotified prev)) then NotifyRenotify
    else NotifyNone in
  (MkGroup status (if changed then o_Now obs else g_Since prev) breaches value (o_Now obs) data
     (if bool_decide (notify = NotifyNone) then g_LastNotified prev else o_Now obs),
   MkResult (g_Status prev) status notify).

(** ** One evaluation of all groups (advance.go) *)

Definition GroupTTL : Z := 24 * Hour.

Section Advance.
(** A group's tags. *)
Context {G : Type}.

Record tracked := MkTracked { t_State : Group; t_Group : G }.

(** One group's reduced value (eval/eval.go). *)
Record EValue := MkEValue {
  v_Key : gostring; v_Group : G; v_Present : bool; v_Skipped : bool; v_Value : Z; v_DataTs : Z;
}.

Record groupStep := MkGroupStep {
  s_Key : gostring; s_Group : G; s_Prev : Group; s_Next : Group; s_Res : Result_; s_Value : Z; s_Deleted : bool;
}.

Definition absent (key : gostring) (g : G) (prev : Group) (cfg : Config) (absentIsZero : bool) (now windowEnd : Z) : groupStep :=
  if negb (IsZero (g_LastData prev)) && (GroupTTL <=? Sub windowEnd (g_LastData prev)) then
    MkGroupStep key g prev prev (MkResult (g_Status prev) (g_Status prev) NotifyNone) NaN true
  else
    let '(obs, v) := if absentIsZero then (MkObservation now windowEnd true 0 0, 0)
                     else (MkObservation now windowEnd false 0 0, NaN) in
    let '(next, res) := Step prev obs cfg in
    MkGroupStep key g prev next res v false.

(** What the loop over the values does with one of them. *)
Definition advance_value (cfg : Config) (states : gmap gostring tracked) (absentIsZero : bool) (now windowEnd : Z)
    (v : EValue) : option groupStep :=
  if v_Skipped v then None else
  match v_Present v, states !! v_Key v with
  | false, None => None
  | false, Some t => Some (absent (v_Key v) (v_Group v) (t_State t) cfg absentIsZero now windowEnd)
  | true, known =>
      let prev := match known with Some t => t_State t | None => New now end in
      let '(next, res) := Step prev (MkObservation now windowEnd true (v_Value v) (v_DataTs v)) cfg in
      Some (MkGroupStep (v_Key v) (v_Group v) prev next res (v_Value v) false)
  end.

Definition unseen (states : gmap gostring tracked) (vals : list EValue) : list gostring :=
  merge_sort str_le (filter (fun k => k ∉ (v_Key <$> vals)) (map_to_list states).*1).

Definition advance (cfg : Config) (states : gmap gostring tracked) (vals : list EValue) (absentIsZero : bool)
    (now windowEnd : Z) : list groupStep :=
  omap (advance_value cfg states absentIsZero now windowEnd) vals
  ++ omap (fun k => (fun t => absent k (t_Group t) (t_State t) cfg absentIsZero now windowEnd) <$> states !! k)
       (unseen states vals).
End Advance.
Arguments tracked : clear implicits. Arguments EValue : clear implicits. Arguments groupStep : clear implicits.

(** ** The commit (scheduler.go evaluate and evalError, meta/monitors.go Commit) *)

Section Scheduling.
(** A group's tags; a queued notification, and how a step's are rendered. *)
Context {G O : Type}.
Variable notifications : groupStep G -> list O.

Inductive event_kind := EventTransition | EventRenotify | EventGroupExpired | EventEvalOK | EventEvalError | EventReset.
Record EventRow := MkEvent {
  ev_Kind : event_kind; ev_Ts : Z; ev_GroupKey : gostring; ev_From : option Status; ev_To : option Status;
  ev_Value : Z; ev_Text : gostring;
}.

Record CommitRec := MkCommit {
  cm_Query : gostring;
  cm_Upsert : list (gostring * tracked G);
  cm_Delete : list gostring;
  cm_Events : list EventRow;
  cm_Outbox : list O;
}.

(** What the scheduler keeps of one monitor. *)
Record entry := MkEntry { e_states : gmap gostring (tracked G); e_statesFor : gostring; e_lastErr : gostring }.

Definition step_events (now : Z) (st : groupStep G) : list EventRow :=
  let res := s_Res st in
  let changed := Changed (r_From res) (r_To res) in
  if changed || bool_decide (r_Notify res = NotifyRenotify) then
    [MkEvent (if changed then EventTransition else EventRenotify) now (s_Key st) (Some (r_From res)) (Some (r_To res))
       (s_Value st) []]
  else [].

Definition expired_event (now : Z) (st : groupStep G) : EventRow :=
  MkEvent EventGroupExpired now (s_Key st) (Some (g_Status (s_Prev st))) None NaN
    (str "no data for 24h0m0s; group forgotten").

(** One step recorded in the commit and in the next states. *)
Definition record_step (now : Z) (acc : CommitRec * gmap gostring (tracked G)) (st : groupStep G) :
  CommitRec * gmap gostring (tracked G) :=
  let '(c, next) := acc in
  if s_Deleted st then
    (MkCommit (cm_Query c) (cm_Upsert c) (cm_Delete c ++ [s_Key st]) (cm_Events c ++ [expired_event now st]) (cm_Outbox c),
     delete (s_Key st) next)
  else
    let t := MkTracked (s_Next st) (s_Group st) in
    (MkCommit (cm_Query c) (cm_Upsert c ++ [(s_Key st, t)]) (cm_Delete c) (cm_Events c ++ step_events now st)
       (cm_Outbox c ++ if bool_decide (r_Notify (s_Res st) = NotifyNone) then [] else notifications st),
     <[s_Key st := t]> next).

(** Step every group, in memory, and collect what the outcome owes. *)
Definition prepare (query : gostring) (cfg : Config) (vals : list (EValue G)) (absentIsZero : bool) (now windowEnd : Z)
    (e : entry) : CommitRec * gmap gostring (tracked G) :=
  let fresh := negb (bool_decide (e_statesFor e = query)) in
  let states := if fresh then ∅ else e_states e in
  let c := MkCommit query [] (if fresh then (map_to_list (e_states e)).*1 else [])
    (match e_lastErr e with
     | [] => []
     | err => [MkEvent EventEvalOK now [] None None NaN (str "evaluating again after: " ++ err)]
     end) [] in
  foldl (record_step now) (c, states) (advance cfg states vals absentIsZero now windowEnd).

(** The tables of one monitor: times in milliseconds, a NaN or an infinity as NULL. *)
Record state_row := MkStateRow {
  sr_group : G; sr_status : Status; sr_since : Z; sr_breaches : Z; sr_last_value : option Z;
  sr_last_eval : Z; sr_last_data : Z; sr_last_notified : Z;
}.
Record event_row := MkEventRow {
  er_ts : Z; er_kind : event_kind; er_group_key : gostring; er_from : option Status; er_to : option Status;
  er_value : option Z; er_text : gostring;
}.
Record database := MkDatabase {
  db_enabled : bool; db_query : gostring; db_states : gmap gostring state_row; db_events : list event_row;
  db_outbox : list (Z * O);
}.

(** The row an upsert writes, and the state [States] and [fromRow] read back. *)
Definition save (t : tracked G) : state_row :=
  let g := t_State t in
  MkStateRow (t_Group t) (g_Status g) (msOrZero (g_Since g)) (g_Breaches g) (nullFloat (g_LastValue g))
    (msOrZero (g_LastEval g)) (msOrZero (g_LastData g)) (msOrZero (g_LastNotified g)).
Definition restore (r : state_row) : tracked G :=
  MkTracked (MkGroup (sr_status r) (timeOrZero (sr_since r)) (sr_breaches r) (default NaN (sr_last_value r))
    (timeOrZero (sr_last_eval r)) (timeOrZero (sr_last_data r)) (timeOrZero (sr_last_notified r))) (sr_group r).

Definition insertEvent (e : EventRow) : event_row :=
  MkEventRow (msOrZero (ev_Ts e)) (ev_Kind e) (ev_GroupKey e) (ev_From e) (ev_To e) (nullFloat (ev_Value e)) (ev_Text e).

Inductive commit_error := ErrNotRunnable | ErrStore.

(** [DB.Commit]: one transaction, which the store may refuse; [ids] are the row
    ids the store gives the queued notifications. *)
Definition CommitDB (c : CommitRec) (ids : nat -> Z) (refused : bool) (d : database) :
  database * result commit_error (list (Z * O)) :=
  if negb (db_enabled d) || (negb (bool_decide (cm_Query c = [])) && negb (bool_decide (cm_Query c = db_query d)))
  then (d, Err ErrNotRunnable)
  else if refused then (d, Err ErrStore)
  else
    let states := foldl (fun m u => <[u.1 := save u.2]> m) (db_states d) (cm_Upsert c) in
    let states := foldl (fun m k => delete k m) states (cm_Delete c) in
    let out := imap (fun i o => (ids i, o)) (cm_Outbox c) in
    (MkDatabase (db_enabled d) (db_query d) states (db_events d ++ (insertEvent <$> cm_Events c)) (db_outbox d ++ out), Ok out).

(** [Scheduler.evaluate] after the query answered: prepare, commit, and only then
    adopt and hand over the notifications. *)
Definition evaluate_monitor (query : gostring) (cfg : Config) (vals : list (EValue G)) (absentIsZero : bool) (now windowEnd : Z)
    (ids : nat -> Z) (refused : bool) (e : entry) (d : database) : entry * database * list (Z * O) :=
  let '(c, next) := prepare query cfg vals absentIsZero now windowEnd e in
  match CommitDB c ids refused d with
  | (d', Ok out) => (MkEntry next query [], d', out)
  | (d', Err _) => (e, d', [])
  end.

(** [evalError]: the query failed. *)
Definition evalError (query msg : gostring) (now : Z) (refused : bool) (e : entry) (d : database) : entry * database :=
  if bool_decide (msg = e_lastErr e) then (e, d) else
  match CommitDB (MkCommit query [] [] [MkEvent EventEvalError now [] None None NaN msg] []) (fun _ => 0) refused d with
  | (d', Ok _) => (MkEntry (e_states e) (e_statesFor e) msg, d')
  | (d', Err _) => (e, d')
  end.

(** [load] for a monitor new to the schedule. *)
Definition load_entry (d : database) : entry := MkEntry (restore <$> db_states d) (db_query d) [].

(** [UpdateMonitor], as far as the query is concerned. *)
Definition resetIfQueryChanged (after : gostring) (now : Z) (d : database) : database :=
  if bool_decide (db_query d = after) then d
  else MkDatabase (db_enabled d) after ∅
    (db_events d ++ [insertEvent (MkEvent EventReset now [] None None NaN (str "query changed; group states reset"))]) (db_outbox d).
End Scheduling.
