(* ===== verification/MonitorProofs.v ===== *)
(** * What a monitor promises

    When a group is NO_DATA, when it is in ALERT, and what is announced. *)

From Stdlib Require Import ZArith Lia.
From Stdlib Require Import (notations) String.
From stdpp Require Import base sorting gmap numbers list.
From S2P Require Import Prelude Gofloat Gostring Monitor.

(** ** Validated levels *)

(** Each level is on the healthy side of the one it recovers from or warns of. *)
Record levels_ok (lv : Levels) : Prop := {
  lo_recovery v : Breach lv v (lv_Critical lv) = true -> Breach lv v (lv_CriticalRecovery lv) = true;
  lo_warning v : lv_HasWarning lv = true -> Breach lv v (lv_Critical lv) = true -> Breach lv v (lv_Warning lv) = true;
  lo_warning_recovery v : lv_HasWarning lv = true -> Breach lv v (lv_Warning lv) = true ->
    Breach lv v (lv_WarningRecovery lv) = true;
}.

Lemma before_breach op a b v : Above op || Below op = true -> before_ op a b = true ->
  Compare op v b = true -> Compare op v a = true.
Proof.
  destruct op; cbn; intros Hd Hb Hc; try done.
  - by eapply fle_lt_trans.
  - by eapply fle_trans.
  - by eapply flt_le_trans.
  - by eapply fle_trans.
Qed.

Lemma if_nil {A} (b : bool) (x : A) : (if b then [x] else []) = [] -> b = false.
Proof. by destruct b. Qed.

Lemma levels_sound op threshold t lv : levels op threshold t = (lv, []) -> levels_ok lv.
Proof.
  unfold levels. destruct (negb (Above op) && negb (Below op)) eqn:Ed; intros [= <- Herr].
  - apply app_nil in Herr as [_ Herr]. destruct (th_Warning t), (th_CriticalRecovery t), (th_WarningRecovery t); try done.
  - apply app_nil in Herr as [_ Herr]. apply app_nil in Herr as [Hw Herr]. apply app_nil in Herr as [Hc Hr].
    apply if_nil in Hw, Hc, Hr. cbn [lv_HasWarning lv_Warning lv_Critical lv_CriticalRecovery lv_WarningRecovery] in *.
    assert (Hd : Above op || Below op = true) by (destruct (Above op), (Below op); done).
    apply negb_false_iff in Hc.
    constructor; unfold Breach; cbn [lv_Op lv_HasWarning lv_Warning lv_Critical lv_CriticalRecovery lv_WarningRecovery].
    + intros v. by apply before_breach.
    + intros v Hh. rewrite Hh in Hw. cbn in Hw. apply orb_false_iff in Hw as [_ Hw]. apply negb_false_iff in Hw.
      by apply before_breach.
    + intros v Hh. rewrite Hh in Hr. cbn in Hr. apply negb_false_iff in Hr. by apply before_breach.
Qed.

(** ** Traces of one group *)

Definition observe (cfg : Config) (g : Group) (obss : list Observation) : Group :=
  foldl (fun g o => (Step g o cfg).1) g obss.

Lemma observe_snoc cfg g obss o : observe cfg g (obss ++ [o]) = (Step (observe cfg g obss) o cfg).1.
Proof. unfold observe. by rewrite foldl_app. Qed.

Lemma Step_status prev o cfg : g_Status (Step prev o cfg).1
  = if o_Present o then (evaluate prev (o_Value o) cfg).1 else noData prev o cfg.
Proof. unfold Step. destruct (o_Present o); cbn [negb]; [by destruct (evaluate _ _ _)|done]. Qed.

Lemma Step_breaches prev o cfg : g_Breaches (Step prev o cfg).1
  = if o_Present o then (evaluate prev (o_Value o) cfg).2
    else if bool_decide (noData prev o cfg = SNoData) then 0 else g_Breaches prev.
Proof. unfold Step. destruct (o_Present o); cbn [negb]; [by destruct (evaluate _ _ _)|done]. Qed.

Definition crit (cfg : Config) (o : Observation) : bool := Breach (c_Levels cfg) (o_Value o) (lv_Critical (c_Levels cfg)).
Definition held (cfg : Config) (o : Observation) : bool :=
  Breach (c_Levels cfg) (o_Value o) (lv_CriticalRecovery (c_Levels cfg)).

Lemma evaluate_breaches prev o cfg : (evaluate prev (o_Value o) cfg).2 = if crit cfg o then int64 (g_Breaches prev + 1) else 0.
Proof.
  unfold evaluate, crit. destruct (Breach _ _ (lv_Critical _)), (_ <=? _), (bool_decide (_ = SAlert)), (Breach _ _ (lv_CriticalRecovery _)),
    (lv_HasWarning _), (Breach _ _ (lv_Warning _)), (bool_decide (_ = SWarn)), (Breach _ _ (lv_WarningRecovery _)); done.
Qed.

Lemma evaluate_alert prev o cfg : (evaluate prev (o_Value o) cfg).1 = SAlert <->
  (crit cfg o = true /\ Z.max (c_MinFailures cfg) 1 <= int64 (g_Breaches prev + 1)) \/ (g_Status prev = SAlert /\ held cfg o = true).
Proof.
  unfold evaluate. fold (crit cfg o) (held cfg o).
  assert (Hfrom : bool_decide (match g_Status prev with SNoData => SOK | s => s end = SAlert)
    = bool_decide (g_Status prev = SAlert)) by (by destruct (g_Status prev)).
  rewrite Hfrom. destruct (crit cfg o) eqn:Ec.
  - cbn [andb]. destruct (Z.leb_spec (Z.max (c_MinFailures cfg) 1) (int64 (g_Breaches prev + 1))).
    + split; [left; done|done].
    + destruct (bool_decide_reflect (g_Status prev = SAlert)) as [Ea|Ea]; cbn [andb].
      * destruct (held cfg o); [split; [auto|done]|]. split; [|intros [[_ ?]|[_ ?]]; [lia|done]].
        destruct (lv_HasWarning _), (Breach _ _ (lv_Warning _)), (bool_decide (_ = SWarn)), (Breach _ _ (lv_WarningRecovery _)); done.
      * split; [|intros [[_ ?]|[? _]]; [lia|done]].
        destruct (lv_HasWarning _), (Breach _ _ (lv_Warning _)), (bool_decide (_ = SWarn)), (Breach _ _ (lv_WarningRecovery _)); done.
  - cbn [andb]. destruct (bool_decide_reflect (g_Status prev = SAlert)) as [Ea|Ea]; cbn [andb].
    + destruct (held cfg o); [split; [auto|done]|]. split; [|intros [[? _]|[_ ?]]; done].
      destruct (lv_HasWarning _), (Breach _ _ (lv_Warning _)), (bool_decide (_ = SWarn)), (Breach _ _ (lv_WarningRecovery _)); done.
    + split; [|intros [[? _]|[? _]]; done].
      destruct (lv_HasWarning _), (Breach _ _ (lv_Warning _)), (bool_decide (_ = SWarn)), (Breach _ _ (lv_WarningRecovery _)); done.
Qed.

(** ** NO_DATA *)

(** The newest data timestamp among the values seen. *)
Definition newest (obss : list Observation) : Z :=
  foldl (fun m o => if o_Present o then Z.max m (o_DataTs o) else m) 0 obss.

Lemma Step_data prev o cfg : g_LastData (Step prev o cfg).1
  = if o_Present o then Z.max (g_LastData prev) (o_DataTs o) else g_LastData prev.
Proof.
  unfold Step. destruct (o_Present o); cbn [negb]; [|done]. destruct (evaluate _ _ _). cbn. unfold After.
  destruct (Z.ltb_spec (g_LastData prev) (o_DataTs o)); lia.
Qed.

Lemma observe_data cfg t0 obss : g_LastData (observe cfg (New t0) obss) = newest obss.
Proof.
  induction obss as [|o obss IH] using rev_ind; [done|]. rewrite observe_snoc, Step_data, IH.
  unfold newest. by rewrite foldl_app.
Qed.

Lemma evaluate_data prev v cfg : (evaluate prev v cfg).1 <> SNoData.
Proof. unfold evaluate. repeat case_match; done. Qed.

Lemma noData_spec prev o cfg : noData prev o cfg = SNoData <-> g_Status prev = SNoData \/
  (0 < c_NoDataTimeframe cfg /\ g_LastData prev <> 0 /\ c_NoDataTimeframe cfg <= Sub (o_WindowEnd o) (g_LastData prev)).
Proof.
  unfold noData, IsZero. destruct (Z.leb_spec (c_NoDataTimeframe cfg) 0), (Z.eqb_spec (g_LastData prev) 0); cbn [orb].
  1-3: naive_solver lia. destruct (Z.leb_spec (c_NoDataTimeframe cfg) (Sub (o_WindowEnd o) (g_LastData prev))); naive_solver lia.
Qed.

(** The group has been silent for the timeframe: some absent observation came that
    long after the newest point, a point there was, and no value has come since. *)
Definition silenced (cfg : Config) (obss : list Observation) : Prop :=
  exists pre o suf, obss = pre ++ o :: suf /\ Forall (fun o => o_Present o = false) (o :: suf)
    /\ 0 < c_NoDataTimeframe cfg /\ newest pre <> 0 /\ c_NoDataTimeframe cfg <= Sub (o_WindowEnd o) (newest pre).

Lemma silenced_snoc cfg obss o : silenced cfg (obss ++ [o]) <-> o_Present o = false /\
  (silenced cfg obss \/ (0 < c_NoDataTimeframe cfg /\ newest obss <> 0 /\ c_NoDataTimeframe cfg <= Sub (o_WindowEnd o) (newest obss))).
Proof.
  split.
  - intros (pre & x & suf & Heq & Hf & Hr). destruct suf as [|y suf _] using rev_ind.
    + apply app_inj_tail in Heq as [-> ->]. apply Forall_cons in Hf as [Hx _]. auto.
    + change (x :: suf ++ [y]) with ((x :: suf) ++ [y]) in *. rewrite app_assoc in Heq. apply app_inj_tail in Heq as [-> ->].
      apply Forall_app in Hf as [Hf Hy]. rewrite Forall_singleton in Hy. split; [done|left]. exists pre, x, suf. done.
  - intros [Ho [(pre & x & suf & -> & Hf & Hr)|Hr]].
    + exists pre, x, (suf ++ [o]). rewrite <- app_assoc. split_and!; [done| |apply Hr..].
      change (x :: suf ++ [o]) with ((x :: suf) ++ [o]). apply Forall_app. by rewrite Forall_singleton.
    + exists obss, o, []. split_and!; [done| |apply Hr..]. by rewrite Forall_singleton.
Qed.

(** A group is NO_DATA exactly when the monitor asks for it, the group has had
    data, an evaluation found it absent at least no_data_timeframe after its newest
    point, and no value has come since: a group that never had data, or that is late
    by less, never is. *)
Theorem no_data_trace cfg t0 obss : g_Status (observe cfg (New t0) obss) = SNoData <-> silenced cfg obss.
Proof.
  induction obss as [|o obss IH] using rev_ind.
  - split; [done|]. by intros ([|] & x & suf & Heq & _).
  - rewrite observe_snoc, Step_status, silenced_snoc. destruct (o_Present o).
    + split; [by intros H%evaluate_data|by intros [? _]].
    + rewrite noData_spec, IH, observe_data. naive_solver.
Qed.

(** ** ALERT *)

(** The length of the critical run at the end of a list of observations. *)
Definition run (cfg : Config) (os : list Observation) : Z := foldl (fun n o => if crit cfg o then n + 1 else 0) 0 os.

Lemma crit_run_snoc cfg os o : run cfg (os ++ [o]) = if crit cfg o then run cfg os + 1 else 0.
Proof. unfold run. by rewrite foldl_app. Qed.

Lemma run_nonneg cfg os : 0 <= run cfg os.
Proof. induction os as [|o os IH] using rev_ind; [done|]. rewrite crit_run_snoc. destruct (crit cfg o); lia. Qed.

(** A run of [n] is [n] observations at the end, all critical. *)
Lemma run_spec cfg os n : Z.of_nat n <= run cfg os <->
  exists pre mid, os = pre ++ mid /\ length mid = n /\ Forall (fun o => crit cfg o = true) mid.
Proof.
  revert n. induction os as [|o os IH] using rev_ind; intros n.
  - split.
    + cbn. intros ?. exists [], []. split_and!; [done|cbn; lia|by apply Forall_nil].
    + intros (pre & mid & Heq & Hl & _). symmetry in Heq. apply app_nil in Heq as [-> ->]. cbn in *. lia.
  - rewrite crit_run_snoc. split.
    + intros Hn. destruct n as [|n].
      * exists (os ++ [o]), []. split_and!; [by rewrite app_nil_r|done|by apply Forall_nil].
      * destruct (crit cfg o) eqn:Ec; [|lia]. destruct (proj1 (IH n)) as (pre & mid & -> & Hl & Hc); [lia|].
        exists pre, (mid ++ [o]). split_and!; [by rewrite app_assoc|rewrite length_app; cbn; lia|].
        apply Forall_app. split; [done|by apply Forall_singleton].
    + intros (pre & mid & Heq & Hl & Hc). destruct mid as [|x mid _] using rev_ind.
      * cbn in Hl. subst n. destruct (crit cfg o); [pose proof (run_nonneg cfg os)|]; lia.
      * rewrite app_assoc in Heq. apply app_inj_tail in Heq as [-> ->]. rewrite length_app in Hl. cbn in Hl.
        apply Forall_app in Hc as [Hc Hx]. rewrite Forall_singleton in Hx. rewrite Hx.
        assert (Z.of_nat (length mid) <= run cfg (pre ++ mid)) by (apply IH; eauto). lia.
Qed.

Definition presentb (o : Observation) : Prop := o_Present o = true.
#[export] Instance presentb_dec o : Decision (presentb o).
Proof. unfold presentb. apply _. Defined.

(** Some [min_consecutive_failures] consecutive values breached critical, and
    every value after them has stayed past critical_recovery. *)
Definition alerted (cfg : Config) (os : list Observation) : Prop :=
  exists pre mid suf, os = pre ++ mid ++ suf /\ Z.of_nat (length mid) = Z.max (c_MinFailures cfg) 1
    /\ Forall (fun o => crit cfg o = true) mid /\ Forall (fun o => held cfg o = true) suf.

Lemma alerted_snoc cfg os o : alerted cfg (os ++ [o]) <->
  (crit cfg o = true /\ Z.max (c_MinFailures cfg) 1 <= run cfg os + 1) \/ (alerted cfg os /\ held cfg o = true).
Proof.
  split.
  - intros (pre & mid & suf & Heq & Hl & Hc & Hh). destruct suf as [|x suf _] using rev_ind.
    + rewrite app_nil_r in Heq. left.
      assert (Hr : Z.of_nat (length mid) <= run cfg (os ++ [o])) by (apply run_spec; eauto).
      rewrite crit_run_snoc in Hr. destruct (crit cfg o); [split; [done|]|]; lia.
    + rewrite !app_assoc in Heq. apply app_inj_tail in Heq as [-> ->]. apply Forall_app in Hh as [Hh Hx].
      right. split; [|by rewrite Forall_singleton in Hx]. exists pre, mid, suf. by rewrite <- !app_assoc.
  - intros [[Hc Hm]|[(pre & mid & suf & -> & Hl & Hc & Hh) Ho]].
    + assert (Hr : Z.of_nat (Z.to_nat (Z.max (c_MinFailures cfg) 1)) <= run cfg (os ++ [o])) by (rewrite crit_run_snoc, Hc; lia).
      apply run_spec in Hr as (pre & mid & Heq & Hl & Hf). exists pre, mid, []. rewrite app_nil_r.
      split_and!; [done|lia|done|by apply Forall_nil].
    + exists pre, mid, (suf ++ [o]). rewrite <- !app_assoc. split_and!; [done..|].
      apply Forall_app. split; [done|by apply Forall_singleton].
Qed.

Lemma alerted_nil cfg : ~ alerted cfg [].
Proof.
  intros (pre & mid & suf & Heq & Hl & _). symmetry in Heq. apply app_nil in Heq as [_ Heq]. apply app_nil in Heq as [-> _].
  cbn in Hl. lia.
Qed.

Lemma run_length cfg os : run cfg os <= Z.of_nat (length os).
Proof.
  induction os as [|o os IH] using rev_ind; [done|]. rewrite crit_run_snoc, length_app. cbn [length].
  destruct (crit cfg o); lia.
Qed.

(** [rest] is what was observed after the last silence: everything, when the
    group has never been silent for the timeframe. *)
Definition since_silence (cfg : Config) (obss rest : list Observation) : Prop :=
  exists pre, obss = pre ++ rest /\ (pre = [] \/ silenced cfg pre)
    /\ forall r, r <> [] -> r `prefix_of` rest -> ~ silenced cfg (pre ++ r).

Lemma since_silence_shorter cfg pre rest pre' rest' : pre ++ rest = pre' ++ rest' -> (length pre <= length pre')%nat ->
  pre' = [] \/ silenced cfg pre' -> (forall r, r <> [] -> r `prefix_of` rest -> ~ silenced cfg (pre ++ r)) -> rest = rest'.
Proof.
  intros Heq Hlen Hs Hn. assert (Hpre : pre `prefix_of` pre').
  { destruct (prefix_weak_total pre pre' (pre ++ rest)) as [Hp|Hp].
    - by exists rest.
    - exists rest'. done.
    - done.
    - destruct Hp as [k ->]. rewrite length_app in Hlen. destruct k; [|cbn in Hlen; lia]. by rewrite app_nil_r. }
  destruct Hpre as [r ->]. rewrite <- app_assoc in Heq. apply app_inv_head in Heq as ->.
  destruct r as [|x r]; [done|]. destruct Hs as [Hs|Hs]; [by destruct pre|].
  exfalso. by apply (Hn (x :: r)); [|apply prefix_app_r|].
Qed.

Lemma since_silence_unique cfg obss rest rest' : since_silence cfg obss rest -> since_silence cfg obss rest' -> rest = rest'.
Proof.
  intros (pre & -> & Hs & Hn) (pre' & Heq & Hs' & Hn').
  destruct (Nat.le_ge_cases (length pre) (length pre')) as [Hl|Hl].
  - by eapply since_silence_shorter.
  - symmetry. by eapply (since_silence_shorter cfg pre' rest' pre rest).
Qed.

Lemma since_silence_snoc cfg obss rest o : ~ silenced cfg (obss ++ [o]) -> since_silence cfg obss rest ->
  since_silence cfg (obss ++ [o]) (rest ++ [o]).
Proof.
  intros Hns (pre & -> & Hs & Hn). exists pre. rewrite <- app_assoc in *. split_and!; [done..|]. intros r Hr Hp.
  destruct Hp as [k Hk]. destruct k as [|x k _] using rev_ind; [rewrite app_nil_r in Hk; by rewrite <- Hk|].
  rewrite app_assoc in Hk. apply app_inj_tail in Hk as [-> _]. apply Hn; [done|]. by exists k.
Qed.

(** The state a trace leaves is the state of what came after the last silence. *)
Lemma observe_since cfg t0 obss : Z.of_nat (length obss) < 2 ^ 63 -> exists rest, since_silence cfg obss rest
  /\ g_Breaches (observe cfg (New t0) obss) = run cfg (filter presentb rest)
  /\ (g_Status (observe cfg (New t0) obss) = SAlert <-> alerted cfg (filter presentb rest)).
Proof.
  induction obss as [|o obss IH] using rev_ind; intros Hlen.
  - exists []. split_and!; [exists []; split_and!; [done|by left|]|done|split; [done|]; by intros H%alerted_nil].
    intros r Hr Hp. by apply prefix_nil_inv in Hp.
  - rewrite length_app in Hlen. cbn [length] in Hlen. destruct IH as (rest & Hsince & Hb & Ha); [lia|].
    pose proof (no_data_trace cfg t0 (obss ++ [o])) as Hnd. rewrite observe_snoc in *.
    destruct (decide (g_Status (Step (observe cfg (New t0) obss) o cfg).1 = SNoData)) as [E|E].
    + assert (Hsil := proj1 Hnd E). exists []. split_and!.
      * exists (obss ++ [o]). rewrite app_nil_r. split_and!; [done|by right|]. intros r Hr Hp. by apply prefix_nil_inv in Hp.
      * apply silenced_snoc in Hsil as [Ho _]. rewrite Step_status, Ho in E. by rewrite Step_breaches, Ho, E.
      * rewrite E. split; [done|]. by intros H%alerted_nil.
    + exists (rest ++ [o]). split; [apply since_silence_snoc; [by rewrite <- Hnd|done]|].
      rewrite Step_status in E |- *. rewrite Step_breaches, filter_app. destruct (o_Present o) eqn:Ep.
      * rewrite evaluate_breaches, evaluate_alert, filter_cons_True, filter_nil by done.
        rewrite crit_run_snoc, alerted_snoc, Ha, Hb.
        assert (Hsmall : int64 (run cfg (filter presentb rest) + 1) = run cfg (filter presentb rest) + 1).
        { apply int64_id. pose proof (run_nonneg cfg (filter presentb rest)). pose proof (run_length cfg (filter presentb rest)).
          pose proof (length_filter presentb rest). destruct Hsince as (pre & -> & _). rewrite length_app in Hlen.
          unfold is_i64. lia. }
        by rewrite Hsmall.
      * rewrite (bool_decide_eq_false_2 _ E), filter_cons_False, filter_nil, app_nil_r by (unfold presentb; congruence).
        split; [done|]. rewrite <- Ha. unfold noData in E |- *. by repeat case_match.
Qed.

(** C25: a group is in ALERT exactly when, among the values seen since it was last
    NO_DATA (among all of them, if it never was), some [min_consecutive_failures]
    consecutive ones breached critical and every value since has stayed past
    critical_recovery; a group that breaches fewer times in a row, or recovers, or
    falls silent for no_data_timeframe, is not in ALERT, and a silence that long
    starts the count again.  Missing observations that do not amount to such a
    silence change nothing.  The counter is an int, so the trace is shorter than
    2^63 observations. *)
Theorem alert_trace cfg t0 obss : Z.of_nat (length obss) < 2 ^ 63 ->
  g_Status (observe cfg (New t0) obss) = SAlert
  <-> exists rest, since_silence cfg obss rest /\ alerted cfg (filter presentb rest).
Proof.
  intros Hlen. destruct (observe_since cfg t0 obss Hlen) as (rest & Hs & _ & Ha). rewrite Ha. split; [by eauto|].
  intros (rest' & Hs' & Hr). by rewrite (since_silence_unique _ _ _ _ Hs Hs').
Qed.

(** A queue-depth monitor: alert above 20, recover at 15 or below, warn above 10, two failures, no-data after a minute. *)
Definition queue_thresholds : Thresholds :=
  MkThresholds (Some 0x4034000000000000) (Some 0x4024000000000000) (Some 0x402E000000000000) None.
Definition queue_levels : Levels := (levels OpGT 0x4034000000000000 queue_thresholds).1.
Definition queue_config : Config := MkConfig queue_levels 2 (60 * Second) (600 * Second) false.
(** At second [t], the value [v] with data of the same second. *)
Definition seen_at (t v : Z) : Observation := MkObservation (t * Second) (t * Second) true v (t * Second).
Definition silent_at (t : Z) : Observation := MkObservation (t * Second) (t * Second) false 0 0.
(** 21, 21, 18: past critical twice, then inside the band. *)
Definition queue_trace : list Observation :=
  [seen_at 100 0x4035000000000000; seen_at 130 0x4035000000000000; seen_at 160 0x4032000000000000].

(** The same group after a silence of 140 seconds, and one breach later. *)
Lemma alert_trace_witness :
  let silence := queue_trace ++ [silent_at 300] in
  (exists rest, since_silence queue_config queue_trace rest /\ alerted queue_config (filter presentb rest))
  /\ g_Status (observe queue_config (New 0) silence) = SNoData
  /\ ~ (exists rest, since_silence queue_config (silence ++ [seen_at 330 0x4035000000000000]) rest
         /\ alerted queue_config (filter presentb rest)).
Proof.
  split_and!.
  - apply (alert_trace queue_config 0 queue_trace); [done|by vm_compute].
  - by vm_compute.
  - intros H. apply (alert_trace queue_config 0) in H; [|done]. vm_compute in H. discriminate H.
Defined.

(** ** What a status says of the value it was computed from *)

(** With thresholds that validate, a status computed from a value, whatever
    the state before, is true of that value: ALERT is past critical_recovery, WARN
    is past warning_recovery but has no full critical run, OK is past neither
    warning nor a full critical run; a full critical run is always ALERT, and NO_DATA
    never survives a value. *)
Theorem status_sound op threshold th cfg prev o : levels op threshold th = (c_Levels cfg, []) -> o_Present o = true ->
  let lv := c_Levels cfg in
  let g := (Step prev o cfg).1 in
  let full := crit cfg o = true /\ Z.max (c_MinFailures cfg) 1 <= g_Breaches g in
  (full -> g_Status g = SAlert) /\
  match g_Status g with
  | SAlert => Breach lv (o_Value o) (lv_CriticalRecovery lv) = true
  | SWarn => lv_HasWarning lv = true /\ Breach lv (o_Value o) (lv_WarningRecovery lv) = true /\ ~ full
  | SOK => (lv_HasWarning lv = true -> Breach lv (o_Value o) (lv_Warning lv) = false) /\ ~ full
  | SNoData => False
  end.
Proof.
  intros Hl%levels_sound Hp lv g full. subst full g. rewrite Step_status, Step_breaches, Hp, evaluate_breaches.
  destruct Hl as [Hrec _ Hwrec]. specialize (Hrec (o_Value o)). specialize (Hwrec (o_Value o)).
  unfold evaluate, crit. fold lv in Hrec, Hwrec |- *.
  generalize (match g_Status prev with SNoData => SOK | s => s end). intros from.
  destruct (Breach lv (o_Value o) (lv_Critical lv)); cbn [andb];
    [destruct (Z.leb_spec (Z.max (c_MinFailures cfg) 1) (int64 (g_Breaches prev + 1))); [cbn; auto|]|];
    destruct (Breach lv (o_Value o) (lv_CriticalRecovery lv)), (lv_HasWarning lv), (Breach lv (o_Value o) (lv_Warning lv)),
      (Breach lv (o_Value o) (lv_WarningRecovery lv)), (bool_decide (from = SAlert)), (bool_decide (from = SWarn));
      cbn; intuition (discriminate || lia).
Qed.

Lemma status_sound_witness : let o := seen_at 160 0x4032000000000000 in
  levels OpGT 0x4034000000000000 queue_thresholds = (queue_levels, [])
  /\ g_Status (Step (New 0) o queue_config).1 = SWarn
  /\ Breach queue_levels (o_Value o) (lv_WarningRecovery queue_levels) = true.
Proof.
  intros o. split; [by vm_compute|]. split; [by vm_compute|].
  assert (Hl : levels OpGT 0x4034000000000000 queue_thresholds = (c_Levels queue_config, [])) by (by vm_compute).
  pose proof (status_sound OpGT 0x4034000000000000 queue_thresholds queue_config (New 0) o Hl eq_refl) as [_ H].
  assert (Hs : g_Status (Step (New 0) o queue_config).1 = SWarn) by (by vm_compute). rewrite Hs in H. apply H.
Defined.

(** ** Notifications *)

(** The notifications a group's observations owe, with their times. *)
Fixpoint notified (cfg : Config) (g : Group) (obss : list Observation) : list (Z * Result_) :=
  match obss with
  | [] => []
  | o :: obss =>
      let '(g', res) := Step g o cfg in
      (if bool_decide (r_Notify res = NotifyNone) then [] else [(o_Now o, res)]) ++ notified cfg g' obss
  end.

(** A coherent announcement sequence for someone last told status [s] at [t]: every
    transition leaves the status last told, and a reminder repeats a bad one no
    sooner than the renotify interval. *)
Fixpoint coherent (renotify : Z) (s : Status) (t : Z) (ns : list (Z * Result_)) : Prop :=
  match ns with
  | [] => True
  | (t', r) :: ns =>
      r_From r = s /\
      match r_Notify r with
      | NotifyNone => False
      | NotifyTransition => r_To r <> s
      | NotifyRenotify => r_To r = s /\ (s = SAlert \/ s = SNoData) /\ 0 < renotify /\ renotify <= Sub t' t
      end /\ coherent renotify (r_To r) t' ns
  end.

(** What they last told. *)
Definition told (s : Status) (t : Z) (ns : list (Z * Result_)) : Status * Z :=
  foldl (fun _ n => (r_To n.2, n.1)) (s, t) ns.

Lemma Step_result prev o cfg : let g := (Step prev o cfg).1 in let r := (Step prev o cfg).2 in
  c_Muted cfg = false ->
  r_From r = g_Status prev /\ r_To r = g_Status g /\
  match r_Notify r with
  | NotifyNone => g_Status g = g_Status prev /\ g_LastNotified g = g_LastNotified prev /\
      (0 < c_Renotify cfg -> g_Status g = SAlert \/ g_Status g = SNoData -> Sub (o_Now o) (g_LastNotified prev) < c_Renotify cfg)
  | NotifyTransition => g_Status g <> g_Status prev /\ g_LastNotified g = o_Now o
  | NotifyRenotify => g_Status g = g_Status prev /\ g_LastNotified g = o_Now o /\
      (g_Status g = SAlert \/ g_Status g = SNoData) /\ 0 < c_Renotify cfg /\ c_Renotify cfg <= Sub (o_Now o) (g_LastNotified prev)
  end.
Proof.
  intros g r Hm. subst g r. unfold Step. destruct (if negb (o_Present o) then _ else _) as [[[status breaches] value] data].
  rewrite Hm. cbn [fst snd r_From r_To r_Notify g_Status g_LastNotified]. split_and!; [done..|].
  unfold Changed. destruct (bool_decide_reflect (g_Status prev = status)) as [<-|Hne]; cbn [negb]; [|by split].
  destruct (Z.ltb_spec 0 (c_Renotify cfg)); cbn [andb]; [|split_and!; [done..|]; lia].
  destruct (bool_decide_reflect (g_Status prev = SAlert)), (bool_decide_reflect (g_Status prev = SNoData)); cbn [orb andb];
    try (destruct (Z.leb_spec (c_Renotify cfg) (Sub (o_Now o) (g_LastNotified prev))); cbn); naive_solver.
Qed.

Lemma notified_spec cfg obss : c_Muted cfg = false -> forall g,
  coherent (c_Renotify cfg) (g_Status g) (g_LastNotified g) (notified cfg g obss)
  /\ told (g_Status g) (g_LastNotified g) (notified cfg g obss)
     = (g_Status (observe cfg g obss), g_LastNotified (observe cfg g obss)).
Proof.
  intros Hm. induction obss as [|o obss IH]; intros g; [done|]. unfold observe. cbn [notified foldl].
  pose proof (Step_result g o cfg Hm) as (Hf & Ht & Hn). destruct (Step g o cfg) as [g' r]. cbn [fst snd] in *.
  specialize (IH g') as [IHc IHt]. unfold observe in IHt.
  destruct (bool_decide_reflect (r_Notify r = NotifyNone)) as [E|E]; cbn [app].
  - rewrite E in Hn. destruct Hn as (<- & <- & _). done.
  - unfold told. cbn [coherent foldl fst snd]. rewrite Ht.
    destruct (r_Notify r); [done| |].
    + destruct Hn as (Hs & <-). split_and!; done.
    + destruct Hn as (Hs & <- & Hn). rewrite <- Hs in *. split_and!; tauto || done.
Qed.

Lemma renotify_prompt cfg prev o : c_Muted cfg = false -> 0 < c_Renotify cfg -> let g := (Step prev o cfg).1 in
  g_Status g = SAlert \/ g_Status g = SNoData -> Sub (o_Now o) (g_LastNotified g) < c_Renotify cfg.
Proof.
  intros Hm Hr g Hb. pose proof (Step_result prev o cfg Hm) as (_ & _ & Hn). fold g in Hn.
  assert (Hz : forall t, Sub t t = 0) by (intros t; unfold Sub; lia).
  destruct (r_Notify _).
  - destruct Hn as (_ & -> & Hn). auto.
  - destruct Hn as (_ & ->). by rewrite Hz.
  - destruct Hn as (_ & -> & _). by rewrite Hz.
Qed.

(** C31: while a monitor is not muted, its notifications for a group tell its whole
    story: each transition leaves the status last announced, the last one announced
    is the group's status and LastNotified its time, a reminder repeats ALERT or
    NO_DATA no sooner than the renotify interval after the message before it, and no
    evaluation leaves a bad status unannounced for as long as that interval. *)
Theorem announcements cfg t0 obss : c_Muted cfg = false ->
  let g := observe cfg (New t0) obss in let ns := notified cfg (New t0) obss in
  coherent (c_Renotify cfg) SOK 0 ns /\ told SOK 0 ns = (g_Status g, g_LastNotified g)
  /\ (forall pre o, obss = pre ++ [o] -> 0 < c_Renotify cfg -> g_Status g = SAlert \/ g_Status g = SNoData ->
        Sub (o_Now o) (g_LastNotified g) < c_Renotify cfg).
Proof.
  intros Hm g ns. destruct (notified_spec cfg obss Hm (New t0)) as [Hc Ht]. split_and!; [done..|].
  intros pre o -> Hr. subst g. rewrite observe_snoc. by apply renotify_prompt.
Qed.

(** ALERT announced on the second failure, a reminder ten minutes later, NO_DATA after the silence. *)
Lemma announcements_witness :
  let obss := queue_trace ++ [seen_at 730 0x4035000000000000; silent_at 760; silent_at 790] in
  (fun n : Z * Result_ => (n.1, r_To n.2, r_Notify n.2)) <$> notified queue_config (New 0) obss
  = [(100 * Second, SWarn, NotifyTransition); (130 * Second, SAlert, NotifyTransition);
     (730 * Second, SAlert, NotifyRenotify); (790 * Second, SNoData, NotifyTransition)]
  /\ told SOK 0 (notified queue_config (New 0) obss) = (SNoData, 790 * Second).
Proof.
  intros obss. split; [by vm_compute|].
  pose proof (announcements queue_config 0 obss eq_refl) as (_ & H & _). rewrite H. by vm_compute.
Defined.
