(* ===== verification/MonitorDurable.v ===== *)
(** * Evaluations are durable before they are adopted

    What an accepted evaluation leaves in memory and in the database, also the first
    one after an edit of the query, that a refused commit changes nothing, every
    notification handed over is queued, and a restart reloads what was adopted. *)

From Stdlib Require Import ZArith Lia.
From Stdlib Require Import (notations) String.
From stdpp Require Import base sorting gmap numbers list.
From S2P Require Import Prelude Gofloat Gostring Monitor.

Section Durable.
Context {G O : Type}.
Variable notifications : groupStep G -> list O.
Notation states := (gmap gostring (tracked G)).

(** ** What a list of steps writes *)

Definition step_tracked (st : groupStep G) : tracked G := MkTracked (s_Next st) (s_Group st).
Definition upserts : list (groupStep G) -> list (gostring * tracked G) :=
  omap (fun st => if s_Deleted st then None else Some (s_Key st, step_tracked st)).
Definition expirations : list (groupStep G) -> list gostring :=
  omap (fun st => if s_Deleted st then Some (s_Key st) else None).
Definition history (now : Z) (steps : list (groupStep G)) : list EventRow :=
  steps ≫= fun st => if s_Deleted st then [expired_event now st] else step_events now st.
Definition owed (steps : list (groupStep G)) : list O :=
  steps ≫= fun st => if s_Deleted st || bool_decide (r_Notify (s_Res st) = NotifyNone) then [] else notifications st.

Definition write {A} (m : gmap gostring A) (ups : list (gostring * A)) (dels : list gostring) : gmap gostring A :=
  foldl (fun m k => delete k m) (foldl (fun m u => <[u.1 := u.2]> m) m ups) dels.

Lemma delete_inserts {A} (m : gmap gostring A) k ups : k ∉ ups.*1 ->
  delete k (foldl (fun m u => <[u.1 := u.2]> m) m ups) = foldl (fun m u => <[u.1 := u.2]> m) (delete k m) ups.
Proof.
  revert m. induction ups as [|[k' a] ups IH]; intros m Hk; [done|]. cbn in *.
  apply not_elem_of_cons in Hk as [Hne Hk]. rewrite IH by done. by rewrite delete_insert_ne.
Qed.

Lemma upserts_keys steps k : k ∈ (upserts steps).*1 -> k ∈ s_Key <$> steps.
Proof.
  induction steps as [|st steps IH]; [done|]. cbn. destruct (s_Deleted st); cbn.
  - intros H. right. by apply IH.
  - intros [->|H]%elem_of_cons; [left|right; by apply IH].
Qed.

Lemma record_steps now steps : NoDup (s_Key <$> steps) -> forall c (m : states),
  foldl (record_step notifications now) (c, m) steps =
  (MkCommit (cm_Query c) (cm_Upsert c ++ upserts steps) (cm_Delete c ++ expirations steps) (cm_Events c ++ history now steps)
     (cm_Outbox c ++ owed steps), write m (upserts steps) (expirations steps)).
Proof.
  induction steps as [|st steps IH]; intros Hnd c m.
  - destruct c. cbn. by rewrite !app_nil_r.
  - apply NoDup_cons in Hnd as [Hni Hnd]. cbn [foldl]. unfold record_step at 2. destruct (s_Deleted st) eqn:Ed.
    + rewrite IH by done. cbn. rewrite Ed. cbn. rewrite <- !app_assoc. f_equal. unfold write. cbn. f_equal.
      symmetry. apply delete_inserts. by intros H%upserts_keys.
    + rewrite IH by done. cbn. rewrite Ed. cbn. by rewrite <- !app_assoc.
Qed.

(** ** One evaluation's steps have distinct keys *)

Lemma absent_key (k : gostring) (g : G) (prev : Group) (cfg : Config) (z : bool) (now we : Z) : s_Key (absent k g prev cfg z now we) = k.
Proof. unfold absent. repeat case_match; done. Qed.

Lemma advance_value_key (cfg : Config) (m : states) (z : bool) (now we : Z) (v : EValue G) (st : groupStep G) : advance_value cfg m z now we v = Some st -> s_Key st = v_Key v.
Proof. unfold advance_value. intros H. repeat case_match; simplify_eq/=; auto using absent_key. Qed.

Lemma omap_keys_NoDup {A B K} (kA : A -> K) (kB : B -> K) (f : A -> option B) l :
  (forall a b, f a = Some b -> kB b = kA a) -> NoDup (kA <$> l) ->
  NoDup (kB <$> omap f l) /\ forall k, k ∈ kB <$> omap f l -> k ∈ kA <$> l.
Proof.
  intros Hf. induction l as [|a l IH]; [done|]. intros [Hni Hnd]%NoDup_cons. destruct (IH Hnd) as [IHn IHi]. cbn.
  destruct (f a) as [b|] eqn:E; cbn.
  - rewrite (Hf _ _ E). split.
    + apply NoDup_cons. split; [by intros H%IHi|done].
    + intros k [->|H]%elem_of_cons; [left|right; auto].
  - split; [done|]. intros k H. right. auto.
Qed.

Lemma advance_NoDup (cfg : Config) (m : states) (vals : list (EValue G)) (z : bool) (now we : Z) : NoDup (v_Key <$> vals) ->
  NoDup (s_Key <$> advance cfg m vals z now we).
Proof.
  intros Hnd. unfold advance. rewrite fmap_app.
  pose proof (omap_keys_NoDup v_Key s_Key (advance_value cfg m z now we) vals (advance_value_key _ _ _ _ _) Hnd) as [H1 H1i].
  assert (Hp : unseen m vals ≡ₚ filter (fun k => k ∉ v_Key <$> vals) (map_to_list m).*1)
    by (unfold unseen; apply merge_sort_Permutation).
  assert (Hu : NoDup (id <$> unseen m vals)).
  { rewrite list_fmap_id, Hp. apply NoDup_filter, NoDup_fst_map_to_list. }
  pose proof (omap_keys_NoDup id s_Key (fun k => (fun t => absent k (t_Group t) (t_State t) cfg z now we) <$> m !! k)
    (unseen m vals)) as [H2 H2i].
  { intros k st H. destruct (m !! k); simplify_eq/=. apply absent_key. }
  { done. }
  apply NoDup_app. split_and!; [done| |done]. intros k Hk1%H1i Hk2%H2i. rewrite list_fmap_id, Hp in Hk2.
  by apply list_elem_of_filter in Hk2 as [? _].
Qed.

(** ** Memory and database *)

Lemma deletes_lookup {A} (m : gmap gostring A) dels k :
  foldl (fun m k => delete k m) m dels !! k = if bool_decide (k ∈ dels) then None else m !! k.
Proof.
  revert m. induction dels as [|k' dels IH]; intros m; [done|]. cbn [foldl]. rewrite IH.
  destruct (decide (k = k')) as [->|Hne].
  - rewrite lookup_delete_eq. rewrite (bool_decide_eq_true_2 (k' ∈ k' :: dels)) by left. by case_bool_decide.
  - rewrite lookup_delete_ne by done. erewrite (bool_decide_ext (k ∈ k' :: dels)); [done|]. set_solver.
Qed.

Lemma inserts_lookup_other {A} (m : gmap gostring A) ups k : k ∉ ups.*1 ->
  foldl (fun m u => <[u.1 := u.2]> m) m ups !! k = m !! k.
Proof.
  revert m. induction ups as [|[k' a] ups IH]; intros m Hk; [done|]. cbn in *.
  apply not_elem_of_cons in Hk as [Hne Hk]. rewrite IH by done. by rewrite lookup_insert_ne.
Qed.

Lemma inserts_lookup {A} (m : gmap gostring A) ups k a : NoDup ups.*1 -> (k, a) ∈ ups ->
  foldl (fun m u => <[u.1 := u.2]> m) m ups !! k = Some a.
Proof.
  revert m. induction ups as [|[k' a'] ups IH]; intros m Hnd Hin; [by apply not_elem_of_nil in Hin|].
  apply NoDup_cons in Hnd as [Hni Hnd]. apply elem_of_cons in Hin as [[= <- <-]|Hin]; cbn.
  - rewrite inserts_lookup_other by done. apply lookup_insert_eq.
  - by apply IH.
Qed.

Lemma expirations_spec steps k : k ∈ expirations steps <-> exists st, st ∈ steps /\ s_Deleted st = true /\ s_Key st = k.
Proof.
  unfold expirations. rewrite list_elem_of_omap. split.
  - intros (st & Hin & H). exists st. by destruct (s_Deleted st); simplify_eq.
  - intros (st & Hin & Hd & <-). exists st. by rewrite Hd.
Qed.

Lemma upserts_NoDup steps : NoDup (s_Key <$> steps) -> NoDup (upserts steps).*1.
Proof.
  intros H. apply (omap_keys_NoDup s_Key fst (fun st => if s_Deleted st then None else Some (s_Key st, step_tracked st))); [|done].
  intros st [k t]. by destruct (s_Deleted st); intros [= <- <-].
Qed.

(** Steps with distinct keys write each group exactly as its step says; the keys
    [old] are deleted after that, written or not. *)
Lemma write_steps_old {A} (f : tracked G -> A) (m : gmap gostring A) old steps : NoDup (s_Key <$> steps) ->
  let m' := foldl (fun m k => delete k m) (foldl (fun m u => <[u.1 := f u.2]> m) m (upserts steps)) (old ++ expirations steps) in
  (forall st, st ∈ steps ->
     m' !! s_Key st = if s_Deleted st || bool_decide (s_Key st ∈ old) then None else Some (f (step_tracked st)))
  /\ (forall k, k ∉ s_Key <$> steps -> m' !! k = if bool_decide (k ∈ old) then None else m !! k).
Proof.
  intros Hnd m'. subst m'.
  assert (Hf : foldl (fun m u => <[u.1 := f u.2]> m) m (upserts steps)
    = foldl (fun m u => <[u.1 := u.2]> m) m (prod_map id f <$> upserts steps)) by (by rewrite foldl_fmap).
  assert (Hk : (prod_map id f <$> upserts steps).*1 = (upserts steps).*1)
    by (rewrite <- list_fmap_compose; by apply list_fmap_ext).
  rewrite Hf. split.
  - intros st Hin. rewrite deletes_lookup. destruct (s_Deleted st) eqn:Ed; cbn [orb].
    + rewrite bool_decide_eq_true_2; [done|]. apply elem_of_app. right. apply expirations_spec. eauto.
    + assert (Hne : s_Key st ∉ expirations steps).
      { intros (st' & Hin' & Hd & Heq)%expirations_spec.
        enough (st' = st) by congruence. apply list_elem_of_lookup in Hin as [i Hi], Hin' as [j Hj].
        assert (i = j) as -> by (eapply NoDup_lookup; [exact Hnd|rewrite list_lookup_fmap, Hi; reflexivity|
          rewrite list_lookup_fmap, Hj; cbn; congruence]). congruence. }
      rewrite (bool_decide_ext (s_Key st ∈ old ++ expirations steps) (s_Key st ∈ old)) by (rewrite elem_of_app; tauto).
      destruct (bool_decide (s_Key st ∈ old)); [done|]. apply inserts_lookup; [rewrite Hk; by apply upserts_NoDup|].
      apply list_elem_of_fmap. exists (s_Key st, step_tracked st). split; [done|].
      apply list_elem_of_omap. exists st. by rewrite Ed.
  - intros k Hni. rewrite deletes_lookup. assert (Hne : k ∉ expirations steps).
    { intros (st & Hin & _ & <-)%expirations_spec. apply Hni. by apply list_elem_of_fmap_2. }
    rewrite (bool_decide_ext (k ∈ old ++ expirations steps) (k ∈ old)) by (rewrite elem_of_app; tauto).
    destruct (bool_decide (k ∈ old)); [done|]. apply inserts_lookup_other. rewrite Hk. by intros H%upserts_keys.
Qed.

Lemma write_steps (m : states) steps : NoDup (s_Key <$> steps) ->
  (forall st, st ∈ steps ->
     write m (upserts steps) (expirations steps) !! s_Key st = if s_Deleted st then None else Some (step_tracked st))
  /\ (forall k, k ∉ s_Key <$> steps -> write m (upserts steps) (expirations steps) !! k = m !! k).
Proof.
  intros Hnd. destruct (write_steps_old id m [] steps Hnd) as [H1 H2]. split; [|done].
  intros st Hin. specialize (H1 st Hin). rewrite (bool_decide_eq_false_2 (s_Key st ∈ [])), orb_false_r in H1 by apply not_elem_of_nil. done.
Qed.

(** When no value is skipped, every group in memory takes a step. *)
Lemma advance_all (cfg : Config) (m : states) (vals : list (EValue G)) (z : bool) (now we : Z) k :
  Forall (fun v => v_Skipped v = false) vals -> is_Some (m !! k) -> k ∈ s_Key <$> advance cfg m vals z now we.
Proof.
  intros Hv [t Ht]. rewrite Forall_forall in Hv. unfold advance. rewrite fmap_app, elem_of_app.
  destruct (decide (k ∈ v_Key <$> vals)) as [Hin|Hni].
  - left. apply list_elem_of_fmap in Hin as (v & -> & Hin).
    assert (Hs : is_Some (advance_value cfg m z now we v)).
    { unfold advance_value. rewrite (Hv v Hin), Ht. destruct (v_Present v); [|by eauto]. destruct (Step _ _ _). by eauto. }
    destruct Hs as [st Hst]. rewrite <- (advance_value_key _ _ _ _ _ _ _ Hst).
    apply list_elem_of_fmap_2, list_elem_of_omap. eauto.
  - right. apply list_elem_of_fmap. exists (absent k (t_Group t) (t_State t) cfg z now we). split; [by rewrite absent_key|].
    apply list_elem_of_omap. exists k. rewrite Ht. split; [|done].
    unfold unseen. rewrite (merge_sort_Permutation _ _). apply list_elem_of_filter. split; [done|].
    apply list_elem_of_fmap. exists (k, t). split; [done|]. by apply elem_of_map_to_list.
Qed.

(** The rows are the states in memory, which answer the stored query. *)
Definition mirrors (e : @entry G) (d : @database G O) : Prop :=
  db_states d = save <$> e_states e /\ e_statesFor e = db_query d.

Lemma imap_snd {A B} (f : nat -> B) (l : list A) : (imap (fun i a => (f i, a)) l).*2 = l.
Proof. revert f. induction l as [|a l IH]; intros f; [done|]. cbn. f_equal. apply (IH (f ∘ S)). Qed.

(** The states an evaluation of this query starts from: none, when those in memory
    answer another one. *)
Definition answering (query : gostring) (e : @entry G) : states :=
  if bool_decide (e_statesFor e = query) then e_states e else ∅.
(** The keys whose rows it drops because they answered another query. *)
Definition outdated (query : gostring) (e : @entry G) : list gostring :=
  if bool_decide (e_statesFor e = query) then [] else (map_to_list (e_states e)).*1.

(** What [prepare] collects. *)
Lemma prepare_spec query cfg vals z now we (e : entry) : NoDup (v_Key <$> vals) ->
  let steps := advance cfg (answering query e) vals z now we in
  exists c, prepare notifications query cfg vals z now we e
      = (c, write (answering query e) (upserts steps) (expirations steps))
    /\ cm_Query c = query /\ cm_Upsert c = upserts steps /\ cm_Delete c = outdated query e ++ expirations steps
    /\ cm_Outbox c = owed steps
    /\ exists recovered, cm_Events c = recovered ++ history now steps /\ (recovered = [] <-> e_lastErr e = []).
Proof.
  intros Hnd steps. eexists. split_and!.
  - unfold prepare, answering. rewrite !if_negb. rewrite record_steps by (by apply advance_NoDup). reflexivity.
  - done.
  - done.
  - done.
  - done.
  - eexists. split; [reflexivity|]. by destruct (e_lastErr e).
Qed.

(** The memory and the rows an accepted evaluation leaves. *)
Record recorded (query : gostring) (e : @entry G) (d : @database G O) (steps : list (groupStep G)) (e' : @entry G)
    (d' : @database G O) : Prop := {
  rc_for : e_statesFor e' = query /\ e_lastErr e' = [] /\ db_query d' = query;
  rc_states st : st ∈ steps -> e_states e' !! s_Key st = if s_Deleted st then None else Some (step_tracked st);
  rc_other k : k ∉ s_Key <$> steps -> e_states e' !! k = answering query e !! k;
  rc_rows st : st ∈ steps -> db_states d' !! s_Key st
    = if s_Deleted st || bool_decide (s_Key st ∈ outdated query e) then None else Some (save (step_tracked st));
  rc_other_rows k : k ∉ s_Key <$> steps -> db_states d' !! k
    = if bool_decide (k ∈ outdated query e) then None else db_states d !! k;
}.

(** Rows and memory agree where the rows of groups that took no step did, unless a
    stepped group's row was dropped with the old query's. *)
Lemma recorded_mirrors query e d steps e' d' : recorded query e d steps e' d' ->
  (forall k, k ∈ outdated query e -> k ∉ s_Key <$> steps) ->
  (forall k, k ∉ s_Key <$> steps -> k ∉ outdated query e -> db_states d !! k = save <$> answering query e !! k) ->
  (forall k, k ∈ outdated query e -> answering query e !! k = None) -> mirrors e' d'.
Proof.
  intros [(Hf & _ & Hq) Hs Ho Hr Hor] Hold Heq Hnone. split; [|congruence]. apply map_eq. intros k. rewrite lookup_fmap.
  destruct (decide (k ∈ s_Key <$> steps)) as [Hin|Hni].
  - destruct (decide (k ∈ outdated query e)) as [Hd|Hd]; [by apply Hold in Hd|].
    apply list_elem_of_fmap in Hin as (st & -> & Hin). rewrite (Hr st Hin), (Hs st Hin).
    rewrite (bool_decide_eq_false_2 _ Hd), orb_false_r. by destruct (s_Deleted st).
  - rewrite (Hor k Hni), (Ho k Hni). case_bool_decide; [by rewrite Hnone|by apply Heq].
Qed.

Lemma recorded_keeps e d steps e' d' : recorded (db_query d) e d steps e' d' -> mirrors e d -> mirrors e' d'.
Proof.
  intros Hrec [Hrows Hfor]. apply (recorded_mirrors _ _ _ _ _ _ Hrec); unfold outdated, answering;
    rewrite bool_decide_eq_true_2 by done; [set_solver| |set_solver]. intros k _ _. by rewrite Hrows, lookup_fmap.
Qed.

(** When the store accepts it, an evaluation of the stored query records its steps. *)
Lemma evaluation_records cfg vals z now we ids e d : NoDup (v_Key <$> vals) -> db_query d <> [] -> db_enabled d = true ->
  let steps := advance cfg (answering (db_query d) e) vals z now we in
  let '(e', d', out) := evaluate_monitor notifications (db_query d) cfg vals z now we ids false e d in
  recorded (db_query d) e d steps e' d'
  /\ (exists recovered, db_events d' = db_events d ++ (insertEvent <$> recovered ++ history now steps)
      /\ (recovered = [] <-> e_lastErr e = []))
  /\ out.*2 = owed steps /\ db_outbox d' = db_outbox d ++ out.
Proof.
  intros Hnd Hq Hen steps. unfold evaluate_monitor.
  pose proof (prepare_spec (db_query d) cfg vals z now we e Hnd) as (c & Hp & Hcq & Hcu & Hcd & Hco & rec & Hce & Hrec).
  rewrite Hp. unfold CommitDB.
  rewrite Hcq, (bool_decide_eq_true_2 (db_query d = db_query d)), andb_false_r, orb_false_r, Hen by done. cbn [negb].
  cbn [e_states db_events db_outbox]. rewrite Hcu, Hcd, Hco, Hce.
  pose proof (advance_NoDup cfg (answering (db_query d) e) vals z now we Hnd) as Hnd'. fold steps in Hnd' |- *.
  destruct (write_steps (answering (db_query d) e) steps Hnd') as [Hw Hw'].
  destruct (write_steps_old save (db_states d) (outdated (db_query d) e) steps Hnd') as [Hr Hr'].
  split_and!; [by constructor|by eauto|apply imap_snd|done].
Qed.

Lemma evaluation_refused query cfg vals z now we ids refused e d : NoDup (v_Key <$> vals) -> query <> [] ->
  bool_decide (query = db_query d) && db_enabled d && negb refused = false ->
  evaluate_monitor notifications query cfg vals z now we ids refused e d = (e, d, []).
Proof.
  intros Hnd Hq Hacc. unfold evaluate_monitor.
  pose proof (prepare_spec query cfg vals z now we e Hnd) as (c & -> & Hcq & _). unfold CommitDB.
  rewrite Hcq, (bool_decide_eq_false_2 (query = [])) by done.
  by destruct (bool_decide (query = db_query d)), (db_enabled d), refused.
Qed.

(** Every row is of a group in memory. *)
Definition rows_known (e : @entry G) (d : @database G O) : Prop :=
  forall k, is_Some (db_states d !! k) -> is_Some (e_states e !! k).

Lemma recorded_known query e d steps e' d' : recorded query e d steps e' d' -> db_states d = ∅ -> rows_known e' d'.
Proof.
  intros [_ Hs _ Hr Hor] Hemp k [r Hk]. destruct (decide (k ∈ s_Key <$> steps)) as [Hin|Hni].
  - apply list_elem_of_fmap in Hin as (st & -> & Hin). rewrite (Hr st Hin) in Hk. rewrite (Hs st Hin).
    destruct (s_Deleted st); [done|]. by eauto.
  - rewrite (Hor k Hni), Hemp, lookup_empty in Hk. by case_match.
Qed.

(** C26: an accepted evaluation, whatever states it starts from, leaves in memory
    each stepped group as its step left it and the others as they were (none, when
    the states in memory answered an older query), records in the history every
    transition, reminder and expiry, and hands over exactly the notifications owed,
    which are queued in the outbox.  When the states in memory answer the query, the
    row of each stepped group is its new state, the other rows are untouched, and
    rows equal to the states stay equal to them.  The first evaluation after an edit
    of the query also drops the rows of all the keys the old query had, among them
    the row it has just written for a group whose key the new query has too; so,
    with the rows emptied by the edit, they equal the states when no key is shared,
    and in any case after the next accepted evaluation that skips no value.  When
    the store refuses an evaluation, or the monitor is disabled or has another query
    by now, nothing changes and nothing is handed over. *)
Theorem evaluation_durable query cfg vals z now we ids refused e d :
  NoDup (v_Key <$> vals) -> query <> [] ->
  let '(e', d', out) := evaluate_monitor notifications query cfg vals z now we ids refused e d in
  let steps := advance cfg (answering query e) vals z now we in
  if bool_decide (query = db_query d) && db_enabled d && negb refused then
    recorded query e d steps e' d'
    /\ (exists recovered, db_events d' = db_events d ++ (insertEvent <$> recovered ++ history now steps)
        /\ (recovered = [] <-> e_lastErr e = []))
    /\ out.*2 = owed steps /\ db_outbox d' = db_outbox d ++ out
    /\ (mirrors e d -> mirrors e' d')
    /\ (e_statesFor e <> query -> db_states d = ∅ ->
        (forall k, is_Some (e_states e !! k) -> k ∉ s_Key <$> steps) -> mirrors e' d')
    /\ (e_statesFor e <> query -> db_states d = ∅ -> rows_known e' d')
    /\ (e_statesFor e = query -> rows_known e d -> Forall (fun v => v_Skipped v = false) vals -> mirrors e' d')
  else e' = e /\ d' = d /\ out = [].
Proof.
  intros Hnd Hq. destruct (bool_decide (query = db_query d) && db_enabled d && negb refused) eqn:Hacc.
  2:{ by rewrite evaluation_refused. }
  apply andb_prop in Hacc as [[->%bool_decide_eq_true Hen]%andb_prop Href]. destruct refused; [done|].
  pose proof (evaluation_records cfg vals z now we ids e d Hnd Hq Hen) as Hrec. cbn zeta in Hrec.
  destruct (evaluate_monitor _ _ _ _ _ _ _ _ _ _ _) as [[e' d'] out]. set (steps := advance _ _ _ _ _ _) in *.
  destruct Hrec as (Hrec & Hev & Ho & Hob). unfold answering in steps. split_and!; [done..| | | |].
  - by apply (recorded_keeps _ _ _ _ _ Hrec).
  - intros Hne Hemp Hdis. apply (recorded_mirrors _ _ _ _ _ _ Hrec); unfold outdated, answering;
      rewrite bool_decide_eq_false_2 by done; [|intros k _ _; by rewrite Hemp, !lookup_empty|intros; apply lookup_empty].
    intros k ([k' t] & -> & Hin%elem_of_map_to_list)%list_elem_of_fmap. apply Hdis. by eauto.
  - intros _. by apply (recorded_known _ _ _ _ _ _ Hrec).
  - intros Hfor Hk Hsk. subst steps. rewrite bool_decide_eq_true_2 in Hrec by done.
    apply (recorded_mirrors _ _ _ _ _ _ Hrec); unfold outdated, answering;
      rewrite bool_decide_eq_true_2 by done; [set_solver| |set_solver].
    intros k Hni _. destruct (e_states e !! k) eqn:E; [destruct Hni; apply advance_all; by eauto|].
    destruct (db_states d !! k) eqn:E'; [|done]. destruct (Hk k) as [? ?]; [by eauto|congruence].
Qed.

(** ** Restarts *)

(** A time the tables hold exactly: whole milliseconds, and not the epoch itself,
    whose row is the unset time's. *)
Definition whole_ms (t : Z) : Prop := t mod 1000000 = 0 /\ t <> unixEpoch.
Definition stored_time (t : Z) : Prop := timeOrZero (msOrZero t) = t.
Definition stored_value (v : Z) : Prop := default NaN (nullFloat v) = v.
(** A state the tables hold exactly. *)
Definition stored_group (g : Group) : Prop :=
  stored_time (g_Since g) /\ stored_value (g_LastValue g) /\ stored_time (g_LastEval g) /\ stored_time (g_LastData g)
  /\ stored_time (g_LastNotified g).

Lemma whole_ms_stored t : whole_ms t -> stored_time t.
Proof.
  intros [Hm Hne]. unfold stored_time, timeOrZero, msOrZero, IsZero, UnixMilli, fromUnixMilli.
  destruct (Z.eqb_spec t 0) as [->|_]; [done|].
  assert (He : unixEpoch mod 1000000 = 0) by reflexivity.
  assert (Hd : 1000000 * ((t - unixEpoch) / 1000000) = t - unixEpoch)
    by (symmetry; apply Z.div_exact; [done|]; by rewrite Zminus_mod, Hm, He).
  destruct (Z.eqb_spec ((t - unixEpoch) / 1000000) 0); lia.
Qed.

Lemma restore_save (t : tracked G) : stored_group (t_State t) <-> restore (save t) = t.
Proof.
  destruct t as [[s si b lv le ld ln] g]. unfold stored_group, restore, save, stored_time, stored_value. cbn. split.
  - by intros (-> & -> & -> & -> & ->).
  - intros H. injection H. done.
Qed.

Lemma Step_stored prev o cfg : stored_group prev -> whole_ms (o_Now o) ->
  (o_Present o = true -> whole_ms (o_DataTs o) /\ stored_value (o_Value o)) -> stored_group (Step prev o cfg).1.
Proof.
  intros (H1 & H2 & H3 & H4 & H5) Hn%whole_ms_stored Hp. unfold Step.
  destruct (o_Present o); cbn [negb].
  - destruct (Hp eq_refl) as [Hd%whole_ms_stored Hv]. destruct (evaluate _ _ _) as [s b].
    unfold stored_group. cbn. split_and!; [by case_match|done|done|by case_match|by case_match].
  - unfold stored_group. cbn. split_and!; [by case_match|done..|by case_match].
Qed.

Lemma New_stored now : whole_ms now -> stored_group (New now).
Proof. intros H%whole_ms_stored. by repeat split. Qed.

Definition stored_states (m : states) : Prop := map_Forall (fun _ t => stored_group (t_State t)) m.
(** Values computed from points with whole timestamps, none of them infinite. *)
Definition stored_vals (vals : list (EValue G)) : Prop :=
  Forall (fun v => v_Present v = true -> whole_ms (v_DataTs v) /\ stored_value (v_Value v)) vals.

Lemma absent_stored k (g : G) prev cfg z now we : stored_group prev -> whole_ms now ->
  stored_group (s_Next (absent k g prev cfg z now we)).
Proof.
  intros Hp Hn. unfold absent. destruct (negb _ && _); [done|].
  assert (Hs : forall b v, (b = true -> stored_value v) ->
    stored_group (Step prev (MkObservation now we b v 0) cfg).1).
  { intros b v Hv. apply Step_stored; [done..|]. cbn. intros Hb. split; [|auto]. split; [done|]. intros H. by apply (f_equal (Z.eqb 0)) in H. }
  destruct z; [specialize (Hs true 0 (fun _ => eq_refl))|specialize (Hs false 0 (fun H => False_ind _ (diff_false_true H)))];
    by destruct (Step _ _ _).
Qed.

Lemma advance_stored (cfg : Config) (m : states) (vals : list (EValue G)) (z : bool) (now we : Z) : stored_states m -> stored_vals vals -> whole_ms now ->
  Forall (fun st => stored_group (s_Next st)) (advance cfg m vals z now we).
Proof.
  intros Hm Hv Hn. unfold advance. apply Forall_app. split; apply Forall_forall; intros st; rewrite list_elem_of_omap.
  - intros (v & Hin & Hs). unfold stored_vals in Hv. rewrite Forall_forall in Hv. specialize (Hv v Hin). revert Hs.
    unfold advance_value. destruct (v_Skipped v); [done|]. destruct (v_Present v).
    + match goal with |- context [Step ?p ?o cfg] => pose proof (Step_stored p o cfg) as Hst end.
      destruct (Step _ _ _) as [next res]. intros [= <-]. cbn in *. apply Hst; [|done|done].
      destruct (m !! v_Key v) eqn:E; [by apply (Hm _ _ E)|by apply New_stored].
    + destruct (m !! v_Key v) eqn:E; [|done]. intros [= <-]. apply absent_stored; [by apply (Hm _ _ E)|done].
  - intros (k & Hin & Hs). destruct (m !! k) eqn:E; simplify_eq/=. apply absent_stored; [by apply (Hm _ _ E)|done].
Qed.

(** A restart is invisible. When evaluations run at whole milliseconds on
    finite values, the states an accepted evaluation leaves are exactly the states
    a scheduler that starts over reads back, so the next evaluation steps the same
    groups from the same states. *)
Theorem restart_invisible cfg vals z now we ids e d :
  mirrors e d -> stored_states (e_states e) -> stored_vals vals -> whole_ms now -> NoDup (v_Key <$> vals) ->
  db_query d <> [] -> db_enabled d = true ->
  let '(e', d', _) := evaluate_monitor notifications (db_query d) cfg vals z now we ids false e d in
  load_entry d' = e' /\ stored_states (e_states e').
Proof.
  intros Hmir Hst Hv Hn Hnd Hq Hen.
  pose proof (evaluation_records cfg vals z now we ids e d Hnd Hq Hen) as Hrec. cbn zeta in Hrec.
  assert (Hans : answering (db_query d) e = e_states e) by (unfold answering; by rewrite bool_decide_eq_true_2 by apply Hmir).
  pose proof (advance_stored cfg (e_states e) vals z now we Hst Hv Hn) as Hall. rewrite Forall_forall in Hall.
  destruct (evaluate_monitor _ _ _ _ _ _ _ _ _ _ _) as [[e' d'] out]. destruct Hrec as [Hrec _].
  pose proof (recorded_keeps _ _ _ _ _ Hrec Hmir) as [Hrows _]. destruct Hrec as [(Hf & Hl & Hdq) Hs Ho _ _].
  rewrite Hans in Hs, Ho. set (steps := advance cfg (e_states e) vals z now we) in *.
  assert (Hnext : stored_states (e_states e')).
  { intros k t Hk. destruct (decide (k ∈ s_Key <$> steps)) as [Hin|Hni].
    - apply list_elem_of_fmap in Hin as (st & -> & Hin). rewrite (Hs st Hin) in Hk. destruct (s_Deleted st); simplify_eq.
      by apply Hall.
    - rewrite (Ho k Hni) in Hk. by apply (Hst k t). }
  split; [|done]. unfold load_entry. rewrite Hrows, Hdq, <- map_fmap_compose. destruct e' as [next q err]. cbn in *. subst q err.
  f_equal. rewrite <- (map_fmap_id next) at 2. apply map_fmap_ext. intros k t Hk. apply restore_save. by apply (Hnext k t).
Qed.
End Durable.

(** ** A concrete monitor *)

(** One group, alerting above 20 at the first failure. *)
Definition demo_levels : Levels := MkLevels OpGT 0x4034000000000000 0x4034000000000000 false 0 0.
Definition demo_config : Config := MkConfig demo_levels 1 0 0 false.
Definition demo_query : gostring := str "avg:queue.depth{*} > 20".
Definition demo_database : @database unit gostring := MkDatabase true demo_query ∅ [] [].
Definition demo_notify (st : groupStep unit) : list gostring := [s_Key st].
Definition star : gostring := str "*".
Definition demo_now : Z := unixEpoch + 1700000000 * Second.
(** The value 21, at this second. *)
Definition demo_values : list (EValue unit) := [MkEValue star tt true false 0x4035000000000000 demo_now].

Lemma demo_mirrors : mirrors (load_entry demo_database) demo_database.
Proof. split; [by vm_compute|done]. Qed.

Lemma demo_NoDup : NoDup (v_Key <$> demo_values).
Proof. apply NoDup_singleton. Qed.

Lemma restart_invisible_witness :
  let '(e', d', _) := evaluate_monitor demo_notify (db_query demo_database) demo_config demo_values false demo_now demo_now
    (fun i => Z.of_nat i) false (load_entry demo_database) demo_database in load_entry d' = e'.
Proof.
  assert (Hnow : whole_ms demo_now) by (split; [by vm_compute|]; intros H; vm_compute in H; discriminate H).
  pose proof (restart_invisible demo_notify demo_config demo_values false demo_now demo_now (fun i => Z.of_nat i)
    (load_entry demo_database) demo_database demo_mirrors) as H.
  destruct (evaluate_monitor _ _ _ _ _ _ _ _ _ _ _) as [[e' d'] out]. apply H.
  - assert (He : e_states (load_entry demo_database) = ∅) by (by vm_compute). rewrite He. apply map_Forall_empty.
  - apply Forall_singleton. intros _. split; [exact Hnow|by vm_compute].
  - exact Hnow.
  - exact demo_NoDup.
  - intros Hq. discriminate Hq.
  - done.
Defined.

(** The demonstration monitor after its query changed from another one with the
    same, ungrouped, key. *)
Definition old_query : gostring := str "max:queue.depth{*} > 20".
Definition before_edit : @entry unit * @database unit gostring :=
  let d := MkDatabase true old_query ∅ [] [] in
  let '(e, d, _) := evaluate_monitor demo_notify old_query demo_config demo_values false demo_now demo_now (fun i => Z.of_nat i) false
    (load_entry d) d in (e, d).

(** One evaluation of the demonstration monitor, [n] half minutes later. *)
Definition demo_tick (e : @entry unit) (d : @database unit gostring) (n : Z) :=
  evaluate_monitor demo_notify demo_query demo_config demo_values false (demo_now + n * 30 * Second)
    (demo_now + n * 30 * Second) (fun i => Z.of_nat i) false e d.
Definition plain_tick := demo_tick (load_entry demo_database) demo_database 0.
Definition edited_tick := demo_tick before_edit.1 (resetIfQueryChanged demo_query demo_now before_edit.2) 1.
Definition next_tick := demo_tick edited_tick.1.1 edited_tick.1.2 2.

(** An evaluation keeps the rows equal to the states; after the edit they are equal
    again after the second evaluation, not after the first. *)
Lemma evaluation_durable_witness :
  (mirrors plain_tick.1.1 plain_tick.1.2 /\ db_outbox plain_tick.1.2 = [(0, star)] /\ plain_tick.2 = [(0, star)])
  /\ ~ mirrors edited_tick.1.1 edited_tick.1.2 /\ mirrors next_tick.1.1 next_tick.1.2.
Proof.
  pose proof (fun e d n => evaluation_durable demo_notify demo_query demo_config demo_values false (demo_now + n * 30 * Second)
    (demo_now + n * 30 * Second) (fun i => Z.of_nat i) false e d demo_NoDup (fun H => ltac:(discriminate H))) as H.
  split; [split; [|by vm_compute]|split].
  - specialize (H (load_entry demo_database) demo_database 0).
    unfold plain_tick, demo_tick. destruct (evaluate_monitor _ _ _ _ _ _ _ _ _ _ _) as [[e d] out].
    rewrite (bool_decide_eq_true_2 (demo_query = db_query demo_database)) in H by reflexivity.
    destruct H as (_ & _ & _ & _ & H & _). apply H, demo_mirrors.
  - intros [Hm _]. apply (f_equal (fun m => m !! star)) in Hm. vm_compute in Hm. discriminate Hm.
  - assert (Hacc : bool_decide (demo_query = db_query edited_tick.1.2) && db_enabled edited_tick.1.2 && negb false = true)
      by (by vm_compute).
    assert (Hrows : db_states edited_tick.1.2 = ∅) by (by vm_compute).
    specialize (H edited_tick.1.1 edited_tick.1.2 2). rewrite Hacc in H.
    unfold next_tick, demo_tick. destruct (evaluate_monitor _ _ _ _ _ _ _ _ _ _ _) as [[e d] out].
    destruct H as (_ & _ & _ & _ & _ & _ & _ & H). apply H; [by vm_compute| |by apply Forall_singleton].
    intros k [r Hr]. rewrite Hrows, lookup_empty in Hr. discriminate Hr.
Defined.

(** After an edit of the query, the first evaluation puts a group whose key the
    old query also had in ALERT and announces it, but leaves no row for it: the
    commit deletes the old keys after it writes the new ones. A restart before the
    next evaluation therefore forgets the ALERT and announces it a second time,
    which the running scheduler does not. *)
Theorem edited_query_forgets_alert :
  let '(e, d, out) := edited_tick in
  (g_Status ∘ t_State <$> e_states e !! star) = Some SAlert /\ out.*2 = [star] /\ db_states d !! star = None
  /\ (demo_tick e d 2).2.*2 = [] /\ (demo_tick (load_entry d) d 2).2.*2 = [star].
Proof. by vm_compute. Qed.
